(* ===== verification/_CoqProject ===== *)
-Q . S2P
Prelude.v
GoNet.v
Reasons.v
PeerTable.v
GoFloat.v
PathData.v
Backoff.v
PathCore.v
PathInv.v
PathTrial.v
PathTrigger.v
PathSteps.v
PathArbitration.v
PathQuality.v
PathDeath.v
PathGate.v
PathRace.v
PathFrames.v
PunchAddrs.v
PunchManager.v
GoText.v
SignalRegistry.v
PunchTable.v
SignalServer.v
PunchIntent.v
GoStrings.v
UserStore.v
IPAlloc.v
VpnAuth.v
AdminAuth.v
AdminState.v
DataServer.v
Relay.v
Dhcp.v
NatDetect.v
HyFile.v
PinStore.v
Varint.v
HyProto.v
SignalStream.v
QuicDC.v
AckHistory.v
Wire.v
AckFrame.v
AckTracker.v
WireFrames.v
FlowControl.v
GapTree.v
FrameSorter.v
SendStream.v
SendInv.v
StreamPipe.v
ReceiveStream.v
ReceiveInv.v
ReceivePeek.v
StreamRead.v
RttStats.v
EcnTracker.v
SentHistory.v
SentHistInv.v
LossDetection.v
LossInv.v
LossOps.v
LossAck.v
LossHandler.v
LossSend.v
LossGive.v
LossRun.v
LossTimer.v
ClientTraffic.v
ClientConnect.v
AppLifecycle.v
