(* ===== verification/Prelude.v ===== *)
(** * Hy2Link: the server, the client and their peer-to-peer plane

    Hy2Link is a VPN of clients ([vpn-tool], Go) around a server ([vpn-server])
    over QUIC. Two clients that exchange traffic through the server can get a
    direct QUIC connection: the client that sees traffic asks the server to
    coordinate, both punch through their NATs, and the connection goes through a
    trial beside the relay before it carries packets. This development models
    that plane (who is asked and when, what is exchanged, how long a direct path
    lives, and when it is tried again) and what it stands on: who may log in, who
    holds which virtual address, what the server forwards and bills, how a client
    learns its settings and the type of its NAT, and which server it trusts.

    ** The program's parts and their files here

    Client, [src/vpn-tool/backend/quic/]:
    - [peertable.go], the memory of how a peer was reached: [PeerTable];
    - [path.go], the path manager. [PathData] has its state ([pathManager],
      [directPath], the parameters), [PathCore] the operations that change the
      routing table and the table of trials, [PathTrial] the trial, the standby
      hysteresis and the watchdog, [PathTrigger] the triggers, the gate before a
      punch and the scheduler, [Backoff] the retry ladders, [PathFrames] the
      frames and streams of a path, [PathRace] its critical sections under
      concurrency;
    - [punch.go], punching. [Reasons] has the reason codes, [PunchAddrs] the
      candidates, the port prediction and the filter of the punched socket,
      [PunchManager] the sessions, cooldowns and pushes, [PunchIntent] the
      request for coordination.

    Server, [src/vpn-server/]:
    - [admin/signal.go], the registry and the checks of what clients send:
      [SignalRegistry];
    - [quic/punch.go], the coordination table: [PunchTable], and its handlers;
    - [quic/signal.go], the requests of the signalling stream: [SignalServer];
    - [store/users.go], the accounts and their file, with [manager/quota.go]:
      [UserStore];
    - [quic/authenticator.go]: [IPAlloc] has the pool of virtual addresses,
      [VpnAuth] log-ins, bans and the admission of data planes;
    - [admin/session.go] and the handlers of [admin/server.go] that use it:
      [AdminAuth]; [admin/state.go]: [AdminState];
    - [quic/data_server.go]: [DataServer] has the table of clients, the take-over
      and end of their connections and the kicks, [Relay] the forwarding decision,
      its accounting and the echo reply;
    - [quic/stun_server.go]: the second half of [NatDetect].

    Client again:
    - [quic/dhcp.go] of the server and the parser of its answers in [client.go]:
      [Dhcp];
    - [nat.go]: [NatDetect]; the trust in a server's certificate in [client.go]:
      [PinStore]; [config/hyfile.go]: [HyFile].

    - the client's end of the tunnel, [client.go]: [ClientConnect] has [Connect],
      the resources it takes and gives back, and the end of a connection,
      [ClientTraffic] the packets from the device, the health of the tunnel and its
      counters; [signal.go], the client's signalling stream: [SignalStream];
    - [congestion/owqd.go], [congestion/quicdc.go], the delay-based congestion
      controller of the game plane: [QuicDC];
    - the desktop application around it, [app.go]: [AppLifecycle] (connecting,
      disconnecting, switching servers).

    The forks the two stand on. [hy-core/internal/protocol] and [frag]: [HyProto].
    [quic-go]:
    - [quicvarint]: [Varint]; [internal/wire]: [Wire] has the reader and the
      writer, [AckFrame] the ACK frames, [WireFrames] all other frames, their
      lengths and the loop over a payload;
    - [internal/ackhandler]: [AckHistory] has the received packet history,
      [AckTracker] when and what is acknowledged; [SentHistory] and [SentHistInv]
      have the history of sent packets and the generators of numbers,
      [EcnTracker] the validation of ECN, [LossDetection] the sent-packet handler,
      on [RttStats] of [internal/utils]; its invariant is in [LossInv], what each
      operation does in [LossOps], [LossAck], [LossHandler], [LossSend] and
      [LossGive], runs in [LossRun], the timer in [LossTimer];
    - [internal/flowcontrol]: [FlowControl];
    - [frame_sorter.go] on [internal/utils/tree]: [GapTree] has the balanced tree
      of gaps, [FrameSorter] the reassembly;
    - [send_stream.go]: [SendStream] has the operations, [SendInv] the invariant,
      [StreamPipe] a stream from its writer to the peer's sorter;
    - [receive_stream.go]: [ReceiveStream] has the operations, [ReceiveInv] the
      invariant, [ReceivePeek] the look ahead, [StreamRead] a stream from the
      frames to its reader, and from the writer at the other end;

    [GoNet], [GoText], [GoStrings] and [GoFloat] are what the code uses of Go's
    [net], [net/netip], [strings], [strconv], [encoding/hex], [time] and of
    binary64.

    The parts meet as in the code: a trigger ([PathTrigger.handleTrigger]) asks
    the gate and starts a punch ([PunchManager.PunchWithTrigger]); the session
    sends an intent ([PunchIntent]) that [SignalServer.handlePunchIntent] answers
    from [PunchTable] and [SignalRegistry]; a session that succeeds hands its
    connection over ([PunchManager.handoverToPath] calls
    [PathCore.handleEstablished]); a failed one tells [Backoff.onPunchFailed] and
    records the peer in [PeerTable]. Before all that the client logs in
    ([VpnAuth.Authenticate] on the accounts of [UserStore]), asks for its settings
    ([Dhcp.Write] leases an address of [IPAlloc]) and registers its data plane
    ([DataServer.handle_bulk] asks [VpnAuth.AuthorizeDataPlane]); the end of a data
    connection ([DataServer.cleanupDataConnVIP]) releases the address in
    [IPAlloc], its owner in [VpnAuth], its attempts in [PunchTable] and its line in
    [AdminState]. [VpnAuth] sees the pool through the class [LeaseBook] it declares,
    of which the allocator is an instance.

    ** How state and operations are modelled

    State is explicit: a Go struct is a record with an [Eta] instance, from which
    the setters [r <| f := v |>] are derived; a map is a [gmap]; a pointer that
    is shared is a key into the record of its owner (a path is a [positive] into
    [m_heap]). Each function of the source that runs under one lock, or on one
    goroutine between two blocking points, is one function of the state. The
    clock, random identifiers, the order in which Go ranges over a map where the
    result depends on it, and the outcome of I/O are arguments. Instants are
    nanoseconds in [Z]; [time.Sub] saturates as in Go. Counters that the source
    never lets grow without bound are [Z]; conversions that truncate are written
    out ([wrap_u]). Texts are [string], packets lists of bytes in [Z]; the hash of
    passwords, digests and the certificate parser are parameters. Logging is left out. Where the interleaving inside one
    operation matters it is modelled apart: [PathRace] for the flags of a path,
    [PunchTable] for the table's two-step admission.

    ** What the theorems show

    - [PathInv], [PathSteps]: the well-formedness [wf] of the manager is kept by
      every operation; what a route may be used for; a shutdown leaks nothing.
    - [PathArbitration]: two hosts with two connections keep the same one.
    - [PathQuality]: what a trial samples and decides; when a path goes to standby.
    - [PathDeath]: silent paths die, the end of a path is complete and happens
      once, and sets the retry its cause calls for.
    - [PathGate]: the gate is rate-limited, cached and deduplicated; attempts are
      exclusive per destination.
    - [PathRace]: which interleavings are safe, and three that are not.
    - [PathFrames]: packets arrive in order and unchanged; bounds; both ends file
      the streams alike.
    - [Backoff], [PeerTable]: ladders, bounds, and a refinement of the lazily
      pruned bounded table to an unbounded one.
    - [PunchAddrs]: what is advertised is canonical and valid; the filter is exact.
    - [PunchManager]: exclusive attempts, cooldowns that hold, and a busy ladder
      that is never climbed.
    - [SignalRegistry], [PunchTable], [SignalServer]: the registry refines "the
      last registration while it is fresh"; the limits of coordination hold in
      every run; a client speaks only for itself and cannot aim its peers at
      more than the ports of one public host; the list of peers agrees with
      the queries; refusals leave nothing behind.
    - [PunchIntent]: client and server together: a peer that takes no
      invitation is reported as busy.

    - [UserStore]: the file and the memory agree after a save, counters are exact,
      the quota kicks whom it should; what a failed save leaves.
    - [IPAlloc]: the two indices and the three sets stay consistent, the search
      terminates, the allocator refines an abstract pool, and the reclamation takes
      exactly what ran out.
    - [VpnAuth]: log-ins are exactly those of valid accounts, guessing is bounded, a
      data plane needs a log-in, an address is never taken over.
    - [AdminAuth], [AdminState]: lifetimes, revocation and limits of the panel's
      sessions; exact counters.
    - [DataServer], [Relay]: the end of a connection cleans up once and completely;
      which take-overs are safe and which is not; forwarding and the bill agree;
      the echo reply is a valid packet.
    - [Dhcp], [NatDetect]: the settings arrive as meant; the verdict on a NAT is
      what its behaviour justifies, and the server's own end points suffice for one;
      the rate limit.
    - [HyFile], [PinStore]: an imported file cannot weaken the client; a pinned
      server stays pinned.
    - [ClientConnect], [ClientTraffic], [AppLifecycle]: a failed or cancelled
      connection leaves nothing open; every packet is sent once, to the right
      place; a set-up that fails or is overtaken leaks nothing, but for one
      connection that a [Close] in the last steps of [Connect] misses.
    - [SignalStream]: which answer a request of the signalling stream gets.
    - [Varint], [HyProto]: the wire formats round-trip, and fragmentation.
    - [AckFrame], [WireFrames]: every frame round-trips at its announced length,
      and a payload is parsed to its end or refused, in bounded work.
    - [AckHistory], [AckTracker]: an acknowledgement names exactly packets that
      were received and in time.
    - [LossRun]: the bytes in flight are right in every run, every frame is told
      acknowledged or lost at most once, which packets an ACK settles and which are
      lost; the probes that a migration leaves and whose acknowledgement is not
      seen. [LossTimer]: which operations set the timer, and that the handler never
      waits without one. Two operations forget a frame without a report,
      as the sender then intends. The congestion controller is the class
      [SendAlgorithm], against which all of it is proved.
    - [FlowControl]: the limits announced are respected and enforced, and what must
      be buffered is bounded.
    - [GapTree], [FrameSorter]: the balanced tree is a sorted list; the bytes come
      out in order, from whatever frames; gaps and buffers are bounded.
    - [SendStream], [SendInv], [StreamPipe]: nothing written is forgotten, a closed
      stream can always be completed.
    - [ReceiveStream], [ReceiveInv], [ReceivePeek], [StreamRead]: what is read is
      what was written, no call waits without need, buffers and credit are given
      back once; what a cancelled and reset stream loses.
    - [QuicDC]: the delay estimate, one reduction per flight, and a recovery that
      is none.

    ** Fuel and bounds

    Loops over streams take fuel: [PathFrames.readStreamLoop] one unit per frame,
    and its theorem asks for more units than packets; the loops of [GoNet.parse_v6]
    and of [PunchAddrs.add_range] take as many units as they can make steps (an
    address has at most 8 groups, a range at most [range_fuel] ports), and the
    theorems about them are proved for that fuel. [GoText.TrimSpace] has one unit
    per byte, and removes at least one byte per step. [IPAlloc.pick_loop] has
    [pick_fuel], one unit more than addresses are in use: each step that does not
    return meets another address in use, which [allocation_terminates] proves.
    [Relay.fold_carry] folds three times (the sum of a packet of at most 65535
    bytes needs two); decimal and hexadecimal digits have as many units as digits a
    64-bit number can have; [HyProto.frag_loop] and [HyFile.sanitize_loop] have one
    unit per byte of the input and consume at least one.
    [WireFrames.frames_loop] and [WireFrames.parse_type_loop] have a unit per byte of the
    payload; running out is a result of its own ([None]), and [parsing_ends] proves
    that it does not happen, each turn taking a byte. The loops of [FrameSorter] have as many units as entries they may
    pass or bytes they may copy, and each step takes at least one; the tree of
    [GapTree] needs no fuel. [ReceiveStream.read_turn] has one
    unit more than the slice has room: a turn that goes on has copied a byte; that
    it is enough is part of [ReceiveInv.read_begin_ok].

    ** What is not modelled

    Sockets, TLS and the sending of STUN requests (the stages of a session
    between its critical sections), the TUN devices, port mapping, the remaining
    handlers, metrics and geo lookup of the panel, the start-up of the server with
    its configuration and certificates, the rest of the desktop application; of
    the forked libraries, [hy-core] but for its protocol, [hy-extras], the BBR and
    Brutal congestion controllers, and of [quic-go] the connection, its packet
    packer, handshake and transport. [prepunch.go] has no code.

    This file has the notations, the instants, the lists and the tactics the
    other files share. *)

From Stdlib Require Import ZArith Lia Bool.
From stdpp Require Export base list gmap sets strings.
From stdpp Require Import sorting.

(** ** Setters for records

    [r <| f := v |>] is the record [r] with the field [f] replaced, the
    Go assignment [r.f = v] on a copy.  A record type declares one
    [Eta] instance (its constructor applied to its projections); the setter of
    each field is derived from it. *)

Class Eta (R : Type) := eta : R → R.
Class Setter {R T : Type} (proj : R → T) := set_field : (T → T) → R → R.

Ltac derive_setter :=
  match goal with
  | |- @Setter ?R ?T ?proj =>
      let inst := constr:(_ : Eta R) in
      let e := eval red in inst in
      match eval pattern proj in e with
      | ?F _ => exact (fun f => F (fun r => f (proj r)))
      end
  end.
#[export] Hint Extern 1 (@Setter _ _ _) => derive_setter : typeclass_instances.
Arguments set_field / {R T} proj {Setter} _ _.

Declare Scope go_scope.
Delimit Scope go_scope with go.
Open Scope go_scope.
Notation "r <| f := v |>" := (@set_field _ _ f _ (fun _ => v) r)
  (at level 1, left associativity, f at next level, format "r  <| f  :=  v |>") : go_scope.
Notation "r <| f ::= g |>" := (@set_field _ _ f _ g r)
  (at level 1, left associativity, f at next level, format "r  <| f  ::=  g |>") : go_scope.

(** ** Machine integers

    A Go [uintN] is a [Z] in [0, 2^N), an [intN] a [Z] in [-2^(N-1), 2^(N-1));
    [wrap_u]/[wrap_s] are the conversions, which truncate. *)

Open Scope Z_scope.

Definition wrap_u (w z : Z) : Z := z mod 2 ^ w.
Definition wrap_s (w z : Z) : Z := (z + 2 ^ (w - 1)) mod 2 ^ w - 2 ^ (w - 1).

Definition int64_min : Z := - 2 ^ 63.
Definition int64_max : Z := 2 ^ 63 - 1.

Lemma wrap_u_range w z : 0 <= w → 0 <= wrap_u w z < 2 ^ w.
Proof. intros Hw. apply Z.mod_pos_bound. lia. Qed.

Lemma wrap_u_small w z : 0 <= z < 2 ^ w → wrap_u w z = z.
Proof. apply Z.mod_small. Qed.

(** ** Time

    An instant is a [Z], the nanoseconds since the Unix epoch; Go's zero
    [time.Time] (1 January of year 1) is [time_zero].  A [Duration] is a [Z] of
    nanoseconds.  [Sub] saturates at the ends of int64 the way [time.Time.Sub]
    does, [unix_milli]/[of_milli] are [Time.UnixMilli]/[time.UnixMilli]. *)

Abbreviation time := Z (only parsing).
Abbreviation duration := Z (only parsing).

Definition millisecond : Z := 1000000.
Definition second : Z := 1000 * millisecond.
Definition minute : Z := 60 * second.
Definition hour : Z := 60 * minute.

Definition time_zero : time := -62135596800 * second.

Definition time_before (a b : time) : bool := a <? b.
Definition time_add (t : time) (d : duration) : time := t + d.
Definition time_sub (a b : time) : duration :=
  Z.max int64_min (Z.min int64_max (a - b)).
Definition unix_milli (t : time) : Z := t / millisecond.
Definition of_milli (ms : Z) : time := ms * millisecond.
(** [Duration.Milliseconds]: Go's integer division truncates towards zero. *)
Definition duration_ms (d : duration) : Z := Z.quot d millisecond.

Lemma time_sub_le a b d : int64_min <= d < int64_max → time_sub a b <= d ↔ a - b <= d.
Proof. unfold time_sub. lia. Qed.

Lemma time_sub_lt a b d : int64_min < d <= int64_max → time_sub a b < d ↔ a - b < d.
Proof. unfold time_sub. lia. Qed.

Lemma unix_milli_of_milli ms : unix_milli (of_milli ms) = ms.
Proof. unfold unix_milli, of_milli, millisecond. apply Z.div_mul. lia. Qed.

Lemma unix_milli_mono a b : a <= b → unix_milli a <= unix_milli b.
Proof. intros H. apply Z.div_le_mono; [unfold millisecond; lia | done]. Qed.

(** ** Lists *)

Lemma filter_all {A} (P : A → Prop) `{∀ x, Decision (P x)} (l : list A) : (∀ x, x ∈ l → P x) → filter P l = l.
Proof.
  induction l as [|x l IH]; intros Hl; [done|]. rewrite filter_cons_True by (apply Hl; by left).
  f_equal. apply IH. intros y Hy. apply Hl. by right.
Qed.

(** A prefix of a sorted list is sorted. *)
Lemma take_sorted {A} (R : A → A → Prop) `{!Transitive R} n (l : list A) :
  Sorted R l → Sorted R (take n l).
Proof.
  intros H. apply Sorted_StronglySorted in H; [|done]. apply StronglySorted_Sorted.
  rewrite <- (take_drop n l) in H. by apply StronglySorted_app in H as (_ & H & _).
Qed.

(** ** Boolean tests *)

Ltac bool_hyps :=
  repeat match goal with
  | H : andb _ _ = true |- _ => apply andb_true_iff in H; destruct H
  | H : orb _ _ = false |- _ => apply orb_false_iff in H; destruct H
  | H : negb _ = true |- _ => apply negb_true_iff in H
  | H : negb _ = false |- _ => apply negb_false_iff in H
  | H : (_ <? _) = true |- _ => apply Z.ltb_lt in H
  | H : (_ <? _) = false |- _ => apply Z.ltb_ge in H
  | H : (_ <=? _) = true |- _ => apply Z.leb_le in H
  | H : (_ <=? _) = false |- _ => apply Z.leb_gt in H
  | H : (_ =? _) = true |- _ => apply Z.eqb_eq in H
  | H : (_ =? _) = false |- _ => apply Z.eqb_neq in H
  | H : bool_decide _ = true |- _ => apply bool_decide_eq_true in H
  | H : bool_decide _ = false |- _ => apply bool_decide_eq_false in H
  | H : time_before _ _ = true |- _ => unfold time_before in H
  | H : time_before _ _ = false |- _ => unfold time_before in H
  end.

(** Case analysis on the innermost test of the goal, its outcome as a
    proposition. *)
Ltac case_test :=
  match goal with
  | |- context [if ?b then _ else _] =>
      lazymatch b with
      | context [if _ then _ else _] => fail
      | context [match _ with _ => _ end] => fail
      | _ => destruct b eqn:?; bool_hyps
      end
  end.

Ltac case_tests := repeat (case_test; cbn in *; try done).

Create HintDb go discriminated.
#[export] Hint Resolve time_sub_le time_sub_lt : go.
