(* ===== verification/GoNet.v ===== *)
(** * IPv4 tunnel addresses ([path.go], "小工具") and the part of Go's
    [net]/[net/netip] parsing they rest on. *)

From Stdlib Require Import ZArith Lia Bool Ascii String.
From stdpp Require Import base list gmap strings.
From S2P Require Import Prelude.

Open Scope Z_scope.

(** A Go [[4]byte]. *)
Abbreviation ip4 := (Z * Z * Z * Z)%type.

Definition byte_ok (b : Z) : Prop := 0 <= b < 256.
Definition ip4_ok (a : ip4) : Prop :=
  let '(a0, a1, a2, a3) := a in byte_ok a0 ∧ byte_ok a1 ∧ byte_ok a2 ∧ byte_ok a3.

(** ** [bytesGreater], [isBroadcastOrMulticast4] *)

(** The loop over the four bytes: the first position where they differ
    decides. *)
Fixpoint bytes_greater_from (a b : list Z) : bool :=
  match a, b with
  | x :: a', y :: b' => if negb (x =? y) then y <? x else bytes_greater_from a' b'
  | _, _ => false
  end.

Definition ip4_bytes (a : ip4) : list Z := let '(a0, a1, a2, a3) := a in [a0; a1; a2; a3].

Definition bytesGreater (a b : ip4) : bool := bytes_greater_from (ip4_bytes a) (ip4_bytes b).

Definition isBroadcastOrMulticast4 (ip : ip4) : bool :=
  let '(b0, b1, b2, b3) := ip in
  if (0xE0 <=? b0) && (b0 <=? 0xEF) then true
  else if bool_decide (ip = (255, 255, 255, 255)) || bool_decide (ip = (0, 0, 0, 0)) || (b3 =? 255)
  then true
  else false.

(** The address as a 32-bit big-endian number. *)
Definition ip4_num (a : ip4) : Z :=
  let '(a0, a1, a2, a3) := a in ((a0 * 256 + a1) * 256 + a2) * 256 + a3.

Lemma ip4_num_inj a b : ip4_ok a → ip4_ok b → ip4_num a = ip4_num b → a = b.
Proof.
  destruct a as [[[a0 a1] a2] a3], b as [[[b0 b1] b2] b3].
  unfold ip4_ok, byte_ok, ip4_num. intros Ha Hb E.
  assert (a0 = b0 ∧ a1 = b1 ∧ a2 = b2 ∧ a3 = b3) as (-> & -> & -> & ->) by lia.
  done.
Qed.

Lemma bytesGreater_num a b :
  ip4_ok a → ip4_ok b → bytesGreater a b = (ip4_num b <? ip4_num a).
Proof.
  destruct a as [[[a0 a1] a2] a3], b as [[[b0 b1] b2] b3].
  unfold ip4_ok, byte_ok, bytesGreater, ip4_num. cbn. intros Ha Hb.
  destruct (Z.eqb_spec a0 b0), (Z.eqb_spec a1 b1), (Z.eqb_spec a2 b2), (Z.eqb_spec a3 b3);
    cbn; subst; symmetry; apply eq_true_iff_eq; rewrite ?Z.ltb_lt; split; intros; try lia; try done.
Qed.

Lemma bytesGreater_asym a b :
  ip4_ok a → ip4_ok b → a ≠ b → bytesGreater a b = negb (bytesGreater b a).
Proof.
  intros Ha Hb Hne. rewrite !bytesGreater_num by done.
  assert (ip4_num a ≠ ip4_num b) by (intros E; by apply Hne, ip4_num_inj).
  apply eq_true_iff_eq. rewrite negb_true_iff, Z.ltb_lt, Z.ltb_ge. lia.
Qed.

(** ** Printing: [ip4ToString] *)

Definition digit (d : Z) : ascii := ascii_of_nat (48 + Z.to_nat d).

Definition byte_str (b : Z) : string :=
  if b <? 10 then String (digit b) ""
  else if b <? 100 then String (digit (b / 10)) (String (digit (b mod 10)) "")
  else String (digit (b / 100)) (String (digit (b / 10 mod 10)) (String (digit (b mod 10)) "")).

Definition ip4ToString (b : ip4) : string :=
  let '(b0, b1, b2, b3) := b in
  (byte_str b0 +:+ "." +:+ byte_str b1 +:+ "." +:+ byte_str b2 +:+ "." +:+ byte_str b3)%string.

(** ** Parsing: [net.ParseIP] and [parseIPv4]

    [net.ParseIP] is [netip.ParseAddr] without a zone; the first of ['.'],
    [':'], ['%'] in the text selects the syntax. *)

Definition digit_val (c : ascii) : option Z :=
  let n := Z.of_nat (nat_of_ascii c) in
  if (48 <=? n) && (n <=? 57) then Some (n - 48) else None.

Definition hex_val (c : ascii) : option Z :=
  let n := Z.of_nat (nat_of_ascii c) in
  if (48 <=? n) && (n <=? 57) then Some (n - 48)
  else if (97 <=? n) && (n <=? 102) then Some (n - 97 + 10)
  else if (65 <=? n) && (n <=? 70) then Some (n - 65 + 10)
  else None.

(** [parseIPv4Fields]: [val]/[dig] are the current octet and its digits so far,
    [fields] the octets already complete. *)
Fixpoint parse_v4_fields (s : string) (val dig : Z) (fields : list Z) : option (list Z) :=
  match s with
  | EmptyString => if (length fields <? 3)%nat then None else Some (fields ++ [val])
  | String c s' =>
      match digit_val c with
      | Some d =>
          if (dig =? 1) && (val =? 0) then None
          else if 255 <? val * 10 + d then None
          else parse_v4_fields s' (val * 10 + d) (dig + 1) fields
      | None =>
          if bool_decide (c = "."%char) then
            if (dig =? 0) || bool_decide (s' = EmptyString) then None
            else if (length fields =? 3)%nat then None
            else parse_v4_fields s' 0 0 (fields ++ [val])
          else None
      end
  end.

(** The hexadecimal group at the head of the text: its value, its number of
    digits and the rest; [None] for more than four digits. *)
Fixpoint hex_group (s : string) (acc : Z) (n : nat) : option (Z * nat * string) :=
  match s with
  | EmptyString => Some (acc, n, s)
  | String c s' =>
      match hex_val c with
      | Some d => if (3 <? n)%nat then None else hex_group s' (acc * 16 + d) (S n)
      | None => Some (acc, n, s)
      end
  end.

Fixpoint cut_zone (s : string) : string * option string :=
  match s with
  | EmptyString => (EmptyString, None)
  | String c s' =>
      if bool_decide (c = "%"%char) then (EmptyString, Some s')
      else let '(a, z) := cut_zone s' in (String c a, z)
  end.

(** The loop of [parseIPv6]: [ip] the bytes so far, [ell] the position of the
    ellipsis; the result is the bytes, the ellipsis and the unread text. *)
Fixpoint parse_v6_loop (fuel : nat) (s : string) (ip : list Z) (ell : option nat)
  : option (list Z * option nat * string) :=
  match fuel with
  | O => Some (ip, ell, s)
  | S fuel' =>
      match hex_group s 0 0 with
      | None => None
      | Some (_, O, _) => None
      | Some (acc, _, rest) =>
          match rest with
          | String "."%char _ =>
              if bool_decide (ell = None) && negb (length ip =? 12)%nat then None
              else if (12 <? length ip)%nat then None
              else match parse_v4_fields s 0 0 [] with
                   | Some f => Some (ip ++ f, ell, EmptyString)
                   | None => None
                   end
          | EmptyString => Some (ip ++ [acc / 256; acc mod 256], ell, EmptyString)
          | String ":"%char EmptyString => None
          | String ":"%char (String ":"%char rest') =>
              let ip' := ip ++ [acc / 256; acc mod 256] in
              match ell with
              | Some _ => None
              | None => match rest' with
                        | EmptyString => Some (ip', Some (length ip'), EmptyString)
                        | _ => parse_v6_loop fuel' rest' ip' (Some (length ip'))
                        end
              end
          | String ":"%char rest' => parse_v6_loop fuel' rest' (ip ++ [acc / 256; acc mod 256]) ell
          | _ => None
          end
      end
  end.

Definition parse_v6 (s0 : string) : option (list Z) :=
  let finish r :=
    match r with
    | Some (ip, ell, EmptyString) =>
        if (length ip <? 16)%nat then
          match ell with
          | None => None
          | Some e => Some (take e ip ++ replicate (16 - length ip) 0 ++ drop e ip)
          end
        else match ell with Some _ => None | None => Some ip end
    | _ => None
    end in
  match cut_zone s0 with
  | (_, Some _) => None (* an address with a zone (or an empty zone) is no [net.IP] *)
  | (s, None) =>
      match s with
      | String ":"%char (String ":"%char EmptyString) => Some (replicate 16 0)
      | String ":"%char (String ":"%char s') => finish (parse_v6_loop 8 s' [] (Some 0%nat))
      | _ => finish (parse_v6_loop 8 s [] None)
      end
  end.

Definition v4_mapped_prefix : list Z := replicate 10 0 ++ [255; 255].

(** [net.ParseIP]: the 16 bytes. *)
Fixpoint select_syntax (s whole : string) : option (list Z) :=
  match s with
  | EmptyString => None
  | String c s' =>
      if bool_decide (c = "."%char) then
        match parse_v4_fields whole 0 0 [] with
        | Some f => Some (v4_mapped_prefix ++ f)
        | None => None
        end
      else if bool_decide (c = ":"%char) then parse_v6 whole
      else if bool_decide (c = "%"%char) then None
      else select_syntax s' whole
  end.

Definition ParseIP (s : string) : option (list Z) := select_syntax s s.

(** [IP.To4]. *)
Definition To4 (ip : list Z) : option ip4 :=
  match ip with
  | [a0; a1; a2; a3] => Some (a0, a1, a2, a3)
  | _ =>
      if bool_decide (length ip = 16%nat) && bool_decide (take 12 ip = v4_mapped_prefix) then
        match drop 12 ip with
        | [a0; a1; a2; a3] => Some (a0, a1, a2, a3)
        | _ => None
        end
      else None
  end.

Definition parseIPv4 (s : string) : ip4 * bool :=
  match ParseIP s with
  | None => ((0, 0, 0, 0), false)
  | Some ip =>
      match To4 ip with
      | None => ((0, 0, 0, 0), false)
      | Some a => (a, true)
      end
  end.

Example parse_v4 : parseIPv4 "10.0.0.7" = ((10, 0, 0, 7), true).
Proof. reflexivity. Qed.
Example parse_v4_zero : parseIPv4 "10.00.0.7" = ((0, 0, 0, 0), false).
Proof. reflexivity. Qed.
Example parse_mapped : parseIPv4 "::ffff:10.0.0.7" = ((10, 0, 0, 7), true).
Proof. reflexivity. Qed.
Example parse_mapped_hex : parseIPv4 "::ffff:a00:7" = ((10, 0, 0, 7), true).
Proof. reflexivity. Qed.
Example parse_v6_only : parseIPv4 "fe80::1" = ((0, 0, 0, 0), false).
Proof. reflexivity. Qed.

(** ** Round trip *)

Lemma digit_val_digit d : 0 <= d < 10 → digit_val (digit d) = Some d.
Proof.
  intros H. assert (d ∈ seqZ 0 10) as Hd by (apply elem_of_seqZ; lia).
  revert Hd. clear. intros Hd. vm_compute in Hd.
  repeat (apply elem_of_cons in Hd as [->|Hd]; [reflexivity|]). by apply elem_of_nil in Hd.
Qed.

Lemma str_app_cons c s t : String c s +:+ t = String c (s +:+ t).
Proof. reflexivity. Qed.
Lemma str_app_nil t : "" +:+ t = t.
Proof. reflexivity. Qed.
Lemma str_app_nil_r t : t +:+ "" = t.
Proof. induction t as [|c t IH]; [done|]. by rewrite str_app_cons, IH. Qed.

(** One digit read. *)
Lemma parse_digit d s val dig fields :
  0 <= d < 10 → ¬ (dig = 1 ∧ val = 0) → val * 10 + d <= 255 →
  parse_v4_fields (String (digit d) s) val dig fields
  = parse_v4_fields s (val * 10 + d) (dig + 1) fields.
Proof.
  intros Hd Hz Hle. cbn [parse_v4_fields]. rewrite digit_val_digit by done.
  destruct (Z.eqb_spec dig 1), (Z.eqb_spec val 0); cbn; try tauto;
    destruct (Z.ltb_spec 255 (val * 10 + d)); first [lia | done].
Qed.

(** Reading a printed octet leaves its value and a non-zero digit count. *)
Lemma parse_byte_str b s fields :
  byte_ok b →
  ∃ dig, 0 < dig ∧ parse_v4_fields (byte_str b +:+ s) 0 0 fields = parse_v4_fields s b dig fields.
Proof.
  unfold byte_ok, byte_str. intros Hb.
  pose proof (Z.div_mod b 10 ltac:(lia)) as D1. pose proof (Z.mod_pos_bound b 10 ltac:(lia)) as M1.
  pose proof (Z.div_mod (b / 10) 10 ltac:(lia)) as D2.
  pose proof (Z.mod_pos_bound (b / 10) 10 ltac:(lia)) as M2.
  assert (b / 100 = b / 10 / 10) as D3 by (rewrite Z.div_div by lia; done).
  destruct (Z.ltb_spec b 10); [|destruct (Z.ltb_spec b 100)].
  - exists 1. split; [lia|]. rewrite !str_app_cons, str_app_nil, !parse_digit by lia. f_equal; lia.
  - exists 2. split; [lia|]. rewrite !str_app_cons, str_app_nil, !parse_digit by lia. f_equal; lia.
  - exists 3. split; [lia|]. rewrite !str_app_cons, str_app_nil, D3, !parse_digit by lia. f_equal; lia.
Qed.

Lemma parse_dot s val dig fields :
  0 < dig → s ≠ EmptyString → (length fields < 3)%nat →
  parse_v4_fields (String "." s) val dig fields = parse_v4_fields s 0 0 (fields ++ [val]).
Proof.
  intros Hd Hs Hf. cbn. destruct (Z.eqb_spec dig 0); [lia|].
  rewrite (bool_decide_eq_false_2 _ Hs). cbn.
  destruct (Nat.eqb_spec (length fields) 3); [lia|done].
Qed.

Lemma byte_str_nonempty b s : byte_str b +:+ s ≠ EmptyString.
Proof. unfold byte_str. by case_tests. Qed.

Lemma parse_v4_ip4ToString a :
  ip4_ok a → parse_v4_fields (ip4ToString a) 0 0 [] = Some (ip4_bytes a).
Proof.
  destruct a as [[[a0 a1] a2] a3]. intros (H0 & H1 & H2 & H3). unfold ip4ToString.
  rewrite <- (str_app_nil_r (byte_str a3)).
  edestruct (parse_byte_str a0) as (d0 & Hd0 & ->); [done|].
  rewrite !str_app_cons, !str_app_nil, parse_dot by (first [done | apply byte_str_nonempty | cbn; lia]).
  edestruct (parse_byte_str a1) as (d1 & Hd1 & ->); [done|].
  rewrite parse_dot by (first [done | apply byte_str_nonempty | cbn; lia]).
  edestruct (parse_byte_str a2) as (d2 & Hd2 & ->); [done|].
  rewrite parse_dot by (first [done | apply byte_str_nonempty | cbn; lia]).
  by edestruct (parse_byte_str a3) as (d3 & Hd3 & ->).
Qed.

(** The first separator of a printed address is a dot. *)
Lemma select_digit d s whole :
  0 <= d < 10 → select_syntax (String (digit d) s) whole = select_syntax s whole.
Proof.
  intros H. assert (d ∈ seqZ 0 10) as Hd by (apply elem_of_seqZ; lia).
  revert Hd. clear. intros Hd. vm_compute in Hd.
  repeat (apply elem_of_cons in Hd as [->|Hd]; [reflexivity|]). by apply elem_of_nil in Hd.
Qed.

Lemma select_byte_str b s whole :
  byte_ok b → select_syntax (byte_str b +:+ s) whole = select_syntax s whole.
Proof.
  unfold byte_ok, byte_str. intros Hb.
  pose proof (Z.mod_pos_bound b 10 ltac:(lia)) as M1.
  pose proof (Z.div_mod b 10 ltac:(lia)) as D1.
  pose proof (Z.mod_pos_bound (b / 10) 10 ltac:(lia)) as M2.
  pose proof (Z.div_mod (b / 10) 10 ltac:(lia)) as D2.
  assert (b / 100 = b / 10 / 10) as D3 by (rewrite Z.div_div by lia; done).
  case_tests; rewrite !str_app_cons, str_app_nil, ?D3, !select_digit by lia; done.
Qed.

(** Printing an address and parsing it back gives the address. *)
Lemma parseIPv4_ip4ToString a : ip4_ok a → parseIPv4 (ip4ToString a) = (a, true).
Proof.
  intros Ha. unfold parseIPv4, ParseIP.
  assert (select_syntax (ip4ToString a) (ip4ToString a)
          = Some (v4_mapped_prefix ++ ip4_bytes a)) as ->.
  { transitivity (match parse_v4_fields (ip4ToString a) 0 0 [] with
                  | Some f => Some (v4_mapped_prefix ++ f) | None => None end).
    2: by rewrite parse_v4_ip4ToString.
    generalize (ip4ToString a) at 2 3. intros whole.
    destruct a as [[[a0 a1] a2] a3]. destruct Ha as (H0 & _).
    unfold ip4ToString. by rewrite select_byte_str. }
  by destruct a as [[[a0 a1] a2] a3].
Qed.
#[export] Hint Resolve parseIPv4_ip4ToString : go.
