(* ===== verification/Reasons.v ===== *)
(** * The status contract of a direct connection
    ([vpn-tool/backend/quic/punch.go], lines 51-314): states, reason codes,
    their text, [p2pRetryable], the [P2PStatus] payload and [msAtLeast1]. *)

From Stdlib Require Import ZArith Lia Bool Ascii String.
From stdpp Require Import base list gmap strings.
From S2P Require Import Prelude.

Open Scope string_scope.
Open Scope Z_scope.

Definition P2PStateDirect := "direct".
Definition P2PStateFailed := "failed".
Definition P2PStateStandby := "standby".
Definition P2PStateTrial := "trial".

Definition P2PReasonOKDirect := "ok-direct".
Definition P2PReasonNATSymmetric := "nat-symmetric".
Definition P2PReasonNATUnknown := "nat-unknown".
Definition P2PReasonPeerUnreachable := "peer-unreachable".
Definition P2PReasonPeerNotReady := "peer-not-ready".
Definition P2PReasonLocalNoPunchAddr := "local-no-punch-addr".
Definition P2PReasonPeerNoPunchAddr := "peer-no-punch-addr".
Definition P2PReasonPunchTimeout := "punch-timeout".
Definition P2PReasonDirectHandshakeFailed := "direct-handshake-failed".
Definition P2PReasonFingerprintMismatch := "fingerprint-mismatch".
Definition P2PReasonProbeTimeout := "probe-timeout".
Definition P2PReasonRateLimited := "rate-limited".
Definition P2PReasonPeerBusy := "peer-busy".
Definition P2PReasonAttemptTimeout := "attempt-timeout".
Definition P2PReasonSessionExpired := "session-expired".
Definition P2PReasonServerP2PDisabled := "server-p2p-disabled".
Definition P2PReasonCancelled := "cancelled".
Definition P2PReasonDirectLost := "direct-lost".
Definition P2PReasonPeerClosed := "peer-closed".
Definition P2PReasonQualityDegraded := "quality-degraded".
Definition P2PReasonQualityPoor := "quality-poor".
Definition P2PReasonTrialProbing := "trial-probing".

(** The table of texts, in the order of the source. *)
Definition p2pReasonText : list (string * string) :=
  [ (P2PReasonOKDirect, "已建立直连");
    (P2PReasonNATSymmetric, "双方都是对称 NAT（NAT4+NAT4），无法直连（如实回落中继）");
    (P2PReasonNATUnknown, "未能识别 NAT 类型，暂不尝试直连");
    (P2PReasonPeerUnreachable, "对端不在线");
    (P2PReasonPeerNotReady, "对端尚未就绪（信令通道未建立）");
    (P2PReasonLocalNoPunchAddr, "本机无法获取打洞地址（STUN 不可达）");
    (P2PReasonPeerNoPunchAddr, "对端无法提供打洞地址");
    (P2PReasonPunchTimeout, "打洞超时（网络未放行）");
    (P2PReasonDirectHandshakeFailed, "直连握手失败");
    (P2PReasonFingerprintMismatch, "对端身份校验未通过，已放弃直连（详见日志）");
    (P2PReasonProbeTimeout, "直连通了但探针无回应");
    (P2PReasonRateLimited, "直连尝试过于频繁，已限流");
    (P2PReasonPeerBusy, "对端正忙（并发打洞已满）");
    (P2PReasonAttemptTimeout, "直连尝试超时（预算耗尽）");
    (P2PReasonSessionExpired, "会话信息已过期，需重新发起");
    (P2PReasonServerP2PDisabled, "服务端未启用 P2P 直连");
    (P2PReasonCancelled, "已取消");
    (P2PReasonPeerClosed, "对端已关闭这条直连（非本机链路问题，稍后会自动重试）");
    (P2PReasonDirectLost, "直连已断开，已回退到中继");
    (P2PReasonQualityDegraded, "直连质量不佳，已暂时切回中继（连接保留，稍后自动复查）");
    (P2PReasonQualityPoor, "直连质量不达标，已放弃本次直连（稍后重试）");
    (P2PReasonTrialProbing, "通道已建立，正在试用期验证质量（数据仍走中继）") ].

Definition P2PReasonText (code : string) : string :=
  match list_find (λ p, p.1 = code) p2pReasonText with
  | Some (_, (_, s)) => s
  | None => "直连不可用"
  end.

Definition not_retryable : list string :=
  [ P2PReasonNATSymmetric; P2PReasonPeerUnreachable; P2PReasonPeerNoPunchAddr;
    P2PReasonFingerprintMismatch; P2PReasonServerP2PDisabled; P2PReasonCancelled;
    P2PReasonPeerClosed; P2PReasonQualityDegraded ].

Definition p2pRetryable (code : string) : bool :=
  if bool_decide (code ∈ not_retryable) then false
  else negb (bool_decide (code = P2PReasonOKDirect)).

(** The payload of the "p2p:status" event. *)
Record P2PStatus := {
  st_PeerVIP : string;
  st_State : string;
  st_ReasonCode : string;
  st_ReasonText : string;
  st_Path : string;
  st_RTTDirectMs : Z;
  st_RTTQuicMs : Z;
  st_At : Z;
  st_Retryable : bool;
  st_Trigger : string;
  st_PathState : string;
  st_BytesUp : Z;
  st_BytesDown : Z;
  st_DirectSince : Z }.

Definition P2PTriggerTraffic := "traffic".
Definition P2PTriggerManual := "manual".
Definition P2PTriggerRemote := "remote".

(** Nanoseconds to milliseconds; a non-zero measurement is at least 1 ms. *)
Definition msAtLeast1 (ns : Z) : Z :=
  if ns <=? 0 then 0
  else let ms := Z.quot ns millisecond in if ms =? 0 then 1 else ms.

(** A measured value is never shown as zero, and the rounding loses less than a
    millisecond above it. *)
Lemma msAtLeast1_spec ns :
  (ns <= 0 → msAtLeast1 ns = 0) ∧
  (0 < ns → 1 <= msAtLeast1 ns ∧ msAtLeast1 ns = Z.max 1 (ns / millisecond)).
Proof.
  unfold msAtLeast1. split; intros H.
  - by rewrite (proj2 (Z.leb_le ns 0) H).
  - rewrite (proj2 (Z.leb_gt ns 0) H), Z.quot_div_nonneg by (unfold millisecond; lia).
    pose proof (Z.div_pos ns millisecond ltac:(lia) ltac:(unfold millisecond; lia)).
    case_tests; lia.
Qed.
