(* ===== verification/PeerTable.v ===== *)
(** * The peer quality table ([vpn-tool/backend/quic/peertable.go])

    A bounded map from tunnel addresses to the outcome of the last direct
    attempt, with a per-record expiry.  Every method of the source runs in one
    critical section of [t.mu], so each is one function here; the clock
    ([t.now]) is the argument [now]. *)

From Stdlib Require Import ZArith Lia Bool String.
From stdpp Require Import base list gmap strings.
From S2P Require Import Prelude.
From S2P Require Import GoNet.
From S2P Require Import Reasons.

Open Scope string_scope.
Open Scope Z_scope.

(** ** Data *)

(** [peerOther] stands for the values outside the three constants (the zero
    value of the Go type). *)
Inductive peerResultKind := peerGood | peerPoor | peerUnpunchable | peerOther.

#[export] Instance peerResultKind_eq_dec : EqDecision peerResultKind.
Proof. solve_decision. Defined.

Definition peerResultKind_String (k : peerResultKind) : string :=
  match k with
  | peerGood => "good"
  | peerPoor => "poor"
  | peerUnpunchable => "unpunchable"
  | peerOther => "unknown"
  end.

Definition peerTTLGood : duration := 45 * minute.
Definition peerTTLPoor : duration := 45 * minute.
Definition peerTTLUnpunchableSticky : duration := 30 * minute.
Definition peerTTLUnpunchableTransient : duration := 10 * minute.
Definition peerTableMaxEntries : nat := 1024.
Definition peerTablePruneEvery : Z := 64.

Record peerQuality := {
  Kind : peerResultKind;
  ReasonCode : string;
  RTTMs : Z;
  LossPct : Z;
  At : time;
  Expire : time;
  ForcedRetryUsed : bool;
  NatType : string;
  Addr : string;
  LastTouch : time }.

#[export] Instance eta_peerQuality : Eta peerQuality := λ q,
  {| Kind := Kind q; ReasonCode := ReasonCode q; RTTMs := RTTMs q; LossPct := LossPct q;
     At := At q; Expire := Expire q; ForcedRetryUsed := ForcedRetryUsed q;
     NatType := NatType q; Addr := Addr q; LastTouch := LastTouch q |}.

Record peerTable := {
  m : gmap ip4 peerQuality;
  sincePrune : Z }.

#[export] Instance eta_peerTable : Eta peerTable := λ t,
  {| m := m t; sincePrune := sincePrune t |}.

Definition newPeerTable : peerTable := {| m := ∅; sincePrune := 0 |}.

Record peerOutcome := {
  o_Kind : peerResultKind;
  o_Reason : string;
  o_RTTMs : Z;
  o_LossPct : Z;
  o_NatType : string;
  o_Addr : string }.

(** ** Operations *)

Definition peerTTLFor (kind : peerResultKind) (reason : string) : duration :=
  match kind with
  | peerGood => peerTTLGood
  | peerPoor => peerTTLPoor
  | peerUnpunchable =>
      if bool_decide (reason = P2PReasonNATSymmetric) then peerTTLUnpunchableSticky
      else peerTTLUnpunchableTransient
  | peerOther => peerTTLPoor
  end.

Definition fresh (now : time) (q : peerQuality) : bool := time_before now (Expire q).

Definition pruneLocked (now : time) (t : peerTable) : peerTable :=
  {| m := filter (λ p, fresh now p.2 = true) (m t); sincePrune := 0 |}.

(** [t.sincePrune++; if t.sincePrune >= peerTablePruneEvery { prune }] *)
Definition tickPrune (now : time) (t : peerTable) : peerTable :=
  let t := t <| sincePrune ::= Z.succ |> in
  if peerTablePruneEvery <=? sincePrune t then pruneLocked now t else t.

(** One step of the search for the least recently touched record; [order] is
    the order in which the runtime ranges over the map. *)
Definition older (t : peerTable) (acc : option (ip4 * time)) (k : ip4) : option (ip4 * time) :=
  match m t !! k with
  | None => acc
  | Some q =>
      match acc with
      | None => Some (k, LastTouch q)
      | Some (_, oldest) => if time_before (LastTouch q) oldest then Some (k, LastTouch q) else acc
      end
  end.

Definition evictIfFullLocked (order : list ip4) (incoming : ip4) (t : peerTable) : peerTable :=
  if (size (m t) <? peerTableMaxEntries)%nat then t
  else match m t !! incoming with
       | Some _ => t
       | None =>
           match foldl (older t) None order with
           | Some (victim, _) => t <| m ::= delete victim |>
           | None => t
           end
       end.

Definition Record_ (order : list ip4) (now : time) (vip : ip4) (o : peerOutcome) (t : peerTable)
  : peerTable :=
  let ttl := peerTTLFor (o_Kind o) (o_Reason o) in
  let t := tickPrune now t in
  let fresh_record (t : peerTable) :=
    let t := evictIfFullLocked order vip t in
    t <| m ::= <[vip := {| Kind := o_Kind o; ReasonCode := o_Reason o; RTTMs := o_RTTMs o;
                           LossPct := o_LossPct o; At := now; Expire := time_add now ttl;
                           ForcedRetryUsed := false; NatType := o_NatType o; Addr := o_Addr o;
                           LastTouch := now |}]> |> in
  match m t !! vip with
  | Some old =>
      if bool_decide (Kind old = o_Kind o) && fresh now old then
        t <| m ::= <[vip := old <| ReasonCode := o_Reason o |> <| RTTMs := o_RTTMs o |>
                               <| LossPct := o_LossPct o |> <| NatType := o_NatType o |>
                               <| Addr := o_Addr o |> <| LastTouch := now |>]> |>
      else fresh_record t
  | None => fresh_record t
  end.

Definition TryConsumeForcedRetry (now : time) (vip : ip4) (t : peerTable) : peerTable * bool :=
  match m t !! vip with
  | Some q =>
      if negb (bool_decide (Kind q = peerUnpunchable)) || negb (fresh now q) then (t, true)
      else if ForcedRetryUsed q then (t, false)
      else (t <| m ::= <[vip := q <| ForcedRetryUsed := true |> <| LastTouch := now |>]> |>, true)
  | None => (t, true)
  end.

Definition Lookup (now : time) (vip : ip4) (t : peerTable) : peerTable * option peerQuality :=
  let t := tickPrune now t in
  match m t !! vip with
  | Some q =>
      if negb (fresh now q) then (t, None)
      else let q := q <| LastTouch := now |> in (t <| m ::= <[vip := q]> |>, Some q)
  | None => (t, None)
  end.

Definition Peek (now : time) (vip : ip4) (t : peerTable) : option peerQuality :=
  match m t !! vip with
  | Some q => if negb (fresh now q) then None else Some q
  | None => None
  end.

Definition Unpunchable (now : time) (vip : ip4) (t : peerTable) : peerTable * option peerQuality :=
  let '(t, r) := Lookup now vip t in
  match r with
  | Some q => if negb (bool_decide (Kind q = peerUnpunchable)) then (t, None) else (t, Some q)
  | None => (t, None)
  end.

Definition Len (t : peerTable) : nat := size (m t).

(** ** Traces

    Every public operation with its arguments, and its result; [exec] is one
    critical section at instant [now]. *)

Inductive peerOp :=
  | OpRecord (order : list ip4) (vip : ip4) (o : peerOutcome)
  | OpConsume (vip : ip4)
  | OpLookup (vip : ip4)
  | OpPeek (vip : ip4)
  | OpUnpunchable (vip : ip4).

Inductive peerRes :=
  | ResUnit
  | ResBool (b : bool)
  | ResQuality (q : option peerQuality).

Definition op_vip (op : peerOp) : ip4 :=
  match op with
  | OpRecord _ v _ | OpConsume v | OpLookup v | OpPeek v | OpUnpunchable v => v
  end.

Definition exec (now : time) (op : peerOp) (t : peerTable) : peerTable * peerRes :=
  match op with
  | OpRecord order vip o => (Record_ order now vip o t, ResUnit)
  | OpConsume vip => let '(t, b) := TryConsumeForcedRetry now vip t in (t, ResBool b)
  | OpLookup vip => let '(t, r) := Lookup now vip t in (t, ResQuality r)
  | OpPeek vip => (t, ResQuality (Peek now vip t))
  | OpUnpunchable vip => let '(t, r) := Unpunchable now vip t in (t, ResQuality r)
  end.

Fixpoint exec_all (tr : list (time * peerOp)) (t : peerTable) : peerTable * list peerRes :=
  match tr with
  | [] => (t, [])
  | (now, op) :: tr =>
      let '(t, r) := exec now op t in
      let '(t, rs) := exec_all tr t in (t, r :: rs)
  end.

(** The runtime ranges over a map in an order it chooses: every key once. *)
Definition enumerates (order : list ip4) (t : peerTable) : Prop :=
  NoDup order ∧ ∀ k, k ∈ order ↔ is_Some (m t !! k).

(** The instants of a trace never go back. *)
Fixpoint clocked (from : time) (tr : list (time * peerOp)) : Prop :=
  match tr with
  | [] => True
  | (now, _) :: tr => from <= now ∧ clocked now tr
  end.

(** ** The abstract table

    No pruning, no counter, no capacity: a map in which an expired record is
    as good as absent. *)

Abbreviation specTable := (gmap ip4 peerQuality).

Definition live (now : time) (o : option peerQuality) : option peerQuality :=
  match o with
  | Some q => if fresh now q then Some q else None
  | None => None
  end.

Definition spec_record (now : time) (vip : ip4) (o : peerOutcome) (s : specTable) : specTable :=
  let new :=
    {| Kind := o_Kind o; ReasonCode := o_Reason o; RTTMs := o_RTTMs o; LossPct := o_LossPct o;
       At := now; Expire := time_add now (peerTTLFor (o_Kind o) (o_Reason o));
       ForcedRetryUsed := false; NatType := o_NatType o; Addr := o_Addr o; LastTouch := now |} in
  match live now (s !! vip) with
  | Some old =>
      if bool_decide (Kind old = o_Kind o)
      then <[vip := new <| At := At old |> <| Expire := Expire old |>
                        <| ForcedRetryUsed := ForcedRetryUsed old |>]> s
      else <[vip := new]> s
  | None => <[vip := new]> s
  end.

Definition spec_touch (now : time) (vip : ip4) (s : specTable) : specTable * option peerQuality :=
  match live now (s !! vip) with
  | Some q => let q := q <| LastTouch := now |> in (<[vip := q]> s, Some q)
  | None => (s, None)
  end.

Definition is_unpunchable (q : peerQuality) : bool := bool_decide (Kind q = peerUnpunchable).

Definition spec_exec (now : time) (op : peerOp) (s : specTable) : specTable * peerRes :=
  match op with
  | OpRecord _ vip o => (spec_record now vip o s, ResUnit)
  | OpConsume vip =>
      match live now (s !! vip) with
      | Some q =>
          if is_unpunchable q then
            if ForcedRetryUsed q then (s, ResBool false)
            else (<[vip := q <| ForcedRetryUsed := true |> <| LastTouch := now |>]> s, ResBool true)
          else (s, ResBool true)
      | None => (s, ResBool true)
      end
  | OpLookup vip => let '(s, r) := spec_touch now vip s in (s, ResQuality r)
  | OpPeek vip => (s, ResQuality (live now (s !! vip)))
  | OpUnpunchable vip =>
      let '(s, r) := spec_touch now vip s in
      (s, ResQuality (match r with
                      | Some q => if is_unpunchable q then Some q else None
                      | None => None
                      end))
  end.

Fixpoint spec_all (tr : list (time * peerOp)) (s : specTable) : specTable * list peerRes :=
  match tr with
  | [] => (s, [])
  | (now, op) :: tr =>
      let '(s, r) := spec_exec now op s in
      let '(s, rs) := spec_all tr s in (s, r :: rs)
  end.

(** The two tables agree on every record that is still live at [now]. *)
Definition agree (now : time) (t : gmap ip4 peerQuality) (s : specTable) : Prop :=
  ∀ vip, live now (t !! vip) = live now (s !! vip).

(** ** Lemmas *)

Lemma fresh_mono now now' q : now <= now' → fresh now' q = true → fresh now q = true.
Proof. unfold fresh, time_before. rewrite !Z.ltb_lt. lia. Qed.

Lemma live_Some now o q : live now o = Some q ↔ o = Some q ∧ fresh now q = true.
Proof.
  destruct o as [q'|]; cbn; [|by split; [|intros [??]]].
  destruct (fresh now q') eqn:E; split; [by intros [= ->]|by intros [[= ->] _]|done|].
  intros [[= ->] ?]; congruence.
Qed.

Lemma live_fresh now q : fresh now q = true → live now (Some q) = Some q.
Proof. intros H. by apply live_Some. Qed.

Lemma live_absorb now now' o : now <= now' → live now' (live now o) = live now' o.
Proof.
  intros Hle. destruct o as [q|]; cbn; [|done].
  destruct (fresh now q) eqn:E; cbn; [done|].
  destruct (fresh now' q) eqn:E'; [|done].
  apply (fresh_mono now) in E'; congruence.
Qed.

Lemma agree_mono now now' t s : now <= now' → agree now t s → agree now' t s.
Proof.
  intros Hle H vip. rewrite <- (live_absorb now now' (t !! vip)) by done.
  rewrite (H vip). by apply live_absorb.
Qed.

Lemma agree_insert now t s k q : agree now t s → agree now (<[k:=q]> t) (<[k:=q]> s).
Proof.
  intros H vip. destruct (decide (vip = k)) as [->|Hne]; [rewrite !lookup_insert_eq; reflexivity|].
  by rewrite !lookup_insert_ne.
Qed.

Lemma prune_lookup now t vip : m (pruneLocked now t) !! vip = live now (m t !! vip).
Proof.
  apply option_eq. intros q. unfold pruneLocked. cbn.
  by rewrite map_lookup_filter_Some, live_Some.
Qed.

Lemma tick_lookup now t vip :
  m (tickPrune now t) !! vip = m t !! vip ∨ m (tickPrune now t) !! vip = live now (m t !! vip).
Proof.
  unfold tickPrune. case_test; [right | by left].
  by rewrite prune_lookup.
Qed.

(** Pruning changes no live record. *)
Lemma tick_live now t vip : live now (m (tickPrune now t) !! vip) = live now (m t !! vip).
Proof. destruct (tick_lookup now t vip) as [->| ->]; [done|]. by apply live_absorb. Qed.

Lemma agree_tick now t s : agree now (m t) s → agree now (m (tickPrune now t)) s.
Proof. intros H vip. by rewrite tick_live. Qed.

Lemma tick_dom now t : dom (m (tickPrune now t)) ⊆ dom (m t).
Proof.
  intros k. rewrite !elem_of_dom. intros [q Hq].
  destruct (tick_lookup now t k) as [E|E]; rewrite E in Hq; [by eexists|].
  apply live_Some in Hq as [Hq _]. by eexists.
Qed.

Lemma evict_room order vip t :
  (size (dom (m t) ∪ {[vip]}) <= peerTableMaxEntries)%nat → evictIfFullLocked order vip t = t.
Proof.
  unfold evictIfFullLocked. intros H. case_test; [done|].
  destruct (m t !! vip) eqn:E; [done|].
  rewrite size_union, size_singleton, size_dom in H.
  2: { apply disjoint_singleton_r, not_elem_of_dom, E. }
  apply Nat.ltb_ge in Heqb. lia.
Qed.

(** Two records that differ in the fields a reader of the clock does not see
    are fresh together. *)
Lemma fresh_Expire now q q' : Expire q = Expire q' → fresh now q = fresh now q'.
Proof. unfold fresh. by intros ->. Qed.

#[export] Hint Resolve agree_insert agree_tick agree_mono : go.

Definition trace_vips (tr : list (time * peerOp)) : gset ip4 :=
  list_to_set (map (λ p, op_vip p.2) tr).

Lemma exec_dom now op t :
  (size (dom (m t) ∪ {[op_vip op]}) <= peerTableMaxEntries)%nat →
  dom (m (exec now op t).1) ⊆ dom (m t) ∪ {[op_vip op]}.
Proof.
  intros Hroom. pose proof (tick_dom now t).
  destruct op as [order vip o|vip|vip|vip|vip]; cbn in *; [|..].
  - unfold Record_. destruct (m (tickPrune now t) !! vip); [case_test|].
    2,3: rewrite evict_room by (etrans; [|exact Hroom]; apply subseteq_size; set_solver).
    all: cbn; rewrite dom_insert_L; set_solver.
  - unfold TryConsumeForcedRetry. destruct (m t !! vip); [|set_solver].
    repeat case_test; cbn; rewrite ?dom_insert_L; set_solver.
  - unfold Lookup. destruct (m (tickPrune now t) !! vip); [case_test|];
      cbn; rewrite ?dom_insert_L; set_solver.
  - set_solver.
  - unfold Unpunchable, Lookup. destruct (m (tickPrune now t) !! vip); [repeat case_test|];
      cbn in *; rewrite ?dom_insert_L; repeat case_test; cbn; rewrite ?dom_insert_L; set_solver.
Qed.

Lemma lookup_refines now vip t s :
  agree now (m t) s →
  agree now (m (Lookup now vip t).1) (spec_touch now vip s).1 ∧
  (Lookup now vip t).2 = (spec_touch now vip s).2.
Proof.
  intros H. unfold Lookup, spec_touch. rewrite <- (H vip), <- (tick_live now).
  destruct (m (tickPrune now t) !! vip) as [q|]; cbn; [|split; auto with go].
  destruct (fresh now q); cbn; split; auto with go.
Qed.

Lemma record_refines order now vip o t s :
  agree now (m t) s → (size (dom (m t) ∪ {[vip]}) <= peerTableMaxEntries)%nat →
  agree now (m (Record_ order now vip o t)) (spec_record now vip o s).
Proof.
  intros H Hroom. unfold Record_, spec_record. rewrite <- (H vip), <- (tick_live now).
  pose proof (tick_dom now t).
  rewrite !evict_room by (etrans; [|exact Hroom]; apply subseteq_size; set_solver).
  destruct (m (tickPrune now t) !! vip) as [q|] eqn:Eq; cbn; [|auto with go].
  destruct (fresh now q) eqn:Ef; rewrite ?andb_true_r, ?andb_false_r; [|cbn; auto with go].
  case_test; cbn; [|auto with go].
  match goal with E : Kind q = _ |- _ => rewrite <- E end. cbn. auto with go.
Qed.

Lemma exec_refines now op t s :
  agree now (m t) s → (size (dom (m t) ∪ {[op_vip op]}) <= peerTableMaxEntries)%nat →
  agree now (m (exec now op t).1) (spec_exec now op s).1 ∧
  (exec now op t).2 = (spec_exec now op s).2.
Proof.
  intros H Hroom. destruct op as [order vip o|vip|vip|vip|vip]; cbn in *.
  - split; [by apply record_refines | done].
  - unfold TryConsumeForcedRetry. rewrite <- (H vip). unfold is_unpunchable.
    destruct (m t !! vip) as [q|]; cbn; [|auto].
    destruct (fresh now q); cbn; rewrite ?orb_true_r, ?orb_false_r; [|auto].
    repeat case_test; cbn; split; auto with go; congruence.
  - destruct (lookup_refines now vip t s H) as [H1 H2].
    destruct (Lookup now vip t), (spec_touch now vip s); cbn in *. by subst.
  - split; [done|]. rewrite <- (H vip). unfold Peek. f_equal.
    destruct (m t !! vip) as [q|]; cbn; [|done]. by destruct (fresh now q).
  - unfold Unpunchable. destruct (lookup_refines now vip t s H) as [H1 H2].
    destruct (Lookup now vip t) as [t' [q|]], (spec_touch now vip s) as [s' r']; cbn in *; subst;
      [|done]. unfold is_unpunchable.
    destruct (bool_decide (Kind q = peerUnpunchable)); auto.
Qed.

(** The last instant of a trace. *)
Fixpoint last_time (from : time) (tr : list (time * peerOp)) : time :=
  match tr with [] => from | (now, _) :: tr => last_time now tr end.

Lemma exec_all_refines tr from t s :
  clocked from tr → agree from (m t) s →
  (size (dom (m t) ∪ trace_vips tr) <= peerTableMaxEntries)%nat →
  (exec_all tr t).2 = (spec_all tr s).2 ∧
  agree (last_time from tr) (m (exec_all tr t).1) (spec_all tr s).1.
Proof.
  revert from t s. induction tr as [|[now op] tr IH]; intros from t s Hc H Hroom; [done|].
  destruct Hc as [Hle Hc]. apply (agree_mono _ _ _ _ Hle) in H. cbn.
  unfold trace_vips in Hroom. cbn in Hroom. fold (trace_vips tr) in Hroom.
  assert (size (dom (m t) ∪ {[op_vip op]}) <= peerTableMaxEntries)%nat as Hop
    by (etrans; [|exact Hroom]; apply subseteq_size; set_solver).
  destruct (exec_refines now op t s H Hop) as [H1 H2].
  pose proof (exec_dom now op t Hop) as Hd.
  destruct (exec now op t) as [t' r], (spec_exec now op s) as [s' r']; cbn in *; subst.
  destruct (IH now t' s' Hc H1) as [E1 E2].
  { etrans; [|exact Hroom]. apply subseteq_size. set_solver. }
  destruct (exec_all tr t'), (spec_all tr s'); cbn in *. by subst.
Qed.

(** The forced retries granted to [vip] along a trace with these results. *)
Fixpoint grants (vip : ip4) (tr : list (time * peerOp)) (rs : list peerRes) : nat :=
  match tr, rs with
  | (_, OpConsume v) :: tr, ResBool true :: rs =>
      if decide (v = vip) then S (grants vip tr rs) else grants vip tr rs
  | _ :: tr, _ :: rs => grants vip tr rs
  | _, _ => 0%nat
  end.

(** No conclusion other than "unpunchable" is recorded for [vip], and the trace
    ends before [e]. *)
Definition stays_unpunchable (vip : ip4) (e : time) (tr : list (time * peerOp)) : Prop :=
  Forall (λ p, p.1 < e ∧ match p.2 with
                         | OpRecord _ v o => v = vip → o_Kind o = peerUnpunchable
                         | _ => True
                         end) tr.

Definition used (q : peerQuality) : nat := if ForcedRetryUsed q then 1 else 0.

(** One operation on an unpunchable record that is still live: the verdict and
    its deadline stay, and a grant marks the record. *)
Lemma spec_exec_unpunchable now op s vip q :
  s !! vip = Some q → Kind q = peerUnpunchable → now < Expire q →
  (∀ order v o, op = OpRecord order v o → v = vip → o_Kind o = peerUnpunchable) →
  ∃ q', (spec_exec now op s).1 !! vip = Some q' ∧ Kind q' = peerUnpunchable ∧
        At q' = At q ∧ Expire q' = Expire q ∧
        (used q + grants vip [(now, op)] [(spec_exec now op s).2] = used q')%nat.
Proof.
  intros Hq Hk Hlt Hrec.
  assert (fresh now q = true) as Hf by (unfold fresh, time_before; lia).
  assert (is_unpunchable q = true) as Hu by (unfold is_unpunchable; by rewrite bool_decide_true).
  destruct (decide (op_vip op = vip)) as [Hv|Hv].
  - destruct op as [order v o|v|v|v|v]; cbn in Hv; subst v; cbn.
    + unfold spec_record. rewrite Hq, live_fresh by done.
      rewrite bool_decide_true by (rewrite Hk; symmetry; by eapply Hrec).
      rewrite lookup_insert_eq. eexists. split; [done|]. cbn.
      unfold used. cbn. split_and!; eauto; lia.
    + rewrite Hq, live_fresh, Hu by done. destruct (ForcedRetryUsed q) eqn:EF; cbn.
      * exists q. split_and!; auto; lia.
      * rewrite lookup_insert_eq, decide_True by done. eexists. split; [done|].
        unfold used. cbn. rewrite EF. auto.
    + unfold spec_touch. rewrite Hq, live_fresh by done. cbn. rewrite lookup_insert_eq.
      eexists. split; [done|]. unfold used. cbn. split_and!; auto; lia.
    + exists q. split_and!; auto; lia.
    + unfold spec_touch. rewrite Hq, live_fresh by done. cbn. rewrite lookup_insert_eq.
      eexists. split; [done|]. unfold used. cbn. split_and!; auto; lia.
  - exists q.
    assert ((spec_exec now op s).1 !! vip = Some q) as ->.
    { destruct op; cbn in *; unfold spec_record, spec_touch;
        repeat (case_match; cbn in *); simplify_eq; by rewrite ?lookup_insert_ne. }
    assert (grants vip [(now, op)] [(spec_exec now op s).2] = 0%nat) as ->.
    { destruct op; cbn in *; unfold spec_touch; repeat (case_match; cbn in *); simplify_eq; done. }
    split_and!; auto; lia.
Qed.

Lemma grants_cons vip p tr r rs :
  grants vip (p :: tr) (r :: rs) = (grants vip [p] [r] + grants vip tr rs)%nat.
Proof. destruct p as [now [| | | |]], r as [|[]|]; cbn; try case_match; lia. Qed.

Lemma spec_all_unpunchable tr s vip q :
  s !! vip = Some q → Kind q = peerUnpunchable → stays_unpunchable vip (Expire q) tr →
  ∃ q', (spec_all tr s).1 !! vip = Some q' ∧ Kind q' = peerUnpunchable ∧
        At q' = At q ∧ Expire q' = Expire q ∧
        (used q + grants vip tr (spec_all tr s).2 = used q')%nat.
Proof.
  revert s q. induction tr as [|[now op] tr IH]; intros s q Hq Hk Hst.
  - exists q. cbn. split_and!; auto; lia.
  - apply Forall_cons in Hst as [[Hlt Hrec] Hst]. cbn in Hlt, Hrec.
    destruct (spec_exec_unpunchable now op s vip q) as (q1 & H1 & K1 & A1 & E1 & U1); try done.
    { intros order v o -> Hv. by apply Hrec. }
    cbn [spec_all]. destruct (spec_exec now op s) as [s1 r1]. cbn [fst snd] in H1, U1.
    destruct (IH s1 q1) as (q2 & H2 & K2 & A2 & E2 & U2); [done..|by rewrite E1|].
    destruct (spec_all tr s1) as [s2 rs]. cbn [fst snd] in *. exists q2.
    rewrite (grants_cons vip (now, op)). split_and!; [done..|congruence|congruence|].
    lia.
Qed.

Lemma agree_refl now t : agree now t t.
Proof. done. Qed.
#[export] Hint Resolve agree_refl : go.

Lemma stays_last_lt tr from vip e :
  stays_unpunchable vip e tr → from < e → last_time from tr < e.
Proof.
  revert from. induction tr as [|[now op] tr IH]; intros from Hst Hlt; [done|].
  apply Forall_cons in Hst as [[??] Hst]. by apply IH.
Qed.

(** *** The least recently touched record *)

Lemma older_fold t order acc :
  (∀ k, k ∈ order → is_Some (m t !! k)) →
  (∀ v o, acc = Some (v, o) → ∃ q, m t !! v = Some q ∧ LastTouch q = o) →
  (order ≠ [] ∨ acc ≠ None) →
  ∃ v q, foldl (older t) acc order = Some (v, LastTouch q) ∧ m t !! v = Some q ∧
         (∀ k q', k ∈ order → m t !! k = Some q' → LastTouch q <= LastTouch q') ∧
         (∀ v0 o0, acc = Some (v0, o0) → LastTouch q <= o0).
Proof.
  revert acc. induction order as [|k order IH]; intros acc Hin Hacc Hne.
  - destruct Hne as [?|Hne]; [done|]. destruct acc as [[v o]|]; [|done].
    destruct (Hacc v o) as (q & Hq & <-); [done|]. exists v, q. cbn.
    split_and!; auto; [by intros ? ? ?%elem_of_nil | by intros ? ? [= -> <-]].
  - destruct (Hin k) as [qk Hk]; [by left|]. cbn.
    assert (∃ v1 q1, older t acc k = Some (v1, LastTouch q1) ∧ m t !! v1 = Some q1 ∧
              LastTouch q1 <= LastTouch qk ∧ ∀ v0 o0, acc = Some (v0, o0) → LastTouch q1 <= o0)
      as (v1 & q1 & Ho & H1 & H2 & H3).
    { unfold older. rewrite Hk. destruct acc as [[v o]|].
      - destruct (Hacc v o) as (q & Hq & <-); [done|].
        destruct (time_before (LastTouch qk) (LastTouch q)) eqn:E; bool_hyps.
        + exists k, qk. split_and!; [done..|lia|]. intros ? ? [= <- <-]. lia.
        + exists v, q. split_and!; [done..|lia|]. intros ? ? [= <- <-]. lia.
      - exists k, qk. split_and!; [done..|lia|done]. }
    rewrite Ho. destruct (IH (Some (v1, LastTouch q1))) as (v & q & E & Hv & Hmin & Hacc1).
    + intros k' Hk'. apply Hin. by right.
    + intros ? ? [= -> <-]. eauto.
    + by right.
    + exists v, q. specialize (Hacc1 _ _ eq_refl). split_and!; [done..| |].
      * intros k' q' [->|Hk']%elem_of_cons Hq'; [|eauto]. rewrite Hk in Hq'. simplify_eq. lia.
      * intros v0 o0 E0. specialize (H3 _ _ E0). lia.
Qed.

Lemma evict_full order vip t :
  enumerates order t → m t !! vip = None → (peerTableMaxEntries <= size (m t))%nat →
  ∃ victim q, evictIfFullLocked order vip t = t <| m ::= delete victim |> ∧
    m t !! victim = Some q ∧ ∀ k q', m t !! k = Some q' → LastTouch q <= LastTouch q'.
Proof.
  intros [Hnd Hen] Hv Hfull. unfold evictIfFullLocked.
  rewrite (proj2 (Nat.ltb_ge _ _) Hfull), Hv.
  destruct (older_fold t order None) as (v & q & E & Hq & Hmin & _).
  - intros k. by apply Hen.
  - done.
  - left. intros ->. destruct (map_choose (m t)) as (k & q & Hk).
    { intros E. rewrite E, map_size_empty in Hfull. unfold peerTableMaxEntries in Hfull. lia. }
    apply (not_elem_of_nil k), Hen. by eexists.
  - rewrite E. exists v, q. split_and!; [done..|]. intros k q' Hk. apply (Hmin k q'); [|done].
    apply Hen. by eexists.
Qed.

(** *** The invariant *)

Definition record_ok (q : peerQuality) : Prop :=
  (∃ reason, Expire q = At q + peerTTLFor (Kind q) reason) ∧
  (ForcedRetryUsed q = true → Kind q = peerUnpunchable).

Definition table_ok (t : peerTable) : Prop :=
  (size (m t) <= peerTableMaxEntries)%nat ∧ 0 <= sincePrune t < peerTablePruneEvery ∧
  map_Forall (λ _, record_ok) (m t).

Definition op_ok (now : time) (op : peerOp) (t : peerTable) : Prop :=
  match op with
  | OpRecord order _ _ => enumerates order (tickPrune now t)
  | _ => True
  end.

Inductive reachable : peerTable → Prop :=
  | reach_new : reachable newPeerTable
  | reach_op now op t : reachable t → op_ok now op t → reachable (exec now op t).1.

Lemma tick_ok now t : table_ok t → table_ok (tickPrune now t).
Proof.
  intros (Hs & Hc & Hr). unfold tickPrune. case_test; cbn in *.
  - split_and!; [|cbn; unfold peerTablePruneEvery; lia..|].
    + etrans; [apply map_subseteq_size, map_filter_subseteq|done].
    + intros k q [Hk _]%map_lookup_filter_Some. exact (Hr k q Hk).
  - split_and!; [done|cbn; lia..|done].
Qed.

Lemma update_ok t vip q q' :
  table_ok t → m t !! vip = Some q → record_ok q' → table_ok (t <| m ::= <[vip := q']> |>).
Proof.
  intros (Hs & Hc & Hr) Hq Hq'. split_and!; cbn; [|by destruct Hc..|by apply map_Forall_insert_2].
  by rewrite map_size_insert_Some by eauto.
Qed.
#[export] Hint Resolve tick_ok update_ok : go.

Lemma evict_ok order vip t :
  enumerates order t → m t !! vip = None → table_ok t →
  table_ok (evictIfFullLocked order vip t) ∧
  (size (m (evictIfFullLocked order vip t)) < peerTableMaxEntries)%nat ∧
  m (evictIfFullLocked order vip t) !! vip = None.
Proof.
  intros Hen Hv Hok. destruct (decide (size (m t) < peerTableMaxEntries)%nat) as [Hlt|Hge].
  - unfold evictIfFullLocked. by rewrite (proj2 (Nat.ltb_lt _ _) Hlt).
  - destruct (evict_full order vip t) as (v & q & -> & Hq & _); [done..|lia|].
    destruct Hok as (Hs & Hc & Hr). cbn. rewrite map_size_delete_Some by eauto.
    unfold peerTableMaxEntries in *. split; [|split; [lia|apply lookup_delete_None; by right]].
    split_and!; cbn; [|by destruct Hc..|by apply map_Forall_delete].
    rewrite map_size_delete_Some by eauto. unfold peerTableMaxEntries. lia.
Qed.

Lemma insert_new_ok order vip q t :
  enumerates order t → table_ok t → record_ok q →
  table_ok ((evictIfFullLocked order vip t) <| m ::= <[vip := q]> |>).
Proof.
  intros Hen Hok Hq. destruct (m t !! vip) as [q0|] eqn:E.
  - assert (evictIfFullLocked order vip t = t) as ->
      by (unfold evictIfFullLocked; rewrite E; by case_test). eauto with go.
  - destruct (evict_ok order vip t Hen E Hok) as ((Hs & Hc & Hr) & Hlt & Hv).
    split_and!; cbn; [|by destruct Hc..|by apply map_Forall_insert_2].
    rewrite map_size_insert_None by done. lia.
Qed.

Lemma new_record_ok now o b :
  (b = true → o_Kind o = peerUnpunchable) →
  record_ok {| Kind := o_Kind o; ReasonCode := o_Reason o; RTTMs := o_RTTMs o;
               LossPct := o_LossPct o; At := now;
               Expire := time_add now (peerTTLFor (o_Kind o) (o_Reason o));
               ForcedRetryUsed := b; NatType := o_NatType o; Addr := o_Addr o;
               LastTouch := now |}.
Proof. intros Hb. split; [by exists (o_Reason o)|done]. Qed.

Lemma lookup_ok now vip t : table_ok t → table_ok (Lookup now vip t).1.
Proof.
  intros Hok%(tick_ok now). unfold Lookup.
  destruct (m (tickPrune now t) !! vip) as [q|] eqn:E; [|done]. case_test; [done|].
  eapply update_ok; [done..|]. destruct Hok as (_ & _ & Hr). exact (Hr _ _ E).
Qed.

Lemma exec_ok now op t : op_ok now op t → table_ok t → table_ok (exec now op t).1.
Proof.
  intros Hop Hok. destruct op as [order vip o|vip|vip|vip|vip]; cbn in *.
  - pose proof (tick_ok now t Hok) as Hok'. unfold Record_.
    destruct (m (tickPrune now t) !! vip) as [q|] eqn:E; [case_test|].
    + eapply update_ok; [done..|]. destruct Hok' as (_ & _ & Hr). exact (Hr _ _ E).
    + apply insert_new_ok; [done..|]. by apply new_record_ok.
    + apply insert_new_ok; [done..|]. by apply new_record_ok.
  - unfold TryConsumeForcedRetry. destruct (m t !! vip) as [q|] eqn:E; [|done].
    repeat case_test; cbn; try done. eapply update_ok; [done..|].
    destruct Hok as (_ & _ & Hr). split; [exact (proj1 (Hr _ _ E))|done].
  - pose proof (lookup_ok now vip t Hok). by destruct (Lookup now vip t).
  - done.
  - unfold Unpunchable. pose proof (lookup_ok now vip t Hok).
    destruct (Lookup now vip t) as [? [?|]]; [case_test|]; done.
Qed.

(** ** Theorems *)

(** Every state of the table reachable from the new one is bounded by the
    capacity, has a prune counter below the period, and holds only records
    whose deadline is their observation instant plus the lifetime of their
    verdict and whose forced-retry mark belongs to an unpunchable verdict. *)
Theorem peerTable_invariant t : reachable t → table_ok t.
Proof.
  induction 1 as [|now op t _ IH Hop].
  - split_and!; [vm_compute; lia|cbn; unfold peerTablePruneEvery; lia..|].
    apply map_Forall_empty.
  - by apply exec_ok.
Qed.

(** C35: the bounded, lazily pruned table implements the abstract one. On every
    trace whose instants do not go back and that touches, with the peers already
    in the table, no more addresses than the capacity, each operation returns
    exactly what the unbounded table without pruning returns: pruning, the
    prune counter and the order in which the map is ranged over are invisible. *)
Theorem peerTable_refines_spec tr from t s :
  clocked from tr → agree from (m t) s →
  (size (dom (m t) ∪ trace_vips tr) <= peerTableMaxEntries)%nat →
  (exec_all tr t).2 = (spec_all tr s).2.
Proof. intros. by eapply exec_all_refines. Qed.

(** An unpunchable verdict is neither prolonged nor retried twice. Take a
    live unpunchable record of [vip], and any interleaving of operations on any
    peers before its deadline in which no other verdict is recorded for [vip]
    (repeated recordings of the same verdict are allowed) and the capacity is
    not exceeded. Afterwards the record has the same observation instant and
    the same deadline, and the number of forced retries granted is one if a
    retry was asked for and none had been used, and zero otherwise. *)
Theorem unpunchable_one_forced_retry tr from t vip q :
  clocked from tr → m t !! vip = Some q → Kind q = peerUnpunchable → from < Expire q →
  stays_unpunchable vip (Expire q) tr →
  (size (dom (m t) ∪ trace_vips tr) <= peerTableMaxEntries)%nat →
  ∃ q', m (exec_all tr t).1 !! vip = Some q' ∧ At q' = At q ∧ Expire q' = Expire q ∧
        (used q + grants vip tr (exec_all tr t).2 = used q')%nat.
Proof.
  intros Hc Hq Hk Hlt Hst Hroom.
  destruct (exec_all_refines tr from t (m t) Hc (agree_refl _ _) Hroom) as [-> Hag].
  destruct (spec_all_unpunchable tr (m t) vip q Hq Hk Hst) as (q' & H' & _ & HA & HE & HU).
  exists q'. split_and!; try done.
  specialize (Hag vip). rewrite H', live_fresh in Hag.
  - by apply live_Some in Hag as [? _].
  - pose proof (stays_last_lt tr from vip (Expire q) Hst Hlt).
    unfold fresh, time_before. rewrite HE. lia.
Qed.

(** At capacity a new peer takes the place of exactly one record, a least
    recently touched one, whatever order the runtime ranges over the map in;
    a peer already in the table evicts nothing. *)
Theorem eviction_is_lru order vip t :
  enumerates order t → (peerTableMaxEntries <= size (m t))%nat →
  (is_Some (m t !! vip) ∧ evictIfFullLocked order vip t = t) ∨
  ∃ victim q, m t !! victim = Some q ∧
    evictIfFullLocked order vip t = t <| m ::= delete victim |> ∧
    ∀ k q', m t !! k = Some q' → LastTouch q <= LastTouch q'.
Proof.
  intros Hen Hfull. destruct (m t !! vip) as [q0|] eqn:E.
  - left. split; [done|]. unfold evictIfFullLocked. rewrite E. by case_test.
  - right. destruct (evict_full order vip t) as (v & q & ? & ? & ?); eauto 6.
Qed.

(** ** Concrete instances *)

Definition peer1 : ip4 := (10, 0, 0, 1).
Definition peer2 : ip4 := (10, 0, 0, 2).

Definition timed_out : peerOutcome :=
  {| o_Kind := peerUnpunchable; o_Reason := P2PReasonPunchTimeout; o_RTTMs := 0;
     o_LossPct := 100; o_NatType := "NAT3"; o_Addr := "1.2.3.4:5" |}.
Definition went_well : peerOutcome :=
  {| o_Kind := peerGood; o_Reason := P2PReasonOKDirect; o_RTTMs := 20;
     o_LossPct := 0; o_NatType := "NAT1"; o_Addr := "1.2.3.4:6" |}.

Definition table1 : peerTable := Record_ [] 0 peer1 timed_out newPeerTable.

Definition record1 : peerQuality :=
  {| Kind := peerUnpunchable; ReasonCode := P2PReasonPunchTimeout; RTTMs := 0; LossPct := 100;
     At := 0; Expire := 10 * minute; ForcedRetryUsed := false; NatType := "NAT3";
     Addr := "1.2.3.4:5"; LastTouch := 0 |}.

Definition trace1 : list (time * peerOp) :=
  [ (1, OpConsume peer1); (2, OpConsume peer1); (3, OpRecord [] peer2 went_well);
    (4, OpRecord [] peer1 timed_out); (5, OpConsume peer1); (6, OpUnpunchable peer1);
    (7, OpPeek peer2) ].

(** The table filled to its capacity, the record of the i-th peer touched at
    the instant [2000 - i]. *)
Definition full_table : peerTable :=
  {| m := list_to_map (map (λ i,
       ((10, 0, i / 256, i mod 256),
        {| Kind := peerGood; ReasonCode := P2PReasonOKDirect; RTTMs := 1; LossPct := 0;
           At := 0; Expire := peerTTLGood; ForcedRetryUsed := false; NatType := "";
           Addr := ""; LastTouch := 2000 - i |})) (seqZ 0 1024));
     sincePrune := 0 |}.

Lemma enumerates_keys t : enumerates (map_to_list (m t)).*1 t.
Proof.
  split; [apply NoDup_fst_map_to_list|]. intros k. rewrite list_elem_of_fmap. split.
  - intros ([k' q] & -> & Hk%elem_of_map_to_list). by eexists.
  - intros [q Hq]. exists (k, q). split; [done|]. by apply elem_of_map_to_list.
Qed.

Example trace1_results :
  (exec_all trace1 table1).2
  = [ResBool true; ResBool false; ResUnit; ResUnit; ResBool false;
     ResQuality (Some {| Kind := peerUnpunchable; ReasonCode := P2PReasonPunchTimeout;
                         RTTMs := 0; LossPct := 100; At := 0; Expire := 10 * minute;
                         ForcedRetryUsed := true; NatType := "NAT3"; Addr := "1.2.3.4:5";
                         LastTouch := 6 |});
     ResQuality (Some {| Kind := peerGood; ReasonCode := P2PReasonOKDirect; RTTMs := 20;
                         LossPct := 0; At := 3; Expire := 3 + 45 * minute;
                         ForcedRetryUsed := false; NatType := "NAT1"; Addr := "1.2.3.4:6";
                         LastTouch := 3 |})].
Proof. vm_compute. reflexivity. Qed.

Lemma peerTable_invariant_witness : table_ok table1.
Proof.
  apply (peerTable_invariant table1).
  apply (reach_op 0 (OpRecord [] peer1 timed_out) newPeerTable reach_new).
  split; [constructor|]. intros k. split; [intros Hk; inversion Hk|].
  intros [q Hq]. vm_compute in Hq. discriminate.
Defined.

Lemma peerTable_refines_spec_witness :
  (exec_all trace1 table1).2 = (spec_all trace1 (m table1)).2.
Proof.
  apply (peerTable_refines_spec trace1 0 table1 (m table1)).
  - vm_compute. repeat split; discriminate.
  - intros vip. reflexivity.
  - apply Nat.leb_le. vm_compute. reflexivity.
Defined.

Lemma unpunchable_one_forced_retry_witness :
  ∃ q', m (exec_all trace1 table1).1 !! peer1 = Some q' ∧ At q' = 0 ∧ Expire q' = 10 * minute ∧
        (grants peer1 trace1 (exec_all trace1 table1).2 = used q')%nat.
Proof.
  apply (unpunchable_one_forced_retry trace1 0 table1 peer1 record1).
  - vm_compute. repeat split; discriminate.
  - reflexivity.
  - reflexivity.
  - vm_compute. reflexivity.
  - repeat constructor; vm_compute; try reflexivity; intros; try reflexivity; discriminate.
  - apply Nat.leb_le. vm_compute. reflexivity.
Defined.

Lemma eviction_is_lru_witness :
  (is_Some (m full_table !! peer2) ∧
   evictIfFullLocked (map_to_list (m full_table)).*1 peer2 full_table = full_table) ∨
  ∃ victim q, m full_table !! victim = Some q ∧
    evictIfFullLocked (map_to_list (m full_table)).*1 peer2 full_table
    = full_table <| m ::= delete victim |> ∧
    ∀ k q', m full_table !! k = Some q' → LastTouch q <= LastTouch q'.
Proof.
  apply (eviction_is_lru (map_to_list (m full_table)).*1 peer2 full_table).
  - apply enumerates_keys.
  - apply Nat.leb_le. vm_compute. reflexivity.
Defined.
