(* ===== verification/GoFloat.v ===== *)
(** * The double-precision arithmetic of the RTT thresholds

    [path.go] compares round-trip times against [float64(relay) * ratio]
    converted back to a [time.Duration]. The operands are non-negative and far
    from the ends of the exponent range, so a double is the pair of a
    non-negative significand and an exponent, and rounding is to nearest, ties
    to even, at 53 bits. *)

From Stdlib Require Import ZArith Lia Bool.
From Stdlib Require Import Floats.SpecFloat.
From stdpp Require Import base.
From S2P Require Import Prelude.

Open Scope Z_scope.

(** [F64 m e] is [m * 2^e]. *)
Record float64 := F64 { significand : Z; exponent : Z }.

(** Round [m * 2^e] to 53 bits. *)
Definition round53 (m e : Z) : float64 :=
  if m <? 2 ^ 53 then F64 m e
  else
    let s := Z.log2 m - 52 in
    let q := m / 2 ^ s in
    let r := m mod 2 ^ s in
    let up := (2 ^ s <? 2 * r) || ((2 ^ s =? 2 * r) && Z.odd q) in
    F64 (if up then q + 1 else q) (e + s).

Definition float_of_int (n : Z) : float64 := round53 n 0.

Definition fmul (a b : float64) : float64 :=
  round53 (significand a * significand b) (exponent a + exponent b).

(** Conversion to an integer truncates. *)
Definition int_of_float (a : float64) : Z :=
  if 0 <=? exponent a then significand a * 2 ^ exponent a
  else significand a / 2 ^ (- exponent a).

Definition fadd (a b : float64) : float64 :=
  let e := Z.min (exponent a) (exponent b) in
  round53 (significand a * 2 ^ (exponent a - e) + significand b * 2 ^ (exponent b - e)) e.

Definition fle (a b : float64) : bool :=
  let e := Z.min (exponent a) (exponent b) in
  significand a * 2 ^ (exponent a - e) <=? significand b * 2 ^ (exponent b - e).

(** Division: two bits more than needed and a sticky one, then rounded. *)
Definition fdiv (a b : float64) : float64 :=
  if significand a =? 0 then F64 0 0
  else
    let k := Z.max 0 (56 + Z.log2 (significand b) - Z.log2 (significand a)) in
    let n := significand a * 2 ^ k in
    round53 (2 * (n / significand b) + (if n mod significand b =? 0 then 0 else 1)) (exponent a - exponent b - k - 1).

(** The doubles nearest to the decimal constants of the source. *)
Definition f_0_0 : float64 := F64 0 0.
Definition f_1_0 : float64 := F64 1 0.
Definition f_1_2 : float64 := F64 5404319552844595 (-52).
Definition f_0_9 : float64 := F64 8106479329266893 (-53).

Definition f_0_7 : float64 := F64 6305039478318694 (-53).
Definition f_0_85 : float64 := F64 7656119366529843 (-53).
Definition f_0_125 : float64 := F64 1 (-3).
Definition f_0_875 : float64 := F64 7 (-3).
Definition f_0_5 : float64 := F64 1 (-1).
Definition f_0_75 : float64 := F64 3 (-2).
Definition f_1_5 : float64 := F64 3 (-1).
Definition f_4 : float64 := F64 1 2.

(** The constants are the nearest doubles: within half a unit in the last
    place of 6/5 and 9/10. *)
Lemma f_1_2_nearest : 2 * Z.abs (5 * significand f_1_2 - 6 * 2 ^ 52) <= 5.
Proof. vm_compute. discriminate. Qed.
Lemma f_0_9_nearest : 2 * Z.abs (10 * significand f_0_9 - 9 * 2 ^ 53) <= 10.
Proof. vm_compute. discriminate. Qed.

Lemma f_0_7_nearest : 2 * Z.abs (10 * significand f_0_7 - 7 * 2 ^ 53) <= 10.
Proof. vm_compute. discriminate. Qed.
Lemma f_0_85_nearest : 2 * Z.abs (20 * significand f_0_85 - 17 * 2 ^ 53) <= 20.
Proof. vm_compute. discriminate. Qed.

(** The product agrees with the Standard Library's specification of binary64
    multiplication ([SFmul]) on sample operands. *)
Definition to_spec (a : float64) : spec_float :=
  match significand a with
  | Zpos p => S754_finite false p (exponent a)
  | _ => S754_zero false
  end.

Definition spec_value (f : spec_float) : Z * Z :=
  match f with S754_finite _ p e => (Zpos p, e) | _ => (0, 0) end.

Definition same_value (x y : Z * Z) : bool :=
  let e := Z.min x.2 y.2 in x.1 * 2 ^ (x.2 - e) =? y.1 * 2 ^ (y.2 - e).

Definition agrees_with_spec (n : Z) : bool :=
  let x := float_of_int n in
  let y := fmul x f_1_2 in
  same_value (spec_value (SFmul 53 1024 (binary_normalize 53 1024 n 0 false) (to_spec f_1_2)))
             (significand y, exponent y).

Example fmul_samples :
  forallb agrees_with_spec
    [1; 2; 3; 7; 999999; 1000000; 38000000; 39000001; 46123457; 51000000; 123456789012345;
     2 ^ 52 - 1; 2 ^ 53 - 1; 2 ^ 53 + 1; 2 ^ 60 + 3; 9007199254740993; 1125899906842623] = true.
Proof. vm_compute. reflexivity. Qed.

(** So does the quotient. *)
Definition fdiv_agrees (xy : Z * Z) : bool :=
  let q := fdiv (float_of_int xy.1) (float_of_int xy.2) in
  same_value (spec_value (SFdiv 53 1024 (binary_normalize 53 1024 xy.1 0 false) (binary_normalize 53 1024 xy.2 0 false)))
             (significand q, exponent q).

Example fdiv_samples :
  forallb fdiv_agrees
    [(1, 3); (2, 3); (7, 10); (1000000, 3); (524289, 524288); (123456789, 987654321); (2 ^ 53 - 1, 3); (1, 2 ^ 53 - 1); (5, 1);
     (9007199254740993, 7); (786433, 1048576); (15728640, 15728641)] = true.
Proof. vm_compute. reflexivity. Qed.

(** [time.Duration(float64(d) * ratio)] *)
Definition scale_duration (d : duration) (ratio : float64) : duration :=
  int_of_float (fmul (float_of_int d) ratio).

Lemma float_of_int_exact n : n < 2 ^ 53 → float_of_int n = F64 n 0.
Proof. intros H. unfold float_of_int, round53. by rewrite (proj2 (Z.ltb_lt _ _) H). Qed.

(** Rounding moves a value by at most half a unit, and lands on a multiple of
    the unit that is within less than half a unit. *)
Lemma round53_unit m e :
  2 ^ 53 <= m →
  let s := Z.log2 m - 52 in
  exponent (round53 m e) = e + s ∧ 2 ^ (52 + s) <= m < 2 ^ (53 + s) ∧ 1 <= s ∧
  - 2 ^ s <= 2 * (significand (round53 m e) * 2 ^ s - m) <= 2 ^ s ∧
  (∀ k, 2 * Z.abs (k * 2 ^ s - m) < 2 ^ s → significand (round53 m e) = k).
Proof.
  intros Hm s. unfold round53. rewrite (proj2 (Z.ltb_ge _ _) Hm). cbn [significand exponent].
  assert (0 < m) as Hpos by lia.
  pose proof (Z.log2_spec m Hpos) as [Hlo Hhi].
  assert (1 <= s) as Hs.
  { unfold s. assert (53 <= Z.log2 m) by (apply Z.log2_le_pow2; lia). lia. }
  fold s.
  replace (Z.log2 m) with (52 + s) in Hlo by (unfold s; lia).
  replace (Z.succ (Z.log2 m)) with (53 + s) in Hhi by (unfold s; lia).
  assert (0 < 2 ^ s) as HD by (apply Z.pow_pos_nonneg; lia).
  pose proof (Z.div_mod m (2 ^ s) ltac:(lia)) as Hdm.
  pose proof (Z.mod_pos_bound m (2 ^ s) HD) as Hr.
  set (D := 2 ^ s) in *. set (q := m / D) in *. set (r := m mod D) in *.
  split; [done|]. split; [lia|]. split; [done|].
  destruct (D <? 2 * r) eqn:E1; cbn.
  - apply Z.ltb_lt in E1. split; [nia|]. intros k Hk.
    assert (k * D - q * D < 2 * D ∧ 0 < k * D - q * D) by nia. nia.
  - apply Z.ltb_ge in E1. destruct (D =? 2 * r) eqn:E2; cbn.
    + apply Z.eqb_eq in E2. split; [destruct (Z.odd q); nia|]. intros k Hk.
      exfalso. assert (2 * (k * D - m) = 2 * (k - q) * D - D) by lia.
      destruct (Z.le_gt_cases k q); nia.
    + apply Z.eqb_neq in E2. split; [nia|]. intros k Hk.
      assert (k * D - q * D < D ∧ - D < k * D - q * D) by nia. nia.
Qed.

(** Scaling by 1.2 is exact on every duration below 2^50 ns (13 days): the
    double 1.2 is below 6/5 and the product is inexact, yet the truncated
    result is the integer quotient. *)
Lemma scale_1_2 d : 0 < d < 2 ^ 50 → scale_duration d f_1_2 = 6 * d / 5.
Proof.
  intros [Hd1 Hd2]. unfold scale_duration.
  rewrite float_of_int_exact by lia. unfold fmul.
  cbn [significand exponent f_1_2]. rewrite Z.add_0_l.
  set (m := d * 5404319552844595).
  assert (5 * m = d * (6 * 2 ^ 52 - 1)) as Hm by (unfold m; lia).
  destruct (Z.lt_ge_cases m (2 ^ 53)) as [Hs|Hb].
  - assert (d = 1) as -> by (unfold m in Hs; lia). reflexivity.
  - destruct (round53_unit m (-52) Hb) as (He & [Hlo Hhi] & Hs & Hround & Hsnap).
    set (s := Z.log2 m - 52) in *. set (g := round53 m (-52)) in *.
    assert (s <= 50) as Hs50.
    { assert (52 + s < 103); [|lia]. apply (Z.pow_lt_mono_r_iff 2); lia. }
    unfold int_of_float. rewrite He.
    destruct (Z.leb_spec 0 (-52 + s)); [lia|].
    replace (- (-52 + s)) with (52 - s) by lia.
    assert (0 < 2 ^ s) as HD by (apply Z.pow_pos_nonneg; lia).
    assert (2 * 2 ^ s <= 2 ^ 51) as HD50.
    { change (2 ^ 51) with (2 * 2 ^ 50). apply Zmult_le_compat_l; [|lia].
      apply Z.pow_le_mono_r; lia. }
    assert (2 ^ (52 - s) * 2 ^ s = 2 ^ 52) as HDU
      by (rewrite <- Z.pow_add_r by lia; f_equal; lia).
    assert (2 ^ (53 + s) = 2 ^ 53 * 2 ^ s) as HB by (apply Z.pow_add_r; lia).
    pose proof (Z.div_mod (6 * d) 5 ltac:(lia)) as Hn.
    pose proof (Z.mod_pos_bound (6 * d) 5 ltac:(lia)) as Ht.
    set (n := 6 * d / 5) in *. set (t := (6 * d) mod 5) in *.
    set (D := 2 ^ s) in *. set (U := 2 ^ (52 - s)) in *. set (k := significand g) in *.
    assert (0 < U) as HU by (apply Z.pow_pos_nonneg; lia).
    symmetry. apply (Z.div_unique_pos k U n (k - U * n)); [|lia].
    cut (n * 2 ^ 52 <= k * D < (n + 1) * 2 ^ 52).
    { rewrite <- HDU. nia. }
    destruct (Z.eq_dec t 0) as [Ht0|Ht0].
    + assert (k = n * U) as -> by (apply Hsnap; rewrite <- Z.mul_assoc, HDU; nia).
      rewrite <- Z.mul_assoc, HDU. lia.
    + split; nia.
Qed.

(** Scaling by 1.0 changes no duration below 2^53 ns. *)
Lemma scale_1_0 d : 0 <= d < 2 ^ 53 → scale_duration d f_1_0 = d.
Proof.
  intros Hd. unfold scale_duration. rewrite float_of_int_exact by lia. unfold fmul.
  cbn [significand exponent f_1_0]. rewrite Z.mul_1_r, Z.add_0_r.
  unfold round53. rewrite (proj2 (Z.ltb_lt d (2 ^ 53))) by lia. cbn. lia.
Qed.
(** Scaling by a ratio [p/q] below 1 whose double is a little smaller: the result
    is the integer quotient or one less (90 * 0.7 gives 62). *)
Lemma scale_ratio_near p q c d :
  0 < p < q → q <= 32 → exponent c = -53 → 2 ^ 52 <= significand c < 2 ^ 53 →
  0 <= p * 2 ^ 53 - q * significand c < q → 0 < d < 2 ^ 40 →
  p * d / q - 1 <= scale_duration d c <= p * d / q.
Proof.
  intros Hp Hq He Hc Hd [Hd1 Hd2]. unfold scale_duration. rewrite float_of_int_exact by lia. unfold fmul.
  cbn [significand exponent]. rewrite He, Z.add_0_l. set (m := d * significand c).
  assert (p * d * 2 ^ 53 - q * d <= q * m <= p * d * 2 ^ 53) as Hm by (unfold m; nia).
  pose proof (Z.div_mod (p * d) q ltac:(lia)) as Hn. pose proof (Z.mod_pos_bound (p * d) q ltac:(lia)) as Ht.
  set (n := p * d / q) in *. set (t := (p * d) mod q) in *.
  assert (n * 2 ^ 53 - d <= m /\ q * m <= (q * n + q - 1) * 2 ^ 53) as [Hlow Hup] by nia.
  destruct (Z.lt_ge_cases m (2 ^ 53)) as [Hs|Hb].
  - unfold round53. rewrite (proj2 (Z.ltb_lt _ _) Hs). unfold int_of_float. cbn [exponent significand].
    change (0 <=? -53) with false. cbv iota. change (- -53) with 53.
    pose proof (Z.div_mod m (2 ^ 53) ltac:(lia)). pose proof (Z.mod_pos_bound m (2 ^ 53) ltac:(lia)). nia.
  - destruct (round53_unit m (-53) Hb) as (Ex & [Hlo Hhi] & Hs1 & Hround & _).
    set (s := Z.log2 m - 52) in *. set (g := round53 m (-53)) in *.
    assert (s <= 41) as Hs41.
    { assert (m < 2 ^ 93) by (unfold m; change (2 ^ 93) with (2 ^ 40 * 2 ^ 53); nia).
      assert (52 + s < 93); [|lia]. apply (Z.pow_lt_mono_r_iff 2); lia. }
    assert (0 < 2 ^ s <= 2 ^ 41) as HD by (split; [apply Z.pow_pos_nonneg; lia|apply Z.pow_le_mono_r; lia]).
    unfold int_of_float. rewrite Ex. destruct (Z.leb_spec 0 (-53 + s)); [lia|].
    replace (- (-53 + s)) with (53 - s) by lia.
    assert (2 ^ (53 - s) * 2 ^ s = 2 ^ 53) as HDU by (rewrite <- Z.pow_add_r by lia; f_equal; lia).
    set (D := 2 ^ s) in *. set (U := 2 ^ (53 - s)) in *. set (k := significand g) in *.
    assert (0 < U) as HU by (apply Z.pow_pos_nonneg; lia).
    assert ((n - 1) * 2 ^ 53 <= k * D) as H1 by (change (2 ^ 41) with 2199023255552 in *; lia).
    assert (k * D < (n + 1) * 2 ^ 53) as H2.
    { assert (2 * q * (k * D) <= 2 * q * m + q * D) by nia. change (2 ^ 41) with 2199023255552 in *. nia. }
    rewrite <- HDU in H1, H2. split.
    + apply Z.div_le_lower_bound; nia.
    + assert (k / U < n + 1); [|lia]. apply Z.div_lt_upper_bound; nia.
Qed.

Lemma round53_nonneg m e : 0 <= m → 0 <= significand (round53 m e).
Proof.
  intros Hm. unfold round53. destruct (m <? 2 ^ 53); [done|]. cbn.
  assert (0 <= m / 2 ^ (Z.log2 m - 52)) by (apply Z_div_nonneg_nonneg; [done|apply Z.pow_nonneg; lia]).
  destruct (_ || _); lia.
Qed.

Lemma scale_nonneg d c : 0 <= d → 0 <= significand c → 0 <= scale_duration d c.
Proof.
  intros Hd Hc. unfold scale_duration, fmul. set (g := round53 _ _).
  assert (0 <= significand g) by (apply round53_nonneg, Z.mul_nonneg_nonneg; [by apply round53_nonneg|done]).
  unfold int_of_float. destruct (0 <=? exponent g);
    [apply Z.mul_nonneg_nonneg; [done|apply Z.pow_nonneg; lia]|apply Z_div_nonneg_nonneg; [done|apply Z.pow_nonneg; lia]].
Qed.

Lemma scale_0_7 d : 0 < d < 2 ^ 40 → 7 * d / 10 - 1 <= scale_duration d f_0_7 <= 7 * d / 10.
Proof. apply scale_ratio_near; vm_compute; intuition congruence. Qed.
Lemma scale_0_85 d : 0 < d < 2 ^ 40 → 17 * d / 20 - 1 <= scale_duration d f_0_85 <= 17 * d / 20.
Proof. apply scale_ratio_near; vm_compute; intuition congruence. Qed.

(** Halving is exact. *)
Lemma scale_0_5 d : 0 <= d < 2 ^ 53 → scale_duration d f_0_5 = d / 2.
Proof.
  intros Hd. unfold scale_duration. rewrite float_of_int_exact by lia. unfold fmul.
  cbn [significand exponent f_0_5]. rewrite Z.mul_1_r, Z.add_0_l. unfold round53.
  rewrite (proj2 (Z.ltb_lt d (2 ^ 53))) by lia. done.
Qed.

(** The moving average with weights 7/8 and 1/8 is exact on values below 2^49. *)
Lemma average_7_1 a b :
  0 <= a < 2 ^ 49 → 0 <= b < 2 ^ 49 →
  int_of_float (fadd (fmul (float_of_int a) f_0_875) (fmul (float_of_int b) f_0_125)) = (7 * a + b) / 8.
Proof.
  intros Ha Hb. rewrite !float_of_int_exact by lia. unfold fmul. cbn [significand exponent f_0_875 f_0_125].
  rewrite !Z.add_0_l, Z.mul_1_r.
  assert (round53 (a * 7) (-3) = F64 (a * 7) (-3)) as -> by (unfold round53; by rewrite (proj2 (Z.ltb_lt _ _)) by lia).
  assert (round53 b (-3) = F64 b (-3)) as -> by (unfold round53; by rewrite (proj2 (Z.ltb_lt _ _)) by lia).
  unfold fadd. cbn [significand exponent]. rewrite Z.min_id, Z.sub_diag, !Z.mul_1_r. unfold round53.
  rewrite (proj2 (Z.ltb_lt _ (2 ^ 53))) by lia. unfold int_of_float. cbn [significand exponent].
  change (0 <=? -3) with false. cbv iota. change (2 ^ (- -3)) with 8. f_equal. lia.
Qed.
#[export] Hint Resolve scale_1_2 scale_1_0 : go.

(** Three quarters are exact, up to the truncation. *)
Lemma scale_0_75 d : 0 <= d < 2 ^ 51 → int_of_float (fmul (float_of_int d) f_0_75) = 3 * d / 4.
Proof.
  intros Hd. change (2 ^ 51) with 2251799813685248 in Hd. rewrite float_of_int_exact by (change (2 ^ 53) with 9007199254740992; lia).
  unfold fmul. cbn [significand exponent f_0_75]. rewrite Z.add_0_l. unfold round53. rewrite (Z.mul_comm d 3).
  rewrite (proj2 (Z.ltb_lt (3 * d) (2 ^ 53))) by (change (2 ^ 53) with 9007199254740992; lia). done.
Qed.
