(* ===== verification/PathData.v ===== *)
(** * Direct paths and their manager: the data
    ([vpn-tool/backend/quic/path.go])

    [directPath] is one direct QUIC connection to a peer, [pathManager] the
    table of them and the per-peer bookkeeping (gates, backoff, cooldowns). The
    Go structs refer to each other by pointer; here the manager owns a heap of
    path objects and the two tables hold their identifiers, so aliasing (one
    object in a table and in the hands of a goroutine) is explicit.

    Instants in a path are Unix milliseconds, as in the source; round-trip
    times are nanoseconds. One call of an operation reads the clock once. *)

From Stdlib Require Import ZArith Lia Bool String.
From stdpp Require Import base list gmap strings.
From S2P Require Import Prelude.
From S2P Require Import GoNet.
From S2P Require Import Reasons.
From S2P Require Import PeerTable.
From S2P Require Import GoFloat.

Open Scope string_scope.
Open Scope Z_scope.

(** ** Limits and time constants *)

Definition pathMaxPaths : nat := 8.
Definition pathTxQueue : nat := 256.
Definition triggerQueueLen : nat := 8.
Definition pathMaxAttempts : nat := 2.
Definition gatePositiveTTL : duration := 120 * second.
Definition gateNegativeTTL : duration := 60 * second.
Definition gateFailBackoff : duration := 30 * second.
Definition gateGlobalPerMin : nat := 30.
Definition backoffBusy : duration := 30 * second.
Definition triggerSeenTTL : duration := 15 * second.
Definition pathLocalNotReadyDelay : duration := 5 * second.
Definition stableClearFailuresAfter : duration := 5 * minute.
Definition trialRejectedTTL : duration := 60 * second.

Definition trialWindowNormal : duration := 15 * second.
Definition trialRTTRatio : float64 := f_1_2.
Definition trialMinProbeSuccess : float64 := f_0_9.
Definition trialNeedGoodNormal : Z := 2.
Definition defaultProbeInterval : duration := 5 * second.

(** The parameters every manager carries (the tests inject other values, the
    program keeps the defaults). *)
Record params := {
  tiebreakDelay : duration;
  idleEvict : duration;
  recreateDelay : duration;
  silentWarn : duration;
  oneWayWarn : duration;
  probeInterval : duration;
  probeMissLimit : Z;
  checkInterval : duration;
  trialWindowOverride : duration;
  trialNeedOverride : Z;
  trialRelayRttSeed : Z;
  standbyRatio : float64;
  standbyExitRatio : float64;
  standbyDegradeFor : duration;
  standbyEvalInterval : duration;
  relayRttRefreshInterval : duration }.

Definition defaultParams : params := {|
  tiebreakDelay := 2 * second;
  idleEvict := 30 * minute;
  recreateDelay := 2 * second;
  silentWarn := 10 * second;
  oneWayWarn := 30 * second;
  probeInterval := defaultProbeInterval;
  probeMissLimit := 2;
  checkInterval := second;
  trialWindowOverride := 0;
  trialNeedOverride := 0;
  trialRelayRttSeed := 0;
  standbyRatio := f_1_2;
  standbyExitRatio := f_1_0;
  standbyDegradeFor := 30 * second;
  standbyEvalInterval := 5 * minute;
  relayRttRefreshInterval := 5 * minute |}.

(** ** Planes *)

Abbreviation pathPlaneIndex := Z (only parsing).
Definition planeTCP : pathPlaneIndex := 1.
Definition planeUDP : pathPlaneIndex := 2.
Definition planeMatch : pathPlaneIndex := 3.
Definition planeGameTCP : pathPlaneIndex := 4.
Definition planeICMP : pathPlaneIndex := 5.
Definition planeCount : nat := 6.

Definition planeName (p : pathPlaneIndex) : string :=
  if p =? planeTCP then "tcp"
  else if p =? planeUDP then "udp"
  else if p =? planeMatch then "match"
  else if p =? planeGameTCP then "gametcp"
  else if p =? planeICMP then "icmp"
  else if p =? 0 then "datagram"
  else "unknown".

(** ** Path states *)

Inductive pathState :=
  | pathStateUp
  | pathStateDown
  | pathStateStandby
  | pathStateTrial
  | pathStateRejected
  | pathStateReusing
  | pathStateRejectedSettling.

#[export] Instance pathState_eq_dec : EqDecision pathState.
Proof. solve_decision. Defined.

(** The [int32] of the constant ([iota + 1]). *)
Definition pathState_code (s : pathState) : Z :=
  match s with
  | pathStateUp => 1
  | pathStateDown => 2
  | pathStateStandby => 3
  | pathStateTrial => 4
  | pathStateRejected => 5
  | pathStateReusing => 6
  | pathStateRejectedSettling => 7
  end.
Definition pathStateSentinel : Z := 8.

Definition allPathStates : list Z := seqZ 1 (pathStateSentinel - 1).

Definition pathStateName (s : Z) : string :=
  if s =? pathState_code pathStateUp then "direct"
  else if s =? pathState_code pathStateTrial then "trial"
  else if s =? pathState_code pathStateStandby then "standby"
  else if s =? pathState_code pathStateRejected then "rejected"
  else if s =? pathState_code pathStateReusing then "reusing"
  else if s =? pathState_code pathStateRejectedSettling then "rejected-settling"
  else if s =? pathState_code pathStateDown then "relay"
  else "unknown".

(** The check the source asks of every new state: each has a name, and no two
    share one. *)
Lemma pathStateName_covers :
  Forall (λ s, pathStateName s ≠ "unknown") allPathStates ∧
  NoDup (map pathStateName allPathStates).
Proof. split; vm_compute; [repeat constructor; discriminate|]. apply (bool_decide_unpack _). by vm_compute. Qed.

Inductive pathRole := pathRoleInitiator | pathRoleResponder.
#[export] Instance pathRole_eq_dec : EqDecision pathRole.
Proof. solve_decision. Defined.

(** ** Errors of a connection and its streams

    The errors reach the path wrapped: [errors.As]/[errors.Is] walk the chain,
    [Error()] is the text of the whole. *)
Inductive errLeaf :=
  | ApplicationError (Remote : bool)
  | TransportError (Remote : bool)
  | StreamError (Remote : bool)
  | EOF
  | UnexpectedEOF
  | OtherError.

Record goError := { err_chain : list errLeaf; err_text : string }.

(** ** A direct path *)

Record directPath := {
  p_peer : ip4;
  p_peerVIP : string;
  p_role : pathRole;
  p_myVIP : ip4;
  p_connCause : option goError; (** why the connection's context ended, if it did *)
  p_since : time;
  p_scoutWindowMs : Z;
  p_state : pathState;
  p_bytesUp : Z;
  p_bytesDown : Z;
  p_lastUse : Z;
  p_rtt : Z;
  p_lastProbe : Z;
  p_lastEcho : Z;
  p_probeMiss : Z;
  p_probeSeq : Z;
  p_relayRtt : Z;
  p_relayRttTriedAt : Z;
  p_degradeSince : Z;
  p_lastStandbyEval : Z;
  p_stableSince : Z;
  p_trialStartedAt : Z;
  p_trialSamples : Z;
  p_trialGood : Z;
  p_watchdogTicks : Z;
  p_trialLastSampleAt : Z;
  p_trialLastEcho : Z;
  p_trialLastDirectRtt : Z;
  p_trialRelayRtt : Z;
  p_trialDone : bool;
  p_lastStableCheck : Z;
  p_enqueued : Z;
  p_silentWarned : bool;
  p_oneWayWarned : bool;
  p_closed : bool; (** [closeOnce] has run: streams, connection, closers released *)
  p_terminated : bool; (** [terminateOnce] has run *)
  p_untracked : bool; (** the [Once] inside [untrack] has run *)
  p_settled : bool;
  p_reuseCount : Z;
  p_rejectedAt : Z }.

#[export] Instance eta_directPath : Eta directPath := λ p, {|
  p_peer := p_peer p; p_peerVIP := p_peerVIP p; p_role := p_role p; p_myVIP := p_myVIP p;
  p_connCause := p_connCause p; p_since := p_since p; p_scoutWindowMs := p_scoutWindowMs p;
  p_state := p_state p; p_bytesUp := p_bytesUp p; p_bytesDown := p_bytesDown p;
  p_lastUse := p_lastUse p; p_rtt := p_rtt p; p_lastProbe := p_lastProbe p;
  p_lastEcho := p_lastEcho p; p_probeMiss := p_probeMiss p; p_probeSeq := p_probeSeq p;
  p_relayRtt := p_relayRtt p; p_relayRttTriedAt := p_relayRttTriedAt p;
  p_degradeSince := p_degradeSince p; p_lastStandbyEval := p_lastStandbyEval p;
  p_stableSince := p_stableSince p; p_trialStartedAt := p_trialStartedAt p;
  p_trialSamples := p_trialSamples p; p_trialGood := p_trialGood p;
  p_watchdogTicks := p_watchdogTicks p; p_trialLastSampleAt := p_trialLastSampleAt p;
  p_trialLastEcho := p_trialLastEcho p; p_trialLastDirectRtt := p_trialLastDirectRtt p;
  p_trialRelayRtt := p_trialRelayRtt p; p_trialDone := p_trialDone p;
  p_lastStableCheck := p_lastStableCheck p; p_enqueued := p_enqueued p;
  p_silentWarned := p_silentWarned p; p_oneWayWarned := p_oneWayWarned p;
  p_closed := p_closed p; p_terminated := p_terminated p; p_untracked := p_untracked p;
  p_settled := p_settled p; p_reuseCount := p_reuseCount p; p_rejectedAt := p_rejectedAt p |}.

(** ** The manager *)

Record gateEntry := { g_pass : bool; g_until : time }.

Record backoffState := {
  b_step : Z;
  b_qualityStep : Z;
  b_until : time;
  b_lastErr : string }.

#[export] Instance eta_backoffState : Eta backoffState := λ b,
  {| b_step := b_step b; b_qualityStep := b_qualityStep b; b_until := b_until b;
     b_lastErr := b_lastErr b |}.

(** The zero value a map lookup of an absent key gives. *)
Definition backoff_zero : backoffState :=
  {| b_step := 0; b_qualityStep := 0; b_until := time_zero; b_lastErr := "" |}.

Definition pid : Type := positive.

Record pathManager := {
  m_cfg : params;
  m_heap : gmap positive directPath;
  m_next : positive;
  m_routes : gmap ip4 positive;
  m_trialPaths : gmap ip4 (list positive);
  m_triggerSeen : gmap ip4 time;
  m_natStale : bool;
  m_triggerCh : list ip4;
  m_gate : gmap ip4 gateEntry;
  m_pending : gset ip4;
  m_tiebreak : gset ip4;
  m_backoff : gmap ip4 backoffState;
  m_lastSwitch : gmap ip4 time;
  m_evictAfter : gmap ip4 time;
  m_gateBudget : list time;
  m_peerAddrSeen : gmap ip4 string;
  m_quality : option peerTable;
  m_scoutHits : Z;
  m_events : list P2PStatus }.

#[export] Instance eta_pathManager : Eta pathManager := λ m, {|
  m_cfg := m_cfg m; m_heap := m_heap m; m_next := m_next m; m_routes := m_routes m;
  m_trialPaths := m_trialPaths m; m_triggerSeen := m_triggerSeen m; m_natStale := m_natStale m;
  m_triggerCh := m_triggerCh m; m_gate := m_gate m; m_pending := m_pending m;
  m_tiebreak := m_tiebreak m; m_backoff := m_backoff m; m_lastSwitch := m_lastSwitch m;
  m_evictAfter := m_evictAfter m; m_gateBudget := m_gateBudget m;
  m_peerAddrSeen := m_peerAddrSeen m; m_quality := m_quality m; m_scoutHits := m_scoutHits m;
  m_events := m_events m |}.

Definition newPathManager (cfg : params) : pathManager := {|
  m_cfg := cfg; m_heap := ∅; m_next := 1%positive; m_routes := ∅; m_trialPaths := ∅;
  m_triggerSeen := ∅; m_natStale := false; m_triggerCh := []; m_gate := ∅; m_pending := ∅;
  m_tiebreak := ∅; m_backoff := ∅; m_lastSwitch := ∅; m_evictAfter := ∅; m_gateBudget := [];
  m_peerAddrSeen := ∅; m_quality := None; m_scoutHits := 0; m_events := [] |}.

(** The object behind a pointer, and an assignment through it. *)
Definition path_at (m : pathManager) (i : positive) : option directPath := m_heap m !! i.
Definition upd (i : positive) (f : directPath → directPath) (m : pathManager) : pathManager :=
  m <| m_heap ::= alter f i |>.

Definition state_of (m : pathManager) (i : positive) : option pathState :=
  p_state <$> path_at m i.

(** ** What a call reads from its environment: the clock and the relay's RTT. *)
Record env := { now : time; hostRTT : Z }.

Definition now_ms (e : env) : Z := unix_milli (now e).

Definition emit (st : P2PStatus) (m : pathManager) : pathManager :=
  m <| m_events ::= λ l, (l ++ [st])%list |>.

(** [directPath.status] *)
Definition status (e : env) (p : directPath) (st reason : string) : P2PStatus := {|
  st_PeerVIP := p_peerVIP p; st_State := st; st_ReasonCode := reason;
  st_ReasonText := P2PReasonText reason;
  st_Path := if bool_decide (st = P2PStateDirect) then "direct" else "relay";
  st_RTTDirectMs := msAtLeast1 (p_rtt p); st_RTTQuicMs := msAtLeast1 (hostRTT e);
  st_At := now_ms e; st_Retryable := false; st_Trigger := P2PTriggerTraffic;
  st_PathState := pathStateName (pathState_code (p_state p));
  st_BytesUp := p_bytesUp p; st_BytesDown := p_bytesDown p;
  st_DirectSince := unix_milli (p_since p) |}.

(** The payload of a path that stopped carrying traffic. *)
Definition failed_status (e : env) (vip reason text : string) (retryable : bool) : P2PStatus := {|
  st_PeerVIP := vip; st_State := P2PStateFailed; st_ReasonCode := reason; st_ReasonText := text;
  st_Path := "relay"; st_RTTDirectMs := 0; st_RTTQuicMs := 0; st_At := now_ms e;
  st_Retryable := retryable; st_Trigger := ""; st_PathState := ""; st_BytesUp := 0;
  st_BytesDown := 0; st_DirectSince := 0 |}.

(** [alive]: the connection, its probes and its loops keep running. *)
Definition alive_state (s : pathState) : bool :=
  match s with
  | pathStateUp | pathStateStandby | pathStateTrial | pathStateRejected | pathStateReusing => true
  | pathStateDown | pathStateRejectedSettling => false
  end.
Definition alive (p : directPath) : bool := alive_state (p_state p).

(** [setState] *)
Definition setState (e : env) (s : pathState) (p : directPath) : directPath :=
  p <| p_state := s |>
    <| p_stableSince := if bool_decide (s = pathStateUp) then now_ms e else 0 |>.
