(* ===== verification/Backoff.v ===== *)
(** * Failure classification and retry backoff ([path.go], 1453-1874)

    Every failure reason belongs to one class; the class selects a ladder of
    delays and the streak that indexes it. The bookkeeping is per peer. *)

From Stdlib Require Import ZArith Lia Bool String.
From stdpp Require Import base list gmap strings.
From S2P Require Import Prelude.
From S2P Require Import GoNet.
From S2P Require Import Reasons.
From S2P Require Import PeerTable.
From S2P Require Import GoFloat.
From S2P Require Import PathData.

Open Scope string_scope.
Open Scope Z_scope.

(** ** Classification *)

Inductive pathFailClass :=
  | failRetryable
  | failBusy
  | failPermanent
  | failQuality
  | failPeerClosed.

#[export] Instance pathFailClass_eq_dec : EqDecision pathFailClass.
Proof. solve_decision. Defined.

Definition classifyPathFail (reason : string) : pathFailClass :=
  if bool_decide (reason ∈ [P2PReasonRateLimited; P2PReasonPeerBusy]) then failBusy
  else if bool_decide (reason ∈ [P2PReasonNATSymmetric; P2PReasonFingerprintMismatch;
                                 P2PReasonServerP2PDisabled]) then failPermanent
  else if bool_decide (reason ∈ [P2PReasonQualityPoor; P2PReasonProbeTimeout;
                                 P2PReasonDirectLost]) then failQuality
  else if bool_decide (reason = P2PReasonPeerClosed) then failPeerClosed
  else failRetryable.

(** ** Ladders *)

Definition backoffLadder : list duration := [60 * second; 2 * minute; 5 * minute; 10 * minute].
Definition backoffLadderDeterministic : list duration :=
  [5 * minute; 15 * minute; 30 * minute; hour].
Definition backoffLadderQuality : list duration := [5 * minute; 15 * minute; 30 * minute; hour].

(** The index is clamped to the ladder. *)
Definition ladderStep (ladder : list duration) (step : Z) : duration :=
  let step := if step <? 0 then 0 else step in
  let len := Z.of_nat (length ladder) in
  let step := if len <=? step then len - 1 else step in
  nth (Z.to_nat step) ladder 0.

(** The delay of this failure, and whether it advances a streak. *)
Definition backoffDelayFor (class : pathFailClass) (st : backoffState) : duration * bool :=
  match class with
  | failBusy => (backoffBusy, false)
  | failPermanent => (ladderStep backoffLadderDeterministic (b_step st), true)
  | failQuality => (ladderStep backoffLadderQuality (b_qualityStep st), true)
  | failPeerClosed => (0, false)
  | failRetryable => (ladderStep backoffLadder (b_step st), true)
  end.

(** The streak of the class, one further. *)
Definition advance_streak (class : pathFailClass) (st : backoffState) : backoffState :=
  match class with
  | failQuality => st <| b_qualityStep ::= Z.succ |>
  | _ => st <| b_step ::= Z.succ |>
  end.

(** ** The per-peer record *)

Definition backoff_of (m : pathManager) (dst : ip4) : backoffState :=
  default backoff_zero (m_backoff m !! dst).

Definition put_backoff (dst : ip4) (st : backoffState) (m : pathManager) : pathManager :=
  m <| m_backoff ::= <[dst := st]> |>.

(** The common part of [onPunchFailed] and [scheduleRetry]: the reason is
    noted, the class's delay is taken at the current streak, the streak moves. *)
Definition note_failure (t : time) (reason : string) (st : backoffState) : backoffState :=
  let class := classifyPathFail reason in
  let st := st <| b_lastErr := reason |> in
  let '(d, advance) := backoffDelayFor class st in
  let st := if advance then advance_streak class st else st in
  st <| b_until := time_add t d |>.

Definition onPunchFailed (t : time) (peerVIP reason : string) (m : pathManager) : pathManager :=
  let '(dst, ok) := parseIPv4 peerVIP in
  if negb ok then m
  else put_backoff dst (note_failure t reason (backoff_of m dst)) m.

Definition setBackoffTransient (t : time) (dst : ip4) (err : option string) (m : pathManager)
  : pathManager :=
  let st := backoff_of m dst in
  let st := st <| b_until := time_add t backoffBusy |> in
  let st := match err with Some text => st <| b_lastErr := text |> | None => st end in
  put_backoff dst st m.

Definition delayRetry (t : time) (dst : ip4) (d : duration) (m : pathManager) : pathManager :=
  let st := backoff_of m dst in
  let want := time_add t d in
  let st := if time_before (b_until st) want then st <| b_until := want |> else st in
  put_backoff dst st m.

Definition setRejectedCooldown (t : time) (dst : ip4) (m : pathManager) : pathManager :=
  let st := backoff_of m dst in
  let st := st <| b_until := time_add t backoffBusy |> in
  (put_backoff dst st m) <| m_lastSwitch ::= <[dst := t]> |>.

Definition setNATStale (m : pathManager) : pathManager := m <| m_natStale := true |>.
Definition takeNATStale (m : pathManager) : pathManager * bool :=
  (m <| m_natStale := false |>, m_natStale m).

Definition scheduleRetry (t : time) (dst : ip4) (reason : string) (m : pathManager)
  : pathManager :=
  let m := setNATStale m in
  let st := backoff_of m dst in
  let prevErr := b_lastErr st in
  if bool_decide (classifyPathFail reason = failPeerClosed) then
    let st := st <| b_until := time_add t backoffBusy |> <| b_lastErr := prevErr |> in
    (put_backoff dst st m) <| m_lastSwitch ::= <[dst := t]> |>
  else
    (put_backoff dst (note_failure t reason st) m) <| m_lastSwitch ::= <[dst := t]> |>.

Definition resetBackoffFor (dst : ip4) (m : pathManager) : pathManager :=
  m <| m_backoff ::= delete dst |>.

Definition backoffSnapshot (m : pathManager) (dst : ip4) : backoffState := backoff_of m dst.

Definition resetAllBackoff (m : pathManager) : pathManager * nat :=
  (m <| m_backoff := ∅ |>, size (m_backoff m)).

Definition hasBackoff (m : pathManager) (dst : ip4) : option backoffState := m_backoff m !! dst.

Definition onPunchSucceeded (peerVIP : string) (m : pathManager) : pathManager :=
  let '(dst, ok) := parseIPv4 peerVIP in
  if ok then m <| m_backoff ::= delete dst |> <| m_evictAfter ::= delete dst |> else m.

Definition backoffStep (m : pathManager) (peerVIP : string) : Z :=
  let '(dst, ok) := parseIPv4 peerVIP in
  if ok then b_step (backoff_of m dst) else 0.

Definition notePeerPublicAddr (dst : ip4) (addr : string) (m : pathManager) : pathManager :=
  if bool_decide (addr = "") then m
  else
    let seen := m_peerAddrSeen m !! dst in
    let m := m <| m_peerAddrSeen ::= <[dst := addr]> |> in
    match seen with
    | None => m
    | Some prev => if bool_decide (prev = addr) then m else resetBackoffFor dst m
    end.

(** ** Clearing the record after a stable period *)

Definition stableEnoughToClearFailures (t : time) (p : directPath) : bool :=
  let since := p_stableSince p in
  if (since =? 0) || negb (bool_decide (p_state p = pathStateUp)) then false
  else stableClearFailuresAfter <=? time_sub t (of_milli since).

Definition maybeClearFailuresAfterStable (e : env) (i : positive) (m : pathManager)
  : pathManager :=
  match path_at m i with
  | None => m
  | Some p =>
      let last := p_lastStableCheck p in
      let minGap := checkInterval (m_cfg m) * 2 in
      let minGap := if minGap <=? 0 then 2 * second else minGap in
      if negb (last =? 0) && (now_ms e - last <? duration_ms minGap) then m
      else
        let m := upd i (λ p, p <| p_lastStableCheck := now_ms e |>) m in
        if negb (stableEnoughToClearFailures (now e) p) then m
        else match hasBackoff m (p_peer p) with
             | None => m
             | Some _ => resetBackoffFor (p_peer p) m
             end
  end.

(** ** Histories

    Every operation of the manager that moves the record of a peer without
    clearing it, with the instant it runs at. *)

Inductive backoffOp :=
  | BPunchFailed (t : time) (peerVIP reason : string)
  | BPathDied (t : time) (dst : ip4) (reason : string)
  | BRejected (t : time) (dst : ip4)
  | BTransient (t : time) (dst : ip4) (err : option string)
  | BDelay (t : time) (dst : ip4) (d : duration).

Definition backoff_exec (op : backoffOp) (m : pathManager) : pathManager :=
  match op with
  | BPunchFailed t vip reason => onPunchFailed t vip reason m
  | BPathDied t dst reason => scheduleRetry t dst reason m
  | BRejected t dst => setRejectedCooldown t dst m
  | BTransient t dst err => setBackoffTransient t dst err m
  | BDelay t dst d => delayRetry t dst d m
  end.

Fixpoint backoff_run (ops : list backoffOp) (m : pathManager) : pathManager :=
  match ops with
  | [] => m
  | op :: ops => backoff_run ops (backoff_exec op m)
  end.

(** The failure an operation records for [dst]. *)
Definition failure_for (dst : ip4) (op : backoffOp) : option string :=
  match op with
  | BPunchFailed _ vip reason => if bool_decide (parseIPv4 vip = (dst, true)) then Some reason else None
  | BPathDied _ d reason => if bool_decide (d = dst) then Some reason else None
  | _ => None
  end.

Definition op_time (op : backoffOp) : time :=
  match op with
  | BPunchFailed t _ _ | BPathDied t _ _ | BRejected t _ | BTransient t _ _ | BDelay t _ _ => t
  end.

(** Failures of [dst] in a history that advance the punching streak, and the
    quality streak. *)
Definition is_punch_class (c : pathFailClass) : bool :=
  match c with failRetryable | failPermanent => true | _ => false end.
Definition is_quality_class (c : pathFailClass) : bool :=
  match c with failQuality => true | _ => false end.

Definition counts (f : pathFailClass → bool) (dst : ip4) (op : backoffOp) : Z :=
  match failure_for dst op with
  | Some reason => if f (classifyPathFail reason) then 1 else 0
  | None => 0
  end.

Definition count_class (f : pathFailClass → bool) (dst : ip4) (ops : list backoffOp) : Z :=
  foldr (λ op n, counts f dst op + n) 0 ops.

(** ** Lemmas *)

Lemma backoff_of_put m dst dst' st :
  backoff_of (put_backoff dst st m) dst' = if decide (dst = dst') then st else backoff_of m dst'.
Proof.
  unfold backoff_of, put_backoff. cbn. destruct (decide (dst = dst')) as [->|Hne].
  - by rewrite lookup_insert_eq.
  - by rewrite lookup_insert_ne.
Qed.

Lemma ladderStep_nth l k :
  (0 < length l)%nat → 0 <= k →
  ladderStep l k = nth (Nat.min (Z.to_nat k) (length l - 1)) l 0.
Proof.
  intros Hl Hk. unfold ladderStep. rewrite (proj2 (Z.ltb_ge k 0) Hk). cbn.
  f_equal. case_test; lia.
Qed.

Lemma ladderStep_in l k : l ≠ [] → ladderStep l k ∈ l.
Proof.
  intros Hl. unfold ladderStep. apply list_elem_of_In, nth_In.
  assert (0 < length l)%nat by (destruct l; [done|cbn; lia]).
  repeat case_test; lia.
Qed.

(** What one recorded failure does to the record. *)
Lemma note_failure_spec t reason st :
  let c := classifyPathFail reason in
  b_step (note_failure t reason st) = b_step st + (if is_punch_class c then 1 else 0) ∧
  b_qualityStep (note_failure t reason st)
  = b_qualityStep st + (if is_quality_class c then 1 else 0) ∧
  b_until (note_failure t reason st) = t + (backoffDelayFor c st).1 ∧
  b_lastErr (note_failure t reason st) = reason.
Proof.
  cbn. unfold note_failure. destruct (classifyPathFail reason); cbn; unfold advance_streak; cbn;
    unfold time_add; split_and!; lia || done.
Qed.

Lemma scheduleRetry_of t dst dst' reason m :
  backoff_of (scheduleRetry t dst reason m) dst' =
  if decide (dst = dst') then
    if bool_decide (classifyPathFail reason = failPeerClosed)
    then (backoff_of m dst) <| b_until := t + backoffBusy |>
    else note_failure t reason (backoff_of m dst)
  else backoff_of m dst'.
Proof.
  unfold scheduleRetry. case_bool_decide; cbn; unfold setNATStale, backoff_of, put_backoff; cbn;
    destruct (decide (dst = dst')) as [->|?]; rewrite ?lookup_insert_eq, ?lookup_insert_ne by done;
    done.
Qed.

Lemma onPunchFailed_of t vip reason m dst' :
  backoff_of (onPunchFailed t vip reason m) dst' =
  if bool_decide (parseIPv4 vip = (dst', true)) then note_failure t reason (backoff_of m dst')
  else backoff_of m dst'.
Proof.
  unfold onPunchFailed. destruct (parseIPv4 vip) as [dst [|]] eqn:E; cbn.
  - rewrite backoff_of_put. destruct (decide (dst = dst')) as [->|Hne].
    + by rewrite bool_decide_true.
    + rewrite bool_decide_false by congruence. done.
  - rewrite bool_decide_false by congruence. done.
Qed.

(** The streaks count; every other operation leaves them. *)
Lemma backoff_exec_streaks op m dst :
  b_step (backoff_of (backoff_exec op m) dst)
  = b_step (backoff_of m dst) + counts is_punch_class dst op ∧
  b_qualityStep (backoff_of (backoff_exec op m) dst)
  = b_qualityStep (backoff_of m dst) + counts is_quality_class dst op.
Proof.
  destruct op as [t vip reason|t d reason|t d|t d err|t d dl]; unfold counts; cbn.
  - rewrite onPunchFailed_of. case_bool_decide; [|lia].
    destruct (note_failure_spec t reason (backoff_of m dst)) as (-> & -> & _). done.
  - rewrite scheduleRetry_of. destruct (decide (d = dst)) as [->|Hne].
    + rewrite (bool_decide_true (dst = dst)) by done. case_bool_decide as Hc.
      * rewrite Hc. cbn. lia.
      * destruct (note_failure_spec t reason (backoff_of m dst)) as (-> & -> & _). done.
    + rewrite bool_decide_false by done. lia.
  - unfold setRejectedCooldown. unfold backoff_of at 1 4. cbn. fold (backoff_of m d).
    destruct (decide (d = dst)) as [->|?]; rewrite ?lookup_insert_eq, ?lookup_insert_ne by done;
      fold (backoff_of m dst); cbn; lia.
  - unfold setBackoffTransient. rewrite backoff_of_put.
    destruct (decide (d = dst)) as [->|?]; [destruct err; cbn|]; lia.
  - unfold delayRetry. rewrite backoff_of_put.
    destruct (decide (d = dst)) as [->|?]; [case_test; cbn|]; lia.
Qed.

Lemma backoff_run_streaks ops m dst :
  b_step (backoff_of (backoff_run ops m) dst)
  = b_step (backoff_of m dst) + count_class is_punch_class dst ops ∧
  b_qualityStep (backoff_of (backoff_run ops m) dst)
  = b_qualityStep (backoff_of m dst) + count_class is_quality_class dst ops.
Proof.
  revert m. induction ops as [|op ops IH]; intros m; cbn; [lia|].
  destruct (IH (backoff_exec op m)) as [-> ->].
  destruct (backoff_exec_streaks op m dst) as [-> ->].
  unfold count_class. lia.
Qed.

Lemma backoff_run_app ops1 ops2 m :
  backoff_run (ops1 ++ ops2) m = backoff_run ops2 (backoff_run ops1 m).
Proof. revert m. induction ops1 as [|op ops1 IH]; intros m; cbn; [done|]. apply IH. Qed.

Lemma count_class_nonneg f dst ops : 0 <= count_class f dst ops.
Proof.
  unfold count_class. induction ops as [|op ops IH]; cbn; [lia|].
  assert (0 <= counts f dst op) by (unfold counts; repeat case_match; lia). lia.
Qed.

(** The rung of a ladder for the [n]-th failure; past the end, the last one. *)
Definition rung (l : list duration) (n : Z) : duration :=
  nth (Nat.min (Z.to_nat n) (length l - 1)) l 0.

Definition expected_delay (c : pathFailClass) (punches qualities : Z) : duration :=
  match c with
  | failRetryable => rung backoffLadder punches
  | failPermanent => rung backoffLadderDeterministic punches
  | failQuality => rung backoffLadderQuality qualities
  | failBusy | failPeerClosed => backoffBusy
  end.

Lemma backoffDelayFor_expected c st :
  0 <= b_step st → 0 <= b_qualityStep st → c ≠ failPeerClosed →
  (backoffDelayFor c st).1 = expected_delay c (b_step st) (b_qualityStep st).
Proof.
  intros H1 H2 Hc. destruct c; cbn [backoffDelayFor fst expected_delay]; try done;
    unfold rung; by rewrite ladderStep_nth by (cbn; lia).
Qed.

Lemma expected_delay_range c n q :
  backoffBusy <= expected_delay c n q <= hour.
Proof.
  assert (∀ l k, l ∈ [backoffLadder; backoffLadderDeterministic; backoffLadderQuality] →
            backoffBusy <= rung l k <= hour) as H.
  { intros l k Hl.
    assert (Forall (λ d, backoffBusy <= d <= hour) l) as HF.
    { repeat (apply elem_of_cons in Hl as [->|Hl]; [repeat constructor; vm_compute; discriminate|]).
      by apply elem_of_nil in Hl. }
    apply (proj1 (Forall_forall _ _) HF). unfold rung. apply list_elem_of_In, nth_In.
    repeat (apply elem_of_cons in Hl as [->|Hl]; [cbn; lia|]). by apply elem_of_nil in Hl. }
  destruct c; cbn [expected_delay]; try (apply H; set_solver).
  all: vm_compute; split; discriminate.
Qed.

(** ** Theorems *)

(** The two streaks are independent counters. After any history of
    failures, cooldowns and delays of any peers, from a manager with no
    records, the next failure of a peer with reason [reason] at [t] waits
    for the rung of its class's ladder indexed by the number of that peer's
    earlier failures of the classes sharing the streak (punching failures
    for the retryable and the deterministic ladder, quality failures for the
    quality ladder); being busy, closed by the peer, rejected or delayed
    advances no streak, and other peers' failures do not count. *)
Theorem failure_delay_is_rung cfg ops dst t reason :
  let m := backoff_run (ops ++ [BPathDied t dst reason]) (newPathManager cfg) in
  b_until (backoff_of m dst)
  = t + expected_delay (classifyPathFail reason)
          (count_class is_punch_class dst ops) (count_class is_quality_class dst ops).
Proof.
  cbn. rewrite backoff_run_app. cbn. set (m := backoff_run ops (newPathManager cfg)).
  destruct (backoff_run_streaks ops (newPathManager cfg) dst) as [H1 H2]. fold m in H1, H2.
  assert (backoff_of (newPathManager cfg) dst = backoff_zero) as E by done.
  rewrite E in H1, H2. cbn in H1, H2.
  rewrite scheduleRetry_of, decide_True by done. case_bool_decide as Hc.
  - by rewrite Hc.
  - destruct (note_failure_spec t reason (backoff_of m dst)) as (_ & _ & -> & _).
    rewrite backoffDelayFor_expected, H1, H2; [done|..|done];
      rewrite ?H1, ?H2; apply count_class_nonneg.
Qed.

(** A path's death always leaves its peer a cooldown of at least 30 seconds
    and at most an hour from that instant, marks the NAT observation stale and
    stamps the switch guard, and touches no other peer's record. *)
Theorem scheduleRetry_window t dst reason m :
  0 <= b_step (backoff_of m dst) → 0 <= b_qualityStep (backoff_of m dst) →
  let m' := scheduleRetry t dst reason m in
  t + backoffBusy <= b_until (backoff_of m' dst) <= t + hour ∧
  m_natStale m' = true ∧ m_lastSwitch m' !! dst = Some t ∧
  ∀ other, other ≠ dst → m_backoff m' !! other = m_backoff m !! other.
Proof.
  intros H1 H2. cbn. split; [|unfold scheduleRetry; case_bool_decide; cbn;
    (split; [done|split; [by rewrite lookup_insert_eq|]]; intros; by rewrite lookup_insert_ne)].
  rewrite scheduleRetry_of, decide_True by done. case_bool_decide as Hc.
  - cbn. unfold hour, minute, backoffBusy, second, millisecond. lia.
  - destruct (note_failure_spec t reason (backoff_of m dst)) as (_ & _ & -> & _).
    rewrite backoffDelayFor_expected by done.
    pose proof (expected_delay_range (classifyPathFail reason) (b_step (backoff_of m dst))
                  (b_qualityStep (backoff_of m dst))). lia.
Qed.

Lemma scheduleRetry_window_witness :
  let m' := scheduleRetry 5 peer1 P2PReasonDirectLost (newPathManager defaultParams) in
  5 + backoffBusy <= b_until (backoff_of m' peer1) <= 5 + hour ∧
  m_natStale m' = true ∧ m_lastSwitch m' !! peer1 = Some 5 ∧
  ∀ other, other ≠ peer1 → m_backoff m' !! other = m_backoff (newPathManager defaultParams) !! other.
Proof.
  apply (scheduleRetry_window 5 peer1 P2PReasonDirectLost (newPathManager defaultParams));
    vm_compute; discriminate.
Defined.

(** A failed session whose reason is "closed by the peer" overwrites the
    peer's cooldown with the current instant, whatever it was: the zero delay
    is written, not skipped. *)
Theorem onPunchFailed_peer_closed_drops_cooldown t vip dst m :
  parseIPv4 vip = (dst, true) →
  b_until (backoff_of (onPunchFailed t vip P2PReasonPeerClosed m) dst) = t.
Proof.
  intros H. rewrite onPunchFailed_of, bool_decide_true by done.
  destruct (note_failure_spec t P2PReasonPeerClosed (backoff_of m dst)) as (_ & _ & -> & _).
  vm_compute classifyPathFail. cbn. lia.
Qed.

Lemma onPunchFailed_peer_closed_drops_cooldown_witness :
  b_until (backoff_of (onPunchFailed 7 "10.0.0.1" P2PReasonPeerClosed
    (scheduleRetry 5 peer1 P2PReasonDirectLost (newPathManager defaultParams))) peer1) = 7.
Proof.
  apply (onPunchFailed_peer_closed_drops_cooldown 7 "10.0.0.1" peer1). reflexivity.
Defined.

#[export] Hint Resolve count_class_nonneg expected_delay_range : go.
