(* ===== verification/PathCore.v ===== *)
(** * The path manager: tables, arbitration and the life of a path
    ([path.go])

    One definition per method. A snapshot of a table ranges over a Go map, so
    the operations that walk one take the snapshot, in the order the runtime
    chose, as an argument ([paths], [trials]); [is_snapshot] and
    [is_trial_snapshot] say which lists are possible. *)

From Stdlib Require Import ZArith Lia Bool Ascii String.
From stdpp Require Import base list gmap strings.
From S2P Require Import Prelude.
From S2P Require Import GoNet.
From S2P Require Import Reasons.
From S2P Require Import PeerTable.
From S2P Require Import GoFloat.
From S2P Require Import PathData.
From S2P Require Import Backoff.

Open Scope string_scope.
Open Scope Z_scope.

(** ** Streams and planes *)

Inductive streamKind := streamBulk | streamCrit | streamCtrl.
#[export] Instance streamKind_eq_dec : EqDecision streamKind.
Proof. solve_decision. Defined.

Definition planeStream (plane : pathPlaneIndex) : streamKind :=
  if (plane =? planeTCP) || (plane =? planeUDP) then streamBulk
  else if (plane =? planeICMP) || (plane =? planeMatch) || (plane =? planeGameTCP) then streamCrit
  else streamBulk.

(** The send queue of a path: [txCrit] or [txBulk]. *)
Inductive txQueue := txCrit (i : positive) | txBulk (i : positive).

Definition streamTx (i : positive) (kind : streamKind) : txQueue :=
  match kind with streamCrit => txCrit i | _ => txBulk i end.

(** ** The routing table *)

Definition sinkFor (m : pathManager) (dst : ip4) (plane : pathPlaneIndex) : option txQueue :=
  match m_routes m !! dst with
  | None => None
  | Some i =>
      match path_at m i with
      | Some p => if bool_decide (p_state p = pathStateUp) then Some (streamTx i (planeStream plane))
                  else None
      | None => None
      end
  end.

Definition routeVIP (m : pathManager) (dst : ip4) : string * bool :=
  match m_routes m !! dst with
  | None => ("", false)
  | Some i =>
      match path_at m i with
      | Some p => if bool_decide (p_state p = pathStateUp) then (p_peerVIP p, true) else ("", false)
      | None => ("", false)
      end
  end.

Definition installRouteLocked (dst : ip4) (i : positive) (m : pathManager) : pathManager :=
  m <| m_routes ::= <[dst := i]> |>.

Definition installRoute := installRouteLocked.

Definition removeRoute (dst : ip4) (i : positive) (m : pathManager) : pathManager * bool :=
  if bool_decide (m_routes m !! dst = Some i) then (m <| m_routes ::= delete dst |>, true)
  else (m, false).

(** [replaceRoutes(nil)] *)
Definition clearRoutes (m : pathManager) : pathManager := m <| m_routes := ∅ |>.

Definition is_snapshot (m : pathManager) (paths : list positive) : Prop :=
  paths ≡ₚ (map_to_list (m_routes m)).*2.

Definition is_trial_snapshot (m : pathManager) (trials : list positive) : Prop :=
  trials ≡ₚ concat (map_to_list (m_trialPaths m)).*2.

(** ** Paths on trial *)

Definition addTrialPath (peer : ip4) (i : positive) (m : pathManager) : pathManager :=
  m <| m_trialPaths ::= λ t, <[peer := (default [] (t !! peer) ++ [i])%list]> t |>.

(** The first occurrence is removed, as by the loop with [break]. *)
Fixpoint remove_first (i : positive) (l : list positive) : list positive :=
  match l with
  | [] => []
  | j :: l => if bool_decide (i = j) then l else j :: remove_first i l
  end.

(** Put a list back: an empty one deletes the key. *)
Definition set_trials (peer : ip4) (l : list positive) (t : gmap ip4 (list positive))
  : gmap ip4 (list positive) :=
  match l with [] => delete peer t | _ => <[peer := l]> t end.

(** [p.untrack()], the idempotent closure of [detachTrialPath]. *)
Definition untrack (i : positive) (m : pathManager) : pathManager :=
  match path_at m i with
  | None => m
  | Some p =>
      if p_untracked p then m
      else
        let m := upd i (λ p, p <| p_untracked := true |>) m in
        m <| m_trialPaths ::= λ t,
          set_trials (p_peer p) (remove_first i (default [] (t !! p_peer p))) t |>
  end.

Definition trialPathCount (m : pathManager) : nat :=
  map_fold (λ _ l n, (length l + n)%nat) 0%nat (m_trialPaths m).

Definition pathCount (m : pathManager) : nat := (size (m_routes m) + trialPathCount m)%nat.

(** Whether the peer already has a path a traffic-driven attempt may rely on. *)
Definition HasUsablePath (m : pathManager) (trials : list positive) (dst : ip4) : bool * string :=
  let routed :=
    match m_routes m !! dst with
    | Some i => bool_decide (state_of m i = Some pathStateUp)
    | None => false
    end in
  if routed then (true, pathStateName (pathState_code pathStateUp))
  else if existsb (λ i, match path_at m i with
                        | Some p => bool_decide (p_peer p = dst) &&
                                    bool_decide (p_state p = pathStateTrial)
                        | None => false
                        end) trials
  then (true, pathStateName (pathState_code pathStateTrial))
  else (false, "").

(** ** Closing and terminating *)

Definition local_close : goError :=
  {| err_chain := [ApplicationError false];
     err_text := "Application error 0x0 (local): path closed" |}.

Definition close (e : env) (i : positive) (m : pathManager) : pathManager :=
  match path_at m i with
  | None => m
  | Some p =>
      if p_closed p then m
      else
        let m := upd i (λ p, p <| p_closed := true |> <| p_trialDone := true |>) m in
        let m := untrack i m in
        let m := upd i (setState e pathStateDown) m in
        upd i (λ p, p <| p_connCause ::= λ c, match c with Some x => Some x
                                                         | None => Some local_close end |>) m
  end.

Fixpoint str_prefix (s t : string) : bool :=
  match s, t with
  | EmptyString, _ => true
  | String a s, String b t => if bool_decide (a = b) then str_prefix s t else false
  | _, _ => false
  end.

(** [strings.Contains] *)
Fixpoint str_contains (t s : string) : bool :=
  str_prefix s t || match t with EmptyString => false | String _ t => str_contains t s end.

Definition first_leaf {A} (f : errLeaf → option A) (c : list errLeaf) : option A :=
  head (omap f c).

Definition isPeerInitiatedClose (cause : option goError) : bool :=
  match cause with
  | None => false
  | Some err =>
      match first_leaf (λ l, match l with ApplicationError r => Some r | _ => None end)
                       (err_chain err) with
      | Some r => r
      | None =>
          match first_leaf (λ l, match l with TransportError r => Some r | _ => None end)
                           (err_chain err) with
          | Some _ => false
          | None =>
              match first_leaf (λ l, match l with StreamError r => Some r | _ => None end)
                               (err_chain err) with
              | Some r => r
              | None =>
                  if existsb (λ l, match l with EOF | UnexpectedEOF => true | _ => false end)
                             (err_chain err) then true
                  else str_contains (err_text err) "(remote)"
              end
          end
      end
  end.

(** [terminateDown]: remove the route, close the path, schedule the retry. *)
Definition terminateDown (e : env) (i : positive) (reason : string) (m : pathManager)
  : pathManager :=
  match path_at m i with
  | None => m
  | Some p =>
      if p_terminated p then m
      else
        let m := upd i (λ p, p <| p_terminated := true |> <| p_trialDone := true |>) m in
        let m := untrack i m in
        let m := upd i (setState e pathStateDown) m in
        let m := (removeRoute (p_peer p) i m).1 in
        let m := close e i m in
        let m := scheduleRetry (now e) (p_peer p) reason m in
        emit (failed_status e (p_peerVIP p) reason (P2PReasonText reason) true) m
  end.

(** ** The heuristic for a peer that only scouted *)

Definition punchWindowDefault : Z := 10000.
Definition punchWindowMin : Z := 3000.
Definition punchWindowMax : Z := 15000.

Definition clampPunchWindow (v : Z) : Z :=
  if v <=? 0 then punchWindowDefault
  else if v <? punchWindowMin then punchWindowMin
  else if punchWindowMax <? v then punchWindowMax
  else v.

Definition scoutEchoMargin : duration := second.

Definition scoutEchoBoundMs (p : directPath) : Z :=
  let w := if p_scoutWindowMs p <=? 0 then punchWindowDefault else p_scoutWindowMs p in
  clampPunchWindow w + duration_ms scoutEchoMargin.

Definition scoutBound (c : params) (p : directPath) : duration :=
  let w := if p_scoutWindowMs p <=? 0 then punchWindowDefault else p_scoutWindowMs p in
  let grace := probeInterval c * (probeMissLimit c + 1) + probeMissLimit c * checkInterval c in
  clampPunchWindow w * millisecond + grace.

Definition scoutTearDownHeuristic (e : env) (c : params) (p : directPath) : bool :=
  if negb (bool_decide (p_role p = pathRoleResponder)) then false
  else if negb (p_bytesUp p =? 0) || negb (p_bytesDown p =? 0) then false
  else if scoutBound c p <? time_sub (now e) (p_since p) then false
  else
    let started := p_trialStartedAt p in
    if started =? 0 then false
    else
      let last := p_lastEcho p in
      if last =? 0 then true
      else last <=? started + scoutEchoBoundMs p.

Definition markScoutHeuristicHit (m : pathManager) : pathManager := m <| m_scoutHits ::= Z.succ |>.

(** ** Demotion *)

Definition demoteWith (e : env) (i : positive) (err : option goError) (reason : string)
  (m : pathManager) : pathManager :=
  match path_at m i with
  | None => m
  | Some p =>
      if bool_decide (reason = P2PReasonDirectLost) then
        if isPeerInitiatedClose err || isPeerInitiatedClose (p_connCause p) then
          terminateDown e i P2PReasonPeerClosed m
        else if scoutTearDownHeuristic e (m_cfg m) p then
          terminateDown e i P2PReasonPeerClosed (markScoutHeuristicHit m)
        else terminateDown e i reason m
      else terminateDown e i reason m
  end.

Definition demote (e : env) (i : positive) (reason : string) (m : pathManager) : pathManager :=
  demoteWith e i None reason m.

Definition demoteErr (e : env) (i : positive) (err : option goError) (m : pathManager)
  : pathManager :=
  demoteWith e i err P2PReasonDirectLost m.

Definition Done (e : env) (i : positive) (m : pathManager) : pathManager :=
  demoteErr e i (match path_at m i with Some p => p_connCause p | None => None end) m.

(** ** A failed trial: the connection is kept, unused *)

Definition rejectTrialSettled (e : env) (i : positive) (m : pathManager) : pathManager :=
  match path_at m i with
  | None => m
  | Some p =>
      if negb (bool_decide (p_state p = pathStateTrial)) then m
      else
        let m := (removeRoute (p_peer p) i m).1 in
        let m := upd i (λ p, p <| p_rejectedAt := now_ms e |>) m in
        let m := upd i (setState e pathStateRejected) m in
        let m := setRejectedCooldown (now e) (p_peer p) m in
        emit (failed_status e (p_peerVIP p) P2PReasonQualityPoor
                (P2PReasonText P2PReasonQualityPoor) true) m
  end.

Definition rejectTrial (e : env) (i : positive) (m : pathManager) : pathManager :=
  match path_at m i with
  | None => m
  | Some p =>
      if negb (bool_decide (p_state p = pathStateTrial)) then m
      else if p_trialDone p then m
      else rejectTrialSettled e i (upd i (λ p, p <| p_trialDone := true |>) m)
  end.

Definition reuseRejected (e : env) (i : positive) (m : pathManager) : pathManager * bool :=
  match path_at m i with
  | None => (m, false)
  | Some p =>
      if negb (bool_decide (p_state p = pathStateRejected)) then (m, false)
      else
        let m := upd i (λ p, p <| p_state := pathStateReusing |>) m in
        match p_connCause p with
        | Some _ => (terminateDown e i P2PReasonDirectLost m, false)
        | None =>
            let m := upd i (λ p, p <| p_state := pathStateTrial |>) m in
            (upd i (λ p, p <| p_settled := false |> <| p_trialDone := false |>
                           <| p_trialStartedAt := now_ms e |>
                           <| p_trialLastEcho := p_lastEcho p |>
                           <| p_trialLastSampleAt := 0 |> <| p_trialGood := 0 |>
                           <| p_trialSamples := 0 |> <| p_reuseCount ::= Z.succ |>) m, true)
        end
  end.

Definition releaseRejected (e : env) (i : positive) (m : pathManager) : pathManager :=
  match path_at m i with
  | None => m
  | Some p =>
      match p_state p with
      | pathStateRejected | pathStateRejectedSettling =>
          if p_settled p then m
          else
            let m := upd i (λ p, p <| p_settled := true |>) m in
            let m := upd i (λ p, match p_state p with
                                 | pathStateRejected => p <| p_state := pathStateRejectedSettling |>
                                 | _ => p
                                 end) m in
            let m := untrack i m in
            close e i m
      | _ => m
      end
  end.

(** ** Establishing, arbitrating, installing *)

Record establishedReq := {
  r_peerVIP : string;
  r_peer : ip4;
  r_role : pathRole;
  r_myVIP : ip4;
  r_rttDirect : duration;
  r_rttQuic : duration;
  r_scoutWindowMs : Z }.

(** The legitimate connection is the one on which the side with the smaller
    address is the QUIC listener. *)
Definition arbitrationKeeps (peerVIP myVIP : ip4) (role : pathRole) : bool :=
  let wantInitiator := bytesGreater peerVIP myVIP in
  bool_decide (wantInitiator = bool_decide (role = pathRoleInitiator)).

Definition newDirectPath (e : env) (c : params) (req : establishedReq) : directPath := {|
  p_peer := r_peer req; p_peerVIP := r_peerVIP req; p_role := r_role req; p_myVIP := r_myVIP req;
  p_connCause := None; p_since := now e; p_scoutWindowMs := r_scoutWindowMs req;
  p_state := pathStateTrial; p_bytesUp := 0; p_bytesDown := 0; p_lastUse := now_ms e;
  p_rtt := (if 0 <? r_rttDirect req then r_rttDirect req
            else if 0 <? r_rttQuic req then r_rttQuic req else 0);
  p_lastProbe := 0; p_lastEcho := 0; p_probeMiss := 0; p_probeSeq := 0; p_relayRtt := 0;
  p_relayRttTriedAt := 0; p_degradeSince := 0; p_lastStandbyEval := 0; p_stableSince := 0;
  p_trialStartedAt := now_ms e; p_trialSamples := 0; p_trialGood := 0; p_watchdogTicks := 0;
  p_trialLastSampleAt := 0; p_trialLastEcho := 0; p_trialLastDirectRtt := 0;
  p_trialRelayRtt := (if 0 <? trialRelayRttSeed c then trialRelayRttSeed c else 0);
  p_trialDone := false; p_lastStableCheck := 0; p_enqueued := 0; p_silentWarned := false;
  p_oneWayWarned := false; p_closed := false; p_terminated := false; p_untracked := false;
  p_settled := false; p_reuseCount := 0; p_rejectedAt := 0 |}.

Definition cool_down_evicted (e : env) (peer : ip4) (m : pathManager) : pathManager :=
  m <| m_evictAfter ::= <[peer := time_add (now e) (recreateDelay (m_cfg m))]> |>.

(** The path with the smallest [lastUse], the first one on ties. *)
Definition lru_step (m : pathManager) (victim i : positive) : positive :=
  match path_at m victim, path_at m i with
  | Some v, Some p => if p_lastUse p <? p_lastUse v then i else victim
  | _, _ => victim
  end.

Definition evictLRU (e : env) (paths : list positive) (m : pathManager) : pathManager :=
  match paths with
  | [] => m
  | first :: rest =>
      let victim := foldl (lru_step m) first rest in
      match path_at m victim with
      | None => m
      | Some v =>
          let m := (removeRoute (p_peer v) victim m).1 in
          let m := close e victim m in
          cool_down_evicted e (p_peer v) m
      end
  end.

Definition handleEstablished (e : env) (paths : list positive) (req : establishedReq)
  (m : pathManager) : pathManager :=
  let m := if (pathMaxPaths <=? pathCount m)%nat then evictLRU e paths m else m in
  let p := newDirectPath e (m_cfg m) req in
  let i := m_next m in
  let m := m <| m_heap ::= <[i := p]> |> <| m_next ::= Pos.succ |> in
  let m := addTrialPath (r_peer req) i m in
  emit (status e p P2PStateTrial P2PReasonTrialProbing) m.

Definition installAfterTrial (e : env) (i : positive) (m : pathManager) : pathManager * bool :=
  let m := untrack i m in
  match path_at m i with
  | None => (m, false)
  | Some p =>
      if negb (bool_decide (p_state p = pathStateTrial)) then (m, false)
      else
        let existing := m_routes m !! p_peer p in
        let install (m : pathManager) :=
          let m := installRouteLocked (p_peer p) i m in
          let m := upd i (setState e pathStateUp) m in
          let m := onPunchSucceeded (p_peerVIP p) m in
          emit (status e (setState e pathStateUp p) P2PStateDirect P2PReasonOKDirect) m in
        match existing with
        | None => (install m, true)
        | Some j =>
            if bool_decide (j = i) then (install m, true)
            else
              match path_at m j with
              | None => (m, false)
              | Some q =>
                  if arbitrationKeeps (p_peer q) (p_myVIP q) (p_role q) then (close e i m, false)
                  else (close e j (install m), true)
              end
        end
  end.

Definition tryPassTrial (e : env) (i : positive) (m : pathManager) : pathManager :=
  match path_at m i with
  | None => m
  | Some p =>
      if negb (bool_decide (p_state p = pathStateTrial)) then m
      else if p_trialDone p then m
      else (installAfterTrial e i (upd i (λ p, p <| p_trialDone := true |>) m)).1
  end.

Definition tryFailTrial (e : env) (i : positive) (m : pathManager) : pathManager :=
  match path_at m i with
  | None => m
  | Some p =>
      if negb (bool_decide (p_state p = pathStateTrial)) then m
      else if p_trialDone p then m
      else
        let m := upd i (λ p, p <| p_trialDone := true |>) m in
        if scoutTearDownHeuristic e (m_cfg m) p
        then demote e i P2PReasonPeerClosed (markScoutHeuristicHit m)
        else rejectTrialSettled e i m
  end.

(** ** Sweeps *)

Definition evict_idle_one (e : env) (m : pathManager) (i : positive) : pathManager :=
  match path_at m i with
  | None => m
  | Some p =>
      if time_sub (now e) (of_milli (p_lastUse p)) <? idleEvict (m_cfg m) then m
      else
        let m := close e i m in
        let m := (removeRoute (p_peer p) i m).1 in
        cool_down_evicted e (p_peer p) m
  end.

Definition evict_rejected_one (e : env) (m : pathManager) (i : positive) : pathManager :=
  match path_at m i with
  | None => m
  | Some p =>
      if negb (bool_decide (p_state p = pathStateRejected)) then m
      else if (p_rejectedAt p =? 0)
              || (time_sub (now e) (of_milli (p_rejectedAt p)) <? trialRejectedTTL) then m
      else releaseRejected e i m
  end.

Definition evictIdle (e : env) (paths trials : list positive) (m : pathManager) : pathManager :=
  let m := foldl (evict_idle_one e) m paths in
  foldl (evict_rejected_one e) m trials.

(** One key of the sweep: the dead registrations go, an empty list drops the
    key. *)
Definition live_registrations (m : pathManager) (l : list positive) : list positive :=
  filter (λ i, state_of m i ≠ Some pathStateDown) l.

Definition pruneDeadRegistrations (m : pathManager) : pathManager :=
  m <| m_trialPaths ::= λ t,
    omap (λ l, match live_registrations m l with [] => None | kept => Some kept end) t |>.

Definition close_all (e : env) (l : list positive) (m : pathManager) : pathManager :=
  foldl (λ m i, close e i m) m l.

Definition ClearAll (e : env) (paths trials : list positive) (reason : string) (m : pathManager)
  : pathManager :=
  let m := clearRoutes m in
  let m := close_all e paths m in
  let m := close_all e trials m in
  match paths with
  | [] => m
  | _ => emit (failed_status e "" P2PReasonServerP2PDisabled reason false) m
  end.

(** [pathManager.close]: the routes first, then the paths, then those on trial. *)
Definition closeManager (e : env) (paths trials : list positive) (m : pathManager) : pathManager :=
  let m := clearRoutes m in
  let m := close_all e paths m in
  close_all e trials m.

(** ** The panel *)

Record PathInfo := {
  pi_PeerVIP : string;
  pi_State : string;
  pi_Role : pathRole;
  pi_RTTMs : Z;
  pi_BytesUp : Z;
  pi_BytesDown : Z;
  pi_DirectSince : Z;
  pi_Warn : string }.

Definition healthWarn (p : directPath) : string :=
  if p_silentWarned p then "数据面：上行 0 字节（有包待发）"
  else if p_oneWayWarned p then "数据面：下行 0 字节（上行有量）"
  else "".

Definition path_info (p : directPath) : PathInfo := {|
  pi_PeerVIP := p_peerVIP p; pi_State := pathStateName (pathState_code (p_state p));
  pi_Role := p_role p; pi_RTTMs := msAtLeast1 (p_rtt p); pi_BytesUp := p_bytesUp p;
  pi_BytesDown := p_bytesDown p; pi_DirectSince := unix_milli (p_since p);
  pi_Warn := healthWarn p |}.

Definition shown_trial (m : pathManager) (paths : list positive) (i : positive) : bool :=
  negb (bool_decide (i ∈ paths)) &&
  match state_of m i with
  | Some (pathStateRejected | pathStateReusing | pathStateRejectedSettling) => false
  | Some _ => true
  | None => false
  end.

Definition Paths (m : pathManager) (paths trials : list positive) : list PathInfo :=
  omap (λ i, path_info <$> path_at m i) (paths ++ List.filter (shown_trial m paths) trials)%list.
