(* ===== verification/PathInv.v ===== *)
(** * The invariant of the path manager

    Between two operations the routing table holds exactly the paths that are
    up or in standby, the trial table exactly those on trial or rejected, each
    under its own peer, and the flags of a path agree with its state. [wf] is
    that invariant; each operation of [PathCore] preserves it. *)

From Stdlib Require Import ZArith Lia Bool String.
From stdpp Require Import base list gmap strings.
From S2P Require Import Prelude.
From S2P Require Import GoNet.
From S2P Require Import Reasons.
From S2P Require Import PeerTable.
From S2P Require Import GoFloat.
From S2P Require Import PathData.
From S2P Require Import Backoff.
From S2P Require Import PathCore.

Open Scope string_scope.
Open Scope Z_scope.

(** ** The invariant *)

(** States whose path is in the routing table, and in the trial table. *)
Definition routed (s : pathState) : bool :=
  match s with pathStateUp | pathStateStandby => true | _ => false end.
Definition on_trial (s : pathState) : bool :=
  match s with pathStateTrial | pathStateRejected => true | _ => false end.

Definition trials_of (m : pathManager) (d : ip4) : list positive :=
  default [] (m_trialPaths m !! d).

(** The flags of a path agree with its state; the two transient states are
    never seen between operations. *)
Record path_ok (p : directPath) : Prop := {
  ok_state : p_state p ≠ pathStateReusing ∧ p_state p ≠ pathStateRejectedSettling;
  ok_closed : p_closed p = bool_decide (p_state p = pathStateDown);
  ok_untracked : p_untracked p = negb (on_trial (p_state p));
  ok_trialDone : p_trialDone p = negb (bool_decide (p_state p = pathStateTrial));
  ok_terminated : p_terminated p = true → p_state p = pathStateDown;
  ok_settled : p_settled p = true → p_state p = pathStateDown;
  ok_stable : p_stableSince p ≠ 0 → p_state p = pathStateUp;
  ok_cause : p_state p = pathStateDown → is_Some (p_connCause p) }.

Record wf (m : pathManager) : Prop := {
  wf_next : ∀ i, is_Some (m_heap m !! i) → (i < m_next m)%positive;
  wf_routes : ∀ d i, m_routes m !! d = Some i ↔
    ∃ p, m_heap m !! i = Some p ∧ p_peer p = d ∧ routed (p_state p) = true;
  wf_trials : ∀ d i, i ∈ trials_of m d ↔
    ∃ p, m_heap m !! i = Some p ∧ p_peer p = d ∧ on_trial (p_state p) = true;
  wf_nodup : ∀ d, NoDup (trials_of m d);
  wf_nonempty : ∀ d, m_trialPaths m !! d ≠ Some [];
  wf_paths : ∀ i p, m_heap m !! i = Some p → path_ok p }.

(** Two managers with the same paths and tables (their bookkeeping may
    differ). *)
Record same_tables (m1 m2 : pathManager) : Prop := {
  same_heap : m_heap m1 = m_heap m2;
  same_next : m_next m1 = m_next m2;
  same_routes : m_routes m1 = m_routes m2;
  same_trials : m_trialPaths m1 = m_trialPaths m2 }.

#[export] Instance same_tables_equiv : Equivalence same_tables.
Proof.
  split; [done| |].
  - intros m1 m2 []; by constructor.
  - intros m1 m2 m3 [] []; constructor; congruence.
Qed.

#[export] Instance wf_same : Proper (same_tables ==> iff) wf.
Proof.
  assert (∀ m1 m2, same_tables m1 m2 → wf m1 → wf m2) as H.
  { intros m1 m2 [E1 E2 E3 E4] [].
    constructor; unfold trials_of in *; rewrite <- ?E1, <- ?E2, <- ?E3, <- ?E4; auto. }
  intros m1 m2 E. split; apply H; [done|by symmetry].
Qed.

(** Bookkeeping that leaves the tables alone. *)
Lemma emit_same st m : same_tables (emit st m) m.
Proof. done. Qed.
Lemma put_backoff_same d st m : same_tables (put_backoff d st m) m.
Proof. done. Qed.
Lemma scheduleRetry_same t d r m : same_tables (scheduleRetry t d r m) m.
Proof. unfold scheduleRetry. by case_bool_decide. Qed.
Lemma setRejectedCooldown_same t d m : same_tables (setRejectedCooldown t d m) m.
Proof. done. Qed.
Lemma onPunchSucceeded_same vip m : same_tables (onPunchSucceeded vip m) m.
Proof. unfold onPunchSucceeded. by destruct (parseIPv4 vip) as [d []]. Qed.
Lemma onPunchFailed_same t vip r m : same_tables (onPunchFailed t vip r m) m.
Proof. unfold onPunchFailed. by destruct (parseIPv4 vip) as [d []]. Qed.
Lemma resetBackoffFor_same d m : same_tables (resetBackoffFor d m) m.
Proof. done. Qed.
Lemma notePeerPublicAddr_same d a m : same_tables (notePeerPublicAddr d a m) m.
Proof. unfold notePeerPublicAddr. repeat case_match; done. Qed.
Lemma cool_down_evicted_same e d m : same_tables (cool_down_evicted e d m) m.
Proof. done. Qed.
Lemma markScoutHeuristicHit_same m : same_tables (markScoutHeuristicHit m) m.
Proof. done. Qed.

#[export] Hint Resolve emit_same put_backoff_same scheduleRetry_same setRejectedCooldown_same
  onPunchSucceeded_same onPunchFailed_same resetBackoffFor_same notePeerPublicAddr_same
  cool_down_evicted_same markScoutHeuristicHit_same : go.

(** ** Assignments through a pointer *)

Definition set_path (i : positive) (p : directPath) (m : pathManager) : pathManager :=
  m <| m_heap ::= <[i := p]> |>.

Definition drop_route (d : ip4) (i : positive) (r : gmap ip4 positive) : gmap ip4 positive :=
  if bool_decide (r !! d = Some i) then delete d r else r.

Definition drop_trial (d : ip4) (i : positive) (t : gmap ip4 (list positive))
  : gmap ip4 (list positive) := set_trials d (remove_first i (default [] (t !! d))) t.

Lemma alter_known (h : gmap positive directPath) i p f :
  h !! i = Some p → alter f i h = <[i := f p]> h.
Proof.
  intros H. apply map_eq. intros j. destruct (decide (i = j)) as [<-|Hne].
  - rewrite lookup_alter_eq, H. by rewrite lookup_insert_eq.
  - by rewrite lookup_alter_ne, lookup_insert_ne.
Qed.

Lemma upd_set i f m p : path_at m i = Some p → upd i f m = set_path i (f p) m.
Proof. intros H. unfold upd, set_path. cbn. by rewrite (alter_known _ _ _ _ H). Qed.

Lemma path_at_set i p m : path_at (set_path i p m) i = Some p.
Proof. unfold path_at, set_path. cbn. by rewrite lookup_insert_eq. Qed.

Lemma path_at_set_ne i j p m : i ≠ j → path_at (set_path i p m) j = path_at m j.
Proof. intros H. unfold path_at, set_path. cbn. by rewrite lookup_insert_ne. Qed.

Lemma set_set i p q m : set_path i p (set_path i q m) = set_path i p m.
Proof. unfold set_path. cbn. by rewrite insert_insert_eq. Qed.

Lemma removeRoute_fst d i m : (removeRoute d i m).1 = m <| m_routes ::= drop_route d i |>.
Proof. unfold removeRoute, drop_route. case_bool_decide as H; cbn; [by rewrite bool_decide_true|].
  rewrite bool_decide_false by done. by destruct m. Qed.

Lemma untrack_done i m p : path_at m i = Some p → p_untracked p = true → untrack i m = m.
Proof. unfold untrack. by intros -> ->. Qed.

Lemma untrack_set i m p :
  path_at m i = Some p → p_untracked p = false →
  untrack i m = (set_path i (p <| p_untracked := true |>) m)
                  <| m_trialPaths ::= drop_trial (p_peer p) i |>.
Proof. unfold untrack. intros H U. rewrite H, U, (upd_set _ _ _ _ H). done. Qed.

(** ** The trial table *)

Lemma elem_remove_first i j l : NoDup l → j ∈ remove_first i l ↔ j ∈ l ∧ j ≠ i.
Proof.
  induction l as [|k l IH]; intros Hnd; cbn.
  - split; [intros H; by apply elem_of_nil in H | by intros [H%elem_of_nil ?]].
  - apply NoDup_cons in Hnd as [Hk Hnd]. case_bool_decide as E.
    + subst k. rewrite elem_of_cons. split; [|naive_solver].
      intros Hj. split; [by right|]. by intros ->.
    + rewrite !elem_of_cons, IH by done. split.
      * intros [->|[??]]; [split; [by left|congruence] | split; [by right|done]].
      * intros [[->|?] ?]; auto.
Qed.

Lemma NoDup_remove_first i l : NoDup l → NoDup (remove_first i l).
Proof.
  induction l as [|k l IH]; intros Hnd; cbn; [done|]. pose proof Hnd as Hnd0.
  apply NoDup_cons in Hnd as [Hk Hnd]. case_bool_decide; [done|].
  apply NoDup_cons. split; [|by apply IH]. by intros [? _]%elem_remove_first.
Qed.

Lemma set_trials_lookup d d' l t :
  default [] (set_trials d l t !! d') = if decide (d = d') then l else default [] (t !! d').
Proof.
  unfold set_trials. destruct l as [|x l], (decide (d = d')) as [->|Hne];
    by rewrite ?lookup_delete_eq, ?lookup_delete_ne, ?lookup_insert_eq, ?lookup_insert_ne.
Qed.

Lemma set_trials_nonempty d l t d' :
  t !! d' ≠ Some [] → set_trials d l t !! d' ≠ Some [].
Proof.
  unfold set_trials. intros H. destruct l as [|x l], (decide (d = d')) as [->|Hne];
    by rewrite ?lookup_delete_eq, ?lookup_delete_ne, ?lookup_insert_eq, ?lookup_insert_ne.
Qed.

Lemma drop_trial_lookup d d' i t :
  default [] (drop_trial d i t !! d')
  = if decide (d = d') then remove_first i (default [] (t !! d')) else default [] (t !! d').
Proof. unfold drop_trial. rewrite set_trials_lookup. by destruct (decide (d = d')) as [->|]. Qed.

(** ** One path changes state *)

Definition move (i : positive) (p : directPath) (m : pathManager) : pathManager :=
  (set_path i p m)
    <| m_routes ::= λ r, if routed (p_state p) then <[p_peer p := i]> r
                         else drop_route (p_peer p) i r |>
    <| m_trialPaths ::= λ t, if on_trial (p_state p) then t else drop_trial (p_peer p) i t |>.

Lemma path_at_move i j p m : path_at (move i p m) j = if decide (i = j) then Some p else path_at m j.
Proof.
  unfold path_at, move, set_path. cbn.
  destruct (decide (i = j)) as [<-|]; [by rewrite lookup_insert_eq|by rewrite lookup_insert_ne].
Qed.

Lemma state_of_move i p m : state_of (move i p m) i = Some (p_state p).
Proof. unfold state_of. by rewrite path_at_move, decide_True. Qed.

Lemma routed_not_on_trial s : routed s = true → on_trial s = false.
Proof. by destruct s. Qed.

Lemma drop_route_lookup d i r d' j :
  drop_route d i r !! d' = Some j ↔ r !! d' = Some j ∧ ¬ (d' = d ∧ j = i).
Proof.
  unfold drop_route. case_bool_decide as H.
  - destruct (decide (d = d')) as [->|Hne].
    + rewrite lookup_delete_eq, H. naive_solver.
    + rewrite lookup_delete_ne by done. naive_solver.
  - naive_solver.
Qed.

Lemma ex_some {A} (x : A) (P : A → Prop) : (∃ y, Some x = Some y ∧ P y) ↔ P x.
Proof. split; [by intros (y & [= <-] & ?)|by exists x]. Qed.

(** A path that changes state, moved between the tables accordingly, keeps the
    invariant. *)
Section wf_move.
Context (i : positive) (p p' : directPath) (m : pathManager).
Context (Hwf : wf m) (Hp : m_heap m !! i = Some p) (Hpeer : p_peer p' = p_peer p).

Lemma move_routes :
  (routed (p_state p') = true → m_routes m !! p_peer p = None ∨ m_routes m !! p_peer p = Some i) →
  ∀ d j, m_routes (move i p' m) !! d = Some j ↔
    ∃ q, m_heap (move i p' m) !! j = Some q ∧ p_peer q = d ∧ routed (p_state q) = true.
Proof using Hwf Hp Hpeer.
  intros Hslot d j. unfold move, set_path. cbn.
  destruct (decide (i = j)) as [<-|Hij].
  - rewrite lookup_insert_eq, ex_some. destruct (routed (p_state p')) eqn:Hr.
    + destruct (decide (p_peer p' = d)) as [<-|Hd]; [by rewrite lookup_insert_eq|].
      rewrite lookup_insert_ne, (wf_routes _ Hwf), Hp, ex_some by done.
      split; [|by intros [??]]. intros [<- _]. by rewrite Hpeer in Hd.
    + rewrite drop_route_lookup, (wf_routes _ Hwf), Hp, ex_some, Hpeer.
      split; [|by intros [??]]. intros [[<- _] H]. by destruct H.
  - rewrite (lookup_insert_ne _ i), <- (wf_routes _ Hwf) by done.
    destruct (routed (p_state p')) eqn:Hr.
    + destruct (decide (p_peer p' = d)) as [<-|Hd]; [|by rewrite lookup_insert_ne].
      rewrite lookup_insert_eq, Hpeer. destruct (Hslot eq_refl) as [-> | ->]; split; congruence.
    + rewrite drop_route_lookup. split; [by intros []|]. intros H. split; [done|].
      intros [_ ->]. done.
Qed.

Lemma move_trials :
  (on_trial (p_state p') = true → on_trial (p_state p) = true) →
  ∀ d j, j ∈ trials_of (move i p' m) d ↔
    ∃ q, m_heap (move i p' m) !! j = Some q ∧ p_peer q = d ∧ on_trial (p_state q) = true.
Proof using Hwf Hp Hpeer.
  intros Htr d j. pose proof (wf_trials _ Hwf) as Ht. unfold trials_of in *.
  unfold move, set_path. cbn. destruct (decide (i = j)) as [<-|Hij].
  - rewrite lookup_insert_eq, ex_some. destruct (on_trial (p_state p')) eqn:Ho.
    + rewrite Ht, Hp, ex_some, Hpeer, Htr by done. done.
    + rewrite drop_trial_lookup. destruct (decide (p_peer p' = d)) as [<-|Hd].
      * rewrite elem_remove_first by apply (wf_nodup _ Hwf). split; [by intros []|by intros []].
      * rewrite Ht, Hp, ex_some, <- Hpeer. split; by intros [??].
  - rewrite (lookup_insert_ne _ i), <- Ht by done. destruct (on_trial (p_state p')) eqn:Ho; [done|].
    rewrite drop_trial_lookup. destruct (decide (p_peer p' = d)) as [<-|Hd]; [|done].
    rewrite elem_remove_first by apply (wf_nodup _ Hwf). split; [by intros []|by auto].
Qed.

Lemma wf_move :
  path_ok p' →
  (routed (p_state p') = true → m_routes m !! p_peer p = None ∨ m_routes m !! p_peer p = Some i) →
  (on_trial (p_state p') = true → on_trial (p_state p) = true) →
  wf (move i p' m).
Proof using Hwf Hp Hpeer.
  intros Hok Hslot Htr. constructor.
  - intros j [q Hq]. unfold move, set_path in *. cbn in *. apply (wf_next _ Hwf).
    destruct (decide (i = j)) as [<-|?]; [by eexists|].
    rewrite lookup_insert_ne in Hq by done. by eexists.
  - by apply move_routes.
  - by apply move_trials.
  - intros d. unfold move, set_path, trials_of. cbn.
    destruct (on_trial (p_state p')); [apply (wf_nodup _ Hwf)|]. rewrite drop_trial_lookup.
    destruct (decide _) as [<-|]; [apply NoDup_remove_first|]; apply (wf_nodup _ Hwf).
  - intros d. unfold move. cbn. destruct (on_trial (p_state p')); [apply (wf_nonempty _ Hwf)|].
    apply set_trials_nonempty, (wf_nonempty _ Hwf).
  - intros j q. unfold move, set_path. cbn. destruct (decide (i = j)) as [<-|Hij].
    + rewrite lookup_insert_eq. by intros [= <-].
    + rewrite lookup_insert_ne by done. apply (wf_paths _ Hwf).
Qed.
End wf_move.

(** ** Closing and terminating *)

(** The innermost pending assignment, on a path whose value is known to be
    [q]. *)
Ltac at_path := unfold path_at, set_path; cbn; by rewrite lookup_insert_eq.
Ltac upd_step q :=
  match goal with
  | |- context [upd ?i ?f ?m'] =>
      lazymatch m' with
      | context [upd _ _ _] => fail
      | _ => rewrite (upd_set i f m' q) by at_path
      end
  end.

Lemma remove_first_notin i l : i ∉ l → remove_first i l = l.
Proof.
  induction l as [|k l IH]; intros H; cbn; [done|]. rewrite not_elem_of_cons in H.
  destruct H as [Hk Hl]. rewrite bool_decide_false by done. by rewrite IH.
Qed.

Lemma set_trials_id d t : t !! d ≠ Some [] → set_trials d (default [] (t !! d)) t = t.
Proof.
  intros H. unfold set_trials. destruct (t !! d) as [[|x l]|] eqn:E; cbn; [done|..].
  - by apply insert_id.
  - by apply delete_id.
Qed.

Lemma drop_trial_id i p m :
  wf m → path_at m i = Some p → on_trial (p_state p) = false →
  drop_trial (p_peer p) i (m_trialPaths m) = m_trialPaths m.
Proof.
  intros Hwf Hp Ho. unfold drop_trial. rewrite remove_first_notin.
  - apply set_trials_id, (wf_nonempty _ Hwf).
  - intros Hin. change (i ∈ trials_of m (p_peer p)) in Hin.
    apply (wf_trials _ Hwf) in Hin as (q & Hq & _ & Hoq). unfold path_at in Hp. congruence.
Qed.

Lemma drop_route_id i p m :
  wf m → path_at m i = Some p → routed (p_state p) = false →
  drop_route (p_peer p) i (m_routes m) = m_routes m.
Proof.
  intros Hwf Hp Hr. unfold drop_route. rewrite bool_decide_false; [done|].
  rewrite (wf_routes _ Hwf). intros (q & Hq & _ & Hrq). unfold path_at in Hp. congruence.
Qed.

Definition closed_path (e : env) (p : directPath) : directPath :=
  (setState e pathStateDown (p <| p_closed := true |> <| p_trialDone := true |>
                               <| p_untracked := true |>))
    <| p_connCause ::= λ c, match c with Some x => Some x | None => Some local_close end |>.

Lemma closed_path_ok e p : path_ok p → path_ok (closed_path e p).
Proof.
  intros []. constructor; cbn; try done. destruct (p_connCause p); cbn; by eexists.
Qed.
#[export] Hint Resolve closed_path_ok : go.

Lemma down_flags p : path_ok p → p_closed p = false → p_state p ≠ pathStateDown.
Proof. intros [] Hc. rewrite Hc in ok_closed0. symmetry in ok_closed0. by bool_hyps. Qed.

(** [untrack] removes the registration; on a path without one it does
    nothing. *)
Lemma untrack_move i m p :
  wf m → path_at m i = Some p →
  untrack i m = (set_path i (p <| p_untracked := true |>) m)
                  <| m_trialPaths ::= drop_trial (p_peer p) i |>.
Proof.
  intros Hwf Hp. destruct (p_untracked p) eqn:U.
  - rewrite (untrack_done _ _ _ Hp U).
    pose proof (ok_untracked _ (wf_paths _ Hwf _ _ Hp)) as Ho. rewrite U in Ho.
    symmetry in Ho. apply negb_true_iff in Ho.
    pose proof (drop_trial_id _ _ _ Hwf Hp Ho) as Hd.
    assert (p <| p_untracked := true |> = p) as -> by (destruct p; cbn in *; by subst).
    destruct m as [? h ? ? t]; unfold set_path; cbn in *. f_equal; [|by symmetry].
    symmetry. by apply insert_id.
  - by apply untrack_set.
Qed.

(** The same with the flags set just before it. *)
Lemma untrack_flags i m p f :
  wf m → path_at m i = Some p → p_peer (f p) = p_peer p → p_untracked (f p) = p_untracked p →
  untrack i (set_path i (f p) m)
  = (set_path i ((f p) <| p_untracked := true |>) m)
      <| m_trialPaths ::= drop_trial (p_peer p) i |>.
Proof.
  intros Hwf Hp Hpeer Hu. destruct (p_untracked p) eqn:U.
  - rewrite (untrack_done _ _ (f p)) by (rewrite ?path_at_set; congruence).
    pose proof (ok_untracked _ (wf_paths _ Hwf _ _ Hp)) as Ho. rewrite U in Ho.
    symmetry in Ho. apply negb_true_iff in Ho.
    pose proof (drop_trial_id _ _ _ Hwf Hp Ho) as Hd.
    assert ((f p) <| p_untracked := true |> = f p) as -> by (destruct (f p); cbn in *; by subst).
    destruct m as [? h ? ? t]; unfold set_path; cbn in *. f_equal. by symmetry.
  - rewrite (untrack_set _ _ (f p)) by (rewrite ?path_at_set; congruence).
    rewrite Hpeer, set_set. done.
Qed.

Lemma close_closed e i m p : path_at m i = Some p → p_closed p = true → close e i m = m.
Proof. unfold close. by intros -> ->. Qed.

Lemma close_open e i m p :
  wf m → path_at m i = Some p → p_closed p = false →
  close e i m = (set_path i (closed_path e p) m)
                  <| m_trialPaths ::= drop_trial (p_peer p) i |>.
Proof.
  intros Hwf Hp Hc. unfold close. rewrite Hp, Hc, (upd_set _ _ _ _ Hp).
  rewrite (untrack_flags i m p (λ p, p <| p_closed := true |> <| p_trialDone := true |>)) by done.
  upd_step (p <| p_closed := true |> <| p_trialDone := true |> <| p_untracked := true |>).
  upd_step (setState e pathStateDown (p <| p_closed := true |>
             <| p_trialDone := true |> <| p_untracked := true |>)).
  unfold set_path. cbn. by rewrite !insert_insert_eq.
Qed.

Lemma close_untracked e i m p :
  path_at m i = Some p → p_closed p = false → p_untracked p = true →
  close e i m = set_path i (closed_path e p) m.
Proof.
  intros Hp Hc Hu. unfold close. rewrite Hp, Hc, (upd_set _ _ _ _ Hp).
  rewrite (untrack_done i _ (p <| p_closed := true |> <| p_trialDone := true |>))
    by (done || at_path).
  upd_step (p <| p_closed := true |> <| p_trialDone := true |>).
  upd_step (setState e pathStateDown (p <| p_closed := true |> <| p_trialDone := true |>)).
  rewrite !set_set. f_equal. unfold closed_path. destruct p; cbn in *. by subst.
Qed.

(** Closing an unrouted path keeps the invariant. *)
Lemma close_wf e i m p :
  wf m → path_at m i = Some p → routed (p_state p) = false → wf (close e i m).
Proof.
  intros Hwf Hp Hr. pose proof (wf_paths _ Hwf _ _ Hp) as Hok.
  destruct (p_closed p) eqn:Hc; [by rewrite (close_closed _ _ _ _ Hp Hc)|].
  rewrite (close_open _ _ _ _ Hwf Hp Hc).
  assert (wf (move i (closed_path e p) m)) as Hm
    by (apply (wf_move i p); cbn; auto with go; done).
  eapply wf_same; [|exact Hm]. constructor; cbn; try done.
  symmetry. by apply drop_route_id.
Qed.

(** Closing a path and taking its route away keeps the invariant. *)
Lemma close_unroute_wf e i m p :
  wf m → path_at m i = Some p → wf ((removeRoute (p_peer p) i (close e i m)).1).
Proof.
  intros Hwf Hp. pose proof (wf_paths _ Hwf _ _ Hp) as Hok. rewrite removeRoute_fst.
  destruct (p_closed p) eqn:Hc.
  - rewrite (close_closed _ _ _ _ Hp Hc). eapply wf_same; [|exact Hwf].
    constructor; cbn; try done. apply drop_route_id; [done..|].
    rewrite (ok_closed _ Hok) in Hc. bool_hyps. by rewrite Hc.
  - rewrite (close_open _ _ _ _ Hwf Hp Hc).
    assert (wf (move i (closed_path e p) m)) as Hm
      by (apply (wf_move i p); cbn; auto with go; done).
    refine (proj1 (wf_same _ _ _) Hm). constructor; cbn; reflexivity.
Qed.

Definition terminated_path (e : env) (p : directPath) : directPath :=
  closed_path e (p <| p_terminated := true |>).

Lemma terminated_path_ok e p : path_ok p → path_ok (terminated_path e p).
Proof.
  intros []. constructor; cbn; try done. destruct (p_connCause p); cbn; by eexists.
Qed.
#[export] Hint Resolve terminated_path_ok : go.

(** Termination in the tables: the path goes down and leaves both. *)
Lemma terminateDown_tables e i reason m p :
  wf m → path_at m i = Some p → p_terminated p = false → p_closed p = false →
  same_tables (terminateDown e i reason m) (move i (terminated_path e p) m).
Proof.
  intros Hwf Hp Ht Hc. unfold terminateDown. rewrite Hp, Ht, (upd_set _ _ _ _ Hp).
  rewrite (untrack_flags i m p (λ p, p <| p_terminated := true |> <| p_trialDone := true |>)) by done.
  set (q := p <| p_terminated := true |> <| p_trialDone := true |> <| p_untracked := true |>).
  upd_step q.
  rewrite removeRoute_fst, emit_same, scheduleRetry_same.
  rewrite (close_untracked e i _ (setState e pathStateDown q)) by (done || at_path).
  constructor; unfold set_path; cbn; try done. by rewrite !insert_insert_eq.
Qed.

Lemma terminateDown_closed e i reason m p :
  wf m → path_at m i = Some p → p_terminated p = false → p_closed p = true →
  same_tables (terminateDown e i reason m) (set_path i (p <| p_terminated := true |>) m).
Proof.
  intros Hwf Hp Ht Hc. pose proof (wf_paths _ Hwf _ _ Hp) as Hok.
  assert (p_state p = pathStateDown) as Hs.
  { pose proof (ok_closed _ Hok) as E. rewrite Hc in E. symmetry in E. by bool_hyps. }
  assert (p_untracked p = true) as Hu by (rewrite (ok_untracked _ Hok), Hs; done).
  assert (p_trialDone p = true) as Hd by (rewrite (ok_trialDone _ Hok), Hs; done).
  assert (p_stableSince p = 0) as Hst.
  { destruct (decide (p_stableSince p = 0)) as [?|Hn]; [done|].
    apply (ok_stable _ Hok) in Hn. congruence. }
  unfold terminateDown. rewrite Hp, Ht, (upd_set _ _ _ _ Hp).
  set (q := p <| p_terminated := true |> <| p_trialDone := true |>).
  rewrite (untrack_done i _ q) by (rewrite ?path_at_set; done).
  upd_step q. rewrite set_set.
  rewrite removeRoute_fst, emit_same, scheduleRetry_same.
  rewrite (close_closed e i _ (setState e pathStateDown q))
    by (try done; unfold path_at, set_path; cbn; by rewrite lookup_insert_eq).
  constructor; unfold set_path; cbn; try done.
  - f_equal. unfold q. destruct p; cbn in *. by subst.
  - apply drop_route_id; [done..|by rewrite Hs].
Qed.

Lemma terminated_flag_ok p :
  path_ok p → p_state p = pathStateDown → path_ok (p <| p_terminated := true |>).
Proof.
  intros Hok Hs. constructor; cbn.
  - exact (ok_state _ Hok).
  - exact (ok_closed _ Hok).
  - exact (ok_untracked _ Hok).
  - exact (ok_trialDone _ Hok).
  - by intros _.
  - exact (ok_settled _ Hok).
  - exact (ok_stable _ Hok).
  - exact (ok_cause _ Hok).
Qed.

Lemma terminateDown_wf e i reason m : wf m → wf (terminateDown e i reason m).
Proof.
  intros Hwf. destruct (path_at m i) as [p|] eqn:Hp; [|by unfold terminateDown; rewrite Hp].
  pose proof (wf_paths _ Hwf _ _ Hp) as Hok.
  destruct (p_terminated p) eqn:Ht; [by unfold terminateDown; rewrite Hp, Ht|].
  destruct (p_closed p) eqn:Hc.
  - rewrite (terminateDown_closed _ _ _ _ _ Hwf Hp Ht Hc).
    assert (p_state p = pathStateDown) as Hs.
    { pose proof (ok_closed _ Hok) as E. rewrite Hc in E. symmetry in E. by bool_hyps. }
    assert (wf (move i (p <| p_terminated := true |>) m)) as Hm.
    { apply (wf_move i p); [done..|by apply terminated_flag_ok|by cbn; rewrite Hs|by cbn; rewrite Hs]. }
    eapply wf_same; [|exact Hm]. unfold move. cbn. rewrite Hs. cbn.
    constructor; cbn; try done; symmetry; [apply drop_route_id | apply drop_trial_id];
      done || by rewrite Hs.
  - rewrite (terminateDown_tables _ _ _ _ _ Hwf Hp Ht Hc).
    apply (wf_move i p); cbn; auto with go; done.
Qed.
#[export] Hint Resolve terminateDown_wf : go.

(** The operations on the tables respect [same_tables]. *)

#[export] Instance path_at_same : Proper (same_tables ==> eq ==> eq) path_at.
Proof. intros m1 m2 [E _ _ _] i ? <-. unfold path_at. by rewrite E. Qed.

Lemma same_state m1 m2 i : same_tables m1 m2 → state_of m1 i = state_of m2 i.
Proof. intros E. unfold state_of. by rewrite E. Qed.

#[export] Instance upd_same i f : Proper (same_tables ==> same_tables) (upd i f).
Proof. intros m1 m2 []. constructor; unfold upd; cbn; congruence. Qed.

#[export] Instance untrack_same i : Proper (same_tables ==> same_tables) (untrack i).
Proof.
  intros m1 m2 E. unfold untrack. rewrite (path_at_same _ _ E i i eq_refl).
  destruct (path_at m2 i) as [p|]; [|done]. destruct (p_untracked p); [done|].
  destruct E. constructor; unfold upd; cbn; congruence.
Qed.

#[export] Instance close_same e i : Proper (same_tables ==> same_tables) (close e i).
Proof.
  intros m1 m2 E. unfold close. rewrite (path_at_same _ _ E i i eq_refl).
  destruct (path_at m2 i) as [p|]; [|done]. destruct (p_closed p); [done|]. by rewrite E.
Qed.

#[export] Instance set_path_same i p : Proper (same_tables ==> same_tables) (set_path i p).
Proof. intros m1 m2 []. constructor; unfold set_path; cbn; congruence. Qed.

#[export] Instance installRoute_same d i : Proper (same_tables ==> same_tables) (installRouteLocked d i).
Proof. intros m1 m2 []. constructor; unfold installRouteLocked; cbn; congruence. Qed.

(** ** Changes that move nothing *)

Lemma upd_wf i f m :
  wf m → (∀ p, path_at m i = Some p → path_ok p → path_ok (f p) ∧ p_state (f p) = p_state p ∧
                                      p_peer (f p) = p_peer p) →
  wf (upd i f m).
Proof.
  intros Hwf H. destruct (path_at m i) as [p|] eqn:Hp.
  - destruct (H p eq_refl (wf_paths _ Hwf _ _ Hp)) as (Hok & Hs & Hpeer).
    rewrite (upd_set _ _ _ _ Hp).
    assert (wf (move i (f p) m)) as Hm.
    { apply (wf_move i p); [done..| |by rewrite Hs].
      rewrite Hs. intros Hr. right. apply (wf_routes _ Hwf). eauto. }
    refine (proj1 (wf_same _ _ _) Hm). constructor; cbn; try done; rewrite Hs, Hpeer.
    + destruct (routed (p_state p)) eqn:Hr; [|by apply drop_route_id].
      apply insert_id, (wf_routes _ Hwf). eauto.
    + destruct (on_trial (p_state p)) eqn:Hr; [done|by apply drop_trial_id].
  - assert (upd i f m = m) as ->; [|done]. unfold upd. destruct m; cbn in *. f_equal.
    apply map_eq. intros j. destruct (decide (i = j)) as [<-|?];
      [rewrite lookup_alter_eq | by rewrite lookup_alter_ne].
    unfold path_at in Hp. cbn in Hp. by rewrite Hp.
Qed.

(** ** A settled trial *)

Lemma trial_flags p :
  path_ok p → p_state p = pathStateTrial →
  p_closed p = false ∧ p_untracked p = false ∧ p_trialDone p = false ∧ p_terminated p = false ∧
  p_settled p = false ∧ p_stableSince p = 0.
Proof.
  intros [] Hs. rewrite Hs in *. cbn in *. split_and!; auto.
  - destruct (p_terminated p); auto. discriminate (ok_terminated0 eq_refl).
  - destruct (p_settled p); auto. discriminate (ok_settled0 eq_refl).
  - destruct (decide (p_stableSince p = 0)) as [|H]; auto. discriminate (ok_stable0 H).
Qed.

Definition up_path (e : env) (p : directPath) : directPath :=
  setState e pathStateUp (p <| p_trialDone := true |> <| p_untracked := true |>).

Definition rejected_path (e : env) (p : directPath) : directPath :=
  setState e pathStateRejected (p <| p_trialDone := true |> <| p_rejectedAt := now_ms e |>).

Lemma up_path_ok e p : path_ok p → p_state p = pathStateTrial → path_ok (up_path e p).
Proof.
  intros Hok Hs. destruct (trial_flags p Hok Hs) as (? & ? & ? & ? & ? & ?).
  constructor; cbn; congruence || auto; congruence.
Qed.

Lemma rejected_path_ok e p : path_ok p → p_state p = pathStateTrial → path_ok (rejected_path e p).
Proof.
  intros Hok Hs. destruct (trial_flags p Hok Hs) as (? & ? & ? & ? & ? & ?).
  constructor; cbn; try congruence; auto; (by intros []) || done.
Qed.

(** What a passed trial does to the tables. *)
Inductive install_outcome (e : env) (i : positive) (p : directPath) (m m' : pathManager) : bool → Prop :=
  | outcome_free :
      m_routes m !! p_peer p = None →
      same_tables m' (move i (up_path e p) m) → install_outcome e i p m m' true
  | outcome_kept j q :
      m_routes m !! p_peer p = Some j → path_at m j = Some q → j ≠ i →
      arbitrationKeeps (p_peer q) (p_myVIP q) (p_role q) = true →
      same_tables m' (move i (closed_path e p) m) → install_outcome e i p m m' false
  | outcome_replaced j q :
      m_routes m !! p_peer p = Some j → path_at m j = Some q → j ≠ i →
      arbitrationKeeps (p_peer q) (p_myVIP q) (p_role q) = false →
      same_tables m' (move i (up_path e p) (removeRoute (p_peer q) j (close e j m)).1) →
      install_outcome e i p m m' true.

Lemma tryPassTrial_outcome e i m p :
  wf m → path_at m i = Some p → p_state p = pathStateTrial →
  ∃ b, installAfterTrial e i (upd i (λ p, p <| p_trialDone := true |>) m)
       = (tryPassTrial e i m, b) ∧ install_outcome e i p m (tryPassTrial e i m) b.
Proof.
  intros Hwf Hp Hs. pose proof (wf_paths _ Hwf _ _ Hp) as Hok.
  destruct (trial_flags p Hok Hs) as (Hc & Hu & Hd & Ht & _ & Hst).
  assert (∃ b, installAfterTrial e i (upd i (λ p, p <| p_trialDone := true |>) m)
    = (tryPassTrial e i m, b)) as [b Hb].
  { eexists. unfold tryPassTrial. rewrite Hp, Hs, Hd. cbn. apply surjective_pairing. }
  exists b. split; [done|]. generalize dependent (tryPassTrial e i m). intros m' Hb.
  unfold installAfterTrial in Hb. rewrite (upd_set _ _ _ _ Hp) in Hb.
  rewrite (untrack_flags i m p (λ p, p <| p_trialDone := true |>)) in Hb by done.
  set (q := p <| p_trialDone := true |> <| p_untracked := true |>) in Hb.
  set (m1 := (set_path i q m) <| m_trialPaths ::= drop_trial (p_peer p) i |>) in Hb.
  assert (path_at m1 i = Some q) as Hq by (unfold m1; at_path).
  rewrite Hq in Hb. rewrite (bool_decide_true (p_state q = _)) in Hb by done. cbn [negb] in Hb.
  change (p_peer q) with (p_peer p) in Hb.
  change (m_routes m1) with (m_routes m) in Hb.
  set (inst := emit _ _) in Hb.
  assert (same_tables inst (installRouteLocked (p_peer p) i (set_path i (up_path e p) m1))) as Hinst.
  { unfold inst. rewrite emit_same, onPunchSucceeded_same.
    rewrite (upd_set i _ _ q) by (unfold m1; at_path). done. }
  destruct (m_routes m !! p_peer p) as [j|] eqn:Hr.
  - destruct (proj1 (wf_routes _ Hwf _ _) Hr) as (r & Hj & Hrp & Hrr).
    assert (j ≠ i) as Hji by (intros ->; unfold path_at in Hp; simplify_eq; by rewrite Hs in Hrr).
    rewrite (bool_decide_false (j = i)) in Hb by done.
    assert (path_at m1 j = Some r) as Hj1.
    { unfold m1, path_at, set_path. cbn. by rewrite lookup_insert_ne. }
    rewrite Hj1 in Hb. destruct (arbitrationKeeps _ _ _) eqn:Ha.
    + injection Hb as <- <-. eapply outcome_kept; [done..|].
      rewrite (close_untracked e i m1 q) by done.
      constructor; unfold m1, set_path, move; cbn; try done.
      * by rewrite insert_insert_eq.
      * symmetry. by apply drop_route_id; rewrite ?Hs.
    + injection Hb as <- <-. eapply outcome_replaced; [done..|].
      rewrite Hinst. rewrite (close_untracked e j _ r).
      2: { unfold path_at, installRouteLocked, set_path, m1. cbn. by rewrite !lookup_insert_ne. }
      2: { pose proof (ok_closed _ (wf_paths _ Hwf _ _ Hj)) as ->. by destruct (p_state r). }
      2: { pose proof (ok_untracked _ (wf_paths _ Hwf _ _ Hj)) as ->. by destruct (p_state r). }
      rewrite (close_untracked e j m r).
      2: done.
      2: { pose proof (ok_closed _ (wf_paths _ Hwf _ _ Hj)) as ->. by destruct (p_state r). }
      2: { pose proof (ok_untracked _ (wf_paths _ Hwf _ _ Hj)) as ->. by destruct (p_state r). }
      rewrite removeRoute_fst.
      constructor; unfold m1, set_path, move, installRouteLocked; cbn; try done.
      * rewrite insert_insert_eq. by apply insert_insert_ne.
      * unfold drop_route. rewrite Hrp. rewrite bool_decide_true by done. by rewrite insert_delete_eq.
  - injection Hb as <- <-. apply outcome_free; [done|]. rewrite Hinst.
    constructor; unfold m1, set_path, move, installRouteLocked; cbn; try done.
    by rewrite insert_insert_eq.
Qed.

Lemma set_path_routes i p m : m_routes (set_path i p m) = m_routes m.
Proof. done. Qed.

(** A trial path comes up in a free slot. *)
Lemma move_up_wf e i p m :
  wf m → path_at m i = Some p → p_state p = pathStateTrial → m_routes m !! p_peer p = None →
  wf (move i (up_path e p) m).
Proof.
  intros Hwf Hp Hs Hr. apply (wf_move i p); try done; [|by left].
  apply up_path_ok; [apply (wf_paths _ Hwf _ _ Hp)|done].
Qed.

Lemma close_unroute_other e i j m p q :
  path_at m i = Some p → path_at m j = Some q → i ≠ j → p_closed q = false → p_untracked q = true →
  path_at (removeRoute (p_peer q) j (close e j m)).1 i = Some p.
Proof.
  intros Hp Hq Hij Hc Hu. rewrite (close_untracked _ _ _ _ Hq Hc Hu), removeRoute_fst.
  unfold path_at, set_path in *. cbn. by rewrite lookup_insert_ne.
Qed.

Lemma routed_flags p : path_ok p → routed (p_state p) = true → p_closed p = false ∧ p_untracked p = true.
Proof. intros [] Hr. rewrite ok_closed0, ok_untracked0. by destruct (p_state p). Qed.

Lemma tryPassTrial_wf e i m : wf m → wf (tryPassTrial e i m).
Proof.
  intros Hwf. destruct (path_at m i) as [p|] eqn:Hp; [|by unfold tryPassTrial; rewrite Hp].
  destruct (decide (p_state p = pathStateTrial)) as [Hs|Hs].
  2: { unfold tryPassTrial. rewrite Hp. by rewrite bool_decide_false. }
  pose proof (wf_paths _ Hwf _ _ Hp) as Hok.
  destruct (tryPassTrial_outcome e i m p Hwf Hp Hs) as (b & _ & [Hr E|j q Hr Hj Hne Ha E|j q Hr Hj Hne Ha E]);
    rewrite E.
  - by apply move_up_wf.
  - apply (wf_move i p); cbn; auto with go; done.
  - apply (wf_routes _ Hwf) in Hr as (q' & Hq' & Hpeer & Hrq). unfold path_at in Hj.
    rewrite Hj in Hq'. injection Hq' as <-.
    destruct (routed_flags q (wf_paths _ Hwf _ _ Hj) Hrq) as [Hc Hu].
    apply move_up_wf; [by apply close_unroute_wf|by apply close_unroute_other|done|].
    rewrite (close_untracked e j m q) by done. rewrite removeRoute_fst. unfold set_path. cbn.
    unfold drop_route. case_bool_decide as H; [rewrite Hpeer; apply lookup_delete_eq|].
    rewrite Hpeer in H. exfalso. apply H. apply (wf_routes _ Hwf). eauto.
Qed.

Lemma rejectTrialSettled_tables e i m p q :
  wf m → path_at m i = Some p → p_state p = pathStateTrial →
  p_state q = pathStateTrial → p_peer q = p_peer p →
  same_tables (rejectTrialSettled e i (set_path i q m))
    (set_path i (setState e pathStateRejected (q <| p_rejectedAt := now_ms e |>)) m).
Proof.
  intros Hwf Hp Hs Hsq Hpq.
  unfold rejectTrialSettled. rewrite path_at_set, bool_decide_true by done. cbn [negb].
  rewrite emit_same, setRejectedCooldown_same, removeRoute_fst.
  upd_step q. upd_step (q <| p_rejectedAt := now_ms e |>).
  constructor; unfold set_path; cbn; try done; [by rewrite !insert_insert_eq|].
  rewrite Hpq. apply drop_route_id; [done..|]. by rewrite Hs.
Qed.

Lemma reject_wf e i m p :
  wf m → path_at m i = Some p → p_state p = pathStateTrial →
  wf (set_path i (rejected_path e p) m).
Proof.
  intros Hwf Hp Hs. pose proof (wf_paths _ Hwf _ _ Hp) as Hok.
  assert (wf (move i (rejected_path e p) m)) as Hm.
  { apply (wf_move i p); [done..|by apply rejected_path_ok|done|]. intros _. by rewrite Hs. }
  refine (proj1 (wf_same _ _ _) Hm). constructor; cbn; try done.
  apply drop_route_id; [done..|]. by rewrite Hs.
Qed.

Lemma demoteWith_cases e i err reason m :
  ∃ r hits, demoteWith e i err reason m = terminateDown e i r (m <| m_scoutHits := hits |>).
Proof.
  assert (∀ hits, m_scoutHits m = hits → m <| m_scoutHits := hits |> = m) as Hid
    by (intros ? <-; by destruct m).
  unfold demoteWith. destruct (path_at m i) as [p|] eqn:Hp.
  2: { exists reason, (m_scoutHits m). rewrite (Hid _ eq_refl). unfold terminateDown. by rewrite Hp. }
  case_bool_decide; [destruct (_ || _); [|destruct (scoutTearDownHeuristic e (m_cfg m) p)]|].
  - exists P2PReasonPeerClosed, (m_scoutHits m). by rewrite (Hid _ eq_refl).
  - exists P2PReasonPeerClosed, (Z.succ (m_scoutHits m)). done.
  - exists reason, (m_scoutHits m). by rewrite (Hid _ eq_refl).
  - exists reason, (m_scoutHits m). by rewrite (Hid _ eq_refl).
Qed.

Lemma hits_same h m : same_tables (m <| m_scoutHits := h |>) m.
Proof. done. Qed.

Lemma demoteWith_wf e i err reason m : wf m → wf (demoteWith e i err reason m).
Proof.
  intros Hwf. destruct (demoteWith_cases e i err reason m) as (r & h & ->).
  apply terminateDown_wf. by rewrite hits_same.
Qed.
#[export] Hint Resolve demoteWith_wf tryPassTrial_wf : go.

Lemma terminateDown_tables_gen e i reason m p q :
  wf m → path_at m i = Some p → p_peer q = p_peer p → p_untracked q = p_untracked p →
  p_terminated q = false → p_closed q = false →
  same_tables (terminateDown e i reason (set_path i q m)) (move i (terminated_path e q) m).
Proof.
  intros Hwf Hp Hpeer Hu Ht Hc. unfold terminateDown. rewrite path_at_set, Ht.
  rewrite (upd_set _ _ _ _ (path_at_set i q m)), set_set.
  rewrite (untrack_flags i m p (λ _, q <| p_terminated := true |> <| p_trialDone := true |>)) by done.
  set (r := q <| p_terminated := true |> <| p_trialDone := true |> <| p_untracked := true |>).
  upd_step r.
  rewrite removeRoute_fst, emit_same, scheduleRetry_same.
  rewrite (close_untracked e i _ (setState e pathStateDown r)) by (done || at_path).
  constructor; unfold set_path; cbn; try done.
  - by rewrite !insert_insert_eq.
  - by rewrite Hpeer.
Qed.

Lemma tryFailTrial_wf e i m : wf m → wf (tryFailTrial e i m).
Proof.
  intros Hwf. unfold tryFailTrial. destruct (path_at m i) as [p|] eqn:Hp; [|done].
  destruct (decide (p_state p = pathStateTrial)) as [Hs|Hs]; [|by rewrite bool_decide_false].
  rewrite bool_decide_true by done. cbn [negb].
  pose proof (wf_paths _ Hwf _ _ Hp) as Hok.
  destruct (trial_flags p Hok Hs) as (Hc & Hu & Hd & Ht & _ & Hst). rewrite Hd.
  rewrite (upd_set _ _ _ _ Hp). destruct (scoutTearDownHeuristic e _ p).
  - unfold demote.
    destruct (demoteWith_cases e i None P2PReasonPeerClosed
                (markScoutHeuristicHit (set_path i (p <| p_trialDone := true |>) m))) as (r & h & ->).
    change ((markScoutHeuristicHit (set_path i (p <| p_trialDone := true |>) m)) <| m_scoutHits := h |>)
      with (set_path i (p <| p_trialDone := true |>) (m <| m_scoutHits := h |>)).
    assert (wf (m <| m_scoutHits := h |>)) as Hwf' by (by rewrite hits_same).
    rewrite (terminateDown_tables_gen e i r _ p) by (exact Hwf' || exact Hp || done).
    apply (wf_move i p); [exact Hwf'|exact Hp|done| |done..].
    destruct Hok. constructor; cbn; try done. destruct (p_connCause p); cbn; by eexists.
  - rewrite (rejectTrialSettled_tables e i m p) by done.
    by apply (reject_wf e i m p).
Qed.

(** *** Releasing and reusing a rejected path *)

Lemma rejected_flags p :
  path_ok p → p_state p = pathStateRejected →
  p_closed p = false ∧ p_untracked p = false ∧ p_trialDone p = true ∧ p_terminated p = false ∧
  p_settled p = false ∧ p_stableSince p = 0.
Proof.
  intros [] Hs. rewrite Hs in *. cbn in *. split_and!; auto.
  - destruct (p_terminated p); auto. discriminate (ok_terminated0 eq_refl).
  - destruct (p_settled p); auto. discriminate (ok_settled0 eq_refl).
  - destruct (decide (p_stableSince p = 0)) as [|H]; auto. discriminate (ok_stable0 H).
Qed.

Lemma releaseRejected_tables e i m p :
  wf m → path_at m i = Some p → p_state p = pathStateRejected →
  same_tables (releaseRejected e i m) (move i (closed_path e (p <| p_settled := true |>)) m).
Proof.
  intros Hwf Hp Hs. pose proof (wf_paths _ Hwf _ _ Hp) as Hok.
  destruct (rejected_flags p Hok Hs) as (Hc & Hu & Hd & Ht & Hset & Hst).
  unfold releaseRejected. rewrite Hp, Hs, Hset, (upd_set _ _ _ _ Hp).
  upd_step (p <| p_settled := true |>). rewrite set_set. cbv beta.
  change (p_state (p <| p_settled := true |>)) with (p_state p). rewrite Hs.
  rewrite (untrack_flags i m p (λ p, p <| p_settled := true |>
             <| p_state := pathStateRejectedSettling |>)) by done.
  rewrite (close_untracked e i _ (p <| p_settled := true |>
             <| p_state := pathStateRejectedSettling |> <| p_untracked := true |>))
    by (done || at_path).
  constructor; unfold set_path; cbn; try done; [by rewrite insert_insert_eq|].
  symmetry. apply drop_route_id; [done..|]. by rewrite Hs.
Qed.

Lemma releaseRejected_noop e i m p :
  wf m → path_at m i = Some p → p_state p ≠ pathStateRejected → releaseRejected e i m = m.
Proof.
  intros Hwf Hp Hs. unfold releaseRejected. rewrite Hp.
  pose proof (proj2 (ok_state _ (wf_paths _ Hwf _ _ Hp))). by destruct (p_state p).
Qed.

Lemma releaseRejected_wf e i m : wf m → wf (releaseRejected e i m).
Proof.
  intros Hwf. destruct (path_at m i) as [p|] eqn:Hp; [|by unfold releaseRejected; rewrite Hp].
  destruct (decide (p_state p = pathStateRejected)) as [Hs|Hs];
    [|by rewrite (releaseRejected_noop e i m p)].
  rewrite (releaseRejected_tables e i m p) by done.
  apply (wf_move i p); cbn; try done. pose proof (wf_paths _ Hwf _ _ Hp) as [].
  constructor; cbn; try done. destruct (p_connCause p); cbn; by eexists.
Qed.

Lemma reuseRejected_wf e i m : wf m → wf (reuseRejected e i m).1.
Proof.
  intros Hwf. unfold reuseRejected. destruct (path_at m i) as [p|] eqn:Hp; [|done].
  destruct (decide (p_state p = pathStateRejected)) as [Hs|Hs]; [|by rewrite bool_decide_false].
  rewrite bool_decide_true by done. cbn [negb].
  pose proof (wf_paths _ Hwf _ _ Hp) as Hok.
  destruct (rejected_flags p Hok Hs) as (Hc & Hu & Hd & Ht & Hset & Hst).
  rewrite (upd_set _ _ _ _ Hp). destruct (p_connCause p) as [cause|] eqn:Hcause; cbn [fst].
  - rewrite (terminateDown_tables_gen e i _ m p) by done.
    apply (wf_move i p); cbn; try done.
    destruct Hok. constructor; cbn; try done. rewrite Hcause. by eexists.
  - upd_step (p <| p_state := pathStateReusing |>). rewrite set_set.
    upd_step (p <| p_state := pathStateTrial |>). rewrite set_set.
    set (q := _ : directPath) at 1.
    assert (wf (move i q m)) as Hm.
    { apply (wf_move i p); unfold q; cbn; try done; [|by rewrite Hs].
      destruct Hok. constructor; cbn; try done; try congruence. }
    refine (proj1 (wf_same _ _ _) Hm). constructor; cbn; try done.
    apply drop_route_id; [done..|by rewrite Hs].
Qed.
#[export] Hint Resolve tryFailTrial_wf releaseRejected_wf reuseRejected_wf : go.

(** ** New paths *)

Lemma newDirectPath_ok e c req : path_ok (newDirectPath e c req).
Proof. by constructor. Qed.
#[export] Hint Resolve newDirectPath_ok : go.

Lemma add_wf i p m :
  wf m → i = m_next m → path_ok p → p_state p = pathStateTrial →
  wf (addTrialPath (p_peer p) i (m <| m_heap ::= <[i := p]> |> <| m_next ::= Pos.succ |>)).
Proof.
  intros Hwf Hi Hok Hs.
  assert (m_heap m !! i = None) as Hfresh.
  { destruct (m_heap m !! i) eqn:E; [|done].
    assert (i < m_next m)%positive by (apply (wf_next _ Hwf); by eexists). lia. }
  assert (∀ d, i ∉ trials_of m d) as Hnotin.
  { intros d Hin. apply (wf_trials _ Hwf) in Hin as (q & Hq & _). congruence. }
  assert (∀ d, trials_of (addTrialPath (p_peer p) i
             (m <| m_heap ::= <[i := p]> |> <| m_next ::= Pos.succ |>)) d
           = if decide (p_peer p = d) then (trials_of m d ++ [i])%list else trials_of m d) as Htr.
  { intros d. unfold trials_of, addTrialPath. cbn. destruct (decide (p_peer p = d)) as [<-|Hne].
    - by rewrite lookup_insert_eq.
    - by rewrite lookup_insert_ne. }
  constructor; rewrite ?Htr; cbn.
  - intros j [q Hq]. destruct (decide (i = j)) as [<-|Hne]; [lia|].
    rewrite lookup_insert_ne in Hq by done.
    assert (j < m_next m)%positive by (apply (wf_next _ Hwf); by eexists). lia.
  - intros d j. rewrite (wf_routes _ Hwf). destruct (decide (i = j)) as [<-|Hne].
    + rewrite lookup_insert_eq, ex_some, Hfresh, Hs. split; [by intros (? & ? & _)|by intros [? ?]].
    + by rewrite lookup_insert_ne.
  - intros d j. rewrite Htr. destruct (decide (i = j)) as [<-|Hne].
    + rewrite lookup_insert_eq, ex_some, Hs. destruct (decide (p_peer p = d)) as [Hd|Hd].
      * split; [done|]. intros _. apply elem_of_app. right. by left.
      * split; [by intros ?%Hnotin|by intros []].
    + rewrite lookup_insert_ne, <- (wf_trials _ Hwf) by done.
      destruct (decide (p_peer p = d)) as [Hd|Hd]; [|done].
      rewrite elem_of_app, list_elem_of_singleton. split; [intros [?|?]; congruence|by left].
  - intros d. rewrite Htr. destruct (decide (p_peer p = d)); [|apply (wf_nodup _ Hwf)].
    apply NoDup_app. split_and!; [apply (wf_nodup _ Hwf)|intros j Hj ->%list_elem_of_singleton; by eapply Hnotin|].
    apply NoDup_singleton.
  - intros d. destruct (decide (p_peer p = d)) as [<-|Hne].
    + rewrite lookup_insert_eq. by destruct (default [] _).
    + rewrite lookup_insert_ne by done. apply (wf_nonempty _ Hwf).
  - intros j q. destruct (decide (i = j)) as [<-|Hne].
    + rewrite lookup_insert_eq. by intros [= <-].
    + rewrite lookup_insert_ne by done. apply (wf_paths _ Hwf).
Qed.

(** ** Sweeps *)

(** Close a path and take its route away. *)
Definition kill (e : env) (m : pathManager) (i : positive) : pathManager :=
  match path_at m i with
  | Some p => (removeRoute (p_peer p) i (close e i m)).1
  | None => m
  end.

Lemma kill_wf e i m : wf m → wf (kill e m i).
Proof. intros Hwf. unfold kill. destruct (path_at m i) eqn:Hp; [by apply close_unroute_wf|done]. Qed.

Lemma close_routes e i m f :
  close e i (m <| m_routes ::= f |>) = (close e i m) <| m_routes ::= f |>.
Proof.
  unfold close. change (path_at (m <| m_routes ::= f |>) i) with (path_at m i).
  destruct (path_at m i) as [p|]; [|done]. destruct (p_closed p); [done|].
  unfold untrack at 1. change (path_at (upd i ?g (m <| m_routes ::= f |>)) i) with (path_at (upd i g m) i).
  unfold untrack. destruct (path_at (upd i _ m) i) as [q|]; [|done]. by destruct (p_untracked q).
Qed.

Lemma close_state e i m j :
  wf m → state_of (close e i m) j
         = if decide (i = j) then (λ _, pathStateDown) <$> path_at m j else state_of m j.
Proof.
  intros Hwf. destruct (path_at m i) as [p|] eqn:Hp.
  - destruct (p_closed p) eqn:Hc.
    + rewrite (close_closed _ _ _ _ Hp Hc). destruct (decide (i = j)) as [<-|]; [|done].
      unfold state_of. rewrite Hp. cbn. f_equal.
      pose proof (ok_closed _ (wf_paths _ Hwf _ _ Hp)) as E. rewrite Hc in E. symmetry in E.
      by bool_hyps.
    + rewrite (close_open _ _ _ _ Hwf Hp Hc). unfold state_of, path_at, set_path in *. cbn.
      destruct (decide (i = j)) as [<-|]; [by rewrite lookup_insert_eq, Hp|].
      by rewrite lookup_insert_ne.
  - unfold close. rewrite Hp. destruct (decide (i = j)) as [<-|]; [|done].
    unfold state_of. by rewrite Hp.
Qed.

Lemma kill_state e i m j :
  wf m → state_of (kill e m i) j
         = if decide (i = j) then (λ _, pathStateDown) <$> path_at m j else state_of m j.
Proof.
  intros Hwf. rewrite <- (close_state e i m j Hwf). unfold kill.
  destruct (path_at m i) as [p|] eqn:Hp.
  - by rewrite removeRoute_fst.
  - unfold close. by rewrite Hp.
Qed.

(** No sweep brings a path back to a state it was not in, unless down. *)
Lemma kill_all_state e l m j s :
  wf m → state_of (foldl (kill e) m l) j = Some s →
  (s = pathStateDown ∨ state_of m j = Some s) ∧ (j ∈ l → s = pathStateDown).
Proof.
  revert m. induction l as [|i l IH]; intros m Hwf Hj; cbn in Hj.
  - split; [by right|]. intros H. by apply elem_of_nil in H.
  - destruct (IH _ (kill_wf e i m Hwf) Hj) as [H1 H2]. rewrite kill_state in H1 by done. split.
    + destruct H1 as [->|H1]; [by left|]. destruct (decide (i = j)) as [<-|]; [|by right].
      destruct (path_at m i); naive_solver.
    + intros [->|Hl]%elem_of_cons; [|by apply H2]. rewrite decide_True in H1 by done.
      destruct H1 as [|H1]; [done|]. destruct (path_at m i); naive_solver.
Qed.

Lemma kill_all_wf e l m : wf m → wf (foldl (kill e) m l).
Proof. revert m. induction l as [|i l IH]; intros m Hwf; cbn; [done|]. by apply IH, kill_wf. Qed.

Lemma close_all_routes e l m f :
  close_all e l (m <| m_routes ::= f |>) = (close_all e l m) <| m_routes ::= f |>.
Proof.
  unfold close_all. revert m. induction l as [|i l IH]; intros m; cbn [foldl]; [done|].
  by rewrite close_routes, IH.
Qed.

(** Closing them one after the other with the routes already gone comes to the
    same as removing each route with its path. *)
Lemma close_all_kill e l m r :
  (close_all e l m) <| m_routes := r |> = (foldl (kill e) m l) <| m_routes := r |>.
Proof.
  revert m. induction l as [|i l IH]; intros m; [done|].
  change (close_all e (i :: l) m) with (close_all e l (close e i m)).
  cbn [foldl]. rewrite <- IH. unfold kill. destruct (path_at m i) as [p|] eqn:Hp.
  - by rewrite removeRoute_fst, close_all_routes.
  - unfold close. by rewrite Hp.
Qed.

Lemma kill_evict e i m p :
  path_at m i = Some p → close e i ((removeRoute (p_peer p) i m).1) = kill e m i.
Proof. intros Hp. unfold kill. by rewrite Hp, !removeRoute_fst, close_routes. Qed.

Lemma evictLRU_wf e paths m : wf m → wf (evictLRU e paths m).
Proof.
  intros Hwf. unfold evictLRU. destruct paths as [|i l]; [done|].
  destruct (path_at m _) as [p|] eqn:Hp; [|done].
  rewrite cool_down_evicted_same, (kill_evict _ _ _ _ Hp). by apply kill_wf.
Qed.

Lemma handleEstablished_wf e paths req m : wf m → wf (handleEstablished e paths req m).
Proof.
  intros Hwf. unfold handleEstablished.
  set (m1 := if (pathMaxPaths <=? pathCount m)%nat then _ else m).
  assert (wf m1) as Hwf1 by (unfold m1; case_match; [by apply evictLRU_wf|done]).
  rewrite emit_same. change (r_peer req) with (p_peer (newDirectPath e (m_cfg m1) req)).
  apply add_wf; auto with go.
Qed.

Lemma evict_idle_one_wf e i m : wf m → wf (evict_idle_one e m i).
Proof.
  intros Hwf. unfold evict_idle_one. destruct (path_at m i) as [p|] eqn:Hp; [|done].
  case_match; [done|]. rewrite cool_down_evicted_same. by apply close_unroute_wf.
Qed.

Lemma evict_rejected_one_wf e i m : wf m → wf (evict_rejected_one e m i).
Proof.
  intros Hwf. unfold evict_rejected_one. destruct (path_at m i) as [p|] eqn:Hp; [|done].
  repeat case_match; auto with go.
Qed.

Lemma fold_wf {A} (f : pathManager → A → pathManager) l m :
  (∀ m a, wf m → wf (f m a)) → wf m → wf (foldl f m l).
Proof. intros Hf. revert m. induction l as [|a l IH]; intros m Hwf; cbn; auto. Qed.

Lemma evictIdle_wf e paths trials m : wf m → wf (evictIdle e paths trials m).
Proof.
  intros Hwf. unfold evictIdle. apply fold_wf; [intros; by apply evict_rejected_one_wf|].
  apply fold_wf; [intros; by apply evict_idle_one_wf|done].
Qed.

Lemma no_routes_left e paths m :
  wf m → is_snapshot m paths → m_routes (foldl (kill e) m paths) = ∅.
Proof.
  intros Hwf Hsnap. apply map_empty. intros d.
  destruct (m_routes (foldl (kill e) m paths) !! d) as [i|] eqn:Hi; [|done]. exfalso.
  apply (wf_routes _ (kill_all_wf e paths m Hwf)) in Hi as (p & Hp & _ & Hr).
  assert (state_of (foldl (kill e) m paths) i = Some (p_state p)) as Hs
    by (unfold state_of, path_at; by rewrite Hp).
  destruct (kill_all_state e paths m i _ Hwf Hs) as [[Hd|H1] H2]; [by rewrite Hd in Hr|].
  unfold state_of, path_at in H1. destruct (m_heap m !! i) as [q|] eqn:Hq; [|done].
  injection H1 as H1.
  assert (i ∈ paths) as Hin.
  { rewrite Hsnap. apply list_elem_of_fmap. exists (p_peer q, i). split; [done|].
    apply elem_of_map_to_list, (wf_routes _ Hwf). exists q. by rewrite H1. }
  by rewrite (H2 Hin) in Hr.
Qed.

(** Clearing the routes and then closing every routed path. *)
Lemma clear_close_tables e paths m :
  wf m → is_snapshot m paths →
  same_tables (close_all e paths (clearRoutes m)) (foldl (kill e) m paths).
Proof.
  intros Hwf Hsnap. unfold clearRoutes.
  change (m <| m_routes := ∅ |>) with (m <| m_routes ::= λ _, ∅ |>).
  rewrite close_all_routes.
  change ((close_all e paths m) <| m_routes ::= λ _, ∅ |>) with ((close_all e paths m) <| m_routes := ∅ |>).
  rewrite close_all_kill. constructor; cbn; try done. symmetry. by apply no_routes_left.
Qed.

Lemma close_trials_wf e l m :
  wf m → (∀ i s, i ∈ l → state_of m i = Some s → routed s = false) → wf (close_all e l m).
Proof.
  unfold close_all. revert m. induction l as [|i l IH]; intros m Hwf H; cbn [foldl]; [done|].
  apply IH.
  - destruct (path_at m i) as [p|] eqn:Hp; [|unfold close; by rewrite Hp].
    apply (close_wf e i m p); [done..|]. apply (H i); [by left|]. unfold state_of. by rewrite Hp.
  - intros j s Hj Hs. rewrite close_state in Hs by done. destruct (decide (i = j)) as [<-|].
    + destruct (path_at m i); [|done]. by injection Hs as <-.
    + apply (H j); [by right|done].
Qed.

Lemma trial_snapshot_in m trials i :
  is_trial_snapshot m trials → i ∈ trials → ∃ d, i ∈ trials_of m d.
Proof.
  unfold is_trial_snapshot. intros -> Hin.
  apply list_elem_of_In, in_concat in Hin as (l & Hl & Hi).
  apply list_elem_of_In, list_elem_of_fmap in Hl as ([d l'] & -> & Hd%elem_of_map_to_list).
  exists d. unfold trials_of. rewrite Hd. by apply list_elem_of_In.
Qed.

(** The two halves of a shutdown. *)
Lemma shutdown_wf e paths trials m :
  wf m → is_snapshot m paths → is_trial_snapshot m trials →
  wf (close_all e trials (close_all e paths (clearRoutes m))).
Proof.
  intros Hwf Hp Ht. pose proof (clear_close_tables e paths m Hwf Hp) as E.
  assert (wf (close_all e paths (clearRoutes m))) as Hwf'
    by (rewrite E; by apply kill_all_wf).
  apply close_trials_wf; [done|]. intros i s Hi Hs.
  assert (state_of (foldl (kill e) m paths) i = Some s) as Hs'
    by (unfold state_of in *; by rewrite <- E).
  clear Hs; rename Hs' into Hs.
  destruct (kill_all_state e paths m i s Hwf Hs) as [[-> |H1] _]; [done|].
  destruct (trial_snapshot_in m trials i Ht Hi) as (d & (p & Hpi & _ & Ho)%(wf_trials _ Hwf)).
  unfold state_of, path_at in H1. rewrite Hpi in H1. injection H1 as <-. by destruct (p_state p).
Qed.

Lemma ClearAll_wf e paths trials reason m :
  wf m → is_snapshot m paths → is_trial_snapshot m trials →
  wf (ClearAll e paths trials reason m).
Proof.
  intros Hwf Hp Ht. unfold ClearAll. pose proof (shutdown_wf e paths trials m Hwf Hp Ht).
  destruct paths; [done|by rewrite emit_same].
Qed.

Lemma closeManager_wf e paths trials m :
  wf m → is_snapshot m paths → is_trial_snapshot m trials → wf (closeManager e paths trials m).
Proof. intros. by apply shutdown_wf. Qed.

(** In a well-formed table there is no dead registration to prune. *)
Lemma prune_same m : wf m → same_tables (pruneDeadRegistrations m) m.
Proof.
  intros Hwf. constructor; cbn; try done. apply map_eq. intros d. rewrite lookup_omap.
  destruct (m_trialPaths m !! d) as [l|] eqn:Hl; [|done]. cbn.
  assert (live_registrations m l = l) as ->.
  { unfold live_registrations. apply filter_all. intros i Hi.
    assert (i ∈ trials_of m d) as Hi' by (unfold trials_of; by rewrite Hl).
    apply (wf_trials _ Hwf) in Hi' as (p & Hp & _ & Ho). unfold state_of, path_at. rewrite Hp.
    cbn. intros [= E]. by rewrite E in Ho. }
  destruct l as [|x l]; [|done]. by apply (wf_nonempty _ Hwf) in Hl.
Qed.

Lemma new_wf cfg : wf (newPathManager cfg).
Proof.
  constructor; cbn.
  - intros i [p Hp]. by rewrite lookup_empty in Hp.
  - intros d i. rewrite !lookup_empty. split; [done|by intros (? & ? & _)].
  - intros d i. unfold trials_of. cbn. rewrite !lookup_empty. cbn.
    split; [by intros ?%elem_of_nil|by intros (? & ? & _)].
  - intros d. unfold trials_of. cbn. rewrite lookup_empty. constructor.
  - intros d. by rewrite lookup_empty.
  - intros i p H. by rewrite lookup_empty in H.
Qed.
#[export] Hint Resolve new_wf evictIdle_wf handleEstablished_wf ClearAll_wf closeManager_wf : go.

(** A path survives neither half of a shutdown. *)
Lemma close_all_state e l m j s :
  wf m → (∀ i s, i ∈ l → state_of m i = Some s → routed s = false) →
  state_of (close_all e l m) j = Some s →
  (s = pathStateDown ∨ state_of m j = Some s) ∧ (j ∈ l → s = pathStateDown).
Proof.
  unfold close_all. revert m. induction l as [|i l IH]; intros m Hwf H Hj; cbn [foldl] in Hj.
  - split; [by right|]. intros Hin. by apply elem_of_nil in Hin.
  - assert (wf (close e i m)) as Hwf1.
    { destruct (path_at m i) as [p|] eqn:Hp; [|unfold close; by rewrite Hp].
      apply (close_wf e i m p); [done..|]. apply (H i); [by left|]. unfold state_of. by rewrite Hp. }
    destruct (IH _ Hwf1) as [H1 H2]; [|done|].
    { intros k s' Hk Hs'. rewrite close_state in Hs' by done. destruct (decide (i = k)) as [<-|].
      - destruct (path_at m i); [|done]. by injection Hs' as <-.
      - apply (H k); [by right|done]. }
    rewrite close_state in H1 by done. split.
    + destruct H1 as [->|H1]; [by left|]. destruct (decide (i = j)) as [<-|]; [|by right].
      left. destruct (path_at m i); [|done]. by injection H1 as <-.
    + intros [->|Hl]%elem_of_cons; [|by apply H2]. rewrite decide_True in H1 by done.
      destruct H1 as [|H1]; [done|]. destruct (path_at m i); [|done]. by injection H1 as <-.
Qed.

Lemma shutdown_states e paths trials m :
  wf m → is_snapshot m paths → is_trial_snapshot m trials →
  ∀ i p, path_at (close_all e trials (close_all e paths (clearRoutes m))) i = Some p →
         p_state p = pathStateDown.
Proof.
  intros Hwf Hsp Hst i p Hp. pose proof (clear_close_tables e paths m Hwf Hsp) as E.
  set (m1 := close_all e paths (clearRoutes m)) in *.
  assert (wf m1) as Hwf1 by (rewrite E; by apply kill_all_wf).
  assert (∀ j s, state_of m1 j = Some s →
            (s = pathStateDown ∨ state_of m j = Some s) ∧ (j ∈ paths → s = pathStateDown)) as Hk.
  { intros j s Hj. apply (kill_all_state e paths m j s Hwf). unfold state_of in *. by rewrite <- E. }
  assert (∀ j s, j ∈ trials → state_of m1 j = Some s → routed s = false) as Hnr.
  { intros j s Hj Hs. destruct (Hk j s Hs) as [[-> |H1] _]; [done|].
    destruct (trial_snapshot_in m trials j Hst Hj) as (d & (q & Hq & _ & Ho)%(wf_trials _ Hwf)).
    unfold state_of, path_at in H1. rewrite Hq in H1. injection H1 as <-. by destruct (p_state q). }
  destruct (close_all_state e trials m1 i (p_state p) Hwf1 Hnr) as [H1 H2];
    [unfold state_of; by rewrite Hp|].
  destruct H1 as [|H1]; [done|]. destruct (Hk i _ H1) as [H3 H4]. destruct H3 as [|H3]; [done|].
  unfold state_of, path_at in H3. destruct (m_heap m !! i) as [q|] eqn:Hq; [|done].
  injection H3 as H3. pose proof (wf_paths _ Hwf _ _ Hq) as Hok.
  destruct (decide (p_state q = pathStateDown)) as [Hd|Hd]; [congruence|].
  assert (routed (p_state q) = true ∨ on_trial (p_state q) = true) as [Hr|Ho].
  { destruct (ok_state _ Hok). destruct (p_state q); auto; done. }
  - apply H4. rewrite Hsp. apply list_elem_of_fmap. exists (p_peer q, i). split; [done|].
    apply elem_of_map_to_list, (wf_routes _ Hwf). eauto.
  - apply H2. rewrite Hst.
    assert (i ∈ trials_of m (p_peer q)) as Hin by (apply (wf_trials _ Hwf); eauto).
    unfold trials_of in Hin. destruct (m_trialPaths m !! p_peer q) as [l|] eqn:Hl;
      [|by apply elem_of_nil in Hin].
    apply list_elem_of_In, in_concat. exists l. split; [|by apply list_elem_of_In].
    apply list_elem_of_In, list_elem_of_fmap. exists (p_peer q, l). split; [done|].
    by apply elem_of_map_to_list.
Qed.
