(* ===== verification/PathTrial.v ===== *)
(** * Probation, standby and the watchdog ([path.go], 222-294, 2351-3750)

    The quality judgements on one path: the trial that a new connection must
    pass before it carries traffic, the standby hysteresis of a path in use, and
    the watchdog and control-stream handlers that drive them. *)

From Stdlib Require Import ZArith Lia Bool String.
From stdpp Require Import base list gmap strings.
From S2P Require Import Prelude.
From S2P Require Import GoNet.
From S2P Require Import Reasons.
From S2P Require Import PeerTable.
From S2P Require Import GoFloat.
From S2P Require Import PathData.
From S2P Require Import Backoff.
From S2P Require Import PathCore.

Open Scope string_scope.
Open Scope Z_scope.

(** ** Trial parameters *)

Definition trialNeedGood (c : params) : Z :=
  if 0 <? trialNeedOverride c then trialNeedOverride c else trialNeedGoodNormal.

(** The probe interval, defaulted. *)
Definition sample_step (c : params) : duration :=
  if probeInterval c <=? 0 then defaultProbeInterval else probeInterval c.

Definition trialSampleFloor (c : params) : duration :=
  Z.quot (trialNeedGood c * sample_step c * 3) 2.

Definition trialWindow (c : params) : duration :=
  if 0 <? trialWindowOverride c then trialWindowOverride c
  else if trialWindowNormal <? trialSampleFloor c then trialSampleFloor c
  else trialWindowNormal.

Definition trialSampleGood (directRTT relayRTT : duration) (probeSuccess : float64) : bool :=
  if (relayRTT <=? 0) || (directRTT <=? 0) then false
  else (directRTT <? scale_duration relayRTT trialRTTRatio) &&
       fle trialMinProbeSuccess probeSuccess.

Definition trialVerdict (goodSamples total need : Z) : bool := need <=? goodSamples.

Definition trialGoodEnough (c : params) (p : directPath) : bool := trialNeedGood c <=? p_trialGood p.

(** ** Sampling *)

Definition trialSampleStep (e : env) (c : params) (p : directPath) : directPath :=
  let started := p_trialStartedAt p in
  if started =? 0 then p
  else
    let win := trialWindow c in
    let step := sample_step c in
    let step := if win <? step then win else step in
    let last := p_trialLastSampleAt p in
    let p := if last =? 0 then p <| p_trialLastSampleAt := started |> else p in
    let last := if last =? 0 then started else last in
    if time_sub (now e) (of_milli last) <? step then p
    else if p_lastEcho p <=? p_trialLastEcho p then p
    else
      let p := p <| p_trialLastSampleAt := now_ms e |> in
      let echo := p_lastEcho p in
      let relay := p_trialRelayRtt p in
      let direct := p_rtt p in
      let prevEcho := p_trialLastEcho p in
      let success := if prevEcho <? echo then f_1_0 else f_0_0 in
      let p := if (prevEcho <? echo) && (0 <? direct) then p <| p_trialLastDirectRtt := direct |>
               else p in
      let p := p <| p_trialLastEcho := echo |> <| p_trialSamples ::= Z.succ |> in
      if trialSampleGood direct relay success then p <| p_trialGood ::= Z.succ |> else p.

Definition trialMetrics (p : directPath) : Z * Z * Z :=
  let direct := p_trialLastDirectRtt p in
  let direct := if direct <=? 0 then p_rtt p else direct in
  let samples := p_trialSamples p in
  let good := p_trialGood p in
  if samples <=? 0 then (msAtLeast1 direct, msAtLeast1 (p_trialRelayRtt p), 0)
  else (msAtLeast1 direct, msAtLeast1 (p_trialRelayRtt p), Z.quot (good * 100) samples).

Definition evalTrial (e : env) (i : positive) (m : pathManager) : pathManager :=
  match path_at m i with
  | None => m
  | Some p =>
      if negb (bool_decide (p_state p = pathStateTrial)) then m
      else
        let started := p_trialStartedAt p in
        if started =? 0 then m
        else
          let m := upd i (trialSampleStep e (m_cfg m)) m in
          if trialGoodEnough (m_cfg m) (trialSampleStep e (m_cfg m) p) then tryPassTrial e i m
          else if trialWindow (m_cfg m) <=? time_sub (now e) (of_milli started)
          then tryFailTrial e i m
          else m
  end.

(** ** The relay's round-trip time *)

(** The fields of a signalling answer the path manager reads. *)
Record SignalPeer := {
  Online : bool;
  SignalReady : bool;
  PublicAddr : string;
  RelayRTTMs : Z }.

Definition noteTrialRelayRtt (v : Z) (p : directPath) : directPath :=
  if bool_decide (p_state p = pathStateTrial) then p <| p_trialRelayRtt := v |> else p.

(** [answer] is what the signalling query gives, [None] for an error. *)
Definition refreshRelayRTT (e : env) (answer : option SignalPeer) (i : positive) (m : pathManager)
  : pathManager :=
  let m := upd i (λ p, p <| p_relayRttTriedAt := now_ms e |>) m in
  match answer with
  | None => m
  | Some peer =>
      let m := match path_at m i with
               | Some p =>
                   let '(dst, ok) := parseIPv4 (p_peerVIP p) in
                   if ok then notePeerPublicAddr dst (PublicAddr peer) m else m
               | None => m
               end in
      if 0 <? RelayRTTMs peer then
        let v := RelayRTTMs peer * millisecond in
        upd i (λ p, noteTrialRelayRtt v (p <| p_relayRtt := v |>)) m
      else m
  end.

(** ** Standby *)

Definition enterStandby (e : env) (i : positive) (m : pathManager) : pathManager * bool :=
  match path_at m i with
  | None => (m, false)
  | Some p =>
      if negb (bool_decide (p_state p = pathStateUp)) then (m, false)
      else
        let p := p <| p_state := pathStateStandby |> <| p_stableSince := 0 |>
                   <| p_degradeSince := 0 |> <| p_lastStandbyEval := now_ms e |> in
        let m := upd i (λ _, p) m in
        (emit (status e p P2PStateStandby P2PReasonQualityDegraded) m, true)
  end.

Definition exitStandby (e : env) (i : positive) (m : pathManager) : pathManager * bool :=
  match path_at m i with
  | None => (m, false)
  | Some p =>
      if negb (bool_decide (p_state p = pathStateStandby)) then (m, false)
      else
        let p := p <| p_state := pathStateUp |> <| p_stableSince := now_ms e |>
                   <| p_degradeSince := 0 |> <| p_lastStandbyEval := 0 |> in
        let m := upd i (λ _, p) m in
        (emit (status e p P2PStateDirect P2PReasonOKDirect) m, true)
  end.

(** Whether the basis is due for a refresh. *)
Definition relay_stale (e : env) (c : params) (p : directPath) : bool :=
  (p_relayRttTriedAt p =? 0) ||
  (duration_ms (relayRttRefreshInterval c) <=? now_ms e - p_relayRttTriedAt p).

(** The judgement once the basis is known; [st] is the state read at entry. *)
Definition judge_standby (e : env) (st : pathState) (i : positive) (m : pathManager)
  : pathManager :=
  match path_at m i with
  | None => m
  | Some p =>
      let c := m_cfg m in
      let relay := p_relayRtt p in
      let direct := p_rtt p in
      if relay <=? 0 then m
      else if direct <=? 0 then m
      else
        match st with
        | pathStateUp =>
            let threshold := scale_duration relay (standbyRatio c) in
            if direct <=? threshold then upd i (λ p, p <| p_degradeSince := 0 |>) m
            else
              let since := p_degradeSince p in
              if since =? 0 then upd i (λ p, p <| p_degradeSince := now_ms e |>) m
              else if duration_ms (standbyDegradeFor c) <=? now_ms e - since
              then (enterStandby e i m).1
              else m
        | pathStateStandby =>
            let last := p_lastStandbyEval p in
            if negb (last =? 0) && (now_ms e - last <? duration_ms (standbyEvalInterval c)) then m
            else
              let m := upd i (λ p, p <| p_lastStandbyEval := now_ms e |>) m in
              if direct <=? scale_duration relay (standbyExitRatio c) then (exitStandby e i m).1
              else m
        | _ => m
        end
  end.

Definition evalStandby (e : env) (answer : option SignalPeer) (i : positive) (m : pathManager)
  : pathManager :=
  match path_at m i with
  | None => m
  | Some p =>
      if negb (alive p) then m
      else
        let m := if relay_stale e (m_cfg m) p then refreshRelayRTT e answer i m else m in
        judge_standby e (p_state p) i m
  end.

(** ** Health warnings *)

Definition checkDataPlaneHealth (e : env) (c : params) (p : directPath) : directPath :=
  let up := time_sub (now e) (p_since p) in
  let p := if (0 <? p_enqueued p) && (p_bytesUp p =? 0) && (silentWarn c <=? up)
           then p <| p_silentWarned := true |> else p in
  if (0 <? p_bytesUp p) && (p_bytesDown p =? 0) && (oneWayWarn c <=? up)
  then p <| p_oneWayWarned := true |> else p.

(** ** The watchdog's tick *)

(** No echo for longer than the grace of [probeMissLimit + 1] intervals. *)
Definition echo_overdue (e : env) (c : params) (p : directPath) : bool :=
  let since := if p_lastEcho p =? 0 then time_sub (now e) (p_since p)
               else time_sub (now e) (of_milli (p_lastEcho p)) in
  probeInterval c * (probeMissLimit c + 1) <? since.

Definition checkEcho (e : env) (i : positive) (m : pathManager) : pathManager :=
  match path_at m i with
  | None => m
  | Some p =>
      if echo_overdue e (m_cfg m) p then
        let m := upd i (λ p, p <| p_probeMiss ::= Z.succ |>) m in
        if probeMissLimit (m_cfg m) <=? p_probeMiss p + 1 then demoteErr e i None m else m
      else m
  end.

Definition watchCheck (e : env) (answer : option SignalPeer) (i : positive) (m : pathManager)
  : pathManager :=
  match path_at m i with
  | None => m
  | Some p =>
      if negb (alive p) then m
      else
        let m := upd i (checkDataPlaneHealth e (m_cfg m)) m in
        let m := evalStandby e answer i m in
        let m := evalTrial e i m in
        let m := upd i (λ p, p <| p_watchdogTicks ::= Z.succ |>) m in
        let m := maybeClearFailuresAfterStable e i m in
        checkEcho e i m
  end.

(** A probe is due; [sent] is the outcome of writing it. *)
Definition watchProbe (e : env) (sent : option goError) (i : positive) (m : pathManager)
  : pathManager :=
  match path_at m i with
  | None => m
  | Some p =>
      if negb (alive p) then m
      else
        let m := upd i (λ p, p <| p_probeSeq ::= Z.succ |>) m in
        match sent with Some err => demoteErr e i (Some err) m | None => m end
  end.

(** The connection's context ends with [cause] (a local close has set one
    already). *)
Definition watchConnDone (e : env) (cause : goError) (i : positive) (m : pathManager)
  : pathManager :=
  let m := upd i (λ p, p <| p_connCause ::= λ c, match c with Some x => Some x
                                                         | None => Some cause end |>) m in
  match path_at m i with
  | None => m
  | Some p => if alive p then demoteErr e i (p_connCause p) m else m
  end.

(** ** The control stream *)

Inductive ctrlType := ctrlHello | ctrlProbe | ctrlProbeEcho.

Record pathCtrlMsg := { c_Type : ctrlType; c_Seq : Z; c_TS : Z }.

(** [sent] is the outcome of writing the echo of a probe. *)
Definition handleCtrl (e : env) (msg : pathCtrlMsg) (sent : option goError) (i : positive)
  (m : pathManager) : pathManager :=
  match c_Type msg with
  | ctrlHello => upd i (λ p, p <| p_lastProbe := now_ms e |>) m
  | ctrlProbe =>
      let m := upd i (λ p, p <| p_lastProbe := now_ms e |>) m in
      match sent with Some err => demoteErr e i (Some err) m | None => m end
  | ctrlProbeEcho =>
      upd i (λ p,
        let p := p <| p_lastEcho := now_ms e |> <| p_probeMiss := 0 |> in
        if 0 <? c_TS msg then
          let rtt := time_sub (now e) (c_TS msg) in
          if 0 <? rtt then p <| p_rtt := rtt |> else p
        else p) m
  end.

(** ** Traffic *)

Definition touch (e : env) (p : directPath) : directPath := p <| p_lastUse := now_ms e |>.

(** A packet of [len] bytes taken from a send queue; [res] is the outcome of
    writing it. *)
Definition writeLoopStep (e : env) (len : Z) (res : option goError) (i : positive)
  (m : pathManager) : pathManager :=
  let m := upd i (λ p, p <| p_enqueued ::= λ n, wrap_u 64 (n + 1) |>) m in
  match res with
  | None => upd i (λ p, touch e (p <| p_bytesUp ::= λ b, wrap_u 64 (b + len) |>)) m
  | Some err => demoteErr e i (Some err) m
  end.

(** A frame read from a data stream: the plane's label, then the payload; what
    is delivered, if anything. *)
Definition readStreamStep (e : env) (pkt : list Z) (i : positive) (m : pathManager)
  : pathManager * option (list Z) :=
  match pkt with
  | plane :: ((_ :: _) as payload) =>
      if (plane <? planeTCP) || (planeICMP <? plane) then (m, None)
      else (upd i (λ p, touch e (p <| p_bytesDown ::= λ b, wrap_u 64 (b + Z.of_nat (length payload)) |>)) m,
            Some payload)
  | _ => (m, None)
  end.

(** A data or control stream fails to read. *)
Definition readFailed (e : env) (err : goError) (i : positive) (m : pathManager) : pathManager :=
  match path_at m i with
  | None => m
  | Some p => if alive p then demoteErr e i (Some err) m else m
  end.
