(* ===== verification/PathTrigger.v ===== *)
(** * Triggers: from a packet to an attempt ([path.go], 1005-1451)

    The hot path notes a destination, the scheduler gates it, and a goroutine
    per admitted destination queries the signalling service, gives way to the
    other side and starts the punch. What the host answers is an argument of
    each step. *)

From Stdlib Require Import ZArith Lia Bool String.
From stdpp Require Import base list gmap strings.
From S2P Require Import Prelude.
From S2P Require Import GoNet.
From S2P Require Import Reasons.
From S2P Require Import PeerTable.
From S2P Require Import GoFloat.
From S2P Require Import PathData.
From S2P Require Import Backoff.
From S2P Require Import PathCore.
From S2P Require Import PathTrial.

Open Scope string_scope.
Open Scope Z_scope.

(** ** The hot path *)

Definition prune_seen (t : time) (s : gmap ip4 time) : gmap ip4 time :=
  filter (λ kv, time_before t kv.2 = true) s.

Definition seenRecently (t : time) (dst : ip4) (m : pathManager) : pathManager * bool :=
  let hit := match m_triggerSeen m !! dst with
             | Some until => time_before t until
             | None => false
             end in
  if hit then (m, true)
  else (m <| m_triggerSeen ::= λ s, <[dst := time_add t triggerSeenTTL]> (prune_seen t s) |>, false).

Definition Observe (t : time) (dst : ip4) (m : pathManager) : pathManager :=
  match m_routes m !! dst with
  | Some _ => m
  | None =>
      let '(m, seen) := seenRecently t dst m in
      if seen then m
      else if (length (m_triggerCh m) <? triggerQueueLen)%nat
      then m <| m_triggerCh ::= λ q, (q ++ [dst])%list |>
      else m
  end.

Definition pruneTriggerSeen (t : time) (m : pathManager) : pathManager :=
  m <| m_triggerSeen ::= prune_seen t |>.

(** ** The signal gate *)

Definition putGate (t : time) (dst : ip4) (pass : bool) (ttl : duration) (m : pathManager)
  : pathManager := m <| m_gate ::= <[dst := {| g_pass := pass; g_until := time_add t ttl |}]> |>.

(** [answer]: the signalling query, its error's text on failure. *)
Definition gateCheck (t : time) (answer : SignalPeer + string) (dst : ip4) (m : pathManager)
  : pathManager * bool :=
  let cached := match m_gate m !! dst with
                | Some g => if time_before t (g_until g) then Some (g_pass g) else None
                | None => None
                end in
  match cached with
  | Some pass => (m, pass)
  | None =>
      let kept := List.filter (λ at_, time_sub t at_ <=? minute) (m_gateBudget m) in
      if (gateGlobalPerMin <=? length kept)%nat then (m <| m_gateBudget := kept |>, false)
      else
        let m := m <| m_gateBudget := (kept ++ [t])%list |> in
        match answer with
        | inr _ => (putGate t dst false gateFailBackoff m, false)
        | inl peer =>
            let m := notePeerPublicAddr dst (PublicAddr peer) m in
            if negb (Online peer) || negb (SignalReady peer)
            then (putGate t dst false gateNegativeTTL m, false)
            else (putGate t dst true gatePositiveTTL m, true)
        end
  end.

(** ** Giving way *)

(** The pending wait of a destination; an invitation ends it. *)
Definition registerTiebreak (dst : ip4) (m : pathManager) : pathManager :=
  m <| m_tiebreak ::= union {[dst]} |>.
Definition clearTiebreak (dst : ip4) (m : pathManager) : pathManager :=
  m <| m_tiebreak ::= λ s, s ∖ {[dst]} |>.

(** Whether a waiting attempt is woken. *)
Definition notifyInboundInvite (peerVIP : string) (m : pathManager) : pathManager * bool :=
  let '(dst, ok) := parseIPv4 peerVIP in
  if negb ok then (m, false)
  else (clearTiebreak dst m, bool_decide (dst ∈ m_tiebreak m)).

(** ** The scheduler *)

Record hostState := {
  h_p2pEnabled : bool;
  h_myVIP4 : option ip4;
  h_natProbeReady : bool }.

Definition offerForcedRetry (t : time) (dst : ip4) (m : pathManager)
  : pathManager * (bool * string * bool) :=
  match m_quality m with
  | None => (m, (false, "", false))
  | Some tbl =>
      let '(tbl, r) := Unpunchable t dst tbl in
      let m := m <| m_quality := Some tbl |> in
      match r with
      | None => (m, (false, "", false))
      | Some q => if ForcedRetryUsed q then (m, (false, ReasonCode q, true))
                  else (m, (true, ReasonCode q, false))
      end
  end.

(** What an admitted trigger hands to its goroutine. *)
Record attempt := {
  a_dst : ip4;
  a_peerVIP : string;
  a_myVIP : ip4;
  a_forcedOffer : bool;
  a_reason : string }.

Definition handleTrigger (t : time) (h : hostState) (dst : ip4) (m : pathManager)
  : pathManager * option attempt :=
  if negb (h_p2pEnabled h) then (m, None)
  else match h_myVIP4 h with
  | None => (m, None)
  | Some myVIP =>
      if bool_decide (myVIP = dst) then (m, None)
      else if isBroadcastOrMulticast4 dst then (m, None)
      else if negb (h_natProbeReady h) then (delayRetry t dst pathLocalNotReadyDelay m, None)
      else
        let peerVIP := ip4ToString dst in
        if bool_decide (peerVIP = "") then (m, None)
        else if match m_evictAfter m !! dst with Some u => time_before t u | None => false end
        then (m, None)
        else if match m_backoff m !! dst with Some st => time_before t (b_until st) | None => false end
        then (m, None)
        else if bool_decide (dst ∈ m_pending m) then (m, None)
        else
          let m := m <| m_pending ::= union {[dst]} |> in
          let '(m, (forcedOffer, skipReason, skip)) := offerForcedRetry t dst m in
          if skip then (m <| m_pending ::= λ s, s ∖ {[dst]} |>, None)
          else (m, Some {| a_dst := dst; a_peerVIP := peerVIP; a_myVIP := myVIP;
                           a_forcedOffer := forcedOffer; a_reason := skipReason |})
  end.

(** ** The attempt *)

Inductive tieOutcome := TieInvited | TieTimeout | TieCancelled.

(** The errors [punchWithTrigger] and the commit point return; [errors.Is]
    recognises the two sentinels through their wrapping. *)
Inductive punchErr :=
  | errPunchDupPath
  | errPunchCooldown (text : string)
  | errForcedRetryUsed
  | errOther (text : string).

Definition punchErr_text (err : punchErr) : string :=
  match err with
  | errPunchDupPath => "dup-path"
  | errPunchCooldown text | errOther text => text
  | errForcedRetryUsed => "强制重试机会已被用掉"
  end.

(** What the environment does during one attempt: the gate is consulted at
    [ae_gateNow], the wait ends in [ae_tie], the slot is obtained or the manager
    stops, the punch is committed at [ae_now]. *)
Record attemptEnv := {
  ae_gateNow : time;
  ae_answer : SignalPeer + string;
  ae_tie : tieOutcome;
  ae_slot : bool;
  ae_refresh : bool;
  ae_now : time;
  ae_punch : option punchErr }.

(** The body run with the semaphore held: re-probe a stale NAT, consume the
    forced retry, start the punch. [consumed] tells whether the retry was. *)
Definition commit_attempt (x : attemptEnv) (a : attempt) (m : pathManager)
  : pathManager * option punchErr * bool :=
  let '(m, stale) := takeNATStale m in
  let m := if stale && ae_refresh x then (resetAllBackoff m).1 else m in
  let '(m, ok) :=
    if a_forcedOffer a then
      match m_quality m with
      | Some tbl => let '(tbl, ok) := TryConsumeForcedRetry (ae_now x) (a_dst a) tbl in
                    (m <| m_quality := Some tbl |>, ok)
      | None => (m, true)
      end
    else (m, true) in
  if negb ok then (m, Some errForcedRetryUsed, false)
  else (m, ae_punch x, a_forcedOffer a).

Definition attemptFor (x : attemptEnv) (a : attempt) (m : pathManager) : pathManager :=
  let '(m, pass) := gateCheck (ae_gateNow x) (ae_answer x) (a_dst a) m in
  if negb pass then m
  else
    let yield_ := bytesGreater (a_myVIP a) (a_dst a) in
    let m := if yield_ then registerTiebreak (a_dst a) m else m in
    match (if yield_ then ae_tie x else TieTimeout) with
    | TieInvited => clearTiebreak (a_dst a) m
    | TieCancelled => m
    | TieTimeout =>
        let m := if yield_ then clearTiebreak (a_dst a) m else m in
        if negb (ae_slot x) then m
        else
          let '(m, err, consumed) := commit_attempt x a m in
          match err with
          | None => m
          | Some errPunchDupPath => m
          | Some errForcedRetryUsed => m
          | Some (errPunchCooldown _) => m
          | Some (errOther text) => setBackoffTransient (ae_now x) (a_dst a) (Some text) m
          end
    end.

(** The deferred cleanup of the goroutine. *)
Definition finish_attempt (a : attempt) (m : pathManager) : pathManager :=
  m <| m_pending ::= λ s, s ∖ {[a_dst a]} |>.
