(* ===== verification/PathSteps.v ===== *)
(** * Every step of the path manager keeps its invariant

    [step] has one rule per entry point of the manager and of a path's
    goroutines, [reachable] is its closure from a new manager. The file lifts
    the invariant of [PathInv] to all of them and draws the consequences for
    the data plane. *)

From Stdlib Require Import ZArith Lia Bool String.
From stdpp Require Import base list gmap strings.
From S2P Require Import Prelude.
From S2P Require Import GoNet.
From S2P Require Import Reasons.
From S2P Require Import PeerTable.
From S2P Require Import GoFloat.
From S2P Require Import PathData.
From S2P Require Import Backoff.
From S2P Require Import PathCore.
From S2P Require Import PathInv.
From S2P Require Import PathTrial.
From S2P Require Import PathTrigger.

Open Scope string_scope.
Open Scope Z_scope.

(** ** The watchdog's parts *)

(** A path that stays in the routing table. *)
Lemma routed_update_wf i p p' m :
  wf m → path_at m i = Some p → routed (p_state p) = true → routed (p_state p') = true →
  p_peer p' = p_peer p → path_ok p' → wf (set_path i p' m).
Proof.
  intros Hwf Hp Hr Hr' Hpeer Hok.
  assert (m_routes m !! p_peer p = Some i) as Hslot by (apply (wf_routes _ Hwf); eauto).
  assert (wf (move i p' m)) as Hm.
  { apply (wf_move i p); [done..|by right|]. intros Ho. by apply routed_not_on_trial in Hr'; congruence. }
  refine (proj1 (wf_same _ _ _) Hm). constructor; cbn; try done.
  - rewrite Hr', Hpeer. by apply insert_id.
  - rewrite (routed_not_on_trial _ Hr'), Hpeer.
    by apply drop_trial_id; [..|apply routed_not_on_trial].
Qed.

Lemma routed_all_flags p :
  path_ok p → routed (p_state p) = true →
  p_closed p = false ∧ p_untracked p = true ∧ p_trialDone p = true ∧ p_terminated p = false ∧
  p_settled p = false.
Proof.
  intros Hok Hr. destruct (routed_flags p Hok Hr) as [Hc Hu].
  assert (p_state p ≠ pathStateDown ∧ p_state p ≠ pathStateTrial) as [Hd Ht] by (by destruct (p_state p)).
  split_and!; [done..| | |].
  - rewrite (ok_trialDone _ Hok). by rewrite bool_decide_false.
  - destruct (p_terminated p) eqn:E; [|done]. by apply (ok_terminated _ Hok) in E.
  - destruct (p_settled p) eqn:E; [|done]. by apply (ok_settled _ Hok) in E.
Qed.

Lemma enterStandby_wf e i m : wf m → wf (enterStandby e i m).1.
Proof.
  intros Hwf. unfold enterStandby. destruct (path_at m i) as [p|] eqn:Hp; [|done].
  destruct (decide (p_state p = pathStateUp)) as [Hs|Hs]; [|by rewrite bool_decide_false].
  rewrite bool_decide_true by done. cbn [negb fst]. rewrite emit_same, (upd_set _ _ _ _ Hp).
  apply (routed_update_wf i p); [done..|by rewrite Hs|done|done|].
  destruct (routed_all_flags p (wf_paths _ Hwf _ _ Hp)) as (? & ? & ? & ? & ?); [by rewrite Hs|].
  constructor; cbn; try done; congruence.
Qed.

Lemma exitStandby_wf e i m : wf m → wf (exitStandby e i m).1.
Proof.
  intros Hwf. unfold exitStandby. destruct (path_at m i) as [p|] eqn:Hp; [|done].
  destruct (decide (p_state p = pathStateStandby)) as [Hs|Hs]; [|by rewrite bool_decide_false].
  rewrite bool_decide_true by done. cbn [negb fst]. rewrite emit_same, (upd_set _ _ _ _ Hp).
  apply (routed_update_wf i p); [done..|by rewrite Hs|done|done|].
  destruct (routed_all_flags p (wf_paths _ Hwf _ _ Hp)) as (? & ? & ? & ? & ?); [by rewrite Hs|].
  constructor; cbn; try done; congruence.
Qed.

(** An assignment to fields the invariant does not read. *)
Definition inert (f : directPath → directPath) : Prop :=
  ∀ p, p_state (f p) = p_state p ∧ p_peer (f p) = p_peer p ∧ p_closed (f p) = p_closed p ∧
       p_untracked (f p) = p_untracked p ∧ p_trialDone (f p) = p_trialDone p ∧
       p_terminated (f p) = p_terminated p ∧ p_settled (f p) = p_settled p ∧
       p_stableSince (f p) = p_stableSince p ∧
       (is_Some (p_connCause p) → is_Some (p_connCause (f p))).

Lemma inert_wf i f m : inert f → wf m → wf (upd i f m).
Proof.
  intros Hf Hwf. apply upd_wf; [done|]. intros p _ [].
  destruct (Hf p) as (E1 & E2 & E3 & E4 & E5 & E6 & E7 & E8 & E9).
  split; [|done]. constructor; rewrite ?E1, ?E3, ?E4, ?E5, ?E6, ?E7, ?E8; auto.
Qed.

Ltac inert := let q := fresh "q" in intros q; cbn; split_and!; done || (intros [? E]; rewrite ?E; by eexists).

Lemma trialSampleStep_inert e c : inert (trialSampleStep e c).
Proof. intros p. unfold trialSampleStep. cbv zeta. repeat case_match; cbn; split_and!; done. Qed.

Lemma health_inert e c : inert (checkDataPlaneHealth e c).
Proof. intros p. unfold checkDataPlaneHealth. cbv zeta. repeat case_match; cbn; split_and!; done. Qed.

Lemma noteTrialRelayRtt_inert v : inert (λ p, noteTrialRelayRtt v (p <| p_relayRtt := v |>)).
Proof. intros p. unfold noteTrialRelayRtt. case_match; cbn; split_and!; done. Qed.

#[export] Hint Resolve inert_wf trialSampleStep_inert health_inert noteTrialRelayRtt_inert
  enterStandby_wf exitStandby_wf : go.

Lemma refreshRelayRTT_wf e a i m : wf m → wf (refreshRelayRTT e a i m).
Proof.
  intros Hwf. unfold refreshRelayRTT.
  assert (wf (upd i (λ p, p <| p_relayRttTriedAt := now_ms e |>) m)) as H1
    by (apply inert_wf; [inert|done]).
  destruct a as [peer|]; [|done].
  set (m2 := match path_at _ i with Some _ => _ | None => _ end).
  assert (wf m2) as H2.
  { unfold m2. destruct (path_at _ i) as [p|]; [|done].
    destruct (parseIPv4 (p_peerVIP p)) as [d [|]]; [|done]. by rewrite notePeerPublicAddr_same. }
  case_match; auto with go.
Qed.

Lemma judge_standby_wf e st i m : wf m → wf (judge_standby e st i m).
Proof.
  intros Hwf. unfold judge_standby. destruct (path_at m i) as [p|]; [|done]. cbv zeta.
  repeat case_match; try done; try (apply enterStandby_wf || apply exitStandby_wf);
    try (apply inert_wf; [inert|]); done.
Qed.

Lemma evalStandby_wf e a i m : wf m → wf (evalStandby e a i m).
Proof.
  intros Hwf. unfold evalStandby. destruct (path_at m i) as [p|]; [|done].
  case_match; [done|]. apply judge_standby_wf. case_match; [by apply refreshRelayRTT_wf|done].
Qed.

Lemma evalTrial_wf e i m : wf m → wf (evalTrial e i m).
Proof.
  intros Hwf. unfold evalTrial. destruct (path_at m i) as [p|]; [|done]. cbv zeta.
  assert (wf (upd i (trialSampleStep e (m_cfg m)) m)) as H1 by auto with go.
  repeat case_match; auto using tryPassTrial_wf, tryFailTrial_wf.
Qed.

Lemma maybeClear_wf e i m : wf m → wf (maybeClearFailuresAfterStable e i m).
Proof.
  intros Hwf. unfold maybeClearFailuresAfterStable. destruct (path_at m i) as [p|]; [|done].
  cbv zeta.
  assert (wf (upd i (λ p, p <| p_lastStableCheck := now_ms e |>) m)) as H1
    by (apply inert_wf; [inert|done]).
  repeat case_match; try done; by rewrite resetBackoffFor_same.
Qed.

Lemma checkEcho_wf e i m : wf m → wf (checkEcho e i m).
Proof.
  intros Hwf. unfold checkEcho. destruct (path_at m i) as [p|]; [|done]. cbv zeta.
  repeat case_match; try done; try apply demoteWith_wf; (apply inert_wf; [inert|done]).
Qed.

Lemma watchCheck_wf e a i m : wf m → wf (watchCheck e a i m).
Proof.
  intros Hwf. unfold watchCheck. destruct (path_at m i) as [p|]; [|done].
  case_match; [done|]. cbv zeta.
  apply checkEcho_wf, maybeClear_wf, inert_wf; [inert|]. apply evalTrial_wf, evalStandby_wf.
  auto with go.
Qed.

Lemma watchProbe_wf e sent i m : wf m → wf (watchProbe e sent i m).
Proof.
  intros Hwf. unfold watchProbe. destruct (path_at m i) as [p|]; [|done].
  case_match; [done|]. case_match; try apply demoteWith_wf; (apply inert_wf; [inert|done]).
Qed.

Lemma watchConnDone_wf e c i m : wf m → wf (watchConnDone e c i m).
Proof.
  intros Hwf. unfold watchConnDone. cbv zeta.
  set (m1 := upd i _ m). assert (wf m1) as H1 by (apply inert_wf; [inert|done]).
  destruct (path_at m1 i); [|done]. case_match; auto with go. by apply demoteWith_wf.
Qed.

Lemma handleCtrl_wf e msg sent i m : wf m → wf (handleCtrl e msg sent i m).
Proof.
  intros Hwf. unfold handleCtrl. destruct (c_Type msg); cbv zeta.
  - apply inert_wf; [inert|done].
  - case_match; try apply demoteWith_wf; (apply inert_wf; [inert|done]).
  - apply inert_wf; [|done]. intros p. repeat case_match; cbn; split_and!; done.
Qed.

Lemma writeLoopStep_wf e len res i m : wf m → wf (writeLoopStep e len res i m).
Proof.
  intros Hwf. unfold writeLoopStep. cbv zeta.
  case_match; try apply demoteWith_wf; repeat (apply inert_wf; [inert|]); done.
Qed.

Lemma readStreamStep_wf e pkt i m : wf m → wf (readStreamStep e pkt i m).1.
Proof.
  intros Hwf. unfold readStreamStep. destruct pkt as [|x [|y l]]; try done.
  case_match; cbn [fst]; [done|]. apply inert_wf; [inert|done].
Qed.

Lemma readFailed_wf e err i m : wf m → wf (readFailed e err i m).
Proof.
  intros Hwf. unfold readFailed. destruct (path_at m i); [|done]. case_match; [|done].
  by apply demoteWith_wf.
Qed.

(** ** Triggers touch no table *)

Lemma seenRecently_same t d m : same_tables (seenRecently t d m).1 m.
Proof. unfold seenRecently. cbv zeta. by case_match. Qed.

Lemma Observe_same t d m : same_tables (Observe t d m) m.
Proof.
  unfold Observe. case_match; [done|]. pose proof (seenRecently_same t d m) as Hseen.
  destruct (seenRecently t d m) as [m1 seen]. cbn in *. repeat case_match; try done.
  etrans; [|exact Hseen]. done.
Qed.

Lemma gateCheck_same t a d m : same_tables (gateCheck t a d m).1 m.
Proof.
  assert (∀ addr l, same_tables (notePeerPublicAddr d addr (m <| m_gateBudget := l |>)) m) as H
    by (intros addr l; by rewrite notePeerPublicAddr_same).
  unfold gateCheck. cbv zeta. destruct (match m_gate m !! d with Some _ => _ | None => _ end); [done|].
  case_match; [done|]. destruct a as [peer|]; [|done].
  case_match; unfold putGate; cbn [fst]; (etrans; [|apply H]); done.
Qed.

Lemma delayRetry_same t d dl m : same_tables (delayRetry t d dl m) m.
Proof. done. Qed.

Lemma handleTrigger_same t h d m : same_tables (handleTrigger t h d m).1 m.
Proof.
  unfold handleTrigger, offerForcedRetry. cbv zeta.
  repeat (case_match; simplify_eq; cbn [fst] in *; try done).
Qed.

Lemma commit_attempt_same x a m : same_tables (commit_attempt x a m).1.1 m.
Proof.
  unfold commit_attempt, takeNATStale. repeat (case_match; simplify_eq; cbn [fst] in *; try done).
Qed.

Lemma attemptFor_same x a m : same_tables (attemptFor x a m) m.
Proof.
  unfold attemptFor. pose proof (gateCheck_same (ae_gateNow x) (ae_answer x) (a_dst a) m) as H.
  destruct (gateCheck _ _ _ m) as [m1 pass]. cbn in H. destruct pass; cbn [negb]; [|done].
  cbv zeta. set (m2 := if bytesGreater (a_myVIP a) (a_dst a) then registerTiebreak (a_dst a) m1 else m1).
  assert (same_tables m2 m1) as H2 by (unfold m2; by case_match).
  destruct (if bytesGreater (a_myVIP a) (a_dst a) then ae_tie x else TieTimeout).
  - etrans; [|exact H]. etrans; [|exact H2]. done.
  - set (m3 := if bytesGreater (a_myVIP a) (a_dst a) then clearTiebreak (a_dst a) m2 else m2).
    assert (same_tables m3 m2) as H3 by (unfold m3; by case_match).
    case_match; [by rewrite H3, H2|].
    pose proof (commit_attempt_same x a m3) as H4.
    destruct (commit_attempt x a m3) as [[m4 err] c]. cbn in H4.
    assert (same_tables m4 m) as H5 by (by rewrite H4, H3, H2).
    destruct err as [[]|]; try done. unfold setBackoffTransient. by rewrite put_backoff_same.
  - by rewrite H2.
Qed.

(** ** Steps *)

Inductive step : pathManager → pathManager → Prop :=
  | step_established e paths req m :
      is_snapshot m paths → step m (handleEstablished e paths req m)
  | step_watchCheck e answer i m : step m (watchCheck e answer i m)
  | step_watchProbe e sent i m : step m (watchProbe e sent i m)
  | step_connDone e cause i m : step m (watchConnDone e cause i m)
  | step_ctrl e msg sent i m : step m (handleCtrl e msg sent i m)
  | step_write e len res i m : step m (writeLoopStep e len res i m)
  | step_read e pkt i m : step m (readStreamStep e pkt i m).1
  | step_readFailed e err i m : step m (readFailed e err i m)
  | step_demote e i reason m : step m (demote e i reason m)
  | step_done e i m : step m (Done e i m)
  | step_reuse e i m : step m (reuseRejected e i m).1
  | step_release e i m : step m (releaseRejected e i m)
  | step_evictIdle e paths trials m :
      is_snapshot m paths → is_trial_snapshot m trials → step m (evictIdle e paths trials m)
  | step_pruneDead m : step m (pruneDeadRegistrations m)
  | step_pruneSeen t m : step m (pruneTriggerSeen t m)
  | step_clearAll e paths trials reason m :
      is_snapshot m paths → is_trial_snapshot m trials → step m (ClearAll e paths trials reason m)
  | step_close e paths trials m :
      is_snapshot m paths → is_trial_snapshot m trials → step m (closeManager e paths trials m)
  | step_punchFailed t vip reason m : step m (onPunchFailed t vip reason m)
  | step_punchSucceeded vip m : step m (onPunchSucceeded vip m)
  | step_resetAll m : step m (resetAllBackoff m).1
  | step_observe t dst m : step m (Observe t dst m)
  | step_trigger t h dst m : step m (handleTrigger t h dst m).1
  | step_attempt x a m : step m (attemptFor x a m)
  | step_finish a m : step m (finish_attempt a m)
  | step_invite vip m : step m (notifyInboundInvite vip m).1
  | step_setQuality tbl m : step m (m <| m_quality := Some tbl |>).

Inductive reachable (cfg : params) : pathManager → Prop :=
  | reach_init : reachable cfg (newPathManager cfg)
  | reach_step m m' : reachable cfg m → step m m' → reachable cfg m'.

Lemma notifyInboundInvite_same vip m : same_tables (notifyInboundInvite vip m).1 m.
Proof. unfold notifyInboundInvite. by destruct (parseIPv4 vip) as [d [|]]. Qed.

Lemma step_wf m m' : step m m' → wf m → wf m'.
Proof.
  intros [] Hwf; auto using watchCheck_wf, watchProbe_wf, watchConnDone_wf, handleCtrl_wf,
    writeLoopStep_wf, readStreamStep_wf, readFailed_wf, demoteWith_wf, reuseRejected_wf,
    releaseRejected_wf, evictIdle_wf, ClearAll_wf, closeManager_wf, handleEstablished_wf.
  all: first [ by apply demoteWith_wf | by rewrite (prune_same _ Hwf) | by rewrite onPunchFailed_same
             | by rewrite onPunchSucceeded_same | by rewrite Observe_same
             | by rewrite handleTrigger_same | by rewrite attemptFor_same
             | by rewrite notifyInboundInvite_same | done
             | refine (proj1 (wf_same _ _ _) Hwf); done ].
Qed.

Lemma reachable_wf cfg m : reachable cfg m → wf m.
Proof. induction 1 as [|m m' _ IH Hs]; [apply new_wf|by eapply step_wf]. Qed.
#[export] Hint Resolve reachable_wf : go.

(** A connection that is not released is in exactly one table. *)
Lemma open_path_registered m i p :
  wf m → path_at m i = Some p → p_closed p = false →
  (m_routes m !! p_peer p = Some i ∧ i ∉ trials_of m (p_peer p)) ∨
  (i ∈ trials_of m (p_peer p) ∧ m_routes m !! p_peer p ≠ Some i).
Proof.
  intros Hwf Hp Hc. pose proof (wf_paths _ Hwf _ _ Hp) as Hok.
  assert (p_state p ≠ pathStateDown) as Hd by (by apply down_flags).
  assert (routed (p_state p) = true ∨ on_trial (p_state p) = true) as [Hr|Ho].
  { destruct (ok_state _ Hok). destruct (p_state p); auto; done. }
  - left. split; [apply (wf_routes _ Hwf); eauto|]. intros Hin.
    apply (wf_trials _ Hwf) in Hin as (q & Hq & _ & Hoq). unfold path_at in Hp. simplify_eq.
    apply routed_not_on_trial in Hr. congruence.
  - right. split; [apply (wf_trials _ Hwf); eauto|]. intros Hin.
    apply (wf_routes _ Hwf) in Hin as (q & Hq & _ & Hrq). unfold path_at in Hp. simplify_eq.
    apply routed_not_on_trial in Hrq. congruence.
Qed.

(** ** Theorems *)

(** C4: In every manager reached by operations each of which runs as a whole, the routing table holds exactly the paths
    that are up or in standby and the trial table exactly those on trial or
    rejected, each path under its own peer and at most once; the transient
    states never show; a path is closed exactly when it is down, its
    registration is gone exactly when it left the trial table, and its verdict
    is settled exactly when it is not on trial. (What critical sections of two operations can do to each
    other when they overlap is the subject of [PathRace].) *)
Theorem manager_invariant cfg m : reachable cfg m → wf m.
Proof. apply reachable_wf. Qed.

(** The hot path only ever hands out a queue of a live, unreleased
    connection to the very destination asked for, that has passed its trial;
    and it is the only path to that destination that is up or in standby. *)
Theorem sinkFor_sound cfg m dst plane q :
  reachable cfg m → sinkFor m dst plane = Some q →
  ∃ i p, q = streamTx i (planeStream plane) ∧ path_at m i = Some p ∧ p_peer p = dst ∧
    p_state p = pathStateUp ∧ p_closed p = false ∧ p_trialDone p = true ∧
    ∀ j p', path_at m j = Some p' → p_peer p' = dst → routed (p_state p') = true → j = i.
Proof.
  intros Hwf%reachable_wf. unfold sinkFor. destruct (m_routes m !! dst) as [i|] eqn:Hr; [|done].
  destruct (path_at m i) as [p|] eqn:Hp; [|done]. case_bool_decide as Hs; [|done].
  intros [= <-]. exists i, p.
  destruct (proj1 (wf_routes _ Hwf _ _) Hr) as (p0 & Hp0 & Hpeer & _).
  unfold path_at in Hp. rewrite Hp in Hp0. injection Hp0 as <-.
  destruct (routed_all_flags p (wf_paths _ Hwf _ _ Hp)) as (? & _ & ? & _); [by rewrite Hs|].
  split_and!; [done..|]. intros j p' Hj Hpj Hrj.
  assert (m_routes m !! dst = Some j) as Hj' by (apply (wf_routes _ Hwf); eauto). congruence.
Qed.

(** No connection leaks. In every reachable manager a connection that is
    not released is registered in exactly one of the two tables, so the shutdown,
    which walks both, leaves every path released and both tables empty. *)
Theorem shutdown_releases_everything cfg e paths trials m :
  reachable cfg m → is_snapshot m paths → is_trial_snapshot m trials →
  let m' := closeManager e paths trials m in
  m_routes m' = ∅ ∧ m_trialPaths m' = ∅ ∧
  ∀ i p, path_at m' i = Some p → p_closed p = true ∧ p_state p = pathStateDown.
Proof.
  intros Hwf%reachable_wf Hp Ht. cbn.
  pose proof (closeManager_wf e paths trials m Hwf Hp Ht) as Hwf'.
  set (m' := closeManager e paths trials m) in *.
  assert (∀ i p, path_at m' i = Some p → p_state p = pathStateDown) as Hdown.
  { intros i p Hi. pose proof (shutdown_states e paths trials m Hwf Hp Ht i p Hi). done. }
  split_and!.
  - apply map_empty. intros d. destruct (m_routes m' !! d) as [i|] eqn:E; [|done].
    apply (wf_routes _ Hwf') in E as (p & Hi & _ & Hr). by rewrite (Hdown i p Hi) in Hr.
  - apply map_empty. intros d. destruct (m_trialPaths m' !! d) as [[|i l]|] eqn:E; [..|done].
    + by apply (wf_nonempty _ Hwf') in E.
    + assert (i ∈ trials_of m' d) as Hin by (unfold trials_of; rewrite E; by left).
      apply (wf_trials _ Hwf') in Hin as (p & Hi & _ & Ho). by rewrite (Hdown i p Hi) in Ho.
  - intros i p Hi. split; [|by eapply Hdown].
    rewrite (ok_closed _ (wf_paths _ Hwf' _ _ Hi)), (Hdown i p Hi). done.
Qed.

(** ** A concrete run

    A connection to [peer1] is established at [t0]; the relay is said to take
    50 ms, the probes sent every 5 s come back after 40 ms, the watchdog ticks
    every second. The trial passes at the eleventh second. *)

Definition me : ip4 := (10, 0, 0, 9).
Definition t0 : time := 1000 * second.
Definition at_ms (ms : Z) : env := {| now := t0 + ms * millisecond; hostRTT := 0 |}.

Definition demo_req : establishedReq :=
  {| r_peerVIP := "10.0.0.1"; r_peer := peer1; r_role := pathRoleResponder; r_myVIP := me;
     r_rttDirect := 40 * millisecond; r_rttQuic := 0; r_scoutWindowMs := 0 |}.

Definition demo_answer : option SignalPeer :=
  Some {| Online := true; SignalReady := true; PublicAddr := "1.2.3.4:5"; RelayRTTMs := 50 |}.

Definition demo_tick (m : pathManager) (ms : Z) : pathManager := watchCheck (at_ms ms) demo_answer 1 m.
Definition demo_ticks (l : list Z) (m : pathManager) : pathManager := foldl demo_tick m l.
Definition demo_echo (ms : Z) (m : pathManager) : pathManager :=
  handleCtrl (at_ms (ms + 40)) {| c_Type := ctrlProbeEcho; c_Seq := 1; c_TS := now (at_ms ms) |} None 1 m.

Definition demo_trial : pathManager :=
  handleEstablished (at_ms 0) [] demo_req (newPathManager defaultParams).
Definition demo_up : pathManager :=
  demo_ticks [11000] (demo_echo 10000 (demo_ticks [6000; 7000; 8000; 9000; 10000]
    (demo_echo 5000 (demo_ticks [1000; 2000; 3000; 4000; 5000] demo_trial)))).

Example demo_states :
  state_of demo_trial 1 = Some pathStateTrial ∧ state_of demo_up 1 = Some pathStateUp ∧
  m_routes demo_up !! peer1 = Some 1%positive ∧ st_State <$> m_events demo_up = ["trial"; "direct"].
Proof. vm_compute. auto. Qed.

Lemma demo_ticks_reachable l m :
  reachable defaultParams m → reachable defaultParams (demo_ticks l m).
Proof.
  revert m. induction l as [|x l IH]; intros m H; [done|]. apply IH.
  eapply reach_step; [exact H|apply step_watchCheck].
Qed.

Lemma demo_echo_reachable ms m :
  reachable defaultParams m → reachable defaultParams (demo_echo ms m).
Proof. intros H. eapply reach_step; [exact H|apply step_ctrl]. Qed.

Lemma demo_up_reachable : reachable defaultParams demo_up.
Proof.
  apply demo_ticks_reachable, demo_echo_reachable, demo_ticks_reachable, demo_echo_reachable,
    demo_ticks_reachable.
  eapply reach_step; [apply reach_init|]. apply step_established.
  unfold is_snapshot. vm_compute. reflexivity.
Qed.

Lemma manager_invariant_witness : wf demo_up.
Proof. exact (manager_invariant defaultParams demo_up demo_up_reachable). Defined.

Lemma sinkFor_sound_witness :
  ∃ i p, txBulk 1 = streamTx i (planeStream planeTCP) ∧ path_at demo_up i = Some p ∧
    p_peer p = peer1 ∧ p_state p = pathStateUp ∧ p_closed p = false ∧ p_trialDone p = true ∧
    ∀ j p', path_at demo_up j = Some p' → p_peer p' = peer1 → routed (p_state p') = true → j = i.
Proof.
  apply (sinkFor_sound defaultParams demo_up peer1 planeTCP (txBulk 1) demo_up_reachable).
  vm_compute. reflexivity.
Defined.

Lemma shutdown_releases_everything_witness :
  let m' := closeManager (at_ms 20000) [1%positive] [] demo_up in
  m_routes m' = ∅ ∧ m_trialPaths m' = ∅ ∧
  ∀ i p, path_at m' i = Some p → p_closed p = true ∧ p_state p = pathStateDown.
Proof.
  apply (shutdown_releases_everything defaultParams (at_ms 20000) [1%positive] [] demo_up
           demo_up_reachable).
  - unfold is_snapshot. vm_compute. reflexivity.
  - unfold is_trial_snapshot. vm_compute. reflexivity.
Defined.
