(* ===== verification/PathArbitration.v ===== *)
(** * Arbitration: both ends keep the same connection ([path.go], 1878-1910,
    2733-2802)

    Two simultaneous punches between two hosts give two connections, on which
    each host plays opposite roles. Each host judges on its own, in whatever
    order the two trials pass there. *)

From Stdlib Require Import ZArith Lia Bool String.
From stdpp Require Import base list gmap strings.
From S2P Require Import Prelude.
From S2P Require Import GoNet.
From S2P Require Import Reasons.
From S2P Require Import PeerTable.
From S2P Require Import GoFloat.
From S2P Require Import PathData.
From S2P Require Import Backoff.
From S2P Require Import PathCore.
From S2P Require Import PathInv.
From S2P Require Import PathTrial.
From S2P Require Import PathTrigger.
From S2P Require Import PathSteps.

Open Scope string_scope.
Open Scope Z_scope.

Definition opposite (r : pathRole) : pathRole :=
  match r with pathRoleInitiator => pathRoleResponder | pathRoleResponder => pathRoleInitiator end.

(** The rule is symmetric: a connection is legitimate at one end exactly when
    it is at the other. *)
Lemma arbitration_symmetric a b r :
  ip4_ok a → ip4_ok b → a ≠ b → arbitrationKeeps b a r = arbitrationKeeps a b (opposite r).
Proof.
  intros Ha Hb Hne. unfold arbitrationKeeps. rewrite (bytesGreater_asym b a) by done.
  by destruct (bytesGreater a b), r.
Qed.

(** Of two connections with opposite roles exactly one is legitimate. *)
Lemma arbitration_exclusive a b r :
  arbitrationKeeps b a (opposite r) = negb (arbitrationKeeps b a r).
Proof. unfold arbitrationKeeps. by destruct (bytesGreater b a), r. Qed.

Definition keeps (p : directPath) : bool := arbitrationKeeps (p_peer p) (p_myVIP p) (p_role p).

(** [i] is on trial in [m] for the connection to [peer] with role [r]. *)
Definition on_trial_at (m : pathManager) (i : positive) (peer my : ip4) (r : pathRole) : Prop :=
  ∃ p, path_at m i = Some p ∧ p_peer p = peer ∧ p_myVIP p = my ∧ p_role p = r ∧
       p_state p = pathStateTrial.

(** How a table looks once a connection is in use and another one gone. *)
Definition settled_on (m : pathManager) (peer : ip4) (win lose : positive) : Prop :=
  m_routes m !! peer = Some win ∧ state_of m win = Some pathStateUp ∧
  ∃ p, path_at m lose = Some p ∧ p_state p = pathStateDown ∧ p_closed p = true.

Lemma routes_move_up e i p m d :
  m_routes (move i (up_path e p) m) !! d = if decide (p_peer p = d) then Some i else m_routes m !! d.
Proof.
  unfold move. cbn.
  destruct (decide (p_peer p = d)) as [<-|]; [by rewrite lookup_insert_eq|by rewrite lookup_insert_ne].
Qed.

(** The first to pass, in a free slot. *)
Lemma pass_first e i m p :
  wf m → path_at m i = Some p → p_state p = pathStateTrial → m_routes m !! p_peer p = None →
  same_tables (tryPassTrial e i m) (move i (up_path e p) m).
Proof.
  intros Hwf Hp Hs Hr.
  destruct (tryPassTrial_outcome e i m p Hwf Hp Hs) as (b & _ & [H E|j q H|j q H]); congruence || done.
Qed.

(** The second to pass: the legitimate one stays or takes the slot. *)
Lemma pass_second e1 e2 i j m p q :
  wf m → i ≠ j → path_at m i = Some p → path_at m j = Some q → p_peer q = p_peer p →
  p_state p = pathStateTrial → p_state q = pathStateTrial → m_routes m !! p_peer p = None →
  settled_on (tryPassTrial e2 j (tryPassTrial e1 i m)) (p_peer p)
    (if keeps p then i else j) (if keeps p then j else i).
Proof.
  intros Hwf Hij Hp Hq Hpeer Hsp Hsq Hr.
  pose proof (pass_first e1 i m p Hwf Hp Hsp Hr) as E1.
  set (m1 := tryPassTrial e1 i m) in *.
  assert (wf m1) as Hwf1 by (by apply tryPassTrial_wf).
  assert (path_at m1 j = Some q) as Hq1 by (rewrite E1, path_at_move, decide_False by done; done).
  assert (path_at m1 i = Some (up_path e1 p)) as Hp1
    by (rewrite E1, path_at_move, decide_True by done; done).
  assert (m_routes m1 !! p_peer q = Some i) as Hr1
    by (rewrite (same_routes _ _ E1), routes_move_up, decide_True by done; done).
  assert (keeps (up_path e1 p) = keeps p) as Hk by done.
  destruct (tryPassTrial_outcome e2 j m1 q Hwf1 Hq1 Hsq)
    as (b & _ & [H _|i' p' H Hp' Hne Ha E|i' p' H Hp' Hne Ha E]); [congruence|..].
  all: rewrite Hr1 in H; injection H as <-; rewrite Hp1 in Hp'; injection Hp' as <-.
  all: rewrite <- Hk; unfold keeps; rewrite Ha.
  - split; [|split].
    + rewrite (same_routes _ _ E), <- Hpeer. unfold move, set_path. cbn. unfold drop_route.
      rewrite bool_decide_false; [done|]. rewrite Hr1. congruence.
    + rewrite (same_state _ _ _ E). unfold state_of. rewrite path_at_move, decide_False by done.
      by rewrite Hp1.
    + eexists. rewrite E, path_at_move, decide_True by done. done.
  - split; [|split].
    + rewrite (same_routes _ _ E), routes_move_up, decide_True by done. done.
    + rewrite (same_state _ _ _ E). unfold state_of. by rewrite path_at_move, decide_True.
    + destruct (routed_flags (up_path e1 p) (wf_paths _ Hwf1 _ _ Hp1) eq_refl) as [Hc Hu].
      exists (closed_path e2 (up_path e1 p)). split; [|done].
      rewrite E, path_at_move, decide_False by done.
      rewrite (close_untracked e2 i m1 _ Hp1 Hc Hu), removeRoute_fst. unfold path_at, set_path. cbn.
      by rewrite lookup_insert_eq.
Qed.

(** The trials of [i] and [j] pass in one order or the other. *)
Definition pass_both (first_i : bool) (e1 e2 : env) (i j : positive) (m : pathManager)
  : pathManager :=
  if first_i then tryPassTrial e2 j (tryPassTrial e1 i m)
  else tryPassTrial e2 i (tryPassTrial e1 j m).

(** One end, either order: the legitimate connection wins. *)
Lemma pass_both_settles o e1 e2 i j m peer my r :
  wf m → i ≠ j → on_trial_at m i peer my r → on_trial_at m j peer my (opposite r) →
  m_routes m !! peer = None →
  let k := arbitrationKeeps peer my r in
  settled_on (pass_both o e1 e2 i j m) peer (if k then i else j) (if k then j else i).
Proof.
  intros Hwf Hij (p & Hp & <- & <- & <- & Hsp) (q & Hq & Hpq & Hmq & Hrq & Hsq) Hr. cbn.
  change (arbitrationKeeps (p_peer p) (p_myVIP p) (p_role p)) with (keeps p).
  assert (keeps q = negb (keeps p)) as Hk.
  { unfold keeps. rewrite Hpq, Hmq, Hrq. apply arbitration_exclusive. }
  unfold pass_both. destruct o.
  - by apply pass_second with (q := q).
  - rewrite <- Hpq.
    assert (settled_on (tryPassTrial e2 i (tryPassTrial e1 j m)) (p_peer q)
              (if keeps q then j else i) (if keeps q then i else j)) as H.
    { apply pass_second with (q := p); congruence || done. }
    rewrite Hk in H. by destruct (keeps p).
Qed.

(** C5: two hosts with different addresses, two connections between them on
    which they play opposite roles, both on trial at both ends. In whatever
    order the trials pass at each end, the two ends settle on the same one of
    the two connections: at each it is up and routed, and the other is closed. *)
Theorem arbitration_agrees oA oB eA1 eA2 eB1 eB2 mA mB a b r a1 a2 b1 b2 :
  ip4_ok a → ip4_ok b → a ≠ b → wf mA → wf mB → a1 ≠ a2 → b1 ≠ b2 →
  on_trial_at mA a1 b a r → on_trial_at mA a2 b a (opposite r) → m_routes mA !! b = None →
  on_trial_at mB b1 a b (opposite r) → on_trial_at mB b2 a b r → m_routes mB !! a = None →
  ∃ first : bool,
    settled_on (pass_both oA eA1 eA2 a1 a2 mA) b (if first then a1 else a2) (if first then a2 else a1) ∧
    settled_on (pass_both oB eB1 eB2 b1 b2 mB) a (if first then b1 else b2) (if first then b2 else b1).
Proof.
  intros Ha Hb Hne HwfA HwfB HijA HijB A1 A2 RA B1 B2 RB.
  exists (arbitrationKeeps b a r). split.
  - by apply (pass_both_settles oA eA1 eA2 a1 a2 mA b a r).
  - rewrite (arbitration_symmetric a b r) by done.
    apply (pass_both_settles oB eB1 eB2 b1 b2 mB a b (opposite r)); try done.
    by destruct r.
Qed.

(** ** Concrete instances *)

Definition hostA : ip4 := (10, 0, 0, 1).
Definition hostB : ip4 := (10, 0, 0, 2).

Definition establish (my peer : ip4) (role : pathRole) (m : pathManager) : pathManager :=
  handleEstablished (at_ms 0) [] {| r_peerVIP := ip4ToString peer; r_peer := peer; r_role := role;
    r_myVIP := my; r_rttDirect := 0; r_rttQuic := 0; r_scoutWindowMs := 0 |} m.

(** A host with two connections to the other on trial. *)
Definition two_trials (my peer : ip4) (r1 r2 : pathRole) : pathManager :=
  establish my peer r2 (establish my peer r1 (newPathManager defaultParams)).

Lemma establish_wf my peer role m : wf m → wf (establish my peer role m).
Proof. apply handleEstablished_wf. Qed.

Lemma two_trials_wf my peer r1 r2 : wf (two_trials my peer r1 r2).
Proof. apply establish_wf, establish_wf, new_wf. Qed.

Lemma arbitration_agrees_witness :
  ∃ first : bool,
    settled_on (pass_both true (at_ms 1) (at_ms 2) 1 2
      (two_trials hostA hostB pathRoleInitiator pathRoleResponder)) hostB
      (if first then 1 else 2)%positive (if first then 2 else 1)%positive ∧
    settled_on (pass_both false (at_ms 1) (at_ms 2) 1 2
      (two_trials hostB hostA pathRoleResponder pathRoleInitiator)) hostA
      (if first then 1 else 2)%positive (if first then 2 else 1)%positive.
Proof.
  apply (arbitration_agrees true false (at_ms 1) (at_ms 2) (at_ms 1) (at_ms 2)
           (two_trials hostA hostB pathRoleInitiator pathRoleResponder)
           (two_trials hostB hostA pathRoleResponder pathRoleInitiator) hostA hostB
           pathRoleInitiator).
  1,2: vm_compute; repeat split; discriminate.
  1,4,5: discriminate.
  1,2: apply two_trials_wf.
  all: first [ vm_compute; reflexivity
             | eexists; split; [vm_compute; reflexivity|vm_compute; repeat split] ].
Defined.

(** With equal roles the ends can part. Two connections on both of which
    the smaller address listens (a punch repeated by hand during the trial of
    the first) are both legitimate, so each end keeps the one whose trial
    passes first there; when the orders differ, A keeps the first connection
    and closes the second, B keeps the second and closes the first, and every
    connection is closed at one of its ends. *)
Theorem same_role_ends_diverge :
  settled_on (pass_both true (at_ms 1) (at_ms 2) 1 2
    (two_trials hostA hostB pathRoleInitiator pathRoleInitiator)) hostB 1 2 ∧
  settled_on (pass_both false (at_ms 1) (at_ms 2) 1 2
    (two_trials hostB hostA pathRoleResponder pathRoleResponder)) hostA 2 1.
Proof. split; (split; [|split]); try (vm_compute; reflexivity); eexists; vm_compute; auto. Qed.
