(* ===== verification/PathQuality.v ===== *)
(** * What the quality judgements guarantee

    The trial's sampling and settlement, the standby hysteresis, the death of a
    silent path and of a demoted one. *)

From Stdlib Require Import ZArith Lia Bool String.
From stdpp Require Import base list gmap strings.
From S2P Require Import Prelude.
From S2P Require Import GoNet.
From S2P Require Import Reasons.
From S2P Require Import PeerTable.
From S2P Require Import GoFloat.
From S2P Require Import PathData.
From S2P Require Import Backoff.
From S2P Require Import PathCore.
From S2P Require Import PathInv.
From S2P Require Import PathTrial.
From S2P Require Import PathTrigger.
From S2P Require Import PathSteps.

Open Scope string_scope.
Open Scope Z_scope.

(** ** Sampling *)

(** The instant the sampling gate counts from, and the gate's width. *)
Definition gate_from (p : directPath) : Z :=
  if p_trialLastSampleAt p =? 0 then p_trialStartedAt p else p_trialLastSampleAt p.
Definition gate_width (c : params) : duration :=
  if trialWindow c <? sample_step c then trialWindow c else sample_step c.
Definition gate_open (e : env) (c : params) (p : directPath) : bool :=
  gate_width c <=? time_sub (now e) (of_milli (gate_from p)).
Definition new_echo (p : directPath) : bool := p_trialLastEcho p <? p_lastEcho p.

Lemma sample_skipped e c p :
  p_trialStartedAt p ≠ 0 → gate_open e c p && new_echo p = false →
  let p' := trialSampleStep e c p in
  p_trialSamples p' = p_trialSamples p ∧ p_trialGood p' = p_trialGood p ∧
  p_trialLastEcho p' = p_trialLastEcho p ∧ p_lastEcho p' = p_lastEcho p ∧
  p_trialStartedAt p' = p_trialStartedAt p ∧ gate_from p' = gate_from p.
Proof.
  intros Hs Hno. unfold gate_open, new_echo, gate_width, gate_from in *.
  unfold trialSampleStep. cbv zeta. rewrite (proj2 (Z.eqb_neq _ _) Hs).
  destruct (p_trialLastSampleAt p =? 0) eqn:E0.
  - destruct (Z.ltb_spec (time_sub (now e) (of_milli (p_trialStartedAt p)))
      (if trialWindow c <? sample_step c then trialWindow c else sample_step c)).
    + cbn. rewrite (proj2 (Z.eqb_neq _ _) Hs). by rewrite ?E0.
    + rewrite (proj2 (Z.leb_le _ _)) in Hno by lia. cbn in Hno. apply Z.ltb_ge in Hno.
      cbn. rewrite (proj2 (Z.leb_le _ _) Hno). cbn. rewrite (proj2 (Z.eqb_neq _ _) Hs). by rewrite ?E0.
  - destruct (Z.ltb_spec (time_sub (now e) (of_milli (p_trialLastSampleAt p)))
      (if trialWindow c <? sample_step c then trialWindow c else sample_step c)); [by rewrite E0|].
    rewrite (proj2 (Z.leb_le _ _)) in Hno by lia. cbn in Hno. apply Z.ltb_ge in Hno.
    rewrite (proj2 (Z.leb_le _ _) Hno). by rewrite E0.
Qed.

Lemma sample_taken e c p :
  p_trialStartedAt p ≠ 0 → gate_open e c p && new_echo p = true →
  let p' := trialSampleStep e c p in
  p_trialSamples p' = p_trialSamples p + 1 ∧
  p_trialGood p' = p_trialGood p + (if trialSampleGood (p_rtt p) (p_trialRelayRtt p) f_1_0 then 1 else 0) ∧
  p_trialLastEcho p' = p_lastEcho p ∧ p_lastEcho p' = p_lastEcho p ∧
  p_trialStartedAt p' = p_trialStartedAt p ∧ p_trialLastSampleAt p' = now_ms e.
Proof.
  intros Hs [Hg Hn]%andb_true_iff. unfold gate_open, new_echo, gate_width, gate_from in *.
  apply Z.leb_le in Hg. pose proof Hn as Hn'. apply Z.ltb_lt in Hn'.
  unfold trialSampleStep. cbv zeta. rewrite (proj2 (Z.eqb_neq _ _) Hs).
  rewrite (proj2 (Z.ltb_ge _ _) Hg).
  destruct (p_trialLastSampleAt p =? 0); cbn;
    rewrite (proj2 (Z.leb_gt _ _) Hn'), Hn; cbn;
    destruct (0 <? p_rtt p); cbn;
    destruct (trialSampleGood _ _ f_1_0); cbn; split_and!; lia || done.
Qed.

(** Ticks of the watchdog on a path on trial. *)
Definition sample_ticks (c : params) (es : list env) (p : directPath) : directPath :=
  foldl (λ p e, trialSampleStep e c p) p es.

(** The echo of a probe reaches the path. *)
Definition echo_at (ms : Z) (p : directPath) : directPath := p <| p_lastEcho := ms |>.

Lemma ticks_without_echo c es p :
  p_trialStartedAt p ≠ 0 → new_echo p = false →
  let p' := sample_ticks c es p in
  p_trialSamples p' = p_trialSamples p ∧ p_trialLastEcho p' = p_trialLastEcho p ∧
  p_trialStartedAt p' = p_trialStartedAt p ∧ gate_from p' = gate_from p ∧ p_rtt p' = p_rtt p.
Proof.
  unfold sample_ticks. revert p. induction es as [|e es IH]; intros p Hs Hn; [done|]. cbn [foldl].
  destruct (sample_skipped e c p Hs) as (H1 & _ & H3 & H4 & H5 & H6);
    [by rewrite Hn, andb_false_r|].
  destruct (IH (trialSampleStep e c p)) as (K1 & K2 & K3 & K4 & K5);
    [congruence|unfold new_echo in *; by rewrite H3, H4|].
  cbn in *. rewrite K1, K2, K3, K4, K5. split_and!; try done.
  unfold trialSampleStep. cbv zeta. repeat case_match; done.
Qed.

(** No sampling opportunity is lost to a tick that comes before the echo.
    However many ticks passed without a new echo, when an echo newer than the
    baseline arrives, the first tick a full gate after the last sample (or the
    start) records it: one more sample, judged by the measured round-trip time,
    and the gate counts from that tick. *)
Theorem echo_sampled_at_next_tick c es p ms e :
  p_trialStartedAt p ≠ 0 → new_echo p = false → p_trialLastEcho p < ms → gate_open e c p = true →
  let p' := trialSampleStep e c (echo_at ms (sample_ticks c es p)) in
  p_trialSamples p' = p_trialSamples p + 1 ∧ p_trialLastSampleAt p' = now_ms e ∧
  p_trialLastEcho p' = ms.
Proof.
  intros Hs Hn Hms Hg. destruct (ticks_without_echo c es p Hs Hn) as (H1 & H2 & H3 & H4 & _).
  cbv zeta. set (q := echo_at ms (sample_ticks c es p)).
  assert (p_trialStartedAt q ≠ 0 ∧ p_trialSamples q = p_trialSamples p ∧
          p_trialLastEcho q = p_trialLastEcho p ∧ gate_from q = gate_from p ∧ p_lastEcho q = ms)
    as (Q1 & Q2 & Q3 & Q4 & Q5).
  { unfold q, echo_at. cbn. split_and!; [by rewrite H3|done|done|exact H4|done]. }
  destruct (sample_taken e c q Q1) as (K1 & _ & K3 & _ & _ & K6).
  - apply andb_true_iff. split.
    + unfold gate_open in *. by rewrite Q4.
    + unfold new_echo. rewrite Q3, Q5. by apply Z.ltb_lt.
  - rewrite K1, K3, K6, Q2, Q5. done.
Qed.

(** *** How many samples fit *)

Inductive trialEvent := TTick (e : env) | TEcho (e : env) (rtt : Z).

Definition te_now (ev : trialEvent) : time := match ev with TTick e | TEcho e _ => now e end.

Definition trial_event (c : params) (ev : trialEvent) (p : directPath) : directPath :=
  match ev with
  | TTick e => trialSampleStep e c p
  | TEcho e rtt => (echo_at (now_ms e) p) <| p_rtt := rtt |>
  end.

Definition trial_events (c : params) (evs : list trialEvent) (p : directPath) : directPath :=
  foldl (λ p ev, trial_event c ev p) p evs.

Fixpoint events_clocked (from : time) (evs : list trialEvent) : Prop :=
  match evs with
  | [] => True
  | ev :: evs => from <= te_now ev ∧ events_clocked (te_now ev) evs
  end.

Definition last_event (from : time) (evs : list trialEvent) : time :=
  default from (te_now <$> last evs).

(** Samples are at least a gate apart, and a good sample is a sample. *)
Definition spaced (k : Z) (started : Z) (p : directPath) : Prop :=
  p_trialStartedAt p = started ∧ started + k * p_trialSamples p <= gate_from p ∧
  0 <= p_trialGood p <= p_trialSamples p.

Lemma spaced_event c k started ev p :
  0 < started → 0 < k → gate_width c = k * millisecond → gate_width c < int64_max →
  spaced k started p → 0 < te_now ev → spaced k started (trial_event c ev p).
Proof.
  intros Hst Hk Hw Hmax (Hs & Hsp & Hg) Hnow. destruct ev as [e|e rtt]; [|done]. cbn [trial_event].
  assert (p_trialStartedAt p ≠ 0) as Hne by lia.
  destruct (gate_open e c p && new_echo p) eqn:Hb.
  - destruct (sample_taken e c p Hne Hb) as (H1 & H2 & _ & _ & H5 & H6).
    apply andb_true_iff in Hb as [Hb _]. unfold gate_open in Hb. apply Z.leb_le in Hb.
    rewrite Hw in *.
    assert (now e - of_milli (gate_from p) >= k * millisecond) as Hd.
    { unfold time_sub, int64_min, int64_max, millisecond in *. lia. }
    assert (gate_from p + k <= now_ms e) as Hms.
    { unfold now_ms, unix_milli. unfold of_milli, millisecond in *.
      apply Z.div_le_lower_bound; lia. }
    assert (0 <= k * p_trialSamples p) as Hks by nia.
    unfold spaced, gate_from at 1. rewrite H1, H2, H5, H6.
    assert (now_ms e ≠ 0) as Hnz by lia.
    rewrite (proj2 (Z.eqb_neq _ _) Hnz). case_match; split_and!; nia.
  - destruct (sample_skipped e c p Hne Hb) as (H1 & H2 & _ & _ & H5 & H6).
    unfold spaced. rewrite H1, H2, H5, H6. done.
Qed.

(** A trial never counts more samples than gates fit in its duration: on
    any interleaving of ticks and echoes from the start of the trial, [n]
    samples mean that at least [n] gate widths passed up to the last sample,
    and at most [n] of them are good. With the program's parameters (a gate of
    5 s, a window of 15 s) that is the "at most three samples, two of them
    good". *)
Theorem samples_fit_window c e0 req evs k :
  0 < now_ms e0 → 0 < k → gate_width c = k * millisecond → gate_width c < int64_max →
  Forall (λ ev, 0 < te_now ev) evs →
  let p := trial_events c evs (newDirectPath e0 c req) in
  now_ms e0 + k * p_trialSamples p <= gate_from p ∧ 0 <= p_trialGood p <= p_trialSamples p.
Proof.
  intros Hst Hk Hw Hmax Hpos. cbv zeta.
  assert (spaced k (now_ms e0) (newDirectPath e0 c req)) as H0
    by (split_and!; cbn; try done; unfold gate_from; cbn; lia).
  unfold trial_events. revert H0. generalize (newDirectPath e0 c req).
  induction Hpos as [|ev evs Hev Hevs IH]; intros p Hp.
  - by destruct Hp as (_ & ? & ?).
  - apply IH. by apply spaced_event.
Qed.

(** ** The verdict on a sample *)

(** A sample is good exactly when both round-trip times are known, the
    direct one is below six fifths of the relay's (the floating-point product
    by 1.2 rounds to that integer quotient for every relay time below 13 days),
    and the probe came back. *)
Theorem sample_good_exact d r :
  r < 2 ^ 50 →
  (trialSampleGood d r f_1_0 = true ↔ 0 < r ∧ 0 < d ∧ d < 6 * r / 5) ∧
  trialSampleGood d r f_0_0 = false.
Proof.
  intros Hr. unfold trialSampleGood, trialRTTRatio, trialMinProbeSuccess. split.
  - destruct (Z.leb_spec r 0), (Z.leb_spec d 0); cbn [orb]; [lia..| |]; try (split; [done|lia]).
    rewrite scale_1_2 by lia. change (fle f_0_9 f_1_0) with true. rewrite andb_true_r, Z.ltb_lt. lia.
  - case_match; [done|]. change (fle f_0_9 f_0_0) with false. apply andb_false_r.
Qed.

(** ** The trial settles *)

(** The outcome of one tick for a path on trial. *)
Inductive trial_outcome (e : env) (i : positive) (p : directPath) (m m' : pathManager) : Prop :=
  | trial_passed b :
      trialGoodEnough (m_cfg m) p = true → install_outcome e i p m m' b →
      trial_outcome e i p m m'
  | trial_rejected :
      trialGoodEnough (m_cfg m) p = false →
      trialWindow (m_cfg m) <= time_sub (now e) (of_milli (p_trialStartedAt p)) →
      scoutTearDownHeuristic e (m_cfg m) p = false →
      same_tables m' (set_path i (rejected_path e p) m) → trial_outcome e i p m m'
  | trial_scouted :
      trialGoodEnough (m_cfg m) p = false →
      trialWindow (m_cfg m) <= time_sub (now e) (of_milli (p_trialStartedAt p)) →
      scoutTearDownHeuristic e (m_cfg m) p = true →
      state_of m' i = Some pathStateDown → trial_outcome e i p m m'
  | trial_goes_on :
      trialGoodEnough (m_cfg m) p = false →
      time_sub (now e) (of_milli (p_trialStartedAt p)) < trialWindow (m_cfg m) →
      m' = m → trial_outcome e i p m m'.

Lemma tryFail_outcome e i m p :
  wf m → path_at m i = Some p → p_state p = pathStateTrial →
  if scoutTearDownHeuristic e (m_cfg m) p then state_of (tryFailTrial e i m) i = Some pathStateDown
  else same_tables (tryFailTrial e i m) (set_path i (rejected_path e p) m).
Proof.
  intros Hwf Hp Hs. pose proof (wf_paths _ Hwf _ _ Hp) as Hok.
  destruct (trial_flags p Hok Hs) as (Hc & Hu & Hd & Ht & _ & Hst).
  unfold tryFailTrial. rewrite Hp, bool_decide_true, Hd, (upd_set _ _ _ _ Hp) by done. cbn [negb].
  change (m_cfg (set_path i (p <| p_trialDone := true |>) m)) with (m_cfg m).
  destruct (scoutTearDownHeuristic e (m_cfg m) p).
  - unfold demote.
    destruct (demoteWith_cases e i None P2PReasonPeerClosed
                (markScoutHeuristicHit (set_path i (p <| p_trialDone := true |>) m))) as (r & h & ->).
    change ((markScoutHeuristicHit (set_path i (p <| p_trialDone := true |>) m)) <| m_scoutHits := h |>)
      with (set_path i (p <| p_trialDone := true |>) (m <| m_scoutHits := h |>)).
    assert (wf (m <| m_scoutHits := h |>)) as Hwf' by (by rewrite hits_same).
    transitivity (state_of (move i (terminated_path e (p <| p_trialDone := true |>))
                              (m <| m_scoutHits := h |>)) i).
    { apply same_state. by apply (terminateDown_tables_gen e i r _ p). }
    apply state_of_move.
  - by rewrite (rejectTrialSettled_tables e i m p).
Qed.

Lemma trial_tick_outcome e i m p :
  wf m → path_at m i = Some p → p_state p = pathStateTrial → p_trialStartedAt p ≠ 0 →
  let p1 := trialSampleStep e (m_cfg m) p in
  trial_outcome e i p1 (set_path i p1 m) (evalTrial e i m) ∧
  (trialWindow (m_cfg m) <= time_sub (now e) (of_milli (p_trialStartedAt p)) →
   state_of (evalTrial e i m) i ≠ Some pathStateTrial).
Proof.
  intros Hwf Hp Hs Hst. cbv zeta. set (p1 := trialSampleStep e (m_cfg m) p).
  set (m1 := set_path i p1 m).
  assert (wf m1) as Hwf1 by (unfold m1, p1; rewrite <- (upd_set _ _ _ _ Hp); auto with go).
  assert (path_at m1 i = Some p1) as Hp1 by apply path_at_set.
  assert (p_state p1 = pathStateTrial) as Hs1
    by (unfold p1; destruct (trialSampleStep_inert e (m_cfg m) p) as (-> & _); done).
  assert (p_trialStartedAt p1 = p_trialStartedAt p) as Hst1.
  { destruct (gate_open e (m_cfg m) p && new_echo p) eqn:Hb;
      [by destruct (sample_taken e _ p Hst Hb) as (_ & _ & _ & _ & ? & _)
      |by destruct (sample_skipped e _ p Hst Hb) as (_ & _ & _ & _ & ? & _)]. }
  unfold evalTrial. rewrite Hp, bool_decide_true by done. cbn [negb]. cbv zeta.
  rewrite (proj2 (Z.eqb_neq _ _) Hst), (upd_set _ _ _ _ Hp).
  change (m_cfg (set_path i (trialSampleStep e (m_cfg m) p) m)) with (m_cfg m).
  fold p1. fold m1. destruct (trialGoodEnough (m_cfg m) p1) eqn:Hgood.
  - destruct (tryPassTrial_outcome e i m1 p1 Hwf1 Hp1 Hs1) as (b & _ & Ho). split.
    + by eapply trial_passed.
    + intros _. destruct Ho as [_ E|j q _ _ _ _ E|j q _ _ _ _ E]; rewrite (same_state _ _ _ E), state_of_move; done.
  - destruct (Z.leb_spec (trialWindow (m_cfg m)) (time_sub (now e) (of_milli (p_trialStartedAt p)))).
    + pose proof (tryFail_outcome e i m1 p1 Hwf1 Hp1 Hs1) as Ho.
      destruct (scoutTearDownHeuristic e (m_cfg m1) p1) eqn:Hsc; split.
      * apply trial_scouted; rewrite ?Hst1; done.
      * intros _. by rewrite Ho.
      * apply trial_rejected; rewrite ?Hst1; done.
      * intros _. rewrite (same_state _ _ _ Ho). unfold state_of. by rewrite path_at_set.
    + split; [|lia]. apply trial_goes_on; rewrite ?Hst1; done.
Qed.

(** Every tick of a path on trial takes exactly one of four ways, decided by
    the samples so far and the clock: enough good samples install it, or close
    it if the existing path to the peer is the legitimate one; otherwise, once
    the window is over, it is rejected with its connection kept (or taken down
    when the peer was only scouting); otherwise it stays on trial. So no trial
    outlives the first tick after its window. *)
Theorem trial_tick_settles e i m p :
  wf m → path_at m i = Some p → p_state p = pathStateTrial → p_trialStartedAt p ≠ 0 →
  let p1 := trialSampleStep e (m_cfg m) p in
  trial_outcome e i p1 (set_path i p1 m) (evalTrial e i m) ∧
  (trialWindow (m_cfg m) <= time_sub (now e) (of_milli (p_trialStartedAt p)) →
   state_of (evalTrial e i m) i ≠ Some pathStateTrial).
Proof. apply trial_tick_outcome. Qed.

(** ** Standby *)

(** One path through the evaluation: what [evalStandby] does to the path it is
    about. *)
Definition refreshed (e : env) (c : params) (a : option SignalPeer) (p : directPath) : directPath :=
  if relay_stale e c p then
    let p := p <| p_relayRttTriedAt := now_ms e |> in
    match a with
    | Some peer => if 0 <? RelayRTTMs peer
                   then let v := RelayRTTMs peer * millisecond in
                        noteTrialRelayRtt v (p <| p_relayRtt := v |>)
                   else p
    | None => p
    end
  else p.

Definition basis_known (p : directPath) : bool := (0 <? p_relayRtt p) && (0 <? p_rtt p).
Definition degraded (c : params) (p : directPath) : bool :=
  scale_duration (p_relayRtt p) (standbyRatio c) <? p_rtt p.
Definition recovered (c : params) (p : directPath) : bool :=
  p_rtt p <=? scale_duration (p_relayRtt p) (standbyExitRatio c).

Definition judged (e : env) (c : params) (p : directPath) : directPath :=
  if negb (basis_known p) then p
  else
    match p_state p with
    | pathStateUp =>
        if negb (degraded c p) then p <| p_degradeSince := 0 |>
        else if p_degradeSince p =? 0 then p <| p_degradeSince := now_ms e |>
        else if duration_ms (standbyDegradeFor c) <=? now_ms e - p_degradeSince p
        then p <| p_state := pathStateStandby |> <| p_stableSince := 0 |>
               <| p_degradeSince := 0 |> <| p_lastStandbyEval := now_ms e |>
        else p
    | pathStateStandby =>
        if negb (p_lastStandbyEval p =? 0) &&
           (now_ms e - p_lastStandbyEval p <? duration_ms (standbyEvalInterval c)) then p
        else if recovered c p
        then p <| p_state := pathStateUp |> <| p_stableSince := now_ms e |>
               <| p_degradeSince := 0 |> <| p_lastStandbyEval := 0 |>
        else p <| p_lastStandbyEval := now_ms e |>
    | _ => p
    end.

Definition standby_path (e : env) (c : params) (a : option SignalPeer) (p : directPath)
  : directPath := if alive p then judged e c (refreshed e c a p) else p.

Lemma path_at_upd i f m p : path_at m i = Some p → path_at (upd i f m) i = Some (f p).
Proof. intros Hp. rewrite (upd_set _ _ _ _ Hp). apply path_at_set. Qed.

Lemma path_at_emit st m i : path_at (emit st m) i = path_at m i.
Proof. done. Qed.

Lemma notePeerPublicAddr_frame d a m :
  m_heap (notePeerPublicAddr d a m) = m_heap m ∧ m_cfg (notePeerPublicAddr d a m) = m_cfg m.
Proof. unfold notePeerPublicAddr. repeat case_match; done. Qed.

Lemma refresh_frame e a i m p :
  path_at m i = Some p → relay_stale e (m_cfg m) p = true →
  path_at (refreshRelayRTT e a i m) i = Some (refreshed e (m_cfg m) a p) ∧
  m_cfg (refreshRelayRTT e a i m) = m_cfg m.
Proof.
  intros Hp Hst. unfold refreshRelayRTT, refreshed. cbv zeta. rewrite Hst.
  set (m1 := upd i _ m).
  assert (path_at m1 i = Some (p <| p_relayRttTriedAt := now_ms e |>)) as Hp1
    by (unfold m1; by rewrite (path_at_upd _ _ _ p)).
  destruct a as [peer|]; [|done]. rewrite Hp1.
  set (m2 := let '(d, ok) := parseIPv4 _ in _).
  assert (path_at m2 i = path_at m1 i ∧ m_cfg m2 = m_cfg m1) as [E1 E2].
  { unfold m2. destruct (parseIPv4 _) as [d []]; [|done]. unfold path_at.
    destruct (notePeerPublicAddr_frame d (PublicAddr peer) m1) as [-> ->]. done. }
  case_match; [|by rewrite E1, E2]. split; [|done].
  erewrite path_at_upd; [reflexivity|]. by rewrite E1.
Qed.

Lemma judge_frame e i m p :
  path_at m i = Some p →
  path_at (judge_standby e (p_state p) i m) i = Some (judged e (m_cfg m) p) ∧
  m_cfg (judge_standby e (p_state p) i m) = m_cfg m.
Proof.
  intros Hp. unfold judge_standby, judged, basis_known, degraded, recovered. rewrite Hp. cbv zeta.
  destruct (Z.leb_spec (p_relayRtt p) 0) as [H|H].
  { by rewrite (proj2 (Z.ltb_ge _ _) H). }
  rewrite (proj2 (Z.ltb_lt _ _) H). cbn [andb].
  destruct (Z.leb_spec (p_rtt p) 0) as [H'|H'].
  { by rewrite (proj2 (Z.ltb_ge _ _) H'). }
  rewrite (proj2 (Z.ltb_lt _ _) H'). cbn [negb].
  destruct (p_state p) eqn:Hs; try done.
  - rewrite Z.leb_antisym. destruct (_ <? p_rtt p); cbn [negb].
    + destruct (p_degradeSince p =? 0); [by rewrite (path_at_upd _ _ _ _ Hp)|].
      case_match; [|done]. unfold enterStandby. rewrite Hp, bool_decide_true by done. cbn [negb fst].
      split; [|done]. rewrite path_at_emit. by erewrite path_at_upd by exact Hp.
    + by rewrite (path_at_upd _ _ _ _ Hp).
  - case_match; [done|]. set (m1 := upd i _ m).
    assert (path_at m1 i = Some (p <| p_lastStandbyEval := now_ms e |>)) as Hp1
      by (unfold m1; by rewrite (path_at_upd _ _ _ p)).
    change (m_cfg m1) with (m_cfg m). case_match; [|done].
    unfold exitStandby. rewrite Hp1, bool_decide_true by done. cbn [negb fst].
    split; [|done]. rewrite path_at_emit. by erewrite path_at_upd by exact Hp1.
Qed.

Lemma refreshed_state e c a p : p_state (refreshed e c a p) = p_state p.
Proof. unfold refreshed, noteTrialRelayRtt. repeat (case_match; cbn in *; try done). Qed.

Lemma evalStandby_frame e a i m p :
  path_at m i = Some p →
  path_at (evalStandby e a i m) i = Some (standby_path e (m_cfg m) a p) ∧
  m_cfg (evalStandby e a i m) = m_cfg m.
Proof.
  intros Hp. unfold evalStandby, standby_path. rewrite Hp.
  destruct (alive p); cbn [negb]; [|done]. cbv zeta.
  destruct (relay_stale e (m_cfg m) p) eqn:Hst.
  - destruct (refresh_frame e a i m p Hp Hst) as [H1 H2].
    destruct (judge_frame e i _ _ H1) as [H3 H4].
    rewrite (refreshed_state e (m_cfg m) a p) in H3, H4. by rewrite H3, H4, H2.
  - unfold refreshed. rewrite Hst. by apply judge_frame.
Qed.

(** The evaluations of one path and the echoes between them. *)
Inductive qualityEvent := QEval (e : env) (a : option SignalPeer) | QEcho (e : env) (seq ts : Z).

Definition quality_event (i : positive) (m : pathManager) (ev : qualityEvent) : pathManager :=
  match ev with
  | QEval e a => evalStandby e a i m
  | QEcho e seq ts => handleCtrl e {| c_Type := ctrlProbeEcho; c_Seq := seq; c_TS := ts |} None i m
  end.
Definition quality_events (i : positive) (evs : list qualityEvent) (m : pathManager) : pathManager :=
  foldl (quality_event i) m evs.

Definition echoed (e : env) (ts : Z) (p : directPath) : directPath :=
  let p := p <| p_lastEcho := now_ms e |> <| p_probeMiss := 0 |> in
  if 0 <? ts then
    let rtt := time_sub (now e) ts in
    if 0 <? rtt then p <| p_rtt := rtt |> else p
  else p.

Definition path_event (c : params) (p : directPath) (ev : qualityEvent) : directPath :=
  match ev with QEval e a => standby_path e c a p | QEcho e _ ts => echoed e ts p end.

Lemma quality_event_frame i m ev p :
  path_at m i = Some p →
  path_at (quality_event i m ev) i = Some (path_event (m_cfg m) p ev) ∧
  m_cfg (quality_event i m ev) = m_cfg m.
Proof.
  intros Hp. destruct ev as [e a|e seq ts]; cbn [quality_event path_event].
  - by apply evalStandby_frame.
  - unfold handleCtrl. cbn [c_Type c_TS]. by rewrite (path_at_upd _ _ _ _ Hp).
Qed.

Lemma quality_events_frame i m evs p :
  path_at m i = Some p →
  path_at (quality_events i evs m) i = Some (foldl (path_event (m_cfg m)) p evs) ∧
  m_cfg (quality_events i evs m) = m_cfg m.
Proof.
  unfold quality_events. revert m p. induction evs as [|ev evs IH]; intros m p Hp; [done|]. cbn [foldl].
  destruct (quality_event_frame i m ev p Hp) as [H1 H2].
  destruct (IH _ _ H1) as [H3 H4]. by rewrite H3, H4, H2.
Qed.

(** [P] holds of the path, with its basis refreshed, at every evaluation of a
    run that is alive when it is evaluated. *)
Fixpoint at_evals (c : params) (P : directPath → Prop) (evs : list qualityEvent) (p : directPath)
  : Prop :=
  match evs with
  | [] => True
  | ev :: evs =>
      match ev with QEval e a => P (refreshed e c a p) | QEcho _ _ _ => True end ∧
      at_evals c P evs (path_event c p ev)
  end.

Lemma at_evals_app c P evs1 evs2 p :
  at_evals c P (evs1 ++ evs2) p ↔
  at_evals c P evs1 p ∧ at_evals c P evs2 (foldl (path_event c) p evs1).
Proof.
  revert p. induction evs1 as [|ev evs1 IH]; intros p; cbn; [naive_solver|].
  rewrite IH. naive_solver.
Qed.

Lemma refreshed_degrade e c a p :
  p_degradeSince (refreshed e c a p) = p_degradeSince p ∧
  p_lastStandbyEval (refreshed e c a p) = p_lastStandbyEval p ∧
  p_rtt (refreshed e c a p) = p_rtt p ∧
  (basis_known p = true → basis_known (refreshed e c a p) = true).
Proof.
  unfold refreshed, noteTrialRelayRtt, basis_known.
  repeat (case_match; cbn in *; try done); bool_hyps; split_and!; try done.
  all: intros [_ ?]%andb_true_iff; apply andb_true_iff; split; [|done]; apply Z.ltb_lt;
    unfold millisecond; lia.
Qed.

Lemma echoed_frame e ts p :
  p_state (echoed e ts p) = p_state p ∧ p_degradeSince (echoed e ts p) = p_degradeSince p ∧
  (basis_known p = true → basis_known (echoed e ts p) = true).
Proof.
  unfold echoed, basis_known. repeat (case_match; cbn in *; try done); bool_hyps; split_and!; try done.
  intros [? _]%andb_true_iff. apply andb_true_iff. split; [done|]. by apply Z.ltb_lt.
Qed.

(** The dead zone of the hysteresis. As long as every evaluation finds the
    direct round trip above the relay's but within six fifths of it, a path in
    use stays in use and a path in standby stays in standby, however long the
    run and whatever the clock does: the path cannot flap on a small difference. *)
Theorem standby_dead_zone i m p evs :
  path_at m i = Some p → m_cfg m = defaultParams → routed (p_state p) = true →
  at_evals defaultParams
    (λ q, 0 < p_relayRtt q < 2 ^ 50 ∧ p_relayRtt q < p_rtt q <= 6 * p_relayRtt q / 5) evs p →
  state_of (quality_events i evs m) i = Some (p_state p).
Proof.
  intros Hp Hc Hr. unfold state_of. destruct (quality_events_frame i m evs p Hp) as [-> _].
  rewrite Hc. cbn [fmap option_fmap option_map].
  intros Hz. f_equal. clear Hp Hc m. revert p Hr Hz. induction evs as [|ev evs IH]; intros p Hr; [done|].
  intros [Hev Hevs]. cbn [foldl].
  enough (p_state (path_event defaultParams p ev) = p_state p) as E.
  { rewrite <- E. apply IH; [by rewrite E|done]. }
  destruct ev as [e a|e s ts]; cbn [path_event]; [|apply echoed_frame].
  unfold standby_path. replace (alive p) with true by (unfold alive; by destruct (p_state p)).
  rewrite <- (refreshed_state e defaultParams a p) in Hr |- *.
  set (q := refreshed e defaultParams a p) in *. destruct Hev as [Hrel Hrtt].
  unfold judged, degraded, recovered. change (standbyRatio defaultParams) with f_1_2.
  change (standbyExitRatio defaultParams) with f_1_0.
  rewrite scale_1_2, scale_1_0 by lia.
  rewrite (proj2 (Z.ltb_ge _ (p_rtt q))), (proj2 (Z.leb_gt (p_rtt q) _)) by lia.
  repeat (case_match; cbn; try done).
Qed.

(** The bookkeeping behind a start of degradation. *)
Definition degrading (c : params) (evs : list qualityEvent) (p q : directPath) : Prop :=
  routed (p_state q) = true ∧
  (p_degradeSince q ≠ 0 →
   p_state q = pathStateUp ∧ basis_known q = true ∧
   ∃ evs1 e1 a1 evs2, evs = (evs1 ++ QEval e1 a1 :: evs2)%list ∧ now_ms e1 = p_degradeSince q ∧
     at_evals c (λ r, degraded c r = true) (QEval e1 a1 :: evs2) (foldl (path_event c) p evs1)).

Lemma degrading_echo c evs p e s ts :
  degrading c evs p (foldl (path_event c) p evs) →
  degrading c (evs ++ [QEcho e s ts]) p (foldl (path_event c) p (evs ++ [QEcho e s ts])).
Proof.
  rewrite foldl_app. cbn [foldl path_event]. set (q := foldl _ _ _). intros [Hr Hd].
  destruct (echoed_frame e ts q) as (E1 & E2 & E3). split; [by rewrite E1|]. rewrite E1, E2.
  intros Hn. destruct (Hd Hn) as (H1 & H2 & evs1 & e1 & a1 & evs2 & H3 & H4 & H5).
  split_and!; [done|by apply E3|]. exists evs1, e1, a1, (evs2 ++ [QEcho e s ts])%list.
  split_and!; [by rewrite H3, <- app_assoc|done|].
  change (QEval e1 a1 :: evs2 ++ [QEcho e s ts])%list with ((QEval e1 a1 :: evs2) ++ [QEcho e s ts])%list.
  by apply at_evals_app.
Qed.

Lemma degrading_eval c evs p e a :
  now_ms e ≠ 0 → degrading c evs p (foldl (path_event c) p evs) →
  degrading c (evs ++ [QEval e a]) p (foldl (path_event c) p (evs ++ [QEval e a])).
Proof.
  rewrite foldl_app. cbn [foldl path_event]. set (q := foldl _ _ _) in *. intros Hnow [Hr Hd].
  unfold standby_path. replace (alive q) with true by (unfold alive; by destruct (p_state q)).
  destruct (refreshed_degrade e c a q) as (E1 & _ & _ & E3). rewrite <- E1 in Hd.
  pose proof (refreshed_state e c a q) as E4. rewrite <- E4 in Hr, Hd.
  remember (refreshed e c a q) as r eqn:Hreq. unfold judged.
  destruct (basis_known r) eqn:Hk; cbn [negb].
  2: { split; [done|]. intros Hn. destruct (Hd Hn) as (_ & Hq & _). apply E3 in Hq. congruence. }
  destruct (p_state r) eqn:Hs; try done.
  - destruct (degraded c r) eqn:Hdeg; cbn [negb]; [|split; [by cbn; rewrite Hs|by intros []]].
    destruct (Z.eqb_spec (p_degradeSince r) 0) as [H0|H0].
    { split; [by cbn; rewrite Hs|]. intros _. split_and!; [by cbn|by apply Hk|].
      exists evs, e, a, []. split_and!; [done|done|]. cbn. fold q. by rewrite <- Hreq. }
    case_match; [split; [done|by intros []]|]. split; [by rewrite Hs|]. intros _.
    destruct (Hd H0) as (_ & _ & evs1 & e1 & a1 & evs2 & H3 & H4 & H5).
    split_and!; [done..|]. exists evs1, e1, a1, (evs2 ++ [QEval e a])%list.
    split_and!; [by rewrite H3, <- app_assoc|done|].
    change (QEval e1 a1 :: evs2 ++ [QEval e a])%list with ((QEval e1 a1 :: evs2) ++ [QEval e a])%list.
    apply at_evals_app. split; [done|]. rewrite <- foldl_app, <- H3. cbn. fold q. by rewrite <- Hreq.
  - destruct (decide (p_degradeSince r = 0)) as [H0|H0]; [|by destruct (Hd H0)].
    repeat case_match; (split; [by cbn; rewrite ?Hs|by intros []]).
Qed.

Lemma degrading_run c evs p :
  p_state p = pathStateUp → p_degradeSince p = 0 →
  Forall (λ ev, match ev with QEval e _ => now_ms e ≠ 0 | _ => True end) evs →
  degrading c evs p (foldl (path_event c) p evs).
Proof.
  intros Hs H0. induction evs as [|ev evs IH] using rev_ind; intros Hall.
  - split; [by cbn; rewrite Hs|by intros []].
  - apply Forall_app in Hall as [Hall Hev]. apply Forall_cons in Hev as [Hev _].
    destruct ev; [apply degrading_eval; [exact Hev|]|apply degrading_echo]; by apply IH.
Qed.

(** A path leaves use only after sustained degradation. If an evaluation
    moves a path that is up to standby, then there was an earlier evaluation at
    least [standbyDegradeFor] before it, and at both and at every one between
    them the direct round trip was above the threshold. *)
Theorem standby_needs_sustained_degradation i m p evs e a :
  path_at m i = Some p → p_state p = pathStateUp → p_degradeSince p = 0 →
  Forall (λ ev, match ev with QEval e _ => now_ms e ≠ 0 | _ => True end) evs →
  state_of (quality_events i evs m) i = Some pathStateUp →
  state_of (quality_event i (quality_events i evs m) (QEval e a)) i = Some pathStateStandby →
  ∃ evs1 e1 a1 evs2, evs = (evs1 ++ QEval e1 a1 :: evs2)%list ∧
    duration_ms (standbyDegradeFor (m_cfg m)) <= now_ms e - now_ms e1 ∧
    ∃ q, path_at (quality_events i evs1 m) i = Some q ∧
      at_evals (m_cfg m) (λ r, degraded (m_cfg m) r = true)
        (QEval e1 a1 :: evs2 ++ [QEval e a]) q.
Proof.
  intros Hp Hs H0 Hall. unfold state_of at 1.
  destruct (quality_events_frame i m evs p Hp) as [Hq Hc].
  destruct (quality_event_frame i _ (QEval e a) _ Hq) as [Hq' _]. rewrite Hc in Hq'.
  unfold state_of. rewrite Hq, Hq'. cbn [fmap option_fmap option_map path_event].
  destruct (degrading_run (m_cfg m) evs p Hs H0 Hall) as [Hr Hd].
  set (c := m_cfg m) in *. set (q := foldl (path_event c) p evs) in *. intros [= Hup] [= Hst].
  unfold standby_path in Hst.
  replace (alive q) with true in Hst by (unfold alive; by rewrite Hup).
  destruct (refreshed_degrade e c a q) as (E1 & _ & _ & E3).
  pose proof (refreshed_state e c a q) as E4. rewrite Hup in E4. rewrite <- E1 in Hd.
  unfold judged in Hst. remember (refreshed e c a q) as r eqn:Hreq. rewrite E4 in Hst.
  destruct (basis_known r); cbn [negb] in Hst; [|congruence].
  destruct (degraded c r) eqn:Hdeg; cbn in Hst; [|congruence].
  destruct (Z.eqb_spec (p_degradeSince r) 0) as [Hz|Hz]; cbn in Hst; [congruence|].
  destruct (Z.leb_spec (duration_ms (standbyDegradeFor c)) (now_ms e - p_degradeSince r)); [|congruence].
  destruct (Hd Hz) as (_ & _ & evs1 & e1 & a1 & evs2 & H3 & H4 & H5).
  exists evs1, e1, a1, evs2. split_and!; [done|lia|].
  eexists. split; [by apply quality_events_frame|].
  change (QEval e1 a1 :: evs2 ++ [QEval e a])%list with ((QEval e1 a1 :: evs2) ++ [QEval e a])%list.
  apply at_evals_app. split; [done|]. fold c. rewrite <- foldl_app, <- H3. cbn. fold q. by rewrite <- Hreq.
Qed.

(** ** Concrete instances *)

Ltac compute_goal := vm_compute; repeat (split; try (intros ?; discriminate)); try reflexivity.

Lemma echo_sampled_at_next_tick_witness :
  let p := newDirectPath (at_ms 0) defaultParams demo_req in
  let p' := trialSampleStep (at_ms 7000) defaultParams
              (echo_at (now_ms (at_ms 6500)) (sample_ticks defaultParams [at_ms 5000; at_ms 6000] p)) in
  p_trialSamples p' = p_trialSamples p + 1 ∧ p_trialLastSampleAt p' = now_ms (at_ms 7000) ∧
  p_trialLastEcho p' = now_ms (at_ms 6500).
Proof. apply echo_sampled_at_next_tick; compute_goal. discriminate. Defined.

Lemma samples_fit_window_witness :
  let p := trial_events defaultParams [TEcho (at_ms 5000) 1000; TTick (at_ms 6000)]
             (newDirectPath (at_ms 0) defaultParams demo_req) in
  now_ms (at_ms 0) + 5000 * p_trialSamples p <= gate_from p ∧
  0 <= p_trialGood p <= p_trialSamples p.
Proof. apply (samples_fit_window defaultParams (at_ms 0)); [compute_goal..|]. repeat constructor. Defined.

Lemma sample_good_exact_witness :
  (trialSampleGood 59 50 f_1_0 = true ↔ 0 < 50 ∧ 0 < 59 ∧ 59 < 6 * 50 / 5) ∧
  trialSampleGood 59 50 f_0_0 = false.
Proof. apply sample_good_exact. lia. Defined.

Lemma demo_trial_reachable : reachable defaultParams demo_trial.
Proof.
  eapply reach_step; [apply reach_init|]. apply step_established. by unfold is_snapshot; vm_compute.
Qed.

Lemma trial_tick_settles_witness :
  let p := newDirectPath (at_ms 0) defaultParams demo_req in
  let p1 := trialSampleStep (at_ms 20000) (m_cfg demo_trial) p in
  trial_outcome (at_ms 20000) 1 p1 (set_path 1 p1 demo_trial) (evalTrial (at_ms 20000) 1 demo_trial) ∧
  (trialWindow (m_cfg demo_trial) <= time_sub (now (at_ms 20000)) (of_milli (p_trialStartedAt p)) →
   state_of (evalTrial (at_ms 20000) 1 demo_trial) 1 ≠ Some pathStateTrial).
Proof.
  apply trial_tick_settles; [exact (reachable_wf _ _ demo_trial_reachable)|by vm_compute..|].
  discriminate.
Defined.

(** The demonstration's path with a measured round trip of [rtt] ms. *)
Definition demo_rtt (rtt : Z) : qualityEvent := QEcho (at_ms 12000) 1 (now (at_ms (12000 - rtt))).
Definition demo_path : directPath := default (newDirectPath (at_ms 0) defaultParams demo_req) (path_at demo_up 1).

Lemma standby_dead_zone_witness :
  state_of (quality_events 1 [QEval (at_ms 20000) None; QEval (at_ms 60000) None]
              (quality_event 1 demo_up (demo_rtt 55))) 1 = Some pathStateUp.
Proof.
  apply (standby_dead_zone 1 (quality_event 1 demo_up (demo_rtt 55))
           (path_event defaultParams demo_path (demo_rtt 55))); [by vm_compute|by vm_compute|by vm_compute|compute_goal].
Defined.

Lemma standby_needs_sustained_degradation_witness :
  ∃ evs1 e1 a1 evs2,
    [demo_rtt 70; QEval (at_ms 20000) None] = (evs1 ++ QEval e1 a1 :: evs2)%list ∧
    duration_ms (standbyDegradeFor (m_cfg demo_up)) <= now_ms (at_ms 50000) - now_ms e1 ∧
    ∃ q, path_at (quality_events 1 evs1 demo_up) 1 = Some q ∧
      at_evals (m_cfg demo_up) (λ r, degraded (m_cfg demo_up) r = true)
        (QEval e1 a1 :: evs2 ++ [QEval (at_ms 50000) None]) q.
Proof.
  apply (standby_needs_sustained_degradation 1 demo_up demo_path); [by vm_compute|by vm_compute|by vm_compute| |by vm_compute..].
  repeat constructor. discriminate.
Defined.
