(* ===== verification/PathDeath.v ===== *)
(** * How a path ends

    The watchdog's grace for a silent path, the single termination of a path
    and what it leaves behind. *)

From Stdlib Require Import ZArith Lia Bool String.
From stdpp Require Import base list gmap strings.
From S2P Require Import Prelude.
From S2P Require Import GoNet.
From S2P Require Import Reasons.
From S2P Require Import PeerTable.
From S2P Require Import GoFloat.
From S2P Require Import PathData.
From S2P Require Import Backoff.
From S2P Require Import PathCore.
From S2P Require Import PathInv.
From S2P Require Import PathTrial.
From S2P Require Import PathTrigger.
From S2P Require Import PathSteps.
From S2P Require Import PathArbitration.
From S2P Require Import PathQuality.

Open Scope string_scope.
Open Scope Z_scope.

(** ** The parameters never change *)

Lemma untrack_cfg i m : m_cfg (untrack i m) = m_cfg m.
Proof. unfold untrack. repeat case_match; done. Qed.
Lemma close_cfg e i m : m_cfg (close e i m) = m_cfg m.
Proof.
  unfold close. repeat (case_match; try done).
  change (m_cfg (untrack i (upd i (λ p, p <| p_closed := true |> <| p_trialDone := true |>) m)) = m_cfg m).
  by rewrite untrack_cfg.
Qed.
Lemma removeRoute_cfg d i m : m_cfg (removeRoute d i m).1 = m_cfg m.
Proof. by rewrite removeRoute_fst. Qed.
Lemma scheduleRetry_cfg t d r m : m_cfg (scheduleRetry t d r m) = m_cfg m.
Proof. unfold scheduleRetry. by case_bool_decide. Qed.
Lemma onPunchSucceeded_cfg vip m : m_cfg (onPunchSucceeded vip m) = m_cfg m.
Proof. unfold onPunchSucceeded. by destruct (parseIPv4 vip) as [d []]. Qed.
Lemma upd_cfg i f m : m_cfg (upd i f m) = m_cfg m.
Proof. done. Qed.
Lemma emit_cfg st m : m_cfg (emit st m) = m_cfg m.
Proof. done. Qed.
Create Rewrite HintDb cfg.
#[local] Hint Rewrite untrack_cfg close_cfg removeRoute_cfg scheduleRetry_cfg onPunchSucceeded_cfg
  upd_cfg emit_cfg : cfg.

Lemma terminateDown_cfg e i r m : m_cfg (terminateDown e i r m) = m_cfg m.
Proof. unfold terminateDown. repeat (case_match; try done). by autorewrite with cfg. Qed.
Lemma demoteWith_cfg e i err r m : m_cfg (demoteWith e i err r m) = m_cfg m.
Proof. destruct (demoteWith_cases e i err r m) as (r' & h & ->). by rewrite terminateDown_cfg. Qed.
#[local] Hint Rewrite terminateDown_cfg demoteWith_cfg : cfg.

Lemma installAfterTrial_cfg e i m : m_cfg (installAfterTrial e i m).1 = m_cfg m.
Proof.
  unfold installAfterTrial, installRouteLocked.
  repeat (case_match; cbn [fst] in *; try done); autorewrite with cfg; try done.
  all: change (m_cfg (?m <| m_routes ::= ?f |>)) with (m_cfg m); by autorewrite with cfg.
Qed.
Lemma tryPassTrial_cfg e i m : m_cfg (tryPassTrial e i m) = m_cfg m.
Proof. unfold tryPassTrial. repeat (case_match; try done). by rewrite installAfterTrial_cfg. Qed.
Lemma rejectTrialSettled_cfg e i m : m_cfg (rejectTrialSettled e i m) = m_cfg m.
Proof.
  unfold rejectTrialSettled, setRejectedCooldown, put_backoff. repeat (case_match; try done).
  cbn. by autorewrite with cfg.
Qed.
Lemma tryFailTrial_cfg e i m : m_cfg (tryFailTrial e i m) = m_cfg m.
Proof.
  unfold tryFailTrial, demote. repeat (case_match; try done).
  - by autorewrite with cfg.
  - by rewrite rejectTrialSettled_cfg.
Qed.
Lemma evalTrial_cfg e i m : m_cfg (evalTrial e i m) = m_cfg m.
Proof.
  unfold evalTrial. repeat (case_match; try done); by rewrite ?tryPassTrial_cfg, ?tryFailTrial_cfg.
Qed.
Lemma maybeClear_cfg e i m : m_cfg (maybeClearFailuresAfterStable e i m) = m_cfg m.
Proof. unfold maybeClearFailuresAfterStable. repeat (case_match; try done). Qed.
Lemma checkEcho_cfg e i m : m_cfg (checkEcho e i m) = m_cfg m.
Proof. unfold checkEcho, demoteErr. repeat (case_match; try done). by autorewrite with cfg. Qed.

(** ** What the grace depends on *)

(** Everything the overdue test and the miss counter read. *)
Definition same_echo (p q : directPath) : Prop :=
  p_lastEcho q = p_lastEcho p ∧ p_since q = p_since p ∧ p_probeMiss q = p_probeMiss p ∧
  p_peer q = p_peer p.

Lemma same_echo_trans p q r : same_echo p q → same_echo q r → same_echo p r.
Proof. unfold same_echo. naive_solver congruence. Qed.

Lemma health_echo e c p : same_echo p (checkDataPlaneHealth e c p).
Proof. unfold checkDataPlaneHealth. cbv zeta. repeat case_match; done. Qed.
Lemma sample_echo e c p : same_echo p (trialSampleStep e c p).
Proof. unfold trialSampleStep. cbv zeta. repeat case_match; done. Qed.
Lemma standby_echo e c a p : same_echo p (standby_path e c a p).
Proof.
  unfold standby_path, judged, refreshed, noteTrialRelayRtt. cbv zeta. repeat case_match; done.
Qed.

(** A path at [i] that is down, or as far from its end as [p] is. *)
Definition down_or (m : pathManager) (i : positive) (p : directPath) : Prop :=
  state_of m i = Some pathStateDown ∨ ∃ q, path_at m i = Some q ∧ same_echo p q.

Lemma evalTrial_echo e i m p :
  wf m → path_at m i = Some p → down_or (evalTrial e i m) i p.
Proof.
  intros Hwf Hp. destruct (decide (p_state p = pathStateTrial)) as [Hs|Hs].
  2: { right. exists p. unfold evalTrial. rewrite Hp, bool_decide_false by done. done. }
  destruct (decide (p_trialStartedAt p = 0)) as [H0|H0].
  { right. exists p. unfold evalTrial. by rewrite Hp, bool_decide_true, (proj2 (Z.eqb_eq _ _) H0). }
  destruct (trial_tick_outcome e i m p Hwf Hp Hs H0) as [Ho _].
  set (p1 := trialSampleStep e (m_cfg m) p) in *.
  assert (same_echo p p1) as Hse by apply sample_echo.
  destruct Ho as [b _ Ho|_ _ _ E|_ _ _ E|_ _ ->]; [|right|by left|right].
  - destruct Ho as [_ E|j q _ _ _ _ E|j q _ _ _ _ E].
    1,3: right; exists (up_path e p1); split; [by rewrite E, path_at_move, decide_True|done].
    left. by rewrite (same_state _ _ _ E), state_of_move.
  - exists (rejected_path e p1). split; [by rewrite E, path_at_set|done].
  - exists p1. by rewrite path_at_set.
Qed.

Lemma maybeClear_frame e i m p :
  path_at m i = Some p →
  ∃ q, path_at (maybeClearFailuresAfterStable e i m) i = Some q ∧ same_echo p q ∧ p_state q = p_state p.
Proof.
  intros Hp. unfold maybeClearFailuresAfterStable. rewrite Hp. cbv zeta.
  repeat case_match; try (by exists p);
    (exists (p <| p_lastStableCheck := now_ms e |>); split; [|done]);
    [exact (path_at_upd i _ m p Hp)..].
Qed.

(** ** Demotion takes the path down *)

Lemma terminateDown_down e i r m p :
  wf m → path_at m i = Some p → state_of (terminateDown e i r m) i = Some pathStateDown.
Proof.
  intros Hwf Hp. pose proof (wf_paths _ Hwf _ _ Hp) as Hok. destruct (p_terminated p) eqn:Ht.
  - unfold terminateDown, state_of. rewrite Hp, Ht, Hp. cbn. by rewrite (ok_terminated _ Hok Ht).
  - destruct (p_closed p) eqn:Hc.
    + rewrite (same_state _ _ i (terminateDown_closed e i r m p Hwf Hp Ht Hc)).
      unfold state_of. rewrite path_at_set. cbn.
      pose proof (ok_closed _ Hok) as E. rewrite Hc in E. symmetry in E. bool_hyps. by rewrite E.
    + rewrite (same_state _ _ i (terminateDown_tables e i r m p Hwf Hp Ht Hc)). apply state_of_move.
Qed.

Lemma demoteErr_down e i err m p :
  wf m → path_at m i = Some p → state_of (demoteErr e i err m) i = Some pathStateDown.
Proof.
  intros Hwf Hp. unfold demoteErr.
  destruct (demoteWith_cases e i err P2PReasonDirectLost m) as (r & h & ->).
  apply (terminateDown_down e i r _ p); [by rewrite hits_same|done].
Qed.

Lemma alive_open p : path_ok p → alive p = true → p_closed p = false.
Proof. intros Hok Ha. rewrite (ok_closed _ Hok). unfold alive in Ha. by destruct (p_state p). Qed.

Lemma open_alive p : path_ok p → p_state p ≠ pathStateDown → alive p = true.
Proof. intros Hok Ha. destruct (ok_state _ Hok). unfold alive. by destruct (p_state p). Qed.

Lemma overdue_echo e c p q : same_echo p q → echo_overdue e c q = echo_overdue e c p.
Proof. unfold echo_overdue. by intros (-> & -> & _). Qed.

Lemma checkEcho_overdue e i m p :
  wf m → path_at m i = Some p → alive p = true → echo_overdue e (m_cfg m) p = true →
  state_of (checkEcho e i m) i = Some pathStateDown ∨
  p_probeMiss p + 1 < probeMissLimit (m_cfg m) ∧
  path_at (checkEcho e i m) i = Some (p <| p_probeMiss ::= Z.succ |>).
Proof.
  intros Hwf Hp Ha Ho. unfold checkEcho. rewrite Hp, Ho.
  set (m1 := upd i _ m). change (m_cfg m1) with (m_cfg m).
  assert (path_at m1 i = Some (p <| p_probeMiss ::= Z.succ |>)) as Hp1
    by (unfold m1; by rewrite (path_at_upd _ _ _ p)).
  destruct (Z.leb_spec (probeMissLimit (m_cfg m)) (p_probeMiss p + 1)); [left|by right].
  eapply demoteErr_down; [|exact Hp1]. apply inert_wf; [inert|done].
Qed.

Lemma checkEcho_down e i m p :
  wf m → path_at m i = Some p → p_state p = pathStateDown →
  state_of (checkEcho e i m) i = Some pathStateDown.
Proof.
  intros Hwf Hp Hs. unfold checkEcho. rewrite Hp.
  assert (state_of m i = Some pathStateDown) as Hd by (unfold state_of; by rewrite Hp; cbn; rewrite Hs).
  destruct (echo_overdue _ _ _); [|done]. cbv zeta. set (m1 := upd i _ m).
  assert (path_at m1 i = Some (p <| p_probeMiss ::= Z.succ |>)) as Hp1
    by (unfold m1; by rewrite (path_at_upd _ _ _ p)).
  case_match.
  - eapply demoteErr_down; [|exact Hp1]. apply inert_wf; [inert|done].
  - unfold state_of. rewrite Hp1. cbn. by rewrite Hs.
Qed.

(** One overdue tick: one step closer to the end, or the end. *)
Lemma watchCheck_overdue e a i m p :
  wf m → path_at m i = Some p → alive p = true → echo_overdue e (m_cfg m) p = true →
  state_of (watchCheck e a i m) i = Some pathStateDown ∨
  ∃ q, path_at (watchCheck e a i m) i = Some q ∧ alive q = true ∧ p_lastEcho q = p_lastEcho p ∧
    p_since q = p_since p ∧ p_probeMiss q = p_probeMiss p + 1 ∧
    p_probeMiss p + 1 < probeMissLimit (m_cfg m).
Proof.
  intros Hwf Hp Ha Ho. unfold watchCheck. rewrite Hp, Ha. cbn [negb]. cbv zeta.
  set (m1 := upd i (checkDataPlaneHealth e (m_cfg m)) m). set (p1 := checkDataPlaneHealth e (m_cfg m) p).
  assert (path_at m1 i = Some p1) as Hp1 by (unfold m1; by rewrite (path_at_upd _ _ _ p)).
  assert (wf m1) as Hwf1 by (unfold m1; auto with go).
  destruct (evalStandby_frame e a i m1 p1 Hp1) as [Hp2 Hc2]. change (m_cfg m1) with (m_cfg m) in *.
  set (m2 := evalStandby e a i m1) in *. set (p2 := standby_path e (m_cfg m) a p1) in *.
  assert (wf m2) as Hwf2 by (by apply evalStandby_wf).
  pose proof (evalTrial_echo e i m2 p2 Hwf2 Hp2) as H3.
  pose proof (evalTrial_cfg e i m2) as Hc3. rewrite Hc2 in Hc3.
  assert (wf (evalTrial e i m2)) as Hwf3 by (by apply evalTrial_wf).
  set (m3 := evalTrial e i m2) in *. set (m4 := upd i _ m3).
  assert (∃ p3, path_at m3 i = Some p3 ∧ (p_state p3 = pathStateDown ∨ same_echo p p3)) as (p3 & Hp3 & H3').
  { destruct H3 as [Hd|(q & Hq & Hse)].
    - unfold state_of in Hd. destruct (path_at m3 i) as [q|]; [|done]. injection Hd as Hd. eauto.
    - exists q. split; [done|right]. eapply same_echo_trans; [apply health_echo|].
      eapply same_echo_trans; [apply standby_echo|exact Hse]. }
  assert (wf m4) as Hwf4 by (apply inert_wf; [inert|done]).
  assert (path_at m4 i = Some (p3 <| p_watchdogTicks ::= Z.succ |>)) as Hp4
    by (unfold m4; by rewrite (path_at_upd _ _ _ p3)).
  destruct (maybeClear_frame e i m4 _ Hp4) as (p5 & Hp5 & Hse5 & Hs5).
  assert (wf (maybeClearFailuresAfterStable e i m4)) as Hwf5 by (by apply maybeClear_wf).
  pose proof (maybeClear_cfg e i m4) as Hc5. change (m_cfg m4) with (m_cfg m3) in Hc5.
  rewrite Hc3 in Hc5. set (m5 := maybeClearFailuresAfterStable e i m4) in *.
  destruct (decide (p_state p5 = pathStateDown)) as [Hd|Hd].
  { left. by apply (checkEcho_down e i m5 p5). }
  destruct H3' as [H3'|H3']; [by rewrite Hs5 in Hd|].
  assert (same_echo p p5) as Hse by (eapply same_echo_trans; [exact H3'|exact Hse5]).
  pose proof (open_alive p5 (wf_paths _ Hwf5 _ _ Hp5) Hd) as Ha5.
  destruct (checkEcho_overdue e i m5 p5 Hwf5 Hp5 Ha5) as [H6|[H6 H7]]; [|by left|].
  { by rewrite Hc5, (overdue_echo _ _ _ _ Hse). }
  right. eexists. split; [exact H7|]. destruct Hse as (E1 & E2 & E3 & _).
  rewrite Hc5, E3 in H6. cbn. by rewrite E1, E2, E3.
Qed.

(** ** A silent path dies *)

Definition watch_ticks (i : positive) (ts : list (env * option SignalPeer)) (m : pathManager)
  : pathManager := foldl (λ m t, watchCheck t.1 t.2 i m) m ts.

Lemma watchCheck_cfg e a i m p : path_at m i = Some p → m_cfg (watchCheck e a i m) = m_cfg m.
Proof.
  intros Hp. unfold watchCheck. rewrite Hp. destruct (alive p); [|done]. cbn [negb]. cbv zeta.
  rewrite checkEcho_cfg, maybeClear_cfg, upd_cfg, evalTrial_cfg.
  set (m1 := upd i _ m).
  assert (path_at m1 i = Some (checkDataPlaneHealth e (m_cfg m) p)) as Hp1
    by (unfold m1; by rewrite (path_at_upd _ _ _ p)).
  by destruct (evalStandby_frame e a i m1 _ Hp1) as [_ ->].
Qed.

Lemma watchCheck_dead e a i m : state_of m i = Some pathStateDown → watchCheck e a i m = m.
Proof.
  unfold state_of, watchCheck, alive. destruct (path_at m i) as [p|]; [|done].
  by intros [= ->].
Qed.

Lemma watch_ticks_dead i ts m : state_of m i = Some pathStateDown → watch_ticks i ts m = m.
Proof.
  unfold watch_ticks. induction ts as [|t ts IH]; intros Hd; [done|]. cbn. rewrite watchCheck_dead by done.
  by apply IH.
Qed.

Lemma watch_ticks_overdue i ts m p :
  wf m → path_at m i = Some p → alive p = true →
  Forall (λ t, echo_overdue t.1 (m_cfg m) p = true) ts →
  ts ≠ [] → probeMissLimit (m_cfg m) - p_probeMiss p <= Z.of_nat (length ts) →
  state_of (watch_ticks i ts m) i = Some pathStateDown ∧ wf (watch_ticks i ts m).
Proof.
  revert m p. induction ts as [|[e a] ts IH]; intros m p Hwf Hp Ha Hall Hne Hlen; [done|].
  apply Forall_cons in Hall as [Ho Hall]. cbn [fst] in Ho.
  change (watch_ticks i ((e, a) :: ts) m) with (watch_ticks i ts (watchCheck e a i m)).
  assert (wf (watchCheck e a i m)) as Hwf' by (by apply watchCheck_wf).
  destruct (watchCheck_overdue e a i m p Hwf Hp Ha Ho) as [Hd|(q & Hq & Hqa & E1 & E2 & E3 & Hlt)].
  { by rewrite watch_ticks_dead. }
  pose proof (watchCheck_cfg e a i m p Hp) as Hc. apply (IH _ q); rewrite ?Hc; try done.
  - eapply Forall_impl; [exact Hall|]. intros t. cbn. unfold echo_overdue. by rewrite E1, E2.
  - intros ->. cbn in Hlen. lia.
  - cbn in Hlen. lia.
Qed.

(** C28: a silent path dies. While no echo arrives, once the watchdog's ticks
    come later than the grace of [probeMissLimit + 1] probe intervals after the
    last one, [probeMissLimit] of them (less those already counted) bring the
    path down, whether it was in use, in standby, on trial or rejected, and
    whatever the trial and the standby evaluation make of it meanwhile; neither
    table holds it any more. *)
Theorem silent_path_dies i m p ts :
  wf m → path_at m i = Some p → alive p = true →
  Forall (λ t, echo_overdue t.1 (m_cfg m) p = true) ts →
  ts ≠ [] → probeMissLimit (m_cfg m) - p_probeMiss p <= Z.of_nat (length ts) →
  let m' := watch_ticks i ts m in
  state_of m' i = Some pathStateDown ∧ (∀ d, m_routes m' !! d ≠ Some i) ∧ (∀ d, i ∉ trials_of m' d).
Proof.
  intros Hwf Hp Ha Hall Hne Hlen. destruct (watch_ticks_overdue i ts m p) as [Hd Hwf']; try done.
  cbv zeta. set (m' := watch_ticks i ts m) in *. unfold state_of, path_at in Hd.
  destruct (m_heap m' !! i) as [q|] eqn:Hq; [|done]. injection Hd as Hd.
  split; [unfold state_of, path_at; by rewrite Hq; cbn; rewrite Hd|]. split.
  - intros d (r & Hr & _ & Hrr)%(wf_routes _ Hwf'). rewrite Hq in Hr. injection Hr as <-. by rewrite Hd in Hrr.
  - intros d (r & Hr & _ & Hrr)%(wf_trials _ Hwf'). rewrite Hq in Hr. injection Hr as <-. by rewrite Hd in Hrr.
Qed.

(** ** Termination happens once *)

Lemma scheduleRetry_frame t d r m :
  m_events (scheduleRetry t d r m) = m_events m ∧
  (∀ m', m_backoff m' = m_backoff m → m_backoff (scheduleRetry t d r m') = m_backoff (scheduleRetry t d r m)).
Proof.
  split; [unfold scheduleRetry; by case_bool_decide|]. intros m' E.
  unfold scheduleRetry, put_backoff, backoff_of. case_bool_decide; cbn; by rewrite E.
Qed.

Lemma untrack_frame i m : m_events (untrack i m) = m_events m ∧ m_backoff (untrack i m) = m_backoff m.
Proof. unfold untrack. repeat case_match; done. Qed.
Lemma close_frame e i m : m_events (close e i m) = m_events m ∧ m_backoff (close e i m) = m_backoff m.
Proof.
  unfold close. repeat (case_match; try done). cbn.
  change (m_events (untrack i ?x) = m_events m) with (m_events (untrack i x) = m_events x).
  change (m_backoff (untrack i ?x) = m_backoff m) with (m_backoff (untrack i x) = m_backoff x).
  apply untrack_frame.
Qed.

(** What a termination reports and records, whatever was already closed. *)
Lemma terminateDown_effects e i r m p :
  path_at m i = Some p → p_terminated p = false →
  m_events (terminateDown e i r m)
  = (m_events m ++ [failed_status e (p_peerVIP p) r (P2PReasonText r) true])%list ∧
  m_backoff (terminateDown e i r m) = m_backoff (scheduleRetry (now e) (p_peer p) r m).
Proof.
  intros Hp Ht. unfold terminateDown. rewrite Hp, Ht. cbv zeta. rewrite removeRoute_fst.
  set (m1 := upd i _ m). set (m2 := untrack i m1).
  destruct (untrack_frame i m1) as [E1 E2]. fold m2 in E1, E2.
  set (m3 := close e i _). assert (m_events m3 = m_events m ∧ m_backoff m3 = m_backoff m) as [E3 E4].
  { unfold m3. match goal with |- context [close e i ?x] => destruct (close_frame e i x) as [-> ->] end.
    cbn. by rewrite E1, E2. }
  unfold emit. cbn. destruct (scheduleRetry_frame (now e) (p_peer p) r m3) as [-> _].
  rewrite E3. split; [done|]. by apply (scheduleRetry_frame (now e) (p_peer p) r m).
Qed.

Lemma backoff_of_eq m1 m2 d : m_backoff m1 = m_backoff m2 → backoff_of m1 d = backoff_of m2 d.
Proof. unfold backoff_of. by intros ->. Qed.

(** [i] is the dead remains of the path [p]: down, closed, terminated and in
    neither table. *)
Definition dead_remains (m : pathManager) (i : positive) (p : directPath) : Prop :=
  (∃ q, path_at m i = Some q ∧ p_state q = pathStateDown ∧ p_closed q = true ∧
     p_terminated q = true ∧ p_peer q = p_peer p) ∧
  (m_routes m !! p_peer p ≠ Some i) ∧ (i ∉ trials_of m (p_peer p)).

(** C16: the end of a live path is complete and happens once. Whatever the state
    it was in, the path is closed and in neither table, its peer's retry is
    scheduled and one failure is reported; a second termination, and a close,
    change nothing. *)
Theorem terminate_once e i r m p :
  wf m → path_at m i = Some p → alive p = true →
  let m' := terminateDown e i r m in
  dead_remains m' i p ∧
  m_events m' = (m_events m ++ [failed_status e (p_peerVIP p) r (P2PReasonText r) true])%list ∧
  m_backoff m' = m_backoff (scheduleRetry (now e) (p_peer p) r m) ∧
  (∀ e' r', terminateDown e' i r' m' = m') ∧ (∀ e', close e' i m' = m').
Proof.
  intros Hwf Hp Ha. cbv zeta. pose proof (wf_paths _ Hwf _ _ Hp) as Hok.
  pose proof (alive_open p Hok Ha) as Hc.
  assert (p_terminated p = false) as Ht.
  { destruct (p_terminated p) eqn:E; [|done]. apply (ok_terminated _ Hok) in E.
    unfold alive in Ha. by rewrite E in Ha. }
  pose proof (terminateDown_tables e i r m p Hwf Hp Ht Hc) as E.
  pose proof (terminateDown_wf e i r m Hwf) as Hwf'.
  destruct (terminateDown_effects e i r m p Hp Ht) as [Hev Hbk].
  set (m' := terminateDown e i r m) in *.
  assert (path_at m' i = Some (terminated_path e p)) as Hp'
    by (rewrite E, path_at_move, decide_True by done; done).
  unfold dead_remains. rewrite <- !(assoc (∧)). split; [by exists (terminated_path e p)|]. split_and!; try done.
  - intros (q & Hq & _ & Hr)%(wf_routes _ Hwf'). unfold path_at in Hp'. rewrite Hp' in Hq. by injection Hq as <-.
  - intros (q & Hq & _ & Hr)%(wf_trials _ Hwf'). unfold path_at in Hp'. rewrite Hp' in Hq. by injection Hq as <-.
  - intros e' r'. unfold terminateDown. by rewrite Hp'.
  - intros e'. unfold close. by rewrite Hp'.
Qed.

(** *** The reason of a demotion *)

(** What the transport, its context and the scout heuristic say of the end of
    a path. *)
Definition demotion_reason (e : env) (c : params) (p : directPath) (err : option goError) : string :=
  if isPeerInitiatedClose err || isPeerInitiatedClose (p_connCause p) || scoutTearDownHeuristic e c p
  then P2PReasonPeerClosed else P2PReasonDirectLost.

Lemma demoteErr_reason e i err m p :
  path_at m i = Some p →
  ∃ h, demoteErr e i err m
       = terminateDown e i (demotion_reason e (m_cfg m) p err) (m <| m_scoutHits := h |>).
Proof.
  intros Hp. unfold demoteErr, demoteWith, demotion_reason. rewrite Hp.
  rewrite bool_decide_true by done.
  destruct (isPeerInitiatedClose err || isPeerInitiatedClose (p_connCause p)); cbn [orb].
  { exists (m_scoutHits m). by destruct m. }
  destruct (scoutTearDownHeuristic e (m_cfg m) p); [by exists (Z.succ (m_scoutHits m))|].
  exists (m_scoutHits m). by destruct m.
Qed.

(** A path that dies is retried after 30 s when the peer closed it, or when
    it was only scouted, and the peer's failure streaks are kept; when the
    connection was lost, after the current rung of the quality ladder, whose
    streak moves one rung up. The reason reported is the one recorded. *)
Theorem demotion_schedules_by_cause e i err m p :
  wf m → path_at m i = Some p → alive p = true →
  let m' := demoteErr e i err m in
  let r := demotion_reason e (m_cfg m) p err in
  let b := backoff_of m (p_peer p) in let b' := backoff_of m' (p_peer p) in
  last (m_events m') = Some (failed_status e (p_peerVIP p) r (P2PReasonText r) true) ∧
  b_step b' = b_step b ∧
  (r = P2PReasonPeerClosed →
    b_until b' = now e + 30 * second ∧ b_qualityStep b' = b_qualityStep b) ∧
  (r = P2PReasonDirectLost →
    b_until b' = now e + ladderStep backoffLadderQuality (b_qualityStep b) ∧
    b_qualityStep b' = b_qualityStep b + 1).
Proof.
  intros Hwf Hp Ha. cbv zeta. destruct (demoteErr_reason e i err m p Hp) as [h ->].
  set (r := demotion_reason e (m_cfg m) p err). set (m1 := m <| m_scoutHits := h |>).
  assert (p_terminated p = false) as Ht.
  { destruct (p_terminated p) eqn:E; [|done]. apply (ok_terminated _ (wf_paths _ Hwf _ _ Hp)) in E.
    unfold alive in Ha. by rewrite E in Ha. }
  destruct (terminateDown_effects e i r m1 p Hp Ht) as [-> Hb].
  rewrite last_snoc. split; [done|]. rewrite !(backoff_of_eq _ _ _ Hb).
  assert (r = P2PReasonPeerClosed ∨ r = P2PReasonDirectLost) as [-> | ->]
    by (unfold r, demotion_reason; case_match; auto).
  - unfold scheduleRetry. rewrite bool_decide_true by done. cbv zeta.
    change (backoff_of (?a <| m_lastSwitch ::= ?f |>) ?d) with (backoff_of a d).
    rewrite backoff_of_put, decide_True by done.
    split_and!; [done|intros _; by split|discriminate].
  - unfold scheduleRetry. rewrite bool_decide_false by done. cbv zeta.
    change (backoff_of (?a <| m_lastSwitch ::= ?f |>) ?d) with (backoff_of a d).
    rewrite backoff_of_put, decide_True by done.
    change (backoff_of (setNATStale m1) (p_peer p)) with (backoff_of m (p_peer p)).
    split_and!; [done|discriminate|intros _; by split].
Qed.

(** A connection that lost the arbitration still counts as a failure. The
    replaced path is closed but not terminated, so a write it had in flight
    demotes it once more: the peer, whose other connection is up and stays so,
    is put on the quality ladder and the panel is told the peer fell back to the
    relay. *)
Theorem replaced_path_still_punishes e i j m p q err :
  wf m → path_at m i = Some p → p_state p = pathStateDown → p_terminated p = false →
  isPeerInitiatedClose err || isPeerInitiatedClose (p_connCause p) = false →
  scoutTearDownHeuristic e (m_cfg m) p = false →
  m_routes m !! p_peer p = Some j → path_at m j = Some q → p_state q = pathStateUp →
  let m' := demoteErr e i err m in
  m_routes m' !! p_peer p = Some j ∧ state_of m' j = Some pathStateUp ∧
  last (m_events m') = Some (failed_status e (p_peerVIP p) P2PReasonDirectLost
                               (P2PReasonText P2PReasonDirectLost) true) ∧
  b_until (backoff_of m' (p_peer p))
  = now e + ladderStep backoffLadderQuality (b_qualityStep (backoff_of m (p_peer p))).
Proof.
  intros Hwf Hp Hs Ht Hcause Hscout Hr Hq Hsq. cbv zeta.
  pose proof (demoteErr_reason e i err m p Hp) as [h E].
  unfold demotion_reason in E. rewrite Hcause, Hscout in E. cbn [orb] in E. rewrite E.
  set (m1 := m <| m_scoutHits := h |>).
  assert (wf m1) as Hwf1 by (unfold m1; by rewrite hits_same).
  assert (p_closed p = true) as Hc
    by (rewrite (ok_closed _ (wf_paths _ Hwf _ _ Hp)), Hs; done).
  pose proof (terminateDown_closed e i P2PReasonDirectLost m1 p Hwf1 Hp Ht Hc) as E1.
  destruct (terminateDown_effects e i P2PReasonDirectLost m1 p Hp Ht) as [-> Hb].
  assert (j ≠ i) as Hij by (intros ->; congruence).
  split_and!.
  - by rewrite (same_routes _ _ E1).
  - rewrite (same_state _ _ j E1). unfold state_of. rewrite path_at_set_ne by done.
    change (path_at m1 j) with (path_at m j). by rewrite Hq; cbn; rewrite Hsq.
  - by rewrite last_snoc.
  - rewrite !(backoff_of_eq _ _ _ Hb).
    unfold scheduleRetry. rewrite bool_decide_false by done. cbv zeta.
    change (backoff_of (?a <| m_lastSwitch ::= ?f |>) ?d) with (backoff_of a d).
    rewrite backoff_of_put, decide_True by done. done.
Qed.

(** ** Concrete instances *)

Lemma demo_up_wf : wf demo_up.
Proof. exact (reachable_wf _ _ demo_up_reachable). Qed.

Lemma silent_path_dies_witness :
  let m' := watch_ticks 1 [(at_ms 26000, None); (at_ms 27000, None)] demo_up in
  state_of m' 1 = Some pathStateDown ∧ (∀ d, m_routes m' !! d ≠ Some 1%positive) ∧
  (∀ d, 1%positive ∉ trials_of m' d).
Proof.
  apply (silent_path_dies 1 demo_up demo_path); [exact demo_up_wf|by vm_compute|by vm_compute| |discriminate|].
  - repeat constructor.
  - vm_compute. discriminate.
Defined.

Lemma terminate_once_witness :
  let m' := terminateDown (at_ms 30000) 1 P2PReasonDirectLost demo_up in
  dead_remains m' 1 demo_path ∧
  m_events m' = (m_events demo_up ++ [failed_status (at_ms 30000) (p_peerVIP demo_path)
    P2PReasonDirectLost (P2PReasonText P2PReasonDirectLost) true])%list ∧
  m_backoff m' = m_backoff (scheduleRetry (now (at_ms 30000)) (p_peer demo_path) P2PReasonDirectLost demo_up) ∧
  (∀ e' r', terminateDown e' 1 r' m' = m') ∧ (∀ e', close e' 1 m' = m').
Proof. apply terminate_once; [exact demo_up_wf|by vm_compute..]. Defined.

Definition remote_close : goError :=
  {| err_chain := [ApplicationError true]; err_text := "Application error 0x0 (remote): path closed" |}.

Lemma demotion_schedules_by_cause_witness :
  let m' := demoteErr (at_ms 30000) 1 (Some remote_close) demo_up in
  let r := demotion_reason (at_ms 30000) (m_cfg demo_up) demo_path (Some remote_close) in
  let b := backoff_of demo_up (p_peer demo_path) in let b' := backoff_of m' (p_peer demo_path) in
  last (m_events m') = Some (failed_status (at_ms 30000) (p_peerVIP demo_path) r (P2PReasonText r) true) ∧
  b_step b' = b_step b ∧
  (r = P2PReasonPeerClosed →
    b_until b' = now (at_ms 30000) + 30 * second ∧ b_qualityStep b' = b_qualityStep b) ∧
  (r = P2PReasonDirectLost →
    b_until b' = now (at_ms 30000) + ladderStep backoffLadderQuality (b_qualityStep b) ∧
    b_qualityStep b' = b_qualityStep b + 1).
Proof. apply demotion_schedules_by_cause; [exact demo_up_wf|by vm_compute..]. Defined.

(** Two simultaneous connections; the illegitimate one passes first and is
    replaced by the other. *)
Definition replaced : pathManager :=
  pass_both false (at_ms 1) (at_ms 2) 1 2 (two_trials hostA hostB pathRoleInitiator pathRoleResponder).

Lemma replaced_path_still_punishes_witness :
  let m' := demoteErr (at_ms 60000) 2 (Some local_close) replaced in
  m_routes m' !! hostB = Some 1%positive ∧ state_of m' 1 = Some pathStateUp ∧
  last (m_events m') = Some (failed_status (at_ms 60000) (ip4ToString hostB) P2PReasonDirectLost
                               (P2PReasonText P2PReasonDirectLost) true) ∧
  b_until (backoff_of m' hostB)
  = now (at_ms 60000) + ladderStep backoffLadderQuality (b_qualityStep (backoff_of replaced hostB)).
Proof.
  assert (wf replaced) as Hwf by (apply tryPassTrial_wf, tryPassTrial_wf, two_trials_wf).
  assert (∃ p q, path_at replaced 2 = Some p ∧ path_at replaced 1 = Some q ∧
            p_state p = pathStateDown ∧ p_terminated p = false ∧ p_peer p = hostB ∧
            p_peerVIP p = ip4ToString hostB ∧ p_connCause p = Some local_close ∧
            scoutTearDownHeuristic (at_ms 60000) (m_cfg replaced) p = false ∧
            p_state q = pathStateUp) as (p & q & Hp & Hq & Hs & Ht & Hpeer & Hvip & Hc & Hsc & Hsq).
  { do 2 eexists. split; [vm_compute; reflexivity|]. split; [vm_compute; reflexivity|].
    vm_compute. auto 10. }
  pose proof (replaced_path_still_punishes (at_ms 60000) 2 1 replaced p q (Some local_close)) as W.
  cbv zeta in W. rewrite Hpeer, Hvip, Hc in W. apply W; try done.
Defined.
