(* ===== verification/PathGate.v ===== *)
(** * What triggers guarantee

    The rate of the hot path's triggers, of the signalling queries and of the
    attempts they lead to. *)

From Stdlib Require Import ZArith Lia Bool String Sorted.
From stdpp Require Import base list gmap strings.
From S2P Require Import Prelude.
From S2P Require Import GoNet.
From S2P Require Import Reasons.
From S2P Require Import PeerTable.
From S2P Require Import GoFloat.
From S2P Require Import PathData.
From S2P Require Import Backoff.
From S2P Require Import PathCore.
From S2P Require Import PathInv.
From S2P Require Import PathTrial.
From S2P Require Import PathTrigger.
From S2P Require Import PathSteps.

Open Scope string_scope.
Open Scope Z_scope.

(** ** The budget of signalling queries *)

Record gateCall := { gc_t : time; gc_answer : SignalPeer + string; gc_dst : ip4 }.

(** Whether a call goes to the network: there is no fresh verdict and the
    budget allows it. *)
Definition gate_cached (t : time) (dst : ip4) (m : pathManager) : option bool :=
  match m_gate m !! dst with
  | Some g => if time_before t (g_until g) then Some (g_pass g) else None
  | None => None
  end.
Definition gate_kept (t : time) (m : pathManager) : list time :=
  List.filter (λ at_, time_sub t at_ <=? minute) (m_gateBudget m).
Definition gate_queries (t : time) (dst : ip4) (m : pathManager) : bool :=
  match gate_cached t dst m with
  | Some _ => false
  | None => (length (gate_kept t m) <? gateGlobalPerMin)%nat
  end.

(** The instants at which a run of calls queries the network. *)
Fixpoint gate_log (calls : list gateCall) (m : pathManager) : list time :=
  match calls with
  | [] => []
  | k :: calls =>
      let rest := gate_log calls (gateCheck (gc_t k) (gc_answer k) (gc_dst k) m).1 in
      if gate_queries (gc_t k) (gc_dst k) m then gc_t k :: rest else rest
  end.

Fixpoint calls_clocked (from : time) (calls : list gateCall) : Prop :=
  match calls with
  | [] => True
  | k :: calls => from <= gc_t k ∧ calls_clocked (gc_t k) calls
  end.

Definition in_window (w : time) (q : time) : bool := (w - minute <=? q) && (q <=? w).

Lemma notePeerPublicAddr_gate d a m :
  m_gate (notePeerPublicAddr d a m) = m_gate m ∧
  m_gateBudget (notePeerPublicAddr d a m) = m_gateBudget m.
Proof. unfold notePeerPublicAddr. repeat case_match; done. Qed.

Lemma gateCheck_budget t a d m :
  m_gateBudget (gateCheck t a d m).1
  = match gate_cached t d m with
    | Some _ => m_gateBudget m
    | None => if (length (gate_kept t m) <? gateGlobalPerMin)%nat then (gate_kept t m ++ [t])%list
              else gate_kept t m
    end.
Proof.
  unfold gateCheck. cbv zeta. fold (gate_cached t d m). fold (gate_kept t m).
  destruct (gate_cached t d m); [done|].
  rewrite Nat.ltb_antisym. destruct (_ <=? _)%nat; cbn [negb]; [done|].
  destruct a as [peer|]; [|done].
  set (m1 := m <| m_gateBudget := _ |>).
  destruct (notePeerPublicAddr_gate d (PublicAddr peer) m1) as [_ E].
  case_match; unfold putGate; cbn; exact E.
Qed.

Lemma filter_window_app w l1 l2 :
  List.filter (in_window w) (l1 ++ l2)%list
  = (List.filter (in_window w) l1 ++ List.filter (in_window w) l2)%list.
Proof. apply List.filter_app. Qed.

(** What matters of the past at [t]: the queries of the last minute, which the
    budget remembers, and no more than the budget of them in any window. *)
Definition budget_ok (t : time) (log : list time) (m : pathManager) : Prop :=
  Forall (λ q, q <= t) log ∧
  (∀ t', t <= t' → List.filter (λ q, time_sub t' q <=? minute) (m_gateBudget m)
                   = List.filter (λ q, time_sub t' q <=? minute) log) ∧
  (∀ w, (length (List.filter (in_window w) log) <= gateGlobalPerMin)%nat).

Lemma filter_filter_weaker (f g : time → bool) l :
  (∀ x, f x = true → g x = true) → List.filter f (List.filter g l) = List.filter f l.
Proof.
  intros H. induction l as [|x l IH]; [done|]. cbn. destruct (g x) eqn:Hg; cbn; [by rewrite IH|].
  destruct (f x) eqn:Hf; [|done]. apply H in Hf. congruence.
Qed.

Lemma filter_length_mono (f g : time → bool) l :
  (∀ x, In x l → f x = true → g x = true) →
  (length (List.filter f l) <= length (List.filter g l))%nat.
Proof.
  induction l as [|x l IH]; intros H; [done|]. cbn.
  assert (length (List.filter f l) <= length (List.filter g l))%nat by (apply IH; intros; apply H; cbn; auto).
  destruct (f x) eqn:Hf; [rewrite (H x) by (cbn; auto); cbn; lia|]. destruct (g x); cbn; lia.
Qed.

Lemma time_sub_minute t q : (time_sub t q <=? minute) = (t - q <=? minute).
Proof.
  pose proof (time_sub_le t q minute) as H. unfold int64_min, int64_max, minute, second, millisecond in *.
  destruct (Z.leb_spec (t - q) (60 * (1000 * 1000000))); [apply Z.leb_le|apply Z.leb_gt]; lia.
Qed.

Lemma budget_step t0 log m k :
  budget_ok t0 log m → t0 <= gc_t k →
  budget_ok (gc_t k) (log ++ if gate_queries (gc_t k) (gc_dst k) m then [gc_t k] else [])
    (gateCheck (gc_t k) (gc_answer k) (gc_dst k) m).1.
Proof.
  intros (Hpast & Hkept & Hwin) Ht. set (t := gc_t k) in *. unfold budget_ok.
  rewrite gateCheck_budget. unfold gate_queries.
  assert (∀ t', t <= t' → List.filter (λ q, time_sub t' q <=? minute) (gate_kept t m)
            = List.filter (λ q, time_sub t' q <=? minute) log) as Hk.
  { intros t' Ht'. unfold gate_kept. rewrite filter_filter_weaker; [apply Hkept; lia|].
    intros x. rewrite !time_sub_minute, !Z.leb_le. lia. }
  assert (Forall (λ q, q <= t) log) as Hpast' by (eapply Forall_impl; [exact Hpast|]; cbn; lia).
  destruct (gate_cached t (gc_dst k) m) as [b|].
  { rewrite app_nil_r. split_and!; [done| |done]. intros; apply Hkept; lia. }
  destruct (Nat.ltb_spec (length (gate_kept t m)) gateGlobalPerMin) as [Hlt|Hlt].
  2: { rewrite app_nil_r. by split_and!. }
  split_and!.
  - apply Forall_app. split; [done|]. repeat constructor. lia.
  - intros t' Ht'. by rewrite !List.filter_app, Hk.
  - intros w. rewrite filter_window_app, length_app. cbn [List.filter].
    destruct (in_window w t) eqn:Hw; cbn [length]; [|by rewrite Nat.add_0_r].
    assert (length (List.filter (in_window w) log) <= length (gate_kept t m))%nat; [|lia].
    assert (gate_kept t m = List.filter (λ q, time_sub t q <=? minute) log) as ->
      by (apply Hkept; lia).
    apply filter_length_mono. intros q _. unfold in_window in *. bool_hyps.
    rewrite time_sub_minute. intros [? ?]%andb_true_iff. bool_hyps. apply Z.leb_le. lia.
Qed.

Lemma budget_run t0 log m calls :
  budget_ok t0 log m → calls_clocked t0 calls →
  ∀ w, (length (List.filter (in_window w) (log ++ gate_log calls m)) <= gateGlobalPerMin)%nat.
Proof.
  revert t0 log m. induction calls as [|k calls IH]; intros t0 log m Hok Hc.
  - rewrite app_nil_r. apply Hok.
  - destruct Hc as [Ht Hc]. pose proof (budget_step t0 log m k Hok Ht) as Hok'. intros w.
    pose proof (IH _ _ _ Hok' Hc w) as H. rewrite <- app_assoc in H. cbn [gate_log].
    by destruct (gate_queries (gc_t k) (gc_dst k) m).
Qed.

(** The signalling service is never queried more than 30 times in any
    window of 60 seconds, whatever the destinations, the answers and the order
    of the calls. *)
Theorem gate_rate_limited cfg calls from w :
  calls_clocked from calls →
  (length (List.filter (in_window w) (gate_log calls (newPathManager cfg))) <= gateGlobalPerMin)%nat.
Proof.
  intros Hc. apply (budget_run from [] (newPathManager cfg) calls); [|done].
  split_and!; [constructor|done|cbn; intros; unfold gateGlobalPerMin; lia].
Qed.

(** *** The verdict is kept *)

Definition verdict_of (answer : SignalPeer + string) : bool :=
  match answer with inl peer => Online peer && SignalReady peer | inr _ => false end.
Definition verdict_ttl (answer : SignalPeer + string) : duration :=
  match answer with
  | inl peer => if Online peer && SignalReady peer then gatePositiveTTL else gateNegativeTTL
  | inr _ => gateFailBackoff
  end.

(** The verdict of a query is the peer's readiness, and it answers every
    later call for that destination without a query until its time is over:
    120 s when the peer is ready, 60 s when it is not, 30 s after an error; then
    the next call asks again. *)
Theorem gate_verdict_cached t answer dst m :
  gate_queries t dst m = true →
  let '(m', pass) := gateCheck t answer dst m in
  pass = verdict_of answer ∧
  (∀ t' answer', t' < t + verdict_ttl answer → gateCheck t' answer' dst m' = (m', pass)) ∧
  (∀ t', t + verdict_ttl answer <= t' → gate_cached t' dst m' = None).
Proof.
  intros Hq. destruct (gateCheck t answer dst m) as [m' pass] eqn:E.
  assert (pass = verdict_of answer ∧
    m_gate m' !! dst = Some {| g_pass := pass; g_until := t + verdict_ttl answer |}) as [Hv Hg].
  { revert E Hq. unfold gateCheck, gate_queries. cbv zeta. fold (gate_cached t dst m).
    fold (gate_kept t m). destruct (gate_cached t dst m); [done|].
    rewrite Nat.ltb_antisym. intros E Hq. apply negb_true_iff in Hq. rewrite Hq in E.
    unfold verdict_of, verdict_ttl. destruct answer as [peer|]; revert E.
    - destruct (Online peer), (SignalReady peer); cbn [negb orb andb]; intros [= <- <-];
        (split; [done|]); unfold putGate, time_add; cbn; by rewrite lookup_insert_eq.
    - intros [= <- <-]. split; [done|]. unfold putGate, time_add. cbn. by rewrite lookup_insert_eq. }
  split_and!; [done| |].
  - intros t' answer' Ht'. unfold gateCheck. rewrite Hg. cbn. unfold time_before.
    by rewrite (proj2 (Z.ltb_lt _ _) Ht').
  - intros t' Ht'. unfold gate_cached. rewrite Hg. cbn. unfold time_before.
    by rewrite (proj2 (Z.ltb_ge _ _) Ht').
Qed.

(** ** The rate of triggers *)

Inductive hotEvent := HObserve (t : time) (dst : ip4) | HPrune (t : time) | HDequeue.

Definition hot_event (ev : hotEvent) (m : pathManager) : pathManager :=
  match ev with
  | HObserve t dst => Observe t dst m
  | HPrune t => pruneTriggerSeen t m
  | HDequeue => m <| m_triggerCh ::= tail |>
  end.

(** A packet becomes a queued trigger. *)
Definition queues (t : time) (dst : ip4) (m : pathManager) : bool :=
  match m_routes m !! dst with
  | Some _ => false
  | None => negb (seenRecently t dst m).2 && (length (m_triggerCh m) <? triggerQueueLen)%nat
  end.

Fixpoint trigger_log (evs : list hotEvent) (m : pathManager) : list (time * ip4) :=
  match evs with
  | [] => []
  | ev :: evs =>
      let rest := trigger_log evs (hot_event ev m) in
      match ev with
      | HObserve t dst => if queues t dst m then (t, dst) :: rest else rest
      | _ => rest
      end
  end.

Fixpoint hot_clocked (from : time) (evs : list hotEvent) : Prop :=
  match evs with
  | [] => True
  | HDequeue :: evs => hot_clocked from evs
  | (HObserve t _ | HPrune t) :: evs => from <= t ∧ hot_clocked t evs
  end.

(** Nothing queued within the last 15 s is forgotten. *)
Definition remembers (t : time) (dst : ip4) (q : time) (s : gmap ip4 time) : Prop :=
  q + triggerSeenTTL <= t ∨ ∃ u, s !! dst = Some u ∧ q + triggerSeenTTL <= u.

Lemma prune_seen_lookup t s d u :
  prune_seen t s !! d = Some u ↔ s !! d = Some u ∧ t < u.
Proof. unfold prune_seen, time_before. rewrite map_lookup_filter_Some. cbn. by rewrite Z.ltb_lt. Qed.

Lemma remembers_prune t t' dst q s :
  remembers t dst q s → t <= t' → remembers t' dst q (prune_seen t' s).
Proof.
  intros [H|(u & Hu & Hq)] Ht; [left; lia|]. destruct (Z.le_gt_cases u t') as [Hle|Hgt]; [left; lia|].
  right. exists u. rewrite prune_seen_lookup. split; [split; [done|lia]|done].
Qed.

Lemma Observe_seen t dst m :
  m_triggerSeen (Observe t dst m)
  = match m_routes m !! dst with
    | Some _ => m_triggerSeen m
    | None => if (seenRecently t dst m).2 then m_triggerSeen m
              else <[dst := t + triggerSeenTTL]> (prune_seen t (m_triggerSeen m))
    end.
Proof.
  unfold Observe, seenRecently. destruct (m_routes m !! dst); [done|]. cbv zeta.
  repeat case_match; simplify_eq; cbn in *; try done.
Qed.

Lemma seen_miss t dst m u :
  (seenRecently t dst m).2 = false → m_triggerSeen m !! dst = Some u → u <= t.
Proof.
  unfold seenRecently. cbv zeta. intros H E. rewrite E in H. unfold time_before in H.
  destruct (Z.ltb_spec t u); [done|lia].
Qed.

Lemma remembers_observe t t' dst d q m :
  remembers t d q (m_triggerSeen m) → t <= t' → remembers t' d q (m_triggerSeen (Observe t' dst m)).
Proof.
  intros Hr Ht. unfold remembers in *. rewrite Observe_seen.
  destruct (m_routes m !! dst); [destruct Hr as [?|?]; [left; lia|by right]|].
  destruct (seenRecently t' dst m).2 eqn:Hs; [destruct Hr as [?|?]; [left; lia|by right]|].
  destruct (decide (dst = d)) as [<-|Hne].
  - left. destruct Hr as [?|(u & Hu & ?)]; [lia|]. pose proof (seen_miss _ _ _ _ Hs Hu). lia.
  - rewrite lookup_insert_ne by done.
    by apply (remembers_prune t).
Qed.

Lemma queued_remembered t dst m : queues t dst m = true → remembers t dst t (m_triggerSeen (Observe t dst m)).
Proof.
  unfold queues. intros H. right. rewrite Observe_seen. destruct (m_routes m !! dst); [done|].
  apply andb_true_iff in H as [H _]. apply negb_true_iff in H. rewrite H.
  exists (t + triggerSeenTTL). by rewrite lookup_insert_eq.
Qed.

(** What is queued later comes after what is remembered now. *)
Lemma remembered_apart t evs m d q :
  remembers t d q (m_triggerSeen m) → hot_clocked t evs →
  Forall (λ e, e.2 = d → q + triggerSeenTTL <= e.1) (trigger_log evs m).
Proof.
  revert t m. induction evs as [|ev evs IH]; intros t m Hr Hc; [constructor|].
  destruct ev as [t' dst|t'|]; cbn [trigger_log hot_event] in *.
  - destruct Hc as [Ht Hc].
    pose proof (IH _ _ (remembers_observe t t' dst d q m Hr Ht) Hc) as Hrest.
    destruct (queues t' dst m) eqn:Hq; [|done]. constructor; [|done]. cbn. intros ->.
    unfold queues in Hq. destruct (m_routes m !! d); [done|].
    apply andb_true_iff in Hq as [Hq _]. apply negb_true_iff in Hq.
    destruct Hr as [?|(u & Hu & ?)]; [lia|]. pose proof (seen_miss _ _ _ _ Hq Hu). lia.
  - destruct Hc as [Ht Hc]. apply (IH t'); [|done]. by apply (remembers_prune t).
  - by apply (IH t).
Qed.

(** However fast a program sends, the same destination is queued as a
    trigger at most once in 15 seconds, sweeps of the expired marks included. *)
Theorem triggers_deduplicated from evs m :
  hot_clocked from evs →
  StronglySorted (λ a b, a.2 = b.2 → a.1 + triggerSeenTTL <= b.1) (trigger_log evs m).
Proof.
  revert from m. induction evs as [|ev evs IH]; intros from m Hc; [constructor|].
  destruct ev as [t dst|t|]; cbn [trigger_log hot_event].
  - destruct Hc as [Ht Hc]. pose proof (IH t (Observe t dst m) Hc) as Hrest.
    destruct (queues t dst m) eqn:Hq; [|done]. constructor; [done|].
    eapply Forall_impl; [apply (remembered_apart t); [by apply queued_remembered|done]|].
    cbn. intros e H E. by apply H.
  - destruct Hc as [_ Hc]. by apply (IH t).
  - by apply (IH from).
Qed.

(** ** Attempts *)

(** What must hold for a destination to be tried. *)
Definition admissible (t : time) (h : hostState) (dst : ip4) (m : pathManager) : Prop :=
  h_p2pEnabled h = true ∧ (∃ v, h_myVIP4 h = Some v ∧ v ≠ dst) ∧
  isBroadcastOrMulticast4 dst = false ∧ h_natProbeReady h = true ∧ ip4ToString dst ≠ "" ∧
  (∀ u, m_evictAfter m !! dst = Some u → u <= t) ∧
  (∀ st, m_backoff m !! dst = Some st → b_until st <= t) ∧
  (dst ∉ m_pending m) ∧
  (∀ tbl q, m_quality m = Some tbl → (Unpunchable t dst tbl).2 = Some q → ForcedRetryUsed q = false).

(** The scheduler starts an attempt for a destination exactly when direct
    connections are on, this host has an address that is not the destination,
    the destination is a unicast address with a printable form, the NAT probe is
    done, neither the eviction cooldown nor the retry backoff is running, no
    attempt is pending, and the peer is not remembered as unpunchable with its
    forced retry used. *)
Theorem trigger_admission t h dst m : is_Some (handleTrigger t h dst m).2 ↔ admissible t h dst m.
Proof.
  unfold handleTrigger, admissible. destruct (h_p2pEnabled h); cbn [negb]; [|split; [by intros []|by intros []]].
  destruct (h_myVIP4 h) as [v|]; [|split; [by intros []|by intros (_ & (? & ? & _) & _)]].
  case_bool_decide as Hv; [split; [by intros []|intros (_ & (? & [= <-] & ?) & _); done]|].
  destruct (isBroadcastOrMulticast4 dst); [split; [by intros []|by intros (_ & _ & ? & _)]|].
  destruct (h_natProbeReady h); cbn [negb]; [|split; [by intros []|by intros (_ & _ & _ & ? & _)]].
  cbv zeta. case_bool_decide as Hip; [split; [by intros []|by intros (_ & _ & _ & _ & ? & _)]|].
  destruct (match m_evictAfter m !! dst with Some u => _ | None => _ end) eqn:He.
  { split; [by intros []|]. intros (_ & _ & _ & _ & _ & H & _).
    destruct (m_evictAfter m !! dst) as [u|]; [|done]. specialize (H u eq_refl). bool_hyps. lia. }
  destruct (match m_backoff m !! dst with Some st => _ | None => _ end) eqn:Hb.
  { split; [by intros []|]. intros (_ & _ & _ & _ & _ & _ & H & _).
    destruct (m_backoff m !! dst) as [u|]; [|done]. specialize (H u eq_refl). bool_hyps. lia. }
  case_bool_decide as Hp; [split; [by intros []|by intros (_ & _ & _ & _ & _ & _ & _ & ? & _)]|].
  unfold offerForcedRetry. cbn [m_quality set_field].
  assert (∀ Q : Prop, (true = true ∧ (∃ v', Some v = Some v' ∧ v' ≠ dst) ∧ false = false ∧ true = true ∧
     ip4ToString dst ≠ "" ∧ (∀ u, m_evictAfter m !! dst = Some u → u <= t) ∧
     (∀ st, m_backoff m !! dst = Some st → b_until st <= t) ∧ (dst ∉ m_pending m) ∧ Q) ↔ Q) as HQ.
  { intros Q. split; [by intros (_ & _ & _ & _ & _ & _ & _ & _ & ?)|]. intros HQ.
    split_and!; try done; [by exists v| |].
    - intros u Hu. rewrite Hu in He. bool_hyps. lia.
    - intros u Hu. rewrite Hu in Hb. bool_hyps. lia. }
  rewrite HQ. clear. cbn.
  destruct (m_quality m) as [tbl|]; [|split; [naive_solver|by eexists]].
  destruct (Unpunchable t dst tbl) as [tbl' [q|]] eqn:Hu; cbn.
  2: { split; [|by eexists]. intros _ tbl0 q0 [= <-] Hq. by rewrite Hu in Hq. }
  destruct (ForcedRetryUsed q) eqn:Hf; cbn.
  - split; [by intros []|]. intros H. specialize (H tbl q eq_refl). rewrite Hu in H.
    specialize (H eq_refl). congruence.
  - split; [|by eexists]. intros _ tbl0 q0 [= <-] Hq. rewrite Hu in Hq. cbn in Hq. by injection Hq as <-.
Qed.

(** *** At most one attempt per destination *)

(** The manager and the attempts whose goroutine is running. *)
Inductive attempt_step : pathManager * list attempt → pathManager * list attempt → Prop :=
  | as_admitted t h dst m m' a l :
      handleTrigger t h dst m = (m', Some a) → attempt_step (m, l) (m', a :: l)
  | as_refused t h dst m m' l :
      handleTrigger t h dst m = (m', None) → attempt_step (m, l) (m', l)
  | as_run x a m l : a ∈ l → attempt_step (m, l) (attemptFor x a m, l)
  | as_finish a m l1 l2 :
      attempt_step (m, (l1 ++ a :: l2)%list) (finish_attempt a m, (l1 ++ l2)%list)
  | as_observe t dst m l : attempt_step (m, l) (Observe t dst m, l)
  | as_invite vip m l : attempt_step (m, l) ((notifyInboundInvite vip m).1, l).

Inductive attempts_reachable (cfg : params) : pathManager * list attempt → Prop :=
  | ar_init : attempts_reachable cfg (newPathManager cfg, [])
  | ar_step s s' : attempts_reachable cfg s → attempt_step s s' → attempts_reachable cfg s'.

Lemma handleTrigger_pending t h dst m :
  let '(m', r) := handleTrigger t h dst m in
  match r with
  | Some a => a_dst a = dst ∧ (dst ∉ m_pending m) ∧ m_pending m' = {[dst]} ∪ m_pending m
  | None => m_pending m' = m_pending m
  end.
Proof.
  unfold handleTrigger, offerForcedRetry. cbv zeta.
  repeat (case_match; simplify_eq; try done); bool_hyps; cbn in *; split_and?; try done.
  all: set_solver.
Qed.

Lemma attemptFor_pending x a m : m_pending (attemptFor x a m) = m_pending m.
Proof.
  assert (∀ t an d m, m_pending (gateCheck t an d m).1 = m_pending m) as Hg.
  { intros t an d m0. unfold gateCheck, notePeerPublicAddr. cbv zeta.
    repeat (case_match; cbn in *; try done). }
  unfold attemptFor. pose proof (Hg (ae_gateNow x) (ae_answer x) (a_dst a) m) as H.
  destruct (gateCheck _ _ _ m) as [m1 []]; cbn [fst negb] in *; [|done]. rewrite <- H.
  unfold commit_attempt, takeNATStale, setBackoffTransient.
  repeat (case_match; simplify_eq; cbn in *; try done).
Qed.

Lemma attempts_inv cfg m l :
  attempts_reachable cfg (m, l) → NoDup (a_dst <$> l) ∧ m_pending m = list_to_set (a_dst <$> l).
Proof.
  intros H. remember (m, l) as s eqn:Hs. revert m l Hs.
  induction H as [|s s' _ IH Hstep]; intros m l Hs; [injection Hs as <- <-; split; [constructor|done]|].
  subst s'. inversion Hstep as [t h d m0 m' a l0 E|t h d m0 m' l0 E|x a m0 l0|a m0 l1 l2|t d m0 l0|v m0 l0];
    subst; destruct (IH _ _ eq_refl) as [Hnd Hset].
  - pose proof (handleTrigger_pending t h d m0) as Hp. rewrite E in Hp. destruct Hp as (Hd & Hn & Hp).
    cbn. rewrite Hd, Hp, Hset. split; [|done]. constructor; [|done]. rewrite Hset in Hn. set_solver.
  - pose proof (handleTrigger_pending t h d m0) as Hp. rewrite E in Hp. by rewrite Hp.
  - by rewrite attemptFor_pending.
  - rewrite fmap_app in *. cbn in *. apply NoDup_app in Hnd as (H1 & H2 & H3).
    apply NoDup_cons in H3 as [H3 H4]. split.
    + apply NoDup_app. split_and!; [done| |done]. intros y Hy Hy'. apply (H2 y Hy). by right.
    + cbn. rewrite Hset. rewrite !list_to_set_app_L. cbn.
      assert (a_dst a ∉ a_dst <$> l1) by (intros Hin; apply (H2 _ Hin); by left). set_solver.
  - split; [done|]. rewrite <- Hset. unfold Observe, seenRecently. cbv zeta.
    repeat (case_match; simplify_eq; cbn in *; try done).
  - split; [done|]. rewrite <- Hset. unfold notifyInboundInvite. repeat (case_match; try done).
Qed.

(** In every run of the scheduler no two attempts for the same destination
    are under way at once, and the pending set is exactly the destinations of
    the attempts under way: none is left behind when an attempt ends, however
    it ends. *)
Theorem attempts_exclusive cfg m l :
  attempts_reachable cfg (m, l) → NoDup (a_dst <$> l) ∧ m_pending m = list_to_set (a_dst <$> l).
Proof. apply attempts_inv. Qed.

(** ** Concrete instances *)

Definition no_answer : SignalPeer + string := inr "timeout".
Definition demo_calls : list gateCall :=
  [ {| gc_t := t0; gc_answer := no_answer; gc_dst := peer1 |};
    {| gc_t := t0 + second; gc_answer := no_answer; gc_dst := peer2 |} ].

Lemma gate_rate_limited_witness :
  (length (List.filter (in_window (t0 + second)) (gate_log demo_calls (newPathManager defaultParams)))
   <= gateGlobalPerMin)%nat.
Proof. apply (gate_rate_limited defaultParams demo_calls t0). by vm_compute; repeat split. Defined.

Lemma gate_verdict_cached_witness :
  let '(m', pass) := gateCheck t0 no_answer peer1 (newPathManager defaultParams) in
  pass = false ∧
  (∀ t' answer', t' < t0 + 30 * second → gateCheck t' answer' peer1 m' = (m', pass)) ∧
  (∀ t', t0 + 30 * second <= t' → gate_cached t' peer1 m' = None).
Proof. apply (gate_verdict_cached t0 no_answer peer1 (newPathManager defaultParams)). by vm_compute. Defined.

Definition demo_burst : list hotEvent :=
  [HObserve t0 peer1; HObserve (t0 + second) peer1; HPrune (t0 + 16 * second);
   HObserve (t0 + 16 * second) peer1].

Lemma triggers_deduplicated_witness :
  StronglySorted (λ a b, a.2 = b.2 → a.1 + triggerSeenTTL <= b.1)
    (trigger_log demo_burst (newPathManager defaultParams)) ∧
  length (trigger_log demo_burst (newPathManager defaultParams)) = 2%nat.
Proof.
  split; [|by vm_compute]. apply (triggers_deduplicated t0). vm_compute. repeat split; discriminate.
Defined.

Definition demo_host : hostState :=
  {| h_p2pEnabled := true; h_myVIP4 := Some me; h_natProbeReady := true |}.

Definition demo_attempt : attempt :=
  {| a_dst := peer1; a_peerVIP := "10.0.0.1"; a_myVIP := me; a_forcedOffer := false; a_reason := "" |}.

Lemma attempts_exclusive_witness :
  NoDup (a_dst <$> [demo_attempt]) ∧
  m_pending (handleTrigger t0 demo_host peer1 (newPathManager defaultParams)).1
  = list_to_set (a_dst <$> [demo_attempt]).
Proof.
  apply (attempts_exclusive defaultParams). eapply ar_step; [apply ar_init|].
  apply (as_admitted t0 demo_host peer1). vm_compute. reflexivity.
Defined.
