(* ===== verification/PathRace.v ===== *)
(** * Races between the goroutines of one path ([path.go])

    [PathCore] runs one operation at a time. Here the operations that settle a
    trial, end a path and shut the manager down are cut at their shared
    accesses: each atomic load, store, compare-and-swap and each critical
    section of another lock is one instruction, [routeMu] is taken and released
    explicitly, and the goroutines interleave freely. *)

From Stdlib Require Import ZArith Lia Bool String.
From stdpp Require Import base list.
From S2P Require Import Prelude.
From S2P Require Import GoNet.
From S2P Require Import Reasons.
From S2P Require Import PeerTable.
From S2P Require Import GoFloat.
From S2P Require Import PathData.

Open Scope list_scope.

(** ** Shared state and instructions *)

(** What the goroutines share about one path of one manager. *)
Record shared := {
  s_state : pathState;
  s_trialDone : bool;
  s_tracked : bool; (** in the trial table *)
  s_routed : bool; (** in the routing table *)
  s_closed : bool; (** its connection is closed *)
  s_closeOnce : bool;
  s_lock : bool; (** [routeMu] is held *)
  s_snapPaths : bool; (** it was in the snapshot of the routing table *)
  s_snapTrials : bool (** it was in the snapshot of the trial table *) }.

#[export] Instance eta_shared : Eta shared := λ s, {|
  s_state := s_state s; s_trialDone := s_trialDone s; s_tracked := s_tracked s;
  s_routed := s_routed s; s_closed := s_closed s; s_closeOnce := s_closeOnce s;
  s_lock := s_lock s; s_snapPaths := s_snapPaths s; s_snapTrials := s_snapTrials s |}.

Inductive instr :=
  | CheckTrial (** [if state != Trial return] *)
  | WinTrialDone (** [if !trialDone.CompareAndSwap(false, true) return] *)
  | SetTrialDone
  | Untrack
  | Lock
  | CheckTrialLocked (** [if state != Trial { unlock; return }] *)
  | InstallRoute
  | SetState (st : pathState)
  | Unlock
  | RemoveRoute (** a critical section of [routeMu] *)
  | ReplaceRoutes (** the same *)
  | CloseOnce (n : nat) (** [closeOnce.Do]: the next [n] instructions, once *)
  | CloseConn
  | SnapshotPaths
  | SnapshotTrials
  | IfInPaths (n : nat) (** the next [n] instructions, if the snapshot has the path *)
  | IfInTrials (n : nat).

Definition is_trial (s : shared) : bool := bool_decide (s_state s = pathStateTrial).

(** One instruction: the new shared state and what is left to run; [None] when
    it must wait. *)
Definition exec (i : instr) (rest : list instr) (s : shared) : option (shared * list instr) :=
  match i with
  | CheckTrial => Some (s, if is_trial s then rest else [])
  | WinTrialDone => if s_trialDone s then Some (s, []) else Some (s <| s_trialDone := true |>, rest)
  | SetTrialDone => Some (s <| s_trialDone := true |>, rest)
  | Untrack => Some (s <| s_tracked := false |>, rest)
  | Lock => if s_lock s then None else Some (s <| s_lock := true |>, rest)
  | CheckTrialLocked => Some (s, if is_trial s then rest else [Unlock])
  | InstallRoute => Some (s <| s_routed := true |>, rest)
  | SetState st => Some (s <| s_state := st |>, rest)
  | Unlock => Some (s <| s_lock := false |>, rest)
  | RemoveRoute => if s_lock s then None else Some (s <| s_routed := false |>, rest)
  | ReplaceRoutes => if s_lock s then None else Some (s <| s_routed := false |>, rest)
  | CloseOnce n => if s_closeOnce s then Some (s, drop n rest)
                   else Some (s <| s_closeOnce := true |>, rest)
  | CloseConn => Some (s <| s_closed := true |>, rest)
  | SnapshotPaths => Some (s <| s_snapPaths := s_routed s |>, rest)
  | SnapshotTrials => Some (s <| s_snapTrials := s_tracked s |>, rest)
  | IfInPaths n => Some (s, if s_snapPaths s then rest else drop n rest)
  | IfInTrials n => Some (s, if s_snapTrials s then rest else drop n rest)
  end.

(** ** The operations *)

(** [tryPassTrial], then [installAfterTrial] with no other path to the peer. *)
Definition pass_prog : list instr :=
  [CheckTrial; WinTrialDone; Untrack; Lock; CheckTrialLocked; InstallRoute; SetState pathStateUp;
   Unlock].

(** [close] *)
Definition close_prog : list instr :=
  [CloseOnce 4; SetTrialDone; Untrack; SetState pathStateDown; CloseConn].

(** [terminateDown] *)
Definition terminate_prog : list instr :=
  [SetTrialDone; Untrack; SetState pathStateDown; RemoveRoute] ++ close_prog.

(** [tryFailTrial], then [rejectTrialSettled] *)
Definition reject_prog : list instr :=
  [CheckTrial; WinTrialDone; CheckTrial; RemoveRoute; SetState pathStateRejected].

(** [ClearAll], and [pathManager.close] *)
Definition clear_prog : list instr :=
  [SnapshotPaths; ReplaceRoutes; IfInPaths 5] ++ close_prog ++
  [SnapshotTrials; IfInTrials 5] ++ close_prog.

(** ** Interleavings *)

Definition config : Type := shared * list (list instr).

Inductive run_step : config → config → Prop :=
  | run_instr s s' l1 l2 i rest rest' :
      exec i rest s = Some (s', rest') →
      run_step (s, l1 ++ (i :: rest) :: l2) (s', l1 ++ rest' :: l2).

Definition finished (c : config) : Prop := Forall (λ t, t = []) c.2.

(** The successors, executably. *)
Fixpoint nexts (s : shared) (before after : list (list instr)) : list config :=
  match after with
  | [] => []
  | t :: after =>
      match t with
      | [] => []
      | i :: rest => match exec i rest s with
                     | Some (s', rest') => [(s', before ++ rest' :: after)]
                     | None => []
                     end
      end ++ nexts s (before ++ [t]) after
  end.

Definition all_done (c : config) : bool := forallb (λ t, match t with [] => true | _ => false end) c.2.

(** Whether every run from [c] ends, within [n] steps, with every goroutine
    finished and [P] true. *)
Fixpoint always_ends (n : nat) (P : shared → bool) (c : config) : bool :=
  match n with
  | O => false
  | S n =>
      match nexts c.1 [] c.2 with
      | [] => all_done c && P c.1
      | l => forallb (always_ends n P) l
      end
  end.

Lemma nexts_complete s before l1 i rest l2 s' rest' :
  exec i rest s = Some (s', rest') →
  (s', before ++ l1 ++ rest' :: l2) ∈ nexts s before (l1 ++ (i :: rest) :: l2).
Proof.
  intros E. revert before. induction l1 as [|t l1 IH]; intros before; cbn.
  - rewrite E. by left.
  - apply elem_of_app. right. specialize (IH (before ++ [t])). by rewrite <- app_assoc in IH.
Qed.

Lemma always_ends_sound n P c c' :
  always_ends n P c = true → rtc run_step c c' →
  (∀ c'', ¬ run_step c' c'') → finished c' ∧ P c'.1 = true.
Proof.
  intros H Hrun. revert n H. induction Hrun as [c|c c1 c' Hstep Hrun IH]; intros [|n] H Hstuck; try done.
  - cbn in H. destruct c as [s l]. cbn in *. destruct (nexts s [] l) as [|c1 cs] eqn:Hn.
    + apply andb_true_iff in H as [H ?]. split; [|done]. unfold finished, all_done in *. cbn in *.
      apply Forall_forall. intros t Ht%list_elem_of_In.
      apply (proj1 (forallb_forall _ _) H t) in Ht. by destruct t.
    + exfalso. assert (c1 ∈ nexts s [] l) as Hin by (rewrite Hn; by left).
      clear -Hin Hstuck. assert (∀ before after, c1 ∈ nexts s before after →
        run_step (s, before ++ after) c1) as Hsound.
      { intros before after. revert before. induction after as [|t after IH]; intros before Hc; cbn in Hc.
        - by apply elem_of_nil in Hc.
        - apply elem_of_app in Hc as [Hc|Hc].
          + destruct t as [|i rest]; [by apply elem_of_nil in Hc|].
            destruct (exec i rest s) as [[s' rest']|] eqn:E; [|by apply elem_of_nil in Hc].
            apply list_elem_of_singleton in Hc as ->. by constructor.
          + apply IH in Hc. by rewrite <- app_assoc in Hc. }
      by apply (Hstuck c1), (Hsound [] l).
  - apply (IH n); [|done]. inversion Hstep as [s s' l1 l2 i rest rest' E]; subst. cbn in H.
    pose proof (nexts_complete s [] l1 i rest l2 s' rest' E) as Hin. cbn in Hin.
    destruct (nexts s [] _) as [|x xs]; [by apply elem_of_nil in Hin|].
    change (forallb (always_ends n P) (x :: xs) = true) in H. rewrite forallb_forall in H. apply H. by apply list_elem_of_In.
Qed.

Lemma finished_stuck c c' : finished c → ¬ run_step c c'.
Proof.
  intros Hf Hs. destruct Hs as [s s' l1 l2 i rest rest' E]. unfold finished in Hf. cbn in Hf.
  apply Forall_app in Hf as [_ Hf]. by inversion Hf.
Qed.

(** A run from a schedule: which goroutine moves at each step. *)
Fixpoint schedule (l : list nat) (c : config) : option config :=
  match l with
  | [] => Some c
  | k :: l =>
      match c.2 !! k with
      | Some (i :: rest) =>
          match exec i rest c.1 with
          | Some (s', rest') => schedule l (s', take k c.2 ++ rest' :: drop (S k) c.2)
          | None => None
          end
      | _ => None
      end
  end.

Lemma schedule_run l c c' : schedule l c = Some c' → rtc run_step c c'.
Proof.
  revert c. induction l as [|k l IH]; intros [s ts]; cbn; [by intros [= ->]|].
  destruct (ts !! k) as [[|i rest]|] eqn:Hk; try done.
  destruct (exec i rest s) as [[s' rest']|] eqn:E; [|done]. intros H.
  eapply rtc_l; [|by apply IH].
  rewrite <- (take_drop_middle ts k _ Hk) at 1.
  by constructor.
Qed.

(** ** The races *)

(** A path on trial, registered and open. *)
Definition on_trial_now : shared := {|
  s_state := pathStateTrial; s_trialDone := false; s_tracked := true; s_routed := false;
  s_closed := false; s_closeOnce := false; s_lock := false; s_snapPaths := false;
  s_snapTrials := false |}.

Definition start (l : list (list instr)) : config := (on_trial_now, l).

(** Gone: down, closed and in no table. *)
Definition gone (s : shared) : bool :=
  bool_decide (s_state s = pathStateDown) && s_closed s && negb (s_routed s) && negb (s_tracked s)
  && negb (s_lock s).

(** A trial that passes while the path is terminated leaves the path dead
    in every interleaving: whichever goroutine takes the route lock first, every
    run can only stop with both finished, and then the path is down, closed and
    in neither table. Never "up" on a closed connection. *)
Theorem install_vs_terminate c :
  rtc run_step (start [pass_prog; terminate_prog]) c → (∀ c', ¬ run_step c c') →
  finished c ∧ gone c.1 = true.
Proof. apply (always_ends_sound 40). vm_compute. reflexivity. Qed.

(** A close that is not a termination (an arbitration, an eviction, a
    shutdown) has no such guarantee: it does not take the route lock, so it can
    fall between the check and the store of the install, and the path ends up
    "up" and routed on a closed connection. (The path's watchdog repairs it only if
    it looks at the state after that store.) *)
Theorem install_vs_close_leaves_up :
  ∃ c, rtc run_step (start [pass_prog; close_prog]) c ∧ finished c ∧
    s_state c.1 = pathStateUp ∧ s_routed c.1 = true ∧ s_closed c.1 = true.
Proof.
  eexists. split.
  - apply (schedule_run [0; 0; 0; 0; 0; 1; 1; 1; 1; 1; 0; 0; 0]%nat). vm_compute. reflexivity.
  - split; [by repeat constructor|done].
Qed.

(** The shutdown can miss a path. The routing table is cleared before the
    trial passes and the trial table is read after the path left it, so the path
    is in neither snapshot: when both goroutines are finished it is up, routed
    and open, although direct connections were just switched off. *)
Theorem clear_misses_install :
  ∃ c, rtc run_step (start [pass_prog; clear_prog]) c ∧ finished c ∧
    s_state c.1 = pathStateUp ∧ s_routed c.1 = true ∧ s_closed c.1 = false.
Proof.
  eexists. split.
  - apply (schedule_run ([1; 1; 1; 0; 0; 0; 1; 1; 0; 0; 0; 0; 0])%nat). vm_compute. reflexivity.
  - split; [by repeat constructor|done].
Qed.

(** The guard of a settled rejection is a check, not a transition: a
    termination that runs between the check and the store is overwritten, and a
    closed path reads "rejected" although nothing is kept. *)
Theorem reject_revives_terminated :
  ∃ c, rtc run_step (start [reject_prog; terminate_prog]) c ∧ finished c ∧
    s_state c.1 = pathStateRejected ∧ s_closed c.1 = true ∧ s_routed c.1 = false.
Proof.
  eexists. split.
  - apply (schedule_run [0; 0; 0; 0; 1; 1; 1; 1; 1; 1; 1; 1; 1; 0]%nat). vm_compute. reflexivity.
  - split; [by repeat constructor|done].
Qed.

Definition demo_schedule : list nat := [0; 0; 0; 0; 0; 1; 1; 1; 0; 0; 0; 1; 1; 1; 1; 1; 1]%nat.
Definition demo_end : config :=
  default (start []) (schedule demo_schedule (start [pass_prog; terminate_prog])).

Lemma install_vs_terminate_witness : finished demo_end ∧ gone demo_end.1 = true.
Proof.
  apply install_vs_terminate.
  - apply (schedule_run demo_schedule). vm_compute. reflexivity.
  - intros c'. apply finished_stuck. unfold finished. vm_compute. repeat constructor.
Defined.
