(* ===== verification/PathFrames.v ===== *)
(** * Frames and streams of a direct connection
    ([client.go], 2615-2650; [path.go], 2880-3101 and 3153-3280)

    A frame is a big-endian 32-bit length and the bytes. The three streams of a
    connection are told apart by their first frame. A byte is a [Z] in
    [0, 256). *)

From Stdlib Require Import ZArith Lia Bool String.
From stdpp Require Import base list gmap strings.
From S2P Require Import Prelude.
From S2P Require Import GoNet.
From S2P Require Import Reasons.
From S2P Require Import PeerTable.
From S2P Require Import GoFloat.
From S2P Require Import PathData.
From S2P Require Import Backoff.
From S2P Require Import PathCore.
From S2P Require Import PathTrial.

Open Scope string_scope.
Open Scope Z_scope.
Open Scope list_scope.

Definition maxFrameSize : Z := 65535.
Definition maxGameDatagramSize : Z := 1200.
Definition directMaxDatagram : Z := maxGameDatagramSize.

Definition len (l : list Z) : Z := Z.of_nat (length l).

(** ** Big-endian lengths *)

Definition put_uint32 (v : Z) : list Z :=
  let v := wrap_u 32 v in
  [Z.shiftr v 24 mod 256; Z.shiftr v 16 mod 256; Z.shiftr v 8 mod 256; v mod 256].

Definition get_uint32 (b : list Z) : Z :=
  match b with
  | [b0; b1; b2; b3] =>
      Z.lor (Z.shiftl b0 24) (Z.lor (Z.shiftl b1 16) (Z.lor (Z.shiftl b2 8) b3))
  | _ => 0
  end.

(** ** Reading a stream

    What has arrived on a stream is a list of bytes and the error that follows
    them. [io.ReadFull] returns the bytes, or that error; an end of file in the
    middle becomes [UnexpectedEOF]. *)

Definition read_full (n : nat) (s : list Z) (e : errLeaf) : (list Z * list Z) + errLeaf :=
  if (n <=? length s)%nat then inl (take n s, drop n s)
  else inr (match e, s with EOF, _ :: _ => UnexpectedEOF | _, _ => e end).

Inductive frameErr :=
  | ReadErr (e : errLeaf)
  | InvalidLength (n : Z)
  | BufferTooSmall (n cap : Z).

(** [cap] is the length of the caller's buffer; the result is the frame and
    what follows it. *)
Definition readFrame (cap : Z) (s : list Z) (e : errLeaf) : (list Z * list Z) + frameErr :=
  match read_full 4 s e with
  | inr err => inr (ReadErr err)
  | inl (lenBuf, s) =>
      let length := get_uint32 lenBuf in
      if length =? 0 then inl ([], s)
      else if maxFrameSize <? length then inr (InvalidLength length)
      else if cap <? length then inr (BufferTooSmall length cap)
      else match read_full (Z.to_nat length) s e with
           | inr err => inr (ReadErr err)
           | inl (pkt, s) => inl (pkt, s)
           end
  end.

(** The bytes written, [None] for a frame that is too large. *)
Definition writeFrameToStream (data : list Z) : option (list Z) :=
  if maxFrameSize <? len data then None else Some (put_uint32 (len data) ++ data).

(** ** The data planes *)

(** [writeData]: the plane's label before the packet, in one frame. *)
Definition writeData (plane : pathPlaneIndex) (pkt : list Z) : list Z :=
  put_uint32 (1 + len pkt) ++ wrap_u 8 plane :: pkt.

(** One frame of [readStreamLoop]: what is delivered to the TUN. *)
Definition deliver (pkt : list Z) : option (list Z) :=
  match pkt with
  | plane :: ((_ :: _) as payload) =>
      if (plane <? planeTCP) || (planeICMP <? plane) then None else Some payload
  | _ => None
  end.

Lemma deliver_step e pkt i m : (readStreamStep e pkt i m).2 = deliver pkt.
Proof. unfold readStreamStep, deliver. repeat (case_match; try done). Qed.

(** [readStreamLoop] on everything that arrives: the packets delivered, and the
    error that ends it. Each turn takes four bytes at least. *)
Fixpoint readStreamLoop (fuel : nat) (s : list Z) (e : errLeaf) : list (list Z) * option frameErr :=
  match fuel with
  | O => ([], None)
  | S fuel =>
      match readFrame maxFrameSize s e with
      | inr err => ([], Some err)
      | inl (pkt, s) =>
          let '(out, err) := readStreamLoop fuel s e in
          (match deliver pkt with Some payload => payload :: out | None => out end, err)
      end
  end.

(** [writeDatagram]: what is sent, if anything. *)
Definition writeDatagram (pkt : list Z) : option (list Z) :=
  if directMaxDatagram <? len pkt then None else Some pkt.

(** ** The three streams *)

Definition streamKinds : list streamKind := [streamBulk; streamCrit; streamCtrl].

Definition kind_name (k : streamKind) : string :=
  match k with streamBulk => "bulk" | streamCrit => "crit" | streamCtrl => "ctrl" end.

(** The first frame of a stream, decoded. *)
Record streamDecl := { sd_Type : string; sd_Kind : string }.

Record streams := { ss_bulk : option positive; ss_crit : option positive; ss_ctrl : option positive }.

Definition no_streams : streams := {| ss_bulk := None; ss_crit := None; ss_ctrl := None |}.

#[export] Instance eta_streams : Eta streams := λ s,
  {| ss_bulk := ss_bulk s; ss_crit := ss_crit s; ss_ctrl := ss_ctrl s |}.

(** What [AcceptStream] and the read of the declaration give, one per turn. *)
Inductive incoming :=
  | AcceptFailed
  | DeclUnreadable (s : positive)
  | DeclInvalid (s : positive) (** the JSON does not decode *)
  | Declared (s : positive) (d : streamDecl).

Definition accept_one (ev : incoming) (st : streams) : option streams :=
  match ev with
  | Declared s d =>
      if negb (bool_decide (sd_Type d = "stream")) then None
      else if bool_decide (sd_Kind d = "bulk") then
        match ss_bulk st with Some _ => None | None => Some (st <| ss_bulk := Some s |>) end
      else if bool_decide (sd_Kind d = "crit") then
        match ss_crit st with Some _ => None | None => Some (st <| ss_crit := Some s |>) end
      else if bool_decide (sd_Kind d = "ctrl") then
        match ss_ctrl st with Some _ => None | None => Some (st <| ss_ctrl := Some s |>) end
      else None
  | _ => None
  end.

Fixpoint accept_loop (n : nat) (evs : list incoming) (st : streams) : option streams :=
  match n with
  | O => Some st
  | S n =>
      match evs with
      | [] => None
      | ev :: evs => match accept_one ev st with Some st => accept_loop n evs st | None => None end
      end
  end.

Definition acceptStreams (evs : list incoming) : option (positive * positive * positive) :=
  match accept_loop (length streamKinds) evs no_streams with
  | None => None
  | Some st =>
      match ss_bulk st, ss_crit st, ss_ctrl st with
      | Some b, Some c, Some k => Some (b, c, k)
      | _, _, _ => None
      end
  end.

(** What the initiator opens and declares, in order; [open] gives the handle of
    each stream, or fails. *)
Fixpoint open_loop (kinds : list streamKind) (open : streamKind → option positive)
  : option (list (positive * streamDecl)) :=
  match kinds with
  | [] => Some []
  | k :: kinds =>
      match open k with
      | None => None
      | Some s => match open_loop kinds open with
                  | Some l => Some ((s, {| sd_Type := "stream"; sd_Kind := kind_name k |}) :: l)
                  | None => None
                  end
      end
  end.

Definition openStreams := open_loop streamKinds.

(** ** Lemmas *)

Definition byte (b : Z) : Prop := 0 <= b < 256.

Lemma put_uint32_length v : length (put_uint32 v) = 4%nat.
Proof. done. Qed.

Lemma lor_shift_add a b k : 0 <= k → 0 <= b < 2 ^ k → Z.lor (Z.shiftl a k) b = a * 2 ^ k + b.
Proof.
  intros Hk Hb. rewrite Z.shiftl_mul_pow2 by done.
  rewrite <- (Z.add_lor_land), Z.land_comm.
  assert (Z.land b (a * 2 ^ k) = 0) as ->; [|lia].
  apply Z.bits_inj'. intros n Hn. rewrite Z.land_spec, Z.bits_0.
  destruct (Z.lt_ge_cases n k) as [Hlt|Hge].
  - by rewrite Z.mul_pow2_bits_low, andb_false_r by lia.
  - rewrite <- (Z.mod_small b (2 ^ k)) by done. by rewrite Z.mod_pow2_bits_high by lia.
Qed.

Lemma get_put_uint32 v : 0 <= v < 2 ^ 32 → get_uint32 (put_uint32 v) = v.
Proof.
  intros Hv. unfold put_uint32, get_uint32. rewrite wrap_u_small by done.
  rewrite !Z.shiftr_div_pow2 by lia.
  assert (∀ x, 0 <= x mod 256 < 256) as Hm by (intros; apply Z.mod_pos_bound; lia).
  pose proof (Hm v). pose proof (Hm (v / 2 ^ 8)). pose proof (Hm (v / 2 ^ 16)). pose proof (Hm (v / 2 ^ 24)).
  assert (v / 2 ^ 16 = v / 2 ^ 8 / 256) as E1 by (rewrite Z.div_div by lia; done).
  assert (v / 2 ^ 24 = v / 2 ^ 16 / 256) as E2 by (rewrite Z.div_div by lia; done).
  assert (v / 2 ^ 8 = v / 256) as E0 by done.
  rewrite (lor_shift_add _ (v mod 256)) by lia.
  rewrite (lor_shift_add (_ mod _) _ 16) by lia. rewrite lor_shift_add by lia.
  pose proof (Z.div_mod v 256 ltac:(lia)). pose proof (Z.div_mod (v / 2 ^ 8) 256 ltac:(lia)).
  pose proof (Z.div_mod (v / 2 ^ 16) 256 ltac:(lia)).
  rewrite (Z.mod_small (v / 2 ^ 24)) by (split; [apply Z.div_pos; lia|apply Z.div_lt_upper_bound; lia]).
  rewrite E2, E1, E0 in *. change (2 ^ 24) with 16777216. change (2 ^ 16) with 65536.
  change (2 ^ 8) with 256. lia.
Qed.

Lemma put_uint32_bytes v : Forall byte (put_uint32 v).
Proof. unfold put_uint32. repeat constructor; apply Z.mod_pos_bound; lia. Qed.

Lemma read_full_app n a b e : length a = n → read_full n (a ++ b) e = inl (a, b).
Proof.
  intros <-. unfold read_full. rewrite length_app, (proj2 (Nat.leb_le _ _)) by lia.
  by rewrite take_app_length, drop_app_length.
Qed.

Lemma readFrame_app cap body rest e :
  len body <= maxFrameSize → len body <= cap →
  readFrame cap (put_uint32 (len body) ++ body ++ rest) e = inl (body, rest).
Proof.
  intros Hmax Hcap. unfold readFrame. rewrite (read_full_app 4) by done.
  assert (0 <= len body < 2 ^ 32) as Hr by (unfold len, maxFrameSize in *; lia).
  rewrite get_put_uint32 by done. destruct (Z.eqb_spec (len body) 0) as [H0|H0].
  - unfold len in H0. by destruct body.
  - rewrite (proj2 (Z.ltb_ge _ _) Hmax), (proj2 (Z.ltb_ge _ _) Hcap).
    rewrite read_full_app; [done|]. unfold len. by rewrite Nat2Z.id.
Qed.

Lemma writeData_frame plane pkt : writeData plane pkt = put_uint32 (len (wrap_u 8 plane :: pkt)) ++ wrap_u 8 plane :: pkt.
Proof. unfold writeData, len. cbn [length]. do 2 f_equal. lia. Qed.

(** ** Theorems *)

(** Frames round-trip and stay aligned. What [writeFrameToStream] writes,
    [readFrame] reads back into any buffer that holds it, leaving exactly what
    was written next; a frame it refuses to write is one that [readFrame] would
    refuse. *)
Theorem frame_roundtrip cap data rest e :
  len data <= cap →
  match writeFrameToStream data with
  | Some bytes => readFrame cap (bytes ++ rest) e = inl (data, rest)
  | None => maxFrameSize < len data
  end.
Proof.
  intros Hcap. unfold writeFrameToStream. destruct (Z.ltb_spec maxFrameSize (len data)); [done|].
  rewrite <- app_assoc. by apply readFrame_app.
Qed.

(** Whatever arrives, a frame that is read is bounded by the frame limit and
    by the caller's buffer and is exactly the bytes its length announced: the
    stream is those four bytes, the frame and the rest, nothing skipped. *)
Theorem readFrame_bounded cap s e pkt rest :
  0 <= cap → Forall byte s → readFrame cap s e = inl (pkt, rest) →
  len pkt <= maxFrameSize ∧ len pkt <= cap ∧
  ∃ b0 b1 b2 b3, s = [b0; b1; b2; b3] ++ pkt ++ rest ∧
    get_uint32 [b0; b1; b2; b3] = len pkt.
Proof.
  intros Hcap Hs. unfold readFrame, read_full at 1. destruct (Nat.leb_spec 4 (length s)); [|done].
  destruct s as [|b0 [|b1 [|b2 [|b3 s]]]]; cbn [length] in *; try lia.
  cbn [take drop]. rewrite take_0, drop_0. do 4 (apply Forall_cons in Hs as [? Hs]). unfold byte in *.
  set (n := get_uint32 [b0; b1; b2; b3]).
  assert (0 <= n) as Hn.
  { unfold n, get_uint32. rewrite !Z.lor_nonneg, !Z.shiftl_nonneg. lia. }
  destruct (Z.eqb_spec n 0) as [E|E].
  { intros [= <- <-]. change (len []) with 0. unfold maxFrameSize. split_and!; [lia|lia|]. by exists b0, b1, b2, b3. }
  destruct (Z.ltb_spec maxFrameSize n), (Z.ltb_spec cap n); try done.
  unfold read_full. destruct (Nat.leb_spec (Z.to_nat n) (length s)) as [Hl|]; [|done].
  intros [= <- <-]. assert (len (take (Z.to_nat n) s) = n) as El
    by (unfold len; rewrite length_take; lia).
  split_and!; [lia|lia|]. exists b0, b1, b2, b3. rewrite El, take_drop. done.
Qed.

Lemma readStreamLoop_data fuel plane pkt rest e :
  1 + len pkt <= maxFrameSize →
  readStreamLoop (S fuel) (writeData plane pkt ++ rest) e
  = let '(out, err) := readStreamLoop fuel rest e in
    (match deliver (wrap_u 8 plane :: pkt) with Some payload => payload :: out | None => out end, err).
Proof.
  intros Hl. cbn [readStreamLoop]. rewrite writeData_frame.
  rewrite <- app_assoc, readFrame_app; [done|..]; unfold len, maxFrameSize in *; cbn [length]; lia.
Qed.

(** The packets put on one stream. *)
Definition sent (pkts : list (pathPlaneIndex * list Z)) : list Z :=
  concat (map (λ p, writeData p.1 p.2) pkts).

(** C27: end to end over one stream. Packets of a known plane, none empty and
    none longer than 65534 bytes, are delivered to the TUN of the other end each
    exactly once, unchanged and in order; then the loop ends with the stream's
    own error. *)
Theorem data_plane_in_order pkts e fuel :
  Forall (λ p, planeTCP <= p.1 <= planeICMP ∧ p.2 ≠ [] ∧ len p.2 < maxFrameSize) pkts →
  (length pkts < fuel)%nat →
  readStreamLoop fuel (sent pkts) e = (map snd pkts, Some (ReadErr e)).
Proof.
  intros Hall. revert fuel. induction Hall as [|[plane pkt] pkts (Hp & Hne & Hl) Hall IH]; intros fuel Hf.
  - destruct fuel as [|fuel]; [cbn in Hf; lia|]. cbn. by destruct e.
  - destruct fuel as [|fuel]; [cbn in Hf; lia|]. cbn [fst snd] in *.
    change (sent ((plane, pkt) :: pkts)) with (writeData plane pkt ++ sent pkts).
    rewrite readStreamLoop_data by lia. rewrite IH by (cbn in Hf; lia).
    assert (wrap_u 8 plane = plane) as -> by (apply wrap_u_small; unfold planeTCP, planeICMP in *; lia).
    destruct pkt as [|x pkt]; [done|]. cbn [deliver].
    rewrite (proj2 (Z.ltb_ge plane planeTCP)), (proj2 (Z.ltb_ge planeICMP plane)) by lia. done.
Qed.

(** A 65535-byte packet is one byte too many. [writeData] does not check the
    size of its frame, and the other end reads its length as invalid and gives
    the stream up, with every packet behind it. *)
Theorem oversized_packet_ends_stream plane pkt rest e fuel :
  len pkt = maxFrameSize →
  readStreamLoop (S fuel) (writeData plane pkt ++ rest) e = ([], Some (InvalidLength (maxFrameSize + 1))).
Proof.
  intros Hl. cbn [readStreamLoop]. unfold writeData, readFrame. rewrite <- app_assoc, (read_full_app 4) by done.
  rewrite Hl, get_put_uint32 by (unfold maxFrameSize; lia). done.
Qed.

(** *** Streams are told apart in any order *)

Definition decls (l : list (positive * streamDecl)) : list incoming := map (λ p, Declared p.1 p.2) l.

Lemma kind_perm_cases (l : list streamKind) :
  streamKinds ≡ₚ l → ∃ a b c, l = [a; b; c] ∧ a ≠ b ∧ a ≠ c ∧ b ≠ c.
Proof.
  intros H. pose proof (Permutation_length H) as Hl.
  assert (NoDup l) as Hnd by (rewrite <- H; apply (bool_decide_unpack _); by vm_compute).
  destruct l as [|a [|b [|c [|? ?]]]]; try done. exists a, b, c. split; [done|].
  rewrite !NoDup_cons, !not_elem_of_cons in Hnd. naive_solver.
Qed.

(** The declaration of a kind by a handle. *)
Definition declare (open : streamKind → positive) (k : streamKind) : incoming :=
  Declared (open k) {| sd_Type := "stream"; sd_Kind := kind_name k |}.

(** The two ends agree on the three streams. In whatever order the streams
    the initiator opened reach the responder, it files each under its own kind. *)
Theorem streams_agree open kinds opened :
  openStreams (λ k, Some (open k)) = Some opened → streamKinds ≡ₚ kinds →
  map (declare open) streamKinds = decls opened ∧
  acceptStreams (map (declare open) kinds) = Some (open streamBulk, open streamCrit, open streamCtrl).
Proof.
  intros [= <-] Hk. split; [done|].
  destruct (kind_perm_cases kinds Hk) as (a & b & c & -> & Hab & Hac & Hbc).
  by destruct a, b, c.
Qed.

(** The responder is fail-closed: it accepts three streams only when each
    of them declared itself as a stream of a known kind, each kind once; the
    handles it returns are those of the matching declarations. *)
Theorem accept_fail_closed evs b c k :
  acceptStreams evs = Some (b, c, k) →
  ∃ d1 d2 d3 rest, evs = d1 :: d2 :: d3 :: rest ∧
    [d1; d2; d3] ≡ₚ map (declare (λ kind, match kind with
                          | streamBulk => b | streamCrit => c | streamCtrl => k end)) streamKinds.
Proof.
  assert (∀ ev st st', accept_one ev st = Some st' →
    ∃ s kind, ev = declare (λ _, s) kind ∧
      match kind with
      | streamBulk => ss_bulk st = None ∧ st' = st <| ss_bulk := Some s |>
      | streamCrit => ss_crit st = None ∧ st' = st <| ss_crit := Some s |>
      | streamCtrl => ss_ctrl st = None ∧ st' = st <| ss_ctrl := Some s |>
      end) as Hone.
  { intros [|?|?|s [ty kd]] st st'; cbn; try done. case_bool_decide as Ht; [|done]. subst ty. cbn [negb].
    repeat case_bool_decide; subst; try done; case_match; try done; intros [= <-];
      [exists s, streamBulk|exists s, streamCrit|exists s, streamCtrl]; done. }
  unfold acceptStreams. cbn [accept_loop length streamKinds].
  destruct evs as [|d1 evs]; [done|]. destruct (accept_one d1 no_streams) as [st1|] eqn:E1; [|done].
  destruct evs as [|d2 evs]; [done|]. destruct (accept_one d2 st1) as [st2|] eqn:E2; [|done].
  destruct evs as [|d3 evs]; [done|]. destruct (accept_one d3 st2) as [st3|] eqn:E3; [|done].
  apply Hone in E1 as (s1 & k1 & -> & H1). apply Hone in E2 as (s2 & k2 & -> & H2).
  apply Hone in E3 as (s3 & k3 & -> & H3).
  intros H. exists (declare (λ _, s1) k1), (declare (λ _, s2) k2), (declare (λ _, s3) k3), evs.
  split; [done|]. destruct st1, st2, st3.
  destruct k1, k2, k3; destruct H1 as [_ [= -> -> ->]], H2 as [? [= -> -> ->]], H3 as [? [= -> -> ->]];
    try done; cbn in H; injection H as <- <- <-; cbn; unfold declare; cbn; solve_Permutation.
Qed.

(** ** Concrete instances *)

Lemma frame_roundtrip_witness : readFrame 512 ([0; 0; 0; 3; 7; 8; 9] ++ [42]) EOF = inl ([7; 8; 9], [42]).
Proof. apply (frame_roundtrip 512 [7; 8; 9] [42] EOF). vm_compute. discriminate. Defined.

Lemma readFrame_bounded_witness :
  len [7; 8] <= maxFrameSize ∧ len [7; 8] <= 512 ∧
  ∃ b0 b1 b2 b3, [0; 0; 0; 2; 7; 8; 9] = [b0; b1; b2; b3] ++ [7; 8] ++ [9] ∧
    get_uint32 [b0; b1; b2; b3] = len [7; 8].
Proof.
  apply (readFrame_bounded 512 [0; 0; 0; 2; 7; 8; 9] EOF [7; 8] [9]); [lia| |reflexivity].
  repeat constructor; discriminate.
Defined.

Lemma data_plane_in_order_witness :
  readStreamLoop 3 (sent [(planeTCP, [69; 0]); (planeICMP, [69; 1; 2])]) EOF
  = ([[69; 0]; [69; 1; 2]], Some (ReadErr EOF)).
Proof.
  apply (data_plane_in_order [(planeTCP, [69; 0]); (planeICMP, [69; 1; 2])] EOF 3); [|cbn; lia].
  repeat constructor; discriminate.
Defined.

Lemma oversized_packet_ends_stream_witness :
  readStreamLoop 1 (writeData planeTCP (repeat 69 (Z.to_nat maxFrameSize)) ++ writeData planeTCP [69]) EOF
  = ([], Some (InvalidLength 65536)).
Proof. apply oversized_packet_ends_stream. unfold len. by rewrite repeat_length, Z2Nat.id. Defined.

Lemma streams_agree_witness :
  let open := λ k, match k with streamBulk => 4%positive | streamCrit => 8%positive | streamCtrl => 12%positive end in
  map (declare open) streamKinds
  = decls (default [] (openStreams (λ k, Some (open k)))) ∧
  acceptStreams (map (declare open) [streamCtrl; streamBulk; streamCrit])
  = Some (4, 8, 12)%positive.
Proof.
  intros open. apply (streams_agree open [streamCtrl; streamBulk; streamCrit]); [reflexivity|].
  unfold streamKinds. solve_Permutation.
Defined.

Lemma accept_fail_closed_witness :
  ∃ d1 d2 d3 rest,
    [Declared 3 {| sd_Type := "stream"; sd_Kind := "ctrl" |};
     Declared 7 {| sd_Type := "stream"; sd_Kind := "bulk" |};
     Declared 11 {| sd_Type := "stream"; sd_Kind := "crit" |}] = d1 :: d2 :: d3 :: rest ∧
    [d1; d2; d3] ≡ₚ map (declare (λ kind, match kind with
                          | streamBulk => 7 | streamCrit => 11 | streamCtrl => 3 end%positive)) streamKinds.
Proof. apply accept_fail_closed. reflexivity. Defined.
