(* ===== verification/PunchAddrs.v ===== *)
(** * Candidate addresses of a punch
    ([vpn-tool/backend/quic/punch.go], 472-812)

    The list of addresses a host advertises to its peer, the prediction of the
    ports of a symmetric NAT, and the filter on a punched socket. *)

From Stdlib Require Import ZArith Lia Bool String Sorted.
From stdpp Require Import base list gmap strings sorting.
From S2P Require Import Prelude.
From S2P Require Import GoNet.

Open Scope Z_scope.
Open Scope list_scope.

(** ** Addresses ([net/netip]) *)

Inductive netAddr :=
  | AddrZero
  | Addr4 (a : ip4)
  | Addr6 (bytes : list Z) (zone : string).

#[export] Instance netAddr_eq_dec : EqDecision netAddr.
Proof. solve_decision. Defined.

Record AddrPort := { ap_addr : netAddr; ap_port : Z }.

#[export] Instance AddrPort_eq_dec : EqDecision AddrPort.
Proof. solve_decision. Defined.

Definition AddrPortFrom (a : netAddr) (port : Z) : AddrPort := {| ap_addr := a; ap_port := port |}.

Definition IsValid (a : AddrPort) : bool := match ap_addr a with AddrZero => false | _ => true end.
Definition Is4 (a : netAddr) : bool := match a with Addr4 _ => true | _ => false end.

(** An IPv4-mapped IPv6 address becomes the IPv4 address, its zone is
    dropped. *)
Definition Unmap (a : netAddr) : netAddr :=
  match a with
  | Addr6 bytes _ =>
      if bool_decide (take 12 bytes = v4_mapped_prefix) then
        match drop 12 bytes with
        | [a; b; c; d] => Addr4 (a, b, c, d)
        | _ => a
        end
      else a
  | _ => a
  end.

Definition unmapped (a : AddrPort) : AddrPort := AddrPortFrom (Unmap (ap_addr a)) (ap_port a).

(** The order of the candidates: by address, then by port. *)
Definition addr_num (a : netAddr) : Z := match a with Addr4 a => ip4_num a | _ => 0 end.
Definition ap_le (a b : AddrPort) : Prop :=
  addr_num (ap_addr a) < addr_num (ap_addr b) ∨
  addr_num (ap_addr a) = addr_num (ap_addr b) ∧ ap_port a <= ap_port b.
#[export] Instance ap_le_dec a b : Decision (ap_le a b).
Proof. unfold ap_le. apply _. Defined.

(** ** Normalising *)

Definition maxPunchAddrs : nat := 32.

(** One turn of the loop: the candidate of [a], if it makes one. *)
Definition candidate (a : AddrPort) : option AddrPort :=
  if negb (IsValid a) || (ap_port a =? 0) then None
  else let a := unmapped a in if Is4 (ap_addr a) then Some a else None.

Fixpoint dedup_loop (l out : list AddrPort) : list AddrPort :=
  match l with
  | [] => out
  | a :: l =>
      match candidate a with
      | None => dedup_loop l out
      | Some a => if bool_decide (a ∈ out) then dedup_loop l out else dedup_loop l (out ++ [a])
      end
  end.

Definition normalizePunchAddrs (addrs : list AddrPort) : list AddrPort :=
  take maxPunchAddrs (merge_sort ap_le (dedup_loop addrs [])).

(** [parsed]: what [parsePunchAddr] makes of each string ([None]: it is not an
    address). *)
Fixpoint parse_loop (parsed : list (option AddrPort)) (out : list AddrPort) : list AddrPort :=
  match parsed with
  | [] => out
  | None :: parsed => parse_loop parsed out
  | Some a :: parsed =>
      if negb (IsValid a) || (ap_port a =? 0) then parse_loop parsed out
      else let a := unmapped a in
           if bool_decide (a ∈ out) then parse_loop parsed out else parse_loop parsed (out ++ [a])
  end.

Definition parsePunchAddrs (parsed : list (option AddrPort)) : list AddrPort :=
  normalizePunchAddrs (parse_loop parsed []).

Definition peerAddrsFor (l : list AddrPort) (single : AddrPort) : list AddrPort :=
  normalizePunchAddrs
    ((if IsValid single && negb (ap_port single =? 0) then [single] else []) ++ l).

(** ** Predicting the ports of a symmetric NAT *)

Definition predictPortWindow : Z := 16.
Definition predictExtraPorts : Z := 16.

(** The [add] closure on the ports found so far. *)
Definition add_port (port : Z) (out : list Z) : list Z :=
  if (port =? 0) || (65535 <? port) || (maxPunchAddrs <=? length out)%nat then out
  else if bool_decide (port ∈ out) then out
  else out ++ [port].

(** [for p := from; p <= last && len(out) < max; p += step { add(p) }] *)
Fixpoint add_range (fuel : nat) (p last step : Z) (out : list Z) : list Z :=
  match fuel with
  | O => out
  | S fuel =>
      if (p <=? last) && (length out <? maxPunchAddrs)%nat
      then add_range fuel (p + step) last step (add_port p out)
      else out
  end.

(** Enough turns: each moves [p] up by one at least. *)
Definition range_fuel (p last : Z) : nat := Z.to_nat (last - p + 1).
Definition add_ports (p last step : Z) (out : list Z) : list Z :=
  add_range (range_fuel p last) p last step out.

(** The smallest non-zero difference of neighbours, [best] so far. *)
Fixpoint min_gap (ports : list Z) (best : Z) : Z :=
  match ports with
  | a :: ((b :: _) as ports) =>
      let gap := wrap_u 32 (b - a) in
      if gap =? 0 then min_gap ports best
      else min_gap ports (if (best =? 0) || (gap <? best) then gap else best)
  | _ => best
  end.

Definition same_ip (obs : list AddrPort) : bool :=
  match obs with
  | [] => true
  | a :: obs => forallb (λ b, bool_decide (ap_addr b = ap_addr a)) obs
  end.

(** The ports of the candidates, from the sorted observed ones. *)
Definition predict_ports (ports : list Z) : list Z :=
  match ports with
  | [] => []
  | minPort :: rest =>
      let single := match rest with [] => true | _ => false end in
      let best := min_gap ports 0 in
      let step := if single then 1 else if 0 <? best then best else 1 in
      let maxPort := if single then minPort else List.last ports minPort in
      let last := if single then minPort + predictPortWindow - 1 else maxPort + 4 in
      let out := add_ports minPort last step [] in
      let extraEnd := if single then minPort + predictPortWindow + predictExtraPorts
                      else maxPort + 4 + predictExtraPorts in
      let out := add_ports (last + step) extraEnd step out in
      let out := foldl (λ out port, add_port port out) out ports in
      let out := add_ports minPort (minPort + Z.of_nat maxPunchAddrs) 1 out in
      merge_sort Z.le out
  end.

Definition predictSymmetricCandidates (noPortPredict : bool) (obs : list AddrPort)
  : list AddrPort :=
  let obs := normalizePunchAddrs obs in
  match obs with
  | [] => []
  | a :: _ =>
      if noPortPredict then obs
      else if negb (same_ip obs) then obs
      else map (AddrPortFrom (ap_addr a)) (predict_ports (map ap_port obs))
  end.

Definition NATType : Type := string.
Definition NATUnknown : NATType := "unknown".
Definition NATFullCone : NATType := "full-cone".
Definition NATRestrictedCone : NATType := "restricted-cone".
Definition NATPortRestricted : NATType := "port-restricted".
Definition NATSymmetric : NATType := "symmetric".

Definition candidatesForNATType (noPortPredict : bool) (natType : NATType) (obs : list AddrPort)
  : list AddrPort :=
  if negb (bool_decide (natType = NATSymmetric)) then normalizePunchAddrs obs
  else match predictSymmetricCandidates noPortPredict obs with
       | [] => normalizePunchAddrs obs
       | got => got
       end.

(** ** The filter on a punched socket *)

Definition sameAddrPort (a b : AddrPort) : bool :=
  (ap_port a =? ap_port b) && bool_decide (Unmap (ap_addr a) = Unmap (ap_addr b)).

Definition newPeerFilterConn (peer : AddrPort) : AddrPort := unmapped peer.

(** Reads until a packet of the peer comes; the drops are counted. [from] is
    [None] for a source that is not an address and port. *)
Fixpoint peer_ReadFrom (peer : AddrPort) (incoming : list (option AddrPort * list Z)) (drops : Z)
  : option (list Z * list (option AddrPort * list Z)) * Z :=
  match incoming with
  | [] => (None, drops)
  | (from, p) :: incoming =>
      match from with
      | Some a => if sameAddrPort (unmapped a) peer then (Some (p, incoming), drops)
                  else peer_ReadFrom peer incoming (drops + 1)
      | None => peer_ReadFrom peer incoming (drops + 1)
      end
  end.

Definition peer_WriteTo (peer : AddrPort) (to : option AddrPort) (p : list Z)
  : option (AddrPort * list Z) :=
  match to with
  | Some a => if sameAddrPort (unmapped a) peer then Some (a, p) else None
  | None => None
  end.

(** ** Lemmas *)

Definition port_ok (p : Z) : Prop := 0 <= p < 65536.
Definition addr_ok (a : netAddr) : Prop :=
  match a with
  | AddrZero => True
  | Addr4 a => ip4_ok a
  | Addr6 b _ => length b = 16%nat ∧ Forall byte_ok b
  end.
Definition ap_ok (a : AddrPort) : Prop := addr_ok (ap_addr a) ∧ port_ok (ap_port a).

(** A candidate on the wire: an IPv4 address and a port that is not zero. *)
Definition wire_ok (a : AddrPort) : Prop :=
  (∃ ip, ap_addr a = Addr4 ip ∧ ip4_ok ip) ∧ 0 < ap_port a < 65536.

#[export] Instance ap_le_total : Total ap_le.
Proof. intros a b. unfold ap_le. lia. Qed.
#[export] Instance ap_le_trans : Transitive ap_le.
Proof. intros a b c. unfold ap_le. lia. Qed.

Lemma ap_le_antisym a b : wire_ok a → wire_ok b → ap_le a b → ap_le b a → a = b.
Proof.
  intros [(ia & Ea & Ha) _] [(ib & Eb & Hb) _]. destruct a as [a pa], b as [b pb]. cbn in *. subst.
  unfold ap_le. cbn. intros H1 H2. assert (ip4_num ia = ip4_num ib) as E by lia.
  apply ip4_num_inj in E; [|done..]. subst. f_equal. lia.
Qed.

Lemma unmap_ok a : addr_ok a → addr_ok (Unmap a).
Proof.
  destruct a as [|a|b z]; cbn; try done. intros [Hl Hb]. case_bool_decide as H; [|done].
  destruct b as [|? [|? [|? [|? [|? [|? [|? [|? [|? [|? [|? [|? [|b0 [|b1 [|b2 [|b3 [|? ?]]]]]]]]]]]]]]]]];
    try done. cbn. do 12 (apply Forall_cons in Hb as [_ Hb]).
  do 4 (apply Forall_cons in Hb as [? Hb]). done.
Qed.

Lemma candidate_wire a c : ap_ok a → candidate a = Some c → wire_ok c ∧ c = unmapped a.
Proof.
  intros [Ha Hp]. unfold candidate. destruct (negb _ || _) eqn:E; [done|]. bool_hyps.
  destruct (Is4 (ap_addr (unmapped a))) eqn:H4; [|done]. intros [= <-]. split; [|done].
  apply unmap_ok in Ha. split; [|unfold port_ok in Hp; cbn; lia].
  unfold unmapped in *. cbn in *. destruct (Unmap (ap_addr a)) as [|ip|]; try done. by exists ip.
Qed.

Lemma dedup_spec l out :
  NoDup out →
  NoDup (dedup_loop l out) ∧
  ∀ c, c ∈ dedup_loop l out ↔ c ∈ out ∨ ∃ a, a ∈ l ∧ candidate a = Some c.
Proof.
  revert out. induction l as [|a l IH]; intros out Hnd; cbn.
  - split; [done|]. intros c. split; [by left|]. intros [?|(? & H & _)]; [done|by apply elem_of_nil in H].
  - destruct (candidate a) as [c0|] eqn:Hc; [case_bool_decide as Hin|].
    + destruct (IH out Hnd) as [H1 H2]. split; [done|]. intros c. rewrite H2.
      split; [intros [?|(b & ? & ?)]; [by left|right; exists b; split; [by right|done]]|].
      intros [?|(b & Hb & E)]; [by left|]. apply elem_of_cons in Hb as [->|Hb]; [left|right; eauto].
      congruence.
    + destruct (IH (out ++ [c0])) as [H1 H2].
      { apply NoDup_app. split_and!; [done| |apply NoDup_singleton].
        intros x Hx ->%list_elem_of_singleton. done. }
      split; [done|]. intros c. rewrite H2, elem_of_app, list_elem_of_singleton.
      split.
      * intros [[?| ->]|(b & ? & ?)]; [by left|right; exists a; split; [by left|done]|].
        right. exists b. split; [by right|done].
      * intros [?|(b & Hb & E)]; [by auto|]. apply elem_of_cons in Hb as [->|Hb]; [|right; eauto].
        left. right. congruence.
    + destruct (IH out Hnd) as [H1 H2]. split; [done|]. intros c. rewrite H2.
      split; [intros [?|(b & ? & ?)]; [by left|right; exists b; split; [by right|done]]|].
      intros [?|(b & Hb & E)]; [by left|]. apply elem_of_cons in Hb as [->|Hb]; [congruence|right; eauto].
Qed.

(** The candidates of a list: what the normal form is drawn from. *)
Definition candidates (l : list AddrPort) : list AddrPort := merge_sort ap_le (dedup_loop l []).

Lemma candidates_spec l :
  Sorted ap_le (candidates l) ∧ NoDup (candidates l) ∧
  ∀ c, c ∈ candidates l ↔ ∃ a, a ∈ l ∧ candidate a = Some c.
Proof.
  destruct (dedup_spec l [] ltac:(constructor)) as [H1 H2]. unfold candidates. split_and!.
  - apply Sorted_merge_sort, _.
  - by rewrite merge_sort_Permutation.
  - intros c. rewrite merge_sort_Permutation, H2, elem_of_nil. naive_solver.
Qed.

Lemma candidates_wire l c : Forall ap_ok l → c ∈ candidates l → wire_ok c.
Proof.
  intros Hl Hc. apply candidates_spec in Hc as (a & Ha & E). rewrite Forall_forall in Hl.
  by destruct (candidate_wire a c (Hl a Ha) E).
Qed.

Lemma candidate_wire_id c : wire_ok c → candidate c = Some c.
Proof.
  intros [(ip & E & _) Hp]. destruct c as [a p]. cbn in *. subst. unfold candidate. cbn.
  destruct (Z.eqb_spec p 0); [lia|done].
Qed.

Lemma sorted_unique (l1 l2 : list AddrPort) :
  Forall wire_ok l1 → Sorted ap_le l1 → Sorted ap_le l2 → l1 ≡ₚ l2 → l1 = l2.
Proof.
  intros Hw H1 H2 Hp. apply (Sorted_unique_strong ap_le); [|done..].
  intros a b Ha Hb. rewrite Forall_forall in Hw. apply ap_le_antisym; apply Hw; [done|by rewrite Hp].
Qed.

(** ** The normal form *)

Lemma normalize_short l : (length (candidates l) <= maxPunchAddrs)%nat → normalizePunchAddrs l = candidates l.
Proof. intros H. unfold normalizePunchAddrs. fold (candidates l). by rewrite take_ge. Qed.

Lemma normalize_wire l : Forall ap_ok l → Forall wire_ok (normalizePunchAddrs l).
Proof.
  intros Hl. apply Forall_forall. intros c Hc. apply (candidates_wire l); [done|].
  unfold normalizePunchAddrs in Hc. by apply elem_of_take in Hc as (k & Hk & _); eapply list_elem_of_lookup_2.
Qed.

Lemma normalize_sorted l : Sorted ap_le (normalizePunchAddrs l) ∧ NoDup (normalizePunchAddrs l) ∧
  (length (normalizePunchAddrs l) <= maxPunchAddrs)%nat.
Proof.
  destruct (candidates_spec l) as (H1 & H2 & _). unfold normalizePunchAddrs. fold (candidates l).
  split_and!; [apply (take_sorted ap_le); done| |rewrite length_take; lia].
  rewrite <- (take_drop maxPunchAddrs (candidates l)) in H2. by apply NoDup_app in H2 as (? & _ & _).
Qed.

Lemma candidates_id l : Forall wire_ok l → Sorted ap_le l → NoDup l → candidates l = l.
Proof.
  intros Hw Hs Hnd. destruct (candidates_spec l) as (H1 & H2 & H3). symmetry.
  apply sorted_unique; [done..|]. apply NoDup_Permutation; [done..|]. intros c. rewrite H3.
  rewrite Forall_forall in Hw. split.
  - intros Hc. exists c. split; [done|]. by apply candidate_wire_id, Hw.
  - intros (a & Ha & E). rewrite candidate_wire_id in E by auto. by injection E as <-.
Qed.

(** What is advertised is a list of at most 32 distinct IPv4 addresses with
    a port, in increasing order; each is one of the addresses given (an
    IPv4-mapped one as IPv4), none is lost unless there are more than 32, and
    normalising again changes nothing, so both ends of the signalling agree on
    the form. *)
Theorem normalize_canonical l :
  Forall ap_ok l →
  let n := normalizePunchAddrs l in
  Sorted ap_le n ∧ NoDup n ∧ (length n <= maxPunchAddrs)%nat ∧ Forall wire_ok n ∧
  (∀ c, c ∈ n → ∃ a, a ∈ l ∧ candidate a = Some c) ∧
  ((length n < maxPunchAddrs)%nat → ∀ a c, a ∈ l → candidate a = Some c → c ∈ n) ∧
  normalizePunchAddrs n = n.
Proof.
  intros Hl. cbv zeta. destruct (normalize_sorted l) as (H1 & H2 & H3).
  pose proof (normalize_wire l Hl) as H4. destruct (candidates_spec l) as (_ & _ & H5).
  split_and!; [done..| | |].
  - intros c Hc. apply H5. unfold normalizePunchAddrs in Hc.
    apply elem_of_take in Hc as (k & Hk & _). by eapply list_elem_of_lookup_2.
  - intros Hlt a c Ha Hc. rewrite normalize_short; [apply H5; eauto|].
    unfold normalizePunchAddrs in Hlt. fold (candidates l) in Hlt. rewrite length_take in Hlt. lia.
  - rewrite normalize_short; rewrite candidates_id by done; done.
Qed.

(** The single address of an old peer joins the list, but it can still be
    cut: with 32 lower candidates it is the one that the limit drops, although
    it is meant to be kept in any case. *)
Theorem single_address_dropped :
  let single := AddrPortFrom (Addr4 (1, 2, 3, 4)) 50000 in
  let l := map (AddrPortFrom (Addr4 (1, 2, 3, 4))) (seqZ 40000 32) in
  (single ∉ peerAddrsFor l single) ∧ length (peerAddrsFor l single) = maxPunchAddrs.
Proof. split; [apply (bool_decide_unpack _)|]; vm_compute; reflexivity. Qed.

(** ** Prediction *)

Lemma add_port_spec p out :
  NoDup out → (length out <= maxPunchAddrs)%nat → Forall (λ q, 0 < q < 65536) out → 0 <= p →
  let out' := add_port p out in
  NoDup out' ∧ (length out' <= maxPunchAddrs)%nat ∧ Forall (λ q, 0 < q < 65536) out' ∧
  (∀ q, q ∈ out → q ∈ out') ∧ (∀ q, q ∈ out' → q ∈ out ∨ q = p) ∧
  ((length out < maxPunchAddrs)%nat → 0 < p < 65536 → p ∈ out').
Proof.
  intros Hnd Hl Hall Hp. unfold add_port. destruct (_ || _ || _) eqn:E; cbn.
  { split_and!; try done; auto. intros Hlt Hr. exfalso.
    apply orb_true_iff in E as [E|E%Nat.leb_le]; [|lia]. apply orb_true_iff in E as [E|E]; bool_hyps; lia. }
  apply orb_false_iff in E as [E E3%Nat.leb_gt]. bool_hyps.
  case_bool_decide as Hin; [split_and!; done || auto|].
  split_and!.
  - apply NoDup_app. split_and!; [done| |apply NoDup_singleton]. by intros x Hx ->%list_elem_of_singleton.
  - rewrite length_app. cbn. lia.
  - apply Forall_app. split; [done|]. repeat constructor; lia.
  - intros q Hq. apply elem_of_app. by left.
  - intros q [Hq|Hq%list_elem_of_singleton]%elem_of_app; auto.
  - intros _ _. apply elem_of_app. right. by left.
Qed.

(** What a run of additions keeps. *)
Definition ports_ok (out : list Z) : Prop :=
  NoDup out ∧ (length out <= maxPunchAddrs)%nat ∧ Forall (λ q, 0 < q < 65536) out.

Lemma add_port_ok p out : ports_ok out → 0 <= p → ports_ok (add_port p out).
Proof. intros (? & ? & ?) Hp. by destruct (add_port_spec p out) as (? & ? & ? & _). Qed.

Lemma add_port_incl p q out : ports_ok out → 0 <= p → q ∈ out → q ∈ add_port p out.
Proof. intros (? & ? & ?) Hp. destruct (add_port_spec p out) as (_ & _ & _ & Hi & _); auto. Qed.

Lemma add_range_ok fuel p last step out :
  ports_ok out → 0 <= p → 0 <= step →
  ports_ok (add_range fuel p last step out) ∧ ∀ q, q ∈ out → q ∈ add_range fuel p last step out.
Proof.
  revert p out. induction fuel as [|fuel IH]; intros p out Hok Hp Hs; cbn; [done|].
  destruct (_ && _); [|done].
  destruct (IH (p + step) (add_port p out)) as [H1 H2]; [by apply add_port_ok|lia|done|].
  split; [done|]. intros q Hq. by apply H2, add_port_incl.
Qed.

Lemma add_all_ok ports out :
  ports_ok out → Forall (λ p, 0 <= p) ports →
  let out' := foldl (λ out port, add_port port out) out ports in
  ports_ok out' ∧ ∀ q, q ∈ out → q ∈ out'.
Proof.
  intros Hok Hall. revert out Hok. induction Hall as [|p ports Hp Hall IH]; intros out Hok; [done|].
  cbn. destruct (IH (add_port p out)) as [H1 H2]; [by apply add_port_ok|].
  split; [done|]. intros q Hq. by apply H2, add_port_incl.
Qed.

Lemma min_gap_spec l best :
  0 <= best → 0 <= min_gap l best.
Proof.
  revert best. induction l as [|a [|b l] IH]; intros best Hb; try done. cbn [min_gap].
  destruct (_ =? 0); [by apply IH|]. apply IH. case_match; [|done]. apply wrap_u_range. lia.
Qed.

(** Whatever the passes before it found, the last one fills up from the lowest
    port. *)
Lemma predict_ports_shape p0 rest :
  Forall (λ p, 0 < p < 65536) (p0 :: rest) →
  ∃ o, ports_ok o ∧
    predict_ports (p0 :: rest) = merge_sort Z.le (add_ports p0 (p0 + Z.of_nat maxPunchAddrs) 1 o).
Proof.
  intros Hall. unfold predict_ports. assert (0 < p0 < 65536) as H0 by (by apply Forall_inv in Hall). cbv zeta.
  set (single := match rest with [] => true | _ => false end).
  set (step := if single then 1 else _).
  assert (0 <= step) as Hs by (unfold step; pose proof (min_gap_spec (p0 :: rest) 0); repeat case_match; lia).
  set (maxPort := if single then p0 else _).
  assert (0 < maxPort) as Hm.
  { unfold maxPort. destruct single; [lia|]. rewrite Forall_forall in Hall.
    assert (List.last (p0 :: rest) p0 ∈ p0 :: rest) as Hin; [|by apply Hall in Hin; lia].
    clear. revert p0. induction rest as [|q rest IH]; intros p0; [by left|].
    change (List.last (p0 :: q :: rest) p0) with (List.last (q :: rest) p0).
    right. destruct rest as [|r rest]; [by left|].
    replace (List.last (q :: r :: rest) p0) with (List.last (q :: r :: rest) q); [apply IH|].
    change (List.last (r :: rest) q = List.last (r :: rest) p0).
    clear. revert r. induction rest as [|x rest IH]; intros r; [done|].
    change (List.last (x :: rest) q = List.last (x :: rest) p0). apply IH. }
  set (last1 := if single then _ else maxPort + 4).
  assert (0 <= last1) as Hl1 by (unfold last1, predictPortWindow; case_match; lia).
  set (ext := if single then _ else _).
  unfold add_ports.
  destruct (add_range_ok (range_fuel p0 last1) p0 last1 step []) as [K1 _]; [|lia|done|].
  { split_and!; try constructor. unfold maxPunchAddrs. cbn. lia. }
  set (o1 := add_range _ p0 last1 step []) in *.
  destruct (add_range_ok (range_fuel (last1 + step) ext) (last1 + step) ext step o1) as [K2 _]; [done|lia|done|].
  set (o2 := add_range _ (last1 + step) ext step o1) in *.
  destruct (add_all_ok (p0 :: rest) o2 K2) as [K3 _].
  { eapply Forall_impl; [exact Hall|]. cbn. lia. }
  set (o3 := foldl _ o2 _) in *.
  by exists o3.
Qed.

Lemma predict_ports_ok ports :
  Forall (λ p, 0 < p < 65536) ports →
  let out := predict_ports ports in
  NoDup out ∧ (length out <= maxPunchAddrs)%nat ∧ Forall (λ q, 0 < q < 65536) out ∧ Sorted Z.le out.
Proof.
  intros Hall. cbv zeta. destruct ports as [|p0 rest].
  { split_and!; try constructor. unfold maxPunchAddrs. cbn. lia. }
  destruct (predict_ports_shape p0 rest Hall) as (o & Ho & ->). apply Forall_inv in Hall.
  destruct (add_range_ok (range_fuel p0 (p0 + Z.of_nat maxPunchAddrs)) p0 (p0 + Z.of_nat maxPunchAddrs) 1 o Ho)
    as [(N & L & F) _]; [lia|lia|].
  split_and!; try (by rewrite merge_sort_Permutation). apply Sorted_merge_sort, _.
Qed.

(** Predicted candidates are advertisable, whatever was observed: at most
    32, pairwise different, in increasing order of port, each an IPv4 address
    with a real port, and on an address that was observed. *)
Theorem prediction_advertisable np obs :
  Forall ap_ok obs →
  let c := predictSymmetricCandidates np obs in
  NoDup c ∧ (length c <= maxPunchAddrs)%nat ∧ Forall wire_ok c ∧ Sorted ap_le c ∧
  Forall (λ a, ap_addr a ∈ map ap_addr (normalizePunchAddrs obs)) c.
Proof.
  intros Hobs. cbv zeta. pose proof (normalize_wire obs Hobs) as Hw.
  destruct (normalize_sorted obs) as (H1 & H2 & H3).
  assert (Forall (λ a, ap_addr a ∈ map ap_addr (normalizePunchAddrs obs)) (normalizePunchAddrs obs)) as H4.
  { apply Forall_forall. intros a Ha. by apply list_elem_of_fmap_2. }
  unfold predictSymmetricCandidates. destruct (normalizePunchAddrs obs) as [|a n] eqn:En; [done|].
  rewrite <- En in *. destruct np; [done|]. destruct (same_ip _); cbn [negb]; [|done].
  destruct (predict_ports_ok (map ap_port (normalizePunchAddrs obs))) as (K1 & K2 & K3 & K4).
  { apply Forall_forall. intros p Hp. apply list_elem_of_fmap in Hp as (b & -> & Hb).
    rewrite Forall_forall in Hw. by apply Hw. }
  assert (a ∈ normalizePunchAddrs obs) as Ha by (rewrite En; by left).
  assert (wire_ok a) as [Hip _] by (rewrite Forall_forall in Hw; by apply Hw).
  split_and!.
  - apply NoDup_fmap_2; [|done]. by intros x y [= ->].
  - by rewrite length_map.
  - apply Forall_fmap. eapply Forall_impl; [exact K3|]. intros p Hp. by split.
  - clear -K4. induction K4 as [|p l Hl IH Hp]; cbn; constructor; [done|].
    destruct Hp; constructor. by right.
  - apply Forall_fmap, Forall_true. intros p. cbn. by apply list_elem_of_fmap_2.
Qed.

(** *** What a range of additions reaches *)

Lemma length_add_port p out : (length (add_port p out) <= S (length out))%nat.
Proof. unfold add_port. repeat case_match; rewrite ?length_app; cbn; lia. Qed.

Lemma add_range_hits fuel p last step out k :
  ports_ok out → 0 < p → 0 < step → (length out + k < maxPunchAddrs)%nat → (k < fuel)%nat →
  p + Z.of_nat k * step <= last → p + Z.of_nat k * step < 65536 →
  p + Z.of_nat k * step ∈ add_range fuel p last step out.
Proof.
  revert fuel p out. induction k as [|k IH]; intros fuel p out Hok Hp Hs Hlen Hf Hlast Hmax;
    (destruct fuel as [|fuel]; [lia|]); cbn [add_range].
  - rewrite (proj2 (Z.leb_le p last)) by lia. rewrite (proj2 (Nat.ltb_lt _ _)) by lia. cbn [andb].
    apply add_range_ok; [apply add_port_ok; [done|lia]|lia|lia|].
    replace (p + Z.of_nat 0 * step) with p by lia.
    destruct Hok as (? & ? & ?). apply add_port_spec; try done; lia.
  - rewrite (proj2 (Z.leb_le p last)) by nia. rewrite (proj2 (Nat.ltb_lt _ _)) by lia. cbn [andb].
    pose proof (length_add_port p out).
    replace (p + Z.of_nat (S k) * step) with ((p + step) + Z.of_nat k * step) by lia.
    apply IH; try lia. apply add_port_ok; [done|lia].
Qed.

Lemma add_range_within fuel p last step out q :
  0 < step → q ∈ add_range fuel p last step out → q ∈ out ∨ p <= q <= last.
Proof.
  intros Hs. revert p out. induction fuel as [|fuel IH]; intros p out; cbn [add_range]; [by left|].
  destruct (Z.leb_spec p last), (length out <? maxPunchAddrs)%nat; cbn [andb]; auto.
  intros [Hq|Hq]%IH; [|right; lia].
  unfold add_port in Hq. repeat case_match; auto.
  apply elem_of_app in Hq as [?|Hq%list_elem_of_singleton]; [by left|right; lia].
Qed.

Lemma length_add_range fuel p last step out :
  (length (add_range fuel p last step out) <= length out + fuel)%nat.
Proof.
  revert p out. induction fuel as [|fuel IH]; intros p out; cbn [add_range]; [lia|].
  destruct (_ && _); [|lia]. pose proof (IH (p + step) (add_port p out)). pose proof (length_add_port p out). lia.
Qed.

Lemma empty_ok : ports_ok [].
Proof. split_and!; try constructor. unfold maxPunchAddrs. cbn. lia. Qed.

(** One observed port: the candidates are exactly that port and the 31 after
    it, as far as ports go. *)
Theorem single_observation_window p :
  0 < p < 65536 → ∀ q, q ∈ predict_ports [p] ↔ p <= q <= Z.min (p + 31) 65535.
Proof.
  intros Hp. unfold predict_ports, predictPortWindow, predictExtraPorts. cbv zeta. cbn [foldl].
  replace (p + 16 - 1) with (p + 15) by lia. replace (p + 15 + 1) with (p + 16) by lia.
  unfold add_ports, range_fuel. replace (p + 15 - p + 1) with 16 by lia.
  replace (p + 16 + 16 - (p + 16) + 1) with 17 by lia.
  replace (p + Z.of_nat maxPunchAddrs - p + 1) with 33 by (unfold maxPunchAddrs; lia).
  change (p + Z.of_nat maxPunchAddrs) with (p + 32).
  set (o1 := add_range (Z.to_nat 16) p (p + 15) 1 []).
  set (o2 := add_range (Z.to_nat 17) (p + 16) (p + 16 + 16) 1 o1).
  destruct (add_range_ok (Z.to_nat 16) p (p + 15) 1 []) as [K1 _]; [apply empty_ok|lia|lia|]. fold o1 in K1.
  destruct (add_range_ok (Z.to_nat 17) (p + 16) (p + 16 + 16) 1 o1) as [K2 I2]; [done|lia|lia|]. fold o2 in K2, I2.
  pose proof (add_port_ok p o2 K2 ltac:(lia)) as K3.
  destruct (add_range_ok (Z.to_nat 33) p (p + 32) 1 (add_port p o2) K3) as [K4 I4]; [lia|lia|].
  set (o4 := add_range (Z.to_nat 33) p (p + 32) 1 (add_port p o2)) in *.
  assert (∀ q, p <= q <= Z.min (p + 31) 65535 → q ∈ o4) as Hin.
  { intros q Hq. apply I4, add_port_incl; [done|lia|].
    destruct (Z.le_gt_cases q (p + 15)).
    - apply I2. replace q with (p + Z.of_nat (Z.to_nat (q - p)) * 1) by lia.
      apply add_range_hits; try lia; [apply empty_ok|unfold maxPunchAddrs; cbn; lia].
    - replace q with (p + 16 + Z.of_nat (Z.to_nat (q - (p + 16))) * 1) by lia.
      apply add_range_hits; try lia; [done|].
      pose proof (length_add_range (Z.to_nat 16) p (p + 15) 1 []) as Hl. fold o1 in Hl.
      unfold maxPunchAddrs. cbn in Hl. lia. }
  assert (∀ q, q ∈ o4 → p <= q <= p + 32 ∧ q < 65536) as Hwithin.
  { intros q Hq. destruct K4 as (_ & _ & F). rewrite Forall_forall in F. pose proof (F q Hq).
    split; [|lia]. apply add_range_within in Hq as [Hq|?]; [|lia|lia].
    assert (q ∈ o2 ∨ q = p) as [Hq'| ->] by (destruct K2 as (? & ? & ?); apply (add_port_spec p o2); auto; lia);
      [|lia].
    apply add_range_within in Hq' as [Hq'|?]; [|lia|lia].
    apply add_range_within in Hq' as [Hq'|?]; [by apply elem_of_nil in Hq'|lia|lia]. }
  intros q. rewrite merge_sort_Permutation. split; [|by apply Hin]. intros Hq.
  destruct (Hwithin q Hq) as [? ?]. destruct (decide (q = p + 32)) as [->|]; [|lia]. exfalso.
  destruct K4 as (N & L & _).
  assert (length (seqZ p 33) <= length o4)%nat as Hlen; [|rewrite length_seqZ in Hlen; unfold maxPunchAddrs in L; lia].
  apply submseteq_length, NoDup_submseteq; [apply NoDup_seqZ|].
  intros x Hx%elem_of_seqZ. destruct (decide (x = p + 32)) as [->|]; [done|]. apply Hin. lia.
Qed.

(** Two observed ports: both are advertised, and so is every port the same
    step further up to four above the second one. *)
Theorem two_observations_kept a b :
  0 < a → a < b → b < 65536 → a ∈ predict_ports [a; b] ∧ b ∈ predict_ports [a; b] ∧
  (∀ k : nat, b + Z.of_nat k * (b - a) <= b + 4 → b + Z.of_nat k * (b - a) < 65536 →
    b + Z.of_nat k * (b - a) ∈ predict_ports [a; b]).
Proof.
  intros Ha Hab Hb.
  assert (∀ k : nat, (k < 6)%nat → a + Z.of_nat k * (b - a) <= b + 4 → a + Z.of_nat k * (b - a) < 65536 →
    a + Z.of_nat k * (b - a) ∈ predict_ports [a; b]) as H.
  { intros k Hk Hle Hmax. unfold predict_ports. cbv zeta. cbn [min_gap List.last].
    assert (wrap_u 32 (b - a) = b - a) as -> by (apply wrap_u_small; lia).
    rewrite (proj2 (Z.eqb_neq (b - a) 0)) by lia. cbn [Z.eqb orb].
    rewrite (proj2 (Z.ltb_lt 0 (b - a))) by lia. rewrite merge_sort_Permutation. unfold add_ports.
    set (o1 := add_range (range_fuel a (b + 4)) a (b + 4) (b - a) []).
    destruct (add_range_ok (range_fuel a (b + 4)) a (b + 4) (b - a) []) as [K1 _]; [apply empty_ok|lia|lia|].
    fold o1 in K1.
    match goal with |- context [add_range ?f (b + 4 + ?s) ?x ?st o1] =>
      destruct (add_range_ok f (b + 4 + s) x st o1 K1) as [K2 I2]; [lia|lia|];
      set (o2 := add_range f (b + 4 + s) x st o1) in * end.
    destruct (add_all_ok [a; b] o2 K2) as [K3 I3]; [repeat constructor; lia|].
    apply add_range_ok; [done|lia|lia|]. apply I3, I2.
    apply add_range_hits; try lia; [apply empty_ok|unfold maxPunchAddrs; cbn; lia|].
    unfold range_fuel. nia. }
  split_and!.
  - replace a with (a + Z.of_nat 0 * (b - a)) at 1 by lia. apply H; lia.
  - replace b with (a + Z.of_nat 1 * (b - a)) at 1 by lia. apply H; lia.
  - intros k Hk Hmax. replace (b + Z.of_nat k * (b - a)) with (a + Z.of_nat (S k) * (b - a)) in * by lia.
    apply H; nia.
Qed.

(** Three observed ports can lose one. The step is the smallest gap, the
    limit of 32 is reached before the largest port, and the last pass that
    restores the observed ports finds the list full; yet they are the ones the
    signalling service checks the list against. *)
Theorem observed_port_dropped :
  (40000 ∉ predict_ports [1000; 1001; 40000]) ∧
  length (predict_ports [1000; 1001; 40000]) = maxPunchAddrs.
Proof. split; [apply (bool_decide_unpack _)|]; vm_compute; reflexivity. Qed.

Lemma predict_ports_nonempty p0 rest :
  Forall (λ p, 0 < p < 65536) (p0 :: rest) → predict_ports (p0 :: rest) ≠ [].
Proof.
  intros Hall. destruct (predict_ports_shape p0 rest Hall) as (o & Ho & ->). apply Forall_inv in Hall.
  intros E%(f_equal length). rewrite merge_sort_Permutation in E.
  destruct (decide (length o < maxPunchAddrs)%nat) as [Hlt|Hge].
  - assert (p0 + Z.of_nat 0 * 1 ∈ add_ports p0 (p0 + Z.of_nat maxPunchAddrs) 1 o) as Hin.
    { unfold add_ports. apply add_range_hits; unfold range_fuel in *; try done; lia. }
    apply length_zero_iff_nil in E. rewrite E in Hin. by apply elem_of_nil in Hin.
  - destruct o as [|x o]; [unfold maxPunchAddrs in Hge; cbn in Hge; lia|].
    destruct (add_range_ok (range_fuel p0 (p0 + Z.of_nat maxPunchAddrs)) p0 (p0 + Z.of_nat maxPunchAddrs) 1 _ Ho)
      as [_ I]; [lia|lia|].
    apply length_zero_iff_nil in E. specialize (I x ltac:(by left)). unfold add_ports in E. rewrite E in I.
    by apply elem_of_nil in I.
Qed.

(** The gate of the prediction. Only a symmetric NAT advertises predicted
    ports; for every other type the candidates are the observed addresses, and
    the list is empty for neither unless nothing was observed. *)
Theorem prediction_gated np natType obs :
  Forall ap_ok obs →
  candidatesForNATType np natType obs
  = (if bool_decide (natType = NATSymmetric) then predictSymmetricCandidates np obs
     else normalizePunchAddrs obs) ∧
  (candidatesForNATType np natType obs = [] → normalizePunchAddrs obs = []).
Proof.
  intros Hobs. unfold candidatesForNATType. case_bool_decide; cbn [negb]; [|done].
  destruct (predictSymmetricCandidates np obs) as [|x l] eqn:E; [|done].
  assert (normalizePunchAddrs obs = []) as H0; [|by rewrite H0].
  pose proof (normalize_wire obs Hobs) as Hw. revert E. unfold predictSymmetricCandidates.
  destruct (normalizePunchAddrs obs) as [|a n]; [done|]. destruct np; [done|].
  destruct (same_ip _); cbn [negb]; [|done]. intros E%fmap_nil_inv. exfalso. revert E.
  apply predict_ports_nonempty. apply (proj2 (Forall_fmap ap_port _ (a :: n))).
  eapply Forall_impl; [exact Hw|]. by intros ? [].
Qed.

(** ** The filter *)

(** On a punched socket nothing but the peer gets through. A read returns
    the first packet that came from the peer's address and port (an IPv4-mapped
    source counts as IPv4) with the packets behind it untouched, after dropping
    and counting the others; a write to any other address is refused. *)
Theorem peer_filter_exact peer incoming drops to p :
  let k := newPeerFilterConn peer in
  let mine := λ e : option AddrPort * list Z, match e.1 with
                | Some a => unmapped a = unmapped peer | None => False end in
  (match peer_ReadFrom k incoming drops with
   | (Some (q, rest), d) => ∃ dropped from, incoming = dropped ++ (from, q) :: rest ∧ mine (from, q) ∧
                            Forall (λ e, ¬ mine e) dropped ∧ d = drops + Z.of_nat (length dropped)
   | (None, d) => Forall (λ e, ¬ mine e) incoming ∧ d = drops + Z.of_nat (length incoming)
   end) ∧
  (∀ a q, peer_WriteTo k to p = Some (a, q) → to = Some a ∧ q = p ∧ unmapped a = unmapped peer).
Proof.
  cbv zeta.
  assert (∀ a, Unmap (Unmap (ap_addr a)) = Unmap (ap_addr a)) as Hidem.
  { intros [[|ip|b z] port]; cbn; try done. case_bool_decide as Hb; [|by cbn; rewrite bool_decide_false].
    destruct (drop 12 b) as [|? [|? [|? [|? [|? ?]]]]] eqn:Ed; cbn; rewrite ?bool_decide_true by done;
      rewrite ?Ed; done. }
  assert (∀ a, sameAddrPort (unmapped a) (newPeerFilterConn peer) = true ↔ unmapped a = unmapped peer) as Hsame.
  { intros a. unfold sameAddrPort, newPeerFilterConn, unmapped. cbn.
    rewrite !Hidem, andb_true_iff, Z.eqb_eq, bool_decide_eq_true. split; [by intros [-> ->]|by intros [= -> ->]]. }
  split.
  - revert drops. induction incoming as [|[from q] incoming IH]; intros drops; cbn [peer_ReadFrom].
    + split; [constructor|cbn; lia].
    + destruct from as [a|]; [destruct (sameAddrPort _ _) eqn:E|].
      * exists [], (Some a). apply Hsame in E. split_and!; [done|done|constructor|cbn; lia].
      * assert (unmapped a ≠ unmapped peer) as Hn by (intros H%Hsame; congruence).
        specialize (IH (drops + 1)). destruct (peer_ReadFrom _ _ _) as [[[q' rest]|] d].
        -- destruct IH as (dr & f & -> & H1 & H2 & ->). exists ((Some a, q) :: dr), f.
           split_and!; [done|done|by constructor|cbn [length]; lia].
        -- destruct IH as [H1 ->]. split; [by constructor|cbn [length]; lia].
      * specialize (IH (drops + 1)). destruct (peer_ReadFrom _ _ _) as [[[q' rest]|] d].
        -- destruct IH as (dr & f & -> & H1 & H2 & ->). exists ((None, q) :: dr), f.
           split_and!; [done|done|constructor; [by intros []|done]|cbn [length]; lia].
        -- destruct IH as [H1 ->]. split; [constructor; [by intros []|done]|cbn [length]; lia].
  - intros a q. unfold peer_WriteTo. destruct to as [b|]; [|done].
    destruct (sameAddrPort _ _) eqn:E; [|done]. intros [= <- <-]. apply Hsame in E. done.
Qed.

(** ** Witnesses *)

(** What a symmetric NAT showed: two ports of one address, one of them twice,
    IPv4-mapped. *)
Definition demo_obs : list AddrPort :=
  [AddrPortFrom (Addr4 (203, 0, 113, 7)) 40010; AddrPortFrom (Addr4 (203, 0, 113, 7)) 40000;
   AddrPortFrom (Addr6 (v4_mapped_prefix ++ [203; 0; 113; 7])%list EmptyString) 40010].

Lemma demo_obs_ok : Forall ap_ok demo_obs.
Proof. repeat constructor; cbn; lia. Qed.

Lemma normalize_canonical_witness :
  normalizePunchAddrs demo_obs = [AddrPortFrom (Addr4 (203, 0, 113, 7)) 40000;
                                  AddrPortFrom (Addr4 (203, 0, 113, 7)) 40010] ∧
  NoDup (normalizePunchAddrs demo_obs).
Proof. split; [vm_compute; reflexivity|apply (normalize_canonical demo_obs demo_obs_ok)]. Defined.

Lemma prediction_advertisable_witness :
  length (predictSymmetricCandidates false demo_obs) = 32%nat ∧
  NoDup (predictSymmetricCandidates false demo_obs).
Proof. split; [vm_compute; reflexivity|apply (prediction_advertisable false demo_obs demo_obs_ok)]. Defined.

Lemma single_observation_window_witness : 40031 ∈ predict_ports [40000].
Proof. apply (single_observation_window 40000); lia. Defined.

Lemma two_observations_kept_witness : 40010 ∈ predict_ports [40000; 40010].
Proof. apply (two_observations_kept 40000 40010); lia. Defined.

Lemma prediction_gated_witness :
  candidatesForNATType false NATSymmetric demo_obs = [] → normalizePunchAddrs demo_obs = [].
Proof. apply (prediction_gated false NATSymmetric demo_obs demo_obs_ok). Defined.
