(* ===== verification/PunchManager.v ===== *)
(** * Punch sessions and their manager
    ([vpn-tool/backend/quic/punch.go], 137-268, 894-1260, 1263-1873)

    The manager owns the sessions in flight, the per-peer cooldowns and the
    streaks of busy answers. Each critical section of [m.mu] is one function;
    the parts of a session that talk to the network are arguments. Strings that
    the source passes through [strings.TrimSpace] are the trimmed ones. *)

From Stdlib Require Import ZArith Lia Bool String.
From stdpp Require Import base list gmap strings.
From S2P Require Import Prelude.
From S2P Require Import GoNet.
From S2P Require Import Reasons.
From S2P Require Import PeerTable.
From S2P Require Import GoFloat.
From S2P Require Import PathData.
From S2P Require Import Backoff.
From S2P Require Import PathCore.
From S2P Require Import PathTrigger.
From S2P Require Import PunchAddrs.

Open Scope string_scope.
Open Scope Z_scope.

(** ** Constants *)

Definition punchAttemptBudget : duration := 40 * second.
Definition punchStageFloor : duration := 2 * second.
Definition punchRetryFloor : duration := 15 * second.
Definition punchCooldown : duration := 60 * second.
Definition punchMaxResponder : Z := 2.
Definition punchSamePeerGuard : duration := 10 * second.
Definition punchBusyCooldown : duration := 30 * second.
Definition punchBusyCooldownMax : duration := 5 * minute.
Definition punchBusyStreakMaxEntries : nat := 1024.
Definition punchBusyLadder : list duration := [30 * second; 60 * second; 120 * second; 5 * minute].

(** ** Data *)

(** What the initiator learns from a [punch-peer] push. *)
Record peerReady := { pr_addr : AddrPort; pr_addrs : list AddrPort; pr_fp : string }.

Inductive punchRole := initiator | responder.
#[export] Instance punchRole_eq_dec : EqDecision punchRole.
Proof. solve_decision. Defined.

Record punchSession := {
  ps_id : string;
  ps_peerVIP : string;
  ps_role : punchRole;
  ps_windowMs : Z;
  ps_peerFP : string;
  ps_peerPunchAddr : AddrPort;
  ps_peerPunchAddrs : list AddrPort;
  ps_deadline : time;
  ps_trigger : string;
  ps_state : string;
  ps_reason : string;
  ps_succeeded : bool;
  ps_detached : bool;
  ps_released : bool;
  ps_rttDirect : Z;
  ps_rttQuic : Z;
  ps_probeGot : Z;
  ps_probeTotal : Z;
  ps_peerNATType : string;
  ps_peerAddr : string;
  ps_peerReadyCh : option peerReady }.

#[export] Instance eta_punchSession : Eta punchSession := λ s, {|
  ps_id := ps_id s; ps_peerVIP := ps_peerVIP s; ps_role := ps_role s; ps_windowMs := ps_windowMs s;
  ps_peerFP := ps_peerFP s; ps_peerPunchAddr := ps_peerPunchAddr s;
  ps_peerPunchAddrs := ps_peerPunchAddrs s; ps_deadline := ps_deadline s;
  ps_trigger := ps_trigger s; ps_state := ps_state s; ps_reason := ps_reason s;
  ps_succeeded := ps_succeeded s; ps_detached := ps_detached s; ps_released := ps_released s;
  ps_rttDirect := ps_rttDirect s; ps_rttQuic := ps_rttQuic s; ps_probeGot := ps_probeGot s;
  ps_probeTotal := ps_probeTotal s; ps_peerNATType := ps_peerNATType s;
  ps_peerAddr := ps_peerAddr s; ps_peerReadyCh := ps_peerReadyCh s |}.

Record punchManager := {
  pu_sessions : gmap string punchSession;
  pu_byPeer : gmap string string;
  pu_cooldown : gmap string time;
  pu_responders : Z;
  pu_lastInvite : gmap string time;
  pu_busyPeerStreak : gmap string Z;
  pu_rateStreak : gmap string Z;
  pu_skippedDupPunch : Z;
  pu_quality : option peerTable;
  pu_events : list P2PStatus }.

#[export] Instance eta_punchManager : Eta punchManager := λ m, {|
  pu_sessions := pu_sessions m; pu_byPeer := pu_byPeer m; pu_cooldown := pu_cooldown m;
  pu_responders := pu_responders m; pu_lastInvite := pu_lastInvite m;
  pu_busyPeerStreak := pu_busyPeerStreak m; pu_rateStreak := pu_rateStreak m;
  pu_skippedDupPunch := pu_skippedDupPunch m; pu_quality := pu_quality m;
  pu_events := pu_events m |}.

Definition newPunchManager : punchManager := {|
  pu_sessions := ∅; pu_byPeer := ∅; pu_cooldown := ∅; pu_responders := 0; pu_lastInvite := ∅;
  pu_busyPeerStreak := ∅; pu_rateStreak := ∅; pu_skippedDupPunch := 0; pu_quality := None;
  pu_events := [] |}.

Definition P2PStateQuerying := "querying".

Definition newSession (t : time) (id peerVIP : string) (role : punchRole) (windowMs : Z)
  (peerFP : string) (peerPunchAddr : AddrPort) : punchSession := {|
  ps_id := id; ps_peerVIP := peerVIP; ps_role := role; ps_windowMs := clampPunchWindow windowMs;
  ps_peerFP := peerFP; ps_peerPunchAddr := peerPunchAddr; ps_peerPunchAddrs := [];
  ps_deadline := time_add t punchAttemptBudget; ps_trigger := ""; ps_state := P2PStateQuerying;
  ps_reason := ""; ps_succeeded := false; ps_detached := false; ps_released := false;
  ps_rttDirect := 0; ps_rttQuic := 0; ps_probeGot := 0; ps_probeTotal := 0;
  ps_peerNATType := ""; ps_peerAddr := ""; ps_peerReadyCh := None |}.

(** ** The budget of a session *)

Definition remaining (t : time) (s : punchSession) : duration :=
  let d := time_sub (ps_deadline s) t in if d <? 0 then 0 else d.

Definition stageTimeout (t : time) (s : punchSession) (d : duration) : duration * bool :=
  let rem := remaining t s in
  if rem <? punchStageFloor then (0, false)
  else ((if rem <? d then rem else d), true).

Definition canRetry (t : time) (s : punchSession) (cost : duration) : bool :=
  cost + punchRetryFloor <=? remaining t s.

(** ** Cooldowns and streaks *)

Definition isBusyReason (reason : string) : bool :=
  bool_decide (reason = P2PReasonPeerBusy) || bool_decide (reason = P2PReasonRateLimited).

Definition cooldownForReason (reason : string) : duration :=
  if bool_decide (reason ∈ [P2PReasonRateLimited; P2PReasonPeerBusy]) then punchBusyCooldown
  else punchCooldown.

Definition ladderForBusy (streak : Z) : duration :=
  let streak := if streak <? 0 then 0 else streak in
  let len := Z.of_nat (length punchBusyLadder) in
  let streak := if len <=? streak then len - 1 else streak in
  nth (Z.to_nat streak) punchBusyLadder 0.

(** A streak outlives its cooldown by nothing. *)
Definition keeps_streak (t : time) (cooldown : gmap string time) (vip : string) : bool :=
  match cooldown !! vip with Some until => time_before t until | None => false end.

Definition pruneBusyLocked (t : time) (m : punchManager) : punchManager :=
  m <| pu_busyPeerStreak ::= filter (λ kv, keeps_streak t (pu_cooldown m) kv.1 = true) |>
    <| pu_rateStreak ::= filter (λ kv, keeps_streak t (pu_cooldown m) kv.1 = true) |>.

(** One bounded streak map: the delay of this busy answer, then the count. *)
Definition bump (vip : string) (streak : gmap string Z) : gmap string Z * duration :=
  match streak !! vip with
  | None => if (punchBusyStreakMaxEntries <=? size streak)%nat then (streak, punchBusyCooldown)
            else (<[vip := 1]> streak, ladderForBusy 0)
  | Some n => (<[vip := n + 1]> streak, ladderForBusy n)
  end.

Definition bumpBusyStreakLocked (t : time) (vip reason : string) (m : punchManager)
  : punchManager * duration :=
  let m := pruneBusyLocked t m in
  if negb (isBusyReason reason) then
    (m <| pu_busyPeerStreak ::= delete vip |> <| pu_rateStreak ::= delete vip |>,
     cooldownForReason reason)
  else if bool_decide (reason = P2PReasonRateLimited) then
    let '(streak, d) := bump vip (pu_rateStreak m) in (m <| pu_rateStreak := streak |>, d)
  else
    let '(streak, d) := bump vip (pu_busyPeerStreak m) in (m <| pu_busyPeerStreak := streak |>, d).

Definition noteSessionOutcomeLocked (t : time) (s : punchSession) (m : punchManager)
  : punchManager * duration :=
  if ps_succeeded s then
    let m := pruneBusyLocked t m in
    (m <| pu_busyPeerStreak ::= delete (ps_peerVIP s) |> <| pu_rateStreak ::= delete (ps_peerVIP s) |>, 0)
  else bumpBusyStreakLocked t (ps_peerVIP s) (ps_reason s) m.

(** ** What a session leaves in the quality table *)

(** [(1 - trialMinProbeSuccess) * 100], a constant of the language. *)
Definition lossLimit : Z := 10.
Definition isPoorQualityLoss (lossPct : Z) : bool := lossLimit <? lossPct.

Definition probe_loss (s : punchSession) : Z :=
  if 0 <? ps_probeTotal s then Z.quot ((ps_probeTotal s - ps_probeGot s) * 100) (ps_probeTotal s) else 0.

Definition quality_outcome (s : punchSession) : option peerOutcome :=
  let reason := ps_reason s in
  if bool_decide (reason = P2PReasonOKDirect) then
    let loss := probe_loss s in
    Some {| o_Kind := if isPoorQualityLoss loss then peerPoor else peerGood;
            o_Reason := P2PReasonOKDirect; o_RTTMs := msAtLeast1 (ps_rttDirect s); o_LossPct := loss;
            o_NatType := ps_peerNATType s; o_Addr := ps_peerAddr s |}
  else if bool_decide (reason ∈ [P2PReasonProbeTimeout; P2PReasonDirectLost; P2PReasonQualityPoor]) then
    Some {| o_Kind := peerPoor; o_Reason := reason; o_RTTMs := 0; o_LossPct := 100;
            o_NatType := ps_peerNATType s; o_Addr := ps_peerAddr s |}
  else if bool_decide (reason ∈ [P2PReasonNATSymmetric; P2PReasonPunchTimeout; P2PReasonPeerNoPunchAddr])
  then Some {| o_Kind := peerUnpunchable; o_Reason := reason; o_RTTMs := 0; o_LossPct := 0;
               o_NatType := ps_peerNATType s; o_Addr := ps_peerAddr s |}
  else None.

Definition notePeerQuality (order : list ip4) (t : time) (s : punchSession) (m : punchManager)
  : punchManager :=
  match pu_quality m with
  | None => m
  | Some tbl =>
      let '(peer, ok) := parseIPv4 (ps_peerVIP s) in
      if negb ok then m
      else match quality_outcome s with
           | Some o => m <| pu_quality := Some (Record_ order t peer o tbl) |>
           | None => m
           end
  end.

(** ** Starting and ending a session *)

Record punchHost := { ph_enabled : bool; ph_selfInfo : bool; ph_myVIP4 : option ip4 }.

Inductive PunchErr :=
  | EmptyVIP
  | DupPath
  | P2PDisabled
  | NoSelfInfo
  | InCooldown
  | AlreadyPunching
  | NoRandomness.

(** [usable]: the path manager and the order of its trial table, when there is
    one; [id]: the new attempt's identifier, if the system gives randomness. *)
Definition PunchWithTrigger (t : time) (h : punchHost) (pm : option (pathManager * list positive))
  (peerVIP trigger : string) (id : option string) (m : punchManager)
  : punchManager * (string + PunchErr) :=
  if bool_decide (peerVIP = "") then (m, inr EmptyVIP)
  else
    let dup :=
      if bool_decide (trigger = P2PTriggerTraffic) then
        match parseIPv4 peerVIP, pm with
        | (dst, true), Some (p, trials) => (HasUsablePath p trials dst).1
        | _, _ => false
        end
      else false in
    if dup then (m <| pu_skippedDupPunch ::= Z.succ |>, inr DupPath)
    else if negb (ph_enabled h) then (m, inr P2PDisabled)
    else if negb (ph_selfInfo h) then (m, inr NoSelfInfo)
    else if keeps_streak t (pu_cooldown m) peerVIP then (m, inr InCooldown)
    else match pu_byPeer m !! peerVIP with
    | Some _ => (m, inr AlreadyPunching)
    | None =>
        match id with
        | None => (m, inr NoRandomness)
        | Some id =>
            let s := (newSession t id peerVIP initiator punchWindowDefault "" (AddrPortFrom AddrZero 0))
                       <| ps_trigger := trigger |> in
            (m <| pu_sessions ::= <[id := s]> |> <| pu_byPeer ::= <[peerVIP := id]> |>, inl id)
        end
    end.

(** The deferred cleanup of an initiator. *)
Definition initiator_end (order : list ip4) (t : time) (id : string) (m : punchManager)
  : punchManager :=
  match pu_sessions m !! id with
  | None => m
  | Some s =>
      let m := m <| pu_sessions ::= delete id |> <| pu_byPeer ::= delete (ps_peerVIP s) |> in
      let '(m, d) := noteSessionOutcomeLocked t s m in
      let m := m <| pu_cooldown ::= <[ps_peerVIP s := time_add t d]> |> in
      notePeerQuality order t s m
  end.

(** The deferred cleanup of a responder. *)
Definition responder_end (id : string) (m : punchManager) : punchManager :=
  m <| pu_sessions ::= delete id |> <| pu_responders ::= Z.pred |>.

(** ** The end of a session's work *)

Definition with_session (id : string) (f : punchSession → punchSession) (m : punchManager)
  : punchManager := m <| pu_sessions ::= alter f id |>.

Definition closeAll (s : punchSession) : punchSession :=
  if ps_detached s then s else s <| ps_released := true |>.

Definition session_status (t : time) (s : punchSession) (st reason : string) : P2PStatus :=
  let path := if bool_decide (st = P2PStateDirect) then "direct" else "relay" in {|
  st_PeerVIP := ps_peerVIP s; st_State := st; st_ReasonCode := reason;
  st_ReasonText := P2PReasonText reason; st_Path := path;
  st_RTTDirectMs := msAtLeast1 (ps_rttDirect s); st_RTTQuicMs := msAtLeast1 (ps_rttQuic s);
  st_At := unix_milli t; st_Retryable := p2pRetryable reason; st_Trigger := ps_trigger s;
  st_PathState := path; st_BytesUp := 0; st_BytesDown := 0; st_DirectSince := 0 |}.

Definition fail (t : time) (id reason : string) (m : punchManager) (pm : option pathManager)
  : punchManager * option pathManager :=
  match pu_sessions m !! id with
  | None => (m, pm)
  | Some s =>
      let m := with_session id (λ s, s <| ps_reason := reason |> <| ps_state := P2PStateFailed |>) m in
      let m := m <| pu_events ::= λ l, (l ++ [session_status t s P2PStateFailed reason])%list |> in
      let m := with_session id closeAll m in
      (m, onPunchFailed t (ps_peerVIP s) reason <$> pm)
  end.

(** [handed]: the connection is handed to the path manager. *)
Definition handoverToPath (e : env) (paths : list positive) (h : punchHost) (conn : bool)
  (s : punchSession) (pm : option pathManager) : punchSession * option pathManager :=
  if ps_detached s then (s, pm)
  else match pm, ph_myVIP4 h, parseIPv4 (ps_peerVIP s) with
  | Some p, Some myVIP, (peer, true) =>
      if negb conn then (s, pm)
      else
        (s <| ps_detached := true |>,
         Some (handleEstablished e paths
           {| r_peerVIP := ps_peerVIP s; r_peer := peer;
              r_role := match ps_role s with initiator => pathRoleInitiator
                                           | responder => pathRoleResponder end;
              r_myVIP := myVIP; r_rttDirect := ps_rttDirect s; r_rttQuic := ps_rttQuic s;
              r_scoutWindowMs := ps_windowMs s |} p))
  | _, _, _ => (s, pm)
  end.

Definition succeed (e : env) (paths : list positive) (h : punchHost) (conn : bool) (id : string)
  (m : punchManager) (pm : option pathManager) : punchManager * option pathManager :=
  match pu_sessions m !! id with
  | None => (m, pm)
  | Some s =>
      let s := s <| ps_succeeded := true |> <| ps_reason := P2PReasonOKDirect |>
                 <| ps_state := P2PStateDirect |> in
      let m := match pm with
               | None => m <| pu_events ::= λ l, (l ++ [session_status (now e) s P2PStateDirect
                                                          P2PReasonOKDirect])%list |>
               | Some _ => m
               end in
      let '(s, pm) := handoverToPath e paths h conn s pm in
      (with_session id (λ _, s) m, pm)
  end.

(** ** Pushes of the signalling service *)

(** The fields of a push the manager reads, decoded: the addresses by
    [parsePunchAddr] ([None]: not an address), the seed by
    [punchMetadataFromSeed]. *)
Record signalPush := {
  sm_AttemptID : string;
  sm_PeerVIP : string;
  sm_PunchAddr : option AddrPort;
  sm_PunchAddrs : list (option AddrPort);
  sm_seedOk : bool;
  sm_DirectFingerprint : string;
  sm_WindowMs : Z }.

Definition handleBusyPush (t : time) (msg : signalPush) (m : punchManager) (pm : option pathManager)
  : punchManager * option pathManager :=
  if bool_decide (sm_AttemptID msg = "") then (m, pm)
  else match pu_sessions m !! sm_AttemptID msg with
  | None => (m, pm)
  | Some s =>
      if bool_decide (ps_state s = P2PStateDirect) || bool_decide (ps_state s = P2PStateFailed)
      then (m, pm)
      else fail t (sm_AttemptID msg) P2PReasonPeerBusy m pm
  end.

Definition handlePunchPeer (msg : signalPush) (m : punchManager) : punchManager :=
  match pu_sessions m !! sm_AttemptID msg, sm_PunchAddr msg with
  | Some s, Some ap =>
      let pr := {| pr_addr := ap; pr_addrs := peerAddrsFor (parsePunchAddrs (sm_PunchAddrs msg)) ap;
                   pr_fp := sm_DirectFingerprint msg |} in
      with_session (sm_AttemptID msg)
        (λ s, match ps_peerReadyCh s with Some _ => s | None => s <| ps_peerReadyCh := Some pr |> end) m
  | _, _ => m
  end.

(** [handleInvite]. The source counts the invitation in one critical section and
    enters the session in a second one. Pushes are handled one after the other by one
    goroutine, and what else can run between the two (the ends of other sessions, attempts of
    our own) does not look at the identifier of the new session, so the two are one step here. *)
Definition handleInvite (t : time) (h : punchHost) (msg : signalPush) (m : punchManager)
  (pm : option pathManager) : punchManager * option pathManager :=
  if negb (ph_enabled h) then (m, pm)
  else
    let vip := sm_PeerVIP msg in
    if bool_decide (vip = "") || bool_decide (sm_AttemptID msg = "") then (m, pm)
    else match sm_PunchAddr msg with
    | None => (m, pm)
    | Some ap =>
        if negb (IsValid ap) then (m, pm)
        else if negb (sm_seedOk msg) then (m, pm)
        else if bool_decide (sm_DirectFingerprint msg = "") then (m, pm)
        else match pu_sessions m !! sm_AttemptID msg with
        | Some _ => (m, pm)
        | None =>
            let pm := (λ p, (notifyInboundInvite vip p).1) <$> pm in
            if match pu_lastInvite m !! vip with
               | Some last => time_sub t last <? punchSamePeerGuard
               | None => false
               end then (m, pm)
            else if punchMaxResponder <=? pu_responders m then (m, pm)
            else
              let m := m <| pu_responders ::= Z.succ |> <| pu_lastInvite ::= <[vip := t]> |> in
              let s := newSession t (sm_AttemptID msg) vip responder (sm_WindowMs msg)
                         (sm_DirectFingerprint msg) ap in
              let s := s <| ps_peerPunchAddrs := peerAddrsFor (parsePunchAddrs (sm_PunchAddrs msg)) ap |>
                         <| ps_trigger := P2PTriggerRemote |> in
              (m <| pu_sessions ::= <[sm_AttemptID msg := s]> |>, pm)
        end
    end.

(** [close]: every session releases what it still owns. *)
Definition closePunchManager (m : punchManager) : punchManager :=
  m <| pu_sessions ::= fmap closeAll |>.

(** ** Lemmas *)

(** A session's work changes neither who it is nor whom it is for. *)
Definition same_session (f : punchSession → punchSession) : Prop :=
  ∀ s, ps_id (f s) = ps_id s ∧ ps_peerVIP (f s) = ps_peerVIP s ∧ ps_role (f s) = ps_role s.

Lemma closeAll_same : same_session closeAll.
Proof. intros s. unfold closeAll. by case_match. Qed.

Definition responder_sessions (m : punchManager) : gmap string punchSession :=
  filter (λ kv, ps_role kv.2 = responder) (pu_sessions m).

(** Between two operations, at the time [t]. *)
Record punch_ok (t : time) (m : punchManager) : Prop := {
  ok_byPeer : ∀ vip id, pu_byPeer m !! vip = Some id ↔
    ∃ s, pu_sessions m !! id = Some s ∧ ps_role s = initiator ∧ ps_peerVIP s = vip;
  ok_ids : ∀ id s, pu_sessions m !! id = Some s → ps_id s = id;
  ok_responders : pu_responders m = Z.of_nat (size (responder_sessions m));
  ok_capped : pu_responders m <= punchMaxResponder;
  ok_cooldown : ∀ vip id until, pu_byPeer m !! vip = Some id → pu_cooldown m !! vip = Some until →
    until <= t }.

Lemma punch_ok_later t t' m : punch_ok t m → t <= t' → punch_ok t' m.
Proof. intros [] Ht. constructor; try done. intros vip id u H1 H2. specialize (ok_cooldown0 _ _ _ H1 H2). lia. Qed.

Lemma new_punch_ok t : punch_ok t newPunchManager.
Proof.
  constructor; cbn; try done. intros vip id. rewrite !lookup_empty. split; [done|by intros (? & ? & _)].
Qed.

Lemma with_session_ok t id f m :
  (∀ s, pu_sessions m !! id = Some s →
     ps_id (f s) = ps_id s ∧ ps_peerVIP (f s) = ps_peerVIP s ∧ ps_role (f s) = ps_role s) →
  punch_ok t m → punch_ok t (with_session id f m).
Proof.
  intros Hf []. unfold with_session. constructor; cbn; try done.
  - intros vip k. rewrite ok_byPeer0. destruct (decide (k = id)) as [->|Hne].
    + rewrite lookup_alter_eq. destruct (pu_sessions m !! id) as [s|]; cbn; [|done].
      destruct (Hf s eq_refl) as (_ & E1 & E2). split; intros (s' & [= <-] & H1 & H2);
        eexists; (split; [done|]); by rewrite ?E1, ?E2 in *.
    + by rewrite lookup_alter_ne.
  - intros k s. destruct (decide (k = id)) as [->|Hne]; [|rewrite lookup_alter_ne by done; auto].
    rewrite lookup_alter_eq. destruct (pu_sessions m !! id) as [s0|] eqn:E; [|done]. intros [= <-].
    destruct (Hf s0 eq_refl) as (-> & _). auto.
  - rewrite ok_responders0. f_equal. unfold responder_sessions. cbn.
    assert (filter (λ kv, ps_role kv.2 = responder) (alter f id (pu_sessions m))
            = alter f id (filter (λ kv, ps_role kv.2 = responder) (pu_sessions m))) as ->.
    { apply map_eq. intros k. apply option_eq. intros s. rewrite map_lookup_filter_Some.
      destruct (decide (k = id)) as [->|Hne].
      - rewrite !lookup_alter_eq, map_lookup_filter. destruct (pu_sessions m !! id) as [s0|]; cbn; [|naive_solver].
        destruct (Hf s0 eq_refl) as (_ & _ & E). case_guard as Hg; cbn.
        + split; [by intros [? _]|]. intros [= <-]. by rewrite E.
        + split; [intros [[= <-] H]; by rewrite E in H|done].
      - rewrite !lookup_alter_ne, map_lookup_filter_Some by done. done. }
    by rewrite <- !(size_dom (D := gset string)), dom_alter_L.
Qed.

Lemma same_tables_ok t m m' :
  pu_sessions m' = pu_sessions m → pu_byPeer m' = pu_byPeer m → pu_cooldown m' = pu_cooldown m →
  pu_responders m' = pu_responders m → punch_ok t m → punch_ok t m'.
Proof. intros E1 E2 E3 E4 []. constructor; unfold responder_sessions in *; rewrite ?E1, ?E2, ?E3, ?E4; auto. Qed.

Lemma pruneBusy_frame t m :
  let m' := pruneBusyLocked t m in
  pu_sessions m' = pu_sessions m ∧ pu_byPeer m' = pu_byPeer m ∧ pu_cooldown m' = pu_cooldown m ∧
  pu_responders m' = pu_responders m ∧ pu_quality m' = pu_quality m.
Proof. done. Qed.

Lemma outcome_frame t s m :
  let m' := (noteSessionOutcomeLocked t s m).1 in
  pu_sessions m' = pu_sessions m ∧ pu_byPeer m' = pu_byPeer m ∧ pu_cooldown m' = pu_cooldown m ∧
  pu_responders m' = pu_responders m.
Proof.
  unfold noteSessionOutcomeLocked, bumpBusyStreakLocked, bump. cbv zeta.
  repeat (case_match; simplify_eq; cbn in *; try done).
Qed.

Lemma notePeerQuality_frame o t s m :
  let m' := notePeerQuality o t s m in
  pu_sessions m' = pu_sessions m ∧ pu_byPeer m' = pu_byPeer m ∧ pu_cooldown m' = pu_cooldown m ∧
  pu_responders m' = pu_responders m.
Proof.
  unfold notePeerQuality. destruct (pu_quality m); [|done]. destruct (parseIPv4 _) as [d []]; [|done].
  cbn. by destruct (quality_outcome s).
Qed.

Lemma responders_insert id s m :
  pu_sessions m !! id = None →
  size (filter (λ kv : string * punchSession, ps_role kv.2 = responder) (<[id := s]> (pu_sessions m)))
  = (size (responder_sessions m) + if bool_decide (ps_role s = responder) then 1 else 0)%nat.
Proof.
  intros Hn. unfold responder_sessions. case_bool_decide as Hr.
  - rewrite map_filter_insert_True by done. rewrite map_size_insert_None; [lia|].
    apply map_lookup_filter_None. left. done.
  - rewrite map_filter_insert_not' by (try done; intros ? ?; congruence). lia.
Qed.

Lemma responders_delete id s m :
  pu_sessions m !! id = Some s →
  size (filter (λ kv : string * punchSession, ps_role kv.2 = responder) (delete id (pu_sessions m)))
  = (size (responder_sessions m) - if bool_decide (ps_role s = responder) then 1 else 0)%nat.
Proof.
  intros Hs. unfold responder_sessions. rewrite map_filter_delete. case_bool_decide as Hr.
  - rewrite map_size_delete_Some; [lia|]. eexists. by apply map_lookup_filter_Some.
  - rewrite delete_id; [lia|]. apply map_lookup_filter_None. right. intros s' Hs'. cbn. congruence.
Qed.

(** ** Steps *)

Definition session_of (m : punchManager) (id : string) (r : punchRole) : Prop :=
  ∃ s, pu_sessions m !! id = Some s ∧ ps_role s = r.

(** Each step with the instant it runs at. Attempt identifiers are 8 random
    bytes: a new one is not in use. *)
Inductive punch_step (t : time) : punchManager → punchManager → Prop :=
  | pst_start h pm vip trigger id m :
      pu_sessions m !! id = None →
      punch_step t m (PunchWithTrigger t h pm vip trigger (Some id) m).1
  | pst_end order id m : session_of m id initiator → punch_step t m (initiator_end order t id m)
  | pst_rend id m : session_of m id responder → punch_step t m (responder_end id m)
  | pst_fail id reason pm m : punch_step t m (fail t id reason m pm).1
  | pst_succeed e paths h conn id pm m : now e = t → punch_step t m (succeed e paths h conn id m pm).1
  | pst_busy msg pm m : punch_step t m (handleBusyPush t msg m pm).1
  | pst_peer msg m : punch_step t m (handlePunchPeer msg m)
  | pst_invite h msg pm m : punch_step t m (handleInvite t h msg m pm).1
  | pst_work id f m : same_session f → punch_step t m (with_session id f m)
  | pst_quality tbl m : punch_step t m (m <| pu_quality := Some tbl |>).

(** The manager and the time of its last step. *)
Inductive punch_reachable : time → punchManager → Prop :=
  | pr_init t : punch_reachable t newPunchManager
  | pr_step t t' m m' : punch_reachable t m → t <= t' → punch_step t' m m' → punch_reachable t' m'.

Lemma handover_same e paths h conn pm :
  same_session (λ s, (handoverToPath e paths h conn s pm).1).
Proof. intros s. unfold handoverToPath. repeat (case_match; try done). Qed.

Lemma start_ok t h pm vip trigger id m :
  punch_ok t m → pu_sessions m !! id = None →
  punch_ok t (PunchWithTrigger t h pm vip trigger (Some id) m).1.
Proof.
  intros Hok Hid. unfold PunchWithTrigger. case_bool_decide; [done|]. cbv zeta.
  destruct (if bool_decide (trigger = P2PTriggerTraffic) then _ else false);
    [by apply (same_tables_ok t m)|].
  destruct (negb (ph_enabled h)); [done|]. destruct (negb (ph_selfInfo h)); [done|].
  destruct (keeps_streak t (pu_cooldown m) vip) eqn:Hcd; [done|].
  destruct (pu_byPeer m !! vip) eqn:Hbp; [done|]. destruct Hok. cbn [fst].
  constructor; cbn; try done.
  - intros v k. destruct (decide (k = id)) as [->|Hne].
    + rewrite lookup_insert_eq. split.
      * intros Hv. destruct (decide (vip = v)) as [<-|Hv']; [by eexists|].
        rewrite lookup_insert_ne in Hv by done. apply ok_byPeer0 in Hv as (s & Hs & _). congruence.
      * intros (s & [= <-] & _ & <-). cbn. by rewrite lookup_insert_eq.
    + rewrite (lookup_insert_ne (pu_sessions m)) by done. destruct (decide (vip = v)) as [<-|Hv'].
      * rewrite lookup_insert_eq, <- ok_byPeer0, Hbp. split; congruence.
      * by rewrite lookup_insert_ne.
  - intros k s. destruct (decide (k = id)) as [->|Hne];
      [rewrite lookup_insert_eq; by intros [= <-]|rewrite lookup_insert_ne by done; auto].
  - unfold responder_sessions. cbn. rewrite responders_insert by done.
    rewrite bool_decide_false by done. rewrite ok_responders0. unfold responder_sessions. lia.
  - intros v k u. destruct (decide (vip = v)) as [<-|Hv'].
    + intros _ Hu. unfold keeps_streak in Hcd. rewrite Hu in Hcd. by bool_hyps.
    + rewrite lookup_insert_ne by done. eauto.
Qed.

Lemma end_ok order t id m :
  punch_ok t m → session_of m id initiator → punch_ok t (initiator_end order t id m).
Proof.
  intros Hok (s & Hs & Hr). unfold initiator_end. rewrite Hs. cbv zeta.
  set (m1 := m <| pu_sessions ::= delete id |> <| pu_byPeer ::= delete (ps_peerVIP s) |>).
  pose proof (outcome_frame t s m1) as Hf. destruct (noteSessionOutcomeLocked t s m1) as [m2 d]. cbn in Hf.
  destruct Hf as (F1 & F2 & F3 & F4).
  set (m3 := m2 <| pu_cooldown ::= _ |>).
  destruct (notePeerQuality_frame order t s m3) as (G1 & G2 & G3 & G4).
  destruct Hok.
  assert (pu_byPeer m !! ps_peerVIP s = Some id) as Hbp by (apply ok_byPeer0; eauto).
  constructor.
  - intros v k. rewrite G1, G2. cbn. rewrite F1, F2. unfold m1. cbn.
    destruct (decide (ps_peerVIP s = v)) as [<-|Hv].
    + rewrite lookup_delete_eq. split; [done|]. intros (s' & Hs' & Hr' & Hv').
      destruct (decide (k = id)) as [->|Hk]; [by rewrite lookup_delete_eq in Hs'|].
      rewrite lookup_delete_ne in Hs' by done.
      assert (pu_byPeer m !! ps_peerVIP s = Some k) by (apply ok_byPeer0; eauto). congruence.
    + rewrite lookup_delete_ne by done. rewrite ok_byPeer0. destruct (decide (k = id)) as [->|Hk].
      * rewrite lookup_delete_eq, Hs. split; [intros (? & [= <-] & _ & ?); done|by intros (? & ? & _)].
      * by rewrite lookup_delete_ne.
  - intros k s'. rewrite G1. cbn. rewrite F1. unfold m1. cbn. intros [_ ?]%lookup_delete_Some. eauto.
  - rewrite G4. cbn. rewrite F4. unfold responder_sessions. rewrite G1. cbn. rewrite F1. unfold m1. cbn.
    rewrite (responders_delete id s), bool_decide_false by (done || by rewrite Hr). rewrite ok_responders0.
    unfold responder_sessions. lia.
  - rewrite G4. cbn. by rewrite F4.
  - intros v k u. rewrite G2, G3. cbn. rewrite F2, F3. unfold m1. cbn.
    intros [Hne Hk]%lookup_delete_Some. rewrite lookup_insert_ne by done. eauto.
Qed.

Lemma rend_ok t id m :
  punch_ok t m → session_of m id responder → punch_ok t (responder_end id m).
Proof.
  intros [] (s & Hs & Hr). unfold responder_end. constructor; cbn; try done.
  - intros v k. rewrite ok_byPeer0. destruct (decide (k = id)) as [->|Hk].
    + rewrite lookup_delete_eq, Hs. split; [|by intros (? & ? & _)].
      intros (? & [= <-] & Hi & _). congruence.
    + by rewrite lookup_delete_ne.
  - intros k s' [_ ?]%lookup_delete_Some. eauto.
  - unfold responder_sessions. cbn. rewrite (responders_delete id s), bool_decide_true by done.
    rewrite ok_responders0.
    assert (0 < size (responder_sessions m))%nat; [|lia].
    assert (responder_sessions m !! id = Some s) as H by (by apply map_lookup_filter_Some).
    apply Nat.neq_0_lt_0. intros E%map_size_empty_inv. by rewrite E in H.
  - lia.
Qed.

Lemma fail_ok t id reason m pm : punch_ok t m → punch_ok t (fail t id reason m pm).1.
Proof.
  intros Hok. unfold fail. destruct (pu_sessions m !! id); [|done]. cbn [fst].
  apply with_session_ok; [intros; apply closeAll_same|].
  eapply same_tables_ok; [..|apply (with_session_ok t id (λ s, s <| ps_reason := reason |> <| ps_state := P2PStateFailed |>)); [|exact Hok]]; done.
Qed.

Lemma invite_ok t h msg m pm : punch_ok t m → punch_ok t (handleInvite t h msg m pm).1.
Proof.
  intros Hok. unfold handleInvite. destruct (negb (ph_enabled h)); [done|]. cbv zeta.
  destruct (_ || _); [done|]. destruct (sm_PunchAddr msg) as [ap|]; [|done].
  do 2 (destruct (negb _); [done|]). destruct (bool_decide _); [done|].
  destruct (pu_sessions m !! sm_AttemptID msg) eqn:Hid; [done|].
  destruct (match pu_lastInvite m !! _ with Some _ => _ | None => _ end); [done|].
  destruct (Z.leb_spec punchMaxResponder (pu_responders m)); [done|]. destruct Hok. cbn [fst].
  constructor; cbn; try done.
  - intros v k. rewrite ok_byPeer0. destruct (decide (k = sm_AttemptID msg)) as [->|Hne].
    + rewrite lookup_insert_eq, Hid. split; [by intros (? & ? & _)|by intros (? & [= <-] & ? & _)].
    + by rewrite lookup_insert_ne.
  - intros k s. destruct (decide (k = sm_AttemptID msg)) as [->|Hne];
      [rewrite lookup_insert_eq; by intros [= <-]|rewrite lookup_insert_ne by done; auto].
  - unfold responder_sessions. cbn. rewrite responders_insert, bool_decide_true by done.
    rewrite ok_responders0. unfold responder_sessions. lia.
  - lia.
Qed.

Lemma step_ok t m m' : punch_step t m m' → punch_ok t m → punch_ok t m'.
Proof.
  intros [] Hok; auto using start_ok, end_ok, rend_ok, fail_ok, invite_ok.
  - unfold succeed. destruct (pu_sessions m0 !! id) as [s|] eqn:Hs; [|done].
    set (s1 := s <| ps_succeeded := true |> <| ps_reason := P2PReasonOKDirect |> <| ps_state := P2PStateDirect |>).
    pose proof (handover_same e paths h conn pm s1) as Hh. cbv beta in Hh.
    destruct (handoverToPath e paths h conn s1 pm) as [s2 pm2]. cbn in Hh. cbn [fst].
    set (m2 := match pm with None => _ | Some _ => _ end).
    assert (punch_ok t m2) as Hok2 by (unfold m2; destruct pm; [done|by apply (same_tables_ok t m0)]).
    apply with_session_ok; [|done]. intros s' Hs'.
    assert (s' = s) as -> by (unfold m2 in Hs'; destruct pm; cbn in Hs'; congruence). exact Hh.
  - unfold handleBusyPush. repeat (case_match; try done). by apply fail_ok.
  - unfold handlePunchPeer. repeat (case_match; try done). apply with_session_ok; [|done].
    intros s' _. by case_match.
  - apply with_session_ok; [intros s' _; apply H|done].
  - by apply (same_tables_ok t m0).
Qed.

(** ** Theorems *)

Lemma punch_reachable_ok t m : punch_reachable t m → punch_ok t m.
Proof.
  induction 1 as [t|t t' m m' _ IH Ht Hs]; [apply new_punch_ok|].
  eapply step_ok; [exact Hs|]. by eapply punch_ok_later.
Qed.

(** C36: in every run of the manager there is at most one attempt of its own per
    peer, indexed by that peer; it answers at most two invitations at a time,
    and the count is exactly the sessions answering; and no attempt runs for a
    peer whose cooldown is not over. *)
Theorem punch_manager_invariant t m : punch_reachable t m → punch_ok t m.
Proof. apply punch_reachable_ok. Qed.

(** The cooldown an outcome leads to. *)
Definition outcome_cooldown (s : punchSession) : duration :=
  if ps_succeeded s then 0 else cooldownForReason (ps_reason s).

Lemma bump_first vip streak : streak !! vip = None → (bump vip streak).2 = punchBusyCooldown.
Proof. unfold bump. intros ->. by case_match. Qed.

Lemma end_cooldown order t id m s :
  punch_ok t m → pu_sessions m !! id = Some s → ps_role s = initiator →
  pu_cooldown (initiator_end order t id m)
  = <[ps_peerVIP s := t + outcome_cooldown s]> (pu_cooldown m).
Proof.
  intros Hok Hs Hr. unfold initiator_end. rewrite Hs. cbv zeta.
  set (m1 := m <| pu_sessions ::= delete id |> <| pu_byPeer ::= delete (ps_peerVIP s) |>).
  pose proof (outcome_frame t s m1) as Hf.
  assert ((noteSessionOutcomeLocked t s m1).2 = outcome_cooldown s) as Hd.
  { assert (keeps_streak t (pu_cooldown m1) (ps_peerVIP s) = false) as Hk.
    { unfold keeps_streak, time_before. unfold m1. cbn.
      destruct (pu_cooldown m !! ps_peerVIP s) as [u|] eqn:Hu; [|done]. apply Z.ltb_ge.
      eapply (ok_cooldown _ _ Hok); [|exact Hu]. apply (ok_byPeer _ _ Hok). eauto. }
    assert (∀ mm : gmap string Z, filter (λ kv, keeps_streak t (pu_cooldown m1) kv.1 = true) mm
              !! ps_peerVIP s = None) as Hnone.
    { intros mm. apply map_lookup_filter_None. right. intros n _. cbn beta iota delta [fst]. by rewrite Hk. }
    unfold noteSessionOutcomeLocked, outcome_cooldown. destruct (ps_succeeded s); [done|].
    unfold bumpBusyStreakLocked, cooldownForReason, isBusyReason. cbv zeta.
    destruct (decide (ps_reason s = P2PReasonRateLimited)) as [->|Hn1].
    - rewrite (bool_decide_true (P2PReasonRateLimited = P2PReasonRateLimited)), orb_true_r by done.
      cbn [negb]. rewrite (bool_decide_true (_ ∈ _)) by (by left).
      pose proof (bump_first (ps_peerVIP s) (pu_rateStreak (pruneBusyLocked t m1)) (Hnone _)) as H.
      by destruct (bump _ _).
    - destruct (decide (ps_reason s = P2PReasonPeerBusy)) as [->|Hn2].
      + rewrite bool_decide_true by done. cbn [negb orb].
        rewrite (bool_decide_false (P2PReasonPeerBusy = P2PReasonRateLimited)) by done.
        rewrite (bool_decide_true (_ ∈ _)) by (right; by left).
        pose proof (bump_first (ps_peerVIP s) (pu_busyPeerStreak (pruneBusyLocked t m1)) (Hnone _)) as H.
        by destruct (bump _ _).
      + rewrite (bool_decide_false (ps_reason s = P2PReasonPeerBusy)), (bool_decide_false (ps_reason s = _)) by done.
        cbn [negb orb snd]. rewrite bool_decide_false; [done|].
        intros [?|[?|?%elem_of_nil]%elem_of_cons]%elem_of_cons; done. }
  destruct (noteSessionOutcomeLocked t s m1) as [m2 d]. cbn in Hf, Hd. destruct Hf as (_ & _ & F3 & _).
  set (m3 := m2 <| pu_cooldown ::= _ |>).
  destruct (notePeerQuality_frame order t s m3) as (_ & _ & -> & _). cbn.
  rewrite F3, Hd. done.
Qed.

(** The ladder of busy answers is never climbed. In every run, whenever an
    attempt ends because the peer is busy or the server limits the rate, the
    cooldown is its first rung of 30 s, however many such answers came before:
    an attempt starts only once the previous cooldown is over, and the cleanup at
    its end deletes the streaks of every peer whose cooldown is over before the
    streak is read. *)
Theorem busy_ladder_never_climbs order t0 t id m s :
  punch_reachable t0 m → t0 <= t → pu_sessions m !! id = Some s → ps_role s = initiator →
  ps_succeeded s = false → isBusyReason (ps_reason s) = true →
  pu_cooldown (initiator_end order t id m) !! ps_peerVIP s = Some (t + 30 * second).
Proof.
  intros Hreach Ht Hs Hr Hf Hb.
  assert (punch_ok t m) as Hok by (by eapply punch_ok_later; [apply punch_reachable_ok|]).
  rewrite (end_cooldown order t id m s) by done.
  rewrite lookup_insert_eq. unfold outcome_cooldown. rewrite Hf. unfold cooldownForReason.
  rewrite bool_decide_true; [done|]. unfold isBusyReason in Hb.
  apply orb_true_iff in Hb as [Hb|Hb]; bool_hyps; rewrite Hb; [right; by left|by left].
Qed.

(** A run of the manager between two instants. *)
Inductive punch_run : time → punchManager → time → punchManager → Prop :=
  | prun_refl t m : punch_run t m t m
  | prun_step t m t1 m1 t2 m2 :
      punch_run t m t1 m1 → t1 <= t2 → punch_step t2 m1 m2 → punch_run t m t2 m2.

(** The peer rests: no attempt, and its cooldown ends at [u]. *)
Definition resting (vip : string) (u : time) (m : punchManager) : Prop :=
  pu_byPeer m !! vip = None ∧ pu_cooldown m !! vip = Some u.

Lemma fail_tables t id reason m pm :
  pu_byPeer (fail t id reason m pm).1 = pu_byPeer m ∧ pu_cooldown (fail t id reason m pm).1 = pu_cooldown m.
Proof. unfold fail. by case_match. Qed.

Lemma resting_step t vip u m m' :
  punch_ok t m → punch_step t m m' → t < u → resting vip u m → resting vip u m'.
Proof.
  intros Hok Hs Ht [Hb Hc]. assert (resting vip u m) as Hrest by done.
  destruct Hs as [h pm v tr id m Hid|order id m (s & Hs & Hr)|id m Hr|id r pm m
                 |e paths h conn id pm m He|msg pm m|msg m|h msg pm m|id f m Hf|tbl m]; try done.
  - unfold PunchWithTrigger. case_bool_decide; [done|]. cbv zeta.
    destruct (if bool_decide (tr = P2PTriggerTraffic) then _ else false); [done|].
    destruct (negb (ph_enabled h)); [done|]. destruct (negb (ph_selfInfo h)); [done|].
    destruct (keeps_streak t (pu_cooldown m) v) eqn:Hk; [done|].
    destruct (pu_byPeer m !! v) eqn:Hv; [done|]. cbn [fst]. unfold resting. cbn.
    destruct (decide (v = vip)) as [->|Hne]; [|by rewrite lookup_insert_ne].
    unfold keeps_streak in Hk. rewrite Hc in Hk. bool_hyps. lia.
  - assert (ps_peerVIP s ≠ vip) as Hne.
    { intros <-. assert (pu_byPeer m !! ps_peerVIP s = Some id) by (apply (ok_byPeer _ _ Hok); eauto). congruence. }
    split; [|by rewrite (end_cooldown order t id m s), lookup_insert_ne].
    unfold initiator_end. rewrite Hs. cbv zeta.
    set (m1 := m <| pu_sessions ::= delete id |> <| pu_byPeer ::= delete (ps_peerVIP s) |>).
    pose proof (outcome_frame t s m1) as Hf. destruct (noteSessionOutcomeLocked t s m1) as [m2 d].
    cbn in Hf. destruct Hf as (_ & F2 & _).
    match goal with |- context [notePeerQuality order t s ?x] =>
      destruct (notePeerQuality_frame order t s x) as (_ & -> & _) end.
    cbn. rewrite F2. unfold m1. cbn. by rewrite lookup_delete_ne.
  - unfold resting. destruct (fail_tables t id r m pm) as [-> ->]. done.
  - unfold succeed. destruct (pu_sessions m !! id); [|done]. destruct (handoverToPath _ _ _ _ _ _).
    by destruct pm.
  - unfold handleBusyPush. repeat (case_match; try done). unfold resting.
    destruct (fail_tables t (sm_AttemptID msg) P2PReasonPeerBusy m pm) as [-> ->]. done.
  - unfold handlePunchPeer. repeat (case_match; try done).
  - unfold handleInvite. repeat (case_match; try done).
Qed.

Lemma run_resting t m t' m' vip u :
  punch_run t m t' m' → punch_ok t m → resting vip u m → t' < u →
  punch_ok t' m' ∧ resting vip u m'.
Proof.
  induction 1 as [|t m t1 m1 t2 m2 Hrun IH H12 Hstep]; intros Hok Hr Ht; [done|].
  destruct IH as [IH1 IH2]; [done..|lia|].
  assert (punch_ok t2 m1) as Hok2 by (by eapply punch_ok_later).
  split; [by eapply step_ok|by eapply resting_step].
Qed.

(** A failed attempt is not repeated during its cooldown, whoever asks. For
    30 s after a busy answer and 60 s after any other failure no run starts
    another attempt for that peer; a success imposes no pause. *)
Theorem cooldown_enforced order t id m s t' m' :
  punch_reachable t m → pu_sessions m !! id = Some s → ps_role s = initiator →
  punch_run t (initiator_end order t id m) t' m' → t' < t + outcome_cooldown s →
  pu_byPeer m' !! ps_peerVIP s = None ∧ outcome_cooldown s <= 60 * second.
Proof.
  intros Hreach Hs Hr Hrun Ht. pose proof (punch_reachable_ok t m Hreach) as Hok.
  assert (punch_ok t (initiator_end order t id m)) as Hok1 by (apply end_ok; [done|by exists s]).
  assert (resting (ps_peerVIP s) (t + outcome_cooldown s) (initiator_end order t id m)) as H0.
  { split; [|by rewrite (end_cooldown order t id m s), lookup_insert_eq].
    destruct (pu_byPeer (initiator_end order t id m) !! ps_peerVIP s) as [k|] eqn:Hk; [|done]. exfalso.
    pose proof (ok_byPeer _ _ Hok1 (ps_peerVIP s) k) as [Hi _]. destruct (Hi Hk) as (s' & Hs' & Hr' & Hv').
    pose proof (ok_byPeer _ _ Hok (ps_peerVIP s) k) as [_ Hj].
    assert (pu_sessions m !! k = Some s' ∧ k ≠ id) as [Hsk Hne].
    { revert Hs'. unfold initiator_end. rewrite Hs. cbv zeta.
      set (m1 := m <| pu_sessions ::= delete id |> <| pu_byPeer ::= delete (ps_peerVIP s) |>).
      pose proof (outcome_frame t s m1) as Hf. destruct (noteSessionOutcomeLocked t s m1) as [m2 d].
      cbn in Hf. destruct Hf as (F1 & _).
      match goal with |- context [notePeerQuality order t s ?x] =>
        destruct (notePeerQuality_frame order t s x) as (-> & _) end.
      cbn. rewrite F1. unfold m1. cbn. by intros [? ?]%lookup_delete_Some. }
    assert (pu_byPeer m !! ps_peerVIP s = Some k) by (apply Hj; eauto).
    assert (pu_byPeer m !! ps_peerVIP s = Some id) by (apply (ok_byPeer _ _ Hok); eauto). congruence. }
  split; [|unfold outcome_cooldown, cooldownForReason, punchBusyCooldown, punchCooldown, second, millisecond;
           repeat case_match; lia].
  by destruct (run_resting _ _ _ _ _ _ Hrun Hok1 H0 Ht) as [_ []].
Qed.

(** ** Witnesses *)

Definition demo_punch_host : punchHost := {| ph_enabled := true; ph_selfInfo := true; ph_myVIP4 := None |}.

(** An attempt at 0, refused as busy at 5 s. *)
Definition demo_started : punchManager :=
  (PunchWithTrigger 0 demo_punch_host None "10.8.0.2" P2PTriggerManual (Some "a1") newPunchManager).1.
Definition demo_refused : punchManager := (fail (5 * second) "a1" P2PReasonPeerBusy demo_started None).1.

Lemma demo_refused_reachable : punch_reachable (5 * second) demo_refused.
Proof.
  refine (pr_step 0 _ demo_started _ (pr_step 0 0 newPunchManager _ (pr_init 0) _ _) _ _);
    try (unfold second, millisecond; lia).
  - by apply pst_start.
  - apply pst_fail.
Qed.

Definition demo_session : punchSession :=
  (newSession 0 "a1" "10.8.0.2" initiator punchWindowDefault "" (AddrPortFrom AddrZero 0))
    <| ps_trigger := P2PTriggerManual |> <| ps_reason := P2PReasonPeerBusy |>
    <| ps_state := P2PStateFailed |> <| ps_released := true |>.

Lemma demo_refused_session : pu_sessions demo_refused !! "a1" = Some demo_session.
Proof. vm_compute. reflexivity. Qed.

Lemma punch_manager_invariant_witness : punch_ok (5 * second) demo_refused.
Proof. exact (punch_manager_invariant _ _ demo_refused_reachable). Defined.

Lemma busy_ladder_never_climbs_witness :
  pu_cooldown (initiator_end [] (5 * second) "a1" demo_refused) !! "10.8.0.2" = Some (5 * second + 30 * second).
Proof.
  exact (busy_ladder_never_climbs [] _ (5 * second) "a1" _ demo_session demo_refused_reachable
           (Z.le_refl _) demo_refused_session eq_refl eq_refl eq_refl).
Defined.

(** Ten seconds later a second attempt is still refused. *)
Definition demo_later : punchManager :=
  (PunchWithTrigger (15 * second) demo_punch_host None "10.8.0.2" P2PTriggerManual (Some "a2")
     (initiator_end [] (5 * second) "a1" demo_refused)).1.

Lemma cooldown_enforced_witness :
  pu_byPeer demo_later !! "10.8.0.2" = None ∧ outcome_cooldown demo_session <= 60 * second.
Proof.
  refine (cooldown_enforced [] (5 * second) "a1" demo_refused demo_session (15 * second) demo_later
            demo_refused_reachable demo_refused_session eq_refl _ _).
  - refine (prun_step _ _ (5 * second) _ (15 * second) _ (prun_refl _ _) _ _).
    + vm_compute. discriminate.
    + by apply pst_start.
  - vm_compute. reflexivity.
Defined.
