(* ===== verification/GoText.v ===== *)
(** * What the signalling service uses of Go's [strings], [strconv],
    [encoding/hex] and [net]

    Texts are the UTF-8 bytes Go holds, as [String.string]. The texts the service
    reads come out of a JSON decoder, so they are valid UTF-8. *)

From Stdlib Require Import ZArith Lia Bool Ascii String.
From stdpp Require Import base list strings.
From S2P Require Import Prelude.
From S2P Require Import GoNet.

Open Scope string_scope.
Open Scope Z_scope.

Definition code (c : ascii) : Z := Z.of_nat (nat_of_ascii c).
Definition codes (s : string) : list Z := map code (String.list_ascii_of_string s).

(** ** [strings.TrimSpace] *)

(** The UTF-8 encodings of Unicode's white space. *)
Definition white_space : list (list Z) :=
  [[9]; [10]; [11]; [12]; [13]; [32]; [194; 133]; [194; 160]; [225; 154; 128]; [226; 128; 128];
   [226; 128; 129]; [226; 128; 130]; [226; 128; 131]; [226; 128; 132]; [226; 128; 133];
   [226; 128; 134]; [226; 128; 135]; [226; 128; 136]; [226; 128; 137]; [226; 128; 138];
   [226; 128; 168]; [226; 128; 169]; [226; 128; 175]; [226; 129; 159]; [227; 128; 128]].

(** The length of the white space the bytes start with. *)
Definition space_len (encodings : list (list Z)) (l : list Z) : nat :=
  match filter (λ w, take (length w) l = w) encodings with
  | w :: _ => length w
  | [] => 0
  end.

Fixpoint trim_front (fuel : nat) (encodings : list (list Z)) (l : list ascii) : list ascii :=
  match fuel with
  | O => l
  | S fuel =>
      match space_len encodings (map code l) with
      | O => l
      | n => trim_front fuel encodings (drop n l)
      end
  end.

Definition TrimSpace (s : string) : string :=
  let l := String.list_ascii_of_string s in
  let l := trim_front (length l) white_space l in
  let r := trim_front (length l) (map (@reverse Z) white_space) (reverse l) in
  String.string_of_list_ascii (reverse r).

Example trim_ascii : TrimSpace (String "009" " 10.0.0.7 ") = "10.0.0.7".
Proof. reflexivity. Qed.
Example trim_none : TrimSpace "10.0.0.7" = "10.0.0.7".
Proof. reflexivity. Qed.
Example trim_inner : TrimSpace " a b " = "a b".
Proof. reflexivity. Qed.
Example trim_all : TrimSpace "   " = "".
Proof. reflexivity. Qed.

(** ** [strings.ToLower] on ASCII, [hex.DecodeString] *)

Definition lower (c : ascii) : ascii :=
  if (65 <=? code c) && (code c <=? 90) then ascii_of_nat (Z.to_nat (code c + 32)) else c.

Fixpoint ToLower (s : string) : string :=
  match s with
  | EmptyString => EmptyString
  | String c s => String (lower c) (ToLower s)
  end.

Fixpoint all_hex (s : string) : bool :=
  match s with
  | EmptyString => true
  | String c s => match hex_val c with Some _ => all_hex s | None => false end
  end.

(** Whether [hex.DecodeString] succeeds: an even number of hexadecimal digits. *)
Definition hex_decodes (s : string) : bool := Nat.even (String.length s) && all_hex s.

(** ** [strconv.Atoi]: an optional sign and at least one decimal digit. *)

Fixpoint decimal (s : string) (acc : Z) : option Z :=
  match s with
  | EmptyString => Some acc
  | String c s => match digit_val c with Some d => decimal s (acc * 10 + d) | None => None end
  end.

(** Out of the range of an [int]: an error. *)
Definition atoi_range (z : Z) : option Z :=
  if (int64_min <=? z) && (z <=? int64_max) then Some z else None.

Definition digits (s : string) : option Z :=
  match s with EmptyString => None | _ => decimal s 0 end.

Definition Atoi (s : string) : option Z :=
  match s with
  | String "+" s => digits s ≫= atoi_range
  | String "-" s => (λ z, - z) <$> digits s ≫= atoi_range
  | _ => digits s ≫= atoi_range
  end.

(** ** [net.SplitHostPort] *)

Fixpoint IndexByte (l : list ascii) (c : ascii) : option nat :=
  match l with
  | [] => None
  | x :: l => if bool_decide (x = c) then Some 0%nat else S <$> IndexByte l c
  end.

Fixpoint LastIndexByte (l : list ascii) (c : ascii) : option nat :=
  match l with
  | [] => None
  | x :: l => match LastIndexByte l c with
              | Some i => Some (S i)
              | None => if bool_decide (x = c) then Some 0%nat else None
              end
  end.

Definition has_byte (l : list ascii) (c : ascii) : bool :=
  match IndexByte l c with Some _ => true | None => false end.

Definition SplitHostPort (hostport : string) : option (string * string) :=
  let l := String.list_ascii_of_string hostport in
  let finish (host : list ascii) (i j k : nat) :=
    if has_byte (drop j l) "[" then None
    else if has_byte (drop k l) "]" then None
    else Some (String.string_of_list_ascii host, String.string_of_list_ascii (drop (S i) l)) in
  match LastIndexByte l ":" with
  | None => None
  | Some i =>
      match l with
      | "["%char :: _ =>
          match IndexByte l "]" with
          | None => None
          | Some e =>
              if (S e =? length l)%nat then None
              else if (S e =? i)%nat then finish (drop 1 (take e l)) i 1%nat (S e)
              else None
          end
      | _ => if has_byte (take i l) ":" then None else finish (take i l) i 0%nat 0%nat
      end
  end.

Example split_v4 : SplitHostPort "1.2.3.4:80" = Some ("1.2.3.4", "80").
Proof. reflexivity. Qed.
Example split_v6 : SplitHostPort "[::1]:80" = Some ("::1", "80").
Proof. reflexivity. Qed.
Example split_bare_v6 : SplitHostPort "::1:80" = None.
Proof. reflexivity. Qed.
Example split_no_port : SplitHostPort "1.2.3.4" = None.
Proof. reflexivity. Qed.
Example split_bracket : SplitHostPort "[a]b:80" = None.
Proof. reflexivity. Qed.
Example split_empty_port : SplitHostPort ":" = Some ("", "").
Proof. reflexivity. Qed.

(** ** The classes of a [net.IP] of 16 bytes *)

Definition ip_byte (ip : list Z) (i : nat) : Z := nth i ip 0.

(** By the IPv4 address if it is one, else by the 16 bytes. *)
Definition by_family (ip : list Z) (v4 : ip4 → bool) (v6 : list Z → bool) : bool :=
  match To4 ip with Some a => v4 a | None => v6 ip end.

Definition IsUnspecified (ip : list Z) : bool :=
  by_family ip (λ a, bool_decide (a = (0, 0, 0, 0))) (λ ip, bool_decide (ip = replicate 16 0)).

Definition IsLoopback (ip : list Z) : bool :=
  by_family ip (λ '(b0, _, _, _), b0 =? 127) (λ ip, bool_decide (ip = (replicate 15 0 ++ [1])%list)).

Definition IsPrivate (ip : list Z) : bool :=
  by_family ip
    (λ '(b0, b1, _, _), (b0 =? 10) || ((b0 =? 172) && (Z.land b1 0xf0 =? 16)) ||
                        ((b0 =? 192) && (b1 =? 168)))
    (λ ip, (length ip =? 16)%nat && (Z.land (ip_byte ip 0) 0xfe =? 0xfc)).

Definition IsMulticast (ip : list Z) : bool :=
  by_family ip (λ '(b0, _, _, _), Z.land b0 0xf0 =? 0xe0)
    (λ ip, (length ip =? 16)%nat && (ip_byte ip 0 =? 0xff)).

Definition IsLinkLocalMulticast (ip : list Z) : bool :=
  by_family ip (λ '(b0, b1, b2, _), (b0 =? 224) && (b1 =? 0) && (b2 =? 0))
    (λ ip, (length ip =? 16)%nat && (ip_byte ip 0 =? 0xff) && (Z.land (ip_byte ip 1) 0x0f =? 0x02)).

Definition IsLinkLocalUnicast (ip : list Z) : bool :=
  by_family ip (λ '(b0, b1, _, _), (b0 =? 169) && (b1 =? 254))
    (λ ip, (length ip =? 16)%nat && (ip_byte ip 0 =? 0xfe) && (Z.land (ip_byte ip 1) 0xc0 =? 0x80)).

(** ** [TrimSpace] leaves nothing to trim *)

Definition clean (encodings : list (list Z)) (l : list ascii) : Prop :=
  Forall (λ w, take (length w) (map code l) ≠ w) encodings.

Lemma space_len_clean enc l : Forall (λ w, w ≠ []) enc → space_len enc (map code l) = 0%nat ↔ clean enc l.
Proof.
  intros Hne. unfold space_len, clean. rewrite Forall_forall in Hne |- *.
  destruct (filter _ enc) as [|w ws] eqn:E.
  - split; [|done]. intros _ w Hw Ht. assert (w ∈ @nil (list Z)) as H; [|by apply elem_of_nil in H].
    rewrite <- E. by apply list_elem_of_filter.
  - assert (w ∈ filter (λ w, take (length w) (map code l) = w) enc) as [Ht Hw]%list_elem_of_filter
      by (rewrite E; by left).
    split; [|intros Hc; by destruct (Hc w Hw)]. intros H0. exfalso. apply (Hne w Hw). by destruct w.
Qed.

Lemma trim_front_clean fuel enc l :
  Forall (λ w, w ≠ []) enc → (length l <= fuel)%nat → clean enc (trim_front fuel enc l).
Proof.
  intros Hne. revert l. induction fuel as [|fuel IH]; intros l Hl; cbn [trim_front].
  - destruct l; [|cbn in Hl; lia]. unfold clean. eapply Forall_impl; [exact Hne|]. cbn.
    intros w Hw. by rewrite take_nil.
  - destruct (space_len enc (map code l)) as [|n] eqn:E; [by apply space_len_clean|].
    apply IH. rewrite length_drop. destruct l; cbn in *; lia.
Qed.

Lemma trim_front_suffix fuel enc l : ∃ k, trim_front fuel enc l = drop k l.
Proof.
  revert l. induction fuel as [|fuel IH]; intros l; cbn [trim_front]; [by exists 0%nat|].
  destruct (space_len enc (map code l)) as [|n]; [by exists 0%nat|].
  destruct (IH (drop (S n) l)) as [k ->]. exists (S n + k)%nat. by rewrite drop_drop.
Qed.

Lemma clean_prefix enc l k : clean enc l → clean enc (take k l).
Proof.
  intros Hc. eapply Forall_impl; [exact Hc|]. cbn. intros w Hw Ht. apply Hw.
  rewrite <- firstn_map, take_take in Ht.
  assert (length w = Nat.min (Nat.min (length w) k) (length (map code l))) as Hlen
    by (rewrite <- Ht at 1; by rewrite length_take).
  by rewrite Nat.min_l in Ht by lia.
Qed.

Lemma trim_front_id fuel enc l : Forall (λ w, w ≠ []) enc → clean enc l → trim_front fuel enc l = l.
Proof. intros Hne Hc. destruct fuel as [|fuel]; [done|]. cbn. by apply space_len_clean in Hc as ->. Qed.

Lemma white_space_ne : Forall (λ w, w ≠ []) white_space.
Proof. unfold white_space. repeat constructor; discriminate. Qed.

Lemma reversed_space_ne : Forall (λ w, w ≠ []) (map (@reverse Z) white_space).
Proof. unfold white_space. repeat constructor; discriminate. Qed.

Lemma TrimSpace_idem s : TrimSpace (TrimSpace s) = TrimSpace s.
Proof.
  unfold TrimSpace. cbv zeta.
  set (l := trim_front _ white_space (String.list_ascii_of_string s)).
  assert (clean white_space l) as Hl by (apply trim_front_clean; [apply white_space_ne|done]).
  set (r := trim_front (length l) (map (@reverse Z) white_space) (reverse l)).
  assert (clean (map (@reverse Z) white_space) r) as Hr
    by (apply trim_front_clean; [apply reversed_space_ne|by rewrite length_reverse]).
  rewrite String.list_ascii_of_string_of_list_ascii.
  assert (clean white_space (reverse r)) as Hrl.
  { unfold r. destruct (trim_front_suffix (length l) (map (@reverse Z) white_space) (reverse l)) as [k ->].
    rewrite reverse_drop, reverse_involutive. by apply clean_prefix. }
  rewrite (trim_front_id _ white_space (reverse r)) by (apply white_space_ne || done).
  rewrite reverse_involutive. by rewrite trim_front_id by (apply reversed_space_ne || done).
Qed.

(** ** An IP address has nothing to trim *)

(** The letters of addresses: hexadecimal digits, ['.'] and [':']. *)
Definition plain (c : ascii) : Prop :=
  46 <= code c <= 102 ∧ code c ≠ 47 ∧ (code c <= 58 ∨ 65 <= code c <= 70 ∨ 97 <= code c).

Ltac plain_char := unfold plain; cbv; intuition discriminate.

Fixpoint all_plain (s : string) : Prop :=
  match s with EmptyString => True | String c s => plain c ∧ all_plain s end.

Lemma hex_plain c d : hex_val c = Some d → plain c.
Proof.
  unfold hex_val, plain, code. intros H.
  repeat match type of H with (if ?b then _ else _) = _ => destruct b eqn:?; bool_hyps; [lia|] end. done.
Qed.

Lemma digit_plain c d : digit_val c = Some d → plain c.
Proof. unfold digit_val, plain, code. case_match; [|done]. bool_hyps. lia. Qed.

Lemma v4_plain s val dig fields f : parse_v4_fields s val dig fields = Some f → all_plain s.
Proof.
  revert val dig fields. induction s as [|c s IH]; intros val dig fields; cbn [parse_v4_fields]; [done|].
  destruct (digit_val c) eqn:Hd.
  - repeat case_match; try done. intros Hs. split; [by eapply digit_plain|by eapply IH].
  - case_bool_decide as Hc; [|done]. repeat case_match; try done. intros Hs.
    split; [subst c; plain_char|by eapply IH].
Qed.

Lemma hex_group_plain s acc n v k rest :
  hex_group s acc n = Some (v, k, rest) → all_plain rest → all_plain s.
Proof.
  revert acc n. induction s as [|c s IH]; intros acc n; cbn [hex_group]; [by intros [= <- <- <-]|].
  destruct (hex_val c) eqn:Hh; [|by intros [= <- <- <-]]. case_match; [done|]. intros Hs Hr.
  split; [by eapply hex_plain|by eapply IH].
Qed.

Lemma colon_plain : plain ":"%char.
Proof. plain_char. Qed.

Lemma v6_loop_plain fuel s ip ell ip' ell' :
  parse_v6_loop fuel s ip ell = Some (ip', ell', EmptyString) → all_plain s.
Proof.
  revert s ip ell. induction fuel as [|fuel IH]; intros s ip ell; cbn [parse_v6_loop]; [by intros [= <- <- ->]|].
  destruct (hex_group s 0 0) as [[[acc k] rest]|] eqn:Hg; [|done]. destruct k as [|k]; [done|].
  pose proof (hex_group_plain _ _ _ _ _ _ Hg) as Hs.
  destruct rest as [|c rest]; [by intros _; apply Hs|].
  destruct (decide (c = "."%char)) as [->|Hdot].
  { repeat case_match; try done. intros _. by eapply v4_plain. }
  destruct (decide (c = ":"%char)) as [->|Hcol].
  - destruct rest as [|c rest]; [done|]. destruct (decide (c = ":"%char)) as [->|Hcol].
    + destruct ell; [done|]. destruct rest as [|d rest].
      * intros _. apply Hs. cbn [all_plain]. auto using colon_plain.
      * intros H%IH. apply Hs. cbn [all_plain] in *. destruct H. auto using colon_plain.
    + intros H. apply Hs. cbn [all_plain]. split; [apply colon_plain|].
      eapply (IH (String c rest) (ip ++ [acc / 256; acc mod 256])%list ell).
      revert H. destruct c as [[] [] [] [] [] [] [] []]; try done.
  - destruct c as [[] [] [] [] [] [] [] []]; done.
Qed.

(** The end of [parse_v6]. *)
Definition v6_finish (r : option (list Z * option nat * string)) : option (list Z) :=
  match r with
  | Some (ip, ell, EmptyString) =>
      if (length ip <? 16)%nat then
        match ell with
        | None => None
        | Some e => Some (take e ip ++ replicate (16 - length ip) 0 ++ drop e ip)%list
        end
      else match ell with Some _ => None | None => Some ip end
  | _ => None
  end.

Lemma v6_finish_plain fuel s ip ell t : v6_finish (parse_v6_loop fuel s ip ell) = Some t → all_plain s.
Proof.
  destruct (parse_v6_loop fuel s ip ell) as [[[a e] [|c r]]|] eqn:E; [|done..]. intros _.
  by eapply v6_loop_plain.
Qed.

Lemma cut_zone_whole s t : cut_zone s = (t, None) → t = s.
Proof.
  revert t. induction s as [|c s IH]; cbn; [by intros ? [= <-]|]. intros t. case_bool_decide; [done|].
  destruct (cut_zone s) as [a [z|]]; [done|]. intros [= <-]. by rewrite (IH a eq_refl).
Qed.

Lemma v6_plain s ip : parse_v6 s = Some ip → all_plain s.
Proof.
  unfold parse_v6. cbv zeta. destruct (cut_zone s) as [t [z|]] eqn:Hz; [done|].
  apply cut_zone_whole in Hz as ->.
  destruct s as [|c1 s]; [done|]. destruct (decide (c1 = ":"%char)) as [->|H1].
  - destruct s as [|c2 s]; [by apply (v6_finish_plain 8 ":" [] None)|].
    destruct (decide (c2 = ":"%char)) as [->|H2].
    + intros H. cbn [all_plain]. split_and!; [apply colon_plain..|]. destruct s as [|c s]; [done|].
      by apply (v6_finish_plain 8 (String c s) [] (Some 0%nat)) in H.
    + intros H. apply (v6_finish_plain 8 (String ":" (String c2 s)) [] None ip).
      revert H. destruct c2 as [[] [] [] [] [] [] [] []]; try done.
  - intros H. apply (v6_finish_plain 8 (String c1 s) [] None ip).
    revert H. destruct c1 as [[] [] [] [] [] [] [] []]; try done.
Qed.

Lemma ParseIP_plain s ip : ParseIP s = Some ip → all_plain s.
Proof.
  unfold ParseIP. assert (∀ t, select_syntax t s = Some ip → all_plain s) as H; [|apply H].
  intros t. induction t as [|c t IH]; cbn [select_syntax]; [done|]. case_bool_decide.
  { case_match eqn:Hv; [|done]. intros _. by eapply v4_plain. }
  case_bool_decide; [apply v6_plain|]. by case_bool_decide.
Qed.

Lemma plain_clean enc l :
  Forall (λ w, ∃ x w', w = x :: w' ∧ ¬ 46 <= x <= 102) enc → Forall plain l → clean enc l.
Proof.
  intros Henc Hl. eapply Forall_impl; [exact Henc|]. cbn. intros w (x & w' & -> & Hx).
  destruct l as [|c l]; cbn; [done|]. apply Forall_inv in Hl as [Hl _]. intros [= <- _]. by apply Hx.
Qed.

Lemma all_plain_Forall s : all_plain s → Forall plain (String.list_ascii_of_string s).
Proof. induction s as [|c s IH]; cbn; [constructor|]. intros [? ?]. constructor; auto. Qed.

Lemma TrimSpace_ip s ip : ParseIP s = Some ip → TrimSpace s = s.
Proof.
  intros Hp%ParseIP_plain%all_plain_Forall. unfold TrimSpace. cbv zeta.
  rewrite (trim_front_id _ white_space).
  2: apply white_space_ne.
  2: { apply plain_clean; [|done]. unfold white_space. repeat constructor; eexists _, _; (split; [done|lia]). }
  rewrite trim_front_id.
  - by rewrite reverse_involutive, String.string_of_list_ascii_of_string.
  - apply reversed_space_ne.
  - apply plain_clean.
    + unfold white_space. cbn [map]. repeat constructor; eexists _, _; (split; [reflexivity|lia]).
    + by apply Forall_reverse.
Qed.

(** ** The bytes of a parsed address *)

Ltac all_bytes :=
  repeat (apply Forall_cons; split; [first [assumption | unfold byte_ok; lia]|]); constructor.

Lemma hex_val_range c d : hex_val c = Some d → 0 <= d < 16.
Proof. unfold hex_val. repeat (case_match; [bool_hyps; intros [= <-]; lia|]). done. Qed.

Lemma digit_val_range c d : digit_val c = Some d → 0 <= d < 10.
Proof. unfold digit_val. case_match; [bool_hyps; intros [= <-]; lia|done]. Qed.

Lemma v4_fields_bytes s val dig fields f :
  parse_v4_fields s val dig fields = Some f → byte_ok val → Forall byte_ok fields → Forall byte_ok f.
Proof.
  revert val dig fields. induction s as [|c s IH]; intros val dig fields; cbn [parse_v4_fields].
  { case_match; [done|]. intros [= <-] Hv Hf. apply Forall_app; auto using Forall_nil, Forall_cons. }
  destruct (digit_val c) eqn:Hd.
  - apply digit_val_range in Hd. repeat case_match; try done. intros Hs Hv Hf.
    eapply IH; [done| |done]. bool_hyps. unfold byte_ok in *. lia.
  - repeat case_match; try done. intros Hs Hv Hf. eapply IH; [done|unfold byte_ok; lia|].
    apply Forall_app; auto using Forall_nil, Forall_cons.
Qed.

Lemma hex_group_range s acc n v k rest :
  hex_group s acc n = Some (v, k, rest) → (n <= 4)%nat → 0 <= acc < 16 ^ Z.of_nat n → 0 <= v < 65536.
Proof.
  revert acc n. induction s as [|c s IH]; intros acc n; cbn [hex_group].
  { intros [= <- <- <-] Hn Ha. pose proof (Z.pow_le_mono_r 16 (Z.of_nat n) 4). lia. }
  destruct (hex_val c) eqn:Hh.
  2: { intros [= <- <- <-] Hn Ha. pose proof (Z.pow_le_mono_r 16 (Z.of_nat n) 4). lia. }
  apply hex_val_range in Hh. destruct (Nat.ltb_spec 3 n); [done|]. intros Hs Hn Ha.
  apply IH in Hs; [done|lia|]. rewrite Nat2Z.inj_succ, Z.pow_succ_r by lia. lia.
Qed.

Lemma group_bytes acc : 0 <= acc < 65536 → Forall byte_ok [acc / 256; acc mod 256].
Proof.
  intros H. apply Forall_cons. split.
  { split; [apply Z.div_pos|apply Z.div_lt_upper_bound]; lia. }
  apply Forall_cons.
  split; [|constructor]. apply Z.mod_pos_bound. lia.
Qed.

Lemma v6_loop_bytes fuel s ip ell ip' ell' rest :
  parse_v6_loop fuel s ip ell = Some (ip', ell', rest) → Forall byte_ok ip → Forall byte_ok ip'.
Proof.
  revert s ip ell. induction fuel as [|fuel IH]; intros s ip ell; cbn [parse_v6_loop]; [by intros [= <- <- <-]|].
  destruct (hex_group s 0 0) as [[[acc k] r]|] eqn:Hg; [|done].
  apply hex_group_range in Hg; [|lia|cbn; lia]. destruct k as [|k]; [done|].
  pose proof (group_bytes acc Hg) as Hb.
  assert (∀ l : list Z, Forall byte_ok l → Forall byte_ok (l ++ [acc / 256; acc mod 256])%list) as Happ
    by (intros; by apply Forall_app).
  destruct r as [|c r]; [intros [= <- <- <-]; auto|].
  destruct (decide (c = "."%char)) as [->|Hdot].
  { repeat case_match; try done. all: intros [= <- <- <-] Hip; apply Forall_app; split; [done|];
      eapply v4_fields_bytes; [done|unfold byte_ok; lia|constructor]. }
  destruct (decide (c = ":"%char)) as [->|Hcol].
  - destruct r as [|c r]; [done|]. destruct (decide (c = ":"%char)) as [->|Hcol].
    + destruct ell; [done|]. destruct r as [|d r].
      * intros [= <- <- <-]. auto.
      * intros H Hip. eapply IH; [exact H|auto].
    + intros H Hip. eapply (IH (String c r) (ip ++ [acc / 256; acc mod 256])%list ell); [|auto].
      revert H. destruct c as [[] [] [] [] [] [] [] []]; try done.
  - destruct c as [[] [] [] [] [] [] [] []]; done.
Qed.

Lemma v6_finish_bytes fuel s ell t : v6_finish (parse_v6_loop fuel s [] ell) = Some t → Forall byte_ok t.
Proof.
  destruct (parse_v6_loop fuel s [] ell) as [[[a e] [|c r]]|] eqn:E; [|done..].
  apply v6_loop_bytes in E; [|constructor]. cbn. repeat case_match; try done; intros [= <-]; [|done].
  rewrite !Forall_app. split_and!; [by apply Forall_take| |by apply Forall_drop].
  apply Forall_replicate. unfold byte_ok. lia.
Qed.

Lemma ParseIP_bytes s ip : ParseIP s = Some ip → Forall byte_ok ip.
Proof.
  assert (∀ s, parse_v6 s = Some ip → Forall byte_ok ip) as Hv6.
  { clear s. intros s. unfold parse_v6. cbv zeta. destruct (cut_zone s) as [t [z|]]; [done|].
    destruct t as [|c1 t]; [done|]. destruct (decide (c1 = ":"%char)) as [->|H1].
    - destruct t as [|c2 t]; [by intros H%(v6_finish_bytes 8 ":" None)|].
      destruct (decide (c2 = ":"%char)) as [->|H2].
      + destruct t as [|c t].
        * intros [= <-]. apply (Forall_replicate byte_ok 16 0). unfold byte_ok. lia.
        * intros H. by apply (v6_finish_bytes 8 (String c t) (Some 0%nat)) in H.
      + intros H. apply (v6_finish_bytes 8 (String ":" (String c2 t)) None ip).
        revert H. destruct c2 as [[] [] [] [] [] [] [] []]; try done.
    - intros H. apply (v6_finish_bytes 8 (String c1 t) None ip).
      revert H. destruct c1 as [[] [] [] [] [] [] [] []]; try done. }
  unfold ParseIP. generalize s at 1. intros u. induction u as [|c u IH]; cbn [select_syntax]; [done|].
  repeat case_match; try done; [|by apply Hv6].
  intros [= <-]. assert (Forall byte_ok l) as Hl by (eapply v4_fields_bytes; [done|unfold byte_ok; lia|constructor]).
  repeat (apply Forall_cons; split; [unfold byte_ok; lia|]). done.
Qed.

Lemma To4_ok ip a : Forall byte_ok ip → To4 ip = Some a → ip4_ok a.
Proof.
  intros Hb. assert (∀ l, Forall byte_ok l → ∀ a0 a1 a2 a3, l = [a0; a1; a2; a3] → ip4_ok (a0, a1, a2, a3)) as H4.
  { intros l Hl a0 a1 a2 a3 ->. rewrite !Forall_cons in Hl. by destruct Hl as (? & ? & ? & ? & _). }
  pose proof (Forall_drop _ 12 _ Hb) as Hd.
  unfold To4. repeat case_match; try done; intros [= <-]; first [by apply (H4 _ Hb) | by apply (H4 _ Hd)].
Qed.
