(* ===== verification/SignalRegistry.v ===== *)
(** * The signalling registry of the server ([vpn-server/admin/signal.go])

    Who is registered with which address, and who can be pushed to. The registry
    is keyed by the VIP the server assigned. Each function under the registry's
    lock is one function of the state; [time.Now()] is an argument. *)

From Stdlib Require Import ZArith Lia Bool Ascii String.
From stdpp Require Import base list gmap strings.
From S2P Require Import Prelude.
From S2P Require Import GoNet.
From S2P Require Import GoText.

Open Scope string_scope.
Open Scope Z_scope.

(** ** Constants *)

Definition SignalEntryTTL : duration := 5 * minute.
Definition MetadataLen : nat := 32.
Definition MaxPunchAddrs : nat := 32.
Definition PunchWindowDefaultMs : Z := 10000.
Definition PunchWindowMinMs : Z := 3000.
Definition PunchWindowMaxMs : Z := 15000.

Definition ValidNATType (s : string) : bool :=
  bool_decide (s ∈ ["full-cone"; "restricted-cone"; "port-restricted"; "symmetric"; "unknown"]).

(** ** The checks on what a client sends *)

(** Each refusal of the checks; the text of the error is not modelled. *)
Inductive SignalErr :=
  | EmptyVIP
  | EmptyAddr
  | BadHostPort
  | BadIP
  | UnspecifiedIP
  | BadPort
  | BadNATType
  | BadMetadata
  | BadAttemptID
  | ForbiddenIP
  | BadFingerprint
  | TooManyAddrs
  | DuplicateAddr
  | MixedIPs
  | WrongAnchor.

(** [None]: accepted. *)
Definition ValidatePublicAddr (addr : string) : option SignalErr :=
  if bool_decide (addr = "") then Some EmptyAddr
  else match SplitHostPort addr with
  | None => Some BadHostPort
  | Some (host, port) =>
      match ParseIP host with
      | None => Some BadIP
      | Some ip =>
          if IsUnspecified ip then Some UnspecifiedIP
          else match Atoi port with
          | None => Some BadPort
          | Some p => if (p <? 1) || (65535 <? p) then Some BadPort else None
          end
      end
  end.

(** The error of a wrong length and of a bad digit are one here, so it does not
    matter that [ToLower] is Go's on ASCII only: no other letter becomes a
    hexadecimal digit. *)
Definition NormalizeMetadata (s : string) : option string :=
  let s := TrimSpace (ToLower s) in
  if bool_decide (s = "") then Some ""
  else if negb (String.length s =? MetadataLen * 2)%nat then None
  else if negb (hex_decodes s) then None
  else Some s.

Definition ClampPunchWindowMs (v : Z) : Z :=
  if v <=? 0 then PunchWindowDefaultMs
  else if v <? PunchWindowMinMs then PunchWindowMinMs
  else if PunchWindowMaxMs <? v then PunchWindowMaxMs
  else v.

Definition ValidatePunchAttemptID (s : string) : option SignalErr :=
  let s := TrimSpace s in
  if negb (String.length s =? 16)%nat then Some BadAttemptID
  else if negb (hex_decodes s) then Some BadAttemptID
  else None.

Definition forbidden_ip (ip : list Z) : bool :=
  IsPrivate ip || IsLoopback ip || IsLinkLocalUnicast ip || IsLinkLocalMulticast ip || IsMulticast ip.

Definition ValidatePunchAddr (s : string) (allowEmpty : bool) : option SignalErr :=
  let s := TrimSpace s in
  if bool_decide (s = "") then (if allowEmpty then None else Some EmptyAddr)
  else match ValidatePublicAddr s with
  | Some e => Some e
  | None =>
      match SplitHostPort s with
      | None => Some BadHostPort
      | Some (host, _) =>
          match ParseIP host with
          | None => Some BadIP
          | Some ip => if forbidden_ip ip then Some ForbiddenIP else None
          end
      end
  end.

Definition ValidateDirectFingerprint (s : string) : option SignalErr :=
  let s := TrimSpace (ToLower s) in
  if negb (String.length s =? 64)%nat then Some BadFingerprint
  else if negb (hex_decodes s) then Some BadFingerprint
  else None.

(** The loop over the candidates: [seen] and the IP of the group so far. [ParseIP]
    gives an IPv4 address in its IPv6-mapped form, so equal bytes are what the
    source compares as the printed address of [To4]. *)
Fixpoint validate_each (addrs seen : list string) (groupIP : option (list Z))
  : SignalErr + option (list Z) :=
  match addrs with
  | [] => inr groupIP
  | raw :: addrs =>
      let addr := TrimSpace raw in
      match ValidatePunchAddr addr false with
      | Some e => inl e
      | None =>
          if bool_decide (addr ∈ seen) then inl DuplicateAddr
          else match SplitHostPort addr with
          | None => inl BadHostPort
          | Some (host, _) =>
              match ParseIP host with
              | None => inl BadIP
              | Some ip =>
                  match groupIP with
                  | None => validate_each addrs (addr :: seen) (Some ip)
                  | Some g => if bool_decide (ip = g) then validate_each addrs (addr :: seen) groupIP
                              else inl MixedIPs
                  end
              end
          end
      end
  end.

(** An anchor that is no IP address equals no printed address. *)
Definition ValidatePunchAddrs (addrs : list string) (anchorIP : string) : option SignalErr :=
  if (length addrs =? 0)%nat then None
  else if (MaxPunchAddrs <? length addrs)%nat then Some TooManyAddrs
  else
    let anchorIP := TrimSpace anchorIP in
    match validate_each addrs [] None with
    | inl e => Some e
    | inr groupIP =>
        if bool_decide (anchorIP = "") then None
        else match ParseIP anchorIP with
        | None => Some WrongAnchor
        | Some want => if bool_decide (groupIP = Some want) then None else Some WrongAnchor
        end
    end.

Example public_ok : ValidatePublicAddr "203.0.113.7:40000" = None.
Proof. reflexivity. Qed.
Example public_port0 : ValidatePublicAddr "203.0.113.7:0" = Some BadPort.
Proof. reflexivity. Qed.
Example punch_private : ValidatePunchAddr "192.168.1.5:40000" false = Some ForbiddenIP.
Proof. reflexivity. Qed.
Example punch_mapped_loopback : ValidatePunchAddr "[::ffff:127.0.0.1]:40000" false = Some ForbiddenIP.
Proof. reflexivity. Qed.
Example punch_ula : ValidatePunchAddr "[fd00::1]:40000" false = Some ForbiddenIP.
Proof. reflexivity. Qed.
Example punch_group : ValidatePunchAddrs ["203.0.113.7:40000"; " 203.0.113.7:40001"] "203.0.113.7" = None.
Proof. reflexivity. Qed.
Example punch_mixed : ValidatePunchAddrs ["203.0.113.7:40000"; "203.0.113.8:40000"] "" = Some MixedIPs.
Proof. reflexivity. Qed.

(** ** The registry *)

Record PeerInfo := {
  pi_VIP : string;
  pi_PublicAddr : string;
  pi_NATType : string;
  pi_Metadata : string;
  pi_LastSeen : time }.

(** A sink is known by its identity, the pointer [sameSink] compares. *)
Record SignalRegistry := {
  sr_peers : gmap string PeerInfo;
  sr_sinks : gmap string positive;
  sr_ttl : duration }.

#[export] Instance eta_SignalRegistry : Eta SignalRegistry := λ r, {|
  sr_peers := sr_peers r; sr_sinks := sr_sinks r; sr_ttl := sr_ttl r |}.

Definition NewSignalRegistry (ttl : duration) : SignalRegistry := {|
  sr_peers := ∅; sr_sinks := ∅; sr_ttl := if ttl <=? 0 then SignalEntryTTL else ttl |}.

Definition Update (t : time) (vip publicAddr natType metadata : string) (r : SignalRegistry)
  : SignalRegistry * option SignalErr :=
  if bool_decide (vip = "") then (r, Some EmptyVIP)
  else match ValidatePublicAddr publicAddr with
  | Some e => (r, Some e)
  | None =>
      if negb (ValidNATType natType) then (r, Some BadNATType)
      else match NormalizeMetadata metadata with
      | None => (r, Some BadMetadata)
      | Some meta =>
          let meta := match sr_peers r !! vip with
                      | Some old => if bool_decide (meta = "") then pi_Metadata old else meta
                      | None => meta
                      end in
          (r <| sr_peers ::= <[vip := {| pi_VIP := vip; pi_PublicAddr := publicAddr;
                                         pi_NATType := natType; pi_Metadata := meta;
                                         pi_LastSeen := t |}]> |>, None)
      end
  end.

Definition expired (t : time) (r : SignalRegistry) (p : PeerInfo) : bool :=
  sr_ttl r <? time_sub t (pi_LastSeen p).

(** The read and the removal of an expired entry, which looks again. *)
Definition Get (t : time) (vip : string) (r : SignalRegistry) : SignalRegistry * option PeerInfo :=
  match sr_peers r !! vip with
  | None => (r, None)
  | Some p => if expired t r p then (r <| sr_peers ::= delete vip |>, None) else (r, Some p)
  end.

Definition Count (r : SignalRegistry) : nat := size (sr_peers r).

(** In any order: the map's. *)
Definition VIPs (r : SignalRegistry) : list string := (map_to_list (sr_peers r)).*1.

Definition AttachSink (vip : string) (sink : positive) (r : SignalRegistry) : SignalRegistry :=
  if bool_decide (vip = "") then r else r <| sr_sinks ::= <[vip := sink]> |>.

Definition DetachSink (vip : string) (sink : positive) (r : SignalRegistry) : SignalRegistry * bool :=
  if bool_decide (vip = "") then (r, false)
  else match sr_sinks r !! vip with
  | Some cur => if bool_decide (cur = sink) then (r <| sr_sinks ::= delete vip |>, true) else (r, false)
  | None => (r, false)
  end.

(** The sink a message for the VIP goes to. *)
Definition SendTo (vip : string) (r : SignalRegistry) : option positive := sr_sinks r !! vip.

Definition SinkCount (r : SignalRegistry) : nat := size (sr_sinks r).
Definition HasSink (vip : string) (r : SignalRegistry) : bool :=
  match sr_sinks r !! vip with Some _ => true | None => false end.

(** The sinks to close, in the map's order. *)
Definition CloseAllSinks (r : SignalRegistry) : SignalRegistry * list positive :=
  (r <| sr_sinks := ∅ |>, (map_to_list (sr_sinks r)).*2).

(** One tick of the cleanup. *)
Definition cleanup_peers (t : time) (r : SignalRegistry) : SignalRegistry :=
  r <| sr_peers ::= filter (λ kv, expired t r kv.2 = false) |>.

(** ** What the checks of addresses guarantee *)

(** The UDP endpoint a text denotes. *)
Definition target (s : string) : option (list Z * Z) :=
  '(host, port) ← SplitHostPort (TrimSpace s); ip ← ParseIP host; p ← Atoi port; Some (ip, p).

(** A port of a routable unicast address, in the sense of the checks: not
    private, loopback, link-local, multicast or unspecified. *)
Definition public_target (s : string) (ip : list Z) : Prop :=
  ∃ p, target s = Some (ip, p) ∧ 1 <= p <= 65535 ∧ IsUnspecified ip = false ∧ forbidden_ip ip = false.

Lemma ValidatePunchAddr_public s b :
  ValidatePunchAddr s b = None → TrimSpace s = "" ∧ b = true ∨ ∃ ip, public_target s ip.
Proof.
  unfold ValidatePunchAddr, ValidatePublicAddr, public_target, target. cbv zeta. case_bool_decide as Hs.
  { destruct b; [by left|done]. }
  right. destruct (SplitHostPort (TrimSpace s)) as [[host port]|]; [|done].
  destruct (ParseIP host) as [ip|] eqn:Hip; [|done]. destruct (IsUnspecified ip) eqn:Hu; [done|].
  destruct (Atoi port) as [p|] eqn:Hp; [|done]. destruct ((p <? 1) || (65535 <? p)) eqn:Hr; [done|].
  destruct (forbidden_ip ip) eqn:Hf; [done|]. bool_hyps.
  exists ip, p. cbn. rewrite Hip. cbn. rewrite Hp. split_and!; (done || lia).
Qed.

Lemma public_target_trim s ip : public_target (TrimSpace s) ip → public_target s ip.
Proof. unfold public_target, target. by rewrite TrimSpace_idem. Qed.

Lemma public_target_host s ip host port :
  public_target s ip → SplitHostPort (TrimSpace s) = Some (host, port) → ParseIP host = Some ip.
Proof.
  unfold public_target, target. intros (p & Ht & _) E. rewrite E in Ht. cbn in Ht.
  destruct (ParseIP host) as [ip'|]; [|done]. cbn in Ht. destruct (Atoi port); [|done]. cbn in Ht. congruence.
Qed.

(** The candidates of an accepted list are distinct texts for ports of one
    address. *)
Lemma validate_each_group addrs seen g g' :
  validate_each addrs seen g = inr g' →
  (∀ ip, g = Some ip → g' = Some ip) ∧
  Forall (λ a, ∃ ip, g' = Some ip ∧ public_target a ip) addrs ∧
  NoDup (map TrimSpace addrs) ∧ Forall (λ a, TrimSpace a ∉ seen) addrs.
Proof.
  revert seen g. induction addrs as [|raw addrs IH]; intros seen g; cbn [validate_each].
  { intros [= <-]. split_and!; [done|constructor..]. }
  destruct (ValidatePunchAddr (TrimSpace raw) false) eqn:Hv; [done|].
  destruct (ValidatePunchAddr_public _ _ Hv) as [[_ ?]|[ip Hip]]; [done|].
  case_bool_decide as Hseen; [done|].
  destruct (SplitHostPort (TrimSpace raw)) as [[host port]|] eqn:Hs; [|done].
  rewrite (public_target_host (TrimSpace raw) ip host port) by (rewrite ?TrimSpace_idem; done).
  apply public_target_trim in Hip.
  assert (validate_each addrs (TrimSpace raw :: seen) (Some ip) = inr g' →
    g' = Some ip ∧ Forall (λ a, ∃ ip, g' = Some ip ∧ public_target a ip) addrs ∧
    NoDup (map TrimSpace addrs) ∧ Forall (λ a, TrimSpace a ∉ TrimSpace raw :: seen) addrs) as H.
  { intros E. destruct (IH _ _ E) as (H1 & H2 & H3 & H4). auto. }
  intros E. assert (validate_each addrs (TrimSpace raw :: seen) (Some ip) = inr g' ∧ (g = None ∨ g = Some ip)) as [E' Hg].
  { destruct g as [i|]; [|by auto]. case_bool_decide; [subst; by auto|done]. }
  destruct (H E') as (-> & H2 & H3 & H4). split_and!.
  - intros i ->. destruct Hg; congruence.
  - constructor; [by exists ip|done].
  - cbn. constructor; [|done]. intros (a & Ha & Hin)%list_elem_of_fmap.
    rewrite Forall_forall in H4. apply (H4 a Hin). rewrite Ha. by left.
  - constructor; [done|]. eapply Forall_impl; [exact H4|]. cbn. intros a Ha Hin. apply Ha. by right.
Qed.

Lemma ValidatePunchAddrs_group addrs anchor :
  ValidatePunchAddrs addrs anchor = None →
  (length addrs <= MaxPunchAddrs)%nat ∧ NoDup (map TrimSpace addrs) ∧
  ∃ g, Forall (λ a, public_target a g) addrs ∧
       (addrs ≠ [] → TrimSpace anchor ≠ "" → ParseIP (TrimSpace anchor) = Some g).
Proof.
  unfold ValidatePunchAddrs. cbv zeta. destruct (Nat.eqb_spec (length addrs) 0) as [H0|H0].
  { intros _. apply length_zero_iff_nil in H0 as ->. split_and!; [cbn; lia|constructor|].
    exists []. by split. }
  destruct (Nat.ltb_spec MaxPunchAddrs (length addrs)); [done|].
  destruct (validate_each addrs [] None) as [|g] eqn:E; [done|].
  destruct (validate_each_group _ _ _ _ E) as (_ & H2 & H3 & _). intros Ha. split_and!; [lia|done|].
  destruct addrs as [|a addrs]; [done|]. assert (∃ ip, g = Some ip) as [ip ->].
  { apply Forall_inv in H2 as (ip & ? & _). by exists ip. }
  exists ip. split.
  - eapply Forall_impl; [exact H2|]. cbn. by intros ? (? & [= <-] & ?).
  - intros _ Hne. rewrite bool_decide_false in Ha by done.
    destruct (ParseIP (TrimSpace anchor)) as [w|]; [|done]. case_bool_decide as Hw; [congruence|done].
Qed.

(** ** The registry against what it promises *)

(** What a client last registered, and when. *)
Record registration := { g_addr : string; g_nat : string; g_at : time }.

Inductive registry_op :=
  | OpUpdate (vip addr nat meta : string)
  | OpGet (vip : string)
  | OpCleanup
  | OpAttach (vip : string) (sink : positive)
  | OpDetach (vip : string) (sink : positive)
  | OpCloseAll.

Definition registry_run1 (t : time) (o : registry_op) (r : SignalRegistry) : SignalRegistry :=
  match o with
  | OpUpdate vip addr nat meta => (Update t vip addr nat meta r).1
  | OpGet vip => (Get t vip r).1
  | OpCleanup => cleanup_peers t r
  | OpAttach vip s => AttachSink vip s r
  | OpDetach vip s => (DetachSink vip s r).1
  | OpCloseAll => (CloseAllSinks r).1
  end.

(** The specification forgets nothing: the last accepted registration of each
    VIP. *)
Definition spec_run1 (t : time) (o : registry_op) (r : SignalRegistry)
  (g : gmap string registration) : gmap string registration :=
  match o with
  | OpUpdate vip addr nat meta =>
      match (Update t vip addr nat meta r).2 with
      | None => <[vip := {| g_addr := addr; g_nat := nat; g_at := t |}]> g
      | Some _ => g
      end
  | _ => g
  end.

(** Runs: the registry, the specification beside it, and the time. *)
Inductive registry_reachable (ttl : duration) : time → SignalRegistry → gmap string registration → Prop :=
  | rr_init t : registry_reachable ttl t (NewSignalRegistry ttl) ∅
  | rr_step t t' o r g :
      registry_reachable ttl t r g → t <= t' →
      registry_reachable ttl t' (registry_run1 t' o r) (spec_run1 t' o r g).

(** What is kept is the last registration; what is lost has expired. *)
Record registry_ok (ttl : duration) (t : time) (r : SignalRegistry) (g : gmap string registration)
  : Prop := {
  rk_ttl : sr_ttl r = if ttl <=? 0 then SignalEntryTTL else ttl;
  rk_kept : ∀ vip p, sr_peers r !! vip = Some p → pi_VIP p = vip ∧
    g !! vip = Some {| g_addr := pi_PublicAddr p; g_nat := pi_NATType p; g_at := pi_LastSeen p |};
  rk_lost : ∀ vip e, g !! vip = Some e → sr_peers r !! vip = None → sr_ttl r < time_sub t (g_at e) }.

Lemma time_sub_mono a a' b : a <= a' → time_sub a b <= time_sub a' b.
Proof. unfold time_sub. lia. Qed.

(** An operation that only removes expired entries. *)
Lemma registry_ok_remove ttl t t' r r' g :
  registry_ok ttl t r g → t <= t' → sr_ttl r' = sr_ttl r →
  (∀ vip p, sr_peers r' !! vip = Some p → sr_peers r !! vip = Some p) →
  (∀ vip p, sr_peers r !! vip = Some p → sr_peers r' !! vip = None → expired t' r p = true) →
  registry_ok ttl t' r' g.
Proof.
  intros [] Ht Ettl Hsub Hexp. constructor; [congruence|eauto|].
  intros vip e He Hn. rewrite Ettl. destruct (sr_peers r !! vip) as [p|] eqn:Hp.
  - pose proof (Hexp _ _ Hp Hn) as H. unfold expired in H. bool_hyps.
    destruct (rk_kept0 _ _ Hp) as [_ E]. rewrite E in He. by injection He as <-.
  - specialize (rk_lost0 _ _ He Hp). pose proof (time_sub_mono t t' (g_at e) Ht). lia.
Qed.

Lemma registry_ok_same ttl t t' r r' g :
  registry_ok ttl t r g → t <= t' → sr_ttl r' = sr_ttl r → sr_peers r' = sr_peers r →
  registry_ok ttl t' r' g.
Proof. intros Hok Ht E1 E2. apply (registry_ok_remove ttl t t' r); rewrite ?E2; try done; congruence. Qed.

(** An update writes the whole entry or nothing. *)
Lemma update_cases t vip addr nat meta r :
  ((Update t vip addr nat meta r).2 ≠ None ∧ (Update t vip addr nat meta r).1 = r) ∨
  (∃ m, (Update t vip addr nat meta r).2 = None ∧
    (Update t vip addr nat meta r).1
    = r <| sr_peers ::= <[vip := {| pi_VIP := vip; pi_PublicAddr := addr; pi_NATType := nat;
                                    pi_Metadata := m; pi_LastSeen := t |}]> |>).
Proof.
  unfold Update. case_bool_decide; [by left|]. destruct (ValidatePublicAddr addr); [by left|].
  destruct (negb (ValidNATType nat)); [by left|]. destruct (NormalizeMetadata meta); [|by left].
  right. by eexists.
Qed.

Lemma registry_step_ok ttl t t' o r g :
  registry_ok ttl t r g → t <= t' → registry_ok ttl t' (registry_run1 t' o r) (spec_run1 t' o r g).
Proof.
  intros Hok Ht. destruct o as [vip addr nat meta|vip| |vip s|vip s|]; cbn [registry_run1 spec_run1].
  - destruct (update_cases t' vip addr nat meta r) as [[E ->]|(m & E & ->)].
    + destruct (Update t' vip addr nat meta r).2; [by apply (registry_ok_same ttl t t' r)|done].
    + rewrite E. destruct Hok. constructor; cbn; [done| |]; intros v q;
        (destruct (decide (v = vip)) as [->|Hne];
         [rewrite !lookup_insert_eq|rewrite !lookup_insert_ne by done]); eauto.
      * by intros [= <-].
      * done.
      * intros Hg Hn. specialize (rk_lost0 _ _ Hg Hn). pose proof (time_sub_mono t t' (g_at q) Ht). lia.
  - unfold Get. destruct (sr_peers r !! vip) as [p|] eqn:Hp; [|by apply (registry_ok_same ttl t t' r)].
    destruct (expired t' r p) eqn:He; cbn [fst]; [|by apply (registry_ok_same ttl t t' r)].
    apply (registry_ok_remove ttl t t' r); cbn; try done.
    + intros v q. by intros [_ ?]%lookup_delete_Some.
    + intros v q Hq. destruct (decide (v = vip)) as [->|]; [congruence|].
      rewrite lookup_delete_ne by done. congruence.
  - apply (registry_ok_remove ttl t t' r); cbn; try done.
    + intros v q. by intros [? _]%map_lookup_filter_Some.
    + intros v q Hq. rewrite map_lookup_filter_None. intros [?|Hf]; [congruence|].
      specialize (Hf _ Hq). cbn in Hf. by destruct (expired t' r q).
  - apply (registry_ok_same ttl t t' r); try done; unfold AttachSink; by case_match.
  - apply (registry_ok_same ttl t t' r); try done; unfold DetachSink; by repeat case_match.
  - by apply (registry_ok_same ttl t t' r).
Qed.

Lemma registry_reachable_ok ttl t r g : registry_reachable ttl t r g → registry_ok ttl t r g.
Proof.
  induction 1; [|by eapply registry_step_ok].
  constructor; cbn; [done| |]; intros ? ?; by rewrite lookup_empty.
Qed.

(** A query returns a peer's last accepted registration for as long as it is
    at most a TTL old, and nothing after that, whatever expired entries the
    reads and the minutely cleanup have removed in between and however the
    streams of the clients have come and gone. *)
Theorem registry_refines_last_registration ttl t r g t' vip :
  registry_reachable ttl t r g → t <= t' →
  (λ p, {| g_addr := pi_PublicAddr p; g_nat := pi_NATType p; g_at := pi_LastSeen p |})
    <$> (Get t' vip r).2
  = match g !! vip with
    | Some e => if sr_ttl r <? time_sub t' (g_at e) then None else Some e
    | None => None
    end.
Proof.
  intros Hr Ht. pose proof (registry_reachable_ok _ _ _ _ Hr) as []. unfold Get, expired.
  destruct (sr_peers r !! vip) as [p|] eqn:Hp.
  - destruct (rk_kept0 _ _ Hp) as [_ ->]. cbn [g_at]. by destruct (_ <? _).
  - destruct (g !! vip) as [e|] eqn:He; [|done]. specialize (rk_lost0 _ _ He Hp).
    pose proof (time_sub_mono t t' (g_at e) Ht). by rewrite (proj2 (Z.ltb_lt _ _)) by lia.
Qed.

(** A client that reports its address again after each of the gaps, without
    metadata; the cleanup runs just before each report. *)
Fixpoint heartbeats (vip addr nat : string) (t : time) (gaps : list duration) (r : SignalRegistry)
  : time * SignalRegistry :=
  match gaps with
  | [] => (t, r)
  | g :: gaps => heartbeats vip addr nat (t + g) gaps
                   (Update (t + g) vip addr nat "" (cleanup_peers (t + g) r)).1
  end.

(** The metadata of an attempt has no lifetime of its own. Each later
    registration without metadata keeps the old value and renews the entry, so
    under reports closer than the TTL a peer is answered a metadata of any
    age. *)
Theorem metadata_survives_heartbeats vip addr nat gaps t0 r p :
  ValidatePublicAddr addr = None → ValidNATType nat = true → vip ≠ "" → 0 <= sr_ttl r →
  sr_peers r !! vip = Some p → pi_LastSeen p = t0 →
  Forall (λ g, 0 <= g <= sr_ttl r) gaps →
  let '(t, r') := heartbeats vip addr nat t0 gaps r in
  pi_Metadata <$> (Get t vip r').2 = Some (pi_Metadata p).
Proof.
  intros Ha Hn Hv Httl. revert t0 r p Httl. induction gaps as [|g gaps IH]; intros t0 r p Httl Hp Hl Hg; cbn [heartbeats].
  - assert (expired t0 r p = false) as He; [|unfold Get; by rewrite Hp, He].
    unfold expired. apply Z.ltb_ge. unfold time_sub, int64_min, int64_max. lia.
  - apply Forall_cons_1 in Hg as [Hg Hgs]. set (r1 := cleanup_peers (t0 + g) r).
    assert (sr_peers r1 !! vip = Some p) as Hp1.
    { apply map_lookup_filter_Some. split; [done|]. cbn. unfold expired. apply Z.ltb_ge.
      unfold time_sub, int64_min, int64_max. lia. }
    assert ((Update (t0 + g) vip addr nat "" r1).1
            = r1 <| sr_peers ::= <[vip := {| pi_VIP := vip; pi_PublicAddr := addr; pi_NATType := nat;
                                             pi_Metadata := pi_Metadata p; pi_LastSeen := t0 + g |}]> |>) as ->.
    { unfold Update. rewrite bool_decide_false by done. rewrite Ha, Hn. cbn [negb].
      change (NormalizeMetadata "") with (Some ""). cbv iota beta. by rewrite Hp1. }
    eapply (IH (t0 + g) _ {| pi_VIP := vip; pi_PublicAddr := addr; pi_NATType := nat;
                            pi_Metadata := pi_Metadata p; pi_LastSeen := t0 + g |}); cbn; [done| |done|done].
    by rewrite lookup_insert_eq.
Qed.

(** ** Witnesses *)

Definition demo_registry : SignalRegistry :=
  (Update 0 "10.8.0.2" "203.0.113.7:40000" "symmetric"
     "00112233445566778899aabbccddeeff00112233445566778899aabbccddeeff" (NewSignalRegistry 0)).1.

Lemma demo_registry_reachable :
  registry_reachable 0 0 demo_registry
    (<["10.8.0.2" := {| g_addr := "203.0.113.7:40000"; g_nat := "symmetric"; g_at := 0 |}]> ∅).
Proof.
  exact (rr_step 0 0 0 (OpUpdate "10.8.0.2" "203.0.113.7:40000" "symmetric"
     "00112233445566778899aabbccddeeff00112233445566778899aabbccddeeff") _ _ (rr_init 0 0) (Z.le_refl 0)).
Qed.

Lemma registry_refines_last_registration_witness :
  (λ p, {| g_addr := pi_PublicAddr p; g_nat := pi_NATType p; g_at := pi_LastSeen p |})
    <$> (Get (SignalEntryTTL) "10.8.0.2" demo_registry).2
  = Some {| g_addr := "203.0.113.7:40000"; g_nat := "symmetric"; g_at := 0 |}.
Proof.
  refine (registry_refines_last_registration 0 0 demo_registry _ SignalEntryTTL "10.8.0.2"
            demo_registry_reachable _).
  vm_compute. discriminate.
Defined.

(** A day of reports, one every four minutes. *)
Lemma metadata_survives_heartbeats_witness :
  let '(t, r') := heartbeats "10.8.0.2" "203.0.113.7:40000" "symmetric" 0
                    (replicate 360 (4 * minute)) demo_registry in
  pi_Metadata <$> (Get t "10.8.0.2" r').2
  = Some "00112233445566778899aabbccddeeff00112233445566778899aabbccddeeff".
Proof.
  refine (metadata_survives_heartbeats "10.8.0.2" "203.0.113.7:40000" "symmetric" (replicate 360 (4 * minute)) 0
            demo_registry
            {| pi_VIP := "10.8.0.2"; pi_PublicAddr := "203.0.113.7:40000"; pi_NATType := "symmetric";
               pi_Metadata := "00112233445566778899aabbccddeeff00112233445566778899aabbccddeeff";
               pi_LastSeen := 0 |} eq_refl eq_refl _ _ _ eq_refl _).
  - discriminate.
  - vm_compute. discriminate.
  - vm_compute. reflexivity.
  - apply Forall_replicate. vm_compute. split; discriminate.
Defined.
