(* ===== verification/PunchTable.v ===== *)
(** * The coordination table of the server
    ([vpn-server/quic/punch.go], [punchTable])

    Which client is punching towards which, how often each may ask, and what has
    been pushed. Each method is one critical section of [t.mu]; [t.now()] is an
    argument. *)

From Stdlib Require Import ZArith Lia Bool Ascii String.
From stdpp Require Import base list gmap strings.
From S2P Require Import Prelude.
From S2P Require Import GoNet.

Open Scope string_scope.
Open Scope Z_scope.

(** ** Constants and data *)

Definition punchAttemptTTL : duration := 45 * second.
Definition punchPairCooldown : duration := 10 * second.
Definition punchRateLimit : nat := 5.
Definition punchRateWindow : duration := minute.
Definition relayMaxResponderInvites : nat := 2.

Record punchAttempt := {
  a_id : string;
  a_initiator : string;
  a_responder : string;
  a_windowMs : Z;
  a_createdAt : time;
  a_peerReady : bool;
  a_peerPushed : bool }.

#[export] Instance eta_punchAttempt : Eta punchAttempt := λ a, {|
  a_id := a_id a; a_initiator := a_initiator a; a_responder := a_responder a;
  a_windowMs := a_windowMs a; a_createdAt := a_createdAt a; a_peerReady := a_peerReady a;
  a_peerPushed := a_peerPushed a |}.

Record punchTable := {
  pt_attempts : gmap string punchAttempt;
  pt_byPair : gmap string time;
  pt_rate : gmap string (list time) }.

#[export] Instance eta_punchTable : Eta punchTable := λ t, {|
  pt_attempts := pt_attempts t; pt_byPair := pt_byPair t; pt_rate := pt_rate t |}.

Definition newPunchTable : punchTable := {| pt_attempts := ∅; pt_byPair := ∅; pt_rate := ∅ |}.

(** ** Operations *)

(** The instants of a sliding window that are still in it. *)
Definition rate_window (now : time) (window : duration) (times : list time) : list time :=
  filter (λ at_, time_sub now at_ <= window) times.

Definition attempt_alive (now : time) (a : punchAttempt) : bool :=
  negb (punchAttemptTTL <? time_sub now (a_createdAt a)).

Definition cleanup (now : time) (t : punchTable) : punchTable :=
  t <| pt_attempts ::= filter (λ kv, attempt_alive now kv.2 = true) |>
    <| pt_byPair ::= filter (λ kv, time_sub now kv.2 <= punchAttemptTTL) |>
    <| pt_rate ::= omap (λ times, match rate_window now punchRateWindow times with
                                  | [] => None
                                  | kept => Some kept
                                  end) |>.

Definition count (t : punchTable) : nat := size (pt_attempts t).

Inductive StartErr := RateLimited | PairCooldown | PairBusy | AttemptExists.
#[export] Instance StartErr_eq_dec : EqDecision StartErr.
Proof. solve_decision. Defined.

Definition pair_key (initiator responder : string) : string := initiator +:+ "|" +:+ responder.

Definition is_pair (initiator responder : string) (a : punchAttempt) : bool :=
  bool_decide (a_initiator a = initiator) && bool_decide (a_responder a = responder).

(** Whether some attempt is one of the pair; the loop stops at the first. *)
Definition pair_busy (initiator responder : string) (attempts : gmap string punchAttempt) : bool :=
  existsb (λ kv, is_pair initiator responder kv.2) (map_to_list attempts).

(** After the check for a repeated identifier. *)
Definition start_new (now : time) (initiator responder attemptID : string) (windowMs : Z)
  (t : punchTable) : punchTable * (punchAttempt * bool + StartErr) :=
  let kept := rate_window now punchRateWindow (default [] (pt_rate t !! initiator)) in
  let refuse e := (t <| pt_rate ::= <[initiator := kept]> |>, inr e) in
  if (punchRateLimit <=? length kept)%nat then refuse RateLimited
  else
    let pairKey := pair_key initiator responder in
    if match pt_byPair t !! pairKey with
       | Some at_ => time_sub now at_ <=? punchPairCooldown
       | None => false
       end then refuse PairCooldown
    else if pair_busy initiator responder (pt_attempts t) then refuse PairBusy
    else
      let a := {| a_id := attemptID; a_initiator := initiator; a_responder := responder;
                  a_windowMs := windowMs; a_createdAt := now; a_peerReady := false;
                  a_peerPushed := false |} in
      (t <| pt_attempts ::= <[attemptID := a]> |> <| pt_byPair ::= <[pairKey := now]> |>
         <| pt_rate ::= <[initiator := (kept ++ [now])%list]> |>, inl (a, false)).

Definition start (now : time) (initiator responder attemptID : string) (windowMs : Z)
  (t : punchTable) : punchTable * (punchAttempt * bool + StartErr) :=
  match pt_attempts t !! attemptID with
  | Some cur =>
      if negb (attempt_alive now cur) then
        start_new now initiator responder attemptID windowMs (t <| pt_attempts ::= delete attemptID |>)
      else if is_pair initiator responder cur then (t, inl (cur, true))
      else (t, inr AttemptExists)
  | None => start_new now initiator responder attemptID windowMs t
  end.

Definition active_for (now : time) (responder : string) (attempts : gmap string punchAttempt)
  : gmap string punchAttempt :=
  filter (λ kv, a_responder kv.2 = responder ∧ attempt_alive now kv.2 = true) attempts.

Definition activeResponderCount (now : time) (responder : string) (t : punchTable) : nat :=
  size (active_for now responder (pt_attempts t)).

(** The attempt, and whether [punch-peer] has still to be pushed. *)
Definition markReady (now : time) (id initiator responder : string) (t : punchTable)
  : punchTable * option (punchAttempt * bool) :=
  match pt_attempts t !! id with
  | None => (t, None)
  | Some a =>
      if negb (is_pair initiator responder a) then (t, None)
      else if negb (attempt_alive now a) then (t <| pt_attempts ::= delete id |>, None)
      else
        let a' := a <| a_peerReady := true |> <| a_peerPushed := true |> in
        (t <| pt_attempts ::= <[id := a']> |>, Some (a', negb (a_peerPushed a)))
  end.

Definition drop (id : string) (t : punchTable) : punchTable := t <| pt_attempts ::= delete id |>.

Definition involves (vip : string) (a : punchAttempt) : bool :=
  bool_decide (a_initiator a = vip) || bool_decide (a_responder a = vip).

Definition dropByVIP (vip : string) (t : punchTable) : punchTable * nat :=
  if bool_decide (vip = "") then (t, 0%nat)
  else
    let kept := filter (λ kv, involves vip kv.2 = false) (pt_attempts t) in
    (t <| pt_attempts := kept |>, (size (pt_attempts t) - size kept)%nat).

(** How the handler of [punch-intent] uses the table: the count and the start
    are two critical sections; here nothing comes between them. *)
Definition intent_admit (now : time) (initiator responder attemptID : string) (windowMs : Z)
  (t : punchTable) : punchTable * (punchAttempt * bool + option StartErr) :=
  if (relayMaxResponderInvites <=? activeResponderCount now responder t)%nat then (t, inr None)
  else let '(t, res) := start now initiator responder attemptID windowMs t in
       (t, match res with inl ok => inl ok | inr e => inr (Some e) end).

(** ** Runs with their history *)

(** A coordination that was started. *)
Record started := { d_at : time; d_initiator : string; d_responder : string; d_id : string }.

Inductive table_op :=
  | TStart (initiator responder id : string) (windowMs : Z)
  | TCleanup
  | TReady (id initiator responder : string)
  | TDrop (id : string)
  | TDropVIP (vip : string).

Definition table_run1 (now : time) (o : table_op) (t : punchTable) : punchTable :=
  match o with
  | TStart i r id w => (start now i r id w t).1
  | TCleanup => cleanup now t
  | TReady id i r => (markReady now id i r t).1
  | TDrop id => drop id t
  | TDropVIP vip => (dropByVIP vip t).1
  end.

(** The coordinations an operation starts. *)
Definition starts_of (now : time) (o : table_op) (t : punchTable) : list started :=
  match o with
  | TStart i r id w =>
      match (start now i r id w t).2 with
      | inl (_, false) => [{| d_at := now; d_initiator := i; d_responder := r; d_id := id |}]
      | _ => []
      end
  | _ => []
  end.

(** The attempts whose [punch-peer] an operation has to push. *)
Definition pushes_of (now : time) (o : table_op) (t : punchTable) : list string :=
  match o with
  | TReady id i r => match (markReady now id i r t).2 with Some (_, true) => [id] | _ => [] end
  | _ => []
  end.

Inductive table_reachable : time → punchTable → list started → list string → Prop :=
  | tr_init now : table_reachable now newPunchTable [] []
  | tr_step now now' o t h p :
      table_reachable now t h p → now <= now' →
      table_reachable now' (table_run1 now' o t) (h ++ starts_of now' o t) (p ++ pushes_of now' o t).

(** ** The invariant *)

Definition by_initiator (v : string) (h : list started) : list time :=
  map d_at (filter (λ d, d_initiator d = v) h).

(** The starts of an initiator in the minute that ends at [x]. *)
Definition in_minute (x : time) (v : string) (h : list started) : list started :=
  filter (λ d, d_initiator d = v ∧ x - punchRateWindow <= d_at d <= x) h.

Definition same_pair (d e : started) : Prop :=
  d_initiator d = d_initiator e ∧ d_responder d = d_responder e.
Instance same_pair_dec d e : Decision (same_pair d e).
Proof. unfold same_pair. apply _. Defined.

(** Earlier and later starts of one pair. *)
Definition starts_spaced (h : list started) : Prop :=
  ∀ i j d e, h !! i = Some d → h !! j = Some e → (i < j)%nat → same_pair d e →
    punchPairCooldown < d_at e - d_at d.

Record coordination_ok (now : time) (t : punchTable) (h : list started) (p : list string) : Prop := {
  tk_id : ∀ k a, pt_attempts t !! k = Some a → a_id a = k ∧ a_createdAt a <= now;
  tk_pair : ∀ k k' a a', pt_attempts t !! k = Some a → pt_attempts t !! k' = Some a' →
    a_initiator a = a_initiator a' → a_responder a = a_responder a' → k = k';
  tk_past : Forall (λ d, d_at d <= now) h;
  tk_rate : ∀ v x, now <= x →
    rate_window x punchRateWindow (default [] (pt_rate t !! v))
    = rate_window x punchRateWindow (by_initiator v h);
  tk_limit : ∀ v x, (length (in_minute x v h) <= punchRateLimit)%nat;
  tk_cool : ∀ d, d ∈ h → d_at d + punchAttemptTTL < now ∨
    ∃ u, pt_byPair t !! pair_key (d_initiator d) (d_responder d) = Some u ∧ d_at d <= u;
  tk_spaced : starts_spaced h;
  tk_pushes : ∀ k, (length (filter (λ q, q = k) p) +
    match pt_attempts t !! k with Some a => if a_peerPushed a then 0 else 1 | None => 0 end
    <= length (filter (λ d, d_id d = k) h))%nat }.

Arguments rate_window : simpl never.

Lemma window_le now at_ d :
  int64_min <= d < int64_max → (time_sub now at_ <=? d) = (now - at_ <=? d).
Proof. intros H. apply eq_true_iff_eq. rewrite !Z.leb_le. by apply time_sub_le. Qed.

Lemma in_window_spec x l :
  rate_window x punchRateWindow l = filter (λ a, x - a <= punchRateWindow) l.
Proof.
  unfold rate_window. apply list_filter_iff. intros a.
  rewrite time_sub_le by (vm_compute; split; discriminate || reflexivity). done.
Qed.

Lemma in_window_app x w l l' : rate_window x w (l ++ l')%list = (rate_window x w l ++ rate_window x w l')%list.
Proof. apply filter_app. Qed.

Lemma in_window_idem x y l :
  x <= y → rate_window y punchRateWindow (rate_window x punchRateWindow l) = rate_window y punchRateWindow l.
Proof.
  intros H. rewrite !in_window_spec, list_filter_filter. apply list_filter_iff. intros a. lia.
Qed.

Lemma attempt_alive_spec now a : attempt_alive now a = true ↔ now - a_createdAt a <= punchAttemptTTL.
Proof.
  unfold attempt_alive. rewrite negb_true_iff, Z.ltb_ge. apply time_sub_le.
  vm_compute. split; [discriminate|reflexivity].
Qed.

(** Nothing but the passing of time and the loss of old entries. *)
Lemma coordination_ok_sub now now' t t' h p :
  coordination_ok now t h p → now <= now' → pt_attempts t' ⊆ pt_attempts t →
  (∀ v x, now' <= x → rate_window x punchRateWindow (default [] (pt_rate t' !! v))
                     = rate_window x punchRateWindow (default [] (pt_rate t !! v))) →
  (∀ k u, pt_byPair t !! k = Some u → pt_byPair t' !! k = Some u ∨ u + punchAttemptTTL < now') →
  coordination_ok now' t' h p.
Proof.
  intros [] Hn Ha Hr Hb. constructor; try done.
  - intros k a Hk. destruct (tk_id0 k a) as [? ?]; [by eapply lookup_weaken|]. split; [done|lia].
  - intros k k' a a' H1 H2. eapply tk_pair0; by eapply lookup_weaken.
  - eapply Forall_impl; [exact tk_past0|]. cbn. intros. lia.
  - intros v x Hx. rewrite Hr by done. apply tk_rate0. lia.
  - intros d Hd. destruct (tk_cool0 d Hd) as [?|(u & Hu & Hle)]; [left; lia|].
    destruct (Hb _ _ Hu) as [?|?]; [right; eauto|left; lia].
  - intros k. specialize (tk_pushes0 k). destruct (pt_attempts t' !! k) as [a|] eqn:Hk; [|lia].
    rewrite (lookup_weaken _ _ _ _ Hk Ha) in tk_pushes0. done.
Qed.

Lemma cleanup_ok now now' t h p :
  coordination_ok now t h p → now <= now' → coordination_ok now' (cleanup now' t) h p.
Proof.
  intros Hok Hn. apply (coordination_ok_sub now now' t); try done; unfold cleanup; cbn.
  - apply map_filter_subseteq.
  - intros v x Hx. rewrite lookup_omap. destruct (pt_rate t !! v) as [l|]; cbn; [|done].
    rewrite <- (in_window_idem now' x l) by done.
    by destruct (rate_window now' punchRateWindow l) as [|a k] eqn:E.
  - intros k u Hu. destruct (decide (time_sub now' u <= punchAttemptTTL)) as [Hl|Hg].
    + left. by apply map_lookup_filter_Some.
    + right. rewrite time_sub_le in Hg by (vm_compute; split; [discriminate|reflexivity]). lia.
Qed.

(** A refused start only forgets what has left the window. *)
Lemma refuse_ok now now' v t t0 h p :
  coordination_ok now t0 h p → now <= now' → pt_attempts t ⊆ pt_attempts t0 → pt_rate t = pt_rate t0 →
  pt_byPair t = pt_byPair t0 →
  coordination_ok now' (t <| pt_rate ::= <[v := rate_window now' punchRateWindow (default [] (pt_rate t !! v))]> |>) h p.
Proof.
  intros Hok Hn Ha Hr Hb. apply (coordination_ok_sub now now' t0); try done.
  - intros w x Hx. cbn. rewrite Hr. destruct (decide (v = w)) as [->|Hne].
    + rewrite lookup_insert_eq. cbn. by apply in_window_idem.
    + by rewrite lookup_insert_ne.
  - intros k u Hu. left. cbn. by rewrite Hb.
Qed.

Lemma pair_busy_spec i r m k a :
  pair_busy i r m = false → m !! k = Some a → ¬ (a_initiator a = i ∧ a_responder a = r).
Proof.
  intros Hb Hk [<- <-]. apply not_true_iff_false in Hb. apply Hb. apply existsb_exists.
  exists (k, a). split; [by apply list_elem_of_In, elem_of_map_to_list|].
  unfold is_pair. cbn. by rewrite !bool_decide_true.
Qed.

Lemma in_minute_snoc x v h d :
  in_minute x v (h ++ [d])
  = (in_minute x v h ++ if decide (d_initiator d = v ∧ x - punchRateWindow <= d_at d <= x) then [d] else [])%list.
Proof. unfold in_minute. rewrite filter_app. f_equal. Qed.

Lemma by_initiator_snoc v h d :
  by_initiator v (h ++ [d]) = (by_initiator v h ++ if decide (d_initiator d = v) then [d_at d] else [])%list.
Proof. unfold by_initiator. rewrite filter_app, map_app. f_equal. cbn. by case_decide. Qed.

(** At the present the window of the table is the minute of the history. *)
Lemma window_is_minute now x v h :
  Forall (λ d, d_at d <= now) h → now <= x →
  length (rate_window x punchRateWindow (by_initiator v h)) = length (in_minute x v h).
Proof.
  intros Hp Hx. rewrite in_window_spec. induction h as [|d h IH]; [done|].
  apply Forall_cons in Hp as [Hd Hp]. unfold by_initiator, in_minute in *. cbn.
  specialize (IH Hp).
  repeat (case_decide; cbn); first [exact IH|f_equal; exact IH|exfalso; naive_solver lia].
Qed.

(** An earlier window holds no more than the one that ends at the new start. *)
Lemma in_minute_limit now v h x :
  Forall (λ d, d_at d <= now) h → now <= x → x - punchRateWindow <= now →
  (length (in_minute x v h) <= length (in_minute now v h))%nat.
Proof.
  intros Hp Hx Hw. induction h as [|d h IH]; [done|]. apply Forall_cons in Hp as [Hd Hp].
  specialize (IH Hp). unfold in_minute in *. cbn.
  repeat (case_decide; cbn); first [exact IH|by apply le_n_S|by apply Nat.le_le_succ_r|exfalso; naive_solver lia].
Qed.

Lemma starts_spaced_snoc h d :
  starts_spaced h → (∀ e, e ∈ h → same_pair e d → punchPairCooldown < d_at d - d_at e) → starts_spaced (h ++ [d]).
Proof.
  intros Hs Hd i j e f He Hf Hij Hp.
  apply lookup_snoc_Some in Hf as [[Hj Hf]|[-> ->]].
  - apply lookup_snoc_Some in He as [[_ He]|[-> ->]]; [by eapply (Hs i j)|lia].
  - apply lookup_snoc_Some in He as [[_ He]|[-> ->]]; [|lia].
    apply Hd; [by eapply list_elem_of_lookup_2|done].
Qed.

Lemma starts_app k h h' :
  length (filter (λ d, d_id d = k) (h ++ h')%list) =
  (length (filter (λ d, d_id d = k) h) + length (filter (λ d, d_id d = k) h'))%nat.
Proof. by rewrite filter_app, length_app. Qed.

Lemma pushes_app k p p' :
  length (filter (λ q : string, q = k) (p ++ p')%list) =
  (length (filter (λ q, q = k) p) + length (filter (λ q, q = k) p'))%nat.
Proof. by rewrite filter_app, length_app. Qed.

(** The coordination that [start_new] accepts. *)
Lemma accept_ok now now' i r id w t t0 h p :
  coordination_ok now t0 h p → now <= now' →
  pt_attempts t ⊆ pt_attempts t0 → pt_rate t = pt_rate t0 → pt_byPair t = pt_byPair t0 →
  (length (rate_window now' punchRateWindow (default [] (pt_rate t !! i))) < punchRateLimit)%nat →
  (∀ u, pt_byPair t !! pair_key i r = Some u → punchPairCooldown < time_sub now' u) →
  pair_busy i r (pt_attempts t) = false → pt_attempts t !! id = None →
  let a := {| a_id := id; a_initiator := i; a_responder := r; a_windowMs := w; a_createdAt := now';
              a_peerReady := false; a_peerPushed := false |} in
  coordination_ok now'
    (t <| pt_attempts ::= <[id := a]> |> <| pt_byPair ::= <[pair_key i r := now']> |>
       <| pt_rate ::= <[i := (rate_window now' punchRateWindow (default [] (pt_rate t !! i)) ++ [now'])%list]> |>)
    (h ++ [{| d_at := now'; d_initiator := i; d_responder := r; d_id := id |}]) p.
Proof.
  intros Hok Hn Ha Hr Hb Hlim Hcool Hbusy Hid a.
  set (d := {| d_at := now'; d_initiator := i; d_responder := r; d_id := id |}).
  assert (Forall (λ e, d_at e <= now') h) as Hpast.
  { eapply Forall_impl; [apply (tk_past _ _ _ _ Hok)|]. cbn. intros. lia. }
  assert (length (in_minute now' i h) < punchRateLimit)%nat as Hmin.
  { rewrite <- (window_is_minute now') by (done || lia). rewrite <- (tk_rate _ _ _ _ Hok i now') by lia.
    by rewrite <- Hr. }
  constructor; cbn [pt_attempts pt_byPair pt_rate].
  - intros k b. cbn. destruct (decide (k = id)) as [->|Hne].
    + rewrite lookup_insert_eq. intros [= <-]. cbn. split; [done|lia].
    + rewrite lookup_insert_ne by done. intros Hk.
      destruct (tk_id _ _ _ _ Hok k b) as [? ?]; [by eapply lookup_weaken|]. split; [done|lia].
  - intros k k' b b'. cbn. destruct (decide (k = id)) as [->|Hk], (decide (k' = id)) as [->|Hk'];
      rewrite ?lookup_insert_eq, ?lookup_insert_ne by done; try done.
    + intros [= <-] Hb' E1 E2. cbn in *. exfalso. by eapply (pair_busy_spec _ _ _ _ _ Hbusy Hb').
    + intros Hb' [= <-] E1 E2. cbn in *. exfalso. by eapply (pair_busy_spec _ _ _ _ _ Hbusy Hb').
    + intros H1 H2. eapply (tk_pair _ _ _ _ Hok); by eapply lookup_weaken.
  - apply Forall_app. split; [done|]. repeat constructor. cbn. lia.
  - intros v x Hx. cbn. rewrite by_initiator_snoc, in_window_app. cbn [d_initiator d_at d].
    destruct (decide (i = v)) as [<-|Hne].
    + rewrite lookup_insert_eq. cbn [from_option]. unfold Datatypes.id. rewrite in_window_app, in_window_idem by done.
      f_equal. rewrite Hr. apply (tk_rate _ _ _ _ Hok). lia.
    + rewrite lookup_insert_ne, app_nil_r by done. rewrite Hr. apply (tk_rate _ _ _ _ Hok). lia.
  - intros v x. rewrite in_minute_snoc, length_app. cbn. pose proof (tk_limit _ _ _ _ Hok v x).
    case_decide as Hd; cbn; [|lia]. destruct Hd as [<- Hd].
    pose proof (in_minute_limit now' i h x Hpast). lia.
  - intros e [He|He%list_elem_of_singleton]%elem_of_app; cbn.
    + destruct (tk_cool _ _ _ _ Hok e He) as [?|(u & Hu & Hle)]; [left; lia|]. right.
      destruct (decide (pair_key i r = pair_key (d_initiator e) (d_responder e))) as [->|Hk].
      * exists now'. rewrite lookup_insert_eq. split; [done|]. rewrite Forall_forall in Hpast. by apply Hpast.
      * exists u. rewrite lookup_insert_ne, Hb by done. done.
    + subst e. right. exists now'. cbn. by rewrite lookup_insert_eq.
  - apply starts_spaced_snoc; [apply (tk_spaced _ _ _ _ Hok)|]. intros e He [E1 E2]. cbn in *.
    destruct (tk_cool _ _ _ _ Hok e He) as [?|(u & Hu & Hle)];
      [unfold punchPairCooldown, punchAttemptTTL, second, millisecond in *; lia|].
    rewrite E1, E2, <- Hb in Hu. specialize (Hcool _ Hu).
    unfold time_sub, int64_min, int64_max, punchPairCooldown, second, millisecond in *. lia.
  - intros k. rewrite starts_app. cbn. pose proof (tk_pushes _ _ _ _ Hok k) as Hp.
    destruct (decide (k = id)) as [->|Hne].
    + rewrite lookup_insert_eq. cbn. rewrite decide_True by done. cbn.
      destruct (pt_attempts t0 !! id) as [b|]; [destruct (a_peerPushed b)|]; lia.
    + rewrite lookup_insert_ne by done.
      destruct (pt_attempts t !! k) as [b|] eqn:Hk; [|lia].
      rewrite (lookup_weaken _ _ _ _ Hk Ha) in Hp. lia.
Qed.

Lemma start_new_ok now now' i r id w t t0 h p :
  coordination_ok now t0 h p → now <= now' →
  pt_attempts t ⊆ pt_attempts t0 → pt_rate t = pt_rate t0 → pt_byPair t = pt_byPair t0 →
  pt_attempts t !! id = None →
  let res := start_new now' i r id w t in
  coordination_ok now' res.1
    (h ++ match res.2 with
          | inl (_, false) => [{| d_at := now'; d_initiator := i; d_responder := r; d_id := id |}]
          | _ => []
          end) p.
Proof.
  intros Hok Hn Ha Hr Hb Hid. cbv zeta. unfold start_new. cbv zeta.
  destruct (Nat.leb_spec punchRateLimit (length (rate_window now' punchRateWindow (default [] (pt_rate t !! i)))))
    as [_|Hlim]; [cbn [fst snd]; rewrite app_nil_r; by eapply refuse_ok|].
  destruct (match pt_byPair t !! pair_key i r with Some _ => _ | None => _ end) eqn:Hcool;
    [cbn [fst snd]; rewrite app_nil_r; by eapply refuse_ok|].
  destruct (pair_busy i r (pt_attempts t)) eqn:Hbusy;
    [cbn [fst snd]; rewrite app_nil_r; by eapply refuse_ok|].
  cbn [fst snd]. eapply accept_ok; try done. intros u Hu. rewrite Hu in Hcool. by bool_hyps.
Qed.

Lemma delete_ok now now' k t h p :
  coordination_ok now t h p → now <= now' → coordination_ok now' (t <| pt_attempts ::= delete k |>) h p.
Proof.
  intros Hok Hn. apply (coordination_ok_sub now now' t); try done; cbn.
  - apply delete_subseteq.
  - by left.
Qed.

Lemma later_ok now now' t h p : coordination_ok now t h p → now <= now' → coordination_ok now' t h p.
Proof. intros Hok Hn. apply (coordination_ok_sub now now' t); try done. by left. Qed.

Lemma ready_ok now now' id i r t h p :
  coordination_ok now t h p → now <= now' →
  let res := markReady now' id i r t in
  coordination_ok now' res.1 h (p ++ match res.2 with Some (_, true) => [id] | _ => [] end).
Proof.
  intros Hok Hn. cbv zeta. unfold markReady. destruct (pt_attempts t !! id) as [a|] eqn:Hid;
    [|cbn [fst snd]; rewrite app_nil_r; by eapply later_ok].
  destruct (negb (is_pair i r a)); [cbn [fst snd]; rewrite app_nil_r; by eapply later_ok|].
  destruct (negb (attempt_alive now' a)); cbn [fst snd]; [rewrite app_nil_r; by eapply delete_ok|].
  pose proof (later_ok _ _ _ _ _ Hok Hn) as []. constructor; try done; cbn [pt_attempts].
  - intros k b. cbn. destruct (decide (k = id)) as [->|Hne];
      [rewrite lookup_insert_eq|rewrite lookup_insert_ne by done; eauto].
    intros [= <-]. exact (tk_id0 _ _ Hid).
  - intros k k' b b'. cbn. destruct (decide (k = id)) as [->|Hk], (decide (k' = id)) as [->|Hk'];
      rewrite ?lookup_insert_eq, ?lookup_insert_ne by done; try done; eauto.
    + intros [= <-]. cbn. intros. by eapply tk_pair0.
    + intros ? [= <-]. cbn. intros. by eapply tk_pair0.
  - intros k. specialize (tk_pushes0 k). rewrite pushes_app. cbn.
    destruct (decide (k = id)) as [->|Hne].
    + rewrite lookup_insert_eq, Hid in *. cbn. destruct (a_peerPushed a); cbn; [lia|].
      rewrite decide_True by done. cbn. lia.
    + rewrite lookup_insert_ne by done. destruct (a_peerPushed a); cbn; [lia|].
      rewrite decide_False by done. cbn. lia.
Qed.

Lemma table_step_ok now now' o t h p :
  coordination_ok now t h p → now <= now' →
  coordination_ok now' (table_run1 now' o t) (h ++ starts_of now' o t) (p ++ pushes_of now' o t).
Proof.
  intros Hok Hn. destruct o as [i r id w| |id i r|id|vip];
    cbn [table_run1 starts_of pushes_of]; rewrite ?app_nil_r.
  - unfold start. destruct (pt_attempts t !! id) as [cur|] eqn:Hid; [|by eapply start_new_ok].
    destruct (negb (attempt_alive now' cur)).
    + eapply start_new_ok; try done; cbn; [apply delete_subseteq|by rewrite lookup_delete_eq].
    + destruct (is_pair i r cur); cbn [fst snd]; rewrite app_nil_r; by eapply later_ok.
  - by eapply cleanup_ok.
  - by apply (ready_ok now).
  - by eapply delete_ok.
  - unfold dropByVIP. case_bool_decide; [by eapply later_ok|]. cbn [fst].
    apply (coordination_ok_sub now now' t); try done; cbn; [apply map_filter_subseteq|by left].
Qed.

Lemma table_reachable_ok now t h p : table_reachable now t h p → coordination_ok now t h p.
Proof.
  induction 1 as [now|now now' o t h p _ IH Hn]; [|by eapply table_step_ok].
  constructor; cbn; try done; try (intros k; rewrite lookup_empty; cbn; lia).
  - intros v x. unfold punchRateLimit. lia.
  - intros d Hd. by apply elem_of_nil in Hd.
Qed.

(** ** Theorems *)

(** The limits of the coordination hold in every run, whatever cleanups,
    rollbacks and disconnections come between. No initiator starts more than
    five attempts in any minute; two attempts of the same pair start more than
    ten seconds apart; the table never holds two attempts of one pair; and
    [punch-peer] is pushed at most once per attempt started. *)
Theorem coordination_limits now t h p :
  table_reachable now t h p →
  (∀ v x, (length (in_minute x v h) <= 5)%nat) ∧
  (∀ i j d e, h !! i = Some d → h !! j = Some e → (i < j)%nat → same_pair d e →
     10 * second < d_at e - d_at d) ∧
  (∀ k k' a a', pt_attempts t !! k = Some a → pt_attempts t !! k' = Some a' →
     a_initiator a = a_initiator a' → a_responder a = a_responder a' → k = k') ∧
  (∀ k, length (filter (λ q, q = k) p) <= length (filter (λ d, d_id d = k) h))%nat.
Proof.
  intros Hr. pose proof (table_reachable_ok _ _ _ _ Hr) as []. split_and!; try done.
  intros k. specialize (tk_pushes0 k). lia.
Qed.

(** Runs in which the two steps of each intent come together. *)
Inductive admit_reachable : time → punchTable → Prop :=
  | ar_init now : admit_reachable now newPunchTable
  | ar_intent now now' i r id w t :
      admit_reachable now t → now <= now' → admit_reachable now' (intent_admit now' i r id w t).1
  | ar_other now now' o t :
      admit_reachable now t → now <= now' → starts_of now' o t = [] →
      admit_reachable now' (table_run1 now' o t).

Definition capped (now : time) (t : punchTable) : Prop :=
  ∀ r x, now <= x → (activeResponderCount x r t <= relayMaxResponderInvites)%nat.

Lemma active_later now x r m : now <= x → active_for x r m ⊆ active_for now r m.
Proof.
  intros Hx. apply map_subseteq_spec. intros k a. unfold active_for.
  rewrite !map_lookup_filter_Some. cbn. rewrite !attempt_alive_spec. intros (? & ? & ?). split_and!; try done. lia.
Qed.

Lemma active_sub x r m m' : m ⊆ m' → active_for x r m ⊆ active_for x r m'.
Proof.
  intros Hs. apply map_subseteq_spec. intros k a. unfold active_for.
  rewrite !map_lookup_filter_Some. intros [Hk ?]. split; [by eapply lookup_weaken|done].
Qed.

Lemma size_sub (m m' : gmap string punchAttempt) : m ⊆ m' → (size m <= size m')%nat.
Proof. apply map_subseteq_size. Qed.

Lemma capped_sub now now' t t' :
  capped now t → now <= now' → pt_attempts t' ⊆ pt_attempts t → capped now' t'.
Proof.
  intros Hc Hn Hs r x Hx. etrans; [apply size_sub, active_sub, Hs|]. apply Hc. lia.
Qed.

(** Marking an attempt ready makes no attempt active. *)
Lemma capped_ready now now' id i r t :
  capped now t → now <= now' → capped now' (markReady now' id i r t).1.
Proof.
  intros Hc Hn. unfold markReady. destruct (pt_attempts t !! id) as [a|] eqn:Hid; [|by apply (capped_sub now now' t)].
  destruct (negb (is_pair i r a)); [by apply (capped_sub now now' t)|].
  destruct (negb (attempt_alive now' a)); [apply (capped_sub now now' t); cbn; [done..|apply delete_subseteq]|].
  cbn [fst]. intros r' x Hx. etrans; [|apply (Hc r' x); lia]. unfold activeResponderCount.
  rewrite <- !(size_dom (D := gset string)). apply subseteq_size. intros k.
  rewrite !elem_of_dom. unfold active_for. intros [b Hb]. revert Hb. cbn [pt_attempts].
  rewrite map_lookup_filter_Some. intros [Hk Hb]. cbn in Hk. destruct (decide (k = id)) as [->|Hne].
  - exists a. apply map_lookup_filter_Some. rewrite lookup_insert_eq in Hk. by injection Hk as <-.
  - exists b. apply map_lookup_filter_Some. by rewrite lookup_insert_ne in Hk.
Qed.

(** What a start leaves: no more than there was, or one attempt of the pair
    more. *)
Lemma start_attempts now i r id w t :
  match (start now i r id w t).2 with
  | inl (a, false) => a_initiator a = i ∧ a_responder a = r ∧
      ∃ m, m ⊆ pt_attempts t ∧ pt_attempts (start now i r id w t).1 = <[id := a]> m
  | _ => pt_attempts (start now i r id w t).1 ⊆ pt_attempts t
  end.
Proof.
  assert (∀ t1, pt_attempts t1 ⊆ pt_attempts t →
    match (start_new now i r id w t1).2 with
    | inl (a, false) => a_initiator a = i ∧ a_responder a = r ∧
        ∃ m, m ⊆ pt_attempts t ∧ pt_attempts (start_new now i r id w t1).1 = <[id := a]> m
    | _ => pt_attempts (start_new now i r id w t1).1 ⊆ pt_attempts t
    end) as H.
  { intros t1 Hs. unfold start_new. cbv zeta. repeat (case_match; cbn [fst snd] in *; simplify_eq); try done.
    all: split_and!; try done. all: by exists (pt_attempts t1). }
  unfold start. destruct (pt_attempts t !! id) as [cur|] eqn:Hid; [|by apply H].
  destruct (negb (attempt_alive now cur)); [apply H; cbn; apply delete_subseteq|].
  destruct (is_pair i r cur); cbn [fst snd]; reflexivity.
Qed.

Lemma active_insert x r id a m :
  (size (active_for x r (<[id := a]> m)) <=
   size (active_for x r m) + if decide (a_responder a = r) then 1 else 0)%nat.
Proof.
  unfold active_for. case_decide as Hr.
  - assert (filter (λ kv, a_responder kv.2 = r ∧ attempt_alive x kv.2 = true) (<[id:=a]> m)
            ⊆ <[id := a]> (filter (λ kv, a_responder kv.2 = r ∧ attempt_alive x kv.2 = true) m)) as Hs.
    { apply map_subseteq_spec. intros k b. rewrite map_lookup_filter_Some. intros [Hk Hb].
      destruct (decide (k = id)) as [->|Hne]; [by rewrite lookup_insert_eq in *|].
      rewrite lookup_insert_ne in Hk |- * by done. by apply map_lookup_filter_Some. }
    apply size_sub in Hs. etrans; [exact Hs|]. rewrite map_size_insert. case_match; cbn; lia.
  - rewrite Nat.add_0_r. apply size_sub, map_subseteq_spec. intros k b. rewrite !map_lookup_filter_Some.
    intros [Hk Hb]. split; [|done]. destruct (decide (k = id)) as [->|Hne].
    + rewrite lookup_insert_eq in Hk. injection Hk as <-. cbn in Hb. tauto.
    + by rewrite lookup_insert_ne in Hk.
Qed.

Lemma capped_reachable now t : admit_reachable now t → capped now t.
Proof.
  induction 1 as [now|now now' i r id w t _ IH Hn|now now' o t _ IH Hn Ho].
  - intros r x _. vm_compute. lia.
  - unfold intent_admit. destruct (Nat.leb_spec relayMaxResponderInvites (activeResponderCount now' r t));
      [by apply (capped_sub now now' t)|].
    pose proof (start_attempts now' i r id w t) as Hs. destruct (start now' i r id w t) as [t' res].
    cbn [fst snd] in *. destruct res as [[a [|]]|e]; try (by apply (capped_sub now now' t)).
    destruct Hs as (E1 & E2 & m & Hm & Hatt). intros r' x Hx. unfold activeResponderCount. rewrite Hatt.
    etrans; [apply active_insert|]. case_decide as Hr.
    + assert (active_for x r' m ⊆ active_for now' r (pt_attempts t)) as Hsub%size_sub.
      { etrans; [apply (active_later now'); done|]. subst r'. rewrite E2. by apply active_sub. }
      unfold activeResponderCount in *. lia.
    + rewrite Nat.add_0_r. etrans; [apply size_sub, active_sub, Hm|]. apply IH. lia.
  - destruct o as [i r id w| |id i r|id|vip]; cbn [table_run1 starts_of] in *;
      try (by apply (capped_ready now)); apply (capped_sub now now' t); try done.
    + pose proof (start_attempts now' i r id w t) as Hs. by destruct (start now' i r id w t).2 as [[a [|]]|e].
    + apply map_filter_subseteq.
    + apply delete_subseteq.
    + unfold dropByVIP. case_bool_decide; cbn; [done|]. apply map_filter_subseteq.
Qed.

(** When the count and the start of an intent come together, a responder
    never has more than two active attempts, which is as many invitations as
    its client answers; nothing that happens to the table afterwards gives it a
    third. *)
Theorem responder_capped now t r now' :
  admit_reachable now t → now <= now' → (activeResponderCount now' r t <= 2)%nat.
Proof. intros Hr Hn. by apply (capped_reachable _ _ Hr). Qed.

(** But they are two critical sections. Three clients that are counted
    before any of them starts all pass, and the responder has three active
    attempts. *)
Theorem responder_cap_race w :
  let t0 := newPunchTable in
  let t1 := (start 0 "10.8.0.2" "10.8.0.9" "aa" w t0).1 in
  let t2 := (start 0 "10.8.0.3" "10.8.0.9" "bb" w t1).1 in
  let t3 := (start 0 "10.8.0.4" "10.8.0.9" "cc" w t2).1 in
  (activeResponderCount 0 "10.8.0.9" t0 < relayMaxResponderInvites)%nat ∧
  activeResponderCount 0 "10.8.0.9" t3 = 3%nat.
Proof. vm_compute. split; [lia|done]. Qed.

(** Repeating an intent is idempotent for the table and yet refused. A
    second [start] with the identifier of a live attempt of the same pair gives
    back that attempt and changes nothing; but when the responder has two
    active attempts, its own among them, the handler answers "busy" before it
    gets there. *)
Theorem idempotent_retry_refused now i r id w t a :
  pt_attempts t !! id = Some a → a_initiator a = i → a_responder a = r →
  now - a_createdAt a <= punchAttemptTTL →
  start now i r id w t = (t, inl (a, true)) ∧
  ((2 <= activeResponderCount now r t)%nat → intent_admit now i r id w t = (t, inr None)).
Proof.
  intros Hid Hi Hr Ha%attempt_alive_spec. split.
  - unfold start. rewrite Hid, Ha. cbn [negb]. unfold is_pair. by rewrite !bool_decide_true.
  - intros Hn. unfold intent_admit. by destruct (Nat.leb_spec relayMaxResponderInvites (activeResponderCount now r t));
      [|unfold relayMaxResponderInvites in *; lia].
Qed.

(** The table after a start that is accepted. *)
Lemma start_accepted now i r id w t t' a :
  start now i r id w t = (t', inl (a, false)) →
  pt_byPair t' !! pair_key i r = Some now ∧ a_id a = id.
Proof.
  assert (∀ t1, start_new now i r id w t1 = (t', inl (a, false)) →
    pt_byPair t' !! pair_key i r = Some now ∧ a_id a = id) as H.
  { intros t1. unfold start_new. cbv zeta. repeat (case_match; simplify_eq; try done).
    all: intros [= <- <-]; cbn; by rewrite lookup_insert_eq. }
  unfold start. repeat case_match; try done; apply H.
Qed.

(** The rollback of a start is not complete. After the handler drops an
    attempt because its invitation could not be delivered, a second intent of
    the same pair within ten seconds is refused by the cooldown the dropped
    attempt left (or by the rate limit), even with the same identifier. *)
Lemma rollback_cooldown now i r id w t t' a now' id' w' :
  start now i r id w t = (t', inl (a, false)) → now <= now' <= now + punchPairCooldown →
  pt_attempts t' !! id' = None ∨ id' = id →
  (start now' i r id' w' (drop id t')).2 = inr PairCooldown ∨
  (start now' i r id' w' (drop id t')).2 = inr RateLimited.
Proof.
  intros Hs Hn Hid. destruct (start_accepted _ _ _ _ _ _ _ _ Hs) as [Hp _].
  unfold start, drop. cbn.
  assert (delete id (pt_attempts t') !! id' = None) as ->.
  { apply lookup_delete_None. destruct Hid as [Hid|Hid]; [by right|left; by rewrite Hid]. }
  unfold start_new. cbv zeta. cbn. case_match; [by right|]. rewrite Hp.
  rewrite (window_le now' now punchPairCooldown) by (vm_compute; split; [discriminate|reflexivity]).
  rewrite (proj2 (Z.leb_le _ _)) by lia. by left.
Qed.

(** A disconnected client takes all its attempts with it and nothing else,
    on whichever side it was, and the report counts them; so it no longer uses
    up anyone's quota. *)
Theorem dropByVIP_exact vip t :
  vip ≠ "" →
  let '(t', n) := dropByVIP vip t in
  (∀ k a, pt_attempts t' !! k = Some a ↔
     pt_attempts t !! k = Some a ∧ a_initiator a ≠ vip ∧ a_responder a ≠ vip) ∧
  (n + count t' = count t)%nat ∧ pt_byPair t' = pt_byPair t ∧ pt_rate t' = pt_rate t ∧
  (∀ now, activeResponderCount now vip t' = 0%nat).
Proof.
  intros Hv. unfold dropByVIP. rewrite bool_decide_false by done.
  assert (∀ k a, filter (λ kv, involves vip kv.2 = false) (pt_attempts t) !! k = Some a ↔
    pt_attempts t !! k = Some a ∧ a_initiator a ≠ vip ∧ a_responder a ≠ vip) as H.
  { intros k a. rewrite map_lookup_filter_Some. cbn. unfold involves.
    rewrite orb_false_iff, !bool_decide_eq_false. done. }
  split_and!; try done.
  - unfold count. cbn. assert (size (filter (λ kv, involves vip kv.2 = false) (pt_attempts t))
      <= size (pt_attempts t))%nat by apply map_subseteq_size, map_filter_subseteq. lia.
  - intros now. apply map_size_empty_iff, map_empty. intros k. unfold active_for. cbn.
    apply map_lookup_filter_None. right. intros a [_ [_ Hr]]%H. cbn. tauto.
Qed.

(** ** Witnesses *)

Definition demo_table : punchTable := (start 0 "10.8.0.2" "10.8.0.9" "aa" 10000 newPunchTable).1.
Definition demo_started_attempt : punchAttempt := {|
  a_id := "aa"; a_initiator := "10.8.0.2"; a_responder := "10.8.0.9"; a_windowMs := 10000;
  a_createdAt := 0; a_peerReady := false; a_peerPushed := false |}.

Lemma demo_table_reachable :
  table_reachable 0 demo_table
    [{| d_at := 0; d_initiator := "10.8.0.2"; d_responder := "10.8.0.9"; d_id := "aa" |}] [].
Proof.
  exact (tr_step 0 0 (TStart "10.8.0.2" "10.8.0.9" "aa" 10000) _ _ _ (tr_init 0) (Z.le_refl 0)).
Qed.

Lemma coordination_limits_witness :
  (length (in_minute 0 "10.8.0.2"
     [{| d_at := 0; d_initiator := "10.8.0.2"; d_responder := "10.8.0.9"; d_id := "aa" |}]) <= 5)%nat.
Proof. apply (coordination_limits 0 demo_table _ _ demo_table_reachable). Defined.

Lemma responder_capped_witness :
  activeResponderCount 0 "10.8.0.9" (intent_admit 0 "10.8.0.2" "10.8.0.9" "aa" 10000 newPunchTable).1 = 1%nat ∧
  (activeResponderCount 0 "10.8.0.9"
     (intent_admit 0 "10.8.0.2" "10.8.0.9" "aa" 10000 newPunchTable).1 <= 2)%nat.
Proof.
  split; [vm_compute; reflexivity|].
  apply (responder_capped 0 _ "10.8.0.9" 0
    (ar_intent 0 0 _ _ _ _ _ (ar_init 0) (Z.le_refl 0)) (Z.le_refl 0)).
Defined.

(** Two attempts towards one responder; the first client repeats its intent. *)
Lemma idempotent_retry_refused_witness :
  let t := (start 0 "10.8.0.3" "10.8.0.9" "bb" 10000 demo_table).1 in
  intent_admit second "10.8.0.2" "10.8.0.9" "aa" 10000 t = (t, inr None).
Proof.
  cbv zeta.
  refine (proj2 (idempotent_retry_refused second "10.8.0.2" "10.8.0.9" "aa" 10000 _ demo_started_attempt _ _ _ _) _).
  - vm_compute. reflexivity.
  - reflexivity.
  - reflexivity.
  - vm_compute. discriminate.
  - vm_compute. lia.
Defined.

Lemma dropByVIP_exact_witness : activeResponderCount 0 "10.8.0.9" (dropByVIP "10.8.0.9" demo_table).1 = 0%nat.
Proof. apply (dropByVIP_exact "10.8.0.9" demo_table). discriminate. Defined.
