(* ===== verification/SignalServer.v ===== *)
(** * The signalling service of the server
    ([vpn-server/quic/signal.go], the handlers of [vpn-server/quic/punch.go],
    the lookup of [data_server.go])

    What a request read from a client's signalling stream does: the registry and
    the coordination table it changes, the messages it pushes to others and the
    reply. Each request is handled as one step here; [PunchTable] has what the
    interleaving of the table's critical sections adds. Logging is left out. *)

From Stdlib Require Import ZArith Lia Bool Ascii String.
From stdpp Require Import base list gmap strings sorting.
From S2P Require Import Prelude.
From S2P Require Import GoNet.
From S2P Require Import GoText.
From S2P Require Import SignalRegistry.
From S2P Require Import PunchTable.

Open Scope string_scope.
Open Scope Z_scope.

(** ** Messages *)

Definition signalMsgTypeRegister := "register".
Definition signalMsgTypeRegistered := "registered".
Definition signalMsgTypePeer := "peer".
Definition signalMsgTypeError := "error".
Definition signalMsgTypePunchIntent := "punch-intent".
Definition signalMsgTypePunchReady := "punch-ready".
Definition signalMsgTypePunchInvite := "punch-invite".
Definition signalMsgTypePunchPeer := "punch-peer".
Definition signalMsgTypePunchBusy := "punch-busy".
Definition signalMsgTypePeers := "peers".
Definition signalMsgTypePeersList := "peers-list".

Definition signalRequestTypes :=
  [signalMsgTypeRegister; signalMsgTypePunchIntent; signalMsgTypePunchReady; signalMsgTypePeers].
Definition signalResponseTypes :=
  [signalMsgTypeRegistered; signalMsgTypePeer; signalMsgTypeError; signalMsgTypePeersList].
Definition signalPushTypes :=
  [signalMsgTypePunchInvite; signalMsgTypePunchPeer; signalMsgTypePunchBusy].

Record SignalPeerEntry := { e_VIP : string; e_SignalReady : bool }.

(** The [Error] of an error reply: the server's stable reason texts, or the
    refusal of a check, whose text is not modelled. *)
Inductive errText := Reason (s : string) | Refused (e : SignalErr).

Record signalMessage := {
  m_Type : string;
  m_PeerVIP : string;
  m_PublicAddr : string;
  m_NATType : string;
  m_Metadata : string;
  m_AttemptID : string;
  m_PunchAddr : string;
  m_DirectFingerprint : string;
  m_WindowMs : Z;
  m_PunchAddrs : list string;
  m_PeerOnline : bool;
  m_PeerPublicAddr : string;
  m_PeerNATType : string;
  m_PeerMetadata : string;
  m_PeerSignalReady : bool;
  m_RelayRttMs : Z;
  m_Peers : list SignalPeerEntry;
  m_PeersTruncated : bool;
  m_Error : option errText }.

#[export] Instance eta_signalMessage : Eta signalMessage := λ m, {|
  m_Type := m_Type m; m_PeerVIP := m_PeerVIP m; m_PublicAddr := m_PublicAddr m;
  m_NATType := m_NATType m; m_Metadata := m_Metadata m; m_AttemptID := m_AttemptID m;
  m_PunchAddr := m_PunchAddr m; m_DirectFingerprint := m_DirectFingerprint m;
  m_WindowMs := m_WindowMs m; m_PunchAddrs := m_PunchAddrs m; m_PeerOnline := m_PeerOnline m;
  m_PeerPublicAddr := m_PeerPublicAddr m; m_PeerNATType := m_PeerNATType m;
  m_PeerMetadata := m_PeerMetadata m; m_PeerSignalReady := m_PeerSignalReady m;
  m_RelayRttMs := m_RelayRttMs m; m_Peers := m_Peers m; m_PeersTruncated := m_PeersTruncated m;
  m_Error := m_Error m |}.

(** A message with every field but the type at its zero value. *)
Definition message (type : string) : signalMessage := {|
  m_Type := type; m_PeerVIP := ""; m_PublicAddr := ""; m_NATType := ""; m_Metadata := "";
  m_AttemptID := ""; m_PunchAddr := ""; m_DirectFingerprint := ""; m_WindowMs := 0;
  m_PunchAddrs := []; m_PeerOnline := false; m_PeerPublicAddr := ""; m_PeerNATType := "";
  m_PeerMetadata := ""; m_PeerSignalReady := false; m_RelayRttMs := 0; m_Peers := [];
  m_PeersTruncated := false; m_Error := None |}.

Definition error_message (e : errText) : signalMessage :=
  (message signalMsgTypeError) <| m_Error := Some e |>.

Definition punchErr (e : errText) : signalMessage := error_message e.

Definition isRequestOrResponseType (t : string) : bool :=
  bool_decide (t ∈ signalRequestTypes) || bool_decide (t ∈ signalResponseTypes).

(** ** The server *)

(** A data-plane connection: the VIP assigned to it and its identity. *)
Record clientStream := { cs_vip : string; cs_conn : positive }.

Record server := {
  sv_p2pEnabled : bool;
  sv_signalReg : option SignalRegistry;
  sv_punch : option punchTable;
  sv_conns : gmap ip4 clientStream;
  sv_peersRate : gmap string (list time);
  sv_pushed : list (string * positive * signalMessage) }.

#[export] Instance eta_server : Eta server := λ s, {|
  sv_p2pEnabled := sv_p2pEnabled s; sv_signalReg := sv_signalReg s; sv_punch := sv_punch s;
  sv_conns := sv_conns s; sv_peersRate := sv_peersRate s; sv_pushed := sv_pushed s |}.

(** The messages pushed so far are a record of what left the server: to which
    VIP, on which stream. *)

Section handlers.
  (** Whether a stream takes a message: QUIC's part. *)
  Context (deliver : positive → signalMessage → bool).
  (** The smoothed round trip of a client's control connection in milliseconds,
      from QUIC's statistics; 0 when it is unknown. *)
  Context (relayRTTLookup : clientStream → Z).

Definition p2pOn (s : server) : bool := sv_p2pEnabled s.

Definition lookupVIP (vip : string) (s : server) : option clientStream :=
  match ParseIP vip with
  | None => None
  | Some ip => match To4 ip with None => None | Some a => sv_conns s !! a end
  end.

Definition online (vip : string) (s : server) : bool :=
  match lookupVIP vip s with Some _ => true | None => false end.

(** The pushed message, if the push succeeds. *)
Definition PushSignal (vip : string) (msg : signalMessage) (s : server) : server * bool :=
  if negb (p2pOn s) then (s, false)
  else if isRequestOrResponseType (m_Type msg) then (s, false)
  else if bool_decide (m_Type msg = "") then (s, false)
  else match sv_signalReg s with
  | None => (s, false)
  | Some reg =>
      match SendTo vip reg with
      | None => (s, false)
      | Some sink => if deliver sink msg then (s <| sv_pushed ::= λ l, (l ++ [(vip, sink, msg)])%list |>, true)
                     else (s, false)
      end
  end.

Definition relayRTTMsFor (cs : clientStream) (peerVIP : string) (s : server) : Z :=
  match lookupVIP peerVIP s with
  | None => 0
  | Some peer =>
      let a := relayRTTLookup cs in
      let b := relayRTTLookup peer in
      if (a <=? 0) || (b <=? 0) then 0 else a + b
  end.

(** [None]: accepted. *)
Definition validateSignalSelfFields (publicAddr natType metadata : string) : option SignalErr :=
  match ValidatePublicAddr publicAddr with
  | Some e => Some e
  | None => if negb (ValidNATType natType) then Some BadNATType
            else match NormalizeMetadata metadata with None => Some BadMetadata | Some _ => None end
  end.

Definition signalReply (now : time) (cs : option clientStream) (msg : signalMessage) (s : server)
  : server * signalMessage :=
  match cs with
  | None => (s, error_message (Reason "no client identity"))
  | Some cs =>
      if bool_decide (cs_vip cs = "") then (s, error_message (Reason "no client identity"))
      else if negb (p2pOn s) then (s, error_message (Reason "signaling disabled"))
      else match sv_signalReg s with
      | None => (s, error_message (Reason "signaling disabled"))
      | Some reg =>
          let '(reg, _) := Get now (cs_vip cs) reg in
          match Update now (cs_vip cs) (m_PublicAddr msg) (m_NATType msg) (m_Metadata msg) reg with
          | (reg, Some e) => (s <| sv_signalReg := Some reg |>, error_message (Refused e))
          | (reg, None) =>
              let peerVIP := TrimSpace (m_PeerVIP msg) in
              if bool_decide (peerVIP = "") then
                (s <| sv_signalReg := Some reg |>, message signalMsgTypeRegistered)
              else
                let resp := message signalMsgTypePeer in
                let '(reg, resp) :=
                  if online peerVIP s then
                    match Get now peerVIP reg with
                    | (reg, Some peer) =>
                        (reg, resp <| m_PeerOnline := true |> <| m_PeerPublicAddr := pi_PublicAddr peer |>
                                   <| m_PeerNATType := pi_NATType peer |>
                                   <| m_PeerMetadata := pi_Metadata peer |>)
                    | (reg, None) => (reg, resp)
                    end
                  else (reg, resp) in
                (s <| sv_signalReg := Some reg |>,
                 resp <| m_PeerSignalReady := HasSink peerVIP reg |>
                      <| m_RelayRttMs := relayRTTMsFor cs peerVIP s |>)
          end
      end
  end.

Definition handleSignalRegister := signalReply.

(** ** Coordination *)

Definition start_err_text (e : StartErr) : string :=
  match e with
  | RateLimited => "rate-limited"
  | PairCooldown => "pair-cooldown"
  | PairBusy => "pair-busy"
  | AttemptExists => "attempt-exists"
  end.

Definition punchAddrIP (punchAddr : string) : string :=
  match SplitHostPort (TrimSpace punchAddr) with Some (host, _) => host | None => "" end.

(** The checks of the message, in the handler's order; [None]: all pass. *)
Definition intent_refusal (vip peerVIP : string) (msg : signalMessage) : option errText :=
  if bool_decide (peerVIP = "") then Some (Reason "peerVIP required")
  else if bool_decide (peerVIP = vip) then Some (Reason "cannot punch self")
  else match ValidatePunchAttemptID (m_AttemptID msg) with
  | Some e => Some (Refused e)
  | None =>
  match ValidatePunchAddr (m_PunchAddr msg) false with
  | Some e => Some (Refused e)
  | None =>
  match ValidatePunchAddrs (m_PunchAddrs msg) (punchAddrIP (m_PunchAddr msg)) with
  | Some e => Some (Refused e)
  | None =>
  match ValidateDirectFingerprint (m_DirectFingerprint msg) with
  | Some e => Some (Refused e)
  | None =>
  match validateSignalSelfFields (m_PublicAddr msg) (m_NATType msg) (m_Metadata msg) with
  | Some e => Some (Refused e)
  | None => None
  end end end end end.

Definition invite_of (vip : string) (window : Z) (id : string) (msg : signalMessage) : signalMessage :=
  (message signalMsgTypePunchInvite)
    <| m_AttemptID := id |> <| m_PeerVIP := vip |> <| m_PunchAddr := m_PunchAddr msg |>
    <| m_PunchAddrs := m_PunchAddrs msg |> <| m_NATType := m_NATType msg |>
    <| m_Metadata := m_Metadata msg |> <| m_DirectFingerprint := m_DirectFingerprint msg |>
    <| m_WindowMs := window |>.

Definition handlePunchIntent (now : time) (cs : option clientStream) (msg : signalMessage) (s : server)
  : server * signalMessage :=
  match cs with
  | None => (s, punchErr (Reason "no client identity"))
  | Some cs =>
  if bool_decide (cs_vip cs = "") then (s, punchErr (Reason "no client identity"))
  else match sv_punch s with
  | None => (s, punchErr (Reason "p2p disabled"))
  | Some pt =>
  let peerVIP := TrimSpace (m_PeerVIP msg) in
  match intent_refusal (cs_vip cs) peerVIP msg with
  | Some e => (s, punchErr e)
  | None =>
  let window := ClampPunchWindowMs (m_WindowMs msg) in
  if negb (online peerVIP s) then (s, punchErr (Reason "peer-unreachable"))
  else if (relayMaxResponderInvites <=? activeResponderCount now peerVIP pt)%nat then
    let busy := (message signalMsgTypePunchBusy) <| m_AttemptID := m_AttemptID msg |>
                                                 <| m_PeerVIP := peerVIP |> in
    let '(s, _) := PushSignal (cs_vip cs) busy s in
    (s, punchErr (Reason "peer-busy"))
  else
    let '(pt, res) := start now (cs_vip cs) peerVIP (m_AttemptID msg) window pt in
    let s := s <| sv_punch := Some pt |> in
    match res with
    | inr e => (s, punchErr (Reason (start_err_text e)))
    | inl (a, _) =>
        let '(s, pushed) := PushSignal peerVIP (invite_of (cs_vip cs) window (a_id a) msg) s in
        if negb pushed then
          (s <| sv_punch := Some (drop (a_id a) pt) |>, punchErr (Reason "peer-not-ready"))
        else signalReply now (Some cs) msg s
    end
  end end end.

Definition ready_refusal (initiatorVIP : string) (msg : signalMessage) : option errText :=
  if bool_decide (initiatorVIP = "") then Some (Reason "peerVIP required")
  else match ValidatePunchAttemptID (m_AttemptID msg) with
  | Some e => Some (Refused e)
  | None =>
  match ValidatePunchAddr (m_PunchAddr msg) true with
  | Some e => Some (Refused e)
  | None =>
  match ValidatePunchAddrs (m_PunchAddrs msg) (punchAddrIP (m_PunchAddr msg)) with
  | Some e => Some (Refused e)
  | None =>
  match validateSignalSelfFields (m_PublicAddr msg) (m_NATType msg) (m_Metadata msg) with
  | Some e => Some (Refused e)
  | None => None
  end end end end.

Definition peer_of (vip : string) (a : punchAttempt) (msg : signalMessage) : signalMessage :=
  (message signalMsgTypePunchPeer)
    <| m_AttemptID := a_id a |> <| m_PeerVIP := vip |> <| m_PunchAddr := m_PunchAddr msg |>
    <| m_PunchAddrs := m_PunchAddrs msg |> <| m_DirectFingerprint := m_DirectFingerprint msg |>
    <| m_NATType := m_NATType msg |> <| m_WindowMs := a_windowMs a |>.

Definition handlePunchReady (now : time) (cs : option clientStream) (msg : signalMessage) (s : server)
  : server * signalMessage :=
  match cs with
  | None => (s, punchErr (Reason "no client identity"))
  | Some cs =>
  if bool_decide (cs_vip cs = "") then (s, punchErr (Reason "no client identity"))
  else match sv_punch s with
  | None => (s, punchErr (Reason "p2p disabled"))
  | Some pt =>
  let initiatorVIP := TrimSpace (m_PeerVIP msg) in
  match ready_refusal initiatorVIP msg with
  | Some e => (s, punchErr e)
  | None =>
  match markReady now (m_AttemptID msg) initiatorVIP (cs_vip cs) pt with
  | (pt, None) => (s <| sv_punch := Some pt |>, punchErr (Reason "unknown-attempt"))
  | (pt, Some (a, first)) =>
      let s := s <| sv_punch := Some pt |> in
      let s := if (first : bool) then (PushSignal initiatorVIP (peer_of (cs_vip cs) a msg) s).1 else s in
      signalReply now (Some cs) msg s
  end end end end.

(** ** Enumeration *)

Definition peersListMax : nat := 200.
Definition peersRateLimit : nat := 1.
Definition peersRateWindow : duration := minute.
Definition peersRateLimitedCode := "peers-rate-limited".

(** The loop reads each VIP, which can remove expired entries as it goes. *)
Fixpoint enumerate (now : time) (self : string) (vips : list string) (s : server) (reg : SignalRegistry)
  : SignalRegistry * list string :=
  match vips with
  | [] => (reg, [])
  | vip :: vips =>
      if bool_decide (vip = self) then enumerate now self vips s reg
      else if negb (online vip s) then enumerate now self vips s reg
      else match Get now vip reg with
      | (reg, None) => enumerate now self vips s reg
      | (reg, Some _) => let '(reg, out) := enumerate now self vips s reg in (reg, vip :: out)
      end
  end.

Definition enumerableVIPs (now : time) (cs : clientStream) (s : server) : server * list string :=
  if bool_decide (cs_vip cs = "") then (s, [])
  else match sv_signalReg s with
  | None => (s, [])
  | Some reg =>
      if negb (p2pOn s) then (s, [])
      else let '(reg', out) := enumerate now (cs_vip cs) (VIPs reg) s reg in
           (s <| sv_signalReg := Some reg' |>, out)
  end.

(** [sort.Slice]: those that can be pushed to first, then by the bytes of the
    VIP. *)
Definition entry_le (a b : SignalPeerEntry) : Prop :=
  if bool_decide (e_SignalReady a = e_SignalReady b) then String.leb (e_VIP a) (e_VIP b) = true
  else e_SignalReady a = true.
#[local] Instance entry_le_dec a b : Decision (entry_le a b).
Proof. unfold entry_le. case_bool_decide; apply _. Defined.

Definition peersSnapshot (now : time) (cs : clientStream) (s : server)
  : server * list SignalPeerEntry * bool :=
  let '(s, vips) := enumerableVIPs now cs s in
  let ready v := match sv_signalReg s with Some reg => HasSink v reg | None => false end in
  let entries := merge_sort entry_le (map (λ v, {| e_VIP := v; e_SignalReady := ready v |}) vips) in
  if (peersListMax <? length entries)%nat then (s, take peersListMax entries, true)
  else (s, entries, false).

Definition peersRateAllows (vip : string) (now : time) (s : server) : server * bool :=
  if bool_decide (vip = "") then (s, false)
  else
    let kept := rate_window now peersRateWindow (default [] (sv_peersRate s !! vip)) in
    if (peersRateLimit <=? length kept)%nat then (s <| sv_peersRate ::= <[vip := kept]> |>, false)
    else (s <| sv_peersRate ::= <[vip := (kept ++ [now])%list]> |>, true).

Definition handleSignalPeers (now : time) (cs : option clientStream) (s : server)
  : server * signalMessage :=
  match cs with
  | None => (s, error_message (Reason "no client identity"))
  | Some cs =>
  if bool_decide (cs_vip cs = "") then (s, error_message (Reason "no client identity"))
  else if negb (p2pOn s) || match sv_signalReg s with None => true | Some _ => false end then
    (s, error_message (Reason "signaling disabled"))
  else
    let '(s, ok) := peersRateAllows (cs_vip cs) now s in
    if negb ok then (s, error_message (Reason peersRateLimitedCode))
    else
      let '(s, peers, truncated) := peersSnapshot now cs s in
      (s, (message signalMsgTypePeersList) <| m_Peers := peers |> <| m_PeersTruncated := truncated |>)
  end.

(** ** The switch over the request type, and the other events *)

Definition serve (now : time) (cs : option clientStream) (msg : signalMessage) (s : server)
  : server * signalMessage :=
  let t := m_Type msg in
  if bool_decide (t = signalMsgTypeRegister) then handleSignalRegister now cs msg s
  else if bool_decide (t = signalMsgTypePunchIntent) then handlePunchIntent now cs msg s
  else if bool_decide (t = signalMsgTypePunchReady) then handlePunchReady now cs msg s
  else if bool_decide (t = signalMsgTypePeers) then handleSignalPeers now cs s
  else if bool_decide (t ∈ [signalMsgTypePunchInvite; signalMsgTypePunchPeer]) then
    (s, error_message (Reason "push type not allowed as request"))
  else (s, error_message (Reason "unknown message type")).

Definition EnableP2PSignal (enabled : bool) (reg : option SignalRegistry) (s : server) : server :=
  s <| sv_p2pEnabled := enabled |> <| sv_signalReg := reg |>
    <| sv_punch := if enabled then Some newPunchTable else None |>.

(** [unregisterData], and what follows for the coordination table: only the
    connection that holds the VIP cleans up. *)
Definition cleanupDataConnVIP (vipBytes : ip4) (vip : string) (conn : positive) (s : server)
  : server * bool :=
  match sv_conns s !! vipBytes with
  | None => (s, false)
  | Some cur =>
      if negb (bool_decide (cs_conn cur = conn)) then (s, false)
      else (s <| sv_conns ::= delete vipBytes |>
              <| sv_punch ::= option_map (λ pt, (dropByVIP vip pt).1) |>, true)
  end.

(** ** Lemmas *)

Lemma PushSignal_frame vip msg s :
  ∃ out, (PushSignal vip msg s).1 = s <| sv_pushed := (sv_pushed s ++ out)%list |> ∧
    ((PushSignal vip msg s).2 = false ∧ out = [] ∨
     (PushSignal vip msg s).2 = true ∧ p2pOn s = true ∧ (∃ reg, sv_signalReg s = Some reg) ∧
     ∃ sink, out = [(vip, sink, msg)]).
Proof.
  assert (s = s <| sv_pushed := (sv_pushed s ++ [])%list |>) as Hs by (rewrite app_nil_r; by destruct s).
  unfold PushSignal. destruct (p2pOn s) eqn:Hp; cbn [negb]; [|exists []; auto].
  destruct (isRequestOrResponseType (m_Type msg)); [exists []; auto|]. case_bool_decide; [exists []; auto|].
  destruct (sv_signalReg s) as [reg|]; [|exists []; auto].
  destruct (SendTo vip reg) as [sink|]; [|exists []; auto].
  destruct (deliver sink msg); [|exists []; auto].
  exists [(vip, sink, msg)]. split; [done|]. right. eauto 10.
Qed.

(** What may go on in the registry on behalf of [vip]: the others' entries stay,
    unless a read removes one that has expired. *)
Definition own_entry_only (now : time) (vip : string) (r r' : option SignalRegistry) : Prop :=
  match r, r' with
  | Some r, Some r' =>
      sr_ttl r' = sr_ttl r ∧ sr_sinks r' = sr_sinks r ∧
      ∀ v p, v ≠ vip →
        (sr_peers r' !! v = Some p → sr_peers r !! v = Some p) ∧
        (sr_peers r !! v = Some p → sr_peers r' !! v = None → expired now r p = true)
  | r, r' => r' = r
  end.

Lemma own_refl now vip r : own_entry_only now vip r r.
Proof. destruct r; cbn; [|done]. split_and!; [done..|]. intros v p _. split; [done|congruence]. Qed.

Lemma own_trans now vip r1 r2 r3 :
  own_entry_only now vip r1 r2 → own_entry_only now vip r2 r3 → own_entry_only now vip r1 r3.
Proof.
  destruct r1 as [r1|], r2 as [r2|], r3 as [r3|]; cbn; try done; try congruence.
  intros (T1 & S1 & H1) (T2 & S2 & H2). split_and!; [congruence..|]. intros v p Hv.
  destruct (H1 v p Hv) as [A1 B1], (H2 v p Hv) as [A2 B2]. split; [auto|]. intros Hp Hn.
  destruct (sr_peers r2 !! v) as [q|] eqn:Hq; [|auto].
  destruct (H1 v q Hv) as [A3 _]. specialize (A3 Hq). assert (q = p) as -> by congruence.
  specialize (B2 eq_refl Hn). unfold expired in *. by rewrite T1 in B2.
Qed.

Lemma Get_own now vip v r : own_entry_only now vip (Some r) (Some (Get now v r).1).
Proof.
  unfold Get. destruct (sr_peers r !! v) as [p|] eqn:Hp; [|apply own_refl].
  destruct (expired now r p) eqn:He; [|apply own_refl]. cbn. split_and!; [done..|]. intros w q _.
  destruct (decide (w = v)) as [->|Hw].
  - rewrite lookup_delete_eq. split; [done|]. congruence.
  - rewrite lookup_delete_ne by done. split; [done|congruence].
Qed.

Lemma Update_own now vip addr nat meta r :
  own_entry_only now vip (Some r) (Some (Update now vip addr nat meta r).1).
Proof.
  destruct (update_cases now vip addr nat meta r) as [[_ ->]|(m & _ & ->)]; [apply own_refl|].
  cbn. split_and!; [done..|]. intros w q Hw. rewrite lookup_insert_ne by done. split; [done|congruence].
Qed.

Lemma signalReply_frame now cs msg s :
  let s' := (signalReply now (Some cs) msg s).1 in
  sv_pushed s' = sv_pushed s ∧ sv_punch s' = sv_punch s ∧ sv_conns s' = sv_conns s ∧
  sv_p2pEnabled s' = sv_p2pEnabled s ∧ own_entry_only now (cs_vip cs) (sv_signalReg s) (sv_signalReg s').
Proof.
  cbv zeta. unfold signalReply. case_bool_decide; [auto using own_refl|].
  destruct (negb (p2pOn s)); [auto using own_refl|].
  destruct (sv_signalReg s) as [reg|] eqn:Hr; [|cbn; by rewrite Hr].
  pose proof (Get_own now (cs_vip cs) (cs_vip cs) reg) as H1.
  destruct (Get now (cs_vip cs) reg) as [reg1 prev]. cbn [fst] in H1.
  pose proof (Update_own now (cs_vip cs) (m_PublicAddr msg) (m_NATType msg) (m_Metadata msg) reg1) as H2.
  destruct (Update now (cs_vip cs) (m_PublicAddr msg) (m_NATType msg) (m_Metadata msg) reg1) as [reg2 [e|]];
    cbn [fst] in H2; pose proof (own_trans _ _ _ _ _ H1 H2) as H12; [done|].
  cbv zeta. case_bool_decide; [done|]. destruct (online _ s); [|done].
  pose proof (Get_own now (cs_vip cs) (TrimSpace (m_PeerVIP msg)) reg2) as H3.
  destruct (Get now (TrimSpace (m_PeerVIP msg)) reg2) as [reg3 [peer|]]; cbn [fst] in H3; cbn;
    pose proof (own_trans _ _ _ _ _ H12 H3); done.
Qed.

(** ** What is pushed *)

(** The candidates a message hands on: at most 32 ports, distinct as texts, all
    on one public address, the one of the single address if there is one. *)
Definition one_public_host (m : signalMessage) : Prop :=
  (length (m_PunchAddrs m) <= 32)%nat ∧ NoDup (map TrimSpace (m_PunchAddrs m)) ∧
  ∃ ip, Forall (λ a, public_target a ip) (m_PunchAddrs m) ∧
        (TrimSpace (m_PunchAddr m) = "" ∨ public_target (m_PunchAddr m) ip).

(** What a client can have pushed: a refusal to itself, or an invitation or an
    answer in its own name. *)
Definition push_ok (vip : string) (e : string * positive * signalMessage) : Prop :=
  let '(to, _, m) := e in
  m_Type m = signalMsgTypePunchBusy ∧ to = vip ∧ m_PunchAddrs m = [] ∧ m_PunchAddr m = "" ∨
  (m_Type m = signalMsgTypePunchInvite ∨ m_Type m = signalMsgTypePunchPeer) ∧
  m_PeerVIP m = vip ∧ one_public_host m.

(** What a client can change in the coordination table: attempts it starts, the
    ready marks of those it answers, and nothing of what others started. *)
Definition own_attempts_only (vip : string) (t t' : option punchTable) : Prop :=
  match t, t' with
  | Some t, Some t' =>
      ∀ k a', pt_attempts t' !! k = Some a' →
        pt_attempts t !! k = Some a' ∨ a_initiator a' = vip ∨
        ∃ a, pt_attempts t !! k = Some a ∧ a_responder a = vip ∧
             a' = a <| a_peerReady := true |> <| a_peerPushed := true |>
  | t, t' => t' = t
  end.

Record by_client (now : time) (vip : string) (s s' : server) : Prop := {
  bc_pushed : ∃ out, sv_pushed s' = (sv_pushed s ++ out)%list ∧ Forall (push_ok vip) out;
  bc_reg : own_entry_only now vip (sv_signalReg s) (sv_signalReg s');
  bc_punch : own_attempts_only vip (sv_punch s) (sv_punch s');
  bc_conns : sv_conns s' = sv_conns s ∧ sv_p2pEnabled s' = sv_p2pEnabled s }.

Lemma attempts_refl vip t : own_attempts_only vip t t.
Proof. destruct t; cbn; auto. Qed.

Lemma by_client_refl now vip s : by_client now vip s s.
Proof.
  constructor; [exists []; by rewrite app_nil_r|apply own_refl|apply attempts_refl|done].
Qed.

(** A table step followed by pushes and the reply. *)
Lemma by_client_table now vip s pt pt' :
  sv_punch s = Some pt → own_attempts_only vip (Some pt) (Some pt') →
  by_client now vip s (s <| sv_punch := Some pt' |>).
Proof.
  intros Hs Hp. constructor; cbn; [exists []; by rewrite app_nil_r|apply own_refl|by rewrite Hs|done].
Qed.

Lemma by_client_push now vip s s1 to m :
  by_client now vip s s1 → push_ok vip (to, 1%positive, m) → by_client now vip s (PushSignal to m s1).1.
Proof.
  intros [(out & Ho & Hf) Hr Hp Hc] Hm.
  destruct (PushSignal_frame to m s1) as (out' & -> & Hout). constructor; cbn; try done.
  exists (out ++ out')%list. rewrite Ho, app_assoc. split; [done|]. apply Forall_app. split; [done|].
  destruct Hout as [[_ ->]|(_ & _ & _ & sink & ->)];
    [constructor|apply Forall_singleton; exact Hm].
Qed.

Lemma by_client_reply now cs msg s s1 :
  by_client now (cs_vip cs) s s1 → by_client now (cs_vip cs) s (signalReply now (Some cs) msg s1).1.
Proof.
  intros [(out & Ho & Hf) Hr Hp Hc].
  destruct (signalReply_frame now cs msg s1) as (E1 & E2 & E3 & E4 & E5).
  constructor; rewrite ?E1, ?E2, ?E3, ?E4; [by exists out|by eapply own_trans|done|done].
Qed.

Lemma start_own now i r id w t : own_attempts_only i (Some t) (Some (start now i r id w t).1).
Proof.
  intros k a'. pose proof (start_attempts now i r id w t) as Hs.
  destruct (start now i r id w t) as [t' [[a [|]]|e]]; cbn [fst snd] in *;
    try (intros Hk; left; by eapply lookup_weaken).
  destruct Hs as (Hi & _ & m & Hm & ->). destruct (decide (k = id)) as [->|Hne].
  - rewrite lookup_insert_eq. intros [= <-]. auto.
  - rewrite lookup_insert_ne by done. intros Hk. left. by eapply lookup_weaken.
Qed.

Lemma drop_own vip t t' id : own_attempts_only vip t (Some t') → own_attempts_only vip t (Some (drop id t')).
Proof. destruct t as [t|]; [|done]. intros H k a'. cbn. intros [_ Hk]%lookup_delete_Some. by apply H. Qed.

Lemma ready_own now id i r t : own_attempts_only r (Some t) (Some (markReady now id i r t).1).
Proof.
  intros k a'. unfold markReady. destruct (pt_attempts t !! id) as [a|] eqn:Hid; [|by left].
  unfold is_pair. destruct (bool_decide (a_initiator a = i)); [|by left].
  case_bool_decide as Hr; [|by left]. cbn [andb negb]. destruct (negb (attempt_alive now a)); cbn.
  { intros [_ Hk]%lookup_delete_Some. by left. }
  destruct (decide (k = id)) as [->|Hne].
  - rewrite lookup_insert_eq. intros [= <-]. right. right. by exists a.
  - rewrite lookup_insert_ne by done. by left.
Qed.

(** The candidates of an accepted message. *)
Lemma accepted_one_host addr addrs b m :
  ValidatePunchAddr addr b = None → ValidatePunchAddrs addrs (punchAddrIP addr) = None →
  m_PunchAddr m = addr → m_PunchAddrs m = addrs → one_public_host m.
Proof.
  intros Ha Hs E1 E2. unfold one_public_host. rewrite E1, E2.
  destruct (ValidatePunchAddrs_group _ _ Hs) as (H1 & H2 & g & H3 & H4). split_and!; [done..|].
  destruct (ValidatePunchAddr_public _ _ Ha) as [[He _]|[ip Hip]]; [exists g; by auto|].
  destruct addrs as [|a0 rest]; [exists ip; split; [constructor|by right]|].
  exists g. split; [done|right]. assert (ip = g) as ->; [|done].
  pose proof Hip as (p & Ht & _). unfold target in Ht.
  destruct (SplitHostPort (TrimSpace addr)) as [[host port]|] eqn:Hsp; [|done]. cbn in Ht.
  destruct (ParseIP host) as [ip'|] eqn:Hh; [|done]. cbn in Ht. destruct (Atoi port); [|done].
  cbn in Ht. injection Ht as -> _. unfold punchAddrIP in H4. rewrite Hsp, (TrimSpace_ip _ _ Hh) in H4.
  assert (host ≠ "") as Hne by (intros ->; done). specialize (H4 ltac:(done) Hne). congruence.
Qed.

Lemma invite_push_ok vip window id msg :
  ValidatePunchAddr (m_PunchAddr msg) false = None →
  ValidatePunchAddrs (m_PunchAddrs msg) (punchAddrIP (m_PunchAddr msg)) = None →
  ∀ to sink, push_ok vip (to, sink, invite_of vip window id msg).
Proof. intros H1 H2 to sink. right. split_and!; [by left|done|]. by eapply accepted_one_host. Qed.

Lemma peer_push_ok vip a msg :
  ValidatePunchAddr (m_PunchAddr msg) true = None →
  ValidatePunchAddrs (m_PunchAddrs msg) (punchAddrIP (m_PunchAddr msg)) = None →
  ∀ to sink, push_ok vip (to, sink, peer_of vip a msg).
Proof. intros H1 H2 to sink. right. split_and!; [by right|done|]. by eapply accepted_one_host. Qed.

Lemma intent_refusal_none vip peer msg :
  intent_refusal vip peer msg = None →
  ValidatePunchAddr (m_PunchAddr msg) false = None ∧
  ValidatePunchAddrs (m_PunchAddrs msg) (punchAddrIP (m_PunchAddr msg)) = None ∧
  validateSignalSelfFields (m_PublicAddr msg) (m_NATType msg) (m_Metadata msg) = None.
Proof. unfold intent_refusal. repeat (case_match; try done). Qed.

Lemma ready_refusal_none initiator msg :
  ready_refusal initiator msg = None →
  ValidatePunchAddr (m_PunchAddr msg) true = None ∧
  ValidatePunchAddrs (m_PunchAddrs msg) (punchAddrIP (m_PunchAddr msg)) = None.
Proof. unfold ready_refusal. repeat (case_match; try done). Qed.

Lemma intent_by_client now cs msg s :
  by_client now (cs_vip cs) s (handlePunchIntent now (Some cs) msg s).1.
Proof.
  unfold handlePunchIntent. case_bool_decide; [apply by_client_refl|].
  destruct (sv_punch s) as [pt|] eqn:Hpt; [|apply by_client_refl]. cbv zeta.
  destruct (intent_refusal _ _ msg) eqn:Href; [apply by_client_refl|].
  destruct (intent_refusal_none _ _ _ Href) as (Ha & Hs & _).
  destruct (negb (online _ s)); [apply by_client_refl|]. destruct (_ <=? _)%nat.
  { match goal with |- context [PushSignal ?to ?m s] =>
      pose proof (by_client_push now (cs_vip cs) s s to m (by_client_refl _ _ _)) as Hb end.
    destruct (PushSignal _ _ s). apply Hb. left. by split_and!. }
  pose proof (start_own now (cs_vip cs) (TrimSpace (m_PeerVIP msg)) (m_AttemptID msg)
                (ClampPunchWindowMs (m_WindowMs msg)) pt) as Hst.
  destruct (start _ _ _ _ _ pt) as [pt1 [[a ex]|e]]; cbn [fst] in Hst;
    pose proof (by_client_table now (cs_vip cs) s pt pt1 Hpt Hst) as H1; [|exact H1].
  match goal with |- context [PushSignal ?to ?m ?s1] =>
    pose proof (by_client_push now (cs_vip cs) s s1 to m H1) as H2;
    destruct (PushSignal to m s1) as [s2 pushed] end. cbn [fst] in H2.
  specialize (H2 ltac:(by apply invite_push_ok)).
  destruct (negb pushed); [|by apply by_client_reply]. cbn [fst]. destruct H2. constructor; cbn; try done.
  rewrite Hpt. by apply drop_own.
Qed.

Lemma ready_by_client now cs msg s :
  by_client now (cs_vip cs) s (handlePunchReady now (Some cs) msg s).1.
Proof.
  unfold handlePunchReady. case_bool_decide; [apply by_client_refl|].
  destruct (sv_punch s) as [pt|] eqn:Hpt; [|apply by_client_refl]. cbv zeta.
  destruct (ready_refusal _ msg) eqn:Href; [apply by_client_refl|].
  destruct (ready_refusal_none _ _ Href) as (Ha & Hs).
  pose proof (ready_own now (m_AttemptID msg) (TrimSpace (m_PeerVIP msg)) (cs_vip cs) pt) as Hr.
  destruct (markReady _ _ _ _ pt) as [pt1 [[a first]|]]; cbn [fst] in Hr;
    pose proof (by_client_table now (cs_vip cs) s pt pt1 Hpt Hr) as H1; [|exact H1].
  apply by_client_reply. destruct first; [|done]. apply by_client_push; [done|by apply peer_push_ok].
Qed.

(** ** Enumeration *)

Definition registered (now : time) (vip : string) (r : SignalRegistry) : bool :=
  match (Get now vip r).2 with Some _ => true | None => false end.

Lemma Get_again now v w r : (Get now v (Get now w r).1).2 = (Get now v r).2.
Proof.
  unfold Get. destruct (sr_peers r !! w) as [q|] eqn:Hw; [|done].
  destruct (expired now r q) eqn:He; [|done]. cbn. destruct (decide (v = w)) as [->|Hne].
  - by rewrite lookup_delete_eq, Hw, He.
  - rewrite lookup_delete_ne by done. destruct (sr_peers r !! v); [|done].
    unfold expired in *. cbn. by case_match.
Qed.

Lemma Get_sinks now v r : sr_sinks (Get now v r).1 = sr_sinks r.
Proof. unfold Get. by repeat case_match. Qed.

(** The reads on the way do not change what the later reads see. *)
Lemma enumerate_spec now self vips s reg :
  (enumerate now self vips s reg).2
  = filter (λ v, v ≠ self ∧ online v s = true ∧ registered now v reg = true) vips ∧
  sr_sinks (enumerate now self vips s reg).1 = sr_sinks reg ∧
  (∀ v, (Get now v (enumerate now self vips s reg).1).2 = (Get now v reg).2) ∧
  own_entry_only now self (Some reg) (Some (enumerate now self vips s reg).1).
Proof.
  revert reg. induction vips as [|v vips IH]; intros reg; [split_and!; auto using own_refl|].
  cbn [enumerate]. rewrite filter_cons. case_bool_decide as Hself.
  { rewrite decide_False by tauto. apply IH. }
  destruct (online v s) eqn:Hon; cbn [negb]; [|rewrite decide_False by naive_solver; apply IH].
  pose proof (Get_again now) as Hag. pose proof (Get_sinks now v reg) as Hsk.
  pose proof (Get_own now self v reg) as Hown.
  assert (∀ w, registered now w (Get now v reg).1 = registered now w reg) as Hreg
    by (intros w; unfold registered; by rewrite Hag).
  specialize (Hag) . destruct (Get now v reg) as [reg1 [p|]] eqn:Hg; cbn [fst] in *.
  - destruct (IH reg1) as (I1 & I2 & I3 & I4). destruct (enumerate now self vips s reg1) as [reg2 out].
    cbn [fst snd] in *. rewrite decide_True by (unfold registered; by rewrite Hg).
    split_and!; [|congruence| |by eapply own_trans].
    + rewrite I1. f_equal. apply list_filter_iff. intros w. by rewrite Hreg.
    + intros w. rewrite I3. pose proof (Get_again now w v reg) as E. rewrite Hg in E. exact E.
  - destruct (IH reg1) as (I1 & I2 & I3 & I4).
    rewrite decide_False by (unfold registered; rewrite Hg; naive_solver).
    split_and!; [|congruence| |by eapply own_trans].
    + rewrite I1. apply list_filter_iff. intros w. by rewrite Hreg.
    + intros w. rewrite I3. pose proof (Get_again now w v reg) as E. rewrite Hg in E. exact E.
Qed.

#[local] Instance entry_le_trans : Transitive entry_le.
Proof.
  intros [v1 r1] [v2 r2] [v3 r3]. unfold entry_le. cbn. intros H1 H2.
  destruct r1, r2, r3; cbn in *; try done.
  all: assert (String.le v1 v3) as H by (transitivity v2; unfold String.le; by rewrite ?H1, ?H2);
    unfold String.le in H; by destruct (String.leb v1 v3).
Qed.
#[local] Instance entry_le_total : Total entry_le.
Proof.
  intros [v1 r1] [v2 r2]. unfold entry_le. cbn.
  destruct r1, r2; [|left; reflexivity|right; reflexivity|];
    destruct (String.leb_total v1 v2) as [H|H]; [left|right|left|right]; exact H.
Qed.

Lemma VIPs_spec r : NoDup (VIPs r) ∧ ∀ v, v ∈ VIPs r ↔ is_Some (sr_peers r !! v).
Proof.
  unfold VIPs. split; [apply NoDup_fst_map_to_list|]. intros v. rewrite list_elem_of_fmap. split.
  - intros ([w p] & -> & H%elem_of_map_to_list). cbn. eauto.
  - intros [p H%elem_of_map_to_list]. by exists (v, p).
Qed.

(** The VIPs a client may see. *)
Definition visible (now : time) (cs : clientStream) (s : server) (reg : SignalRegistry) : list string :=
  filter (λ v, v ≠ cs_vip cs ∧ online v s = true ∧ registered now v reg = true) (VIPs reg).

Definition entry_of (reg : SignalRegistry) (v : string) : SignalPeerEntry :=
  {| e_VIP := v; e_SignalReady := HasSink v reg |}.

#[local] Arguments Nat.ltb : simpl never.
#[local] Arguments Nat.leb : simpl never.

Lemma snapshot_spec now cs s reg s' out tr :
  p2pOn s = true → sv_signalReg s = Some reg → cs_vip cs ≠ "" →
  peersSnapshot now cs s = (s', out, tr) →
  let all := merge_sort entry_le (map (entry_of reg) (visible now cs s reg)) in
  out = take peersListMax all ∧ (tr = false → out = all) ∧
  (tr = true → (peersListMax < length (visible now cs s reg))%nat) ∧
  by_client now (cs_vip cs) s s'.
Proof.
  intros Hp Hreg Hv. unfold peersSnapshot, enumerableVIPs. rewrite bool_decide_false by done.
  rewrite Hreg, Hp. cbn [negb].
  destruct (enumerate_spec now (cs_vip cs) (VIPs reg) s reg) as (E1 & E2 & _ & E4).
  destruct (enumerate now (cs_vip cs) (VIPs reg) s reg) as [reg' vips]. cbn [fst snd] in *. subst vips.
  cbn [sv_signalReg]. cbn.
  assert (by_client now (cs_vip cs) s (s <| sv_signalReg := Some reg' |>)) as Hby.
  { constructor; cbn; [exists []; by rewrite app_nil_r| |apply attempts_refl|done].
    rewrite Hreg. exact E4. }
  change (filter _ (VIPs reg)) with (visible now cs s reg).
  assert (map (λ v, {| e_VIP := v; e_SignalReady := HasSink v reg' |}) (visible now cs s reg)
          = map (entry_of reg) (visible now cs s reg)) as ->.
  { apply list_fmap_ext. intros i v _. unfold entry_of, HasSink. by rewrite E2. }
  destruct (Nat.ltb_spec peersListMax (length (merge_sort entry_le (map (entry_of reg) (visible now cs s reg)))))
    as [Hl|Hl]; intros [= <- <- <-]; split_and!; try done.
  - intros _. by rewrite merge_sort_Permutation, length_map in Hl.
  - by rewrite take_ge.
Qed.

Lemma peers_by_client now cs s :
  by_client now (cs_vip cs) s (handleSignalPeers now (Some cs) s).1.
Proof.
  unfold handleSignalPeers. case_bool_decide; [apply by_client_refl|].
  destruct (p2pOn s) eqn:Hp; cbn [negb orb]; [|apply by_client_refl].
  destruct (sv_signalReg s) as [reg|] eqn:Hreg; [|apply by_client_refl].
  assert (∃ rate, (peersRateAllows (cs_vip cs) now s).1 = s <| sv_peersRate := rate |>) as [rate Hrate].
  { unfold peersRateAllows. cbv zeta. rewrite bool_decide_false by done.
    destruct (_ <=? _)%nat; by eexists. }
  destruct (peersRateAllows (cs_vip cs) now s) as [s1 ok]. cbn [fst] in Hrate. subst s1.
  assert (by_client now (cs_vip cs) s (s <| sv_peersRate := rate |>)) as Hb.
  { constructor; cbn; [exists []; by rewrite app_nil_r|apply own_refl|apply attempts_refl|done]. }
  destruct (negb ok); [done|].
  destruct (peersSnapshot now cs (s <| sv_peersRate := rate |>)) as [[s2 peers] tr] eqn:Hs.
  destruct (snapshot_spec now cs (s <| sv_peersRate := rate |>) reg s2 peers tr) as (_ & _ & _ & H2); [done..|].
  destruct H2 as [(out & Ho & Hf) H2 H3 H4]. constructor; [by exists out|done|done|done].
Qed.

Lemma serve_by_client now cs msg s : by_client now (cs_vip cs) s (serve now (Some cs) msg s).1.
Proof.
  unfold serve. cbv zeta. do 4 (case_bool_decide;
    [eauto using by_client_reply, by_client_refl, intent_by_client, ready_by_client, peers_by_client|]).
  { by case_bool_decide; apply by_client_refl. }
Qed.

(** ** Theorems *)

(** C32: a client speaks for itself only. Whatever it sends, the registry changes
    only at the VIP the server assigned to it (other entries can only be lost
    to a read that finds them expired), the attempts it adds to the table are
    its own, of the others' it can only mark ready those it is the responder
    of, and what is pushed because of it is either the refusal to itself or a
    message that names its VIP as the peer. *)
Theorem client_speaks_for_itself now cs msg s :
  let s' := (serve now (Some cs) msg s).1 in
  own_entry_only now (cs_vip cs) (sv_signalReg s) (sv_signalReg s') ∧
  own_attempts_only (cs_vip cs) (sv_punch s) (sv_punch s') ∧
  ∃ out, sv_pushed s' = (sv_pushed s ++ out)%list ∧
    Forall (λ '(to, _, m), to = cs_vip cs ∨ m_PeerVIP m = cs_vip cs) out.
Proof.
  destruct (serve_by_client now cs msg s) as [(out & Ho & Hf) H2 H3 _]. split_and!; [done..|].
  exists out. split; [done|]. eapply Forall_impl; [exact Hf|]. intros [[to sink] m]. cbn. tauto.
Qed.

(** Runs: requests of clients, and whatever else happens to the server's tables
    between them (connections, streams, cleanups, the switch of the service). *)
Inductive server_run : server → server → Prop :=
  | sr_refl s : server_run s s
  | sr_serve now cs msg s s1 : server_run s s1 → server_run s (serve now (Some cs) msg s1).1
  | sr_env s s1 s2 : server_run s s1 → sv_pushed s2 = sv_pushed s1 → server_run s s2.

(** No client can turn its peers against an address of its choice beyond
    what one NAT mapping needs. Every message the server has pushed in any run
    carries one of the three push types, and its candidates are at most 32
    different texts, each a port between 1 and 65535 of one and the same address,
    which is not private, loopback, link-local, multicast or unspecified, and is
    the address of the message's single candidate if it has one. *)
Theorem pushes_one_public_host s s' :
  server_run s s' → sv_pushed s = [] →
  Forall (λ '(_, _, m), m_Type m ∈ signalPushTypes ∧ one_public_host m) (sv_pushed s').
Proof.
  intros Hrun Hs. induction Hrun as [s|now cs msg s s1 _ IH|s s1 s2 _ IH E].
  - by rewrite Hs.
  - destruct (serve_by_client now cs msg s1) as [(out & -> & Hf) _ _ _]. apply Forall_app. split; [auto|].
    eapply Forall_impl; [exact Hf|]. intros [[to sink] m] [(-> & _ & E1 & E2)|(Hm & _ & Hh)].
    + split; [by right; right; left|]. unfold one_public_host. rewrite E1, E2.
      split_and!; [cbn; lia|constructor|]. exists []. split; [constructor|by left].
    + split; [|done]. destruct Hm as [-> | ->]; [by left|by right; left].
  - rewrite E. auto.
Qed.

(** A query of a client about another one. *)
Lemma query_answer now cs msg s reg v :
  p2pOn s = true → sv_signalReg s = Some reg → cs_vip cs ≠ "" →
  validateSignalSelfFields (m_PublicAddr msg) (m_NATType msg) (m_Metadata msg) = None →
  TrimSpace (m_PeerVIP msg) = v → v ≠ "" → v ≠ cs_vip cs →
  let q := (signalReply now (Some cs) msg s).2 in
  m_Type q = signalMsgTypePeer ∧ m_PeerOnline q = online v s && registered now v reg ∧
  m_PeerSignalReady q = HasSink v reg.
Proof.
  intros Hp Hreg Hne Hval Hv Hv0 Hv1. cbv zeta. unfold signalReply. rewrite bool_decide_false by done.
  rewrite Hp, Hreg. cbn [negb].
  pose proof (Get_again now v (cs_vip cs) reg) as Hag. pose proof (Get_sinks now (cs_vip cs) reg) as Hsk.
  destruct (Get now (cs_vip cs) reg) as [reg1 prev]. cbn [fst] in *.
  destruct (update_cases now (cs_vip cs) (m_PublicAddr msg) (m_NATType msg) (m_Metadata msg) reg1)
    as [[Hbad _]|(mm & Hok & Hr)].
  { exfalso. apply Hbad. unfold Update. rewrite bool_decide_false by done. revert Hval.
    unfold validateSignalSelfFields. destruct (ValidatePublicAddr _); [done|].
    destruct (negb (ValidNATType _)); [done|]. by destruct (NormalizeMetadata _). }
  assert ((Get now v (Update now (cs_vip cs) (m_PublicAddr msg) (m_NATType msg) (m_Metadata msg) reg1).1).2
          = (Get now v reg).2 ∧
          sr_sinks (Update now (cs_vip cs) (m_PublicAddr msg) (m_NATType msg) (m_Metadata msg) reg1).1
          = sr_sinks reg) as [Hg2 Hs2].
  { rewrite Hr. split; [|done]. rewrite <- Hag. unfold Get. cbn. rewrite lookup_insert_ne by done.
    unfold expired. cbn. destruct (sr_peers reg1 !! v); [|done]. by case_match. }
  destruct (Update _ _ _ _ _ reg1) as [reg2 res]. cbn [fst snd] in *. subst res.
  cbv zeta. rewrite Hv, bool_decide_false by done.
  destruct (online v s); cbn [andb]; [|unfold HasSink; cbn; by rewrite Hs2].
  pose proof (Get_sinks now v reg2) as Hs3. unfold registered. rewrite <- Hg2.
  destruct (Get now v reg2) as [reg3 [peer|]]; cbn [fst snd] in *; unfold HasSink; cbn; by rewrite Hs3, Hs2.
Qed.

Lemma online_trimmed v s : online v s = true → TrimSpace v = v ∧ v ≠ "".
Proof.
  unfold online, lookupVIP. destruct (ParseIP v) as [ip|] eqn:Hip; [|done]. intros _.
  split; [by eapply TrimSpace_ip|]. by intros ->.
Qed.

(** The list of peers says what the queries would. Each peer in it is, at
    that moment, one that a query finds online, with the same readiness for a
    push; a peer that a query finds online is in it unless the list says it was
    truncated. It never names the client itself or a peer twice, has at most 200
    entries, and is ordered, those ready for a push first. *)
Theorem enumeration_agrees_with_query now cs s s' r msg v :
  cs_vip cs ≠ "" → handleSignalPeers now (Some cs) s = (s', r) → m_Type r = signalMsgTypePeersList →
  validateSignalSelfFields (m_PublicAddr msg) (m_NATType msg) (m_Metadata msg) = None →
  TrimSpace (m_PeerVIP msg) = v → v ≠ cs_vip cs → v ≠ "" →
  let q := (signalReply now (Some cs) msg s).2 in
  (∀ b, ({| e_VIP := v; e_SignalReady := b |} ∈ m_Peers r) → m_PeerOnline q = true ∧ m_PeerSignalReady q = b) ∧
  (m_PeersTruncated r = false → m_PeerOnline q = true →
     {| e_VIP := v; e_SignalReady := m_PeerSignalReady q |} ∈ m_Peers r) ∧
  NoDup (map e_VIP (m_Peers r)) ∧ (cs_vip cs ∉ map e_VIP (m_Peers r)) ∧
  (length (m_Peers r) <= 200)%nat ∧ Sorted entry_le (m_Peers r).
Proof.
  intros Hne Hh Ht Hval Hv Hv1 Hv0. cbv zeta. revert Hh. unfold handleSignalPeers.
  rewrite bool_decide_false by done. destruct (p2pOn s) eqn:Hp; cbn [negb orb]; [|intros [= <- <-]; done].
  destruct (sv_signalReg s) as [reg|] eqn:Hreg; [|intros [= <- <-]; done].
  assert (∃ rate, (peersRateAllows (cs_vip cs) now s).1 = s <| sv_peersRate := rate |>) as [rate Hrate].
  { unfold peersRateAllows. cbv zeta. rewrite bool_decide_false by done.
    destruct (_ <=? _)%nat; by eexists. }
  destruct (peersRateAllows (cs_vip cs) now s) as [s1 ok]. cbn [fst] in Hrate. subst s1.
  destruct (negb ok); [intros [= <- <-]; done|].
  destruct (peersSnapshot now cs (s <| sv_peersRate := rate |>)) as [[s2 peers] tr] eqn:Hs.
  destruct (snapshot_spec now cs (s <| sv_peersRate := rate |>) reg s2 peers tr) as (H1 & H2 & _); [done..|].
  intros [= <- <-]. destruct (query_answer now cs msg s reg v) as (_ & Q1 & Q2); [done..|].
  set (q := (signalReply now (Some cs) msg s).2) in *. clearbody q. cbn.
  change (visible now cs (s <| sv_peersRate := rate |>) reg) with (visible now cs s reg) in *.
  set (all := merge_sort entry_le (map (entry_of reg) (visible now cs s reg))) in *.
  assert (∀ e, e ∈ all ↔ ∃ w, e = entry_of reg w ∧ w ∈ visible now cs s reg) as Hall.
  { intros e. unfold all. by rewrite merge_sort_Permutation, list_elem_of_fmap. }
  assert (∀ w, w ∈ visible now cs s reg ↔ w ≠ cs_vip cs ∧ online w s = true ∧ registered now w reg = true) as Hvis.
  { intros w. unfold visible. rewrite list_elem_of_filter. destruct (VIPs_spec reg) as [_ ->]. split; [tauto|].
    intros (? & ? & Hrg). split; [done|]. unfold registered, Get in Hrg. by destruct (sr_peers reg !! w). }
  assert (NoDup (map e_VIP all)) as Hnd.
  { unfold all. rewrite merge_sort_Permutation, map_map, map_id. apply NoDup_filter, VIPs_spec. }
  split_and!.
  - intros b Hb. rewrite H1 in Hb. apply elem_of_take in Hb as (i & Hb & _).
    apply list_elem_of_lookup_2, Hall in Hb as (w & [= -> ->] & Hw%Hvis).
    destruct Hw as (_ & Ho & Hrg). by rewrite Q1, Q2, Ho, Hrg.
  - intros Htr Ho. rewrite (H2 Htr). apply Hall. exists v. rewrite Q1 in Ho. apply andb_true_iff in Ho as [? ?].
    split; [by rewrite Q2|]. by apply Hvis.
  - rewrite H1, <- firstn_map. by eapply sublist_NoDup, sublist_take.
  - rewrite H1, <- firstn_map. intros (i & Hi & _)%elem_of_take. apply list_elem_of_lookup_2 in Hi.
    apply list_elem_of_fmap in Hi as (e & E & (w & -> & Hw%Hvis)%Hall). destruct Hw as [Hw _]. by apply Hw.
  - rewrite H1, length_take. unfold peersListMax. lia.
  - rewrite H1. apply take_sorted; [apply _|]. apply Sorted_merge_sort, _.
Qed.

Lemma reply_not_error now cs msg s reg :
  p2pOn s = true → sv_signalReg s = Some reg → cs_vip cs ≠ "" →
  validateSignalSelfFields (m_PublicAddr msg) (m_NATType msg) (m_Metadata msg) = None →
  m_Type (signalReply now (Some cs) msg s).2 ≠ signalMsgTypeError ∧
  m_Error (signalReply now (Some cs) msg s).2 = None.
Proof.
  intros Hp Hreg Hne Hval. unfold signalReply. rewrite bool_decide_false by done. rewrite Hp, Hreg. cbn [negb].
  destruct (Get now (cs_vip cs) reg) as [reg1 prev].
  destruct (Update now (cs_vip cs) (m_PublicAddr msg) (m_NATType msg) (m_Metadata msg) reg1) as [reg2 [e|]] eqn:Hu.
  - exfalso. revert Hu Hval. unfold Update, validateSignalSelfFields. rewrite bool_decide_false by done.
    destruct (ValidatePublicAddr _); [done|]. destruct (negb (ValidNATType _)); [done|].
    by destruct (NormalizeMetadata _).
  - cbv zeta. case_bool_decide; [done|]. destruct (online _ s); [|done].
    by destruct (Get now (TrimSpace (m_PeerVIP msg)) reg2) as [reg3 [peer|]].
Qed.

(** A refused request for coordination leaves no attempt behind, whatever the
    reason and however late it shows: the attempts after an error reply are
    among those before. *)
Theorem refused_intent_leaves_no_attempt now cs msg s :
  let '(s', r) := handlePunchIntent now (Some cs) msg s in
  m_Type r = signalMsgTypeError →
  match sv_punch s, sv_punch s' with
  | Some t, Some t' => pt_attempts t' ⊆ pt_attempts t
  | t, t' => t' = t
  end.
Proof.
  assert (match sv_punch s, sv_punch s with
          | Some t, Some t' => pt_attempts t' ⊆ pt_attempts t | t, t' => t' = t end) as Hsame
    by (by destruct (sv_punch s)).
  unfold handlePunchIntent. case_bool_decide as Hvip; [done|].
  destruct (sv_punch s) as [pt|] eqn:Hpt; [|by rewrite Hpt].
  cbv zeta. destruct (intent_refusal _ _ msg) eqn:Href; [by rewrite Hpt|].
  destruct (negb (online _ s)); [by rewrite Hpt|]. destruct (_ <=? _)%nat.
  { match goal with |- context [PushSignal ?to ?m s] => destruct (PushSignal_frame to m s) as (o & E & _) end.
    destruct (PushSignal _ _ s) as [s1 b]. cbn [fst] in E. subst s1. intros _. cbn. by rewrite Hpt. }
  pose proof (start_attempts now (cs_vip cs) (TrimSpace (m_PeerVIP msg)) (m_AttemptID msg)
                (ClampPunchWindowMs (m_WindowMs msg)) pt) as Hst.
  destruct (start _ _ _ _ _ pt) as [pt1 [[a ex]|e]] eqn:Hs; cbn [fst snd] in Hst; [|done].
  match goal with |- context [PushSignal ?to ?m ?s1] =>
    destruct (PushSignal_frame to m s1) as (o & E & Hpush); destruct (PushSignal to m s1) as [s2 pushed] end.
  cbn [fst snd] in *. subst s2. destruct pushed; cbn [negb].
  - destruct Hpush as [[? _]|(_ & Hon & [reg Hreg] & _)]; [done|].
    pose proof (intent_refusal_none _ _ _ Href) as (_ & _ & Hval).
    match goal with |- context [signalReply now (Some cs) msg ?s1] =>
      pose proof (reply_not_error now cs msg s1 reg) as Hr; destruct (signalReply now (Some cs) msg s1) as [s3 r] end.
    intros Hty. by destruct (Hr Hon Hreg Hvip Hval) as [? _].
  - intros _. cbn. destruct ex; [etrans; [apply delete_subseteq|done]|].
    destruct Hst as (_ & _ & m & Hm & ->). destruct (start_accepted _ _ _ _ _ _ _ _ Hs) as [_ ->].
    rewrite delete_insert_eq. etrans; [apply delete_subseteq|done].
Qed.

(** What the drop after an undeliverable invitation leaves for a second intent
    of the same client within ten seconds. *)
Lemma second_intent_refused now now' cs msg s s1 r1 pt :
  sv_punch s = Some pt → pt_attempts pt !! m_AttemptID msg = None →
  handlePunchIntent now (Some cs) msg s = (s1, r1) →
  m_Error r1 = Some (Reason "peer-not-ready") →
  now <= now' <= now + 10 * second →
  m_Error (handlePunchIntent now' (Some cs) msg s1).2 = Some (Reason "pair-cooldown") ∨
  m_Error (handlePunchIntent now' (Some cs) msg s1).2 = Some (Reason "rate-limited").
Proof.
  intros Hpt Hid Hh Hr Hn. revert Hh. unfold handlePunchIntent at 1. case_bool_decide as Hvip.
  { intros [= <- <-]. done. }
  rewrite Hpt. cbv zeta. destruct (intent_refusal _ _ msg) as [e|] eqn:Href.
  { intros [= <- <-]. cbn in Hr. injection Hr as ->. exfalso. revert Href. unfold intent_refusal.
    repeat (case_match; try done). }
  destruct (online (TrimSpace (m_PeerVIP msg)) s) eqn:Hon; cbn [negb]; [|intros [= <- <-]; done].
  destruct (Nat.leb_spec relayMaxResponderInvites (activeResponderCount now (TrimSpace (m_PeerVIP msg)) pt))
    as [Hc|Hc]; [destruct (PushSignal _ _ s); by intros [= <- <-]|].
  pose proof (start_attempts now (cs_vip cs) (TrimSpace (m_PeerVIP msg)) (m_AttemptID msg)
                (ClampPunchWindowMs (m_WindowMs msg)) pt) as Hst.
  destruct (start now _ _ _ _ pt) as [pt1 [[a ex]|e]] eqn:Hs; cbn [fst snd] in Hst;
    [|intros [= <- <-]; by destruct e].
  assert (ex = false) as ->.
  { revert Hs. unfold start. rewrite Hid. unfold start_new. cbv zeta.
    repeat (case_match; simplify_eq; try done); congruence. }
  destruct (start_accepted _ _ _ _ _ _ _ _ Hs) as [_ Ea]. destruct Hst as (_ & _ & m & Hm & Hatt).
  match goal with |- context [PushSignal ?to ?mm ?s0] =>
    destruct (PushSignal_frame to mm s0) as (o & E & Hpush); destruct (PushSignal to mm s0) as [s2 pushed] end.
  cbn [fst snd] in *. subst s2. destruct pushed; cbn [negb].
  { destruct Hpush as [[? _]|(_ & Hp & [reg Hreg] & _)]; [done|].
    destruct (intent_refusal_none _ _ _ Href) as (_ & _ & Hval).
    match goal with |- context [signalReply now (Some cs) msg ?s0] =>
      destruct (reply_not_error now cs msg s0 reg Hp Hreg Hvip Hval) as [_ Hne];
      destruct (signalReply now (Some cs) msg s0) as [s3 r] end.
    intros [= <- <-]. cbn in Hne. congruence. }
  intros [= <- _]. rewrite Ea.
  destruct (rollback_cooldown now (cs_vip cs) (TrimSpace (m_PeerVIP msg)) (m_AttemptID msg)
    (ClampPunchWindowMs (m_WindowMs msg)) pt pt1 a now' (m_AttemptID msg) (ClampPunchWindowMs (m_WindowMs msg)) Hs)
    as [Hroll|Hroll]; [unfold punchPairCooldown; lia|by right|left|right].
  all: unfold handlePunchIntent; rewrite bool_decide_false by done; cbv zeta; cbn [sv_punch set_field].
  all: cbn; rewrite Href.
  all: match goal with |- context [online ?v ?s0] => change (online v s0) with (online v s) end; rewrite Hon; cbn [negb].
  all: rewrite (proj2 (Nat.leb_gt _ _)) by
    (eapply Nat.le_lt_trans; [|exact Hc]; etrans;
      [apply size_sub, (active_later now); lia|apply size_sub, active_sub];
      unfold drop; cbn; rewrite Hatt, delete_insert_eq; etrans; [apply delete_subseteq|done]).
  all: destruct (start now' _ _ _ _ (drop (m_AttemptID msg) pt1)) as [pt2 res]; cbn [snd] in Hroll; by subst res.
Qed.

End handlers.

(** ** Witnesses *)

Definition demo_deliver (sink : positive) (m : signalMessage) : bool := true.
Definition demo_relay_rtt (cs : clientStream) : Z := 20.
Definition demo_meta := "00112233445566778899aabbccddeeff00112233445566778899aabbccddeeff".
Definition demo_cs (vip : string) (c : positive) : clientStream := {| cs_vip := vip; cs_conn := c |}.

(** Two clients online; the second is registered and has its stream. *)
Definition demo_server : server := {|
  sv_p2pEnabled := true;
  sv_signalReg := Some (AttachSink "10.8.0.9" 9
    (Update 0 "10.8.0.9" "203.0.113.9:40000" "symmetric" "" (NewSignalRegistry 0)).1);
  sv_punch := Some newPunchTable;
  sv_conns := <[(10, 8, 0, 2) := demo_cs "10.8.0.2" 2]> (<[(10, 8, 0, 9) := demo_cs "10.8.0.9" 9]> ∅);
  sv_peersRate := ∅;
  sv_pushed := [] |}.

Definition demo_intent : signalMessage :=
  (message signalMsgTypePunchIntent) <| m_PeerVIP := "10.8.0.9" |> <| m_PublicAddr := "203.0.113.7:40000" |>
    <| m_NATType := "symmetric" |> <| m_Metadata := demo_meta |> <| m_AttemptID := "0011223344556677" |>
    <| m_PunchAddr := "203.0.113.7:40010" |> <| m_PunchAddrs := ["203.0.113.7:40010"; "203.0.113.7:40011"] |>
    <| m_DirectFingerprint := demo_meta |> <| m_WindowMs := 10000 |>.

Example demo_intent_reply :
  m_Type (serve demo_deliver demo_relay_rtt second (Some (demo_cs "10.8.0.2" 2)) demo_intent demo_server).2
  = signalMsgTypePeer.
Proof. vm_compute. reflexivity. Qed.

Lemma pushes_one_public_host_witness :
  let s' := (serve demo_deliver demo_relay_rtt second (Some (demo_cs "10.8.0.2" 2)) demo_intent demo_server).1 in
  length (sv_pushed s') = 1%nat ∧
  Forall (λ '(_, _, m), m_Type m ∈ signalPushTypes ∧ one_public_host m) (sv_pushed s').
Proof.
  cbv zeta. split; [vm_compute; reflexivity|].
  refine (pushes_one_public_host demo_deliver demo_relay_rtt demo_server _
            (sr_serve _ _ second (demo_cs "10.8.0.2" 2) demo_intent demo_server demo_server (sr_refl _ _ _)) eq_refl).
Defined.

Lemma enumeration_agrees_with_query_witness :
  let r := (handleSignalPeers second (Some (demo_cs "10.8.0.2" 2)) demo_server).2 in
  map e_VIP (m_Peers r) = ["10.8.0.9"] ∧
  m_PeerOnline (signalReply demo_relay_rtt second (Some (demo_cs "10.8.0.2" 2)) demo_intent demo_server).2 = true.
Proof.
  cbv zeta. split; [vm_compute; reflexivity|].
  refine (proj1 (proj1 (enumeration_agrees_with_query demo_relay_rtt second (demo_cs "10.8.0.2" 2) demo_server
    (handleSignalPeers second (Some (demo_cs "10.8.0.2" 2)) demo_server).1
    (handleSignalPeers second (Some (demo_cs "10.8.0.2" 2)) demo_server).2 demo_intent "10.8.0.9" _ _ _ _ _ _ _) true _)).
  - discriminate.
  - vm_compute. reflexivity.
  - vm_compute. reflexivity.
  - vm_compute. reflexivity.
  - vm_compute. reflexivity.
  - discriminate.
  - discriminate.
  - vm_compute. left.
Defined.

(** A stream that takes nothing. *)
Definition dead_deliver (sink : positive) (m : signalMessage) : bool := false.

Lemma refused_intent_leaves_no_attempt_witness :
  m_Error (handlePunchIntent dead_deliver demo_relay_rtt second (Some (demo_cs "10.8.0.2" 2)) demo_intent demo_server).2
  = Some (Reason "peer-not-ready") ∧
  (pt_attempts <$> sv_punch
    (handlePunchIntent dead_deliver demo_relay_rtt second (Some (demo_cs "10.8.0.2" 2)) demo_intent demo_server).1)
  = Some ∅.
Proof.
  split; [vm_compute; reflexivity|].
  pose proof (refused_intent_leaves_no_attempt dead_deliver demo_relay_rtt second (demo_cs "10.8.0.2" 2) demo_intent
                demo_server) as H. revert H.
  destruct (handlePunchIntent dead_deliver demo_relay_rtt second (Some (demo_cs "10.8.0.2" 2)) demo_intent demo_server)
    as [s' r] eqn:E.
  intros H. assert (m_Type r = signalMsgTypeError) as Hr.
  { change r with (s', r).2. rewrite <- E. vm_compute. reflexivity. }
  specialize (H Hr). cbn in H |- *. destruct (sv_punch s') as [t|]; [|done]. cbn.
  f_equal. apply (anti_symm (⊆)); [exact H|apply map_empty_subseteq].
Defined.
