(* ===== verification/PunchIntent.v ===== *)
(** * The request for coordination as the client sends it
    ([vpn-tool/backend/quic/punch.go], [sendIntentWithRetry],
    [classifyServerRefusal]) against the service that answers it *)

From Stdlib Require Import ZArith Lia Bool Ascii String.
From stdpp Require Import base list gmap strings.
From S2P Require Import Prelude.
From S2P Require Import GoNet.
From S2P Require Import Reasons.
From S2P Require Import PathCore.
From S2P Require Import PunchAddrs.
From S2P Require Import PunchManager.
From S2P Require Import GoText.
From S2P Require Import SignalRegistry.
From S2P Require Import PunchTable.
From S2P Require Import SignalServer.

Open Scope string_scope.
Open Scope Z_scope.

Definition punchQueryTimeout : duration := 5 * second.
Definition punchIntentRetries : nat := 1.

(** The first substring found decides. *)
Definition classifyServerRefusal (msg : string) : string :=
  if str_contains msg "rate-limited" then P2PReasonRateLimited
  else if str_contains msg "peer-not-ready" then P2PReasonPeerNotReady
  else if str_contains msg "peer-unreachable" then P2PReasonPeerUnreachable
  else if str_contains msg "pair-busy" || str_contains msg "pair-cooldown" then P2PReasonPeerBusy
  else if str_contains msg "超时" then P2PReasonAttemptTimeout
  else P2PReasonPeerNotReady.

(** What the session learns about the peer. *)
Record SignalPeer := {
  sp_VIP : string;
  sp_Online : bool;
  sp_PublicAddr : string;
  sp_NATType : string;
  sp_Metadata : string;
  sp_SignalReady : bool }.

Definition signal_peer (vip : string) (resp : signalMessage) : SignalPeer := {|
  sp_VIP := vip; sp_Online := m_PeerOnline resp; sp_PublicAddr := m_PeerPublicAddr resp;
  sp_NATType := m_PeerNATType resp; sp_Metadata := m_PeerMetadata resp;
  sp_SignalReady := m_PeerSignalReady resp |}.

(** The loop over the attempts. [roundTrip i t] is the [i]th exchange, begun at
    [t]: the reply or the text of the error, and the instant it ended;
    [cancelled i]: the session is cancelled while it waits after it. *)
Fixpoint intent_loop (roundTrip : nat → time → (signalMessage + string) * time) (cancelled : nat → bool)
  (s : punchSession) (retries i : nat) (t : time) : SignalPeer + string :=
  let '(res, t) := roundTrip i t in
  match res with
  | inl resp => inl (signal_peer (ps_peerVIP s) resp)
  | inr err =>
      match retries with
      | O => inr (classifyServerRefusal err)
      | S retries =>
          let backoff := 500 * (Z.of_nat i + 1) * millisecond in
          if negb (canRetry t s (punchQueryTimeout + backoff)) then inr (classifyServerRefusal err)
          else if cancelled i then inr P2PReasonCancelled
          else intent_loop roundTrip cancelled s retries (S i) (t + backoff)
      end
  end.

Definition sendIntentWithRetry (roundTrip : nat → time → (signalMessage + string) * time)
  (cancelled : nat → bool) (s : punchSession) (t : time) : SignalPeer + string :=
  intent_loop roundTrip cancelled s punchIntentRetries 0 t.

(** What an exchange gives when the service answers: an error reply is an error
    with its text behind a prefix. The texts of the checks' refusals are the
    argument [text]. *)
Definition exchange_result (text : SignalErr → string) (r : signalMessage) : signalMessage + string :=
  if bool_decide (m_Type r = signalMsgTypeError) then
    inr ("服务端拒绝: " +:+ match m_Error r with
                            | Some (Reason s) => s
                            | Some (Refused e) => text e
                            | None => ""
                            end)
  else inl r.

(** The two exchanges of a session with a service nobody else talks to in
    between; each takes the time given and the service handles the intent at its
    end. *)
Section composed.
  Context (deliver : positive → signalMessage → bool) (rtt : clientStream → Z)
    (text : SignalErr → string) (cs : clientStream) (msg : signalMessage) (sv : server) (t0 : time)
    (delay : nat → duration).

Definition served (i : nat) (t : time) : (signalMessage + string) * time :=
  let first := handlePunchIntent deliver rtt (t0 + delay 0%nat) (Some cs) msg sv in
  let now := t + delay i in
  match i with
  | O => (exchange_result text first.2, now)
  | _ => (exchange_result text (handlePunchIntent deliver rtt now (Some cs) msg first.1).2, now)
  end.

(** An error reply always has the error type. *)
Lemma intent_error_type now s :
  m_Error (handlePunchIntent deliver rtt now (Some cs) msg s).2 ≠ None →
  m_Type (handlePunchIntent deliver rtt now (Some cs) msg s).2 = signalMsgTypeError.
Proof.
  assert (∀ s1, m_Error (signalReply rtt now (Some cs) msg s1).2 ≠ None →
    m_Type (signalReply rtt now (Some cs) msg s1).2 = signalMsgTypeError) as H.
  { intros s1. unfold signalReply. case_bool_decide; [done|]. destruct (negb (p2pOn s1)); [done|].
    destruct (sv_signalReg s1) as [reg|]; [|done]. destruct (Get now (cs_vip cs) reg) as [reg1 prev].
    destruct (Update now (cs_vip cs) _ _ _ reg1) as [reg2 [e|]]; [done|]. cbv zeta.
    case_bool_decide; [cbn; congruence|]. destruct (online _ s1); [|cbn; congruence].
    destruct (Get now (TrimSpace (m_PeerVIP msg)) reg2) as [reg3 [peer|]]; cbn; congruence. }
  unfold handlePunchIntent. cbv zeta. repeat (case_match; cbn [snd] in *; try done).
  all: first [apply H | done].
Qed.

(** A peer that cannot be reached through its signalling stream is reported
    as busy. The service refuses the first intent as "peer-not-ready" and rolls
    the attempt back; the client repeats the intent half a second later, and
    the cooldown the rollback left answers it with "pair-cooldown" (or the rate
    limit), so the session ends as busy or rate-limited and never with the
    reason the service gave. *)
Theorem unready_peer_reported_busy s pt :
  sv_punch sv = Some pt → pt_attempts pt !! m_AttemptID msg = None →
  m_Error (handlePunchIntent deliver rtt (t0 + delay 0%nat) (Some cs) msg sv).2 = Some (Reason "peer-not-ready") →
  0 <= delay 1%nat <= 9 * second →
  canRetry (t0 + delay 0%nat) s (punchQueryTimeout + 500 * millisecond) = true →
  sendIntentWithRetry served (λ _, false) s t0 = inr P2PReasonPeerBusy ∨
  sendIntentWithRetry served (λ _, false) s t0 = inr P2PReasonRateLimited.
Proof.
  intros Hpt Hid Herr Hd Hretry. unfold sendIntentWithRetry, punchIntentRetries.
  cbn [intent_loop]. unfold served at 1 3.
  assert (exchange_result text (handlePunchIntent deliver rtt (t0 + delay 0%nat) (Some cs) msg sv).2
          = inr ("服务端拒绝: " +:+ "peer-not-ready")) as E1.
  { unfold exchange_result. rewrite bool_decide_true by (apply intent_error_type; by rewrite Herr).
    by rewrite Herr. }
  rewrite E1. change (500 * (Z.of_nat 0 + 1) * millisecond) with (500 * millisecond).
  rewrite Hretry. cbn [negb]. unfold served.
  set (now' := t0 + delay 0%nat + 500 * millisecond + delay 1%nat).
  destruct (handlePunchIntent deliver rtt (t0 + delay 0%nat) (Some cs) msg sv) as [s1 r1] eqn:H1.
  cbn [fst snd] in *.
  destruct (second_intent_refused deliver rtt (t0 + delay 0%nat) now' cs msg sv s1 r1 pt Hpt Hid H1 Herr) as [E|E];
    [unfold now', second, millisecond in *; lia|left|right].
  all: unfold exchange_result; rewrite bool_decide_true by (apply intent_error_type; by rewrite E).
  all: rewrite E; reflexivity.
Qed.

End composed.

(** The service's "peer-busy" has no case of its own: without the push that goes
    with it the session ends as "not ready". *)
Example busy_reply_unclassified : classifyServerRefusal "服务端拒绝: peer-busy" = P2PReasonPeerNotReady.
Proof. reflexivity. Qed.

(** ** Witness *)

Definition demo_text (e : SignalErr) : string := "".
Definition demo_delay (i : nat) : duration := 50 * millisecond.
Definition demo_punch_session : punchSession :=
  newSession 0 "0011223344556677" "10.8.0.9" initiator punchWindowDefault "" (AddrPortFrom AddrZero 0).

Lemma unready_peer_reported_busy_witness :
  sendIntentWithRetry (served dead_deliver demo_relay_rtt demo_text (demo_cs "10.8.0.2" 2) demo_intent demo_server
    second demo_delay) (λ _, false) demo_punch_session second = inr P2PReasonPeerBusy ∨
  sendIntentWithRetry (served dead_deliver demo_relay_rtt demo_text (demo_cs "10.8.0.2" 2) demo_intent demo_server
    second demo_delay) (λ _, false) demo_punch_session second = inr P2PReasonRateLimited.
Proof.
  refine (unready_peer_reported_busy dead_deliver demo_relay_rtt demo_text (demo_cs "10.8.0.2" 2) demo_intent demo_server
    second demo_delay demo_punch_session newPunchTable eq_refl _ _ _ _).
  - vm_compute. reflexivity.
  - vm_compute. reflexivity.
  - vm_compute. split; discriminate.
  - vm_compute. reflexivity.
Defined.
