(* ===== verification/GoStrings.v ===== *)
(** * Substrings, splitting and joining ([strings]), decimal printing
    ([strconv.Itoa])

    Texts are byte strings, positions count bytes, as in Go. *)

From Stdlib Require Import ZArith Lia Bool Ascii String.
From stdpp Require Import base list strings.
From S2P Require Import Prelude.
From S2P Require Import GoNet.
From S2P Require Import GoText.

Open Scope string_scope.
Open Scope Z_scope.

(** ** Slices [s[:n]] and [s[n:]] *)

Fixpoint str_take (n : nat) (s : string) : string :=
  match n, s with
  | S n, String c s => String c (str_take n s)
  | _, _ => EmptyString
  end.

Fixpoint str_drop (n : nat) (s : string) : string :=
  match n, s with
  | O, _ => s
  | S n, String _ s => str_drop n s
  | S _, EmptyString => EmptyString
  end.

Fixpoint HasPrefix (s pre : string) {struct pre} : bool :=
  match pre, s with
  | EmptyString, _ => true
  | String p pre, String c s => bool_decide (c = p) && HasPrefix s pre
  | String _ _, EmptyString => false
  end.

(** [strings.Index], [strings.LastIndex] *)
Fixpoint Index (s sub : string) : option nat :=
  if HasPrefix s sub then Some 0%nat
  else match s with EmptyString => None | String _ s => S <$> Index s sub end.

Fixpoint LastIndex (s sub : string) : option nat :=
  match s with
  | EmptyString => if HasPrefix s sub then Some 0%nat else None
  | String _ s' =>
      match LastIndex s' sub with
      | Some i => Some (S i)
      | None => if HasPrefix s sub then Some 0%nat else None
      end
  end.

Definition Contains (s sub : string) : bool := match Index s sub with Some _ => true | None => false end.

(** [strings.Split] with a separator of one byte; [strings.SplitN] with [n > 0]
    cuts at most [n - 1] times. *)
Fixpoint Split (s : string) (sep : ascii) : list string :=
  match s with
  | EmptyString => [EmptyString]
  | String c s =>
      if bool_decide (c = sep) then EmptyString :: Split s sep
      else match Split s sep with
           | w :: ws => String c w :: ws
           | [] => [String c EmptyString]
           end
  end.

Fixpoint cut_at (s : string) (sep : ascii) : string * option string :=
  match s with
  | EmptyString => (EmptyString, None)
  | String c s => if bool_decide (c = sep) then (EmptyString, Some s)
                  else let '(w, r) := cut_at s sep in (String c w, r)
  end.

Fixpoint SplitN (s : string) (sep : ascii) (n : nat) : list string :=
  match n with
  | O => []
  | S O => [s]
  | S n => match cut_at s sep with
           | (w, Some r) => w :: SplitN r sep n
           | (w, None) => [w]
           end
  end.

(** [strings.Join]; the accumulating loops that print a separator before every
    element but the first compute the same. *)
Fixpoint Join (l : list string) (sep : string) : string :=
  match l with
  | [] => EmptyString
  | [w] => w
  | w :: l => w +:+ sep +:+ Join l sep
  end.

(** [strings.EqualFold] with a text of ASCII letters whose only case variants are
    ASCII (no [k], no [s]). *)
Definition EqualFold (s t : string) : bool := bool_decide (ToLower s = ToLower t).

(** [strconv.Itoa]: an [int] has at most 19 decimal digits. *)
Fixpoint itoa_loop (fuel : nat) (n : Z) (acc : string) : string :=
  match fuel with
  | O => acc
  | S fuel => if n <? 10 then String (digit n) acc
              else itoa_loop fuel (n / 10) (String (digit (n mod 10)) acc)
  end.

Definition Itoa (z : Z) : string :=
  if z <? 0 then String "-" (itoa_loop 19 (- z) EmptyString) else itoa_loop 19 z EmptyString.

Example itoa_0 : Itoa 0 = "0". Proof. reflexivity. Qed.
Example itoa_port : Itoa 65535 = "65535". Proof. reflexivity. Qed.
Example itoa_min : Itoa int64_min = "-9223372036854775808". Proof. reflexivity. Qed.
Example split_ports : Split "3478|3479" "|" = ["3478"; "3479"]. Proof. reflexivity. Qed.
Example splitn_rest : SplitN "a,b,c" "," 2 = ["a"; "b,c"]. Proof. reflexivity. Qed.
Example last_index : LastIndex "u:p:vn=1:vn=2.0.0" ":vn=" = Some 8%nat. Proof. reflexivity. Qed.

(** ** Lemmas *)

Lemma str_app_assoc (s t u : string) : (s +:+ t) +:+ u = s +:+ (t +:+ u).
Proof. induction s as [|c s IH]; [done|]. by rewrite !str_app_cons, IH. Qed.

Lemma str_take_app s t : str_take (String.length s) (s +:+ t) = s.
Proof. induction s as [|c s IH]; [by destruct t|]. rewrite str_app_cons. cbn. by rewrite IH. Qed.

Lemma str_drop_app s t : str_drop (String.length s) (s +:+ t) = t.
Proof. induction s as [|c s IH]; [done|]. by rewrite str_app_cons. Qed.

Lemma str_drop_add n m s : str_drop (n + m) s = str_drop m (str_drop n s).
Proof. revert s. induction n as [|n IH]; intros s; [done|]. destruct s; cbn; [by destruct m|done]. Qed.

(** A byte occurs in a text. *)
Fixpoint occurs (c : ascii) (s : string) : Prop :=
  match s with EmptyString => False | String d s => d = c ∨ occurs c s end.

Lemma occurs_app c s t : occurs c (s +:+ t) ↔ occurs c s ∨ occurs c t.
Proof.
  induction s as [|d s IH]; [rewrite str_app_nil; cbn; tauto|]. rewrite str_app_cons. cbn. tauto.
Qed.

Lemma HasPrefix_app s t : HasPrefix (s +:+ t) s = true.
Proof. induction s as [|c s IH]; [by destruct t|]. rewrite str_app_cons. cbn. by rewrite bool_decide_true. Qed.

Lemma HasPrefix_spec s p : HasPrefix s p = true ↔ ∃ t, s = p +:+ t.
Proof.
  split; [|intros [t ->]; apply HasPrefix_app].
  revert s. induction p as [|c p IH]; intros s; [by exists s|]. destruct s as [|d s]; [done|]. cbn.
  intros [->%bool_decide_eq_true [t ->]%IH]%andb_true_iff. by exists t.
Qed.

(** No occurrence of the first byte of the pattern: no occurrence of the pattern. *)
Lemma HasPrefix_first s c p : ¬ occurs c s → HasPrefix s (String c p) = false.
Proof. destruct s as [|d s]; [done|]. cbn. intros H. rewrite bool_decide_false; [done|tauto]. Qed.

Lemma LastIndex_none s c p : ¬ occurs c s → LastIndex s (String c p) = None.
Proof.
  induction s as [|d s IH]; intros H; [done|]. cbn [LastIndex]. cbn in H.
  rewrite IH by tauto. rewrite HasPrefix_first; [done|cbn; tauto].
Qed.

Lemma LastIndex_app s c p t :
  ¬ occurs c p → ¬ occurs c t → LastIndex (s +:+ String c (p +:+ t)) (String c p) = Some (String.length s).
Proof.
  intros Hp Ht. induction s as [|d s IH].
  - rewrite str_app_nil. cbn [LastIndex].
    rewrite LastIndex_none by (rewrite occurs_app; tauto).
    rewrite <- str_app_cons, HasPrefix_app. done.
  - rewrite str_app_cons. cbn [LastIndex]. by rewrite IH.
Qed.

Lemma LastIndex_spec s p i :
  LastIndex s p = Some i → s = str_take i s +:+ p +:+ str_drop (i + String.length p) s.
Proof.
  revert i. induction s as [|c s IH]; intros i.
  - cbn. destruct p; [|done]. by intros [= <-].
  - cbn [LastIndex]. destruct (LastIndex s p) as [j|].
    + intros [= <-]. cbn [str_take Nat.add str_drop]. rewrite str_app_cons. f_equal. by apply IH.
    + destruct (HasPrefix (String c s) p) eqn:H; [|done]. intros [= <-].
      apply HasPrefix_spec in H as [t ->]. cbn [str_take Nat.add]. by rewrite str_app_nil, str_drop_app.
Qed.

Lemma Index_char s c t : ¬ occurs c s → Index (s +:+ String c t) (String c EmptyString) = Some (String.length s).
Proof.
  intros H. induction s as [|d s IH].
  - rewrite str_app_nil. cbn. by rewrite bool_decide_true by done.
  - rewrite str_app_cons. cbn [Index HasPrefix]. cbn in H. rewrite bool_decide_false by tauto. cbn.
    by rewrite IH by tauto.
Qed.

Lemma Split_no_sep w sep : ¬ occurs sep w → Split w sep = [w].
Proof.
  induction w as [|c w IH]; [done|]. cbn. intros H. rewrite bool_decide_false by tauto.
  by rewrite IH by tauto.
Qed.

Lemma Split_app w sep s : ¬ occurs sep w → Split (w +:+ String sep s) sep = w :: Split s sep.
Proof.
  induction w as [|c w IH]; intros H.
  - rewrite str_app_nil. cbn. by rewrite bool_decide_true.
  - rewrite str_app_cons. cbn. cbn in H. rewrite bool_decide_false by tauto. by rewrite IH by tauto.
Qed.

Lemma Split_Join l sep :
  l ≠ [] → Forall (λ w, ¬ occurs sep w) l → Split (Join l (String sep EmptyString)) sep = l.
Proof.
  induction l as [|w l IH]; [done|]. intros _ [Hw Hl]%Forall_cons. destruct l as [|w' l].
  - by apply Split_no_sep.
  - change (Join (w :: w' :: l) (String sep "")) with (w +:+ String sep (Join (w' :: l) (String sep ""))).
    rewrite Split_app by done. by rewrite IH.
Qed.

Lemma cut_at_app w sep s : ¬ occurs sep w → cut_at (w +:+ String sep s) sep = (w, Some s).
Proof.
  induction w as [|c w IH]; intros H.
  - rewrite str_app_nil. cbn. by rewrite bool_decide_true.
  - rewrite str_app_cons. cbn. cbn in H. rewrite bool_decide_false by tauto. by rewrite IH by tauto.
Qed.

Lemma SplitN_parts s sep n : (0 < n)%nat → Join (SplitN s sep n) (String sep EmptyString) = s.
Proof.
  assert (∀ s w r, cut_at s sep = (w, Some r) → s = w +:+ String sep r) as Hcut.
  { clear. induction s as [|c s IH]; intros w r; cbn; [done|]. case_bool_decide as E.
    - intros [= <- <-]. by subst c.
    - destruct (cut_at s sep) as [w' r'] eqn:Hc. intros [= <- ->]. by rewrite (IH _ _ eq_refl). }
  assert (∀ s w, cut_at s sep = (w, None) → s = w) as Hnone.
  { clear. induction s as [|c s IH]; intros w; cbn; [by intros [= <-]|]. case_bool_decide; [done|].
    destruct (cut_at s sep) as [w' r'] eqn:Hc. intros [= <- ->]. by rewrite (IH _ eq_refl). }
  revert s. induction n as [|n IH]; intros s Hn; [lia|]. destruct n as [|n]; [done|].
  cbn [SplitN]. destruct (cut_at s sep) as [w [r|]] eqn:Hc; [|by apply Hnone in Hc].
  apply Hcut in Hc as ->. specialize (IH r ltac:(lia)).
  change (match cut_at r sep with (w0, Some r0) => w0 :: match n with 0%nat => [] | S _ => SplitN r0 sep n end
    | (w0, None) => [w0] end) with (SplitN r sep (S n)) in IH.
  destruct (SplitN r sep (S n)) as [|x l] eqn:E; [by cbn in E; repeat case_match|].
  cbn [SplitN] in E. rewrite E. by rewrite <- IH.
Qed.

(** ** Decimal numbers *)

Lemma decimal_digit d s acc : 0 <= d < 10 → decimal (String (digit d) s) acc = decimal s (acc * 10 + d).
Proof. intros H. cbn [decimal]. by rewrite digit_val_digit. Qed.

Lemma itoa_loop_decimal fuel n acc :
  0 <= n < 10 ^ Z.of_nat fuel → (0 < fuel)%nat →
  ∃ k, decimal (itoa_loop fuel n acc) 0 = decimal acc k ∧ k = n.
Proof.
  revert n acc. induction fuel as [|fuel IH]; intros n acc Hn Hf; [lia|]. cbn [itoa_loop].
  destruct (Z.ltb_spec n 10).
  - exists n. by rewrite decimal_digit by lia.
  - rewrite Nat2Z.inj_succ, Z.pow_succ_r in Hn by lia.
    pose proof (Z.div_mod n 10 ltac:(lia)). pose proof (Z.mod_pos_bound n 10 ltac:(lia)).
    assert (0 <= n / 10 < 10 ^ Z.of_nat fuel) as Hd by (split; [apply Z.div_pos|apply Z.div_lt_upper_bound]; lia).
    destruct fuel as [|fuel]; [cbn in Hd; lia|].
    destruct (IH (n / 10) (String (digit (n mod 10)) acc) Hd ltac:(lia)) as (k & -> & ->).
    exists n. rewrite decimal_digit by lia. split; [f_equal; lia|done].
Qed.

Lemma itoa_loop_head fuel n acc :
  0 <= n → (0 < fuel)%nat → ∃ d s, 0 <= d < 10 ∧ itoa_loop fuel n acc = String (digit d) s.
Proof.
  revert n acc. induction fuel as [|fuel IH]; intros n acc Hn Hf; [lia|]. cbn [itoa_loop].
  destruct (Z.ltb_spec n 10); [exists n, acc; split; [lia|done]|].
  destruct fuel as [|fuel].
  - exists (n mod 10), acc. split; [apply Z.mod_pos_bound; lia|done].
  - apply IH; [apply Z.div_pos|]; lia.
Qed.

Lemma digit_cases (P : ascii → Prop) :
  P "0"%char → P "1"%char → P "2"%char → P "3"%char → P "4"%char → P "5"%char → P "6"%char →
  P "7"%char → P "8"%char → P "9"%char → ∀ d, 0 <= d < 10 → P (digit d).
Proof.
  intros. assert (d ∈ seqZ 0 10) as Hd by (apply elem_of_seqZ; lia).
  vm_compute in Hd. repeat (apply elem_of_cons in Hd as [->|Hd]; [done|]). by apply elem_of_nil in Hd.
Qed.

(** A printed port reads back. *)
Lemma Atoi_Itoa z : 0 <= z <= int64_max → Atoi (Itoa z) = Some z.
Proof.
  intros Hz. unfold Itoa. destruct (Z.ltb_spec z 0); [lia|].
  destruct (itoa_loop_decimal 19 z EmptyString) as (k & Hk & ->); [cbn; unfold int64_max in Hz; lia|lia|].
  destruct (itoa_loop_head 19 z EmptyString) as (d & s & Hd & E); [lia|lia|].
  rewrite E in *. cbn [decimal] in Hk.
  assert (Atoi (String (digit d) s) = digits (String (digit d) s) ≫= atoi_range) as ->.
  { by apply (digit_cases (λ c, Atoi (String c s) = digits (String c s) ≫= atoi_range)). }
  cbn [digits]. cbn [decimal]. rewrite Hk. cbn. unfold atoi_range.
  rewrite (proj2 (Z.leb_le _ _)), (proj2 (Z.leb_le _ _)); unfold int64_min in *; [done|lia|lia].
Qed.

(** ** Visible texts: nothing to trim *)

Definition visible (c : ascii) : Prop := 33 <= code c <= 126.

Fixpoint all_visible (s : string) : Prop :=
  match s with EmptyString => True | String c s => visible c ∧ all_visible s end.

Lemma all_visible_Forall s : all_visible s ↔ Forall visible (String.list_ascii_of_string s).
Proof.
  induction s as [|c s IH]; cbn; [split; [by constructor|done]|]. by rewrite Forall_cons, IH.
Qed.

Lemma plain_visible s : all_plain s → all_visible s.
Proof. induction s as [|c s IH]; cbn; [done|]. unfold plain, visible. intros [? ?]. split; [lia|auto]. Qed.

Lemma all_visible_app s t : all_visible (s +:+ t) ↔ all_visible s ∧ all_visible t.
Proof. induction s as [|c s IH]; [by cbn; tauto|]. rewrite str_app_cons. cbn. rewrite IH. tauto. Qed.

Lemma visible_Join l sep : all_visible sep → Forall all_visible l → all_visible (Join l sep).
Proof.
  intros Hs. induction l as [|w l IH]; [done|]. intros [Hw Hl]%Forall_cons. destruct l as [|w' l]; [done|].
  change (all_visible (w +:+ (sep +:+ Join (w' :: l) sep))). rewrite !all_visible_app. auto.
Qed.

Lemma visible_front l : (∀ c, head l = Some c → visible c) → clean white_space l.
Proof.
  intros H. destruct l as [|c l].
  - eapply Forall_impl; [apply white_space_ne|]. intros w Hw. cbn. by rewrite take_nil.
  - specialize (H c eq_refl). unfold visible in H. unfold clean, white_space.
    repeat constructor; cbn; intros [= E]; lia.
Qed.

Lemma visible_back l : (∀ c, head l = Some c → visible c) → clean (map (@reverse Z) white_space) l.
Proof.
  intros H. destruct l as [|c l].
  - eapply Forall_impl; [apply reversed_space_ne|]. intros w Hw. cbn. by rewrite take_nil.
  - specialize (H c eq_refl). unfold visible in H. unfold clean, white_space. cbn [map].
    repeat constructor; cbn; intros [= E]; lia.
Qed.

Lemma all_visible_head s : all_visible s → ∀ c, head (String.list_ascii_of_string s) = Some c → visible c.
Proof. destruct s; cbn; [done|]. by intros [? _] c' [= <-]. Qed.

Lemma list_ascii_app a b :
  String.list_ascii_of_string (a +:+ b) = (String.list_ascii_of_string a ++ String.list_ascii_of_string b)%list.
Proof. induction a as [|c a IH]; [done|]. rewrite str_app_cons. cbn. by rewrite IH. Qed.

(** The ends of a text. *)
Lemma front_visible s r :
  s ≠ EmptyString → all_visible s → ∀ c, head (String.list_ascii_of_string (s +:+ r)) = Some c → visible c.
Proof. rewrite list_ascii_app. destruct s as [|c s]; [done|]. cbn. by intros _ [? _] c' [= <-]. Qed.

Lemma back_visible s r :
  r ≠ EmptyString → all_visible r → ∀ c, head (reverse (String.list_ascii_of_string (s +:+ r))) = Some c → visible c.
Proof.
  intros Hr Vr c. rewrite list_ascii_app, reverse_app. apply all_visible_Forall, Forall_reverse in Vr.
  destruct r as [|c' r]; [done|].
  destruct (reverse (String.list_ascii_of_string (String c' r))) as [|x l] eqn:E.
  { apply (f_equal length) in E. by rewrite length_reverse in E. }
  cbn. intros [= <-]. by apply Forall_cons in Vr as [? _].
Qed.

(** A line whose ends are visible loses its end-of-line and nothing else. *)
Lemma TrimSpace_line s m t :
  s ≠ EmptyString → t ≠ EmptyString → all_visible s → all_visible t →
  TrimSpace ((s +:+ m +:+ t) +:+ String "010" EmptyString) = s +:+ m +:+ t.
Proof.
  intros Hs Ht Vs Vt. unfold TrimSpace. cbv zeta.
  rewrite (trim_front_id _ white_space).
  2: apply white_space_ne.
  2: { rewrite str_app_assoc. by apply visible_front, front_visible. }
  rewrite list_ascii_app, reverse_app, length_app. cbn [String.list_ascii_of_string length]. rewrite Nat.add_1_r.
  change (reverse ["010"%char]) with ["010"%char]. cbn [app trim_front map].
  change (space_len (map reverse white_space)
    (code "010" :: map code (reverse (String.list_ascii_of_string (s +:+ m +:+ t))))) with 1%nat.
  cbn [drop].
  rewrite (trim_front_id _ (map (@reverse Z) white_space) (reverse (String.list_ascii_of_string (s +:+ m +:+ t))));
    [|apply reversed_space_ne|].
  - by rewrite reverse_involutive, String.string_of_list_ascii_of_string.
  - rewrite <- str_app_assoc. by apply visible_back, back_visible.
Qed.

Lemma TrimSpace_ends s m t :
  s ≠ EmptyString → t ≠ EmptyString → all_visible s → all_visible t →
  TrimSpace (s +:+ m +:+ t) = s +:+ m +:+ t.
Proof.
  intros Hs Ht Vs Vt. unfold TrimSpace. cbv zeta.
  rewrite (trim_front_id _ white_space).
  2: apply white_space_ne.
  2: by apply visible_front, front_visible.
  rewrite trim_front_id; [|apply reversed_space_ne|].
  - by rewrite reverse_involutive, String.string_of_list_ascii_of_string.
  - rewrite <- str_app_assoc. by apply visible_back, back_visible.
Qed.

Lemma str_take_all n s : (String.length s <= n)%nat → str_take n s = s.
Proof.
  revert n. induction s as [|c s IH]; intros n Hn; [by destruct n|]. cbn in Hn.
  destruct n as [|n]; [lia|]. cbn. by rewrite IH by lia.
Qed.

Lemma TrimSpace_visible s : all_visible s → TrimSpace s = s.
Proof.
  intros V. unfold TrimSpace. cbv zeta.
  rewrite (trim_front_id _ white_space).
  2: apply white_space_ne.
  2: by apply visible_front, all_visible_head.
  rewrite trim_front_id.
  - by rewrite reverse_involutive, String.string_of_list_ascii_of_string.
  - apply reversed_space_ne.
  - apply visible_back. intros c Hc. apply all_visible_Forall, Forall_reverse in V.
    destruct (reverse _); [done|]. cbn in Hc. injection Hc as <-. by apply Forall_cons in V as [? _].
Qed.

Lemma plain_not_occurs c s : ¬ plain c → all_plain s → ¬ occurs c s.
Proof. intros Hc. induction s as [|c' s IH]; cbn; [tauto|]. intros [? ?] [->|?]; [done|]. by apply IH. Qed.

Lemma itoa_loop_plain fuel n acc : 0 <= n → all_plain acc → all_plain (itoa_loop fuel n acc).
Proof.
  assert (∀ d, 0 <= d < 10 → plain (digit d)) as Hd.
  { intros d. apply (digit_cases plain); plain_char. }
  revert n acc. induction fuel as [|fuel IH]; intros n acc Hn Ha; [done|]. cbn [itoa_loop].
  destruct (Z.ltb_spec n 10); [by split; [apply Hd; lia|]|].
  apply IH; [apply Z.div_pos; lia|]. split; [apply Hd, Z.mod_pos_bound; lia|done].
Qed.

Lemma Itoa_plain z : 0 <= z → all_plain (Itoa z).
Proof. intros Hz. unfold Itoa. destruct (Z.ltb_spec z 0); [lia|]. by apply itoa_loop_plain. Qed.

Lemma Itoa_head z : 0 <= z → ∃ d s, 0 <= d < 10 ∧ Itoa z = String (digit d) s.
Proof. intros Hz. unfold Itoa. destruct (Z.ltb_spec z 0); [lia|]. apply itoa_loop_head; lia. Qed.
