(* ===== verification/UserStore.v ===== *)
(** * The users of the server ([vpn-server/store/users.go]) and the quota check
    ([vpn-server/manager/quota.go])

    The store is the map of users in memory and the last configuration that was
    written to the file.  Every operation that saves takes the outcome of the
    write as an argument; a write that fails leaves the old file, since the
    new one is renamed into place.  JSON is left out: the file holds the value
    that was encoded. *)

From Stdlib Require Import ZArith Lia Bool Ascii String.
From stdpp Require Import base list gmap sets strings sorting.
From S2P Require Import Prelude.

Open Scope Z_scope.

(** ** State *)

Record User := mkUser {
  Username : string;
  Password : string;
  Enabled : bool;
  MaxBytes : Z;
  UsedBytes : Z;
  CreatedAt : time;
  ExpireAt : time;
  Note : string;
}.
#[export] Instance eta_User : Eta User := λ u,
  mkUser (Username u) (Password u) (Enabled u) (MaxBytes u) (UsedBytes u) (CreatedAt u)
    (ExpireAt u) (Note u).

(** What a save writes: the administrator and the users, in the order Go ranges
    over the map. *)
Record Config := mkConfig {
  AdminUsername : string;
  AdminPassword : string;
  Users : list User;
}.

Record Store := mkStore {
  adminUsername : string;
  adminPassword : string;
  userMap : gmap string User;
  dirty : bool;
  file : option Config;
}.
#[export] Instance eta_Store : Eta Store := λ s,
  mkStore (adminUsername s) (adminPassword s) (userMap s) (dirty s) (file s).

Inductive store_error :=
  | ErrUserExists | ErrUserNotFound | ErrAlreadyInitialized | ErrWrongPassword | ErrSave.

(** ** Saving and loading *)

Definition snapshot (s : Store) : Config :=
  mkConfig (adminUsername s) (adminPassword s) (snd <$> map_to_list (userMap s)).

Definition saveLocked (ok : bool) (s : Store) : Store * option store_error :=
  if ok then (s <| file := Some (snapshot s) |>, None) else (s, Some ErrSave).

(** [load]: a missing file is created; later users of the file win. *)
Definition load_users (us : list User) : gmap string User :=
  foldl (λ m u, <[Username u := u]> m) ∅ us.

Definition empty_store (f : option Config) : Store := mkStore EmptyString EmptyString ∅ false f.

Definition NewStore (f : option Config) (ok : bool) : option Store :=
  match f with
  | None => let '(s, err) := saveLocked ok (empty_store None) in
            match err with None => Some s | Some _ => None end
  | Some c => Some (mkStore (AdminUsername c) (AdminPassword c) (load_users (Users c)) false f)
  end.

(** ** The administrator

    [hashPassword] is SHA-256 in hexadecimal. *)

Section admin.
  Variable hashPassword : string → string.

Definition HasAdmin (s : Store) : bool :=
  negb (bool_decide (adminUsername s = EmptyString)) && negb (bool_decide (adminPassword s = EmptyString)).

(** [subtle.ConstantTimeCompare] of two texts is 1. *)
Definition constTimeEqual (a b : string) : bool := bool_decide (a = b).

Definition SetAdminIfUninitialized (ok : bool) (username password : string) (s : Store)
    : Store * option store_error :=
  if HasAdmin s then (s, Some ErrAlreadyInitialized)
  else saveLocked ok (s <| adminUsername := username |> <| adminPassword := hashPassword password |>).

Definition VerifyAdmin (username password : string) (s : Store) : bool :=
  if bool_decide (adminUsername s = EmptyString) || bool_decide (adminPassword s = EmptyString) then false
  else constTimeEqual (adminUsername s) username && constTimeEqual (adminPassword s) (hashPassword password).

Definition ChangeAdminPassword (ok : bool) (oldPwd newPwd : string) (s : Store)
    : Store * option store_error :=
  if negb (constTimeEqual (adminPassword s) (hashPassword oldPwd)) then (s, Some ErrWrongPassword)
  else saveLocked ok (s <| adminPassword := hashPassword newPwd |>).

End admin.

(** ** Users *)

Definition Get (username : string) (s : Store) : option User := userMap s !! username.

Definition List (s : Store) : list User := snd <$> map_to_list (userMap s).

(** [Time.IsZero] *)
Definition is_zero (t : time) : bool := t =? time_zero.

Definition Create (ok : bool) (now : time) (u : User) (s : Store) : Store * option store_error :=
  match userMap s !! Username u with
  | Some _ => (s, Some ErrUserExists)
  | None => let u' := if is_zero (CreatedAt u) then u <| CreatedAt := now |> else u in
            saveLocked ok (s <| userMap ::= <[Username u := u']> |>)
  end.

Definition Update (ok : bool) (username : string) (fn : User → User) (s : Store)
    : Store * option store_error :=
  match userMap s !! username with
  | None => (s, Some ErrUserNotFound)
  | Some u => saveLocked ok (s <| userMap ::= <[username := fn u]> |>)
  end.

Definition Delete (ok : bool) (username : string) (s : Store) : Store * option store_error :=
  match userMap s !! username with
  | None => (s, Some ErrUserNotFound)
  | Some _ => saveLocked ok (s <| userMap ::= delete username |>)
  end.

Definition AddTraffic (username : string) (delta : Z) (s : Store) : Store :=
  if delta =? 0 then s
  else match userMap s !! username with
       | Some u => s <| userMap ::= <[username := u <| UsedBytes := wrap_u 64 (UsedBytes u + delta) |>]> |>
                     <| dirty := true |>
       | None => s
       end.

Definition ResetTraffic (ok : bool) (username : string) (s : Store) : Store * (Z * option store_error) :=
  match userMap s !! username with
  | None => (s, (0, Some ErrUserNotFound))
  | Some u =>
      let prev := UsedBytes u in
      if prev =? 0 then (s, (0, None))
      else let '(s1, err) := saveLocked ok (s <| userMap ::= <[username := u <| UsedBytes := 0 |>]> |>) in
           match err with
           | Some e => (s1 <| userMap ::= <[username := u <| UsedBytes := prev |>]> |>, (0, Some e))
           | None => (s1 <| dirty := false |>, (prev, None))
           end
  end.

(** One tick of [FlushLoop], and its last save when it is stopped; both ignore
    the outcome of the save. *)
Definition flush_tick (ok : bool) (s : Store) : Store :=
  if dirty s then (saveLocked ok s).1 <| dirty := false |> else s.

Definition flush_stop (ok : bool) (s : Store) : Store := (saveLocked ok s).1.

(** What the panel's update of a user changes ([admin/server.go],
    [handleUserByName]). *)
Definition panel_update (updates u : User) : User :=
  (if bool_decide (Password updates = EmptyString) then u else u <| Password := Password updates |>)
    <| Enabled := Enabled updates |> <| MaxBytes := MaxBytes updates |>
    <| Note := Note updates |> <| ExpireAt := ExpireAt updates |>.

(** ** Quota *)

Record quotaState := mkQuota { q_used : Z; q_max : Z; q_known : bool }.

Definition OverQuota (q : quotaState) : bool := q_known q && (0 <? q_max q) && (q_max q <=? q_used q).

Definition userQuota (s : Store) (username : string) : quotaState :=
  match Get username s with
  | None => mkQuota 0 0 false
  | Some u => mkQuota (UsedBytes u) (MaxBytes u) true
  end.

(** The loop that drops empty names and repetitions. *)
Fixpoint uniq_names (names seen : list string) : list string :=
  match names with
  | [] => []
  | u :: names =>
      if bool_decide (u = EmptyString) then uniq_names names seen
      else if bool_decide (u ∈ seen) then uniq_names names seen
      else u :: uniq_names names (u :: seen)
  end.

(** [sort.Strings] orders by bytes, as [String.le].  [kick] may change the state it runs in; the quotas are read from the store,
    which a kick does not change. *)
Section kick.
  Context {S : Type} (quota : string → quotaState) (kick : string → S → S * bool).

Fixpoint kick_loop (names : list string) (s : S) : S * list string :=
  match names with
  | [] => (s, [])
  | u :: names =>
      if negb (OverQuota (quota u)) then kick_loop names s
      else let '(s1, ok) := kick u s in
           let '(s2, kicked) := kick_loop names s1 in
           (s2, if ok then u :: kicked else kicked)
  end.

Definition kickOverQuota (usernames : list string) (s : S) : S * list string :=
  match usernames with
  | [] => (s, [])
  | _ => kick_loop (merge_sort String.le (uniq_names usernames [])) s
  end.
End kick.

(** ** Keys and the file *)

Definition keyed (m : gmap string User) : Prop := ∀ k u, m !! k = Some u → Username u = k.

Inductive store_step (hash : string → string) : Store → Store → Prop :=
  | ss_admin ok u p s : store_step hash s (SetAdminIfUninitialized hash ok u p s).1
  | ss_password ok o n s : store_step hash s (ChangeAdminPassword hash ok o n s).1
  | ss_create ok now u s : store_step hash s (Create ok now u s).1
  | ss_update ok n up s : store_step hash s (Update ok n (panel_update up) s).1
  | ss_delete ok n s : store_step hash s (Delete ok n s).1
  | ss_traffic n d s : store_step hash s (AddTraffic n d s)
  | ss_reset ok n s : store_step hash s (ResetTraffic ok n s).1
  | ss_tick ok s : store_step hash s (flush_tick ok s)
  | ss_stop ok s : store_step hash s (flush_stop ok s).

Lemma keyed_insert k u m : keyed m → Username u = k → keyed (<[k := u]> m).
Proof.
  intros Hm Hu k' u'. destruct (decide (k = k')) as [->|].
  - rewrite lookup_insert_eq. by intros [= <-].
  - rewrite lookup_insert_ne by done. apply Hm.
Qed.

Lemma keyed_delete k m : keyed m → keyed (delete k m).
Proof. intros Hm k' u' [_ H]%lookup_delete_Some. by apply Hm. Qed.

Lemma keyed_load us : keyed (load_users us).
Proof.
  unfold load_users. assert (keyed ∅) as H0 by (intros k u; by rewrite lookup_empty).
  revert H0. generalize (∅ : gmap string User). induction us as [|u us IH]; intros m Hm; [done|].
  cbn. apply IH. by apply keyed_insert.
Qed.

Lemma userMap_save ok s : userMap (saveLocked ok s).1 = userMap s.
Proof. by destruct ok. Qed.

Lemma Username_panel up u : Username (panel_update up u) = Username u.
Proof. unfold panel_update. by case_match. Qed.

Lemma keyed_step hash s s' : store_step hash s s' → keyed (userMap s) → keyed (userMap s').
Proof.
  intros [] Hk.
  - unfold SetAdminIfUninitialized. case_match; [done|by rewrite userMap_save].
  - unfold ChangeAdminPassword. case_match; [done|by rewrite userMap_save].
  - unfold Create. case_match; [done|]. rewrite userMap_save. cbn. apply keyed_insert; [done|]. by case_match.
  - unfold Update. destruct (userMap s0 !! n) eqn:E; [|done]. rewrite userMap_save. cbn.
    apply keyed_insert; [done|]. rewrite Username_panel. by apply Hk.
  - unfold Delete. case_match; [|done]. rewrite userMap_save. by apply keyed_delete.
  - unfold AddTraffic. case_match; [done|]. destruct (userMap s0 !! n) eqn:E; [|done]. cbn.
    apply keyed_insert; [done|]. exact (Hk _ _ E).
  - unfold ResetTraffic. destruct (userMap s0 !! n) eqn:E; [|done]. case_match; [done|].
    destruct ok; cbn; repeat apply keyed_insert; try done; exact (Hk _ _ E).
  - unfold flush_tick. case_match; [|done]. cbn. by rewrite userMap_save.
  - unfold flush_stop. by rewrite userMap_save.
Qed.

(** Loading any arrangement of distinct users gives the map they came from. *)
Lemma load_perm us (m : gmap string User) :
  keyed m → us ≡ₚ (snd <$> map_to_list m) → load_users us = m.
Proof.
  intros Hk Hp.
  assert (load_users us = list_to_map ((λ u, (Username u, u)) <$> reverse us)) as ->.
  { clear. unfold load_users. rewrite <- (reverse_involutive us) at 1. generalize (reverse us). clear us.
    induction l as [|u l IH]; [done|]. rewrite reverse_cons, foldl_app. cbn. by rewrite IH. }
  assert ((λ u, (Username u, u)) <$> reverse us ≡ₚ map_to_list m) as Hl.
  { rewrite reverse_Permutation, Hp, <- list_fmap_compose.
    assert (((λ u, (Username u, u)) ∘ snd) <$> map_to_list m = map_to_list m) as ->; [|done].
    rewrite <- (list_fmap_id (map_to_list m)) at 2. apply list_fmap_ext. intros i [k u] Hi. cbn.
    apply list_elem_of_lookup_2, elem_of_map_to_list in Hi. by rewrite (Hk k u). }
  transitivity (list_to_map (map_to_list m) : gmap string User); [|apply list_to_map_to_list].
  apply list_to_map_proper; [|done]. rewrite Hl. apply NoDup_fst_map_to_list.
Qed.

(** What the server saves it reads back: in every state it can reach from an
    empty store, a save that succeeds followed by a restart gives the same
    administrator and the same users, in whatever order Go wrote them. *)
Theorem save_load_roundtrip hash s us :
  rtc (store_step hash) (empty_store None) s → us ≡ₚ Users (snapshot s) →
  ∃ s', NewStore (Some (mkConfig (adminUsername s) (adminPassword s) us)) true = Some s' ∧
    userMap s' = userMap s ∧ adminUsername s' = adminUsername s ∧ adminPassword s' = adminPassword s.
Proof.
  intros Hr Hp. eexists. split; [done|]. cbn. split; [|done]. apply load_perm; [|done].
  assert (keyed (userMap (empty_store None))) as H0 by (intros k u; cbn; by rewrite lookup_empty).
  revert H0. clear Hp. induction Hr; eauto using keyed_step.
Qed.

Definition bob : User := mkUser "bob" "pw" true 100 40 0 time_zero "".

Lemma save_load_roundtrip_witness :
  ∃ s', NewStore (Some (mkConfig "" "" [bob])) true = Some s' ∧ userMap s' = {["bob"%string := bob]}.
Proof.
  destruct (save_load_roundtrip (λ p, p) ((Create true 0 bob (empty_store None)).1) [bob]) as (s' & H1 & H2 & _).
  - apply rtc_once. apply (ss_create (λ p, p) true 0 bob).
  - vm_compute. reflexivity.
  - exists s'. split; [exact H1|]. rewrite H2. vm_compute. reflexivity.
Defined.

(** ** Accounting *)

Lemma user_same_used u v : v = UsedBytes u → u <| UsedBytes := v |> = u.
Proof. intros ->. by destruct u. Qed.

(** A reset of the counter is atomic: when it fails, memory and file are as
    before and no amount is reported; when it succeeds, only this user's counter
    changes, the amount reported is the one cleared, and the file already has it. *)
Theorem reset_traffic_atomic ok n s :
  let '(s', (prev, err)) := ResetTraffic ok n s in
  match err with
  | Some _ => s' = s ∧ prev = 0
  | None => ∃ u, userMap s !! n = Some u ∧ prev = UsedBytes u ∧
      userMap s' = <[n := u <| UsedBytes := 0 |>]> (userMap s) ∧
      (prev ≠ 0 → file s' = Some (snapshot s') ∧ dirty s' = false)
  end.
Proof.
  unfold ResetTraffic. destruct (userMap s !! n) as [u|] eqn:Hu; [|done].
  destruct (Z.eqb_spec (UsedBytes u) 0) as [Hz|Hz].
  { exists u. split_and!; [done|done| |done]. rewrite user_same_used by done. by rewrite insert_id. }
  destruct ok; cbn.
  - exists u. split_and!; done.
  - split; [|done]. rewrite insert_insert_eq.
    replace (mkUser _ _ _ _ (UsedBytes u) _ _ _) with u by (by destruct u).
    rewrite insert_id by done. by destruct s.
Qed.

Definition traffic_of (n : string) (l : list (string * Z)) : Z :=
  foldr (λ '(m, d) acc, if bool_decide (m = n) then d + acc else acc) 0 l.

Definition account (l : list (string * Z)) (s : Store) : Store :=
  foldl (λ s '(n, d), AddTraffic n d s) s l.

Lemma AddTraffic_lookup n m d s :
  userMap (AddTraffic m d s) !! n
  = match userMap s !! n with
    | Some u => Some (if bool_decide (m = n) && negb (d =? 0)
                      then u <| UsedBytes := wrap_u 64 (UsedBytes u + d) |> else u)
    | None => None
    end.
Proof.
  unfold AddTraffic. destruct (Z.eqb_spec d 0); cbn.
  { rewrite andb_false_r. by destruct (userMap s !! n). }
  rewrite andb_true_r. destruct (userMap s !! m) as [u|] eqn:Hm; cbn.
  - destruct (decide (m = n)) as [->|].
    + by rewrite lookup_insert_eq, Hm, bool_decide_true.
    + rewrite lookup_insert_ne, bool_decide_false by done. by destruct (userMap s !! n).
  - destruct (userMap s !! n) eqn:Hn; [|done]. rewrite bool_decide_false; [done|]. intros ->. congruence.
Qed.

(** The counter of a user is exact: after any sequence of deliveries it is the
    old value plus what was delivered for this user, modulo 2^64; nothing else of
    the user changes, and a user that does not exist is not created. *)
Theorem traffic_accounted l n s :
  userMap (account l s) !! n
  = match userMap s !! n with
    | Some u => Some (if bool_decide (Forall (λ '(m, d), m = n → d = 0) l) then u
                      else u <| UsedBytes := wrap_u 64 (UsedBytes u + traffic_of n l) |>)
    | None => None
    end.
Proof.
  revert s. induction l as [|[m d] l IH]; intros s; [cbn; by destruct (userMap s !! n)|].
  cbn [account foldl]. change (foldl _ (AddTraffic m d s) l) with (account l (AddTraffic m d s)).
  rewrite IH, AddTraffic_lookup. destruct (userMap s !! n) as [u|]; [|done]. cbn [traffic_of foldr].
  change (foldr _ 0 l) with (traffic_of n l).
  assert (∀ k, Forall (λ '(m, d), m = n → d = 0) k → traffic_of n k = 0) as Hz.
  { intros k. induction k as [|[m' d'] k IHk]; [done|]. intros [H Hk]%Forall_cons. cbn.
    change (foldr _ 0 k) with (traffic_of n k).
    rewrite (IHk Hk). destruct (bool_decide_reflect (m' = n)) as [E|]; [|done]. by rewrite (H E). }
  clear IH.
  set (P := Forall (λ '(m, d), m = n → d = 0) l) in *.
  assert (Forall (λ '(m, d), m = n → d = 0) ((m, d) :: l) ↔ (m = n → d = 0) ∧ P) as Hc by apply Forall_cons.
  destruct (decide (m = n)) as [->|Hmn].
  - rewrite (bool_decide_true (n = n)) by done. destruct (Z.eqb_spec d 0) as [->|Hd]; cbn.
    + rewrite Z.add_0_l. repeat case_bool_decide; tauto.
    + rewrite (bool_decide_false (Forall _ ((n, d) :: l))) by tauto.
      case_bool_decide as HP; cbn; [by rewrite (Hz l HP), Z.add_0_r|].
      f_equal. destruct u; cbn. f_equal. unfold wrap_u. rewrite Z.add_mod_idemp_l by done. f_equal. lia.
  - rewrite (bool_decide_false (m = n)) by done. cbn. repeat case_bool_decide; tauto.
Qed.

(** A write that fails: the caller is told so, and yet the user is there, until
    the server restarts. *)
Theorem create_failed_is_live now u s :
  userMap s !! Username u = None →
  let '(s', err) := Create false now u s in
  err = Some ErrSave ∧ is_Some (Get (Username u) s') ∧ file s' = file s.
Proof.
  intros Hn. unfold Create, Get. rewrite Hn. cbn. split_and!; [done| |done].
  rewrite lookup_insert_eq. by eexists.
Qed.

Lemma create_failed_is_live_witness :
  let '(s', err) := Create false 0 bob (empty_store None) in
  err = Some ErrSave ∧ is_Some (Get "bob" s') ∧ file s' = None.
Proof. apply (create_failed_is_live 0 bob (empty_store None)). reflexivity. Defined.

(** A tick of the flush whose write fails clears the mark all the same: no later
    tick writes the traffic, until something else changes. *)
Theorem flush_failure_forgotten s oks :
  file (foldl (λ s ok, flush_tick ok s) (flush_tick false s) oks) = file s.
Proof.
  assert (∀ s, dirty s = false → file (foldl (λ s ok, flush_tick ok s) s oks) = file s) as Hid.
  { induction oks as [|ok oks IH]; intros s0 Hd; [done|]. cbn. unfold flush_tick at 2. rewrite Hd. by apply IH. }
  unfold flush_tick at 2. destruct (dirty s) eqn:Hd; [|by apply Hid]. by rewrite Hid.
Qed.


(** ** The quota check *)

(** The accounts to kick, and kicking them one after the other. *)
Definition run_kicks {S} (kick : string → S → S * bool) (names : list string) (s : S) : S * list string :=
  foldl (λ '(s, kicked) u, let '(s1, ok) := kick u s in (s1, if ok : bool then (kicked ++ [u])%list else kicked))
    (s, []) names.

Lemma kick_loop_filter {S} quota (kick : string → S → S * bool) names s :
  kick_loop quota kick names s
  = kick_loop (λ _, mkQuota 1 1 true) kick (filter (λ u, OverQuota (quota u) = true) names) s.
Proof.
  revert s. induction names as [|u names IH]; intros s; [done|]. cbn [kick_loop].
  destruct (OverQuota (quota u)) eqn:E.
  - rewrite filter_cons_True by done. cbn. destruct (kick u s). by rewrite IH.
  - rewrite filter_cons_False by (by rewrite E). cbn. apply IH.
Qed.

Lemma kick_loop_run {S} (kick : string → S → S * bool) names s k0 :
  foldl (λ '(s, kicked) u, let '(s1, ok) := kick u s in (s1, if ok : bool then (kicked ++ [u])%list else kicked))
    (s, k0) names
  = let '(s', k) := kick_loop (λ _, mkQuota 1 1 true) kick names s in (s', (k0 ++ k)%list).
Proof.
  revert s k0. induction names as [|u names IH]; intros s k0; [cbn; by rewrite app_nil_r|].
  cbn. destruct (kick u s) as [s1 ok]. rewrite IH. destruct (kick_loop _ _ _ _) as [s2 k].
  destruct ok; [by rewrite <- app_assoc|done].
Qed.

Lemma StronglySorted_filter {A} (R : A → A → Prop) (P : A → Prop) `{∀ x, Decision (P x)} l :
  StronglySorted R l → StronglySorted R (filter P l).
Proof.
  induction 1 as [|x l Hl IH Hx]; [constructor|]. rewrite filter_cons. case_decide; [|done].
  constructor; [done|]. rewrite Forall_forall in *. intros y [_ Hy]%list_elem_of_filter. auto.
Qed.

Lemma uniq_names_spec names seen :
  NoDup (uniq_names names seen) ∧
  ∀ u, u ∈ uniq_names names seen ↔ u ∈ names ∧ u ≠ EmptyString ∧ u ∉ seen.
Proof.
  revert seen. induction names as [|v names IH]; intros seen; cbn [uniq_names].
  { split; [constructor|]. intros u. rewrite !elem_of_nil. tauto. }
  destruct (decide (v = EmptyString)) as [Hv|Hv];
    [rewrite bool_decide_true by done|rewrite bool_decide_false by done; case_bool_decide as Hs].
  - destruct (IH seen) as [H1 H2]. split; [done|]. intros u. rewrite H2, elem_of_cons. naive_solver.
  - destruct (IH seen) as [H1 H2]. split; [done|]. intros u. rewrite H2, elem_of_cons. naive_solver.
  - destruct (IH (v :: seen)) as [H1 H2]. split.
    + apply NoDup_cons. split; [|done]. rewrite H2, elem_of_cons. tauto.
    + intros u. rewrite !elem_of_cons, H2, elem_of_cons. destruct (decide (u = v)) as [->|]; tauto.
Qed.

(** The targets of the check, and that it does what kicking them one by one does. *)
Lemma kick_over_quota_reference {S} quota (kick : string → S → S * bool) names s :
  ∃ targets, StronglySorted String.le targets ∧ NoDup targets ∧
    (∀ u, u ∈ targets ↔ u ∈ names ∧ u ≠ EmptyString ∧ OverQuota (quota u) = true) ∧
    kickOverQuota quota kick names s = run_kicks kick targets s.
Proof.
  exists (filter (λ u, OverQuota (quota u) = true) (merge_sort String.le (uniq_names names []))).
  destruct (uniq_names_spec names []) as [Hnd Hin]. split_and!.
  - apply StronglySorted_filter. apply StronglySorted_merge_sort; apply _.
  - apply NoDup_filter. by rewrite merge_sort_Permutation.
  - intros u. rewrite list_elem_of_filter, merge_sort_Permutation, Hin, elem_of_nil. tauto.
  - unfold run_kicks. rewrite kick_loop_run. unfold kickOverQuota.
    destruct names as [|v names]; [done|]. rewrite kick_loop_filter.
    by destruct (kick_loop _ _ _ _).
Qed.

(** The run-time check kicks each account that is online and over its quota,
    once, in byte order, and nobody else; a kick that fails does not keep the
    others from being kicked, and the accounts reported are those whose kick
    succeeded. *)
Theorem kick_over_quota_exact {S} quota (kick : string → S → S * bool) names s :
  ∃ targets, StronglySorted String.le targets ∧ NoDup targets ∧
    (∀ u, u ∈ targets ↔ u ∈ names ∧ u ≠ EmptyString ∧ OverQuota (quota u) = true) ∧
    kickOverQuota quota kick names s = run_kicks kick targets s.
Proof. apply kick_over_quota_reference. Qed.

Example kick_two :
  kickOverQuota (λ u, mkQuota 5 (if bool_decide (u = "b"%string) then 9 else 5) true)
    (λ u (s : list string), (u :: s, negb (bool_decide (u = "c"%string))))
    ["c"; "a"; "b"; "a"; ""]%string []
  = (["c"; "a"]%string, ["a"]%string).
Proof. vm_compute. reflexivity. Qed.
