(* ===== verification/IPAlloc.v ===== *)
(** * The address pool of the server ([vpn-server/quic/authenticator.go],
    [IPAllocator])

    The pool hands out tunnel addresses to devices, with a lease on each until a
    data plane claims it.  [net.IP] is the list of its bytes, [nil] is [None]. *)

From Stdlib Require Import ZArith Lia Bool Ascii String.
From stdpp Require Import base list gmap sets strings.
From S2P Require Import Prelude.
From S2P Require Import GoNet.
From S2P Require Import GoText.

Open Scope Z_scope.

(** ** Addresses *)

(** [ipLessOrEqual]: the loop over the four bytes. *)
Fixpoint bytes_le (a b : list Z) : bool :=
  match a, b with
  | x :: a', y :: b' => if x <? y then true else if y <? x then false else bytes_le a' b'
  | _, _ => true
  end.

Definition ipLessOrEqual (a b : list Z) : bool :=
  match To4 a, To4 b with
  | Some a4, Some b4 => bytes_le (ip4_bytes a4) (ip4_bytes b4)
  | _, _ => false
  end.

(** The loop of [nextIP] from the last byte: increment modulo 256, and go on
    only when the byte became 0. *)
Fixpoint incr_bytes (rev : list Z) : list Z :=
  match rev with
  | [] => []
  | b :: rest => let b' := wrap_u 8 (b + 1) in
                 if b' =? 0 then b' :: incr_bytes rest else b' :: rest
  end.

Definition nextIP (ip : list Z) : option (list Z) :=
  match To4 ip with
  | None => None
  | Some a => Some (reverse (incr_bytes (reverse (ip4_bytes a))))
  end.

(** [IP.String] of an address that has an IPv4 form. *)
Definition IPString (ip : list Z) : string := from_option ip4ToString EmptyString (To4 ip).

(** ** State *)

Record IPAllocator := mkIPAllocator {
  usedIPs : gset string;
  freeIPs : list string;
  next_ip : option (list Z);
  startIP : list Z;
  endIP : list Z;
  subnetMask : list Z;
  deviceIP : gmap string string;
  vipToDevice : gmap string string;
  leases : gmap string time;
  leaseTTL : duration;
}.
#[export] Instance eta_IPAllocator : Eta IPAllocator := λ a,
  mkIPAllocator (usedIPs a) (freeIPs a) (next_ip a) (startIP a) (endIP a) (subnetMask a)
    (deviceIP a) (vipToDevice a) (leases a) (leaseTTL a).

Definition dhcpLeaseTTL : duration := 5 * minute.

Definition pool_first : list Z := (v4_mapped_prefix ++ [10; 0; 0; 100])%list.
Definition pool_last : list Z := (v4_mapped_prefix ++ [10; 0; 0; 200])%list.

Definition NewIPAllocator : IPAllocator :=
  mkIPAllocator ∅ [] (Some pool_first) pool_first pool_last [255; 255; 255; 0] ∅ ∅ ∅ dhcpLeaseTTL.

(** ** Configuration *)

Inductive alloc_error := InvalidIP | InvalidMask.

Definition SetIPPool (first last : string) (a : IPAllocator) : IPAllocator * option alloc_error :=
  match ParseIP first, ParseIP last with
  | Some s, Some e =>
      (mkIPAllocator ∅ [] (Some s) s e (subnetMask a) ∅ ∅ ∅ (leaseTTL a), None)
  | _, _ => (a, Some InvalidIP)
  end.

Definition SetSubnetMask (mask : string) (a : IPAllocator) : IPAllocator * option alloc_error :=
  match ParseIP mask with
  | None => (a, Some InvalidMask)
  | Some p => match To4 p with
              | None => (a, Some InvalidMask)
              | Some m => (a <| subnetMask := ip4_bytes m |>, None)
              end
  end.

Definition GetSubnetMask (a : IPAllocator) : string := IPString (subnetMask a).

(** ** Leases *)

Definition IsZero (t : time) : bool := t =? time_zero.

Definition renewLeaseLocked (now : time) (vip : string) (a : IPAllocator) : IPAllocator :=
  let renew := a <| leases ::= <[vip := time_add now (leaseTTL a)]> |> in
  match leases a !! vip with
  | Some exp => if IsZero exp then a else renew
  | None => renew
  end.

(** The search of [pickFreeLocked] from [nextIP]: the first address up to
    [endIP] that is not in use, and the cursor after it.  [None]: out of fuel. *)
Fixpoint pick_loop (fuel : nat) (used : gset string) (last : list Z) (next : option (list Z))
    : option (string * option (list Z)) :=
  match fuel with
  | O => None
  | S fuel' =>
      match next with
      | None => Some (EmptyString, None)
      | Some ip =>
          if ipLessOrEqual ip last then
            let ipStr := IPString ip in
            if bool_decide (ipStr ∈ used) then pick_loop fuel' used last (nextIP ip)
            else Some (ipStr, nextIP ip)
          else Some (EmptyString, Some ip)
      end
  end.

(** One unit of fuel per address in use and one more: [pick_loop_total] below. *)
Definition pick_fuel (used : gset string) : nat := S (size used).

Definition pickFreeLocked (now : time) (a : IPAllocator) : option (IPAllocator * string) :=
  let taken :=
    match last (freeIPs a) with
    | Some vip => Some (a <| freeIPs := removelast (freeIPs a) |>, vip)
    | None =>
        match pick_loop (pick_fuel (usedIPs a)) (usedIPs a) (endIP a) (next_ip a) with
        | Some (vip, next') => Some (a <| next_ip := next' |>, vip)
        | None => None
        end
    end in
  match taken with
  | None => None
  | Some (a1, vip) =>
      if bool_decide (vip = EmptyString) then Some (a1, EmptyString)
      else Some (a1 <| usedIPs ::= union {[vip]} |>
                    <| leases ::= <[vip := time_add now (leaseTTL a1)]> |>, vip)
  end.

(** [None]: the search of a free address does not terminate. *)
Definition AllocateByDeviceID (now : time) (deviceID : string) (a : IPAllocator)
    : option (IPAllocator * string) :=
  match deviceIP a !! deviceID with
  | Some vip => Some (renewLeaseLocked now vip a, vip)
  | None =>
      match pickFreeLocked now a with
      | None => None
      | Some (a1, vip) =>
          if bool_decide (vip = EmptyString) then Some (a1, EmptyString)
          else Some (a1 <| deviceIP ::= <[deviceID := vip]> |>
                        <| vipToDevice ::= <[vip := deviceID]> |>, vip)
      end
  end.

Definition MarkLeaseActive (vip : string) (a : IPAllocator) : IPAllocator :=
  if bool_decide (vip = EmptyString) then a
  else match leases a !! vip with
       | Some _ => a <| leases ::= <[vip := time_zero]> |>
       | None => a
       end.

Definition IsLeased (a : IPAllocator) (vip : string) : bool :=
  negb (bool_decide (vip = EmptyString)) && bool_decide (vip ∈ usedIPs a).

Definition LeaseCount (a : IPAllocator) : nat := size (leases a).

(** ** Release *)

Definition appendFreeLocked (vip : string) (a : IPAllocator) : IPAllocator :=
  if bool_decide (vip ∈ freeIPs a) then a else a <| freeIPs ::= (λ l, (l ++ [vip])%list) |>.

Definition releaseVIPLocked (vip : string) (a : IPAllocator) : IPAllocator :=
  let a1 := match vipToDevice a !! vip with
            | Some deviceID => a <| vipToDevice ::= delete vip |>
                                 <| deviceIP ::= delete deviceID |>
            | None => a
            end in
  let a2 := a1 <| leases ::= delete vip |> in
  if bool_decide (vip ∈ usedIPs a2)
  then appendFreeLocked vip (a2 <| usedIPs ::= (λ u, u ∖ {[vip]}) |>)
  else a2.

Definition ReleaseByVirtualIP := releaseVIPLocked.

(** The body of the loop of [reapExpiredLeases]; an entry the loop deleted is
    not visited again. *)
Definition reap_one (now : time) (a : IPAllocator) (vip : string) : IPAllocator :=
  match leases a !! vip with
  | None => a
  | Some exp => if IsZero exp || time_before now exp then a else releaseVIPLocked vip a
  end.

(** [order]: the order in which Go ranges over the leases. *)
Definition reapExpiredLeases (now : time) (order : list string) (a : IPAllocator) : IPAllocator :=
  foldl (reap_one now) a order.

Example alloc_two :
  (a1 ← AllocateByDeviceID 0 "d1" NewIPAllocator; a2 ← AllocateByDeviceID 0 "d2" a1.1;
   a3 ← AllocateByDeviceID 0 "d1" a2.1; Some (a1.2, a2.2, a3.2))
  = Some ("10.0.0.100"%string, "10.0.0.101"%string, "10.0.0.100"%string).
Proof. vm_compute. reflexivity. Qed.

(** ** Addresses as numbers *)

Lemma To4_bytes a : To4 (ip4_bytes a) = Some a.
Proof. by destruct a as [[[a0 a1] a2] a3]. Qed.

Lemma bytes_le_num a b :
  ip4_ok a → ip4_ok b → bytes_le (ip4_bytes a) (ip4_bytes b) = (ip4_num a <=? ip4_num b).
Proof.
  destruct a as [[[a0 a1] a2] a3], b as [[[b0 b1] b2] b3]. unfold ip4_ok, byte_ok, ip4_num. cbn.
  intros Ha Hb. symmetry. repeat case_match; bool_hyps; apply eq_true_iff_eq; rewrite Z.leb_le;
    split; intros; try lia; done.
Qed.

Lemma ipLessOrEqual_num x y a b :
  To4 x = Some a → To4 y = Some b → ip4_ok a → ip4_ok b →
  ipLessOrEqual x y = (ip4_num a <=? ip4_num b).
Proof. intros Ha Hb ??. unfold ipLessOrEqual. rewrite Ha, Hb. by apply bytes_le_num. Qed.

Lemma wrap_incr b : byte_ok b → wrap_u 8 (b + 1) = if b =? 255 then 0 else b + 1.
Proof.
  unfold byte_ok, wrap_u. intros Hb. destruct (Z.eqb_spec b 255) as [->|]; [done|].
  apply Z.mod_small. lia.
Qed.

(** [nextIP] is the successor modulo 2^32. *)
Lemma nextIP_num x a :
  To4 x = Some a → ip4_ok a →
  ∃ b, nextIP x = Some (ip4_bytes b) ∧ ip4_ok b ∧ ip4_num b = (ip4_num a + 1) mod 2 ^ 32.
Proof.
  intros Hx Ha. unfold nextIP. rewrite Hx. destruct a as [[[a0 a1] a2] a3].
  destruct Ha as (H0 & H1 & H2 & H3). cbn -[Z.pow]. rewrite !wrap_incr by done.
  assert (∀ n, 0 <= n < 2 ^ 32 → n mod 2 ^ 32 = n) as Hm by (intros; by apply Z.mod_small).
  unfold byte_ok in *. change (2 ^ 32) with 4294967296 in *.
  destruct (Z.eqb_spec a3 255); [destruct (Z.eqb_spec a2 255); [destruct (Z.eqb_spec a1 255);
    [destruct (Z.eqb_spec a0 255)|]|]|]; subst; cbn [Z.eqb];
    rewrite ?(proj2 (Z.eqb_neq (_ + 1) 0)) by lia; cbn;
    eexists (_, _, _, _); (split; [done|]); unfold ip4_ok, byte_ok; (split; [lia|]).
  - done.
  - rewrite Hm by lia. unfold ip4_num. lia.
  - rewrite Hm by lia. unfold ip4_num. lia.
  - rewrite Hm by lia. unfold ip4_num. lia.
  - rewrite Hm by lia. unfold ip4_num. lia.
Qed.

Lemma ip4_num_range a : ip4_ok a → 0 <= ip4_num a < 2 ^ 32.
Proof.
  destruct a as [[[a0 a1] a2] a3]. unfold ip4_ok, byte_ok, ip4_num.
  change (2 ^ 32) with 4294967296. lia.
Qed.

Lemma ip4ToString_inj a b : ip4_ok a → ip4_ok b → ip4ToString a = ip4ToString b → a = b.
Proof.
  intros Ha Hb E. pose proof (parseIPv4_ip4ToString a Ha) as Pa.
  rewrite E, parseIPv4_ip4ToString in Pa by done. by injection Pa.
Qed.

Lemma ip4ToString_nonempty a : ip4ToString a ≠ EmptyString.
Proof. destruct a as [[[a0 a1] a2] a3]. unfold ip4ToString. apply byte_str_nonempty. Qed.

Lemma IPString_To4 x a : To4 x = Some a → IPString x = ip4ToString a.
Proof. intros H. unfold IPString. by rewrite H. Qed.

Definition num_ip4 (n : Z) : ip4 :=
  ((n / 16777216) mod 256, (n / 65536) mod 256, (n / 256) mod 256, n mod 256).

Lemma num_ip4_ok n : ip4_ok (num_ip4 n).
Proof. unfold num_ip4, ip4_ok, byte_ok. split_and!; apply Z.mod_pos_bound; lia. Qed.

Lemma ip4_num_num_ip4 n : 0 <= n < 2 ^ 32 → ip4_num (num_ip4 n) = n.
Proof.
  change (2 ^ 32) with 4294967296. intros H. unfold num_ip4, ip4_num.
  assert (n / 65536 = n / 256 / 256) as -> by (rewrite Z.div_div by lia; done).
  assert (n / 16777216 = n / 256 / 256 / 256) as -> by (rewrite !Z.div_div by lia; done).
  pose proof (Z.div_mod n 256 ltac:(lia)) as D1. pose proof (Z.div_mod (n / 256) 256 ltac:(lia)) as D2.
  pose proof (Z.div_mod (n / 256 / 256) 256 ltac:(lia)) as D3.
  assert (n / 256 / 256 / 256 < 256) by (repeat (apply Z.div_lt_upper_bound; [lia|]); lia).
  rewrite (Z.mod_small (n / 256 / 256 / 256)) by (split; [repeat (apply Z.div_pos; [|lia]); lia|done]).
  lia.
Qed.

Lemma num_ip4_ip4_num a : ip4_ok a → num_ip4 (ip4_num a) = a.
Proof.
  intros Ha. apply ip4_num_inj; [apply num_ip4_ok|done|].
  apply ip4_num_num_ip4. by apply ip4_num_range.
Qed.

(** The text of the [n]-th address. *)
Definition addr (n : Z) : string := ip4ToString (num_ip4 n).

Lemma addr_num a : ip4_ok a → addr (ip4_num a) = ip4ToString a.
Proof. intros Ha. unfold addr. by rewrite num_ip4_ip4_num. Qed.

Lemma addr_inj n m : 0 <= n < 2 ^ 32 → 0 <= m < 2 ^ 32 → addr n = addr m → n = m.
Proof.
  intros Hn Hm E%ip4ToString_inj; [|apply num_ip4_ok..].
  rewrite <- (ip4_num_num_ip4 n), <- (ip4_num_num_ip4 m), E by done. done.
Qed.

Lemma addr_nonempty n : addr n ≠ EmptyString.
Proof. apply ip4ToString_nonempty. Qed.

(** ** Well-formedness

    The two indices are inverse, every address in use has a lease and a device,
    the free list has no duplicate and nothing that is in use. *)

Record alloc_wf (a : IPAllocator) : Prop := mk_alloc_wf {
  aw_dev : ∀ d v, deviceIP a !! d = Some v ↔ vipToDevice a !! v = Some d;
  aw_used_dev : ∀ v, v ∈ usedIPs a ↔ is_Some (vipToDevice a !! v);
  aw_used_lease : ∀ v, v ∈ usedIPs a ↔ is_Some (leases a !! v);
  aw_free_nodup : NoDup (freeIPs a);
  aw_free_used : ∀ v, v ∈ freeIPs a → v ∉ usedIPs a;
  aw_nonempty : (EmptyString ∉ usedIPs a) ∧ (EmptyString ∉ freeIPs a);
  aw_next : ∀ ip, next_ip a = Some ip → Forall byte_ok ip;
  aw_last : Forall byte_ok (endIP a);
}.

(** The operations of the allocator, as its callers and its two goroutines
    invoke them. *)
Inductive alloc_step : IPAllocator → IPAllocator → Prop :=
  | as_pool first last a : alloc_step a ((SetIPPool first last a).1)
  | as_mask mask a : alloc_step a ((SetSubnetMask mask a).1)
  | as_alloc now d a a' vip : AllocateByDeviceID now d a = Some (a', vip) → alloc_step a a'
  | as_active vip a : alloc_step a (MarkLeaseActive vip a)
  | as_release vip a : alloc_step a (ReleaseByVirtualIP vip a)
  | as_reap now order a : alloc_step a (reapExpiredLeases now order a).

Lemma ip4_bytes_ok a : ip4_ok a → Forall byte_ok (ip4_bytes a).
Proof. destruct a as [[[a0 a1] a2] a3]. intros (?&?&?&?). all_bytes. Qed.

Lemma nextIP_bytes ip ip' : Forall byte_ok ip → nextIP ip = Some ip' → Forall byte_ok ip'.
Proof.
  intros Hb Hn. destruct (To4 ip) as [a|] eqn:E; [|by unfold nextIP in Hn; rewrite E in Hn].
  destruct (nextIP_num ip a E) as (b & Hn' & Hok & _); [by eapply To4_ok|].
  rewrite Hn in Hn'. injection Hn' as ->. by apply ip4_bytes_ok.
Qed.

Lemma ipLessOrEqual_To4 x y : ipLessOrEqual x y = true → ∃ a, To4 x = Some a.
Proof. unfold ipLessOrEqual. destruct (To4 x) as [a|]; [by exists a|done]. Qed.

(** What the search returns: an address not in use, or nothing. *)
Lemma pick_loop_spec fuel used last next vip next' :
  pick_loop fuel used last next = Some (vip, next') →
  (∀ ip, next = Some ip → Forall byte_ok ip) →
  (∀ ip, next' = Some ip → Forall byte_ok ip) ∧ (vip ≠ EmptyString → vip ∉ used).
Proof.
  revert next. induction fuel as [|fuel IH]; intros next; cbn [pick_loop]; [done|].
  destruct next as [ip|]; [|by intros [= <- <-]]. intros H Hb. specialize (Hb ip eq_refl).
  destruct (ipLessOrEqual ip last); [|by injection H as <- <-; split; [intros ? [= <-]|]].
  destruct (bool_decide_reflect (IPString ip ∈ used)).
  - apply (IH _ H). intros. by eapply nextIP_bytes.
  - injection H as <- <-. split; [intros; by eapply nextIP_bytes|done].
Qed.

(** *** Preservation *)

Lemma wf_NewIPAllocator : alloc_wf NewIPAllocator.
Proof.
  split; cbn.
  - intros. by rewrite !lookup_empty.
  - intros v. rewrite lookup_empty. split; [set_solver|by intros []].
  - intros v. rewrite lookup_empty. split; [set_solver|by intros []].
  - constructor.
  - set_solver.
  - set_solver.
  - intros ip [= <-]. all_bytes.
  - all_bytes.
Qed.

Lemma wf_SetIPPool first last a : alloc_wf a → alloc_wf (SetIPPool first last a).1.
Proof.
  intros Hwf. unfold SetIPPool. destruct (ParseIP first) as [s|] eqn:Hs; [|done].
  destruct (ParseIP last) as [e|] eqn:He; [|done]. cbn.
  split; cbn; try done; intros; rewrite ?lookup_empty; try set_solver.
  - constructor.
  - simplify_eq. by eapply ParseIP_bytes.
  - by eapply ParseIP_bytes.
Qed.

Lemma wf_SetSubnetMask mask a : alloc_wf a → alloc_wf (SetSubnetMask mask a).1.
Proof. intros []. unfold SetSubnetMask. repeat case_match; done. Qed.

Lemma wf_set_lease vip t a :
  alloc_wf a → vip ∈ usedIPs a → alloc_wf (a <| leases ::= <[vip := t]> |>).
Proof.
  intros [] Hv. split; cbn; try done. intros v. rewrite aw_used_lease0, lookup_insert_is_Some.
  destruct (decide (vip = v)) as [->|]; [|naive_solver].
  rewrite <- aw_used_lease0. naive_solver.
Qed.

Lemma wf_renew now vip a : alloc_wf a → vip ∈ usedIPs a → alloc_wf (renewLeaseLocked now vip a).
Proof.
  intros Hwf Hv. unfold renewLeaseLocked. repeat case_match; try done; by apply wf_set_lease.
Qed.

Lemma wf_MarkLeaseActive vip a : alloc_wf a → alloc_wf (MarkLeaseActive vip a).
Proof.
  intros Hwf. unfold MarkLeaseActive. repeat case_match; try done. apply wf_set_lease; [done|].
  apply (aw_used_lease _ Hwf). eauto.
Qed.

Lemma device_vip_used a d v : alloc_wf a → deviceIP a !! d = Some v → v ∈ usedIPs a.
Proof. intros Hwf H. apply (aw_used_dev _ Hwf). apply (aw_dev _ Hwf) in H. eauto. Qed.

(** The state after [vip] is taken by [d]: [f] what is left of the free list,
    [n] the cursor. *)
Definition taken (now : time) (d vip : string) (f : list string) (n : option (list Z))
    (a : IPAllocator) : IPAllocator :=
  a <| freeIPs := f |> <| next_ip := n |> <| usedIPs ::= union {[vip]} |>
    <| leases ::= <[vip := time_add now (leaseTTL a)]> |>
    <| deviceIP ::= <[d := vip]> |> <| vipToDevice ::= <[vip := d]> |>.

(** What [AllocateByDeviceID] does for a device it does not know. *)
Lemma allocate_cases now d a a' vip :
  AllocateByDeviceID now d a = Some (a', vip) → alloc_wf a → deviceIP a !! d = None →
  (vip = EmptyString ∧ freeIPs a = [] ∧ ∃ n, a' = a <| next_ip := n |> ∧
     pick_loop (pick_fuel (usedIPs a)) (usedIPs a) (endIP a) (next_ip a) = Some (EmptyString, n))
  ∨ (vip ≠ EmptyString ∧ ∃ f n, a' = taken now d vip f n a ∧
      ((freeIPs a = (f ++ [vip])%list ∧ n = next_ip a) ∨
       (freeIPs a = [] ∧ f = [] ∧
        pick_loop (pick_fuel (usedIPs a)) (usedIPs a) (endIP a) (next_ip a) = Some (vip, n)))).
Proof.
  intros H Hwf Hd. unfold AllocateByDeviceID in H. rewrite Hd in H.
  unfold pickFreeLocked in H.
  destruct (freeIPs a) as [|x l _] eqn:Hf using rev_ind.
  - cbn [last] in H.
    destruct (pick_loop _ _ _ _) as [[v n]|] eqn:Hp; [|done].
    case_bool_decide as Hv.
    + subst v. cbn in H. injection H as <- <-. left. split_and!; [done..|]. by exists n.
    + rewrite bool_decide_false in H by done. injection H as <- <-. right. split; [done|].
      exists [], n. split; [|by right]. destruct a; cbn in *; by subst.
  - rewrite last_snoc, removelast_last in H.
    assert (x ≠ EmptyString) as Hx.
    { intros ->. destruct (aw_nonempty _ Hwf) as [_ Hne]. apply Hne. rewrite Hf. set_solver. }
    rewrite bool_decide_false in H by done. rewrite bool_decide_false in H by done.
    injection H as <- <-. right. split; [done|]. exists l, (next_ip a). split; [|by left].
    destruct a; done.
Qed.

Lemma wf_taken now d vip f n a :
  alloc_wf a → deviceIP a !! d = None → vip ∉ usedIPs a → vip ≠ EmptyString →
  NoDup f → (∀ v, v ∈ f → v ∈ freeIPs a ∧ v ≠ vip) →
  (∀ ip, n = Some ip → Forall byte_ok ip) → alloc_wf (taken now d vip f n a).
Proof.
  intros [] Hd Hu Hne Hf Hfs Hn.
  assert (vipToDevice a !! vip = None) as Hv.
  { apply eq_None_not_Some. by rewrite <- aw_used_dev0. }
  split; cbn; try done.
  - intros d' v. destruct (decide (d = d')) as [->|Hdd], (decide (vip = v)) as [->|Hvv].
    + by rewrite !lookup_insert_eq.
    + rewrite lookup_insert_eq, lookup_insert_ne by done. rewrite <- aw_dev0. naive_solver.
    + rewrite lookup_insert_eq, lookup_insert_ne, aw_dev0 by done. naive_solver.
    + by rewrite !lookup_insert_ne by done.
  - intros v. rewrite lookup_insert_is_Some, <- aw_used_dev0. destruct (decide (vip = v)); set_solver.
  - intros v. rewrite lookup_insert_is_Some, <- aw_used_lease0. destruct (decide (vip = v)); set_solver.
  - intros v [Hvf Hvn]%Hfs. apply aw_free_used0 in Hvf. set_solver.
  - split; [set_solver|]. intros [Hvf _]%Hfs. by apply aw_nonempty0.
Qed.

Lemma wf_allocate now d a a' vip :
  AllocateByDeviceID now d a = Some (a', vip) → alloc_wf a → alloc_wf a'.
Proof.
  intros H Hwf. destruct (deviceIP a !! d) as [v|] eqn:Hd.
  { unfold AllocateByDeviceID in H. rewrite Hd in H. injection H as <- <-.
    apply wf_renew; [done|]. by eapply device_vip_used. }
  destruct (allocate_cases _ _ _ _ _ H Hwf Hd) as [(-> & Hf & n & -> & Hp)|(Hv & f & n & -> & Hcase)].
  - apply pick_loop_spec in Hp as [Hn _]; [|apply Hwf]. by destruct Hwf; split.
  - pose proof (aw_free_nodup _ Hwf) as Hnd.
    destruct Hcase as [[Hf ->]|(Hf & -> & Hp)].
    + rewrite Hf in Hnd. apply NoDup_app in Hnd as (Hnd & Hsep & _).
      apply wf_taken; try done; [apply (aw_free_used _ Hwf); rewrite Hf; set_solver| |apply Hwf].
      rewrite Hf. intros v Hvf. specialize (Hsep v Hvf). set_solver.
    + apply pick_loop_spec in Hp as [Hn Hu]; [|apply Hwf].
      apply wf_taken; try done; [by apply Hu|constructor|]. intros v Hvf. by apply elem_of_nil in Hvf.
Qed.

(** The release of an address in use. *)
Lemma release_used vip a d :
  alloc_wf a → vipToDevice a !! vip = Some d →
  releaseVIPLocked vip a
  = a <| freeIPs ::= (λ l, (l ++ [vip])%list) |> <| usedIPs ::= (λ u, u ∖ {[vip]}) |>
      <| leases ::= delete vip |> <| deviceIP ::= delete d |> <| vipToDevice ::= delete vip |>.
Proof.
  intros Hwf Hd. unfold releaseVIPLocked. rewrite Hd. cbn.
  assert (vip ∈ usedIPs a) as Hu by (apply (aw_used_dev _ Hwf); eauto).
  rewrite bool_decide_true by done. unfold appendFreeLocked. cbn.
  rewrite bool_decide_false; [done|]. intros Hf. by apply (aw_free_used _ Hwf) in Hf.
Qed.

(** The release of any other address changes nothing. *)
Lemma release_unused vip a : alloc_wf a → vipToDevice a !! vip = None → releaseVIPLocked vip a = a.
Proof.
  intros Hwf Hd. unfold releaseVIPLocked. rewrite Hd. cbn.
  assert (vip ∉ usedIPs a) as Hu by (rewrite (aw_used_dev _ Hwf), Hd; by intros []).
  rewrite bool_decide_false by done. rewrite delete_id; [by destruct a|].
  apply eq_None_not_Some. by rewrite <- (aw_used_lease _ Hwf).
Qed.

Lemma wf_release vip a : alloc_wf a → alloc_wf (releaseVIPLocked vip a).
Proof.
  intros Hwf. destruct (vipToDevice a !! vip) as [d|] eqn:Hd; [|by rewrite release_unused].
  rewrite (release_used vip a d) by done. destruct Hwf as [Hdev Hud Hul Hnd Hfu [Hu0 Hf0] Hnx Hls].
  assert (vip ∈ usedIPs a) as Hu by (apply Hud; eauto).
  pose proof (proj2 (Hdev d vip) Hd) as Hd'.
  split; cbn; try done.
  - intros d' v. rewrite !lookup_delete_Some, (Hdev d' v). split; intros [Hne E]; (split; [|done]); intros ->.
    + rewrite E in Hd. by injection Hd as ->.
    + apply Hdev in E. rewrite Hd' in E. by injection E as ->.
  - intros v. rewrite elem_of_difference, Hud, lookup_delete_is_Some. set_solver.
  - intros v. rewrite elem_of_difference, Hul, lookup_delete_is_Some. set_solver.
  - apply NoDup_app. split_and!; [done| |apply NoDup_singleton].
    intros v Hf ->%list_elem_of_singleton. by apply Hfu in Hf.
  - intros v. rewrite elem_of_app, list_elem_of_singleton. intros [Hf| ->]; [apply Hfu in Hf|]; set_solver.
  - split; [set_solver|]. rewrite elem_of_app, list_elem_of_singleton. intros [?|<-]; done.
Qed.

Lemma wf_reap_one now a vip : alloc_wf a → alloc_wf (reap_one now a vip).
Proof. intros Hwf. unfold reap_one. repeat case_match; try done. by apply wf_release. Qed.

Lemma wf_reap now order a : alloc_wf a → alloc_wf (reapExpiredLeases now order a).
Proof.
  revert a. induction order as [|v order IH]; intros a Hwf; [done|]. cbn. by apply IH, wf_reap_one.
Qed.

Lemma wf_step a a' : alloc_step a a' → alloc_wf a → alloc_wf a'.
Proof.
  intros []; eauto using wf_SetIPPool, wf_SetSubnetMask, wf_allocate, wf_MarkLeaseActive, wf_release, wf_reap.
Qed.

(** C18: whatever sequence of operations runs on the allocator, its two indices
    stay inverse to each other, the addresses in use are exactly those with a
    device and exactly those with a lease, and no free address is in use or
    listed twice; in particular two devices never hold the same address. *)
Theorem allocator_invariant a :
  rtc alloc_step NewIPAllocator a →
  alloc_wf a ∧ ∀ d1 d2 vip, deviceIP a !! d1 = Some vip → deviceIP a !! d2 = Some vip → d1 = d2.
Proof.
  intros Hr. assert (alloc_wf a) as Hwf.
  { assert (alloc_wf NewIPAllocator) as H0 by apply wf_NewIPAllocator. revert H0.
    induction Hr; eauto using wf_step. }
  split; [done|]. intros d1 d2 vip H1 H2. apply (aw_dev _ Hwf) in H1, H2. congruence.
Qed.

Lemma allocator_invariant_witness :
  ∃ a, deviceIP a !! "d1"%string = Some "10.0.0.100"%string ∧
    ∀ d, deviceIP a !! d = Some "10.0.0.100"%string → d = "d1"%string.
Proof.
  destruct (AllocateByDeviceID 0 "d1" NewIPAllocator) as [[a vip]|] eqn:E; [|vm_compute in E; discriminate].
  exists a. assert (deviceIP a !! "d1"%string = Some "10.0.0.100"%string) as Hd
    by (vm_compute in E; injection E as <- <-; reflexivity).
  split; [exact Hd|]. intros d H.
  apply (proj2 (allocator_invariant a (rtc_once _ _ (as_alloc 0 "d1" _ _ _ E))) d "d1" _ H Hd).
Defined.

(** ** Termination of the search *)

(** A search that runs out of fuel has seen [fuel] consecutive addresses in use. *)
Lemma pick_loop_exhausted fuel used last x a :
  pick_loop fuel used last (Some x) = None → To4 x = Some a → ip4_ok a →
  ∀ k, (k < fuel)%nat → addr ((ip4_num a + Z.of_nat k) mod 2 ^ 32) ∈ used.
Proof.
  revert x a. induction fuel as [|fuel IH]; intros x a H Hx Ha k Hk; [lia|]. cbn [pick_loop] in H.
  destruct (ipLessOrEqual x last); [|done].
  destruct (bool_decide_reflect (IPString x ∈ used)) as [Hin|]; [|done].
  pose proof (ip4_num_range a Ha) as Hr.
  destruct k as [|k].
  - rewrite Z.add_0_r, Z.mod_small, addr_num by done. by rewrite <- (IPString_To4 x).
  - destruct (nextIP_num x a Hx Ha) as (b & Hn & Hb & Hnum). rewrite Hn in H.
    specialize (IH _ b H (To4_bytes b) Hb k ltac:(lia)). rewrite Hnum in IH.
    rewrite Z.add_mod_idemp_l in IH by done.
    replace (ip4_num a + Z.of_nat (S k)) with (ip4_num a + 1 + Z.of_nat k) by lia. done.
Qed.

Lemma pick_loop_total used last next :
  (∀ ip, next = Some ip → Forall byte_ok ip) → Z.of_nat (size used) < 2 ^ 32 →
  pick_loop (pick_fuel used) used last next ≠ None.
Proof.
  intros Hb Hsz H. unfold pick_fuel in H. destruct next as [x|]; [|done].
  destruct (To4 x) as [a|] eqn:Hx.
  2: { cbn [pick_loop] in H. unfold ipLessOrEqual in H. by rewrite Hx in H. }
  assert (ip4_ok a) as Ha by (eapply To4_ok; [by apply Hb|done]).
  pose proof (pick_loop_exhausted _ _ _ _ _ H Hx Ha) as Hall.
  set (f := λ k : nat, addr ((ip4_num a + Z.of_nat k) mod 2 ^ 32)).
  pose proof (NoDup_fmap_2_strong f (seq 0 (S (size used)))) as Hnd.
  assert (NoDup (f <$> seq 0 (S (size used)))) as Hd.
  { apply Hnd; [|apply NoDup_seq]. intros i j Hi%elem_of_seq Hj%elem_of_seq E.
    pose proof (Z.mod_pos_bound (ip4_num a + Z.of_nat i) (2 ^ 32) ltac:(lia)).
    pose proof (Z.mod_pos_bound (ip4_num a + Z.of_nat j) (2 ^ 32) ltac:(lia)).
    apply addr_inj in E; [|done..].
    pose proof (Z.div_mod (ip4_num a + Z.of_nat i) (2 ^ 32) ltac:(lia)).
    pose proof (Z.div_mod (ip4_num a + Z.of_nat j) (2 ^ 32) ltac:(lia)). nia. }
  assert (list_to_set (f <$> seq 0 (S (size used))) ⊆ used) as Hsub.
  { intros v. rewrite elem_of_list_to_set, list_elem_of_fmap. intros (k & -> & Hk%elem_of_seq).
    apply Hall. lia. }
  apply subseteq_size in Hsub. rewrite size_list_to_set in Hsub by done.
  rewrite length_fmap, length_seq in Hsub. lia.
Qed.

(** The search for a free address terminates: with fewer than 2^32 addresses
    in use, [AllocateByDeviceID] returns, for every pool, also one that ends at
    255.255.255.255, where [nextIP] wraps around. *)
Theorem allocation_terminates now d a :
  alloc_wf a → Z.of_nat (size (usedIPs a)) < 2 ^ 32 → is_Some (AllocateByDeviceID now d a).
Proof.
  intros Hwf Hsz. pose proof (pick_loop_total _ (endIP a) _ (aw_next _ Hwf) Hsz) as Ht.
  unfold AllocateByDeviceID, pickFreeLocked.
  destruct (deviceIP a !! d); [by eexists|]. destruct (last (freeIPs a)).
  - repeat case_match; naive_solver.
  - destruct (pick_loop _ _ _ _) as [[v n]|]; [|done]. repeat case_match; naive_solver.
Qed.

Lemma allocation_terminates_witness :
  is_Some (AllocateByDeviceID 0 "d" (SetIPPool "255.255.255.255" "255.255.255.255" NewIPAllocator).1).
Proof.
  apply allocation_terminates.
  - apply wf_SetIPPool, wf_NewIPAllocator.
  - vm_compute. reflexivity.
Defined.

(** ** The pool as a partial map from devices to addresses

    The specification knows only which device holds which address of the pool
    [s..e]; the allocator has to be able to hand out every one of them. *)

Definition pool_addr (s e : Z) (v : string) : Prop := ∃ k, s <= k <= e ∧ v = addr k.

Inductive pool_alloc (s e : Z) (m : gmap string string) (d : string)
    : string → gmap string string → Prop :=
  | pa_known v : m !! d = Some v → pool_alloc s e m d v m
  | pa_fresh v : m !! d = None → pool_addr s e v → (∀ d', m !! d' ≠ Some v) →
      pool_alloc s e m d v (<[d := v]> m)
  | pa_full : m !! d = None → (∀ v, pool_addr s e v → ∃ d', m !! d' = Some v) →
      pool_alloc s e m d EmptyString m.

(** The books: the addresses in use and the free ones are those below the
    cursor; nothing of the pool is lost. *)
Record accounts (s e : Z) (a : IPAllocator) : Prop := mk_accounts {
  ac_range : 0 <= s ∧ e < 2 ^ 32 - 1;
  ac_last : ∃ l, To4 (endIP a) = Some l ∧ ip4_ok l ∧ ip4_num l = e;
  ac_next : ∃ x n, next_ip a = Some x ∧ To4 x = Some n ∧ ip4_ok n ∧
    s <= ip4_num n ∧ (ip4_num n <= e + 1 ∨ ip4_num n = s) ∧
    ∀ v, (v ∈ usedIPs a ∨ v ∈ freeIPs a) ↔ ∃ k, s <= k < ip4_num n ∧ v = addr k;
}.

Lemma accounts_SetIPPool first last a s e s4 e4 :
  ParseIP first = Some s → ParseIP last = Some e → To4 s = Some s4 → To4 e = Some e4 →
  ip4_num e4 < 2 ^ 32 - 1 →
  accounts (ip4_num s4) (ip4_num e4) (SetIPPool first last a).1.
Proof.
  intros Hs He Hs4 He4 Hlt. unfold SetIPPool. rewrite Hs, He. cbn.
  assert (ip4_ok s4) as Hsok by exact (To4_ok _ _ (ParseIP_bytes _ _ Hs) Hs4).
  assert (ip4_ok e4) as Heok by exact (To4_ok _ _ (ParseIP_bytes _ _ He) He4).
  pose proof (ip4_num_range _ Hsok).
  split; cbn; [lia|by exists e4|]. exists s, s4. split_and!; try done; [by right|].
  intros v. split; [set_solver|]. intros (k & Hk & _). lia.
Qed.

(** With the books in order the search ends at once: below the end of the pool
    the cursor is on a fresh address. *)
Lemma pick_next s e a x n fuel :
  accounts s e a → next_ip a = Some x → To4 x = Some n → ip4_ok n →
  pick_loop (S fuel) (usedIPs a) (endIP a) (next_ip a)
  = if ip4_num n <=? e then Some (addr (ip4_num n), nextIP x) else Some (EmptyString, Some x).
Proof.
  intros [Hr (l & Hl & Hlok & <-) (x' & n' & Hx' & Hn' & _ & Hs & He & Hset)] Hx Hn Hok.
  rewrite Hx in Hx'. injection Hx' as <-. rewrite Hn in Hn'. injection Hn' as <-.
  pose proof (ip4_num_range n Hok) as Hnr.
  rewrite Hx. cbn [pick_loop]. rewrite (ipLessOrEqual_num x (endIP a) n l) by done.
  destruct (Z.leb_spec (ip4_num n) (ip4_num l)); [|done].
  rewrite (IPString_To4 x n), <- addr_num by done.
  rewrite bool_decide_false; [done|]. intros Hu.
  destruct (proj1 (Hset _) (or_introl Hu)) as (k & Hk & E). apply addr_inj in E; lia.
Qed.

Lemma used_device a v : alloc_wf a → v ∈ usedIPs a ↔ ∃ d, deviceIP a !! d = Some v.
Proof.
  intros Hwf. rewrite (aw_used_dev _ Hwf). unfold is_Some.
  split; intros [d H]; exists d; by apply (aw_dev _ Hwf).
Qed.

Lemma accounts_renew s e now vip a : accounts s e a → accounts s e (renewLeaseLocked now vip a).
Proof. intros []. unfold renewLeaseLocked. repeat case_match; done. Qed.

(** The pool and the books once a fresh address is taken, from the free list or
    from the cursor. *)
Lemma take_free s e now d vip f a :
  alloc_wf a → accounts s e a → freeIPs a = (f ++ [vip])%list →
  (vip ∉ usedIPs a) ∧ pool_addr s e vip ∧ accounts s e (taken now d vip f (next_ip a) a).
Proof.
  intros Hwf [Hr Hl (x & n & Hx & Hn & Hok & Hs & He & Hset)] Hf.
  assert (vip ∈ freeIPs a) as Hvf by (rewrite Hf; set_solver).
  split_and!; [by apply (aw_free_used _ Hwf)| |].
  - destruct (proj1 (Hset vip) (or_intror Hvf)) as (k & Hk & ->). exists k. split; [lia|done].
  - split; cbn; [done|done|]. exists x, n. split_and!; try done.
    intros v. rewrite <- Hset, Hf. set_solver.
Qed.

Lemma take_next s e now d x n a :
  accounts s e a → next_ip a = Some x → To4 x = Some n → ip4_ok n → ip4_num n <= e → freeIPs a = [] →
  (addr (ip4_num n) ∉ usedIPs a) ∧ pool_addr s e (addr (ip4_num n)) ∧
  accounts s e (taken now d (addr (ip4_num n)) [] (nextIP x) a).
Proof.
  intros [Hr Hl (x' & n' & Hx' & Hn' & _ & Hs & He & Hset)] Hx Hn Hok Hle Hf.
  rewrite Hx in Hx'. injection Hx' as <-. rewrite Hn in Hn'. injection Hn' as <-.
  pose proof (ip4_num_range n Hok) as Hnr.
  destruct (nextIP_num x n Hn Hok) as (b & Hb & Hbok & Hnum).
  rewrite Z.mod_small in Hnum by lia.
  split_and!; [|exists (ip4_num n); split; [lia|done]|].
  - intros Hu. destruct (proj1 (Hset _) (or_introl Hu)) as (k & Hk & E). apply addr_inj in E; lia.
  - split; cbn; [done|done|]. exists (ip4_bytes b), b. rewrite Hnum.
    split_and!; try done; [apply To4_bytes|lia|lia|].
    intros v. transitivity (v = addr (ip4_num n) ∨ (v ∈ usedIPs a ∨ v ∈ freeIPs a));
      [rewrite Hf; set_solver|]. rewrite Hset. split.
    + intros [->|(k & Hk & ->)]; [exists (ip4_num n)|exists k]; (split; [lia|done]).
    + intros (k & Hk & ->). destruct (decide (k = ip4_num n)) as [->|]; [by left|right].
      exists k. split; [lia|done].
Qed.

(** C17: the allocator implements the pool of addresses [s..e]: a device that has
    an address gets the same one, a new device gets one of the pool that nobody
    holds, and the answer is empty only when every address of the pool is held by
    some device (so no released address is ever lost); the books stay in order. *)
Theorem allocate_refines_pool s e now d a :
  alloc_wf a → accounts s e a →
  ∃ a' vip, AllocateByDeviceID now d a = Some (a', vip) ∧
    pool_alloc s e (deviceIP a) d vip (deviceIP a') ∧ alloc_wf a' ∧ accounts s e a'.
Proof.
  intros Hwf Hac. pose proof Hac as [Hr Hl (x & n & Hx & Hn & Hok & Hs & He & Hset)].
  pose proof (pick_next s e a x n (size (usedIPs a)) Hac Hx Hn Hok) as Hpick.
  assert (∃ r, AllocateByDeviceID now d a = Some r) as [[a' vip] Hal].
  { unfold AllocateByDeviceID, pickFreeLocked, pick_fuel. rewrite Hpick.
    destruct (deviceIP a !! d); [by eexists|].
    destruct (last (freeIPs a)); [|destruct (_ <=? _)]; repeat case_match; naive_solver. }
  exists a', vip. split; [done|]. pose proof (wf_allocate _ _ _ _ _ Hal Hwf) as Hwf'.
  destruct (deviceIP a !! d) as [v|] eqn:Hd.
  { unfold AllocateByDeviceID in Hal. rewrite Hd in Hal. injection Hal as <- <-.
    split_and!; [|done|by apply accounts_renew]. unfold renewLeaseLocked.
    repeat case_match; by constructor. }
  destruct (allocate_cases _ _ _ _ _ Hal Hwf Hd) as [(-> & Hf & n' & -> & Hp)|(Hv & f & n' & -> & Hcase)].
  - unfold pick_fuel in Hp. rewrite Hpick in Hp.
    destruct (Z.leb_spec (ip4_num n) e); [by injection Hp as ?%addr_nonempty|]. injection Hp as <-.
    split_and!; [|done|by split; [..|exists x, n]]. apply pa_full; [done|].
    intros v (k & Hk & ->). apply used_device; [done|].
    destruct (proj2 (Hset (addr k))) as [Hu|Hu]; [exists k; split; [lia|done]|done|].
    rewrite Hf in Hu. by apply elem_of_nil in Hu.
  - assert ((vip ∉ usedIPs a) ∧ pool_addr s e vip ∧ accounts s e (taken now d vip f n' a)) as (Hu & Hpa & Hac').
    { destruct Hcase as [[Hf ->]|(Hf & -> & Hp)]; [by apply take_free|].
      unfold pick_fuel in Hp. rewrite Hpick in Hp.
      destruct (Z.leb_spec (ip4_num n) e); [|by injection Hp as <-]. injection Hp as <- <-.
      by apply take_next. }
    split_and!; [|done|done]. apply pa_fresh; [done|done|]. intros d' Hd'. apply Hu, used_device; eauto.
Qed.

Lemma allocate_refines_pool_witness :
  ∃ a' vip, AllocateByDeviceID 0 "d1" (SetIPPool "10.0.0.7" "10.0.0.7" NewIPAllocator).1 = Some (a', vip) ∧
    pool_alloc (ip4_num (10, 0, 0, 7)) (ip4_num (10, 0, 0, 7)) ∅ "d1" vip (deviceIP a').
Proof.
  assert (accounts (ip4_num (10, 0, 0, 7)) (ip4_num (10, 0, 0, 7))
            (SetIPPool "10.0.0.7" "10.0.0.7" NewIPAllocator).1) as A0.
  { apply (accounts_SetIPPool "10.0.0.7" "10.0.0.7" NewIPAllocator (v4_mapped_prefix ++ [10; 0; 0; 7])%list
      (v4_mapped_prefix ++ [10; 0; 0; 7])%list (10, 0, 0, 7) (10, 0, 0, 7)); vm_compute; reflexivity. }
  destruct (allocate_refines_pool _ _ 0 "d1" _ (wf_SetIPPool _ _ _ wf_NewIPAllocator) A0)
    as (a' & vip & H1 & H2 & _).
  exists a', vip. split; [exact H1|exact H2].
Defined.

(** ** Release and reclamation *)

Lemma accounts_release s e vip a : alloc_wf a → accounts s e a → accounts s e (releaseVIPLocked vip a).
Proof.
  intros Hwf [Hr Hl (x & n & Hx & Hn & Hok & Hs & He & Hset)].
  destruct (vipToDevice a !! vip) as [d|] eqn:Hd.
  2: { rewrite release_unused by done. split; [done|done|]. by exists x, n. }
  rewrite (release_used vip a d) by done. split; cbn; [done|done|]. exists x, n. split_and!; try done.
  intros v. rewrite <- Hset. assert (vip ∈ usedIPs a) by (apply (aw_used_dev _ Hwf); eauto).
  destruct (decide (v = vip)) as [->|]; set_solver.
Qed.

(** Releasing an address takes it from its device, and from nobody else. *)
Lemma release_deviceIP vip a d :
  alloc_wf a →
  deviceIP (releaseVIPLocked vip a) !! d
  = match deviceIP a !! d with Some v => if bool_decide (v = vip) then None else Some v | None => None end.
Proof.
  intros Hwf. destruct (vipToDevice a !! vip) as [d'|] eqn:Hd.
  - rewrite (release_used vip a d') by done. cbn. pose proof Hd as Hd'. apply (aw_dev _ Hwf) in Hd'.
    destruct (decide (d' = d)) as [->|Hne].
    + by rewrite lookup_delete_eq, Hd', bool_decide_true.
    + rewrite lookup_delete_ne by done. destruct (deviceIP a !! d) as [v|] eqn:Hv; [|done].
      case_bool_decide as E; [|done]. subst v. apply (aw_dev _ Hwf) in Hv. congruence.
  - rewrite release_unused by done. destruct (deviceIP a !! d) as [v|] eqn:Hv; [|done].
    case_bool_decide as E; [|done]. subst v. apply (aw_dev _ Hwf) in Hv. congruence.
Qed.

Definition expired_lease (now : time) (exp : time) : bool := negb (IsZero exp || time_before now exp).

Lemma reap_one_leases now a vip v :
  alloc_wf a →
  leases (reap_one now a vip) !! v
  = match leases a !! v with
    | Some exp => if bool_decide (v = vip) && expired_lease now exp then None else Some exp
    | None => None
    end.
Proof.
  intros Hwf. unfold reap_one, expired_lease. destruct (leases a !! vip) as [exp|] eqn:Hl.
  2: { destruct (leases a !! v) eqn:Hv; [|done]. by rewrite bool_decide_false by congruence. }
  assert (∃ d, vipToDevice a !! vip = Some d) as [d Hd].
  { apply (aw_used_dev _ Hwf), (aw_used_lease _ Hwf). eauto. }
  destruct (IsZero exp || time_before now exp) eqn:Ht.
  - destruct (leases a !! v) as [exp'|] eqn:Hv; [|done].
    case_bool_decide as E; [|done]. subst v. rewrite Hl in Hv. injection Hv as <-. by rewrite Ht.
  - rewrite (release_used vip a d) by done. cbn. destruct (decide (vip = v)) as [<-|Hne].
    + by rewrite lookup_delete_eq, Hl, bool_decide_true, Ht.
    + rewrite lookup_delete_ne by done. destruct (leases a !! v); [|done]. by rewrite bool_decide_false by congruence.
Qed.

Lemma reap_leases now order a v :
  alloc_wf a →
  leases (reapExpiredLeases now order a) !! v
  = match leases a !! v with
    | Some exp => if bool_decide (v ∈ order) && expired_lease now exp then None else Some exp
    | None => None
    end.
Proof.
  revert a. induction order as [|w order IH]; intros a Hwf; cbn.
  { destruct (leases a !! v); [|done]. by rewrite bool_decide_false by set_solver. }
  change (foldl (reap_one now) (reap_one now a w) order)
    with (reapExpiredLeases now order (reap_one now a w)).
  rewrite IH, reap_one_leases by auto using wf_reap_one.
  destruct (leases a !! v) as [exp|]; [|done].
  destruct (expired_lease now exp) eqn:He.
  - destruct (decide (v = w)) as [->|Hne].
    + rewrite (bool_decide_true (w = w)), (bool_decide_true (w ∈ w :: order)) by set_solver. done.
    + rewrite (bool_decide_false (v = w)) by done. cbn. rewrite He.
      rewrite (bool_decide_ext (v ∈ order) (v ∈ w :: order)); [done|set_solver].
  - rewrite !andb_false_r. by rewrite He, andb_false_r.
Qed.

Lemma IsLeased_used a v : alloc_wf a → IsLeased a v = true ↔ v ∈ usedIPs a.
Proof.
  intros Hwf. unfold IsLeased. rewrite andb_true_iff, negb_true_iff, bool_decide_eq_true, bool_decide_eq_false.
  split; [by intros []|]. intros Hv. split; [|done]. intros ->. by destruct (aw_nonempty _ Hwf).
Qed.

(** A round of the reclamation takes back exactly the leases that ran out
    unclaimed, in whatever order Go visits them: an address a data plane has
    claimed, or whose lease still runs, stays with its device, and any other can be
    handed out again. *)
Theorem reclamation_exact now order a :
  alloc_wf a → (∀ v, is_Some (leases a !! v) → v ∈ order) →
  ∀ v, IsLeased (reapExpiredLeases now order a) v = true ↔
    IsLeased a v = true ∧ ∃ exp, leases a !! v = Some exp ∧ (exp = time_zero ∨ now < exp).
Proof.
  intros Hwf Hall v. pose proof (wf_reap now order a Hwf) as Hwf'.
  rewrite !IsLeased_used, (aw_used_lease _ Hwf'), (aw_used_lease _ Hwf), reap_leases by done.
  destruct (leases a !! v) as [exp|] eqn:Hl.
  2: { split; [intros []; done|intros [[] _]; done]. }
  rewrite bool_decide_true by (apply Hall; eauto). unfold expired_lease, IsZero, time_before.
  destruct (Z.eqb_spec exp time_zero); [|destruct (Z.ltb_spec now exp)]; cbn; split; try (by eauto 6).
  intros [_ (e & [= <-] & [?|?])]; [done|lia].
Qed.

Lemma reclamation_exact_witness :
  ∃ a, IsLeased a "10.0.0.100" = true ∧
    (∃ a1, AllocateByDeviceID 0 "d1" NewIPAllocator = Some (a1, "10.0.0.100"%string) ∧
       (IsLeased (reapExpiredLeases (6 * minute) ["10.0.0.100"%string] a1) "10.0.0.100" = true ↔
        IsLeased a1 "10.0.0.100" = true ∧
        ∃ exp, leases a1 !! "10.0.0.100"%string = Some exp ∧ (exp = time_zero ∨ 6 * minute < exp))).
Proof.
  destruct (AllocateByDeviceID 0 "d1" NewIPAllocator) as [[a1 vip]|] eqn:E; [|vm_compute in E; discriminate].
  assert (vip = "10.0.0.100"%string) as -> by (vm_compute in E; injection E as <- <-; reflexivity).
  assert (alloc_wf a1) as W by (eapply wf_allocate; [exact E|apply wf_NewIPAllocator]).
  exists a1. split; [vm_compute in E; injection E as <-; vm_compute; reflexivity|].
  exists a1. split; [reflexivity|].
  apply (reclamation_exact (6 * minute) ["10.0.0.100"%string] a1 W).
  intros v Hv. apply (aw_used_lease _ W) in Hv.
  assert (usedIPs a1 = {["10.0.0.100"%string]}) as Hu
    by (vm_compute in E; injection E as <-; vm_compute; reflexivity).
  rewrite Hu in Hv. apply elem_of_singleton in Hv as ->. left.
Defined.
