(* ===== verification/VpnAuth.v ===== *)
(** * Authentication of clients and authorisation of data planes
    ([vpn-server/quic/authenticator.go], [CustomAuthenticator])

    A client logs in with [user:password:vn=version]; a data plane is then
    admitted by what the server knows itself: the peer address of the QUIC
    connection, a login from it that is still fresh, and an address the pool
    leased.  Each call reads the clock once. *)

From Stdlib Require Import ZArith Lia Bool Ascii String.
From stdpp Require Import base list gmap sets strings.
From S2P Require Import Prelude.
From S2P Require Import GoNet.
From S2P Require Import GoText.
From S2P Require Import GoStrings.
From S2P Require Import UserStore.
From S2P Require Import IPAlloc.

Open Scope Z_scope.

(** ** What the authenticator asks of the address pool *)

Class LeaseBook (A : Type) := {
  is_leased : A → string → bool;
  mark_active : string → A → A;
  mark_keeps_leases : ∀ v w a, is_leased (mark_active v a) w = is_leased a w;
}.

Lemma IsLeased_MarkLeaseActive v w a : IsLeased (MarkLeaseActive v a) w = IsLeased a w.
Proof. unfold MarkLeaseActive. by repeat case_match. Qed.

#[export] Instance IPAllocator_LeaseBook : LeaseBook IPAllocator := {|
  is_leased := IsLeased; mark_active := MarkLeaseActive; mark_keeps_leases := IsLeased_MarkLeaseActive;
|}.

(** ** Versions *)

Fixpoint version_numbers (parts : list string) : option (list Z) :=
  match parts with
  | [] => Some []
  | p :: parts => match Atoi p with
                  | None => None
                  | Some n => if n <? 0 then None else cons n <$> version_numbers parts
                  end
  end.

Definition parseVersion (v : string) : option (list Z) :=
  if bool_decide (v = EmptyString) then None
  else let parts := Split v "." in
       if negb (length parts =? 3)%nat then None else version_numbers parts.

Fixpoint compare_numbers (a b : list Z) : Z :=
  match a, b with
  | x :: a, y :: b => if x <? y then -1 else if y <? x then 1 else compare_numbers a b
  | _, _ => 0
  end.

Definition compareVersions (a b : string) : Z :=
  match parseVersion a, parseVersion b with
  | Some a, Some b => compare_numbers a b
  | _, _ => 0
  end.

Definition isVersionUnlimited (v : string) : bool :=
  let v := TrimSpace v in bool_decide (v = EmptyString) || bool_decide (v = "0.0.0"%string).

Definition versionMarker : string := ":vn=".

Definition extractVersionAndStrip (auth : string) : string * string :=
  match LastIndex auth versionMarker with
  | None => (auth, EmptyString)
  | Some idx =>
      let version := str_drop (idx + String.length versionMarker) auth in
      match parseVersion version with
      | None => (auth, EmptyString)
      | Some _ => (str_take idx auth, version)
      end
  end.

Definition parseAuth (auth : string) : string * string * bool :=
  match Index auth ":" with
  | Some i => (str_take i auth, str_drop (i + 1) auth, true)
  | None => (EmptyString, auth, false)
  end.

(** ** State *)

Record CustomAuthenticator := mkAuth {
  minClientVersion : string;
  maxClientVersion : string;
  failCount : gmap string Z;
  bannedUntil : gmap string time;
  authorizedKeys : gmap string time;
  vipOwner : gmap string string;
}.
#[export] Instance eta_Auth : Eta CustomAuthenticator := λ a,
  mkAuth (minClientVersion a) (maxClientVersion a) (failCount a) (bannedUntil a)
    (authorizedKeys a) (vipOwner a).

Definition maxFailCount : Z := 5.
Definition banDuration : duration := 10 * minute.
Definition dataPlaneSessionTTL : duration := 10 * minute.

Definition NewCustomAuthenticator (minVer maxVer : string) : CustomAuthenticator :=
  mkAuth (TrimSpace minVer) (TrimSpace maxVer) ∅ ∅ ∅ ∅.

(** [now.After(t)] *)
Definition after (now t : time) : bool := t <? now.

(** ** Failures and bans *)

Definition isBanned (now : time) (ip : string) (a : CustomAuthenticator) : CustomAuthenticator * bool :=
  match bannedUntil a !! ip with
  | None => (a, false)
  | Some until =>
      if after now until then (a <| bannedUntil ::= delete ip |> <| failCount ::= delete ip |>, false)
      else (a, true)
  end.

Definition recordFailure (now : time) (ip : string) (a : CustomAuthenticator) : CustomAuthenticator :=
  let n := default 0 (failCount a !! ip) + 1 in
  let a := a <| failCount ::= <[ip := n]> |> in
  if maxFailCount <=? n then a <| bannedUntil ::= <[ip := time_add now banDuration]> |> else a.

Definition recordSuccess (ip : string) (a : CustomAuthenticator) : CustomAuthenticator :=
  a <| failCount ::= delete ip |> <| bannedUntil ::= delete ip |>.

Definition checkVersion (now : time) (ip clientVersion : string) (a : CustomAuthenticator)
    : CustomAuthenticator * bool :=
  if isVersionUnlimited (minClientVersion a) && isVersionUnlimited (maxClientVersion a) then (a, true)
  else if bool_decide (clientVersion = EmptyString) then (recordFailure now ip a, false)
  else if negb (isVersionUnlimited (minClientVersion a)) && (compareVersions clientVersion (minClientVersion a) <? 0)
  then (recordFailure now ip a, false)
  else if negb (isVersionUnlimited (maxClientVersion a)) && (0 <? compareVersions clientVersion (maxClientVersion a))
  then (recordFailure now ip a, false)
  else (a, true).

(** ** Sessions *)

Definition nul : ascii := "000"%char.
Definition sessionKey (peerIP username : string) : string := peerIP +:+ String nul username.

Definition registerSession (now : time) (peerIP username : string) (a : CustomAuthenticator)
    : CustomAuthenticator :=
  a <| authorizedKeys ::= <[sessionKey peerIP username := time_add now dataPlaneSessionTTL]> |>.

Definition authMultiUser (now : time) (ip username password : string) (st : Store) (a : CustomAuthenticator)
    : CustomAuthenticator * (bool * string) :=
  let refuse := (recordFailure now ip a, (false, EmptyString)) in
  match Get username st with
  | None => refuse
  | Some user =>
      if negb (Enabled user) then refuse
      else if negb (constTimeEqual (Password user) password) then refuse
      else if negb (is_zero (ExpireAt user)) && after now (ExpireAt user) then refuse
      else if (0 <? MaxBytes user) && (MaxBytes user <=? UsedBytes user) then refuse
      else (registerSession now ip username (recordSuccess ip a), (true, username))
  end.

(** [addr]: the text of the address of a [*net.UDPAddr], [None] for another
    kind of address. *)
Definition Authenticate (now : time) (addr : option string) (auth : string) (st : Store)
    (a : CustomAuthenticator) : CustomAuthenticator * (bool * string) :=
  match addr with
  | None => (a, (false, EmptyString))
  | Some ip =>
      let '(a, banned) := isBanned now ip a in
      if banned : bool then (a, (false, EmptyString))
      else
        let '(cleanAuth, clientVersion) := extractVersionAndStrip auth in
        let '(a, ok) := checkVersion now ip clientVersion a in
        if negb ok then (a, (false, EmptyString))
        else
          let '(username, password, isMultiUser) := parseAuth cleanAuth in
          if negb isMultiUser then (recordFailure now ip a, (false, EmptyString))
          else authMultiUser now ip username password st a
  end.

(** ** Data planes *)

Section planes.
  Context {A : Type} `{LeaseBook A}.

(** [between]: what other goroutines do to the pool between the look-up and the
    claim of the lease, which take the pool's lock one after the other. *)
Definition AuthorizeDataPlane_with (between : A → A) (now : time) (peerIP username vip : string)
    (a : CustomAuthenticator) (pool : option A) : CustomAuthenticator * option A * option string :=
  if bool_decide (username = EmptyString) || bool_decide (vip = EmptyString) then (a, pool, None)
  else
    let key := sessionKey peerIP username in
    match authorizedKeys a !! key with
    | None => (a, pool, None)
    | Some expireAt =>
        if after now expireAt then (a <| authorizedKeys ::= delete key |>, pool, None)
        else match pool with
             | None => (a, pool, None)
             | Some al =>
                 if negb (is_leased al vip) then (a, pool, None)
                 else if match vipOwner a !! vip with
                         | Some owner => negb (bool_decide (owner = key))
                         | None => false
                         end
                 then (a, Some (between al), None)
                 else (a <| vipOwner ::= <[vip := key]> |>
                         <| authorizedKeys ::= <[key := time_add now dataPlaneSessionTTL]> |>,
                       Some (mark_active vip (between al)), Some "multi"%string)
             end
    end.

Definition AuthorizeDataPlane := AuthorizeDataPlane_with id.

Definition releaseSession (peerIP username vip : string) (a : CustomAuthenticator) : CustomAuthenticator :=
  if bool_decide (vip = EmptyString) then a
  else if bool_decide (default EmptyString (vipOwner a !! vip) = sessionKey peerIP username)
  then a <| vipOwner ::= delete vip |> else a.

(** One tick of [startCleanupLoop]. *)
Definition auth_cleanup (now : time) (pool : option A) (a : CustomAuthenticator) : CustomAuthenticator :=
  let dead := dom (filter (λ '(_, until), after now until = true) (bannedUntil a)) in
  a <| bannedUntil ::= filter (λ '(ip, _), ip ∉ dead) |>
    <| failCount ::= filter (λ '(ip, _), ip ∉ dead) |>
    <| authorizedKeys ::= filter (λ '(_, until), after now until = false) |>
    <| vipOwner ::= filter (λ '(vip, _), match pool with None => true | Some al => is_leased al vip end = true) |>.

End planes.

Definition AuthorizedKeyCount (a : CustomAuthenticator) : nat := size (authorizedKeys a).
Definition BoundVIPCount (a : CustomAuthenticator) : nat := size (vipOwner a).
Definition SessionCount (a : CustomAuthenticator) : nat := size (authorizedKeys a).

Example auth_string : extractVersionAndStrip "bob:pw:vn=0.2.0" = ("bob:pw", "0.2.0")%string.
Proof. vm_compute. reflexivity. Qed.
Example auth_bad_version : extractVersionAndStrip "bob:pw:vn=bad" = ("bob:pw:vn=bad", "")%string.
Proof. vm_compute. reflexivity. Qed.
Example auth_colon : parseAuth "bob:p:w" = ("bob", "p:w", true)%string.
Proof. vm_compute. reflexivity. Qed.

(** ** Session keys *)

Lemma sessionKey_inj p1 u1 p2 u2 :
  ¬ occurs nul p1 → ¬ occurs nul p2 → sessionKey p1 u1 = sessionKey p2 u2 → p1 = p2 ∧ u1 = u2.
Proof.
  unfold sessionKey. intros H1 H2 E.
  assert (cut_at (p1 +:+ String nul u1) nul = cut_at (p2 +:+ String nul u2) nul) as C by (by rewrite E).
  rewrite !cut_at_app in C by done. by injection C.
Qed.

Lemma sessionKey_nonempty p u : sessionKey p u ≠ EmptyString.
Proof. unfold sessionKey. by destruct p. Qed.

(** ** The authentication string *)

Lemma version_numbers_chars parts ns c :
  version_numbers parts = Some ns → c = ":"%char → ∀ w, w ∈ parts → ¬ occurs c w.
Proof.
  intros H -> w Hw. revert ns H. induction Hw as [p parts|p q parts Hw IH]; intros ns; cbn [version_numbers];
    destruct (Atoi _) as [n|] eqn:Hn; try done; destruct (n <? 0); try done;
    destruct (version_numbers parts) eqn:E; try done; [|by intros _; eapply IH].
  intros _. clear -Hn.
  assert (∀ s acc n, decimal s acc = Some n → ¬ occurs ":" s) as Hdec.
  { clear. induction s as [|d s IH]; intros acc n; cbn [decimal occurs]; [tauto|].
    destruct (digit_val d) eqn:Hd; [|done]. intros H [->|Ho]; [done|]. by eapply IH. }
  assert (∀ s, is_Some (digits s) → ¬ occurs ":" s) as Hdig.
  { intros s [z Hz]. destruct s; [done|]. by eapply Hdec. }
  assert (∀ s, digits s ≠ None → ¬ occurs ":" s) as Hd' by (intros; by apply Hdig, not_eq_None_Some).
  unfold Atoi in Hn. destruct p as [|c p]; [tauto|].
  destruct (decide (c = "+"%char)) as [->|Hp].
  { cbn [occurs]. intros [?|Ho]; [done|]. revert Ho. apply Hd'. intros E. by rewrite E in Hn. }
  destruct (decide (c = "-"%char)) as [->|Hm].
  { cbn [occurs]. intros [?|Ho]; [done|]. revert Ho. apply Hd'. intros E. by rewrite E in Hn. }
  apply Hd'. intros E. destruct c as [[] [] [] [] [] [] [] []]; try done; by rewrite E in Hn.
Qed.

Lemma Split_occurs c s sep : (∀ w, w ∈ Split s sep → ¬ occurs c w) → c ≠ sep → ¬ occurs c s.
Proof.
  induction s as [|d s IH]; cbn [Split occurs]; [tauto|]. intros Hw Hc. case_bool_decide as Hd.
  - intros [->|Ho]; [done|]. revert Ho. apply IH; [|done]. intros w Hin. apply Hw. by right.
  - destruct (Split s sep) as [|x l] eqn:E.
    { destruct s; cbn in E; [done|]. repeat case_match; done. }
    assert (¬ occurs c (String d x)) as Hx by (apply Hw; left). cbn in Hx.
    intros [->|Ho]; [tauto|]. revert Ho. apply IH; [|done].
    intros w [->|Hin]%elem_of_cons; [tauto|]. apply Hw. by right.
Qed.

Lemma parseVersion_no_colon v ns : parseVersion v = Some ns → ¬ occurs ":" v.
Proof.
  unfold parseVersion. case_bool_decide; [done|]. case_match; [done|]. intros Hn.
  apply (Split_occurs _ _ "."); [|done]. by eapply version_numbers_chars.
Qed.

Lemma auth_string_parsed user password version ns :
  parseVersion version = Some ns → ¬ occurs ":" user →
  extractVersionAndStrip (user +:+ ":" +:+ password +:+ ":vn=" +:+ version)
  = (user +:+ ":" +:+ password, version) ∧
  parseAuth (user +:+ ":" +:+ password) = (user, password, true).
Proof.
  intros Hv Hu. unfold extractVersionAndStrip, versionMarker.
  assert ((user +:+ ":" +:+ password +:+ ":vn=" +:+ version)
          = (user +:+ ":" +:+ password) +:+ String ":" ("vn=" +:+ version)) as -> by (by rewrite !str_app_assoc).
  change ":vn="%string with (String ":" "vn=").
  rewrite LastIndex_app; [|by vm_compute; intuition congruence|by eapply parseVersion_no_colon].
  set (pre := user +:+ ":" +:+ password).
  rewrite str_drop_add, str_drop_app. change (str_drop (String.length (String ":" "vn="))
    (String ":" ("vn=" +:+ version))) with version. rewrite Hv, str_take_app. split; [done|].
  unfold parseAuth, pre. change (":" +:+ password) with (String ":" password).
  change ":"%string with (String ":" EmptyString). rewrite Index_char by done.
  rewrite str_take_app, str_drop_add, str_drop_app. done.
Qed.

(** The server reads from the authentication string what the client put in:
    whatever the password, with or without colons or version marks of its own, the
    last version, the user name and the password come out unchanged; a user name
    with a colon would not. *)
Theorem auth_string_roundtrip user password version ns :
  parseVersion version = Some ns → ¬ occurs ":" user →
  let '(clean, v) := extractVersionAndStrip (user +:+ ":" +:+ password +:+ ":vn=" +:+ version) in
  v = version ∧ parseAuth clean = (user, password, true).
Proof.
  intros Hv Hu. destruct (auth_string_parsed user password version ns Hv Hu) as [-> Hp]. by split.
Qed.

Lemma auth_string_roundtrip_witness :
  let '(clean, v) := extractVersionAndStrip ("bob" +:+ ":" +:+ "a:vn=1:b" +:+ ":vn=" +:+ "0.2.0") in
  v = "0.2.0"%string ∧ parseAuth clean = ("bob", "a:vn=1:b", true)%string.
Proof.
  apply (auth_string_roundtrip "bob" "a:vn=1:b" "0.2.0" [0; 2; 0]).
  - vm_compute. reflexivity.
  - vm_compute. intuition congruence.
Defined.

(** ** The order of versions *)

Lemma version_numbers_length parts ns : version_numbers parts = Some ns → length ns = length parts.
Proof.
  revert ns. induction parts as [|p parts IH]; intros ns; cbn [version_numbers]; [by intros [= <-]|].
  destruct (Atoi p); [|done]. destruct (_ <? _); [done|]. destruct (version_numbers parts) as [l|]; [|done].
  intros [= <-]. cbn. by rewrite (IH l).
Qed.

Lemma parseVersion_length v ns : parseVersion v = Some ns → length ns = 3%nat.
Proof.
  unfold parseVersion. case_bool_decide; [done|]. destruct (Nat.eqb_spec (length (Split v ".")) 3) as [E|]; [|done].
  cbn. intros Hn%version_numbers_length. congruence.
Qed.

Lemma compare_numbers_antisym a b : compare_numbers a b = - compare_numbers b a.
Proof.
  revert b. induction a as [|x a IH]; intros [|y b]; try done. cbn.
  destruct (Z.ltb_spec x y), (Z.ltb_spec y x); try lia. apply IH.
Qed.

Lemma compare_numbers_range a b : compare_numbers a b = -1 ∨ compare_numbers a b = 0 ∨ compare_numbers a b = 1.
Proof. revert b. induction a as [|x a IH]; intros [|y b]; cbn; auto. repeat case_match; auto. Qed.

Lemma compare_numbers_eq a b : length a = length b → compare_numbers a b = 0 → a = b.
Proof.
  revert b. induction a as [|x a IH]; intros [|y b]; try done. cbn. intros [= Hl].
  destruct (Z.ltb_spec x y); [done|]. destruct (Z.ltb_spec y x); [done|].
  intros H1. f_equal; [lia|by apply IH].
Qed.

Lemma compare_numbers_trans a b c :
  length a = length b → compare_numbers a b <= 0 → compare_numbers b c <= 0 → compare_numbers a c <= 0.
Proof.
  revert b c. induction a as [|x a IH]; intros [|y b] [|z c]; try done; cbn; try lia. intros [= Hl].
  destruct (Z.ltb_spec x y), (Z.ltb_spec y x), (Z.ltb_spec y z), (Z.ltb_spec z y),
    (Z.ltb_spec x z), (Z.ltb_spec z x); try lia. by eauto.
Qed.

(** On well-formed versions [compareVersions] is a total order: antisymmetric,
    transitive, and 0 exactly on equal numbers; so a client inside the bounds
    set by the administrator is always let in and one outside never. *)
Theorem version_order a b c na nb nc :
  parseVersion a = Some na → parseVersion b = Some nb → parseVersion c = Some nc →
  compareVersions a b = - compareVersions b a ∧
  (compareVersions a b = 0 ↔ na = nb) ∧
  (compareVersions a b <= 0 → compareVersions b c <= 0 → compareVersions a c <= 0).
Proof.
  intros Ha Hb Hc. unfold compareVersions. rewrite Ha, Hb, Hc.
  apply parseVersion_length in Ha, Hb, Hc. split_and!.
  - apply compare_numbers_antisym.
  - split; [apply compare_numbers_eq; congruence|]. intros ->.
    pose proof (compare_numbers_antisym nb nb). lia.
  - apply compare_numbers_trans. congruence.
Qed.

Lemma version_order_witness :
  compareVersions "0.9.0" "0.10.0" = - compareVersions "0.10.0" "0.9.0" ∧
  (compareVersions "0.9.0" "0.10.0" = 0 ↔ [0; 9; 0] = [0; 10; 0]) ∧
  (compareVersions "0.9.0" "0.10.0" <= 0 → compareVersions "0.10.0" "1.0.0" <= 0 →
   compareVersions "0.9.0" "1.0.0" <= 0).
Proof. apply (version_order "0.9.0" "0.10.0" "1.0.0" [0; 9; 0] [0; 10; 0] [1; 0; 0]); vm_compute; reflexivity. Defined.

(** A bound that is not a version of three numbers bounds nothing. *)
Theorem malformed_bound_admits_all now ip v a :
  parseVersion (minClientVersion a) = None → isVersionUnlimited (maxClientVersion a) = true →
  v ≠ EmptyString → checkVersion now ip v a = (a, true).
Proof.
  intros Hmin Hmax Hv. unfold checkVersion, compareVersions. rewrite Hmin, Hmax, bool_decide_false by done.
  cbn. rewrite andb_true_r. destruct (isVersionUnlimited (minClientVersion a)); [done|].
  by destruct (parseVersion v).
Qed.

Lemma malformed_bound_admits_all_witness :
  checkVersion 0 "1.2.3.4" "0.0.1" (NewCustomAuthenticator "1.2" "") = (NewCustomAuthenticator "1.2" "", true).
Proof. apply malformed_bound_admits_all; vm_compute; first [reflexivity | discriminate]. Defined.

(** ** Who is let in *)

Definition version_ok (v : string) (a : CustomAuthenticator) : Prop :=
  (isVersionUnlimited (minClientVersion a) = true ∧ isVersionUnlimited (maxClientVersion a) = true) ∨
  (v ≠ EmptyString ∧
   (isVersionUnlimited (minClientVersion a) = true ∨ 0 <= compareVersions v (minClientVersion a)) ∧
   (isVersionUnlimited (maxClientVersion a) = true ∨ compareVersions v (maxClientVersion a) <= 0)).

Lemma checkVersion_ok now ip v a : (checkVersion now ip v a).2 = true ↔ version_ok v a.
Proof.
  unfold checkVersion, version_ok.
  destruct (isVersionUnlimited (minClientVersion a)), (isVersionUnlimited (maxClientVersion a)); cbn; [tauto|..];
    case_bool_decide; cbn; repeat (case_match; bool_hyps; cbn); (split; [try done|]); intros;
    destruct_and?; destruct_or?; destruct_and?; try done; try lia; right; split_and!; auto.
Qed.

Lemma checkVersion_state now ip v a :
  (checkVersion now ip v a).1 = if (checkVersion now ip v a).2 then a else recordFailure now ip a.
Proof. unfold checkVersion. by repeat case_match. Qed.

Lemma isBanned_false now ip a :
  (isBanned now ip a).2 = false ↔ ∀ until, bannedUntil a !! ip = Some until → until < now.
Proof.
  unfold isBanned, after. destruct (bannedUntil a !! ip) as [u|]; [|by split].
  destruct (Z.ltb_spec u now); cbn; split; try done.
  - intros _ ? [= <-]. done.
  - intros Hu. specialize (Hu u eq_refl). lia.
Qed.

Lemma isBanned_versions now ip v a : version_ok v (isBanned now ip a).1 ↔ version_ok v a.
Proof. unfold isBanned, version_ok. by repeat case_match. Qed.

(** C26: a login succeeds exactly when the address is not banned, the version is
    within the bounds, the user exists, is enabled and has this password, has not
    expired, and is not over the quota the run-time check of the manager kicks
    for; so a user who was kicked for the quota cannot log in again with the same
    counter, and one whom the check leaves alone is not refused for it. *)
Theorem authenticate_exact now ip auth st a user :
  (Authenticate now (Some ip) auth st a).2 = (true, user) ↔
  (∀ until, bannedUntil a !! ip = Some until → until < now) ∧
  version_ok (extractVersionAndStrip auth).2 a ∧
  ∃ pw u, parseAuth (extractVersionAndStrip auth).1 = (user, pw, true) ∧
    Get user st = Some u ∧ Enabled u = true ∧ Password u = pw ∧
    (ExpireAt u = time_zero ∨ now <= ExpireAt u) ∧ OverQuota (userQuota st user) = false.
Proof.
  rewrite <- isBanned_false. unfold Authenticate.
  rewrite <- (isBanned_versions now ip). destruct (isBanned now ip a) as [a1 []]; cbn [fst snd].
  { split; [done|]. by intros []. }
  destruct (extractVersionAndStrip auth) as [clean v]. cbn [fst snd].
  rewrite <- (checkVersion_ok now ip). destruct (checkVersion now ip v a1) as [a2 []]; cbn [fst snd negb].
  2: { split; [done|]. by intros (_ & ? & _). }
  destruct (parseAuth clean) as [[user' pw] multi]. destruct multi; cbn [negb].
  2: { split; [done|]. by intros (_ & _ & ? & ? & ? & _). }
  unfold authMultiUser, userQuota, OverQuota, constTimeEqual, after, is_zero.
  split.
  - destruct (Get user' st) as [u|] eqn:Hu; [|done].
    destruct (Enabled u) eqn:He; [|done]. case_bool_decide as Hp; [|done].
    destruct (Z.eqb_spec (ExpireAt u) time_zero) as [Hz|Hz]; cbn;
      [|destruct (Z.ltb_spec (ExpireAt u) now); [done|]];
      destruct (0 <? MaxBytes u) eqn:H0, (MaxBytes u <=? UsedBytes u) eqn:H1; cbn; try done;
      intros [= <-]; (split; [done|]); (split; [done|]); exists pw, u; rewrite Hu; cbn; rewrite H0, H1; auto 10.
  - intros (_ & _ & pw' & u & [= -> ->] & Hu & He & <- & Hx & Hq). rewrite Hu in *. cbn in Hq.
    rewrite He, bool_decide_true by done. cbn.
    assert (negb (ExpireAt u =? time_zero) && (ExpireAt u <? now) = false) as ->.
    { destruct Hx as [->|Hx]; [by rewrite Z.eqb_refl|]. destruct (Z.ltb_spec (ExpireAt u) now); [lia|].
      by rewrite andb_false_r. }
    by rewrite Hq.
Qed.

(** ** Guessing *)

(** A refused attempt that was looked at is counted, whatever the reason. *)
Lemma failed_attempt now ip auth st a :
  (isBanned now ip a).2 = false → (Authenticate now (Some ip) auth st a).2.1 = false →
  (Authenticate now (Some ip) auth st a).1 = recordFailure now ip (isBanned now ip a).1.
Proof.
  unfold Authenticate. destruct (isBanned now ip a) as [a1 b]. cbn [fst snd]. intros ->.
  destruct (extractVersionAndStrip auth) as [clean v].
  pose proof (checkVersion_state now ip v a1) as Hst. destruct (checkVersion now ip v a1) as [a2 []]; cbn in Hst; subst a2;
    cbn [negb fst snd]; [|done].
  destruct (parseAuth clean) as [[user pw] []]; cbn [negb fst snd]; [|done].
  unfold authMultiUser. by repeat case_match.
Qed.

(** An attempt: when, from where, the string, and the users at that moment. *)
Definition attempt : Type := time * string * string * Store.

Definition try_login (x : attempt) (a : CustomAuthenticator) : CustomAuthenticator * bool :=
  let '(now, ip, auth, st) := x in
  let '(a', (ok, _)) := Authenticate now (Some ip) auth st a in (a', ok).

(** The attempts from [ip] whose credentials the server looked at, and whether
    all attempts from [ip] failed. *)
Fixpoint guesses (ip : string) (l : list attempt) (a : CustomAuthenticator) : nat * Prop :=
  match l with
  | [] => (0%nat, True)
  | x :: l =>
      let '(now, from, _, _) := x in
      let '(a', ok) := try_login x a in
      let '(n, failed) := guesses ip l a' in
      if bool_decide (from = ip)
      then ((if (isBanned now ip a).2 then n else S n), ok = false ∧ failed)
      else (n, failed)
  end.

(** How many attempts are left until [until]. *)
Definition tries_left (ip : string) (until : time) (a : CustomAuthenticator) : Z :=
  match bannedUntil a !! ip with
  | Some u => if until <=? u then 0 else maxFailCount
  | None => Z.max 1 (maxFailCount - default 0 (failCount a !! ip))
  end.

Lemma recordFailure_fails now ip a :
  failCount (recordFailure now ip a) !! ip = Some (default 0 (failCount a !! ip) + 1).
Proof. unfold recordFailure. case_match; cbn; by rewrite lookup_insert_eq. Qed.

Lemma recordFailure_ban now ip a :
  bannedUntil (recordFailure now ip a) !! ip
  = if maxFailCount <=? default 0 (failCount a !! ip) + 1 then Some (time_add now banDuration)
    else bannedUntil a !! ip.
Proof. unfold recordFailure. case_match; cbn; by rewrite ?lookup_insert_eq. Qed.

Lemma recordFailure_other now from ip a :
  from ≠ ip → failCount (recordFailure now from a) !! ip = failCount a !! ip ∧
  bannedUntil (recordFailure now from a) !! ip = bannedUntil a !! ip.
Proof. intros Hne. unfold recordFailure. case_match; cbn; by rewrite !lookup_insert_ne by done. Qed.

Lemma isBanned_other now from ip a :
  from ≠ ip → failCount (isBanned now from a).1 !! ip = failCount a !! ip ∧
  bannedUntil (isBanned now from a).1 !! ip = bannedUntil a !! ip.
Proof. intros Hne. unfold isBanned. repeat case_match; cbn; by rewrite ?lookup_delete_ne by done. Qed.

Lemma Authenticate_other now from ip auth st a :
  from ≠ ip → failCount (Authenticate now (Some from) auth st a).1 !! ip = failCount a !! ip ∧
  bannedUntil (Authenticate now (Some from) auth st a).1 !! ip = bannedUntil a !! ip.
Proof.
  intros Hne. destruct (isBanned_other now from ip a Hne) as [<- <-]. unfold Authenticate.
  destruct (isBanned now from a) as [a1 []]; [done|]. cbn [fst].
  destruct (extractVersionAndStrip auth) as [clean v].
  pose proof (checkVersion_state now from v a1) as Hst.
  destruct (checkVersion now from v a1) as [a2 []]; cbn in Hst; subst a2; cbn [negb fst].
  2: by apply recordFailure_other.
  destruct (parseAuth clean) as [[user pw] []]; cbn [negb fst]; [|by apply recordFailure_other].
  unfold authMultiUser. repeat case_match; try by apply recordFailure_other.
  cbn. by rewrite !lookup_delete_ne by done.
Qed.

Lemma tries_left_ext ip u a b :
  failCount a !! ip = failCount b !! ip → bannedUntil a !! ip = bannedUntil b !! ip →
  tries_left ip u a = tries_left ip u b.
Proof. intros H1 H2. unfold tries_left. by rewrite H1, H2. Qed.

(** A failed look costs one try; after the last one the address is banned to the
    end of the window. *)
Lemma tries_left_fail now ip t0 a :
  t0 <= now <= t0 + banDuration → (isBanned now ip a).2 = false →
  tries_left ip (t0 + banDuration) (recordFailure now ip (isBanned now ip a).1) + 1
  <= tries_left ip (t0 + banDuration) a.
Proof.
  intros Hnow Hb. pose proof (proj1 (isBanned_false now ip a) Hb) as Hu.
  unfold tries_left. rewrite recordFailure_fails, recordFailure_ban. unfold isBanned, after in *.
  destruct (bannedUntil a !! ip) as [u|] eqn:Hban.
  - specialize (Hu u eq_refl). rewrite (proj2 (Z.ltb_lt u now)), (proj2 (Z.leb_gt _ u)) by lia.
    cbn. by rewrite !lookup_delete_eq.
  - cbn [fst]. rewrite Hban. cbn [from_option]. unfold time_add.
    destruct (Z.leb_spec maxFailCount (default 0 (failCount a !! ip) + 1)).
    + rewrite (proj2 (Z.leb_le _ _)) by lia. lia.
    + unfold maxFailCount in *. cbn. lia.
Qed.

Lemma Authenticate_banned now ip auth st a :
  (isBanned now ip a).2 = true → Authenticate now (Some ip) auth st a = (a, (false, EmptyString)).
Proof.
  unfold Authenticate, isBanned. destruct (bannedUntil a !! ip); [|done]. by case_match.
Qed.

Lemma guesses_bound ip t0 l a :
  Forall (λ '(now, _, _, _), t0 <= now <= t0 + banDuration) l → (guesses ip l a).2 →
  Z.of_nat (guesses ip l a).1 <= tries_left ip (t0 + banDuration) a.
Proof.
  assert (∀ u a, 0 <= tries_left ip u a) as Hpos
    by (intros; unfold tries_left; repeat case_match; unfold maxFailCount; lia).
  revert a. induction l as [|[[[now from] auth] st] l IH]; intros a; [intros _ _; apply Hpos|].
  intros [Hnow Hl]%Forall_cons. cbn [guesses try_login].
  pose proof (failed_attempt now ip auth st a) as Hfail.
  pose proof (Authenticate_other now from ip auth st a) as Hother.
  pose proof (Authenticate_banned now ip auth st a) as Hbanned.
  case_bool_decide as Hip.
  - subst from. clear Hother. destruct (Authenticate now (Some ip) auth st a) as [a' [ok user]].
    specialize (IH a' Hl). destruct (guesses ip l a') as [n failed]. cbn [fst snd] in *.
    intros [-> Hf]. specialize (IH Hf). destruct (isBanned now ip a).2 eqn:Hb.
    + specialize (Hbanned eq_refl). injection Hbanned as -> _. done.
    + rewrite Hfail in IH by done. pose proof (tries_left_fail now ip t0 a Hnow Hb). lia.
  - destruct (Authenticate now (Some from) auth st a) as [a' [ok user]].
    specialize (IH a' Hl). destruct (guesses ip l a') as [n failed]. cbn [fst snd] in *.
    destruct (Hother Hip) as [H1 H2]. by rewrite <- (tries_left_ext _ _ a' a H1 H2).
Qed.

(** An address that keeps failing gets at most five looks at a password in any
    ten minutes, from any state of the counters, whatever the other addresses do
    in between; the other attempts are refused unseen. *)
Theorem guessing_bounded ip t0 l a :
  Forall (λ '(now, _, _, _), t0 <= now <= t0 + banDuration) l →
  0 <= default 0 (failCount a !! ip) → (guesses ip l a).2 → ((guesses ip l a).1 <= 5)%nat.
Proof.
  intros Hl Hc Hf. pose proof (guesses_bound ip t0 l a Hl Hf) as Hb.
  unfold tries_left, maxFailCount in Hb. repeat case_match; lia.
Qed.

Lemma guessing_bounded_witness :
  ((guesses "1.2.3.4" (replicate 6 (0%Z, "1.2.3.4"%string, "bob:x"%string, empty_store None))
     (NewCustomAuthenticator "" "")).1 <= 5)%nat.
Proof.
  apply (guessing_bounded "1.2.3.4" 0).
  - apply Forall_replicate. vm_compute. split; discriminate.
  - vm_compute. discriminate.
  - vm_compute. tauto.
Defined.

(** ** Data planes in a run of the server *)

Section world.
  Context {A : Type} `{LeaseBook A}.

(** The authenticator, the pool, and a log of what was admitted: [true] for a
    login, [false] for a data plane; with the time, the peer and the user. *)
Record world := mkWorld {
  w_auth : CustomAuthenticator;
  w_pool : option A;
  w_log : list (bool * time * string * string);
}.

Definition world0 (minVer maxVer : string) (pool : option A) : world :=
  mkWorld (NewCustomAuthenticator minVer maxVer) pool [].

(** What runs: logins (the users may have changed in any way between them),
    registrations of data planes, their ends, the cleanup, and whatever the DHCP
    service and the reclamation do to the pool. A peer address is printed by
    [net.IP], so it has no NUL. *)
Inductive plane_step : world → world → Prop :=
  | ps_login now ip auth st w : ¬ occurs nul ip →
      let r := Authenticate now (Some ip) auth st (w_auth w) in
      plane_step w (mkWorld r.1 (w_pool w)
        (if r.2.1 : bool then (true, now, ip, r.2.2) :: w_log w else w_log w))
  | ps_plane between now peer user vip w : ¬ occurs nul peer →
      let r := AuthorizeDataPlane_with between now peer user vip (w_auth w) (w_pool w) in
      plane_step w (mkWorld r.1.1 r.1.2
        (match r.2 with Some _ => (false, now, peer, user) :: w_log w | None => w_log w end))
  | ps_release peer user vip w : ¬ occurs nul peer →
      plane_step w (mkWorld (releaseSession peer user vip (w_auth w)) (w_pool w) (w_log w))
  | ps_cleanup now w :
      plane_step w (mkWorld (auth_cleanup now (w_pool w) (w_auth w)) (w_pool w) (w_log w))
  | ps_pool pool w : plane_step w (mkWorld (w_auth w) pool (w_log w)).

(** A key with its expiry goes back to a login, and to an admission as fresh as
    the expiry says. *)
Definition from_log (log : list (bool * time * string * string)) (key : string) (exp : time) : Prop :=
  ∃ p u, key = sessionKey p u ∧ ¬ occurs nul p ∧
    (∃ t, (true, t, p, u) ∈ log) ∧ (∃ b t, (b, t, p, u) ∈ log ∧ exp = t + dataPlaneSessionTTL).

Definition keys_logged (w : world) : Prop :=
  ∀ key exp, authorizedKeys (w_auth w) !! key = Some exp → from_log (w_log w) key exp.

Lemma from_log_cons x log key exp : from_log log key exp → from_log (x :: log) key exp.
Proof.
  intros (p & u & -> & Hp & (t & Ht) & b & t' & Hb & ->).
  exists p, u. split_and!; [done|done|exists t; by right|]. exists b, t'. split; [by right|done].
Qed.

Lemma authorizedKeys_fail now ip a : authorizedKeys (recordFailure now ip a) = authorizedKeys a.
Proof. unfold recordFailure. by case_match. Qed.

Lemma vipOwner_fail now ip a : vipOwner (recordFailure now ip a) = vipOwner a.
Proof. unfold recordFailure. by case_match. Qed.

(** What a login does to the tables of the data planes. *)
Lemma Authenticate_tables now ip auth st a :
  let r := Authenticate now (Some ip) auth st a in
  vipOwner r.1 = vipOwner a ∧
  authorizedKeys r.1 = if r.2.1 : bool then <[sessionKey ip r.2.2 := time_add now dataPlaneSessionTTL]> (authorizedKeys a)
                       else authorizedKeys a.
Proof.
  cbv zeta. unfold Authenticate.
  assert (∀ b, vipOwner (isBanned now ip b).1 = vipOwner b ∧ authorizedKeys (isBanned now ip b).1 = authorizedKeys b) as Hb.
  { intros b. unfold isBanned. by repeat case_match. }
  destruct (Hb a) as [<- <-]. destruct (isBanned now ip a) as [a1 []]; [done|]. cbn [fst].
  destruct (extractVersionAndStrip auth) as [clean v].
  pose proof (checkVersion_state now ip v a1) as Hst.
  destruct (checkVersion now ip v a1) as [a2 []]; cbn in Hst; subst a2; cbn [negb fst snd].
  2: by rewrite authorizedKeys_fail, vipOwner_fail.
  destruct (parseAuth clean) as [[user pw] []]; cbn [negb fst snd]; [|by rewrite authorizedKeys_fail, vipOwner_fail].
  unfold authMultiUser. repeat case_match; cbn [fst snd]; by rewrite ?authorizedKeys_fail, ?vipOwner_fail.
Qed.

(** What a registration changes, and when it succeeds. *)
Lemma AuthorizeDataPlane_cases between now peer user vip a (pool : option A) :
  let key := sessionKey peer user in
  (∃ exp al, authorizedKeys a !! key = Some exp ∧ now <= exp ∧ pool = Some al ∧ is_leased al vip = true ∧
     (vipOwner a !! vip = None ∨ vipOwner a !! vip = Some key) ∧
     AuthorizeDataPlane_with between now peer user vip a pool
     = (a <| vipOwner ::= <[vip := key]> |>
          <| authorizedKeys ::= <[key := time_add now dataPlaneSessionTTL]> |>,
        Some (mark_active vip (between al)), Some "multi"%string))
  ∨ ∃ pool', AuthorizeDataPlane_with between now peer user vip a pool = (a, pool', None)
     ∨ AuthorizeDataPlane_with between now peer user vip a pool
       = (a <| authorizedKeys ::= delete key |>, pool', None).
Proof.
  cbv zeta. unfold AuthorizeDataPlane_with, after. case_match; [right; eauto|].
  destruct (authorizedKeys a !! sessionKey peer user) as [exp|] eqn:He; [|right; eauto].
  destruct (Z.ltb_spec exp now); [right; eauto|]. destruct pool as [al|]; [|right; eauto].
  destruct (is_leased al vip) eqn:Hl; cbn; [|right; eauto].
  destruct (vipOwner a !! vip) as [owner|] eqn:Ho.
  - destruct (bool_decide_reflect (owner = sessionKey peer user)) as [E|]; cbn; [|right; eauto]. subst owner. left. exists exp, al. split_and!; eauto.
  - left. exists exp, al. split_and!; eauto.
Qed.

Lemma keys_logged_step w w' : plane_step w w' → keys_logged w → keys_logged w'.
Proof.
  intros Hs Hk. destruct Hs as [now ip auth st w Hip r|between now peer user vip w Hp r|peer user vip w Hp|now w|pool w];
    intros key exp He; cbn [w_auth w_pool w_log] in He |- *.
  - subst r. destruct (Authenticate_tables now ip auth st (w_auth w)) as [_ Ht]. rewrite Ht in He. clear Ht.
    destruct (Authenticate _ _ _ _ _) as [a' [[] user]]; cbn [fst snd] in *; [|by apply Hk].
    apply lookup_insert_Some in He as [[<- <-]|[_ He]]; [|by apply from_log_cons, Hk].
    exists ip, user. split_and!; [done|done|exists now; left|]. exists true, now. split; [left|done].
  - subst r. destruct (AuthorizeDataPlane_cases between now peer user vip (w_auth w) (w_pool w))
      as [(exp0 & al & Hin & Hle & Hal & Hl & Ho & E)|(pool' & [E|E])]; rewrite E in *; cbn in *.
    + apply lookup_insert_Some in He as [[<- <-]|[_ He]]; [|by apply from_log_cons, Hk].
      destruct (Hk _ _ Hin) as (p & u & Hpu & Hnp & (t & Ht) & _).
      apply sessionKey_inj in Hpu as [<- <-]; [|done..].
      exists peer, user. split_and!; [done|done|exists t; by right|]. exists false, now. split; [left|done].
    + by apply Hk.
    + apply lookup_delete_Some in He as [_ He]. by apply Hk.
  - apply Hk. revert He. unfold releaseSession. by repeat case_match.
  - apply map_lookup_filter_Some in He as [He _]. by apply Hk.
  - by apply Hk.
Qed.

Lemma keys_logged_reach minVer maxVer pool w : rtc plane_step (world0 minVer maxVer pool) w → keys_logged w.
Proof.
  intros Hr. assert (keys_logged (world0 minVer maxVer pool)) as H0.
  { intros key exp. cbn. by rewrite lookup_empty. }
  revert H0. induction Hr; eauto using keys_logged_step.
Qed.

(** C7: a data plane is admitted only after a login: in every run of the server,
    whatever the registration frame claims, when [AuthorizeDataPlane] admits
    [(peer, user, vip)] this user has logged in from this very address, the last
    admission of the pair is at most ten minutes old, the pool had leased the
    address, and nobody else owned it. *)
Theorem dataplane_needs_login minVer maxVer pool w between now peer user vip a' pool' mode :
  rtc plane_step (world0 minVer maxVer pool) w → ¬ occurs nul peer →
  AuthorizeDataPlane_with between now peer user vip (w_auth w) (w_pool w) = (a', pool', Some mode) →
  (∃ t, (true, t, peer, user) ∈ w_log w) ∧
  (∃ b t, (b, t, peer, user) ∈ w_log w ∧ now <= t + dataPlaneSessionTTL) ∧
  (∃ al, w_pool w = Some al ∧ is_leased al vip = true) ∧
  (∀ owner, vipOwner (w_auth w) !! vip = Some owner → owner = sessionKey peer user).
Proof.
  intros Hr%keys_logged_reach Hp E.
  destruct (AuthorizeDataPlane_cases between now peer user vip (w_auth w) (w_pool w))
    as [(exp & al & Hin & Hle & Hal & Hl & Ho & _)|(p & [E'|E'])]; [|by rewrite E' in E..].
  destruct (Hr _ _ Hin) as (p & u & Hpu & Hnp & Hlog & b & t & Hb & ->).
  apply sessionKey_inj in Hpu as [<- <-]; [|done..].
  split_and!; [done|by exists b, t|by exists al|]. intros owner Ho'. rewrite Ho' in Ho. naive_solver.
Qed.

(** C6: an address cannot be taken over: once it belongs to a pair of address and
    user, no step of the server gives it to another; it becomes free only when that
    pair's own data plane ends, or when the pool no longer leases it. *)
Theorem vip_never_hijacked w w' vip k :
  plane_step w w' → vipOwner (w_auth w) !! vip = Some k →
  vipOwner (w_auth w') !! vip = Some k ∨
  (vipOwner (w_auth w') !! vip = None ∧
   ((∃ peer user, k = sessionKey peer user ∧ w_auth w' = releaseSession peer user vip (w_auth w)) ∨
    (∃ al, w_pool w = Some al ∧ is_leased al vip = false))).
Proof.
  intros Hs Hk. destruct Hs as [now ip auth st w Hip r|between now peer user v w Hp r|peer user v w Hp|now w|pool w];
    cbn [w_auth w_pool w_log].
  - left. subst r. by rewrite (proj1 (Authenticate_tables now ip auth st (w_auth w))).
  - left. subst r. destruct (AuthorizeDataPlane_cases between now peer user v (w_auth w) (w_pool w))
      as [(exp0 & al & Hin & Hle & Hal & Hl & Ho & E)|(pool' & [E|E])]; rewrite E; cbn; [|done..].
    destruct (decide (v = vip)) as [->|]; [|by rewrite lookup_insert_ne].
    rewrite lookup_insert_eq. rewrite Hk in Ho. naive_solver.
  - unfold releaseSession. case_bool_decide; [by left|]. case_bool_decide as E; [|by left]. cbn.
    destruct (decide (v = vip)) as [->|]; [|left; by rewrite lookup_delete_ne].
    right. rewrite lookup_delete_eq. split; [done|]. left. exists peer, user. rewrite Hk in E. cbn in E.
    split; [done|]. rewrite bool_decide_false, bool_decide_true; [done|by rewrite Hk|done].
  - destruct (match w_pool w with None => true | Some al => is_leased al vip end) eqn:Hl.
    + left. apply map_lookup_filter_Some. split; [exact Hk|done].
    + right. split; [|right; destruct (w_pool w) as [al|]; [by exists al|done]].
      apply map_lookup_filter_None. right. intros x Hx. by rewrite Hl.
  - by left.
Qed.
End world.

(** ** Concrete runs *)

Definition demo_store : Store := (Create true 0 bob (empty_store None)).1.
Definition demo_pool : IPAllocator :=
  match AllocateByDeviceID 0 "d1" NewIPAllocator with Some (a, _) => a | None => NewIPAllocator end.
Definition demo_auth : CustomAuthenticator :=
  (Authenticate 0 (Some "1.2.3.4"%string) "bob:pw" demo_store (NewCustomAuthenticator "" "")).1.

Lemma no_nul_demo : ¬ occurs nul "1.2.3.4".
Proof. vm_compute. intuition congruence. Qed.

Lemma dataplane_needs_login_witness :
  ∃ w : world (A := IPAllocator), rtc plane_step (world0 "" "" (Some demo_pool)) w ∧
    ∃ t, (true, t, "1.2.3.4"%string, "bob"%string) ∈ w_log w.
Proof.
  set (w := mkWorld demo_auth (Some demo_pool) [(true, 0, "1.2.3.4"%string, "bob"%string)]).
  assert (rtc plane_step (world0 "" "" (Some demo_pool)) w) as Hr.
  { apply rtc_once. exact (ps_login 0 "1.2.3.4" "bob:pw" demo_store (world0 "" "" (Some demo_pool)) no_nul_demo). }
  exists w. split; [exact Hr|].
  destruct (AuthorizeDataPlane_with id 0 "1.2.3.4" "bob" "10.0.0.100" (w_auth w) (w_pool w))
    as [[a' p'] [mode|]] eqn:E.
  - destruct (dataplane_needs_login "" "" (Some demo_pool) w id 0 "1.2.3.4" "bob" "10.0.0.100" a' p' mode
      Hr no_nul_demo E) as [Ht _]. exact Ht.
  - exfalso. apply (f_equal snd) in E. vm_compute in E. discriminate.
Defined.

Lemma vip_never_hijacked_witness :
  let w := mkWorld (demo_auth <| vipOwner := {["10.0.0.100"%string := "k"%string]} |>) (Some demo_pool) [] in
  let w' := mkWorld (w_auth w) (None : option IPAllocator) [] in
  vipOwner (w_auth w') !! "10.0.0.100"%string = Some "k"%string ∨
  (vipOwner (w_auth w') !! "10.0.0.100"%string = None ∧
   ((∃ peer user, "k"%string = sessionKey peer user ∧ w_auth w' = releaseSession peer user "10.0.0.100" (w_auth w)) ∨
    (∃ al, w_pool w = Some al ∧ is_leased al "10.0.0.100" = false))).
Proof.
  intros w w'. apply (vip_never_hijacked w w').
  - exact (ps_pool None w).
  - vm_compute. reflexivity.
Defined.

(** The look-up and the claim of a lease are two critical sections of the pool:
    when the reclamation runs between them, the data plane is admitted to an
    address the pool hands to the next device, whose owner cannot use it. *)
Theorem reclaimed_while_admitted :
  ∃ (a a1 : CustomAuthenticator) (al al1 al2 : IPAllocator) now vip,
    AuthorizeDataPlane_with (reapExpiredLeases now [vip]) now "1.2.3.4" "bob" vip a (Some al)
      = (a1, Some al1, Some "multi"%string) ∧
    AllocateByDeviceID now "d2" al1 = Some (al2, vip) ∧
    (AuthorizeDataPlane now "5.6.7.8" "eve" vip
       (registerSession now "5.6.7.8" "eve" a1) (Some al2)).2 = None.
Proof.
  exists demo_auth.
  pose (r := AuthorizeDataPlane_with (reapExpiredLeases (6 * minute) ["10.0.0.100"%string]) (6 * minute)
               "1.2.3.4" "bob" "10.0.0.100" demo_auth (Some demo_pool)).
  exists r.1.1. exists demo_pool. exists (default demo_pool r.1.2).
  exists (default (demo_pool, EmptyString) (AllocateByDeviceID (6 * minute) "d2" (default demo_pool r.1.2))).1.
  exists (6 * minute), "10.0.0.100"%string. split_and!; vm_compute; reflexivity.
Qed.

