(* ===== verification/AdminAuth.v ===== *)
(** * Sessions and log-in of the panel ([vpn-server/admin/session.go] and the
    handlers of [vpn-server/admin/server.go] that use it)

    Tokens are 32 random bytes in hexadecimal: the token of a new session is an
    argument.  The time is read once per call. *)

From Stdlib Require Import ZArith Lia Bool Ascii String.
From stdpp Require Import base list gmap sets strings.
From S2P Require Import Prelude.
From S2P Require Import GoText.
From S2P Require Import UserStore.

Open Scope Z_scope.

(** ** Sessions *)

Record session := mkSession { expireAt : time; hardDeadline : time }.

Record SessionManager := mkSessions {
  sessions : gmap string session;
  TTL : duration;
  MaxLifetime : duration;
}.
#[export] Instance eta_Sessions : Eta SessionManager := λ s, mkSessions (sessions s) (TTL s) (MaxLifetime s).

Definition NewSessionManager (ttl : duration) : SessionManager :=
  let ttl := if ttl <=? 0 then 24 * hour else ttl in mkSessions ∅ ttl ttl.

(** [now.After(t)] *)
Definition past (now t : time) : bool := t <? now.

Definition sm_create (now : time) (token : string) (sm : SessionManager) : SessionManager :=
  sm <| sessions ::= <[token := mkSession (time_add now (TTL sm)) (time_add now (MaxLifetime sm))]> |>.

Definition Validate (now : time) (token : string) (sm : SessionManager) : SessionManager * bool :=
  if bool_decide (token = EmptyString) then (sm, false)
  else match sessions sm !! token with
       | None => (sm, false)
       | Some s =>
           if past now (expireAt s) || past now (hardDeadline s)
           then (sm <| sessions ::= delete token |>, false)
           else
             let next := time_add now (TTL sm) in
             let next := if past next (hardDeadline s) then hardDeadline s else next in
             (sm <| sessions ::= <[token := mkSession next (hardDeadline s)]> |>, true)
       end.

Definition sm_delete (token : string) (sm : SessionManager) : SessionManager :=
  sm <| sessions ::= delete token |>.
Definition DeleteAll (sm : SessionManager) : SessionManager := sm <| sessions := ∅ |>.
Definition sm_count (sm : SessionManager) : nat := size (sessions sm).

(** One tick of [cleanupLoop]. *)
Definition sm_cleanup (now : time) (sm : SessionManager) : SessionManager :=
  sm <| sessions ::= filter (λ '(_, s), past now (expireAt s) || past now (hardDeadline s) = false) |>.

(** ** Failed log-ins per address *)

Record attemptInfo := mkAttempt { count : Z; lastTry : time }.
Abbreviation loginLimiter := (gmap string attemptInfo) (only parsing).

Definition maxLoginAttempts : Z := 5.
Definition loginWindow : duration := 5 * minute.
Definition maxLimiterEntries : Z := 20000.

Definition stale (now : time) (i : attemptInfo) : bool := loginWindow <? time_sub now (lastTry i).

Definition Allow (now : time) (ip : string) (l : loginLimiter) : loginLimiter * bool :=
  match l !! ip with
  | None => (l, true)
  | Some info => if stale now info then (delete ip l, true) else (l, count info <? maxLoginAttempts)
  end.

Definition RecordFail (now : time) (ip : string) (l : loginLimiter) : loginLimiter :=
  match l !! ip with
  | Some info => <[ip := mkAttempt (count info + 1) now]> l
  | None =>
      let full (m : loginLimiter) := maxLimiterEntries <=? Z.of_nat (size m) in
      if full l then
        let l := filter (λ '(_, i), stale now i = false) l in
        if full l then l else <[ip := mkAttempt 1 now]> l
      else <[ip := mkAttempt 1 now]> l
  end.

Definition Reset (ip : string) (l : loginLimiter) : loginLimiter := delete ip l.

(** One tick of the limiter's [cleanupLoop]. *)
Definition limiter_cleanup (now : time) (l : loginLimiter) : loginLimiter :=
  filter (λ '(_, i), stale now i = false) l.

(** ** The handlers *)

Record Panel := mkPanel {
  p_users : Store;
  p_sessions : SessionManager;
  p_limiter : gmap string attemptInfo;
  p_setup : gmap string attemptInfo;
}.
#[export] Instance eta_Panel : Eta Panel := λ p,
  mkPanel (p_users p) (p_sessions p) (p_limiter p) (p_setup p).

Inductive response :=
  | Token (t : string) | Done | TooMany | BadRequest | Unauthorized | Conflict | Forbidden | ServerError.

Section handlers.
  Variable hashPassword : string → string.

(** [body]: what the JSON decoder read, [None] for an error. *)
Definition handleLogin (now : time) (ip token : string) (body : option (string * string)) (p : Panel)
    : Panel * response :=
  let '(l, allowed) := Allow now ip (p_limiter p) in
  let p := p <| p_limiter := l |> in
  if negb allowed then (p, TooMany)
  else match body with
       | None => (p, BadRequest)
       | Some (username, password) =>
           if negb (VerifyAdmin hashPassword username password (p_users p))
           then (p <| p_limiter ::= RecordFail now ip |>, Unauthorized)
           else (p <| p_limiter ::= Reset ip |> <| p_sessions ::= sm_create now token |>, Token token)
       end.

Definition handleLogout (token : string) (p : Panel) : Panel * response :=
  (p <| p_sessions ::= sm_delete token |>, Done).

Definition handleChangePassword (now : time) (ip : string) (ok : bool) (body : option (string * string))
    (p : Panel) : Panel * response :=
  let '(l, allowed) := Allow now ip (p_limiter p) in
  let p := p <| p_limiter := l |> in
  if negb allowed then (p, TooMany)
  else match body with
       | None => (p, BadRequest)
       | Some (oldPwd, newPwd) =>
           if (String.length newPwd <? 6)%nat then (p, BadRequest)
           else
             let '(st, err) := ChangeAdminPassword hashPassword ok oldPwd newPwd (p_users p) in
             let p := p <| p_users := st |> in
             match err with
             | Some _ => (p <| p_limiter ::= RecordFail now ip |>, BadRequest)
             | None => (p <| p_limiter ::= Reset ip |> <| p_sessions ::= DeleteAll |>, Done)
             end
       end.

Definition handleSetup (now : time) (ip : string) (ok : bool) (body : option (string * string)) (p : Panel)
    : Panel * response :=
  let '(l, allowed) := Allow now ip (p_setup p) in
  let p := p <| p_setup := l |> in
  let fail := p <| p_setup ::= RecordFail now ip |> in
  if negb allowed then (p, TooMany)
  else match body with
       | None => (p, BadRequest)
       | Some (username, password) =>
           let username := TrimSpace username in
           if (String.length username <? 3)%nat then (fail, BadRequest)
           else if (String.length password <? 6)%nat then (fail, BadRequest)
           else match Get username (p_users p) with
                | Some _ => (fail, Conflict)
                | None =>
                    let '(st, err) := SetAdminIfUninitialized hashPassword ok username password (p_users p) in
                    (p <| p_users := st |>,
                     match err with
                     | Some ErrAlreadyInitialized => Forbidden
                     | Some _ => ServerError
                     | None => Done
                     end)
                end
       end.
End handlers.

(** ** The lifetime of a session *)

(** What the panel does between [t0] and [now] with other tokens, with [tok]
    itself except logging out, and what its cleanup does. *)
Inductive session_step (t0 now : time) (tok : string) : SessionManager → SessionManager → Prop :=
  | se_create t k sm : k ≠ tok → session_step t0 now tok sm (sm_create t k sm)
  | se_validate t k sm : t0 <= t <= now → session_step t0 now tok sm ((Validate t k sm).1)
  | se_delete k sm : k ≠ tok → session_step t0 now tok sm (sm_delete k sm)
  | se_cleanup t sm : t0 <= t <= now → session_step t0 now tok sm (sm_cleanup t sm).

(** The session still has its first deadline, or the time is past it. *)
Definition session_inv (t0 now : time) (tok : string) (d : duration) (sm : SessionManager) : Prop :=
  TTL sm = d ∧ MaxLifetime sm = d ∧
  (sessions sm !! tok = Some (mkSession (t0 + d) (t0 + d)) ∨ (sessions sm !! tok = None ∧ t0 + d < now)).

Lemma session_inv_other t0 now tok d sm f :
  session_inv t0 now tok d sm → f (sessions sm) !! tok = sessions sm !! tok →
  session_inv t0 now tok d (sm <| sessions ::= f |>).
Proof. intros (Ht & Hm & Hi) Hf. split_and!; [done|done|]. cbn. by rewrite Hf. Qed.

Lemma session_inv_step t0 now tok d sm sm' :
  session_step t0 now tok sm sm' → session_inv t0 now tok d sm → session_inv t0 now tok d sm'.
Proof.
  intros Hs Hinv. pose proof Hinv as (Ht & Hm & Hi). destruct Hs as [t k sm Hk|t k sm Hr|k sm Hk|t sm Hr].
  - apply session_inv_other; [done|]. by rewrite lookup_insert_ne.
  - unfold Validate. case_bool_decide; [done|]. destruct (decide (k = tok)) as [->|Hne].
    + destruct Hi as [Hi|[Hi Hn]]; rewrite Hi; [|done]. cbn. unfold past, time_add. rewrite Ht.
      destruct (Z.ltb_spec (t0 + d) t); cbn.
      { split_and!; [done|done|]. right. cbn. rewrite lookup_delete_eq. split; [done|lia]. }
      split_and!; [done|done|]. left. cbn. rewrite lookup_insert_eq.
      destruct (Z.ltb_spec (t0 + d) (t + d)); do 2 f_equal; lia.
    + destruct (sessions sm !! k); [|done]. case_match; (apply session_inv_other; [done|]);
        by rewrite ?lookup_insert_ne, ?lookup_delete_ne by done.
  - apply session_inv_other; [done|]. by rewrite lookup_delete_ne.
  - split_and!; [done|done|]. cbn. destruct Hi as [Hi|[Hi Hn]].
    + unfold past. destruct (Z.ltb_spec (t0 + d) t).
      * right. split; [|lia]. apply map_lookup_filter_None. right. intros s. rewrite Hi. intros [= <-]. cbn.
        rewrite (proj2 (Z.ltb_lt _ _)) by done. done.
      * left. apply map_lookup_filter_Some. split; [done|]. cbn.
        rewrite (proj2 (Z.ltb_ge _ _)) by lia. done.
    + right. split; [|done]. apply map_lookup_filter_None. by left.
Qed.

(** A session of the panel lives exactly as long as configured: whatever is
    done with it and with the others in between, its token is valid until the
    lifetime after the log-in and never later, however often it is used. *)
Theorem session_lifetime_exact t0 now tok ttl sm1 sm :
  TTL sm1 = ttl → MaxLifetime sm1 = ttl → tok ≠ EmptyString → t0 <= now →
  rtc (session_step t0 now tok) (sm_create t0 tok sm1) sm →
  (Validate now tok sm).2 = true ↔ now <= t0 + ttl.
Proof.
  intros H1 H2 Htok Hle Hr. assert (session_inv t0 now tok ttl sm) as (Ht & Hm & Hi).
  { assert (session_inv t0 now tok ttl (sm_create t0 tok sm1)) as H0.
    { split_and!; [done|done|]. left. cbn. unfold time_add. by rewrite lookup_insert_eq, H1, H2. }
    revert H0. clear -Hr. induction Hr; eauto using session_inv_step. }
  unfold Validate. rewrite bool_decide_false by done. destruct Hi as [->|[-> Hn]]; cbn.
  - unfold past. destruct (Z.ltb_spec (t0 + ttl) now); cbn; (split; [intros; try done|]); lia.
  - split; [done|lia].
Qed.

Lemma session_lifetime_exact_witness :
  (Validate hour "t" (sm_create 0 "t" (NewSessionManager 0))).2 = true ↔ hour <= 0 + 24 * hour.
Proof.
  apply (session_lifetime_exact 0 hour "t" (24 * hour) (NewSessionManager 0));
    [reflexivity|reflexivity|discriminate|vm_compute; discriminate|apply rtc_refl].
Defined.

(** Changing the password closes every session: after a change that
    succeeded no token issued before it is accepted, and the administrator logs in
    with the new password. *)
Theorem password_change_revokes hash now ip ok body p p' tok t :
  handleChangePassword hash now ip ok body p = (p', Done) →
  (Validate t tok (p_sessions p')).2 = false ∧
  ∃ oldPwd newPwd, body = Some (oldPwd, newPwd) ∧ adminPassword (p_users p) = hash oldPwd ∧
    adminPassword (p_users p') = hash newPwd ∧ (6 <= String.length newPwd)%nat.
Proof.
  unfold handleChangePassword. destruct (Allow now ip (p_limiter p)) as [l []]; cbn [negb]; [|done].
  destruct body as [[oldPwd newPwd]|]; [|done]. destruct (Nat.ltb_spec (String.length newPwd) 6); [done|].
  unfold ChangeAdminPassword, constTimeEqual. case_bool_decide as Hp; cbn [negb]; [|done].
  destruct ok; [|done]. cbn. intros [= <-]. split; [|by exists oldPwd, newPwd].
  unfold Validate. case_bool_decide; [done|]. cbn. by rewrite lookup_empty.
Qed.

Definition demo_panel : Panel :=
  mkPanel ((empty_store None) <| adminUsername := "root"%string |> <| adminPassword := "h:secret"%string |>)
    (sm_create 0 "t" (NewSessionManager 0)) ∅ ∅.
Definition demo_hash (s : string) : string := "h:" +:+ s.

Lemma password_change_revokes_witness :
  ∃ p', handleChangePassword demo_hash 0 "1.2.3.4" true (Some ("secret", "newsecret")%string) demo_panel = (p', Done) ∧
    (Validate 0 "t" (p_sessions p')).2 = false.
Proof.
  destruct (handleChangePassword demo_hash 0 "1.2.3.4" true (Some ("secret", "newsecret")%string) demo_panel)
    as [p' r] eqn:E. assert (r = Done) as -> by (vm_compute in E; injection E as <- <-; reflexivity).
  exists p'. split; [reflexivity|]. exact (proj1 (password_change_revokes _ _ _ _ _ _ _ "t" 0 E)).
Defined.

(** When the change is made but cannot be written, the new password is in force,
    the panel reports an error, and the old sessions stay open. *)
Theorem unsaved_change_keeps_sessions hash now ip oldPwd newPwd p :
  (Allow now ip (p_limiter p)).2 = true → adminPassword (p_users p) = hash oldPwd →
  (6 <= String.length newPwd)%nat →
  let '(p', r) := handleChangePassword hash now ip false (Some (oldPwd, newPwd)) p in
  r = BadRequest ∧ adminPassword (p_users p') = hash newPwd ∧ p_sessions p' = p_sessions p.
Proof.
  intros Ha Hp Hl. unfold handleChangePassword. destruct (Allow now ip (p_limiter p)) as [l b]. cbn in Ha. subst b.
  cbn [negb]. destruct (Nat.ltb_spec (String.length newPwd) 6); [lia|].
  unfold ChangeAdminPassword, constTimeEqual. cbn. by rewrite Hp, bool_decide_true.
Qed.

Lemma unsaved_change_keeps_sessions_witness :
  let '(p', r) := handleChangePassword demo_hash 0 "1.2.3.4" false (Some ("secret", "newsecret")%string) demo_panel in
  r = BadRequest ∧ adminPassword (p_users p') = "h:newsecret"%string ∧ p_sessions p' = p_sessions demo_panel.
Proof.
  apply (unsaved_change_keeps_sessions demo_hash 0 "1.2.3.4" "secret" "newsecret" demo_panel);
    [reflexivity|reflexivity|vm_compute; lia].
Defined.

(** ** Guessing the administrator's password *)

(** Failed log-ins, each at its time and from its address: how many from [ip] got
    past the limiter. *)
Definition failed_login (now : time) (ip : string) (l : loginLimiter) : loginLimiter * bool :=
  let '(l, ok) := Allow now ip l in ((if ok then RecordFail now ip l else l), ok).

Fixpoint looks (ip : string) (run : list (time * string)) (l : loginLimiter) : nat :=
  match run with
  | [] => 0
  | (now, from) :: run =>
      let '(l', ok) := failed_login now from l in
      (if bool_decide (from = ip) && ok then 1 else 0) + looks ip run l'
  end.

Definition looks_left (ip : string) (t0 : time) (l : loginLimiter) : Z :=
  match l !! ip with
  | None => maxLoginAttempts
  | Some i => if t0 <=? lastTry i then Z.max 0 (maxLoginAttempts - count i) else maxLoginAttempts
  end.

Lemma stale_spec now i : stale now i = true ↔ lastTry i + loginWindow < now.
Proof.
  unfold stale. rewrite Z.ltb_lt.
  pose proof (time_sub_le now (lastTry i) loginWindow ltac:(unfold loginWindow, minute, second, millisecond, int64_min, int64_max; lia)).
  lia.
Qed.

Lemma size_Allow now ip l : (size (Allow now ip l).1 <= size l)%nat.
Proof.
  unfold Allow. repeat case_match; try done. cbn. rewrite map_size_delete. case_match; [apply Nat.le_pred_l|done].
Qed.

Lemma size_RecordFail now ip l : (size (RecordFail now ip l) <= S (size l))%nat.
Proof.
  unfold RecordFail. assert (∀ m i, (size (<[ip := i]> m : loginLimiter) <= S (size m))%nat) as Hi.
  { intros m i. rewrite map_size_insert. case_match; first [apply le_n | apply Nat.le_succ_diag_r]. }
  repeat case_match; auto.
  - etransitivity; [apply map_size_filter|apply Nat.le_succ_diag_r].
  - etransitivity; [apply Hi|]. apply le_n_S, map_size_filter.
Qed.

Lemma size_failed_login now ip l : (size (failed_login now ip l).1 <= S (size l))%nat.
Proof.
  unfold failed_login. pose proof (size_Allow now ip l). destruct (Allow now ip l) as [m []]; cbn in *; [|lia].
  pose proof (size_RecordFail now ip m). lia.
Qed.

Lemma RecordFail_room now ip m :
  m !! ip = None → Z.of_nat (size m) < maxLimiterEntries → RecordFail now ip m = <[ip := mkAttempt 1 now]> m.
Proof. intros Hm Hs. unfold RecordFail. rewrite Hm. by rewrite (proj2 (Z.leb_gt _ _)). Qed.

Definition counts_ok (l : loginLimiter) : Prop := ∀ k i, l !! k = Some i → 0 <= count i.

Lemma counts_ok_insert k c now l : counts_ok l → 0 <= c → counts_ok (<[k := mkAttempt c now]> l).
Proof. intros Hl Hc k' i [[_ <-]|[_ H]]%lookup_insert_Some; [done|by eapply Hl]. Qed.

Lemma counts_ok_filter now l : counts_ok l → counts_ok (filter (λ '(_, i), stale now i = false) l).
Proof. intros Hl k i [H _]%map_lookup_filter_Some. by eapply Hl. Qed.

Lemma counts_ok_failed_login now ip l : counts_ok l → counts_ok (failed_login now ip l).1.
Proof.
  intros Hl. assert (counts_ok (Allow now ip l).1) as Ha.
  { unfold Allow. repeat case_match; try done. intros k j Hj. cbn in Hj. apply lookup_delete_Some in Hj as [_ Hj]. by eapply Hl. }
  unfold failed_login. destruct (Allow now ip l) as [m []]; [|done]. cbn in *. unfold RecordFail.
  destruct (m !! ip) as [i|] eqn:Hi.
  - apply counts_ok_insert; [done|]. specialize (Ha _ _ Hi). lia.
  - repeat case_match.
    + by apply counts_ok_filter.
    + apply counts_ok_insert; [by apply counts_ok_filter|lia].
    + apply counts_ok_insert; [done|lia].
Qed.

(** What one failed log-in does to the count of [ip], as long as the table has
    room. *)
Lemma looks_left_step ip t0 now from l :
  t0 <= now <= t0 + loginWindow → Z.of_nat (size l) < maxLimiterEntries → counts_ok l →
  let '(l', ok) := failed_login now from l in
  looks_left ip t0 l' + (if bool_decide (from = ip) && ok then 1 else 0) <= looks_left ip t0 l.
Proof.
  intros Hnow Hsz Hc. unfold failed_login, Allow. destruct (l !! from) as [i|] eqn:Hl.
  - destruct (stale now i) eqn:Hs.
    + apply stale_spec in Hs. pose proof (size_Allow now from l) as Hsd. unfold Allow in Hsd.
      rewrite Hl in Hsd. rewrite (proj2 (stale_spec now i) Hs) in Hsd.
      rewrite RecordFail_room; [|apply lookup_delete_eq|cbn in Hsd; lia]. unfold looks_left.
      destruct (decide (from = ip)) as [->|Hne].
      * rewrite bool_decide_true, lookup_insert_eq, Hl by done. cbn [andb lastTry count].
        rewrite (proj2 (Z.leb_le t0 now)), (proj2 (Z.leb_gt t0 (lastTry i))) by lia.
        unfold maxLoginAttempts. lia.
      * rewrite bool_decide_false, lookup_insert_ne, lookup_delete_ne by done. cbn [andb]. lia.
    + assert (¬ lastTry i + loginWindow < now) as Hst by (rewrite <- stale_spec; by rewrite Hs).
      destruct (Z.ltb_spec (count i) maxLoginAttempts).
      * unfold RecordFail. rewrite Hl. unfold looks_left. destruct (decide (from = ip)) as [->|Hne].
        -- rewrite bool_decide_true, lookup_insert_eq, Hl by done. cbn [andb lastTry count].
           rewrite (proj2 (Z.leb_le t0 now)) by lia. specialize (Hc _ _ Hl). unfold maxLoginAttempts in *.
           destruct (Z.leb_spec t0 (lastTry i)); lia.
        -- rewrite bool_decide_false, lookup_insert_ne by done. cbn [andb]. lia.
      * rewrite andb_false_r. lia.
  - rewrite RecordFail_room by done. unfold looks_left.
    destruct (decide (from = ip)) as [->|Hne].
    + rewrite bool_decide_true, lookup_insert_eq, Hl by done. cbn [andb lastTry count].
      rewrite (proj2 (Z.leb_le t0 now)) by lia. unfold maxLoginAttempts. lia.
    + rewrite bool_decide_false, lookup_insert_ne by done. cbn [andb]. lia.
Qed.


Lemma looks_bound ip t0 run l :
  Forall (λ '(now, _), t0 <= now <= t0 + loginWindow) run →
  Z.of_nat (size l) + Z.of_nat (length run) <= maxLimiterEntries → counts_ok l →
  Z.of_nat (looks ip run l) <= looks_left ip t0 l.
Proof.
  revert l. induction run as [|[now from] run IH]; intros l.
  { intros _ _ _. cbn. unfold looks_left, maxLoginAttempts. repeat case_match; lia. }
  intros [Hnow Hrun]%Forall_cons Hsz Hc. cbn [length] in Hsz. cbn [looks].
  pose proof (looks_left_step ip t0 now from l Hnow ltac:(lia) Hc) as Hst.
  pose proof (size_failed_login now from l) as Hs.
  pose proof (counts_ok_failed_login now from l Hc) as Hc'.
  destruct (failed_login now from l) as [l' ok].
  specialize (IH l' Hrun). cbn [fst] in Hs, Hc'. specialize (IH ltac:(lia) Hc'). destruct (bool_decide (from = ip) && ok); lia.
Qed.

(** An address that never logs in gets at most five looks at the
    administrator's password in any five minutes, whatever the others do, as long
    as the table of the limiter has room for everybody who fails. *)
Theorem admin_guessing_bounded ip t0 run l :
  Forall (λ '(now, _), t0 <= now <= t0 + loginWindow) run →
  Z.of_nat (size l) + Z.of_nat (length run) <= maxLimiterEntries →
  counts_ok l → (looks ip run l <= 5)%nat.
Proof.
  intros Hrun Hsz Hc. pose proof (looks_bound ip t0 run l Hrun Hsz Hc) as H.
  unfold looks_left, maxLoginAttempts in H.
  destruct (l !! ip) as [i|] eqn:Hi; [|lia]. specialize (Hc _ _ Hi). case_match; lia.
Qed.

Lemma admin_guessing_bounded_witness :
  (looks "1.2.3.4" (replicate 8 (0%Z, "1.2.3.4"%string)) ∅ <= 5)%nat.
Proof.
  apply (admin_guessing_bounded "1.2.3.4" 0).
  - apply Forall_replicate. vm_compute. split; discriminate.
  - vm_compute. discriminate.
  - intros k i H. rewrite lookup_empty in H. discriminate.
Defined.

(** Once the table is full of fresh entries, an address that is not in it is never
    limited: each of its failures is dropped, so it may go on for ever. *)
Theorem full_table_limits_nobody ip now n l :
  l !! ip = None → maxLimiterEntries <= Z.of_nat (size l) → (∀ k i, l !! k = Some i → stale now i = false) →
  looks ip (replicate n (now, ip)) l = n.
Proof.
  intros Hip Hfull Hfresh. induction n as [|n IH]; [done|]. cbn [replicate looks].
  assert (failed_login now ip l = (l, true)) as ->.
  { unfold failed_login, Allow. rewrite Hip. unfold RecordFail. rewrite Hip, (proj2 (Z.leb_le _ _)) by done.
    rewrite map_filter_id by (intros k i Hk; by eapply Hfresh). by rewrite (proj2 (Z.leb_le _ _)). }
  rewrite bool_decide_true by done. cbn. by rewrite IH.
Qed.
