(* ===== verification/AdminState.v ===== *)
(** * The panel's list of clients that are online ([vpn-server/admin/state.go])

    An entry per tunnel address, with its counters, and the totals of the server.
    Counters are [uint64]. *)

From Stdlib Require Import ZArith Lia Bool Ascii String.
From stdpp Require Import base list gmap sets strings.
From S2P Require Import Prelude.

Open Scope Z_scope.

Record ClientInfo := mkClient {
  ci_username : string;
  ci_mode : string;
  ci_virtualIP : string;
  ci_realAddr : string;
  ci_connected : time;
  ci_lastSeen : time;
  ci_bytesIn : Z;
  ci_bytesOut : Z;
  ci_latencyMs : Z;
}.
#[export] Instance eta_ClientInfo : Eta ClientInfo := λ c,
  mkClient (ci_username c) (ci_mode c) (ci_virtualIP c) (ci_realAddr c) (ci_connected c)
    (ci_lastSeen c) (ci_bytesIn c) (ci_bytesOut c) (ci_latencyMs c).

Record AdminState := mkAdminState {
  as_clients : gmap string ClientInfo;
  as_totalIn : Z;
  as_totalOut : Z;
  as_misses : Z;
}.
#[export] Instance eta_AdminState : Eta AdminState := λ s,
  mkAdminState (as_clients s) (as_totalIn s) (as_totalOut s) (as_misses s).

Definition NewAdminState : AdminState := mkAdminState ∅ 0 0 0.

Definition OnConnect (now : time) (key username mode vip realAddr : string) (s : AdminState) : AdminState :=
  match as_clients s !! key with
  | None => s <| as_clients ::= <[key := mkClient username mode vip realAddr now now 0 0 0]> |>
  | Some old =>
      let c := old <| ci_mode := mode |> <| ci_virtualIP := vip |> <| ci_realAddr := realAddr |>
                   <| ci_lastSeen := now |> in
      let c := if bool_decide (ci_username old = username) then c
               else c <| ci_username := username |> <| ci_bytesIn := 0 |> <| ci_bytesOut := 0 |>
                      <| ci_latencyMs := 0 |> <| ci_connected := now |> in
      s <| as_clients ::= <[key := c]> |>
  end.

Definition OnDisconnect (key : string) (s : AdminState) : AdminState := s <| as_clients ::= delete key |>.

Definition SetClientLatency (key : string) (ms : Z) (s : AdminState) : AdminState :=
  match as_clients s !! key with
  | Some c => s <| as_clients ::= <[key := c <| ci_latencyMs := (if ms <? 0 then 0 else ms) |>]> |>
  | None => s
  end.

Definition add64 (a b : Z) : Z := wrap_u 64 (a + b).

Definition as_AddTraffic (now : time) (key : string) (inb outb : Z) (s : AdminState) : AdminState :=
  let s := match as_clients s !! key with
           | Some c => s <| as_clients ::= <[key := c <| ci_bytesIn := add64 (ci_bytesIn c) inb |>
                                                   <| ci_bytesOut := add64 (ci_bytesOut c) outb |>
                                                   <| ci_lastSeen := now |>]> |>
           | None => s <| as_misses := add64 (as_misses s) 1 |>
           end in
  s <| as_totalIn := add64 (as_totalIn s) inb |> <| as_totalOut := add64 (as_totalOut s) outb |>.

Definition TrafficMisses (s : AdminState) : Z := as_misses s.

(** [onlineUsernames] of the manager: the names of the snapshot that are not empty. *)
Definition onlineUsernames (s : AdminState) : list string :=
  filter (λ u, u ≠ EmptyString) (ci_username ∘ snd <$> map_to_list (as_clients s)).

(** ** Accounting

    The counters of a client and of the server over a run of the operations. *)

Inductive admin_op :=
  | OpConnect (now : time) (key username mode vip realAddr : string)
  | OpDisconnect (key : string)
  | OpLatency (key : string) (ms : Z)
  | OpTraffic (now : time) (key : string) (inb outb : Z).

Definition admin_do (s : AdminState) (o : admin_op) : AdminState :=
  match o with
  | OpConnect now key u m v r => OnConnect now key u m v r s
  | OpDisconnect key => OnDisconnect key s
  | OpLatency key ms => SetClientLatency key ms s
  | OpTraffic now key i o => as_AddTraffic now key i o s
  end.

(** What an entry of [user] at [key] has received since it was opened: reset when
    it is closed or taken over by another user. [None]: there is no entry. *)
Definition history_step (key : string) (h : option (string * Z)) (o : admin_op) : option (string * Z) :=
  match o with
  | OpConnect _ k u _ _ _ =>
      if bool_decide (k = key)
      then match h with
           | Some (u', n) => if bool_decide (u' = u) then Some (u', n) else Some (u, 0)
           | None => Some (u, 0)
           end
      else h
  | OpDisconnect k => if bool_decide (k = key) then None else h
  | OpTraffic _ k i _ => if bool_decide (k = key) then (λ '(u, n), (u, n + i)) <$> h else h
  | OpLatency _ _ => h
  end.

Definition entry_of (key : string) (s : AdminState) : option (string * Z) :=
  (λ c, (ci_username c, ci_bytesIn c)) <$> as_clients s !! key.

Definition wrap_entry (h : option (string * Z)) : option (string * Z) := (λ '(u, n), (u, wrap_u 64 n)) <$> h.

Lemma entry_step key s h o :
  entry_of key s = wrap_entry h → entry_of key (admin_do s o) = wrap_entry (history_step key h o).
Proof.
  intros Hh. destruct o as [now k u m v r|k|k ms|now k i ob]; cbn [admin_do history_step].
  - unfold OnConnect. destruct (bool_decide_reflect (k = key)) as [->|Hne].
    + unfold entry_of in Hh |- *. destruct (as_clients s !! key) as [c|] eqn:Hc; cbn in Hh |- *;
        rewrite lookup_insert_eq; cbn; destruct h as [[u' n]|]; cbn in Hh; try done.
      injection Hh as Hu Hn. destruct (bool_decide_reflect (ci_username c = u)) as [Eu|Eu]; cbn.
      * rewrite bool_decide_true by congruence. cbn. congruence.
      * rewrite bool_decide_false by congruence. done.
    + rewrite <- Hh. unfold entry_of. case_match; cbn; by rewrite lookup_insert_ne.
  - unfold entry_of, OnDisconnect. cbn. destruct (bool_decide_reflect (k = key)) as [->|Hne].
    + by rewrite lookup_delete_eq.
    + by rewrite lookup_delete_ne.
  - rewrite <- Hh. unfold entry_of, SetClientLatency. destruct (as_clients s !! k) as [c|] eqn:Hk; [|done]. cbn.
    destruct (decide (k = key)) as [->|]; [by rewrite lookup_insert_eq, Hk|by rewrite lookup_insert_ne].
  - unfold entry_of, as_AddTraffic. destruct (bool_decide_reflect (k = key)) as [->|Hne].
    + unfold entry_of in Hh. destruct (as_clients s !! key) as [c|] eqn:Hc; cbn in Hh |- *.
      * rewrite lookup_insert_eq. cbn. destruct h as [[u' n]|]; [|done]. cbn in Hh |- *.
        injection Hh as -> ->. unfold add64, wrap_u. by rewrite Z.add_mod_idemp_l.
      * rewrite Hc. by destruct h.
    + rewrite <- Hh. unfold entry_of. destruct (as_clients s !! k); cbn; by rewrite ?lookup_insert_ne.
Qed.

(** The panel's counter of a client is exact: after any sequence of
    connections, ends and deliveries, an address has an entry exactly when its last
    connection has not ended, with the user who connected and the bytes received
    since the entry was opened for this user: a reconnection of the same user keeps
    the counter, another user starts at 0. *)
Theorem panel_counters_exact key ops :
  entry_of key (foldl admin_do NewAdminState ops) = wrap_entry (foldl (history_step key) None ops).
Proof.
  assert (∀ s h, entry_of key s = wrap_entry h →
    entry_of key (foldl admin_do s ops) = wrap_entry (foldl (history_step key) h ops)) as H.
  { induction ops as [|o ops IH]; intros s h Hs; [done|]. cbn. by apply IH, entry_step. }
  apply H. unfold entry_of. cbn. by rewrite lookup_empty.
Qed.

Example counters_kept :
  entry_of "a" (foldl admin_do NewAdminState
    [OpConnect 0 "a" "bob" "multi" "a" "x"; OpTraffic 0 "a" 5 0; OpConnect 1 "a" "bob" "multi" "a" "y";
     OpTraffic 1 "a" 7 0]) = Some ("bob"%string, 12).
Proof. vm_compute. reflexivity. Qed.
