(* ===== verification/DataServer.v ===== *)
(** * The data planes of the server ([vpn-server/quic/data_server.go]):
    registration, takeover, clean-up

    A [clientStream] is shared between the handlers of its connections, so the
    table holds pointers into a heap.  A QUIC connection or stream is an
    identifier; [ds_closed] are the connections somebody closed.  A handler is the
    sequence of its critical sections: [bulk_setup] up to the point where it waits
    for its connection to end, [bulk_epilogue] its deferred part. *)

From Stdlib Require Import ZArith Lia Bool Ascii String.
From stdpp Require Import base list gmap sets strings.
From S2P Require Import Prelude.
From S2P Require Import GoNet.
From S2P Require Import GoText.
From S2P Require Import UserStore.
From S2P Require Import IPAlloc.
From S2P Require Import VpnAuth.
From S2P Require Import AdminState.
From S2P Require Import PunchTable.

Open Scope Z_scope.

(** ** State *)

Record clientStream := mkStream {
  cs_vip : string;
  cs_vipBytes : ip4;
  cs_username : string;
  cs_mode : string;
  cs_peerIP : string;
  dataConn : option positive;
  tcpStream : option positive;
  udpStream : option positive;
  matchConn : option positive;
  matchStream : option positive;
  gameTCPConn : option positive;
  gameTCPStream : option positive;
  gameConn : option positive;
  gameDatagramReady : bool;
  ctrlConn : option positive;
  ctrlReady : bool;
  icmpStream : option positive;
  hbStream : option positive;
}.
#[export] Instance eta_clientStream : Eta clientStream := λ c,
  mkStream (cs_vip c) (cs_vipBytes c) (cs_username c) (cs_mode c) (cs_peerIP c) (dataConn c)
    (tcpStream c) (udpStream c) (matchConn c) (matchStream c) (gameTCPConn c) (gameTCPStream c)
    (gameConn c) (gameDatagramReady c) (ctrlConn c) (ctrlReady c) (icmpStream c) (hbStream c).

Record DataChannelServer := mkServer {
  ds_shards : gmap Z (gmap ip4 positive);
  ds_heap : gmap positive clientStream;
  ds_closed : gset positive;
  ds_pool : IPAllocator;
  ds_auth : CustomAuthenticator;
  ds_punch : option punchTable;
  ds_admin : AdminState;
}.
#[export] Instance eta_DataServer : Eta DataChannelServer := λ s,
  mkServer (ds_shards s) (ds_heap s) (ds_closed s) (ds_pool s) (ds_auth s) (ds_punch s) (ds_admin s).

(** ** The planes of one client *)

Definition setBulkStreams (conn tcp udp : positive) (c : clientStream) : clientStream :=
  c <| dataConn := Some conn |> <| tcpStream := Some tcp |> <| udpStream := Some udp |>.
Definition setMatch (conn stream : positive) (c : clientStream) : clientStream :=
  c <| matchConn := Some conn |> <| matchStream := Some stream |>.
Definition clearMatch (c : clientStream) : clientStream :=
  c <| matchConn := None |> <| matchStream := None |>.
Definition setGameTCP (conn stream : positive) (c : clientStream) : clientStream :=
  c <| gameTCPConn := Some conn |> <| gameTCPStream := Some stream |>.
Definition clearGameTCP (c : clientStream) : clientStream :=
  c <| gameTCPConn := None |> <| gameTCPStream := None |>.
Definition setGame (conn : positive) (c : clientStream) : clientStream :=
  c <| gameConn := Some conn |> <| gameDatagramReady := true |>.
Definition clearGame (c : clientStream) : clientStream :=
  c <| gameDatagramReady := false |> <| gameConn := None |>.
Definition setCtrl (conn icmp hb : positive) (c : clientStream) : clientStream :=
  c <| ctrlConn := Some conn |> <| icmpStream := Some icmp |> <| hbStream := Some hb |>
    <| ctrlReady := true |>.
Definition clearCtrl (c : clientStream) : clientStream :=
  c <| ctrlReady := false |> <| icmpStream := None |> <| hbStream := None |> <| ctrlConn := None |>.

(** The connections [closeAll] closes. *)
Definition all_conns (c : clientStream) : list positive :=
  omap id [dataConn c; matchConn c; gameTCPConn c; gameConn c; ctrlConn c].

Definition close_conns (l : list positive) (s : DataChannelServer) : DataChannelServer :=
  s <| ds_closed ::= union (list_to_set l) |>.

Definition closeAll (p : positive) (s : DataChannelServer) : DataChannelServer :=
  match ds_heap s !! p with
  | Some c => close_conns (all_conns c) s
  | None => s
  end.

Definition on_stream (p : positive) (f : clientStream → clientStream) (s : DataChannelServer)
    : DataChannelServer := s <| ds_heap ::= alter f p |>.

(** ** The table of clients *)

Definition numShards : Z := 16.

Definition getShardIndex (vip : ip4) : Z :=
  let '(b0, b1, b2, b3) := vip in
  let h := Z.lor (Z.lor (Z.lor b0 (Z.shiftl b1 8)) (Z.shiftl b2 16)) (Z.shiftl b3 24) in
  let h := Z.lxor h (Z.shiftr h 16) in
  let h := wrap_u 32 (h * 0x85ebca6b) in
  let h := Z.lxor h (Z.shiftr h 13) in
  h mod numShards.

Definition shard (vip : ip4) (s : DataChannelServer) : gmap ip4 positive :=
  default ∅ (ds_shards s !! getShardIndex vip).

Definition set_shard (vip : ip4) (f : gmap ip4 positive → gmap ip4 positive) (s : DataChannelServer)
    : DataChannelServer := s <| ds_shards ::= <[getShardIndex vip := f (shard vip s)]> |>.

Definition lookup_vip (vip : ip4) (s : DataChannelServer) : option positive := shard vip s !! vip.

Definition register (vip : ip4) (p : positive) (s : DataChannelServer) : DataChannelServer :=
  let s := match lookup_vip vip s with Some old => closeAll old s | None => s end in
  set_shard vip (<[vip := p]>) s.

Definition getDataConn (p : positive) (s : DataChannelServer) : option positive :=
  ds_heap s !! p ≫= dataConn.

Definition unregisterData (vip : ip4) (myDataConn : option positive) (s : DataChannelServer)
    : DataChannelServer * bool :=
  match lookup_vip vip s with
  | None => (s, false)
  | Some cur =>
      if negb (bool_decide (getDataConn cur s = myDataConn)) then (s, false)
      else (set_shard vip (delete vip) s, true)
  end.

Definition ensureOnline (now : time) (p : positive) (realAddr : string) (s : DataChannelServer)
    : DataChannelServer :=
  match ds_heap s !! p with
  | None => s
  | Some c => s <| ds_admin ::= OnConnect now (cs_vip c) (cs_username c) (cs_mode c) (cs_vip c) realAddr |>
  end.

Definition cleanupDataConnVIP (vip : ip4) (vipStr : string) (myDataConn : positive)
    (username peerIP : string) (s : DataChannelServer) : DataChannelServer * bool :=
  let '(s, ok) := unregisterData vip (Some myDataConn) s in
  if negb ok then (s, false)
  else (s <| ds_punch ::= option_map (λ pt, (dropByVIP vipStr pt).1) |>
          <| ds_pool ::= ReleaseByVirtualIP vipStr |>
          <| ds_auth ::= releaseSession peerIP username vipStr |>
          <| ds_admin ::= OnDisconnect vipStr |>, true).

(** ** Kicking *)

(** The pointers of the shards, in the order of the shards. *)
Definition all_streams (s : DataChannelServer) : list positive :=
  concat ((λ i, snd <$> map_to_list (default ∅ (ds_shards s !! Z.of_nat i))) <$> seq 0 16).

Definition has_username (username : string) (s : DataChannelServer) (p : positive) : bool :=
  match ds_heap s !! p with Some c => bool_decide (cs_username c = username) | None => false end.

Definition kickAll (username : string) (s : DataChannelServer) : DataChannelServer * nat :=
  let targets := filter (λ p, has_username username s p = true) (all_streams s) in
  (foldl (λ s p, closeAll p s) s targets, length targets).

Definition Kick (username : string) (s : DataChannelServer) : DataChannelServer * bool :=
  let '(s, n) := kickAll username s in (s, negb (n =? 0)%nat).

Definition KickVIP (vip : string) (s : DataChannelServer) : DataChannelServer * bool :=
  match ParseIP vip ≫= To4 with
  | None => (s, false)
  | Some b => match lookup_vip b s with
              | None => (s, false)
              | Some p => (closeAll p s, true)
              end
  end.

(** ** The bulk data connection *)

(** The existing stream belongs to another user or address: it is taken out of
    the table first and closed then. *)
Definition drop_mismatched (vip : ip4) (p : positive) (s : DataChannelServer) : DataChannelServer :=
  closeAll p (unregisterData vip (getDataConn p s) s).1.

Definition same_identity (username peerIP : string) (c : clientStream) : bool :=
  bool_decide (cs_username c = username) && bool_decide (cs_peerIP c = peerIP).

(** The stream the new connection will reuse, if any. *)
Definition reusable (vip : ip4) (username peerIP : string) (s : DataChannelServer)
    : DataChannelServer * option positive :=
  match lookup_vip vip s with
  | None => (s, None)
  | Some p =>
      match ds_heap s !! p with
      | Some c => if same_identity username peerIP c then (s, Some p) else (drop_mismatched vip p s, None)
      | None => (s, Some p)
      end
  end.

(** The takeover of a stream: the old connection is closed, then the new streams
    are put in; [between] is what runs in between. *)
Definition takeover (between : DataChannelServer → DataChannelServer) (p conn tcp udp : positive)
    (s : DataChannelServer) : DataChannelServer :=
  let s := match getDataConn p s with
           | Some old => if bool_decide (old = conn) then s else close_conns [old] s
           | None => s
           end in
  on_stream p (setBulkStreams conn tcp udp) (between s).

Definition newStream (vip : ip4) (vipStr username mode peerIP : string) : clientStream :=
  mkStream vipStr vip username mode peerIP None None None None None None None None false None false None None.

(** From the accepted streams to the wait for the end of the connection; [p] is
    the pointer of a new [clientStream], [between] what other goroutines do once the
    old connection is closed. *)
Definition bulk_setup (between : DataChannelServer → DataChannelServer) (now : time)
    (conn tcp udp p : positive) (vip : ip4) (vipStr mode username peerIP realAddr : string)
    (s : DataChannelServer) : DataChannelServer * positive :=
  let s := s <| ds_pool ::= MarkLeaseActive vipStr |> in
  let '(s, old) := reusable vip username peerIP s in
  let '(s, q) :=
    match old with
    | Some q => (takeover between q conn tcp udp s, q)
    | None =>
        let s := (between s) <| ds_heap ::= <[p := setBulkStreams conn tcp udp
                                                (newStream vip vipStr username mode peerIP)]> |> in
        (register vip p s, p)
    end in
  (ensureOnline now q realAddr s, q).

(** The deferred part of the handler, when its connection has ended. *)
Definition bulk_epilogue (conn : positive) (vip : ip4) (vipStr username peerIP : string) (q : positive)
    (s : DataChannelServer) : DataChannelServer :=
  closeAll q (cleanupDataConnVIP vip vipStr conn username peerIP s).1.

(** [handleDataConn] up to [bulk_setup]: the registration is authorised, then the
    two streams are accepted ([None]: they did not come); the result has the
    pointer the handler goes on with. *)
Definition handle_bulk (now : time) (conn p : positive) (streams : option (positive * positive))
    (peerIP username vipStr realAddr : string) (s : DataChannelServer)
    : DataChannelServer * option positive :=
  let fail (s : DataChannelServer) := (close_conns [conn] s, None) in
  match AuthorizeDataPlane now peerIP username vipStr (ds_auth s) (Some (ds_pool s)) with
  | (a, pool, mode) =>
      let s := s <| ds_auth := a |> <| ds_pool := default (ds_pool s) pool |> in
      match mode with
      | None => fail s
      | Some mode =>
          match ParseIP vipStr ≫= To4 with
          | None => fail s
          | Some vip =>
              match streams with
              | None => fail s
              | Some (tcp, udp) =>
                  let '(s, q) := bulk_setup id now conn tcp udp p vip vipStr mode username peerIP realAddr s in
                  (s, Some q)
              end
          end
      end
  end.

(** ** The shards are one table *)

Lemma getShardIndex_range vip : 0 <= getShardIndex vip < 16.
Proof. destruct vip as [[[b0 b1] b2] b3]. unfold getShardIndex. apply Z.mod_pos_bound. done. Qed.

Lemma shard_set v w f s :
  shard v (set_shard w f s) = if bool_decide (getShardIndex v = getShardIndex w) then f (shard w s) else shard v s.
Proof.
  unfold shard at 1, set_shard. cbn. case_bool_decide as E.
  - by rewrite E, lookup_insert_eq.
  - by rewrite lookup_insert_ne by congruence.
Qed.

Lemma lookup_set_insert v w p s :
  lookup_vip v (set_shard w (<[w := p]>) s) = if bool_decide (v = w) then Some p else lookup_vip v s.
Proof.
  unfold lookup_vip. rewrite shard_set. destruct (decide (v = w)) as [->|Hne].
  - rewrite !bool_decide_true by done. by rewrite lookup_insert_eq.
  - rewrite (bool_decide_false (v = w)) by done. case_bool_decide as E; [|done].
    rewrite lookup_insert_ne by done. unfold shard. by rewrite E.
Qed.

Lemma lookup_set_delete v w s :
  lookup_vip v (set_shard w (delete w) s) = if bool_decide (v = w) then None else lookup_vip v s.
Proof.
  unfold lookup_vip. rewrite shard_set. destruct (decide (v = w)) as [->|Hne].
  - rewrite !bool_decide_true by done. by rewrite lookup_delete_eq.
  - rewrite (bool_decide_false (v = w)) by done. case_bool_decide as E; [|done].
    rewrite lookup_delete_ne by done. unfold shard. by rewrite E.
Qed.

Lemma closeAll_eq p s : ∃ l, closeAll p s = close_conns l s.
Proof.
  unfold closeAll. destruct (ds_heap s !! p); [by eexists|]. exists [].
  unfold close_conns. destruct s. cbn. f_equal. set_solver.
Qed.

Lemma lookup_closeAll v p s : lookup_vip v (closeAll p s) = lookup_vip v s.
Proof. by destruct (closeAll_eq p s) as [l ->]. Qed.

Lemma heap_closeAll p s : ds_heap (closeAll p s) = ds_heap s.
Proof. by destruct (closeAll_eq p s) as [l ->]. Qed.

Lemma heap_set_shard v f s : ds_heap (set_shard v f s) = ds_heap s.
Proof. done. Qed.

Lemma lookup_register v w p s :
  lookup_vip v (register w p s) = if bool_decide (v = w) then Some p else lookup_vip v s.
Proof.
  unfold register. destruct (lookup_vip w s); rewrite lookup_set_insert; [|done].
  by rewrite lookup_closeAll.
Qed.

Lemma lookup_unregister v w conn s :
  lookup_vip v (unregisterData w conn s).1
  = if bool_decide (v = w) && (unregisterData w conn s).2 then None else lookup_vip v s.
Proof.
  unfold unregisterData. destruct (lookup_vip w s) as [cur|]; [|by rewrite andb_false_r].
  destruct (bool_decide (getDataConn cur s = conn)); cbn [negb fst snd]; [|by rewrite andb_false_r].
  by rewrite lookup_set_delete, andb_true_r.
Qed.

(** Registering an address replaces what it had, closes all connections of the
    one replaced, and leaves every other address alone. *)
Theorem register_replaces vip p s :
  (∀ v, lookup_vip v (register vip p s) = if bool_decide (v = vip) then Some p else lookup_vip v s) ∧
  (∀ old c, lookup_vip vip s = Some old → ds_heap s !! old = Some c →
     ∀ conn, conn ∈ all_conns c → conn ∈ ds_closed (register vip p s)).
Proof.
  split; [intros; apply lookup_register|]. intros old c Hl Hc conn Hin. unfold register. rewrite Hl.
  unfold closeAll. rewrite Hc. cbn. set_solver.
Qed.

(** ** Clean-up *)

Lemma release_frees vip a :
  alloc_wf a → IsLeased (releaseVIPLocked vip a) vip = false ∧
  (IsLeased a vip = true → vip ∈ freeIPs (releaseVIPLocked vip a)).
Proof.
  intros Hwf. split.
  - apply not_true_iff_false. rewrite IsLeased_used by auto using wf_release.
    destruct (vipToDevice a !! vip) as [d|] eqn:Hd.
    + rewrite (release_used vip a d) by done. cbn. set_solver.
    + rewrite release_unused by done. rewrite (aw_used_dev _ Hwf), Hd. by intros [].
  - rewrite IsLeased_used by done. intros [d Hd]%(aw_used_dev _ Hwf).
    rewrite (release_used vip a d) by done. cbn. set_solver.
Qed.

(** C19: the end of a data connection cleans up exactly once and only for the
    connection that holds the address: if the table still has this connection, the
    address leaves the table, goes back to the free addresses of the pool, loses
    its owner, its coordination attempts and its line of the panel; the end of a
    connection that was replaced changes nothing at all. *)
Theorem cleanup_exact vip vipStr conn user peer s :
  alloc_wf (ds_pool s) → vipStr ≠ EmptyString →
  let '(s', done) := cleanupDataConnVIP vip vipStr conn user peer s in
  if done
  then (∃ p, lookup_vip vip s = Some p ∧ getDataConn p s = Some conn) ∧
    (∀ v, lookup_vip v s' = if bool_decide (v = vip) then None else lookup_vip v s) ∧
    IsLeased (ds_pool s') vipStr = false ∧
    (IsLeased (ds_pool s) vipStr = true → vipStr ∈ freeIPs (ds_pool s')) ∧
    (vipOwner (ds_auth s) !! vipStr = Some (sessionKey peer user) → vipOwner (ds_auth s') !! vipStr = None) ∧
    as_clients (ds_admin s') !! vipStr = None ∧
    (∀ pt, ds_punch s' = Some pt → map_Forall (λ _ a, involves vipStr a = false) (pt_attempts pt))
  else s' = s ∧ (∀ p, lookup_vip vip s = Some p → getDataConn p s ≠ Some conn).
Proof.
  intros Hwf Hne. unfold cleanupDataConnVIP, unregisterData.
  destruct (lookup_vip vip s) as [p|] eqn:Hl; cbn [negb]; [|split; [done|]; by intros].
  destruct (bool_decide_reflect (getDataConn p s = Some conn)) as [Hc|Hc]; cbn [negb];
    [|split; [done|]; by intros q [= <-]].
  split_and!.
  - by exists p.
  - intros v. exact (lookup_set_delete v vip s).
  - exact (proj1 (release_frees vipStr _ Hwf)).
  - exact (proj2 (release_frees vipStr _ Hwf)).
  - intros Ho. cbn. unfold releaseSession. rewrite bool_decide_false by done. rewrite Ho. cbn.
    rewrite bool_decide_true by done. cbn. apply lookup_delete_eq.
  - cbn. apply lookup_delete_eq.
  - cbn. intros pt Hpt. destruct (ds_punch s) as [t|]; [|done]. injection Hpt as <-.
    unfold dropByVIP. rewrite bool_decide_false by done. cbn. intros k a Ha.
    by apply map_lookup_filter_Some in Ha as [_ Ha].
Qed.

(** ** A second connection for the same address *)

Lemma cleanup_stale vip vipStr conn user peer s :
  (∀ p, lookup_vip vip s = Some p → getDataConn p s ≠ Some conn) →
  cleanupDataConnVIP vip vipStr conn user peer s = (s, false).
Proof.
  intros H. unfold cleanupDataConnVIP, unregisterData.
  destruct (lookup_vip vip s) as [p|]; [|done]. by rewrite bool_decide_false by auto.
Qed.

Lemma cleanup_current vip vipStr conn user peer s p :
  lookup_vip vip s = Some p → getDataConn p s = Some conn →
  (cleanupDataConnVIP vip vipStr conn user peer s).1
  = set_shard vip (delete vip) s
      <| ds_punch ::= option_map (λ pt, (dropByVIP vipStr pt).1) |>
      <| ds_pool ::= ReleaseByVirtualIP vipStr |>
      <| ds_auth ::= releaseSession peer user vipStr |>
      <| ds_admin ::= OnDisconnect vipStr |>.
Proof.
  intros Hl Hc. unfold cleanupDataConnVIP, unregisterData. by rewrite Hl, bool_decide_true by done.
Qed.

Lemma closed_closeAll p s c conn :
  ds_heap s !! p = Some c → conn ∈ ds_closed (closeAll p s) ↔ conn ∈ all_conns c ∨ conn ∈ ds_closed s.
Proof. intros Hc. unfold closeAll. rewrite Hc. cbn. set_solver. Qed.

Lemma dataConn_all c conn : dataConn c = Some conn → conn ∈ all_conns c.
Proof. intros H. unfold all_conns. cbn. rewrite H. cbn. left. Qed.

Lemma closed_ensureOnline now p addr s : ds_closed (ensureOnline now p addr s) = ds_closed s.
Proof. unfold ensureOnline. by case_match. Qed.
Lemma heap_ensureOnline now p addr s : ds_heap (ensureOnline now p addr s) = ds_heap s.
Proof. unfold ensureOnline. by case_match. Qed.
Lemma pool_ensureOnline now p addr s : ds_pool (ensureOnline now p addr s) = ds_pool s.
Proof. unfold ensureOnline. by case_match. Qed.
Lemma lookup_ensureOnline now v p addr s : lookup_vip v (ensureOnline now p addr s) = lookup_vip v s.
Proof. unfold ensureOnline. by case_match. Qed.
Lemma pool_closeAll p s : ds_pool (closeAll p s) = ds_pool s.
Proof. by destruct (closeAll_eq p s) as [l ->]. Qed.

(** The reconnection of a client whose old data connection is still registered
    fails in both orders of the server's goroutines.  The new connection closes the
    old one and reuses its [clientStream]; the deferred part of the old handler then
    closes every connection of that shared object.  If it runs after the takeover
    the new connection is closed with the rest; if it runs before the new streams
    are put in, it takes the address out of the table and back to the pool while
    the new connection goes on. *)
Theorem takeover_cannot_survive now conn old tcp udp p q c vip vipStr mode user peer addr s :
  lookup_vip vip s = Some q → ds_heap s !! q = Some c → dataConn c = Some old → old ≠ conn →
  cs_username c = user → cs_peerIP c = peer → alloc_wf (ds_pool s) → vipStr ≠ EmptyString →
  let ending := bulk_epilogue old vip vipStr user peer q in
  let late := ending (bulk_setup id now conn tcp udp p vip vipStr mode user peer addr s).1 in
  let early := (bulk_setup ending now conn tcp udp p vip vipStr mode user peer addr s).1 in
  (lookup_vip vip late = Some q ∧ getDataConn q late = Some conn ∧ conn ∈ ds_closed late) ∧
  (lookup_vip vip early = None ∧ getDataConn q early = Some conn ∧ IsLeased (ds_pool early) vipStr = false).
Proof.
  intros Hl Hq Ho Hne Hu Hp Hwf Hv ending late early.
  assert (∀ between, (bulk_setup between now conn tcp udp p vip vipStr mode user peer addr s)
    = (ensureOnline now q addr (on_stream q (setBulkStreams conn tcp udp)
         (between (close_conns [old] (s <| ds_pool ::= MarkLeaseActive vipStr |>)))), q)) as Hset.
  { intros between. unfold bulk_setup, reusable.
    change (lookup_vip vip (s <| ds_pool ::= MarkLeaseActive vipStr |>)) with (lookup_vip vip s). rewrite Hl.
    change (ds_heap (s <| ds_pool ::= MarkLeaseActive vipStr |>)) with (ds_heap s). rewrite Hq.
    unfold same_identity. rewrite !bool_decide_true by done. cbn [andb]. unfold takeover.
    change (getDataConn q (s <| ds_pool ::= MarkLeaseActive vipStr |>)) with (ds_heap s !! q ≫= dataConn).
    rewrite Hq. cbn [mbind option_bind]. by rewrite Ho, bool_decide_false by done. }
  split.
  - subst late ending. rewrite Hset. cbn [fst id].
    set (s1 := close_conns [old] (s <| ds_pool ::= MarkLeaseActive vipStr |>)).
    set (s2 := ensureOnline now q addr (on_stream q (setBulkStreams conn tcp udp) s1)).
    assert (ds_heap s2 !! q = Some (setBulkStreams conn tcp udp c)) as Hh.
    { unfold s2. rewrite heap_ensureOnline. cbn. by rewrite lookup_alter_eq, Hq. }
    assert (lookup_vip vip s2 = Some q) as Hl2 by (unfold s2; by rewrite lookup_ensureOnline).
    unfold bulk_epilogue. rewrite cleanup_stale.
    2: { intros q'. rewrite Hl2. intros [= <-]. unfold getDataConn. rewrite Hh. cbn. congruence. }
    cbn [fst]. rewrite lookup_closeAll, Hl2. unfold getDataConn. rewrite heap_closeAll, Hh.
    split_and!; [done|done|]. apply (closed_closeAll _ _ _ _ Hh). left. by apply dataConn_all.
  - subst early. rewrite Hset. cbn [fst]. rewrite lookup_ensureOnline, pool_ensureOnline.
    subst ending. unfold bulk_epilogue. erewrite cleanup_current; [|exact Hl|].
    2: { unfold getDataConn. cbn. by rewrite Hq. }
    set (s3 := set_shard _ _ _ <| _ ::= _ |> <| _ ::= _ |> <| _ ::= _ |> <| _ ::= _ |>).
    assert (ds_heap (closeAll q s3) !! q = Some c) as Hh by (rewrite heap_closeAll; exact Hq).
    split_and!.
    + change (lookup_vip vip (on_stream q (setBulkStreams conn tcp udp) (closeAll q s3)))
        with (lookup_vip vip (closeAll q s3)). rewrite lookup_closeAll.
      change (lookup_vip vip s3) with (lookup_vip vip (set_shard vip (delete vip)
        (close_conns [old] (s <| ds_pool ::= MarkLeaseActive vipStr |>)))).
      rewrite lookup_set_delete. by rewrite bool_decide_true.
    + unfold getDataConn. rewrite heap_ensureOnline. cbn. by rewrite lookup_alter_eq, Hh.
    + change (ds_pool (on_stream q (setBulkStreams conn tcp udp) (closeAll q s3))) with (ds_pool (closeAll q s3)).
      rewrite pool_closeAll. apply (release_frees vipStr (MarkLeaseActive vipStr (ds_pool s))).
      by apply wf_MarkLeaseActive.
Qed.

(** A state in which the stale stream [q] is out of the table. *)
Lemma dropped_stream vip vipStr q c user peer s :
  lookup_vip vip s = Some q → ds_heap s !! q = Some c → same_identity user peer c = false →
  let s1 := drop_mismatched vip q (s <| ds_pool ::= MarkLeaseActive vipStr |>) in
  reusable vip user peer (s <| ds_pool ::= MarkLeaseActive vipStr |>) = (s1, None) ∧
  lookup_vip vip s1 = None ∧ ds_heap s1 = ds_heap s ∧ ds_pool s1 = MarkLeaseActive vipStr (ds_pool s) ∧
  (∀ conn, conn ∈ ds_closed s1 ↔ conn ∈ all_conns c ∨ conn ∈ ds_closed s).
Proof.
  intros Hl Hq Hid. cbv zeta. set (s0 := s <| ds_pool ::= MarkLeaseActive vipStr |>).
  assert (lookup_vip vip s0 = Some q) as Hl0 by exact Hl.
  assert (ds_heap s0 !! q = Some c) as Hq0 by exact Hq.
  unfold reusable. rewrite Hl0, Hq0, Hid. split; [done|].
  unfold drop_mismatched, unregisterData. rewrite Hl0, bool_decide_true by done. cbn [negb fst].
  rewrite lookup_closeAll, heap_closeAll, pool_closeAll, lookup_set_delete, bool_decide_true by done.
  split_and!; try done. intros conn. by rewrite (closed_closeAll q (set_shard vip (delete vip) s0) c conn Hq0).
Qed.

(** The epilogue of a handler whose stream is not in the table only closes. *)
Lemma epilogue_stale old vip vipStr user peer q s :
  (∀ p, lookup_vip vip s = Some p → getDataConn p s ≠ Some old) →
  bulk_epilogue old vip vipStr user peer q s = closeAll q s.
Proof. intros H. unfold bulk_epilogue. by rewrite cleanup_stale. Qed.

(** A fresh stream put into the table. *)
Lemma fresh_stream now addr vip vipStr mode user peer p conn tcp udp s :
  lookup_vip vip s = None →
  let s' := ensureOnline now p addr (register vip p (s <| ds_heap ::= <[p := setBulkStreams conn tcp udp
              (newStream vip vipStr user mode peer)]> |>)) in
  lookup_vip vip s' = Some p ∧ getDataConn p s' = Some conn ∧ ds_closed s' = ds_closed s ∧
  is_Some (as_clients (ds_admin s') !! vipStr) ∧ ds_pool s' = ds_pool s ∧
  (∀ q, q ≠ p → ds_heap s' !! q = ds_heap s !! q).
Proof.
  intros Hl. cbv zeta. set (n := setBulkStreams conn tcp udp (newStream vip vipStr user mode peer)).
  set (s0 := s <| ds_heap ::= <[p := n]> |>).
  assert (register vip p s0 = set_shard vip (<[vip := p]>) s0) as ->
    by (unfold register; by change (lookup_vip vip s0) with (lookup_vip vip s); rewrite Hl).
  assert (ds_heap (set_shard vip (<[vip := p]>) s0) !! p = Some n) as Hn by (cbn; by rewrite lookup_insert_eq).
  rewrite lookup_ensureOnline, lookup_set_insert, bool_decide_true by done.
  unfold getDataConn. rewrite heap_ensureOnline, Hn. unfold ensureOnline. rewrite Hn.
  split_and!; try done.
  - cbn. unfold OnConnect. case_match; cbn; rewrite lookup_insert_eq; by eexists.
  - intros q Hq. cbn. by rewrite lookup_insert_ne.
Qed.

(** A connection of another identity replaces a stale one safely: the old
    stream leaves the table before it is closed, so that, whenever the deferred
    part of the old handler runs, the new connection stays registered, open and on
    the panel, and its lease is kept. *)
Theorem mismatched_takeover_survives now conn old tcp udp p q c vip vipStr mode user peer addr s user0 peer0 :
  lookup_vip vip s = Some q → ds_heap s !! q = Some c → dataConn c = Some old →
  same_identity user peer c = false → p ≠ q →
  (conn ∉ all_conns c) → (conn ∉ ds_closed s) → vipStr ≠ EmptyString → alloc_wf (ds_pool s) →
  let ending := bulk_epilogue old vip vipStr user0 peer0 q in
  let late := ending (bulk_setup id now conn tcp udp p vip vipStr mode user peer addr s).1 in
  let early := (bulk_setup ending now conn tcp udp p vip vipStr mode user peer addr s).1 in
  ∀ s', s' = late ∨ s' = early →
  lookup_vip vip s' = Some p ∧ getDataConn p s' = Some conn ∧ (conn ∉ ds_closed s') ∧
  is_Some (as_clients (ds_admin s') !! vipStr) ∧
  IsLeased (ds_pool s') vipStr = IsLeased (ds_pool s) vipStr.
Proof.
  intros Hl Hq Ho Hid Hpq Hall Hcl Hv Hwf ending late early s' Hs'.
  destruct (dropped_stream vip vipStr q c user peer s Hl Hq Hid) as (Hr & Hl1 & Hh1 & Hp1 & Hc1).
  set (s1 := drop_mismatched vip q (s <| ds_pool ::= MarkLeaseActive vipStr |>)) in *.
  assert (conn ≠ old) as Hne by (intros ->; apply Hall; by apply dataConn_all).
  assert (∀ between, bulk_setup between now conn tcp udp p vip vipStr mode user peer addr s
    = (ensureOnline now p addr (register vip p ((between s1) <| ds_heap ::= <[p := setBulkStreams conn tcp udp
        (newStream vip vipStr user mode peer)]> |>)), p)) as Hset by (intros; unfold bulk_setup; by rewrite Hr).
  assert (IsLeased (ds_pool s1) vipStr = IsLeased (ds_pool s) vipStr) as Hlease
    by (rewrite Hp1; apply IsLeased_MarkLeaseActive).
  destruct Hs' as [->| ->].
  - subst late. rewrite Hset. cbn [fst id].
    destruct (fresh_stream now addr vip vipStr mode user peer p conn tcp udp s1 Hl1) as (F1 & F2 & F3 & F4 & F5 & F6).
    set (s2 := ensureOnline _ _ _ _) in *. subst ending. rewrite epilogue_stale.
    2: { intros p'. rewrite F1. intros [= <-]. rewrite F2. congruence. }
    assert (ds_heap s2 !! q = Some c) as Hq2 by (rewrite F6, Hh1 by done; exact Hq).
    unfold getDataConn. rewrite lookup_closeAll, heap_closeAll, pool_closeAll, F5.
    split_and!; [done|exact F2| |by destruct (closeAll_eq q s2) as [l ->]|done].
    rewrite (closed_closeAll q s2 c conn Hq2), F3, Hc1. tauto.
  - subst early. rewrite Hset. cbn [fst].
    assert (ending s1 = closeAll q s1) as He by (subst ending; apply epilogue_stale; by rewrite Hl1).
    rewrite He. destruct (fresh_stream now addr vip vipStr mode user peer p conn tcp udp (closeAll q s1))
      as (F1 & F2 & F3 & F4 & F5 & F6); [by rewrite lookup_closeAll|].
    split_and!; [done|done| |done|by rewrite F5, pool_closeAll].
    rewrite F3, (closed_closeAll q s1 c conn), Hc1 by (by rewrite Hh1). tauto.
Qed.

(** ** Witnesses: one client on line *)

Definition idle_server : DataChannelServer := mkServer ∅ ∅ ∅ demo_pool demo_auth None NewAdminState.
Definition demo_ip : ip4 := (10, 0, 0, 100).
Definition one_client : DataChannelServer :=
  (handle_bulk 0 1 1 (Some (2, 3)%positive) "1.2.3.4" "bob" "10.0.0.100" "1.2.3.4:5" idle_server).1.

Lemma wf_demo_pool : alloc_wf demo_pool.
Proof.
  unfold demo_pool. destruct (AllocateByDeviceID 0 "d1" NewIPAllocator) as [[a vip]|] eqn:E.
  - eapply wf_allocate; [exact E|apply wf_NewIPAllocator].
  - apply wf_NewIPAllocator.
Qed.

Lemma pool_one_client : ds_pool one_client = MarkLeaseActive "10.0.0.100" (MarkLeaseActive "10.0.0.100" demo_pool).
Proof. vm_compute. reflexivity. Qed.

Lemma wf_one_client : alloc_wf (ds_pool one_client).
Proof. rewrite pool_one_client. apply wf_MarkLeaseActive, wf_MarkLeaseActive, wf_demo_pool. Qed.

Definition bob_stream : clientStream :=
  setBulkStreams 1 2 3 (newStream demo_ip "10.0.0.100" "bob" "multi" "1.2.3.4").

Lemma cleanup_exact_witness :
  let '(s', done) := cleanupDataConnVIP demo_ip "10.0.0.100" 1 "bob" "1.2.3.4" one_client in
  done = true ∧ IsLeased (ds_pool s') "10.0.0.100" = false.
Proof.
  assert ((cleanupDataConnVIP demo_ip "10.0.0.100" 1 "bob" "1.2.3.4" one_client).2 = true) as Hd
    by (vm_compute; reflexivity).
  pose proof (cleanup_exact demo_ip "10.0.0.100" 1 "bob" "1.2.3.4" one_client wf_one_client
    ltac:(discriminate)) as H.
  destruct (cleanupDataConnVIP demo_ip "10.0.0.100" 1 "bob" "1.2.3.4" one_client) as [s' d].
  cbn in Hd. subst d. destruct H as (_ & _ & H & _). split; [reflexivity|exact H].
Defined.

Lemma takeover_cannot_survive_witness :
  4%positive ∈ ds_closed (bulk_epilogue 1 demo_ip "10.0.0.100" "bob" "1.2.3.4" 1
    (bulk_setup id 0 4 5 6 9 demo_ip "10.0.0.100" "multi" "bob" "1.2.3.4" "1.2.3.4:6" one_client).1).
Proof.
  apply (takeover_cannot_survive 0 4 1 5 6 9 1 bob_stream demo_ip "10.0.0.100" "multi" "bob" "1.2.3.4"
    "1.2.3.4:6" one_client); try (vm_compute; reflexivity); try discriminate. exact wf_one_client.
Defined.

Lemma mismatched_takeover_survives_witness :
  let s' := bulk_epilogue 1 demo_ip "10.0.0.100" "bob" "1.2.3.4" 1
    (bulk_setup id 0 4 5 6 9 demo_ip "10.0.0.100" "multi" "eve" "5.6.7.8" "5.6.7.8:6" one_client).1 in
  lookup_vip demo_ip s' = Some 9%positive ∧ getDataConn 9 s' = Some 4%positive.
Proof.
  cbv zeta. pose proof (mismatched_takeover_survives 0 4 1 5 6 9 1 bob_stream demo_ip "10.0.0.100" "multi" "eve"
    "5.6.7.8" "5.6.7.8:6" one_client "bob" "1.2.3.4") as H.
  assert (lookup_vip demo_ip one_client = Some 1%positive) as H1 by (vm_compute; reflexivity).
  assert (ds_heap one_client !! 1%positive = Some bob_stream) as H2 by (vm_compute; reflexivity).
  assert (4%positive ∉ all_conns bob_stream) as H3
    by (apply (bool_decide_unpack (4%positive ∉ all_conns bob_stream)); vm_compute; exact I).
  assert (4%positive ∉ ds_closed one_client) as H4
    by (apply (bool_decide_unpack (4%positive ∉ ds_closed one_client)); vm_compute; exact I).
  destruct (H H1 H2 eq_refl eq_refl ltac:(discriminate) H3 H4 ltac:(discriminate) wf_one_client _ (or_introl eq_refl))
    as (R1 & R2 & _).
  split; [exact R1|exact R2].
Defined.

(** ** A registration that is not followed through *)

Lemma reap_keeps_active now order vip a :
  alloc_wf a → leases a !! vip = Some time_zero → leases (reapExpiredLeases now order a) !! vip = Some time_zero.
Proof.
  intros Hwf Hl. rewrite reap_leases, Hl by done. unfold expired_lease, IsZero. cbn. by rewrite andb_false_r.
Qed.

(** A client that registers and then does not open its streams keeps the address
    for ever: the authorisation has marked the lease as in use, and the reclamation,
    at any time and however often, passes over it; only the end of a data
    connection that got into the table would release it. *)
Theorem aborted_registration_leaks now conn p user peer vip addr s rounds :
  alloc_wf (ds_pool s) →
  (AuthorizeDataPlane now peer user vip (ds_auth s) (Some (ds_pool s))).2 = Some "multi"%string →
  let '(s', q) := handle_bulk now conn p None peer user vip addr s in
  q = None ∧ (∀ v, lookup_vip v s' = lookup_vip v s) ∧ conn ∈ ds_closed s' ∧
  IsLeased (foldl (λ a '(t, order), reapExpiredLeases t order a) (ds_pool s') rounds) vip = true.
Proof.
  intros Hwf Hok. unfold handle_bulk. unfold AuthorizeDataPlane in *.
  destruct (AuthorizeDataPlane_cases id now peer user vip (ds_auth s) (Some (ds_pool s)))
    as [(exp & al & Hin & Hle & Hal & Hl & Ho & E)|(pl & [E|E])]; rewrite E in Hok; [|done..].
  rewrite E. injection Hal as <-. cbn [id].
  assert (is_Some (leases (ds_pool s) !! vip)) as [t Ht].
  { apply (aw_used_lease _ Hwf). by apply IsLeased_used. }
  assert (vip ≠ EmptyString) as Hne.
  { intros ->. cbn in Hl. unfold IsLeased in Hl. by rewrite bool_decide_true in Hl. }
  assert (∀ l a, alloc_wf a → leases a !! vip = Some time_zero →
    IsLeased (foldl (λ a '(t, order), reapExpiredLeases t order a) a l) vip = true) as Hkeep.
  { clear -Hne. induction l as [|[t order] l IH]; intros a Hwf Ha; cbn.
    - apply IsLeased_used; [done|]. apply (aw_used_lease _ Hwf). eauto.
    - apply IH; [by apply wf_reap|by apply reap_keeps_active]. }
  assert (alloc_wf (MarkLeaseActive vip (ds_pool s)) ∧ leases (MarkLeaseActive vip (ds_pool s)) !! vip = Some time_zero) as [Hw Hz].
  { split; [by apply wf_MarkLeaseActive|]. unfold MarkLeaseActive. rewrite bool_decide_false, Ht by done.
    apply lookup_insert_eq. }
  destruct (ParseIP vip ≫= To4); split_and!; try done; try (cbn; set_solver); by apply Hkeep.
Qed.

Lemma aborted_registration_leaks_witness :
  let '(s', q) := handle_bulk 0 1 1 None "1.2.3.4" "bob" "10.0.0.100" "1.2.3.4:5" idle_server in
  q = None ∧ IsLeased (foldl (λ a '(t, order), reapExpiredLeases t order a) (ds_pool s')
    [(24 * hour, ["10.0.0.100"%string])]) "10.0.0.100" = true.
Proof.
  pose proof (aborted_registration_leaks 0 1 1 "bob" "1.2.3.4" "10.0.0.100" "1.2.3.4:5" idle_server
    [(24 * hour, ["10.0.0.100"%string])] wf_demo_pool) as H.
  assert ((AuthorizeDataPlane 0 "1.2.3.4" "bob" "10.0.0.100" (ds_auth idle_server) (Some (ds_pool idle_server))).2
    = Some "multi"%string) as E by (vm_compute; reflexivity).
  specialize (H E).
  destruct (handle_bulk 0 1 1 None "1.2.3.4" "bob" "10.0.0.100" "1.2.3.4:5" idle_server) as [s' q].
  destruct H as (H1 & _ & _ & H2). split; [exact H1|exact H2].
Defined.

(** ** The other planes *)

(** The deferred part of the handler of an auxiliary plane clears the plane
    whoever holds it: after a reconnection it takes the new connection's streams
    away. *)
Theorem stale_handler_clears_plane c conn1 conn2 icmp1 hb1 icmp2 hb2 m1 st1 m2 st2 :
  (let c' := clearCtrl (setCtrl conn2 icmp2 hb2 (setCtrl conn1 icmp1 hb1 c)) in
   ctrlConn c' = None ∧ icmpStream c' = None ∧ hbStream c' = None ∧ ctrlReady c' = false) ∧
  (let c' := clearMatch (setMatch m2 st2 (setMatch m1 st1 c)) in matchConn c' = None ∧ matchStream c' = None).
Proof. done. Qed.

(** ** Kicking a user *)

Lemma all_streams_lookup v p s : lookup_vip v s = Some p → p ∈ all_streams s.
Proof.
  unfold lookup_vip, shard, all_streams. pose proof (getShardIndex_range v) as Hr. intros Hl.
  apply list_elem_of_In, in_concat.
  exists (snd <$> map_to_list (default ∅ (ds_shards s !! getShardIndex v))). split; apply list_elem_of_In.
  - apply list_elem_of_fmap. exists (Z.to_nat (getShardIndex v)).
    rewrite Z2Nat.id by lia. split; [reflexivity|]. apply elem_of_seq. lia.
  - apply list_elem_of_fmap. exists (v, p). split; [done|]. by apply elem_of_map_to_list.
Qed.

Lemma closeAll_fold ps s :
  let s' := foldl (λ s p, closeAll p s) s ps in
  ds_heap s' = ds_heap s ∧ ds_shards s' = ds_shards s ∧
  ∀ conn, conn ∈ ds_closed s' ↔
    conn ∈ ds_closed s ∨ ∃ p c, p ∈ ps ∧ ds_heap s !! p = Some c ∧ conn ∈ all_conns c.
Proof.
  revert s. induction ps as [|p ps IH]; intros s; cbn.
  { split_and!; [done|done|]. intros conn. split; [by left|]. intros [?|(p & c & Hp & _)]; [done|].
    by apply elem_of_nil in Hp. }
  destruct (IH (closeAll p s)) as (H1 & H2 & H3). rewrite H1, H2, heap_closeAll.
  split_and!; [done|by destruct (closeAll_eq p s) as [l ->]|]. intros conn. rewrite H3, heap_closeAll.
  destruct (ds_heap s !! p) as [c|] eqn:Hp.
  - rewrite (closed_closeAll p s c conn Hp). setoid_rewrite elem_of_cons. naive_solver.
  - assert (closeAll p s = s) as -> by (unfold closeAll; by rewrite Hp).
    setoid_rewrite elem_of_cons. naive_solver.
Qed.

Lemma Kick_effect user s :
  let s' := (Kick user s).1 in
  ds_heap s' = ds_heap s ∧ ds_shards s' = ds_shards s ∧ ds_closed s ⊆ ds_closed s' ∧
  (∀ v p c, lookup_vip v s = Some p → ds_heap s !! p = Some c → cs_username c = user →
     ∀ conn, conn ∈ all_conns c → conn ∈ ds_closed s') ∧
  (∀ conn, conn ∈ ds_closed s' → conn ∈ ds_closed s ∨
     ∃ p c, ds_heap s !! p = Some c ∧ cs_username c = user ∧ conn ∈ all_conns c).
Proof.
  unfold Kick, kickAll. cbn [fst].
  destruct (closeAll_fold (filter (λ p, has_username user s p = true) (all_streams s)) s) as (H1 & H2 & H3).
  split_and!; [done|done|intros conn Hc; apply H3; by left|..].
  - intros v p c Hl Hp Hu conn Hc. apply H3. right. exists p, c. split_and!; [|done|done].
    apply list_elem_of_filter. split; [|by eapply all_streams_lookup].
    unfold has_username. by rewrite Hp, bool_decide_true.
  - intros conn [?|(p & c & Hp & Hc & Hin)]%H3; [by left|right]. exists p, c. split_and!; [done| |done].
    apply list_elem_of_filter in Hp as [Hu _]. unfold has_username in Hu. rewrite Hc in Hu. by case_bool_decide.
Qed.

Lemma run_kicks_effect users s s' :
  s' = (run_kicks Kick users s).1 →
  ds_heap s' = ds_heap s ∧ ds_shards s' = ds_shards s ∧ ds_closed s ⊆ ds_closed s' ∧
  (∀ user v p c, user ∈ users → lookup_vip v s = Some p → ds_heap s !! p = Some c → cs_username c = user →
     ∀ conn, conn ∈ all_conns c → conn ∈ ds_closed s') ∧
  (∀ conn, conn ∈ ds_closed s' → conn ∈ ds_closed s ∨
     ∃ p c, ds_heap s !! p = Some c ∧ cs_username c ∈ users ∧ conn ∈ all_conns c).
Proof.
  intros ->. unfold run_kicks.
  match goal with |- context [foldl ?F _ _] => set (Fk := F) end.
  generalize (@nil string). revert s.
  induction users as [|u users IH]; intros s k; cbn [foldl].
  { split_and!; try done. - intros user v p c Hu. by apply elem_of_nil in Hu. - by left. }
  destruct (Kick_effect u s) as (A1 & A2 & A3 & A4 & A5).
  assert (∃ k', Fk (s, k) u = ((Kick u s).1, k')) as [k' ->] by (unfold Fk; destruct (Kick u s); by eexists).
  set (s1 := (Kick u s).1) in *.
  destruct (IH s1 k') as (B1 & B2 & B3 & B4 & B5).
  set (s2 := (foldl _ _ users).1) in *.
  rewrite B1, B2, A1, A2. split_and!; [done|done|by etransitivity|..].
  - intros user v p c [->|Hin]%elem_of_cons Hl Hp Hu conn Hc.
    + apply B3. by eapply A4.
    + eapply B4; [done| |by rewrite A1|done|done]. rewrite <- Hl. unfold lookup_vip, shard. by rewrite A2.
  - intros conn [Hc|(p & c & Hp & Hu & Hc)]%B5.
    + apply A5 in Hc as [?|(p & c & Hp & Hu & Hc)]; [by left|right]. exists p, c. split_and!; [done| |done].
      rewrite Hu. left.
    + right. exists p, c. rewrite A1 in Hp. split_and!; [done|by right|done].
Qed.

(** [checkQuotaOnce] of the manager. *)
Definition checkQuotaOnce (st : Store) (s : DataChannelServer) : DataChannelServer * list string :=
  kickOverQuota (userQuota st) Kick (onlineUsernames (ds_admin s)) s.

(** The run-time quota check disconnects exactly those it should: every
    connection of every plane of a client in the table whose user is on line and
    has used up the quota is closed, and no connection of any other user is. *)
Theorem quota_check_disconnects st s :
  let s' := (checkQuotaOnce st s).1 in
  (∀ v p c, lookup_vip v s = Some p → ds_heap s !! p = Some c → cs_username c ≠ EmptyString →
     cs_username c ∈ onlineUsernames (ds_admin s) → OverQuota (userQuota st (cs_username c)) = true →
     ∀ conn, conn ∈ all_conns c → conn ∈ ds_closed s') ∧
  (∀ conn, conn ∈ ds_closed s' → conn ∉ ds_closed s →
     ∃ p c, ds_heap s !! p = Some c ∧ conn ∈ all_conns c ∧
       OverQuota (userQuota st (cs_username c)) = true).
Proof.
  cbv zeta. unfold checkQuotaOnce.
  destruct (kick_over_quota_reference (userQuota st) Kick (onlineUsernames (ds_admin s)) s)
    as (targets & _ & _ & Ht & ->).
  destruct (run_kicks_effect targets s _ eq_refl) as (_ & _ & _ & H1 & H2). split.
  - intros v p c Hl Hp Hne Hon Hq conn Hc. by eapply H1; [apply Ht| | | |].
  - intros conn [?|(p & c & Hp & Hu & Hc)]%H2 Hn; [done|]. exists p, c.
    apply Ht in Hu as (_ & _ & Hu). done.
Qed.
