(* ===== verification/Relay.v ===== *)
(** * Forwarding between the clients ([vpn-server/quic/data_server.go]): what the
    read loops do with one packet, accounting, and the echo replies of the server

    A packet is the list of its bytes.  The loops only differ in the planes they
    write to; [relay_step] is the body of all of them, chosen by the plane the
    packet came in on. *)

From Stdlib Require Import ZArith Lia Bool Ascii String.
From stdpp Require Import base list gmap sets strings.
From S2P Require Import Prelude.
From S2P Require Import GoNet.
From S2P Require Import UserStore.
From S2P Require Import AdminState.
From S2P Require Import DataServer.

Open Scope Z_scope.

(** ** Reading the headers *)

Definition at_ (data : list Z) (i : nat) : Z := nth i data 0.
Definition be16 (data : list Z) (i : nat) : Z := at_ data i * 256 + at_ data (i + 1).

Definition ip_version (data : list Z) : Z := Z.land (Z.shiftr (at_ data 0) 4) 0xF.
Definition ip_ihl (data : list Z) : Z := Z.land (at_ data 0) 0x0F * 4.

Definition extractDstIPv4 (data : list Z) : option ip4 :=
  if (length data <? 20)%nat then None
  else if negb (ip_version data =? 4) then None
  else let ihl := ip_ihl data in
       if (ihl <? 20) || (Z.of_nat (length data) <? ihl) then None
       else Some (at_ data 16, at_ data 17, at_ data 18, at_ data 19).

(** The common part of the four port functions: [proto] the protocol it asks for,
    [off] where the port is in the transport header. *)
Definition extract_port (proto : option Z) (off : nat) (data : list Z) : option Z :=
  if (length data <? 20)%nat then None
  else if negb (ip_version data =? 4) then None
  else if match proto with Some p => negb (at_ data 9 =? p) | None => false end then None
  else let ihl := ip_ihl data in
       if (ihl <? 20) || (Z.of_nat (length data) <? ihl + 4) then None
       else Some (be16 data (Z.to_nat ihl + off)).

Definition extractTCPDstPort := extract_port None 2.
Definition extractTCPSrcPort := extract_port (Some 6) 0.
Definition extractUDPSrcPort := extract_port (Some 17) 0.
Definition extractUDPDstPort := extract_port (Some 17) 2.

Definition isBroadcastOrMulticast (ip : ip4) : bool :=
  let '(b0, b1, b2, b3) := ip in
  if (0xE0 <=? b0) && (b0 <=? 0xEF) then true
  else if (b0 =? 0xFF) && (b1 =? 0xFF) && (b2 =? 0xFF) && (b3 =? 0xFF) then true
  else if b3 =? 0xFF then true
  else bool_decide (ip = (0, 0, 0, 0)).

(** ** Writing to a client *)

Inductive channel := VTCP | VUDP | VMatch | VGameTCP | VDatagram | VICMP.

(** The channel a frame goes out on, [None] when the plane is not there: the
    match plane falls back to the bulk UDP stream, the game plane to the bulk TCP
    stream. *)
Definition writeTCPFrame (c : clientStream) : option channel :=
  match tcpStream c with Some _ => Some VTCP | None => None end.
Definition writeUDPFrame (c : clientStream) : option channel :=
  match udpStream c with Some _ => Some VUDP | None => None end.
Definition writeICMPFrame (c : clientStream) : option channel :=
  match icmpStream c with Some _ => Some VICMP | None => None end.
Definition writeMatchFrame (c : clientStream) : option channel :=
  match matchStream c with Some _ => Some VMatch | None => writeUDPFrame c end.
Definition writeGameTCPFrame (c : clientStream) : option channel :=
  match gameTCPStream c with Some _ => Some VGameTCP | None => writeTCPFrame c end.

(** ** One packet *)

Inductive plane := PTCP | PMatch | PGameTCP | PGame | PUDP | PICMP.
#[export] Instance plane_eq_dec : EqDecision plane.
Proof. solve_decision. Defined.

Record RelayConfig := mkRelay {
  serverVIP : option ip4;
  gamePorts : gset Z;
  udpMatchPorts : gset Z;
  udpUnreliablePorts : gset Z;
}.

Definition port_in (p : option Z) (ports : gset Z) : bool :=
  match p with Some p => bool_decide (p ∈ ports) | None => false end.

Definition is_some {A} (o : option A) : bool := match o with Some _ => true | None => false end.

(** The channel to the destination for a packet that came in on a plane. *)
Definition choose (cfg : RelayConfig) (from : plane) (pkt : list Z) (dst : clientStream) : option channel :=
  match from with
  | PTCP => writeTCPFrame dst
  | PMatch => writeMatchFrame dst
  | PGameTCP => if port_in (extractTCPDstPort pkt) (gamePorts cfg) then writeGameTCPFrame dst else writeTCPFrame dst
  | PGame => match gameConn dst with Some _ => Some VDatagram | None => writeUDPFrame dst end
  | PUDP => if port_in (extractUDPDstPort pkt) (udpMatchPorts cfg) && is_some (matchStream dst)
            then writeMatchFrame dst else writeUDPFrame dst
  | PICMP => writeICMPFrame dst
  end.

Inductive outcome :=
  | Dropped                                   (* not forwarded *)
  | ToServer                                  (* for the server's own TUN, or answered *)
  | Forwarded (dst : positive) (via : channel)
  | Refused (dst : positive).                 (* [SendDatagram] failed, which is only logged *)

(** [sent]: whether the write to the QUIC stream, or [SendDatagram], succeeded. *)
Definition relay_step (cfg : RelayConfig) (from : plane) (pkt : list Z) (sent : bool) (s : DataChannelServer)
    : outcome :=
  match pkt with
  | [] => Dropped
  | _ =>
      match extractDstIPv4 pkt with
      | None => Dropped
      | Some dstIP =>
          if negb (bool_decide (from = PICMP)) && isBroadcastOrMulticast dstIP then Dropped
          else if bool_decide (serverVIP cfg = Some dstIP) then ToServer
          else match lookup_vip dstIP s with
               | None => Dropped
               | Some q =>
                   match ds_heap s !! q ≫= choose cfg from pkt with
                   | None => Dropped
                   | Some VDatagram => if sent then Forwarded q VDatagram else Refused q
                   | Some via => if sent then Forwarded q via else Dropped
                   end
               end
      end
  end.

Definition recordTraffic (now : time) (cs dst : clientStream) (n : Z) (s : DataChannelServer * Store)
    : DataChannelServer * Store :=
  (s.1 <| ds_admin ::= (λ a, as_AddTraffic now (cs_vip dst) 0 n (as_AddTraffic now (cs_vip cs) n 0 a)) |>,
   AddTraffic (cs_username cs) n s.2).

(** The packet and the books: everything that was forwarded is recorded, except
    on the ICMP plane, and so is a datagram that [SendDatagram] refused. *)
Definition relay (now : time) (cfg : RelayConfig) (from : plane) (cs : clientStream) (pkt : list Z)
    (sent : bool) (s : DataChannelServer * Store) : (DataChannelServer * Store) * outcome :=
  let o := relay_step cfg from pkt sent s.1 in
  match o, from with
  | Forwarded _ _, PICMP | Refused _, PICMP => (s, o)
  | Forwarded q _, _ | Refused q, _ =>
      match ds_heap s.1 !! q with
      | Some dst => (recordTraffic now cs dst (Z.of_nat (length pkt)) s, o)
      | None => (s, o)
      end
  | _, _ => (s, o)
  end.

(** [ServerTunReadLoop]: packets of the server's own TUN. *)
Definition tun_step (cfg : RelayConfig) (pkt : list Z) (sent : bool) (s : DataChannelServer) : outcome :=
  if (length pkt <? 20)%nat then Dropped
  else if negb (ip_version pkt =? 4) then Dropped
  else match extractDstIPv4 pkt with
       | None => Dropped
       | Some dstIP =>
           if bool_decide (serverVIP cfg = Some dstIP) then Dropped
           else match lookup_vip dstIP s with
                | None => Dropped
                | Some q =>
                    match ds_heap s !! q with
                    | None => Dropped
                    | Some dst =>
                        let proto := at_ pkt 9 in
                        let via :=
                          if proto =? 6 then
                            if port_in (extractTCPSrcPort pkt) (gamePorts cfg) then writeGameTCPFrame dst
                            else writeTCPFrame dst
                          else if proto =? 17 then
                            if port_in (extractUDPSrcPort pkt) (udpMatchPorts cfg) && is_some (matchStream dst)
                            then writeMatchFrame dst
                            else if port_in (extractUDPSrcPort pkt) (udpUnreliablePorts cfg)
                                    && is_some (gameConn dst)
                            then Some VDatagram
                            else writeUDPFrame dst
                          else if proto =? 1 then writeICMPFrame dst
                          else writeTCPFrame dst in
                        match via with
                        | None => Dropped
                        | Some via => if sent then Forwarded q via else Dropped
                        end
                    end
                end
       end.

(** ** Checksums and echo replies *)

(** The loop over the 16-bit words, in a [uint32]; [odd]: whether a last single
    byte counts. *)
Fixpoint word_sum (odd : bool) (data : list Z) (sum : Z) : Z :=
  match data with
  | hi :: lo :: data => word_sum odd data (wrap_u 32 (sum + Z.lor (Z.shiftl hi 8) lo))
  | [hi] => if odd then wrap_u 32 (sum + Z.shiftl hi 8) else sum
  | [] => sum
  end.

(** [for sum > 0xFFFF]: a [uint32] takes at most two rounds. *)
Fixpoint fold_carry (fuel : nat) (sum : Z) : Z :=
  match fuel with
  | O => sum
  | S fuel => if 0xFFFF <? sum then fold_carry fuel (Z.shiftr sum 16 + Z.land sum 0xFFFF) else sum
  end.

(** [^uint16(sum)] *)
Definition not16 (sum : Z) : Z := 0xFFFF - wrap_u 16 sum.

Definition icmpChecksum (data : list Z) : Z := not16 (fold_carry 3 (word_sum true data 0)).
Definition ipv4Checksum (header : list Z) : Z := not16 (fold_carry 3 (word_sum false header 0)).

Definition put16 (i : nat) (v : Z) (data : list Z) : list Z :=
  <[(i + 1)%nat := Z.land v 0xFF]> (<[i := Z.shiftr v 8]> data).

Definition swap_addresses (data : list Z) : list Z :=
  (take 12 data ++ take 4 (drop 16 data) ++ take 4 (drop 12 data) ++ drop 20 data)%list.

Definition buildICMPEchoReply (req : list Z) : option (list Z) :=
  if (length req <? 28)%nat then None
  else if negb (ip_version req =? 4) then None
  else
    let ihl := ip_ihl req in
    if (ihl <? 20) || (Z.of_nat (length req) <? ihl + 8) then None
    else if negb (at_ req 9 =? 1) then None
    else
      let start := Z.to_nat ihl in
      if negb (at_ req start =? 8) then None
      else
        let resp := swap_addresses req in
        let resp := put16 (start + 2) 0 (<[start := 0]> resp) in
        let resp := put16 (start + 2) (icmpChecksum (drop start resp)) resp in
        let resp := put16 10 0 resp in
        Some (put16 10 (ipv4Checksum (take start resp)) resp).

Definition demo_echo : list Z :=
  [0x45; 0; 0; 28; 0; 1; 0; 0; 64; 1; 0; 0; 10; 0; 0; 5; 10; 0; 0; 1; 8; 0; 0; 0; 0; 7; 0; 9].
Example echo_reply_demo :
  buildICMPEchoReply demo_echo
  = Some [0x45; 0; 0; 28; 0; 1; 0; 0; 64; 1; 0x66; 0xdb; 10; 0; 0; 1; 10; 0; 0; 5; 0; 0; 0xff; 0xef; 0; 7; 0; 9].
Proof. vm_compute. reflexivity. Qed.

(** ** The checksums verify *)

(** The sum of the words, without the width. *)
Fixpoint words (odd : bool) (data : list Z) : Z :=
  match data with
  | hi :: lo :: data => hi * 256 + lo + words odd data
  | [hi] => if odd then hi * 256 else 0
  | [] => 0
  end.

Lemma lor_word hi lo : byte_ok lo → Z.lor (Z.shiftl hi 8) lo = hi * 256 + lo.
Proof.
  intros Hlo. rewrite <- (Z.mul_1_l (hi * 256 + lo)).
  assert (Z.land (Z.shiftl hi 8) lo = 0) as Hz.
  { apply Z.bits_inj'. intros n Hn. rewrite Z.land_spec, Z.bits_0.
    destruct (Z.ltb_spec n 8).
    - by rewrite Z.shiftl_spec_low.
    - rewrite (Z.bits_above_log2 lo n), andb_false_r; [done|unfold byte_ok in Hlo; lia|].
      destruct (decide (lo = 0)) as [->|]; [cbn; lia|].
      apply Z.log2_lt_pow2; [unfold byte_ok in Hlo; lia|].
      pose proof (Z.pow_le_mono_r 2 8 n). unfold byte_ok in Hlo. lia. }
  rewrite <- Z.lxor_lor, <- Z.add_nocarry_lxor by done. rewrite Z.shiftl_mul_pow2 by lia. lia.
Qed.

(** Induction on a list two elements at a time. *)
Lemma pairs_ind {A} (P : list A → Prop) :
  P [] → (∀ x, P [x]) → (∀ x y l, P l → P (x :: y :: l)) → ∀ l, P l.
Proof.
  intros H0 H1 H2 l. assert (P l ∧ ∀ x, P (x :: l)) as [H _]; [|done].
  induction l as [|x l [IH1 IH2]]; [auto|]. split; [auto|]. intros y. by apply H2.
Qed.

Lemma words_range odd l : Forall byte_ok l → 0 <= 2 * words odd l <= 65536 * (Z.of_nat (length l) + 1).
Proof.
  induction l as [|x|x y l IH] using pairs_ind; cbn [words length].
  - lia.
  - intros [Hx _]%Forall_cons. unfold byte_ok in Hx. destruct odd; lia.
  - intros [Hx [Hy Hl]%Forall_cons]%Forall_cons. specialize (IH Hl). unfold byte_ok in *. lia.
Qed.

Lemma word_sum_words odd l acc :
  Forall byte_ok l → 0 <= acc → acc + words odd l < 2 ^ 32 → word_sum odd l acc = acc + words odd l.
Proof.
  revert acc. induction l as [|x|x y l IH] using pairs_ind; intros acc Hl Ha Hb; cbn [words word_sum] in *.
  - lia.
  - apply Forall_cons in Hl as [Hx _]. unfold byte_ok in Hx. destruct odd; [|lia].
    rewrite Z.shiftl_mul_pow2 by lia. apply wrap_u_small. lia.
  - apply Forall_cons in Hl as [Hx [Hy Hl]%Forall_cons]. rewrite lor_word by done.
    pose proof (words_range odd l Hl). unfold byte_ok in *.
    rewrite wrap_u_small by lia. rewrite IH by (done || lia). lia.
Qed.

Lemma fold_round s : Z.shiftr s 16 + Z.land s 0xFFFF = s / 65536 + s mod 65536.
Proof.
  rewrite Z.shiftr_div_pow2 by lia. change 0xFFFF with (Z.ones 16). rewrite Z.land_ones by lia. done.
Qed.

Lemma fold_carry_spec s :
  0 <= s < 2 ^ 32 → ∃ k, fold_carry 3 s = s - k * 65535 ∧ 0 <= fold_carry 3 s <= 65535 ∧
    (0 < s → 0 < fold_carry 3 s) ∧ 0 <= k.
Proof.
  change (2 ^ 32) with 4294967296. intros Hs. cbn [fold_carry]. rewrite !fold_round.
  destruct (Z.ltb_spec 0xFFFF s); [|exists 0; lia].
  set (s1 := s / 65536 + s mod 65536).
  pose proof (Z.div_mod s 65536 ltac:(lia)). pose proof (Z.mod_pos_bound s 65536 ltac:(lia)).
  assert (0 <= s / 65536 < 65536) by (split; [apply Z.div_pos|apply Z.div_lt_upper_bound]; lia).
  assert (0 < s1 <= 131070 ∧ s1 = s - s / 65536 * 65535) as [Hs1 E1] by lia.
  destruct (Z.ltb_spec 0xFFFF s1); [|exists (s / 65536); lia].
  set (s2 := s1 / 65536 + s1 mod 65536).
  pose proof (Z.div_mod s1 65536 ltac:(lia)). pose proof (Z.mod_pos_bound s1 65536 ltac:(lia)).
  assert (s1 / 65536 = 1) as E by (symmetry; apply (Z.div_unique _ _ _ (s1 - 65536)); lia).
  assert (0 < s2 <= 65535 ∧ s2 = s1 - 65535) as [Hs2 E2] by lia.
  destruct (Z.ltb_spec 0xFFFF s2); [lia|]. exists (s / 65536 + 1). lia.
Qed.

(** A checksum written over a zero word makes the whole sum to -0. *)
Lemma checksum_closes s :
  0 <= s <= 2 ^ 31 → not16 (fold_carry 3 (s + not16 (fold_carry 3 s))) = 0 ∧ 0 <= not16 (fold_carry 3 s) < 65536.
Proof.
  change (2 ^ 31) with 2147483648. intros Hs.
  destruct (fold_carry_spec s) as (k & Hk & Hr & Hp & Hk0); [change (2 ^ 32) with 4294967296; lia|].
  assert (∀ z, 0 <= z <= 65535 → not16 z = 65535 - z) as Hnot.
  { intros z Hz. unfold not16. rewrite wrap_u_small; [done|]. change (2 ^ 16) with 65536. lia. }
  rewrite (Hnot (fold_carry 3 s)) by done. split; [|lia]. set (s' := s + (65535 - fold_carry 3 s)).
  destruct (fold_carry_spec s') as (k' & Hk' & Hr' & Hp' & Hk0'); [change (2 ^ 32) with 4294967296; lia|].
  rewrite Hnot by done. assert (0 < s') by lia. specialize (Hp' ltac:(done)). lia.
Qed.

Lemma length_put16 i v l : length (put16 i v l) = length l.
Proof. unfold put16. by rewrite !length_insert. Qed.

Lemma words_put16 odd k v l :
  (2 * k + 1 < length l)%nat → 0 <= v < 65536 →
  words odd (put16 (2 * k) v l) = words odd l - be16 l (2 * k) + v.
Proof.
  revert l. induction k as [|k IH]; intros l Hl Hv.
  - destruct l as [|x [|y l]]; cbn in Hl; [lia..|].
    change (2 * 0)%nat with 0%nat. unfold put16, be16, at_. cbn [Nat.add list_insert insert nth words].
    change (Z.land v 0xFF) with (Z.land v (Z.ones 8)). rewrite Z.land_ones, Z.shiftr_div_pow2 by lia.
    pose proof (Z.div_mod v (2 ^ 8) ltac:(lia)). change (2 ^ 8) with 256 in *. lia.
  - destruct l as [|x [|y l]]; cbn in Hl; [lia..|].
    replace (2 * S k)%nat with (S (S (2 * k)))%nat by lia.
    change (put16 (S (S (2 * k))) v (x :: y :: l)) with (x :: y :: put16 (2 * k) v l).
    change (be16 (x :: y :: l) (S (S (2 * k)))) with (be16 l (2 * k)).
    cbn [words]. rewrite IH by (cbn in Hl; lia). lia.
Qed.

Lemma byte_put16 i v l : Forall byte_ok l → 0 <= v < 65536 → Forall byte_ok (put16 i v l).
Proof.
  intros Hl Hv. unfold put16. apply Forall_insert; [apply Forall_insert; [done|]|].
  - rewrite Z.shiftr_div_pow2 by lia. split; [apply Z.div_pos|apply Z.div_lt_upper_bound]; lia.
  - change 0xFF with (Z.ones 8). rewrite Z.land_ones by lia. apply Z.mod_pos_bound. lia.
Qed.

Definition checksum (odd : bool) (l : list Z) : Z := not16 (fold_carry 3 (word_sum odd l 0)).

(** Zero the word at an even place, compute the checksum, write it there: the
    result verifies. *)
Lemma checksum_verifies odd k l :
  Forall byte_ok l → (2 * k + 1 < length l)%nat → Z.of_nat (length l) <= 65535 →
  let l0 := put16 (2 * k) 0 l in
  checksum odd (put16 (2 * k) (checksum odd l0) l0) = 0 ∧ 0 <= checksum odd l0 < 65536.
Proof.
  intros Hb Hk Hl l0. assert (Forall byte_ok l0) as Hb0 by (apply byte_put16; [done|lia]).
  assert (length l0 = length l) as Hl0 by apply length_put16.
  pose proof (words_range odd l0 Hb0) as Hw. rewrite Hl0 in Hw.
  assert (word_sum odd l0 0 = words odd l0) as E0 by (rewrite word_sum_words; [lia|done|lia|lia]).
  destruct (checksum_closes (words odd l0)) as [Hc Hr]; [change (2 ^ 31) with 2147483648; lia|].
  assert (checksum odd l0 = not16 (fold_carry 3 (words odd l0))) as Ec by (unfold checksum; by rewrite E0).
  rewrite Ec. split; [|done]. set (c := not16 (fold_carry 3 (words odd l0))) in *.
  assert (Forall byte_ok (put16 (2 * k) c l0)) as Hb1 by (by apply byte_put16).
  assert (be16 l0 (2 * k) = 0) as Hz.
  { unfold be16, at_, l0, put16. change (Z.shiftr 0 8) with 0. change (Z.land 0 0xFF) with 0.
    rewrite !nth_lookup, list_lookup_insert_eq by (rewrite length_insert; lia).
    by rewrite list_lookup_insert_ne, list_lookup_insert_eq by lia. }
  assert (words odd (put16 (2 * k) c l0) = words odd l0 + c) as Ew by (rewrite words_put16, Hz by lia; lia).
  unfold checksum. rewrite word_sum_words, Ew; [done|done|lia|].
  rewrite Ew. change (2 ^ 32) with 4294967296. lia.
Qed.

(** ** Echo replies *)

Lemma ip_ihl_word l : ∃ w, ip_ihl l = w * 4 ∧ 0 <= w < 16.
Proof.
  exists (Z.land (at_ l 0) 0x0F). split; [done|]. change 0x0F with (Z.ones 4). rewrite Z.land_ones by lia.
  apply Z.mod_pos_bound. lia.
Qed.

Lemma swap_length l : (20 <= length l)%nat → length (swap_addresses l) = length l.
Proof. intros H. unfold swap_addresses. rewrite !length_app, !length_take, !length_drop. lia. Qed.

Lemma swap_bytes l : Forall byte_ok l → Forall byte_ok (swap_addresses l).
Proof.
  intros H. unfold swap_addresses. rewrite !Forall_app.
  split_and!; auto using Forall_take, Forall_drop.
Qed.

Lemma drop_put16 n i v l : (i + 1 < n)%nat → drop n (put16 i v l) = drop n l.
Proof. intros H. unfold put16. by rewrite !drop_insert_lt by lia. Qed.

Lemma take_put16_lt n i v l : (i + 1 < n)%nat → take n (put16 i v l) = put16 i v (take n l).
Proof. intros H. unfold put16. by rewrite !take_insert_lt by lia. Qed.

Lemma take_put16_ge n i v l : (n <= i)%nat → take n (put16 i v l) = take n l.
Proof. intros H. unfold put16. by rewrite !take_insert_ge by lia. Qed.

Lemma drop_put16_ge n i v l : (n <= i)%nat → drop n (put16 i v l) = put16 (i - n) v (drop n l).
Proof.
  intros H. unfold put16. rewrite !drop_insert_ge by lia. do 2 f_equal. lia.
Qed.

Lemma swap_dst l :
  (20 <= length l)%nat → take 4 (drop 12 (swap_addresses l)) = take 4 (drop 16 l) ∧
  take 4 (drop 16 (swap_addresses l)) = take 4 (drop 12 l) ∧ drop 20 (swap_addresses l) = drop 20 l.
Proof.
  intros H. unfold swap_addresses.
  assert (length (take 12 l) = 12%nat) as L1 by (rewrite length_take; lia).
  assert (length (take 4 (drop 16 l)) = 4%nat) as L2 by (rewrite length_take, length_drop; lia).
  assert (length (take 4 (drop 12 l)) = 4%nat) as L3 by (rewrite length_take, length_drop; lia).
  split_and!.
  - rewrite drop_app_length' by done. by rewrite take_app_length'.
  - rewrite (drop_app_ge (take 12 l)) by lia. rewrite L1. change (16 - 12)%nat with 4%nat.
    rewrite drop_app_length' by done. by rewrite take_app_length'.
  - rewrite (drop_app_ge (take 12 l)) by lia. rewrite L1. change (20 - 12)%nat with 8%nat.
    rewrite (drop_app_ge (take 4 (drop 16 l))) by lia. rewrite L2. change (8 - 4)%nat with 4%nat.
    by rewrite drop_app_length'.
Qed.

(** The server's echo reply is a valid packet whatever the request carries: it
    has the length of the request, the two addresses exchanged, the type of a reply,
    the identifier, sequence number and payload of the request, and both checksums
    verify over the bytes that go out, options and odd lengths included. *)
Theorem echo_reply_valid req resp :
  buildICMPEchoReply req = Some resp → Forall byte_ok req → Z.of_nat (length req) <= 65535 →
  let start := Z.to_nat (ip_ihl req) in
  length resp = length req ∧ Forall byte_ok resp ∧
  take 4 (drop 12 resp) = take 4 (drop 16 req) ∧ take 4 (drop 16 resp) = take 4 (drop 12 req) ∧
  at_ resp start = 0 ∧ drop (start + 4) resp = drop (start + 4) req ∧
  ipv4Checksum (take start resp) = 0 ∧ icmpChecksum (drop start resp) = 0.
Proof.
  unfold buildICMPEchoReply. destruct (Nat.ltb_spec (length req) 28); [done|].
  case_match; [done|]. destruct (ip_ihl_word req) as (w & Hw & Hwr).
  destruct (Z.ltb_spec (ip_ihl req) 20); [done|]. destruct (Z.ltb_spec (Z.of_nat (length req)) (ip_ihl req + 8)); [done|].
  cbn [orb]. case_match; [done|]. case_match; [done|]. intros [= <-] Hb Hlen. cbv zeta.
  set (start := Z.to_nat (ip_ihl req)).
  assert (∃ k, start = (2 * k)%nat ∧ (10 <= k)%nat) as (k & Hk & Hk10).
  { exists (Z.to_nat (w * 2)). unfold start. rewrite Hw. lia. }
  set (r1 := <[start := 0]> (swap_addresses req)).
  assert (length r1 = length req) as L1 by (unfold r1; rewrite length_insert; apply swap_length; lia).
  assert (Forall byte_ok r1) as B1.
  { apply Forall_insert; [by apply swap_bytes|]. unfold byte_ok. lia. }
  set (r2 := put16 (start + 2) 0 r1).
  assert (length r2 = length req) as L2 by (unfold r2; by rewrite length_put16).
  assert (drop start r2 = put16 (2 * 1) 0 (drop start r1)) as D2.
  { unfold r2. rewrite drop_put16_ge by lia. f_equal. lia. }
  destruct (checksum_verifies true 1 (drop start r1)) as [V1 C1]; [by apply Forall_drop|rewrite length_drop; lia..|].
  rewrite <- D2 in V1, C1. change (checksum true) with icmpChecksum in *.
  set (r3 := put16 (start + 2) (icmpChecksum (drop start r2)) r2).
  assert (length r3 = length req) as L3 by (unfold r3; by rewrite length_put16).
  assert (Forall byte_ok r3) as B3 by (apply byte_put16; [apply byte_put16; [done|lia]|done]).
  assert (drop start r3 = put16 (2 * 1) (icmpChecksum (drop start r2)) (drop start r2)) as D3.
  { unfold r3. rewrite drop_put16_ge by lia. f_equal. lia. }
  set (r4 := put16 10 0 r3).
  assert (take start r4 = put16 (2 * 5) 0 (take start r3)) as T4 by (unfold r4; by rewrite take_put16_lt by lia).
  destruct (checksum_verifies false 5 (take start r3)) as [V2 C2];
    [by apply Forall_take|rewrite length_take; lia..|].
  rewrite <- T4 in V2, C2. change (checksum false) with ipv4Checksum in *.
  set (r5 := put16 10 (ipv4Checksum (take start r4)) r4).
  assert (∀ n, (12 <= n)%nat → drop n r5 = drop n r3) as D5.
  { intros n Hn. unfold r5, r4. by rewrite !drop_put16 by lia. }
  assert (∀ n, (12 <= n <= 16)%nat → take 4 (drop n r5) = take 4 (drop n (swap_addresses req))) as S.
  { intros n Hn. rewrite D5 by lia. unfold r3, r2, r1. rewrite !drop_put16_ge by lia.
    rewrite !take_put16_ge by lia. rewrite drop_insert_ge by lia. by rewrite take_insert_ge by lia. }
  pose proof (S 12%nat ltac:(lia)) as S1. pose proof (S 16%nat ltac:(lia)) as S2.
  destruct (swap_dst req) as (W1 & W2 & W3); [lia|].
  split_and!.
  - unfold r5, r4. by rewrite !length_put16.
  - apply byte_put16; [apply byte_put16; [done|lia]|done].
  - congruence.
  - congruence.
  - unfold at_. rewrite nth_lookup, <- (Nat.add_0_r start), <- lookup_drop, D5, D3, D2 by lia. unfold put16.
    rewrite !list_lookup_insert_ne by lia. rewrite lookup_drop, Nat.add_0_r. unfold r1.
    by rewrite list_lookup_insert_eq by (rewrite swap_length; lia).
  - rewrite D5 by lia. unfold r3, r2, r1. rewrite !drop_put16, drop_insert_lt by lia.
    replace (start + 4)%nat with (20 + (start - 16))%nat by lia. by rewrite <- !drop_drop, W3.
  - unfold r5. rewrite take_put16_lt by lia. exact V2.
  - rewrite D5, D3 by lia. exact V1.
Qed.

Lemma echo_reply_valid_witness :
  ∃ resp, buildICMPEchoReply demo_echo = Some resp ∧ icmpChecksum (drop 20 resp) = 0.
Proof.
  destruct (buildICMPEchoReply demo_echo) as [resp|] eqn:E; [|vm_compute in E; discriminate].
  exists resp. split; [reflexivity|].
  assert (Forall byte_ok demo_echo) as Hb.
  { apply (bool_decide_unpack (Forall (λ b, 0 <= b < 256) demo_echo)). vm_compute. exact I. }
  assert (Z.of_nat (length demo_echo) <= 65535) as Hl by (vm_compute; discriminate).
  destruct (echo_reply_valid demo_echo resp E Hb Hl) as (_ & _ & _ & _ & _ & _ & _ & H). exact H.
Defined.

(** ** What is forwarded and what is billed *)

(** The packet has a destination [q] that may be sent to, and a channel there. *)
Definition reaches (cfg : RelayConfig) (from : plane) (pkt : list Z) (s : DataChannelServer) (q : positive) (via : channel) : Prop :=
  ∃ dst c, extractDstIPv4 pkt = Some dst ∧ lookup_vip dst s = Some q ∧ ds_heap s !! q = Some c ∧ choose cfg from pkt c = Some via ∧
    serverVIP cfg ≠ Some dst ∧ (from ≠ PICMP → isBroadcastOrMulticast dst = false).

Lemma choose_datagram cfg from pkt c : choose cfg from pkt c = Some VDatagram → from = PGame.
Proof.
  destruct from; cbn; unfold writeMatchFrame, writeGameTCPFrame, writeTCPFrame, writeUDPFrame, writeICMPFrame; try done;
    repeat case_match; done.
Qed.

(** What becomes of one packet. *)
Lemma relay_step_spec cfg from pkt sent s :
  match relay_step cfg from pkt sent s with
  | Forwarded q via => reaches cfg from pkt s q via ∧ sent = true
  | Refused q => reaches cfg from pkt s q VDatagram ∧ from = PGame ∧ sent = false
  | _ => ∀ q via, reaches cfg from pkt s q via → sent = false ∧ via ≠ VDatagram
  end.
Proof.
  assert (Un : ∀ (P : Prop), (∀ dst c q via, extractDstIPv4 pkt = Some dst → lookup_vip dst s = Some q → ds_heap s !! q = Some c → choose cfg from pkt c = Some via →
    serverVIP cfg ≠ Some dst → (from ≠ PICMP → isBroadcastOrMulticast dst = false) → False) → ∀ q via, reaches cfg from pkt s q via → P).
  { intros P H q via (dst & c & H1 & H2 & H3 & H4 & H5 & H6). by destruct (H dst c q via). }
  unfold relay_step. destruct pkt as [|b pkt']; [by intros q via (dst & c & [=] & _)|]. set (pkt := b :: pkt') in *.
  destruct (extractDstIPv4 pkt) as [dst|] eqn:Hd; [|intros q via; by apply Un].
  destruct (negb (bool_decide (from = PICMP)) && isBroadcastOrMulticast dst) eqn:Hbc.
  { intros q via. apply Un. intros d c q' v [= <-] _ _ _ _ H6. apply andb_true_iff in Hbc as [Hp Hb]. bool_hyps. rewrite H6 in Hb; done. }
  destruct (bool_decide_reflect (serverVIP cfg = Some dst)) as [|Hsv]; [intros q via; apply Un; intros d c q' v [= <-]; done|].
  destruct (lookup_vip dst s) as [p|] eqn:Hl; [|intros q via; apply Un; intros d c q' v [= <-]; congruence].
  destruct (ds_heap s !! p) as [c|] eqn:Hc; cbn [mbind option_bind];
    [|intros q via; apply Un; intros d c q' v [= <-]; congruence].
  destruct (choose cfg from pkt c) as [v|] eqn:Hch; [|intros q via; apply Un; intros d c' q' v [= <-]; congruence].
  assert (R : reaches cfg from pkt s p v).
  { exists dst, c. split_and!; try done. intros Hne. by rewrite bool_decide_false in Hbc by done. }
  assert (U : ∀ q via, reaches cfg from pkt s q via → via = v) by (intros q via (d & c' & H1 & H2 & H3 & H4 & _); congruence).
  destruct v, sent; cbn; try done; try (intros q via Hr; by rewrite (U q via Hr)).
  split; [done|]. split; [by apply (choose_datagram cfg from pkt c)|done].
Qed.

(** C20: forwarding is exact and so is the bill: a packet is handed to the
    transport only for the client registered for its destination, on a channel that client
    has, and never for a server address or, off the ICMP plane, a broadcast or multicast address; a
    packet that has such a destination is forwarded exactly when the transport takes it.
    Off the ICMP plane the sender's account grows by the length of the packet exactly when it
    was forwarded, or when it was a datagram of the game plane that the transport
    refused; on the ICMP plane it never grows. *)
Theorem forwarding_billed now cfg from cs pkt sent s st :
  let '((s', st'), o) := relay now cfg from cs pkt sent (s, st) in
  let bill := if bool_decide (from = PICMP) then st else AddTraffic (cs_username cs) (Z.of_nat (length pkt)) st in
  match o with
  | Forwarded q via => reaches cfg from pkt s q via ∧ sent = true ∧ st' = bill
  | Refused q => reaches cfg from pkt s q VDatagram ∧ from = PGame ∧ sent = false ∧ st' = bill
  | _ => st' = st ∧ s' = s ∧ ∀ q via, reaches cfg from pkt s q via → sent = false ∧ via ≠ VDatagram
  end.
Proof.
  unfold relay. cbn [fst snd]. pose proof (relay_step_spec cfg from pkt sent s) as H.
  destruct (relay_step cfg from pkt sent s) as [| |q via|q]; [done..| |].
  - destruct H as [R Hs]. pose proof R as (dst & c & _ & _ & Hc & _).
    destruct from; rewrite ?Hc; cbn [recordTraffic fst snd]; first [rewrite bool_decide_false by done|rewrite bool_decide_true by done]; done.
  - destruct H as (R & -> & Hs). pose proof R as (dst & c & _ & _ & Hc & _). rewrite Hc. cbn [recordTraffic fst snd]. by rewrite bool_decide_false.
Qed.

(** A datagram nobody got is billed like one that arrived: the planes that write to
    streams go on to the next packet when the write fails, this one does not. *)
Lemma refused_datagram_billed now cfg cs pkt s st q :
  reaches cfg PGame pkt s q VDatagram →
  relay now cfg PGame cs pkt false (s, st) =
    (match ds_heap s !! q with Some dst => recordTraffic now cs dst (Z.of_nat (length pkt)) (s, st) | None => (s, st) end, Refused q).
Proof.
  intros R. unfold relay. cbn [fst]. pose proof (relay_step_spec cfg PGame pkt false s) as H.
  destruct (relay_step cfg PGame pkt false s) as [| |q' via|q'] eqn:E.
  - by destruct (H q VDatagram R).
  - by destruct (H q VDatagram R).
  - by destruct H.
  - destruct H as ((d & c & H1 & H2 & H3 & _) & _). destruct R as (d' & c' & R1 & R2 & R3 & _).
    assert (q' = q) as -> by congruence. by rewrite H3.
Qed.

(** Any packet a client puts on its ICMP stream is forwarded, whatever its
    protocol, and nobody is billed for it. *)
Theorem icmp_plane_unbilled now cfg cs pkt s st q c dst :
  pkt ≠ [] → extractDstIPv4 pkt = Some dst → serverVIP cfg ≠ Some dst →
  lookup_vip dst s = Some q → ds_heap s !! q = Some c → icmpStream c ≠ None →
  relay now cfg PICMP cs pkt true (s, st) = ((s, st), Forwarded q VICMP).
Proof.
  intros Hp Hd Hs Hl Hc Hi. unfold relay, relay_step. cbn [fst]. destruct pkt as [|b pkt]; [done|].
  rewrite Hd, bool_decide_true by done. cbn [negb andb]. rewrite bool_decide_false by done. rewrite Hl, Hc. cbn.
  unfold writeICMPFrame. by destruct (icmpStream c).
Qed.

Definition tcp_packet : list Z :=
  [0x45; 0; 0; 28; 0; 1; 0; 0; 64; 6; 0; 0; 10; 0; 0; 5; 10; 0; 0; 100; 0; 80; 1; 187; 0; 0; 0; 0].
Definition ctrl_client : DataChannelServer := on_stream 1 (setCtrl 7 8 9) one_client.

Lemma icmp_plane_unbilled_witness :
  relay 0 (mkRelay None ∅ ∅ ∅) PICMP bob_stream tcp_packet true (ctrl_client, empty_store None)
  = ((ctrl_client, empty_store None), Forwarded 1 VICMP).
Proof.
  apply (icmp_plane_unbilled 0 (mkRelay None ∅ ∅ ∅) bob_stream tcp_packet ctrl_client (empty_store None) 1
    (setCtrl 7 8 9 bob_stream) demo_ip); try (vm_compute; reflexivity); discriminate.
Defined.
