(* ===== verification/Dhcp.v ===== *)
(** * Handing out the network settings: the server's DHCP service
    ([vpn-server/quic/dhcp.go]) and the client's reading of its answer
    ([vpn-tool/backend/quic/client.go], [nat.go])

    The service is a fake TCP connection inside the tunnel: the client writes
    [deviceID\nREQUEST_IP] and reads one line of twelve fields. *)

From Stdlib Require Import ZArith Lia Bool Ascii String.
From stdpp Require Import base list gmap sets strings.
From S2P Require Import Prelude.
From S2P Require Import GoNet.
From S2P Require Import GoText.
From S2P Require Import GoStrings.
From S2P Require Import IPAlloc.

Open Scope Z_scope.

(** ** The server *)

Record DHCPOutbound := mkDHCP {
  tcpSplitEnabled : bool;
  tcpSplitPorts : list Z;
  udpReliableEnabled : bool;
  udpReliablePorts : list string;
  udpUnreliableEnabled : bool;
  udpUnreliablePorts : list string;
  certMode : string;
  serverHostname : string;
  p2pEnabled : bool;
  builtinSTUN : string;
}.

Inductive dhcp_error := DInvalidCommand (cmd : string) | DNoIP | DNoIPAssigned | DClosed | DEOF.

Record dhcpConn := mkDhcpConn {
  d_deviceID : string;
  d_ip : string;
  d_mask : string;
  d_ready : bool;
  d_responded : bool;
  d_err : option dhcp_error;
}.
#[export] Instance eta_dhcpConn : Eta dhcpConn := λ c,
  mkDhcpConn (d_deviceID c) (d_ip c) (d_mask c) (d_ready c) (d_responded c) (d_err c).

Definition newDHCPConn : dhcpConn := mkDhcpConn EmptyString EmptyString EmptyString false false None.

Definition newline : string := String "010" EmptyString.
Definition on_off (b : bool) : string := if b then "on" else "off".
Definition when (b : bool) (s : string) : string := if b then s else EmptyString.

(** The twelve fields. *)
Definition response_fields (o : DHCPOutbound) (ip mask : string) : list string :=
  [ip; mask;
   on_off (tcpSplitEnabled o); when (tcpSplitEnabled o) (Join (Itoa <$> tcpSplitPorts o) "|");
   on_off (udpReliableEnabled o); when (udpReliableEnabled o) (Join (udpReliablePorts o) "|");
   on_off (udpUnreliableEnabled o); when (udpUnreliableEnabled o) (Join (udpUnreliablePorts o) "|");
   certMode o; serverHostname o; on_off (p2pEnabled o);
   if bool_decide (builtinSTUN o = EmptyString) then "off"%string else builtinSTUN o].

Definition response (o : DHCPOutbound) (ip mask : string) : string :=
  Join (response_fields o ip mask) "," +:+ newline.

(** [Read] into a buffer of [size] bytes. [None]: it waits; the bytes that do not
    fit are lost. *)
Definition Read (o : DHCPOutbound) (size : nat) (c : dhcpConn) : option (dhcpConn * (string + dhcp_error)) :=
  if d_responded c then Some (c, inr DEOF)
  else match d_err c with
       | Some e => Some (c, inr e)
       | None =>
           if negb (d_ready c) then None
           else if bool_decide (d_ip c = EmptyString) then Some (c, inr DNoIPAssigned)
           else Some (c <| d_responded := true |> <| d_ready := false |>,
                      inl (str_take size (response o (d_ip c) (d_mask c))))
       end.

(** [Write]: the number of bytes taken, or the error, which [Read] reports too.
    [None]: the search for an address does not end. *)
Definition Write (now : time) (b : string) (c : dhcpConn) (pool : IPAllocator)
    : option (dhcpConn * IPAllocator * (nat + dhcp_error)) :=
  let data := TrimSpace b in
  let refuse (c : dhcpConn) e := Some (c <| d_err := Some e |>, pool, inr e) in
  let request (c : dhcpConn) :=
    match AllocateByDeviceID now (d_deviceID c) pool with
    | None => None
    | Some (pool', ip) =>
        if bool_decide (ip = EmptyString) then Some (c <| d_err := Some DNoIP |>, pool', inr DNoIP)
        else Some (c <| d_ip := ip |> <| d_mask := GetSubnetMask pool' |> <| d_ready := true |>,
                   pool', inl (String.length b))
    end in
  if Contains data newline then
    match SplitN data "010" 2 with
    | [dev; cmd] =>
        let c := c <| d_deviceID := TrimSpace dev |> in
        let cmd := TrimSpace cmd in
        if bool_decide (cmd = "REQUEST_IP"%string) then request c else refuse c (DInvalidCommand cmd)
    | _ => refuse c (DInvalidCommand data)
    end
  else if bool_decide (data = "REQUEST_IP"%string)
  then request (c <| d_deviceID := ("client-" +:+ Itoa now)%string |>)
  else refuse c (DInvalidCommand data).

Definition dhcp_close (c : dhcpConn) : dhcpConn := c <| d_err := Some DClosed |>.

(** ** The client *)

Abbreviation portRange := (Z * Z)%type (only parsing).

Definition contains (r : portRange) (p : Z) : bool := (fst r <=? p) && (p <=? snd r).

Definition port_ok (p : Z) : bool := (1 <=? p) && (p <=? 65535).

Definition parsePortRangeStr (s : string) : option portRange :=
  let s := TrimSpace s in
  if bool_decide (s = EmptyString) then None
  else match Index s "-" with
       | Some i =>
           match Atoi (TrimSpace (str_take i s)), Atoi (TrimSpace (str_drop (i + 1) s)) with
           | Some lo, Some hi => if (lo <? 1) || (65535 <? hi) || (hi <? lo) then None else Some (lo, hi)
           | _, _ => None
           end
       | None =>
           match Atoi s with
           | Some p => if (p <? 1) || (65535 <? p) then None else Some (p, p)
           | None => None
           end
       end.

Definition parsePortRanges (items : list string) : list portRange :=
  omap (λ it, let it := TrimSpace it in
              if bool_decide (it = EmptyString) then None else parsePortRangeStr it) items.

Definition defaultUDPMatchRanges : list portRange := [(42300, 42800)].
Definition defaultUDPUnreliableRanges : list portRange := [(50000, 50550)].

(** [IPMask.Size] of an IPv4 mask: the number of leading ones, [None] when a one
    follows a zero. *)
Fixpoint leading_ones (fuel : nat) (bit : Z) (m : Z) : Z :=
  match fuel with
  | O => 0
  | S fuel => if Z.testbit m bit then 1 + leading_ones fuel (bit - 1) m else 0
  end.

Definition mask_size (m : ip4) : option Z :=
  let n := ip4_num m in
  let ones := leading_ones 32 31 n in
  if n =? (2 ^ ones - 1) * 2 ^ (32 - ones) then Some ones else None.

Definition validateTunnelIPv4 (ip mask : string) : bool :=
  match ParseIP ip ≫= To4, ParseIP mask ≫= To4 with
  | Some a, Some m =>
      let bytes := ip4_bytes a in
      if IsUnspecified bytes || IsMulticast bytes || bool_decide (a = (255, 255, 255, 255)) then false
      else match mask_size m with
           | Some ones => (8 <=? ones) && (ones <=? 30)
           | None => false
           end
  | _, _ => false
  end.

Definition parseP2PFlag (parts : list string) : bool :=
  match parts !! 10%nat with
  | None => false
  | Some s => EqualFold (TrimSpace s) "on"
  end.

Definition parseBuiltinSTUNPorts (parts : list string) : list Z :=
  match parts !! 11%nat with
  | None => []
  | Some s =>
      let raw := TrimSpace s in
      if bool_decide (raw = EmptyString) || EqualFold raw "off" then []
      else omap (λ seg, match Atoi (TrimSpace seg) with
                        | Some p => if port_ok p then Some p else None
                        | None => None
                        end) (Split raw "|")
  end.

(** What the client keeps of the answer. *)
Record Settings := mkSettings {
  s_ip : string;
  s_mask : string;
  serverSplitEnabled : bool;
  serverSplitPorts : gset Z;
  udpMatchRanges : list portRange;
  udpUnreliableRanges : list portRange;
  serverCertMode : string;
  s_serverHostname : string;
  p2pServerEnabled : bool;
  builtinSTUNPorts : list Z;
}.

(** The ports of the fourth field. *)
Definition split_ports (parts : list string) : gset Z :=
  let ports := match parts !! 3%nat with
               | Some f => omap (λ ps, match Atoi (TrimSpace ps) with
                                       | Some n => if (0 <? n) && (n <=? 65535) then Some n else None
                                       | None => None
                                       end) (Split f "|")
               | None => []
               end in
  match ports with [] => {[22345; 443]} | _ => list_to_set ports end.

(** A field of port ranges that counts when the field before it says so. *)
Definition ranges_of (parts : list string) (flag : nat) (dflt : list portRange) : list portRange :=
  match parts !! flag, parts !! S flag with
  | Some f, Some r =>
      if bool_decide (TrimSpace f = "on"%string) then
        match parsePortRanges (Split r "|") with [] => dflt | l => l end
      else []
  | _, _ => []
  end.

Definition text_of (parts : list string) (i : nat) (dflt : string) : string :=
  match parts !! i with
  | Some f => if bool_decide (TrimSpace f = EmptyString) then dflt else TrimSpace f
  | None => dflt
  end.

(** The client's handling of the bytes it read; [None]: the answer is refused. *)
Definition read_answer (serverIPv4 answer : string) : option Settings :=
  let parts := Split (TrimSpace answer) "," in
  match parts with
  | ip :: mask :: _ =>
      let ip := TrimSpace ip in
      let mask := TrimSpace mask in
      if negb (validateTunnelIPv4 ip mask) then None
      else
        let split := match parts !! 2%nat with Some f => bool_decide (TrimSpace f = "on"%string) | None => false end in
        Some (mkSettings ip mask split (if split then split_ports parts else ∅)
                (ranges_of parts 4 defaultUDPMatchRanges) (ranges_of parts 6 defaultUDPUnreliableRanges)
                (text_of parts 8 "selfsigned") (text_of parts 9 serverIPv4)
                (parseP2PFlag parts) (parseBuiltinSTUNPorts parts))
  | _ => None
  end.

Definition demo_dhcp : DHCPOutbound :=
  mkDHCP true [22345; 443] true ["42300-42800"; "7000"]%string false [] "acme" "vpn.example.com" true "3478|3479".
Example answer_demo :
  read_answer "1.2.3.4" (response demo_dhcp "10.0.0.100" "255.255.255.0")
  = Some (mkSettings "10.0.0.100" "255.255.255.0" true {[22345; 443]} [(42300, 42800); (7000, 7000)] []
            "acme" "vpn.example.com" true [3478; 3479]).
Proof. vm_compute. reflexivity. Qed.

(** ** The client reads what the server's settings say *)

Definition show_range (r : portRange) : string := Itoa (fst r) +:+ "-" +:+ Itoa (snd r).

Definition range_ok (r : portRange) : Prop := 1 <= fst r ∧ fst r <= snd r ∧ snd r <= 65535.

(** A text that survives as a field of the line. *)
Definition field_ok (s : string) : Prop := TrimSpace s = s ∧ ¬ occurs "," s.

Definition or_default {A} (dflt l : list A) : list A := match l with [] => dflt | _ => l end.

Section Fields.
Implicit Types (p : Z) (r : portRange).

Lemma port_ok_range p : port_ok p = true ↔ 1 <= p <= 65535.
Proof. unfold port_ok. rewrite andb_true_iff, !Z.leb_le. tauto. Qed.

Lemma Itoa_no p c : 0 <= p → ¬ plain c → ¬ occurs c (Itoa p).
Proof. intros Hp Hc. by apply plain_not_occurs; [|apply Itoa_plain]. Qed.

Lemma Itoa_visible p : 0 <= p → all_visible (Itoa p).
Proof. intros Hp. by apply plain_visible, Itoa_plain. Qed.

Lemma Itoa_trimmed p : 0 <= p → TrimSpace (Itoa p) = Itoa p.
Proof. intros Hp. by apply TrimSpace_visible, Itoa_visible. Qed.

Lemma Itoa_nonempty p : 0 <= p → Itoa p ≠ EmptyString.
Proof. intros Hp. by destruct (Itoa_head p Hp) as (d & s & _ & ->). Qed.

Lemma show_range_visible r : range_ok r → all_visible (show_range r).
Proof.
  intros (? & ? & ?). unfold show_range. rewrite !all_visible_app.
  split; [apply Itoa_visible; lia|]. split; [|apply Itoa_visible; lia]. by vm_compute.
Qed.

Lemma show_range_no r c : range_ok r → ¬ plain c → c ≠ "-"%char → ¬ occurs c (show_range r).
Proof.
  intros (? & ? & ?) Hc Hd. unfold show_range. rewrite !occurs_app. cbn.
  intros [H'|[[H'|[]]|H']]; [|congruence|]; revert H'; apply Itoa_no; (done || lia).
Qed.

Lemma parse_show_range r : range_ok r → parsePortRangeStr (show_range r) = Some r.
Proof.
  intros Hr. pose proof Hr as (? & ? & ?). unfold parsePortRangeStr.
  rewrite TrimSpace_visible by by apply show_range_visible.
  rewrite bool_decide_false.
  2: { unfold show_range. by destruct (Itoa_head (fst r) ltac:(lia)) as (d & s & _ & ->). }
  unfold show_range. change ("-" +:+ Itoa (snd r)) with (String "-" (Itoa (snd r))).
  rewrite Index_char by (apply Itoa_no; [lia|unfold plain; vm_compute; intros [[] _]; congruence]).
  rewrite str_take_app, str_drop_add, str_drop_app. cbn [str_drop].
  destruct (Itoa (snd r)) as [|c s] eqn:E; [by apply Itoa_nonempty in E; [|lia]|]. rewrite <- E.
  rewrite !Itoa_trimmed by lia. rewrite !Atoi_Itoa by (unfold int64_max; lia).
  destruct (Z.ltb_spec (fst r) 1), (Z.ltb_spec 65535 (snd r)), (Z.ltb_spec (snd r) (fst r)); try lia.
  by destruct r.
Qed.

Lemma parse_show_ranges rs : Forall range_ok rs → parsePortRanges (show_range <$> rs) = rs.
Proof.
  unfold parsePortRanges. induction 1 as [|r rs Hr _ IH]; [done|]. cbn.
  rewrite TrimSpace_visible by by apply show_range_visible.
  rewrite bool_decide_false.
  2: { destruct Hr as (? & ? & ?). unfold show_range.
       by destruct (Itoa_head (fst r) ltac:(lia)) as (d & s & _ & ->). }
  rewrite parse_show_range by done. f_equal. exact IH.
Qed.

End Fields.

Section Answer.
Implicit Types (ps : list Z) (rs : list portRange) (parts : list string).

Lemma occurs_Join c l sep : ¬ occurs c sep → Forall (λ w, ¬ occurs c w) l → ¬ occurs c (Join l sep).
Proof.
  intros Hs. induction l as [|w l IH]; [tauto|]. intros [Hw Hl]%Forall_cons. destruct l as [|w' l]; [done|].
  change (¬ occurs c (w +:+ (sep +:+ Join (w' :: l) sep))). rewrite !occurs_app. tauto.
Qed.

Lemma not_plain c : code c < 46 ∨ 102 < code c → ¬ plain c.
Proof. unfold plain. lia. Qed.

Lemma comma_np : ¬ plain ",". Proof. apply not_plain. left. by vm_compute. Qed.
Lemma bar_np : ¬ plain "|". Proof. apply not_plain. right. by vm_compute. Qed.

Lemma ports_no ps c : Forall (λ p, port_ok p = true) ps → ¬ plain c → Forall (λ w, ¬ occurs c w) (Itoa <$> ps).
Proof.
  intros Hps Hc. apply Forall_fmap. eapply Forall_impl; [exact Hps|]. cbn. intros p Hp%port_ok_range.
  apply Itoa_no; [lia|done].
Qed.

Lemma ranges_no rs c :
  Forall range_ok rs → ¬ plain c → c ≠ "-"%char → Forall (λ w, ¬ occurs c w) (show_range <$> rs).
Proof.
  intros Hrs Hc Hd. apply Forall_fmap. eapply Forall_impl; [exact Hrs|]. cbn. intros r Hr. by apply show_range_no.
Qed.

Lemma parse_ports (f : Z → option Z) ps :
  (∀ p, port_ok p = true → f p = Some p) → Forall (λ p, port_ok p = true) ps →
  omap (λ seg, match Atoi (TrimSpace seg) with Some p => f p | None => None end) (Itoa <$> ps) = ps.
Proof.
  intros Hf. induction 1 as [|p ps Hp _ IH]; [done|]. cbn. pose proof Hp as Hr%port_ok_range.
  rewrite Itoa_trimmed, Atoi_Itoa by (unfold int64_max; lia). rewrite Hf by done. f_equal. exact IH.
Qed.

Lemma ranges_field parts flag dflt b rs :
  Forall range_ok rs → parts !! flag = Some (on_off b) →
  parts !! S flag = Some (when b (Join (show_range <$> rs) "|")) →
  ranges_of parts flag dflt = if b then or_default dflt rs else [].
Proof.
  intros Hrs E1 E2. unfold ranges_of. rewrite E1, E2. destruct b; [|done]. cbn [on_off when].
  rewrite bool_decide_true by done. destruct rs as [|r rs']; [done|].
  rewrite Split_Join by (done || (apply ranges_no; [done|apply bar_np|done])).
  by rewrite parse_show_ranges.
Qed.

Lemma split_field parts ps :
  Forall (λ p, port_ok p = true) ps → parts !! 3%nat = Some (Join (Itoa <$> ps) "|") →
  split_ports parts = list_to_set (or_default [22345; 443] ps).
Proof.
  intros Hps E. unfold split_ports. rewrite E. destruct ps as [|p ps']; [by vm_compute|].
  rewrite Split_Join by (done || (apply ports_no; [done|apply bar_np])).
  rewrite (parse_ports (λ n, if (0 <? n) && (n <=? 65535) then Some n else None)); [done| |done].
  intros q Hq%port_ok_range. cbn. by rewrite (proj2 (Z.ltb_lt 0 q)), (proj2 (Z.leb_le q 65535)) by lia.
Qed.

Lemma stun_field parts ps :
  Forall (λ p, port_ok p = true) ps →
  parts !! 11%nat = Some (match ps with [] => "off"%string | _ => Join (Itoa <$> ps) "|" end) →
  parseBuiltinSTUNPorts parts = ps.
Proof.
  intros Hps E. unfold parseBuiltinSTUNPorts. rewrite E. destruct ps as [|p ps']; [done|].
  assert (all_visible (Join (Itoa <$> p :: ps') "|")) as Hv.
  { apply visible_Join; [by vm_compute|]. apply Forall_fmap. eapply Forall_impl; [exact Hps|]. cbn.
    intros q Hq%port_ok_range. apply Itoa_visible. lia. }
  rewrite TrimSpace_visible by done. pose proof Hps as [Hp%port_ok_range _]%Forall_cons.
  destruct (Itoa_head p ltac:(lia)) as (d & s & Hd & Hi).
  assert (∃ t, Join (Itoa <$> p :: ps') "|" = String (digit d) t) as [t Ht].
  { destruct ps' as [|q ps'']; [by exists s|]. eexists.
    change (Join (Itoa <$> p :: q :: ps'') "|") with (Itoa p +:+ ("|" +:+ Join (Itoa <$> q :: ps'') "|")).
    rewrite Hi, str_app_cons. reflexivity. }
  rewrite (bool_decide_false (_ = EmptyString)) by by rewrite Ht.
  assert (EqualFold (Join (Itoa <$> p :: ps') "|") "off" = false) as ->.
  { rewrite Ht. unfold EqualFold. apply bool_decide_false. by apply (digit_cases (λ c, ToLower (String c t) ≠ ToLower "off")). }
  cbn [orb]. rewrite Split_Join by (done || (apply ports_no; [done|apply bar_np])).
  apply parse_ports; [|done]. intros q Hq. by rewrite Hq.
Qed.
End Answer.

(** The settings the server means: the ports, the ranges and the STUN ports its
    texts were made of. *)
Record typed (o : DHCPOutbound) (rel unrel : list portRange) (stun : list Z) : Prop := {
  typed_ports : Forall (λ p, port_ok p = true) (tcpSplitPorts o);
  typed_rel : udpReliablePorts o = show_range <$> rel ∧ Forall range_ok rel;
  typed_unrel : udpUnreliablePorts o = show_range <$> unrel ∧ Forall range_ok unrel;
  typed_stun : builtinSTUN o = Join (Itoa <$> stun) "|" ∧ Forall (λ p, port_ok p = true) stun;
  typed_mode : field_ok (certMode o);
  typed_host : field_ok (serverHostname o);
}.

Definition meant (sip ip mask : string) (o : DHCPOutbound) (rel unrel : list portRange) (stun : list Z) : Settings :=
  let or_text (d s : string) := if bool_decide (s = EmptyString) then d else s in
  mkSettings ip mask (tcpSplitEnabled o)
    (if tcpSplitEnabled o then list_to_set (or_default [22345; 443] (tcpSplitPorts o)) else ∅)
    (if udpReliableEnabled o then or_default defaultUDPMatchRanges rel else [])
    (if udpUnreliableEnabled o then or_default defaultUDPUnreliableRanges unrel else [])
    (or_text "selfsigned" (certMode o)) (or_text sip (serverHostname o)) (p2pEnabled o) stun.

Section Line.
Context (o : DHCPOutbound) (rel unrel : list portRange) (stun : list Z).
Context (Ho : typed o rel unrel stun).
Context (ip mask : string) (Hv : validateTunnelIPv4 ip mask = true).

Lemma valid_addresses : (∃ a, ParseIP ip = Some a) ∧ ∃ m, ParseIP mask = Some m.
Proof.
  unfold validateTunnelIPv4 in Hv. destruct (ParseIP ip) as [a|]; [|done].
  destruct (ParseIP mask) as [m|]; [by eauto|]. cbn in Hv. by destruct (To4 a).
Qed.

Lemma valid_no_comma : ¬ occurs "," ip ∧ ¬ occurs "," mask.
Proof.
  destruct valid_addresses as [[a Ha%ParseIP_plain] [m Hm%ParseIP_plain]].
  split; by apply plain_not_occurs; [apply comma_np|].
Qed.

Lemma stun_text :
  (if bool_decide (builtinSTUN o = EmptyString) then "off"%string else builtinSTUN o)
  = match stun with [] => "off"%string | _ => Join (Itoa <$> stun) "|" end.
Proof.
  destruct (typed_stun _ _ _ _ Ho) as [-> Hst]. destruct stun as [|p ps]; [done|]. rewrite bool_decide_false; [done|].
  apply Forall_cons in Hst as [Hp%port_ok_range _]. destruct (Itoa_head p ltac:(lia)) as (d & s & _ & E).
  destruct ps; cbn [fmap list_fmap Join]; rewrite E; done.
Qed.

Lemma fields_no_comma : Forall (λ w, ¬ occurs "," w) (response_fields o ip mask).
Proof.
  destruct valid_no_comma as [Hi Hm]. destruct Ho as [Hp [Er Hr] [Eu Hu] _ [_ Hc] [_ Hh]].
  assert (∀ b, ¬ occurs "," (on_off b)) as Hon by (intros []; vm_compute; intuition discriminate).
  assert (∀ b s, ¬ occurs "," s → ¬ occurs "," (when b s)) as Hwhen by (intros [] s ?; cbn; tauto).
  assert (¬ occurs "," "|") as Hbar by (vm_compute; intuition discriminate).
  unfold response_fields. rewrite Er, Eu, stun_text.
  repeat (apply Forall_cons; split; [try done|]); [| | | |by apply Forall_nil].
  - apply Hwhen, occurs_Join; [done|]. by apply ports_no; [|apply comma_np].
  - apply Hwhen, occurs_Join; [done|]. by apply ranges_no; [|apply comma_np|].
  - apply Hwhen, occurs_Join; [done|]. by apply ranges_no; [|apply comma_np|].
  - destruct (typed_stun _ _ _ _ Ho) as [_ Hst]. destruct stun as [|p ps]; [vm_compute; intuition discriminate|].
    apply occurs_Join; [done|]. by apply ports_no; [|apply comma_np].
Qed.

Lemma Join_ends l (sep w : string) : l ≠ [] → last l = Some w → ∃ m, Join l sep = m +:+ w.
Proof.
  induction l as [|x l IH]; [done|]. intros _. destruct l as [|y l].
  - intros [= ->]. by exists EmptyString.
  - intros E. destruct (IH ltac:(done) E) as [m Hm]. exists (x +:+ sep +:+ m).
    change (x +:+ (sep +:+ Join (y :: l) sep) = (x +:+ sep +:+ m) +:+ w). by rewrite Hm, !str_app_assoc.
Qed.

Lemma response_trimmed : TrimSpace (response o ip mask) = Join (response_fields o ip mask) ",".
Proof.
  unfold response. set (w := match stun with [] => "off"%string | _ => Join (Itoa <$> stun) "|" end).
  assert (∃ rest, Join (response_fields o ip mask) "," = ip +:+ rest ∧ ∃ m, rest = m +:+ w) as (rest & -> & m & ->).
  { unfold response_fields. rewrite stun_text. fold w. eexists. split; [reflexivity|].
    destruct (Join_ends (mask :: on_off (tcpSplitEnabled o) ::
      when (tcpSplitEnabled o) (Join (Itoa <$> tcpSplitPorts o) "|") :: on_off (udpReliableEnabled o) ::
      when (udpReliableEnabled o) (Join (udpReliablePorts o) "|") :: on_off (udpUnreliableEnabled o) ::
      when (udpUnreliableEnabled o) (Join (udpUnreliablePorts o) "|") :: certMode o :: serverHostname o ::
      on_off (p2pEnabled o) :: [w]) "," w ltac:(done) eq_refl) as [m Hm].
    exists ("," +:+ m). by rewrite str_app_assoc, <- Hm. }
  destruct valid_addresses as [[a Ha] _]. apply TrimSpace_line.
  - by intros ->.
  - subst w. destruct (typed_stun _ _ _ _ Ho) as [_ Hst]. destruct stun as [|p ps]; [done|].
    apply Forall_cons in Hst as [Hp%port_ok_range _]. destruct (Itoa_head p ltac:(lia)) as (d & s & _ & E).
    destruct ps; cbn [fmap list_fmap Join]; rewrite E; done.
  - by apply plain_visible, (ParseIP_plain _ a).
  - subst w. destruct (typed_stun _ _ _ _ Ho) as [_ Hst]. destruct stun as [|p ps]; [by vm_compute|].
    apply visible_Join; [by vm_compute|]. apply Forall_fmap. eapply Forall_impl; [exact Hst|]. cbn.
    intros q Hq%port_ok_range. apply Itoa_visible. lia.
Qed.

Lemma answer_read sip : read_answer sip (response o ip mask) = Some (meant sip ip mask o rel unrel stun).
Proof.
  unfold read_answer. rewrite response_trimmed, Split_Join by (done || apply fields_no_comma).
  unfold response_fields at 1. destruct valid_addresses as [[a Ha] [m Hm]].
  rewrite (TrimSpace_ip ip a), (TrimSpace_ip mask m), Hv by done. cbn [negb].
  destruct Ho as [Hp [Er Hr] [Eu Hu] [Es Hs] [Tc _] [Th _]].
  set (parts := response_fields o ip mask).
  assert (parts !! 2%nat = Some (on_off (tcpSplitEnabled o))) as -> by done.
  rewrite (ranges_field parts 4 _ (udpReliableEnabled o) rel), (ranges_field parts 6 _ (udpUnreliableEnabled o) unrel);
    [|done|done|by cbn; rewrite Eu|done|done|by cbn; rewrite Er].
  rewrite (stun_field parts stun) by (done || by cbn; rewrite stun_text).
  unfold meant, text_of. change (parts !! 8%nat) with (Some (certMode o)).
  change (parts !! 9%nat) with (Some (serverHostname o)). cbn iota. rewrite Tc, Th.
  assert (parseP2PFlag parts = p2pEnabled o) as -> by by (cbn; destruct (p2pEnabled o)).
  destruct (tcpSplitEnabled o) eqn:Es'; [|done].
  rewrite (split_field parts (tcpSplitPorts o)); [done|done|]. cbn. by rewrite Es'.
Qed.
End Line.

(** ** The whole exchange *)

(** The client's request. *)
Definition request_line (deviceID : string) : string := deviceID +:+ newline +:+ "REQUEST_IP".

(** The client's buffer. *)
Definition answer_buffer : nat := 512.

Lemma request_parsed deviceID :
  all_visible deviceID → deviceID ≠ EmptyString →
  TrimSpace (request_line deviceID) = request_line deviceID ∧
  Contains (request_line deviceID) newline = true ∧
  SplitN (request_line deviceID) "010" 2 = [deviceID; "REQUEST_IP"%string].
Proof.
  intros Hv Hne. assert (¬ occurs "010" deviceID) as Hno.
  { clear Hne. induction deviceID as [|c s IH]; cbn; [tauto|]. destruct Hv as [Hc Hs].
    intros [->|H]; [|by apply IH]. unfold visible in Hc. vm_compute in Hc. by destruct Hc. }
  split; [|split].
  - by apply TrimSpace_ends; [..|vm_compute; intuition discriminate].
  - unfold Contains, request_line, newline. change (String "010" "" +:+ "REQUEST_IP") with (String "010" "REQUEST_IP").
    by rewrite Index_char.
  - unfold request_line, newline. change (String "010" "" +:+ "REQUEST_IP") with (String "010" "REQUEST_IP").
    cbn [SplitN]. by rewrite cut_at_app.
Qed.

(** A client that asks for its settings gets exactly what the server means.
    The request of a device names the device's own lease; whatever the ports, port
    ranges, certificate mode, host name and STUN ports of the server are, the
    client's parser rebuilds them from the answer, with its documented defaults for
    the empty ones; the answer is given once. The hypotheses: the allocator
    answers a usable address and mask, and the line fits the client's buffer. *)
Theorem settings_delivered now o rel unrel stun deviceID pool pool' ip sip :
  typed o rel unrel stun → all_visible deviceID → deviceID ≠ EmptyString →
  AllocateByDeviceID now deviceID pool = Some (pool', ip) →
  validateTunnelIPv4 ip (GetSubnetMask pool') = true →
  (String.length (response o ip (GetSubnetMask pool')) <= answer_buffer)%nat →
  ∃ c c' line,
    Write now (request_line deviceID) newDHCPConn pool = Some (c, pool', inl (String.length (request_line deviceID))) ∧
    Read o answer_buffer c = Some (c', inl line) ∧
    read_answer sip line = Some (meant sip ip (GetSubnetMask pool') o rel unrel stun) ∧
    Read o answer_buffer c' = Some (c', inr DEOF).
Proof.
  intros Ho Hv Hne Ha Hok Hfit. destruct (request_parsed _ Hv Hne) as (E1 & E2 & E3).
  assert (ip ≠ EmptyString) as Hip by by intros ->.
  unfold Write. rewrite E1, E2, E3. cbv zeta. rewrite (TrimSpace_visible deviceID) by done.
  rewrite (bool_decide_true (TrimSpace _ = _)) by done. cbn -[AllocateByDeviceID request_line String.length]. rewrite Ha.
  rewrite (bool_decide_false (ip = EmptyString)) by done.
  eexists _, _, _. split; [reflexivity|]. unfold Read. cbn -[response answer_buffer].
  rewrite (bool_decide_false (ip = EmptyString)) by done. split; [reflexivity|].
  rewrite str_take_all by done. split; [by apply answer_read|done].
Qed.


Lemma settings_delivered_witness :
  let o := mkDHCP true [22345; 443] true ["42300-42800"; "7000-7000"]%string false [] "acme" "vpn.example.com" true "3478|3479" in
  ∃ c c' line pool',
    Write 0 (request_line "5f3a9c") newDHCPConn NewIPAllocator
    = Some (c, pool', inl (String.length (request_line "5f3a9c"))) ∧
    Read o answer_buffer c = Some (c', inl line) ∧
    read_answer "1.2.3.4" line
    = Some (mkSettings "10.0.0.100" "255.255.255.0" true (list_to_set [22345; 443]) [(42300, 42800); (7000, 7000)] []
              "acme" "vpn.example.com" true [3478; 3479]) ∧
    Read o answer_buffer c' = Some (c', inr DEOF).
Proof.
  intros o. destruct (AllocateByDeviceID 0 "5f3a9c" NewIPAllocator) as [[pool' ip]|] eqn:E; [|done].
  assert (ip = "10.0.0.100"%string ∧ GetSubnetMask pool' = "255.255.255.0"%string) as [-> Em].
  { assert ((λ r, (GetSubnetMask r.1, r.2)) <$> AllocateByDeviceID 0 "5f3a9c" NewIPAllocator
            = Some ("255.255.255.0", "10.0.0.100")%string) as H by (vm_compute; reflexivity).
    rewrite E in H. cbn in H. split; congruence. }
  destruct (settings_delivered 0 o [(42300, 42800); (7000, 7000)] [] [3478; 3479] "5f3a9c" NewIPAllocator pool'
              "10.0.0.100" "1.2.3.4") as (c & c' & line & H1 & H2 & H3 & H4); rewrite ?Em; try done.
  - split; cbn; repeat split; repeat constructor; try done; vm_compute; intuition discriminate.
  - vm_compute. lia.
  - exists c, c', line, pool'. rewrite Em in H3. by repeat split.
Defined.

(** A line longer than the client's buffer is cut without a trace: the client
    accepts the settings of its beginning, and takes the rest for the defaults. *)
Definition long_dhcp : DHCPOutbound :=
  mkDHCP false [] true (replicate 46 "50000-50550"%string) false [] "acme" "vpn.example.com" true "3478|3479".

Theorem long_answer_misread :
  typed long_dhcp (replicate 46 (50000, 50550)) [] [3478; 3479] ∧
  ∃ s, read_answer "1.2.3.4" (str_take answer_buffer (response long_dhcp "10.0.0.100" "255.255.255.0")) = Some s ∧
    serverCertMode s = "selfsigned"%string ∧ s_serverHostname s = "1.2.3.4"%string ∧
    p2pServerEnabled s = false ∧ builtinSTUNPorts s = [].
Proof.
  split.
  - split; cbn; repeat split; repeat constructor; try done; vm_compute; intuition discriminate.
  - eexists. split; [vm_compute; reflexivity|]. done.
Qed.
