(* ===== verification/NatDetect.v ===== *)
(** * Finding out what NAT a host is behind
    (client: [vpn-tool/backend/quic/nat.go] and the STUN query of
    [hy-extras/realm/stun.go]; server: [vpn-server/quic/stun_server.go])

    The client asks several STUN servers, one after the other on one socket, how
    they see it, and compares the ports. The server offers two end points of its
    own, rate-limited by source address. The STUN codec is a library: a packet is
    the message the library decodes it to. *)

From Stdlib Require Import ZArith Lia Bool Ascii String.
From stdpp Require Import base list gmap sets strings sorting.
From S2P Require Import Prelude.
From S2P Require Import GoNet.
From S2P Require Import Reasons.
From S2P Require Import PunchAddrs.
From S2P Require Import GoText.
From S2P Require Import GoStrings.
From S2P Require Import Dhcp.

Open Scope Z_scope.
Open Scope list_scope.

(** ** Types of NAT *)

Inductive NATType := NATUnknown | NATFullCone | NATRestrictedCone | NATPortRestricted | NATSymmetric.
#[export] Instance NATType_eq_dec : EqDecision NATType.
Proof. solve_decision. Defined.

Definition NAT_text (t : NATType) : string :=
  match t with
  | NATUnknown => "unknown"
  | NATFullCone => "full-cone"
  | NATRestrictedCone => "restricted-cone"
  | NATPortRestricted => "port-restricted"
  | NATSymmetric => "symmetric"
  end.

Definition validNATTypes : list NATType :=
  [NATUnknown; NATFullCone; NATRestrictedCone; NATPortRestricted; NATSymmetric].

Definition IsValidNATType (s : string) : bool := bool_decide (s ∈ NAT_text <$> validNATTypes).

(** ** The list of STUN servers *)

Definition defaultSTUNServers : list string :=
  ["stun.l.google.com:19302"; "stun.cloudflare.com:3478"; "stun.miwifi.com:3478";
   "stun.chat.bilibili.com:3478"]%string.

(** [net.JoinHostPort] *)
Definition JoinHostPort (host port : string) : string :=
  (if Contains host ":" then "[" +:+ host +:+ "]:" +:+ port else host +:+ ":" +:+ port)%string.

(** [env]: the value of HY2_NO_PUBLIC_STUN. *)
Definition noPublicSTUN (env : string) : bool :=
  let v := TrimSpace env in bool_decide (v = "1"%string) || EqualFold v "true".

(** The appending loops: an address is listed once. *)
Fixpoint list_new (l out : list string) : list string :=
  match l with
  | [] => out
  | a :: l => if bool_decide (a ∈ out) then list_new l out else list_new l (out ++ [a])
  end.

Definition builtin_addrs (serverIP : string) (ports : list Z) : list string :=
  let host := TrimSpace serverIP in
  if bool_decide (host = EmptyString) then [] else (λ p, JoinHostPort host (Itoa p)) <$> ports.

Definition stunServerList (env serverIP : string) (builtinSTUNPorts : list Z) : list string :=
  let out := list_new (builtin_addrs serverIP builtinSTUNPorts) [] in
  if noPublicSTUN env && negb (bool_decide (out = [])) then out
  else list_new defaultSTUNServers out.

(** ** One query ([realm.Discover]) *)

(** [netip.AddrPort.String] *)
Fixpoint hex_digits (fuel : nat) (n : Z) (acc : string) : string :=
  match fuel with
  | O => acc
  | S fuel =>
      let d := n mod 16 in
      let c := if d <? 10 then digit d else ascii_of_nat (87 + Z.to_nat d) in
      if n <? 16 then String c acc else hex_digits fuel (n / 16) (String c acc)
  end.

Definition groups (bytes : list Z) : list Z :=
  (λ i, nth (2 * i) bytes 0 * 256 + nth (2 * i + 1) bytes 0) <$> seq 0 8.

Fixpoint zero_run (l : list Z) : nat := match l with 0 :: l => S (zero_run l) | _ => 0 end.

(** The longest run of two or more zero groups, the first of them: start, length. *)
Definition zero_gap (g : list Z) : nat * nat :=
  foldl (λ best i, let n := zero_run (drop i g) in
                   if (2 <=? n)%nat && (snd best <? n)%nat then (i, n) else best) (8%nat, 0%nat) (seq 0 8).

Fixpoint ip6_text (fuel : nat) (i : nat) (gap : nat * nat) (g : list Z) : string :=
  match fuel with
  | O => EmptyString
  | S fuel =>
      let put i := (hex_digits 4 (nth i g 0) EmptyString +:+ ip6_text fuel (S i) gap g)%string in
      if (8 <=? i)%nat then EmptyString
      else if (i =? fst gap)%nat then
        let i := (fst gap + snd gap)%nat in
        if (8 <=? i)%nat then "::"%string else ("::" +:+ put i)%string
      else if (0 <? i)%nat then (":" +:+ put i)%string else put i
  end.

Definition AddrPort_String (a : AddrPort) : string :=
  match ap_addr a with
  | AddrZero => "invalid AddrPort"
  | Addr4 b => ip4ToString b +:+ ":" +:+ Itoa (ap_port a)
  | Addr6 bytes zone =>
      let z := if bool_decide (zone = EmptyString) then EmptyString else "%" +:+ zone in
      let ip := if bool_decide (take 12 bytes = v4_mapped_prefix)
                then match drop 12 bytes with
                     | [a; b; c; d] => "::ffff:" +:+ ip4ToString (a, b, c, d)
                     | _ => EmptyString
                     end
                else ip6_text 9 0 (zero_gap (groups bytes)) (groups bytes) in
      "[" +:+ ip +:+ z +:+ "]:" +:+ Itoa (ap_port a)
  end%string.

Example text_v4 : AddrPort_String (AddrPortFrom (Addr4 (10, 0, 0, 7)) 3478) = "10.0.0.7:3478"%string.
Proof. reflexivity. Qed.
Example text_v6 :
  AddrPort_String (AddrPortFrom (Addr6 ([0x20; 0x01; 0x0d; 0xb8] ++ replicate 11 0 ++ [0x1f]) "") 80)
  = "[2001:db8::1f]:80"%string.
Proof. reflexivity. Qed.

(** What the library decodes a packet to. *)
Record STUNMessage := mkSTUN {
  TransactionID : string;
  binding_success : bool;
  XORMappedAddress : option (list Z * Z);
  MappedAddress : option (list Z * Z);
}.

Definition netIPPortToAddrPort (ip : list Z) (port : Z) : option AddrPort :=
  if (port <=? 0) || (65535 <? port) then None
  else match To4 ip with
       | Some a => Some (AddrPortFrom (Addr4 a) port)
       | None => if (length ip =? 16)%nat then Some (AddrPortFrom (Addr6 ip "") port) else None
       end.

Definition parseSTUNBindingResponse (packet : option STUNMessage) : option (STUNMessage * AddrPort) :=
  match packet with
  | None => None
  | Some msg =>
      if negb (binding_success msg) then None
      else match XORMappedAddress msg with
           | Some (ip, port) => pair msg <$> netIPPortToAddrPort ip port
           | None => match MappedAddress msg with
                     | Some (ip, port) => pair msg <$> netIPPortToAddrPort ip port
                     | None => None
                     end
           end
  end.

(** The receive loop: [packets] are what arrives before the deadline. It ends when
    every transaction is answered. *)
Fixpoint discover_loop (packets : list (option STUNMessage)) (transactions : gset string)
    (results : list AddrPort) : list AddrPort :=
  if bool_decide (transactions = ∅) then results
  else match packets with
       | [] => results
       | p :: packets =>
           match parseSTUNBindingResponse p with
           | None => discover_loop packets transactions results
           | Some (msg, addr) =>
               if bool_decide (TransactionID msg ∈ transactions)
               then discover_loop packets (transactions ∖ {[TransactionID msg]})
                      (if bool_decide (addr ∈ results) then results else addr :: results)
               else discover_loop packets transactions results
           end
       end.

Definition text_le (a b : AddrPort) : Prop := String.leb (AddrPort_String a) (AddrPort_String b) = true.
#[export] Instance text_le_dec a b : Decision (text_le a b).
Proof. unfold text_le. apply _. Defined.

(** [None]: no server could be asked or none answered. *)
Definition Discover (transactions : gset string) (packets : list (option STUNMessage)) : option (list AddrPort) :=
  if bool_decide (transactions = ∅) then None
  else match discover_loop packets transactions [] with
       | [] => None
       | results => Some (merge_sort text_le results)
       end.

(** ** The verdict *)

Inductive nat_error := NoServersToCompare | NoSocket | AllUnreachable | OneServerOnly.

Record NATProbeResult := mkProbe {
  Type_ : NATType;
  PublicAddr : string;
  ObservedPorts : list Z;
  RespondedServers : nat;
  MappingIndependent : bool;
  Err : option nat_error;
}.

Definition classifyNAT (observed : list AddrPort) (respondedServers : nat) : NATProbeResult :=
  match observed with
  | [] => mkProbe NATUnknown EmptyString [] respondedServers false (Some AllUnreachable)
  | a :: _ =>
      let ports := merge_sort Z.le (elements (list_to_set (ap_port <$> observed) : gset Z)) in
      let addr := AddrPort_String a in
      if (1 <? length ports)%nat then mkProbe NATSymmetric addr ports respondedServers false None
      else if (respondedServers <? 2)%nat
      then mkProbe NATUnknown addr ports respondedServers false (Some OneServerOnly)
      else mkProbe NATFullCone addr ports respondedServers true None
  end.

(** The queries in order: [expired] is the state of the context before each one,
    [answer] what [Discover] returns. *)
Fixpoint probe_loop (queries : list (bool * option (list AddrPort))) (observed : list AddrPort) (responded : nat)
    : list AddrPort * nat :=
  match queries with
  | [] => (observed, responded)
  | (expired, answer) :: queries =>
      if expired then (observed, responded)
      else match answer with
           | None | Some [] => probe_loop queries observed responded
           | Some addrs => probe_loop queries (observed ++ addrs) (S responded)
           end
  end.

Definition detectNAT (socket : bool) (servers : list string) (query : string → bool * option (list AddrPort))
    : NATProbeResult :=
  let servers := match servers with [] => defaultSTUNServers | _ => servers end in
  if (length servers <? 2)%nat then mkProbe NATUnknown EmptyString [] 0 false (Some NoServersToCompare)
  else if negb socket then mkProbe NATUnknown EmptyString [] 0 false (Some NoSocket)
  else let '(observed, responded) := probe_loop (query <$> servers) [] 0 in
       classifyNAT observed responded.

(** The NAT check of a punch session ([runInitiator], step 2). *)
Definition nat_refusal (ownType peerType : string) : option string :=
  if bool_decide (ownType = NAT_text NATSymmetric) && bool_decide (peerType = NAT_text NATSymmetric)
  then Some P2PReasonNATSymmetric
  else if bool_decide (ownType = EmptyString) || bool_decide (ownType = NAT_text NATUnknown)
          || bool_decide (peerType = EmptyString) || bool_decide (peerType = NAT_text NATUnknown)
  then Some P2PReasonNATUnknown
  else None.

(** ** The server's own STUN end points *)

Definition builtinSTUNMaxPorts : nat := 2.
Definition builtinSTUNRatePerIP : Z := 30.
Definition builtinSTUNRateWindow : duration := second.
Definition builtinSTUNMaxTrackedIPs : Z := 4096.

Record stunIPBucket := mkBucket { windowStart : time; b_count : Z }.

Record BuiltinSTUN := mkSTUNServer {
  bs_ports : list Z;
  bs_rate : gmap string stunIPBucket;
  bs_served : Z;
  bs_dropped : Z;
}.
#[export] Instance eta_BuiltinSTUN : Eta BuiltinSTUN := λ b,
  mkSTUNServer (bs_ports b) (bs_rate b) (bs_served b) (bs_dropped b).

Definition ShouldStartBuiltinSTUN (p2pEnabled : bool) (stunPort : Z) : bool := p2pEnabled && (0 <? stunPort).

(** [bind]: whether a UDP port can be bound. *)
Definition StartBuiltinSTUN (bind : Z → bool) (basePort : Z) : option BuiltinSTUN :=
  if basePort <=? 0 then None
  else Some (mkSTUNServer
               (filter (λ p, bind p = true) ((λ i, basePort + Z.of_nat i) <$> seq 0 builtinSTUNMaxPorts)) ∅ 0 0).

Definition Ports (b : option BuiltinSTUN) : list Z := match b with None => [] | Some b => bs_ports b end.

Definition Announce (b : option BuiltinSTUN) : string :=
  match Ports b with [] => "off"%string | ports => Join (Itoa <$> ports) "|" end.

(** The warning of the panel. *)
Inductive stun_warning := NoWarning | NoneStarted (port : Z) | SomeStarted (n : nat).

Definition Warning (b : option BuiltinSTUN) (p2pEnabled : bool) (stunPort : Z) : stun_warning :=
  if negb p2pEnabled || (stunPort <=? 0) then NoWarning
  else match Ports b with
       | [] => NoneStarted stunPort
       | ports => if (length ports <? builtinSTUNMaxPorts)%nat then SomeStarted (length ports) else NoWarning
       end.

Definition outdated (now : time) (b : stunIPBucket) : bool :=
  builtinSTUNRateWindow <? time_sub now (windowStart b).

Definition allow_rate (now : time) (key : string) (rate : gmap string stunIPBucket)
    : gmap string stunIPBucket * bool :=
  let rate := if builtinSTUNMaxTrackedIPs <? Z.of_nat (size rate)
              then filter (λ '(_, b), outdated now b = false) rate else rate in
  match rate !! key with
  | None => (<[key := mkBucket now 1]> rate, true)
  | Some b =>
      if outdated now b then (<[key := mkBucket now 1]> rate, true)
      else if builtinSTUNRatePerIP <=? b_count b then (rate, false)
      else (<[key := mkBucket (windowStart b) (b_count b + 1)]> rate, true)
  end.

Definition allow (now : time) (ip : string) (b : BuiltinSTUN) : BuiltinSTUN * bool :=
  let '(rate, ok) := allow_rate now ip (bs_rate b) in (b <| bs_rate := rate |>, ok).

(** What the library decodes a request to: its transaction, and whether it is a
    binding request. *)
Record STUNRequest := mkRequest { rq_transaction : string; rq_binding : bool }.

Definition buildSTUNBindingResponse (packet : option STUNRequest) (from : list Z) (port : Z) : option STUNMessage :=
  match packet with
  | None => None
  | Some req =>
      if negb (rq_binding req) then None
      else match To4 from with
           | None => None
           | Some ip4 => Some (mkSTUN (rq_transaction req) true (Some (ip4_bytes ip4, port)) None)
           end
  end.

(** One packet of [serve]; [sent]: whether the answer could be sent. *)
Definition serve_packet (now : time) (n : nat) (packet : option STUNRequest) (from : list Z) (key : string)
    (port : Z) (sent : bool) (b : BuiltinSTUN) : BuiltinSTUN * option STUNMessage :=
  if (n =? 0)%nat then (b, None)
  else let '(b, ok) := allow now key b in
       if negb ok then (b <| bs_dropped ::= (λ n, wrap_u 64 (n + 1)) |>, None)
       else match buildSTUNBindingResponse packet from port with
            | None => (b <| bs_dropped ::= (λ n, wrap_u 64 (n + 1)) |>, None)
            | Some resp =>
                if sent then (b <| bs_served ::= (λ n, wrap_u 64 (n + 1)) |>, Some resp) else (b, None)
            end.

(** ** The list of servers *)

Section Lists.

Lemma list_new_spec l out :
  NoDup out → NoDup (list_new l out) ∧ out `prefix_of` list_new l out ∧
  (∀ a, a ∈ list_new l out ↔ a ∈ out ∨ a ∈ l).
Proof.
  revert out. induction l as [|a l IH]; intros out Hout; cbn.
  - split; [done|]. split; [done|]. intros a. rewrite elem_of_nil. tauto.
  - destruct (bool_decide_reflect (a ∈ out)) as [Ha|Ha].
    + destruct (IH out Hout) as (? & ? & Hin). split; [done|]. split; [done|]. intros b.
      rewrite Hin, elem_of_cons. split; [tauto|]. intros [?|[->|?]]; auto.
    + destruct (IH (out ++ [a])) as (? & [k Hk] & Hin).
      { apply NoDup_app. split; [done|]. split; [|apply NoDup_singleton]. intros x Hx ->%list_elem_of_singleton. done. }
      split; [done|]. split; [exists ([a] ++ k); by rewrite Hk, <- app_assoc|].
      intros b. rewrite Hin, elem_of_app, list_elem_of_singleton, elem_of_cons. tauto.
Qed.

Lemma list_new_fresh l out : NoDup (out ++ l) → list_new l out = out ++ l.
Proof.
  revert out. induction l as [|a l IH]; intros out H; cbn; [by rewrite app_nil_r|].
  rewrite bool_decide_false.
  - rewrite IH; rewrite <- app_assoc; done.
  - apply NoDup_app in H as (_ & H & _). intros Ha. apply (H a Ha). by left.
Qed.

Lemma stunServerList_NoDup env ip ports : NoDup (stunServerList env ip ports).
Proof.
  unfold stunServerList. destruct (list_new_spec (builtin_addrs ip ports) [] (NoDup_nil_2)) as (H & _).
  case_match; [done|]. by apply list_new_spec.
Qed.

Lemma stunServerList_builtin env ip ports : builtin_addrs ip ports ⊆ stunServerList env ip ports.
Proof.
  unfold stunServerList. destruct (list_new_spec (builtin_addrs ip ports) [] (NoDup_nil_2)) as (H & _ & Hin).
  intros a Ha. case_match; [by apply Hin; right|].
  destruct (list_new_spec defaultSTUNServers _ H) as (_ & _ & ->). left. apply Hin. by right.
Qed.

(** Unless the public servers are switched off there are always enough to
    compare. *)
Lemma stunServerList_enough env ip ports :
  noPublicSTUN env = false → (length defaultSTUNServers <= length (stunServerList env ip ports))%nat.
Proof.
  intros He. unfold stunServerList. rewrite He. cbn [andb].
  destruct (list_new_spec (builtin_addrs ip ports) [] (NoDup_nil_2)) as (H & _).
  destruct (list_new_spec defaultSTUNServers _ H) as (Hd & _ & Hin).
  apply submseteq_length, NoDup_submseteq.
  - unfold defaultSTUNServers. repeat (apply NoDup_cons; split; [set_solver|]). apply NoDup_nil_2.
  - intros a Ha. apply Hin. by right.
Qed.
End Lists.

(** ** One query *)

Definition relevant (transactions : gset string) (p : option STUNMessage) : Prop :=
  ∃ msg, p = Some msg ∧ TransactionID msg ∈ transactions.
#[export] Instance relevant_dec T p : Decision (relevant T p).
Proof.
  destruct p as [msg|]; [|right; by intros (? & ? & ?)].
  destruct (decide (TransactionID msg ∈ T)) as [H|H]; [left; by exists msg|right]. by intros (m & [= <-] & Hm).
Defined.

Section Query.

Lemma parse_same p msg addr : parseSTUNBindingResponse p = Some (msg, addr) → p = Some msg.
Proof.
  unfold parseSTUNBindingResponse. destruct p as [m|]; [|done]. case_match; [done|].
  repeat case_match; intros H'; try done; by apply fmap_Some in H' as (? & _ & [= -> ->]).
Qed.

(** Packets of other transactions, late answers among them, change nothing. *)
Lemma discover_irrelevant packets T T' results :
  T ⊆ T' → discover_loop packets T results = discover_loop (filter (relevant T') packets) T results.
Proof.
  revert T results. induction packets as [|p packets IH]; intros T results HT; [done|].
  rewrite filter_cons. destruct (decide (relevant T' p)) as [Hr|Hr]; cbn [discover_loop].
  - destruct (bool_decide_reflect (T = ∅)); [done|]. destruct (parseSTUNBindingResponse p) as [[msg addr]|]; [|by apply IH].
    case_bool_decide; apply IH; set_solver.
  - destruct (bool_decide_reflect (T = ∅)) as [->|He].
    { by destruct (filter (relevant T') packets). }
    destruct (parseSTUNBindingResponse p) as [[msg addr]|] eqn:Hp; [|by apply IH].
    rewrite bool_decide_false; [by apply IH|]. intros Ht. apply Hr. exists msg.
    split; [by eapply parse_same|set_solver].
Qed.

Lemma discover_loop_sound packets T results a :
  a ∈ discover_loop packets T results →
  a ∈ results ∨ ∃ p msg, p ∈ packets ∧ parseSTUNBindingResponse p = Some (msg, a) ∧ TransactionID msg ∈ T.
Proof.
  revert T results. induction packets as [|p packets IH]; intros T results; cbn [discover_loop].
  - destruct (bool_decide_reflect (T = ∅)); auto.
  - destruct (bool_decide_reflect (T = ∅)); [auto|]. destruct (parseSTUNBindingResponse p) as [[msg addr]|] eqn:Hp.
    + case_bool_decide as Ht.
      * intros [Ha|(p' & m' & Hin & Hp' & Ht')]%IH.
        -- case_bool_decide; [auto|]. apply elem_of_cons in Ha as [->|Ha]; [|auto].
           right. exists p, msg. split; [by left|done].
        -- right. exists p', m'. split; [by right|]. split; [done|set_solver].
      * intros [Ha|(p' & m' & Hin & ?)]%IH; [auto|]. right. exists p', m'. split; [by right|done].
    + intros [Ha|(p' & m' & Hin & ?)]%IH; [auto|]. right. exists p', m'. split; [by right|done].
Qed.

Lemma discover_loop_length packets T results :
  (length (discover_loop packets T results) <= length results + size T)%nat.
Proof.
  revert T results. induction packets as [|p packets IH]; intros T results; cbn [discover_loop].
  - case_match; apply Nat.le_add_r.
  - destruct (bool_decide_reflect (T = ∅)); [apply Nat.le_add_r|]. destruct (parseSTUNBindingResponse p) as [[msg addr]|]; [|done].
    case_bool_decide as Ht; [|done]. etransitivity; [apply IH|].
    assert (size T = S (size (T ∖ {[TransactionID msg]}))) as E.
    { rewrite (union_difference_singleton_L (TransactionID msg) T) at 1 by done.
      rewrite size_union by set_solver. by rewrite size_singleton. }
    rewrite E. case_bool_decide; cbn [length]; lia.
Qed.
End Query.

(** An answer is only ever credited to the server that was asked: what a
    query returns is what its own transactions returned, at most one address for
    each, whatever else arrives on the socket in the meantime, the late answers of
    the servers asked before included. *)
Theorem query_answers_attributed T packets l :
  Discover T packets = Some l →
  Discover T (filter (relevant T) packets) = Some l ∧ (length l <= size T)%nat ∧
  ∀ a, a ∈ l → ∃ msg, Some msg ∈ packets ∧ binding_success msg = true ∧ TransactionID msg ∈ T ∧
    parseSTUNBindingResponse (Some msg) = Some (msg, a).
Proof.
  unfold Discover. case_bool_decide; [done|]. rewrite <- discover_irrelevant by done.
  pose proof (discover_loop_length packets T []) as Hlen.
  pose proof (discover_loop_sound packets T []) as Hs. cbn in Hlen.
  destruct (discover_loop packets T []) as [|b r]; [done|]. intros [= <-]. split; [done|].
  rewrite merge_sort_Permutation. split; [done|]. intros a. rewrite merge_sort_Permutation.
  intros [Hn|(p & msg & Hin & Hp & Ht)]%Hs; [by apply elem_of_nil in Hn|]. pose proof (parse_same _ _ _ Hp) as ->.
  exists msg. split; [done|]. split; [|done]. unfold parseSTUNBindingResponse in Hp.
  by destruct (binding_success msg).
Qed.

Lemma query_answers_attributed_witness :
  let ok id := Some (mkSTUN id true (Some ([203; 0; 113; 9], 40001)) None) in
  ∃ l, Discover {["b"]} [ok "a"; None; ok "b"; ok "a"] = Some l ∧ (length l <= 1)%nat.
Proof.
  intros ok. assert (Discover {["b"%string]} [ok "a"%string; None; ok "b"%string; ok "a"%string]
    = Some [AddrPortFrom (Addr4 (203, 0, 113, 9)) 40001]) as E by (vm_compute; reflexivity).
  exists [AddrPortFrom (Addr4 (203, 0, 113, 9)) 40001]. split; [exact E|].
  exact (proj1 (proj2 (query_answers_attributed _ _ _ E))).
Defined.

(** ** The verdict *)

Section Verdict.

Lemma size_one (l : list Z) p : p ∈ l → size (list_to_set l : gset Z) = 1%nat ↔ ∀ q, q ∈ l → q = p.
Proof.
  intros Hp. split.
  - intros H q Hq. by apply (size_singleton_inv _ q p H); apply elem_of_list_to_set.
  - intros H. assert ((list_to_set l : gset Z) = {[p]}) as ->; [|apply size_singleton].
    apply set_eq. intros q. rewrite elem_of_list_to_set, elem_of_singleton. split; [auto|]. by intros ->.
Qed.

Lemma ports_length (l : list Z) :
  l ≠ [] → (1 <? length (merge_sort Z.le (elements (list_to_set l : gset Z))))%nat = true ↔
  ∃ p q, p ∈ l ∧ q ∈ l ∧ p ≠ q.
Proof.
  intros Hne. rewrite Nat.ltb_lt, merge_sort_Permutation. destruct l as [|p l]; [done|].
  set (X := list_to_set (p :: l) : gset Z). fold (size X).
  assert (size X = 1%nat ↔ ∀ q, q ∈ p :: l → q = p) as H1 by (apply size_one; by left).
  assert (size X ≠ 0%nat) as H0 by (intros H%size_empty_inv; set_solver).
  split.
  - intros Hgt. destruct (decide (Forall (λ q, q = p) (p :: l))) as [Hall|Hn].
    + rewrite Forall_forall in Hall. apply H1 in Hall. clear -Hgt Hall. revert Hgt Hall. unfold size, set_size, compose. lia.
    + apply not_Forall_Exists in Hn; [|apply _]. apply Exists_exists in Hn as (q & Hq & Hqp).
      exists p, q. split; [by left|]. split; [done|]. cbn in Hqp. congruence.
  - intros (a & b & Ha & Hb & Hab). assert (size X ≠ 1%nat) as Hx.
    { intros E. apply Hab. rewrite (proj1 H1 E a Ha). by rewrite (proj1 H1 E b Hb). }
    revert H0 Hx. unfold size, set_size, compose. lia.
Qed.

Lemma elem_of_concat {A} (x : A) ls : x ∈ concat ls ↔ ∃ l, x ∈ l ∧ l ∈ ls.
Proof.
  induction ls as [|l ls IH]; cbn.
  - split; [by intros ?%elem_of_nil|]. by intros (? & _ & ?%elem_of_nil).
  - rewrite elem_of_app, IH. split.
    + intros [H|(k & ? & ?)]; [exists l|exists k]; split; try done; [by left|by right].
    + intros (k & H & [->|Hk]%elem_of_cons); [by left|right; eauto].
Qed.

(** The servers that answer, with what they answer. *)
Definition answered (answers : string → option (list AddrPort)) (servers : list string) : list (list AddrPort) :=
  omap answers servers.

Lemma probe_loop_answers answers servers o n :
  (∀ s l, answers s = Some l → l ≠ []) →
  probe_loop ((λ s, (false, answers s)) <$> servers) o n
  = (o ++ concat (answered answers servers), (n + length (answered answers servers))%nat).
Proof.
  intros Hne. revert o n. induction servers as [|s servers IH]; intros o n; cbn.
  - by rewrite app_nil_r, Nat.add_0_r.
  - destruct (answers s) as [[|a l]|] eqn:Hs; cbn.
    + by apply Hne in Hs.
    + rewrite IH. rewrite <- app_assoc. cbn. f_equal. unfold answered. rewrite Nat.add_succ_r. done.
    + apply IH.
Qed.

Lemma two_answered answers servers :
  NoDup servers →
  (2 <= length (answered answers servers))%nat ↔
  ∃ s1 s2, s1 ∈ servers ∧ s2 ∈ servers ∧ s1 ≠ s2 ∧ is_Some (answers s1) ∧ is_Some (answers s2).
Proof.
  unfold answered. induction 1 as [|s servers Hs Hnd IH]; cbn.
  { split; [lia|]. intros (? & ? & H & _). by apply elem_of_nil in H. }
  assert ((1 <= length (omap answers servers))%nat ↔ ∃ s2, s2 ∈ servers ∧ is_Some (answers s2)) as H1.
  { clear. induction servers as [|s servers IH]; cbn.
    - split; [lia|]. intros (? & H & _). by apply elem_of_nil in H.
    - destruct (answers s) as [l|] eqn:Hs; cbn.
      + split; [|lia]. intros _. exists s. split; [by left|by rewrite Hs].
      + rewrite IH. split; [intros (x & ? & ?); exists x; split; [by right|done]|].
        intros (x & [->|Hx]%elem_of_cons & [l Hl]); [congruence|eauto]. }
  destruct (answers s) as [l|] eqn:Ha; cbn.
  - rewrite <- Nat.succ_le_mono, H1. split.
    + intros (s2 & H2 & Hs2). exists s, s2. rewrite Ha.
      split; [by left|]. split; [by right|]. split; [by intros ->|done].
    + intros (s1 & s2 & [->|H1']%elem_of_cons & [->|H2']%elem_of_cons & Hne & Hi1 & Hi2); eauto. done.
  - rewrite IH. split.
    + intros (s1 & s2 & ? & ? & ? & ? & ?). exists s1, s2. repeat split; try done; by right.
    + intros (s1 & s2 & [->|H1']%elem_of_cons & [->|H2']%elem_of_cons & Hne & Hi1 & Hi2);
        try (rewrite Ha in Hi1; by destruct Hi1); try (rewrite Ha in Hi2; by destruct Hi2). eauto 10.
Qed.
(** The verdict on the answers of servers that saw the ports [m]. *)
Lemma verdict_of observed n (answering : string → Prop) (m : string → Z) :
  observed ≠ [] →
  (∀ p, p ∈ ap_port <$> observed ↔ ∃ s, answering s ∧ m s = p) →
  ((2 <= n)%nat ↔ ∃ s1 s2, answering s1 ∧ answering s2 ∧ s1 ≠ s2) →
  let r := classifyNAT observed n in
  (Type_ r = NATSymmetric ↔ ∃ s1 s2, answering s1 ∧ answering s2 ∧ m s1 ≠ m s2) ∧
  (Type_ r = NATFullCone ↔ (∃ s1 s2, answering s1 ∧ answering s2 ∧ s1 ≠ s2) ∧
                           ∀ s1 s2, answering s1 → answering s2 → m s1 = m s2) ∧
  (Type_ r = NATUnknown ↔ ∀ s1 s2, answering s1 → answering s2 → s1 = s2) ∧
  MappingIndependent r = bool_decide (Type_ r = NATFullCone).
Proof.
  intros Hne Hports Htwo. destruct observed as [|a rest]; [done|].
  assert (ap_port <$> a :: rest ≠ []) as Hne' by done. pose proof (ports_length _ Hne') as Hlen.
  unfold classifyNAT. destruct (1 <? length _)%nat.
  - destruct (proj1 Hlen eq_refl) as (p & q & (s1 & H1 & <-)%Hports & (s2 & H2 & <-)%Hports & Hpq).
    cbn. split; [split; [by exists s1, s2|done]|]. split; [split; [done|intros [_ H]; by destruct Hpq; apply H]|].
    split; [split; [done|intros H; destruct Hpq; by rewrite (H s1 s2)]|done].
  - assert (∀ s1 s2, answering s1 → answering s2 → m s1 = m s2) as Hsame.
    { intros s1 s2 H1 H2. destruct (decide (m s1 = m s2)) as [|Hd]; [done|]. exfalso.
      assert (false = true) as ?; [|done]. apply Hlen. exists (m s1), (m s2).
      split; [apply Hports; eauto|]. split; [apply Hports; eauto|done]. }
    assert ((∃ s1 s2, answering s1 ∧ answering s2 ∧ m s1 ≠ m s2) → False) as Hno.
    { intros (s1 & s2 & H1 & H2 & Hd). by apply Hd, Hsame. }
    destruct (Nat.ltb_spec n 2) as [Hn|Hn]; cbn.
    + assert (∀ s1 s2, answering s1 → answering s2 → s1 = s2) as Hone.
      { intros s1 s2 H1 H2. destruct (decide (s1 = s2)) as [|Hd]; [done|].
        assert (2 <= n)%nat by (apply Htwo; by exists s1, s2). lia. }
      split; [split; [done|intros H; by destruct Hno]|].
      split; [split; [done|intros [(s1 & s2 & H1 & H2 & Hd) _]; by destruct Hd; apply Hone]|]. done.
    + pose proof (proj1 Htwo Hn) as Htwo'.
      split; [split; [done|intros H; by destruct Hno]|]. split; [done|].
      split; [split; [done|]|done]. intros Hone. destruct Htwo' as (s1 & s2 & H1 & H2 & Hd).
      by destruct Hd; apply Hone.
Qed.
End Verdict.

(** What the detection concludes about a NAT is right as far as it goes. Let
    [m] be the port the NAT shows to each server. Whichever servers of the list
    answer, the verdict is symmetric exactly when two of them saw different ports,
    full cone exactly when at least two answered and all saw the same port, and
    unknown exactly when at most one answered; "mapping independent" is the
    second case. *)
Theorem nat_judged_by_behaviour env serverIP builtin (answers : string → option (list AddrPort)) (m : string → Z) :
  let servers := stunServerList env serverIP builtin in
  let answering s := s ∈ servers ∧ is_Some (answers s) in
  let r := detectNAT true servers (λ s, (false, answers s)) in
  (2 <= length servers)%nat →
  (∀ s l, answers s = Some l → l ≠ [] ∧ ∀ a, a ∈ l → ap_port a = m s) →
  (Type_ r = NATSymmetric ↔ ∃ s1 s2, answering s1 ∧ answering s2 ∧ m s1 ≠ m s2) ∧
  (Type_ r = NATFullCone ↔ (∃ s1 s2, answering s1 ∧ answering s2 ∧ s1 ≠ s2) ∧
                           ∀ s1 s2, answering s1 → answering s2 → m s1 = m s2) ∧
  (Type_ r = NATUnknown ↔ ∀ s1 s2, answering s1 → answering s2 → s1 = s2) ∧
  MappingIndependent r = bool_decide (Type_ r = NATFullCone).
Proof.
  intros servers answering r H2 Hm. pose proof (stunServerList_NoDup env serverIP builtin) as Hnd. fold servers in Hnd.
  assert (r = classifyNAT (concat (answered answers servers)) (length (answered answers servers))) as ->.
  { unfold r, detectNAT. destruct servers as [|s l] eqn:E; [cbn in H2; lia|]. rewrite <- E in *.
    rewrite (proj2 (Nat.ltb_ge _ _)) by done. cbn [negb].
    by rewrite probe_loop_answers by (intros s' l' Hl; by apply (Hm s' l')). }
  pose proof (two_answered answers servers Hnd) as Htwo.
  assert (∀ p, p ∈ ap_port <$> concat (answered answers servers) ↔ ∃ s, answering s ∧ m s = p) as Hports.
  { intros p. rewrite list_elem_of_fmap. split.
    - intros (a & -> & (l & Ha & Hl)%elem_of_concat). apply list_elem_of_omap in Hl as (s & Hs & E).
      exists s. split; [split; [done|by eexists]|]. symmetry. by apply (Hm s l).
    - intros (s & [Hs [l Hl]] & <-). destruct (Hm s l Hl) as [Hne Hp]. destruct l as [|a l]; [done|].
      exists a. split; [symmetry; apply Hp; by left|]. apply elem_of_concat. exists (a :: l).
      split; [by left|]. by apply list_elem_of_omap; exists s. }
  destruct (decide (concat (answered answers servers) = [])) as [Hc|Hc].
  { rewrite Hc in *. assert (∀ s, ¬ answering s) as Hno.
    { intros s Hs. apply (not_elem_of_nil (m s)). change (@nil Z) with (ap_port <$> @nil AddrPort).
      apply Hports. eauto. }
    cbn. split; [|split; [|split]].
    - split; [done|]. intros (s1 & s2 & H & _). by apply Hno in H.
    - split; [done|]. intros [(s1 & s2 & H & _) _]. by apply Hno in H.
    - split; [|done]. intros _ s1 s2 H. by apply Hno in H.
    - done. }
  apply (verdict_of _ _ answering m); [done|done|].
  rewrite Htwo. unfold answering. split.
  - intros (s1 & s2 & H1 & H2' & Hne & Hi1 & Hi2). by exists s1, s2.
  - intros (s1 & s2 & [H1 Hi1] & [H2' Hi2] & Hne). by exists s1, s2.
Qed.

Lemma nat_judged_by_behaviour_witness :
  let answers (s : string) := if bool_decide (s ∈ ["1.2.3.4:3478"; "1.2.3.4:3479"]%string)
                   then Some [AddrPortFrom (Addr4 (203, 0, 113, 9)) 40001] else None in
  Type_ (detectNAT true (stunServerList "" "1.2.3.4" [3478; 3479]) (λ s, (false, answers s))) = NATFullCone.
Proof.
  intros answers. apply (nat_judged_by_behaviour "" "1.2.3.4" [3478; 3479] answers (λ _, 40001)).
  - vm_compute. lia.
  - intros s l. unfold answers. case_bool_decide; [|done]. intros [= <-]. split; [done|].
    by intros a ->%list_elem_of_singleton.
  - split; [|done]. exists "1.2.3.4:3478"%string, "1.2.3.4:3479"%string.
    split; [|split]; [split; [apply stunServerList_builtin; vm_compute; set_solver|by eexists]..|done].
Defined.

(** ** The server's end points are enough *)

Section EndPoints.

Lemma append_cancel (s t u : string) : s +:+ t = s +:+ u → t = u.
Proof. induction s as [|c s IH]; [done|]. rewrite !str_app_cons. intros [= H]. by apply IH. Qed.

Lemma Itoa_inj p q : 0 <= p <= int64_max → 0 <= q <= int64_max → Itoa p = Itoa q → p = q.
Proof. intros Hp Hq E. apply (f_equal Atoi) in E. rewrite !Atoi_Itoa in E by done. by injection E. Qed.

Lemma JoinHostPort_inj h p q : JoinHostPort h p = JoinHostPort h q → p = q.
Proof.
  unfold JoinHostPort. destruct (Contains h ":").
  - intros E%append_cancel%append_cancel%append_cancel. done.
  - intros E%append_cancel%append_cancel. done.
Qed.

Lemma quiet_panel bind base :
  Warning (StartBuiltinSTUN bind base) true base = NoWarning → 0 < base →
  Ports (StartBuiltinSTUN bind base) = [base; base + 1] ∧ bind base = true ∧ bind (base + 1) = true.
Proof.
  intros Hw Hb. unfold Warning, StartBuiltinSTUN, Ports, builtinSTUNMaxPorts in *.
  rewrite !(proj2 (Z.leb_gt base 0)) in * by lia. cbn [negb orb bs_ports seq fmap list_fmap] in *.
  rewrite Z.add_0_r in *. rewrite !filter_cons, filter_nil in *.
  destruct (decide (bind base = true)), (decide (bind (base + Z.of_nat 1) = true)); cbn in Hw; done.
Qed.

Lemma omap_length {A B} (f : A → option B) l : (length (omap f l) <= length l)%nat.
Proof. induction l as [|x l IH]; cbn; [done|]. destruct (f x); cbn; lia. Qed.

Lemma verdict_known observed n : observed ≠ [] → (2 <= n)%nat → Type_ (classifyNAT observed n) ≠ NATUnknown.
Proof.
  intros Hne Hn. destruct observed as [|a l]; [done|]. unfold classifyNAT.
  destruct (1 <? length _)%nat; [done|]. by rewrite (proj2 (Nat.ltb_ge _ _)) by done.
Qed.
End EndPoints.

(** The server's two STUN end points are enough to tell the type of a NAT.
    When P2P is on and the panel shows no warning, the client that received the
    server's settings lists both end points, and when these two answer it reaches a
    verdict, whether the public servers answer, are unreachable or are switched
    off. *)
Theorem quiet_panel_suffices bind base o rel unrel ip mask sip env serverIP answers :
  let b := StartBuiltinSTUN bind base in
  let point i := JoinHostPort (TrimSpace serverIP) (Itoa (base + i)) in
  0 < base → (∀ p, bind p = true → p <= 65535) → Warning b true base = NoWarning →
  builtinSTUN o = Announce b → typed o rel unrel (Ports b) →
  validateTunnelIPv4 ip mask = true → TrimSpace serverIP ≠ EmptyString →
  (∀ s l, answers s = Some l → l ≠ []) → is_Some (answers (point 0)) → is_Some (answers (point 1)) →
  ∃ s, read_answer sip (response o ip mask) = Some s ∧ builtinSTUNPorts s = [base; base + 1] ∧
    Type_ (detectNAT true (stunServerList env serverIP (builtinSTUNPorts s)) (λ s, (false, answers s)))
      ≠ NATUnknown.
Proof.
  intros b point Hb Hbind Hw Hann Ho Hv Hip Hne H0 H1.
  destruct (quiet_panel bind base Hw Hb) as (Hp & B0%Hbind & B1%Hbind). subst b.
  eexists. split; [by apply answer_read|]. cbn [builtinSTUNPorts meant]. split; [done|]. rewrite Hp.
  set (servers := stunServerList env serverIP [base; base + 1]).
  assert (∀ i, i = 0 ∨ i = 1 → point i ∈ servers) as Hin.
  { intros i Hi. apply stunServerList_builtin. unfold builtin_addrs. rewrite bool_decide_false by done.
    apply list_elem_of_fmap. exists (base + i). split; [done|]. destruct Hi as [->| ->]; [|by right; left].
    rewrite Z.add_0_r. by left. }
  assert (point 0 ≠ point 1) as Hd.
  { intros E%JoinHostPort_inj%Itoa_inj; unfold int64_max in *; lia. }
  pose proof (stunServerList_NoDup env serverIP [base; base + 1]) as Hnd. fold servers in Hnd.
  assert (2 <= length (answered answers servers))%nat as Htwo.
  { apply two_answered; [done|]. exists (point 0), (point 1). auto 10. }
  assert (2 <= length servers)%nat as Hlen.
  { etransitivity; [exact Htwo|]. apply omap_length. }
  unfold detectNAT. destruct servers as [|s l] eqn:Es; [cbn in Hlen; lia|]. rewrite <- Es in *.
  rewrite (proj2 (Nat.ltb_ge _ _)) by done. cbn [negb]. rewrite probe_loop_answers by done.
  rewrite app_nil_l. apply verdict_known; [|exact Htwo]. intros E. destruct H0 as [x Hx].
  assert (∃ a, a ∈ concat (answered answers servers)) as [a Ha].
  2: { rewrite E in Ha. by apply elem_of_nil in Ha. }
  destruct x as [|a x]; [destruct (Hne _ _ Hx eq_refl)|]. exists a. apply elem_of_concat. exists (a :: x). split; [by left|].
  apply list_elem_of_omap. exists (point 0). split; [apply Hin; by left|exact Hx].
Qed.

Lemma quiet_panel_suffices_witness :
  let o := mkDHCP false [] false [] false [] "" "" true "3478|3479" in
  let answers (s : string) := if bool_decide (s ∈ ["1.2.3.4:3478"; "1.2.3.4:3479"]%string)
                   then Some [AddrPortFrom (Addr4 (203, 0, 113, 9)) 40001] else None in
  ∃ s, read_answer "1.2.3.4" (response o "10.0.0.100" "255.255.255.0") = Some s ∧
    builtinSTUNPorts s = [3478; 3479] ∧
    Type_ (detectNAT true (stunServerList "1" "1.2.3.4" (builtinSTUNPorts s)) (λ s, (false, answers s))) ≠ NATUnknown.
Proof.
  intros o answers.
  apply (quiet_panel_suffices (λ p, p <=? 65535) 3478 o [] [] "10.0.0.100" "255.255.255.0" "1.2.3.4" "1" "1.2.3.4" answers).
  - lia.
  - intros p Hp. lia.
  - vm_compute. reflexivity.
  - vm_compute. reflexivity.
  - split; cbn; repeat split; repeat constructor; try done; vm_compute; intuition discriminate.
  - vm_compute. reflexivity.
  - vm_compute. discriminate.
  - intros s l. unfold answers. by case_bool_decide; [intros [= <-]|].
  - by eexists.
  - by eexists.
Defined.

(** ** The rate limit *)

Section Rate.
Implicit Types (rate ref : gmap string stunIPBucket) (run : list (time * string)).

(** A run of requests: each at its time, from its address. *)
Fixpoint rate_run run rate : gmap string stunIPBucket * list bool :=
  match run with
  | [] => (rate, [])
  | (now, key) :: run =>
      let '(rate, ok) := allow_rate now key rate in
      let '(rate, oks) := rate_run run rate in (rate, ok :: oks)
  end.

(** How many requests of [ip] are let through. *)
Fixpoint admitted (ip : string) run rate : Z :=
  match run with
  | [] => 0
  | (now, key) :: run =>
      let '(rate', ok) := allow_rate now key rate in
      (if bool_decide (key = ip) && ok then 1 else 0) + admitted ip run rate'
  end.

Definition counts_positive rate : Prop := ∀ k b, rate !! k = Some b → 0 < b_count b.

Lemma outdated_spec now b : outdated now b = true ↔ windowStart b + builtinSTUNRateWindow < now.
Proof.
  unfold outdated. rewrite Z.ltb_lt.
  pose proof (time_sub_le now (windowStart b) builtinSTUNRateWindow
    ltac:(unfold builtinSTUNRateWindow, second, millisecond, int64_min, int64_max; lia)). lia.
Qed.

(** The table after the clean-up. *)
Definition swept now rate : gmap string stunIPBucket :=
  if builtinSTUNMaxTrackedIPs <? Z.of_nat (size rate) then filter (λ '(_, b), outdated now b = false) rate else rate.

Lemma swept_lookup now rate k :
  swept now rate !! k = rate !! k ∨
  swept now rate !! k = None ∧ ∃ b, rate !! k = Some b ∧ outdated now b = true.
Proof.
  unfold swept. destruct (_ <? _); [|by left]. rewrite map_lookup_filter. destruct (rate !! k) as [b|]; cbn; [|by left].
  destruct (outdated now b) eqn:E; [right|left].
  - split; [|by exists b]. case_guard as H; [|done]. cbn in H. congruence.
  - case_guard as H; [done|]. by destruct H.
Qed.

(** What one request does to an entry. *)
Lemma allow_rate_spec now key rate :
  let '(rate', ok) := allow_rate now key rate in
  (∀ k, k ≠ key → rate' !! k = swept now rate !! k) ∧
  match rate !! key with
  | Some b =>
      if outdated now b then ok = true ∧ rate' !! key = Some (mkBucket now 1)
      else if builtinSTUNRatePerIP <=? b_count b then ok = false ∧ rate' !! key = Some b
      else ok = true ∧ rate' !! key = Some (mkBucket (windowStart b) (b_count b + 1))
  | None => ok = true ∧ rate' !! key = Some (mkBucket now 1)
  end.
Proof.
  unfold allow_rate. fold (swept now rate). pose proof (swept_lookup now rate key) as Hs.
  destruct (swept now rate !! key) as [b|] eqn:E.
  - destruct Hs as [<-|[? _]]; [|done].
    destruct (outdated now b); [|destruct (_ <=? _)]; (split; [|split; [done|]]);
      intros; by simplify_map_eq.
  - assert (match rate !! key with Some b => outdated now b = true | None => True end) as Hb.
    { destruct Hs as [<-|(_ & b & -> & ?)]; done. }
    split; [intros; by simplify_map_eq|]. destruct (rate !! key) as [b|]; [rewrite Hb|]; by simplify_map_eq.
Qed.

Lemma counts_allow now key rate : counts_positive rate → counts_positive (allow_rate now key rate).1.
Proof.
  intros Hc k b. pose proof (allow_rate_spec now key rate) as H. destruct (allow_rate now key rate) as [rate' ok].
  destruct H as [Hk Hkey]. cbn. destruct (decide (k = key)) as [->|Hne].
  - destruct (rate !! key) as [b'|] eqn:E.
    + pose proof (Hc _ _ E). destruct (outdated now b'); [|destruct (_ <=? _)]; destruct Hkey as [_ ->];
        intros [= <-]; cbn; lia.
    + destruct Hkey as [_ ->]. intros [= <-]. cbn. lia.
  - rewrite Hk by done. destruct (swept_lookup now rate k) as [->|[-> _]]; [apply Hc|done].
Qed.

Lemma counts_run run rate : counts_positive rate → counts_positive (rate_run run rate).1.
Proof.
  revert rate. induction run as [|[now key] run IH]; intros rate Hc; [done|]. cbn.
  pose proof (counts_allow now key rate Hc). destruct (allow_rate now key rate) as [rate' ok].
  specialize (IH rate'). destruct (rate_run run rate'). by apply IH.
Qed.

(** What a source can still get in the second that starts at [t0]. *)
Definition rate_left (ip : string) (t0 : time) rate : Z :=
  match rate !! ip with
  | None => builtinSTUNRatePerIP
  | Some b =>
      let left := Z.max 0 (builtinSTUNRatePerIP - b_count b) in
      if t0 <=? windowStart b then left else left + builtinSTUNRatePerIP
  end.

Lemma rate_left_step ip t0 now key rate :
  t0 <= now <= t0 + builtinSTUNRateWindow →
  let '(rate', ok) := allow_rate now key rate in
  (if bool_decide (key = ip) && ok then 1 else 0) + rate_left ip t0 rate' <= rate_left ip t0 rate.
Proof.
  intros Ht. pose proof (allow_rate_spec now key rate) as H. destruct (allow_rate now key rate) as [rate' ok].
  destruct H as [Hk Hkey]. unfold rate_left. destruct (bool_decide_reflect (key = ip)) as [->|Hne]; cbn [andb].
  - destruct (rate !! ip) as [b|].
    + destruct (outdated now b) eqn:Ho.
      * destruct Hkey as [-> ->]. cbn. apply outdated_spec in Ho.
        destruct (Z.leb_spec t0 (windowStart b)); [lia|]. rewrite (proj2 (Z.leb_le t0 now)) by lia.
        unfold builtinSTUNRatePerIP. lia.
      * destruct (Z.leb_spec builtinSTUNRatePerIP (b_count b)); destruct Hkey as [-> ->]; cbn.
        -- lia.
        -- destruct (t0 <=? windowStart b); lia.
    + destruct Hkey as [-> ->]. cbn. rewrite (proj2 (Z.leb_le t0 now)) by lia. unfold builtinSTUNRatePerIP. lia.
  - rewrite (Hk ip) by congruence. destruct (swept_lookup now rate ip) as [->|(-> & b & -> & Ho%outdated_spec)]; [lia|].
    destruct (Z.leb_spec t0 (windowStart b)); lia.
Qed.

Lemma admitted_left ip t0 run rate :
  Forall (λ r, t0 <= fst r <= t0 + builtinSTUNRateWindow) run → admitted ip run rate <= rate_left ip t0 rate.
Proof.
  revert rate. induction run as [|[now key] run IH]; intros rate Hf.
  - cbn. unfold rate_left, builtinSTUNRatePerIP. repeat case_match; lia.
  - apply Forall_cons in Hf as [Ht Hf]. cbn [admitted]. cbn in Ht.
    pose proof (rate_left_step ip t0 now key rate Ht) as Hs. destruct (allow_rate now key rate) as [rate' ok].
    specialize (IH rate' Hf). lia.
Qed.

(** The limiter without clean-up. *)
Definition allow_unbounded (now : time) (key : string) ref : gmap string stunIPBucket * bool :=
  match ref !! key with
  | None => (<[key := mkBucket now 1]> ref, true)
  | Some b =>
      if outdated now b then (<[key := mkBucket now 1]> ref, true)
      else if builtinSTUNRatePerIP <=? b_count b then (ref, false)
      else (<[key := mkBucket (windowStart b) (b_count b + 1)]> ref, true)
  end.

Fixpoint unbounded_run run ref : list bool :=
  match run with
  | [] => []
  | (now, key) :: run => let '(ref, ok) := allow_unbounded now key ref in ok :: unbounded_run run ref
  end.

Definition sweep_rel (now : time) rate ref : Prop :=
  ∀ k, rate !! k = ref !! k ∨ rate !! k = None ∧ ∃ b, ref !! k = Some b ∧ outdated now b = true.

Lemma sweep_rel_step now key rate ref :
  sweep_rel now rate ref →
  sweep_rel now (allow_rate now key rate).1 (allow_unbounded now key ref).1 ∧
  (allow_rate now key rate).2 = (allow_unbounded now key ref).2.
Proof.
  intros Hrel. pose proof (allow_rate_spec now key rate) as H. destruct (allow_rate now key rate) as [rate' ok].
  destruct H as [Hk Hkey]. cbn.
  assert ((∀ k, k ≠ key → (allow_unbounded now key ref).1 !! k = ref !! k) ∧
          rate' !! key = (allow_unbounded now key ref).1 !! key ∧ ok = (allow_unbounded now key ref).2)
    as (Hk' & Hkey' & Hok).
  { unfold allow_unbounded. destruct (Hrel key) as [E|(E & b & -> & Ho)]; rewrite E in Hkey.
    - destruct (ref !! key) as [b|] eqn:Er; [destruct (outdated now b); [|destruct (_ <=? _)]|];
        destruct Hkey as [-> ->]; (split; [intros; by simplify_map_eq|by simplify_map_eq]).
    - rewrite Ho. destruct Hkey as [-> ->]. split; [intros; by simplify_map_eq|by simplify_map_eq]. }
  split; [|done]. intros k. destruct (decide (k = key)) as [->|Hne]; [by left|].
  rewrite Hk, Hk' by done. destruct (swept_lookup now rate k) as [->|(-> & b & E & Ho)]; [apply Hrel|].
  right. split; [done|]. destruct (Hrel k) as [Hr|[Hr _]]; [|congruence]. exists b. by rewrite <- Hr.
Qed.

Lemma sweep_rel_later now now' rate ref : now <= now' → sweep_rel now rate ref → sweep_rel now' rate ref.
Proof.
  intros Hle Hrel k. destruct (Hrel k) as [|(? & b & ? & Ho)]; [by left|right]. split; [done|]. exists b.
  split; [done|]. apply outdated_spec. apply outdated_spec in Ho. lia.
Qed.
End Rate.

(** The STUN end points answer no source more than 60 times in any second,
    whatever it and others sent before and whenever they send: two windows of 30
    requests can meet in a second, no more. *)
Theorem stun_rate_bounded ip t0 before run :
  Forall (λ r, t0 <= fst r <= t0 + builtinSTUNRateWindow) run →
  admitted ip run (rate_run before ∅).1 <= 2 * builtinSTUNRatePerIP.
Proof.
  intros Hf. pose proof (admitted_left ip t0 run (rate_run before ∅).1 Hf) as H.
  assert (counts_positive (rate_run before ∅).1) as Hc by (apply counts_run; by intros k b).
  etransitivity; [exact H|]. unfold rate_left. destruct ((rate_run before ∅).1 !! ip) as [b|] eqn:E.
  - apply Hc in E. unfold builtinSTUNRatePerIP. case_match; lia.
  - unfold builtinSTUNRatePerIP. lia.
Qed.

Lemma stun_rate_bounded_witness :
  admitted "203.0.113.9" (replicate 40 (second, "203.0.113.9"%string)) (rate_run (replicate 40 (0, "203.0.113.9"%string)) ∅).1
  <= 60.
Proof.
  apply (stun_rate_bounded "203.0.113.9" second). apply Forall_replicate. cbn. unfold builtinSTUNRateWindow, second, millisecond. lia.
Defined.

(** Cleaning the table of the rate limiter, which happens inside a request
    once it holds more than 4096 sources, never changes an answer: while the clock
    does not go back, the limiter decides as one that forgets nobody. *)
Theorem sweep_invisible run t0 :
  Sorted Z.le (t0 :: (fst <$> run)) → (rate_run run ∅).2 = unbounded_run run ∅.
Proof.
  assert (∀ rate ref, sweep_rel t0 rate ref → Sorted Z.le (t0 :: (fst <$> run)) →
    (rate_run run rate).2 = unbounded_run run ref) as H; [|intros Hs; apply H; [by intros k; left|done]].
  revert t0. induction run as [|[now key] run IH]; intros t0 rate ref Hrel Hs; [done|].
  cbn in Hs. apply Sorted_inv in Hs as [Hs Hd]. apply HdRel_inv in Hd.
  destruct (sweep_rel_step now key rate ref (sweep_rel_later _ _ _ _ Hd Hrel)) as [Hrel' Hok].
  cbn. destruct (allow_rate now key rate) as [rate' ok]. destruct (allow_unbounded now key ref) as [ref' ok'].
  cbn in Hrel', Hok. subst ok'. specialize (IH now rate' ref' Hrel' Hs).
  destruct (rate_run run rate') as [rate'' oks]. cbn in *. by rewrite IH.
Qed.

Lemma sweep_invisible_witness :
  (rate_run [(0, "a"); (second, "b"); (3 * second, "a")]%string ∅).2
  = unbounded_run [(0, "a"); (second, "b"); (3 * second, "a")]%string ∅.
Proof.
  apply (sweep_invisible _ 0). cbn. repeat constructor; unfold second, millisecond; lia.
Defined.
