(* ===== verification/HyFile.v ===== *)
(** * Client configuration files ([vpn-tool/backend/config/hyfile.go], [config.go])

    A .hy2 file is JSON; a file is modelled as the record it decodes to ([None]:
    it cannot be read or is not JSON of that shape), so what is modelled is what
    the program writes into it and which files it accepts. *)

From Stdlib Require Import ZArith Lia Bool Ascii String.
From stdpp Require Import base list strings.
From S2P Require Import Prelude.
From S2P Require Import GoNet.
From S2P Require Import GoText.
From S2P Require Import GoStrings.
From S2P Require Import IPAlloc.
From S2P Require Import VpnAuth.

Open Scope Z_scope.

Record HY2File := mkHY2 {
  V : Z;
  hy_Type : string;
  hy_Name : string;
  Server : string;
  hy_Port : Z;
  hy_Username : string;
  hy_Password : string;
  hy_ObfsEnabled : bool;
  hy_ObfsPassword : string;
  hy_SkipCertVerify : bool;
  hy_P2PDisabled : bool;
}.

Record ClientConfig := mkClientConfig {
  cc_Name : string;
  IP : string;
  Port : Z;
  PortVPN : Z;
  cc_Username : string;
  cc_Password : string;
  UseDHCP : bool;
  StaticIP : string;
  StaticMask : string;
  SkipCertVerify : bool;
  ObfsEnabled : bool;
  ObfsPassword : string;
  P2PDisabled : bool;
}.

Definition HyFileType : string := "hy2link".
Definition HyFileVersion : Z := 1.

(** ** Names of servers and users *)

Definition len (s : string) : Z := Z.of_nat (String.length s).

(** [strings.ContainsAny] with a set of ASCII characters. *)
Definition ContainsAny (s chars : string) : bool :=
  bool_decide (Exists (λ c, c ∈ String.list_ascii_of_string chars) (String.list_ascii_of_string s)).

Definition HasSuffix (s suf : string) : bool :=
  (String.length suf <=? String.length s)%nat
  && bool_decide (str_drop (String.length s - String.length suf) s = suf).

Definition host_char (c : ascii) : bool :=
  ((97 <=? code c) && (code c <=? 122)) || ((65 <=? code c) && (code c <=? 90))
  || ((48 <=? code c) && (code c <=? 57)) || (code c =? 45).

Definition host_label (label : string) : bool :=
  negb (bool_decide (label = EmptyString)) && (len label <=? 63)
  && forallb host_char (String.list_ascii_of_string label).

Definition reserved : string := "\/:*?" +:+ String "034" "<>| ".

Definition validServerHost (s : string) : bool :=
  if bool_decide (s = EmptyString) then false
  else if 253 <? len s then false
  else match ParseIP s with
       | Some _ => true
       | None =>
           if ContainsAny s reserved then false
           else if HasPrefix s "." || HasSuffix s "." || Contains s ".." then false
           else forallb host_label (Split s ".")
       end.

Definition validUsername (s : string) : bool :=
  if 64 <? len s then false
  else if negb (bool_decide (TrimSpace s = s)) then false
  else negb (ContainsAny s (":" +:+ String "013" (String "010" (String "009" EmptyString)))).

(** ** Writing and reading a file *)

(** The record [ExportToFile] writes. *)
Definition export_record (cfg : ClientConfig) : HY2File :=
  mkHY2 HyFileVersion HyFileType
    (if bool_decide (cc_Name cfg = EmptyString) then IP cfg else cc_Name cfg)
    (IP cfg) (Port cfg) (cc_Username cfg) (cc_Password cfg)
    (ObfsEnabled cfg) (ObfsPassword cfg) (SkipCertVerify cfg) (P2PDisabled cfg).

Definition HyFileExt : string := ".hy2".

Definition export_path (path : string) : string :=
  if HasSuffix (ToLower path) HyFileExt then path else path +:+ HyFileExt.

(** The file at the path afterwards, and whether the export succeeded: the record
    is written to a temporary file and renamed. [written], [renamed]: whether these
    steps succeed. *)
Definition ExportToFile (written renamed : bool) (cfg : ClientConfig) (old : option HY2File)
    : option HY2File * bool :=
  if negb written then (old, false)
  else if negb renamed then (old, false)
  else (Some (export_record cfg), true).

Inductive hyfile_error :=
  Unreadable | WrongType | VersionTooHigh | BadServer | BadPort | NoPassword | LongPassword | BadUsername | ShortObfs.

Definition ParseHyFile (file : option HY2File) : ClientConfig + hyfile_error :=
  match file with
  | None => inr Unreadable
  | Some f =>
      if negb (bool_decide (hy_Type f = HyFileType)) then inr WrongType
      else if HyFileVersion <? V f then inr VersionTooHigh
      else if negb (validServerHost (Server f)) then inr BadServer
      else if (hy_Port f <=? 0) || (65535 <? hy_Port f) then inr BadPort
      else if bool_decide (hy_Password f = EmptyString) then inr NoPassword
      else if (512 <? len (hy_Password f)) || (512 <? len (hy_ObfsPassword f)) then inr LongPassword
      else if negb (bool_decide (hy_Username f = EmptyString)) && negb (validUsername (hy_Username f))
      then inr BadUsername
      else if hy_ObfsEnabled f && (len (hy_ObfsPassword f) <? 4) then inr ShortObfs
      else inl (mkClientConfig (TrimSpace (hy_Name f)) (Server f) (hy_Port f) 0 (hy_Username f) (hy_Password f)
                  true EmptyString EmptyString false (hy_ObfsEnabled f) (hy_ObfsPassword f) (hy_P2PDisabled f))
  end.

(** ** The suggested file name *)

(** The bytes a rune of [range] takes: a valid UTF-8 sequence, or one byte. *)
Definition cont (b lo hi : Z) : bool := (lo <=? b) && (b <=? hi).

Definition rune_width (l : list Z) : nat :=
  match l with
  | b0 :: b1 :: rest =>
      if cont b0 0xC2 0xDF && cont b1 0x80 0xBF then 2%nat
      else match rest with
           | b2 :: rest =>
               if ((b0 =? 0xE0) && cont b1 0xA0 0xBF || (cont b0 0xE1 0xEC || cont b0 0xEE 0xEF) && cont b1 0x80 0xBF
                   || (b0 =? 0xED) && cont b1 0x80 0x9F) && cont b2 0x80 0xBF then 3%nat
               else match rest with
                    | b3 :: _ =>
                        if ((b0 =? 0xF0) && cont b1 0x90 0xBF || cont b0 0xF1 0xF3 && cont b1 0x80 0xBF
                            || (b0 =? 0xF4) && cont b1 0x80 0x8F) && cont b2 0x80 0xBF && cont b3 0x80 0xBF
                        then 4%nat else 1%nat
                    | [] => 1%nat
                    end
           | [] => 1%nat
           end
  | _ => 1%nat
  end.

Definition safe_char (c : ascii) : bool := host_char c || (code c =? 46) || (code c =? 95).

Fixpoint sanitize_loop (fuel : nat) (l : list ascii) : list ascii :=
  match fuel, l with
  | S fuel, c :: _ =>
      let w := rune_width (map code l) in
      (if (w =? 1)%nat && safe_char c then c else "_"%char) :: sanitize_loop fuel (drop w l)
  | _, _ => []
  end.

Definition sanitizeForFilename (s : string) : string :=
  let l := String.list_ascii_of_string s in
  String.string_of_list_ascii (sanitize_loop (length l) l).

(** [date]: the day in digits. *)
Definition SuggestFileName (date : string) (cfg : ClientConfig) : string :=
  let host := sanitizeForFilename (IP cfg) in
  let host := if bool_decide (host = EmptyString) then "hy2link"%string else host in
  "Hy2Link_" +:+ str_take 64 host +:+ "_" +:+ date +:+ HyFileExt.

Example suggest_text : sanitizeForFilename "..\Users\x" = ".._Users_x"%string.
Proof. vm_compute. reflexivity. Qed.

(** ** The authentication string of the client *)

Definition ClientVersion : string := "1.2.0".

(** [None]: the client does not start without a user name. *)
Definition auth_string (cfg : ClientConfig) : option string :=
  if bool_decide (TrimSpace (cc_Username cfg) = EmptyString) then None
  else Some (cc_Username cfg +:+ ":" +:+ cc_Password cfg +:+ ":vn=" +:+ ClientVersion).

(** ** Which characters a name may have *)

Section Names.

Lemma Split_chars (P : ascii → Prop) s sep :
  Forall (λ w, Forall P (String.list_ascii_of_string w)) (Split s sep) →
  Forall (λ c, P c ∨ c = sep) (String.list_ascii_of_string s).
Proof.
  induction s as [|c s IH]; cbn; [constructor|]. case_bool_decide as Hc.
  - intros [_ H]%Forall_cons. constructor; [by right|auto].
  - destruct (Split s sep) as [|w l] eqn:E.
    + intros [[H _]%Forall_cons _]%Forall_cons. constructor; [by left|]. by apply IH.
    + intros [[H Hw]%Forall_cons Hl]%Forall_cons. constructor; [by left|]. apply IH. by constructor.
Qed.

Lemma forallb_all {A} (f : A → bool) l : forallb f l = true → Forall (λ x, f x = true) l.
Proof.
  induction l as [|x l IH]; cbn; [by constructor|]. intros [? ?]%andb_true_iff. constructor; auto.
Qed.

Lemma occurs_chars c s : occurs c s ↔ c ∈ String.list_ascii_of_string s.
Proof.
  induction s as [|x s IH]; cbn; [by rewrite elem_of_nil|]. rewrite elem_of_cons, IH. intuition congruence.
Qed.

Lemma ContainsAny_none s chars c :
  ContainsAny s chars = false → c ∈ String.list_ascii_of_string chars → ¬ occurs c s.
Proof.
  unfold ContainsAny. intros H%bool_decide_eq_false Hc Ho%occurs_chars. apply H, Exists_exists. eauto.
Qed.

(** The characters of an accepted server name. *)
Definition server_char (c : ascii) : Prop := host_char c = true ∨ code c = 46 ∨ code c = 58.

Lemma plain_server_char c : plain c → server_char c.
Proof.
  unfold plain, server_char, host_char. intros H.
  destruct (Z.eq_dec (code c) 46); [auto|]. destruct (Z.eq_dec (code c) 58); [auto|]. left.
  rewrite !orb_true_iff, !andb_true_iff, !Z.leb_le, Z.eqb_eq. lia.
Qed.

Lemma valid_host_chars s :
  validServerHost s = true → Forall server_char (String.list_ascii_of_string s).
Proof.
  unfold validServerHost. case_bool_decide; [done|]. destruct (_ <? _); [done|].
  destruct (ParseIP s) as [ip|] eqn:Hip.
  - intros _. apply ParseIP_plain, all_plain_Forall in Hip. eapply Forall_impl; [exact Hip|]. apply plain_server_char.
  - destruct (ContainsAny s reserved); [done|]. destruct (_ || _); [done|]. intros Hf.
    apply (Forall_impl (λ c, host_char c = true ∨ c = "."%char)).
    + apply Split_chars. eapply Forall_impl; [by apply forallb_all|]. cbn. unfold host_label.
      intros w [_ Hw]%andb_true_iff. by apply forallb_all.
    + intros c [H'|H']; [by left|right; left]. by rewrite H'.
Qed.

(** Neither a path nor a drive can hide in it. *)
Lemma valid_host_no_path s c :
  validServerHost s = true → c ∈ ["/"; "\"; "*"; "?"; "<"; ">"; "|"; " "]%char → ¬ occurs c s.
Proof.
  intros H%valid_host_chars Hc Ho%occurs_chars. rewrite Forall_forall in H. specialize (H c Ho).
  repeat (apply elem_of_cons in Hc as [->|Hc];
    [unfold server_char, host_char in H; vm_compute in H; intuition congruence|]). by apply elem_of_nil in Hc.
Qed.

Lemma validUsername_no_colon s : validUsername s = true → ¬ occurs ":" s.
Proof.
  unfold validUsername. destruct (_ <? _); [done|]. destruct (negb (bool_decide _)); [done|].
  intros H%negb_true_iff. apply (ContainsAny_none _ _ _ H). by left.
Qed.
End Names.

(** ** What an import yields *)

(** The files [ParseHyFile] admits, and the configuration it makes of them. *)
Definition admits (f : HY2File) : Prop :=
  hy_Type f = HyFileType ∧ V f <= HyFileVersion ∧
  validServerHost (Server f) = true ∧ 1 <= hy_Port f <= 65535 ∧
  hy_Password f ≠ EmptyString ∧ len (hy_Password f) <= 512 ∧ len (hy_ObfsPassword f) <= 512 ∧
  (hy_Username f = EmptyString ∨ validUsername (hy_Username f) = true) ∧
  (hy_ObfsEnabled f = true → 4 <= len (hy_ObfsPassword f)).

Definition imported (f : HY2File) : ClientConfig :=
  mkClientConfig (TrimSpace (hy_Name f)) (Server f) (hy_Port f) 0 (hy_Username f) (hy_Password f)
    true EmptyString EmptyString false (hy_ObfsEnabled f) (hy_ObfsPassword f) (hy_P2PDisabled f).

Ltac refused := split; [done|intros [(? & ? & ? & ? & ? & ? & ? & [?|?] & Hobf) _]; first [congruence | lia | done]].

Lemma ParseHyFile_spec f cfg : ParseHyFile (Some f) = inl cfg ↔ admits f ∧ cfg = imported f.
Proof.
  unfold ParseHyFile, admits. fold (imported f).
  destruct (bool_decide_reflect (hy_Type f = HyFileType)); cbn [negb]; [|refused].
  destruct (Z.ltb_spec HyFileVersion (V f)); [refused|].
  destruct (validServerHost (Server f)); cbn [negb]; [|refused].
  destruct (Z.leb_spec (hy_Port f) 0); cbn [orb]; [refused|].
  destruct (Z.ltb_spec 65535 (hy_Port f)); [refused|].
  destruct (bool_decide_reflect (hy_Password f = EmptyString)); [refused|].
  destruct (Z.ltb_spec 512 (len (hy_Password f))); cbn [orb]; [refused|].
  destruct (Z.ltb_spec 512 (len (hy_ObfsPassword f))); [refused|].
  destruct (bool_decide_reflect (hy_Username f = EmptyString)) as [Hu|Hu]; cbn [negb andb].
  - destruct (hy_ObfsEnabled f); cbn [andb]; [destruct (Z.ltb_spec (len (hy_ObfsPassword f)) 4)|].
    + split; [done|]. intros [(_ & _ & _ & _ & _ & _ & _ & _ & Hobf) _]. specialize (Hobf eq_refl). lia.
    + split; [intros [= <-]|by intros [_ ->]]. split; [|done]. split_and!; auto; lia.
    + split; [intros [= <-]|by intros [_ ->]]. split; [|done]. split_and!; auto; lia || done.
  - destruct (validUsername (hy_Username f)); cbn [negb]; [|refused].
    destruct (hy_ObfsEnabled f); cbn [andb]; [destruct (Z.ltb_spec (len (hy_ObfsPassword f)) 4)|].
    + split; [done|]. intros [(_ & _ & _ & _ & _ & _ & _ & _ & Hobf) _]. specialize (Hobf eq_refl). lia.
    + split; [intros [= <-]|by intros [_ ->]]. split; [|done]. split_and!; auto; lia.
    + split; [intros [= <-]|by intros [_ ->]]. split; [|done]. split_and!; auto; lia || done.
Qed.

(** A configuration that is shared as a file arrives as it was: the other end
    imports exactly the exported server, credentials, obfuscation and P2P switch,
    with the certificate checks on whatever the sender had chosen; the import
    succeeds exactly for the configurations the parser admits, and an export that
    fails leaves the file as it was. *)
Theorem hyfile_roundtrip cfg old cfg' :
  (let '(file, ok) := ExportToFile true true cfg old in
   ok = true ∧ (ParseHyFile file = inl cfg' ↔
     admits (export_record cfg) ∧
     cfg' = mkClientConfig (TrimSpace (if bool_decide (cc_Name cfg = EmptyString) then IP cfg else cc_Name cfg))
              (IP cfg) (Port cfg) 0 (cc_Username cfg) (cc_Password cfg) true EmptyString EmptyString false
              (ObfsEnabled cfg) (ObfsPassword cfg) (P2PDisabled cfg))) ∧
  ∀ w r, w && r = false → ExportToFile w r cfg old = (old, false).
Proof. split; [split; [done|apply ParseHyFile_spec]|]. by intros [] []. Qed.

(** C30: Importing a file from a stranger is safe: whatever the file says, the
    certificate checks stay on; the server is an address or a host name that can
    be neither a path nor a drive, the port is a port; the authentication string
    the client sends is read by the server as exactly the user name and password
    of the file, whatever characters they have. *)
Theorem hyfile_import_safe file cfg :
  ParseHyFile file = inl cfg →
  SkipCertVerify cfg = false ∧ 1 <= Port cfg <= 65535 ∧
  IP cfg ≠ EmptyString ∧ IP cfg ≠ "."%string ∧ IP cfg ≠ ".."%string ∧
  (∀ c, c ∈ ["/"; "\"; "*"; "?"; "<"; ">"; "|"; " "]%char → ¬ occurs c (IP cfg)) ∧
  (ObfsEnabled cfg = true → 4 <= len (ObfsPassword cfg)) ∧
  ∀ auth, auth_string cfg = Some auth →
    let '(clean, v) := extractVersionAndStrip auth in
    v = ClientVersion ∧ parseAuth clean = (cc_Username cfg, cc_Password cfg, true).
Proof.
  destruct file as [f|]; [|done]. intros [(_ & _ & Hs & Hport & _ & _ & _ & Hu & Hobf) ->]%ParseHyFile_spec.
  cbn [SkipCertVerify Port IP ObfsEnabled ObfsPassword imported cc_Username cc_Password].
  split; [done|]. split; [done|]. split; [by intros E; rewrite E in Hs|].
  split; [by intros E; rewrite E in Hs|]. split; [by intros E; rewrite E in Hs|].
  split; [by intros c; apply valid_host_no_path|]. split; [done|].
  unfold auth_string. cbn [cc_Username cc_Password imported]. intros auth. case_bool_decide as Ht; [done|].
  intros [= <-]. destruct (auth_string_parsed (hy_Username f) (hy_Password f) ClientVersion [1; 2; 0]) as [-> Hp].
  - by vm_compute.
  - destruct Hu as [Hu|Hu]; [by rewrite Hu in Ht|by apply validUsername_no_colon].
  - by split.
Qed.

Lemma hyfile_import_safe_witness :
  let f := mkHY2 1 "hy2link" "home" "vpn.example.com" 443 "bob" "a:vn=1:b" false "" true false in
  let cfg := imported f in
  ParseHyFile (Some f) = inl cfg ∧ SkipCertVerify cfg = false ∧
  let '(clean, v) := extractVersionAndStrip "bob:a:vn=1:b:vn=1.2.0" in
  v = ClientVersion ∧ parseAuth clean = ("bob", "a:vn=1:b", true)%string.
Proof.
  intros f cfg. assert (ParseHyFile (Some f) = inl cfg) as E by (vm_compute; reflexivity).
  split; [exact E|]. destruct (hyfile_import_safe _ _ E) as (H & _ & _ & _ & _ & _ & _ & Ha).
  split; [exact H|]. apply (Ha "bob:a:vn=1:b:vn=1.2.0"%string). vm_compute. reflexivity.
Defined.

(** ** The suggested name *)

Lemma sanitize_safe fuel l : Forall (λ c, safe_char c = true) (sanitize_loop fuel l).
Proof.
  revert l. induction fuel as [|fuel IH]; intros l; [destruct l; constructor|]. destruct l as [|c l]; [constructor|].
  cbn [sanitize_loop]. constructor; [|apply IH].
  destruct (_ =? 1)%nat; cbn [andb]; [|by vm_compute]. by destruct (safe_char c) eqn:E.
Qed.

Lemma str_take_chars (P : ascii → Prop) n s :
  Forall P (String.list_ascii_of_string s) → Forall P (String.list_ascii_of_string (str_take n s)).
Proof.
  revert s. induction n as [|n IH]; intros s; [destruct s; constructor|]. destruct s as [|c s]; cbn; [constructor|].
  intros [? ?]%Forall_cons. constructor; auto.
Qed.

Lemma str_take_length n s : (String.length (str_take n s) <= n)%nat.
Proof. revert s. induction n as [|n IH]; intros [|c s]; cbn; try lia. specialize (IH s). lia. Qed.

(** The file name the export dialog suggests holds letters, digits, dots,
    dashes and underscores only, whatever the server field of the configuration
    holds, and its variable part is at most 64 bytes. *)
Theorem suggested_name_safe date cfg :
  Forall (λ c, safe_char c = true) (String.list_ascii_of_string date) →
  ∃ host, SuggestFileName date cfg = "Hy2Link_" +:+ host +:+ "_" +:+ date +:+ ".hy2" ∧
    host ≠ EmptyString ∧ (String.length host <= 64)%nat ∧
    Forall (λ c, safe_char c = true) (String.list_ascii_of_string (SuggestFileName date cfg)).
Proof.
  intros Hd. unfold SuggestFileName. set (h := sanitizeForFilename (IP cfg)).
  set (host := if bool_decide (h = EmptyString) then "hy2link"%string else h).
  assert (Forall (λ c, safe_char c = true) (String.list_ascii_of_string host)) as Hh.
  { subst host. case_bool_decide; [by repeat constructor|]. subst h. unfold sanitizeForFilename.
    rewrite String.list_ascii_of_string_of_list_ascii. apply sanitize_safe. }
  exists (str_take 64 host). split; [done|]. split.
  { subst host. case_bool_decide; [done|]. by destruct h. }
  split; [apply str_take_length|]. rewrite !list_ascii_app, !Forall_app.
  split; [by repeat constructor|]. split; [by apply str_take_chars|]. split; [by repeat constructor|].
  split; [done|by repeat constructor].
Qed.

Lemma suggested_name_safe_witness :
  ∃ host, SuggestFileName "20260101" (imported (mkHY2 1 "" "" "..\..\x" 1 "" "" false "" false false))
    = "Hy2Link_" +:+ host +:+ "_" +:+ "20260101" +:+ ".hy2" ∧ (String.length host <= 64)%nat.
Proof.
  destruct (suggested_name_safe "20260101" (imported (mkHY2 1 "" "" "..\..\x" 1 "" "" false "" false false)))
    as (host & H1 & _ & H2 & _).
  - by repeat constructor.
  - by exists host.
Defined.

(** ** Files handed over by the desktop ([vpn-tool/app.go]) *)

Definition backslash : string := String "\" EmptyString.

(** [isSafeHyFilePath]; [abs_ok]: whether [filepath.Abs] finds an absolute path. *)
Definition isSafeHyFilePath (abs_ok : bool) (p : string) : bool :=
  if bool_decide (p = EmptyString) then false
  else if negb (HasSuffix (ToLower p) HyFileExt) then false
  else if HasPrefix p (backslash +:+ backslash) || HasPrefix p "//" then false
  else if HasPrefix p (backslash +:+ backslash +:+ "." +:+ backslash) || HasPrefix p (backslash +:+ backslash +:+ "?" +:+ backslash) then false
  else abs_ok.

(** The import that waits for the user interface. *)
Record pending := mkPending { pendingImport : option ClientConfig; pendingImportErr : option hyfile_error }.

(** [processHyFiles]: the first path that is safe is read; nothing happens without one. *)
Fixpoint processHyFiles (abs_ok : string → bool) (read : string → option HY2File) (paths : list string) (s : pending) : pending :=
  match paths with
  | [] => s
  | p :: paths =>
      if negb (isSafeHyFilePath (abs_ok p) p) then processHyFiles abs_ok read paths s
      else match ParseHyFile (read p) with
           | inr e => mkPending None (Some e)
           | inl cfg => mkPending (Some cfg) None
           end
  end.

(** [ConsumePendingImport]. *)
Definition ConsumePendingImport (s : pending) : pending * option (ClientConfig + hyfile_error) :=
  match pendingImportErr s with
  | Some e => (mkPending (pendingImport s) None, Some (inr e))
  | None =>
      match pendingImport s with
      | None => (s, None)
      | Some cfg => (mkPending None None, Some (inl cfg))
      end
  end.

(** What is imported came from the first safe path, whatever else the list holds. *)
Lemma import_first_safe abs_ok read paths s :
  match ConsumePendingImport (processHyFiles abs_ok read paths s) with
  | (_, Some (inl cfg)) =>
      pendingImport s = Some cfg ∧ Forall (λ p, isSafeHyFilePath (abs_ok p) p = false) paths ∨
      ∃ l1 p l2, paths = (l1 ++ p :: l2)%list ∧ Forall (λ q, isSafeHyFilePath (abs_ok q) q = false) l1 ∧ isSafeHyFilePath (abs_ok p) p = true ∧
        ParseHyFile (read p) = inl cfg
  | _ => True
  end.
Proof.
  induction paths as [|p paths IH]; cbn [processHyFiles].
  - unfold ConsumePendingImport. destruct (pendingImportErr s), (pendingImport s); try done. left. by split; [|constructor].
  - destruct (isSafeHyFilePath (abs_ok p) p) eqn:Es; cbn [negb].
    + destruct (ParseHyFile (read p)) as [cfg|e] eqn:Ep; cbn; [|done]. right. exists [], p, paths. by repeat split.
    + destruct (ConsumePendingImport _) as [s' [[cfg|e]|]]; try done. destruct IH as [[H1 H2]|(l1 & q & l2 & -> & H)].
      * left. split; [done|]. by constructor.
      * right. exists (p :: l1), q, l2. destruct H as (? & ? & ?). split_and!; try done. by constructor.
Qed.

(** Windows takes either slash for a separator, so that a path beginning with two
    separators of any kind names a host. The check only knows the unmixed kinds. *)
Definition separator (c : ascii) : bool := Ascii.eqb c "/" || Ascii.eqb c "\".
Definition names_host (p : string) : bool :=
  match p with String a (String b _) => separator a && separator b | _ => false end.

Lemma mixed_slashes_pass :
  let p := (backslash +:+ "/attacker" +:+ backslash +:+ "share" +:+ backslash +:+ "x.hy2")%string in
  names_host p = true ∧ isSafeHyFilePath true p = true ∧ isSafeHyFilePath true (backslash +:+ backslash +:+ "attacker/x.hy2") = false.
Proof. by vm_compute. Qed.
