(* ===== verification/PinStore.v ===== *)
(** * Trusting the server's certificate: fingerprint pinning
    ([vpn-tool/backend/quic/client.go], 241-315 and 1060-1190)

    The client pins the fingerprint of the first certificate of a server in a
    file named by a hash of the server's address, and accepts only that
    certificate afterwards. The hashes are parameters of the model. *)

From Stdlib Require Import ZArith Lia Bool Ascii String.
From stdpp Require Import base list gmap strings.
From S2P Require Import Prelude.
From S2P Require Import GoNet.
From S2P Require Import GoText.
From S2P Require Import GoStrings.

Open Scope Z_scope.

(** ** Hexadecimal ([hex.EncodeToString]) *)

Definition hex_char (d : Z) : ascii := if d <? 10 then digit d else ascii_of_nat (Z.to_nat (87 + d)).

Fixpoint hex_encode (bytes : list Z) : string :=
  match bytes with
  | [] => EmptyString
  | b :: bytes => String (hex_char (b / 16)) (String (hex_char (b mod 16)) (hex_encode bytes))
  end.

Example hex_abc : hex_encode [0xab; 0x07] = "ab07"%string. Proof. reflexivity. Qed.

(** ** The files *)

(** The contents of the pin files, by name. *)
Abbreviation pin_files := (gmap string string) (only parsing).

Section Pins.
(** SHA-256: of a server's address, as the name of its file; of the bytes of a
    certificate. *)
Context (name_of : string → string) (sha256 : string → list Z).

Definition fingerprintPath (serverIP : string) : string := "fp_" +:+ name_of serverIP +:+ ".txt".

(** [readable]: whether the file can be read. *)
Definition loadPinnedFingerprint (readable : bool) (serverIP : string) (files : pin_files) : string :=
  match files !! fingerprintPath serverIP with
  | Some data =>
      if readable then
        let fp := ToLower (TrimSpace data) in
        if negb (String.length fp =? 64)%nat then EmptyString
        else if negb (hex_decodes fp) then EmptyString else fp
      else EmptyString
  | None => EmptyString
  end.

(** [ok]: whether the file could be written and renamed. *)
Definition savePinnedFingerprint (ok : bool) (serverIP fp : string) (files : pin_files) : pin_files * bool :=
  if ok then (<[fingerprintPath serverIP := fp]> files, true) else (files, false).

Definition clearPinnedFingerprint (ok : bool) (serverIP : string) (files : pin_files) : pin_files * bool :=
  if ok then (delete (fingerprintPath serverIP) files, true) else (files, false).

Definition ClearPinnedFingerprintByIP (ok : bool) (serverIP : string) (files : pin_files) : pin_files * bool :=
  if bool_decide (serverIP = EmptyString) then (files, false) else clearPinnedFingerprint ok serverIP files.

Definition HasPinnedFingerprint (readable : bool) (serverIP : string) (files : pin_files) : bool :=
  if bool_decide (serverIP = EmptyString) then false
  else negb (bool_decide (loadPinnedFingerprint readable serverIP files = EmptyString)).

(** ** The check of a certificate *)

(** A certificate as it arrives: its bytes, and its validity when it parses. *)
Record Certificate := mkCert { raw : string; validity : option (time * time) }.

Inductive pin_error := NoCertificate | BadCertificate | Expired | PinNotSaved | PinMismatch.

Definition verifyPin (now : time) (skipCertVerify readable saved : bool) (serverIP : string)
    (rawCerts : list Certificate) (files : pin_files) : pin_files * option pin_error :=
  if skipCertVerify then (files, None)
  else match rawCerts with
       | [] => (files, Some NoCertificate)
       | cert :: _ =>
           match validity cert with
           | None => (files, Some BadCertificate)
           | Some (notBefore, notAfter) =>
               if time_before now notBefore || time_before notAfter now then (files, Some Expired)
               else
                 let got := hex_encode (sha256 (raw cert)) in
                 let known := loadPinnedFingerprint readable serverIP files in
                 if bool_decide (known = EmptyString) then
                   let '(files, ok) := savePinnedFingerprint saved serverIP got files in
                   (files, if ok then None else Some PinNotSaved)
                 else if negb (EqualFold known got) then (files, Some PinMismatch)
                 else (files, None)
           end
       end.

Definition verifyPinOrCA (now : time) (skipCertVerify readable saved : bool) (serverIP : string)
    (rawCerts : list Certificate) (files : pin_files) : pin_files * option pin_error :=
  if skipCertVerify then (files, None) else verifyPin now skipCertVerify readable saved serverIP rawCerts files.

(** Which check the TLS configuration of a data connection asks for. *)
Inductive tls_check := CheckNothing | CheckChain (hostname : string) | CheckPin.

Definition buildTLSConfig (skipCertVerify : bool) (certMode hostname : string) : tls_check :=
  if skipCertVerify then CheckNothing
  else if bool_decide (certMode = "acme"%string) then CheckChain hostname
  else CheckPin.

(** ** What a pin file holds *)

(** The digests are 32 bytes. *)
Context (sha256_ok : ∀ s, length (sha256 s) = 32%nat ∧ Forall (λ b, 0 <= b < 256) (sha256 s)).













(** ** Runs of connections and of clearings *)

Inductive pin_event :=
  | Dial (now : time) (skip readable saved : bool) (serverIP : string) (certs : list Certificate)
  | ClearPin (ok : bool) (serverIP : string).

(** The verdicts on the connections to one server, each with its time, whether the user
    had certificates skipped, and the certificates presented. *)
Fixpoint verdicts (server : string) (run : list pin_event) (files : pin_files) : list (time * bool * list Certificate * bool) :=
  match run with
  | [] => []
  | Dial now skip readable saved s certs :: run =>
      let '(files', err) := verifyPinOrCA now skip readable saved s certs files in
      let later := verdicts server run files' in
      if bool_decide (fingerprintPath s = fingerprintPath server)
      then (now, skip, certs, bool_decide (err = None)) :: later else later
  | ClearPin ok s :: run => verdicts server run (ClearPinnedFingerprintByIP ok s files).1
  end.






(** A pin whose file cannot be read for a moment is no pin: the connection is
    taken for the first one, and the certificate that comes, whoever's it is, is
    accepted and pinned in its place. *)
Theorem unreadable_pin_reopens server cert run files now nb na :
  validity cert = Some (nb, na) → nb <= now <= na →
  ∃ files', verdicts server (Dial now false false true server [cert] :: run) files
            = (now, false, [cert], true) :: verdicts server run files' ∧
    files' !! fingerprintPath server = Some (hex_encode (sha256 (raw cert))).
Proof.
  intros Hv Hn. exists (<[fingerprintPath server := hex_encode (sha256 (raw cert))]> files).
  cbn [verdicts]. unfold verifyPinOrCA, verifyPin, time_before, savePinnedFingerprint. rewrite Hv.
  rewrite (proj2 (Z.ltb_ge _ _)), (proj2 (Z.ltb_ge _ _)) by lia. cbn [orb].
  assert (loadPinnedFingerprint false server files = EmptyString) as ->.
  { unfold loadPinnedFingerprint. by destruct (files !! _). }
  rewrite !bool_decide_true by done. split; [done|by rewrite lookup_insert_eq].
Qed.
End Pins.



