(* ===== verification/Varint.v ===== *)
(** * Variable-length integers of QUIC ([quic-go/quicvarint/varint.go],
    [hy-core/internal/protocol/proxy.go]) *)

From Stdlib Require Import ZArith Lia Bool.
From stdpp Require Import base list.
From S2P Require Import Prelude.
From S2P Require Import GoNet.

Open Scope Z_scope.
Open Scope list_scope.

(** ** Encoding *)

Definition maxVarInt1 : Z := 63.
Definition maxVarInt2 : Z := 16383.
Definition maxVarInt4 : Z := 1073741823.
Definition maxVarInt8 : Z := 4611686018427387903.

(** [None]: it panics. *)
Definition Len (i : Z) : option nat :=
  if i <=? maxVarInt1 then Some 1%nat
  else if i <=? maxVarInt2 then Some 2%nat
  else if i <=? maxVarInt4 then Some 4%nat
  else if i <=? maxVarInt8 then Some 8%nat
  else None.

Definition uint8 (i : Z) : Z := wrap_u 8 i.

(** [Append(nil, i)], also [varintPut]. *)
Definition Append (i : Z) : option (list Z) :=
  if i <=? maxVarInt1 then Some [uint8 i]
  else if i <=? maxVarInt2 then Some [Z.lor (uint8 (Z.shiftr i 8)) 0x40; uint8 i]
  else if i <=? maxVarInt4 then
    Some [Z.lor (uint8 (Z.shiftr i 24)) 0x80; uint8 (Z.shiftr i 16); uint8 (Z.shiftr i 8); uint8 i]
  else if i <=? maxVarInt8 then
    Some [Z.lor (uint8 (Z.shiftr i 56)) 0xc0; uint8 (Z.shiftr i 48); uint8 (Z.shiftr i 40); uint8 (Z.shiftr i 32);
          uint8 (Z.shiftr i 24); uint8 (Z.shiftr i 16); uint8 (Z.shiftr i 8); uint8 i]
  else None.

Definition AppendWithLen (i : Z) (length : nat) : option (list Z) :=
  if negb (bool_decide (length ∈ [1; 2; 4; 8]%nat)) then None
  else match Len i with
       | None => None
       | Some l =>
           if (l =? length)%nat then Append i
           else if (length <? l)%nat then None
           else
             let first := if (length =? 2)%nat then [0x40]
                          else if (length =? 4)%nat then [0x80]
                          else if (length =? 8)%nat then [0xc0] else [] in
             Some (first ++ replicate (length - l - 1) 0
                   ++ ((λ j, uint8 (Z.shiftr i (8 * Z.of_nat (l - 1 - j)))) <$> seq 0 l))
       end.

(** ** Decoding *)

Inductive varint_error := VarintEOF | VarintUnexpectedEOF.

Definition Parse (b : list Z) : (Z * nat) + varint_error :=
  match b with
  | [] => inr VarintEOF
  | first :: _ =>
      let value := Z.land first 0x3f in
      let kind := Z.shiftr first 6 in
      if kind =? 0 then inl (value, 1%nat)
      else if kind =? 1 then
        match b with
        | _ :: b1 :: _ => inl (Z.lor b1 (Z.shiftl value 8), 2%nat)
        | _ => inr VarintUnexpectedEOF
        end
      else if kind =? 2 then
        match b with
        | _ :: b1 :: b2 :: b3 :: _ =>
            inl (Z.lor (Z.lor (Z.lor b3 (Z.shiftl b2 8)) (Z.shiftl b1 16)) (Z.shiftl value 24), 4%nat)
        | _ => inr VarintUnexpectedEOF
        end
      else
        match b with
        | b0 :: b1 :: b2 :: b3 :: b4 :: b5 :: b6 :: b7 :: _ =>
            inl (Z.land (Z.lor (Z.lor (Z.lor (Z.lor (Z.lor (Z.lor (Z.lor b7 (Z.shiftl b6 8)) (Z.shiftl b5 16))
                   (Z.shiftl b4 24)) (Z.shiftl b3 32)) (Z.shiftl b2 40)) (Z.shiftl b1 48)) (Z.shiftl b0 56))
                   0x3fffffffffffffff, 8%nat)
        | _ => inr VarintUnexpectedEOF
        end
  end.

(** [Read] from a reader that holds [b] and then ends: the value and what is left.
    It takes the bytes one by one. *)
Definition Read (b : list Z) : (Z * list Z) + varint_error :=
  match b with
  | [] => inr VarintEOF
  | first :: b =>
      let l := Z.shiftl 1 (Z.shiftr (Z.land first 0xc0) 6) in
      let b1 := Z.land first (0xff - 0xc0) in
      if l =? 1 then inl (b1, b)
      else match b with
           | [] => inr VarintEOF
           | b2 :: b =>
               if l =? 2 then inl (b2 + Z.shiftl b1 8, b)
               else match b with
                    | b3 :: b4 :: b =>
                        if l =? 4 then inl (b4 + Z.shiftl b3 8 + Z.shiftl b2 16 + Z.shiftl b1 24, b)
                        else match b with
                             | b5 :: b6 :: b7 :: b8 :: b =>
                                 inl (b8 + Z.shiftl b7 8 + Z.shiftl b6 16 + Z.shiftl b5 24 + Z.shiftl b4 32
                                      + Z.shiftl b3 40 + Z.shiftl b2 48 + Z.shiftl b1 56, b)
                             | _ => inr VarintEOF
                             end
                    | _ => inr VarintEOF
                    end
           end
  end.

Example varint_rfc : Append 151288809941952652 = Some [0xc2; 0x19; 0x7c; 0x5e; 0xff; 0x14; 0xe8; 0x8c].
Proof. vm_compute. reflexivity. Qed.
Example varint_rfc_read : Parse [0x7b; 0xbd] = inl (15293, 2%nat). Proof. vm_compute. reflexivity. Qed.
Example varint_padded : AppendWithLen 37 2 = Some [0x40; 0x25]. Proof. vm_compute. reflexivity. Qed.

(** ** Bits *)

Lemma lor_shiftl a b k : 0 <= k → 0 <= a < 2 ^ k → Z.lor a (Z.shiftl b k) = a + b * 2 ^ k.
Proof.
  intros Hk Ha. assert (Z.land a (Z.shiftl b k) = 0) as H0.
  { apply Z.bits_inj'. intros n Hn. rewrite Z.land_spec, Z.bits_0. destruct (Z.lt_ge_cases n k).
    - by rewrite Z.shiftl_spec_low, andb_false_r.
    - rewrite <- (Z.mod_small a (2 ^ k)) by done. by rewrite Z.mod_pow2_bits_high. }
  rewrite <- Z.lxor_lor, <- Z.add_nocarry_lxor by done. by rewrite Z.shiftl_mul_pow2.
Qed.

Lemma byte_cases (P : Z → Prop) : Forall P (seqZ 0 256) → ∀ b, byte_ok b → P b.
Proof. intros H b Hb. rewrite Forall_forall in H. apply H, elem_of_seqZ. unfold byte_ok in Hb. lia. Qed.

Lemma low_bits b : byte_ok b → Z.land b 0x3f = b mod 64.
Proof. intros _. change 0x3f with (Z.ones 6). by rewrite Z.land_ones. Qed.

Lemma kind_bits b : byte_ok b → Z.shiftr b 6 = b / 64.
Proof. intros _. by rewrite Z.shiftr_div_pow2. Qed.

Lemma mask_bits b : byte_ok b → Z.shiftr (Z.land b 0xc0) 6 = b / 64.
Proof. revert b. apply byte_cases. vm_compute. repeat constructor. Qed.

Lemma header_bits b k : 0 <= b < 64 → k ∈ [0; 1; 2; 3] → Z.lor b (k * 64) = b + k * 64.
Proof. intros Hb _. rewrite <- (Z.shiftl_mul_pow2 k 6) at 1 by lia. by rewrite lor_shiftl. Qed.

Lemma uint8_shiftr i k : uint8 (Z.shiftr i k) = Z.shiftr i k mod 256.
Proof. done. Qed.

Lemma uint8_ok i : byte_ok (uint8 i).
Proof. apply (wrap_u_range 8). lia. Qed.

(** ** The value of a big-endian number *)

Definition be_num (l : list Z) : Z := foldl (λ a b, a * 256 + b) 0 l.

(** How many bytes a first byte announces. *)
Definition announced (first : Z) : nat := Z.to_nat (2 ^ (first / 64)).

Definition value_of (n : nat) (b : list Z) : Z := be_num (take n b) mod 2 ^ (8 * Z.of_nat n - 2).

Lemma announced_cases first :
  byte_ok first →
  first / 64 = 0 ∧ announced first = 1%nat ∨ first / 64 = 1 ∧ announced first = 2%nat ∨
  first / 64 = 2 ∧ announced first = 4%nat ∨ first / 64 = 3 ∧ announced first = 8%nat.
Proof.
  intros Hb. unfold byte_ok in Hb. unfold announced.
  assert (0 <= first / 64 < 4) by (split; [apply Z.div_pos; lia|apply Z.div_lt_upper_bound; lia]).
  assert (first / 64 = 0 ∨ first / 64 = 1 ∨ first / 64 = 2 ∨ first / 64 = 3) as [->|[->|[->| ->]]] by lia; auto 10.
Qed.

Ltac low_or :=
  match goal with
  | |- context [Z.lor ?a (Z.shiftl ?b ?k)] =>
      lazymatch a with context [Z.lor] => fail | _ => rewrite (lor_shiftl a b k); [|done|unfold byte_ok in *; lia] end
  end.

Lemma value_2 f b1 b : value_of 2 (f :: b1 :: b) = (f * 256 + b1) mod 2 ^ 14.
Proof. done. Qed.

Lemma value_4 f b1 b2 b3 b :
  value_of 4 (f :: b1 :: b2 :: b3 :: b) = (((f * 256 + b1) * 256 + b2) * 256 + b3) mod 2 ^ 30.
Proof. done. Qed.

Lemma value_8 f b1 b2 b3 b4 b5 b6 b7 b :
  value_of 8 (f :: b1 :: b2 :: b3 :: b4 :: b5 :: b6 :: b7 :: b)
  = (((((((f * 256 + b1) * 256 + b2) * 256 + b3) * 256 + b4) * 256 + b5) * 256 + b6) * 256 + b7) mod 2 ^ 62.
Proof. done. Qed.

(** The header bits drop out of the value. *)
Lemma value_mod f r n k : f = 64 * k + f mod 64 → 0 <= n → 0 <= r < 2 ^ (8 * n) →
  (f * 2 ^ (8 * n) + r) mod 2 ^ (8 * n + 6) = f mod 64 * 2 ^ (8 * n) + r.
Proof.
  intros Hf Hn Hr. pose proof (Z.mod_pos_bound f 64 ltac:(lia)). rewrite Z.pow_add_r by lia.
  change (2 ^ 6) with 64. symmetry. apply Z.mod_unique with k; nia.
Qed.

Ltac bytes_hyps :=
  repeat match goal with H : Forall byte_ok (_ :: _) |- _ => apply Forall_cons in H as [? ?] end.

Lemma Parse_spec b :
  Forall byte_ok b →
  Parse b = match b with
            | [] => inr VarintEOF
            | first :: _ =>
                if (length b <? announced first)%nat then inr VarintUnexpectedEOF
                else inl (value_of (announced first) b, announced first)
            end.
Proof.
  intros Hb. destruct b as [|f b]; [done|]. pose proof Hb as [Hf Hr]%Forall_cons.
  unfold Parse. rewrite low_bits, kind_bits by done. pose proof (Z.mod_pos_bound f 64 ltac:(lia)).
  pose proof (Z.div_mod f 64 ltac:(lia)) as Hd.
  destruct (announced_cases f Hf) as [[E ->]|[[E ->]|[[E ->]|[E ->]]]]; rewrite E in *; cbn [Z.eqb length].
  - done.
  - destruct b as [|b1 b]; [done|]. bytes_hyps. low_or. rewrite value_2. cbn [Nat.ltb Nat.leb]. f_equal. f_equal.
    pose proof (value_mod f b1 1 _ Hd ltac:(lia) ltac:(unfold byte_ok in *; lia)) as Hv.
    change (8 * 1) with 8 in Hv. change (8 + 6) with 14 in Hv. change 256 with (2 ^ 8). rewrite Hv. lia.
  - destruct b as [|b1 [|b2 [|b3 b]]]; try done. bytes_hyps. repeat low_or. rewrite value_4. cbn [Nat.ltb Nat.leb].
    f_equal. f_equal.
    pose proof (value_mod f (b1 * 2 ^ 16 + b2 * 2 ^ 8 + b3) 3 _ Hd ltac:(lia) ltac:(unfold byte_ok in *; lia)) as Hv.
    replace (((f * 256 + b1) * 256 + b2) * 256 + b3) with (f * 2 ^ (8 * 3) + (b1 * 2 ^ 16 + b2 * 2 ^ 8 + b3)) by lia.
    change 30 with (8 * 3 + 6). rewrite Hv. lia.
  - destruct b as [|b1 [|b2 [|b3 [|b4 [|b5 [|b6 [|b7 b]]]]]]]; try done. bytes_hyps. repeat low_or.
    change 0x3fffffffffffffff with (Z.ones 62). rewrite Z.land_ones by lia. rewrite value_8. cbn [Nat.ltb Nat.leb].
    f_equal. f_equal. f_equal. lia.
Qed.

Lemma Read_spec b :
  Forall byte_ok b →
  Read b = match b with
           | [] => inr VarintEOF
           | first :: _ =>
               if (length b <? announced first)%nat then inr VarintEOF
               else inl (value_of (announced first) b, drop (announced first) b)
           end.
Proof.
  intros Hb. destruct b as [|f b]; [done|]. pose proof Hb as [Hf Hr]%Forall_cons.
  unfold Read. change (0xff - 0xc0) with 0x3f. rewrite low_bits, mask_bits by done.
  pose proof (Z.mod_pos_bound f 64 ltac:(lia)). pose proof (Z.div_mod f 64 ltac:(lia)) as Hd.
  destruct (announced_cases f Hf) as [[E ->]|[[E ->]|[[E ->]|[E ->]]]]; rewrite E in *; cbn [length].
  - done.
  - change (Z.shiftl 1 1 =? 1) with false. change (Z.shiftl 1 1 =? 2) with true.
    destruct b as [|b1 b]; [done|]. bytes_hyps. rewrite value_2. cbn [Nat.ltb Nat.leb drop].
    rewrite Z.shiftl_mul_pow2 by lia. f_equal. f_equal.
    pose proof (value_mod f b1 1 _ Hd ltac:(lia) ltac:(unfold byte_ok in *; lia)) as Hv.
    change (8 * 1) with 8 in Hv. change (8 + 6) with 14 in Hv. change 256 with (2 ^ 8). rewrite Hv. lia.
  - change (Z.shiftl 1 2 =? 1) with false. change (Z.shiftl 1 2 =? 2) with false. change (Z.shiftl 1 2 =? 4) with true.
    destruct b as [|b1 [|b2 [|b3 b]]]; try done. bytes_hyps. rewrite value_4. cbn [Nat.ltb Nat.leb drop].
    rewrite !Z.shiftl_mul_pow2 by lia. f_equal. f_equal.
    pose proof (value_mod f (b1 * 2 ^ 16 + b2 * 2 ^ 8 + b3) 3 _ Hd ltac:(lia) ltac:(unfold byte_ok in *; lia)) as Hv.
    replace (((f * 256 + b1) * 256 + b2) * 256 + b3) with (f * 2 ^ (8 * 3) + (b1 * 2 ^ 16 + b2 * 2 ^ 8 + b3)) by lia.
    change 30 with (8 * 3 + 6). rewrite Hv. lia.
  - change (Z.shiftl 1 3 =? 1) with false. change (Z.shiftl 1 3 =? 2) with false. change (Z.shiftl 1 3 =? 4) with false.
    destruct b as [|b1 [|b2 [|b3 [|b4 [|b5 [|b6 [|b7 b]]]]]]]; try done. bytes_hyps. rewrite value_8.
    cbn [Nat.ltb Nat.leb drop]. rewrite !Z.shiftl_mul_pow2 by lia. f_equal. f_equal.
    set (r := b1 * 2 ^ 48 + b2 * 2 ^ 40 + b3 * 2 ^ 32 + b4 * 2 ^ 24 + b5 * 2 ^ 16 + b6 * 2 ^ 8 + b7).
    pose proof (value_mod f r 7 _ Hd ltac:(lia) ltac:(subst r; unfold byte_ok in *; lia)) as Hv.
    replace (((((((f * 256 + b1) * 256 + b2) * 256 + b3) * 256 + b4) * 256 + b5) * 256 + b6) * 256 + b7)
      with (f * 2 ^ (8 * 7) + r) by (subst r; lia).
    change 62 with (8 * 7 + 6). rewrite Hv. subst r. lia.
Qed.

(** ** What is written *)

(** An encoding in [n] bytes: the length is announced in the first byte, the rest
    is the number. *)
Record encodes (bs : list Z) (i : Z) (n : nat) : Prop := mk_encodes {
  enc_length : length bs = n;
  enc_bytes : Forall byte_ok bs;
  enc_first : match bs with first :: _ => announced first = n | [] => False end;
  enc_value : value_of n bs = i;
}.

Lemma shiftr_step i k : 0 <= k → Z.shiftr i (k + 8) = Z.shiftr i k / 256.
Proof. intros Hk. by rewrite <- Z.shiftr_shiftr, (Z.shiftr_div_pow2 _ 8) by lia. Qed.

(** The bytes of a number, one by one. *)
Ltac peel i k :=
  let H := fresh in
  pose proof (Z.div_mod (Z.shiftr i k) 256 ltac:(lia)) as H;
  pose proof (Z.mod_pos_bound (Z.shiftr i k) 256 ltac:(lia));
  rewrite <- (shiftr_step i k) in H by lia.

Lemma value_first f r n k :
  0 <= n → 0 <= f < 64 → 0 <= r < 2 ^ (8 * n) →
  ((f + k * 64) * 2 ^ (8 * n) + r) mod 2 ^ (8 * n + 6) = f * 2 ^ (8 * n) + r.
Proof.
  intros Hn Hf Hr. rewrite Z.pow_add_r by lia. change (2 ^ 6) with 64. symmetry. apply Z.mod_unique with k; nia.
Qed.

Lemma announced_first f k : 0 <= f < 64 → k ∈ [0; 1; 2; 3] → announced (f + k * 64) = Z.to_nat (2 ^ k).
Proof. intros Hf _. unfold announced. rewrite Z.div_add, (Z.div_small f) by lia. done. Qed.

Lemma byte_first f k : 0 <= f < 64 → k ∈ [0; 1; 2; 3] → byte_ok (f + k * 64).
Proof.
  intros Hf Hk. unfold byte_ok. repeat (apply elem_of_cons in Hk as [->|Hk]; [lia|]). by apply elem_of_nil in Hk.
Qed.

Lemma Append_2 i :
  0 <= i <= maxVarInt2 → encodes [Z.lor (uint8 (Z.shiftr i 8)) 0x40; uint8 i] i 2.
Proof.
  intros Hi. unfold maxVarInt2 in Hi. unfold uint8, wrap_u. change (2 ^ 8) with 256.
  peel i 0. change (0 + 8) with 8 in *. rewrite Z.shiftr_0_r in *.
  rewrite (Z.mod_small (Z.shiftr i 8)) by lia. change 0x40 with (1 * 64). rewrite header_bits by (lia || set_solver).
  pose proof (uint8_ok i). split.
  - done.
  - apply Forall_cons; split; [apply byte_first; [lia|set_solver]|]. apply Forall_cons; split; [done|constructor].
  - rewrite announced_first by (lia || set_solver). done.
  - rewrite value_2. change 256 with (2 ^ (8 * 1)) at 1. change 14 with (8 * 1 + 6).
    rewrite value_first by lia. lia.
Qed.

Lemma Append_4 i :
  0 <= i <= maxVarInt4 →
  encodes [Z.lor (uint8 (Z.shiftr i 24)) 0x80; uint8 (Z.shiftr i 16); uint8 (Z.shiftr i 8); uint8 i] i 4.
Proof.
  intros Hi. unfold maxVarInt4 in Hi. pose proof (uint8_ok i). pose proof (uint8_ok (Z.shiftr i 8)).
  pose proof (uint8_ok (Z.shiftr i 16)). unfold uint8, wrap_u in *. change (2 ^ 8) with 256 in *.
  peel i 0. peel i 8. peel i 16. change (0 + 8) with 8 in *. change (8 + 8) with 16 in *. change (16 + 8) with 24 in *.
  rewrite Z.shiftr_0_r in *.
  rewrite (Z.mod_small (Z.shiftr i 24)) by lia. change 0x80 with (2 * 64). rewrite header_bits by (lia || set_solver).
  split.
  - done.
  - apply Forall_cons; split; [apply byte_first; [lia|set_solver]|].
    repeat (apply Forall_cons; split; [done|]). constructor.
  - rewrite announced_first by (lia || set_solver). done.
  - rewrite value_4. set (r := Z.shiftr i 16 mod 256 * 2 ^ 16 + Z.shiftr i 8 mod 256 * 2 ^ 8 + i mod 256).
    replace ((((Z.shiftr i 24 + 2 * 64) * 256 + Z.shiftr i 16 mod 256) * 256 + Z.shiftr i 8 mod 256) * 256 + i mod 256)
      with ((Z.shiftr i 24 + 2 * 64) * 2 ^ (8 * 3) + r) by (subst r; lia).
    change 30 with (8 * 3 + 6). rewrite value_first by (subst r; lia). subst r. lia.
Qed.

Lemma Append_8 i :
  0 <= i <= maxVarInt8 →
  encodes [Z.lor (uint8 (Z.shiftr i 56)) 0xc0; uint8 (Z.shiftr i 48); uint8 (Z.shiftr i 40); uint8 (Z.shiftr i 32);
          uint8 (Z.shiftr i 24); uint8 (Z.shiftr i 16); uint8 (Z.shiftr i 8); uint8 i] i 8.
Proof.
  intros Hi. unfold maxVarInt8 in Hi.
  pose proof (uint8_ok i). pose proof (uint8_ok (Z.shiftr i 8)). pose proof (uint8_ok (Z.shiftr i 16)).
  pose proof (uint8_ok (Z.shiftr i 24)). pose proof (uint8_ok (Z.shiftr i 32)). pose proof (uint8_ok (Z.shiftr i 40)).
  pose proof (uint8_ok (Z.shiftr i 48)). unfold uint8, wrap_u in *. change (2 ^ 8) with 256 in *.
  peel i 0. peel i 8. peel i 16. peel i 24. peel i 32. peel i 40. peel i 48.
  change (0 + 8) with 8 in *. change (8 + 8) with 16 in *. change (16 + 8) with 24 in *. change (24 + 8) with 32 in *.
  change (32 + 8) with 40 in *. change (40 + 8) with 48 in *. change (48 + 8) with 56 in *.
  rewrite Z.shiftr_0_r in *.
  rewrite (Z.mod_small (Z.shiftr i 56)) by lia. change 0xc0 with (3 * 64). rewrite header_bits by (lia || set_solver).
  split.
  - done.
  - apply Forall_cons; split; [apply byte_first; [lia|set_solver]|].
    repeat (apply Forall_cons; split; [done|]). constructor.
  - rewrite announced_first by (lia || set_solver). done.
  - rewrite value_8.
    set (r := Z.shiftr i 48 mod 256 * 2 ^ 48 + Z.shiftr i 40 mod 256 * 2 ^ 40 + Z.shiftr i 32 mod 256 * 2 ^ 32
            + Z.shiftr i 24 mod 256 * 2 ^ 24 + Z.shiftr i 16 mod 256 * 2 ^ 16 + Z.shiftr i 8 mod 256 * 2 ^ 8 + i mod 256).
    replace (_ * 256 + i mod 256) with ((Z.shiftr i 56 + 3 * 64) * 2 ^ (8 * 7) + r) by (subst r; lia).
    change 62 with (8 * 7 + 6). rewrite value_first by (subst r; lia). subst r. lia.
Qed.

Lemma Append_encodes i :
  0 <= i <= maxVarInt8 → ∃ bs n, Append i = Some bs ∧ Len i = Some n ∧ encodes bs i n.
Proof.
  intros Hi. unfold Append, Len. destruct (Z.leb_spec i maxVarInt1).
  - exists [uint8 i], 1%nat. split; [done|]. split; [done|]. unfold maxVarInt1 in *.
    assert (uint8 i = i) as E by (apply wrap_u_small; lia). rewrite E. split.
    + done.
    + apply Forall_cons; split; [unfold byte_ok; lia|constructor].
    + unfold announced. by rewrite Z.div_small by lia.
    + unfold value_of. cbn. change (2 ^ 6) with 64. rewrite Z.mod_small; lia.
  - destruct (Z.leb_spec i maxVarInt2); [eexists _, 2%nat; split; [done|]; split; [done|]; apply Append_2; lia|].
    destruct (Z.leb_spec i maxVarInt4); [eexists _, 4%nat; split; [done|]; split; [done|]; apply Append_4; lia|].
    rewrite (proj2 (Z.leb_le i maxVarInt8)) by lia.
    eexists _, 8%nat; split; [done|]; split; [done|]; apply Append_8; lia.
Qed.

(** What is written is read back, whatever follows it. *)
Lemma encodes_parse bs i n rest : encodes bs i n → Forall byte_ok rest → Parse (bs ++ rest) = inl (i, n).
Proof.
  intros [Hl Hb Hf Hv] Hr. rewrite Parse_spec by by apply Forall_app. destruct bs as [|f bs]; [done|].
  cbn [app] in *. rewrite Hf. rewrite (proj2 (Nat.ltb_ge _ _)) by (cbn in *; rewrite length_app; lia).
  unfold value_of in *. change (f :: bs ++ rest) with ((f :: bs) ++ rest). rewrite take_app_le by lia. by rewrite Hv.
Qed.

Lemma encodes_read bs i n rest : encodes bs i n → Forall byte_ok rest → Read (bs ++ rest) = inl (i, rest).
Proof.
  intros [Hl Hb Hf Hv] Hr. rewrite Read_spec by by apply Forall_app. destruct bs as [|f bs]; [done|].
  cbn [app] in *. rewrite Hf. rewrite (proj2 (Nat.ltb_ge _ _)) by (cbn in *; rewrite length_app; lia).
  unfold value_of in *. change (f :: bs ++ rest) with ((f :: bs) ++ rest). rewrite take_app_le by lia. rewrite Hv.
  by rewrite <- Hl, drop_app_length.
Qed.

Lemma padded_bytes l i : Forall byte_ok ((λ j, uint8 (Z.shiftr i (8 * Z.of_nat (l - 1 - j)))) <$> seq 0 l).
Proof. apply Forall_fmap, Forall_forall. intros j _. apply uint8_ok. Qed.

(** The shorter number inside a longer encoding. *)
Lemma padded_encodes l n i k :
  (l, n, k) ∈ [(1, 2, 1); (1, 4, 2); (1, 8, 3); (2, 4, 2); (2, 8, 3); (4, 8, 3)]%nat →
  0 <= i < 256 ^ Z.of_nat l →
  encodes ([Z.of_nat k * 64] ++ replicate (n - l - 1) 0
           ++ ((λ j, uint8 (Z.shiftr i (8 * Z.of_nat (l - 1 - j)))) <$> seq 0 l)) i n.
Proof.
  intros Hin Hi.
  assert (∀ m r, 0 <= m → 0 <= r < 2 ^ (8 * m) → ((0 + Z.of_nat k * 64) * 2 ^ (8 * m) + r) mod 2 ^ (8 * m + 6) = r) as Hv.
  { intros m r Hm Hr. rewrite value_first by lia. lia. }
  assert (Forall byte_ok ([Z.of_nat k * 64] ++ replicate (n - l - 1) 0
           ++ ((λ j, uint8 (Z.shiftr i (8 * Z.of_nat (l - 1 - j)))) <$> seq 0 l))) as Hb.
  { rewrite !Forall_app. split; [|split; [|apply padded_bytes]].
    - apply Forall_singleton. unfold byte_ok.
      repeat (apply elem_of_cons in Hin as [[= -> -> ->]|Hin]; [lia|]). by apply elem_of_nil in Hin.
    - apply Forall_replicate. unfold byte_ok. lia. }
  repeat (apply elem_of_cons in Hin as [[= -> -> ->]|Hin]); [..|by apply elem_of_nil in Hin].
  all: (split; [done|exact Hb|done|]).
  all: cbn [Nat.sub replicate app seq fmap list_fmap Z.of_nat Z.mul Pos.of_succ_nat Pos.succ Pos.mul] in *.
  all: unfold uint8, wrap_u; change (2 ^ 8) with 256.
  all: rewrite ?value_2, ?value_4, ?value_8.
  all: change (8 * Z.of_nat 1) with 8 in *; change (8 * Z.of_nat 2) with 16 in *; change (8 * Z.of_nat 3) with 24 in *.
  all: peel i 0; peel i 8; peel i 16; change (0 + 8) with 8 in *; change (8 + 8) with 16 in *; change (16 + 8) with 24 in *;
    rewrite ?Z.shiftr_0_r in *.
  - specialize (Hv 1 i). rewrite (Z.mod_small i 256) by lia. etransitivity; [|apply Hv; lia]. f_equal; lia.
  - specialize (Hv 3 i). rewrite (Z.mod_small i 256) by lia. etransitivity; [|apply Hv; lia]. f_equal; lia.
  - specialize (Hv 7 i). rewrite (Z.mod_small i 256) by lia. etransitivity; [|apply Hv; lia]. f_equal; lia.
  - specialize (Hv 3 i). rewrite (Z.mod_small (Z.shiftr i 8) 256) by lia. etransitivity; [|apply Hv; lia]. f_equal; lia.
  - specialize (Hv 7 i). rewrite (Z.mod_small (Z.shiftr i 8) 256) by lia. etransitivity; [|apply Hv; lia]. f_equal; lia.
  - specialize (Hv 7 i). rewrite (Z.mod_small (Z.shiftr i 24) 256) by lia. etransitivity; [|apply Hv; lia]. f_equal; lia.
Qed.

Lemma Len_cases i :
  0 <= i <= maxVarInt8 → ∃ l, Len i = Some l ∧ l ∈ [1; 2; 4; 8]%nat ∧ i < 256 ^ Z.of_nat l.
Proof.
  intros Hi. unfold Len, maxVarInt1, maxVarInt2, maxVarInt4, maxVarInt8 in *.
  destruct (Z.leb_spec i 63); [exists 1%nat; split; [done|]; split; [set_solver|cbn; lia]|].
  destruct (Z.leb_spec i 16383); [exists 2%nat; split; [done|]; split; [set_solver|cbn; lia]|].
  destruct (Z.leb_spec i 1073741823); [exists 4%nat; split; [done|]; split; [set_solver|cbn; lia]|].
  rewrite (proj2 (Z.leb_le i _)) by lia. exists 8%nat; split; [done|]; split; [set_solver|cbn; lia].
Qed.

Lemma AppendWithLen_encodes i l n :
  0 <= i <= maxVarInt8 → Len i = Some l → n ∈ [1; 2; 4; 8]%nat → (l <= n)%nat →
  ∃ bs, AppendWithLen i n = Some bs ∧ encodes bs i n.
Proof.
  intros Hi Hl Hn Hle. destruct (Len_cases i Hi) as (l' & Hl' & Hin & Hlt).
  rewrite Hl in Hl'. injection Hl' as <-.
  unfold AppendWithLen. rewrite bool_decide_true by done. cbn [negb]. rewrite Hl.
  destruct (Nat.eqb_spec l n) as [<-|Hne].
  { destruct (Append_encodes i Hi) as (bs & m & ? & Hm & He). rewrite Hl in Hm. injection Hm as <-. by exists bs. }
  rewrite (proj2 (Nat.ltb_ge n l)) by done. eexists. split; [reflexivity|].
  assert (∃ k, (l, n, k) ∈ [(1, 2, 1); (1, 4, 2); (1, 8, 3); (2, 4, 2); (2, 8, 3); (4, 8, 3)]%nat ∧
    (if (n =? 2)%nat then [0x40] else if (n =? 4)%nat then [0x80] else if (n =? 8)%nat then [0xc0] else [])
    = [Z.of_nat k * 64]) as (k & Hk & ->).
  { repeat (apply elem_of_cons in Hn as [->|Hn]; [|]); [..|by apply elem_of_nil in Hn];
      repeat (apply elem_of_cons in Hin as [->|Hin]; [|]); try (by apply elem_of_nil in Hin); try lia;
      first [exists 1%nat; split; [set_solver|done] | exists 2%nat; split; [set_solver|done]
            | exists 3%nat; split; [set_solver|done]]. }
  apply padded_encodes; [done|lia].
Qed.

(** Every number a varint can hold is written and read back: [Append] in the
    least number of bytes, [AppendWithLen] in any of the four lengths that is not
    too short (it panics on the others); both readers recover it, whatever bytes
    follow, and leave exactly what follows. *)
Theorem varint_roundtrip i :
  0 <= i <= maxVarInt8 →
  ∃ l, Len i = Some l ∧
    ∀ n, n ∈ [1; 2; 4; 8]%nat →
      if (l <=? n)%nat then
        ∃ bs, AppendWithLen i n = Some bs ∧ length bs = n ∧ (n = l → Append i = Some bs) ∧
          ∀ rest, Forall byte_ok rest → Parse (bs ++ rest) = inl (i, n) ∧ Read (bs ++ rest) = inl (i, rest)
      else AppendWithLen i n = None.
Proof.
  intros Hi. destruct (Len_cases i Hi) as (l & Hl & Hin & _). exists l. split; [done|]. intros n Hn.
  destruct (Nat.leb_spec l n) as [Hle|Hlt].
  - destruct (AppendWithLen_encodes i l n Hi Hl Hn Hle) as (bs & Hbs & He). exists bs.
    split; [done|]. split; [by apply enc_length in He|]. split.
    + intros ->. unfold AppendWithLen in Hbs. rewrite bool_decide_true in Hbs by done. rewrite Hl in Hbs.
      cbn [negb] in Hbs. by rewrite Nat.eqb_refl in Hbs.
    + intros rest Hr. split; [by apply encodes_parse|by eapply encodes_read].
  - unfold AppendWithLen. rewrite bool_decide_true by done. cbn [negb]. rewrite Hl.
    destruct (Nat.eqb_spec l n); [lia|]. by rewrite (proj2 (Nat.ltb_lt n l)) by done.
Qed.

Lemma varint_roundtrip_witness :
  ∃ l, Len 494878333 = Some l ∧ ∃ bs, AppendWithLen 494878333 8 = Some bs ∧ length bs = 8%nat.
Proof.
  destruct (varint_roundtrip 494878333) as (l & Hl & H); [unfold maxVarInt8; lia|].
  exists l. split; [exact Hl|]. specialize (H 8%nat). vm_compute in Hl. injection Hl as <-.
  destruct H as (bs & ? & ? & _); [set_solver|]. by exists bs.
Defined.

(** The two readers are the same decoder: on any bytes the byte-wise [Read]
    returns a value exactly when [Parse] does, the same one, having taken as many
    bytes; both refuse exactly the inputs that end before the length their first
    byte announces. *)
Theorem readers_agree b :
  Forall byte_ok b →
  match Parse b with
  | inl (v, n) => Read b = inl (v, drop n b) ∧ (n <= length b)%nat ∧ 0 <= v <= maxVarInt8
  | inr _ => Read b = inr VarintEOF ∧
      match b with [] => True | first :: _ => (length b < announced first)%nat end
  end.
Proof.
  intros Hb. rewrite Parse_spec, Read_spec by done. destruct b as [|f b]; [done|].
  destruct (Nat.ltb_spec (length (f :: b)) (announced f)); [done|]. split; [done|]. split; [done|].
  apply Forall_cons in Hb as [Hf _]. unfold value_of, maxVarInt8.
  destruct (announced_cases f Hf) as [[_ ->]|[[_ ->]|[[_ ->]|[_ ->]]]];
    match goal with |- context [?x mod ?m] => pose proof (Z.mod_pos_bound x m ltac:(cbn; lia)) as Hm end; cbn in *; lia.
Qed.

Lemma readers_agree_witness :
  Read [0x7b; 0xbd; 7] = inl (15293, [7]) ∧ (2 <= 3)%nat ∧ 0 <= 15293 <= maxVarInt8.
Proof.
  apply (readers_agree [0x7b; 0xbd; 7]). repeat (apply Forall_cons; split; [unfold byte_ok; lia|]). constructor.
Defined.
