(* ===== verification/HyProto.v ===== *)
(** * The wire format of the Hysteria core
    ([hy-core/internal/protocol/proxy.go], [hy-core/internal/frag/frag.go])

    Requests and responses of TCP streams, UDP messages, and the fragmentation of
    UDP messages that do not fit a datagram. Texts are byte lists. *)

From Stdlib Require Import ZArith Lia Bool.
From stdpp Require Import base list gmap sets.
From S2P Require Import Prelude.
From S2P Require Import GoNet.
From S2P Require Import Varint.

Open Scope Z_scope.
Open Scope list_scope.

Definition FrameTypeTCPRequest : Z := 0x401.
Definition MaxAddressLength : Z := 2048.
Definition MaxMessageLength : Z := 2048.
Definition MaxPaddingLength : Z := 4096.

Definition zlen (l : list Z) : Z := Z.of_nat (length l).

Inductive proto_error := ShortRead | InvalidAddressLength | InvalidMessageLength | InvalidPaddingLength.

(** ** Reading a stream: the value and the bytes left, or the error *)

Definition reader (A : Type) : Type := list Z → (A * list Z) + proto_error.

#[export] Instance reader_ret : MRet reader := λ A a b, inl (a, b).
#[export] Instance reader_bind : MBind reader := λ A B f m b,
  match m b with inl (a, b') => f a b' | inr e => inr e end.

Definition fail {A} (e : proto_error) : reader A := λ _, inr e.

Definition read_varint : reader Z := λ b, match Read b with inl (v, b) => inl (v, b) | inr _ => inr ShortRead end.

(** [io.ReadFull] *)
Definition read_full (n : Z) : reader (list Z) := λ b,
  if zlen b <? n then inr ShortRead else inl (take (Z.to_nat n) b, drop (Z.to_nat n) b).

(** The padding at the end. *)
Definition read_padding : reader unit :=
  paddingLen ← read_varint;
  if MaxPaddingLength <? paddingLen then fail InvalidPaddingLength
  else if 0 <? paddingLen then (_ ← read_full paddingLen; mret ()) else mret ().

(** ** TCP requests and responses *)

(** The bytes of [WriteTCPRequest], with the padding it drew. *)
Definition WriteTCPRequest (addr padding : list Z) : option (list Z) :=
  match Append FrameTypeTCPRequest, Append (zlen addr), Append (zlen padding) with
  | Some t, Some a, Some p => Some (t ++ a ++ addr ++ p ++ padding)
  | _, _, _ => None
  end.

(** After the frame type. *)
Definition ReadTCPRequest : reader (list Z) :=
  addrLen ← read_varint;
  if (addrLen =? 0) || (MaxAddressLength <? addrLen) then fail InvalidAddressLength
  else addr ← read_full addrLen; _ ← read_padding; mret addr.

Definition WriteTCPResponse (ok : bool) (msg padding : list Z) : option (list Z) :=
  match Append (zlen msg), Append (zlen padding) with
  | Some m, Some p => Some ([if ok then 0 else 1] ++ m ++ msg ++ p ++ padding)
  | _, _ => None
  end.

Definition ReadTCPResponse : reader (bool * list Z) :=
  status ← read_full 1;
  msgLen ← read_varint;
  if MaxMessageLength <? msgLen then fail InvalidMessageLength
  else msg ← (if 0 <? msgLen then read_full msgLen else mret []);
       _ ← read_padding;
       mret (match status with s :: _ => s =? 0 | [] => false end, msg).

(** ** UDP messages *)

Record UDPMessage := mkUDP {
  SessionID : Z;
  PacketID : Z;
  FragID : Z;
  FragCount : Z;
  Addr : list Z;
  Data : list Z;
}.

Definition HeaderSize (m : UDPMessage) : option Z :=
  (λ n, 4 + 2 + 1 + 1 + Z.of_nat n + zlen (Addr m)) <$> Len (zlen (Addr m)).

Definition Size (m : UDPMessage) : option Z := (λ h, h + zlen (Data m)) <$> HeaderSize m.

(** [binary.BigEndian] *)
Definition put_be (n : nat) (v : Z) : list Z := (λ i, uint8 (Z.shiftr v (8 * Z.of_nat (n - 1 - i)))) <$> seq 0 n.

(** The bytes written into a buffer of [buflen] bytes; [None]: it is too small. *)
Definition Serialize (buflen : Z) (m : UDPMessage) : option (list Z) :=
  match Size m, Append (zlen (Addr m)) with
  | Some size, Some a =>
      if buflen <? size then None
      else Some (put_be 4 (SessionID m) ++ put_be 2 (PacketID m) ++ [FragID m; FragCount m] ++ a ++ Addr m ++ Data m)
  | _, _ => None
  end.

Definition read_be (n : nat) : reader Z := b ← read_full (Z.of_nat n); mret (be_num b).

Definition ParseUDPMessage (msg : list Z) : UDPMessage + proto_error :=
  match (sid ← read_be 4; pid ← read_be 2; fid ← read_be 1; cnt ← read_be 1; lAddr ← read_varint;
         mret (sid, pid, fid, cnt, lAddr)) msg with
  | inr e => inr e
  | inl (sid, pid, fid, cnt, lAddr, bs) =>
      if (lAddr =? 0) || (MaxMessageLength <? lAddr) then inr InvalidAddressLength
      else if zlen bs <=? lAddr then inr InvalidMessageLength
      else inl (mkUDP sid pid fid cnt (take (Z.to_nat lAddr) bs) (drop (Z.to_nat lAddr) bs))
  end.

(** ** Fragmentation *)

Definition with_frag (m : UDPMessage) (fid cnt : Z) (data : list Z) : UDPMessage :=
  mkUDP (SessionID m) (PacketID m) fid cnt (Addr m) data.

(** The loop of [FragUDPMessage]: [payload] is what is left of the data, [frags]
    the slice that is filled. [None]: the index is out of range, it panics. *)
Fixpoint frag_loop (fuel : nat) (m : UDPMessage) (maxPayload : nat) (cnt fid : Z) (payload : list Z)
    (frags : list (option UDPMessage)) : option (list (option UDPMessage)) :=
  match payload with
  | [] => Some frags
  | _ =>
      match fuel with
      | O => None
      | S fuel =>
          if Z.of_nat (length frags) <=? fid then None
          else frag_loop fuel m maxPayload cnt (uint8 (fid + 1)) (drop maxPayload payload)
                 (<[Z.to_nat fid := Some (with_frag m fid cnt (take maxPayload payload))]> frags)
      end
  end.

(** [None]: it panics. A slot that is not filled stays the empty message. *)
Definition FragUDPMessage (m : UDPMessage) (maxSize : Z) : option (list (option UDPMessage)) :=
  match Size m, HeaderSize m with
  | Some size, Some header =>
      if size <=? maxSize then Some [Some m]
      else
        let maxPayloadSize := maxSize - header in
        if maxPayloadSize <=? 0 then Some []
        else
          let fragCount := uint8 ((zlen (Data m) + maxPayloadSize - 1) / maxPayloadSize) in
          frag_loop (length (Data m)) m (Z.to_nat maxPayloadSize) fragCount 0 (Data m)
            (replicate (Z.to_nat fragCount) None)
  | _, _ => None
  end.

(** *** Reassembly *)

Record Defragger := mkDefragger {
  pktID : Z;
  d_frags : list (option UDPMessage);
  d_count : Z;
  d_size : nat;
}.

Definition NewDefragger : Defragger := mkDefragger 0 [] 0 0.

(** [copy(data[off:], frag.Data)] into a buffer of the size added up. *)
Definition assemble (size : nat) (frags : list (option UDPMessage)) : list Z :=
  let all := concat ((λ f, match f with Some f => Data f | None => [] end) <$> frags) in
  take size (all ++ replicate (size - length all) 0).

Definition Feed (m : UDPMessage) (d : Defragger) : Defragger * option UDPMessage :=
  if FragCount m <=? 1 then (d, Some m)
  else if FragCount m <=? FragID m then (d, None)
  else if negb (PacketID m =? pktID d) || negb (FragCount m =? uint8 (Z.of_nat (length (d_frags d)))) then
    (mkDefragger (PacketID m) (<[Z.to_nat (FragID m) := Some m]> (replicate (Z.to_nat (FragCount m)) None)) 1
       (length (Data m)), None)
  else match d_frags d !! Z.to_nat (FragID m) with
       | Some None =>
           let frags := <[Z.to_nat (FragID m) := Some m]> (d_frags d) in
           let count := uint8 (d_count d + 1) in
           let size := (d_size d + length (Data m))%nat in
           if count =? Z.of_nat (length frags) then
             let whole := with_frag m 0 1 (assemble size frags) in
             (* the slice holds the same message, which is overwritten *)
             (mkDefragger (pktID d) (<[Z.to_nat (FragID m) := Some whole]> frags) count size, Some whole)
           else (mkDefragger (pktID d) frags count size, None)
       | _ => (d, None)
       end.

(** ** Readers *)

Section Readers.

Definition reads {A} (m : reader A) (bs : list Z) (a : A) : Prop :=
  ∀ rest, Forall byte_ok rest → m (bs ++ rest) = inl (a, rest).

Lemma reads_bind {A B} (m : reader A) (f : A → reader B) bs1 bs2 a b :
  Forall byte_ok bs2 → reads m bs1 a → reads (f a) bs2 b → reads (m ≫= f) (bs1 ++ bs2) b.
Proof.
  intros Hb Hm Hf rest Hr. unfold mbind, reader_bind. rewrite <- app_assoc, Hm by by apply Forall_app.
  by apply Hf.
Qed.

Lemma reads_ret {A} (a : A) : reads (mret a) [] a.
Proof. by intros rest _. Qed.

Lemma reads_full l n : n = zlen l → reads (read_full n) l l.
Proof.
  intros -> rest _. unfold read_full, zlen. rewrite length_app. rewrite (proj2 (Z.ltb_ge _ _)) by lia.
  rewrite Nat2Z.id. by rewrite take_app_length, drop_app_length.
Qed.

Lemma reads_varint i : 0 <= i <= maxVarInt8 → ∃ bs, Append i = Some bs ∧ Forall byte_ok bs ∧ reads read_varint bs i.
Proof.
  intros Hi. destruct (Append_encodes i Hi) as (bs & n & Ha & _ & He). exists bs. split; [done|].
  split; [apply He|]. intros rest Hr. unfold read_varint. by rewrite (encodes_read bs i n rest He Hr).
Qed.

Lemma zlen_range l k : zlen l <= k → k <= maxVarInt8 → 0 <= zlen l <= maxVarInt8.
Proof. unfold zlen. lia. Qed.

Lemma reads_padding padding :
  zlen padding <= MaxPaddingLength →
  ∃ p, Append (zlen padding) = Some p ∧ Forall byte_ok p ∧ (Forall byte_ok padding → reads read_padding (p ++ padding) tt).
Proof.
  intros Hlen. destruct (reads_varint (zlen padding)) as (p & Hp & Hb & Hr).
  { apply (zlen_range _ _ Hlen). unfold MaxPaddingLength, maxVarInt8. lia. }
  exists p. split; [done|]. split; [done|]. intros Hpad. unfold read_padding. eapply reads_bind; [done|exact Hr|].
  rewrite (proj2 (Z.ltb_ge _ _)) by done. destruct (Z.ltb_spec 0 (zlen padding)) as [Hpos|Hz].
  - rewrite <- (app_nil_r padding) at 2. eapply reads_bind; [constructor|by apply reads_full|apply reads_ret].
  - assert (padding = []) as -> by (destruct padding; [done|unfold zlen in Hz; cbn in Hz; lia]). apply reads_ret.
Qed.
End Readers.

(** The headers of TCP streams survive the wire: a request for an address of 1
    to 2048 bytes is read back as its frame type and that address, a response as
    its status and message, whatever padding was drawn, and the reader stops
    exactly at the payload that follows. An address that is empty or longer is
    refused. *)
Theorem stream_headers_roundtrip addr padding ok msg rest :
  Forall byte_ok addr → Forall byte_ok padding → Forall byte_ok msg → Forall byte_ok rest →
  zlen addr <= maxVarInt8 → zlen msg <= MaxMessageLength → zlen padding <= MaxPaddingLength →
  (∃ bs, WriteTCPRequest addr padding = Some bs ∧
    (t ← read_varint; a ← ReadTCPRequest; mret (t, a)) (bs ++ rest)
    = if (1 <=? zlen addr) && (zlen addr <=? MaxAddressLength)
      then inl ((FrameTypeTCPRequest, addr), rest) else inr InvalidAddressLength) ∧
  (∃ bs, WriteTCPResponse ok msg padding = Some bs ∧ ReadTCPResponse (bs ++ rest) = inl ((ok, msg), rest)).
Proof.
  intros Ha Hp Hm Hr La Lm Lp.
  destruct (reads_varint FrameTypeTCPRequest) as (t & Ht & Htb & Rt); [by vm_compute|].
  destruct (reads_varint (zlen addr)) as (a & Haa & Hab & Ra); [unfold zlen in *; lia|].
  destruct (reads_padding padding Lp) as (p & Hpp & Hpb & Rp). specialize (Rp Hp).
  destruct (reads_varint (zlen msg)) as (l & Hl & Hlb & Rl).
  { apply (zlen_range _ _ Lm). unfold MaxMessageLength, maxVarInt8. lia. }
  split.
  - exists (t ++ a ++ addr ++ p ++ padding). split; [unfold WriteTCPRequest; by rewrite Ht, Haa, Hpp|].
    destruct (Z.leb_spec 1 (zlen addr)) as [H1|H1], (Z.leb_spec (zlen addr) MaxAddressLength) as [H2|H2]; cbn [andb].
    { revert rest Hr. change (reads (t ← read_varint; a ← ReadTCPRequest; mret (t, a)) (t ++ a ++ addr ++ p ++ padding)
        (FrameTypeTCPRequest, addr)).
      eapply reads_bind; [by rewrite !Forall_app|exact Rt|]. rewrite <- (app_nil_r (a ++ _)).
      eapply reads_bind; [constructor| |apply reads_ret]. unfold ReadTCPRequest.
      eapply reads_bind; [by rewrite !Forall_app|exact Ra|].
      rewrite (proj2 (Z.eqb_neq _ _)), (proj2 (Z.ltb_ge _ _)) by lia. cbn [orb].
      eapply reads_bind; [by rewrite !Forall_app|by apply reads_full|]. rewrite <- (app_nil_r (p ++ _)).
      eapply reads_bind; [constructor|exact Rp|apply reads_ret]. }
    all: unfold ReadTCPRequest, mbind, reader_bind; rewrite <- app_assoc, Rt by (rewrite !Forall_app; auto);
      rewrite <- app_assoc, Ra by (rewrite !Forall_app; auto).
    all: assert ((zlen addr =? 0) || (MaxAddressLength <? zlen addr) = true) as ->; [|done].
    all: apply orb_true_iff; rewrite Z.eqb_eq, Z.ltb_lt; unfold zlen in *; lia.
  - exists ([if ok then 0 else 1] ++ l ++ msg ++ p ++ padding).
    split; [unfold WriteTCPResponse; by rewrite Hl, Hpp|]. revert rest Hr.
    change (reads ReadTCPResponse ([if ok then 0 else 1] ++ l ++ msg ++ p ++ padding) (ok, msg)). unfold ReadTCPResponse.
    eapply reads_bind; [by rewrite !Forall_app|by apply reads_full|].
    eapply reads_bind; [by rewrite !Forall_app|exact Rl|]. rewrite (proj2 (Z.ltb_ge _ _)) by done.
    eapply (reads_bind _ _ msg); [by rewrite !Forall_app| |].
    + destruct (Z.ltb_spec 0 (zlen msg)) as [Hpos|Hz]; [by apply reads_full|].
      assert (msg = []) as -> by (destruct msg; [done|unfold zlen in Hz; cbn in Hz; lia]). apply reads_ret.
    + rewrite <- (app_nil_r (p ++ _)). eapply reads_bind; [constructor|exact Rp|]. by destruct ok.
Qed.

Lemma stream_headers_roundtrip_witness :
  ∃ bs, WriteTCPRequest [49; 58; 50] [97; 98] = Some bs ∧
    (t ← read_varint; a ← ReadTCPRequest; mret (t, a)) (bs ++ [7]) = inl ((FrameTypeTCPRequest, [49; 58; 50]), [7]).
Proof.
  destruct (stream_headers_roundtrip [49; 58; 50] [97; 98] true [] [7]) as [H _].
  all: try (repeat (apply Forall_cons; split; [unfold byte_ok; lia|]); constructor).
  all: try (vm_compute; congruence).
  exact H.
Defined.

(** ** UDP messages *)

Section Messages.

Record msg_ok (m : UDPMessage) : Prop := mk_msg_ok {
  ok_sid : 0 <= SessionID m < 2 ^ 32;
  ok_pid : 0 <= PacketID m < 2 ^ 16;
  ok_fid : byte_ok (FragID m);
  ok_cnt : byte_ok (FragCount m);
  ok_addr : Forall byte_ok (Addr m) ∧ 1 <= zlen (Addr m) <= MaxMessageLength;
  ok_data : Forall byte_ok (Data m);
}.

Lemma put_be_ok n v : Forall byte_ok (put_be n v).
Proof. apply Forall_fmap, Forall_forall. intros i _. apply uint8_ok. Qed.

Lemma put_be_length n v : length (put_be n v) = n.
Proof. unfold put_be. by rewrite length_fmap, length_seq. Qed.

Lemma be_num_4 v : 0 <= v < 2 ^ 32 → be_num (put_be 4 v) = v.
Proof.
  intros Hv. cbn -[uint8]. change (8 * Z.of_nat 3) with 24. change (8 * Z.of_nat 2) with 16.
  change (8 * Z.of_nat 1) with 8. change (8 * Z.of_nat 0) with 0. unfold uint8, wrap_u. change (2 ^ 8) with 256.
  peel v 0. peel v 8. peel v 16. peel v 24. change (0 + 8) with 8 in *. change (8 + 8) with 16 in *.
  change (16 + 8) with 24 in *. change (24 + 8) with 32 in *. rewrite Z.shiftr_0_r in *.
  assert (Z.shiftr v 32 = 0) as E by (rewrite Z.shiftr_div_pow2 by lia; by apply Z.div_small). lia.
Qed.

Lemma be_num_2 v : 0 <= v < 2 ^ 16 → be_num (put_be 2 v) = v.
Proof.
  intros Hv. cbn -[uint8]. change (8 * Z.of_nat 1) with 8. change (8 * Z.of_nat 0) with 0.
  unfold uint8, wrap_u. change (2 ^ 8) with 256.
  peel v 0. peel v 8. change (0 + 8) with 8 in *. change (8 + 8) with 16 in *. rewrite Z.shiftr_0_r in *.
  assert (Z.shiftr v 16 = 0) as E by (rewrite Z.shiftr_div_pow2 by lia; by apply Z.div_small). lia.
Qed.

Lemma reads_be n bs v : length bs = n → be_num bs = v → reads (read_be n) bs v.
Proof.
  intros Hl Hv. unfold read_be. rewrite <- (app_nil_r bs). eapply reads_bind; [constructor|apply reads_full|].
  - unfold zlen. by rewrite Hl.
  - rewrite Hv. apply reads_ret.
Qed.

Lemma Size_spec m n : Len (zlen (Addr m)) = Some n → Size m = Some (8 + Z.of_nat n + zlen (Addr m) + zlen (Data m)).
Proof. intros E. unfold Size, HeaderSize. rewrite E. cbn -[Z.add]. f_equal; lia. Qed.

Lemma serialize_parse buflen m size :
  msg_ok m → Size m = Some size → size <= buflen →
  ∃ bs, Serialize buflen m = Some bs ∧ zlen bs = size ∧ Forall byte_ok bs ∧
    ParseUDPMessage bs = if bool_decide (Data m = []) then inr InvalidMessageLength else inl m.
Proof.
  intros [Hs Hp Hf Hc [Hab Hal] Hd] Hsize Hbuf.
  assert (0 <= zlen (Addr m) <= maxVarInt8) as Hr by (unfold MaxMessageLength, maxVarInt8 in *; lia).
  destruct (Append_encodes (zlen (Addr m)) Hr) as (a & n & Ha & Hn & He). rewrite (Size_spec m n Hn) in Hsize.
  injection Hsize as <-. exists (put_be 4 (SessionID m) ++ put_be 2 (PacketID m) ++ [FragID m; FragCount m] ++ a ++ Addr m ++ Data m).
  assert (Forall byte_ok (a ++ Addr m ++ Data m)) as Htail by (rewrite !Forall_app; split; [apply He|done]).
  split; [|split; [|split]].
  - unfold Serialize. rewrite (Size_spec m n Hn), Ha. by rewrite (proj2 (Z.ltb_ge _ _)).
  - unfold zlen. rewrite !length_app, !put_be_length. cbn [length]. rewrite (enc_length _ _ _ He). lia.
  - rewrite Forall_app. split; [apply put_be_ok|]. rewrite Forall_app. split; [apply put_be_ok|].
    apply Forall_app. split; [|done].
    apply Forall_cons. split; [done|]. by apply Forall_singleton.
  - unfold ParseUDPMessage.
    assert (reads (sid ← read_be 4; pid ← read_be 2; fid ← read_be 1; cnt ← read_be 1; lAddr ← read_varint;
                   mret (sid, pid, fid, cnt, lAddr))
              (put_be 4 (SessionID m) ++ put_be 2 (PacketID m) ++ [FragID m] ++ [FragCount m] ++ a)
              (SessionID m, PacketID m, FragID m, FragCount m, zlen (Addr m))) as Hreads.
    { assert (Forall byte_ok [FragID m] ∧ Forall byte_ok [FragCount m] ∧ Forall byte_ok a) as (B1 & B2 & B3)
        by (rewrite !Forall_singleton; split; [done|split; [done|apply He]]).
      eapply reads_bind; [by rewrite !Forall_app; auto using put_be_ok|apply reads_be; [done|by apply be_num_4]|].
      eapply reads_bind; [by rewrite !Forall_app|apply reads_be; [done|by apply be_num_2]|].
      eapply reads_bind; [by rewrite !Forall_app|by apply reads_be|].
      eapply reads_bind; [done|by apply reads_be|]. rewrite <- (app_nil_r a).
      eapply reads_bind; [constructor| |apply reads_ret]. intros rest Hrest. unfold read_varint.
      by rewrite (encodes_read a _ _ rest He Hrest). }
    replace (put_be 4 (SessionID m) ++ put_be 2 (PacketID m) ++ [FragID m; FragCount m] ++ a ++ Addr m ++ Data m)
      with ((put_be 4 (SessionID m) ++ put_be 2 (PacketID m) ++ [FragID m] ++ [FragCount m] ++ a) ++ (Addr m ++ Data m))
      by (rewrite <- !app_assoc; done).
    rewrite Hreads by by rewrite Forall_app.
    rewrite (proj2 (Z.eqb_neq _ _)), (proj2 (Z.ltb_ge _ _)) by lia. cbn [orb].
    unfold zlen. rewrite length_app, Nat2Z.id, take_app_length, drop_app_length.
    destruct (Data m) as [|d data] eqn:E.
    + rewrite bool_decide_true by done. cbn [length]. by rewrite (proj2 (Z.leb_le _ _)) by lia.
    + rewrite bool_decide_false by done. cbn [length]. rewrite (proj2 (Z.leb_gt _ _)) by lia.
      by destruct m; cbn in *; subst.
Qed.
End Messages.

(** A UDP message survives the wire: into any buffer of at least its size it is
    serialised in exactly that many bytes, which parse back to the same message,
    identifiers, fragment numbers, address and data; except that a message without
    data is refused by the other end. *)
Theorem udp_message_roundtrip buflen m size :
  msg_ok m → Size m = Some size →
  if buflen <? size then Serialize buflen m = None
  else ∃ bs, Serialize buflen m = Some bs ∧ zlen bs = size ∧
         ParseUDPMessage bs = if bool_decide (Data m = []) then inr InvalidMessageLength else inl m.
Proof.
  intros Hm Hs. destruct (Z.ltb_spec buflen size) as [Hlt|Hge].
  - unfold Serialize. rewrite Hs. rewrite (proj2 (Z.ltb_lt _ _)) by done. by destruct (Append _).
  - destruct (serialize_parse buflen m size Hm Hs Hge) as (bs & ? & ? & _ & ?). by exists bs.
Qed.

Lemma udp_message_roundtrip_witness :
  let m := mkUDP 7 300 0 1 [49; 58; 50] [5; 6] in
  ∃ bs, Serialize 4096 m = Some bs ∧ zlen bs = 14 ∧ ParseUDPMessage bs = inl m.
Proof.
  intros m. apply (udp_message_roundtrip 4096 m 14).
  - split; cbn; try (unfold byte_ok; lia); unfold zlen, MaxMessageLength; cbn; [split; [|lia]|];
      repeat (apply Forall_cons; split; [unfold byte_ok; lia|]); constructor.
  - vm_compute. reflexivity.
Defined.

(** ** Fragments *)

Section Frag.
Context (m : UDPMessage) (k n : nat).
(** [k]: the bytes of a fragment, [n]: how many fragments there are. *)
Context (Hk : (0 < k)%nat).

Definition piece (i : nat) : UDPMessage :=
  with_frag m (Z.of_nat i) (Z.of_nat n) (take k (drop (i * k) (Data m))).

Definition pieces : list UDPMessage := piece <$> seq 0 n.

Lemma drop_next i : drop k (drop (i * k) (Data m)) = drop (S i * k) (Data m).
Proof. rewrite drop_drop. f_equal. lia. Qed.

(** The pieces are all of the data. *)
Lemma concat_pieces j i :
  concat (Data <$> (piece <$> seq i j)) = take (j * k) (drop (i * k) (Data m)).
Proof.
  revert i. induction j as [|j IH]; intros i; [by rewrite Nat.mul_0_l|].
  cbn [seq fmap list_fmap concat]. fold (fmap (M := list) piece (seq (S i) j)).
  change (list_fmap UDPMessage (list Z) Data (list_fmap nat UDPMessage piece (seq (S i) j)))
    with (Data <$> (piece <$> seq (S i) j)).
  rewrite IH. cbn [piece with_frag Data]. rewrite <- drop_next.
  change (S j * k)%nat with (k + j * k)%nat.
  rewrite <- (take_drop k (take (k + j * k) (drop (i * k) (Data m)))).
  rewrite take_take. rewrite Nat.min_l by lia. f_equal. rewrite skipn_firstn_comm. f_equal. lia.
Qed.

(** [n] is the length of the data divided by [k], rounded up. *)
Context (Hlen : ((n - 1) * k < length (Data m) <= n * k)%nat).

Lemma left_nonempty i : (i < n)%nat ↔ drop (i * k) (Data m) ≠ [].
Proof.
  rewrite <- length_zero_iff_nil, length_drop. split.
  - intros Hi. assert (i * k <= (n - 1) * k)%nat by (apply Nat.mul_le_mono_r; lia). lia.
  - intros Hd. destruct (Nat.lt_ge_cases i n) as [|Hge]; [done|].
    assert (n * k <= i * k)%nat by (by apply Nat.mul_le_mono_r). lia.
Qed.

Lemma frag_loop_ok fuel i frags :
  (n <= 255)%nat → (i <= n)%nat → length frags = n → (length (drop (i * k) (Data m)) <= fuel)%nat →
  (∀ j, (j < i)%nat → frags !! j = Some (Some (piece j))) →
  frag_loop fuel m k (Z.of_nat n) (Z.of_nat i) (drop (i * k) (Data m)) frags = Some (Some <$> pieces).
Proof.
  intros Hn. revert i frags. induction fuel as [|fuel IH]; intros i frags Hi Hl Hf Hdone.
  all: destruct (decide (drop (i * k) (Data m) = [])) as [E|E].
  1, 3: assert (i = n) as -> by
      (destruct (Nat.lt_ge_cases i n) as [Hlt|]; [by apply left_nonempty in Hlt|lia]).
  1, 2: rewrite E; cbn; f_equal; apply list_eq; intros j; unfold pieces;
      rewrite !list_lookup_fmap; destruct (Nat.lt_ge_cases j n) as [Hj|Hj];
      [rewrite Hdone by done; rewrite lookup_seq_lt by done; done
      |rewrite !lookup_ge_None_2 by (rewrite ?length_seq; lia); done].
  - destruct E. apply length_zero_iff_nil. lia.
  - pose proof E as Hlt%left_nonempty. cbn [frag_loop].
    destruct (drop (i * k) (Data m)) as [|x l] eqn:Ed; [done|]. rewrite <- Ed in *. clear Ed.
    rewrite (proj2 (Z.leb_gt _ _)) by lia. rewrite Nat2Z.id, drop_next.
    assert (uint8 (Z.of_nat i + 1) = Z.of_nat (S i)) as ->.
    { unfold uint8. rewrite wrap_u_small by (cbn; lia). lia. }
    apply IH.
    + lia.
    + by rewrite length_insert.
    + rewrite <- drop_next, length_drop. lia.
    + intros j Hj. destruct (decide (j = i)) as [->|Hne]; [by rewrite list_lookup_insert_eq by lia|].
      rewrite list_lookup_insert_ne by done. apply Hdone. lia.
Qed.

(** With more fragments than the count can hold the slice is too short. *)
Lemma frag_loop_panics fuel i c frags :
  (c < n)%nat → (c <= 255)%nat → (i <= c)%nat → length frags = c →
  frag_loop fuel m k (Z.of_nat c) (Z.of_nat i) (drop (i * k) (Data m)) frags = None.
Proof.
  intros Hc H255. revert i frags. induction fuel as [|fuel IH]; intros i frags Hi Hl.
  all: assert (drop (i * k) (Data m) ≠ []) as E by (apply left_nonempty; lia).
  all: cbn [frag_loop]; destruct (drop (i * k) (Data m)) as [|x l] eqn:Ed; [done|]; rewrite <- Ed in *; clear Ed.
  - done.
  - destruct (Z.leb_spec (Z.of_nat (length frags)) (Z.of_nat i)) as [|Hlt]; [done|].
    rewrite Nat2Z.id, drop_next. assert (uint8 (Z.of_nat i + 1) = Z.of_nat (S i)) as ->.
    { unfold uint8. rewrite wrap_u_small by (cbn; lia). lia. }
    apply IH; [lia|by rewrite length_insert].
Qed.
End Frag.

(** How many fragments a message takes. *)
Definition fragments_needed (m : UDPMessage) (room : Z) : Z := (zlen (Data m) + room - 1) / room.

Lemma needed_bounds m room :
  0 < room → Data m ≠ [] →
  let n := Z.to_nat (fragments_needed m room) in let k := Z.to_nat room in
  (0 < k)%nat ∧ (0 < n)%nat ∧ Z.of_nat n = fragments_needed m room ∧
  ((n - 1) * k < length (Data m) <= n * k)%nat.
Proof.
  intros Hr Hd n k. subst n k. unfold fragments_needed.
  assert (0 < zlen (Data m)) as Hz by (unfold zlen; destruct (Data m); [done|cbn; lia]).
  pose proof (Z.div_mod (zlen (Data m) + room - 1) room ltac:(lia)) as E.
  pose proof (Z.mod_pos_bound (zlen (Data m) + room - 1) room Hr) as Hm.
  set (q := (zlen (Data m) + room - 1) / room) in *. assert (0 < q) by nia.
  split; [lia|]. split; [lia|]. split; [lia|].
  assert ((q - 1) * room < zlen (Data m) <= q * room) as [H1 H2] by nia. unfold zlen in *.
  split; apply Nat2Z.inj_lt || apply Nat2Z.inj_le; rewrite Nat2Z.inj_mul; rewrite ?Nat2Z.inj_sub by lia; nia.
Qed.

(** What [FragUDPMessage] makes of a message that does not fit. *)
Lemma FragUDPMessage_spec m maxSize size header :
  Size m = Some size → HeaderSize m = Some header → maxSize < size → header < maxSize →
  let room := maxSize - header in let n := fragments_needed m room in
  FragUDPMessage m maxSize =
    if n <=? 255 then Some (Some <$> pieces m (Z.to_nat room) (Z.to_nat n)) else None.
Proof.
  intros Hs Hh Hlt Hroom room n. unfold FragUDPMessage. rewrite Hs, Hh.
  rewrite (proj2 (Z.leb_gt _ _)), (proj2 (Z.leb_gt _ _)) by lia. cbv zeta.
  change ((zlen (Data m) + (maxSize - header) - 1) / (maxSize - header)) with n.
  assert (Data m ≠ []) as Hd.
  { intros E. unfold Size in Hs. rewrite Hh, E in Hs. cbn -[Z.add zlen] in Hs. change (zlen []) with 0 in Hs. injection Hs as Hs. lia. }
  destruct (needed_bounds m room ltac:(lia) Hd) as (Hk & Hn & Hnz & Hlen). fold n in Hn, Hnz, Hlen. change (maxSize - header) with room.
  destruct (Z.leb_spec n 255) as [H255|H255].
  - assert (uint8 n = Z.of_nat (Z.to_nat n)) as -> by (unfold uint8; rewrite wrap_u_small; cbn; lia).
    rewrite Nat2Z.id. change 0 with (Z.of_nat 0). replace (Data m) with (drop (0 * Z.to_nat room) (Data m)) at 2 by done.
    apply frag_loop_ok; try done; try lia.
    by rewrite length_replicate.
  - assert (0 <= uint8 n < 256) as Hu by apply (wrap_u_range 8 n ltac:(lia)).
    rewrite <- (Z2Nat.id (uint8 n)) at 1 by lia. change 0 with (Z.of_nat 0).
    replace (Data m) with (drop (0 * Z.to_nat room) (Data m)) at 2 by done.
    apply (frag_loop_panics m (Z.to_nat room) (Z.to_nat n)); try done; try lia.
    by rewrite length_replicate.
Qed.

(** ** Reassembly *)

Fixpoint feed_all (l : list UDPMessage) (d : Defragger) : Defragger * list (option UDPMessage) :=
  match l with
  | [] => (d, [])
  | f :: l => let '(d, out) := Feed f d in let '(d, outs) := feed_all l d in (d, out :: outs)
  end.

(** A reassembler that is not in the middle of this packet. *)
Definition fresh_for (m : UDPMessage) (n : nat) (d : Defragger) : Prop :=
  (length (d_frags d) <= 255)%nat ∧ (pktID d ≠ PacketID m ∨ length (d_frags d) ≠ n).

Definition stored (frags : list (option UDPMessage)) : list Z :=
  concat ((λ f, match f with Some f => Data f | None => [] end) <$> frags).

Lemma stored_cons x frags : stored (x :: frags) = match x with Some f => Data f | None => [] end ++ stored frags.
Proof. done. Qed.

Lemma stored_insert frags i f :
  frags !! i = Some None → length (stored (<[i := Some f]> frags)) = (length (stored frags) + length (Data f))%nat.
Proof.
  revert i. induction frags as [|x frags IH]; intros [|i]; [done..| |].
  - intros [= ->]. cbn [insert list_insert]. rewrite !stored_cons, length_app. cbn [app]. lia.
  - intros Hi. change (<[S i := Some f]> (x :: frags)) with (x :: <[i := Some f]> frags).
    rewrite !stored_cons, !length_app, (IH i Hi). lia.
Qed.

Lemma stored_none n : stored (replicate n None) = [].
Proof. induction n as [|n IH]; [done|]. unfold stored in *. cbn. by rewrite IH. Qed.

Section Reassembly.
Context (m : UDPMessage) (k n : nat).
Context (Hk : (0 < k)%nat) (Hn : (2 <= n <= 255)%nat) (Hlen : ((n - 1) * k < length (Data m) <= n * k)%nat).

Abbreviation F := (piece m k n) (only parsing).
Abbreviation full := (set_seq 0 n : gset nat) (only parsing).
Abbreviation whole := (with_frag m 0 1 (Data m)) (only parsing).

(** The reassembler once the fragments [S] have arrived. *)
Definition holds (S : gset nat) (d : Defragger) : Prop :=
  if bool_decide (S = ∅) then fresh_for m n d
  else pktID d = PacketID m ∧ length (d_frags d) = n ∧
       (∀ i, (i < n)%nat → i ∉ S ↔ d_frags d !! i = Some None) ∧
       d_count d = Z.of_nat (size S) ∧
       (S ≠ full → (∀ i, i ∈ S → d_frags d !! i = Some (Some (F i))) ∧ d_size d = length (stored (d_frags d))).

Lemma full_size S : S ⊆ full → (size S <= n)%nat ∧ (size S = n ↔ S = full).
Proof.
  intros HS. assert (size full = n) as Hf by (rewrite size_set_seq; done).
  pose proof (subseteq_size S full HS). split; [lia|]. split; [|by intros ->].
  intros E. apply leibniz_equiv. apply set_subseteq_size_equiv; [done|]. lia.
Qed.
Lemma piece_data i : (i < n)%nat → Data (F i) ≠ [].
Proof.
  intros Hi. cbn [piece with_frag Data]. pose proof (left_nonempty m k n Hk Hlen i) as [H _]. specialize (H Hi).
  intros E. apply (f_equal length) in E. rewrite length_take in E.
  destruct (drop (i * k) (Data m)); [done|]. cbn in E. lia.
Qed.

Lemma all_stored frags :
  length frags = n → (∀ i, (i < n)%nat → frags !! i = Some (Some (F i))) → stored frags = Data m.
Proof.
  intros Hl Hall. assert (frags = Some <$> pieces m k n) as ->.
  { apply list_eq. intros j. unfold pieces. rewrite !list_lookup_fmap. destruct (Nat.lt_ge_cases j n) as [Hj|Hj].
    - rewrite Hall by done. by rewrite lookup_seq_lt by done.
    - by rewrite !lookup_ge_None_2 by (rewrite ?length_seq; lia). }
  unfold stored, pieces. rewrite <- !list_fmap_compose.
  change (compose (compose _ Some) F) with (compose Data F). rewrite list_fmap_compose, concat_pieces by done.
  rewrite Nat.mul_0_l, drop_0, take_ge by lia. done.
Qed.

Lemma uint8_count j : (j <= 255)%nat → uint8 (Z.of_nat j) = Z.of_nat j.
Proof. intros Hj. unfold uint8. apply wrap_u_small. lia. Qed.

Lemma stored_one i f j : (i < j)%nat → stored (<[i := Some f]> (replicate j None)) = Data f.
Proof.
  revert i. induction j as [|j IH]; intros i Hi; [lia|]. cbn [replicate]. destruct i as [|i].
  - change (<[0%nat := Some f]> (None :: replicate j None)) with (Some f :: replicate j None).
    by rewrite stored_cons, stored_none, app_nil_r.
  - change (<[S i := Some f]> (None :: replicate j None)) with (None :: <[i := Some f]> (replicate j None)).
    rewrite stored_cons. apply IH. lia.
Qed.

(** The first fragment that arrives. *)
Lemma first_step d i :
  fresh_for m n d → (i < n)%nat →
  let '(d', out) := Feed (F i) d in holds {[i]} d' ∧ out = None.
Proof.
  intros [H255 Hfresh] Hi. unfold Feed. cbn [piece with_frag FragCount FragID PacketID].
  rewrite (proj2 (Z.leb_gt _ _)), (proj2 (Z.leb_gt _ _)) by lia. rewrite uint8_count by done.
  assert (negb (PacketID m =? pktID d) || negb (Z.of_nat n =? Z.of_nat (length (d_frags d))) = true) as ->.
  { apply orb_true_iff. rewrite !negb_true_iff, !Z.eqb_neq. destruct Hfresh; [left; congruence|right; lia]. }
  split; [|done]. rewrite !Nat2Z.id. unfold holds. rewrite bool_decide_false by set_solver.
  cbn [pktID d_frags d_count d_size]. split; [done|]. split; [by rewrite length_insert, length_replicate|].
  split.
  - intros j Hj. destruct (decide (j = i)) as [->|Hne].
    + rewrite list_lookup_insert_eq by (by rewrite length_replicate). split; [set_solver|done].
    + rewrite list_lookup_insert_ne, lookup_replicate_2 by done. split; [done|set_solver].
  - split; [by rewrite size_singleton|]. intros _. split.
    + intros j ->%elem_of_singleton. by rewrite list_lookup_insert_eq by (by rewrite length_replicate).
    + by rewrite stored_one.
Qed.

Lemma feed_step S d i :
  S ⊆ full → holds S d → (i < n)%nat →
  let '(d', out) := Feed (F i) d in
  holds ({[i]} ∪ S) d' ∧ out = if bool_decide (S ≠ full ∧ {[i]} ∪ S = full) then Some whole else None.
Proof.
  intros HS Hh Hi. unfold holds in Hh. destruct (bool_decide_reflect (S = ∅)) as [->|Hne].
  { pose proof (first_step d i Hh Hi) as H. destruct (Feed (F i) d) as [d' out]. rewrite union_empty_r_L.
    destruct H as [? ->]. split; [done|]. rewrite bool_decide_false; [done|]. intros [_ E].
    apply (f_equal size) in E. rewrite size_singleton, size_set_seq in E. lia. }
  destruct Hh as (Hp & Hl & Hslots & Hc & Hpart). unfold Feed. cbn [piece with_frag FragCount FragID PacketID].
  rewrite (proj2 (Z.leb_gt _ _)), (proj2 (Z.leb_gt _ _)) by lia. rewrite Hl, uint8_count, Hp, !Z.eqb_refl by lia.
  cbn [negb orb]. rewrite Nat2Z.id.
  destruct (decide (i ∈ S)) as [Hin|Hout].
  { assert (∃ f, d_frags d !! i = Some (Some f)) as [f ->].
    { destruct (lookup_lt_is_Some_2 (d_frags d) i ltac:(lia)) as [[f|] Hf]; [by exists f|].
      by apply Hslots in Hf. }
    assert ({[i]} ∪ S = S) as -> by set_solver. split.
    - unfold holds. rewrite bool_decide_false by done. by split_and!.
    - rewrite bool_decide_false; [done|]. intros [? ?]. done. }
  pose proof Hout as Hslot%Hslots; [|done]. rewrite Hslot.
  assert (S ≠ full) as Hnf by (intros ->; apply Hout, elem_of_set_seq; lia).
  destruct (Hpart Hnf) as [Hfrags Hsize]. rewrite length_insert, Hl, Hc.
  assert ({[i]} ∪ S ⊆ full) as HS'.
  { apply union_subseteq. split; [|done]. apply singleton_subseteq_l, elem_of_set_seq. lia. }
  assert (size ({[i]} ∪ S) = Datatypes.S (size S)) as Hsz by (rewrite size_union by set_solver; by rewrite size_singleton).
  pose proof (full_size _ HS') as [Hle Hfull]. rewrite Hsz in Hle, Hfull.
  assert (uint8 (Z.of_nat (size S) + 1) = Z.of_nat (Datatypes.S (size S))) as ->.
  { replace (Z.of_nat (size S) + 1) with (Z.of_nat (Datatypes.S (size S))) by lia. apply uint8_count. lia. }
  assert (∀ j, j ∈ {[i]} ∪ S → <[i := Some (F i)]> (d_frags d) !! j = Some (Some (F j))) as Hnew.
  { intros j [->%elem_of_singleton|Hj]%elem_of_union; [by rewrite list_lookup_insert_eq by lia|].
    rewrite list_lookup_insert_ne by (intros ->; done). by apply Hfrags. }
  assert (∀ f j, (j < n)%nat → j ∉ {[i]} ∪ S ↔ <[i := Some f]> (d_frags d) !! j = Some None) as Hslots'.
  { intros f j Hj. destruct (decide (j = i)) as [->|Hji].
    - rewrite list_lookup_insert_eq by lia. split; [set_solver|done].
    - rewrite list_lookup_insert_ne by done. rewrite <- Hslots by done. set_solver. }
  assert ((d_size d + length (Data (F i)))%nat = length (stored (<[i := Some (F i)]> (d_frags d)))) as Hsize'.
  { by rewrite stored_insert, Hsize. }
  change (take k (drop (i * k) (Data m))) with (Data (F i)).
  change (with_frag m (Z.of_nat i) (Z.of_nat n) (Data (F i))) with (F i). rewrite Hsize'.
  destruct (Z.eqb_spec (Z.of_nat (Datatypes.S (size S))) (Z.of_nat n)) as [E|E].
  - assert ({[i]} ∪ S = full) as HF by (apply Hfull; lia).
    rewrite bool_decide_true by done.
    assert (stored (<[i := Some (F i)]> (d_frags d)) = Data m) as Hst.
    { apply all_stored; [by rewrite length_insert|]. intros j Hj. apply Hnew. rewrite HF. apply elem_of_set_seq. lia. }
    split.
    + unfold holds. rewrite bool_decide_false by set_solver. cbn [pktID d_frags d_count d_size].
      split; [done|]. split; [by rewrite !length_insert|]. split.
      * intros j Hj. rewrite list_insert_insert_eq. by apply Hslots'.
      * split; [by rewrite Hsz|]. intros Hcontra. done.
    + f_equal. unfold assemble. fold (stored (<[i := Some (F i)]> (d_frags d))). rewrite Hst.
      rewrite Nat.sub_diag. cbn [replicate]. rewrite app_nil_r, take_ge by done. done.
  - rewrite bool_decide_false.
    2: { intros [_ HF]. apply E. apply Hfull in HF. lia. }
    split; [|done]. unfold holds. rewrite bool_decide_false by set_solver. cbn [pktID d_frags d_count d_size].
    split; [done|]. split; [by rewrite length_insert|]. split; [by apply Hslots'|].
    split; [by rewrite Hsz|]. intros _. by split.
Qed.
Lemma feed_run idx S d :
  S ⊆ full → holds S d → Forall (λ i, (i < n)%nat) idx →
  omap id (feed_all (F <$> idx) d).2
  = if bool_decide (S ≠ full ∧ list_to_set idx ∪ S = full) then [whole] else [].
Proof.
  revert S d. induction idx as [|i idx IH]; intros S d HS Hh Hidx.
  - cbn. rewrite bool_decide_false; [done|]. intros [Hne E]. apply Hne. set_solver.
  - apply Forall_cons in Hidx as [Hi Hidx]. cbn [fmap list_fmap feed_all].
    pose proof (feed_step S d i HS Hh Hi) as Hs. destruct (Feed (F i) d) as [d1 out]. destruct Hs as [Hh1 ->].
    assert ({[i]} ∪ S ⊆ full) as HS1.
    { apply union_subseteq. split; [|done]. apply singleton_subseteq_l, elem_of_set_seq. lia. }
    specialize (IH _ _ HS1 Hh1 Hidx). change (list_fmap nat UDPMessage F idx) with (F <$> idx).
    destruct (feed_all (F <$> idx) d1) as [d2 outs]. cbn [snd omap list_omap] in *.
    assert (list_to_set (i :: idx) ∪ S = list_to_set idx ∪ ({[i]} ∪ S)) as -> by (cbn; set_solver).
    assert (list_to_set idx ⊆ (full : gset nat)) as Hl.
    { intros j Hj%elem_of_list_to_set. rewrite Forall_forall in Hidx. apply elem_of_set_seq.
      split; [lia|by apply Hidx]. }
    destruct (decide (S = full)) as [->|Hne].
    + rewrite bool_decide_false by (by intros []). rewrite (bool_decide_false (_ ∧ _)) by (by intros []).
      cbn. rewrite IH. rewrite bool_decide_false; [done|]. intros [H _]. apply H. set_solver.
    + destruct (decide ({[i]} ∪ S = full)) as [E|E].
      * rewrite bool_decide_true by done. cbn. rewrite IH, E. rewrite bool_decide_false by (by intros []).
        rewrite bool_decide_true; [done|]. split; [done|]. set_solver.
      * rewrite bool_decide_false by (by intros []). cbn. rewrite IH. apply (f_equal (λ b : bool, if b then _ else _)).
        apply bool_decide_ext. tauto.
Qed.
End Reassembly.

#[export] Instance UDPMessage_eq_dec : EqDecision UDPMessage.
Proof. solve_decision. Defined.

(** C31: A message that does not fit a datagram is cut and put together again. It
    is cut into as few fragments as the room next to the header allows; each fits
    and carries some data. Whatever the order in which they arrive and however
    often, the other end delivers the original message, once, when the last one
    has arrived, and nothing before. That is so up to 255 fragments; a message that
    needs more makes the sender panic. *)
Theorem fragmentation_exact m maxSize size header :
  Size m = Some size → HeaderSize m = Some header → maxSize < size → header < maxSize →
  let n := fragments_needed m (maxSize - header) in
  if n <=? 255 then
    ∃ frags, FragUDPMessage m maxSize = Some (Some <$> frags) ∧ Z.of_nat (length frags) = n ∧
      (∀ f, f ∈ frags → Data f ≠ [] ∧ ∃ s, Size f = Some s ∧ s <= maxSize) ∧
      ∀ arrivals d, (∀ f, f ∈ arrivals → f ∈ frags) → fresh_for m (length frags) d →
        omap id (feed_all arrivals d).2
        = if bool_decide (Forall (λ f, f ∈ arrivals) frags) then [with_frag m 0 1 (Data m)] else []
  else FragUDPMessage m maxSize = None.
Proof.
  intros Hs Hh Hlt Hroom n. rewrite (FragUDPMessage_spec m maxSize size header) by done. fold n.
  destruct (Z.leb_spec n 255) as [H255|]; [|done].
  assert (size = header + zlen (Data m)) as Esize.
  { unfold Size in Hs. rewrite Hh in Hs. cbn -[Z.add zlen] in Hs. by injection Hs. }
  assert (Data m ≠ []) as Hd by (intros E; rewrite E in Esize; unfold zlen in Esize; cbn in Esize; lia).
  destruct (needed_bounds m (maxSize - header) ltac:(lia) Hd) as (Hk & Hn0 & Hnz & Hlen). fold n in Hn0, Hnz, Hlen.
  set (k := Z.to_nat (maxSize - header)) in *. set (N := Z.to_nat n) in *.
  assert (2 <= N <= 255)%nat as HN.
  { split; [|lia]. unfold zlen in *. destruct (Nat.lt_ge_cases N 2) as [H|]; [|done].
    assert (N = 1%nat) as HN1 by lia. rewrite HN1 in Hlen. lia. }
  exists (pieces m k N). split; [done|]. split; [unfold pieces; rewrite length_fmap, length_seq; lia|]. split.
  - intros f (i & -> & Hi%elem_of_seq)%list_elem_of_fmap. split; [apply piece_data; [done..|lia]|].
    unfold Size. assert (HeaderSize (piece m k N i) = Some header) as -> by (rewrite <- Hh; done).
    eexists. split; [reflexivity|]. cbn [piece with_frag Data]. unfold zlen. rewrite length_take. lia.
  - intros arrivals d Harr Hfresh. unfold pieces in Hfresh. rewrite length_fmap, length_seq in Hfresh.
    assert (arrivals = piece m k N <$> (Z.to_nat ∘ FragID <$> arrivals)) as Ea.
    { apply list_eq. intros j. rewrite !list_lookup_fmap. destruct (arrivals !! j) as [f|] eqn:Ej; [|done]. cbn. f_equal.
      apply list_elem_of_lookup_2 in Ej. apply Harr in Ej. apply list_elem_of_fmap in Ej as (i & -> & _). cbn.
      by rewrite Nat2Z.id. }
    set (idx := Z.to_nat ∘ FragID <$> arrivals) in *.
    assert (Forall (λ i, (i < N)%nat) idx) as Hidx.
    { apply Forall_fmap, Forall_forall. intros f Hf. apply Harr in Hf.
      apply list_elem_of_fmap in Hf as (i & -> & Hi%elem_of_seq). cbn. rewrite Nat2Z.id. lia. }
    assert (holds m k N ∅ d) as Hholds by (unfold holds; by rewrite bool_decide_true).
    pose proof (feed_run m k N Hk HN Hlen idx ∅ d (empty_subseteq _) Hholds Hidx) as Hrun.
    rewrite Ea at 1. rewrite Hrun. clear Hrun.
    apply (f_equal (λ b : bool, if b then _ else _)). apply bool_decide_ext. rewrite Forall_forall. split.
    + intros [_ E] f (i & -> & Hi%elem_of_seq)%list_elem_of_fmap. rewrite Ea. apply list_elem_of_fmap. exists i. split; [done|].
      rewrite union_empty_r_L in E. apply (elem_of_list_to_set (C := gset nat)). rewrite E. apply elem_of_set_seq. lia.
    + intros Hall. split.
      * intros E. assert (0%nat ∈ (set_seq 0 N : gset nat)) as H0 by (apply elem_of_set_seq; lia). rewrite <- E in H0. set_solver.
      * rewrite union_empty_r_L. apply set_eq. intros i. rewrite elem_of_list_to_set, elem_of_set_seq. split.
        -- intros Hi. rewrite Forall_forall in Hidx. specialize (Hidx i Hi). lia.
        -- intros Hi. assert (piece m k N i ∈ pieces m k N) as Hp
             by (apply list_elem_of_fmap; exists i; split; [done|apply elem_of_seq; lia]).
           apply Hall in Hp. rewrite Ea in Hp. apply list_elem_of_fmap in Hp as (i' & E & Hi').
           apply (f_equal FragID) in E. cbn in E. by assert (i = i') as -> by lia.
Qed.

Lemma fragmentation_exact_witness :
  let m := mkUDP 1 7 0 1 [49] [1; 2; 3; 4; 5] in
  ∃ frags, FragUDPMessage m 12 = Some (Some <$> frags) ∧ Z.of_nat (length frags) = 3 ∧
    omap id (feed_all (rev frags ++ frags) NewDefragger).2
    = if bool_decide (Forall (λ f, f ∈ rev frags ++ frags) frags) then [m] else [].
Proof.
  intros m. pose proof (fragmentation_exact m 12 15 10 eq_refl eq_refl ltac:(lia) ltac:(lia)) as H.
  cbn zeta in H. change (fragments_needed m (12 - 10) <=? 255) with true in H. cbv iota in H.
  destruct H as (frags & Hf & Hl & _ & Hfeed). exists frags. split; [exact Hf|]. split; [exact Hl|].
  rewrite (Hfeed (rev frags ++ frags) NewDefragger); [done| |].
  - intros f [Hf'|Hf']%elem_of_app; [|done]. rewrite <- in_rev in Hf' || apply list_elem_of_In, in_rev, list_elem_of_In in Hf'. done.
  - split; [cbn; lia|]. left. done.
Defined.
