(* ===== verification/SignalStream.v ===== *)
(** * The signalling stream of the client ([vpn-tool/backend/quic/signal.go])

    One stream, one goroutine that reads it, requests that wait for their answer.
    Messages carry no request identifier: an answer goes to whoever waits. The
    server at the other end is [SignalServer.serve], which answers the requests of
    a stream in their order and pushes messages in between. *)

From Stdlib Require Import ZArith Lia Bool Ascii String.
From stdpp Require Import base list gmap strings relations.
From S2P Require Import Prelude.
From S2P Require Import GoNet.
From S2P Require Import GoText.
From S2P Require Import GoStrings.
From S2P Require Import Reasons.
From S2P Require Import PathCore.
From S2P Require Import SignalRegistry.
From S2P Require Import PunchTable.
From S2P Require Import SignalServer.

Open Scope string_scope.
Open Scope Z_scope.

Definition signalReopenCooldown : duration := 30 * second.

(** [isResponseType]: the only criterion of the dispatch. *)
Definition isResponseType (t : string) : bool := bool_decide (t ∈ signalResponseTypes).

Definition isPunchPushType (t : string) : bool :=
  bool_decide (t = signalMsgTypePunchInvite) || bool_decide (t = signalMsgTypePunchPeer)
  || bool_decide (t = signalMsgTypePunchBusy).

(** ** State *)

(** What comes down a stream; the number of the request a reply answers is not in
    the message, nothing below looks at it. *)
Inductive downlink := Reply (i : nat) (m : signalMessage) | Unasked (m : signalMessage).

Definition down_msg (d : downlink) : signalMessage := match d with Reply _ m | Unasked m => m end.

(** A stream: what the client wrote, what has arrived and is not read yet, how
    many requests were answered and how many answers were read (bookkeeping of the
    model), and whether its reader runs; when it ends it closes the channel [gen]. *)
Record sigstream := {
  ss_out : list signalMessage;
  ss_in : list downlink;
  ss_answered : nat;
  ss_read : nat;
  ss_reader : bool }.

#[export] Instance eta_sigstream : Eta sigstream := λ s, {|
  ss_out := ss_out s; ss_in := ss_in s; ss_answered := ss_answered s; ss_read := ss_read s;
  ss_reader := ss_reader s |}.

(** The channels of waiting requests hold one message. *)
Record SignalClient := {
  c_streams : gmap positive sigstream;
  c_slots : gmap positive (option downlink);
  signalStream : option positive;
  signalPending : option positive;
  signalDeadUntil : time;
  peersUnsupported : bool;
  c_punched : list signalMessage;
  c_hooked : list signalMessage }.

#[export] Instance eta_SignalClient : Eta SignalClient := λ c, {|
  c_streams := c_streams c; c_slots := c_slots c; signalStream := signalStream c;
  signalPending := signalPending c; signalDeadUntil := signalDeadUntil c;
  peersUnsupported := peersUnsupported c; c_punched := c_punched c; c_hooked := c_hooked c |}.

Definition new_client : SignalClient := {|
  c_streams := ∅; c_slots := ∅; signalStream := None; signalPending := None; signalDeadUntil := time_zero;
  peersUnsupported := false; c_punched := []; c_hooked := [] |}.

(** ** Errors and their texts *)

Inductive sig_err :=
  | NoNAT | EmptyPeer | NoSelf | Cooldown | P2POff | NoCtrl | OpenFailed (e : string) | FirstWriteFailed (e : string)
  | NoStream | WriteFailed (e : string) | ServerRefused (e : string) | ExchangeTimeout | StreamClosed
  | ConnClosed | CtxErr (e : string).

Definition sig_err_text (e : sig_err) : string :=
  match e with
  | NoNAT => "NAT 探测尚未完成或未取得公网地址，无法建立信令流"
  | EmptyPeer => "对端 VIP 不能为空"
  | NoSelf => "NAT 探测尚未完成或未取得公网地址，无法上报自己"
  | Cooldown => "信令通道刚断开"
  | P2POff => "P2P 未启用"
  | NoCtrl => "控制面未建立，无法建立信令流"
  | OpenFailed e => "打开信令流失败: " +:+ e
  | FirstWriteFailed e => "信令流首次登记失败: " +:+ e
  | NoStream => "信令流未建立"
  | WriteFailed e => "发送信令失败: " +:+ e
  | ServerRefused e => "服务端拒绝: " +:+ e
  | ExchangeTimeout => "等待信令应答超时"
  | StreamClosed => "信令流已关闭"
  | ConnClosed => "连接已关闭"
  | CtxErr e => e
  end.

(** ** Opening and closing *)

(** The type of the NAT and the public address, once they are known. *)
Definition signalSelfInfo (nat : option (string * string)) : option (string * string) :=
  match nat with
  | None => None
  | Some (publicAddr, type) =>
      let addr := TrimSpace publicAddr in
      if bool_decide (addr = "") then None
      else Some (addr, if bool_decide (type = "") then "unknown" else type)
  end.

Definition register_message (peerVIP addr type : string) : signalMessage :=
  (message signalMsgTypeRegister) <| m_PeerVIP := peerVIP |> <| m_PublicAddr := addr |> <| m_NATType := type |>.

(** A message put on a stream. *)
Definition write_out (sid : positive) (m : signalMessage) (c : SignalClient) : SignalClient :=
  c <| c_streams ::= alter (λ s, s <| ss_out ::= λ l, (l ++ [m])%list |>) sid |>.

(** The reader of a stream that is closed from here is gone before the function
    returns. *)
Definition closeSignalStreamLocked (c : SignalClient) : SignalClient :=
  let c := c <| peersUnsupported := false |> in
  match signalStream c with
  | None => c <| signalPending := None |>
  | Some sid =>
      c <| signalStream := None |> <| signalPending := None |>
        <| c_streams ::= alter (λ s, s <| ss_reader := false |>) sid |>
        <| signalDeadUntil := time_zero |>
  end.

Definition resetSignalStream := closeSignalStreamLocked.

(** How the opening goes: the connection's part. *)
Record open_env := {
  oe_p2p : bool;
  oe_ctrl : bool;
  oe_open : option string;
  oe_write : option string }.

Definition ensureSignalStreamLocked (now : time) (env : open_env) (addr type : string) (c : SignalClient)
  : SignalClient * option sig_err :=
  match signalStream c with
  | Some _ => (c, None)
  | None =>
      if negb (bool_decide (signalDeadUntil c = time_zero)) && time_before now (signalDeadUntil c) then (c, Some Cooldown)
      else if negb (oe_p2p env) then (c, Some P2POff)
      else if negb (oe_ctrl env) then (c, Some NoCtrl)
      else match oe_open env with
      | Some e => (c, Some (OpenFailed e))
      | None =>
          let sid := fresh (dom (c_streams c)) in
          let c := c <| c_streams ::= <[sid := {| ss_out := []; ss_in := []; ss_answered := 0; ss_read := 0;
                                                  ss_reader := true |}]> |>
                     <| signalStream := Some sid |> <| signalDeadUntil := time_zero |> in
          match oe_write env with
          | Some e => (closeSignalStreamLocked c, Some (FirstWriteFailed e))
          | None => (write_out sid (register_message "" addr type) c, None)
          end
      end
  end.

Definition ensureSignalStream (now : time) (env : open_env) (nat : option (string * string)) (c : SignalClient)
  : SignalClient * option sig_err :=
  match signalSelfInfo nat with
  | None => (c, Some NoNAT)
  | Some (addr, type) => ensureSignalStreamLocked now env addr type c
  end.

(** ** The reader *)

(** [mgr]: a punch manager exists; [hook]: a push handler is set. *)
Definition dispatchSignalMessage (mgr hook : bool) (d : downlink) (c : SignalClient) : SignalClient :=
  let msg := down_msg d in
  if isResponseType (m_Type msg) then
    match signalPending c with
    | None => c
    | Some ch =>
        c <| signalPending := None |>
          <| c_slots ::= alter (λ o, match o with None => Some d | Some _ => o end) ch |>
    end
  else
    let c := if isPunchPushType (m_Type msg) && mgr then c <| c_punched ::= λ l, (l ++ [msg])%list |> else c in
    if hook then c <| c_hooked ::= λ l, (l ++ [msg])%list |> else c.

(** One turn of [signalReadLoop]. *)
Definition read_one (mgr hook : bool) (sid : positive) (c : SignalClient) : SignalClient :=
  match c_streams c !! sid with
  | None => c
  | Some s =>
      match ss_in s with
      | [] => c
      | d :: rest =>
          let s := s <| ss_in := rest |> in
          let s := match d with Reply _ _ => s <| ss_read ::= S |> | Unasked _ => s end in
          dispatchSignalMessage mgr hook d (c <| c_streams ::= <[sid := s]> |>)
      end
  end.

(** The end of the reader when the stream breaks or the server closes it. *)
Definition reader_exit (now : time) (sid : positive) (c : SignalClient) : SignalClient :=
  let c := c <| c_streams ::= alter (λ s, s <| ss_reader := false |>) sid |> in
  if bool_decide (signalStream c = Some sid)
  then c <| signalStream := None |> <| signalDeadUntil := time_add now signalReopenCooldown |>
  else c.

(** ** Requests *)

(** A request that waits: its channel, its stream; the last two are bookkeeping
    of the model: its place among what was written to the stream, and how many
    answers to what was written before it had not been read by then. *)
Record waiting := { x_slot : positive; x_stream : positive; x_index : nat; x_lag : nat }.

(** [signalExchange] up to its wait. *)
Definition exchange_begin (write : option string) (msg : signalMessage) (c : SignalClient)
  : SignalClient * (waiting + sig_err) :=
  match signalStream c ≫= λ sid, (λ s, (sid, s)) <$> c_streams c !! sid with
  | None => (c, inr NoStream)
  | Some (sid, s) =>
      let ch := fresh (dom (c_slots c)) in
      let c := c <| c_slots ::= <[ch := None]> |> <| signalPending := Some ch |> in
      match write with
      | Some e => (resetSignalStream c, inr (WriteFailed e))
      | None =>
          (write_out sid msg c,
           inl {| x_slot := ch; x_stream := sid; x_index := length (ss_out s);
                  x_lag := length (ss_out s) - ss_read s |})
      end
  end.

(** What ends the wait. *)
Inductive wake := Got | Timeout | GenClosed | CtrlDone | CtxDone (e : string).

Definition err_string (text : SignalErr → string) (e : option errText) : string :=
  match e with Some (Reason s) => s | Some (Refused e) => text e | None => "" end.

Definition clear_pending (ch : positive) (c : SignalClient) : SignalClient :=
  if bool_decide (signalPending c = Some ch) then c <| signalPending := None |> else c.

(** The rest of [signalExchange], its deferred part included; [None]: this case of
    the [select] is not ready. *)
Definition exchange_end (text : SignalErr → string) (ev : wake) (x : waiting) (c : SignalClient)
  : option (SignalClient * (signalMessage + sig_err)) :=
  match ev with
  | Got =>
      match c_slots c !! x_slot x with
      | Some (Some d) =>
          let resp := down_msg d in
          Some (clear_pending (x_slot x) c,
                if bool_decide (m_Type resp = signalMsgTypeError)
                then inr (ServerRefused (err_string text (m_Error resp))) else inl resp)
      | _ => None
      end
  | Timeout => Some (clear_pending (x_slot x) (resetSignalStream c), inr ExchangeTimeout)
  | GenClosed =>
      match c_streams c !! x_stream x with
      | Some s => if ss_reader s then None else Some (clear_pending (x_slot x) c, inr StreamClosed)
      | None => None
      end
  | CtrlDone => Some (clear_pending (x_slot x) c, inr ConnClosed)
  | CtxDone e => Some (clear_pending (x_slot x) c, inr (CtxErr e))
  end.

(** ** What the callers make of an exchange *)

Record SignalPeer := {
  sp_VIP : string; sp_Online : bool; sp_PublicAddr : string; sp_NATType : string; sp_Metadata : string;
  sp_SignalReady : bool; sp_RelayRTTMs : Z }.

(** The request of [SignalQuery], or why it is not sent. *)
Definition query_request (p2p : bool) (nat : option (string * string)) (peerVIP : string)
  : signalMessage + sig_err :=
  if negb p2p then inr P2POff
  else let peerVIP := TrimSpace peerVIP in
  if bool_decide (peerVIP = "") then inr EmptyPeer
  else match signalSelfInfo nat with
  | None => inr NoSelf
  | Some (addr, type) => inl (register_message peerVIP addr type)
  end.

Definition query_result (peerVIP : string) (r : signalMessage + sig_err) : SignalPeer + sig_err :=
  match r with
  | inr e => inr e
  | inl resp => inl {| sp_VIP := TrimSpace peerVIP; sp_Online := m_PeerOnline resp;
      sp_PublicAddr := m_PeerPublicAddr resp; sp_NATType := m_PeerNATType resp;
      sp_Metadata := m_PeerMetadata resp; sp_SignalReady := m_PeerSignalReady resp;
      sp_RelayRTTMs := m_RelayRttMs resp |}
  end.

Inductive peers_err := PeersUnsupported | PeersRateLimited | PeersOther (e : sig_err).

(** [PeersQuery] before the exchange: [None] when the exchange is made. *)
Definition peers_begin (p2p : bool) (c : SignalClient) : option peers_err :=
  if negb p2p then Some (PeersOther P2POff)
  else if peersUnsupported c then Some PeersUnsupported else None.

Definition peers_result (r : signalMessage + sig_err) (c : SignalClient)
  : SignalClient * (list SignalPeerEntry * bool + peers_err) :=
  match r with
  | inl resp => (c, inl (m_Peers resp, m_PeersTruncated resp))
  | inr e =>
      if str_contains (sig_err_text e) "unknown message type"
      then (c <| peersUnsupported := true |>, inr PeersUnsupported)
      else if str_contains (sig_err_text e) peersRateLimitedCode then (c, inr PeersRateLimited)
      else (c, inr (PeersOther e))
  end.

(** ** Runs: the client's goroutines, the server, the network *)

Section runs.
Context (deliver : positive → signalMessage → bool) (rtt : clientStream → Z) (cs : clientStream).

(** A message the server can answer to a request, or push. *)
Definition answers (req m : signalMessage) : Prop :=
  ∃ now sv, m = (serve deliver rtt now (Some cs) req sv).2.
Definition pushed (m : signalMessage) : Prop := ∃ vip sv, (PushSignal deliver vip m sv).2 = true.

(** Requests are serialised by [signalReqMu]: at most one is under way, between
    the check of the stream and its exchange, or waiting. *)
Inductive phase := Idle | Ready (msg : signalMessage) | Waiting (msg : signalMessage) (x : waiting).

(** The log has the requests that got a message. *)
Record world := mk_world {
  w_c : SignalClient;
  w_phase : phase;
  w_log : list (signalMessage * waiting * downlink) }.

Definition world0 : world := mk_world new_client Idle [].

Inductive sig_step : world → world → Prop :=
  | s_ensure now env nat msg c c' l :
      ensureSignalStream now env nat c = (c', None) →
      sig_step (mk_world c Idle l) (mk_world c' (Ready msg) l)
  | s_ensure_fails now env nat c c' e l :
      ensureSignalStream now env nat c = (c', Some e) → sig_step (mk_world c Idle l) (mk_world c' Idle l)
  | s_begin write msg c c' x l :
      exchange_begin write msg c = (c', inl x) →
      sig_step (mk_world c (Ready msg) l) (mk_world c' (Waiting msg x) l)
  | s_begin_fails write msg c c' e l :
      exchange_begin write msg c = (c', inr e) → sig_step (mk_world c (Ready msg) l) (mk_world c' Idle l)
  | s_got text msg x c c' d r l :
      c_slots c !! x_slot x = Some (Some d) → exchange_end text Got x c = Some (c', r) →
      sig_step (mk_world c (Waiting msg x) l) (mk_world c' Idle (l ++ [(msg, x, d)])%list)
  | s_gave_up text ev msg x c c' r l :
      ev ≠ Got → exchange_end text ev x c = Some (c', r) →
      sig_step (mk_world c (Waiting msg x) l) (mk_world c' Idle l)
  | s_read mgr hook sid s c p l :
      c_streams c !! sid = Some s → ss_reader s = true →
      sig_step (mk_world c p l) (mk_world (read_one mgr hook sid c) p l)
  | s_exit now sid s c p l :
      c_streams c !! sid = Some s → ss_reader s = true →
      sig_step (mk_world c p l) (mk_world (reader_exit now sid c) p l)
  | s_close c p l : sig_step (mk_world c p l) (mk_world (closeSignalStreamLocked c) p l)
  | s_answer sid s req m c p l :
      c_streams c !! sid = Some s → ss_out s !! ss_answered s = Some req → answers req m →
      sig_step (mk_world c p l)
        (mk_world (c <| c_streams ::= <[sid := s <| ss_in ::= λ q, (q ++ [Reply (ss_answered s) m])%list |>
                                                 <| ss_answered ::= S |>]> |>) p l)
  | s_push sid s m c p l :
      c_streams c !! sid = Some s → pushed m →
      sig_step (mk_world c p l)
        (mk_world (c <| c_streams ::= <[sid := s <| ss_in ::= λ q, (q ++ [Unasked m])%list |>]> |>) p l).

(** ** What the server sends has the types the dispatch goes by *)

Lemma reply_type now msg s : isResponseType (m_Type (signalReply rtt now (Some cs) msg s).2) = true.
Proof.
  unfold signalReply. case_bool_decide; [done|]. destruct (negb (p2pOn s)); [done|].
  destruct (sv_signalReg s) as [reg|]; [|done]. destruct (Get now (cs_vip cs) reg) as [reg1 prev].
  destruct (Update now (cs_vip cs) _ _ _ reg1) as [reg2 [e|]]; [done|]. cbv zeta.
  case_bool_decide; [done|]. destruct (online _ s); [|done].
  by destruct (Get now (TrimSpace (m_PeerVIP msg)) reg2) as [reg3 [peer|]].
Qed.

Lemma answer_type req m : answers req m → isResponseType (m_Type m) = true.
Proof.
  intros (now & sv & ->). unfold serve, handleSignalRegister.
  repeat (case_bool_decide; [try apply reply_type|]); try done.
  - unfold handlePunchIntent. repeat (case_match; cbn [snd]; try done; try apply reply_type).
  - unfold handlePunchReady. repeat (case_match; cbn [snd]; try done; try apply reply_type).
  - unfold handleSignalPeers. by repeat (case_match; cbn [snd]; try done).
Qed.

Lemma push_type m : pushed m → isResponseType (m_Type m) = false.
Proof.
  intros (vip & sv & H). unfold PushSignal in H. destruct (negb (p2pOn sv)); [done|].
  destruct (isRequestOrResponseType (m_Type m)) eqn:E; [done|]. by apply orb_false_iff in E as [_ E].
Qed.

(** ** The invariant *)

Definition tag (d : downlink) : option nat := match d with Reply i _ => Some i | Unasked _ => None end.

Definition down_ok (s : sigstream) (d : downlink) : Prop :=
  match d with
  | Reply i m => ∃ req, ss_out s !! i = Some req ∧ answers req m
  | Unasked m => isResponseType (m_Type m) = false
  end.

Record stream_ok (s : sigstream) : Prop := {
  so_tags : omap tag (ss_in s) = seq (ss_read s) (ss_answered s - ss_read s);
  so_read : (ss_read s <= ss_answered s <= length (ss_out s))%nat;
  so_down : Forall (down_ok s) (ss_in s) }.

(** What a waiting or answered request holds: its own request and, in its
    channel, the answer to the one [x_lag] before it. *)
Definition right_reply (c : SignalClient) (x : waiting) (d : downlink) : Prop :=
  ∃ s m req, c_streams c !! x_stream x = Some s ∧ (x_lag x <= x_index x)%nat ∧
    d = Reply (x_index x - x_lag x) m ∧ ss_out s !! (x_index x - x_lag x)%nat = Some req ∧ answers req m.

Definition own_request (c : SignalClient) (msg : signalMessage) (x : waiting) : Prop :=
  ∃ s, c_streams c !! x_stream x = Some s ∧ ss_out s !! x_index x = Some msg.

Definition wait_ok (c : SignalClient) (msg : signalMessage) (x : waiting) : Prop :=
  own_request c msg x ∧ (∀ sid, signalStream c = Some sid → sid = x_stream x) ∧
  ∃ o, c_slots c !! x_slot x = Some o ∧
    match o with
    | Some d => right_reply c x d
    | None => signalPending c = Some (x_slot x) →
        ∃ s, c_streams c !! x_stream x = Some s ∧ (ss_read s + x_lag x = x_index x)%nat
    end.

Record cwf (c : SignalClient) : Prop := mk_cwf {
  cwf_streams : map_Forall (λ _, stream_ok) (c_streams c);
  cwf_reader : map_Forall (λ sid s, ss_reader s = true → signalStream c = Some sid) (c_streams c);
  cwf_current : ∀ sid, signalStream c = Some sid → is_Some (c_streams c !! sid) }.

(** Streams and channels stay, and what was written stays written. *)
Definition extends (c c' : SignalClient) : Prop :=
  (∀ sid s, c_streams c !! sid = Some s → ∃ s', c_streams c' !! sid = Some s' ∧ ss_out s `prefix_of` ss_out s') ∧
  (∀ ch, is_Some (c_slots c !! ch) → is_Some (c_slots c' !! ch)).

Lemma own_extends c c' msg x : extends c c' → own_request c msg x → own_request c' msg x.
Proof.
  intros [He _] (s & Hs & Ho). destruct (He _ _ Hs) as (s' & Hs' & Hp). exists s'. split; [done|].
  by apply (prefix_lookup_Some _ _ _ _ Ho).
Qed.

Lemma right_extends c c' x d : extends c c' → right_reply c x d → right_reply c' x d.
Proof.
  intros [He _] (s & m & req & Hs & Hl & -> & Ho & Ha). destruct (He _ _ Hs) as (s' & Hs' & Hp).
  exists s', m, req. split_and!; try done. by apply (prefix_lookup_Some _ _ _ _ Ho).
Qed.

Lemma extends_refl c : extends c c.
Proof. split; [|done]. intros sid s Hs. by exists s. Qed.

Lemma extends_trans c1 c2 c3 : extends c1 c2 → extends c2 c3 → extends c1 c3.
Proof.
  intros [H1 S1] [H2 S2]. split; [|auto]. intros sid s Hs. destruct (H1 _ _ Hs) as (s' & Hs' & P1).
  destruct (H2 _ _ Hs') as (s'' & Hs'' & P2). exists s''. split; [done|]. by transitivity (ss_out s').
Qed.

(** A client whose streams differ in one, which keeps what was written. *)
Lemma extends_stream c c' sid s s' :
  c_streams c !! sid = Some s → c_streams c' = <[sid := s']> (c_streams c) → ss_out s `prefix_of` ss_out s' →
  (∀ ch, is_Some (c_slots c !! ch) → is_Some (c_slots c' !! ch)) → extends c c'.
Proof.
  intros Hs E Hp Hslots. split; [|done]. intros sid2 s2 H2. rewrite E. destruct (decide (sid2 = sid)) as [->|Hne].
  - rewrite lookup_insert_eq. exists s'. by simplify_eq.
  - rewrite lookup_insert_ne by done. by exists s2.
Qed.

Lemma cwf_stream c c' sid s s' :
  cwf c → c_streams c !! sid = Some s → c_streams c' = <[sid := s']> (c_streams c) → signalStream c' = signalStream c →
  stream_ok s' → ss_reader s' = ss_reader s → cwf c'.
Proof.
  intros [Hst Hr Hc] Hs E Ec Hok Er. split; rewrite ?E, ?Ec.
  - by apply map_Forall_insert_2.
  - apply map_Forall_insert_2; [|done]. rewrite Er. by apply Hr.
  - intros sid2 [s2 H2]%Hc. destruct (decide (sid2 = sid)) as [->|Hne];
      [by rewrite lookup_insert_eq|by rewrite lookup_insert_ne, H2].
Qed.

Lemma down_ok_out s s' d : ss_out s `prefix_of` ss_out s' → down_ok s d → down_ok s' d.
Proof.
  intros Hp. destruct d as [i m|m]; [|done]. intros (req & Ho & Ha). exists req. split; [|done].
  by apply (prefix_lookup_Some _ _ _ _ Ho).
Qed.

(** *** Closing *)

Lemma close_streams c :
  c_streams (closeSignalStreamLocked c)
  = match signalStream c with
    | Some sid => alter (λ s, s <| ss_reader := false |>) sid (c_streams c)
    | None => c_streams c
    end.
Proof. unfold closeSignalStreamLocked. cbn. by destruct (signalStream c). Qed.

Lemma close_rest c :
  let c' := closeSignalStreamLocked c in
  signalStream c' = None ∧ signalPending c' = None ∧ c_slots c' = c_slots c ∧ peersUnsupported c' = false.
Proof. cbn. unfold closeSignalStreamLocked. cbn. by destruct (signalStream c) eqn:E; cbn. Qed.

(** Marking the reader of the current stream as gone. *)
Lemma unread_ok c c' sid :
  cwf c → signalStream c = Some sid → c_streams c' = alter (λ s, s <| ss_reader := false |>) sid (c_streams c) →
  signalStream c' = None → cwf c'.
Proof.
  intros [Hst Hr Hc] Hsid E Ec. split; rewrite ?E, ?Ec; [| |done].
  - intros i s. rewrite lookup_alter_Some. intros [(-> & s0 & H0 & ->)|[_ H]]; [|by eapply Hst].
    destruct (Hst _ _ H0) as [Ht Hre Hd]. by split.
  - intros i s. rewrite lookup_alter_Some. intros [(-> & s0 & H0 & ->)|[Hne H]]; [done|].
    intros Hre%(Hr i s H). congruence.
Qed.

Lemma extends_unread c c' sid :
  c_streams c' = alter (λ s, s <| ss_reader := false |>) sid (c_streams c) → c_slots c' = c_slots c → extends c c'.
Proof.
  intros E Es. split; [|by rewrite Es]. intros i s Hs. rewrite E. destruct (decide (i = sid)) as [->|Hne].
  - rewrite lookup_alter_eq, Hs. by eexists.
  - rewrite lookup_alter_ne by done. by exists s.
Qed.

Lemma close_ok c : cwf c → cwf (closeSignalStreamLocked c) ∧ extends c (closeSignalStreamLocked c).
Proof.
  intros H. pose proof (close_streams c) as E. destruct (close_rest c) as (En & _ & Es & _).
  destruct (signalStream c) as [sid|] eqn:Hsid.
  - split; [by eapply unread_ok|by eapply extends_unread].
  - split; [|split; [intros i s; rewrite E; eauto|by rewrite Es]]. destruct H as [H1 H2 H3].
    split; rewrite ?E, ?En; [done| |done]. intros i s Hi Hr. specialize (H2 i s Hi Hr). congruence.
Qed.

(** A wait is not disturbed by what leaves its channel alone and keeps its
    stream's count of answers read, or detaches the channel. *)
Lemma wait_frame c c' msg x :
  extends c c' → c_slots c' = c_slots c → (∀ sid, signalStream c' = Some sid → signalStream c = Some sid) →
  (signalPending c' = Some (x_slot x) → signalPending c = Some (x_slot x) ∧
     ∀ s, c_streams c !! x_stream x = Some s → ∃ s', c_streams c' !! x_stream x = Some s' ∧ ss_read s' = ss_read s) →
  wait_ok c msg x → wait_ok c' msg x.
Proof.
  intros He Es Hcur Hp (Ho & Hs & o & Hslot & Hcase). split; [by eapply own_extends|]. split; [by eauto|].
  exists o. rewrite Es. split; [done|]. destruct o as [d|]; [by eapply right_extends|].
  intros [Hp' Hread]%Hp. destruct (Hcase Hp') as (s & Hst & Hl). destruct (Hread s Hst) as (s' & Hs' & Er).
  exists s'. by rewrite Er.
Qed.

Lemma close_wait c msg x : cwf c → wait_ok c msg x → wait_ok (closeSignalStreamLocked c) msg x.
Proof.
  intros H. destruct (close_rest c) as (En & Ep & Es & _).
  apply wait_frame; [by apply close_ok|done|by rewrite En|by rewrite Ep].
Qed.

(** *** The reader *)

Lemma exit_streams now sid c :
  c_streams (reader_exit now sid c) = alter (λ s, s <| ss_reader := false |>) sid (c_streams c)
  ∧ c_slots (reader_exit now sid c) = c_slots c ∧ signalPending (reader_exit now sid c) = signalPending c.
Proof. unfold reader_exit. cbn. by case_bool_decide. Qed.

Lemma exit_ok now sid s c :
  cwf c → c_streams c !! sid = Some s → ss_reader s = true →
  cwf (reader_exit now sid c) ∧ extends c (reader_exit now sid c) ∧
  ∀ msg x, wait_ok c msg x → wait_ok (reader_exit now sid c) msg x.
Proof.
  intros H Hs Hr. pose proof (cwf_reader c H sid s Hs Hr) as Hsid. destruct (exit_streams now sid c) as (E & Es & Ep).
  assert (signalStream (reader_exit now sid c) = None) as En.
  { unfold reader_exit. cbn. by rewrite bool_decide_true. }
  pose proof (extends_unread c (reader_exit now sid c) sid E Es) as He.
  split; [by eapply unread_ok|]. split; [done|].
  intros msg x. apply wait_frame; [done|done|by rewrite En|]. rewrite Ep. intros Hp. split; [done|].
  intros s0 H0. rewrite E. destruct (decide (x_stream x = sid)) as [Ex|Hne];
    [rewrite Ex in *; rewrite lookup_alter_eq, H0; by eexists|rewrite lookup_alter_ne by done; by eexists].
Qed.

Lemma dispatch_frame mgr hook d c :
  let c' := dispatchSignalMessage mgr hook d c in
  c_streams c' = c_streams c ∧ signalStream c' = signalStream c ∧
  (isResponseType (m_Type (down_msg d)) = false → c_slots c' = c_slots c ∧ signalPending c' = signalPending c) ∧
  (isResponseType (m_Type (down_msg d)) = true → signalPending c' = None ∧
     c_slots c' = match signalPending c with
                  | Some ch => alter (λ o, match o with None => Some d | Some _ => o end) ch (c_slots c)
                  | None => c_slots c
                  end).
Proof.
  cbn. unfold dispatchSignalMessage. destruct (isResponseType _).
  - destruct (signalPending c) eqn:E; done.
  - by destruct (isPunchPushType _ && mgr), hook; cbn.
Qed.

Lemma sig_read_ok mgr hook sid s c :
  cwf c → c_streams c !! sid = Some s → ss_reader s = true →
  cwf (read_one mgr hook sid c) ∧ extends c (read_one mgr hook sid c) ∧
  ∀ msg x, wait_ok c msg x → wait_ok (read_one mgr hook sid c) msg x.
Proof.
  intros H Hs Hr. unfold read_one. rewrite Hs. pose proof (cwf_streams c H sid s Hs) as [Ht Hre Hd].
  destruct (ss_in s) as [|d rest] eqn:Ein; [by split_and!; try apply extends_refl|].
  cbv zeta. set (s1 := s <| ss_in := rest |>).
  set (s2 := match d with Reply _ _ => s1 <| ss_read ::= S |> | Unasked _ => s1 end).
  set (c1 := c <| c_streams ::= <[sid := s2]> |>).
  apply Forall_cons in Hd as [Hd Hrest]. pose proof (dispatch_frame mgr hook d c1) as (Est & Ecur & Hun & Hre2).
  set (c2 := dispatchSignalMessage mgr hook d c1) in *.
  assert (ss_out s2 = ss_out s ∧ ss_reader s2 = ss_reader s ∧ ss_in s2 = rest) as (Eo & Er & Ei)
    by (by destruct d).
  assert (stream_ok s2) as Hok.
  { split.
    - destruct d as [i m|m]; cbn in *; [|done]. destruct (ss_answered s - ss_read s)%nat eqn:En; [done|].
      injection Ht as -> ->. f_equal. lia.
    - destruct d as [i m|m]; cbn in *; [|done]. destruct (ss_answered s - ss_read s)%nat eqn:En; [done|]. lia.
    - rewrite Ei. eapply Forall_impl; [exact Hrest|]. intros e. apply down_ok_out. by rewrite Eo. }
  assert (∀ ch, is_Some (c_slots c !! ch) → is_Some (c_slots c2 !! ch)) as Hslots.
  { intros ch Hch. destruct (isResponseType (m_Type (down_msg d))) eqn:Et; [|by rewrite (proj1 (Hun eq_refl))].
    destruct (Hre2 eq_refl) as [_ ->]. cbn. destruct (signalPending c) as [ch'|]; [|done].
    by apply lookup_alter_is_Some. }
  assert (extends c c2) as He.
  { apply (extends_stream c c2 sid s s2 Hs); [by rewrite Est|by rewrite Eo|done]. }
  split; [eapply (cwf_stream c c2 sid s s2); by rewrite ?Est, ?Ecur, ?Er|]. split; [done|].
  intros msg x Hw. destruct (isResponseType (m_Type (down_msg d))) eqn:Et.
  2: { destruct (Hun eq_refl) as [Es Ep]. eapply wait_frame; [done|done|by rewrite Ecur| |done].
    rewrite Ep. intros Hp. split; [done|]. intros s0 H0. rewrite Est. cbn.
    destruct (decide (x_stream x = sid)) as [E|Hne].
    - rewrite E, lookup_insert_eq. exists s2. split; [done|]. rewrite E in H0. simplify_eq.
      destruct d as [i m|m]; [|done]. destruct Hd as (req & _ & Ha). apply answer_type in Ha. cbn in Et. congruence.
    - rewrite lookup_insert_ne by done. by exists s0. }
  destruct (Hre2 eq_refl) as [Ep Es]. cbn in Es. destruct Hw as (Ho & Hcur & o & Hslot & Hcase).
  split; [by eapply own_extends|]. split; [by rewrite Ecur|].
  destruct (decide (signalPending c = Some (x_slot x))) as [Hp|Hp].
  2: { exists o. split.
    - rewrite Es. destruct (signalPending c) as [ch|]; [|done]. rewrite lookup_alter_ne; [done|]. congruence.
    - destruct o as [d'|]; [by eapply right_extends|by rewrite Ep]. }
  rewrite Hp in Es. destruct o as [d'|].
  { exists (Some d'). rewrite Es, lookup_alter_eq, Hslot. split; [done|]. by eapply right_extends. }
  exists (Some d). rewrite Es, lookup_alter_eq, Hslot. split; [done|].
  destruct (Hcase Hp) as (s0 & H0 & Hlag).
  assert (sid = x_stream x) as -> by (apply Hcur; by apply (cwf_reader c H sid s)). simplify_eq.
  destruct d as [i m|m]; [|cbn in Et, Hd; congruence]. destruct Hd as (req & Hreq & Ha).
  assert (i = ss_read s) as ->.
  { cbn in Ht. destruct (ss_answered s - ss_read s)%nat; [done|]. by injection Ht. }
  assert (x_index x - x_lag x = ss_read s)%nat as Ei2 by lia.
  exists s2, m, req. rewrite Est. cbn [c1 c_streams]. rewrite Ei2, Eo. split_and!; try done; [|lia].
  cbn. by rewrite lookup_insert_eq.
Qed.

(** *** What comes from the other end *)

Lemma arrive_ok sid s s' c :
  let c' := c <| c_streams ::= <[sid := s']> |> in
  cwf c → c_streams c !! sid = Some s → stream_ok s' → ss_out s' = ss_out s → ss_read s' = ss_read s →
  ss_reader s' = ss_reader s → cwf c' ∧ extends c c' ∧ ∀ msg x, wait_ok c msg x → wait_ok c' msg x.
Proof.
  intros c' H Hs Hok Eo Erd Er. assert (extends c c') as He
    by (apply (extends_stream c c' sid s s' Hs); [done|by rewrite Eo|done]).
  split; [by apply (cwf_stream c c' sid s s')|]. split; [done|].
  intros msg x. apply wait_frame; [done..|]. intros Hp. split; [done|]. intros s0 H0. cbn.
  destruct (decide (x_stream x = sid)) as [E|Hne].
  - rewrite E in *. rewrite lookup_insert_eq. exists s'. by simplify_eq.
  - rewrite lookup_insert_ne by done. by exists s0.
Qed.

Lemma answer_stream_ok s req m :
  stream_ok s → ss_out s !! ss_answered s = Some req → answers req m →
  stream_ok (s <| ss_in ::= λ q, (q ++ [Reply (ss_answered s) m])%list |> <| ss_answered ::= S |>).
Proof.
  intros [Ht Hr Hd] Ho Ha. pose proof (lookup_lt_Some _ _ _ Ho). split; cbn.
  - rewrite omap_app, Ht. cbn. replace (S (ss_answered s) - ss_read s)%nat with (S (ss_answered s - ss_read s)) by lia.
    rewrite seq_S. f_equal. f_equal. lia.
  - lia.
  - apply Forall_app. split; [done|]. constructor; [|done]. by exists req.
Qed.

Lemma push_stream_ok s m : stream_ok s → pushed m → stream_ok (s <| ss_in ::= λ q, (q ++ [Unasked m])%list |>).
Proof.
  intros [Ht Hr Hd] Hp. split; cbn; [|done|].
  - by rewrite omap_app, Ht, app_nil_r.
  - apply Forall_app. split; [done|]. constructor; [|done]. by apply push_type.
Qed.

(** *** The client's requests *)

Lemma write_ok c sid s m :
  cwf c → c_streams c !! sid = Some s → cwf (write_out sid m c) ∧ extends c (write_out sid m c).
Proof.
  intros H Hs. pose proof (cwf_streams c H sid s Hs) as [Ht Hr Hd].
  assert (c_streams (write_out sid m c) = <[sid := s <| ss_out ::= λ l, (l ++ [m])%list |>]> (c_streams c)) as E.
  { unfold write_out. cbn. apply map_eq. intros i. destruct (decide (i = sid)) as [->|Hne].
    - by rewrite lookup_alter_eq, lookup_insert_eq, Hs.
    - by rewrite lookup_alter_ne, lookup_insert_ne. }
  split.
  - apply (cwf_stream c _ sid s _ H Hs E); [done| |done]. split; cbn; [done| |].
    + rewrite length_app. lia.
    + eapply Forall_impl; [exact Hd|]. intros d. apply down_ok_out. by apply prefix_app_r.
  - apply (extends_stream c _ sid s _ Hs E); [by apply prefix_app_r|done].
Qed.

Definition empty_stream : sigstream :=
  {| ss_out := []; ss_in := []; ss_answered := 0; ss_read := 0; ss_reader := true |}.

Lemma open_ok c c1 sid :
  cwf c → signalStream c = None → c_streams c !! sid = None → c_streams c1 = <[sid := empty_stream]> (c_streams c) →
  signalStream c1 = Some sid → c_slots c1 = c_slots c → cwf c1 ∧ extends c c1.
Proof.
  intros H Hn Hf E Ec Es. split.
  - split; rewrite ?E, ?Ec.
    + apply map_Forall_insert_2; [|apply H]. split; cbn; [done|lia|constructor].
    + apply map_Forall_insert_2; [done|]. intros i s Hi Hr. pose proof (cwf_reader c H i s Hi Hr). congruence.
    + intros i [= <-]. by rewrite lookup_insert_eq.
  - split; [|by rewrite Es]. intros i s Hi. exists s. rewrite E, lookup_insert_ne by congruence. done.
Qed.

Lemma ensure_ok now env nat c :
  cwf c → let '(c', e) := ensureSignalStream now env nat c in cwf c' ∧ extends c c'.
Proof.
  intros H. unfold ensureSignalStream. destruct (signalSelfInfo nat) as [[addr type]|]; [|by split; [|apply extends_refl]].
  unfold ensureSignalStreamLocked. destruct (signalStream c) as [sid|] eqn:Hc; [by split; [|apply extends_refl]|].
  destruct (_ && _); [by split; [|apply extends_refl]|]. destruct (negb (oe_p2p env)); [by split; [|apply extends_refl]|].
  destruct (negb (oe_ctrl env)); [by split; [|apply extends_refl]|].
  destruct (oe_open env) as [e|]; [by split; [|apply extends_refl]|]. cbv zeta.
  set (sid := fresh (dom (c_streams c))).
  set (c1 := c <| c_streams ::= _ |> <| signalStream := _ |> <| signalDeadUntil := _ |>).
  assert (c_streams c !! sid = None) as Hf by (apply not_elem_of_dom, is_fresh).
  destruct (open_ok c c1 sid H Hc Hf eq_refl eq_refl eq_refl) as [H1 E1].
  destruct (oe_write env) as [e|].
  - destruct (close_ok c1 H1) as [H2 E2]. split; [done|by eapply extends_trans].
  - destruct (write_ok c1 sid empty_stream (register_message "" addr type) H1 ltac:(apply lookup_insert_eq)) as [H2 E2].
    split; [done|by eapply extends_trans].
Qed.

Lemma slot_ok c :
  let ch := fresh (dom (c_slots c)) in
  let c1 := c <| c_slots ::= <[ch := None]> |> <| signalPending := Some ch |> in
  cwf c → c_slots c !! ch = None ∧ cwf c1 ∧ extends c c1.
Proof.
  intros ch c1 H. assert (c_slots c !! ch = None) as Hf by (apply not_elem_of_dom, is_fresh).
  split; [done|]. split; [by destruct H; split|]. split; [intros i s Hi; by exists s|].
  intros i. cbn. intros Hi. by apply lookup_insert_is_Some'; right.
Qed.

Lemma begin_ok write msg c :
  cwf c →
  let '(c', r) := exchange_begin write msg c in
  cwf c' ∧ extends c c' ∧ match r with inl x => wait_ok c' msg x | inr _ => True end.
Proof.
  intros H. unfold exchange_begin. destruct (signalStream c) as [sid|] eqn:Hc; cbn [mbind option_bind];
    [|split_and!; [done|apply extends_refl|done]].
  destruct (c_streams c !! sid) as [s|] eqn:Hs; cbn [fmap option_fmap option_map];
    [|split_and!; [done|apply extends_refl|done]].
  destruct (slot_ok c H) as (Hf & H1 & E1). set (ch := fresh (dom (c_slots c))) in *.
  set (c1 := c <| c_slots ::= _ |> <| signalPending := _ |>) in *. destruct write as [e|].
  { destruct (close_ok c1 H1) as [H2 E2]. split_and!; [done|by eapply extends_trans|done]. }
  destruct (write_ok c1 sid s msg H1 Hs) as [H2 E2]. split; [done|]. split; [by eapply extends_trans|].
  pose proof (cwf_streams c H sid s Hs) as [_ Hr _].
  set (c2 := write_out sid msg c1) in *.
  assert (c_streams c2 !! sid = Some (s <| ss_out ::= λ l, (l ++ [msg])%list |>)) as Hs2.
  { unfold c2, write_out. cbn. by rewrite lookup_alter_eq, Hs. }
  split; [|split].
  - eexists. split; [exact Hs2|]. cbn. by rewrite lookup_app_r, Nat.sub_diag by lia.
  - cbn. congruence.
  - exists None. cbn [x_slot x_stream x_lag x_index]. split; [by cbn; rewrite lookup_insert_eq|]. intros _.
    eexists. split; [exact Hs2|]. cbn. lia.
Qed.

Lemma clear_ok ch c : cwf c → cwf (clear_pending ch c) ∧ extends c (clear_pending ch c).
Proof.
  intros H. unfold clear_pending. case_bool_decide; [|by split; [|apply extends_refl]].
  split; [by destruct H; split|]. split; [intros i s Hi; by exists s|done].
Qed.

Lemma sig_end_ok text ev x c c' r : cwf c → exchange_end text ev x c = Some (c', r) → cwf c' ∧ extends c c'.
Proof.
  intros H E. pose proof (clear_ok (x_slot x) c H) as Hclear. destruct ev; cbn in E.
  - destruct (c_slots c !! x_slot x) as [[d|]|]; [|done..]. by injection E as <- <-.
  - injection E as <- <-. destruct (close_ok c H) as [H1 E1].
    destruct (clear_ok (x_slot x) _ H1) as [H2 E2]. split; [done|by eapply extends_trans].
  - destruct (c_streams c !! x_stream x) as [s|]; [|done]. destruct (ss_reader s); [done|]. by injection E as <- <-.
  - by injection E as <- <-.
  - by injection E as <- <-.
Qed.

(** *** Runs *)

Definition phase_ok (w : world) : Prop :=
  match w_phase w with Waiting msg x => wait_ok (w_c w) msg x | _ => True end.

Definition entry_ok (c : SignalClient) (e : signalMessage * waiting * downlink) : Prop :=
  let '(msg, x, d) := e in own_request c msg x ∧ right_reply c x d.

Lemma entry_extends c c' e : extends c c' → entry_ok c e → entry_ok c' e.
Proof.
  intros He. destruct e as [[msg x] d]. intros [? ?]. split; [by eapply own_extends|by eapply right_extends].
Qed.

Definition world_ok (w : world) : Prop := cwf (w_c w) ∧ phase_ok w ∧ Forall (entry_ok (w_c w)) (w_log w).

(** A step that leaves the log alone. *)
Lemma world_next c c' p' l :
  Forall (entry_ok c) l → cwf c' → extends c c' → phase_ok (mk_world c' p' l) →
  world_ok (mk_world c' p' l) ∧ extends c c'.
Proof.
  intros Hl Hc He Hp. split; [|done]. split_and!; [done..|]. eapply Forall_impl; [exact Hl|].
  intros e. by apply entry_extends.
Qed.

(** One that any phase survives. *)
Lemma world_aside c c' p l :
  cwf c' ∧ extends c c' ∧ (∀ msg x, wait_ok c msg x → wait_ok c' msg x) →
  Forall (entry_ok c) l → phase_ok (mk_world c p l) → world_ok (mk_world c' p l) ∧ extends c c'.
Proof.
  intros (Hc & He & Hw) Hl Hp. apply world_next; [done..|]. destruct p; [done..|]. by apply Hw.
Qed.

Lemma sig_step_ok w w' : sig_step w w' → world_ok w → world_ok w' ∧ extends (w_c w) (w_c w').
Proof.
  intros Hstep (Hc & Hp & Hl). destruct Hstep; cbn in Hc, Hp, Hl; cbn [w_c].
  - pose proof (ensure_ok now env nat c Hc) as He. rewrite H in He. destruct He. by apply world_next.
  - pose proof (ensure_ok now env nat c Hc) as He. rewrite H in He. destruct He. by apply world_next.
  - pose proof (begin_ok write msg c Hc) as Hb. rewrite H in Hb. destruct Hb as (? & ? & ?). by apply world_next.
  - pose proof (begin_ok write msg c Hc) as Hb. rewrite H in Hb. destruct Hb as (? & ? & _). by apply world_next.
  - destruct (sig_end_ok _ _ _ _ _ _ Hc H0) as [Hc' He]. split; [|done]. split_and!; [done|done|].
    apply Forall_app. split.
    + eapply Forall_impl; [exact Hl|]. intros e. by apply entry_extends.
    + apply Forall_singleton, (entry_extends c); [done|]. destruct Hp as (Ho & _ & o & Hslot & Hcase).
      rewrite Hslot in H. injection H as ->. by split.
  - destruct (sig_end_ok _ _ _ _ _ _ Hc H0) as [Hc' He]. by apply world_next.
  - by apply world_aside; [eapply sig_read_ok|..].
  - by apply world_aside; [eapply exit_ok|..].
  - destruct (close_ok c Hc) as (Hc' & He). apply world_aside; [|done..]. split_and!; [done..|].
    intros. by apply close_wait.
  - apply world_aside; [|done..]. eapply arrive_ok; try done.
    eapply answer_stream_ok; [by apply (cwf_streams c Hc sid)|done|done].
  - apply world_aside; [|done..]. eapply arrive_ok; try done.
    apply push_stream_ok; [by apply (cwf_streams c Hc sid)|done].
Qed.

Lemma sig_run_ok w w' : rtc sig_step w w' → world_ok w → world_ok w' ∧ extends (w_c w) (w_c w').
Proof.
  induction 1 as [|w w1 w2 Hs _ IH]; [by split; [|apply extends_refl]|]. intros H.
  destruct (sig_step_ok w w1 Hs H) as [H1 E1]. destruct (IH H1) as [H2 E2].
  split; [done|by eapply extends_trans].
Qed.

Lemma world0_ok : world_ok world0.
Proof.
  split; [|split; [done|by constructor]]. split; [apply map_Forall_empty..|done].
Qed.

Lemma logged w msg x d :
  rtc sig_step world0 w → (msg, x, d) ∈ w_log w → own_request (w_c w) msg x ∧ right_reply (w_c w) x d.
Proof.
  intros Hrun Hin. destruct (sig_run_ok _ _ Hrun world0_ok) as [(_ & _ & Hl) _].
  rewrite Forall_forall in Hl. by apply (Hl _ Hin).
Qed.

(** C33: An answer reaches a request exactly as far off as answers were outstanding.
    Whatever the server, the network, the pushes and the user do in between, a
    request that gets a message gets no push, but the server's answer to the
    request written [x_lag] places before it on its stream, [x_lag] being the
    number of answers that had not been read when it began to wait. So it gets its
    own answer exactly when none was. *)
Theorem answers_lag w msg x d :
  rtc sig_step world0 w → (msg, x, d) ∈ w_log w →
  ∃ s m req, c_streams (w_c w) !! x_stream x = Some s ∧ ss_out s !! x_index x = Some msg ∧
    (x_lag x <= x_index x)%nat ∧ d = Reply (x_index x - x_lag x) m ∧
    ss_out s !! (x_index x - x_lag x)%nat = Some req ∧ answers req m.
Proof.
  intros Hrun Hin. destruct (logged w msg x d Hrun Hin) as ((s1 & Hs1 & Ho) & (s & m & req & Hs & ? & ? & ? & ?)).
  simplify_eq. exists s1, m, req. by split_and!.
Qed.

Lemma register_answer addr type m :
  answers (register_message "" addr type) m → m_PeerOnline m = false ∧ m_Peers m = [].
Proof.
  intros (now & sv & ->). unfold serve. rewrite bool_decide_true by done.
  unfold handleSignalRegister, signalReply. case_bool_decide; [done|]. destruct (negb (p2pOn sv)); [done|].
  destruct (sv_signalReg sv) as [reg|]; [|done]. destruct (Get now (cs_vip cs) reg) as [reg1 prev].
  by destruct (Update now (cs_vip cs) _ _ _ reg1) as [reg2 [e|]].
Qed.

Lemma ensure_opens now env nat c c1 :
  signalStream c = None → ensureSignalStream now env nat c = (c1, None) →
  ∃ sid addr type s, signalStream c1 = Some sid ∧ c_streams c1 !! sid = Some s ∧
    ss_out s = [register_message "" addr type] ∧ ss_read s = 0%nat.
Proof.
  intros Hn. unfold ensureSignalStream. destruct (signalSelfInfo nat) as [[addr type]|]; [|done].
  unfold ensureSignalStreamLocked. rewrite Hn. destruct (_ && _); [done|]. destruct (negb (oe_p2p env)); [done|].
  destruct (negb (oe_ctrl env)); [done|]. destruct (oe_open env) as [e|]; [done|]. cbv zeta.
  destruct (oe_write env) as [e|]; [done|]. intros [= <-].
  eexists _, addr, type, _. split; [done|]. cbn. rewrite lookup_alter_eq, lookup_insert_eq. by split_and!.
Qed.

Lemma begin_fresh c c' msg x sid s :
  signalStream c = Some sid → c_streams c !! sid = Some s → exchange_begin None msg c = (c', inl x) →
  x_stream x = sid ∧ x_index x = length (ss_out s) ∧ x_lag x = (length (ss_out s) - ss_read s)%nat ∧
  ∃ s', c_streams c' !! sid = Some s' ∧ ss_out s `prefix_of` ss_out s'.
Proof.
  intros Hc Hs. unfold exchange_begin. rewrite Hc. cbn [mbind option_bind]. rewrite Hs. cbn [fmap option_fmap option_map].
  intros [= <- <-]. split_and!; [done..|]. cbn. rewrite lookup_alter_eq, Hs. eexists. split; [done|]. by apply prefix_app_r.
Qed.

(** The first request on a new stream is answered with somebody else's answer.
    The client opens a stream by writing a registration it does not wait for, and
    the request that caused the opening then waits with the answer to that
    registration still to come: the message it gets, if it gets one, is that
    answer. A query so learns that its peer is not on line, an enumeration that
    there are no peers, whatever the truth is. *)
Theorem first_request_misanswered w now env nat c1 msg c2 x w' d :
  rtc sig_step world0 w → w_phase w = Idle → signalStream (w_c w) = None →
  ensureSignalStream now env nat (w_c w) = (c1, None) → exchange_begin None msg c1 = (c2, inl x) →
  rtc sig_step (mk_world c2 (Waiting msg x) (w_log w)) w' → (msg, x, d) ∈ w_log w' →
  m_PeerOnline (down_msg d) = false ∧ m_Peers (down_msg d) = [].
Proof.
  intros Hrun Hidle Hn He Hb Hrun' Hin. destruct w as [c p l]. cbn in *. subst p.
  assert (rtc sig_step world0 (mk_world c2 (Waiting msg x) l)) as Hr2.
  { eapply rtc_r; [eapply rtc_r; [exact Hrun|]|]; [by eapply s_ensure|by eapply s_begin]. }
  destruct (ensure_opens _ _ _ _ _ Hn He) as (sid & addr & type & s & Hsid & Hs & Ho & Hrd).
  destruct (begin_fresh _ _ _ _ _ _ Hsid Hs Hb) as (Ex & Ei & El & s2 & Hs2 & Hp). rewrite Ho, ?Hrd in *.
  destruct (sig_run_ok _ _ Hrun' (proj1 (sig_run_ok _ _ Hr2 world0_ok))) as [_ [Hext _]].
  destruct (Hext _ _ Hs2) as (s3 & Hs3 & Hp3). cbn in Ei, El.
  destruct (logged w' msg x d) as (_ & s' & m & req & Hs' & _ & -> & Hreq & Ha); [by etransitivity|done|].
  rewrite Ex, Ei, El in *. simplify_eq. cbn [Nat.sub] in Hreq.
  assert (req = register_message "" addr type) as ->.
  { pose proof (prefix_lookup_Some [register_message "" addr type] _ 0 _ eq_refl (transitivity Hp Hp3)). congruence. }
  by apply (register_answer addr type).
Qed.
End runs.

(** ** Concrete runs *)

Definition demo_env : open_env := {| oe_p2p := true; oe_ctrl := true; oe_open := None; oe_write := None |}.
Definition demo_nat : option (string * string) := Some ("9.9.9.9:1000", "").
Definition demo_cs : clientStream := {| cs_vip := "10.0.0.2"; cs_conn := 1%positive |}.
Definition demo_query : signalMessage := register_message "10.0.0.3" "9.9.9.9:1000" "unknown".

Definition demo_server : server := {|
  sv_p2pEnabled := true; sv_signalReg := Some (NewSignalRegistry 0); sv_punch := Some newPunchTable;
  sv_conns := ∅; sv_peersRate := ∅; sv_pushed := [] |}.

Definition no_deliver (sink : positive) (m : signalMessage) : bool := false.
Definition no_rtt (cs : clientStream) : Z := 0.

(** A query opens the stream; the server answers the registration that opened it,
    the client reads that. *)
Definition demo_opened : SignalClient := (ensureSignalStream 0 demo_env demo_nat new_client).1.
Definition demo_begun := exchange_begin None demo_query demo_opened.
Definition demo_wait : waiting :=
  match demo_begun.2 with
  | inl x => x
  | inr _ => {| x_slot := 1%positive; x_stream := 1%positive; x_index := 0; x_lag := 0 |}
  end.
Definition demo_stream : sigstream := default empty_stream (c_streams demo_begun.1 !! x_stream demo_wait).
Definition demo_registered : signalMessage :=
  (serve no_deliver no_rtt 0 (Some demo_cs) (register_message "" "9.9.9.9:1000" "unknown") demo_server).2.
Definition demo_answered : SignalClient :=
  demo_begun.1 <| c_streams ::= <[x_stream demo_wait :=
    demo_stream <| ss_in ::= λ q, (q ++ [Reply (ss_answered demo_stream) demo_registered])%list |>
                <| ss_answered ::= S |>]> |>.
Definition demo_read : SignalClient := read_one false false (x_stream demo_wait) demo_answered.
Definition demo_end : world :=
  mk_world (clear_pending (x_slot demo_wait) demo_read) Idle [(demo_query, demo_wait, Reply 0 demo_registered)].

Lemma demo_opens : ensureSignalStream 0 demo_env demo_nat new_client = (demo_opened, None).
Proof. vm_compute. reflexivity. Qed.

Lemma demo_begins : exchange_begin None demo_query demo_opened = (demo_begun.1, inl demo_wait).
Proof. vm_compute. reflexivity. Qed.

Lemma demo_run_end :
  rtc (sig_step no_deliver no_rtt demo_cs) (mk_world demo_begun.1 (Waiting demo_query demo_wait) []) demo_end.
Proof.
  eapply rtc_l; [eapply (s_answer _ _ _ (x_stream demo_wait) demo_stream)|].
  - vm_compute. reflexivity.
  - vm_compute. reflexivity.
  - by exists 0, demo_server.
  - eapply rtc_l; [eapply (s_read _ _ _ false false (x_stream demo_wait))|].
    + vm_compute. reflexivity.
    + reflexivity.
    + eapply rtc_l; [eapply (s_got _ _ _ (λ _, "") demo_query demo_wait _ _ (Reply 0 demo_registered))|];
        [vm_compute; reflexivity..|]. apply rtc_refl.
Qed.

Lemma demo_run_all : rtc (sig_step no_deliver no_rtt demo_cs) world0 demo_end.
Proof.
  eapply rtc_l; [eapply s_ensure, demo_opens|]. eapply rtc_l; [eapply s_begin, demo_begins|]. exact demo_run_end.
Qed.

Lemma answers_lag_witness :
  ∃ m req, x_lag demo_wait = 1%nat ∧ Reply 0 demo_registered = Reply (x_index demo_wait - x_lag demo_wait) m ∧
    answers no_deliver no_rtt demo_cs req m.
Proof.
  destruct (answers_lag no_deliver no_rtt demo_cs demo_end demo_query demo_wait (Reply 0 demo_registered))
    as (s & m & req & _ & _ & _ & E & _ & Ha); [exact demo_run_all|by left|].
  exists m, req. split; [vm_compute; reflexivity|]. by split.
Defined.

Lemma first_request_misanswered_witness :
  m_PeerOnline demo_registered = false ∧ m_Peers demo_registered = [].
Proof.
  apply (first_request_misanswered no_deliver no_rtt demo_cs world0 0 demo_env demo_nat demo_opened demo_query
           demo_begun.1 demo_wait demo_end (Reply 0 demo_registered)).
  - apply rtc_refl.
  - reflexivity.
  - reflexivity.
  - exact demo_opens.
  - exact demo_begins.
  - exact demo_run_end.
  - by left.
Defined.
