(* ===== verification/QuicDC.v ===== *)
(** * The congestion controller of the game plane
    ([vpn-tool/backend/quic/congestion/owqd.go], [quicdc.go]; the copies of
    [vpn-server/quic/congestion] differ in the loss factor)

    [OWQDEstimator] guesses the queueing delay from round-trip samples,
    [QUICDCController] is the window that listens to it and to losses. The lock is
    held through each method. Counters of events are left unbounded. *)

From Stdlib Require Import ZArith Lia Bool.
From stdpp Require Import base list relations sorting.
From S2P Require Import Prelude.
From S2P Require Import GoFloat.

Open Scope Z_scope.

(** ** The estimator *)

Definition DefaultOWQDThreshold : duration := 24 * millisecond.
Definition owqdThresholdMin : duration := 15 * millisecond.
Definition owqdThresholdMax : duration := 100 * millisecond.
Definition rttWindowDuration : duration := 60 * second.
Definition rttRingSize : nat := Z.to_nat 8192.
Definition rttRecalcInterval : duration := 200 * millisecond.

Definition rttSample : Type := time * duration.
Definition no_sample : rttSample := (time_zero, 0).

Record OWQDEstimator := mkOWQD {
  minRTT : duration;
  owqd : duration;
  owqdTh : duration;
  sampleCount : Z;
  resetCount : Z;
  lastSample : duration;
  ring : list rttSample;
  ringIdx : nat;
  lastRecalc : time }.

#[export] Instance eta_OWQDEstimator : Eta OWQDEstimator := λ e,
  mkOWQD (minRTT e) (owqd e) (owqdTh e) (sampleCount e) (resetCount e) (lastSample e) (ring e) (ringIdx e)
    (lastRecalc e).

Definition NewOWQDEstimator (threshold : duration) : OWQDEstimator :=
  mkOWQD hour 0 threshold 0 0 0 (replicate rttRingSize no_sample) 0 time_zero.

Definition recomputeThresholdLocked (e : OWQDEstimator) : OWQDEstimator :=
  if (minRTT e <=? 0) || (hour <=? minRTT e) then e
  else
    let th := scale_duration (minRTT e) f_0_5 in
    let th := if th <? owqdThresholdMin then owqdThresholdMin else th in
    let th := if owqdThresholdMax <? th then owqdThresholdMax else th in
    e <| owqdTh := th |>.

(** The loop over the ring: the minimum so far. *)
Definition scan_ring (cutoff : time) (r : list rttSample) (start : duration) : duration :=
  fold_left (λ m s, if bool_decide (s.1 = time_zero) || time_before s.1 cutoff then m
                    else if s.2 <? m then s.2 else m) r start.

Definition recomputeMinRTTLocked (now : time) (e : OWQDEstimator) : OWQDEstimator :=
  let cutoff := time_add now (- rttWindowDuration) in
  let m := scan_ring cutoff (ring e) hour in
  if m <? hour then recomputeThresholdLocked (e <| minRTT := m |>) else e.

(** The smoothed queueing delay. *)
Definition smooth (old sample : duration) : duration :=
  if old =? 0 then sample
  else int_of_float (fadd (fmul (float_of_int old) f_0_875) (fmul (float_of_int sample) f_0_125)).

(** Write the sample and keep the minimum up to date. *)
Definition take_sample (now : time) (rtt : duration) (e : OWQDEstimator) : OWQDEstimator :=
  let e := e <| sampleCount ::= Z.add 1 |>
             <| ring := <[ringIdx e := (now, rtt)]> (ring e) |>
             <| ringIdx := ((ringIdx e + 1) mod rttRingSize)%nat |> in
  let e := if rttRecalcInterval <=? time_sub now (lastRecalc e)
           then (recomputeMinRTTLocked now e) <| lastRecalc := now |> else e in
  if hour <=? minRTT e then recomputeThresholdLocked (e <| minRTT := rtt |>)
  else if rtt <? minRTT e then recomputeThresholdLocked (e <| minRTT := rtt |>) else e.

(** [true]: the delay is above the threshold. *)
Definition Update (now : time) (rtt : duration) (e : OWQDEstimator) : OWQDEstimator * bool :=
  if rtt <=? 0 then (e, false)
  else
    let e := take_sample now rtt e in
    let sample := if rtt - minRTT e <? 0 then 0 else rtt - minRTT e in
    let e := e <| lastSample := sample |> <| owqd := smooth (owqd e) sample |> in
    if owqdTh e <? owqd e
    then (e <| resetCount ::= Z.add 1 |> <| owqd := Z.quot (owqdTh e) 2 |>, true)
    else (e, false).

Definition MinRTT (e : OWQDEstimator) : duration := if hour <=? minRTT e then 0 else minRTT e.
Definition SetThreshold (th : duration) (e : OWQDEstimator) : OWQDEstimator := e <| owqdTh := th |>.

Definition owqd_reset (e : OWQDEstimator) : OWQDEstimator := NewOWQDEstimator DefaultOWQDThreshold.

(** ** The controller *)

Definition InitialPacketSize : Z := 1280.
Definition MaxCongestionWindowPackets : Z := 20000.
Definition initialCwndPackets : Z := 10.
Definition minCwndPackets : Z := 4.

Record QUICDCController := mkQDC {
  cwnd : Z;
  ssthresh : Z;
  maxDatagramSize : Z;
  largestSentPacketNumber : Z;
  largestAckedPacketNumber : Z;
  largestSentAtLastCutback : Z;
  estimator : OWQDEstimator;
  inRecovery : bool;
  c_resetCount : Z;
  ackCount : Z;
  sentCount : Z }.

#[export] Instance eta_QUICDCController : Eta QUICDCController := λ c,
  mkQDC (cwnd c) (ssthresh c) (maxDatagramSize c) (largestSentPacketNumber c) (largestAckedPacketNumber c)
    (largestSentAtLastCutback c) (estimator c) (inRecovery c) (c_resetCount c) (ackCount c) (sentCount c).

Definition NewQUICDCController : QUICDCController :=
  mkQDC (InitialPacketSize * initialCwndPackets) (InitialPacketSize * MaxCongestionWindowPackets) InitialPacketSize
    0 0 0 (NewOWQDEstimator DefaultOWQDThreshold) false 0 0 0.

Definition minCwnd (c : QUICDCController) : Z := maxDatagramSize c * minCwndPackets.

Definition SetMaxDatagramSize (s : Z) (c : QUICDCController) : QUICDCController :=
  let c := c <| maxDatagramSize := s |> in
  if cwnd c <? minCwnd c then c <| cwnd := minCwnd c |> else c.

Definition InSlowStart (c : QUICDCController) : bool := cwnd c <? ssthresh c.
Definition CanSend (bytesInFlight : Z) (c : QUICDCController) : bool := bytesInFlight <? cwnd c.

Definition OnPacketSent (packetNumber : Z) (isRetransmittable : bool) (c : QUICDCController) : QUICDCController :=
  let c := c <| sentCount ::= Z.add 1 |> in
  if isRetransmittable then c <| largestSentPacketNumber := packetNumber |> else c.

(** It also computes half of the window, and does not use it. *)
Definition resetCwndLocked (c : QUICDCController) : QUICDCController :=
  c <| c_resetCount ::= Z.add 1 |> <| cwnd := minCwnd c |> <| ssthresh := minCwnd c |> <| inRecovery := true |>.

(** The growth and its limit. *)
Definition grow (ackedBytes : Z) (c : QUICDCController) : QUICDCController :=
  let c := if cwnd c <? ssthresh c then c <| cwnd ::= Z.add ackedBytes |>
           else if 0 <? cwnd c then c <| cwnd ::= Z.add (Z.quot (maxDatagramSize c * ackedBytes) (cwnd c)) |>
           else c in
  let maxCwnd := maxDatagramSize c * MaxCongestionWindowPackets in
  if maxCwnd <? cwnd c then c <| cwnd := maxCwnd |> else c.

(** The round trips of the connection: the latest and the smoothed one; [None]
    before they are provided. *)
Definition OnPacketAcked (now : time) (rtts : option (duration * duration)) (number ackedBytes : Z)
    (c : QUICDCController) : QUICDCController :=
  let c := c <| ackCount ::= Z.add 1 |> in
  let c := if largestAckedPacketNumber c <? number then c <| largestAckedPacketNumber := number |> else c in
  if inRecovery c && negb (largestSentAtLastCutback c <? largestAckedPacketNumber c) then c
  else
    let c := c <| inRecovery := false |> in
    match rtts with
    | None => grow ackedBytes c
    | Some (latest, smoothed) =>
        let rtt := if latest <=? 0 then smoothed else latest in
        if rtt <=? 0 then grow ackedBytes c
        else
          let '(e, over) := Update now rtt (estimator c) in
          let c := c <| estimator := e |> in
          if over then resetCwndLocked c else grow ackedBytes c
    end.

Definition MaybeExitSlowStart (rtts : option (duration * duration)) (c : QUICDCController) : QUICDCController :=
  match rtts with
  | None => c
  | Some (srtt, minRTT) =>
      if negb (cwnd c <? ssthresh c) then c
      else if (0 <? srtt) && (0 <? minRTT) && (2 * minRTT <? srtt) then c <| ssthresh := cwnd c |> else c
  end.

(** [lossReductionFactor] is 0.7 in the client's copy and 0.85 in the server's. *)
Definition OnCongestionEvent (lossReductionFactor : float64) (packetNumber : Z) (c : QUICDCController)
    : QUICDCController :=
  if packetNumber <=? largestSentAtLastCutback c then c
  else
    let th := scale_duration (cwnd c) lossReductionFactor in
    let th := if th <? minCwnd c then minCwnd c else th in
    c <| inRecovery := true |> <| ssthresh := th |> <| cwnd := th |>
      <| largestSentAtLastCutback := largestSentPacketNumber c |>.

Definition OnRetransmissionTimeout (packetsRetransmitted : bool) (c : QUICDCController) : QUICDCController :=
  let c := c <| largestSentAtLastCutback := 0 |> in
  if negb packetsRetransmitted then c
  else
    let half := Z.quot (cwnd c) 2 in
    let half := if half <? minCwnd c then minCwnd c else half in
    c <| estimator ::= owqd_reset |> <| ssthresh := half |> <| cwnd := minCwnd c |> <| inRecovery := true |>.

Definition ResetStats (c : QUICDCController) : QUICDCController :=
  c <| c_resetCount := 0 |> <| ackCount := 0 |> <| sentCount := 0 |>.

(** ** The minimum over the window *)

Lemma ring_size_pos : (0 < rttRingSize)%nat.
Proof. unfold rttRingSize. lia. Qed.

Lemma rttRingSize_Z : Z.of_nat rttRingSize = 8192.
Proof. reflexivity. Qed.
#[local] Opaque rttRingSize.

Definition live (cutoff : time) (s : rttSample) : Prop := s.1 ≠ time_zero ∧ cutoff <= s.1.

Lemma scan_ring_spec cutoff r start :
  let m := scan_ring cutoff r start in
  m <= start ∧ (∀ s, s ∈ r → live cutoff s → m <= s.2) ∧
  (m = start ∨ ∃ s, s ∈ r ∧ live cutoff s ∧ m = s.2).
Proof.
  cbv zeta. revert start. induction r as [|s r IH]; intros start; cbn [scan_ring fold_left].
  { split; [lia|]. split; [by intros s ?%elem_of_nil|by left]. }
  unfold time_before. fold (scan_ring cutoff r).
  assert (∀ start', scan_ring cutoff r start' <= start' ∧
    (∀ s, s ∈ r → live cutoff s → scan_ring cutoff r start' <= s.2) ∧
    (scan_ring cutoff r start' = start' ∨ ∃ s, s ∈ r ∧ live cutoff s ∧ scan_ring cutoff r start' = s.2)) as H by exact IH.
  change (fold_left _ r ?x) with (scan_ring cutoff r x).
  destruct (bool_decide_reflect (s.1 = time_zero)) as [Hz|Hz]; cbn [orb].
  { destruct (H start) as (H1 & H2 & H3). split; [done|]. split.
    - intros s' [->|Hin]%elem_of_cons Hl; [by destruct Hl|by apply H2].
    - destruct H3 as [|(s' & ? & ?)]; [by left|right; exists s'; split; [by right|done]]. }
  destruct (Z.ltb_spec s.1 cutoff) as [Hc|Hc].
  { destruct (H start) as (H1 & H2 & H3). split; [done|]. split.
    - intros s' [->|Hin]%elem_of_cons Hl; [destruct Hl; lia|by apply H2].
    - destruct H3 as [|(s' & ? & ?)]; [by left|right; exists s'; split; [by right|done]]. }
  destruct (Z.ltb_spec s.2 start) as [Hlt|Hge].
  - destruct (H s.2) as (H1 & H2 & H3). split; [lia|]. split.
    + intros s' [->|Hin]%elem_of_cons Hl; [done|by apply H2].
    + right. destruct H3 as [E|(s' & ? & ?)]; [exists s; split; [by left|]; by split|exists s'; split; [by right|done]].
  - destruct (H start) as (H1 & H2 & H3). split; [done|]. split.
    + intros s' [->|Hin]%elem_of_cons Hl; [lia|by apply H2].
    + destruct H3 as [|(s' & ? & ?)]; [by left|right; exists s'; split; [by right|done]].
Qed.

Ltac case_ltbs :=
  repeat match goal with |- context [(?a <? ?b)%nat] => destruct (Nat.ltb_spec a b) end; lia.

(** The samples fed so far, the latest first, against the ring. *)
Record ring_ok (hist : list rttSample) (e : OWQDEstimator) : Prop := mk_ring_ok {
  rk_length : length (ring e) = rttRingSize;
  rk_idx : (ringIdx e < rttRingSize)%nat;
  rk_recent : ∀ j s, (j < rttRingSize)%nat → hist !! j = Some s →
    ring e !! (if (j <? ringIdx e)%nat then ringIdx e - 1 - j else ringIdx e + rttRingSize - 1 - j)%nat = Some s;
  rk_known : ∀ s, s ∈ ring e → s.1 = time_zero ∨ s ∈ hist }.

Lemma ring_ok_frame hist e e' : ring e' = ring e → ringIdx e' = ringIdx e → ring_ok hist e → ring_ok hist e'.
Proof. intros E1 E2 [H1 H2 H3 H4]. split; rewrite ?E1, ?E2; done. Qed.

Lemma ring_push hist s e e' :
  ring_ok hist e → ring e' = <[ringIdx e := s]> (ring e) → ringIdx e' = ((ringIdx e + 1) mod rttRingSize)%nat →
  ring_ok (s :: hist) e'.
Proof.
  intros [Hl Hi Hr Hk] Er Ei. pose proof ring_size_pos as Hpos.
  assert (ringIdx e' = if decide (ringIdx e + 1 = rttRingSize)%nat then O else (ringIdx e + 1)%nat) as Ei'.
  { rewrite Ei. destruct (decide _) as [->|]; [by apply Nat.Div0.mod_same|apply Nat.mod_small; lia]. }
  clear Ei. split.
  - by rewrite Er, length_insert.
  - rewrite Ei'. destruct (decide _); lia.
  - intros [|j] s' Hj Hs; cbn in Hs.
    + injection Hs as <-. rewrite Er. replace (if (0 <? ringIdx e')%nat then _ else _) with (ringIdx e).
      * apply list_lookup_insert_eq. lia.
      * rewrite Ei'. destruct (decide _); [rewrite (proj2 (Nat.ltb_ge _ _))|rewrite (proj2 (Nat.ltb_lt _ _))]; lia.
    + specialize (Hr j s' ltac:(lia) Hs). rewrite Er. rewrite list_lookup_insert_ne.
      * rewrite <- Hr. f_equal. rewrite Ei'. destruct (decide _); case_ltbs.
      * rewrite Ei'. destruct (decide _); case_ltbs.
  - intros s' Hin. rewrite Er in Hin. apply list_elem_of_lookup in Hin as [i Hin].
    destruct (decide (i = ringIdx e)) as [->|Hne].
    + rewrite list_lookup_insert_eq in Hin by (unfold rttSample in *; lia). injection Hin as <-. right. by left.
    + rewrite list_lookup_insert_ne in Hin by done. apply list_elem_of_lookup_2, Hk in Hin as [|]; [by left|].
      right. by right.
Qed.

Lemma ring_recent hist e s : ring_ok hist e → s ∈ take rttRingSize hist → s ∈ ring e.
Proof.
  intros H Hin. apply list_elem_of_lookup in Hin as [j Hj]. apply lookup_take_Some in Hj as [Hj Hlt].
  by eapply list_elem_of_lookup_2, (rk_recent _ _ H).
Qed.

Lemma ring_new threshold : ring_ok [] (NewOWQDEstimator threshold).
Proof.
  split; cbn.
  - apply length_replicate.
  - apply ring_size_pos.
  - done.
  - intros s Hs%elem_of_replicate. left. by destruct Hs as [-> _].
Qed.

Definition clamp_threshold (m : duration) : duration := Z.max owqdThresholdMin (Z.min owqdThresholdMax (m / 2)).

Lemma threshold_spec e :
  0 < minRTT e < hour →
  let e' := recomputeThresholdLocked e in
  owqdTh e' = clamp_threshold (minRTT e) ∧ minRTT e' = minRTT e ∧ ring e' = ring e ∧ ringIdx e' = ringIdx e ∧
  lastRecalc e' = lastRecalc e ∧ owqd e' = owqd e.
Proof.
  intros Hm. cbv zeta. unfold recomputeThresholdLocked, clamp_threshold.
  rewrite (proj2 (Z.leb_gt _ _)), (proj2 (Z.leb_gt _ _)) by lia. cbn [orb]. rewrite scale_0_5.
  2: { unfold hour, minute, second, millisecond in Hm. lia. }
  split; [|done]. cbn. unfold owqdThresholdMin, owqdThresholdMax, millisecond.
  destruct (Z.ltb_spec (minRTT e / 2) (15 * 1000000)).
  - destruct (Z.ltb_spec (100 * 1000000) (15 * 1000000)); lia.
  - destruct (Z.ltb_spec (100 * 1000000) (minRTT e / 2)); lia.
Qed.

Lemma clamp_range m : owqdThresholdMin <= clamp_threshold m <= owqdThresholdMax.
Proof. unfold clamp_threshold, owqdThresholdMin, owqdThresholdMax, millisecond. lia. Qed.

Definition sample_ok (t : time) (s : rttSample) : Prop := 0 <= s.1 <= t ∧ 0 < s.2 < hour.

(** What holds of the estimator after its samples, the last at [t]. *)
Record est_ok (t : time) (hist : list rttSample) (e : OWQDEstimator) : Prop := mk_est_ok {
  eo_ring : ring_ok hist e;
  eo_hist : Forall (sample_ok t) hist;
  eo_owqd : 0 <= owqd e;
  eo_fresh : hist = [] → lastRecalc e = time_zero;
  eo_last : hist ≠ [] → lastRecalc e <= t < lastRecalc e + rttRecalcInterval;
  eo_lower : ∀ s, s ∈ take rttRingSize hist → lastRecalc e - rttWindowDuration <= s.1 → minRTT e <= s.2;
  eo_from : hist ≠ [] → ∃ s, s ∈ hist ∧ s.2 = minRTT e ∧ lastRecalc e - rttWindowDuration <= s.1;
  eo_th : hist ≠ [] → owqdTh e = clamp_threshold (minRTT e) }.

Lemma min_range t hist e : est_ok t hist e → hist ≠ [] → 0 < minRTT e < hour.
Proof.
  intros H Hne. destruct (eo_from _ _ _ H Hne) as (s & Hin & <- & _). pose proof (eo_hist _ _ _ H) as Hh.
  rewrite Forall_forall in Hh. by apply Hh.
Qed.

Lemma hist_push t now rtt hist :
  Forall (sample_ok t) hist → t <= now → 0 <= now → 0 < rtt < hour → Forall (sample_ok now) ((now, rtt) :: hist).
Proof.
  intros Hh Ht Hn Hr. constructor; [unfold sample_ok; cbn; lia|]. eapply Forall_impl; [exact Hh|].
  unfold sample_ok. intros s. lia.
Qed.

(** The sample that makes the estimator scan its ring. *)
Lemma rescan_ok t now rtt hist e e1 :
  est_ok t hist e → t <= now → 0 <= now → 0 < rtt < hour →
  ring_ok ((now, rtt) :: hist) e1 → owqd e1 = owqd e →
  let e2 := (recomputeMinRTTLocked now e1) <| lastRecalc := now |> in
  est_ok now ((now, rtt) :: hist) e2 ∧ minRTT e2 <= rtt.
Proof.
  intros H Ht Hn Hr Hring Ho. unfold recomputeMinRTTLocked, time_add. cbv zeta.
  replace (now + - rttWindowDuration) with (now - rttWindowDuration) by lia.
  set (cutoff := now - rttWindowDuration).
  destruct (scan_ring_spec cutoff (ring e1) hour) as (Hle & Hall & Hfrom). set (m := scan_ring cutoff (ring e1) hour) in *.
  assert (rttWindowDuration = 60000000000) as HW by reflexivity.
  assert (time_zero < -1000) as Hz by (unfold time_zero, second, millisecond; lia).
  pose proof ring_size_pos as Hpos.
  assert ((now, rtt) ∈ ring e1) as Hin0.
  { eapply ring_recent; [exact Hring|]. destruct rttRingSize; [lia|]. by left. }
  assert (m <= rtt) as Hmr by (apply (Hall (now, rtt) Hin0); split; cbn; unfold cutoff; lia).
  rewrite (proj2 (Z.ltb_lt m hour)) by lia.
  destruct Hfrom as [|(s & Hs & [Hl1 Hl2] & Hm)]; [lia|].
  apply (rk_known _ _ Hring) in Hs as [|Hs]; [done|].
  pose proof (hist_push t now rtt hist (eo_hist _ _ _ H) Ht Hn Hr) as Hhist.
  assert (0 < m < hour) as Hmm.
  { rewrite Hm. rewrite Forall_forall in Hhist. by apply (Hhist s). }
  pose proof (threshold_spec (e1 <| minRTT := m |>)) as Hth. destruct (Hth Hmm) as (E1 & E2 & E3 & E4 & E5 & E6). cbn in E1, E2, E3, E4, E6.
  split; [|cbn; lia]. split; cbn [minRTT owqdTh ring ringIdx lastRecalc owqd]; try done.
  - by apply (ring_ok_frame _ e1).
  - cbn. rewrite E6, Ho. apply H.
  - intros _. cbn. unfold rttRecalcInterval, millisecond. lia.
  - intros s' Hin Hc. cbn. rewrite E2. apply Hall; [by eapply ring_recent|]. cbn in Hc.
    split; [|done]. apply (subseteq_take _ _) in Hin. rewrite Forall_forall in Hhist. specialize (Hhist s' Hin).
    unfold sample_ok in Hhist. lia.
  - intros _. exists s. cbn. rewrite E2. by split_and!.
  - intros _. cbn. by rewrite E1, E2.
Qed.

(** One that does not. *)
Lemma keep_ok t now rtt hist e e1 :
  est_ok t hist e → hist ≠ [] → t <= now < lastRecalc e + rttRecalcInterval → 0 <= now → 0 < rtt < hour →
  ring_ok ((now, rtt) :: hist) e1 → owqd e1 = owqd e → minRTT e1 = minRTT e → lastRecalc e1 = lastRecalc e →
  owqdTh e1 = owqdTh e →
  est_ok now ((now, rtt) :: hist)
    (if rtt <? minRTT e1 then recomputeThresholdLocked (e1 <| minRTT := rtt |>) else e1).
Proof.
  intros H Hne Ht Hn Hr Hring Ho Em El Eth. pose proof (min_range _ _ _ H Hne) as Hmin.
  destruct (eo_from _ _ _ H Hne) as (s & Hs & Es & Hrec). pose proof (eo_last _ _ _ H Hne) as Hlast.
  pose proof (hist_push t now rtt hist (eo_hist _ _ _ H) ltac:(lia) Hn Hr) as Hhist.
  assert (0 < rttWindowDuration) as HW by done.
  assert (∀ s', s' ∈ take rttRingSize ((now, rtt) :: hist) → s' = (now, rtt) ∨ s' ∈ take rttRingSize hist) as Htake.
  { intros s' Hin. pose proof ring_size_pos. destruct rttRingSize as [|n]; [lia|].
    apply elem_of_cons in Hin as [|Hin]; [by left|right]. apply list_elem_of_lookup in Hin as [i Hin].
    apply lookup_take_Some in Hin as [Hin Hlt]. apply list_elem_of_lookup. exists i. apply lookup_take_Some. split; [done|lia]. }
  destruct (Z.ltb_spec rtt (minRTT e1)) as [Hlt|Hge].
  - pose proof (threshold_spec (e1 <| minRTT := rtt |>)) as Hth. destruct (Hth Hr) as (E1 & E2 & E3 & E4 & E5 & E6).
    cbn in E1, E2, E3, E4, E5, E6. set (e2 := recomputeThresholdLocked _) in *.
    split; rewrite ?E2, ?E5, ?E6, ?El; try done.
    + by apply (ring_ok_frame _ e1).
    + rewrite Ho. apply H.
    + intros _. lia.
    + intros s' [->|Hin]%Htake Hc; cbn; [lia|]. pose proof (eo_lower _ _ _ H s' Hin Hc). lia.
    + intros _. exists (now, rtt). cbn. split_and!; [by left|done|lia].
  - split; rewrite ?Em, ?El; try done.
    + rewrite Ho. apply H.
    + intros _. lia.
    + intros s' [->|Hin]%Htake Hc; cbn; [lia|]. by apply (eo_lower _ _ _ H).
    + intros _. exists s. split_and!; [by right|done|done].
    + intros _. rewrite Eth. by apply (eo_th _ _ _ H).
Qed.

Lemma threshold_owqd e : owqd (recomputeThresholdLocked e) = owqd e.
Proof. unfold recomputeThresholdLocked. by destruct (_ || _). Qed.

Lemma recompute_owqd now e : owqd (recomputeMinRTTLocked now e) = owqd e.
Proof. unfold recomputeMinRTTLocked. cbv zeta. destruct (_ <? _); [|done]. by rewrite threshold_owqd. Qed.

Lemma take_sample_ok t now rtt hist e :
  est_ok t hist e → t <= now → 0 <= now → 0 < rtt < hour →
  est_ok now ((now, rtt) :: hist) (take_sample now rtt e) ∧ owqd (take_sample now rtt e) = owqd e.
Proof.
  intros H Ht Hn Hr. unfold take_sample.
  set (e1 := e <| sampleCount ::= _ |> <| ring := _ |> <| ringIdx := _ |>).
  assert (ring_ok ((now, rtt) :: hist) e1) as Hring by (by apply (ring_push hist (now, rtt) e e1); [apply H|..]).
  assert (lastRecalc e1 = lastRecalc e) as -> by done.
  destruct (Z.leb_spec rttRecalcInterval (time_sub now (lastRecalc e))) as [Hc|Hc].
  - destruct (rescan_ok t now rtt hist e e1 H Ht Hn Hr Hring eq_refl) as [Hok Hle].
    set (e2 := (recomputeMinRTTLocked now e1) <| lastRecalc := now |>) in *.
    rewrite (proj2 (Z.leb_gt hour (minRTT e2))), (proj2 (Z.ltb_ge rtt (minRTT e2))) by lia.
    split; [done|]. transitivity (owqd (recomputeMinRTTLocked now e1)); [done|]. by rewrite recompute_owqd.
  - assert (hist ≠ []) as Hne.
    { intros ->. rewrite (eo_fresh _ _ _ H eq_refl) in Hc. revert Hc.
      unfold time_sub, time_zero, rttRecalcInterval, second, millisecond, int64_min, int64_max. lia. }
    assert (now < lastRecalc e + rttRecalcInterval) as Hnow.
    { apply time_sub_lt in Hc; [lia|]. unfold rttRecalcInterval, millisecond, int64_min, int64_max. lia. }
    pose proof (min_range _ _ _ H Hne) as Hmin. rewrite (proj2 (Z.leb_gt hour (minRTT e1))) by (cbn; lia).
    split; [by apply (keep_ok t now rtt hist e e1)|]. destruct (_ <? _); [|done]. by rewrite threshold_owqd.
Qed.

(** The average stays below a bound of the delays it is fed. *)
Lemma smooth_range old sample d :
  0 <= old <= d → 0 <= sample <= d → d < 2 ^ 49 → 0 <= smooth old sample <= d.
Proof.
  intros Ho Hs Hd. unfold smooth. destruct (Z.eqb_spec old 0); [lia|]. rewrite average_7_1 by lia.
  split; [apply Z.div_pos; lia|]. apply Z.div_le_upper_bound; lia.
Qed.

Lemma Update_ok t now rtt hist e :
  est_ok t hist e → t <= now → 0 <= now → 0 < rtt < hour → owqd e < 2 ^ 45 →
  let '(e', over) := Update now rtt e in
  est_ok now ((now, rtt) :: hist) e' ∧ owqd e' <= owqdTh e' ∧
  ∀ d, owqd e <= d → rtt - minRTT e' <= d → d <= owqdThresholdMin → over = false ∧ owqd e' <= d.
Proof.
  intros H Ht Hn Hr Hbig. destruct (take_sample_ok t now rtt hist e H Ht Hn Hr) as [H1 Eo]. unfold Update.
  rewrite (proj2 (Z.leb_gt rtt 0)) by lia. cbv zeta. set (e1 := take_sample now rtt e) in *.
  pose proof (min_range _ _ _ H1 ltac:(done)) as Hmin. pose proof (eo_th _ _ _ H1 ltac:(done)) as Eth.
  pose proof (clamp_range (minRTT e1)) as Hcl. rewrite <- Eth in Hcl.
  assert (owqdThresholdMin = 15000000 ∧ owqdThresholdMax = 100000000 ∧ hour = 3600000000000) as (Tm & TM & Th) by done.
  pose proof (eo_owqd _ _ _ H) as Hpos. rewrite <- Eo in Hpos, Hbig.
  set (sample := if rtt - minRTT e1 <? 0 then 0 else rtt - minRTT e1).
  assert (0 <= sample < hour) as Hsample by (unfold sample; destruct (Z.ltb_spec (rtt - minRTT e1) 0); lia).
  pose proof (smooth_range (owqd e1) sample (2 ^ 45) ltac:(lia) ltac:(lia) ltac:(lia)) as Hsm.
  assert (∀ d, owqd e1 <= d → rtt - minRTT e1 <= d → d <= owqdThresholdMin → smooth (owqd e1) sample <= d) as Hd.
  { intros d Hd1 Hd2 Hd3. apply smooth_range; [lia| |lia]. unfold sample. destruct (Z.ltb_spec (rtt - minRTT e1) 0); lia. }
  clearbody sample. set (v := smooth (owqd e1) sample) in *. cbn [owqd owqdTh set_field].
  change (owqdTh (e1 <| lastSample := sample |> <| owqd := v |>)) with (owqdTh e1).
  change (owqd (e1 <| lastSample := sample |> <| owqd := v |>)) with v. rewrite Eo in Hd.
  destruct H1 as [K1 K2 K3 K4 K5 K6 K7 K8]. destruct (Z.ltb_spec (owqdTh e1) v) as [Hover|Hunder].
  - split; [|split].
    + split; cbn; try done; [by apply (ring_ok_frame _ e1)|]. apply Z.quot_pos; lia.
    + cbn. rewrite Z.quot_div_nonneg by lia. apply Z.div_le_upper_bound; lia.
    + cbn. intros d Hd1 Hd2 Hd3. specialize (Hd d Hd1 Hd2 Hd3). lia.
  - split; [|split].
    + split; cbn; try done; [by apply (ring_ok_frame _ e1)|]. lia.
    + cbn. lia.
    + cbn. intros d Hd1 Hd2 Hd3. split; [done|]. by apply Hd.
Qed.

(** *** Runs of samples *)

Definition observe (l : list rttSample) (e : OWQDEstimator) : OWQDEstimator :=
  fold_left (λ e s, (Update s.1 s.2 e).1) l e.

(** The verdicts, in order. *)
Fixpoint verdicts (l : list rttSample) (e : OWQDEstimator) : list bool :=
  match l with
  | [] => []
  | s :: l => let '(e, over) := Update s.1 s.2 e in over :: verdicts l e
  end.

Lemma est_new threshold t : est_ok t [] (NewOWQDEstimator threshold).
Proof.
  split; try done.
  - apply ring_new.
  - intros s Hs. rewrite take_nil in Hs. by apply not_elem_of_nil in Hs.
Qed.

Lemma observe_ok l t hist e :
  est_ok t hist e → owqd e <= owqdThresholdMax → Sorted Z.le (t :: l.*1) → 0 <= t → Forall (λ s, 0 < s.2 < hour) l →
  let e' := observe l e in
  let t' := default t (last l.*1) in
  est_ok t' (rev l ++ hist) e' ∧ owqd e' <= owqdThresholdMax ∧ (l ≠ [] → owqd e' <= owqdTh e').
Proof.
  revert t hist e. induction l as [|[now rtt] l IH]; intros t hist e H Ho Hs Ht Hl; [done|].
  apply Forall_cons in Hl as [Hr Hl]. cbn in Hs. inversion Hs as [|? ? Hs' Hhd]; subst.
  inversion Hhd as [|? ? Hle]; subst.
  assert (owqdThresholdMax < 2 ^ 45) as HT by done.
  pose proof (Update_ok t now rtt hist e H Hle ltac:(lia) Hr ltac:(lia)) as HU.
  cbn [observe fold_left fst snd]. destruct (Update now rtt e) as [e1 over] eqn:EU. destruct HU as (H1 & Ho1 & _).
  assert (owqd e1 <= owqdThresholdMax) as Hb.
  { rewrite (eo_th _ _ _ H1) in Ho1 by done. pose proof (clamp_range (minRTT e1)). lia. }
  destruct (IH now ((now, rtt) :: hist) e1 H1 Hb Hs' ltac:(lia) Hl) as (HA & HB & HC). cbn [fst].
  fold (observe l e1). split; [|split; [done|]].
  - cbn [rev]. rewrite <- app_assoc. cbn [app].
    assert (default t (last ((now, rtt) :: l).*1) = default now (last l.*1)) as ->; [|done].
    cbn. destruct l as [|x l]; [done|]. cbn. destruct (last_is_Some (x.1 :: l.*1)) as [_ [y Hy]]; [done|].
    cbn in Hy. by rewrite Hy.
  - intros _. destruct l as [|x l]; [done|]. by apply HC.
Qed.

(** The base round trip follows the last minute. After any run of samples it is
    the round trip of a sample at most 60.2 seconds old and no larger than any of
    the last 8192 samples of the last 60 seconds; the threshold lies between 15
    and 100 milliseconds, and the smoothed delay below the threshold. *)
Theorem base_rtt_follows_window threshold l now rtt :
  let run := (l ++ [(now, rtt)])%list in
  Sorted Z.le (0 :: run.*1) → Forall (λ s, 0 < s.2 < hour) run →
  let e := observe run (NewOWQDEstimator threshold) in
  (∃ s, s ∈ run ∧ MinRTT e = s.2 ∧ now - (rttWindowDuration + rttRecalcInterval) < s.1) ∧
  (∀ s, s ∈ take rttRingSize (rev run) → now - rttWindowDuration <= s.1 → MinRTT e <= s.2) ∧
  owqdThresholdMin <= owqdTh e <= owqdThresholdMax ∧ 0 <= owqd e <= owqdTh e.
Proof.
  intros run Hs Hr e.
  destruct (observe_ok run 0 [] (NewOWQDEstimator threshold) (est_new threshold 0)) as (H & _ & Ho); try done.
  fold e in H, Ho. rewrite app_nil_r in H.
  assert (default 0 (last run.*1) = now) as En by (unfold run; by rewrite fmap_app, last_app).
  rewrite En in H. assert (rev run ≠ []) as Hne by (unfold run; rewrite rev_app_distr; done).
  pose proof (min_range _ _ _ H Hne) as Hm. pose proof (eo_last _ _ _ H Hne) as Hlast.
  assert (MinRTT e = minRTT e) as -> by (unfold MinRTT; by rewrite (proj2 (Z.leb_gt _ _)) by lia).
  split; [|split; [|split]].
  - destruct (eo_from _ _ _ H Hne) as (s & Hin & <- & Hrec). exists s. split; [|split; [done|lia]].
    rewrite <- list_elem_of_In, <- in_rev, list_elem_of_In in Hin || (apply list_elem_of_In, in_rev, list_elem_of_In in Hin).
    done.
  - intros s Hin Hc. apply (eo_lower _ _ _ H); [done|lia].
  - rewrite (eo_th _ _ _ H Hne). apply clamp_range.
  - split; [apply H|]. apply Ho. unfold run. by destruct l.
Qed.

(** While the round trips stay within 15 ms of the smallest, nothing is reported. *)
Lemma quiet_ok b l t hist e :
  est_ok t hist e → owqd e <= owqdThresholdMin → Sorted Z.le (t :: l.*1) → 0 <= t →
  Forall (λ s, b <= s.2) hist → Forall (λ s, 0 < s.2 < hour ∧ b <= s.2 <= b + owqdThresholdMin) l →
  Forall (eq false) (verdicts l e).
Proof.
  revert t hist e. induction l as [|[now rtt] l IH]; intros t hist e H Ho Hs Ht Hh Hl; [by constructor|].
  apply Forall_cons in Hl as [[Hr Hb] Hl]. cbn in Hs, Hb, Hr. inversion Hs as [|? ? Hs' Hhd]; subst.
  inversion Hhd as [|? ? Hle]; subst. assert (owqdThresholdMin < 2 ^ 45) as HT by done.
  pose proof (Update_ok t now rtt hist e H Hle ltac:(lia) Hr ltac:(lia)) as HU. cbn [verdicts fst snd].
  destruct (Update now rtt e) as [e1 over] eqn:EU. destruct HU as (H1 & Ho1 & Hq).
  assert (Forall (λ s, b <= s.2) ((now, rtt) :: hist)) as Hh1 by (constructor; [cbn; lia|done]).
  assert (rtt - minRTT e1 <= owqdThresholdMin) as Hd.
  { destruct (eo_from _ _ _ H1 ltac:(done)) as (s & Hin & <- & _). rewrite Forall_forall in Hh1.
    specialize (Hh1 s Hin). lia. }
  destruct (Hq owqdThresholdMin Ho Hd ltac:(lia)) as [-> Ho2]. constructor; [done|].
  by apply (IH now ((now, rtt) :: hist) e1); try lia.
Qed.

(** A link whose delay varies by at most 15 milliseconds is never taken for
    congested: no sample is reported, however long it goes on. *)
Theorem steady_link_quiet threshold b l :
  Sorted Z.le (0 :: l.*1) → Forall (λ s, 0 < s.2 < hour ∧ b <= s.2 <= b + owqdThresholdMin) l →
  Forall (eq false) (verdicts l (NewOWQDEstimator threshold)).
Proof.
  intros Hs Hl. apply (quiet_ok b l 0 []); try done. apply est_new.
Qed.

(** ** The window *)

Inductive cc_op :=
  | CcSize (s : Z)
  | CcSent (number : Z) (retransmittable : bool)
  | CcAcked (now : time) (rtts : option (duration * duration)) (number bytes : Z)
  | CcExit (rtts : option (duration * duration))
  | CcLost (number : Z)
  | CcTimeout (retransmitted : bool)
  | CcStats.

Section Controller.
Context (factor : float64).
(** The loss factor is below 1. *)
Context (factor_shrinks : ∀ n, 0 < n < 2 ^ 40 → 0 <= scale_duration n factor <= n).

Definition cc_do (o : cc_op) (c : QUICDCController) : QUICDCController :=
  match o with
  | CcSize s => SetMaxDatagramSize s c
  | CcSent number r => OnPacketSent number r c
  | CcAcked now rtts number bytes => OnPacketAcked now rtts number bytes c
  | CcExit rtts => MaybeExitSlowStart rtts c
  | CcLost number => OnCongestionEvent factor number c
  | CcTimeout r => OnRetransmissionTimeout r c
  | CcStats => ResetStats c
  end.

(** Datagram sizes up to [M], and acknowledged bytes. *)
Definition op_ok (M : Z) (o : cc_op) : Prop :=
  match o with
  | CcSize s => 0 < s <= M
  | CcAcked _ _ _ bytes => 0 <= bytes
  | _ => True
  end.

Definition window_ok (M : Z) (c : QUICDCController) : Prop :=
  0 < maxDatagramSize c <= M ∧ minCwnd c <= cwnd c <= MaxCongestionWindowPackets * M.

Lemma grow_ok M bytes c : window_ok M c → 0 <= bytes → window_ok M (grow bytes c).
Proof.
  unfold window_ok, minCwnd, MaxCongestionWindowPackets, minCwndPackets. intros [Hm Hc] Hb. unfold grow.
  set (c1 := if cwnd c <? ssthresh c then _ else _).
  assert (maxDatagramSize c1 = maxDatagramSize c ∧ cwnd c <= cwnd c1) as [E1 E2].
  { unfold c1. destruct (cwnd c <? ssthresh c); [cbn; lia|]. destruct (0 <? cwnd c); [|cbn; lia]. cbn. split; [done|].
    assert (0 <= Z.quot (maxDatagramSize c * bytes) (cwnd c)); [|lia]. apply Z.quot_pos; nia. }
  clearbody c1. cbv zeta. destruct (Z.ltb_spec (maxDatagramSize c1 * MaxCongestionWindowPackets) (cwnd c1)) as [H|H];
    cbn [maxDatagramSize cwnd set_field]; unfold MaxCongestionWindowPackets in *; cbn; rewrite ?E1 in *; lia.
Qed.

Lemma cc_step_ok M o c : M < 2 ^ 24 → op_ok M o → window_ok M c → window_ok M (cc_do o c).
Proof.
  intros HM Ho Hw. destruct o; cbn [cc_do op_ok] in *.
  - unfold window_ok, SetMaxDatagramSize, minCwnd, minCwndPackets, MaxCongestionWindowPackets in *. cbv zeta. cbn.
    destruct (Z.ltb_spec (cwnd c) (s * 4)); cbn; lia.
  - unfold OnPacketSent. cbv zeta. by destruct retransmittable.
  - unfold OnPacketAcked. cbv zeta.
    set (c1 := if largestAckedPacketNumber _ <? number then _ else _).
    assert (window_ok M c1) as H1 by (unfold c1; by destruct (_ <? _)). clearbody c1.
    destruct (inRecovery c1 && _); [done|]. assert (window_ok M (c1 <| inRecovery := false |>)) as H2 by done.
    set (c2 := c1 <| inRecovery := false |>) in *. clearbody c2.
    destruct rtts as [[latest smoothed]|]; [|by apply grow_ok].
    destruct ((if latest <=? 0 then smoothed else latest) <=? 0); [by apply grow_ok|].
    destruct (Update _ _ _) as [e over]. destruct over; [|by apply grow_ok].
    unfold window_ok, resetCwndLocked, minCwnd in *. cbn in *. unfold minCwndPackets, MaxCongestionWindowPackets in *. lia.
  - unfold MaybeExitSlowStart. destruct rtts as [[srtt mrtt]|]; [|done].
    destruct (negb _); [done|]. by destruct (_ && _).
  - unfold OnCongestionEvent. destruct (_ <=? _); [done|]. cbv zeta.
    unfold window_ok, minCwnd in *. cbn. unfold minCwndPackets, MaxCongestionWindowPackets in *.
    pose proof (factor_shrinks (cwnd c) ltac:(lia)).
    destruct (Z.ltb_spec (scale_duration (cwnd c) factor) (maxDatagramSize c * 4)); lia.
  - unfold OnRetransmissionTimeout. cbv zeta. destruct (negb _); [done|].
    unfold window_ok, minCwnd in *. cbn in *. unfold minCwndPackets, MaxCongestionWindowPackets in *. lia.
  - done.
Qed.

(** The congestion window stays within bounds: after any sequence of
    acknowledgements, losses, timeouts and changes of the datagram size it is at
    least four datagrams and at most 20000 of the largest size. *)
Theorem window_bounded M ops :
  InitialPacketSize <= M < 2 ^ 24 → Forall (op_ok M) ops →
  let c := fold_left (λ c o, cc_do o c) ops NewQUICDCController in
  4 * maxDatagramSize c <= cwnd c <= MaxCongestionWindowPackets * M.
Proof.
  intros HM Hops. assert (∀ c, window_ok M c → window_ok M (fold_left (λ c o, cc_do o c) ops c)) as H.
  { induction Hops as [|o ops Ho _ IH]; intros c Hc; [done|]. cbn. apply IH, cc_step_ok; [lia|done..]. }
  specialize (H NewQUICDCController). cbv zeta. set (c := fold_left _ ops _) in *.
  assert (window_ok M c) as [? Hw].
  { apply H. unfold window_ok, minCwnd. cbn [maxDatagramSize cwnd NewQUICDCController].
    unfold InitialPacketSize, initialCwndPackets, minCwndPackets, MaxCongestionWindowPackets in *. lia. }
  unfold minCwnd, minCwndPackets in Hw. lia.
Qed.

(** What happens after a cutback: no timeout, and packet numbers go up. *)
Definition after_cutback (sent : Z) (o : cc_op) : Prop :=
  match o with CcSent number true => sent <= number | CcTimeout _ => False | _ => True end.

Lemma cutback_kept sent o c :
  after_cutback sent o → sent <= largestSentPacketNumber c → sent <= largestSentAtLastCutback c →
  sent <= largestSentPacketNumber (cc_do o c) ∧ sent <= largestSentAtLastCutback (cc_do o c).
Proof.
  intros Ho H1 H2. destruct o; cbn [cc_do after_cutback] in *; try done.
  - unfold SetMaxDatagramSize. cbv zeta. by destruct (_ <? _).
  - unfold OnPacketSent. cbv zeta. by destruct retransmittable.
  - unfold OnPacketAcked. cbv zeta. set (c1 := if largestAckedPacketNumber _ <? number then _ else _).
    assert (largestSentPacketNumber c1 = largestSentPacketNumber c ∧
            largestSentAtLastCutback c1 = largestSentAtLastCutback c) as [E1 E2]
      by (unfold c1; by destruct (largestAckedPacketNumber _ <? number)).
    clearbody c1. destruct (inRecovery c1 && _); [by rewrite E1, E2|].
    assert (∀ c2, largestSentPacketNumber (grow bytes c2) = largestSentPacketNumber c2 ∧
                  largestSentAtLastCutback (grow bytes c2) = largestSentAtLastCutback c2) as G.
    { intros c2. unfold grow. cbv zeta. destruct (cwnd c2 <? ssthresh c2); [cbn; by destruct (_ <? _)|].
      destruct (0 <? cwnd c2); cbn; by destruct (_ <? _). }
    destruct rtts as [[latest smoothed]|]; [|rewrite !(proj1 (G _)), !(proj2 (G _)); cbn; lia].
    destruct ((if latest <=? 0 then smoothed else latest) <=? 0);
      [rewrite !(proj1 (G _)), !(proj2 (G _)); cbn; lia|].
    destruct (Update _ _ _) as [e over]. destruct over; [cbn; lia|].
    rewrite !(proj1 (G _)), !(proj2 (G _)). cbn. lia.
  - unfold MaybeExitSlowStart. destruct rtts as [[srtt mrtt]|]; [|done].
    destruct (negb _); [done|]. by destruct (_ && _).
  - unfold OnCongestionEvent. destruct (_ <=? _); [done|]. cbn. lia.
Qed.

(** Losses of one flight cut the window once. A loss that counts reduces the
    window to the factor, but not below four datagrams; from then on the losses of
    all packets sent until that moment change nothing, whatever is sent,
    acknowledged or lost in between, until a timeout. *)
Theorem one_cutback_per_flight M number c ops lost :
  M < 2 ^ 24 → window_ok M c → largestSentAtLastCutback c < number →
  let sent := largestSentPacketNumber c in
  Forall (after_cutback sent) ops → lost <= sent →
  let c1 := OnCongestionEvent factor number c in
  let c2 := fold_left (λ c o, cc_do o c) ops c1 in
  cwnd c1 = Z.max (minCwnd c) (scale_duration (cwnd c) factor) ∧ cwnd c1 <= cwnd c ∧ ssthresh c1 = cwnd c1 ∧
  OnCongestionEvent factor lost c2 = c2.
Proof.
  intros HM Hw Hn sent Hops Hlost c1 c2. unfold window_ok, MaxCongestionWindowPackets in Hw.
  pose proof (factor_shrinks (cwnd c)) as Hf. unfold minCwnd, minCwndPackets in *.
  assert (c1 = OnCongestionEvent factor number c) as E1 by done.
  unfold OnCongestionEvent in E1. rewrite (proj2 (Z.leb_gt _ _)) in E1 by lia. cbv zeta in E1.
  assert (cwnd c1 = Z.max (maxDatagramSize c * 4) (scale_duration (cwnd c) factor)) as Ec.
  { rewrite E1. cbn. unfold minCwnd, minCwndPackets. destruct (Z.ltb_spec (scale_duration (cwnd c) factor) (maxDatagramSize c * 4)); lia. }
  split; [done|]. split; [rewrite Ec; lia|]. split; [by rewrite E1|].
  assert (sent <= largestSentPacketNumber c1 ∧ sent <= largestSentAtLastCutback c1) as Hs.
  { rewrite E1. cbn. unfold sent. lia. }
  assert (∀ ops c, Forall (after_cutback sent) ops →
    sent <= largestSentPacketNumber c ∧ sent <= largestSentAtLastCutback c →
    sent <= largestSentAtLastCutback (fold_left (λ c o, cc_do o c) ops c)) as Hrun.
  { intros os c' Hos. revert c'. induction Hos as [|o os Ho _ IH]; intros c' Hc; [apply Hc|].
    cbn. apply IH. destruct Hc. by apply cutback_kept. }
  specialize (Hrun ops c1 Hops Hs). fold c2 in Hrun. unfold OnCongestionEvent.
  by rewrite (proj2 (Z.leb_le _ _)) by lia.
Qed.

(** The recovery that the delay signal announces ends with the next
    acknowledgement: [resetCwndLocked] leaves the mark of the last loss alone. *)
Lemma delay_recovery_is_void c now number bytes :
  largestSentAtLastCutback c < largestAckedPacketNumber c →
  inRecovery (resetCwndLocked c) = true ∧
  inRecovery (OnPacketAcked now None number bytes (resetCwndLocked c)) = false.
Proof.
  intros H. split; [done|]. unfold OnPacketAcked. cbv zeta.
  set (c1 := if largestAckedPacketNumber _ <? number then _ else _).
  assert (largestSentAtLastCutback c1 < largestAckedPacketNumber c1) as H1.
  { unfold c1. cbn. destruct (Z.ltb_spec (largestAckedPacketNumber c) number); cbn; lia. }
  rewrite (proj2 (Z.ltb_lt _ _) H1). rewrite andb_false_r. unfold grow. cbv zeta.
  clearbody c1. destruct (_ <? ssthresh _); cbn; [by destruct (_ <? _)|]. destruct (0 <? cwnd c1); cbn; by destruct (_ <? _).
Qed.
End Controller.

Lemma shrinks_0_7 n : 0 < n < 2 ^ 40 → 0 <= scale_duration n f_0_7 <= n.
Proof.
  intros Hn. split; [by apply scale_nonneg; [lia|]|]. pose proof (scale_0_7 n Hn) as [_ H].
  assert (7 * n / 10 <= n) by (apply Z.div_le_upper_bound; lia). lia.
Qed.

Lemma shrinks_0_85 n : 0 < n < 2 ^ 40 → 0 <= scale_duration n f_0_85 <= n.
Proof.
  intros Hn. split; [by apply scale_nonneg; [lia|]|]. pose proof (scale_0_85 n Hn) as [_ H].
  assert (17 * n / 20 <= n) by (apply Z.div_le_upper_bound; lia). lia.
Qed.

Lemma window_bounded_witness :
  let ops := [CcSize 1400; CcSent 1 true; CcAcked 0 None 1 1400; CcLost 2; CcTimeout true] in
  let c := fold_left (λ c o, cc_do f_0_7 o c) ops NewQUICDCController in
  cwnd c = 5600 ∧ 4 * maxDatagramSize c <= cwnd c <= MaxCongestionWindowPackets * 1500.
Proof.
  intros ops c. split; [by vm_compute|]. apply (window_bounded f_0_7 shrinks_0_7 1500 ops).
  - unfold InitialPacketSize. lia.
  - unfold ops. repeat (apply Forall_cons; split; [cbn; lia || done|]). by constructor.
Defined.

Lemma one_cutback_per_flight_witness :
  let c := OnPacketSent 9 true NewQUICDCController in
  let c1 := OnCongestionEvent f_0_85 3 c in
  cwnd c1 <= cwnd c ∧ OnCongestionEvent f_0_85 7 (OnPacketSent 10 true c1) = OnPacketSent 10 true c1.
Proof.
  intros c c1. destruct (one_cutback_per_flight f_0_85 shrinks_0_85 1280 3 c [CcSent 10 true] 7) as (_ & H1 & _ & H2).
  - done.
  - vm_compute. intuition congruence.
  - done.
  - constructor; [done|by constructor].
  - done.
  - by split.
Defined.

Lemma steady_link_quiet_witness :
  Forall (eq false) (verdicts [(0, 50 * millisecond); (1, 60 * millisecond); (5, 47 * millisecond)]
    (NewOWQDEstimator DefaultOWQDThreshold)).
Proof.
  apply (steady_link_quiet DefaultOWQDThreshold (47 * millisecond)).
  - repeat constructor; by vm_compute.
  - repeat (apply Forall_cons; split; [vm_compute; intuition congruence|]). by constructor.
Defined.

Lemma base_rtt_follows_window_witness :
  let run := ([(0, 50 * millisecond); (61 * second, 60 * millisecond)] ++ [(62 * second, 55 * millisecond)])%list in
  MinRTT (observe run (NewOWQDEstimator DefaultOWQDThreshold)) <= 60 * millisecond.
Proof.
  intros run.
  destruct (base_rtt_follows_window DefaultOWQDThreshold [(0, 50 * millisecond); (61 * second, 60 * millisecond)]
    (62 * second) (55 * millisecond)) as (_ & H & _).
  - repeat constructor; by vm_compute.
  - repeat (apply Forall_cons; split; [vm_compute; intuition congruence|]). by constructor.
  - apply (H (61 * second, 60 * millisecond)); [|done]. vm_compute. right. by left.
Defined.
