(* ===== verification/AckHistory.v ===== *)
(** * Packet numbers and the history of received packets of quic-go
    ([internal/protocol/packet_number.go],
    [internal/ackhandler/received_packet_history.go], and the tracker in
    [received_packet_tracker.go])

    What the sender cuts off a packet number and the receiver fills in again, and
    the ranges from which acknowledgements are made. *)

From Stdlib Require Import ZArith Lia Bool.
From stdpp Require Import base list.
From S2P Require Import Prelude.

Open Scope Z_scope.
Open Scope list_scope.

(** ** Packet numbers *)

Definition InvalidPacketNumber : Z := -1.

(** [expected & ^mask], on a number that is not negative. *)
Definition clear_low (expected mask : Z) : Z := Z.ldiff expected mask.

Definition DecodePacketNumber (length largest truncated : Z) : Z :=
  let expected := largest + 1 in
  let win := Z.shiftl 1 (length * 8) in
  let hwin := Z.quot win 2 in
  let mask := win - 1 in
  let candidate := Z.lor (clear_low expected mask) truncated in
  if (candidate <=? expected - hwin) && (candidate <? Z.shiftl 1 62 - win) then candidate + win
  else if (expected + hwin <? candidate) && (win <=? candidate) then candidate - win
  else candidate.

Definition num_unacked (pn largestAcked : Z) : Z :=
  if largestAcked =? InvalidPacketNumber then pn + 1 else pn - largestAcked.

Definition PacketNumberLengthForHeader (pn largestAcked : Z) : Z :=
  let n := num_unacked pn largestAcked in
  if n <? Z.shiftl 1 (16 - 1) then 2 else if n <? Z.shiftl 1 (24 - 1) then 3 else 4.

Definition PacketNumberLengthForHeaderChrome (pn largestAcked cwndPackets : Z) : Z :=
  let delta := Z.max (num_unacked pn largestAcked) cwndPackets in
  if delta <? Z.quot (Z.shiftl 1 8) 4 then 1 else if delta <? Z.quot (Z.shiftl 1 16) 4 then 2 else 4.

(** The low bytes that are put in the header. *)
Definition truncate (length pn : Z) : Z := wrap_u (length * 8) pn.

(** ** The history *)

Record interval := mkInterval { Start : Z; End_ : Z }.

Definition MaxNumAckRanges : nat := 64.

Record receivedPacketHistory := mkHistory { ranges : list interval; deletedBelow : Z }.

#[export] Instance eta_receivedPacketHistory : Eta receivedPacketHistory := λ h, mkHistory (ranges h) (deletedBelow h).

Definition newReceivedPacketHistory : receivedPacketHistory := mkHistory [] InvalidPacketNumber.

Definition contains (p : Z) (r : interval) : bool := (Start r <=? p) && (p <=? End_ r).

(** [slices.Insert], [slices.Delete] of one element. *)
Definition insert_at {A} (i : nat) (x : A) (l : list A) : list A := take i l ++ x :: drop i l.

(** The loop of [addToRanges] over the indices below [n], from the top. *)
Fixpoint add_loop (n : nat) (p : Z) (rs : list interval) : list interval * bool :=
  match n with
  | O => (mkInterval p p :: rs, true)
  | S i =>
      match rs !! i with
      | None => (rs, false)
      | Some r =>
          if contains p r then (rs, false)
          else if End_ r =? p - 1 then (<[i := mkInterval (Start r) p]> rs, true)
          else if Start r =? p + 1 then
            let rs := <[i := mkInterval p (End_ r)]> rs in
            match i with
            | O => (rs, true)
            | S j =>
                match rs !! j with
                | Some q => if End_ q + 1 =? p then (delete i (<[j := mkInterval (Start q) (End_ r)]> rs), true)
                            else (rs, true)
                | None => (rs, true)
                end
            end
          else if End_ r <? p then (insert_at (S i) (mkInterval p p) rs, true)
          else add_loop i p rs
      end
  end.

Definition addToRanges (p : Z) (rs : list interval) : list interval * bool :=
  match rs with [] => ([mkInterval p p], true) | _ => add_loop (length rs) p rs end.

Definition ReceivedPacket (p : Z) (h : receivedPacketHistory) : receivedPacketHistory * bool :=
  if p <? deletedBelow h then (h, false)
  else
    let '(rs, isNew) := addToRanges p (ranges h) in
    (h <| ranges := drop (length rs - MaxNumAckRanges) rs |>, isNew).

(** The loop of [DeleteBelow]: the ranges it leaves. *)
Fixpoint delete_loop (p : Z) (rs : list interval) : list interval :=
  match rs with
  | [] => []
  | r :: rest =>
      if End_ r <? p then delete_loop p rest
      else if (Start r <? p) && (p <=? End_ r) then mkInterval p (End_ r) :: rest
      else r :: rest
  end.

Definition DeleteBelow (p : Z) (h : receivedPacketHistory) : receivedPacketHistory :=
  if p <? deletedBelow h then h
  else h <| deletedBelow := p |> <| ranges ::= delete_loop p |>.

(** [Backward]: the ranges, the highest first. *)
Definition Backward (h : receivedPacketHistory) : list interval := rev (ranges h).

(** The loop of [HighestMissingUpTo] over the ranges, the highest first. *)
Fixpoint missing_loop (p deleted : Z) (rs : list interval) : Z :=
  match rs with
  | [] => p
  | r :: rest =>
      if contains p r then
        let highest := Start r - 1 in
        if negb (deleted =? InvalidPacketNumber) && (highest <? deleted) then InvalidPacketNumber else highest
      else match rest with
           | q :: _ => if (End_ q <? p) && (p <=? Start r) then p else missing_loop p deleted rest
           | [] => p
           end
  end.

Definition HighestMissingUpTo (p : Z) (h : receivedPacketHistory) : Z :=
  match Backward h with
  | [] => InvalidPacketNumber
  | top :: _ =>
      if negb (deletedBelow h =? InvalidPacketNumber) && (p <? deletedBelow h) then InvalidPacketNumber
      else missing_loop (Z.min (End_ top) p) (deletedBelow h) (Backward h)
  end.

Fixpoint dup_loop (p : Z) (rs : list interval) : bool :=
  match rs with
  | [] => false
  | r :: rest => if End_ r <? p then false else if contains p r then true else dup_loop p rest
  end.

Definition IsPotentiallyDuplicate (p : Z) (h : receivedPacketHistory) : bool :=
  if p <? deletedBelow h then true else dup_loop p (Backward h).

(** ** Packet numbers: the lemmas *)

Lemma shiftl_1 n : 0 <= n → Z.shiftl 1 n = 2 ^ n.
Proof. intros Hn. rewrite Z.shiftl_mul_pow2 by done. lia. Qed.

Lemma clear_low_spec e n : 0 <= n → clear_low e (2 ^ n - 1) = 2 ^ n * (e / 2 ^ n).
Proof.
  intros Hn. unfold clear_low. rewrite Z.sub_1_r, <- Z.ones_equiv, Z.ldiff_ones_r, Z.shiftl_mul_pow2, Z.shiftr_div_pow2 by done.
  lia.
Qed.

Lemma lor_low k t n : 0 <= n → 0 <= t < 2 ^ n → Z.lor (2 ^ n * k) t = 2 ^ n * k + t.
Proof.
  intros Hn Ht. symmetry. rewrite Z.add_nocarry_lxor, Z.lxor_lor; [done|..].
  all: apply Z.bits_inj'; intros i Hi; rewrite Z.land_spec, Z.bits_0, (Z.mul_comm (2 ^ n)).
  all: destruct (Z.lt_ge_cases i n) as [Hlt|Hge]; [by rewrite Z.mul_pow2_bits_low|].
  all: rewrite <- (Z.mod_small t (2 ^ n)) by done; rewrite Z.mod_pow2_bits_high by lia; apply andb_false_r.
Qed.

(** The candidate is off by at most one window. *)
Lemma decode_cases e H W pn c :
  W = 2 * H → 0 < H → e - H < pn <= e + H → 0 <= pn < 4611686018427387904 →
  pn = c ∨ pn = c + W ∨ pn = c - W →
  (if (c <=? e - H) && (c <? 4611686018427387904 - W) then c + W
   else if (e + H <? c) && (W <=? c) then c - W else c) = pn.
Proof.
  intros HW HH Hwin Hpn Hc.
  destruct (Z.leb_spec c (e - H)), (Z.ltb_spec c (4611686018427387904 - W)), (Z.ltb_spec (e + H) c), (Z.leb_spec W c);
    cbn [andb]; lia.
Qed.

Lemma decode_truncated length largest pn :
  1 <= length <= 4 → -1 <= largest → 0 <= pn < 2 ^ 62 →
  largest + 1 - 2 ^ (8 * length - 1) < pn <= largest + 1 + 2 ^ (8 * length - 1) →
  DecodePacketNumber length largest (truncate length pn) = pn.
Proof.
  intros Hl Hla Hpn Hwin. unfold DecodePacketNumber, truncate, wrap_u.
  rewrite !shiftl_1 by lia. rewrite clear_low_spec by lia. replace (8 * length) with (length * 8) in Hwin by lia.
  assert (2 ^ (length * 8) = 2 * 2 ^ (length * 8 - 1)) as HW by (rewrite <- Z.pow_succ_r by lia; f_equal; lia).
  assert (0 < 2 ^ (length * 8 - 1)) as Hh by (apply Z.pow_pos_nonneg; lia).
  assert (2 ^ (length * 8) <= 2 ^ 32) as H32 by (apply Z.pow_le_mono_r; lia).
  rewrite lor_low by (try apply Z.mod_pos_bound; lia).
  assert (Z.quot (2 ^ (length * 8)) 2 = 2 ^ (length * 8 - 1)) as ->
    by (rewrite Z.quot_div_nonneg by lia; rewrite HW, Z.mul_comm; apply Z.div_mul; lia).
  set (W := 2 ^ (length * 8)) in *. set (H := 2 ^ (length * 8 - 1)) in *. set (e := largest + 1) in *.
  pose proof (Z.div_mod e W ltac:(lia)) as He. pose proof (Z.mod_pos_bound e W ltac:(lia)).
  pose proof (Z.div_mod pn W ltac:(lia)) as Hp. pose proof (Z.mod_pos_bound pn W ltac:(lia)).
  set (ke := e / W) in *. set (kp := pn / W) in *. change (2 ^ 62) with 4611686018427387904 in *.
  change (2 ^ 32) with 4294967296 in *.
  assert (kp = ke ∨ kp = ke + 1 ∨ kp = ke - 1) as [E|[E|E]] by nia.
  all: apply (decode_cases e H W); [done..|]; rewrite Hp at 1; rewrite E; lia.
Qed.


(** The packet number in a header is enough. The length a sender chooses from
    what it knows was acknowledged ([la]) lets a receiver whose largest packet is
    [largest] rebuild the full number, as long as fewer than 32767 (or, in the
    imitation of Chrome, at most a congestion window of) later packets overtook
    this one and fewer than 2^31 are unacknowledged. *)
Theorem packet_number_recovered pn la largest cwnd :
  0 <= pn < 2 ^ 62 → -1 <= la <= largest → pn - la < 2 ^ 31 →
  (largest - pn < 2 ^ 15 - 1 →
     let n := PacketNumberLengthForHeader pn la in DecodePacketNumber n largest (truncate n pn) = pn) ∧
  (0 <= cwnd < 2 ^ 30 → largest - pn <= cwnd →
     let n := PacketNumberLengthForHeaderChrome pn la cwnd in DecodePacketNumber n largest (truncate n pn) = pn).
Proof.
  intros Hpn Hla Hun. assert (num_unacked pn la = pn - la) as Eu.
  { unfold num_unacked. destruct (Z.eqb_spec la InvalidPacketNumber) as [->|]; unfold InvalidPacketNumber; lia. }
  split; [intros Hd|intros Hc Hd]; cbv zeta.
  - unfold PacketNumberLengthForHeader. rewrite Eu. change (Z.shiftl 1 (16 - 1)) with 32768.
    change (Z.shiftl 1 (24 - 1)) with 8388608.
    destruct (Z.ltb_spec (pn - la) 32768) as [H|H]; [|destruct (Z.ltb_spec (pn - la) 8388608) as [H1|H1]].
    all: apply decode_truncated; cbn in *; lia.
  - unfold PacketNumberLengthForHeaderChrome. rewrite Eu. change (Z.quot (Z.shiftl 1 8) 4) with 64.
    change (Z.quot (Z.shiftl 1 16) 4) with 16384.
    destruct (Z.ltb_spec (Z.max (pn - la) cwnd) 64) as [H|H]; [|destruct (Z.ltb_spec (Z.max (pn - la) cwnd) 16384) as [H1|H1]].
    all: apply decode_truncated; cbn in *; lia.
Qed.

Lemma packet_number_recovered_witness :
  PacketNumberLengthForHeader 70000 69990 = 2 ∧ truncate 2 70000 = 4464 ∧ DecodePacketNumber 2 69995 4464 = 70000.
Proof.
  split; [reflexivity|]. split; [reflexivity|].
  apply (packet_number_recovered 70000 69990 69995 0); cbn; lia.
Defined.

(** ** The ranges *)

Definition received (p : Z) (rs : list interval) : Prop := ∃ r, r ∈ rs ∧ Start r <= p <= End_ r.

(** In order, from [lo] on, with a gap between any two. *)
Fixpoint ranges_ok (lo : Z) (rs : list interval) : Prop :=
  match rs with
  | [] => True
  | r :: rest => lo <= Start r <= End_ r ∧ ranges_ok (End_ r + 2) rest
  end.

Definition after (lo : Z) (rs : list interval) : Z := match last rs with Some r => End_ r + 2 | None => lo end.

Lemma received_nil p : ¬ received p [].
Proof. by intros (r & ?%elem_of_nil & _). Qed.

Lemma received_cons p r rs : received p (r :: rs) ↔ Start r <= p <= End_ r ∨ received p rs.
Proof.
  split.
  - intros (q & [->|Hin]%elem_of_cons & Hq); [by left|right; by exists q].
  - intros [H|(q & Hin & Hq)]; [exists r; split; [by left|done]|exists q; split; [by right|done]].
Qed.

Lemma received_app p a b : received p (a ++ b) ↔ received p a ∨ received p b.
Proof.
  induction a as [|r a IH]; cbn [app]; [|rewrite !received_cons, IH; tauto].
  split; [by right|intros [H|H]; [by apply received_nil in H|done]].
Qed.

Lemma after_app lo a b : after lo (a ++ b) = after (after lo a) b.
Proof. unfold after. rewrite last_app. by destruct (last b). Qed.

Lemma ranges_ok_app lo a b : ranges_ok lo (a ++ b) ↔ ranges_ok lo a ∧ ranges_ok (after lo a) b.
Proof.
  revert lo. induction a as [|r a IH]; intros lo; cbn [app ranges_ok]; [tauto|].
  rewrite IH. assert (after lo (r :: a) = after (End_ r + 2) a) as ->; [|tauto].
  change (r :: a) with ([r] ++ a). by rewrite after_app.
Qed.

Lemma ranges_ok_mono lo lo' rs : lo' <= lo → ranges_ok lo rs → ranges_ok lo' rs.
Proof. destruct rs as [|r rs]; [done|]. cbn. intros ? [? ?]. split; [lia|done]. Qed.

Lemma received_lower lo rs p : ranges_ok lo rs → received p rs → lo <= p.
Proof.
  revert lo. induction rs as [|r rs IH]; intros lo; [by intros _ ?%received_nil|]. cbn. rewrite received_cons.
  intros [Hr Hrs] [H|H]; [lia|]. specialize (IH _ Hrs H). lia.
Qed.

Lemma received_upper lo rs p : ranges_ok lo rs → received p rs → p + 2 <= after lo rs.
Proof.
  revert lo. induction rs as [|r rs IH]; intros lo; [by intros _ ?%received_nil|]. cbn [ranges_ok].
  rewrite received_cons. intros [Hr Hrs] H. change (r :: rs) with ([r] ++ rs). rewrite after_app. change (after lo [r]) with (End_ r + 2).
  assert (End_ r + 2 <= after (End_ r + 2) rs) as Hle.
  { clear -Hrs. revert Hrs. generalize (End_ r + 2). induction rs as [|q rs IH]; intros lo; [done|].
    cbn [ranges_ok]. intros [Hq H]. change (q :: rs) with ([q] ++ rs). rewrite after_app.
    change (after lo [q]) with (End_ q + 2). specialize (IH _ H). lia. }
  destruct H as [H|H]; [lia|]. by apply IH.
Qed.

Lemma insert_middle {A} (pre post : list A) x y : <[length pre := y]> (pre ++ x :: post) = pre ++ y :: post.
Proof. induction pre as [|z pre IH]; [done|]. cbn. by f_equal. Qed.

Lemma delete_middle {A} (pre post : list A) x : delete (length pre) (pre ++ x :: post) = pre ++ post.
Proof. induction pre as [|z pre IH]; [done|]. cbn. by f_equal. Qed.

Lemma lookup_middle {A} (pre post : list A) x : (pre ++ x :: post) !! length pre = Some x.
Proof. induction pre as [|z pre IH]; [done|]. done. Qed.

Lemma insert_at_middle {A} (pre post : list A) x y : insert_at (S (length pre)) y (pre ++ x :: post) = pre ++ x :: y :: post.
Proof.
  unfold insert_at. assert (S (length pre) = length (pre ++ [x])) as E by (rewrite length_app; cbn; lia).
  replace (pre ++ x :: post) with ((pre ++ [x]) ++ post) by (by rewrite <- app_assoc). rewrite E, take_app_length, drop_app_length.
  by rewrite <- app_assoc.
Qed.

Lemma contains_spec p r : contains p r = true ↔ Start r <= p <= End_ r.
Proof. unfold contains. rewrite andb_true_iff, !Z.leb_le. done. Qed.

(** What adding [p] promises. *)
Definition added (lo p : Z) (rs : list interval) (res : list interval * bool) : Prop :=
  ranges_ok lo res.1 ∧ (res.2 = true ↔ ¬ received p rs) ∧ ∀ q, received q res.1 ↔ q = p ∨ received q rs.

Definition above (p : Z) (rs : list interval) : Prop := match rs with [] => True | r :: _ => p + 1 < Start r end.

Lemma above_absent lo p rs : ranges_ok lo rs → above p rs → ¬ received p rs.
Proof.
  destruct rs as [|r rs]; [by intros _ _ ?%received_nil|]. cbn. rewrite received_cons. intros [Hr Hrs] Ha [H|H]; [lia|].
  apply (received_lower _ _ _ Hrs) in H. lia.
Qed.

Lemma last_split {A} (l : list A) : l = [] ∨ ∃ l' x, l = l' ++ [x].
Proof. destruct l as [|x l] using rev_ind; [by left|right; by exists l, x]. Qed.

Lemma add_loop_ok lo p pre post :
  ranges_ok lo (pre ++ post) → lo <= p → above p post → added lo p (pre ++ post) (add_loop (length pre) p (pre ++ post)).
Proof.
  intros Hok Hlo. revert post Hok. induction pre as [|r pre IH] using rev_ind; intros post Hok Hab.
  { cbn. split; [|split; cbn].
    - cbn. split; [lia|]. destruct post as [|q post]; [done|]. cbn in Hok, Hab |- *. split; [lia|apply Hok].
    - split; [|done]. intros _. by eapply above_absent.
    - intros q. rewrite received_cons. cbn. split; intros [?|?]; try (by right); left; lia. }
  rewrite length_app, Nat.add_1_r. rewrite <- app_assoc in *. cbn [app add_loop]. rewrite lookup_middle.
  apply ranges_ok_app in Hok as [Hpre Hok]. cbn [ranges_ok] in Hok. destruct Hok as [Hr Hpost].
  assert (¬ received p post) as Hnp by (by eapply above_absent).
  assert (Start r <= p → ¬ received p pre) as Hnpre.
  { intros Hp H. apply (received_upper _ _ _ Hpre) in H. lia. }
  assert (∀ q, received q (pre ++ r :: post) ↔ received q pre ∨ Start r <= q <= End_ r ∨ received q post) as Hrec
    by (intros q; by rewrite received_app, received_cons).
  destruct (contains p r) eqn:Ec; [apply contains_spec in Ec|].
  { split; [apply ranges_ok_app; by split|]. split; cbn [snd fst].
    - split; [done|]. intros H. destruct H. apply Hrec. tauto.
    - intros q. split; [by right|]. intros [->|]; [apply Hrec; tauto|done]. }
  assert (p < Start r ∨ End_ r < p) as Hout.
  { destruct (Z.lt_ge_cases p (Start r)); [by left|]. destruct (Z.lt_ge_cases (End_ r) p); [by right|].
    assert (contains p r = true) by (apply contains_spec; lia). congruence. }
  clear Ec. destruct (Z.eqb_spec (End_ r) (p - 1)) as [Ee|Ee].
  { rewrite insert_middle. split; [|split]; cbn [fst snd].
    - apply ranges_ok_app. split; [done|]. cbn. split; [lia|]. destruct post as [|q post]; [done|].
      cbn in Hpost, Hab |- *. split; [lia|apply Hpost].
    - split; [|done]. intros _ [H|[H|H]]%Hrec; [apply Hnpre in H; lia|lia|done].
    - intros q. rewrite received_app, received_cons, Hrec. cbn.
      assert (Start r <= q <= p ↔ q = p ∨ Start r <= q <= End_ r) as -> by lia. tauto. }
  destruct (Z.eqb_spec (Start r) (p + 1)) as [Es|Es].
  { rewrite insert_middle. destruct (last_split pre) as [->|(pre' & q & ->)].
    - cbn [length app]. split; [|split]; cbn [fst snd].
      + cbn. split; [lia|done].
      + split; [|done]. intros _ [H|[H|H]]%Hrec; [by apply received_nil in H|lia|done].
      + intros x. rewrite received_cons, (received_cons x r). cbn.
        assert (p <= x <= End_ r ↔ x = p ∨ Start r <= x <= End_ r) as -> by lia. tauto.
    - rewrite length_app, Nat.add_1_r. rewrite <- !app_assoc. cbn [app]. rewrite lookup_middle.
      apply ranges_ok_app in Hpre as [Hpre' Hq]. cbn [ranges_ok] in Hq. rewrite after_app in Hr.
      change (after (after lo pre') [q]) with (End_ q + 2) in Hr.
      assert (¬ received p (pre' ++ q :: r :: post)) as Hnew.
      { rewrite received_app, !received_cons. intros [H|[H|[H|H]]]; [|lia..|done].
        apply (received_upper _ _ _ Hpre') in H. lia. }
      destruct (Z.eqb_spec (End_ q + 1) p) as [Em|Em].
      + rewrite insert_middle. replace (pre' ++ mkInterval (Start q) (End_ r) :: mkInterval p (End_ r) :: post)
          with ((pre' ++ [mkInterval (Start q) (End_ r)]) ++ mkInterval p (End_ r) :: post) by (by rewrite <- app_assoc).
        assert (S (length pre') = length (pre' ++ [mkInterval (Start q) (End_ r)])) as -> by (rewrite length_app; cbn; lia).
        rewrite delete_middle, <- app_assoc. cbn [app]. split; [|split]; cbn [fst snd].
        * apply ranges_ok_app. split; [done|]. cbn. split; [lia|done].
        * by split.
        * intros x. rewrite !received_app, !received_cons. cbn.
          assert (Start q <= x <= End_ r ↔ x = p ∨ Start q <= x <= End_ q ∨ Start r <= x <= End_ r) as -> by lia. tauto.
      + split; [|split]; cbn [fst snd].
        * apply ranges_ok_app. split; [done|]. cbn. split; [apply Hq|]. split; [lia|done].
        * by split.
        * intros x. rewrite !received_app, !received_cons. cbn.
          assert (p <= x <= End_ r ↔ x = p ∨ Start r <= x <= End_ r) as -> by lia. tauto. }
  destruct (Z.ltb_spec (End_ r) p) as [Hgt|Hle].
  { rewrite insert_at_middle. split; [|split]; cbn [fst snd].
    - apply ranges_ok_app. split; [done|]. cbn. split; [done|]. split; [lia|]. destruct post as [|q post]; [done|].
      cbn in Hpost, Hab |- *. split; [lia|apply Hpost].
    - split; [|done]. intros _ [H|[H|H]]%Hrec; [apply Hnpre in H; lia|lia|done].
    - intros q. rewrite received_app, !received_cons, Hrec. cbn. assert (p <= q <= p ↔ q = p) as -> by lia. tauto. }
  apply IH; [apply ranges_ok_app; by split|]. cbn. lia.
Qed.

Lemma addToRanges_ok lo p rs : ranges_ok lo rs → lo <= p → added lo p rs (addToRanges p rs).
Proof.
  intros Hok Hlo. destruct rs as [|r rs].
  - split; [|split]; cbn; [lia|by split; [intros _ ?%received_nil|]|].
    intros q. rewrite received_cons. cbn. split; intros [?|?]; try (by right); left; lia.
  - unfold addToRanges. pose proof (add_loop_ok lo p (r :: rs) []) as H. rewrite app_nil_r in H. by apply H.
Qed.

(** ** The operations *)

Definition floor (h : receivedPacketHistory) : Z := Z.max 0 (deletedBelow h).

Definition history_ok (h : receivedPacketHistory) : Prop :=
  ranges_ok (floor h) (ranges h) ∧ (length (ranges h) <= MaxNumAckRanges)%nat.

Lemma history_ok_new : history_ok newReceivedPacketHistory.
Proof. split; cbn; [done|lia]. Qed.

Lemma received_split_lt lo a b q s : ranges_ok lo (a ++ b) → received q a → received s b → q < s.
Proof.
  intros [Ha Hb]%ranges_ok_app Hq Hs. apply (received_upper _ _ _ Ha) in Hq. apply (received_lower _ _ _ Hb) in Hs. lia.
Qed.

Lemma ranges_ok_after lo rs : ranges_ok lo rs → lo <= after lo rs.
Proof.
  revert lo. induction rs as [|r rs IH]; intros lo; [done|]. cbn [ranges_ok]. intros [Hr Hrs].
  change (r :: rs) with ([r] ++ rs). rewrite after_app. change (after lo [r]) with (End_ r + 2). specialize (IH _ Hrs). lia.
Qed.

Lemma ranges_ok_elem lo rs q : ranges_ok lo rs → q ∈ rs → lo <= Start q <= End_ q.
Proof.
  revert lo. induction rs as [|r rs IH]; intros lo; [by intros _ ?%elem_of_nil|]. cbn. intros [Hr Hrs] [->|H]%elem_of_cons; [lia|].
  specialize (IH _ Hrs H). lia.
Qed.

Lemma ranges_ok_drop lo n rs : ranges_ok lo rs → ranges_ok lo (drop n rs).
Proof.
  intros H. rewrite <- (take_drop n rs) in H. apply ranges_ok_app in H as [H1 H2].
  eapply ranges_ok_mono; [|exact H2]. by apply ranges_ok_after.
Qed.

Lemma dup_loop_spec lo p rs : ranges_ok lo rs → dup_loop p (rev rs) = true ↔ received p rs.
Proof.
  induction rs as [|r rs IH] using rev_ind; intros Hok; [split; [done|by intros ?%received_nil]|].
  rewrite rev_app_distr. cbn [rev app dup_loop]. apply ranges_ok_app in Hok as [Hrs Hr].
  rewrite received_app, received_cons. cbn in Hr.
  destruct (Z.ltb_spec (End_ r) p) as [H|H].
  - split; [done|]. intros [Hp|[Hp|Hp]]; [|lia|by apply received_nil in Hp].
    apply (received_upper _ _ _ Hrs) in Hp. lia.
  - destruct (contains p r) eqn:E; [apply contains_spec in E; tauto|].
    assert (¬ Start r <= p <= End_ r) by (rewrite <- contains_spec; congruence).
    rewrite (IH Hrs). split; [by left|]. intros [?|[?|Hp]]; [done..|by apply received_nil in Hp].
Qed.

Lemma duplicate_spec p h :
  history_ok h → IsPotentiallyDuplicate p h = true ↔ p < deletedBelow h ∨ received p (ranges h).
Proof.
  intros [Hok _]. unfold IsPotentiallyDuplicate, Backward. destruct (Z.ltb_spec p (deletedBelow h)); [tauto|].
  rewrite (dup_loop_spec _ _ _ Hok). split; [by right|]. intros [?|?]; [lia|done].
Qed.

Lemma delete_shorter {A} i (l : list A) : (length (delete i l) <= length l)%nat.
Proof. rewrite delete_take_drop, length_app, length_take, length_drop. lia. Qed.

Lemma add_loop_length n p rs : (n <= length rs)%nat → (length (add_loop n p rs).1 <= S (length rs))%nat.
Proof.
  induction n as [|n IH]; intros Hn; cbn [add_loop]; [done|]. destruct (rs !! n) as [r|]; [|cbn; lia].
  repeat case_match; cbn [fst]; rewrite ?length_insert; try lia; try (apply IH; lia).
  - etransitivity; [apply delete_shorter|]. rewrite !length_insert. lia.
  - unfold insert_at. rewrite length_app. cbn [length]. rewrite length_take, length_drop. lia.
Qed.

Lemma addToRanges_length p rs : (length (addToRanges p rs).1 <= S (length rs))%nat.
Proof. destruct rs as [|r rs]; [done|]. by apply add_loop_length. Qed.

(** What registering a packet does. The packet counts as new exactly when it
    was not asked to be ignored and is in no range, which is what
    [IsPotentiallyDuplicate] says beforehand: a caller that asks first never runs
    into the tracker's error. Afterwards the ranges are ordered, apart, and at most
    64; they hold the packet and all they held before, except that when there
    would be too many the lowest are forgotten. *)
Theorem packet_registered p h :
  history_ok h → 0 <= p →
  let '(h', isNew) := ReceivedPacket p h in
  history_ok h' ∧ deletedBelow h' = deletedBelow h ∧ isNew = negb (IsPotentiallyDuplicate p h) ∧
  (isNew = true ↔ deletedBelow h <= p ∧ ¬ received p (ranges h)) ∧
  (∀ q, received q (ranges h') → (q = p ∧ deletedBelow h <= p) ∨ received q (ranges h)) ∧
  ∀ q, (q = p ∧ deletedBelow h <= p) ∨ received q (ranges h) →
    received q (ranges h') ∨
    length (ranges h') = MaxNumAckRanges ∧ ∀ s, received s (ranges h') → q < s.
Proof.
  intros Hh Hp. pose proof (duplicate_spec p h Hh) as Hdup. destruct Hh as [Hok Hlen]. unfold ReceivedPacket.
  assert (IsPotentiallyDuplicate p h = true ∨ IsPotentiallyDuplicate p h = false) as Hb by (destruct IsPotentiallyDuplicate; auto).
  destruct (Z.ltb_spec p (deletedBelow h)) as [Hd|Hd].
  { rewrite (proj2 Hdup) by (by left). split; [done|]. do 2 (split; [done|]). split; [split; [done|lia]|].
    split; [by right|]. intros q [?|?]; [lia|by left]. }
  pose proof (addToRanges_ok (floor h) p (ranges h) Hok ltac:(unfold floor; lia)) as (Hok' & Hnew & Hrec).
  pose proof (addToRanges_length p (ranges h)) as Hl. destruct (addToRanges p (ranges h)) as [rs isNew]. cbn in Hok', Hnew, Hrec, Hl.
  set (k := (length rs - MaxNumAckRanges)%nat). cbn [ranges deletedBelow]. split.
  { split; cbn; [by apply ranges_ok_drop|]. rewrite length_drop. unfold k, MaxNumAckRanges in *. lia. }
  split; [done|]. split.
  { destruct isNew, Hb as [Hb|Hb]; rewrite Hb; try done.
    - apply Hdup in Hb as [Hb|Hb]; [lia|]. by destruct (proj1 Hnew eq_refl).
    - assert (received p (ranges h) → False) as H by (intros H; rewrite (proj2 Hdup) in Hb by (by right); done).
      discriminate (proj2 Hnew H). }
  split; [rewrite Hnew; tauto|]. split.
  { intros q Hq. assert (received q rs) as H%Hrec by (rewrite <- (take_drop k rs), received_app; by right).
    destruct H as [->|H]; [left; done|by right]. }
  intros q Hq. assert (received q rs) as H by (apply Hrec; tauto). rewrite <- (take_drop k rs) in H.
  apply received_app in H as [H|H]; [|by left]. right. split.
  - change (length (drop k rs) = MaxNumAckRanges). rewrite length_drop. assert (k <> 0)%nat by (intros E; rewrite E in H; by apply received_nil in H).
    unfold k, MaxNumAckRanges in *. lia.
  - intros s Hs. apply (received_split_lt (floor h) (take k rs) (drop k rs)); [by rewrite take_drop|exact H|exact Hs].
Qed.

Lemma packet_registered_witness :
  let h := mkHistory [mkInterval 1 3; mkInterval 5 5] 0 in
  ReceivedPacket 4 h = (mkHistory [mkInterval 1 5] 0, true) ∧ IsPotentiallyDuplicate 4 h = false ∧ history_ok (ReceivedPacket 4 h).1.
Proof.
  split; [reflexivity|]. split; [reflexivity|].
  assert (history_ok (mkHistory [mkInterval 1 3; mkInterval 5 5] 0)) as Hh
    by (split; [vm_compute; intuition congruence|vm_compute; lia]).
  exact (proj1 (packet_registered 4 (mkHistory [mkInterval 1 3; mkInterval 5 5] 0) Hh ltac:(lia))).
Defined.

(** The limit of 64 ranges costs the detection of replays: with 64 ranges kept,
    a packet more than one below the lowest of them is registered and forgotten in
    the same call. It counts as new, and so does every later copy of it. *)
Theorem low_packet_always_new p h r rest :
  history_ok h → ranges h = r :: rest → length (ranges h) = MaxNumAckRanges →
  Z.max 0 (deletedBelow h) <= p → p + 1 < Start r →
  ReceivedPacket p h = (h, true) ∧ IsPotentiallyDuplicate p h = false.
Proof.
  intros [Hok Hlen] Er El Hp Hlt. assert (¬ received p (r :: rest)) as Hn.
  { rewrite Er in Hok. eapply above_absent; [exact Hok|cbn; lia]. }
  split.
  - unfold ReceivedPacket. rewrite (proj2 (Z.ltb_ge p (deletedBelow h))) by lia.
    assert (addToRanges p (ranges h) = (mkInterval p p :: ranges h, true)) as E.
    { assert (∀ n, (n <= length (ranges h))%nat → add_loop n p (ranges h) = (mkInterval p p :: ranges h, true)) as Hloop.
      { induction n as [|n IH]; [done|]. intros Hn'. cbn [add_loop]. destruct (lookup_lt_is_Some_2 (ranges h) n ltac:(lia)) as [q Eq].
        rewrite Eq. assert (Start r <= Start q <= End_ q) as H.
        { apply (ranges_ok_elem _ (r :: rest)); [|rewrite <- Er; by eapply list_elem_of_lookup_2].
          rewrite Er in Hok. cbn in Hok |- *. split; [lia|apply Hok]. }
        unfold contains. rewrite (proj2 (Z.leb_gt (Start q) p)), (proj2 (Z.eqb_neq (End_ q) (p - 1))),
          (proj2 (Z.eqb_neq (Start q) (p + 1))), (proj2 (Z.ltb_ge (End_ q) p)) by lia. cbn [andb]. apply IH. lia. }
      unfold addToRanges. rewrite Hloop by done. by rewrite Er. }
    rewrite E. cbn [length]. rewrite El. destruct h as [rs d]. cbn in *. done.
  - destruct (IsPotentiallyDuplicate p h) eqn:E; [|done]. apply duplicate_spec in E; [|by split].
    rewrite Er in E. destruct E; [lia|done].
Qed.

Definition many_gaps : receivedPacketHistory :=
  foldl (λ h i, (ReceivedPacket (2 * Z.of_nat i) h).1) newReceivedPacketHistory (seq 0 70).

Lemma low_packet_always_new_witness :
  IsPotentiallyDuplicate 6 many_gaps = false ∧ ReceivedPacket 6 many_gaps = (many_gaps, true).
Proof.
  destruct (low_packet_always_new 6 many_gaps (mkInterval 12 12) (drop 1 (ranges many_gaps))) as [H1 H2].
  - split; [vm_compute; intuition congruence|vm_compute; lia].
  - vm_compute. reflexivity.
  - vm_compute. reflexivity.
  - vm_compute. congruence.
  - vm_compute. reflexivity.
  - split; [exact H2|exact H1].
Defined.

Lemma delete_loop_spec lo p rs :
  ranges_ok lo rs →
  ranges_ok (Z.max lo p) (delete_loop p rs) ∧ (length (delete_loop p rs) <= length rs)%nat ∧
  ∀ q, received q (delete_loop p rs) ↔ received q rs ∧ p <= q.
Proof.
  revert lo. induction rs as [|r rs IH]; intros lo.
  { intros _. split; [done|]. split; [done|]. intros q. split; [by intros ?%received_nil|by intros [?%received_nil ?]]. }
  cbn [ranges_ok delete_loop length]. intros [Hr Hrs]. destruct (Z.ltb_spec (End_ r) p) as [H|H].
  { destruct (IH _ Hrs) as (H1 & H2 & H3). split; [eapply ranges_ok_mono; [|exact H1]; lia|]. split; [lia|].
    intros q. rewrite H3, received_cons. split; [tauto|]. intros [[Hq|Hq] ?]; [lia|done]. }
  assert (∀ q, received q rs → p <= q) as Hlow by (intros q Hq; apply (received_lower _ _ _ Hrs) in Hq; lia).
  destruct (Z.ltb_spec (Start r) p) as [H'|H'].
  - rewrite (proj2 (Z.leb_le _ _) H). cbn [andb]. split; [split; [cbn; lia|done]|]. split; [done|].
    intros q. rewrite !received_cons. cbn [Start End_]. specialize (Hlow q).
    assert (p <= q <= End_ r ↔ Start r <= q <= End_ r ∧ p <= q) as -> by lia. tauto.
  - cbn [andb]. split; [split; [lia|done]|]. split; [done|]. intros q. rewrite !received_cons. specialize (Hlow q).
    assert (Start r <= q <= End_ r → p <= q) by lia. tauto.
Qed.

(** Ignoring below [p] forgets just what is below it, and is never taken back. *)
Lemma DeleteBelow_spec p h :
  history_ok h →
  history_ok (DeleteBelow p h) ∧ deletedBelow (DeleteBelow p h) = Z.max p (deletedBelow h) ∧
  ∀ q, received q (ranges (DeleteBelow p h)) ↔ received q (ranges h) ∧ p <= q.
Proof.
  intros [Hok Hlen]. unfold DeleteBelow. destruct (Z.ltb_spec p (deletedBelow h)) as [H|H].
  - split; [done|]. split; [lia|]. intros q. split; [|tauto]. intros Hq. split; [done|].
    apply (received_lower _ _ _ Hok) in Hq. unfold floor in Hq. lia.
  - destruct (delete_loop_spec _ p _ Hok) as (H1 & H2 & H3). split; [|split; [cbn; lia|exact H3]].
    split; [|cbn; unfold MaxNumAckRanges in *; lia]. cbn. eapply ranges_ok_mono; [|exact H1]. unfold floor. cbn. lia.
Qed.

(** Where [missing_loop] ends up: every number above it, up to [p], was received. *)
Lemma missing_loop_spec lo p deleted rs :
  lo = Z.max 0 deleted → -1 <= deleted → ranges_ok lo rs → lo <= p → p + 2 <= after (p + 2) rs →
  let x := missing_loop p deleted (rev rs) in
  (x = -1 ∧ ∀ q, lo <= q <= p → received q rs) ∨
  (lo <= x <= p ∧ ¬ received x rs ∧ ∀ q, x < q <= p → received q rs).
Proof.
  intros Elo Hdel. induction rs as [|r rs IH] using rev_ind; intros Hok Hlo Htop; cbv zeta.
  { right. cbn. split; [lia|]. split; [apply received_nil|lia]. }
  rewrite rev_app_distr. cbn [rev app missing_loop]. apply ranges_ok_app in Hok as [Hrs Hr]. cbn [ranges_ok] in Hr.
  rewrite after_app in Htop. change (after (after (p + 2) rs) [r]) with (End_ r + 2) in Htop.
  assert (∀ q, received q (rs ++ [r]) ↔ received q rs ∨ Start r <= q <= End_ r) as Hrec.
  { intros q. rewrite received_app, received_cons. split; [|tauto]. intros [?|[?|?%received_nil]]; tauto. }
  destruct (contains p r) eqn:Ec; [apply contains_spec in Ec|].
  { assert (¬ received (Start r - 1) (rs ++ [r])) as Hgap.
    { rewrite Hrec. intros [H|H]; [|lia]. apply (received_upper _ _ _ Hrs) in H. lia. }
    assert (lo <= Start r) as Hlr by (apply ranges_ok_after in Hrs; lia).
    destruct (negb (deleted =? InvalidPacketNumber) && (Start r - 1 <? deleted)) eqn:Ed.
    - apply andb_prop in Ed as [_ Ed%Z.ltb_lt]. left. split; [done|]. intros q Hq. apply Hrec. right. lia.
    - destruct (Z.lt_ge_cases (Start r - 1) lo) as [Hx|Hx].
      + left. assert (deleted = -1) as ->.
        { destruct (Z.eqb_spec deleted InvalidPacketNumber) as [->|Hne]; [done|]. cbn [negb andb] in Ed. apply Z.ltb_ge in Ed. lia. }
        split; [cbn in Elo; lia|]. intros q Hq. apply Hrec. right. lia.
      + right. split; [lia|]. split; [done|]. intros q Hq. apply Hrec. right. lia. }
  assert (p < Start r) as Hps.
  { destruct (Z.lt_ge_cases p (Start r)); [done|]. assert (contains p r = true) by (apply contains_spec; lia). congruence. }
  destruct (last_split rs) as [->|(rs' & q & ->)].
  { right. cbn. split; [lia|]. split; [|lia]. rewrite Hrec. intros [?%received_nil|?]; [done|lia]. }
  rewrite rev_app_distr. cbn [rev app].
  destruct (Z.ltb_spec (End_ q) p) as [Hq|Hq].
  { rewrite (proj2 (Z.leb_le p (Start r))) by lia. cbn [andb]. right. split; [lia|]. split; [|lia].
    rewrite Hrec. intros [H|H]; [|lia]. apply (received_upper _ _ _ Hrs) in H. rewrite after_app in H.
    change (after (after lo rs') [q]) with (End_ q + 2) in H. lia. }
  cbn [andb]. rewrite rev_app_distr in IH. cbn [rev app] in IH.
  assert (p + 2 <= after (p + 2) (rs' ++ [q])) as Htop'.
  { rewrite after_app. change (after (after (p + 2) rs') [q]) with (End_ q + 2). lia. }
  destruct (IH Hrs Hlo Htop') as [[-> H]|(H1 & H2 & H3)].
  - left. split; [done|]. intros x Hx. apply Hrec. left. by apply H.
  - right. split; [done|]. split; [rewrite Hrec; intros [?|?]; [done|lia]|]. intros x Hx. apply Hrec. left. by apply H3.
Qed.

(** [HighestMissingUpTo] finds what it says: the highest number up to [p] (and
    up to the highest one received) that is neither received nor to be ignored, and
    says there is none only when there is none. *)
Theorem highest_missing_found p h r :
  history_ok h → -1 <= deletedBelow h → last (ranges h) = Some r → Z.max 0 (deletedBelow h) <= p →
  let x := HighestMissingUpTo p h in
  let top := Z.min (End_ r) p in
  (x = InvalidPacketNumber ∧ ∀ q, Z.max 0 (deletedBelow h) <= q <= top → received q (ranges h)) ∨
  (Z.max 0 (deletedBelow h) <= x <= top ∧ ¬ received x (ranges h) ∧ ∀ q, x < q <= top → received q (ranges h)).
Proof.
  intros [Hok _] Hdel El Hp x top. apply last_Some in El as [l El].
  assert (x = missing_loop top (deletedBelow h) (rev (ranges h))) as ->.
  { unfold x, HighestMissingUpTo, Backward. rewrite El, rev_app_distr. cbn [rev app]. fold top.
    rewrite (proj2 (Z.ltb_ge p (deletedBelow h))) by lia. by rewrite andb_false_r. }
  assert (Z.max 0 (deletedBelow h) <= top) as Htop.
  { rewrite El in Hok. apply ranges_ok_app in Hok as [Hl Hr]. apply ranges_ok_after in Hl. cbn in Hr. unfold floor, top in *. lia. }
  apply (missing_loop_spec (floor h) top); [done..|].
  rewrite El, after_app. change (after (after (top + 2) l) [r]) with (End_ r + 2). unfold top. lia.
Qed.

Lemma highest_missing_found_witness :
  let h := mkHistory [mkInterval 1 3; mkInterval 7 9] 0 in
  HighestMissingUpTo 8 h = 6 ∧ ¬ received 6 (ranges h).
Proof.
  split; [reflexivity|].
  destruct (highest_missing_found 8 (mkHistory [mkInterval 1 3; mkInterval 7 9] 0) (mkInterval 7 9)) as [[H _]|(_ & H & _)].
  - split; [vm_compute; intuition congruence|vm_compute; lia].
  - done.
  - reflexivity.
  - done.
  - discriminate H.
  - exact H.
Defined.
