(* ===== verification/Wire.v ===== *)
(** * Reading and writing the fields of QUIC frames
    (what the files of [quic-go/internal/wire] share)

    A frame is parsed field by field: each field takes bytes off the front of what
    is left of the packet, or the parse ends in an error. A frame is written field
    by field as well; writing a number that does not fit a varint panics. *)

From Stdlib Require Import ZArith Lia Bool String.
From stdpp Require Import base list.
From S2P Require Import Prelude.
From S2P Require Import GoNet.
From S2P Require Import Varint.

Open Scope Z_scope.
Open Scope list_scope.

(** ** Errors *)

(** [EOF]: the input ends inside the frame. [Msg]: the frame is malformed.
    [Panic]: a number that is too large is written. *)
Inductive wire_error := EOF | Msg (s : string) | Panic.

#[export] Instance wire_error_eq_dec : EqDecision wire_error.
Proof. solve_decision. Defined.

(** ** Reading *)

Definition parser (A : Type) : Type := list Z → (A * list Z) + wire_error.

Definition ret {A} (a : A) : parser A := λ b, inl (a, b).
Definition bind {A B} (m : parser A) (k : A → parser B) : parser B :=
  λ b, match m b with inl (a, b) => k a b | inr e => inr e end.
Definition fail {A} (e : wire_error) : parser A := λ _, inr e.
Definition guard_ok (c : bool) (e : wire_error) : parser unit := if c then ret tt else fail e.

Declare Scope wire_scope.
Delimit Scope wire_scope with wire.
Notation "'get' x ':=' m 'in' k" := (bind m (λ x, k)) (at level 10, x name, m at level 100, k at level 200) : wire_scope.
Notation "'check' c 'else' e 'in' k" := (bind (guard_ok c e) (λ _, k)) (at level 10, c at level 100, e at level 100, k at level 200) : wire_scope.
Open Scope wire_scope.

(** [quicvarint.Parse], the error as [replaceUnexpectedEOF] leaves it, and
    [b = b[l:]]. *)
Definition varint : parser Z := λ b,
  match Parse b with inl (v, l) => inl (v, drop l b) | inr _ => inr EOF end.

(** The next [n] bytes: [if n > len(b) { EOF }; copy; b = b[n:]]. The count is
    compared before it is used, so it need not be small. *)
Definition bytes (n : Z) : parser (list Z) := λ b,
  if Z.of_nat (length b) <? n then inr EOF else inl (take (Z.to_nat n) b, drop (Z.to_nat n) b).

(** All that is left. *)
Definition rest_of : parser (list Z) := λ b, inl (b, []).
Definition byte : parser Z := λ b, match b with [] => inr EOF | x :: b => inl (x, b) end.

(** ** Writing *)

Definition writer : Type := list Z + wire_error.

Definition uint64 (x : Z) : Z := wrap_u 64 x.

Definition put (x : Z) : writer := match Append (uint64 x) with Some bs => inl bs | None => inr Panic end.
Definition raw (bs : list Z) : writer := inl bs.
Definition seq_w (a b : writer) : writer :=
  match a with
  | inl x => match b with inl y => inl (x ++ y) | inr e => inr e end
  | inr e => inr e
  end.
Infix "+++" := seq_w (right associativity, at level 60) : wire_scope.

(** [quicvarint.Len], which panics as well. *)
Definition len (x : Z) : option Z := Z.of_nat <$> Len (uint64 x).

Definition plus_o (a b : option Z) : option Z := match a, b with Some x, Some y => Some (x + y) | _, _ => None end.
Infix "⊕" := plus_o (right associativity, at level 60) : wire_scope.

(** ** What is written is read back *)

Definition fits (x : Z) : Prop := 0 <= x <= maxVarInt8.

#[export] Instance fits_dec x : Decision (fits x).
Proof. unfold fits. apply _. Defined.

(** [p] takes [bs] off the front of any packet, and understands [v]. *)
Definition reads {A} (p : parser A) (bs : list Z) (v : A) : Prop :=
  ∀ rest, Forall byte_ok rest → p (bs ++ rest) = inl (v, rest).

Lemma wire_reads_ret {A} (v : A) : reads (ret v) [] v.
Proof. by intros rest _. Qed.

Lemma wire_reads_bind {A B} (p : parser A) (k : A → parser B) bs cs v w :
  reads p bs v → reads (k v) cs w → Forall byte_ok cs → reads (bind p k) (bs ++ cs) w.
Proof.
  intros Hp Hk Hcs rest Hrest. unfold bind. rewrite <- app_assoc, Hp by (by apply Forall_app). by apply Hk.
Qed.

Lemma reads_check {A} (c : bool) e (k : parser A) cs w :
  c = true → reads k cs w → reads (bind (guard_ok c e) (λ _, k)) cs w.
Proof. intros -> Hk. exact Hk. Qed.

Lemma uint64_fits x : fits x → uint64 x = x.
Proof. intros H. apply wrap_u_small. unfold fits, maxVarInt8 in H. change (2 ^ 64) with 18446744073709551616. lia. Qed.

(** A number that fits is written in [len] bytes and read back. *)
Lemma put_fits x :
  fits x → ∃ bs, put x = inl bs ∧ Forall byte_ok bs ∧ len x = Some (Z.of_nat (length bs)) ∧ reads varint bs x ∧ bs ≠ [].
Proof.
  intros Hx. destruct (Append_encodes x Hx) as (bs & n & Ha & Hl & He). exists bs. unfold put, len.
  rewrite uint64_fits, Ha, Hl by done. split; [done|]. split; [by eapply enc_bytes|]. split.
  { cbn. by rewrite (enc_length _ _ _ He). }
  split.
  - intros rest Hr. unfold varint. rewrite (encodes_parse _ _ _ _ He Hr), <- (enc_length _ _ _ He). by rewrite drop_app_length.
  - intros ->. by apply enc_first in He.
Qed.

Lemma reads_bytes bs : reads (bytes (Z.of_nat (length bs))) bs bs.
Proof.
  intros rest _. unfold bytes. rewrite length_app. rewrite (proj2 (Z.ltb_ge _ _)) by lia.
  by rewrite Nat2Z.id, take_app_length, drop_app_length.
Qed.

Lemma reads_bytes_n n bs : Z.of_nat (length bs) = n → reads (bytes n) bs bs.
Proof. intros <-. apply reads_bytes. Qed.

Lemma reads_byte x : reads byte [x] x.
Proof. by intros rest _. Qed.

(** What a frame writes: its bytes, their number, and that a parser gets it back. *)
Definition written {A} (w : writer) (l : option Z) (p : parser A) (v : A) : Prop :=
  ∃ bs, w = inl bs ∧ Forall byte_ok bs ∧ l = Some (Z.of_nat (length bs)) ∧ reads p bs v.

Lemma written_nil {A} (v : A) : written (raw []) (Some 0) (ret v) v.
Proof. exists []. split; [done|]. split; [constructor|]. split; [done|]. apply wire_reads_ret. Qed.

Lemma written_bind {A B} w1 l1 w2 l2 (p : parser A) (k : A → parser B) v u :
  written w1 l1 p v → written w2 l2 (k v) u → written (w1 +++ w2) (l1 ⊕ l2) (bind p k) u.
Proof.
  intros (bs & -> & Hb & -> & Hp) (cs & -> & Hc & -> & Hk). exists (bs ++ cs). split; [done|].
  split; [by apply Forall_app|]. split; [cbn; f_equal; rewrite length_app; lia|]. by eapply wire_reads_bind.
Qed.

Lemma written_map {A B} w l (p : parser A) (f : A → B) v :
  written w l p v → written w l (bind p (λ a, ret (f a))) (f v).
Proof.
  intros (bs & -> & Hb & -> & Hp). exists bs. split; [done|]. split; [done|]. split; [done|].
  rewrite <- (app_nil_r bs). eapply wire_reads_bind; [exact Hp|apply wire_reads_ret|constructor].
Qed.

Lemma written_put x : fits x → written (put x) (len x) varint x.
Proof. intros Hx. destruct (put_fits x Hx) as (bs & -> & Hb & -> & Hr & _). by exists bs. Qed.

Lemma written_raw bs n : Forall byte_ok bs → Z.of_nat (length bs) = n → written (raw bs) (Some n) (bytes n) bs.
Proof. intros Hb <-. exists bs. split; [done|]. split; [done|]. split; [done|]. apply reads_bytes. Qed.

Lemma written_check {A} w l (c : bool) e (k : parser A) u :
  c = true → written w l k u → written w l (bind (guard_ok c e) (λ _, k)) u.
Proof. intros -> (bs & -> & Hb & -> & Hp). by exists bs. Qed.

(** ** A parse only takes bytes off the front *)

Definition consumes {A} (p : parser A) : Prop :=
  ∀ b v rest, p b = inl (v, rest) → ∃ taken, b = taken ++ rest.

Lemma consumes_ret {A} (v : A) : consumes (ret v).
Proof. intros b u rest [= _ ->]. by exists []. Qed.

Lemma consumes_fail {A} e : consumes (fail (A:=A) e).
Proof. intros b v rest H. discriminate. Qed.

Lemma consumes_bind {A B} (p : parser A) (k : A → parser B) : consumes p → (∀ v, consumes (k v)) → consumes (bind p k).
Proof.
  intros Hp Hk b v rest. unfold bind. destruct (p b) as [[a b']|] eqn:E; [|done]. intros H.
  apply Hp in E as [t1 ->]. apply Hk in H as [t2 ->]. exists (t1 ++ t2). by rewrite app_assoc.
Qed.

Lemma consumes_guard c e : consumes (guard_ok c e).
Proof. destruct c; [apply consumes_ret|apply consumes_fail]. Qed.

Lemma consumes_varint : consumes varint.
Proof.
  intros b v rest. unfold varint. destruct (Parse b) as [[x n]|]; [|done]. intros [= <- <-]. exists (take n b).
  by rewrite take_drop.
Qed.

Lemma consumes_bytes n : consumes (bytes n).
Proof.
  intros b v rest. unfold bytes. destruct (_ <? _); [done|]. intros [= <- <-]. exists (take (Z.to_nat n) b). by rewrite take_drop.
Qed.

Lemma consumes_byte : consumes byte.
Proof. intros [|x b] v rest; [done|]. intros [= <- <-]. by exists [x]. Qed.

Lemma consumes_rest : consumes rest_of.
Proof. intros b v rest [= <- <-]. exists b. by rewrite app_nil_r. Qed.

Create HintDb wire.
#[export] Hint Resolve consumes_ret consumes_fail consumes_bind consumes_guard consumes_varint consumes_bytes consumes_byte
  consumes_rest : wire.

(** A number that was read fits. *)
Lemma varint_fits b v rest : Forall byte_ok b → varint b = inl (v, rest) → fits v ∧ Forall byte_ok rest.
Proof.
  intros Hb. unfold varint. rewrite Parse_spec by done. destruct b as [|f b]; [done|].
  destruct (_ <? _)%nat; [done|]. intros [= <- <-]. split; [|by apply Forall_drop].
  apply Forall_cons in Hb as [Hf _]. unfold value_of, fits, maxVarInt8.
  destruct (announced_cases f Hf) as [[_ ->]|[[_ ->]|[[_ ->]|[_ ->]]]];
    match goal with |- context [?x mod ?m] => pose proof (Z.mod_pos_bound x m ltac:(cbn; lia)) as Hm end; cbn in *; lia.
Qed.

(** A parser that got somewhere on [b], field by field. *)
Lemma bind_inl {A B} (p : parser A) (k : A → parser B) b r :
  bind p k b = inl r ↔ ∃ v b', p b = inl (v, b') ∧ k v b' = inl r.
Proof.
  unfold bind. destruct (p b) as [[v b']|e]; split; try done.
  - intros H. by exists v, b'.
  - by intros (v' & b'' & [= <- <-] & H).
  - by intros (? & ? & ? & _).
Qed.

Lemma guard_inl c e b r : guard_ok c e b = inl r ↔ c = true ∧ r = (tt, b).
Proof. destruct c; cbn; split; [by intros [= <-]|by intros [_ ->]|done|by intros [? _]]. Qed.
