(* ===== verification/AckFrame.v ===== *)
(** * ACK frames of quic-go ([internal/wire/ack_frame.go], [ack_range.go])

    The ranges of packet numbers that are acknowledged, the highest first; how they
    are written as gaps and lengths, read back, and cut to the size of a packet. *)

From Stdlib Require Import ZArith Lia Bool String.
From stdpp Require Import base list.
From S2P Require Import Prelude.
From S2P Require Import GoNet.
From S2P Require Import Varint.
From S2P Require Import Wire.
From S2P Require Import AckHistory.

Open Scope Z_scope.
Open Scope list_scope.

(** ** The frame *)

Record AckRange := mkAckRange { Smallest : Z; Largest : Z }.

Record AckFrame := mkAckFrame { AckRanges : list AckRange; DelayTime : duration; ECT0 : Z; ECT1 : Z; ECNCE : Z }.

#[export] Instance eta_AckFrame : Eta AckFrame :=
  λ f, mkAckFrame (AckRanges f) (DelayTime f) (ECT0 f) (ECT1 f) (ECNCE f).

(** [Reset]: also a frame that was just made. *)
Definition Reset (f : AckFrame) : AckFrame := mkAckFrame [] 0 0 0 0.

(** [None]: an index out of range. *)
Definition LargestAcked (f : AckFrame) : option Z := Largest <$> AckRanges f !! 0%nat.
Definition LowestAcked (f : AckFrame) : option Z := Smallest <$> last (AckRanges f).
Definition HasMissingRanges (f : AckFrame) : bool := (1 <? length (AckRanges f))%nat.

(** The two loops of [validateAckRanges]. *)
Definition range_ordered (r : AckRange) : bool := negb (Largest r <? Smallest r).
Fixpoint consistent (rs : list AckRange) : bool :=
  match rs with
  | last_ :: ((r :: _) as rest) =>
      negb (Smallest last_ <=? Smallest r) && negb (Smallest last_ <=? Largest r + 1) && consistent rest
  | _ => true
  end.

Definition validateAckRanges (f : AckFrame) : bool :=
  negb (length (AckRanges f) =? 0)%nat && forallb range_ordered (AckRanges f) && consistent (AckRanges f).

(** ** Reading *)

Definition microsecond : duration := 1000.

(** [time.Duration(delay*1<<ackDelayExponent) * time.Microsecond], and the check. *)
Definition decodeAckDelay (delay ackDelayExponent : Z) : duration :=
  let delayTime := wrap_s 64 (wrap_s 64 (wrap_u 64 (Z.shiftl delay ackDelayExponent)) * microsecond) in
  if delayTime <? 0 then int64_max else delayTime.

Definition errInvalidAckRanges : wire_error := Msg "AckFrame: ACK frame contains invalid ACK ranges".
Definition errFirstRange : wire_error := Msg "invalid first ACK range".

(** The loop over the ranges after the first. *)
Fixpoint parse_ranges (numBlocks : nat) (smallest : Z) : parser (list AckRange) :=
  match numBlocks with
  | O => ret []
  | S n =>
      get gap := varint in
      check negb (smallest <? gap + 2) else errInvalidAckRanges in
      let largest := smallest - gap - 2 in
      get ackBlock := varint in
      check negb (largest <? ackBlock) else errInvalidAckRanges in
      get rs := parse_ranges n (largest - ackBlock) in
      ret (mkAckRange (largest - ackBlock) largest :: rs)
  end.

Definition FrameTypeAck : Z := 0x2.
Definition FrameTypeAckECN : Z := 0x3.

Definition parseAckFrame (typ ackDelayExponent : Z) : parser AckFrame :=
  get largestAcked := varint in
  get delay := varint in
  get numBlocks := varint in
  get ackBlock := varint in
  check negb (largestAcked <? ackBlock) else errFirstRange in
  let smallest := largestAcked - ackBlock in
  get rs := parse_ranges (Z.to_nat numBlocks) smallest in
  let frame := mkAckFrame (mkAckRange smallest largestAcked :: rs) (decodeAckDelay delay ackDelayExponent) 0 0 0 in
  check validateAckRanges frame else errInvalidAckRanges in
  if typ =? FrameTypeAckECN then
    get ect0 := varint in
    get ect1 := varint in
    get ecnce := varint in
    ret (frame <| ECT0 := ect0 |> <| ECT1 := ect1 |> <| ECNCE := ecnce |>)
  else ret frame.

(** ** Writing *)

Definition encodeAckDelay (delay : duration) : Z := uint64 (Z.quot delay (1000 * Z.shiftl 1 3)).

(** The gap and the length of a range, given the one before it in the list. *)
Definition encode_first (r : AckRange) : Z := uint64 (Largest r - Smallest r).
Definition encode_next (prev r : AckRange) : Z * Z :=
  (uint64 (Smallest prev - Largest r - 2), uint64 (Largest r - Smallest r)).

Definition hasECN (f : AckFrame) : bool := (0 <? ECT0 f) || (0 <? ECT1 f) || (0 <? ECNCE f).

Fixpoint append_ranges (prev : AckRange) (rs : list AckRange) : writer :=
  match rs with
  | [] => raw []
  | r :: rs => let '(gap, n) := encode_next prev r in put gap +++ put n +++ append_ranges r rs
  end.

Definition num_ranges (f : AckFrame) : nat := length (AckRanges f) `min` MaxNumAckRanges.

(** The type byte apart, as the caller reads it first. An empty list of ranges is
    an index out of range. *)
Definition ack_type (f : AckFrame) : Z := if hasECN f then FrameTypeAckECN else FrameTypeAck.

Definition ack_body (f : AckFrame) : writer :=
  match take (num_ranges f) (AckRanges f) with
  | [] => inr Panic
  | r :: rs =>
      put (Largest r) +++ put (encodeAckDelay (DelayTime f)) +++ put (Z.of_nat (num_ranges f) - 1) +++ put (encode_first r) +++
      append_ranges r rs +++ (if hasECN f then put (ECT0 f) +++ put (ECT1 f) +++ put (ECNCE f) else raw [])
  end.

Definition AppendAck (f : AckFrame) : writer := raw [ack_type f] +++ ack_body f.

Fixpoint length_ranges (prev : AckRange) (rs : list AckRange) : option Z :=
  match rs with
  | [] => Some 0
  | r :: rs => let '(gap, n) := encode_next prev r in len gap ⊕ len n ⊕ length_ranges r rs
  end.

Definition length_ecn (f : AckFrame) : option Z :=
  if hasECN f then len (ECT0 f) ⊕ len (ECT1 f) ⊕ len (ECNCE f) else Some 0.

Definition LengthAck (f : AckFrame) : option Z :=
  match take (num_ranges f) (AckRanges f) with
  | [] => None
  | r :: rs =>
      Some 1 ⊕ len (Largest r) ⊕ len (encodeAckDelay (DelayTime f)) ⊕ Some 1 ⊕ len (Largest r - Smallest r)
      ⊕ length_ranges r rs ⊕ length_ecn f
  end.

(** The loop of the slow path: [i] ranges are in, [length] bytes used. *)
Fixpoint encodable_loop (maxSize : Z) (i : nat) (length : Z) (prev : AckRange) (rs : list AckRange) : option nat :=
  match rs with
  | [] => Some i
  | r :: rs =>
      let '(gap, l) := encode_next prev r in
      match len gap ⊕ len l with
      | None => None
      | Some rangeLen => if maxSize <? length + rangeLen then Some i else encodable_loop maxSize (S i) (length + rangeLen) r rs
      end
  end.

Definition numEncodableAckRanges (maxSize : Z) (f : AckFrame) : option nat :=
  let numRanges := num_ranges f in
  let worst := 1 + 8 + 8 + 1 + 8 + (if hasECN f then 8 + 8 + 8 else 0) + 2 * 8 * (Z.of_nat numRanges - 1) in
  if worst <=? maxSize then Some numRanges
  else match take numRanges (AckRanges f) with
       | [] => None
       | r :: rs =>
           match Some 1 ⊕ len (Largest r) ⊕ len (encodeAckDelay (DelayTime f)) ⊕ Some 1 ⊕ len (encode_first r) ⊕ length_ecn f with
           | None => None
           | Some length => encodable_loop maxSize 1 length r rs
           end
       end.

Definition Truncate (maxSize : Z) (f : AckFrame) : option AckFrame :=
  (λ n, f <| AckRanges := take n (AckRanges f) |>) <$> numEncodableAckRanges maxSize f.

(** ** Looking a packet up *)

(** [sort.Search(n, f)]: the binary search between [i] and [j]. *)
Fixpoint search_loop (fuel : nat) (f : nat → bool) (i j : nat) : nat :=
  match fuel with
  | O => i
  | S fuel =>
      if (i <? j)%nat then
        let h := Nat.div2 (i + j) in
        if negb (f h) then search_loop fuel f (S h) j else search_loop fuel f i h
      else i
  end.

Definition Search_ (n : nat) (f : nat → bool) : nat := search_loop (S n) f 0 n.

Definition smallest_at (rs : list AckRange) (p : Z) (i : nat) : bool :=
  match rs !! i with Some r => Smallest r <=? p | None => false end.

(** [None]: an index out of range. *)
Definition AcksPacket (p : Z) (f : AckFrame) : option bool :=
  match LowestAcked f, LargestAcked f with
  | Some low, Some high =>
      if (p <? low) || (high <? p) then Some false
      else
        let i := Search_ (length (AckRanges f)) (smallest_at (AckRanges f) p) in
        (λ r, p <=? Largest r) <$> AckRanges f !! i
  | _, _ => None
  end.

(** ** Tests *)

Definition demo : AckFrame := mkAckFrame [mkAckRange 900 1000; mkAckRange 3 5] (18 * millisecond) 0 0 7.

Example demo_bytes : ack_body demo = inl [67; 232; 72; 202; 1; 64; 100; 67; 125; 2; 0; 0; 7].
Proof. vm_compute. reflexivity. Qed.
Example demo_length : LengthAck demo = Some 14. Proof. vm_compute. reflexivity. Qed.
Example demo_cut : numEncodableAckRanges 13 demo = Some 1%nat ∧ numEncodableAckRanges 14 demo = Some 2%nat.
Proof. by vm_compute. Qed.
Example demo_acks : (λ p, AcksPacket p demo) <$> [2; 3; 5; 6; 899; 900; 1000; 1001]
  = Some <$> [false; true; true; false; false; true; true; false].
Proof. vm_compute. reflexivity. Qed.

(** ** Well-formed frames *)

(** Descending, a packet missing between any two ranges, none below 0. *)
Fixpoint ranges_desc (hi : Z) (rs : list AckRange) : Prop :=
  match rs with
  | [] => True
  | r :: rest => 0 <= Smallest r <= Largest r ∧ Largest r <= hi ∧ ranges_desc (Smallest r - 2) rest
  end.

Record ack_ok (f : AckFrame) : Prop := mk_ack_ok {
  ok_nonempty : AckRanges f ≠ [];
  ok_ranges : ranges_desc maxVarInt8 (AckRanges f);
  ok_delay : 0 <= DelayTime f < 2 ^ 63;
  ok_ecn : fits (ECT0 f) ∧ fits (ECT1 f) ∧ fits (ECNCE f);
}.

Lemma ranges_desc_mono hi hi' rs : hi <= hi' → ranges_desc hi rs → ranges_desc hi' rs.
Proof. destruct rs as [|r rs]; [done|]. cbn. intros ? (? & ? & ?). split; [done|]. split; [lia|done]. Qed.

Lemma ranges_desc_take hi n rs : ranges_desc hi rs → ranges_desc hi (take n rs).
Proof.
  revert hi n. induction rs as [|r rs IH]; intros hi [|n]; [done..|]. cbn. intros (? & ? & H).
  split; [done|]. split; [done|]. by apply IH.
Qed.

Lemma ranges_desc_valid hi f : AckRanges f ≠ [] → ranges_desc hi (AckRanges f) → validateAckRanges f = true.
Proof.
  unfold validateAckRanges. destruct (AckRanges f) as [|r rs]; [done|]. intros _ H.
  replace (negb (length (r :: rs) =? 0)%nat) with true by done. cbn [andb]. revert hi r H.
  induction rs as [|q rs IH]; intros hi r.
  - cbn. intros (H & _ & _). unfold range_ordered. by rewrite (proj2 (Z.ltb_ge _ _)) by lia.
  - intros (H1 & H2 & H3). specialize (IH _ _ H3). apply andb_prop in IH as [IH1 IH2].
    apply andb_true_intro. split; [apply andb_true_intro; split; [|exact IH1]|].
    + unfold range_ordered. by rewrite (proj2 (Z.ltb_ge _ _)) by lia.
    + cbn [consistent]. destruct H3 as (H3 & H4 & _). rewrite (proj2 (Z.leb_gt (Smallest r) (Smallest q))) by lia.
      rewrite (proj2 (Z.leb_gt (Smallest r) (Largest q + 1))) by lia. exact IH2.
Qed.

Lemma fits_between a b : 0 <= a → a <= b → b <= maxVarInt8 → fits a.
Proof. unfold fits. lia. Qed.

(** ** Round trip *)

Lemma written_ranges prev rs :
  Smallest prev <= maxVarInt8 → ranges_desc (Smallest prev - 2) rs →
  written (append_ranges prev rs) (length_ranges prev rs) (parse_ranges (length rs) (Smallest prev)) rs.
Proof.
  revert prev. induction rs as [|r rs IH]; intros prev Hp; [intros _; apply written_nil|].
  cbn [ranges_desc append_ranges length_ranges length parse_ranges encode_next]. intros (H1 & H2 & H3).
  unfold maxVarInt8 in *. rewrite !uint64_fits by (unfold fits, maxVarInt8; lia).
  apply written_bind with (v := Smallest prev - Largest r - 2); [apply written_put; unfold fits, maxVarInt8; lia|].
  apply written_check; [rewrite (proj2 (Z.ltb_ge _ _)) by lia; done|].
  apply written_bind with (v := Largest r - Smallest r); [apply written_put; unfold fits, maxVarInt8; lia|].
  apply written_check; [rewrite (proj2 (Z.ltb_ge _ _)) by lia; done|].
  replace (Smallest prev - (Smallest prev - Largest r - 2) - 2) with (Largest r) by lia.
  replace (Largest r - (Largest r - Smallest r)) with (Smallest r) by lia.
  replace (r :: rs) with (mkAckRange (Smallest r) (Largest r) :: rs) by (by destruct r).
  apply (written_map _ _ _ (λ rs, mkAckRange (Smallest r) (Largest r) :: rs)), IH; [lia|done].
Qed.

Lemma encode_delay_fits d : 0 <= d < 2 ^ 63 → encodeAckDelay d = d / 8000 ∧ fits (d / 8000).
Proof.
  intros Hd. unfold encodeAckDelay. change (1000 * Z.shiftl 1 3) with 8000. rewrite Z.quot_div_nonneg by lia.
  assert (fits (d / 8000)) as H.
  { change (2 ^ 63) with 9223372036854775808 in Hd. unfold fits, maxVarInt8. split; [apply Z.div_pos; lia|].
    apply Z.lt_le_incl, Z.div_lt_upper_bound; lia. }
  split; [by apply uint64_fits|done].
Qed.

Lemma decode_delay d : 0 <= d < 2 ^ 63 → decodeAckDelay (d / 8000) 3 = d / 8000 * 8000.
Proof.
  intros Hd. unfold decodeAckDelay. rewrite Z.shiftl_mul_pow2 by lia. change (2 ^ 3) with 8.
  change (2 ^ 63) with 9223372036854775808 in Hd. pose proof (Z.div_mod d 8000 ltac:(lia)). pose proof (Z.mod_pos_bound d 8000 ltac:(lia)).
  assert (0 <= d / 8000) by (apply Z.div_pos; lia).
  assert (∀ x, 0 <= x < 9223372036854775808 → wrap_s 64 x = x) as Hs.
  { intros x Hx. unfold wrap_s. change (2 ^ (64 - 1)) with 9223372036854775808. change (2 ^ 64) with 18446744073709551616.
    rewrite Z.mod_small by lia. lia. }
  rewrite wrap_u_small by (change (2 ^ 64) with 18446744073709551616; lia). rewrite (Hs (d / 8000 * 8)) by lia.
  unfold microsecond. rewrite Hs by lia. rewrite (proj2 (Z.ltb_ge _ _)) by lia. lia.
Qed.

(** An ACK frame is read back as it was meant: whatever follows it in the packet,
    the parser recovers the ranges (the 64 highest), the delay in steps of 8
    microseconds and the ECN counts, and takes exactly the bytes written; their
    number is the one [Length] announces. *)
Theorem ack_roundtrip f :
  ack_ok f →
  ∃ bs, AppendAck f = inl (ack_type f :: bs) ∧ LengthAck f = Some (Z.of_nat (S (length bs))) ∧ Forall byte_ok bs ∧
    ∀ rest, Forall byte_ok rest →
      parseAckFrame (ack_type f) 3 (bs ++ rest)
      = inl (f <| AckRanges := take MaxNumAckRanges (AckRanges f) |> <| DelayTime := DelayTime f / 8000 * 8000 |>, rest).
Proof.
  intros [Hne Hr Hd (He0 & He1 & He2)].
  set (f' := f <| AckRanges := _ |> <| DelayTime := _ |>).
  assert (take (num_ranges f) (AckRanges f) = take MaxNumAckRanges (AckRanges f)) as Etake.
  { unfold num_ranges. destruct (Nat.le_gt_cases (length (AckRanges f)) MaxNumAckRanges);
      [rewrite Nat.min_l, !take_ge by lia; done|by rewrite Nat.min_r by lia]. }
  destruct (AckRanges f) as [|r rs] eqn:Ef; [done|].
  assert (∃ rs', take MaxNumAckRanges (r :: rs) = r :: rs') as [rs' Ers] by (by eexists).
  pose proof (ranges_desc_take _ MaxNumAckRanges _ Hr) as Hr'. rewrite Ers in Hr', Etake. cbn [ranges_desc] in Hr'.
  destruct Hr' as (H1 & H2 & H3).
  assert (num_ranges f = S (length rs')) as En.
  { apply (f_equal (λ l, length l)) in Etake. rewrite length_take in Etake. unfold num_ranges in *. rewrite Ef in *. cbn [length] in *. lia. }
  assert ((length rs' < 64)%nat) as Hn64.
  { unfold num_ranges, MaxNumAckRanges in En. lia. }
  destruct (encode_delay_fits _ Hd) as [Edel Hdel].
  assert (written (ack_body f) (len (Largest r) ⊕ len (encodeAckDelay (DelayTime f)) ⊕ len (Z.of_nat (num_ranges f) - 1)
    ⊕ len (Largest r - Smallest r) ⊕ length_ranges r rs' ⊕ length_ecn f) (parseAckFrame (ack_type f) 3) f') as Hw.
  { unfold ack_body, parseAckFrame. rewrite Ef, Etake. unfold encode_first. rewrite Edel, (uint64_fits (_ - _)) by (unfold fits in *; lia).
    apply written_bind with (v := Largest r); [apply written_put; unfold fits; lia|].
    apply written_bind with (v := DelayTime f / 8000); [by apply written_put|].
    apply written_bind with (v := Z.of_nat (num_ranges f) - 1); [apply written_put; unfold fits, maxVarInt8; lia|].
    apply written_bind with (v := Largest r - Smallest r); [apply written_put; unfold fits; lia|].
    apply written_check; [rewrite (proj2 (Z.ltb_ge _ _)) by lia; done|].
    replace (Largest r - (Largest r - Smallest r)) with (Smallest r) by lia.
    replace (Z.to_nat (Z.of_nat (num_ranges f) - 1)) with (length rs') by lia.
    apply written_bind with (v := rs'); [apply written_ranges; [lia|done]|].
    replace (mkAckRange (Smallest r) (Largest r)) with r by (by destruct r).
    apply written_check.
    { apply (ranges_desc_valid maxVarInt8); [done|]. cbn. done. }
    rewrite decode_delay by done. unfold ack_type, length_ecn, f'. rewrite Ers.
    destruct (hasECN f) eqn:Eecn.
    - cbn [Z.eqb FrameTypeAckECN Pos.eqb].
      apply written_bind with (v := ECT0 f); [by apply written_put|].
      apply written_bind with (v := ECT1 f); [by apply written_put|].
      apply (written_map (put (ECNCE f)) (len (ECNCE f)) varint (λ x, _) (ECNCE f)). by apply written_put.
    - unfold hasECN in Eecn. rewrite !orb_false_iff, !Z.ltb_ge in Eecn. destruct Eecn as [[? ?] ?]. unfold fits in *.
      cbn [Z.eqb FrameTypeAck FrameTypeAckECN Pos.eqb]. destruct f as [? ? e0 e1 e2]. cbn in *.
      assert (e0 = 0) as -> by lia. assert (e1 = 0) as -> by lia. assert (e2 = 0) as -> by lia. apply written_nil. }
  destruct Hw as (bs & Hbs & Hb & Hl & Hread). exists bs. unfold AppendAck. rewrite Hbs. split; [done|].
  assert (len (Z.of_nat (num_ranges f) - 1) = Some 1) as E1.
  { unfold len. rewrite uint64_fits by (unfold fits, maxVarInt8; lia). unfold Len, maxVarInt1. rewrite (proj2 (Z.leb_le _ _)) by lia. done. }
  split; [|split; [done|exact Hread]].
  unfold LengthAck. rewrite Ef, Etake. rewrite E1 in Hl. rewrite Hl. cbn. f_equal. lia.
Qed.

Lemma ack_ok_demo : ack_ok demo.
Proof. split; [done|vm_compute; intuition congruence|vm_compute; intuition congruence|vm_compute; intuition congruence]. Qed.

Lemma ack_roundtrip_witness :
  ∃ bs, AppendAck demo = inl (3 :: bs) ∧ LengthAck demo = Some (Z.of_nat (S (length bs))) ∧
    parseAckFrame 3 3 (bs ++ [1; 2]) = inl (demo, [1; 2]).
Proof.
  destruct (ack_roundtrip demo ack_ok_demo) as (bs & Ha & Hl & _ & H). exists bs. split; [exact Ha|]. split; [exact Hl|].
  apply (H [1; 2]). repeat (apply Forall_cons; split; [unfold byte_ok; lia|]). constructor.
Defined.

(** ** What a parse may return *)

Lemma parse_ranges_desc n hi b rs rest :
  Forall byte_ok b → parse_ranges n hi b = inl (rs, rest) → ranges_desc (hi - 2) rs ∧ length rs = n ∧ Forall byte_ok rest.
Proof.
  revert hi b rs rest. induction n as [|n IH]; intros hi b rs rest Hb; cbn [parse_ranges]; [by intros [= <- <-]|].
  rewrite bind_inl. intros (gap & b1 & [Hg Hb1]%varint_fits & H); [|done].
  apply bind_inl in H as ([] & b2 & [Hc [= <-]]%guard_inl & H). apply bind_inl in H as (blk & b3 & [Hk Hb3]%varint_fits & H); [|done].
  apply bind_inl in H as ([] & b4 & [Hd [= <-]]%guard_inl & H). apply bind_inl in H as (rs' & b5 & H & [= <- <-]).
  apply IH in H as (H1 & H2 & H3); [|done]. apply negb_true_iff, Z.ltb_ge in Hc, Hd. unfold fits in *.
  cbn. split; [|split; [by rewrite H2|done]]. split; [lia|]. split; [lia|exact H1].
Qed.

Lemma parse_first b la rest0 typ exp f rest :
  Forall byte_ok b → varint b = inl (la, rest0) → parseAckFrame typ exp b = inl (f, rest) →
  ∃ delay numBlocks ackBlock b1 b2 b3 b4 rs, fits la ∧ fits delay ∧ fits ackBlock ∧ 0 <= la - ackBlock ∧
    varint rest0 = inl (delay, b1) ∧ varint b1 = inl (numBlocks, b2) ∧ varint b2 = inl (ackBlock, b3) ∧
    parse_ranges (Z.to_nat numBlocks) (la - ackBlock) b3 = inl (rs, b4) ∧ Forall byte_ok b3 ∧
    AckRanges f = mkAckRange (la - ackBlock) la :: rs ∧ DelayTime f = decodeAckDelay delay exp.
Proof.
  intros Hb Ela H. unfold parseAckFrame in H. apply bind_inl in H as (la' & b0 & E & H). rewrite Ela in E. injection E as <- <-.
  apply varint_fits in Ela as [Hla Hb0]; [|done].
  apply bind_inl in H as (delay & b1 & Ed & H). pose proof (varint_fits _ _ _ Hb0 Ed) as [Hd Hb1].
  apply bind_inl in H as (nb & b2 & En & H). pose proof (varint_fits _ _ _ Hb1 En) as [_ Hb2].
  apply bind_inl in H as (ab & b3 & Eb & H). pose proof (varint_fits _ _ _ Hb2 Eb) as [Hab Hb3].
  apply bind_inl in H as ([] & b3' & [Hc [= <-]]%guard_inl & H). apply negb_true_iff, Z.ltb_ge in Hc.
  apply bind_inl in H as (rs & b4 & Er & H). apply bind_inl in H as ([] & b4' & [_ [= <-]]%guard_inl & H).
  exists delay, nb, ab, b1, b2, b3', b4', rs. do 3 (split; [done|]). split; [lia|]. do 5 (split; [done|]).
  destruct (typ =? FrameTypeAckECN); [|by injection H as <- <-].
  apply bind_inl in H as (e0 & c0 & _ & H). apply bind_inl in H as (e1 & c1 & _ & H).
  apply bind_inl in H as (e2 & c2 & _ & [= <- <-]). done.
Qed.

(** Whatever bytes arrive, a frame the parser accepts has at least one range;
    its ranges descend, with a packet missing between any two, and lie within the
    62 bits of a packet number; its delay is not negative. The final
    [validateAckRanges] therefore never rejects anything: what is wrong is caught
    field by field. *)
Theorem ack_parsed_valid typ exp b f rest :
  Forall byte_ok b → parseAckFrame typ exp b = inl (f, rest) →
  AckRanges f ≠ [] ∧ ranges_desc maxVarInt8 (AckRanges f) ∧ 0 <= DelayTime f ∧ validateAckRanges f = true ∧
  ∃ taken, b = taken ++ rest.
Proof.
  intros Hb H. pose proof H as H'. unfold parseAckFrame in H'. apply bind_inl in H' as (la & b0 & Ela & _).
  destruct (parse_first _ _ _ _ _ _ _ Hb Ela H) as (delay & nb & ab & b1 & b2 & b3 & b4 & rs & Hla & Hd & Hab & Hlo & _ & _ & _ & Er & Hb3 & Ef & Edel).
  assert (ranges_desc maxVarInt8 (AckRanges f)) as Hdesc.
  { rewrite Ef. apply parse_ranges_desc in Er as (Hrs & _); [|done]. unfold fits in *. cbn. split; [lia|]. split; [lia|exact Hrs]. }
  assert (AckRanges f ≠ []) as Hne by (by rewrite Ef).
  split; [done|]. split; [done|]. split.
  { rewrite Edel. unfold decodeAckDelay. destruct (Z.ltb_spec (wrap_s 64 (wrap_s 64 (wrap_u 64 (Z.shiftl delay exp)) * microsecond)) 0);
      [unfold int64_max; lia|done]. }
  split; [by eapply ranges_desc_valid|].
  assert (consumes (parseAckFrame typ exp)) as Hc; [|by eapply Hc].
  assert (∀ n s, consumes (parse_ranges n s)) as Hpr by (induction n; cbn; auto 10 with wire).
  unfold parseAckFrame. repeat first [apply consumes_bind; [by auto with wire|intros]]; auto with wire.
  destruct (_ =? _); auto 10 with wire.
Qed.

Lemma ack_parsed_valid_witness :
  parseAckFrame 2 3 [10; 0; 1; 2; 1; 3; 0] = inl (mkAckFrame [mkAckRange 8 10; mkAckRange 2 5] 0 0 0 0, [0]) ∧
  ranges_desc maxVarInt8 [mkAckRange 8 10; mkAckRange 2 5].
Proof.
  assert (parseAckFrame 2 3 [10; 0; 1; 2; 1; 3; 0] = inl (mkAckFrame [mkAckRange 8 10; mkAckRange 2 5] 0 0 0 0, [0])) as E
    by (vm_compute; reflexivity).
  split; [exact E|]. refine (proj1 (proj2 (ack_parsed_valid _ _ _ _ _ _ E))).
  repeat (apply Forall_cons; split; [unfold byte_ok; lia|]). constructor.
Defined.

(** The delay in an ACK frame is not checked for overflow, only for its sign: a
    peer that announces 2^61 units of 8 microseconds, some 585000 years, is
    understood to have waited not at all, where the largest duration is meant. *)
Theorem delay_overflow_unnoticed rest :
  parseAckFrame FrameTypeAck 3 ([10] ++ [0xe0; 0; 0; 0; 0; 0; 0; 0] ++ [0; 0] ++ rest)
  = inl (mkAckFrame [mkAckRange 10 10] 0 0 0 0, rest) ∧
  varint ([0xe0; 0; 0; 0; 0; 0; 0; 0] ++ rest) = inl (2 ^ 61, rest) ∧ decodeAckDelay (2 ^ 61) 3 = 0.
Proof. split; [|split]; vm_compute; reflexivity. Qed.

(** ** Cutting a frame to size *)

Lemma len_fits x : fits x → ∃ n, len x = Some n ∧ 1 <= n <= 8.
Proof.
  intros H. unfold len. rewrite uint64_fits by done. destruct (Len_cases x H) as (l & -> & Hl & _).
  exists (Z.of_nat l). split; [done|]. repeat (apply elem_of_cons in Hl as [->|Hl]; [lia|]). by apply elem_of_nil in Hl.
Qed.

Lemma gap_fits prev r rs :
  fits (Smallest prev) → ranges_desc (Smallest prev - 2) (r :: rs) →
  fits (Smallest prev - Largest r - 2) ∧ fits (Largest r - Smallest r) ∧ fits (Smallest r) ∧ ranges_desc (Smallest r - 2) rs.
Proof. unfold fits. cbn. intros ? (? & ? & ?). repeat split; try lia. done. Qed.

(** The bytes the ranges after the first take. *)
Lemma length_ranges_some prev rs :
  fits (Smallest prev) → ranges_desc (Smallest prev - 2) rs →
  ∃ l, length_ranges prev rs = Some l ∧ 0 <= l <= 16 * Z.of_nat (length rs).
Proof.
  revert prev. induction rs as [|r rs IH]; intros prev Hp Hd; [exists 0; cbn; split; [done|lia]|].
  destruct (gap_fits _ _ _ Hp Hd) as (H1 & H2 & H3 & H4). cbn [length_ranges encode_next length].
  rewrite !uint64_fits by done. destruct (len_fits _ H1) as (n1 & -> & ?), (len_fits _ H2) as (n2 & -> & ?).
  destruct (IH r H3 H4) as (l & -> & ?). cbn. eexists. split; [reflexivity|]. lia.
Qed.

(** The loop stops before the first range that no longer fits. *)
Lemma encodable_loop_spec maxSize i acc prev rs :
  fits (Smallest prev) → ranges_desc (Smallest prev - 2) rs →
  ∃ k l, encodable_loop maxSize i acc prev rs = Some (i + k)%nat ∧ (k <= length rs)%nat ∧
    length_ranges prev (take k rs) = Some l ∧ (k = 0%nat ∨ acc + l <= maxSize) ∧
    (k = length rs ∨ ∃ l', length_ranges prev (take (S k) rs) = Some l' ∧ maxSize < acc + l').
Proof.
  revert i acc prev. induction rs as [|r rs IH]; intros i acc prev Hp Hd.
  { exists 0%nat, 0. cbn. rewrite Nat.add_0_r. split; [done|]. split; [done|]. split; [done|]. split; by left. }
  destruct (gap_fits _ _ _ Hp Hd) as (H1 & H2 & H3 & H4). cbn [encodable_loop encode_next].
  rewrite !uint64_fits by done. destruct (len_fits _ H1) as (n1 & E1 & ?), (len_fits _ H2) as (n2 & E2 & ?).
  assert (∀ k, length_ranges prev (take (S k) (r :: rs)) = Some n1 ⊕ Some n2 ⊕ length_ranges r (take k rs)) as Etake.
  { intros k. cbn [take length_ranges encode_next]. by rewrite !uint64_fits, E1, E2 by done. }
  rewrite E1, E2. cbn [plus_o]. destruct (Z.ltb_spec maxSize (acc + (n1 + n2))) as [Hlt|Hge].
  - exists 0%nat, 0. rewrite Nat.add_0_r. split; [done|]. split; [cbn; lia|]. split; [done|]. split; [by left|]. right.
    rewrite Etake, take_0. cbn. eexists. split; [reflexivity|]. lia.
  - destruct (IH (S i) (acc + (n1 + n2)) r H3 H4) as (k & l & E & Hk & El & Hfit & Hmax).
    exists (S k), (n1 + (n2 + l)). split; [rewrite E; f_equal; lia|]. split; [cbn; lia|]. split; [by rewrite Etake, El|].
    split.
    + right. destruct Hfit as [->|Hfit]; [|lia]. rewrite take_0 in El. cbn in El. injection El as <-. lia.
    + destruct Hmax as [->|(l' & El' & Hmax)]; [by left|]. right. rewrite Etake, El'. cbn. eexists. split; [reflexivity|]. lia.
Qed.

Definition with_ranges (n : nat) (f : AckFrame) : AckFrame := f <| AckRanges := take n (AckRanges f) |>.

(** The length of a frame that keeps the first and [k] further ranges. *)
Lemma LengthAck_prefix f r rs k l :
  ack_ok f → AckRanges f = r :: rs → (S k <= num_ranges f)%nat → length_ranges r (take k rs) = Some l →
  ∃ base, LengthAck (with_ranges (S k) f) = Some (base + l) ∧
    Some 1 ⊕ len (Largest r) ⊕ len (encodeAckDelay (DelayTime f)) ⊕ Some 1 ⊕ len (encode_first r) ⊕ length_ecn f = Some base ∧
    base <= 1 + 8 + 8 + 1 + 8 + (if hasECN f then 8 + 8 + 8 else 0).
Proof.
  intros [Hne Hr Hd (He0 & He1 & He2)] Ef Hk Hl. unfold LengthAck, with_ranges.
  assert (num_ranges (f <| AckRanges := take (S k) (AckRanges f) |>) = S k) as En.
  { unfold num_ranges in *. cbn [AckRanges]. rewrite Ef in *. cbn [length] in *.
    change (length (take (S k) (r :: rs)) `min` MaxNumAckRanges = S k)%nat. rewrite length_take. cbn [length]. unfold MaxNumAckRanges in *. lia. }
  rewrite En. change (AckRanges (f <| AckRanges := take (S k) (AckRanges f) |>)) with (take (S k) (AckRanges f)).
  rewrite Ef. cbn [take]. rewrite take_take, Nat.min_id, Hl.
  change (DelayTime (f <| AckRanges := r :: take k rs |>)) with (DelayTime f).
  rewrite Ef in Hr. cbn in Hr. destruct Hr as (Hr1 & Hr2 & _). destruct (encode_delay_fits _ Hd) as [Edel Hdel].
  unfold encode_first. rewrite Edel, (uint64_fits (_ - _)) by (unfold fits in *; lia).
  destruct (len_fits (Largest r)) as (n1 & -> & ?); [unfold fits; lia|]. destruct (len_fits _ Hdel) as (n2 & -> & ?).
  destruct (len_fits (Largest r - Smallest r)) as (n3 & -> & ?); [unfold fits; lia|].
  unfold length_ecn. change (hasECN (f <| AckRanges := r :: take k rs |>)) with (hasECN f).
  destruct (hasECN f).
  - change (ECT0 (f <| AckRanges := r :: take k rs |>)) with (ECT0 f). change (ECT1 (f <| AckRanges := r :: take k rs |>)) with (ECT1 f).
    change (ECNCE (f <| AckRanges := r :: take k rs |>)) with (ECNCE f).
    destruct (len_fits _ He0) as (m0 & -> & ?), (len_fits _ He1) as (m1 & -> & ?), (len_fits _ He2) as (m2 & -> & ?).
    eexists. cbn. split; [|split; [reflexivity|lia]]. f_equal. lia.
  - eexists. cbn. split; [|split; [reflexivity|lia]]. f_equal. lia.
Qed.

(** Cutting a frame to [maxSize] keeps as many of the highest ranges as fit: at
    least one, at most 64; the frame that results is no longer than [maxSize]
    (unless a single range already is), and with one range more it would be
    longer. The guess that saves the computation for small frames never lets
    through a frame that is too long. *)
Theorem truncated_to_size maxSize f :
  ack_ok f →
  ∃ n, Truncate maxSize f = Some (with_ranges n f) ∧ (1 <= n <= num_ranges f)%nat ∧
    (n = 1%nat ∨ ∃ l, LengthAck (with_ranges n f) = Some l ∧ l <= maxSize) ∧
    (n = num_ranges f ∨ ∃ l, LengthAck (with_ranges (S n) f) = Some l ∧ maxSize < l).
Proof.
  intros Hok. pose proof Hok as [Hne Hr _ _]. destruct (AckRanges f) as [|r rs] eqn:Ef; [done|].
  assert (num_ranges f = S (length rs `min` 63)) as En by (unfold num_ranges, MaxNumAckRanges; rewrite Ef; cbn [length]; lia).
  pose proof Hr as (Hr1 & Hr2 & Hr3). assert (fits (Smallest r)) as Hsm by (unfold fits; lia).
  unfold Truncate, numEncodableAckRanges. set (m := (length rs `min` 63)%nat) in *.
  assert (take (num_ranges f) (AckRanges f) = r :: take m rs) as -> by (by rewrite En, Ef).
  pose proof (ranges_desc_take _ m _ Hr3) as Hm.
  destruct (length_ranges_some r (take m rs) Hsm Hm) as (lm & Elm & Hlm). rewrite length_take in Hlm.
  destruct (LengthAck_prefix f r rs m lm Hok Ef) as (base & Efull & Ebase & Hbase); [lia|done|].
  destruct (Z.leb_spec (1 + 8 + 8 + 1 + 8 + (if hasECN f then 8 + 8 + 8 else 0) + 2 * 8 * (Z.of_nat (num_ranges f) - 1)) maxSize) as [Hfast|Hslow].
  { exists (num_ranges f). split; [done|]. split; [lia|]. split; [|by left]. right. rewrite En. exists (base + lm). split; [done|].
    rewrite En in Hfast. lia. }
  rewrite Ebase. destruct (encodable_loop_spec maxSize 1 base r (take m rs) Hsm Hm) as (k & l & E & Hk & El & Hfit & Hmax).
  rewrite length_take in Hk, Hmax. rewrite take_take, Nat.min_l in El by lia. exists (1 + k)%nat. rewrite E.
  split; [done|]. split; [lia|]. split.
  - destruct Hfit as [->|Hfit]; [by left|]. right. destruct (LengthAck_prefix f r rs k l Hok Ef) as (base' & E' & Eb' & _); [lia|done|].
    rewrite Ebase in Eb'. injection Eb' as <-. exists (base + l). by split.
  - destruct Hmax as [Hmax|(l' & El' & Hmax)]; [left; lia|]. destruct (decide (k = m)) as [->|Hkm]; [left; lia|]. right.
    rewrite take_take, Nat.min_l in El' by lia.
    destruct (LengthAck_prefix f r rs (S k) l' Hok Ef) as (base' & E' & Eb' & _); [lia|done|].
    rewrite Ebase in Eb'. injection Eb' as <-. exists (base + l'). by split.
Qed.

Lemma truncated_to_size_witness :
  ∃ n, Truncate 13 demo = Some (with_ranges n demo) ∧ (1 <= n <= 2)%nat.
Proof.
  destruct (truncated_to_size 13 demo ack_ok_demo) as (n & H1 & H2 & _). exists n. split; [exact H1|exact H2].
Defined.

(** ** Looking a packet up: the search *)

Lemma search_loop_spec n f fuel i j :
  (∀ a b, (a <= b < n)%nat → f a = true → f b = true) →
  (j - i < fuel)%nat → (i <= j <= n)%nat → (∀ k, (k < i)%nat → f k = false) → (∀ k, (j <= k < n)%nat → f k = true) →
  let x := search_loop fuel f i j in
  (x <= n)%nat ∧ (∀ k, (k < x)%nat → f k = false) ∧ ∀ k, (x <= k < n)%nat → f k = true.
Proof.
  intros Hmono. revert i j. induction fuel as [|fuel IH]; intros i j Hfuel Hij Hlo Hhi; [lia|]. cbn [search_loop].
  destruct (Nat.ltb_spec i j) as [Hlt|Hge]; [|replace j with i in Hhi by lia; split; [lia|by split]].
  pose proof (Nat.div2_odd (i + j)) as Hd. assert (i <= Nat.div2 (i + j) < j)%nat as Hh by (destruct (Nat.odd (i + j)); cbn in Hd; lia).
  destruct (f (Nat.div2 (i + j))) eqn:E; cbn [negb].
  - apply IH; [lia|lia|done|]. intros k Hk. by apply (Hmono (Nat.div2 (i + j)) k); [lia|].
  - apply IH; [lia|lia| |done]. intros k Hk. destruct (f k) eqn:Ek; [|done].
    rewrite <- E. symmetry. apply (Hmono k (Nat.div2 (i + j))); [lia|done].
Qed.

(** On a predicate that, once true, stays true, [sort.Search] finds the first index
    at which it is true. *)
Lemma Search_spec n f :
  (∀ a b, (a <= b < n)%nat → f a = true → f b = true) →
  (Search_ n f <= n)%nat ∧ (∀ k, (k < Search_ n f)%nat → f k = false) ∧ ∀ k, (Search_ n f <= k < n)%nat → f k = true.
Proof. intros H. apply (search_loop_spec n f (S n) 0 n); [done|lia..]. Qed.

Definition acknowledged (p : Z) (rs : list AckRange) : Prop := ∃ r, r ∈ rs ∧ Smallest r <= p <= Largest r.

Lemma acknowledged_nil p : ¬ acknowledged p [].
Proof. by intros (r & ?%elem_of_nil & _). Qed.

Lemma acknowledged_cons p r rs : acknowledged p (r :: rs) ↔ Smallest r <= p <= Largest r ∨ acknowledged p rs.
Proof.
  split.
  - intros (q & [->|Hin]%elem_of_cons & Hq); [by left|right; by exists q].
  - intros [H|(q & Hin & Hq)]; [exists r; split; [by left|done]|exists q; split; [by right|done]].
Qed.

Lemma ranges_desc_lookup hi rs i r : ranges_desc hi rs → rs !! i = Some r → 0 <= Smallest r <= Largest r ∧ Largest r <= hi.
Proof.
  revert hi i. induction rs as [|q rs IH]; intros hi [|i]; [done..|by intros (? & ? & _) [= ->]|].
  cbn. intros (? & ? & H) Hi. destruct (IH _ _ H Hi). lia.
Qed.

Lemma ranges_desc_order hi rs i j a b :
  ranges_desc hi rs → (i < j)%nat → rs !! i = Some a → rs !! j = Some b → Largest b + 2 <= Smallest a.
Proof.
  revert hi i j. induction rs as [|q rs IH]; intros hi [|i] [|j] Hd Hij Ha Hb; try done; try lia; cbn in Ha, Hb, Hd.
  - injection Ha as ->. destruct Hd as (_ & _ & Hd). destruct (ranges_desc_lookup _ _ _ _ Hd Hb). lia.
  - destruct Hd as (_ & _ & Hd). apply (IH _ i j Hd); [lia|done..].
Qed.

Lemma acks_packet_spec hi p f :
  AckRanges f ≠ [] → ranges_desc hi (AckRanges f) →
  ∃ b, AcksPacket p f = Some b ∧ (b = true ↔ acknowledged p (AckRanges f)).
Proof.
  intros Hne Hd. unfold AcksPacket, LowestAcked, LargestAcked. set (rs := AckRanges f) in *.
  destruct (rs !! 0%nat) as [top|] eqn:Et; [|destruct rs; done].
  destruct (last rs) as [bot|] eqn:Eb; [|by apply last_None in Eb]. cbn [fmap option_fmap option_map].
  rewrite last_lookup in Eb.
  assert (∀ i r, rs !! i = Some r → Smallest bot <= Smallest r ∧ Largest r <= Largest top) as Hends.
  { intros i r Hi. pose proof (lookup_lt_Some _ _ _ Hi) as Hl. pose proof (ranges_desc_lookup _ _ _ _ Hd Hi).
    pose proof (ranges_desc_lookup _ _ _ _ Hd Et). pose proof (ranges_desc_lookup _ _ _ _ Hd Eb). split.
    - destruct (decide (i = pred (length rs))) as [->|]; [rewrite Hi in Eb; injection Eb as ->; done|].
      pose proof (ranges_desc_order _ _ i (pred (length rs)) _ _ Hd ltac:(lia) Hi Eb). lia.
    - destruct i as [|i]; [rewrite Hi in Et; injection Et as ->; done|].
      pose proof (ranges_desc_order _ _ 0 (S i) _ _ Hd ltac:(lia) Et Hi). lia. }
  destruct ((p <? Smallest bot) || (Largest top <? p)) eqn:Eout.
  { exists false. split; [done|]. split; [done|]. intros (r & [i Hi]%list_elem_of_lookup & Hr). destruct (Hends _ _ Hi).
    apply orb_prop in Eout as [?%Z.ltb_lt|?%Z.ltb_lt]; lia. }
  apply orb_false_elim in Eout as [Hlo%Z.ltb_ge Hhi%Z.ltb_ge].
  assert (∀ i r, rs !! i = Some r → smallest_at rs p i = (Smallest r <=? p)) as Hsm by (intros i r Hi; unfold smallest_at; by rewrite Hi).
  destruct (Search_spec (length rs) (smallest_at rs p)) as (Hx & Hbelow & Habove).
  { intros a b Hab Ha. destruct (lookup_lt_is_Some_2 rs a ltac:(lia)) as [ra Ea], (lookup_lt_is_Some_2 rs b ltac:(lia)) as [rb Erb].
    rewrite (Hsm _ _ Ea) in Ha. rewrite (Hsm _ _ Erb). apply Z.leb_le in Ha. apply Z.leb_le.
    destruct (decide (a = b)) as [->|]; [rewrite Ea in Erb; by injection Erb as <-|].
    pose proof (ranges_desc_order _ _ a b _ _ Hd ltac:(lia) Ea Erb). pose proof (ranges_desc_lookup _ _ _ _ Hd Erb). lia. }
  set (x := Search_ (length rs) (smallest_at rs p)) in *.
  assert (x < length rs)%nat as Hxl.
  { pose proof (lookup_lt_Some _ _ _ Eb). destruct (Nat.lt_ge_cases x (length rs)); [done|].
    specialize (Hbelow (pred (length rs)) ltac:(lia)). rewrite (Hsm _ _ Eb) in Hbelow. apply Z.leb_gt in Hbelow. lia. }
  destruct (lookup_lt_is_Some_2 rs x Hxl) as [rx Ex]. rewrite Ex. cbn. eexists. split; [reflexivity|].
  pose proof (Habove x ltac:(lia)) as Hsx. rewrite (Hsm _ _ Ex) in Hsx. apply Z.leb_le in Hsx. rewrite Z.leb_le. split.
  - intros Hp. exists rx. split; [by eapply list_elem_of_lookup_2|lia].
  - intros (r & [i Hi]%list_elem_of_lookup & Hr). pose proof (lookup_lt_Some _ _ _ Hi).
    destruct (Nat.lt_trichotomy i x) as [Hix|[->|Hix]].
    + specialize (Hbelow i Hix). rewrite (Hsm _ _ Hi) in Hbelow. apply Z.leb_gt in Hbelow. lia.
    + rewrite Ex in Hi. injection Hi as ->. lia.
    + pose proof (ranges_desc_order _ _ x i _ _ Hd Hix Ex Hi). lia.
Qed.

(** C37: The binary search of [AcksPacket] answers, for a well-formed frame, whether the
    packet lies in any of its ranges, and never indexes out of range. *)
Theorem acks_packet_correct hi p f :
  AckRanges f ≠ [] → ranges_desc hi (AckRanges f) →
  ∃ b, AcksPacket p f = Some b ∧ (b = true ↔ acknowledged p (AckRanges f)).
Proof. apply acks_packet_spec. Qed.

Lemma acks_packet_correct_witness : ∃ b, AcksPacket 4 demo = Some b ∧ (b = true ↔ acknowledged 4 (AckRanges demo)).
Proof. apply (acks_packet_correct maxVarInt8); [done|vm_compute; intuition congruence]. Defined.
