(* ===== verification/AckTracker.v ===== *)
(** * When and what to acknowledge
    ([quic-go/internal/ackhandler/received_packet_tracker.go],
    [received_packet_handler.go])

    The trackers of the three packet-number spaces register what is received, decide
    when an ACK is due and make the frame. The frame they hand out is the one they
    keep: the packer may cut it afterwards ([Cut] below). *)

From Stdlib Require Import ZArith Lia Bool String.
From stdpp Require Import base list.
From S2P Require Import Prelude.
From S2P Require Import GoNet.
From S2P Require Import Varint.
From S2P Require Import Wire.
From S2P Require Import AckHistory.
From S2P Require Import AckFrame.

Open Scope Z_scope.
Open Scope list_scope.

(** ** The tracker of the Initial and Handshake spaces *)

Inductive ECN := ECNUnsupported | ECNNon | ECT0_ | ECT1_ | ECNCE_.

Record receivedPacketTracker := mkTracker {
  ect0 : Z; ect1 : Z; ecnce : Z;
  packetHistory : receivedPacketHistory;
  lastAck : option AckFrame;
  hasNewAck : bool;
}.

#[export] Instance eta_receivedPacketTracker : Eta receivedPacketTracker :=
  λ h, mkTracker (ect0 h) (ect1 h) (ecnce h) (packetHistory h) (lastAck h) (hasNewAck h).

Definition newReceivedPacketTracker : receivedPacketTracker := mkTracker 0 0 0 newReceivedPacketHistory None false.

Definition count_ecn (ecn : ECN) (h : receivedPacketTracker) : receivedPacketTracker :=
  match ecn with
  | ECT0_ => h <| ect0 := uint64 (ect0 h + 1) |>
  | ECT1_ => h <| ect1 := uint64 (ect1 h + 1) |>
  | ECNCE_ => h <| ecnce := uint64 (ecnce h + 1) |>
  | _ => h
  end.

(** [false]: the error for an old or duplicate packet. *)
Definition tracker_ReceivedPacket (pn : Z) (ecn : ECN) (ackEliciting : bool) (h : receivedPacketTracker) : receivedPacketTracker * bool :=
  let '(hist, isNew) := ReceivedPacket pn (packetHistory h) in
  let h := h <| packetHistory := hist |> in
  if negb isNew then (h, false)
  else
    let h := count_ecn ecn h in
    if negb ackEliciting then (h, true) else (h <| hasNewAck := true |>, true).

Definition to_range (r : interval) : AckRange := mkAckRange (Start r) (End_ r).

Definition tracker_GetAckFrame (h : receivedPacketTracker) : receivedPacketTracker * option AckFrame :=
  if negb (hasNewAck h) then (h, None)
  else
    let ack := mkAckFrame (to_range <$> Backward (packetHistory h)) 0 (ect0 h) (ect1 h) (ecnce h) in
    (h <| lastAck := Some ack |> <| hasNewAck := false |>, Some ack).

Definition tracker_IsPotentiallyDuplicate (pn : Z) (h : receivedPacketTracker) : bool := IsPotentiallyDuplicate pn (packetHistory h).

(** ** The tracker of the application data *)

Definition reorderingThreshold : Z := 1.
Definition packetsBeforeAck : Z := 2.
Definition MaxAckDelay : duration := 25 * millisecond.

Record appDataTracker := mkAppData {
  tracker : receivedPacketTracker;
  largestObservedRcvdTime : time;
  largestObserved : Z;
  ignoreBelow : Z;
  maxAckDelay : duration;
  ackQueued : bool;
  elicitingSinceLastAck : Z;
  ackAlarm : time;
}.

#[export] Instance eta_appDataTracker : Eta appDataTracker :=
  λ h, mkAppData (tracker h) (largestObservedRcvdTime h) (largestObserved h) (ignoreBelow h) (maxAckDelay h) (ackQueued h)
         (elicitingSinceLastAck h) (ackAlarm h).

Definition newAppDataReceivedPacketTracker : appDataTracker := mkAppData newReceivedPacketTracker 0 0 0 MaxAckDelay false 0 0.

Definition IgnoreBelow (pn : Z) (h : appDataTracker) : appDataTracker :=
  if pn <=? ignoreBelow h then h
  else h <| ignoreBelow := pn |> <| tracker ::= λ t, t <| packetHistory ::= DeleteBelow pn |> |>.

(** [None]: an index out of range, on a frame without ranges. *)
Definition isMissing (p : Z) (h : appDataTracker) : option bool :=
  match lastAck (tracker h) with
  | None => Some false
  | Some ack =>
      if p <? ignoreBelow h then Some false
      else match LargestAcked ack with
           | None => None
           | Some la => if p <? la then negb <$> AcksPacket p ack else Some false
           end
  end.

Definition hasNewMissingPackets (h : appDataTracker) : option bool :=
  match lastAck (tracker h) with
  | None => Some false
  | Some ack =>
      if largestObserved h <? reorderingThreshold then Some false
      else
        let highestMissing := HighestMissingUpTo (largestObserved h - reorderingThreshold) (packetHistory (tracker h)) in
        if highestMissing =? InvalidPacketNumber then Some false
        else match LargestAcked ack with
             | None => None
             | Some la => if highestMissing <? la then Some false else Some (la - reorderingThreshold <? highestMissing)
             end
  end.

Definition shouldQueueACK (ecn : ECN) (wasMissing : bool) (h : appDataTracker) : option bool :=
  if wasMissing then Some true
  else if packetsBeforeAck <=? elicitingSinceLastAck h then Some true
  else match hasNewMissingPackets h with
       | None => None
       | Some true => Some true
       | Some false => Some (match ecn with ECNCE_ => true | _ => false end)
       end.

(** [Some (h, false)]: the error; [None]: a panic. *)
Definition app_ReceivedPacket (pn : Z) (ecn : ECN) (rcvTime : time) (ackEliciting : bool) (h : appDataTracker)
    : option (appDataTracker * bool) :=
  let '(t, ok) := tracker_ReceivedPacket pn ecn ackEliciting (tracker h) in
  let h := h <| tracker := t |> in
  if negb ok then Some (h, false)
  else
    let h := if largestObserved h <=? pn then h <| largestObserved := pn |> <| largestObservedRcvdTime := rcvTime |> else h in
    if negb ackEliciting then Some (h, true)
    else
      let h := h <| elicitingSinceLastAck ::= Z.succ |> in
      match isMissing pn h with
      | None => None
      | Some wasMissing =>
          match (if negb (ackQueued h) then shouldQueueACK ecn wasMissing h else Some false) with
          | None => None
          | Some should =>
              let h := if should then h <| ackQueued := true |> <| ackAlarm := 0 |> else h in
              Some (if negb (ackQueued h) then h <| ackAlarm := rcvTime + maxAckDelay h |> else h, true)
          end
      end.

Definition app_GetAckFrame (now : time) (onlyIfQueued : bool) (h : appDataTracker) : appDataTracker * option AckFrame :=
  if onlyIfQueued && negb (ackQueued h) && ((ackAlarm h =? 0) || (now <? ackAlarm h)) then (h, None)
  else
    let '(t, ack) := tracker_GetAckFrame (tracker h) in
    match ack with
    | None => (h <| tracker := t |>, None)
    | Some ack =>
        let ack := ack <| DelayTime := Z.max 0 (wrap_s 64 (now - largestObservedRcvdTime h)) |> in
        (h <| tracker := t <| lastAck := Some ack |> |> <| ackQueued := false |> <| ackAlarm := 0 |> <| elicitingSinceLastAck := 0 |>,
         Some ack)
    end.

Definition GetAlarmTimeout (h : appDataTracker) : time := ackAlarm h.

(** What the packer's [Truncate] does to the frame the tracker keeps. *)
Definition cut_last (n : nat) (h : appDataTracker) : appDataTracker :=
  h <| tracker ::= λ t, t <| lastAck ::= fmap (with_ranges n) |> |>.

(** ** The handler of all spaces *)

Inductive EncryptionLevel := EncryptionInitial | EncryptionHandshake | Encryption0RTT | Encryption1RTT.

Record ReceivedPacketHandler := mkHandler {
  initialPackets : option receivedPacketTracker;
  handshakePackets : option receivedPacketTracker;
  appDataPackets : appDataTracker;
  lowest1RTTPacket : Z;
}.

#[export] Instance eta_ReceivedPacketHandler : Eta ReceivedPacketHandler :=
  λ h, mkHandler (initialPackets h) (handshakePackets h) (appDataPackets h) (lowest1RTTPacket h).

Definition NewReceivedPacketHandler : ReceivedPacketHandler :=
  mkHandler (Some newReceivedPacketTracker) (Some newReceivedPacketTracker) newAppDataReceivedPacketTracker InvalidPacketNumber.

Definition handler_ReceivedPacket (pn : Z) (ecn : ECN) (encLevel : EncryptionLevel) (rcvTime : time) (ackEliciting : bool)
    (h : ReceivedPacketHandler) : option (ReceivedPacketHandler * bool) :=
  match encLevel with
  | EncryptionInitial =>
      match initialPackets h with
      | None => None
      | Some t => let '(t, ok) := tracker_ReceivedPacket pn ecn ackEliciting t in Some (h <| initialPackets := Some t |>, ok)
      end
  | EncryptionHandshake =>
      match handshakePackets h with
      | None => Some (h, true)
      | Some t => let '(t, ok) := tracker_ReceivedPacket pn ecn ackEliciting t in Some (h <| handshakePackets := Some t |>, ok)
      end
  | Encryption0RTT =>
      if negb (lowest1RTTPacket h =? InvalidPacketNumber) && (lowest1RTTPacket h <? pn) then Some (h, false)
      else match app_ReceivedPacket pn ecn rcvTime ackEliciting (appDataPackets h) with
           | None => None
           | Some (t, ok) => Some (h <| appDataPackets := t |>, ok)
           end
  | Encryption1RTT =>
      let h := if (lowest1RTTPacket h =? InvalidPacketNumber) || (pn <? lowest1RTTPacket h) then h <| lowest1RTTPacket := pn |> else h in
      match app_ReceivedPacket pn ecn rcvTime ackEliciting (appDataPackets h) with
      | None => None
      | Some (t, ok) => Some (h <| appDataPackets := t |>, ok)
      end
  end.

Definition IgnorePacketsBelow (pn : Z) (h : ReceivedPacketHandler) : ReceivedPacketHandler := h <| appDataPackets ::= IgnoreBelow pn |>.

Definition DropPackets (encLevel : EncryptionLevel) (h : ReceivedPacketHandler) : option ReceivedPacketHandler :=
  match encLevel with
  | EncryptionInitial => Some (h <| initialPackets := None |>)
  | EncryptionHandshake => Some (h <| handshakePackets := None |>)
  | Encryption0RTT => Some h
  | Encryption1RTT => None
  end.

Definition handler_GetAckFrame (encLevel : EncryptionLevel) (now : time) (onlyIfQueued : bool) (h : ReceivedPacketHandler)
    : ReceivedPacketHandler * option AckFrame :=
  match encLevel with
  | EncryptionInitial =>
      match initialPackets h with
      | None => (h, None)
      | Some t => let '(t, ack) := tracker_GetAckFrame t in (h <| initialPackets := Some t |>, ack)
      end
  | EncryptionHandshake =>
      match handshakePackets h with
      | None => (h, None)
      | Some t => let '(t, ack) := tracker_GetAckFrame t in (h <| handshakePackets := Some t |>, ack)
      end
  | Encryption1RTT => let '(t, ack) := app_GetAckFrame now onlyIfQueued (appDataPackets h) in (h <| appDataPackets := t |>, ack)
  | Encryption0RTT => (h, None)
  end.

Definition handler_IsPotentiallyDuplicate (pn : Z) (encLevel : EncryptionLevel) (h : ReceivedPacketHandler) : option bool :=
  match encLevel with
  | EncryptionInitial => tracker_IsPotentiallyDuplicate pn <$> initialPackets h
  | EncryptionHandshake => tracker_IsPotentiallyDuplicate pn <$> handshakePackets h
  | Encryption0RTT | Encryption1RTT => Some (tracker_IsPotentiallyDuplicate pn (tracker (appDataPackets h)))
  end.

(** ** A connection's use of the tracker *)

(** A packet is checked against the history, its frames are handled (each ACK of one
    of our ACKs makes us ignore what lies below it), then it is registered; the
    packer asks for frames and cuts them. *)
Inductive event :=
| Packet (ignores : list Z) (pn : Z) (ecn : ECN) (rcvTime : time) (ackEliciting : bool)
| Ask (now : time) (onlyIfQueued : bool)
| Cut (n : nat).

(** Beside the tracker: the packets registered so far, and when the ack-eliciting
    ones came that no frame has acknowledged yet, the last one first. *)
Record world := mkWorld { app : appDataTracker; seen : list Z; pending : list time }.

(** [None]: the connection is closed by an error, or the program panics. A duplicate
    is dropped before its frames are looked at. *)
Definition on_packet (ignores : list Z) (pn : Z) (ecn : ECN) (rcvTime : time) (ackEliciting : bool) (w : world) : option world :=
  if tracker_IsPotentiallyDuplicate pn (tracker (app w)) then Some w
  else match app_ReceivedPacket pn ecn rcvTime ackEliciting (foldr IgnoreBelow (app w) ignores) with
       | Some (h, true) => Some (mkWorld h (pn :: seen w) (if ackEliciting then rcvTime :: pending w else pending w))
       | _ => None
       end.

Definition on_ask (now : time) (onlyIfQueued : bool) (w : world) : world * option AckFrame :=
  let '(h, ack) := app_GetAckFrame now onlyIfQueued (app w) in
  (mkWorld h (seen w) (match ack with Some _ => [] | None => pending w end), ack).

Definition step (e : event) (w : world) : option world :=
  match e with
  | Packet ignores pn ecn rcvTime ackEliciting => on_packet ignores pn ecn rcvTime ackEliciting w
  | Ask now onlyIfQueued => Some (on_ask now onlyIfQueued w).1
  | Cut n => Some (mkWorld (cut_last n (app w)) (seen w) (pending w))
  end.

Definition run (es : list event) (w : world) : option world := foldl (λ ow e, w ← ow; step e w) (Some w) es.

Definition start : world := mkWorld newAppDataReceivedPacketTracker [] [].

Definition event_ok (e : event) : Prop :=
  match e with
  | Packet _ pn _ rcvTime _ => fits pn ∧ 0 < rcvTime
  | Ask _ _ => True
  | Cut n => n ≠ 0%nat
  end.

(** ** The invariant *)

Definition frame_sound (f : AckFrame) : Prop := AckRanges f ≠ [] ∧ ranges_desc maxVarInt8 (AckRanges f).

(** The timer and the counter against the packets that wait. *)
Definition timer_ok (h : appDataTracker) (pending : list time) : Prop :=
  match pending with
  | [] => ackQueued h = false ∧ ackAlarm h = 0
  | [t] => (ackQueued h = true ∧ ackAlarm h = 0) ∨ (ackQueued h = false ∧ ackAlarm h = t + MaxAckDelay)
  | _ => ackQueued h = true ∧ ackAlarm h = 0
  end.

Record world_ok (w : world) : Prop := mk_world_ok {
  w_history : history_ok (packetHistory (tracker (app w)));
  w_deleted : -1 <= deletedBelow (packetHistory (tracker (app w)));
  w_seen : ∀ p, received p (ranges (packetHistory (tracker (app w)))) → p ∈ seen w;
  w_fits : Forall fits (seen w);
  w_top : ∀ m, m ∈ seen w → (∀ p, p ∈ seen w → p <= m) → received m (ranges (packetHistory (tracker (app w))));
  w_last : ∀ f, lastAck (tracker (app w)) = Some f → frame_sound f;
  w_new : hasNewAck (tracker (app w)) = negb (bool_decide (pending w = []));
  w_new_seen : pending w ≠ [] → seen w ≠ [];
  w_count : elicitingSinceLastAck (app w) = Z.of_nat (length (pending w));
  w_timer : timer_ok (app w) (pending w);
  w_delay : maxAckDelay (app w) = MaxAckDelay;
  w_times : Forall (λ t, 0 < t) (pending w);
  w_ecn : ∀ c, c ∈ [ect0 (tracker (app w)); ect1 (tracker (app w)); ecnce (tracker (app w))] → 0 <= c <= Z.of_nat (length (seen w));
}.

Lemma tracker_start_ok : world_ok start.
Proof.
  split; try done.
  - apply history_ok_new.
  - by intros p ?%received_nil.
  - by intros m ?%elem_of_nil.
  - intros c Hc. repeat (apply elem_of_cons in Hc as [->|Hc]; [done|]). by apply elem_of_nil in Hc.
Qed.

(** *** The history as a frame *)

Lemma ranges_to_frame lo hi rs :
  ranges_ok lo rs → 0 <= lo → (∀ p, received p rs → p <= hi) → ranges_desc hi (to_range <$> rev rs).
Proof.
  revert hi. induction rs as [|r rs IH] using rev_ind; intros hi Hok Hlo Hhi; [done|].
  rewrite rev_app_distr. cbn [rev app fmap list_fmap ranges_desc]. apply ranges_ok_app in Hok as [Hrs Hr]. cbn in Hr.
  assert (lo <= after lo rs) by (by apply ranges_ok_after). cbn. split; [lia|]. split.
  - apply Hhi. apply received_app. right. exists r. split; [by left|]. lia.
  - apply IH; [done|done|]. intros p Hp. apply (received_upper _ _ _ Hrs) in Hp. lia.
Qed.

Lemma elem_of_rev {A} (x : A) l : x ∈ rev l ↔ x ∈ l.
Proof. by rewrite !list_elem_of_In, <- in_rev. Qed.

Lemma acknowledged_received p rs : acknowledged p (to_range <$> rev rs) ↔ received p rs.
Proof.
  split.
  - intros (r & Hin & Hr). apply list_elem_of_fmap in Hin as (q & -> & Hq). exists q. split; [by apply (elem_of_rev q rs)|done].
  - intros (r & Hin & Hr). exists (to_range r). split; [|done]. apply list_elem_of_fmap. exists r. split; [done|]. by apply (elem_of_rev r rs).
Qed.

(** *** What each step does *)

Lemma IgnoreBelow_spec pn h :
  history_ok (packetHistory (tracker h)) → -1 <= deletedBelow (packetHistory (tracker h)) →
  ∃ H n, IgnoreBelow pn h = h <| ignoreBelow := n |> <| tracker := (tracker h) <| packetHistory := H |> |> ∧
    history_ok H ∧ deletedBelow (packetHistory (tracker h)) <= deletedBelow H ∧
    (deletedBelow H = deletedBelow (packetHistory (tracker h)) ∨ deletedBelow H = pn) ∧
    ∀ q, received q (ranges H) ↔ received q (ranges (packetHistory (tracker h))) ∧ deletedBelow H <= q.
Proof.
  intros Hok Hdel. assert (∀ q, received q (ranges (packetHistory (tracker h))) → deletedBelow (packetHistory (tracker h)) <= q) as Hlow.
  { intros q Hq. destruct Hok as [Hok _]. apply (received_lower _ _ _ Hok) in Hq. unfold floor in Hq. lia. }
  unfold IgnoreBelow. destruct (Z.leb_spec pn (ignoreBelow h)).
  - exists (packetHistory (tracker h)), (ignoreBelow h). split; [by destruct h as [[] ? ? ? ? ? ? ?]|]. split; [done|].
    split; [done|]. split; [by left|]. intros q. split; [|tauto]. intros Hq. split; [done|by apply Hlow].
  - exists (DeleteBelow pn (packetHistory (tracker h))), pn. split; [done|].
    destruct (DeleteBelow_spec pn _ Hok) as (H1 & H2 & H3). split; [done|]. rewrite H2. split; [lia|]. split; [lia|].
    intros q. rewrite H3. split; [|intros [? ?]; split; [done|lia]]. intros [Hq ?]. split; [done|]. specialize (Hlow q Hq). lia.
Qed.

Lemma ignores_spec l h :
  history_ok (packetHistory (tracker h)) → -1 <= deletedBelow (packetHistory (tracker h)) →
  ∃ H n, foldr IgnoreBelow h l = h <| ignoreBelow := n |> <| tracker := (tracker h) <| packetHistory := H |> |> ∧
    history_ok H ∧ deletedBelow (packetHistory (tracker h)) <= deletedBelow H ∧
    (deletedBelow H = deletedBelow (packetHistory (tracker h)) ∨ deletedBelow H ∈ l) ∧
    ∀ q, received q (ranges H) ↔ received q (ranges (packetHistory (tracker h))) ∧ deletedBelow H <= q.
Proof.
  intros Hok Hdel. induction l as [|p l IH]; cbn [foldr].
  - exists (packetHistory (tracker h)), (ignoreBelow h). split; [by destruct h as [[] ? ? ? ? ? ? ?]|]. split; [done|].
    split; [done|]. split; [by left|]. intros q. split; [|tauto]. intros Hq. split; [done|].
    destruct Hok as [Hok _]. apply (received_lower _ _ _ Hok) in Hq. unfold floor in Hq. lia.
  - destruct IH as (H & n & E & H1 & H2 & H3 & H4). rewrite E.
    destruct (IgnoreBelow_spec p (h <| ignoreBelow := n |> <| tracker := (tracker h) <| packetHistory := H |> |>))
      as (H' & n' & E' & G1 & G2 & G3 & G4); [done|cbn; lia|]. cbn in G2, G3, G4.
    exists H', n'. split; [rewrite E'; by destruct h as [[] ? ? ? ? ? ? ?]|]. split; [done|]. split; [lia|]. split.
    { rewrite elem_of_cons. destruct G3 as [->| ->]; [|by right; left]. destruct H3 as [->|?]; [by left|by right; right]. }
    intros q. rewrite G4, H4. split; [tauto|]. intros [? ?]. split; [split; [done|lia]|done].
Qed.

Lemma isMissing_some pn h :
  (∀ f, lastAck (tracker h) = Some f → frame_sound f) → ∃ b, isMissing pn h = Some b.
Proof.
  intros Hl. unfold isMissing. destruct (lastAck (tracker h)) as [f|]; [|by eexists]. destruct (Hl f eq_refl) as [Hne Hd].
  destruct (_ <? _); [by eexists|]. unfold LargestAcked at 1. destruct (AckRanges f !! 0%nat) as [r|] eqn:E; [|by destruct (AckRanges f)].
  cbn. destruct (_ <? _); [|by eexists]. destruct (acks_packet_correct maxVarInt8 pn f Hne Hd) as (b & -> & _). by eexists.
Qed.

Lemma shouldQueueACK_some ecn m h :
  (∀ f, lastAck (tracker h) = Some f → frame_sound f) →
  ∃ b, shouldQueueACK ecn m h = Some b ∧ (2 <= elicitingSinceLastAck h → b = true).
Proof.
  intros Hl. unfold shouldQueueACK, packetsBeforeAck. destruct m; [by exists true|]. destruct (Z.leb_spec 2 (elicitingSinceLastAck h)); [by exists true|].
  assert (∃ b, hasNewMissingPackets h = Some b) as [b ->]; [|destruct b; eexists; (split; [reflexivity|lia])].
  unfold hasNewMissingPackets. destruct (lastAck (tracker h)) as [f|]; [|by eexists]. destruct (Hl f eq_refl) as [Hne Hd].
  destruct (_ <? _); [by eexists|]. destruct (_ =? _); [by eexists|]. unfold LargestAcked.
  destruct (AckRanges f !! 0%nat) as [r|] eqn:E; [|by destruct (AckRanges f)]. cbn. destruct (_ <? _); by eexists.
Qed.

Lemma count_ecn_fields ecn t :
  packetHistory (count_ecn ecn t) = packetHistory t ∧ lastAck (count_ecn ecn t) = lastAck t ∧ hasNewAck (count_ecn ecn t) = hasNewAck t.
Proof. by destruct ecn. Qed.

Lemma count_ecn_bound ecn t n :
  (∀ c, c ∈ [ect0 t; ect1 t; ecnce t] → 0 <= c <= n) →
  ∀ c, c ∈ [ect0 (count_ecn ecn t); ect1 (count_ecn ecn t); ecnce (count_ecn ecn t)] → 0 <= c <= n + 1.
Proof.
  intros H. assert (∀ c, c ∈ [ect0 t; ect1 t; ecnce t] → 0 <= uint64 (c + 1) <= n + 1) as Hs.
  { intros c Hc. apply H in Hc. unfold uint64, wrap_u. pose proof (Z.mod_pos_bound (c + 1) (2 ^ 64) ltac:(lia)).
    pose proof (Z.mod_le (c + 1) (2 ^ 64) ltac:(lia) ltac:(lia)). lia. }
  assert (∀ c, c ∈ [ect0 t; ect1 t; ecnce t] → 0 <= c <= n + 1) as Hk by (intros c Hc; apply H in Hc; lia).
  destruct ecn; cbn; intros c Hc; repeat (apply elem_of_cons in Hc as [->|Hc]; [first [apply Hs; set_solver|apply Hk; set_solver]|]);
    by apply elem_of_nil in Hc.
Qed.

(** Registering a new packet: what it leaves. *)
Lemma app_received_new pn ecn rcvTime elicit h H' :
  ReceivedPacket pn (packetHistory (tracker h)) = (H', true) → (∀ f, lastAck (tracker h) = Some f → frame_sound f) →
  ∃ h', app_ReceivedPacket pn ecn rcvTime elicit h = Some (h', true) ∧
    packetHistory (tracker h') = H' ∧ lastAck (tracker h') = lastAck (tracker h) ∧
    hasNewAck (tracker h') = elicit || hasNewAck (tracker h) ∧
    (∀ n, (∀ c, c ∈ [ect0 (tracker h); ect1 (tracker h); ecnce (tracker h)] → 0 <= c <= n) →
       ∀ c, c ∈ [ect0 (tracker h'); ect1 (tracker h'); ecnce (tracker h')] → 0 <= c <= n + 1) ∧
    maxAckDelay h' = maxAckDelay h ∧ elicitingSinceLastAck h' = elicitingSinceLastAck h + (if elicit then 1 else 0) ∧
    if negb elicit || ackQueued h then ackQueued h' = ackQueued h ∧ ackAlarm h' = ackAlarm h
    else (ackQueued h' = true ∧ ackAlarm h' = 0) ∨
         (elicitingSinceLastAck h < 1 ∧ ackQueued h' = false ∧ ackAlarm h' = rcvTime + maxAckDelay h).
Proof.
  intros E Hlast. unfold app_ReceivedPacket, tracker_ReceivedPacket. rewrite E. cbn [negb].
  set (t1 := count_ecn ecn _). destruct (count_ecn_fields ecn ((tracker h) <| packetHistory := H' |>)) as (Ep & El & En). fold t1 in Ep, El, En.
  assert (∀ n, (∀ c, c ∈ [ect0 (tracker h); ect1 (tracker h); ecnce (tracker h)] → 0 <= c <= n) →
    ∀ c, c ∈ [ect0 t1; ect1 t1; ecnce t1] → 0 <= c <= n + 1) as Hc.
  { intros n Hn. apply count_ecn_bound. exact Hn. }
  destruct elicit; cbn [negb orb].
  2:{ eexists. split; [reflexivity|]. destruct (_ <=? _);
      (split; [exact Ep|]; split; [exact El|]; split; [exact En|]; split; [exact Hc|]; split; [done|]; split; [cbn; lia|done]). }
  set (h1 := if _ <=? pn then _ else _).
  assert (tracker h1 = t1 <| hasNewAck := true |> ∧ maxAckDelay h1 = maxAckDelay h ∧ elicitingSinceLastAck h1 = elicitingSinceLastAck h
    ∧ ackQueued h1 = ackQueued h ∧ ackAlarm h1 = ackAlarm h) as (F1 & F2 & F3 & F4 & F5) by (unfold h1; by destruct (_ <=? _)).
  set (h2 := h1 <| elicitingSinceLastAck ::= Z.succ |>).
  assert (∀ f, lastAck (tracker h2) = Some f → frame_sound f) as Hl2.
  { change (tracker h2) with (tracker h1). rewrite F1. change (lastAck (t1 <| hasNewAck := true |>)) with (lastAck t1). rewrite El. exact Hlast. }
  destruct (isMissing_some pn h2 Hl2) as [m ->]. change (ackQueued h2) with (ackQueued h1). rewrite F4.
  assert (∀ h', tracker h' = tracker h1 → packetHistory (tracker h') = H' ∧ lastAck (tracker h') = lastAck (tracker h) ∧
    hasNewAck (tracker h') = true ∧ ∀ n, (∀ c, c ∈ [ect0 (tracker h); ect1 (tracker h); ecnce (tracker h)] → 0 <= c <= n) →
    ∀ c, c ∈ [ect0 (tracker h'); ect1 (tracker h'); ecnce (tracker h')] → 0 <= c <= n + 1) as Htr.
  { intros h' ->. rewrite F1. split; [exact Ep|]. split; [exact El|]. split; [done|]. exact Hc. }
  destruct (ackQueued h) eqn:Eq; cbn [negb].
  - exists h2. change (ackQueued h2) with (ackQueued h1). rewrite F4. cbn [negb]. split; [done|].
    destruct (Htr h2 eq_refl) as (? & ? & ? & ?). do 4 (split; [done|]). split; [exact F2|]. split; [cbn; lia|]. split; [done|exact F5].
  - destruct (shouldQueueACK_some ecn m h2 Hl2) as (b & -> & Hb). destruct b.
    + eexists. split; [reflexivity|]. match goal with |- context [packetHistory (tracker ?x) = _] => destruct (Htr x eq_refl) as (? & ? & ? & ?) end.
      do 4 (split; [done|]). cbn. split; [exact F2|]. split; [lia|]. left. by split.
    + eexists. change (ackQueued h2) with (ackQueued h1). rewrite F4. cbn [negb]. split; [reflexivity|].
      match goal with |- context [packetHistory (tracker ?x) = _] => destruct (Htr x eq_refl) as (? & ? & ? & ?) end.
      do 4 (split; [done|]). cbn. split; [exact F2|]. split; [lia|]. right. rewrite F2. split; [|by rewrite F4].
      destruct (Z.lt_ge_cases (elicitingSinceLastAck h) 1); [done|]. enough (false = true) by done. apply Hb. cbn. lia.
Qed.

(** A number that tops all the others is not the one evicted. *)
Lemma top_kept rs m :
  rs ≠ [] → (∃ s, received s rs) → (∀ s, received s rs → s <= m) → ¬ ∀ s, received s rs → m < s.
Proof. intros _ [s Hs] H1 H2. specialize (H1 s Hs). specialize (H2 s Hs). lia. Qed.

Lemma received_some lo rs : ranges_ok lo rs → rs ≠ [] → ∃ s, received s rs.
Proof.
  destruct rs as [|r rs]; [done|]. cbn. intros [Hr _] _. exists (Start r). exists r. split; [by left|lia].
Qed.

Lemma timer_ok_packet h h' pend elicit rcvTime :
  timer_ok h pend → elicitingSinceLastAck h = Z.of_nat (length pend) → maxAckDelay h = MaxAckDelay →
  (if negb elicit || ackQueued h then ackQueued h' = ackQueued h ∧ ackAlarm h' = ackAlarm h
   else (ackQueued h' = true ∧ ackAlarm h' = 0) ∨
        (elicitingSinceLastAck h < 1 ∧ ackQueued h' = false ∧ ackAlarm h' = rcvTime + maxAckDelay h)) →
  timer_ok h' (if elicit then rcvTime :: pend else pend).
Proof.
  intros Ht Hc Hm H. unfold timer_ok in *. destruct elicit; cbn [negb orb] in H.
  - destruct (ackQueued h) eqn:Eq.
    + destruct H as [-> ->]. destruct pend as [|t [|t' pend]]; [by destruct Ht| |by destruct Ht].
      destruct Ht as [[_ ?]|[? _]]; [|done]. by split.
    + rewrite Hm in H. destruct pend as [|t pend].
      * destruct H as [H|(_ & H1 & H2)]; [by left|right; by split].
      * destruct H as [H|(H & _)]; [done|]. rewrite Hc in H. cbn in H. lia.
  - destruct H as [-> ->]. exact Ht.
Qed.

Lemma on_packet_ok ignores pn ecn rcvTime elicit w :
  world_ok w → fits pn → 0 < rcvTime →
  match on_packet ignores pn ecn rcvTime elicit w with
  | Some w' => world_ok w'
  | None => ∃ i, i ∈ ignores ∧ pn < i
  end.
Proof.
  intros [Hh Hdel Hseen Hfits Htop Hlast Hnew Hns Hcount Htimer Hmax Htimes Hecn] Hpn Ht. unfold on_packet, tracker_IsPotentiallyDuplicate.
  destruct (IsPotentiallyDuplicate pn (packetHistory (tracker (app w)))) eqn:Edup; [by split|].
  assert (deletedBelow (packetHistory (tracker (app w))) <= pn ∧ ¬ received pn (ranges (packetHistory (tracker (app w))))) as [Hge Hnr].
  { pose proof (duplicate_spec pn _ Hh) as Hd. split.
    - destruct (Z.le_gt_cases (deletedBelow (packetHistory (tracker (app w)))) pn); [done|].
      rewrite (proj2 Hd) in Edup by (by left). done.
    - intros H. rewrite (proj2 Hd) in Edup by (by right). done. }
  destruct (ignores_spec ignores (app w) Hh Hdel) as (H & n & E & HH & Hle & Hfrom & Hrec). rewrite E.
  set (h0 := (app w) <| ignoreBelow := n |> <| tracker := (tracker (app w)) <| packetHistory := H |> |>).
  pose proof (packet_registered pn H HH ltac:(unfold fits in Hpn; lia)) as Hreg.
  destruct (ReceivedPacket pn H) as [H' isNew] eqn:ER. destruct Hreg as (HH' & Hdel' & _ & Hisnew & Honly & Hkept).
  destruct isNew.
  2:{ unfold app_ReceivedPacket, tracker_ReceivedPacket. change (packetHistory (tracker h0)) with H. rewrite ER. cbn [negb].
      assert (pn < deletedBelow H) as Hlt.
      { destruct (Z.lt_ge_cases pn (deletedBelow H)); [done|]. enough (false = true) by done. apply Hisnew. split; [lia|].
        intros [Hr _]%Hrec. done. }
      destruct Hfrom as [Hfrom|Hfrom]; [lia|]. by exists (deletedBelow H). }
  destruct (proj1 Hisnew eq_refl) as [Hpnge _].
  destruct (app_received_new pn ecn rcvTime elicit h0 H' ER Hlast) as (h' & -> & P1 & P2 & P3 & P4 & P5 & P6 & P7).
  assert (∀ p, received p (ranges H') → p ∈ pn :: seen w) as Hseen'.
  { intros p Hp. apply Honly in Hp as [[-> _]|Hp]; [by left|]. right. apply Hseen. by apply Hrec in Hp as [Hp _]. }
  split; cbn [app seen pending].
  - by rewrite P1.
  - rewrite P1, Hdel'. lia.
  - by rewrite P1.
  - by constructor.
  - rewrite P1. intros m Hm Hall.
    assert (received m (ranges H') ∨ length (ranges H') = MaxNumAckRanges ∧ ∀ s, received s (ranges H') → m < s) as [Hk|[Hlen Hk]]; [|done|].
    + apply Hkept. apply elem_of_cons in Hm as [->|Hm]; [by left|]. right. apply Hrec. split.
      * apply Htop; [done|]. intros p Hp. apply Hall. by right.
      * specialize (Hall pn ltac:(by left)). lia.
    + exfalso. assert (ranges H' ≠ []) as Hne by (intros E'; rewrite E' in Hlen; done).
      destruct (received_some _ _ (proj1 HH') Hne) as [s Hs]. specialize (Hk s Hs). specialize (Hall s (Hseen' s Hs)). lia.
  - rewrite P2. exact Hlast.
  - rewrite P3. change (hasNewAck (tracker h0)) with (hasNewAck (tracker (app w))). rewrite Hnew. by destruct elicit.
  - done.
  - rewrite P6. change (elicitingSinceLastAck h0) with (elicitingSinceLastAck (app w)). rewrite Hcount. destruct elicit; cbn [length]; lia.
  - apply (timer_ok_packet h0); [exact Htimer|exact Hcount|exact Hmax|exact P7].
  - by rewrite P5.
  - destruct elicit; [by constructor|done].
  - intros c Hc. cbn [length]. specialize (P4 _ Hecn c Hc). lia.
Qed.

Lemma received_seen_bound w p :
  world_ok w → received p (ranges (packetHistory (tracker (app w)))) → p <= maxVarInt8.
Proof. intros Hw Hp. apply (w_seen _ Hw) in Hp. pose proof (w_fits _ Hw) as H. rewrite Forall_forall in H. by apply H in Hp as [_ ?]. Qed.

Lemma world_frame w :
  world_ok w → ranges_desc maxVarInt8 (to_range <$> Backward (packetHistory (tracker (app w)))).
Proof.
  intros Hw. apply (ranges_to_frame (floor (packetHistory (tracker (app w))))).
  - apply (proj1 (w_history _ Hw)).
  - unfold floor. lia.
  - intros p. by apply received_seen_bound.
Qed.

Lemma list_max (l : list Z) : l ≠ [] → ∃ m, m ∈ l ∧ ∀ p, p ∈ l → p <= m.
Proof.
  induction l as [|x l IH]; [done|]. intros _. destruct l as [|y l].
  - exists x. split; [by left|]. intros p [->|?%elem_of_nil]%elem_of_cons; [lia|done].
  - destruct IH as (m & Hm & Hall); [done|]. destruct (Z.le_ge_cases x m).
    + exists m. split; [by right|]. intros p [->|Hp]%elem_of_cons; [done|by apply Hall].
    + exists x. split; [by left|]. intros p [->|Hp]%elem_of_cons; [lia|]. specialize (Hall p Hp). lia.
Qed.

(** A frame that is asked for when something is due has ranges. *)
Lemma world_nonempty w : world_ok w → seen w ≠ [] → ranges (packetHistory (tracker (app w))) ≠ [].
Proof.
  intros Hw Hne E. destruct (list_max _ Hne) as (m & Hm & Hall). pose proof (w_top _ Hw m Hm Hall) as H. rewrite E in H.
  by apply received_nil in H.
Qed.

Lemma on_ask_ok now only w : world_ok w → world_ok (on_ask now only w).1.
Proof.
  intros Hw. pose proof Hw as [Hh Hdel Hseen Hfits Htop Hlast Hnew Hns Hcount Htimer Hmax Htimes Hecn]. unfold on_ask, app_GetAckFrame.
  destruct (only && negb (ackQueued (app w)) && ((ackAlarm (app w) =? 0) || (now <? ackAlarm (app w)))); [by split|].
  unfold tracker_GetAckFrame. destruct (hasNewAck (tracker (app w))) eqn:E; cbn [negb]; [|split; try done; by (etransitivity; [exact E|exact Hnew])].
  assert (pending w ≠ []) as Hp by (intros Ep; by rewrite Ep in Hnew).
  split; cbn [fst app seen pending]; try done.
  intros f. cbn. intros [= <-]. split.
  - cbn. intros Ee%fmap_nil_inv. apply (world_nonempty _ Hw (Hns Hp)). unfold Backward in Ee.
    rewrite <- (rev_involutive (ranges _)), Ee. done.
  - exact (world_frame _ Hw).
Qed.

Lemma frame_sound_take n f : n ≠ 0%nat → frame_sound f → frame_sound (with_ranges n f).
Proof.
  intros Hn [Hne Hd]. split; cbn; [|by apply ranges_desc_take]. destruct (AckRanges f), n; done.
Qed.

Lemma tracker_step_ok e w : world_ok w → event_ok e → match step e w with Some w' => world_ok w' | None => ∃ i l pn ecn t b, e = Packet l pn ecn t b ∧ i ∈ l ∧ pn < i end.
Proof.
  intros Hw He. destruct e as [l pn ecn t b|now only|n]; cbn [step].
  - destruct He as [Hpn Ht]. pose proof (on_packet_ok l pn ecn t b w Hw Hpn Ht) as H. destruct (on_packet _ _ _ _ _ _); [done|].
    destruct H as (i & Hi & Hlt). by exists i, l, pn, ecn, t, b.
  - by apply on_ask_ok.
  - destruct Hw as [Hh Hdel Hseen Hfits Htop Hlast Hnew Hns Hcount Htimer Hmax Htimes Hecn]. split; try done. cbn.
    intros f Hf. apply fmap_Some in Hf as (f0 & Ef & ->). apply frame_sound_take; [done|by apply Hlast].
Qed.

Lemma tracker_run_ok es w : Forall event_ok es → run es start = Some w → world_ok w.
Proof.
  unfold run. revert w. induction es as [|e es IH] using rev_ind; intros w Hes; cbn; [intros [= <-]; apply tracker_start_ok|].
  rewrite foldl_snoc. apply Forall_app in Hes as [Hes He]. apply Forall_cons in He as [He _].
  destruct (foldl _ _ es) as [w0|] eqn:E; [|done]. cbn. intros Hs. pose proof (tracker_step_ok e w0 (IH _ Hes eq_refl) He) as H.
  by rewrite Hs in H.
Qed.

(** ** What the tracker promises *)

Lemma ask_gives now only w :
  world_ok w → pending w ≠ [] →
  (only = false ∨ ackQueued (app w) = true ∨ (ackAlarm (app w) ≠ 0 ∧ ackAlarm (app w) <= now)) →
  ∃ f, (on_ask now only w).2 = Some f.
Proof.
  intros Hw Hp Hdue. unfold on_ask, app_GetAckFrame.
  assert (only && negb (ackQueued (app w)) && ((ackAlarm (app w) =? 0) || (now <? ackAlarm (app w))) = false) as ->.
  { destruct Hdue as [->|[->|[H1 H2]]]; [done|by rewrite andb_false_r|].
    rewrite (proj2 (Z.eqb_neq _ _) H1), (proj2 (Z.ltb_ge _ _) H2). apply andb_false_r. }
  unfold tracker_GetAckFrame. rewrite (w_new _ Hw), bool_decide_false by done. cbn. by eexists.
Qed.

(** C22: An acknowledgement is never late. Whatever packets came, in whatever order,
    and whenever frames were asked for: as soon as two ack-eliciting packets wait,
    a frame is handed out to the next who asks; when one waits, it is handed out at
    the latest 25 ms after that packet came, and until then the timer stands at
    that moment (or the frame is due already). When none waits, none is sent. *)
Theorem ack_in_time es w :
  Forall event_ok es → run es start = Some w →
  (∀ now only, pending w = [] → (on_ask now only w).2 = None) ∧
  (∀ now, (2 <= length (pending w))%nat → ∃ f, (on_ask now true w).2 = Some f) ∧
  ∀ t, pending w = [t] →
    (∀ now, t + MaxAckDelay <= now → ∃ f, (on_ask now true w).2 = Some f) ∧
    (GetAlarmTimeout (app w) = t + MaxAckDelay ∨ ∀ now, ∃ f, (on_ask now true w).2 = Some f).
Proof.
  intros Hes Hrun. pose proof (tracker_run_ok es w Hes Hrun) as Hw. pose proof (w_timer _ Hw) as Ht. split; [|split].
  - intros now only Hp. unfold on_ask, app_GetAckFrame.
    destruct (only && negb (ackQueued (app w)) && _); [done|]. unfold tracker_GetAckFrame. by rewrite (w_new _ Hw), Hp.
  - intros now Hl. destruct (pending w) as [|t [|t' l]] eqn:Ep; cbn in Hl; [lia..|]. destruct Ht as [Hq _].
    apply ask_gives; [done|by rewrite Ep|]. right. by left.
  - intros t Ep. rewrite Ep in Ht. cbn in Ht. pose proof (w_times _ Hw) as Hpos. rewrite Ep in Hpos. apply Forall_cons in Hpos as [Hpos _].
    assert (0 < MaxAckDelay) by done.
    assert (∀ now, t + MaxAckDelay <= now → ∃ f, (on_ask now true w).2 = Some f) as Hlate.
    { intros now Hnow. apply ask_gives; [done|by rewrite Ep|]. destruct Ht as [[Hq _]|[_ Ha]]; [right; by left|].
      right. right. rewrite Ha. lia. }
    split; [done|]. destruct Ht as [[Hq _]|[_ Ha]]; [right|by left].
    intros now. apply ask_gives; [done|by rewrite Ep|]. right. by left.
Qed.

Definition demo_events : list event :=
  [Packet [] 0 ECNNon 5 true; Packet [] 1 ECNNon 6 true; Ask 7 true; Packet [] 3 ECNNon 9 false; Packet [] 4 ECNNon 10 true].

Lemma demo_events_ok : Forall event_ok demo_events.
Proof. unfold demo_events. repeat (apply Forall_cons; split; [vm_compute; intuition congruence|]). constructor. Qed.

Lemma ack_in_time_witness :
  ∃ w, run demo_events start = Some w ∧ pending w = [10] ∧ ∃ f, (on_ask 25000010 true w).2 = Some f.
Proof.
  destruct (run demo_events start) as [w|] eqn:E; [|vm_compute in E; discriminate]. exists w. split; [reflexivity|].
  pose proof (ack_in_time demo_events w demo_events_ok E) as (_ & _ & H).
  vm_compute in E. injection E as <-. split; [reflexivity|]. refine (proj1 (H 10 eq_refl) 25000010 _). vm_compute. congruence.
Defined.

(** C10: An acknowledgement tells the truth, end to end: whatever happened before, the
    frame that is handed out can be written, and the peer that reads it back finds
    acknowledged exactly what the history holds: packets that were all received,
    the highest of them among these. *)
Theorem acks_tell_the_truth es w now only f :
  Forall event_ok es → run es start = Some w → Z.of_nat (length (seen w)) <= maxVarInt8 → (on_ask now only w).2 = Some f →
  ∃ bs, AppendAck f = inl (ack_type f :: bs) ∧
    ∀ rest, Forall byte_ok rest → ∃ f', parseAckFrame (ack_type f) 3 (bs ++ rest) = inl (f', rest) ∧
      (∀ p, acknowledged p (AckRanges f') ↔ received p (ranges (packetHistory (tracker (app w))))) ∧
      (∀ p, acknowledged p (AckRanges f') → p ∈ seen w) ∧
      (∀ m, m ∈ seen w → (∀ p, p ∈ seen w → p <= m) → acknowledged m (AckRanges f')).
Proof.
  intros Hes Hrun Hlen Hf. pose proof (tracker_run_ok es w Hes Hrun) as Hw.
  assert (pending w ≠ []) as Hp.
  { intros Hp. unfold on_ask, app_GetAckFrame, tracker_GetAckFrame in Hf. rewrite (w_new _ Hw), Hp in Hf.
    by destruct (only && negb (ackQueued (app w)) && _). }
  assert (AckRanges f = to_range <$> Backward (packetHistory (tracker (app w))) ∧ 0 <= DelayTime f < 2 ^ 63 ∧
    ECT0 f = ect0 (tracker (app w)) ∧ ECT1 f = ect1 (tracker (app w)) ∧ ECNCE f = ecnce (tracker (app w))) as (Er & Ed & E0 & E1 & E2).
  { unfold on_ask, app_GetAckFrame in Hf. destruct (only && negb (ackQueued (app w)) && _); [done|].
    unfold tracker_GetAckFrame in Hf. rewrite (w_new _ Hw), bool_decide_false in Hf by done. cbn in Hf. injection Hf as <-. cbn.
    split; [done|]. split; [|done]. unfold wrap_s. pose proof (Z.mod_pos_bound (now - largestObservedRcvdTime (app w) + 2 ^ (64 - 1)) (2 ^ 64) ltac:(lia)).
    change (2 ^ (64 - 1)) with (2 ^ 63) in *. change (2 ^ 64) with (2 * 2 ^ 63) in *. lia. }
  assert (ranges (packetHistory (tracker (app w))) ≠ []) as Hne by (apply world_nonempty; [done|by apply (w_new_seen _ Hw)]).
  assert (ack_ok f) as Hok.
  { split; [|rewrite Er; by apply world_frame|done|].
    - rewrite Er. intros Ee%fmap_nil_inv. apply Hne. unfold Backward in Ee. rewrite <- (rev_involutive (ranges _)), Ee. done.
    - pose proof (w_ecn _ Hw) as Hecn. rewrite E0, E1, E2.
      split; [|split]; unfold fits; (match goal with |- 0 <= ?c <= _ => specialize (Hecn c ltac:(set_solver)) end); lia. }
  destruct (ack_roundtrip f Hok) as (bs & Ha & _ & _ & Hread). exists bs. split; [done|]. intros rest Hrest.
  eexists. split; [by apply Hread|].
  match goal with |- context [acknowledged _ (AckRanges ?g)] => change (AckRanges g) with (take MaxNumAckRanges (AckRanges f)) end.
  assert (take MaxNumAckRanges (AckRanges f) = AckRanges f) as ->.
  { rewrite take_ge; [done|]. rewrite Er, length_fmap. unfold Backward. rewrite length_rev. apply (w_history _ Hw). }
  rewrite Er. unfold Backward. split; [intros p; apply acknowledged_received|]. split.
  - intros p Hack. apply (w_seen _ Hw). by apply acknowledged_received.
  - intros m Hm Hall. apply acknowledged_received. by apply (w_top _ Hw).
Qed.

Lemma acks_tell_the_truth_witness :
  ∃ w f, run demo_events start = Some w ∧ (on_ask 11 false w).2 = Some f ∧ ∃ bs, AppendAck f = inl (2 :: bs).
Proof.
  destruct (run demo_events start) as [w|] eqn:E; [|vm_compute in E; discriminate]. exists w.
  destruct (on_ask 11 false w).2 as [f|] eqn:Ef; [|vm_compute in E; injection E as <-; vm_compute in Ef; discriminate].
  exists f. split; [reflexivity|]. split; [reflexivity|].
  destruct (acks_tell_the_truth demo_events w 11 false f demo_events_ok E) as (bs & Hbs & _); [|exact Ef|].
  - vm_compute in E. injection E as <-. vm_compute. congruence.
  - exists bs. vm_compute in E. injection E as <-. vm_compute in Ef. injection Ef as <-. exact Hbs.
Defined.

(** The tracker ends the connection for one reason only, and never panics: a
    packet is refused when the ACKs it carries themselves tell us to ignore packets
    up to beyond its own number, which no honest peer sends. *)
Theorem only_ignored_refused es w e :
  Forall event_ok es → run es start = Some w → event_ok e → step e w = None →
  ∃ ignores pn ecn rcvTime ackEliciting i, e = Packet ignores pn ecn rcvTime ackEliciting ∧ i ∈ ignores ∧ pn < i.
Proof.
  intros Hes Hrun He Hs. pose proof (tracker_step_ok e w (tracker_run_ok es w Hes Hrun) He) as H. rewrite Hs in H.
  destruct H as (i & l & pn & ecn & t & b & -> & Hi & Hlt). by exists l, pn, ecn, t, b, i.
Qed.

Lemma only_ignored_refused_witness :
  ∃ w, run demo_events start = Some w ∧ step (Packet [9] 7 ECNNon 12 true) w = None ∧ ∃ i, i ∈ [9] ∧ 7 < i.
Proof.
  destruct (run demo_events start) as [w|] eqn:E; [|vm_compute in E; discriminate]. exists w. split; [reflexivity|].
  assert (step (Packet [9] 7 ECNNon 12 true) w = None) as Hs by (vm_compute in E; injection E as <-; vm_compute; reflexivity).
  split; [exact Hs|].
  destruct (only_ignored_refused demo_events w (Packet [9] 7 ECNNon 12 true) demo_events_ok E) as (l & pn & ecn & t & b & i & He & Hi & Hlt);
    [vm_compute; intuition congruence|exact Hs|]. injection He as <- <- <- <- <-. exists i. split; [exact Hi|exact Hlt].
Defined.
