(* ===== verification/WireFrames.v ===== *)
(** * The frames of quic-go and the parser of a packet's payload
    ([internal/wire/*_frame.go], [frame_type.go], [frame_parser.go], and the loop of
    [handleFrames] in [connection.go] as far as it parses)

    Every frame with its [Append], [Length] and parser; cutting STREAM and CRYPTO
    frames to the size of a packet. Buffers from the pool are not modelled, only
    their capacity, which bounds the data of a STREAM frame. *)

From Stdlib Require Import ZArith Lia Bool String.
From stdpp Require Import base list.
From S2P Require Import Prelude.
From S2P Require Import GoNet.
From S2P Require Import Varint.
From S2P Require Import Wire.
From S2P Require Import AckHistory.
From S2P Require Import AckFrame.
From S2P Require Import AckTracker.

Open Scope Z_scope.
Open Scope list_scope.

(** ** Frame types *)

Definition FrameTypePing : Z := 0x1.
Definition FrameTypeResetStream : Z := 0x4.
Definition FrameTypeStopSending : Z := 0x5.
Definition FrameTypeCrypto : Z := 0x6.
Definition FrameTypeNewToken : Z := 0x7.
Definition FrameTypeMaxData : Z := 0x10.
Definition FrameTypeMaxStreamData : Z := 0x11.
Definition FrameTypeBidiMaxStreams : Z := 0x12.
Definition FrameTypeUniMaxStreams : Z := 0x13.
Definition FrameTypeDataBlocked : Z := 0x14.
Definition FrameTypeStreamDataBlocked : Z := 0x15.
Definition FrameTypeBidiStreamBlocked : Z := 0x16.
Definition FrameTypeUniStreamBlocked : Z := 0x17.
Definition FrameTypeNewConnectionID : Z := 0x18.
Definition FrameTypeRetireConnectionID : Z := 0x19.
Definition FrameTypePathChallenge : Z := 0x1a.
Definition FrameTypePathResponse : Z := 0x1b.
Definition FrameTypeConnectionClose : Z := 0x1c.
Definition FrameTypeApplicationClose : Z := 0x1d.
Definition FrameTypeHandshakeDone : Z := 0x1e.
Definition FrameTypeImmediateAck : Z := 0x1f.
Definition FrameTypeResetStreamAt : Z := 0x24.
Definition FrameTypeDatagramNoLength : Z := 0x30.
Definition FrameTypeDatagramWithLength : Z := 0x31.
Definition FrameTypeAckFrequency : Z := 0xaf.

Definition IsStreamFrameType (t : Z) : bool := (0x8 <=? t) && (t <=? 0xf).
Definition isValidRFC9000 (t : Z) : bool := t <=? 0x1e.
Definition IsAckFrameType (t : Z) : bool := (t =? FrameTypeAck) || (t =? FrameTypeAckECN).
Definition IsDatagramFrameType (t : Z) : bool := (t =? FrameTypeDatagramNoLength) || (t =? FrameTypeDatagramWithLength).

Definition one_of (t : Z) (ts : list Z) : bool := existsb (Z.eqb t) ts.

Definition isAllowedAtEncLevel (t : Z) (encLevel : EncryptionLevel) : bool :=
  match encLevel with
  | EncryptionInitial | EncryptionHandshake =>
      one_of t [FrameTypeCrypto; FrameTypeAck; FrameTypeAckECN; FrameTypeConnectionClose; FrameTypePing]
  | Encryption0RTT =>
      negb (one_of t [FrameTypeCrypto; FrameTypeAck; FrameTypeAckECN; FrameTypeConnectionClose; FrameTypeNewToken;
                      FrameTypePathResponse; FrameTypeRetireConnectionID])
  | Encryption1RTT => true
  end.

Definition IsProbingFrameType (t : Z) : bool := one_of t [FrameTypePathChallenge; FrameTypePathResponse; FrameTypeNewConnectionID].

Definition IsFrameTypeAckEliciting (t : Z) : bool :=
  negb (one_of t [FrameTypeAck; FrameTypeAckECN; FrameTypeConnectionClose; FrameTypeApplicationClose]).

(** ** Frames *)

Record StreamFrame := mkStreamFrame { StreamID : Z; Offset : Z; Data : list Z; Fin : bool; DataLenPresent : bool }.
Record CryptoFrame := mkCryptoFrame { c_Offset : Z; c_Data : list Z }.
Record DatagramFrame := mkDatagramFrame { d_DataLenPresent : bool; d_Data : list Z }.
Record ResetStreamFrame := mkResetStreamFrame { r_StreamID : Z; r_ErrorCode : Z; FinalSize : Z; ReliableSize : Z }.
Record ConnectionCloseFrame := mkConnectionCloseFrame {
  IsApplicationError : bool; ErrorCode : Z; cc_FrameType : Z; ReasonPhrase : list Z;
}.
Record NewConnectionIDFrame := mkNewConnectionIDFrame {
  SequenceNumber : Z; RetirePriorTo : Z; ConnectionID : list Z; StatelessResetToken : list Z;
}.
Record AckFrequencyFrame := mkAckFrequencyFrame {
  af_SequenceNumber : Z; AckElicitingThreshold : Z; RequestMaxAckDelay : duration; ReorderingThreshold : Z;
}.

#[export] Instance eta_StreamFrame : Eta StreamFrame :=
  λ f, mkStreamFrame (StreamID f) (Offset f) (Data f) (Fin f) (DataLenPresent f).
#[export] Instance eta_CryptoFrame : Eta CryptoFrame := λ f, mkCryptoFrame (c_Offset f) (c_Data f).

Inductive StreamType := StreamTypeUni | StreamTypeBidi.

(** The implementations of the interface; those with one or two fields are given by
    these. *)
Inductive Frame :=
| PingFrame
| HandshakeDoneFrame
| ImmediateAckFrame
| AckF (f : AckFrame)
| StreamF (f : StreamFrame)
| CryptoF (f : CryptoFrame)
| DatagramF (f : DatagramFrame)
| ResetStreamF (f : ResetStreamFrame)
| StopSendingFrame (streamID errorCode : Z)
| NewTokenFrame (token : list Z)
| MaxDataFrame (maximumData : Z)
| MaxStreamDataFrame (streamID maximumStreamData : Z)
| MaxStreamsFrame (typ : StreamType) (maxStreamNum : Z)
| DataBlockedFrame (maximumData : Z)
| StreamDataBlockedFrame (streamID maximumStreamData : Z)
| StreamsBlockedFrame (typ : StreamType) (streamLimit : Z)
| NewConnectionIDF (f : NewConnectionIDFrame)
| RetireConnectionIDFrame (sequenceNumber : Z)
| PathChallengeFrame (data : list Z)
| PathResponseFrame (data : list Z)
| ConnectionCloseF (f : ConnectionCloseFrame)
| AckFrequencyF (f : AckFrequencyFrame).

Definition size {A} (l : list A) : Z := Z.of_nat (length l).

Definition MinStreamFrameBufferSize : Z := 128.
Definition MaxPacketBufferSize : Z := 1452.
Definition MaxByteCount : Z := Z.shiftl 1 62 - 1.
Definition MaxStreamCount : Z := Z.shiftl 1 60.
Definition MaxConnIDLen : Z := 20.

(** ** Parsing the frames *)

(** A length and as many bytes. *)
Definition with_length : parser (list Z) := get n := varint in bytes n.

Definition ParseStreamFrame (typ : Z) : parser StreamFrame :=
  let hasOffset := 0 <? Z.land typ 4 in
  let fin := 0 <? Z.land typ 1 in
  let hasDataLen := 0 <? Z.land typ 2 in
  get streamID := varint in
  get offset := (if hasOffset then varint else ret 0) in
  get data := (if hasDataLen then with_length else rest_of) in
  check (size data <? MinStreamFrameBufferSize) || negb (MaxPacketBufferSize <? size data) else EOF in
  check negb (MaxByteCount <? offset + size data) else Msg "stream data overflows maximum offset" in
  ret (mkStreamFrame streamID offset data fin hasDataLen).

Definition parseCryptoFrame : parser CryptoFrame :=
  get offset := varint in
  get data := with_length in
  ret (mkCryptoFrame offset data).

Definition parseDatagramFrame (typ : Z) : parser DatagramFrame :=
  let present := 0 <? Z.land typ 1 in
  get data := (if present then with_length else rest_of) in
  ret (mkDatagramFrame present data).

Definition parseResetStreamFrame (isResetStreamAt : bool) : parser ResetStreamFrame :=
  get streamID := varint in
  get errorCode := varint in
  get finalSize := varint in
  get reliableSize := (if isResetStreamAt then varint else ret 0) in
  check negb (finalSize <? reliableSize) else Msg "RESET_STREAM_AT: reliable size can't be larger than final size" in
  ret (mkResetStreamFrame streamID errorCode finalSize reliableSize).

Definition parseStopSendingFrame : parser Frame :=
  get streamID := varint in get errorCode := varint in ret (StopSendingFrame streamID errorCode).

Definition parseNewTokenFrame : parser Frame :=
  get tokenLen := varint in
  check negb (tokenLen =? 0) else Msg "token must not be empty" in
  get token := bytes tokenLen in ret (NewTokenFrame token).

Definition parseMaxDataFrame : parser Frame := get byteOffset := varint in ret (MaxDataFrame byteOffset).
Definition parseDataBlockedFrame : parser Frame := get offset := varint in ret (DataBlockedFrame offset).
Definition parseMaxStreamDataFrame : parser Frame :=
  get sid := varint in get offset := varint in ret (MaxStreamDataFrame sid offset).
Definition parseStreamDataBlockedFrame : parser Frame :=
  get sid := varint in get offset := varint in ret (StreamDataBlockedFrame sid offset).

Definition parseMaxStreamsFrame (typ : Z) : parser Frame :=
  get n := varint in
  check negb (MaxStreamCount <? n) else Msg "exceeds the maximum stream count" in
  ret (MaxStreamsFrame (if typ =? FrameTypeBidiMaxStreams then StreamTypeBidi else StreamTypeUni) n).

Definition parseStreamsBlockedFrame (typ : Z) : parser Frame :=
  get n := varint in
  check negb (MaxStreamCount <? n) else Msg "exceeds the maximum stream count" in
  ret (StreamsBlockedFrame (if typ =? FrameTypeBidiStreamBlocked then StreamTypeBidi else StreamTypeUni) n).

Definition parseNewConnectionIDFrame : parser NewConnectionIDFrame :=
  get seq := varint in
  get retire := varint in
  check negb (seq <? retire) else Msg "Retire Prior To value larger than Sequence Number" in
  get connIDLen := byte in
  check negb (connIDLen =? 0) else Msg "invalid zero-length connection ID" in
  check negb (MaxConnIDLen <? connIDLen) else Msg "invalid Connection ID length" in
  get connID := bytes connIDLen in
  get token := bytes 16 in
  ret (mkNewConnectionIDFrame seq retire connID token).

Definition parseRetireConnectionIDFrame : parser Frame := get seq := varint in ret (RetireConnectionIDFrame seq).
Definition parsePathChallengeFrame : parser Frame := get data := bytes 8 in ret (PathChallengeFrame data).
Definition parsePathResponseFrame : parser Frame := get data := bytes 8 in ret (PathResponseFrame data).

Definition parseConnectionCloseFrame (typ : Z) : parser ConnectionCloseFrame :=
  let application := typ =? FrameTypeApplicationClose in
  get ec := varint in
  get ft := (if application then ret 0 else varint) in
  get reason := with_length in
  ret (mkConnectionCloseFrame application ec ft reason).

(** The requested delay is in microseconds; overflow shows only in the sign. *)
Definition decodeMaxAckDelay (mad : Z) : duration :=
  let maxAckDelay := wrap_s 64 (mad * microsecond) in
  if maxAckDelay <? 0 then int64_max else maxAckDelay.

Definition parseAckFrequencyFrame : parser AckFrequencyFrame :=
  get seq := varint in
  get aeth := varint in
  get mad := varint in
  get rth := varint in
  ret (mkAckFrequencyFrame seq aeth (decodeMaxAckDelay mad) rth).

(** ** The parser of frames *)

Record FrameParser := mkFrameParser {
  ackDelayExponent : Z;
  supportsDatagrams : bool;
  supportsResetStreamAt : bool;
  supportsAckFrequency : bool;
}.

#[export] Instance eta_FrameParser : Eta FrameParser :=
  λ p, mkFrameParser (ackDelayExponent p) (supportsDatagrams p) (supportsResetStreamAt p) (supportsAckFrequency p).

Definition NewFrameParser (datagrams resetStreamAt ackFrequency : bool) : FrameParser :=
  mkFrameParser 0 datagrams resetStreamAt ackFrequency.
Definition SetAckDelayExponent (exp : Z) (p : FrameParser) : FrameParser := p <| ackDelayExponent := exp |>.
Definition DefaultAckDelayExponent : Z := 3.

(** [NoMore] is the bare [io.EOF] after the last frame; the others are transport
    errors with the frame type. *)
Inductive frame_error := NoMore | FrameEncodingError (typ : Z) (e : wire_error).

Definition errUnknownFrameType : wire_error := Msg "unknown frame type".
Definition errNotAllowed : wire_error := Msg "not allowed at encryption level".

Definition valid_type (p : FrameParser) (ft : Z) : bool :=
  isValidRFC9000 ft || (supportsDatagrams p && IsDatagramFrameType ft) ||
  (supportsResetStreamAt p && (ft =? FrameTypeResetStreamAt)) ||
  (supportsAckFrequency p && ((ft =? FrameTypeAckFrequency) || (ft =? FrameTypeImmediateAck))).

(** The loop of [ParseType]; [None]: it has not ended after [fuel] turns. Every turn
    takes a byte at least, so as many turns as there are bytes are enough. *)
Fixpoint parse_type_loop (fuel : nat) (p : FrameParser) (encLevel : EncryptionLevel) (b : list Z) : option ((Z * list Z) + frame_error) :=
  match b, fuel with
  | [], _ => Some (inr NoMore)
  | _, O => None
  | _, S fuel =>
      match varint b with
      | inr _ => Some (inr (FrameEncodingError 0 (Msg "unexpected EOF")))
      | inl (typ, b) =>
          if typ =? 0 then parse_type_loop fuel p encLevel b
          else if negb (valid_type p typ) then Some (inr (FrameEncodingError typ errUnknownFrameType))
          else if negb (isAllowedAtEncLevel typ encLevel) then Some (inr (FrameEncodingError typ errNotAllowed))
          else Some (inl (typ, b))
      end
  end.

Definition ParseType (p : FrameParser) (encLevel : EncryptionLevel) (b : list Z) : option ((Z * list Z) + frame_error) :=
  parse_type_loop (length b) p encLevel b.

Definition map_p {A B} (f : A → B) (m : parser A) : parser B := bind m (λ a, ret (f a)).

Definition ParseAckFrame (p : FrameParser) (typ : Z) (encLevel : EncryptionLevel) : parser Frame :=
  let exponent := match encLevel with Encryption1RTT => ackDelayExponent p | _ => DefaultAckDelayExponent end in
  map_p AckF (parseAckFrame typ exponent).

Definition ParseLessCommonFrame (t : Z) : parser Frame :=
  if t =? FrameTypePing then ret PingFrame
  else if t =? FrameTypeResetStream then map_p ResetStreamF (parseResetStreamFrame false)
  else if t =? FrameTypeStopSending then parseStopSendingFrame
  else if t =? FrameTypeCrypto then map_p CryptoF parseCryptoFrame
  else if t =? FrameTypeNewToken then parseNewTokenFrame
  else if t =? FrameTypeMaxData then parseMaxDataFrame
  else if t =? FrameTypeMaxStreamData then parseMaxStreamDataFrame
  else if one_of t [FrameTypeBidiMaxStreams; FrameTypeUniMaxStreams] then parseMaxStreamsFrame t
  else if t =? FrameTypeDataBlocked then parseDataBlockedFrame
  else if t =? FrameTypeStreamDataBlocked then parseStreamDataBlockedFrame
  else if one_of t [FrameTypeBidiStreamBlocked; FrameTypeUniStreamBlocked] then parseStreamsBlockedFrame t
  else if t =? FrameTypeNewConnectionID then map_p NewConnectionIDF parseNewConnectionIDFrame
  else if t =? FrameTypeRetireConnectionID then parseRetireConnectionIDFrame
  else if t =? FrameTypePathChallenge then parsePathChallengeFrame
  else if t =? FrameTypePathResponse then parsePathResponseFrame
  else if one_of t [FrameTypeConnectionClose; FrameTypeApplicationClose] then map_p ConnectionCloseF (parseConnectionCloseFrame t)
  else if t =? FrameTypeHandshakeDone then ret HandshakeDoneFrame
  else if t =? FrameTypeResetStreamAt then map_p ResetStreamF (parseResetStreamFrame true)
  else if t =? FrameTypeAckFrequency then map_p AckFrequencyF parseAckFrequencyFrame
  else if t =? FrameTypeImmediateAck then ret ImmediateAckFrame
  else fail errUnknownFrameType.

(** The choice [handleFrames] makes. *)
Definition parse_body (p : FrameParser) (encLevel : EncryptionLevel) (t : Z) : parser Frame :=
  if IsStreamFrameType t then map_p StreamF (ParseStreamFrame t)
  else if IsAckFrameType t then ParseAckFrame p t encLevel
  else if IsDatagramFrameType t then map_p DatagramF (parseDatagramFrame t)
  else ParseLessCommonFrame t.

(** The loop of [handleFrames], every frame being handled without an error; [None]: it,
    or the loop in it, has not ended after [fuel] turns. *)
Fixpoint frames_loop (fuel : nat) (p : FrameParser) (encLevel : EncryptionLevel) (data : list Z) : option (list Frame + frame_error) :=
  match data, fuel with
  | [], _ => Some (inl [])
  | _, O => None
  | _, S fuel =>
      match ParseType p encLevel data with
      | None => None
      | Some (inr NoMore) => Some (inl [])
      | Some (inr e) => Some (inr e)
      | Some (inl (t, data)) =>
          match parse_body p encLevel t data with
          | inr e => Some (inr (FrameEncodingError t e))
          | inl (f, data) =>
              match frames_loop fuel p encLevel data with
              | Some (inl fs) => Some (inl (f :: fs))
              | r => r
              end
          end
      end
  end.

Definition parse_frames (p : FrameParser) (encLevel : EncryptionLevel) (data : list Z) : option (list Frame + frame_error) :=
  frames_loop (length data) p encLevel data.

(** ** Writing the frames *)

Definition opt (c : bool) (w : writer) : writer := if c then w else raw [].
Definition opt_len (c : bool) (n : option Z) : option Z := if c then n else Some 0.

Definition errEmptyStreamFrame : wire_error := Msg "StreamFrame: attempting to write empty frame without FIN".
Definition errConnIDLen : wire_error := Msg "invalid connection ID length".

Definition stream_type (f : StreamFrame) : Z :=
  let typ := 0x8 in
  let typ := if Fin f then Z.lxor typ 1 else typ in
  let typ := if DataLenPresent f then Z.lxor typ 2 else typ in
  if negb (Offset f =? 0) then Z.lxor typ 4 else typ.

Definition streams_type (typ : StreamType) (bidi uni : Z) : Z := match typ with StreamTypeBidi => bidi | StreamTypeUni => uni end.

Definition type_of (f : Frame) : Z :=
  match f with
  | PingFrame => FrameTypePing
  | HandshakeDoneFrame => FrameTypeHandshakeDone
  | ImmediateAckFrame => FrameTypeImmediateAck
  | AckF f => ack_type f
  | StreamF f => stream_type f
  | CryptoF _ => FrameTypeCrypto
  | DatagramF f => if d_DataLenPresent f then Z.lxor 0x30 1 else 0x30
  | ResetStreamF f => if ReliableSize f =? 0 then FrameTypeResetStream else FrameTypeResetStreamAt
  | StopSendingFrame _ _ => FrameTypeStopSending
  | NewTokenFrame _ => FrameTypeNewToken
  | MaxDataFrame _ => FrameTypeMaxData
  | MaxStreamDataFrame _ _ => FrameTypeMaxStreamData
  | MaxStreamsFrame t _ => streams_type t FrameTypeBidiMaxStreams FrameTypeUniMaxStreams
  | DataBlockedFrame _ => FrameTypeDataBlocked
  | StreamDataBlockedFrame _ _ => 0x15
  | StreamsBlockedFrame t _ => streams_type t FrameTypeBidiStreamBlocked FrameTypeUniStreamBlocked
  | NewConnectionIDF _ => FrameTypeNewConnectionID
  | RetireConnectionIDFrame _ => FrameTypeRetireConnectionID
  | PathChallengeFrame _ => FrameTypePathChallenge
  | PathResponseFrame _ => FrameTypePathResponse
  | ConnectionCloseF f => if IsApplicationError f then FrameTypeApplicationClose else FrameTypeConnectionClose
  | AckFrequencyF _ => FrameTypeAckFrequency
  end.

(** The type as it is written: a byte, or a varint. *)
Definition put_type (f : Frame) : writer :=
  match f with
  | ImmediateAckFrame | ResetStreamF _ | AckFrequencyF _ => put (type_of f)
  | _ => raw [type_of f]
  end.

Definition put_data (l : list Z) : writer := put (size l) +++ raw l.

(** What follows the type. *)
Definition body_of (f : Frame) : writer :=
  match f with
  | PingFrame | HandshakeDoneFrame | ImmediateAckFrame => raw []
  | AckF f => ack_body f
  | StreamF f =>
      put (StreamID f) +++ opt (negb (Offset f =? 0)) (put (Offset f)) +++
      (if DataLenPresent f then put_data (Data f) else raw (Data f))
  | CryptoF f => put (c_Offset f) +++ put_data (c_Data f)
  | DatagramF f => if d_DataLenPresent f then put_data (d_Data f) else raw (d_Data f)
  | ResetStreamF f =>
      put (r_StreamID f) +++ put (r_ErrorCode f) +++ put (FinalSize f) +++ opt (0 <? ReliableSize f) (put (ReliableSize f))
  | StopSendingFrame id ec => put id +++ put ec
  | NewTokenFrame token => put_data token
  | MaxDataFrame n | DataBlockedFrame n | RetireConnectionIDFrame n => put n
  | MaxStreamDataFrame id n | StreamDataBlockedFrame id n => put id +++ put n
  | MaxStreamsFrame _ n | StreamsBlockedFrame _ n => put n
  | NewConnectionIDF f =>
      put (SequenceNumber f) +++ put (RetirePriorTo f) +++
      (if MaxConnIDLen <? size (ConnectionID f) then inr errConnIDLen
       else raw [uint8 (size (ConnectionID f))] +++ raw (ConnectionID f) +++ raw (StatelessResetToken f))
  | PathChallengeFrame data | PathResponseFrame data => raw data
  | ConnectionCloseF f =>
      put (ErrorCode f) +++ opt (negb (IsApplicationError f)) (put (cc_FrameType f)) +++ put_data (ReasonPhrase f)
  | AckFrequencyF f =>
      put (af_SequenceNumber f) +++ put (AckElicitingThreshold f) +++ put (Z.quot (RequestMaxAckDelay f) microsecond) +++
      put (ReorderingThreshold f)
  end.

Definition AppendFrame (f : Frame) : writer :=
  match f with
  | StreamF s => if (size (Data s) =? 0) && negb (Fin s) then inr errEmptyStreamFrame else put_type f +++ body_of f
  | _ => put_type f +++ body_of f
  end.

(** [Length]: [None] when it panics. *)
Definition len_data (l : list Z) : option Z := len (size l) ⊕ Some (size l).

Definition body_length (f : Frame) : option Z :=
  match f with
  | PingFrame | HandshakeDoneFrame => Some 0
  | ImmediateAckFrame => Some 0
  | AckF f => None
  | StreamF f =>
      len (StreamID f) ⊕ opt_len (negb (Offset f =? 0)) (len (Offset f)) ⊕
      (if DataLenPresent f then len_data (Data f) else Some (size (Data f)))
  | CryptoF f => len (c_Offset f) ⊕ len_data (c_Data f)
  | DatagramF f => if d_DataLenPresent f then len_data (d_Data f) else Some (size (d_Data f))
  | ResetStreamF f =>
      len (r_StreamID f) ⊕ len (r_ErrorCode f) ⊕ len (FinalSize f) ⊕ opt_len (0 <? ReliableSize f) (len (ReliableSize f))
  | StopSendingFrame id ec => len id ⊕ len ec
  | NewTokenFrame token => len_data token
  | MaxDataFrame n | DataBlockedFrame n | RetireConnectionIDFrame n => len n
  | MaxStreamDataFrame id n | StreamDataBlockedFrame id n => len id ⊕ len n
  | MaxStreamsFrame _ n | StreamsBlockedFrame _ n => len n
  | NewConnectionIDF f => len (SequenceNumber f) ⊕ len (RetirePriorTo f) ⊕ Some 1 ⊕ Some (size (ConnectionID f)) ⊕ Some 16
  | PathChallengeFrame _ | PathResponseFrame _ => Some 8
  | ConnectionCloseF f => len (ErrorCode f) ⊕ opt_len (negb (IsApplicationError f)) (len (cc_FrameType f)) ⊕ len_data (ReasonPhrase f)
  | AckFrequencyF f =>
      len (af_SequenceNumber f) ⊕ len (AckElicitingThreshold f) ⊕ len (Z.quot (RequestMaxAckDelay f) microsecond)
      ⊕ len (ReorderingThreshold f)
  end.

Definition LengthFrame (f : Frame) : option Z :=
  match f with
  | AckF f => LengthAck f
  | ImmediateAckFrame => len FrameTypeImmediateAck
  | AckFrequencyF _ => Some 2 ⊕ body_length f
  | _ => Some 1 ⊕ body_length f
  end.

(** ** Cutting frames *)

(** [headerLen] reckons with a length of one byte; when the data that then fits takes
    a longer one, a byte is left out. *)
Definition fit_data (headerLen maxSize : Z) (withLength : bool) : option Z :=
  if maxSize <? headerLen then Some 0
  else
    let maxDataLen := maxSize - headerLen in
    if withLength then (λ l, if l =? 1 then maxDataLen else maxDataLen - 1) <$> len maxDataLen else Some maxDataLen.

Definition stream_header (f : StreamFrame) : option Z :=
  Some 1 ⊕ len (StreamID f) ⊕ opt_len (negb (Offset f =? 0)) (len (Offset f)) ⊕ Some (if DataLenPresent f then 1 else 0).

Definition StreamMaxDataLen (maxSize : Z) (f : StreamFrame) : option Z :=
  h ← stream_header f; fit_data h maxSize (DataLenPresent f).

Definition CryptoMaxDataLen (maxSize : Z) (f : CryptoFrame) : option Z :=
  h ← Some 1 ⊕ len (c_Offset f) ⊕ Some 1; fit_data h maxSize true.

Definition DatagramMaxDataLen (maxSize : Z) (f : DatagramFrame) : option Z :=
  fit_data (1 + (if d_DataLenPresent f then 1 else 0)) maxSize (d_DataLenPresent f).

(** [MaybeSplitOffFrame]: the frame split off, what the frame itself becomes, and
    whether a split was needed. *)
Definition StreamSplit (maxSize : Z) (f : StreamFrame) : option (option StreamFrame * StreamFrame * bool) :=
  l ← LengthFrame (StreamF f);
  if l <=? maxSize then Some (None, f, false)
  else
    n ← StreamMaxDataLen maxSize f;
    if n =? 0 then Some (None, f, true)
    else
      let new := mkStreamFrame (StreamID f) (Offset f) (take (Z.to_nat n) (Data f)) false (DataLenPresent f) in
      Some (Some new, f <| Data := drop (Z.to_nat n) (Data f) |> <| Offset := Offset f + n |>, true).

Definition CryptoSplit (maxSize : Z) (f : CryptoFrame) : option (option CryptoFrame * CryptoFrame * bool) :=
  l ← LengthFrame (CryptoF f);
  if l <=? maxSize then Some (None, f, false)
  else
    n ← CryptoMaxDataLen maxSize f;
    if n =? 0 then Some (None, f, true)
    else
      let new := mkCryptoFrame (c_Offset f) (take (Z.to_nat n) (c_Data f)) in
      Some (Some new, f <| c_Data := drop (Z.to_nat n) (c_Data f) |> <| c_Offset := c_Offset f + n |>, true).

(** ** Tests *)

Example stream_bytes :
  AppendFrame (StreamF (mkStreamFrame 5 1024 [104; 105] true true)) = inl [15; 5; 68; 0; 2; 104; 105].
Proof. vm_compute. reflexivity. Qed.
Example two_frames :
  parse_frames (NewFrameParser true false false) Encryption1RTT [0; 0; 1; 0; 15; 5; 68; 0; 2; 104; 105; 16; 64; 200]
  = Some (inl [PingFrame; StreamF (mkStreamFrame 5 1024 [104; 105] true true); MaxDataFrame 200]).
Proof. vm_compute. reflexivity. Qed.

(** ** Frames that can be written *)

Definition bytes_ok (l : list Z) : Prop := Forall byte_ok l ∧ fits (size l).

Definition frame_ok (f : Frame) : Prop :=
  match f with
  | PingFrame | HandshakeDoneFrame | ImmediateAckFrame => True
  | AckF f => ack_ok f
  | StreamF f =>
      fits (StreamID f) ∧ 0 <= Offset f ∧ Offset f + size (Data f) <= MaxByteCount ∧ size (Data f) <= MaxPacketBufferSize ∧
      (Data f ≠ [] ∨ Fin f = true) ∧ bytes_ok (Data f)
  | CryptoF f => fits (c_Offset f) ∧ bytes_ok (c_Data f)
  | DatagramF f => bytes_ok (d_Data f)
  | ResetStreamF f => fits (r_StreamID f) ∧ fits (r_ErrorCode f) ∧ fits (FinalSize f) ∧ 0 <= ReliableSize f <= FinalSize f
  | StopSendingFrame a b | MaxStreamDataFrame a b | StreamDataBlockedFrame a b => fits a ∧ fits b
  | NewTokenFrame token => token ≠ [] ∧ bytes_ok token
  | MaxDataFrame n | DataBlockedFrame n | RetireConnectionIDFrame n => fits n
  | MaxStreamsFrame _ n | StreamsBlockedFrame _ n => 0 <= n <= MaxStreamCount
  | NewConnectionIDF f =>
      fits (SequenceNumber f) ∧ 0 <= RetirePriorTo f <= SequenceNumber f ∧ 1 <= size (ConnectionID f) <= MaxConnIDLen ∧
      Forall byte_ok (ConnectionID f) ∧ size (StatelessResetToken f) = 16 ∧ Forall byte_ok (StatelessResetToken f)
  | PathChallengeFrame data | PathResponseFrame data => Forall byte_ok data ∧ size data = 8
  | ConnectionCloseF f =>
      fits (ErrorCode f) ∧ fits (cc_FrameType f) ∧ (IsApplicationError f = true → cc_FrameType f = 0) ∧ bytes_ok (ReasonPhrase f)
  | AckFrequencyF f =>
      fits (af_SequenceNumber f) ∧ fits (AckElicitingThreshold f) ∧ 0 <= RequestMaxAckDelay f < 2 ^ 63 ∧ fits (ReorderingThreshold f)
  end.

(** A frame without a length takes the rest of the packet. *)
Definition delimited (f : Frame) : bool :=
  match f with StreamF f => DataLenPresent f | DatagramF f => d_DataLenPresent f | _ => true end.

(** Durations travel in coarser units; an ACK carries 64 ranges. *)
Definition received_as (f : Frame) : Frame :=
  match f with
  | AckF f => AckF (f <| AckRanges := take MaxNumAckRanges (AckRanges f) |> <| DelayTime := DelayTime f / 8000 * 8000 |>)
  | AckFrequencyF f =>
      AckFrequencyF (mkAckFrequencyFrame (af_SequenceNumber f) (AckElicitingThreshold f) (RequestMaxAckDelay f / 1000 * 1000)
                       (ReorderingThreshold f))
  | f => f
  end.

(** ** Reading back one frame *)

Lemma written_opt c x :
  fits x → (c = false → x = 0) → written (opt c (put x)) (opt_len c (len x)) (if c then varint else ret 0) x.
Proof. intros Hx Hc. destruct c; [by apply written_put|]. rewrite Hc by done. apply written_nil. Qed.

Lemma written_data l : bytes_ok l → written (put_data l) (len_data l) with_length l.
Proof.
  intros [Hb Hf]. apply written_bind with (v := size l); [by apply written_put|]. by apply written_raw.
Qed.

Lemma written_byte x : byte_ok x → written (raw [x]) (Some 1) byte x.
Proof. intros Hx. exists [x]. split; [done|]. split; [by constructor|]. split; [done|]. apply reads_byte. Qed.

(** One field after the other. *)
Ltac w_field :=
  first [ eapply written_bind; [first [apply written_put | apply written_data | apply written_opt | apply written_byte]; try assumption|]; cbv beta
        | apply written_check ].
Ltac w_last :=
  apply written_map; first [apply written_put | apply written_data | apply written_opt]; try assumption.

Lemma stream_written p f :
  frame_ok (StreamF f) → DataLenPresent f = true →
  written (body_of (StreamF f)) (body_length (StreamF f)) (parse_body p Encryption1RTT (stream_type f)) (StreamF f).
Proof.
  intros (H1 & H2 & H3 & H4 & H5 & H6) Hd. assert (fits (Offset f)) as Ho.
  { unfold fits, maxVarInt8. unfold MaxByteCount, size in H3. change (Z.shiftl 1 62) with 4611686018427387904 in H3. lia. }
  assert (parse_body p Encryption1RTT (stream_type f) = map_p StreamF (ParseStreamFrame (stream_type f)) ∧
    (0 <? Z.land (stream_type f) 4) = negb (Offset f =? 0) ∧ (0 <? Z.land (stream_type f) 1) = Fin f ∧
    (0 <? Z.land (stream_type f) 2) = true) as (-> & E4 & E1 & E2)
    by (unfold stream_type; rewrite Hd; by destruct (Fin f), (Offset f =? 0)).
  unfold map_p. apply written_map. unfold ParseStreamFrame. rewrite E4, E1, E2. cbn [body_of body_length]. rewrite Hd.
  w_field. w_field.
  { intros E. apply negb_false_iff, Z.eqb_eq in E. done. }
  assert (mkStreamFrame (StreamID f) (Offset f) (Data f) (Fin f) true = f) as Ef by (destruct f; cbn in *; by subst).
  destruct (written_data _ H6) as (bs & -> & Hbs & -> & Hr). exists bs. split; [done|]. split; [done|]. split; [done|].
  rewrite <- (app_nil_r bs). eapply wire_reads_bind; [exact Hr| |constructor]. apply reads_check.
  { unfold MaxPacketBufferSize in *. rewrite (proj2 (Z.ltb_ge 1452 _)) by lia. apply orb_true_r. }
  apply reads_check; [by rewrite (proj2 (Z.ltb_ge _ _)) by lia|]. rewrite Ef. apply wire_reads_ret.
Qed.

Lemma decode_max_delay d : 0 <= d < 2 ^ 63 → fits (Z.quot d microsecond) ∧ decodeMaxAckDelay (Z.quot d microsecond) = d / 1000 * 1000.
Proof.
  intros Hd. unfold microsecond. rewrite Z.quot_div_nonneg by lia. change (2 ^ 63) with 9223372036854775808 in Hd.
  pose proof (Z.div_mod d 1000 ltac:(lia)). pose proof (Z.mod_pos_bound d 1000 ltac:(lia)). assert (0 <= d / 1000) by (apply Z.div_pos; lia).
  split; [unfold fits, maxVarInt8; lia|]. unfold decodeMaxAckDelay, microsecond.
  assert (wrap_s 64 (d / 1000 * 1000) = d / 1000 * 1000) as ->.
  { unfold wrap_s. change (2 ^ (64 - 1)) with 9223372036854775808. change (2 ^ 64) with 18446744073709551616. rewrite Z.mod_small by lia. lia. }
  by rewrite (proj2 (Z.ltb_ge _ _)) by lia.
Qed.

(** Every frame but an ACK, written and read. *)
Lemma body_written p f :
  frame_ok f → delimited f = true → (∀ a, f ≠ AckF a) →
  written (body_of f) (body_length f) (parse_body p Encryption1RTT (type_of f)) (received_as f).
Proof.
  intros Hok Hd Hna. destruct f as [| | |a|s|c|d|r|id ec|token|n|id n|ty n|n|id n|ty n|nc|n|data|data|cc|af]; cbn [frame_ok delimited received_as] in *.
  - apply written_nil.
  - apply written_nil.
  - apply written_nil.
  - by destruct (Hna a).
  - by apply stream_written.
  - destruct Hok as [H1 H2]. destruct c as [o l]. cbn in *. unfold map_p. apply written_map. w_field. w_last.
  - destruct d as [present l]. cbn in *. subst present. unfold map_p. apply written_map. w_last.
  - destruct Hok as (H1 & H2 & H3 & H4). destruct r as [id ec fs rs].
    cbn [r_StreamID r_ErrorCode FinalSize ReliableSize body_of body_length type_of] in *.
    assert (fits rs) as H5 by (unfold fits in *; lia).
    assert (parse_body p Encryption1RTT (if rs =? 0 then FrameTypeResetStream else FrameTypeResetStreamAt) = map_p ResetStreamF (parseResetStreamFrame (negb (rs =? 0)))) as -> by (by destruct (rs =? 0)).
    unfold map_p. apply written_map. unfold parseResetStreamFrame. w_field. w_field. w_field.
    replace (0 <? rs) with (negb (rs =? 0)) by (destruct (Z.eqb_spec rs 0), (Z.ltb_spec 0 rs); lia || done).
    destruct (written_opt (negb (rs =? 0)) rs H5) as (bs & -> & Hbs & -> & Hr); [by intros E%negb_false_iff%Z.eqb_eq|].
    exists bs. split; [done|]. split; [done|]. split; [done|]. rewrite <- (app_nil_r bs). eapply wire_reads_bind; [exact Hr| |constructor].
    apply reads_check; [by rewrite (proj2 (Z.ltb_ge _ _)) by lia|]. apply wire_reads_ret.
  - destruct Hok as [H1 H2]. cbn. w_field. w_last.
  - destruct Hok as [H1 [H2 H3]]. cbn. w_field. apply written_check; [destruct token; done|].
    apply written_map. by apply written_raw.
  - cbn. w_last.
  - destruct Hok as [H1 H2]. cbn. w_field. w_last.
  - assert (fits n) as Hn by (unfold fits, maxVarInt8, MaxStreamCount in *; change (Z.shiftl 1 60) with 1152921504606846976 in *; lia).
    destruct ty; cbn; (destruct (written_put n Hn) as (bs & -> & Hbs & -> & Hr); exists bs; split; [done|]; split; [done|]; split; [done|];
      rewrite <- (app_nil_r bs); eapply wire_reads_bind; [exact Hr| |constructor];
      apply reads_check; [by rewrite (proj2 (Z.ltb_ge _ _)) by lia|]; apply wire_reads_ret).
  - cbn. w_last.
  - destruct Hok as [H1 H2]. cbn. w_field. w_last.
  - assert (fits n) as Hn by (unfold fits, maxVarInt8, MaxStreamCount in *; change (Z.shiftl 1 60) with 1152921504606846976 in *; lia).
    destruct ty; cbn; (destruct (written_put n Hn) as (bs & -> & Hbs & -> & Hr); exists bs; split; [done|]; split; [done|]; split; [done|];
      rewrite <- (app_nil_r bs); eapply wire_reads_bind; [exact Hr| |constructor];
      apply reads_check; [by rewrite (proj2 (Z.ltb_ge _ _)) by lia|]; apply wire_reads_ret).
  - destruct Hok as (H1 & H2 & H3 & H4 & H5 & H6). destruct nc as [seq retire cid token].
    cbn [SequenceNumber RetirePriorTo ConnectionID StatelessResetToken body_of body_length type_of] in *.
    assert (fits retire) as Hr by (unfold fits in *; lia). unfold map_p. apply written_map. unfold parseNewConnectionIDFrame.
    unfold MaxConnIDLen in *. rewrite (proj2 (Z.ltb_ge _ _)) by lia.
    assert (uint8 (size cid) = size cid) as -> by (apply wrap_u_small; change (2 ^ 8) with 256; lia).
    w_field. w_field. apply written_check; [by rewrite (proj2 (Z.ltb_ge _ _)) by lia|].
    eapply written_bind; [apply (written_byte (size cid)); unfold byte_ok; lia|]. cbv beta.
    apply written_check; [by rewrite (proj2 (Z.eqb_neq _ _)) by lia|]. apply written_check; [by rewrite (proj2 (Z.ltb_ge _ _)) by lia|].
    eapply written_bind; [by apply written_raw|]. cbv beta. apply written_map. by apply written_raw.
  - cbn. w_last.
  - destruct Hok as [H1 H2]. cbn. apply written_map. by apply written_raw.
  - destruct Hok as [H1 H2]. cbn. apply written_map. by apply written_raw.
  - destruct Hok as (H1 & H2 & H3 & H4). destruct cc as [application ec ft reason].
    cbn [IsApplicationError ErrorCode cc_FrameType ReasonPhrase body_of body_length type_of] in *.
    assert (parse_body p Encryption1RTT (if application then FrameTypeApplicationClose else FrameTypeConnectionClose) = map_p ConnectionCloseF
      (get ec := varint in get ft := (if negb application then varint else ret 0) in get reason := with_length in
       ret (mkConnectionCloseFrame application ec ft reason))) as -> by (by destruct application).
    unfold map_p. apply written_map. w_field.
    eapply written_bind; [apply (written_opt (negb application) ft); [done|by intros E%negb_false_iff; apply H3]|]. cbv beta.
    w_last.
  - destruct Hok as (H1 & H2 & H3 & H4). destruct af as [seq th d ro]. cbn in *. destruct (decode_max_delay d H3) as [Hf Hdec].
    unfold map_p. apply written_map. rewrite <- Hdec. w_field. w_field. w_field. w_last.
Qed.

(** ** Reading back a payload *)

Lemma undelimited_body p f :
  frame_ok f → delimited f = false →
  ∃ bs, body_of f = inl bs ∧ Forall byte_ok bs ∧ body_length f = Some (size bs) ∧
    parse_body p Encryption1RTT (type_of f) bs = inl (received_as f, []).
Proof.
  intros Hok Hd. destruct f as [| | |a|s|c|d|r|id ec|token|n|id n|ty n|n|id n|ty n|nc|n|data|data|cc|af]; try done; cbn [delimited type_of received_as] in *.
  - destruct Hok as (H1 & H2 & H3 & H4 & H5 & H6 & H7). assert (fits (Offset s)) as Ho.
    { unfold fits, maxVarInt8. unfold MaxByteCount, size in H3. change (Z.shiftl 1 62) with 4611686018427387904 in H3. lia. }
    assert (parse_body p Encryption1RTT (stream_type s) = map_p StreamF (ParseStreamFrame (stream_type s)) ∧
      (0 <? Z.land (stream_type s) 4) = negb (Offset s =? 0) ∧ (0 <? Z.land (stream_type s) 1) = Fin s ∧
      (0 <? Z.land (stream_type s) 2) = false) as (-> & E4 & E1 & E2)
      by (unfold stream_type; rewrite Hd; by destruct (Fin s), (Offset s =? 0)).
    cbn [body_of body_length]. rewrite Hd.
    destruct (written_put _ H1) as (b1 & -> & Hb1 & -> & Hr1).
    destruct (written_opt (negb (Offset s =? 0)) _ Ho) as (b2 & -> & Hb2 & -> & Hr2); [by intros E%negb_false_iff%Z.eqb_eq|].
    exists (b1 ++ b2 ++ Data s). split; [done|]. split; [by rewrite !Forall_app|]. split.
    { cbn. unfold size. rewrite !length_app. f_equal. lia. }
    unfold map_p, ParseStreamFrame, bind. rewrite E4, E1, E2, Hr1 by (by rewrite !Forall_app). rewrite Hr2 by done. cbn [rest_of].
    unfold MaxPacketBufferSize in *. rewrite (proj2 (Z.ltb_ge 1452 _)) by lia. rewrite orb_true_r.
    rewrite (proj2 (Z.ltb_ge MaxByteCount _)) by lia. cbn. destruct s. cbn in *. by subst.
  - destruct Hok as [H1 H2]. destruct d as [present l]. cbn in *. subst present. exists l. by repeat split.
Qed.

Lemma put_type_put f : put_type f = put (type_of f).
Proof.
  destruct f as [| | |a|s|c|d|r|id ec|token|n|id n|ty n|n|id n|ty n|nc|n|data|data|cc|af]; try done; cbn [put_type type_of].
  - unfold ack_type. by destruct (hasECN a).
  - unfold stream_type. by destruct (Fin s), (DataLenPresent s), (Offset s =? 0).
  - by destruct (d_DataLenPresent d).
  - by destruct ty.
  - by destruct ty.
  - by destruct (IsApplicationError cc).
Qed.

Lemma type_range f : 1 <= type_of f <= 175.
Proof.
  destruct f as [| | |a|s|c|d|r|id ec|token|n|id n|ty n|n|id n|ty n|nc|n|data|data|cc|af]; cbn [type_of].
  4: unfold ack_type; destruct (hasECN a).
  6: unfold stream_type; destruct (Fin s), (DataLenPresent s), (Offset s =? 0).
  all: repeat match goal with |- context [if ?c then _ else _] => destruct c end; try destruct ty; split; by vm_compute.
Qed.

Lemma type_fits f : fits (type_of f) ∧ type_of f ≠ 0.
Proof. pose proof (type_range f). unfold fits, maxVarInt8. lia. Qed.

Lemma type_read p f :
  valid_type p (type_of f) = true →
  ∃ tb, put_type f = inl tb ∧ Forall byte_ok tb ∧ len (type_of f) = Some (size tb) ∧ tb ≠ [] ∧
    ∀ rest, Forall byte_ok rest → ParseType p Encryption1RTT (tb ++ rest) = Some (inl (type_of f, rest)).
Proof.
  intros Hv. destruct (type_fits f) as [Hf Hn]. destruct (put_fits _ Hf) as (tb & Ht & Hb & Hl & Hr & Hne). exists tb.
  rewrite put_type_put. split; [done|]. split; [done|]. split; [done|]. split; [done|]. intros rest Hrest. unfold ParseType.
  specialize (Hr rest Hrest). destruct (tb ++ rest) as [|x b] eqn:E; [by destruct tb|]. cbn [length parse_type_loop].
  rewrite Hr, (proj2 (Z.eqb_neq _ _) Hn), Hv. done.
Qed.

Lemma type_padding p encLevel b : ParseType p encLevel (0 :: b) = ParseType p encLevel b.
Proof. done. Qed.

Lemma padding_only p encLevel n : ParseType p encLevel (replicate n 0) = Some (inr NoMore).
Proof. induction n as [|n IH]; [done|]. cbn [replicate]. by rewrite type_padding. Qed.

Lemma type_paddings p encLevel n b : ParseType p encLevel (replicate n 0 ++ b) = ParseType p encLevel b.
Proof. induction n as [|n IH]; [done|]. change (replicate (S n) 0 ++ b) with (0 :: (replicate n 0 ++ b)). by rewrite type_padding. Qed.

Lemma seq_w_inl a b bs : a +++ b = inl bs ↔ ∃ x y, a = inl x ∧ b = inl y ∧ bs = x ++ y.
Proof.
  unfold seq_w. destruct a as [x|]; [destruct b as [y|]|]; split; try done; try (intros (?&?&?&?&?); done).
  - intros [= <-]. by exists x, y.
  - by intros (? & ? & [= ->] & [= ->] & ->).
Qed.

(** One frame, wherever it stands. *)
Lemma frame_read p f :
  ackDelayExponent p = 3 → frame_ok f → valid_type p (type_of f) = true →
  ∃ tb bs, AppendFrame f = inl (tb ++ bs) ∧ tb ≠ [] ∧ Forall byte_ok (tb ++ bs) ∧ LengthFrame f = Some (size (tb ++ bs)) ∧
    ∀ rest, Forall byte_ok rest → delimited f = true ∨ rest = [] →
      ParseType p Encryption1RTT (tb ++ bs ++ rest) = Some (inl (type_of f, bs ++ rest)) ∧
      parse_body p Encryption1RTT (type_of f) (bs ++ rest) = inl (received_as f, rest).
Proof.
  intros Hexp Hok Hv. destruct (type_read p f Hv) as (tb & Ht & Htb & Htl & Hne & Hty). exists tb.
  assert (∃ bs, body_of f = inl bs ∧ Forall byte_ok bs ∧ LengthFrame f = Some (size (tb ++ bs)) ∧
    ∀ rest, Forall byte_ok rest → delimited f = true ∨ rest = [] →
      parse_body p Encryption1RTT (type_of f) (bs ++ rest) = inl (received_as f, rest)) as (bs & Hb & Hbs & Hlen & Hread).
  { assert (∀ bs, (∀ a, f ≠ AckF a) → body_length f = Some (size bs) → LengthFrame f = Some (size (tb ++ bs))) as Hlength.
    { intros bs Hna Hl. assert (LengthFrame f = len (type_of f) ⊕ body_length f) as ->.
      { destruct f as [| | |a|s|c|d|r|id ec|token|n|id n|ty n|n|id n|ty n|nc|n|data|data|cc|af]; try done; try by destruct ty.
        - cbn [type_of LengthFrame]. unfold stream_type. by destruct (Fin s), (DataLenPresent s), (Offset s =? 0).
        - cbn [type_of LengthFrame]. by destruct (d_DataLenPresent d).
        - cbn [type_of LengthFrame]. by destruct (ReliableSize r =? 0).
        - cbn [type_of LengthFrame]. by destruct (IsApplicationError cc). }
      rewrite Htl, Hl. cbn. f_equal. unfold size. rewrite length_app. lia. }
    destruct f as [| | |a|s|c|d|r|id ec|token|n|id n|ty n|n|id n|ty n|nc|n|data|data|cc|af] eqn:Ef.
    4: { destruct (ack_roundtrip a Hok) as (bs & Ha & Hl & Hbs & Hread). unfold AppendAck in Ha.
         apply seq_w_inl in Ha as (x & y & [= <-] & Hy & [= <-]). exists bs. split; [exact Hy|]. split; [done|].
         rewrite put_type_put in Ht. cbn [put_type type_of] in Ht. split.
         { cbn [LengthFrame]. rewrite Hl. f_equal. unfold ack_type in Ht. destruct (hasECN a); injection Ht as <-; done. }
         intros rest Hrest _. specialize (Hread rest Hrest). cbn [type_of received_as].
         assert (parse_body p Encryption1RTT (ack_type a) = map_p AckF (parseAckFrame (ack_type a) 3)) as ->.
         { unfold parse_body, ParseAckFrame. rewrite Hexp. unfold ack_type. by destruct (hasECN a). }
         unfold map_p, bind. by rewrite Hread. }
    all: rewrite <- Ef in *.
    all: destruct (delimited f) eqn:Ed;
      [destruct (body_written p f Hok Ed) as (bs & Hb & Hbs & Hl & Hr); [by rewrite Ef|]; exists bs; split; [done|]; split; [done|];
         split; [apply Hlength; [by rewrite Ef|exact Hl]|]; intros rest Hrest _; by apply Hr
      |destruct (undelimited_body p f Hok Ed) as (bs & Hb & Hbs & Hl & Hr); exists bs; split; [done|]; split; [done|];
         split; [apply Hlength; [by rewrite Ef|exact Hl]|]; intros rest Hrest [?| ->]; [done|by rewrite app_nil_r]]. }
  exists bs. split.
  { unfold AppendFrame. rewrite Ht, Hb. destruct f as [| | |a|s|c|d|r|id ec|token|n|id n|ty n|n|id n|ty n|nc|n|data|data|cc|af]; try done.
    destruct Hok as (_ & _ & _ & _ & H5 & _). destruct H5 as [H5|H5]; [|by rewrite H5, andb_false_r].
    by destruct (Data s). }
  split; [done|]. split; [by apply Forall_app|]. split; [done|]. intros rest Hrest Hd. split; [|by apply Hread].
  apply Hty. by apply Forall_app.
Qed.

(** Frames, each after some padding. *)
Fixpoint payload (items : list (nat * Frame)) : writer :=
  match items with
  | [] => raw []
  | (n, f) :: rest => raw (replicate n 0) +++ AppendFrame f +++ payload rest
  end.

(** Only the last frame may lack a length, and then nothing follows it. *)
Fixpoint closed (trailing : nat) (items : list (nat * Frame)) : Prop :=
  match items with
  | [] => True
  | [(_, f)] => delimited f = true ∨ trailing = 0%nat
  | (_, f) :: rest => delimited f = true ∧ closed trailing rest
  end.

Definition item_ok (p : FrameParser) (it : nat * Frame) : Prop := frame_ok it.2 ∧ valid_type p (type_of it.2) = true.

Lemma zeros_ok n : Forall byte_ok (replicate n 0).
Proof. apply Forall_replicate. done. Qed.

Lemma frames_loop_padding p encLevel fuel n : (n <= fuel)%nat → frames_loop fuel p encLevel (replicate n 0) = Some (inl []).
Proof.
  intros Hn. destruct fuel as [|fuel], n as [|n]; [done|lia|done|]. cbn [frames_loop].
  change (0 :: replicate n 0) with (replicate (S n) 0). by rewrite padding_only.
Qed.

Lemma payload_parsed p trailing items :
  ackDelayExponent p = 3 → Forall (item_ok p) items → closed trailing items →
  ∃ bs, payload items = inl bs ∧ Forall byte_ok bs ∧
    ∀ fuel, (length (bs ++ replicate trailing 0%Z) <= fuel)%nat →
      frames_loop fuel p Encryption1RTT (bs ++ replicate trailing 0) = Some (inl ((λ it, received_as it.2) <$> items)).
Proof.
  intros Hexp. induction items as [|[n f] items IH]; intros Hok Hc.
  { exists []. split; [done|]. split; [done|]. intros fuel Hf. apply frames_loop_padding. cbn in Hf. by rewrite length_replicate in Hf. }
  apply Forall_cons in Hok as [[Hf Hv] Hok]. cbn in Hf, Hv.
  assert (closed trailing items ∧ (delimited f = true ∨ (items = [] ∧ trailing = 0%nat))) as [Hc' Hd].
  { destruct items as [|it items]; cbn in Hc; [|by destruct Hc; split; [|left]]. split; [done|]. destruct Hc; [by left|by right]. }
  destruct (IH Hok Hc') as (cs & Ecs & Hcs & Hloop).
  destruct (frame_read p f Hexp Hf Hv) as (tb & bs & Ea & Hne & Hb & _ & Hread).
  exists (replicate n 0 ++ (tb ++ bs) ++ cs). cbn [payload]. rewrite Ea, Ecs. split; [done|].
  split; [rewrite !Forall_app in *; split; [apply zeros_ok|done]|]. intros fuel Hfuel.
  rewrite <- !app_assoc in *. rewrite !length_app in Hfuel. destruct tb as [|x tb]; [done|].
  destruct fuel as [|fuel]; [cbn in Hfuel; lia|].
  set (after := cs ++ replicate trailing 0) in *.
  assert (Forall byte_ok after) as Hafter by (apply Forall_app; split; [done|apply zeros_ok]).
  assert (delimited f = true ∨ after = []) as Hd'.
  { destruct Hd as [?|[-> ->]]; [by left|right]. unfold after. cbn in Ecs. injection Ecs as <-. done. }
  destruct (Hread after Hafter Hd') as [Hty Hbody].
  assert (frames_loop (S fuel) p Encryption1RTT (replicate n 0 ++ (x :: tb) ++ bs ++ after)
    = match frames_loop fuel p Encryption1RTT after with Some (inl fs) => Some (inl (received_as f :: fs)) | r => r end) as ->.
  { remember (replicate n 0 ++ (x :: tb) ++ bs ++ after) as data eqn:Edata.
    assert (ParseType p Encryption1RTT data = Some (inl (type_of f, bs ++ after))) as Ht by (rewrite Edata, type_paddings; exact Hty).
    destruct data as [|y data]; [by destruct n|]. cbn [frames_loop]. rewrite Ht, Hbody. done. }
  rewrite Hloop; [done|]. unfold after. cbn [length] in Hfuel. rewrite length_app in *. lia.
Qed.

(** C14: A packet says what its sender put into it. Any sequence of well-formed frames that the parser of a 1-RTT
    packet supports, with padding between them and after them, is written without a panic; the loop
    that parses the payload, with the ACK delay exponent 3 that the writer uses, finds exactly these frames, in this order, with nothing
    left over - the delay of an ACK and of an ACK_FREQUENCY frame rounded down to 8 and 1 microseconds,
    and an ACK cut to its first 64 ranges. A frame without a length may only come last. *)
Theorem payload_roundtrip p trailing items :
  ackDelayExponent p = 3 → Forall (item_ok p) items → closed trailing items →
  ∃ bs, payload items = inl bs ∧
    parse_frames p Encryption1RTT (bs ++ replicate trailing 0) = Some (inl ((λ it, received_as it.2) <$> items)).
Proof.
  intros Hexp Hok Hc. destruct (payload_parsed p trailing items Hexp Hok Hc) as (bs & Hbs & _ & Hloop). exists bs.
  split; [done|]. by apply Hloop.
Qed.

Lemma payload_roundtrip_witness :
  let items := [(0%nat, MaxDataFrame 70000); (2%nat, PathChallengeFrame [1; 2; 3; 4; 5; 6; 7; 8]);
                (0%nat, StreamF (mkStreamFrame 4 10 [104; 105] true false))] in
  ∃ bs, payload items = inl bs ∧
    parse_frames (SetAckDelayExponent 3 (NewFrameParser true false false)) Encryption1RTT (bs ++ []) = Some (inl (snd <$> items)).
Proof.
  apply (payload_roundtrip (SetAckDelayExponent 3 (NewFrameParser true false false)) 0); [reflexivity| |vm_compute; intuition congruence].
  apply Forall_cons; split; [split; [vm_compute; intuition congruence|reflexivity]|].
  apply Forall_cons; split; [split; [|reflexivity]|].
  { split; [|reflexivity]. repeat (apply Forall_cons; split; [vm_compute; intuition congruence|]). constructor. }
  apply Forall_cons; split; [split; [|reflexivity]|constructor].
  split; [vm_compute; intuition congruence|]. split; [vm_compute; congruence|]. split; [vm_compute; congruence|].
  split; [vm_compute; congruence|]. split; [left; discriminate|]. split; [|vm_compute; intuition congruence].
  repeat (apply Forall_cons; split; [vm_compute; intuition congruence|]). constructor.
Defined.

(** [Length] announces exactly the bytes [Append] writes, for every frame, so that
    what the packer reckons with is what the packet holds. *)
Theorem length_is_appended p f :
  ackDelayExponent p = 3 → frame_ok f → valid_type p (type_of f) = true →
  ∃ bs, AppendFrame f = inl bs ∧ LengthFrame f = Some (size bs).
Proof. intros Hexp Hok Hv. destruct (frame_read p f Hexp Hok Hv) as (tb & bs & Ha & _ & _ & Hl & _). by exists (tb ++ bs). Qed.

Lemma length_is_appended_witness :
  ∃ bs, AppendFrame (MaxStreamDataFrame 8 100000) = inl bs ∧ LengthFrame (MaxStreamDataFrame 8 100000) = Some (size bs).
Proof.
  apply (length_is_appended (SetAckDelayExponent 3 (NewFrameParser true false false))); [reflexivity|split; vm_compute; intuition congruence|reflexivity].
Defined.

(** ** Cutting frames to size *)

Lemma len_small x : 0 <= x <= 16383 → len x = Some (if x <=? 63 then 1 else 2).
Proof.
  intros Hx. unfold len. rewrite uint64_fits by (unfold fits, maxVarInt8; lia). unfold Len, maxVarInt1, maxVarInt2.
  destruct (Z.leb_spec x 63); [done|]. by rewrite (proj2 (Z.leb_le _ _)) by lia.
Qed.

(** What the data and its length take. *)
Definition data_cost (present : bool) (n : Z) : Z := n + (if present then (if n <=? 63 then 1 else 2) else 0).

Lemma data_cost_mono present a b : a <= b → data_cost present a <= data_cost present b.
Proof. intros H. unfold data_cost. destruct present; [|lia]. destruct (Z.leb_spec a 63), (Z.leb_spec b 63); lia. Qed.

(** As much data as fits, on packets of at most 16383 bytes. *)
Lemma fit_data_spec base maxSize (present : bool) :
  0 <= base → maxSize <= 16383 →
  ∃ n, fit_data (base + (if present then 1 else 0)) maxSize present = Some n ∧ 0 <= n ∧
    (n <> 0 → base + data_cost present n <= maxSize) ∧ (0 <= maxSize → maxSize < base + data_cost present (n + 1)).
Proof.
  intros Hb Hm. unfold fit_data. destruct (Z.ltb_spec maxSize (base + (if present then 1 else 0))) as [H|H].
  { exists 0. split; [done|]. split; [lia|]. split; [done|]. intros _. unfold data_cost.
    change (0 + 1 <=? 63) with true. destruct present; lia. }
  destruct present.
  - rewrite len_small by lia. destruct (Z.leb_spec (maxSize - (base + 1)) 63) as [H63|H63]; cbn; eexists; (split; [reflexivity|]);
      (split; [lia|]); unfold data_cost; (split; [intros _|intros _]);
      repeat match goal with |- context [?x <=? 63] => destruct (Z.leb_spec x 63) end; lia.
  - eexists. split; [reflexivity|]. unfold data_cost. split; [lia|]. split; lia.
Qed.

Lemma stream_base f :
  frame_ok (StreamF f) → ∃ base, 0 <= base <= 17 ∧ stream_header f = Some (base + (if DataLenPresent f then 1 else 0)) ∧
    ∀ data fin, size data <= 16383 →
      LengthFrame (StreamF (mkStreamFrame (StreamID f) (Offset f) data fin (DataLenPresent f))) = Some (base + data_cost (DataLenPresent f) (size data)).
Proof.
  intros (H1 & H2 & H3 & _). assert (fits (Offset f)) as Ho.
  { unfold fits, maxVarInt8. unfold MaxByteCount, size in H3. change (Z.shiftl 1 62) with 4611686018427387904 in H3. lia. }
  destruct (len_fits _ H1) as (n1 & E1 & ?), (len_fits _ Ho) as (n2 & E2 & ?).
  exists (1 + n1 + (if negb (Offset f =? 0) then n2 else 0)). unfold stream_header. rewrite E1, E2.
  split; [destruct (negb _); lia|]. split.
  { unfold opt_len. destruct (negb _); cbn; f_equal; lia. }
  intros data fin Hs. cbn [LengthFrame body_length StreamID Offset Data DataLenPresent]. rewrite E1, E2. unfold opt_len, len_data, data_cost.
  destruct (DataLenPresent f); [rewrite len_small by (unfold size in *; lia)|]; destruct (negb _); cbn; f_equal; lia.
Qed.

Lemma size_take {A} n (l : list A) : 0 <= n <= size l → size (take (Z.to_nat n) l) = n.
Proof. intros H. unfold size in *. rewrite length_take. lia. Qed.

Definition with_data (l : list Z) (f : StreamFrame) : StreamFrame := f <| Data := l |>.

(** Cutting a STREAM frame loses nothing and fits. When the frame is longer than
    [maxSize], a frame is split off that is no longer than [maxSize] and could not
    carry one byte more; it begins where the frame began, the frame goes on where
    it ends, and the FIN stays with the last byte. Only when not even one byte fits
    is nothing split off. *)
Theorem stream_split_exact maxSize f :
  frame_ok (StreamF f) → 0 <= maxSize <= 16383 →
  match StreamSplit maxSize f with
  | None => False
  | Some (None, f', false) => f' = f ∧ ∃ l, LengthFrame (StreamF f) = Some l ∧ l <= maxSize
  | Some (None, f', true) =>
      f' = f ∧ ∀ x : Z, ∃ l, LengthFrame (StreamF (with_data [x] f)) = Some l ∧ maxSize < l
  | Some (Some new, f', needed) =>
      needed = true ∧ StreamID new = StreamID f ∧ StreamID f' = StreamID f ∧ Offset new = Offset f ∧
      Offset f' = Offset f + size (Data new) ∧ Data f = Data new ++ Data f' ∧ Data new ≠ [] ∧ Data f' ≠ [] ∧
      Fin new = false ∧ Fin f' = Fin f ∧ DataLenPresent new = DataLenPresent f ∧ DataLenPresent f' = DataLenPresent f ∧
      (∃ l, LengthFrame (StreamF new) = Some l ∧ l <= maxSize) ∧
      ∀ x : Z, ∃ l, LengthFrame (StreamF (with_data (Data new ++ [x]) new)) = Some l ∧ maxSize < l
  end.
Proof.
  intros Hok Hm. destruct (stream_base f Hok) as (base & Hb & Eh & El). destruct Hok as (_ & _ & _ & Hcap & _).
  unfold MaxPacketBufferSize in Hcap. assert (size (Data f) <= 16383) as Hs by lia.
  destruct (fit_data_spec base maxSize (DataLenPresent f) (proj1 Hb) ltac:(lia)) as (n & En & Hn & Hfit & Hmax). specialize (Hmax ltac:(lia)).
  pose proof (El (Data f) (Fin f) Hs) as Elf. assert (mkStreamFrame (StreamID f) (Offset f) (Data f) (Fin f) (DataLenPresent f) = f) as Ef by (by destruct f).
  rewrite Ef in Elf. unfold StreamSplit, StreamMaxDataLen. rewrite Elf, Eh. cbn [mbind option_bind]. rewrite En. cbn [mbind option_bind].
  destruct (Z.leb_spec (base + data_cost (DataLenPresent f) (size (Data f))) maxSize) as [Hle|Hgt].
  { split; [done|]. by eexists. }
  destruct (Z.eqb_spec n 0) as [->|Hn0].
  { split; [done|]. intros x. eexists. split; [exact (El [x] (Fin f) ltac:(done))|]. exact Hmax. }
  assert (n < size (Data f)) as Hlt.
  { destruct (Z.lt_ge_cases n (size (Data f))); [done|].
    pose proof (data_cost_mono (DataLenPresent f) (size (Data f)) n ltac:(lia)). specialize (Hfit Hn0). lia. }
  assert (size (take (Z.to_nat n) (Data f)) = n) as Hsz by (apply size_take; lia).
  split; [done|]. split; [done|]. split; [done|]. split; [done|]. split; [cbn; by rewrite Hsz|].
  split; [cbn; by rewrite take_drop|]. split; [intros E; cbn in E; rewrite E in Hsz; change (0 = n) in Hsz; lia|]. split.
  { cbn. intros E. apply (f_equal length) in E. rewrite length_drop in E. cbn in E. unfold size in *. lia. }
  do 4 (split; [done|]). split.
  - eexists. split; [apply El; lia|]. rewrite Hsz. by apply Hfit.
  - intros x. eexists. split; [apply (El (take (Z.to_nat n) (Data f) ++ [x]) false)|].
    all: unfold size; rewrite length_app; cbn [length]; unfold size in Hsz; replace (Z.of_nat (length (take (Z.to_nat n) (Data f)) + 1)) with (n + 1) by lia; lia.
Qed.

Lemma stream_split_exact_witness :
  ∃ new f', StreamSplit 10 (mkStreamFrame 4 0 [1; 2; 3; 4; 5; 6; 7; 8; 9] true true) = Some (Some new, f', true) ∧
    [1; 2; 3; 4; 5; 6; 7; 8; 9] = Data new ++ Data f' ∧ Fin f' = true.
Proof.
  assert (frame_ok (StreamF (mkStreamFrame 4 0 [1; 2; 3; 4; 5; 6; 7; 8; 9] true true))) as Hok.
  { split; [vm_compute; intuition congruence|]. split; [vm_compute; congruence|]. split; [vm_compute; congruence|].
    split; [vm_compute; congruence|]. split; [left; discriminate|]. split; [|vm_compute; intuition congruence].
    repeat (apply Forall_cons; split; [vm_compute; intuition congruence|]). constructor. }
  pose proof (stream_split_exact 10 (mkStreamFrame 4 0 [1; 2; 3; 4; 5; 6; 7; 8; 9] true true) Hok ltac:(lia)) as H.
  destruct (StreamSplit 10 (mkStreamFrame 4 0 [1; 2; 3; 4; 5; 6; 7; 8; 9] true true)) as [[[[new|] f'] b]|] eqn:E;
    [|vm_compute in E; discriminate..]. exists new, f'. destruct H as (-> & _ & _ & _ & _ & Hd & _ & _ & _ & Hf & _).
  split; [reflexivity|]. split; [exact Hd|exact Hf].
Defined.

(** ** The loops end *)

Lemma varint_shorter b v rest : varint b = inl (v, rest) → (length rest < length b)%nat.
Proof.
  unfold varint. destruct b as [|x b]; [done|]. destruct (Parse (x :: b)) as [[v' n]|] eqn:E; [|done]. intros [= <- <-].
  rewrite length_drop. enough (n <> 0)%nat by (cbn; lia). intros ->. unfold Parse in E.
  repeat (case_match; try discriminate).
Qed.

Lemma consumes_length {A} (m : parser A) b v rest : consumes m → m b = inl (v, rest) → (length rest <= length b)%nat.
Proof. intros Hc H. apply Hc in H as [t ->]. rewrite length_app. lia. Qed.

Lemma parse_ranges_consumes n s : consumes (parse_ranges n s).
Proof. revert s. induction n as [|n IH]; intros s; cbn; auto 10 with wire. Qed.
#[export] Hint Resolve parse_ranges_consumes : wire.

Lemma consumes_if {A} (c : bool) (a b : parser A) : consumes a → consumes b → consumes (if c then a else b).
Proof. by destruct c. Qed.
#[export] Hint Resolve consumes_if : wire.

Lemma consumes_map {A B} (f : A → B) m : consumes m → consumes (map_p f m).
Proof. intros H. unfold map_p. auto with wire. Qed.
#[export] Hint Resolve consumes_map : wire.

Ltac consume := repeat first [apply consumes_map | apply consumes_if | (apply consumes_bind; [|intros]) | by auto with wire].

Lemma parse_body_consumes p encLevel t : consumes (parse_body p encLevel t).
Proof.
  unfold parse_body, ParseAckFrame, parseAckFrame, ParseStreamFrame, parseDatagramFrame, ParseLessCommonFrame,
    parseResetStreamFrame, parseStopSendingFrame, parseCryptoFrame, parseNewTokenFrame, parseMaxDataFrame, parseMaxStreamDataFrame,
    parseMaxStreamsFrame, parseDataBlockedFrame, parseStreamDataBlockedFrame, parseStreamsBlockedFrame, parseNewConnectionIDFrame,
    parseRetireConnectionIDFrame, parsePathChallengeFrame, parsePathResponseFrame, parseConnectionCloseFrame, parseAckFrequencyFrame, with_length.
  consume.
Qed.

(** [ParseType] ends: with as many turns as there are bytes, or more. *)
Lemma parse_type_ends p encLevel fuel b :
  (length b <= fuel)%nat → ∃ r, parse_type_loop fuel p encLevel b = Some r ∧ ParseType p encLevel b = Some r ∧
    ∀ t rest, r = inl (t, rest) → (length rest < length b)%nat.
Proof.
  unfold ParseType. revert b. induction (lt_wf fuel) as [fuel _ IH]. intros b Hb. destruct b as [|x b]; [destruct fuel; by eexists|].
  destruct fuel as [|fuel]; [cbn in Hb; lia|]. cbn [length parse_type_loop].
  destruct (varint (x :: b)) as [[typ c]|] eqn:E; [|by eexists]. apply varint_shorter in E. cbn [length] in E, Hb.
  destruct (typ =? 0).
  - destruct (IH fuel ltac:(lia) c ltac:(lia)) as (r & E1 & E2 & H1).
    destruct (IH (length b) ltac:(lia) c ltac:(lia)) as (r' & E3 & E4 & _). exists r. split; [done|]. split; [congruence|].
    intros t rest Ht. apply H1 in Ht. lia.
  - destruct (negb (valid_type p typ)); [by eexists|]. destruct (negb (isAllowedAtEncLevel typ encLevel)); [by eexists|].
    eexists. split; [done|]. split; [done|]. intros t rest [= <- <-]. lia.
Qed.

(** C38: Parsing ends. Whatever bytes the peer sent, the loop over a payload and the loop that looks for
    the type of a frame come to an end, with all frames or with an error, after no
    more turns than the payload has bytes: every turn takes at least one. Running either longer changes nothing. *)
Theorem parsing_ends p encLevel data :
  ∃ r, parse_frames p encLevel data = Some r ∧ ∀ fuel, (length data <= fuel)%nat → frames_loop fuel p encLevel data = Some r.
Proof.
  cut (∀ fuel data, (length data <= fuel)%nat → ∃ r, frames_loop fuel p encLevel data = Some r ∧ parse_frames p encLevel data = Some r).
  { intros H. destruct (H _ data (le_n _)) as (r & _ & E). exists r. split; [done|]. intros fuel Hf. destruct (H fuel data Hf) as (r' & E1 & E2). congruence. }
  clear data. unfold parse_frames. intros fuel. induction (lt_wf fuel) as [fuel _ IH]. intros data Hf. destruct data as [|x b]; [destruct fuel; by eexists|].
  destruct fuel as [|fuel]; [cbn in Hf; lia|]. cbn [length frames_loop]. cbn [length] in Hf.
  destruct (parse_type_ends p encLevel (length (x :: b)) (x :: b) ltac:(done)) as (rt & _ & Et & Hs). rewrite Et.
  destruct rt as [[t c]|[]]; [|by eexists..]. specialize (Hs t c eq_refl). cbn [length] in Hs.
  destruct (parse_body p encLevel t c) as [[f d]|] eqn:Eb; [|by eexists].
  apply consumes_length in Eb; [|apply parse_body_consumes].
  destruct (IH fuel ltac:(lia) d ltac:(lia)) as (r & -> & E1).
  destruct (IH (length b) ltac:(lia) d ltac:(lia)) as (r' & -> & E2). rewrite E1 in E2. injection E2 as <-.
  destruct r; by eexists.
Qed.

Lemma parsing_ends_witness :
  frames_loop 1000 (NewFrameParser false false false) EncryptionInitial [0; 6; 0; 2; 22; 3; 1] = Some (inl [CryptoF (mkCryptoFrame 0 [22; 3]); PingFrame]).
Proof.
  destruct (parsing_ends (NewFrameParser false false false) EncryptionInitial [0; 6; 0; 2; 22; 3; 1]) as (r & E & H).
  rewrite (H 1000%nat); [|cbn; lia]. rewrite <- E. vm_compute. reflexivity.
Defined.

(** The guard against an overflow of the requested delay looks at the sign only. *)
Lemma requested_delay_wraps : decodeMaxAckDelay (2 ^ 61) = 0.
Proof. vm_compute. reflexivity. Qed.
