(* ===== verification/FlowControl.v ===== *)
(** * Flow control of quic-go
    ([flow_controller_base.go], [flow_controller_connection.go],
    [flow_controller_stream.go])

    A connection and its streams: what may be sent, what may be received, and when
    the windows are moved and enlarged. The round-trip time comes from outside, and
    so does the application's consent to a larger window. *)

From Stdlib Require Import ZArith Lia Bool.
From stdpp Require Import base list.
From S2P Require Import Prelude.
From S2P Require Import GoFloat.

Open Scope Z_scope.
Open Scope list_scope.

(** ** The receiving side *)

Record receiveFlowController := mkReceive {
  bytesRead : Z;
  highestReceived : Z;
  receiveWindow : Z;
  receiveWindowSize : Z;
  maxReceiveWindowSize : Z;
  epochStartTime : time;
  epochStartOffset : Z;
}.

#[export] Instance eta_receiveFlowController : Eta receiveFlowController :=
  λ c, mkReceive (bytesRead c) (highestReceived c) (receiveWindow c) (receiveWindowSize c) (maxReceiveWindowSize c)
         (epochStartTime c) (epochStartOffset c).

(** [1 - WindowUpdateThreshold]. *)
Definition remainingThreshold : float64 := f_0_75.

Definition addBytesRead (n : Z) (c : receiveFlowController) : receiveFlowController := c <| bytesRead := bytesRead c + n |>.

Definition hasWindowUpdate (c : receiveFlowController) : bool :=
  receiveWindow c - bytesRead c <=? int_of_float (fmul (float_of_int (receiveWindowSize c)) remainingThreshold).

Definition startNewAutoTuningEpoch (now : time) (c : receiveFlowController) : receiveFlowController :=
  c <| epochStartTime := now |> <| epochStartOffset := bytesRead c |>.

(** [4*fraction*float64(rtt)], truncated. *)
Definition fast_enough (c : receiveFlowController) (rtt : duration) : duration :=
  let fraction := fdiv (float_of_int (bytesRead c - epochStartOffset c)) (float_of_int (receiveWindowSize c)) in
  int_of_float (fmul (fmul f_4 fraction) (float_of_int rtt)).

(** [rtt]: the smoothed round-trip time. [allow]: [allowWindowIncrease], or always. *)
Definition maybeAdjustWindowSize (rtt : duration) (allow : Z → bool) (now : time) (c : receiveFlowController) : receiveFlowController :=
  let bytesReadInEpoch := bytesRead c - epochStartOffset c in
  if bytesReadInEpoch <=? Z.quot (receiveWindowSize c) 2 then c
  else if rtt =? 0 then c
  else
    let c :=
      if now - epochStartTime c <? fast_enough c rtt then
        let newSize := Z.min (2 * receiveWindowSize c) (maxReceiveWindowSize c) in
        if (receiveWindowSize c <? newSize) && allow (newSize - receiveWindowSize c) then c <| receiveWindowSize := newSize |> else c
      else c in
    startNewAutoTuningEpoch now c.

Definition getWindowUpdate (rtt : duration) (allow : Z → bool) (now : time) (c : receiveFlowController) : receiveFlowController * Z :=
  if negb (hasWindowUpdate c) then (c, 0)
  else
    let c := maybeAdjustWindowSize rtt allow now c in
    (c <| receiveWindow := bytesRead c + receiveWindowSize c |>, bytesRead c + receiveWindowSize c).

Definition checkFlowControlViolation (c : receiveFlowController) : bool := receiveWindow c <? highestReceived c.

(** ** The sending side, the same for a connection and a stream *)

Record sendFlowController := mkSend { bytesSent : Z; sendWindow : Z; lastBlockedAt : Z }.

#[export] Instance eta_sendFlowController : Eta sendFlowController := λ c, mkSend (bytesSent c) (sendWindow c) (lastBlockedAt c).

Definition UpdateSendWindow (offset : Z) (c : sendFlowController) : sendFlowController * bool :=
  if sendWindow c <? offset then (c <| sendWindow := offset |>, true) else (c, false).

Definition IsNewlyBlocked (c : sendFlowController) : sendFlowController * (bool * Z) :=
  if (bytesSent c <? sendWindow c) || (sendWindow c =? lastBlockedAt c) then (c, (false, 0))
  else (c <| lastBlockedAt := sendWindow c |>, (true, sendWindow c)).

Definition TryAddBytesSent (n : Z) (c : sendFlowController) : sendFlowController * bool :=
  if (sendWindow c <? bytesSent c) || (sendWindow c - bytesSent c <? n) then (c, false) else (c <| bytesSent := bytesSent c + n |>, true).

(** [limiter]: the application's own limit on a chunk. *)
Definition AddBytesSentWithLimiter (n : Z) (limiter : Z → Z) (c : sendFlowController) : sendFlowController * (Z * bool) :=
  if sendWindow c <=? bytesSent c then (c, (0, false))
  else
    let n := Z.min n (sendWindow c - bytesSent c) in
    let added := Z.min (Z.max (limiter n) 0) n in
    (c <| bytesSent := bytesSent c + added |>, (added, added <? n)).

Definition SendWindowSize (c : sendFlowController) : Z := sendWindow c - bytesSent c.

(** ** Connection and stream *)

Record connectionFlowController := mkConn { recv : receiveFlowController; send : sendFlowController }.
Record streamFlowController := mkStream { s_recv : receiveFlowController; s_send : sendFlowController; receivedFinalOffset : bool }.

#[export] Instance eta_connectionFlowController : Eta connectionFlowController := λ c, mkConn (recv c) (send c).
#[export] Instance eta_streamFlowController : Eta streamFlowController := λ c, mkStream (s_recv c) (s_send c) (receivedFinalOffset c).

Definition new_receive (window maxWindow : Z) : receiveFlowController := mkReceive 0 0 window window maxWindow 0 0.
Definition newConnectionFlowController (receiveWindow maxReceiveWindow : Z) : connectionFlowController :=
  mkConn (new_receive receiveWindow maxReceiveWindow) (mkSend 0 0 0).
Definition newStreamFlowController (receiveWindow maxReceiveWindow initialSendWindow : Z) : streamFlowController :=
  mkStream (new_receive receiveWindow maxReceiveWindow) (mkSend 0 initialSendWindow 0) false.

Inductive flow_error := FlowControlError | FinalSizeError | ResetAfterData.

#[export] Instance flow_error_eq_dec : EqDecision flow_error.
Proof. solve_decision. Defined.

Definition IncrementHighestReceived (increment : Z) (now : time) (c : connectionFlowController) : connectionFlowController * option flow_error :=
  let r := if highestReceived (recv c) =? 0 then startNewAutoTuningEpoch now (recv c) else recv c in
  let r := r <| highestReceived := highestReceived r + increment |> in
  (c <| recv := r |>, if checkFlowControlViolation r then Some FlowControlError else None).

Definition conn_AddBytesRead (n : Z) (c : connectionFlowController) : connectionFlowController * bool :=
  let r := addBytesRead n (recv c) in (c <| recv := r |>, hasWindowUpdate r).

Definition EnsureMinimumWindowSize (inc : Z) (allow : Z → bool) (now : time) (c : connectionFlowController) : connectionFlowController :=
  if inc <=? receiveWindowSize (recv c) then c
  else
    let newSize := Z.min inc (maxReceiveWindowSize (recv c)) in
    let delta := newSize - receiveWindowSize (recv c) in
    let r := if (0 <? delta) && allow delta then (recv c) <| receiveWindowSize := newSize |> else recv c in
    c <| recv := startNewAutoTuningEpoch now r |>.

Definition conn_GetWindowUpdate (rtt : duration) (allow : Z → bool) (now : time) (c : connectionFlowController) : connectionFlowController * Z :=
  let '(r, offset) := getWindowUpdate rtt allow now (recv c) in (c <| recv := r |>, offset).

(** [Reset], when 0-RTT is rejected. *)
Definition conn_Reset (c : connectionFlowController) : connectionFlowController * option flow_error :=
  if (0 <? bytesRead (recv c)) || (0 <? highestReceived (recv c)) || negb (epochStartTime (recv c) =? 0) then (c, Some ResetAfterData)
  else (c <| send := mkSend 0 0 0 |>, None).

(** The operations of a stream act on its connection as well. *)
Definition UpdateHighestReceived (offset : Z) (final : bool) (now : time) (s : streamFlowController) (c : connectionFlowController)
    : streamFlowController * connectionFlowController * option flow_error :=
  let highest := highestReceived (s_recv s) in
  if receivedFinalOffset s && final && negb (offset =? highest) then (s, c, Some FinalSizeError)
  else if receivedFinalOffset s && (highest <? offset) then (s, c, Some FinalSizeError)
  else
    let s := if final then s <| receivedFinalOffset := true |> else s in
    if offset =? highest then (s, c, None)
    else if offset <? highest then (s, c, if final then Some FinalSizeError else None)
    else
      let r := if highest =? 0 then startNewAutoTuningEpoch now (s_recv s) else s_recv s in
      let r := r <| highestReceived := offset |> in
      let s := s <| s_recv := r |> in
      if checkFlowControlViolation r then (s, c, Some FlowControlError)
      else let '(c, err) := IncrementHighestReceived (offset - highest) now c in (s, c, err).

Definition shouldQueueWindowUpdate (s : streamFlowController) : bool := negb (receivedFinalOffset s) && hasWindowUpdate (s_recv s).

Definition AddBytesRead (n : Z) (s : streamFlowController) (c : connectionFlowController)
    : streamFlowController * connectionFlowController * (bool * bool) :=
  let s := s <| s_recv := addBytesRead n (s_recv s) |> in
  let '(c, hasConn) := conn_AddBytesRead n c in
  (s, c, (shouldQueueWindowUpdate s, hasConn)).

Definition Abandon (s : streamFlowController) (c : connectionFlowController) : streamFlowController * connectionFlowController :=
  let r := s_recv s in
  let unread := highestReceived r - bytesRead r in
  let s := s <| s_recv := r <| bytesRead := highestReceived r |> |> in
  if 0 <? unread then (s, (conn_AddBytesRead unread c).1) else (s, c).

Definition stream_TryAddBytesSent (n : Z) (s : streamFlowController) (c : connectionFlowController)
    : streamFlowController * connectionFlowController * bool :=
  let w := s_send s in
  if (sendWindow w <? bytesSent w) || (sendWindow w - bytesSent w <? n) then (s, c, false)
  else
    let '(cs, ok) := TryAddBytesSent n (send c) in
    if negb ok then (s, c, false) else (s <| s_send := w <| bytesSent := bytesSent w + n |> |>, c <| send := cs |>, true).

Definition stream_AddBytesSentWithLimiter (n : Z) (limiter : Z → Z) (s : streamFlowController) (c : connectionFlowController)
    : streamFlowController * connectionFlowController * (Z * bool) :=
  let w := s_send s in
  if sendWindow w <=? bytesSent w then (s, c, (0, false))
  else
    let n := Z.min n (sendWindow w - bytesSent w) in
    let '(cs, (added, limited)) := AddBytesSentWithLimiter n limiter (send c) in
    (s <| s_send := w <| bytesSent := bytesSent w + added |> |>, c <| send := cs |>, (added, limited)).

Definition stream_SendWindowSize (s : streamFlowController) (c : connectionFlowController) : Z :=
  Z.min (SendWindowSize (s_send s)) (SendWindowSize (send c)).

(** [ConnectionFlowControlMultiplier]. *)
Definition connectionMultiplier : float64 := f_1_5.

Definition stream_GetWindowUpdate (rtt : duration) (allow : Z → bool) (now : time) (s : streamFlowController) (c : connectionFlowController)
    : streamFlowController * connectionFlowController * Z :=
  if receivedFinalOffset s then (s, c, 0)
  else
    let '(r, offset) := getWindowUpdate rtt (λ _, true) now (s_recv s) in
    let c :=
      if receiveWindowSize (s_recv s) <? receiveWindowSize r then
        EnsureMinimumWindowSize (int_of_float (fmul (float_of_int (receiveWindowSize r)) connectionMultiplier)) allow now c
      else c in
    (s <| s_recv := r |>, c, offset).

(** ** A connection with its streams *)

(** Streams by the order in which they were opened; one that is closed stays in the
    account. *)
Record world := mkWorld { conn : connectionFlowController; streams : list streamFlowController }.

Inductive op :=
| OpenStream (receiveWindow maxReceiveWindow initialSendWindow : Z)
| StreamFrameReceived (i : nat) (offset : Z) (final : bool) (now : time)
| StreamRead (i : nat) (n : Z)
| StreamAbandoned (i : nat)
| StreamWindowUpdate (i : nat) (rtt : duration) (allow : Z → bool) (now : time)
| ConnWindowUpdate (rtt : duration) (allow : Z → bool) (now : time)
| MaxDataReceived (offset : Z)
| MaxStreamDataReceived (i : nat) (offset : Z)
| ChunkSent (i : nat) (n : Z)
| ChunkSentLimited (i : nat) (n : Z) (limiter : Z → Z).

Definition put_stream (i : nat) (s : streamFlowController) (c : connectionFlowController) (w : world) : world :=
  mkWorld c (<[i := s]> (streams w)).

(** [None]: the connection is closed with an error, or the caller does what it never
    does: it names a stream that does not exist, or reads data that did not come. *)
Definition apply_op (o : op) (w : world) : option world :=
  match o with
  | OpenStream a b d => Some (mkWorld (conn w) (streams w ++ [newStreamFlowController a b d]))
  | StreamFrameReceived i offset final now =>
      s ← streams w !! i;
      let '(s, c, err) := UpdateHighestReceived offset final now s (conn w) in
      match err with None => Some (put_stream i s c w) | Some _ => None end
  | StreamRead i n =>
      s ← streams w !! i;
      if (n <? 0) || (highestReceived (s_recv s) - bytesRead (s_recv s) <? n) then None
      else let '(s, c, _) := AddBytesRead n s (conn w) in Some (put_stream i s c w)
  | StreamAbandoned i => s ← streams w !! i; let '(s, c) := Abandon s (conn w) in Some (put_stream i s c w)
  | StreamWindowUpdate i rtt allow now =>
      s ← streams w !! i; let '(s, c, _) := stream_GetWindowUpdate rtt allow now s (conn w) in Some (put_stream i s c w)
  | ConnWindowUpdate rtt allow now => Some (mkWorld (conn_GetWindowUpdate rtt allow now (conn w)).1 (streams w))
  | MaxDataReceived offset => Some (mkWorld ((conn w) <| send ::= λ s, (UpdateSendWindow offset s).1 |>) (streams w))
  | MaxStreamDataReceived i offset =>
      s ← streams w !! i; Some (put_stream i (s <| s_send ::= λ s, (UpdateSendWindow offset s).1 |>) (conn w) w)
  | ChunkSent i n =>
      s ← streams w !! i;
      if n <? 0 then None else let '(s, c, _) := stream_TryAddBytesSent n s (conn w) in Some (put_stream i s c w)
  | ChunkSentLimited i n limiter =>
      s ← streams w !! i;
      if n <? 0 then None else let '(s, c, _) := stream_AddBytesSentWithLimiter n limiter s (conn w) in Some (put_stream i s c w)
  end.

Definition run (ops : list op) (w : world) : option world := foldl (λ ow o, w ← ow; apply_op o w) (Some w) ops.

Definition start (receiveWindow maxReceiveWindow : Z) : world := mkWorld (newConnectionFlowController receiveWindow maxReceiveWindow) [].

(** ** The invariant *)

Definition total (f : streamFlowController → Z) (l : list streamFlowController) : Z := foldr Z.add 0 (f <$> l).

Record receive_ok (r : receiveFlowController) : Prop := mk_receive_ok {
  r_read : 0 <= bytesRead r <= highestReceived r;
  r_window : highestReceived r <= receiveWindow r;
  r_promised : receiveWindow r <= bytesRead r + receiveWindowSize r;
  r_size : 0 <= receiveWindowSize r;
  r_epoch : epochStartOffset r <= bytesRead r;
}.

Definition send_ok (s : sendFlowController) : Prop := 0 <= bytesSent s <= sendWindow s.

(** [B]: the largest window the connection may ever have. *)
Record world_ok (B : Z) (w : world) : Prop := mk_world_ok {
  w_bound : Z.max (receiveWindowSize (recv (conn w))) (maxReceiveWindowSize (recv (conn w))) <= B;
  w_recv : receive_ok (recv (conn w));
  w_send : send_ok (send (conn w));
  w_streams : Forall (λ s, receive_ok (s_recv s) ∧ send_ok (s_send s)) (streams w);
  w_received : highestReceived (recv (conn w)) = total (λ s, highestReceived (s_recv s)) (streams w);
  w_bytes_read : bytesRead (recv (conn w)) = total (λ s, bytesRead (s_recv s)) (streams w);
  w_sent : bytesSent (send (conn w)) = total (λ s, bytesSent (s_send s)) (streams w);
}.

Lemma total_insert f l i s s' : l !! i = Some s → total f (<[i := s']> l) = total f l - f s + f s'.
Proof.
  revert i. induction l as [|x l IH]; intros [|i] H; [done..|injection H as ->|].
  - change (f s' + total f l = f s + total f l - f s + f s'). lia.
  - specialize (IH i H). change (f x + total f (<[i := s']> l) = f x + total f l - f s + f s'). lia.
Qed.

Lemma total_snoc f l s : total f (l ++ [s]) = total f l + f s.
Proof. unfold total. induction l as [|x l IH]; cbn; [lia|]. rewrite IH. lia. Qed.

Lemma total_nonneg f l : Forall (λ s, 0 <= f s) l → 0 <= total f l.
Proof. unfold total. induction 1 as [|x l H _ IH]; cbn; lia. Qed.

Lemma total_ge f l i s : Forall (λ s, 0 <= f s) l → l !! i = Some s → f s <= total f l.
Proof.
  unfold total. intros H. revert i. induction H as [|x l Hx H IH]; intros [|i]; cbn; [done..| |]; [intros [= ->]|intros Hi].
  - pose proof (total_nonneg f l H). unfold total in *. lia.
  - specialize (IH i Hi). lia.
Qed.

(** ** What the operations preserve *)

Lemma maybeAdjust_spec rtt allow now r :
  receive_ok r → let r' := maybeAdjustWindowSize rtt allow now r in
  bytesRead r' = bytesRead r ∧ highestReceived r' = highestReceived r ∧ receiveWindow r' = receiveWindow r ∧
  maxReceiveWindowSize r' = maxReceiveWindowSize r ∧ epochStartOffset r' <= bytesRead r ∧
  receiveWindowSize r <= receiveWindowSize r' <= Z.max (receiveWindowSize r) (maxReceiveWindowSize r).
Proof.
  intros [H1 H2 H3 H4 H5]. unfold maybeAdjustWindowSize. cbv zeta.
  destruct (_ <=? _); [repeat split; lia|]. destruct (rtt =? 0); [repeat split; lia|]. destruct (_ <? fast_enough r rtt).
  - destruct (Z.ltb_spec (receiveWindowSize r) (Z.min (2 * receiveWindowSize r) (maxReceiveWindowSize r))); cbn [andb];
      [destruct (allow _)|]; cbn; repeat split; lia.
  - cbn. repeat split; lia.
Qed.

Lemma getWindowUpdate_spec rtt allow now r :
  receive_ok r → let '(r', offset) := getWindowUpdate rtt allow now r in
  receive_ok r' ∧ bytesRead r' = bytesRead r ∧ highestReceived r' = highestReceived r ∧ receiveWindow r <= receiveWindow r' ∧
  receiveWindowSize r <= receiveWindowSize r' <= Z.max (receiveWindowSize r) (maxReceiveWindowSize r) ∧
  maxReceiveWindowSize r' = maxReceiveWindowSize r ∧
  if hasWindowUpdate r then offset = receiveWindow r' ∧ receiveWindow r' = bytesRead r + receiveWindowSize r' else offset = 0 ∧ r' = r.
Proof.
  intros Hr. pose proof (maybeAdjust_spec rtt allow now r Hr) as (E1 & E2 & E3 & E4 & E5 & E6). destruct Hr as [H1 H2 H3 H4 H5].
  unfold getWindowUpdate. destruct (hasWindowUpdate r); cbn [negb]; [|repeat split; try done; lia].
  set (r1 := maybeAdjustWindowSize rtt allow now r) in *.
  split; [split; cbn; lia|]. cbn. repeat split; lia.
Qed.

Lemma receive_ok_epoch now r : receive_ok r → receive_ok (startNewAutoTuningEpoch now r).
Proof. intros [H1 H2 H3 H4 H5]. split; cbn; lia. Qed.

Lemma ensure_spec inc allow now c :
  receive_ok (recv c) → let c' := EnsureMinimumWindowSize inc allow now c in
  receive_ok (recv c') ∧ send c' = send c ∧ bytesRead (recv c') = bytesRead (recv c) ∧ highestReceived (recv c') = highestReceived (recv c) ∧
  receiveWindow (recv c') = receiveWindow (recv c) ∧ maxReceiveWindowSize (recv c') = maxReceiveWindowSize (recv c) ∧
  receiveWindowSize (recv c) <= receiveWindowSize (recv c') <= Z.max (receiveWindowSize (recv c)) (maxReceiveWindowSize (recv c)).
Proof.
  intros [H1 H2 H3 H4 H5]. unfold EnsureMinimumWindowSize. cbv zeta. destruct (_ <=? _); [repeat split; try done; lia|].
  destruct (Z.ltb_spec 0 (Z.min inc (maxReceiveWindowSize (recv c)) - receiveWindowSize (recv c))); cbn [andb];
    [destruct (allow _)|]; cbn; (split; [split; cbn; lia|]); repeat split; try done; lia.
Qed.

Lemma update_spec offset final now s c s' c' :
  receive_ok (s_recv s) → receive_ok (recv c) → UpdateHighestReceived offset final now s c = (s', c', None) →
  receive_ok (s_recv s') ∧ receive_ok (recv c') ∧ s_send s' = s_send s ∧ send c' = send c ∧
  bytesRead (s_recv s') = bytesRead (s_recv s) ∧ bytesRead (recv c') = bytesRead (recv c) ∧
  highestReceived (s_recv s') = Z.max (highestReceived (s_recv s)) offset ∧
  highestReceived (recv c') = highestReceived (recv c) + (highestReceived (s_recv s') - highestReceived (s_recv s)) ∧
  receiveWindowSize (recv c') = receiveWindowSize (recv c) ∧ maxReceiveWindowSize (recv c') = maxReceiveWindowSize (recv c).
Proof.
  intros Hs Hc. unfold UpdateHighestReceived. cbv zeta. set (highest := highestReceived (s_recv s)).
  destruct (receivedFinalOffset s && final && negb (offset =? highest)); [done|].
  destruct (receivedFinalOffset s && (highest <? offset)); [done|].
  set (s1 := if final then _ else _).
  assert (s_recv s1 = s_recv s ∧ s_send s1 = s_send s) as [E1 E2] by (unfold s1; by destruct final). rewrite E1.
  destruct (Z.eqb_spec offset highest) as [Heq|Hne].
  { intros [= <- <-]. rewrite E1, E2. unfold highest in *. repeat (split; [first [done|lia]|]). lia. }
  destruct (Z.ltb_spec offset highest) as [Hlt|Hge].
  { destruct final; [done|]. intros [= <- <-]. rewrite E1, E2. unfold highest in *. repeat (split; [first [done|lia]|]). lia. }
  assert (∀ now r, receive_ok r → receive_ok (if highestReceived r =? 0 then startNewAutoTuningEpoch now r else r)) as Hep
    by (intros n r Hr; destruct (_ =? _); [by apply receive_ok_epoch|done]).
  set (r := if highest =? 0 then _ else _). assert (receive_ok r) as Hr by (by apply Hep).
  assert (bytesRead r = bytesRead (s_recv s) ∧ receiveWindow r = receiveWindow (s_recv s) ∧ highestReceived r = highest) as (F1 & F2 & F3)
    by (unfold r; by destruct (highest =? 0)).
  unfold checkFlowControlViolation. cbn [receiveWindow highestReceived].
  change (receiveWindow (r <| highestReceived := offset |>)) with (receiveWindow r).
  change (highestReceived (r <| highestReceived := offset |>)) with offset.
  destruct (Z.ltb_spec (receiveWindow r) offset) as [|Hv]; [done|].
  unfold IncrementHighestReceived. set (rc := if highestReceived (recv c) =? 0 then _ else _). assert (receive_ok rc) as Hrc by (by apply Hep).
  assert (bytesRead rc = bytesRead (recv c) ∧ receiveWindow rc = receiveWindow (recv c) ∧ highestReceived rc = highestReceived (recv c) ∧
    receiveWindowSize rc = receiveWindowSize (recv c) ∧ maxReceiveWindowSize rc = maxReceiveWindowSize (recv c)) as (G1 & G2 & G3 & G4 & G5)
    by (unfold rc; by destruct (highestReceived (recv c) =? 0)).
  unfold checkFlowControlViolation.
  change (receiveWindow (rc <| highestReceived := highestReceived rc + (offset - highest) |>)) with (receiveWindow rc).
  change (highestReceived (rc <| highestReceived := highestReceived rc + (offset - highest) |>)) with (highestReceived rc + (offset - highest)).
  destruct (Z.ltb_spec (receiveWindow rc) (highestReceived rc + (offset - highest))) as [|Hvc]; [done|].
  intros [= <- <-]. destruct Hr as [A1 A2 A3 A4 A5], Hrc as [B1 B2 B3 B4 B5].
  split; [split; cbn; lia|]. split; [split; cbn; lia|]. cbn. repeat (split; [first [done|lia]|]). lia.
Qed.

Lemma TryAddBytesSent_spec n c : send_ok c → 0 <= n →
  let '(c', ok) := TryAddBytesSent n c in
  send_ok c' ∧ sendWindow c' = sendWindow c ∧ bytesSent c' = bytesSent c + (if ok then n else 0).
Proof.
  unfold send_ok, TryAddBytesSent. intros H Hn. destruct (Z.ltb_spec (sendWindow c) (bytesSent c)), (Z.ltb_spec (sendWindow c - bytesSent c) n);
    cbn; repeat split; lia.
Qed.

Lemma limiter_spec n limiter c : send_ok c → 0 <= n →
  let '(c', (added, limited)) := AddBytesSentWithLimiter n limiter c in
  send_ok c' ∧ sendWindow c' = sendWindow c ∧ bytesSent c' = bytesSent c + added ∧ 0 <= added <= n.
Proof.
  unfold send_ok, AddBytesSentWithLimiter. intros H Hn. destruct (Z.leb_spec (sendWindow c) (bytesSent c)); cbn; repeat split; lia.
Qed.

Lemma UpdateSendWindow_ok offset c : send_ok c → send_ok (UpdateSendWindow offset c).1 ∧ bytesSent (UpdateSendWindow offset c).1 = bytesSent c.
Proof. unfold send_ok, UpdateSendWindow. intros H. destruct (Z.ltb_spec (sendWindow c) offset); cbn; split; lia. Qed.

Lemma put_ok B w i s s' c' :
  world_ok B w → streams w !! i = Some s → receive_ok (s_recv s') → send_ok (s_send s') → receive_ok (recv c') → send_ok (send c') →
  Z.max (receiveWindowSize (recv c')) (maxReceiveWindowSize (recv c')) <= B →
  highestReceived (recv c') - highestReceived (recv (conn w)) = highestReceived (s_recv s') - highestReceived (s_recv s) →
  bytesRead (recv c') - bytesRead (recv (conn w)) = bytesRead (s_recv s') - bytesRead (s_recv s) →
  bytesSent (send c') - bytesSent (send (conn w)) = bytesSent (s_send s') - bytesSent (s_send s) →
  world_ok B (put_stream i s' c' w).
Proof.
  intros [H1 H2 H3 H4 H5 H6 H7] Hi Hs1 Hs2 Hc1 Hc2 HB Eh Er Es. split; cbn [put_stream conn streams]; try done.
  - by apply Forall_insert.
  - rewrite (total_insert _ _ _ s) by done. lia.
  - rewrite (total_insert _ _ _ s) by done. lia.
  - rewrite (total_insert _ _ _ s) by done. lia.
Qed.

Definition op_ok (o : op) : Prop :=
  match o with OpenStream a _ d => 0 <= a ∧ 0 <= d | _ => True end.

Lemma stream_of B w i s : world_ok B w → streams w !! i = Some s → receive_ok (s_recv s) ∧ send_ok (s_send s).
Proof. intros Hw Hi. pose proof (w_streams _ _ Hw) as H. rewrite Forall_lookup in H. by apply (H i). Qed.

(** Reading [n] bytes that came, or giving them up. *)
Lemma flow_read_ok n r : receive_ok r → 0 <= n <= highestReceived r - bytesRead r → receive_ok (addBytesRead n r).
Proof. intros [H1 H2 H3 H4 H5] Hn. split; cbn; lia. Qed.

Lemma unread_covered B w i s :
  world_ok B w → streams w !! i = Some s →
  highestReceived (s_recv s) - bytesRead (s_recv s) <= highestReceived (recv (conn w)) - bytesRead (recv (conn w)).
Proof.
  intros Hw Hi. rewrite (w_received _ _ Hw), (w_bytes_read _ _ Hw).
  pose proof (w_streams _ _ Hw) as H. clear Hw. revert i Hi. induction H as [|x l [[Hx _] _] H IH]; intros [|i]; [done..|intros [= ->]|intros Hi].
  - enough (total (λ s, bytesRead (s_recv s)) l <= total (λ s, highestReceived (s_recv s)) l) by (unfold total in *; cbn; lia).
    clear -H. unfold total. induction H as [|y l [[Hy _] _] H IH]; cbn; lia.
  - specialize (IH i Hi). unfold total in *. cbn. lia.
Qed.

Lemma apply_ok B o w w' : world_ok B w → op_ok o → apply_op o w = Some w' → world_ok B w'.
Proof.
  intros Hw Ho. pose proof Hw as [W0 W1 W2 W3 W4 W5 W6]. destruct o as [a b d|i off fin now|i n|i|i rtt al now|rtt al now|off|i off|i n|i n lim]; cbn [apply_op].
  - intros [= <-]. split; cbn [conn streams]; try done.
    + apply Forall_app. split; [done|]. constructor; [|constructor]. destruct Ho. cbn. split; [split; cbn; lia|unfold send_ok; cbn; lia].
    + rewrite total_snoc. cbn. lia.
    + rewrite total_snoc. cbn. lia.
    + rewrite total_snoc. cbn. lia.
  - destruct (streams w !! i) as [s|] eqn:Ei; [|done]. cbn [mbind option_bind]. destruct (stream_of _ _ _ _ Hw Ei) as [Hs1 Hs2].
    destruct (UpdateHighestReceived off fin now s (conn w)) as [[s' c'] [e|]] eqn:E; [done|]. intros [= <-].
    destruct (update_spec _ _ _ _ _ _ _ Hs1 W1 E) as (A1 & A2 & A3 & A4 & A5 & A6 & A7 & A8 & A9 & A10).
    apply (put_ok B w i s); try done; [by rewrite A3|by rewrite A4|lia..|]. rewrite A3, A4. lia.
  - destruct (streams w !! i) as [s|] eqn:Ei; [|done]. cbn [mbind option_bind]. destruct (stream_of _ _ _ _ Hw Ei) as [Hs1 Hs2].
    destruct ((n <? 0) || _) eqn:En; [done|]. apply orb_false_elim in En as [En1%Z.ltb_ge En2%Z.ltb_ge]. cbn [AddBytesRead conn_AddBytesRead].
    intros [= <-]. pose proof (unread_covered _ _ _ _ Hw Ei). apply (put_ok B w i s); try done; [apply flow_read_ok; [done|lia]|apply flow_read_ok; [done|lia]|cbn; lia..].
  - destruct (streams w !! i) as [s|] eqn:Ei; [|done]. cbn [mbind option_bind]. destruct (stream_of _ _ _ _ Hw Ei) as [Hs1 Hs2].
    pose proof (unread_covered _ _ _ _ Hw Ei). pose proof Hs1 as [R1 R2 R3 R4 R5]. unfold Abandon.
    assert (receive_ok ((s_recv s) <| bytesRead := highestReceived (s_recv s) |>)) as Hr by (split; cbn; lia).
    destruct (Z.ltb_spec 0 (highestReceived (s_recv s) - bytesRead (s_recv s))) as [Hpos|Hz]; intros [= <-]; cbn [conn_AddBytesRead fst];
      apply (put_ok B w i s); try done; try (cbn; lia). apply flow_read_ok; [done|lia].
  - destruct (streams w !! i) as [s|] eqn:Ei; [|done]. cbn [mbind option_bind]. destruct (stream_of _ _ _ _ Hw Ei) as [Hs1 Hs2].
    unfold stream_GetWindowUpdate. destruct (receivedFinalOffset s).
    { intros [= <-]. apply (put_ok B w i s); try done; lia. }
    pose proof (getWindowUpdate_spec rtt (λ _, true) now (s_recv s) Hs1) as Hg. destruct (getWindowUpdate rtt (λ _, true) now (s_recv s)) as [r off].
    destruct Hg as (G1 & G2 & G3 & G4 & G5 & G6 & _). intros [= <-].
    match goal with |- context [EnsureMinimumWindowSize ?inc _ _ _] => pose proof (ensure_spec inc al now (conn w) W1) as (E1 & E2 & E3 & E4 & E5 & E6 & E7) end.
    destruct (receiveWindowSize (s_recv s) <? receiveWindowSize r);
      (apply (put_ok B w i s); [done|done|exact G1|done| | | | | |]); cbn; try done; try lia; [by rewrite E2|]. rewrite E2. lia.
  - unfold conn_GetWindowUpdate. pose proof (getWindowUpdate_spec rtt al now (recv (conn w)) W1) as Hg.
    destruct (getWindowUpdate rtt al now (recv (conn w))) as [r off]. destruct Hg as (G1 & G2 & G3 & G4 & G5 & G6 & _). intros [= <-].
    split; cbn [conn streams recv send]; try done; [lia|by rewrite G3|by rewrite G2].
  - intros [= <-]. destruct (UpdateSendWindow_ok off (send (conn w)) W2) as [U1 U2]. split; cbn; try done. by rewrite U2.
  - destruct (streams w !! i) as [s|] eqn:Ei; [|done]. cbn [mbind option_bind]. destruct (stream_of _ _ _ _ Hw Ei) as [Hs1 Hs2].
    intros [= <-]. destruct (UpdateSendWindow_ok off (s_send s) Hs2) as [U1 U2]. apply (put_ok B w i s); try done; cbn; lia.
  - destruct (streams w !! i) as [s|] eqn:Ei; [|done]. cbn [mbind option_bind]. destruct (stream_of _ _ _ _ Hw Ei) as [Hs1 Hs2].
    destruct (Z.ltb_spec n 0); [done|]. unfold stream_TryAddBytesSent.
    destruct ((sendWindow (s_send s) <? bytesSent (s_send s)) || (sendWindow (s_send s) - bytesSent (s_send s) <? n)) eqn:Eb.
    { intros [= <-]. apply (put_ok B w i s); try done; lia. }
    apply orb_false_elim in Eb as [Eb1%Z.ltb_ge Eb2%Z.ltb_ge]. pose proof (TryAddBytesSent_spec n (send (conn w)) W2 ltac:(done)) as Ht.
    destruct (TryAddBytesSent n (send (conn w))) as [cs ok]. destruct Ht as (T1 & T2 & T3). destruct ok; cbn [negb]; intros [= <-].
    + apply (put_ok B w i s); try done; cbn; try lia. unfold send_ok in *. cbn. lia.
    + apply (put_ok B w i s); try done; lia.
  - destruct (streams w !! i) as [s|] eqn:Ei; [|done]. cbn [mbind option_bind]. destruct (stream_of _ _ _ _ Hw Ei) as [Hs1 Hs2].
    destruct (Z.ltb_spec n 0); [done|]. unfold stream_AddBytesSentWithLimiter.
    destruct (Z.leb_spec (sendWindow (s_send s)) (bytesSent (s_send s))).
    { intros [= <-]. apply (put_ok B w i s); try done; lia. }
    pose proof (limiter_spec (Z.min n (sendWindow (s_send s) - bytesSent (s_send s))) lim (send (conn w)) W2 ltac:(unfold send_ok in *; lia)) as Ht.
    destruct (AddBytesSentWithLimiter _ lim (send (conn w))) as [cs [added limited]]. destruct Ht as (T1 & T2 & T3 & T4). intros [= <-].
    apply (put_ok B w i s); try done; cbn; try lia. unfold send_ok in *. cbn. lia.
Qed.

(** ** What flow control promises *)

Lemma flow_start_ok a m : 0 <= a → world_ok (Z.max a m) (start a m).
Proof. intros Ha. by split. Qed.

Lemma run_snoc ops o w : run (ops ++ [o]) w = (w' ← run ops w; apply_op o w').
Proof. unfold run. by rewrite foldl_snoc. Qed.

Lemma flow_run_ok B ops w w' : Forall op_ok ops → world_ok B w → run ops w = Some w' → world_ok B w'.
Proof.
  intros Hops Hw. revert w'. induction ops as [|o ops IH] using rev_ind; intros w'; [by intros [= <-]|].
  apply Forall_app in Hops as [Hops Ho]. apply Forall_cons in Ho as [Ho _]. rewrite run_snoc.
  destruct (run ops w) as [w1|]; [|done]. cbn. intros H. by eapply apply_ok; [apply IH| |exact H].
Qed.

Definition unread (s : streamFlowController) : Z := highestReceived (s_recv s) - bytesRead (s_recv s).

(** C21: What the peer can make us buffer is bounded, whatever it sends and however the
    windows are tuned: the bytes received on all streams and not read yet are
    never more than the largest window configured for the connection. The account
    of the connection is the sum of the accounts of its streams throughout. *)
Theorem buffered_bounded a m ops w :
  0 <= a → Forall op_ok ops → run ops (start a m) = Some w →
  highestReceived (recv (conn w)) = total (λ s, highestReceived (s_recv s)) (streams w) ∧
  bytesRead (recv (conn w)) = total (λ s, bytesRead (s_recv s)) (streams w) ∧
  (∀ i s, streams w !! i = Some s → 0 <= unread s <= receiveWindowSize (s_recv s)) ∧
  0 <= total unread (streams w) <= Z.max a m.
Proof.
  intros Ha Hops Hrun. pose proof (flow_run_ok _ ops _ _ Hops (flow_start_ok a m Ha) Hrun) as Hw.
  split; [apply (w_received _ _ Hw)|]. split; [apply (w_bytes_read _ _ Hw)|]. split.
  - intros i s Hi. destruct (stream_of _ _ _ _ Hw Hi) as [[R1 R2 R3 R4 R5] _]. unfold unread. lia.
  - assert (total unread (streams w) = highestReceived (recv (conn w)) - bytesRead (recv (conn w))) as ->.
    { rewrite (w_received _ _ Hw), (w_bytes_read _ _ Hw). unfold total. induction (streams w) as [|s l IH]; cbn; [done|]. unfold unread at 1. lia. }
    destruct (w_recv _ _ Hw) as [R1 R2 R3 R4 R5]. pose proof (w_bound _ _ Hw). lia.
Qed.

Definition demo_ops : list op :=
  [OpenStream 100 400 50; OpenStream 100 400 30; MaxDataReceived 60; StreamFrameReceived 0 80 false 5; StreamRead 0 60;
   StreamWindowUpdate 0 10 (λ _, true) 7; ConnWindowUpdate 10 (λ _, true) 7; ChunkSent 0 40; ChunkSent 1 30; ChunkSentLimited 1 30 (λ n, n)].

Lemma buffered_bounded_witness :
  ∃ w, run demo_ops (start 150 600) = Some w ∧ total unread (streams w) = 20 ∧ 0 <= total unread (streams w) <= 600.
Proof.
  destruct (run demo_ops (start 150 600)) as [w|] eqn:E; [|vm_compute in E; discriminate]. exists w. split; [reflexivity|].
  split; [vm_compute in E; injection E as <-; reflexivity|].
  refine (proj2 (proj2 (proj2 (buffered_bounded 150 600 demo_ops w _ _ E)))); [lia|].
  unfold demo_ops. repeat (apply Forall_cons; split; [first [exact I|cbn; lia]|]). constructor.
Defined.

(** What the peer allowed for the whole connection. *)
Definition allowed (ops : list op) : Z := foldl (λ m o, match o with MaxDataReceived off => Z.max m off | _ => m end) 0 ops.

Lemma send_window_allowed B ops w w' :
  Forall op_ok ops → world_ok B w → sendWindow (send (conn w)) = 0 → run ops w = Some w' → sendWindow (send (conn w')) = allowed ops.
Proof.
  intros Hops Hw H0. revert w'. induction ops as [|o ops IH] using rev_ind; intros w'; [by intros [= <-]|].
  apply Forall_app in Hops as [Hops Ho]. apply Forall_cons in Ho as [Ho _].
  rewrite run_snoc. unfold allowed. rewrite foldl_snoc. fold (allowed ops). destruct (run ops w) as [w1|] eqn:E1; [|done].
  specialize (IH Hops w1 eq_refl). pose proof (flow_run_ok _ _ _ _ Hops Hw E1) as Hw1. cbn [mbind option_bind].
  destruct o as [a b d|i off fin now|i n|i|i rtt al now|rtt al now|off|i off|i n|i n lim]; cbn [apply_op].
  - by intros [= <-].
  - destruct (streams w1 !! i) as [s|] eqn:Ei; [|done]. cbn [mbind option_bind]. destruct (stream_of _ _ _ _ Hw1 Ei) as [Hs1 _].
    destruct (UpdateHighestReceived off fin now s (conn w1)) as [[s' c'] [e|]] eqn:E; [done|]. intros [= <-].
    destruct (update_spec _ _ _ _ _ _ _ Hs1 (w_recv _ _ Hw1) E) as (_ & _ & _ & A4 & _). cbn. by rewrite A4.
  - destruct (streams w1 !! i) as [s|]; [|done]. cbn [mbind option_bind]. destruct (_ || _); [done|]. by intros [= <-].
  - destruct (streams w1 !! i) as [s|]; [|done]. cbn [mbind option_bind]. unfold Abandon. destruct (_ <? _); by intros [= <-].
  - destruct (streams w1 !! i) as [s|] eqn:Ei; [|done]. cbn [mbind option_bind]. unfold stream_GetWindowUpdate.
    destruct (receivedFinalOffset s); [by intros [= <-]|]. destruct (getWindowUpdate _ _ _ _) as [r offs]. intros [= <-].
    destruct (_ <? _); [|done]. cbn [put_stream conn].
    match goal with |- context [EnsureMinimumWindowSize ?inc _ _ _] => destruct (ensure_spec inc al now (conn w1) (w_recv _ _ Hw1)) as (_ & E2 & _) end.
    by rewrite E2.
  - unfold conn_GetWindowUpdate. destruct (getWindowUpdate _ _ _ _). by intros [= <-].
  - intros [= <-]. cbn. unfold UpdateSendWindow. destruct (Z.ltb_spec (sendWindow (send (conn w1))) off); cbn; lia.
  - destruct (streams w1 !! i) as [s|]; [|done]. by intros [= <-].
  - destruct (streams w1 !! i) as [s|]; [|done]. cbn [mbind option_bind]. destruct (n <? 0); [done|]. unfold stream_TryAddBytesSent, TryAddBytesSent.
    destruct (_ || _); [by intros [= <-]|]. destruct (_ || _); by intros [= <-].
  - destruct (streams w1 !! i) as [s|]; [|done]. cbn [mbind option_bind]. destruct (n <? 0); [done|]. unfold stream_AddBytesSentWithLimiter, AddBytesSentWithLimiter.
    destruct (_ <=? _); [by intros [= <-]|]. destruct (_ <=? _); by intros [= <-].
Qed.

(** C11: We never send more than the peer allows: in every run the bytes sent on all
    streams together stay within the highest MAX_DATA received, those of each stream
    within its own limit, and the connection counts each byte once. The limiter of
    the application can return what it likes. *)
Theorem credit_respected a m ops w :
  0 <= a → Forall op_ok ops → run ops (start a m) = Some w →
  total (λ s, bytesSent (s_send s)) (streams w) = bytesSent (send (conn w)) ∧
  bytesSent (send (conn w)) <= allowed ops ∧
  ∀ i s, streams w !! i = Some s → 0 <= bytesSent (s_send s) <= sendWindow (s_send s).
Proof.
  intros Ha Hops Hrun. pose proof (flow_run_ok _ ops _ _ Hops (flow_start_ok a m Ha) Hrun) as Hw.
  split; [symmetry; apply (w_sent _ _ Hw)|]. split.
  - rewrite <- (send_window_allowed _ ops _ _ Hops (flow_start_ok a m Ha) eq_refl Hrun). apply (w_send _ _ Hw).
  - intros i s Hi. by destruct (stream_of _ _ _ _ Hw Hi).
Qed.

Lemma credit_respected_witness :
  ∃ w, run demo_ops (start 150 600) = Some w ∧ bytesSent (send (conn w)) = 60 ∧ bytesSent (send (conn w)) <= allowed demo_ops.
Proof.
  destruct (run demo_ops (start 150 600)) as [w|] eqn:E; [|vm_compute in E; discriminate]. exists w. split; [reflexivity|].
  split; [vm_compute in E; injection E as <-; reflexivity|].
  refine (proj1 (proj2 (credit_respected 150 600 demo_ops w _ _ E))); [lia|].
  unfold demo_ops. repeat (apply Forall_cons; split; [first [exact I|cbn; lia]|]). constructor.
Defined.

(** The windows move on. An update is due exactly when at most three quarters of the
    window remain; it always raises the limit, to a full window beyond what was
    read, and the window itself never shrinks and never exceeds its maximum. So a
    peer that used up its credit gets new one once the data was read. *)
Theorem window_moves_on rtt allow now r :
  receive_ok r → receiveWindowSize r < 2 ^ 51 →
  let '(r', offset) := getWindowUpdate rtt allow now r in
  (hasWindowUpdate r = true ↔ 4 * (receiveWindow r - bytesRead r) <= 3 * receiveWindowSize r) ∧
  receiveWindow r <= receiveWindow r' ∧
  receiveWindowSize r <= receiveWindowSize r' <= Z.max (receiveWindowSize r) (maxReceiveWindowSize r) ∧
  (hasWindowUpdate r = true → 0 < receiveWindowSize r →
     offset = receiveWindow r' ∧ receiveWindow r < offset ∧ offset = bytesRead r + receiveWindowSize r') ∧
  (hasWindowUpdate r = false → offset = 0 ∧ r' = r).
Proof.
  intros Hr Hsize. pose proof (getWindowUpdate_spec rtt allow now r Hr) as Hg. destruct (getWindowUpdate rtt allow now r) as [r' offset].
  destruct Hg as (_ & G2 & _ & G4 & G5 & _ & G7). pose proof Hr as [R1 R2 R3 R4 R5].
  assert (hasWindowUpdate r = true ↔ 4 * (receiveWindow r - bytesRead r) <= 3 * receiveWindowSize r) as Hiff.
  { unfold hasWindowUpdate, remainingThreshold. rewrite scale_0_75 by lia. rewrite Z.leb_le.
    pose proof (Z.div_mod (3 * receiveWindowSize r) 4 ltac:(lia)). pose proof (Z.mod_pos_bound (3 * receiveWindowSize r) 4 ltac:(lia)). lia. }
  split; [exact Hiff|]. split; [done|]. split; [done|]. split.
  - intros Hu Hpos. rewrite Hu in G7. destruct G7 as [-> E]. split; [done|]. apply Hiff in Hu. split; [|done]. lia.
  - intros Hu. by rewrite Hu in G7.
Qed.

Lemma window_moves_on_witness :
  let r := mkReceive 60 80 100 100 400 5 0 in
  getWindowUpdate 10 (λ _, true) 7 r = (mkReceive 60 80 260 200 400 7 60, 260) ∧ receiveWindow r < 260.
Proof.
  split; [vm_compute; reflexivity|].
  pose proof (window_moves_on 10 (λ _, true) 7 (mkReceive 60 80 100 100 400 5 0)) as H.
  assert (receive_ok (mkReceive 60 80 100 100 400 5 0)) as Hr by (split; cbn; lia).
  specialize (H Hr ltac:(cbn; lia)). vm_compute (getWindowUpdate _ _ _ _) in H.
  destruct H as (_ & _ & _ & H & _). by apply H.
Defined.

(** The final size of a stream is final. Once it is known, no frame moves the
    stream's account any more: a frame is accepted only if it ends within the final
    size, another FIN only at exactly this size. The frame that brings it is only
    accepted at the highest offset seen. *)
Theorem final_size_final offset final now s c s' c' :
  UpdateHighestReceived offset final now s c = (s', c', None) →
  (receivedFinalOffset s = true → s' = s ∧ c' = c ∧ offset <= highestReceived (s_recv s) ∧
     (final = true → offset = highestReceived (s_recv s))) ∧
  (final = true → receivedFinalOffset s' = true ∧ highestReceived (s_recv s) <= offset ∧ highestReceived (s_recv s') = offset).
Proof.
  unfold UpdateHighestReceived. cbv zeta. set (highest := highestReceived (s_recv s)).
  destruct (receivedFinalOffset s && final && negb (offset =? highest)) eqn:E1; [done|].
  destruct (receivedFinalOffset s && (highest <? offset)) eqn:E2; [done|].
  destruct (Z.eqb_spec offset highest) as [Heq|Hne].
  { intros [= <- <-]. split.
    - intros Hf. split; [|split; [done|split; [lia|done]]]. destruct final; [|done]. destruct s as [r w f]. cbn in Hf. by subst f.
    - intros ->. split; [done|]. split; [lia|]. by rewrite Heq. }
  destruct (Z.ltb_spec offset highest) as [Hlt|Hge].
  { destruct final; [done|]. intros [= <- <-]. split; [|done]. intros _. split; [done|]. split; [done|]. split; [lia|done]. }
  assert (receivedFinalOffset s = false) as Hnf.
  { destruct (receivedFinalOffset s); [|done]. cbn [andb] in E2. apply Z.ltb_ge in E2. lia. }
  intros H. split; [by rewrite Hnf|]. intros ->. destruct (checkFlowControlViolation _); [done|].
  destruct (IncrementHighestReceived _ _ _) as [c1 e]. injection H as <- <- ->. split; [done|]. split; [lia|done].
Qed.

Lemma final_size_final_witness :
  let s := mkStream (mkReceive 0 40 100 100 100 1 0) (mkSend 0 0 0) true in
  let c := newConnectionFlowController 100 100 in
  UpdateHighestReceived 30 false 5 s c = (s, c, None) ∧ 30 <= 40 ∧ (UpdateHighestReceived 41 false 5 s c).2 = Some FinalSizeError.
Proof.
  split; [reflexivity|]. split; [|reflexivity].
  apply (final_size_final 30 false 5 (mkStream (mkReceive 0 40 100 100 100 1 0) (mkSend 0 0 0) true) (newConnectionFlowController 100 100)
           (mkStream (mkReceive 0 40 100 100 100 1 0) (mkSend 0 0 0) true) (newConnectionFlowController 100 100)); reflexivity.
Defined.

(** A frame contradicts the final size: one beyond it, or a second one, or one below
    what was received. *)
Definition contradicts_final (offset : Z) (final : bool) (s : streamFlowController) : bool :=
  let highest := highestReceived (s_recv s) in
  (receivedFinalOffset s && ((final && negb (offset =? highest)) || (highest <? offset))) || (final && (offset <? highest)).

(** A frame reaches beyond what its stream, or the streams together, may send. *)
Definition beyond_credit (offset : Z) (s : streamFlowController) (c : connectionFlowController) : bool :=
  (receiveWindow (s_recv s) <? offset) || (receiveWindow (recv c) <? highestReceived (recv c) + (offset - highestReceived (s_recv s))).

(** C39: A peer is accused exactly when it is at fault. Any frame, with a final size or without one,
    whether the stream's final size is known or not, ends the connection with a final-size
    error exactly when it contradicts the final size of the stream or what was received, and otherwise with
    a flow-control error exactly when it reaches beyond the stream's window, or makes
    the sum over all streams pass the connection's; there is no other error. *)
Theorem violation_exact offset final now s c :
  receive_ok (recv c) → receive_ok (s_recv s) →
  (UpdateHighestReceived offset final now s c).2 =
    (if contradicts_final offset final s then Some FinalSizeError else if beyond_credit offset s c then Some FlowControlError else None).
Proof.
  intros [C1 C2 C3 C4 C5] [S1 S2 S3 S4 S5]. unfold UpdateHighestReceived, contradicts_final, beyond_credit. cbv zeta.
  destruct (receivedFinalOffset s && final && negb (offset =? highestReceived (s_recv s))) eqn:E1; cbn [snd].
  { apply andb_true_iff in E1 as [[-> ->]%andb_true_iff ->]. done. }
  destruct (receivedFinalOffset s && (highestReceived (s_recv s) <? offset)) eqn:E2; cbn [snd].
  { apply andb_true_iff in E2 as [-> ->]. by rewrite orb_true_r. }
  rewrite andb_orb_distrib_r, andb_assoc, E1, E2. cbn [orb]. set (s' := if final then _ else s).
  assert (s_recv s' = s_recv s) as Es by (unfold s'; by destruct final). rewrite Es.
  destruct (Z.eqb_spec offset (highestReceived (s_recv s))) as [->|Hne]; cbn [snd].
  { rewrite Z.ltb_irrefl, andb_false_r, (proj2 (Z.ltb_ge _ _)) by lia. by rewrite (proj2 (Z.ltb_ge _ _)) by lia. }
  destruct (Z.ltb_spec offset (highestReceived (s_recv s))) as [Hlt|Hge]; cbn [snd].
  { rewrite andb_true_r. destruct final; [done|]. rewrite (proj2 (Z.ltb_ge _ _)) by lia. by rewrite (proj2 (Z.ltb_ge _ _)) by lia. }
  rewrite andb_false_r. set (r := if _ =? 0 then _ else s_recv s).
  assert (receiveWindow r = receiveWindow (s_recv s)) as Er by (unfold r; by destruct (_ =? 0)).
  unfold checkFlowControlViolation at 1. change (receiveWindow (r <| highestReceived := offset |>)) with (receiveWindow r).
  change (highestReceived (r <| highestReceived := offset |>)) with offset. rewrite Er.
  destruct (receiveWindow (s_recv s) <? offset); cbn [snd orb]; [done|].
  unfold IncrementHighestReceived. cbn [snd]. set (rc := if _ =? 0 then _ else recv c).
  assert (receiveWindow rc = receiveWindow (recv c) ∧ highestReceived rc = highestReceived (recv c)) as [G1 G2] by (unfold rc; by destruct (highestReceived (recv c) =? 0)).
  unfold checkFlowControlViolation. cbn. by rewrite G1, G2.
Qed.

(** A last frame one byte beyond the connection's window, and one that fits. *)
Lemma violation_exact_witness :
  let s := newStreamFlowController 100 100 0 in
  let c := mkConn (mkReceive 0 90 120 120 120 0 0) (mkSend 0 0 0) in
  (UpdateHighestReceived 31 true 5 s c).2 = Some FlowControlError ∧ (UpdateHighestReceived 30 true 5 s c).2 = None.
Proof.
  split; rewrite (violation_exact _ _ 5 (newStreamFlowController 100 100 0) (mkConn (mkReceive 0 90 120 120 120 0 0) (mkSend 0 0 0)));
    first [reflexivity|split; cbn; lia].
Defined.
