(* ===== verification/GapTree.v ===== *)
(** * The balanced tree of gaps
    ([quic-go/internal/utils/tree/tree.go], [internal/utils/streamframe_interval.go])

    An AVL tree over values with a comparison; heights are int8. It is shown to be
    the sorted list of its values under insertion, deletion and the search for the
    values that match a condition, and to stay balanced, so that no height ever
    overflows. *)

From Stdlib Require Import ZArith Lia Bool Sorting.Sorted.
From stdpp Require Import base list sorting.
From S2P Require Import Prelude.

Open Scope Z_scope.
Open Scope list_scope.

(** ** Values *)

(** The interface of the tree's values: [Comp a b] is 1, -1 or 0 as [a] is above,
    below or equal to [b]; [MatchC a cond] as [a] is above, below or matches. *)
Class Val (T : Type) := { Comp : T → T → Z; MatchC : T → T → Z }.

Class ValLaws (T : Type) `{Val T} := {
  Comp_eq : ∀ a b, Comp a b = 0 ↔ a = b;
  Comp_anti : ∀ a b, Comp a b < 0 ↔ 0 < Comp b a;
  Comp_trans : ∀ a b c, Comp a b < 0 → Comp b c < 0 → Comp a c < 0;
}.

Definition int8 (z : Z) : Z := wrap_s 8 z.

(** ** The tree *)

Inductive Node (T : Type) := Nil | mkNode (Value : T) (left right : Node T) (h : Z).
Arguments Nil {T}.
Arguments mkNode {T}.

Section tree.
Context {T : Type} `{Val T}.

Definition height (n : Node T) : Z := match n with Nil => 0 | mkNode _ _ _ h => h end.
Definition balance (n : Node T) : Z := match n with Nil => 0 | mkNode _ l r _ => int8 (height l - height r) end.

Definition maxHeight (l r : Node T) : Z := if height l <? height r then height r else height l.

(** A node with its height brought up to date. *)
Definition node (v : T) (l r : Node T) : Node T := mkNode v l r (int8 (maxHeight l r + 1)).

(** [None]: a nil pointer is followed. *)
Definition rotateRight (n : Node T) : option (Node T) :=
  match n with mkNode v (mkNode lv ll lr _) r _ => Some (node lv ll (node v lr r)) | _ => None end.
Definition rotateLeft (n : Node T) : option (Node T) :=
  match n with mkNode v l (mkNode rv rl rr _) _ => Some (node rv (node v l rl) rr) | _ => None end.

Definition rotateLeftRight (v : T) (l r : Node T) (h : Z) : option (Node T) := l ← rotateLeft l; rotateRight (mkNode v l r h).
Definition rotateRightLeft (v : T) (l r : Node T) (h : Z) : option (Node T) := r ← rotateRight r; rotateLeft (mkNode v l r h).

(** The end of [insert]. *)
Definition balance_inserted (value v : T) (l r : Node T) : option (Node T) :=
  let n := node v l r in
  let c := balance n in
  if 1 <? c then
    match l with
    | Nil => None
    | mkNode lv _ _ _ =>
        if Comp value lv <? 0 then rotateRight n
        else if 0 <? Comp value lv then rotateLeftRight v l r (height n)
        else Some n
    end
  else if c <? -1 then
    match r with
    | Nil => None
    | mkNode rv _ _ _ =>
        if 0 <? Comp value rv then rotateLeft n
        else if Comp value rv <? 0 then rotateRightLeft v l r (height n)
        else Some n
    end
  else Some n.

(** The tree, and [*added]. *)
Fixpoint insert (n : Node T) (value : T) : option (Node T * bool) :=
  match n with
  | Nil => Some (mkNode value Nil Nil 1, true)
  | mkNode v l r h =>
      let c := Comp value v in
      if 0 <? c then '(r, added) ← insert r value; n ← balance_inserted value v l r; Some (n, added)
      else if c <? 0 then '(l, added) ← insert l value; n ← balance_inserted value v l r; Some (n, added)
      else Some (mkNode value l r h, false)
  end.

(** [min]: the value of the leftmost node. *)
Fixpoint min_value (n : Node T) : option T :=
  match n with
  | Nil => None
  | mkNode v Nil _ _ => Some v
  | mkNode _ l _ _ => min_value l
  end.

(** The end of [deleteNode]. *)
Definition balance_deleted (v : T) (l r : Node T) : option (Node T) :=
  let n := node v l r in
  let bal := balance n in
  if 1 <? bal then if 0 <=? balance l then rotateRight n else rotateLeftRight v l r (height n)
  else if bal <? -1 then if balance r <=? 0 then rotateLeft n else rotateRightLeft v l r (height n)
  else Some n.

Fixpoint deleteNode (n : Node T) (value : T) : option (Node T * bool) :=
  match n with
  | Nil => Some (Nil, false)
  | mkNode v l r h =>
      let c := Comp value v in
      if c <? 0 then '(l, deleted) ← deleteNode l value; n ← balance_deleted v l r; Some (n, deleted)
      else if 0 <? c then '(r, deleted) ← deleteNode r value; n ← balance_deleted v l r; Some (n, deleted)
      else
        match l, r with
        | Nil, _ => Some (r, true)
        | _, Nil => Some (l, true)
        | _, _ => t ← min_value r; '(r, _) ← deleteNode r t; n ← balance_deleted t l r; Some (n, true)
        end
  end.

(** [match]: the matching values in ascending order. *)
Fixpoint match_ (n : Node T) (cond : T) : list T :=
  match n with
  | Nil => []
  | mkNode v l r _ =>
      let c := MatchC v cond in
      if 0 <? c then match_ l cond else if c <? 0 then match_ r cond else match_ l cond ++ v :: match_ r cond
  end.

Fixpoint get_ (n : Node T) (value : T) : option T :=
  match n with
  | Nil => None
  | mkNode v l r _ => let c := Comp value v in if c <? 0 then get_ l value else if 0 <? c then get_ r value else Some v
  end.

(** [iterate]: the iterator is run on each value with its index; its answer reaches the
    right subtree of that node and no further. *)
Fixpoint iterate {A} (f : T → nat → A → A * bool) (n : Node T) (i : nat) (s : A) (cont : bool) : nat * A :=
  match n with
  | Nil => (i, s)
  | mkNode v l r _ =>
      if negb cont then (i, s)
      else
        let '(i, s) := iterate f l i s cont in
        let '(s, cont) := f v i s in
        iterate f r (S i) s cont
  end.

(** [rIterate] hands both subtrees to [iterate]. *)
Definition rIterate {A} (f : T → nat → A → A * bool) (n : Node T) (i : nat) (s : A) (cont : bool) : nat * A :=
  match n with
  | Nil => (i, s)
  | mkNode v l r _ =>
      if negb cont then (i, s)
      else
        let '(i, s) := iterate f r i s cont in
        let '(s, cont) := f v i s in
        iterate f l (S i) s cont
  end.

(** ** The tree with its length *)

Record Btree := mkBtree { root : Node T; tlen : Z }.

Definition New : Btree := mkBtree Nil 0.
Definition Insert (value : T) (t : Btree) : option Btree :=
  match insert (root t) value with Some (n, added) => Some (mkBtree n (if added then tlen t + 1 else tlen t)) | None => None end.
Definition Delete (value : T) (t : Btree) : option Btree :=
  match deleteNode (root t) value with Some (n, deleted) => Some (mkBtree n (if deleted then tlen t - 1 else tlen t)) | None => None end.
Definition Match_ (cond : T) (t : Btree) : list T := match_ (root t) cond.
Definition Len (t : Btree) : Z := tlen t.
Definition Get (value : T) (t : Btree) : option T := get_ (root t) value.
Definition Contains (value : T) (t : Btree) : bool := match Get value t with Some _ => true | None => false end.

Definition collect (v : T) (i : nat) (acc : list T) : list T * bool := (acc ++ [v], true).

Definition Values (t : Btree) : list T := (iterate collect (root t) 0 [] true).2.
Definition Descend {A} (f : T → nat → A → A * bool) (s : A) (t : Btree) : A := (rIterate f (root t) 0 s true).2.
Definition Ascend {A} (f : T → nat → A → A * bool) (s : A) (t : Btree) : A := (iterate f (root t) 0 s true).2.

Fixpoint max_value (n : Node T) : option T :=
  match n with
  | Nil => None
  | mkNode v _ Nil _ => Some v
  | mkNode _ _ r _ => max_value r
  end.

Definition Empty (t : Btree) : bool := match root t with Nil => true | _ => false end.
Definition Head (t : Btree) : option T := min_value (root t).
Definition Tail (t : Btree) : option T := max_value (root t).

(** [Pull] and [Pop]: the first and the last value, taken out. *)
Definition Pull (t : Btree) : option (option T * Btree) :=
  match Head t with Some v => t ← Delete v t; Some (Some v, t) | None => Some (None, t) end.
Definition Pop (t : Btree) : option (option T * Btree) :=
  match Tail t with Some v => t ← Delete v t; Some (Some v, t) | None => Some (None, t) end.

Fixpoint InsertAll (values : list T) (t : Btree) : option Btree :=
  match values with [] => Some t | v :: values => t ← Insert v t; InsertAll values t end.
Fixpoint DeleteAll (values : list T) (t : Btree) : option Btree :=
  match values with [] => Some t | v :: values => t ← Delete v t; DeleteAll values t end.
Definition ContainsAny (values : list T) (t : Btree) : bool := existsb (λ v, Contains v t) values.
Definition ContainsAll (values : list T) (t : Btree) : bool := forallb (λ v, Contains v t) values.

(** ** What the tree stands for *)

Fixpoint elems (n : Node T) : list T := match n with Nil => [] | mkNode v l r _ => elems l ++ v :: elems r end.

Definition below (a b : T) : Prop := Comp a b < 0.
Definition ordered (l : list T) : Prop := StronglySorted below l.

Fixpoint list_insert (x : T) (l : list T) : list T :=
  match l with
  | [] => [x]
  | y :: l' => if Comp x y <? 0 then x :: l else if 0 <? Comp x y then y :: list_insert x l' else x :: l'
  end.

Fixpoint list_delete (x : T) (l : list T) : list T :=
  match l with [] => [] | y :: l' => if Comp x y =? 0 then l' else y :: list_delete x l' end.

Fixpoint th (n : Node T) : Z := match n with Nil => 0 | mkNode _ l r _ => 1 + Z.max (th l) (th r) end.

Fixpoint avl (n : Node T) : Prop :=
  match n with
  | Nil => True
  | mkNode _ l r h => h = 1 + Z.max (th l) (th r) ∧ -1 <= th l - th r <= 1 ∧ avl l ∧ avl r
  end.

(** ** Balance *)

Lemma int8_small z : -128 <= z < 128 → int8 z = z.
Proof. intros Hz. unfold int8, wrap_s. change (2 ^ (8 - 1)) with 128. change (2 ^ 8) with 256. rewrite Z.mod_small by lia. lia. Qed.

Lemma th_nonneg n : 0 <= th n.
Proof. induction n as [|v l IHl r IHr h]; cbn; lia. Qed.

Lemma height_th n : avl n → height n = th n.
Proof. destruct n as [|v l r h]; [done|]. cbn. by intros (-> & _). Qed.

Lemma maxHeight_th l r : avl l → avl r → maxHeight l r = Z.max (th l) (th r).
Proof. intros Hl Hr. unfold maxHeight. rewrite !height_th by done. destruct (Z.ltb_spec (th l) (th r)); lia. Qed.

Lemma node_spec v l r :
  avl l → avl r → -1 <= th l - th r <= 1 → th l <= 126 → th r <= 126 →
  avl (node v l r) ∧ th (node v l r) = 1 + Z.max (th l) (th r) ∧ elems (node v l r) = elems l ++ v :: elems r.
Proof.
  intros Hl Hr Hb H1 H2. unfold node. rewrite maxHeight_th by done. pose proof (th_nonneg l). pose proof (th_nonneg r).
  rewrite int8_small by lia. cbn. split; [|done]. split; [lia|]. done.
Qed.

Lemma balance_node v l r : avl l → avl r → th l <= 126 → th r <= 126 → balance (node v l r) = th l - th r.
Proof.
  intros Hl Hr H1 H2. cbn. rewrite !height_th by done. pose proof (th_nonneg l). pose proof (th_nonneg r). apply int8_small. lia.
Qed.

Lemma balance_avl v l r h : avl (mkNode v l r h) → balance (mkNode v l r h) = th l - th r.
Proof. cbn. intros (_ & Hb & Hl & Hr). rewrite !height_th by done. apply int8_small. lia. Qed.

(** What a repaired subtree must be. *)
Definition repaired (n' : Node T) (l : Node T) (v : T) (r : Node T) : Prop := avl n' ∧ elems n' = elems l ++ v :: elems r.

Lemma rotateRight_spec v lv ll lr lh r h :
  avl (mkNode lv ll lr lh) → avl r → th (mkNode lv ll lr lh) = th r + 2 → th r <= 120 → th lr <= th ll →
  ∃ n, rotateRight (mkNode v (mkNode lv ll lr lh) r h) = Some n ∧ repaired n (mkNode lv ll lr lh) v r ∧
    th n = th r + (if th ll =? th lr then 3 else 2).
Proof.
  cbn [avl th]. intros (Hh & Hb & Hll & Hlr) Hr Ht Hm Hle. cbn [rotateRight]. eexists. split; [reflexivity|].
  pose proof (th_nonneg r). pose proof (th_nonneg lr).
  destruct (node_spec v lr r) as (A1 & A2 & A3); [done|done|lia..|].
  destruct (node_spec lv ll (node v lr r)) as (B1 & B2 & B3); [done|done|lia..|].
  split; [split; [done|]|].
  - rewrite B3, A3. cbn. by rewrite <- app_assoc.
  - rewrite B2, A2. destruct (Z.eqb_spec (th ll) (th lr)); lia.
Qed.

Lemma rotateLeft_spec v l rv rl rr rh h :
  avl l → avl (mkNode rv rl rr rh) → th (mkNode rv rl rr rh) = th l + 2 → th l <= 120 → th rl <= th rr →
  ∃ n, rotateLeft (mkNode v l (mkNode rv rl rr rh) h) = Some n ∧ repaired n l v (mkNode rv rl rr rh) ∧
    th n = th l + (if th rl =? th rr then 3 else 2).
Proof.
  cbn [avl th]. intros Hl (Hh & Hb & Hrl & Hrr) Ht Hm Hle. cbn [rotateLeft]. eexists. split; [reflexivity|].
  pose proof (th_nonneg l). pose proof (th_nonneg rl).
  destruct (node_spec v l rl) as (A1 & A2 & A3); [done|done|lia..|].
  destruct (node_spec rv (node v l rl) rr) as (B1 & B2 & B3); [done|done|lia..|].
  split; [split; [done|]|].
  - rewrite B3, A3. cbn. by rewrite <- app_assoc.
  - rewrite B2, A2. destruct (Z.eqb_spec (th rl) (th rr)); lia.
Qed.

Lemma rotateLeftRight_spec v lv ll lr lh r h :
  avl (mkNode lv ll lr lh) → avl r → th (mkNode lv ll lr lh) = th r + 2 → th r <= 120 → th ll < th lr →
  ∃ n, rotateLeftRight v (mkNode lv ll lr lh) r h = Some n ∧ repaired n (mkNode lv ll lr lh) v r ∧ th n = th r + 2.
Proof.
  cbn [avl th]. intros (Hh & Hb & Hll & Hlr) Hr Ht Hm Hlt. pose proof (th_nonneg ll). pose proof (th_nonneg r).
  destruct lr as [|w wl wr wh]; [cbn in Hlt; lia|]. cbn [avl th] in *. destruct Hlr as (Hwh & Hwb & Hwl & Hwr).
  unfold rotateLeftRight. cbn [rotateLeft rotateRight mbind option_bind]. unfold node at 1. cbn [rotateRight]. eexists. split; [reflexivity|].
  destruct (node_spec lv ll wl) as (A1 & A2 & A3); [done|done|lia..|].
  destruct (node_spec v wr r) as (B1 & B2 & B3); [done|done|lia..|].
  destruct (node_spec w (node lv ll wl) (node v wr r)) as (C1 & C2 & C3); [done|done|lia..|].
  split; [split; [done|]|].
  - rewrite C3, A3, B3. cbn. repeat (rewrite <- app_assoc; cbn). done.
  - rewrite C2, A2, B2. lia.
Qed.

Lemma rotateRightLeft_spec v l rv rl rr rh h :
  avl l → avl (mkNode rv rl rr rh) → th (mkNode rv rl rr rh) = th l + 2 → th l <= 120 → th rr < th rl →
  ∃ n, rotateRightLeft v l (mkNode rv rl rr rh) h = Some n ∧ repaired n l v (mkNode rv rl rr rh) ∧ th n = th l + 2.
Proof.
  cbn [avl th]. intros Hl (Hh & Hb & Hrl & Hrr) Ht Hm Hlt. pose proof (th_nonneg rr). pose proof (th_nonneg l).
  destruct rl as [|w wl wr wh]; [cbn in Hlt; lia|]. cbn [avl th] in *. destruct Hrl as (Hwh & Hwb & Hwl & Hwr).
  unfold rotateRightLeft. cbn [rotateRight rotateLeft mbind option_bind]. unfold node at 1. cbn [rotateLeft]. eexists. split; [reflexivity|].
  destruct (node_spec v l wl) as (A1 & A2 & A3); [done|done|lia..|].
  destruct (node_spec rv wr rr) as (B1 & B2 & B3); [done|done|lia..|].
  destruct (node_spec w (node v l wl) (node rv wr rr)) as (C1 & C2 & C3); [done|done|lia..|].
  split; [split; [done|]|].
  - rewrite C3, A3, B3. cbn. repeat (rewrite <- app_assoc; cbn). done.
  - rewrite C2, A2, B2. lia.
Qed.
End tree.

(** ** Insertion and deletion in the sorted list *)

Section laws.
Context {T : Type} `{ValLaws T}.
Implicit Types (l r n : Node T) (v x : T).

Lemma below_trans x y z : below x y → below y z → below x z.
Proof. unfold below. apply Comp_trans. Qed.

Lemma below_irrefl x : ¬ below x x.
Proof. unfold below. rewrite (proj2 (Comp_eq x x)) by done. lia. Qed.

Lemma below_asym x y : below x y → ¬ below y x.
Proof. intros A B. apply (below_irrefl x), (below_trans _ y); done. Qed.

Lemma Comp_pos x y : 0 < Comp x y ↔ below y x.
Proof. unfold below. by rewrite Comp_anti. Qed.

(** The three answers of a comparison. *)
Lemma Comp_cases x y : (below x y ∧ Comp x y < 0) ∨ (x = y ∧ Comp x y = 0) ∨ (below y x ∧ 0 < Comp x y).
Proof.
  destruct (Z.lt_trichotomy (Comp x y) 0) as [C|[C|C]].
  - by left.
  - right; left. split; [by apply Comp_eq|done].
  - right; right. split; [by apply Comp_pos|done].
Qed.

Lemma ordered_mid (l1 l2 : list T) v :
  ordered (l1 ++ v :: l2) ↔
  ordered l1 ∧ ordered l2 ∧ Forall (λ a, below a v) l1 ∧ Forall (below v) l2.
Proof.
  unfold ordered. rewrite StronglySorted_app. split.
  - intros (A & B & C). apply StronglySorted_inv in C as [C D]. split_and!; [done..| |done].
    apply Forall_forall. intros a Ha. apply A; [done|]. by left.
  - intros (A & B & C & D). rewrite Forall_forall in C. split_and!; [|done|by constructor].
    rewrite Forall_forall in D. intros a b Ha [->|Hb]%elem_of_cons; [by apply C|].
    apply (below_trans _ v); [by apply C|by apply D].
Qed.

Lemma list_insert_left x v (l1 l2 : list T) : Comp x v < 0 → list_insert x (l1 ++ v :: l2) = list_insert x l1 ++ v :: l2.
Proof.
  intros C. induction l1 as [|y l1 IH]; cbn.
  - by rewrite (proj2 (Z.ltb_lt _ _) C).
  - destruct (Comp x y <? 0); [done|]. destruct (0 <? Comp x y); [by rewrite IH|done].
Qed.

Lemma list_insert_skip x (l1 l2 : list T) : Forall (λ a, below a x) l1 → list_insert x (l1 ++ l2) = l1 ++ list_insert x l2.
Proof.
  induction 1 as [|y l1 Hy _ IH]; [done|]. cbn. apply Comp_pos in Hy.
  rewrite (proj2 (Z.ltb_ge _ _)) by lia. rewrite (proj2 (Z.ltb_lt _ _) Hy). by rewrite IH.
Qed.

Lemma Forall_below_trans x y (l1 : list T) : Forall (λ a, below a x) l1 → below x y → Forall (λ a, below a y) l1.
Proof. intros F B. eapply Forall_impl; [exact F|]. intros a Ha. by apply (below_trans _ x). Qed.

Lemma Forall_below_trans' x y (l1 : list T) : below x y → Forall (below y) l1 → Forall (below x) l1.
Proof. intros B F. eapply Forall_impl; [exact F|]. intros a Ha. by apply (below_trans _ y). Qed.

Lemma list_insert_elem x y (l1 : list T) : y ∈ list_insert x l1 ↔ y = x ∨ y ∈ l1.
Proof.
  induction l1 as [|z l1 IH]; cbn; [set_solver|].
  destruct (Comp_cases x z) as [[_ C]|[[-> C]|[_ C]]].
  - rewrite (proj2 (Z.ltb_lt _ _) C). set_solver.
  - rewrite C. cbn. set_solver.
  - rewrite (proj2 (Z.ltb_ge _ _)), (proj2 (Z.ltb_lt _ _) C) by lia. rewrite !elem_of_cons, IH. tauto.
Qed.

Lemma list_insert_ordered x (l1 : list T) : ordered l1 → ordered (list_insert x l1).
Proof.
  unfold ordered. induction l1 as [|z l1 IH]; cbn; [by repeat constructor|]. intros S. pose proof S as S0. apply StronglySorted_inv in S as [S F].
  destruct (Comp_cases x z) as [[B C]|[[-> C]|[B C]]].
  - rewrite (proj2 (Z.ltb_lt _ _) C). constructor; [done|]. constructor; [done|]. by apply (Forall_below_trans' _ z).
  - rewrite C. cbn. done.
  - rewrite (proj2 (Z.ltb_ge _ _)), (proj2 (Z.ltb_lt _ _) C) by lia. constructor; [by apply IH|].
    apply Forall_forall. intros y [->|Hy]%list_insert_elem; [done|]. rewrite Forall_forall in F. by apply F.
Qed.

Lemma list_delete_all x (l1 : list T) : Forall (below x) l1 → list_delete x l1 = l1.
Proof.
  induction 1 as [|y l1 Hy _ IH]; [done|]. cbn. unfold below in Hy.
  rewrite (proj2 (Z.eqb_neq _ _)) by lia. by rewrite IH.
Qed.

Lemma list_delete_left x v (l1 l2 : list T) :
  below x v → Forall (below v) l2 → list_delete x (l1 ++ v :: l2) = list_delete x l1 ++ v :: l2.
Proof.
  intros B F. induction l1 as [|y l1 IH]; cbn [app].
  - rewrite list_delete_all; [done|]. constructor; [done|]. by apply (Forall_below_trans' _ v).
  - cbn. destruct (Comp x y =? 0); [done|]. by rewrite IH.
Qed.

Lemma list_delete_skip x (l1 l2 : list T) : Forall (λ a, below a x) l1 → list_delete x (l1 ++ l2) = l1 ++ list_delete x l2.
Proof.
  induction 1 as [|y l1 Hy _ IH]; [done|]. cbn. apply Comp_pos in Hy.
  rewrite (proj2 (Z.eqb_neq _ _)) by lia. by rewrite IH.
Qed.

Lemma list_delete_mid x (l1 l2 : list T) : Forall (λ a, below a x) l1 → list_delete x (l1 ++ x :: l2) = l1 ++ l2.
Proof. intros F. rewrite list_delete_skip by done. cbn. by rewrite (proj2 (Comp_eq x x)). Qed.

Lemma list_delete_elem x y (l1 : list T) : ordered l1 → y ∈ list_delete x l1 ↔ y ≠ x ∧ y ∈ l1.
Proof.
  unfold ordered. induction l1 as [|z l1 IH]; cbn; [set_solver|]. intros S. apply StronglySorted_inv in S as [S F].
  destruct (Z.eqb_spec (Comp x z) 0) as [C|C].
  - apply Comp_eq in C as <-. rewrite Forall_forall in F. split; [|set_solver]. intros Hy. split; [|by right].
    intros ->. by apply (below_irrefl x), F.
  - rewrite !elem_of_cons, IH by done. split; [|tauto]. intros [->|[A B]]; [|tauto]. split; [|by left].
    intros ->. by apply C, Comp_eq.
Qed.

Lemma list_delete_ordered x (l1 : list T) : ordered l1 → ordered (list_delete x l1).
Proof.
  unfold ordered. induction l1 as [|z l1 IH]; cbn; [done|]. intros S. pose proof S as S0. apply StronglySorted_inv in S as [S F].
  destruct (Comp x z =? 0); [done|]. constructor; [by apply IH|]. apply Forall_forall. intros y Hy.
  apply list_delete_elem in Hy as [_ Hy]; [|done]. rewrite Forall_forall in F. by apply F.
Qed.

(** ** The tree's insertion *)

(** A tree that has grown by an insertion is higher on the side the value went to. *)
Definition grown (value : T) (n n' : Node T) : Prop :=
  th n' = th n + 1 →
  match n' with
  | Nil => False
  | mkNode v l r _ => (th r < th l → Comp value v < 0) ∧ (th l < th r → 0 < Comp value v) ∧ (th l = th r → n = Nil)
  end.

Lemma balance_inserted_left value v l l' r :
  avl l' → avl r → -1 <= th l - th r <= 1 → th l <= th l' <= th l + 1 → grown value l l' → th l <= 119 → th r <= 119 →
  Comp value v < 0 →
  ∃ n, balance_inserted value v l' r = Some n ∧ repaired n l' v r ∧
    1 + Z.max (th l) (th r) <= th n <= 2 + Z.max (th l) (th r) ∧ grown value (mkNode v l r 0) n.
Proof.
  intros Hl Hr Hb Hg G H1 H2 C. unfold balance_inserted. rewrite balance_node by (done || lia).
  rewrite (proj2 (Z.ltb_ge (th l' - th r) (-1))) by lia.
  destruct (Z.ltb_spec 1 (th l' - th r)) as [Hh|Hh].
  - destruct l' as [|lv ll lr lh]; [cbn in Hh; pose proof (th_nonneg r); lia|].
    assert (Ht : th (mkNode lv ll lr lh) = th l + 1) by lia. apply G in Ht as Gs. cbn beta iota in Gs. destruct Gs as (G1 & G2 & G3).
    assert (Hne : th ll ≠ th lr).
    { intros e. apply G3 in e as ->. cbn in Hh, Hb. pose proof (th_nonneg r). cbn [th] in Ht. lia. }
    destruct (Z.ltb_spec (Comp value lv) 0) as [C1|C1].
    + assert (th lr < th ll) by (destruct (Z.lt_trichotomy (th ll) (th lr)) as [?|[?|?]]; [lia|done|done]).
      destruct (rotateRight_spec v lv ll lr lh r (int8 (maxHeight (mkNode lv ll lr lh) r + 1))) as (n & E & A & B); [done|done|lia|lia|lia|]. unfold node. rewrite E. clear E.
      rewrite (proj2 (Z.eqb_neq _ _)) in B by done. exists n. split_and!; [done|exact A|lia|lia|]. intros Hn. cbn [th] in Hn. lia.
    + assert (th ll < th lr) by (destruct (Z.lt_trichotomy (th ll) (th lr)) as [?|[?|?]]; [done|done|lia]).
      rewrite (proj2 (Z.ltb_lt 0 _)) by lia.
      destruct (rotateLeftRight_spec v lv ll lr lh r (height (node v (mkNode lv ll lr lh) r))) as (n & -> & A & B); [done|done|lia|lia|lia|].
      exists n. split_and!; [done|exact A|lia|lia|]. intros Hn. cbn [th] in Hn. lia.
  - destruct (node_spec v l' r) as (A1 & A2 & A3); [done|done|lia..|]. exists (node v l' r).
    split_and!; [done|by split|lia|lia|]. intros Hn. rewrite A2 in Hn. cbn [th] in Hn. unfold node. split_and!; [done|lia|lia].
Qed.

Lemma balance_inserted_right value v l r r' :
  avl l → avl r' → -1 <= th l - th r <= 1 → th r <= th r' <= th r + 1 → grown value r r' → th l <= 119 → th r <= 119 →
  0 < Comp value v →
  ∃ n, balance_inserted value v l r' = Some n ∧ repaired n l v r' ∧
    1 + Z.max (th l) (th r) <= th n <= 2 + Z.max (th l) (th r) ∧ grown value (mkNode v l r 0) n.
Proof.
  intros Hl Hr Hb Hg G H1 H2 C. unfold balance_inserted. rewrite balance_node by (done || lia).
  rewrite (proj2 (Z.ltb_ge 1 (th l - th r'))) by lia.
  destruct (Z.ltb_spec (th l - th r') (-1)) as [Hh|Hh].
  - destruct r' as [|rv rl rr rh]; [cbn in Hh; pose proof (th_nonneg l); lia|].
    assert (Ht : th (mkNode rv rl rr rh) = th r + 1) by lia. apply G in Ht as Gs. cbn beta iota in Gs. destruct Gs as (G1 & G2 & G3).
    assert (Hne : th rl ≠ th rr).
    { intros e. apply G3 in e as ->. cbn in Hh, Hb. pose proof (th_nonneg l). cbn [th] in Ht. lia. }
    destruct (Z.ltb_spec 0 (Comp value rv)) as [C1|C1].
    + assert (th rl < th rr) by (destruct (Z.lt_trichotomy (th rl) (th rr)) as [?|[?|?]]; [done|done|lia]).
      destruct (rotateLeft_spec v l rv rl rr rh (int8 (maxHeight l (mkNode rv rl rr rh) + 1))) as (n & E & A & B); [done|done|lia|lia|lia|]. unfold node. rewrite E. clear E.
      rewrite (proj2 (Z.eqb_neq _ _)) in B by done. exists n. split_and!; [done|exact A|lia|lia|]. intros Hn. cbn [th] in Hn. lia.
    + assert (th rr < th rl) by (destruct (Z.lt_trichotomy (th rl) (th rr)) as [?|[?|?]]; [lia|done|done]).
      rewrite (proj2 (Z.ltb_lt _ 0)) by lia.
      destruct (rotateRightLeft_spec v l rv rl rr rh (height (node v l (mkNode rv rl rr rh)))) as (n & -> & A & B); [done|done|lia|lia|lia|].
      exists n. split_and!; [done|exact A|lia|lia|]. intros Hn. cbn [th] in Hn. lia.
  - destruct (node_spec v l r') as (A1 & A2 & A3); [done|done|lia..|]. exists (node v l r').
    split_and!; [done|by split|lia|lia|]. intros Hn. rewrite A2 in Hn. cbn [th] in Hn. unfold node. split_and!; [lia|done|lia].
Qed.

Lemma grown_ext value v l r h h' n' : grown value (mkNode v l r h) n' → grown value (mkNode v l r h') n'.
Proof.
  unfold grown. cbn [th]. intros G Hn. apply G in Hn. destruct n' as [|v' l' r' h0]; [done|]. destruct Hn as (A & B & C).
  split_and!; [done|done|]. intros e. by apply C in e.
Qed.

Lemma insert_spec value n :
  avl n → ordered (elems n) → th n <= 120 →
  ∃ n' added, insert n value = Some (n', added) ∧ avl n' ∧ elems n' = list_insert value (elems n) ∧
    th n <= th n' <= th n + 1 ∧ grown value n n' ∧ length (elems n') = (length (elems n) + (if (added : bool) then 1 else 0))%nat.
Proof.
  induction n as [|v l IHl r IHr h]; intros Ha Ho Hm.
  - exists (mkNode value Nil Nil 1), true. split; [done|]. split; [by cbn|]. cbn. unfold grown. cbn. repeat split; lia || done.
  - cbn [avl th elems] in Ha, Ho, Hm. destruct Ha as (Hh & Hb & Hl & Hr). apply ordered_mid in Ho as (Ol & Or & Fl & Fr).
    cbn [insert]. destruct (Comp_cases value v) as [[B C]|[[-> C]|[B C]]].
    + rewrite (proj2 (Z.ltb_ge 0 _)), (proj2 (Z.ltb_lt _ _) C) by lia.
      destruct IHl as (l' & added & -> & Al & El & Tl & Gl & Ll); [done|done|lia|]. cbn [mbind option_bind].
      destruct (balance_inserted_left value v l l' r) as (n & -> & [An En] & Tn & Gn); [done|done|lia|lia|done|lia|lia|done|].
      cbn [mbind option_bind]. exists n, added. split_and!; [done|done| |cbn [th]; lia|cbn [th]; lia|by eapply grown_ext|].
      * cbn [elems]. by rewrite list_insert_left, En, El.
      * cbn [elems]. rewrite En, !length_app, Ll. cbn. lia.
    + rewrite C. cbn. exists (mkNode v l r h), false. split_and!; [done|by cbn| |cbn; lia|cbn; lia| |cbn; lia].
      * cbn [elems]. rewrite list_insert_skip by done. cbn. by rewrite C.
      * intros Hn. cbn in Hn. lia.
    + rewrite (proj2 (Z.ltb_lt _ _) C).
      destruct IHr as (r' & added & -> & Ar & Er & Tr & Gr & Lr); [done|done|lia|]. cbn [mbind option_bind].
      destruct (balance_inserted_right value v l r r') as (n & -> & [An En] & Tn & Gn); [done|done|lia|lia|done|lia|lia|done|].
      cbn [mbind option_bind]. exists n, added. split_and!; [done|done| |cbn [th]; lia|cbn [th]; lia|by eapply grown_ext|].
      * cbn [elems]. rewrite list_insert_skip by (by apply (Forall_below_trans v)). cbn. rewrite (proj2 (Z.ltb_ge _ _)), (proj2 (Z.ltb_lt _ _) C) by lia.
        by rewrite En, Er.
      * cbn [elems]. rewrite En, !length_app. cbn. rewrite Lr. lia.
Qed.

(** ** The tree's deletion *)

Lemma balance_deleted_spec v l r :
  avl l → avl r → -2 <= th l - th r <= 2 → th l <= 120 → th r <= 120 →
  ∃ n, balance_deleted v l r = Some n ∧ repaired n l v r ∧
    Z.max (th l) (th r) <= th n <= 1 + Z.max (th l) (th r) ∧ (-1 <= th l - th r <= 1 → th n = 1 + Z.max (th l) (th r)).
Proof.
  intros Hl Hr Hb H1 H2. unfold balance_deleted. rewrite balance_node by (done || lia). cbn zeta.
  destruct (Z.ltb_spec 1 (th l - th r)) as [Hh|Hh].
  - destruct l as [|lv ll lr lh]; [cbn in Hh; pose proof (th_nonneg r); lia|]. rewrite balance_avl by done.
    destruct (Z.leb_spec 0 (th ll - th lr)).
    + destruct (rotateRight_spec v lv ll lr lh r (int8 (maxHeight (mkNode lv ll lr lh) r + 1))) as (n & E & A & B); [done|done|lia|lia|lia|]. unfold node. rewrite E. clear E.
      exists n. split_and!; [done|exact A|destruct (th ll =? th lr); lia|destruct (th ll =? th lr); lia|lia].
    + destruct (rotateLeftRight_spec v lv ll lr lh r (height (node v (mkNode lv ll lr lh) r))) as (n & -> & A & B); [done|done|lia|lia|lia|].
      exists n. split_and!; [done|exact A|lia|lia|lia].
  - destruct (Z.ltb_spec (th l - th r) (-1)) as [Hi|Hi].
    + destruct r as [|rv rl rr rh]; [cbn in Hi; pose proof (th_nonneg l); lia|]. rewrite balance_avl by done.
      destruct (Z.leb_spec (th rl - th rr) 0).
      * destruct (rotateLeft_spec v l rv rl rr rh (int8 (maxHeight l (mkNode rv rl rr rh) + 1))) as (n & E & A & B); [done|done|lia|lia|lia|]. unfold node. rewrite E. clear E.
        exists n. split_and!; [done|exact A|destruct (th rl =? th rr); lia|destruct (th rl =? th rr); lia|lia].
      * destruct (rotateRightLeft_spec v l rv rl rr rh (height (node v l (mkNode rv rl rr rh)))) as (n & -> & A & B); [done|done|lia|lia|lia|].
        exists n. split_and!; [done|exact A|lia|lia|lia].
    + destruct (node_spec v l r) as (A1 & A2 & A3); [done|done|lia..|]. exists (node v l r). split_and!; [done|by split|lia|lia|lia].
Qed.

Lemma min_value_spec n : n ≠ Nil → ∃ t rest, min_value n = Some t ∧ elems n = t :: rest.
Proof.
  induction n as [|v l IHl r IHr h]; [done|]. intros _. cbn. destruct l as [|lv ll lr lh].
  - by exists v, (elems r).
  - destruct IHl as (t & rest & -> & E); [done|]. cbn [elems] in *. rewrite E. by eexists _, _.
Qed.

Lemma deleteNode_spec value n :
  avl n → ordered (elems n) → th n <= 120 →
  ∃ n' deleted, deleteNode n value = Some (n', deleted) ∧ avl n' ∧ elems n' = list_delete value (elems n) ∧
    th n - 1 <= th n' <= th n ∧ length (elems n) = (length (elems n') + (if (deleted : bool) then 1 else 0))%nat.
Proof.
  revert value. induction n as [|v l IHl r IHr h]; intros value Ha Ho Hm.
  - exists Nil, false. cbn. split_and!; [done..|lia|lia|done].
  - cbn [avl th elems] in Ha, Ho, Hm. destruct Ha as (Hh & Hb & Hl & Hr). apply ordered_mid in Ho as (Ol & Or & Fl & Fr).
    cbn [deleteNode]. destruct (Comp_cases value v) as [[B C]|[[-> C]|[B C]]].
    + rewrite (proj2 (Z.ltb_lt _ _) C).
      destruct (IHl value) as (l' & deleted & -> & Al & El & Tl & Ll); [done|done|lia|]. cbn [mbind option_bind].
      destruct (balance_deleted_spec v l' r) as (n & -> & [An En] & Tn & Tn'); [done|done|lia..|].
      cbn [mbind option_bind]. exists n, deleted. split_and!; [done|done| |cbn [th]; lia|cbn [th]; lia|].
      * cbn [elems]. by rewrite list_delete_left, En, El.
      * cbn [elems]. rewrite En, !length_app, Ll. cbn. lia.
    + rewrite C. cbn [Z.ltb Z.compare]. destruct l as [|lv ll lr lh]; [|destruct r as [|rv rl rr rh]].
      * exists r, true. cbn [elems app th]. split_and!; [done|done| |pose proof (th_nonneg r); cbn in Hb; lia|cbn; pose proof (th_nonneg r); lia|cbn; lia].
        cbn. by rewrite C.
      * exists (mkNode lv ll lr lh), true. pose proof (th_nonneg ll). cbn [elems].
        split_and!; [done|done| |cbn [th] in *; lia|cbn [th] in *; lia|rewrite length_app; cbn; lia].
        rewrite list_delete_mid by done. by rewrite app_nil_r.
      * set (l := mkNode lv ll lr lh) in *. set (r := mkNode rv rl rr rh) in *.
        destruct (min_value_spec r) as (t & rest & -> & Et); [done|]. cbn [mbind option_bind].
        destruct (IHr t) as (r' & deleted & -> & Ar & Er & Tr & Lr); [done|done|lia|]. cbn [mbind option_bind].
        destruct (balance_deleted_spec t l r') as (n & -> & [An En] & Tn & Tn'); [done|done|lia..|].
        cbn [mbind option_bind]. rewrite Et in Er. cbn in Er. rewrite (proj2 (Comp_eq t t)) in Er by done. cbn in Er.
        exists n, true. split_and!; [done|done| |cbn [th]; lia|cbn [th]; lia|].
        -- cbn [elems]. rewrite En, Er. fold r. rewrite list_delete_mid by done. by rewrite Et.
        -- cbn [elems]. fold l. fold r. rewrite En, Er, Et, !length_app. cbn. lia.
    + rewrite (proj2 (Z.ltb_ge _ 0)), (proj2 (Z.ltb_lt _ _) C) by lia.
      destruct (IHr value) as (r' & deleted & -> & Ar & Er & Tr & Lr); [done|done|lia|]. cbn [mbind option_bind].
      destruct (balance_deleted_spec v l r') as (n & -> & [An En] & Tn & Tn'); [done|done|lia..|].
      cbn [mbind option_bind]. exists n, deleted. split_and!; [done|done| |cbn [th]; lia|cbn [th]; lia|].
      * cbn [elems]. rewrite list_delete_skip by (by apply (Forall_below_trans v)). cbn. rewrite (proj2 (Z.eqb_neq _ _)) by lia. by rewrite En, Er.
      * cbn [elems]. rewrite En, !length_app. cbn. rewrite Lr. lia.
Qed.

(** An AVL tree of height h has at least 2^(h/2) - 1 values. *)
Lemma avl_size n : avl n → 2 ^ (th n / 2) <= Z.of_nat (length (elems n)) + 1.
Proof.
  induction n as [|v l IHl r IHr h]; [done|]. cbn [avl]. intros (Hh & Hb & Hl & Hr). specialize (IHl Hl). specialize (IHr Hr).
  cbn [th elems]. rewrite length_app. cbn [length]. pose proof (th_nonneg l). pose proof (th_nonneg r).
  set (a := th l) in *. set (b := th r) in *.
  assert (E : (1 + Z.max a b) / 2 = 1 + (Z.max a b - 1) / 2) by (rewrite <- Z.div_add_l by lia; f_equal; lia).
  destruct (Z.eq_dec (Z.max a b) 0) as [e|e]; [rewrite e; change (2 ^ ((1 + 0) / 2)) with 1; lia|].
  rewrite E, Z.pow_add_r by (try apply Z.div_pos; lia). rewrite Z.pow_1_r.
  assert (2 ^ ((Z.max a b - 1) / 2) <= 2 ^ (a / 2)) by (apply Z.pow_le_mono_r; [lia|apply Z.div_le_mono; lia]).
  assert (2 ^ ((Z.max a b - 1) / 2) <= 2 ^ (b / 2)) by (apply Z.pow_le_mono_r; [lia|apply Z.div_le_mono; lia]). lia.
Qed.

Lemma avl_low n : avl n → Z.of_nat (length (elems n)) < 2 ^ 60 - 1 → th n <= 119.
Proof.
  intros Ha Hs. pose proof (avl_size n Ha). destruct (Z.le_gt_cases (th n) 119) as [?|Hh]; [done|].
  assert (2 ^ 60 <= 2 ^ (th n / 2)) by (apply Z.pow_le_mono_r; [lia|]; change 60 with (120 / 2); apply Z.div_le_mono; lia). lia.
Qed.
End laws.

(** ** The intervals of a stream *)

Record ByteInterval := mkIv { Start : Z; End : Z }.

Definition iv_Comp (i v : ByteInterval) : Z :=
  if Start i <? Start v then -1 else if Start v <? Start i then 1 else if End i <? End v then -1 else if End v <? End i then 1 else 0.
Definition iv_Match (i n : ByteInterval) : Z :=
  if (Start i <=? End n) && (Start n <=? End i) then 0 else if End n <? Start i then 1 else -1.

#[export] Instance byteInterval_val : Val ByteInterval := { Comp := iv_Comp; MatchC := iv_Match }.

Ltac iv_cases :=
  repeat match goal with
         | H : context [Z.ltb ?a ?b] |- _ => destruct (Z.ltb_spec a b)
         | |- context [Z.ltb ?a ?b] => destruct (Z.ltb_spec a b)
         end.

#[export] Instance byteInterval_laws : ValLaws ByteInterval.
Proof.
  split; cbn; unfold iv_Comp.
  - intros [a b] [c d]. cbn. iv_cases; split; intros E; try lia; try (injection E; lia). f_equal; lia.
  - intros [a b] [c d]. cbn. iv_cases; lia.
  - intros [a b] [c d] [e f]. cbn. iv_cases; lia.
Qed.

(** ** The tree refines the sorted list *)

Section refinement.
Context {T : Type} `{ValLaws T}.

Definition stands (t : Btree) (l : list T) : Prop :=
  avl (root t) ∧ elems (root t) = l ∧ ordered l ∧ tlen t = Z.of_nat (length l).

Lemma New_stands : stands (@New T) [].
Proof. by repeat split; constructor. Qed.

Lemma Insert_stands x t l :
  stands t l → Z.of_nat (length l) < 2 ^ 60 - 2 →
  ∃ t', Insert x t = Some t' ∧ stands t' (list_insert x l) ∧ (length (list_insert x l) <= S (length l))%nat.
Proof.
  intros (Ha & <- & Ho & Hn) Hs. pose proof (avl_low _ Ha ltac:(lia)).
  destruct (insert_spec x (root t)) as (n' & added & E & An & En & _ & _ & Ln); [done|done|lia|].
  unfold Insert. rewrite E. eexists. split; [done|]. rewrite <- En. split; [|destruct added; lia]. split_and!; [done|done| |].
  - rewrite En. by apply list_insert_ordered.
  - cbn [tlen root]. destruct added; lia.
Qed.

Lemma Delete_stands x t l :
  stands t l → Z.of_nat (length l) < 2 ^ 60 - 2 →
  ∃ t', Delete x t = Some t' ∧ stands t' (list_delete x l) ∧ (length (list_delete x l) <= length l)%nat.
Proof.
  intros (Ha & <- & Ho & Hn) Hs. pose proof (avl_low _ Ha ltac:(lia)).
  destruct (deleteNode_spec x (root t)) as (n' & deleted & E & An & En & _ & Ln); [done|done|lia|].
  unfold Delete. rewrite E. eexists. split; [done|]. rewrite <- En. split; [|destruct deleted; lia]. split_and!; [done|done| |].
  - rewrite En. by apply list_delete_ordered.
  - cbn [tlen root]. destruct deleted; lia.
Qed.

Lemma get_spec x (n : Node T) : ordered (elems n) → get_ n x = if decide (Exists (λ y, Comp x y = 0) (elems n)) then Some x else None.
Proof.
  induction n as [|v l IHl r IHr h]; cbn [get_ elems]; [done|]. intros (Ol & Or & Fl & Fr)%ordered_mid. rewrite !Forall_forall in Fl, Fr.
  destruct (Comp_cases x v) as [[B C]|[[-> C]|[B C]]].
  - rewrite (proj2 (Z.ltb_lt _ _) C), IHl by done. apply decide_ext. rewrite Exists_app, Exists_cons. split; [tauto|].
    intros [?|[?|(y & Hy & E)%Exists_exists]]; [done|lia|]. apply Comp_eq in E as <-. apply Fr in Hy. by apply below_asym in Hy.
  - rewrite C. cbn. rewrite decide_True; [done|]. rewrite Exists_app, Exists_cons. tauto.
  - rewrite (proj2 (Z.ltb_ge _ 0)), (proj2 (Z.ltb_lt _ _) C), IHr by (done || lia). apply decide_ext. rewrite Exists_app, Exists_cons. split; [tauto|].
    intros [(y & Hy & E)%Exists_exists|[?|?]]; [|lia|done]. apply Comp_eq in E as <-. apply Fl in Hy. by apply below_asym in Hy.
Qed.

Lemma Contains_stands x t l : stands t l → Contains x t = true ↔ x ∈ l.
Proof.
  intros (_ & <- & Ho & _). unfold Contains, Get. rewrite get_spec by done. case_decide as D.
  - split; [|done]. intros _. apply Exists_exists in D as (y & Hy & E). by apply Comp_eq in E as ->.
  - split; [done|]. intros Hx. destruct D. apply Exists_exists. exists x. split; [done|]. by apply Comp_eq.
Qed.

Lemma iterate_collect (n : Node T) i acc : iterate collect n i acc true = ((i + length (elems n))%nat, acc ++ elems n).
Proof.
  revert i acc. induction n as [|v l IHl r IHr h]; intros i acc; cbn [iterate elems].
  - by rewrite Nat.add_0_r, app_nil_r.
  - cbn [negb]. rewrite IHl. cbn [collect]. rewrite IHr. rewrite length_app, <- !app_assoc. cbn. f_equal. lia.
Qed.

Lemma Values_stands t l : stands t l → Values t = l.
Proof. intros (_ & <- & _ & _). unfold Values. by rewrite iterate_collect. Qed.

Lemma Head_stands t l : stands t l → Head t = head l.
Proof.
  intros (_ & <- & _ & _). unfold Head. destruct (root t) as [|v l r h] eqn:E; [done|].
  by destruct (min_value_spec (mkNode v l r h)) as (w & rest & -> & ->).
Qed.

Lemma max_value_spec (n : Node T) : max_value n = last (elems n).
Proof.
  induction n as [|v l IHl r IHr h]; [done|]. cbn [max_value elems]. destruct r as [|rv rl rr rh]; [cbn; by rewrite last_snoc|].
  rewrite IHr, last_app, last_cons. destruct (last (elems (mkNode rv rl rr rh))) eqn:E; [done|].
  apply last_None in E. cbn in E. by destruct (elems rl).
Qed.

Lemma Tail_stands t l : stands t l → Tail t = last l.
Proof. intros (_ & <- & _ & _). apply max_value_spec. Qed.

(** A sequence of changes of the tree and of the sorted list. *)
Inductive op := OpInsert (x : T) | OpDelete (x : T) | OpPull | OpPop.

Definition tree_step (o : op) (t : Btree) : option Btree :=
  match o with
  | OpInsert x => Insert x t
  | OpDelete x => Delete x t
  | OpPull => snd <$> Pull t
  | OpPop => snd <$> Pop t
  end.
Definition list_step (o : op) (l : list T) : list T :=
  match o with
  | OpInsert x => list_insert x l
  | OpDelete x => list_delete x l
  | OpPull => tail l
  | OpPop => removelast l
  end.

Fixpoint tree_run (os : list op) (t : Btree) : option Btree :=
  match os with [] => Some t | o :: os => match tree_step o t with Some t => tree_run os t | None => None end end.
Definition list_run (os : list op) (l : list T) : list T := fold_left (λ l o, list_step o l) os l.

Lemma list_delete_head v (l : list T) : list_delete v (v :: l) = l.
Proof. cbn. by rewrite (proj2 (Comp_eq v v)). Qed.

Lemma list_delete_last v (l : list T) : ordered (l ++ [v]) → list_delete v (l ++ [v]) = l.
Proof. intros (_ & _ & F & _)%ordered_mid. rewrite list_delete_mid by done. by rewrite app_nil_r. Qed.

Lemma step_stands o t l :
  stands t l → Z.of_nat (length l) < 2 ^ 60 - 2 →
  ∃ t', tree_step o t = Some t' ∧ stands t' (list_step o l) ∧ (length (list_step o l) <= S (length l))%nat.
Proof.
  intros Ht Hs. destruct o as [x|x| |]; cbn [tree_step list_step].
  - by apply Insert_stands.
  - destruct (Delete_stands x t l) as (t' & A & B & C); [done|done|]. exists t'. split_and!; [done|done|lia].
  - unfold Pull. rewrite (Head_stands t l) by done. destruct l as [|v l]; cbn; [by exists t; split_and!; [..|lia]|].
    destruct (Delete_stands v t (v :: l)) as (t' & -> & B & C); [done|done|]. rewrite list_delete_head in B. exists t'. split_and!; [done|done|lia].
  - unfold Pop. rewrite (Tail_stands t l) by done. destruct (last l) as [v|] eqn:E.
    + apply last_Some in E as [l' ->]. destruct (Delete_stands v t (l' ++ [v])) as (t' & -> & B & C); [done|done|].
      rewrite list_delete_last in B by apply Ht. rewrite removelast_last. exists t'. split_and!; [done|done|]. rewrite length_app. lia.
    + apply last_None in E as ->. exists t. by split_and!; [..|cbn; lia].
Qed.

(** C15: the balanced tree is the sorted list of its values. Whatever sequence of insertions, deletions, [Pull]s and [Pop]s is made
    of a tree that stands for a sorted list (fewer than 2^60 - 2 values at any time, so that no int8 height overflows), no nil
    pointer is followed, and the resulting tree has as its values - in order - exactly those of the list treated the same way; its
    length, its first and last value and its membership test are the list's, and it is balanced. *)
Theorem tree_refines_sorted_list os t l :
  stands t l → Z.of_nat (length l + length os) < 2 ^ 60 - 2 →
  ∃ t', tree_run os t = Some t' ∧ stands t' (list_run os l) ∧
    Values t' = list_run os l ∧ Len t' = Z.of_nat (length (list_run os l)) ∧
    Head t' = head (list_run os l) ∧ Tail t' = last (list_run os l) ∧
    (∀ x, Contains x t' = true ↔ x ∈ list_run os l).
Proof.
  revert t l. induction os as [|o os IH]; intros t l Ht Hs; cbn [tree_run list_run fold_left].
  - exists t. split_and!; [done|done|by apply Values_stands|apply Ht|by apply Head_stands|by apply Tail_stands|].
    intros x. by apply Contains_stands.
  - cbn [length] in Hs. destruct (step_stands o t l) as (t1 & -> & St & L); [done|lia|]. apply IH; [done|lia].
Qed.

(** ** The values that match *)

(** The values of the tree that match the condition are next to each other. *)
Definition convex (cond : T) (l : list T) : Prop :=
  ∀ a b, a ∈ l → b ∈ l → below a b →
    (MatchC b cond < 0 → MatchC a cond < 0) ∧ (0 < MatchC a cond → 0 < MatchC b cond).

Lemma filter_nomatch cond (l : list T) : Forall (λ a, MatchC a cond ≠ 0) l → filter (λ a, MatchC a cond = 0) l = [].
Proof. induction 1 as [|a l Ha _ IH]; [done|]. by rewrite filter_cons_False. Qed.

Lemma match_spec cond (n : Node T) :
  ordered (elems n) → convex cond (elems n) → match_ n cond = filter (λ a, MatchC a cond = 0) (elems n).
Proof.
  induction n as [|v l IHl r IHr h]; [done|]. cbn [match_ elems]. intros (Ol & Or & Fl & Fr)%ordered_mid Cv.
  assert (Cl : convex cond (elems l)) by (intros a b Ha Hb; apply Cv; set_solver).
  assert (Cr : convex cond (elems r)) by (intros a b Ha Hb; apply Cv; set_solver).
  rewrite filter_app, filter_cons, <- IHl, <- IHr by done. rewrite Forall_forall in Fl, Fr.
  destruct (Z.ltb_spec 0 (MatchC v cond)) as [C|C]; [|destruct (Z.ltb_spec (MatchC v cond) 0) as [D|D]].
  - rewrite decide_False by lia. rewrite (IHr Or Cr), filter_nomatch; [by rewrite app_nil_r|].
    apply Forall_forall. intros a Ha. destruct (Cv v a) as [_ X]; [set_solver|set_solver|by apply Fr|]. apply X in C. lia.
  - rewrite decide_False by lia. rewrite (IHl Ol Cl), filter_nomatch; [done|].
    apply Forall_forall. intros a Ha. destruct (Cv a v) as [X _]; [set_solver|set_solver|by apply Fl|]. apply X in D. lia.
  - by rewrite decide_True by lia.
Qed.

Lemma Match_stands cond t l : stands t l → convex cond l → Match_ cond t = filter (λ a, MatchC a cond = 0) l.
Proof. intros (_ & <- & Ho & _) C. by apply match_spec. Qed.
End refinement.
Arguments op : clear implicits.

(** ** Disjoint intervals *)

(** A list of proper intervals, apart from each other, ascending. *)
Definition apart (a b : ByteInterval) : Prop := End a < Start b.
Definition gaps_ok (l : list ByteInterval) : Prop := Forall (λ g, Start g < End g) l ∧ StronglySorted apart l.

Lemma apart_below a b : Start a < End a → apart a b → below a b.
Proof. unfold apart, below. cbn. unfold iv_Comp. intros. rewrite (proj2 (Z.ltb_lt _ _)) by lia. lia. Qed.

Lemma gaps_ok_ordered l : gaps_ok l → ordered l.
Proof.
  intros [F S]. induction S as [|a l S IH A]; [constructor|]. apply Forall_cons in F as [Fa F].
  constructor; [by apply IH|]. eapply Forall_impl; [exact A|]. intros b. by apply apart_below.
Qed.

Lemma gaps_ok_below l a b : gaps_ok l → a ∈ l → b ∈ l → below a b → apart a b.
Proof.
  intros [F S] Ha Hb B. induction S as [|c l S IH A]; [set_solver|]. apply Forall_cons in F as [Fc F]. rewrite Forall_forall in A, F.
  apply elem_of_cons in Ha as [->|Ha]; apply elem_of_cons in Hb as [->|Hb].
  - by apply below_irrefl in B.
  - by apply A.
  - apply A in Ha. apply (apart_below c a Fc) in Ha. by apply below_asym in Ha.
  - apply IH; [|done..]. by apply Forall_forall.
Qed.

Lemma gaps_convex cond l : gaps_ok l → convex cond l.
Proof.
  intros G a b Ha Hb B. pose proof (gaps_ok_below l a b G Ha Hb B) as A. destruct G as [F _]. rewrite Forall_forall in F.
  pose proof (F _ Ha). pose proof (F _ Hb). unfold apart in A. cbn. unfold iv_Match.
  destruct (Z.leb_spec (Start a) (End cond)), (Z.leb_spec (Start cond) (End a)), (Z.leb_spec (Start b) (End cond)), (Z.leb_spec (Start cond) (End b)); cbn;
    iv_cases; lia.
Qed.

Lemma iv_Match_0 i n : iv_Match i n = 0 ↔ Start i <= End n ∧ Start n <= End i.
Proof. unfold iv_Match. destruct (Z.leb_spec (Start i) (End n)), (Z.leb_spec (Start n) (End i)); cbn; iv_cases; lia. Qed.

(** The gaps that touch the interval, in ascending order. *)
Definition touching (n : ByteInterval) (l : list ByteInterval) : list ByteInterval := filter (λ g, iv_Match g n = 0) l.

Lemma Match_touching n t l : stands t l → gaps_ok l → Match_ n t = touching n l.
Proof. intros St G. rewrite (Match_stands n t l St); [done|]. by apply gaps_convex. Qed.

(** ** Traversals *)

Definition three : Btree :=
  mkBtree (mkNode (mkIv 30 40) (mkNode (mkIv 10 20) Nil Nil 1) (mkNode (mkIv 50 60) Nil (mkNode (mkIv 70 80) Nil Nil 1) 2) 3) 4.

Definition visit (stop : Z) (v : ByteInterval) (_ : nat) (seen : list Z) : list Z * bool := (seen ++ [Start v], negb (Start v =? stop)).

Lemma three_stands : stands three [mkIv 10 20; mkIv 30 40; mkIv 50 60; mkIv 70 80].
Proof. repeat split; cbn; try lia. repeat (constructor; [|repeat constructor]). constructor. Qed.

(** [Descend] is documented as a descending traversal: below the root it ascends. *)
Lemma descend_ascends : Descend (visit (-1)) [] three = [50; 70; 30; 10].
Proof. reflexivity. Qed.

(** A traversal is documented to continue as long as the iterator returns true: an answer of false is forgotten outside the right
    subtree of its node. *)
Lemma ascend_goes_on : Ascend (visit 10) [] three = [10; 30; 50; 70].
Proof. reflexivity. Qed.

Lemma tree_refines_sorted_list_witness :
  let os := [OpInsert (mkIv 5 6); OpInsert (mkIv 1 2); OpInsert (mkIv 3 4); OpDelete (mkIv 5 6); OpPop; OpInsert (mkIv 9 10); OpPull] in
  (stands (@New ByteInterval) [] ∧ Z.of_nat (0 + length os) < 2 ^ 60 - 2) ∧ list_run os [] = [mkIv 9 10] ∧
  ∃ t', tree_run os New = Some t' ∧ stands t' (list_run os []) ∧ Values t' = list_run os [] ∧ Len t' = Z.of_nat (length (list_run os [])) ∧
    Head t' = head (list_run os []) ∧ Tail t' = last (list_run os []) ∧ (∀ x, Contains x t' = true ↔ x ∈ list_run os []).
Proof.
  split; [split; [apply New_stands|cbn; lia]|]. split; [reflexivity|].
  apply (tree_refines_sorted_list [OpInsert (mkIv 5 6); OpInsert (mkIv 1 2); OpInsert (mkIv 3 4); OpDelete (mkIv 5 6); OpPop; OpInsert (mkIv 9 10); OpPull] New []);
    [apply New_stands|cbn; lia].
Defined.
