(* ===== verification/FrameSorter.v ===== *)
(** * Putting stream data in order ([quic-go/frame_sorter.go])

    STREAM and CRYPTO frames arrive in any order, overlapping, more than once. The
    sorter keeps the data not yet read in a map from the offset, the ranges not yet
    received in the tree of [GapTree], and hands the data out in order. Every frame
    comes with a callback that gives its buffer back. *)

From Stdlib Require Import ZArith Lia Bool Sorting.Sorted.
From stdpp Require Import base list sorting gmap.
From S2P Require Import Prelude.
From S2P Require Import GapTree.

Open Scope Z_scope.
Open Scope list_scope.

Definition MaxByteCount : Z := 2 ^ 62 - 1.
Definition MaxStreamFrameSorterGaps : Z := 20000.
Definition MinStreamFrameBufferSize : Z := 128.

(** ** The state *)

(** A callback is named by a number. *)
Record frameSorterEntry := mkEntry { Data : list Z; DoneCb : option nat }.

Definition dlen (e : frameSorterEntry) : Z := Z.of_nat (length (Data e)).

Record frameSorter := mkSorter { queue : gmap Z frameSorterEntry; readPos : Z; gapTree : @Btree ByteInterval }.
#[export] Instance frameSorter_eta : Eta frameSorter := λ s, mkSorter (queue s) (readPos s) (gapTree s).

Definition newFrameSorter : option frameSorter :=
  t ← Insert (mkIv 0 MaxByteCount) New;
  Some (mkSorter ∅ 0 t).

Inductive push_error := errDuplicateStreamData | errTooManyGaps.

(** What a push leaves: the sorter, its error, and the callbacks run, in order. *)
Record outcome := mkOut { after : frameSorter; err : option push_error; ran : list nat }.

Definition run_cb (cb : option nat) : list nat := match cb with Some c => [c] | None => [] end.

(** Slicing, [None] where the bound is not one of the data. *)
Definition slice_to (n : Z) (d : list Z) : option (list Z) :=
  if (0 <=? n) && (n <=? Z.of_nat (length d)) then Some (take (Z.to_nat n) d) else None.
Definition slice_from (n : Z) (d : list Z) : option (list Z) :=
  if (0 <=? n) && (n <=? Z.of_nat (length d)) then Some (drop (Z.to_nat n) d) else None.

(** ** The stages of [push] *)

(** The loop over the entries that start at [pos]: the entries that the new frame
    contains are dropped. *)
Record walk := mkWalk { w_queue : gmap Z frameSorterEntry; w_pos : Z; w_replaced : bool; w_cut : bool; w_ran : list nat }.

(** [Some None]: the frame is a duplicate; [None]: out of fuel. *)
Fixpoint replace_loop (fuel : nat) (q : gmap Z frameSorterEntry) (pos end_ : Z) (replaced : bool) (ran : list nat) : option (option walk) :=
  match fuel with
  | O => None
  | S fuel =>
      match q !! pos with
      | None => Some (Some (mkWalk q pos replaced false ran))
      | Some old =>
          let l := dlen old in
          if (l <? end_ - pos) || (replaced && (end_ - pos =? l))
          then replace_loop fuel (delete pos q) (pos + l) end_ true (ran ++ run_cb (DoneCb old))
          else if negb replaced then Some None
          else Some (Some (mkWalk q pos replaced true ran))
      end
  end.

(** Cut the frame such that it starts at the start of the gap. *)
Definition cut_start (startsInGap replaced : bool) (data : list Z) (start : Z) (sg : ByteInterval) : option (list Z * Z * bool) :=
  if negb startsInGap && negb replaced
  then data ← slice_from (Start sg - start) data; Some (data, Start sg, true)
  else Some (data, start, false).

(** The first gap; the flag is [adjustedStartGapEnd]. *)
Definition update_start (t : Btree) (sg : ByteInterval) (start end_ : Z) (replaced : bool) : option (Btree * bool) :=
  if start <=? Start sg then
    if End sg <=? end_ then t ← Delete sg t; Some (t, false)
    else t ← Delete sg t; t ← Insert (mkIv end_ (End sg)) t; Some (t, false)
  else if negb replaced then t ← Delete sg t; t ← Insert (mkIv (Start sg) start) t; Some (t, true)
  else Some (t, false).

Fixpoint delete_loop (fuel : nat) (q : gmap Z frameSorterEntry) (pos : Z) (ran : list nat) : option (gmap Z frameSorterEntry * list nat) :=
  match fuel with
  | O => None
  | S fuel =>
      match q !! pos with
      | None => Some (q, ran)
      | Some old => delete_loop fuel (delete pos q) (pos + dlen old) (ran ++ run_cb (DoneCb old))
      end
  end.
Definition deleteConsecutive (q : gmap Z frameSorterEntry) (pos : Z) (ran : list nat) : option (gmap Z frameSorterEntry * list nat) :=
  delete_loop (S (size q)) q pos ran.

(** The gaps between the first and the last. *)
Fixpoint delete_between (gaps : list ByteInterval) (endGapStart : Z) (q : gmap Z frameSorterEntry) (t : Btree) (ran : list nat)
  : option (gmap Z frameSorterEntry * Btree * list nat) :=
  match gaps with
  | [] => Some (q, t, ran)
  | g :: gaps =>
      if endGapStart <=? End g then Some (q, t, ran)
      else '(q, ran) ← deleteConsecutive q (End g) ran; t ← Delete g t; delete_between gaps endGapStart q t ran
  end.

Definition delete_covered (single : bool) (sg eg : ByteInterval) (rest : list ByteInterval) (q : gmap Z frameSorterEntry) (t : Btree) (ran : list nat)
  : option (gmap Z frameSorterEntry * Btree * list nat) :=
  if single then Some (q, t, ran)
  else '(q, ran) ← deleteConsecutive q (End sg) ran; delete_between rest (Start eg) q t ran.

(** Cut the frame such that it ends at the end of the gap. *)
Definition cut_end (endsInGap : bool) (data : list Z) (start end_ : Z) (eg : ByteInterval) : option (list Z * Z * bool) :=
  if negb endsInGap && negb (start =? End eg) && (End eg <? end_)
  then data ← slice_to (End eg - start) data; Some (data, End eg, true)
  else Some (data, end_, false).

(** The last gap. *)
Definition update_end (t : Btree) (single adjusted : bool) (sg eg : ByteInterval) (end_ : Z) : option Btree :=
  if end_ =? End eg then if negb single then Delete eg t else Some t
  else if single && adjusted then Insert (mkIv end_ (End sg)) t
  else if negb single then t ← Delete eg t; Insert (mkIv end_ (End eg)) t
  else Some t.

(** The end of [push]: small data that was cut is copied, and the buffer given back. *)
Definition store (s : frameSorter) (q : gmap Z frameSorterEntry) (t : Btree) (data : list Z) (start : Z) (wasCut : bool)
    (doneCb : option nat) (ran : list nat) : outcome :=
  let copied := wasCut && (Z.of_nat (length data) <? MinStreamFrameBufferSize) in
  let ran := if copied then ran ++ run_cb doneCb else ran in
  let doneCb := if copied then None else doneCb in
  if MaxStreamFrameSorterGaps <? Len t then mkOut (mkSorter q (readPos s) t) (Some errTooManyGaps) ran
  else mkOut (mkSorter (<[start := mkEntry data doneCb]> q) (readPos s) t) None ran.

Definition duplicate (s : frameSorter) : outcome := mkOut s (Some errDuplicateStreamData) [].

(** [push] after the loop over the entries. *)
Definition push_rest (s : frameSorter) (data : list Z) (start end_ : Z) (sg : ByteInterval) (rest : list ByteInterval) (w : walk)
    (doneCb : option nat) : option outcome :=
  let eg := List.last rest sg in
  let single := match rest with [] => true | _ => false end in
  let startsInGap := (Start sg <=? start) && (start <=? End sg) in
  let endsInGap := (Start eg <=? end_) && (end_ <? End eg) in
  data ← (if w_cut w then slice_to (w_pos w - start) data else Some data);
  let end_ := if w_cut w then w_pos w else end_ in
  '(data, start, cut1) ← cut_start startsInGap (w_replaced w) data start sg;
  '(t, adjusted) ← update_start (gapTree s) sg start end_ (w_replaced w);
  '(q, t, ran) ← delete_covered single sg eg rest (w_queue w) t (w_ran w);
  '(data, end_, cut2) ← cut_end endsInGap data start end_ eg;
  t ← update_end t single adjusted sg eg end_;
  Some (store s q t data start (w_cut w || cut1 || cut2) doneCb ran).

(** [None]: a bound of a slice is out of range, a nil pointer is followed, or the
    fuel of a loop (one more than the entries there are) does not suffice. *)
Definition push (s : frameSorter) (data : list Z) (offset : Z) (doneCb : option nat) : option outcome :=
  if (length data =? 0)%nat then Some (duplicate s)
  else
    let start := offset in
    let end_ := offset + Z.of_nat (length data) in
    match Match_ (mkIv start end_) (gapTree s) with
    | [] => Some (duplicate s)
    | sg :: rest =>
        let single := match rest with [] => true | _ => false end in
        if single && (end_ <=? Start sg) then Some (duplicate s)
        else
          w ← replace_loop (S (size (queue s))) (queue s) start end_ false [];
          match w with
          | None => Some (duplicate s)
          | Some w => push_rest s data start end_ sg rest w doneCb
          end
    end.

(** ** The operations *)

Definition Push (s : frameSorter) (data : list Z) (offset : Z) (doneCb : option nat) : option outcome :=
  o ← push s data offset doneCb;
  match err o with
  | Some errDuplicateStreamData => Some (mkOut (after o) None (ran o ++ run_cb doneCb))
  | _ => Some o
  end.

Definition Pop (s : frameSorter) : frameSorter * (Z * list Z * option nat) :=
  match queue s !! readPos s with
  | None => (s, (readPos s, [], None))
  | Some e => (s <| queue := delete (readPos s) (queue s) |> <| readPos := readPos s + dlen e |>, (readPos s, Data e, DoneCb e))
  end.

Definition HasMoreData (s : frameSorter) : bool := (0 <? size (queue s))%nat.

(** [Peek]: is there enough consecutive data? *)
Fixpoint peek_check (fuel : nat) (s : frameSorter) (pos remaining : Z) : option bool :=
  match fuel with
  | O => None
  | S fuel =>
      if remaining <=? 0 then Some true
      else match queue s !! pos with
           | None => Some false
           | Some e => if remaining <=? dlen e then Some true else peek_check fuel s (pos + dlen e) (remaining - dlen e)
           end
  end.

Fixpoint peek_copy (fuel : nat) (s : frameSorter) (pos remaining : Z) : option (list Z) :=
  match fuel with
  | O => None
  | S fuel =>
      if remaining <=? 0 then Some []
      else
        let d := default [] (Data <$> queue s !! pos) in
        rest ← peek_copy fuel s (pos + Z.of_nat (length d)) (remaining - Z.min remaining (Z.of_nat (length d)));
        Some (take (Z.to_nat remaining) d ++ rest)
  end.

(** The inner [None] is [errTooLittleData]; each round takes at least a byte. *)
Definition Peek (s : frameSorter) (offset : Z) (n : Z) : option (option (list Z)) :=
  if n =? 0 then Some (Some [])
  else
    ok ← peek_check (S (Z.to_nat n)) s offset n;
    if ok : bool then p ← peek_copy (S (Z.to_nat n)) s offset n; Some (Some p) else Some None.

Definition demo : option (list (Z * list Z * option nat) * list nat) :=
  s ← newFrameSorter;
  o1 ← Push s [4; 5] 4 (Some 1%nat);
  o2 ← Push (after o1) [0; 1; 2; 3; 4] 0 (Some 2%nat);
  o3 ← Push (after o2) [5; 6; 7; 8] 5 (Some 3%nat);
  let '(s, a) := Pop (after o3) in
  let '(s, b) := Pop s in
  let '(s, c) := Pop s in
  Some ([a; b; c], ran o1 ++ ran o2 ++ ran o3).

Lemma demo_run : demo = Some ([(0, [0; 1; 2; 3], None); (4, [4; 5], Some 1%nat); (6, [6; 7; 8], None)], [2; 3]%nat).
Proof. vm_compute. reflexivity. Qed.

(** ** Lists of gaps *)

Lemma gaps_ok_app l1 l2 : gaps_ok (l1 ++ l2) ↔ gaps_ok l1 ∧ gaps_ok l2 ∧ (∀ a b, a ∈ l1 → b ∈ l2 → apart a b).
Proof. unfold gaps_ok. rewrite Forall_app, StronglySorted_app. naive_solver. Qed.

Lemma gaps_ok_cons g l : gaps_ok (g :: l) ↔ Start g < End g ∧ gaps_ok l ∧ Forall (apart g) l.
Proof.
  unfold gaps_ok. rewrite Forall_cons. split.
  - intros [[A B] C]. apply StronglySorted_inv in C as [C D]. done.
  - intros (A & [B C] & D). split; [done|]. by constructor.
Qed.

Lemma gaps_ok_nil : gaps_ok [].
Proof. by split; constructor. Qed.

Lemma gaps_ok_one g : Start g < End g → gaps_ok [g].
Proof. intros H. apply gaps_ok_cons. split_and!; [done|apply gaps_ok_nil|constructor]. Qed.

Lemma gaps_ok_proper l g : gaps_ok l → g ∈ l → Start g < End g.
Proof. intros [F _] Hg. rewrite Forall_forall in F. by apply F. Qed.

Lemma gaps_total l a b : gaps_ok l → a ∈ l → b ∈ l → a = b ∨ apart a b ∨ apart b a.
Proof.
  intros G Ha Hb. destruct (Comp_cases a b) as [[B _]|[[-> _]|[B _]]]; [right; left|by left|right; right]; by eapply gaps_ok_below.
Qed.

(** What is around the gaps that a push changes, which are within [lo, hi]. *)
Record around (pre post : list ByteInterval) (lo hi : Z) : Prop := mkAround {
  ar_pre : gaps_ok pre;
  ar_post : gaps_ok post;
  ar_below : Forall (λ g, End g < lo) pre;
  ar_above : Forall (λ g, hi < Start g) post;
}.

Definition inside (lo hi : Z) (m : list ByteInterval) : Prop := Forall (λ g, lo <= Start g ∧ End g <= hi) m.

Lemma around_ok pre m post lo hi : around pre post lo hi → lo < hi → gaps_ok m → inside lo hi m → gaps_ok (pre ++ m ++ post).
Proof.
  intros [A B C D] Hlh M I. unfold inside in I. rewrite Forall_forall in C, D, I.
  apply gaps_ok_app. split_and!; [done|apply gaps_ok_app; split_and!; [done|done|]|].
  - intros a b Ha Hb. pose proof (I a Ha). pose proof (D b Hb). cbn in *. unfold apart. lia.
  - intros a b Ha [Hb|Hb]%elem_of_app; pose proof (C a Ha); [pose proof (I b Hb)|pose proof (D b Hb)]; cbn in *; unfold apart; lia.
Qed.

Lemma around_parts pre m post lo hi : around pre post lo hi → lo < hi → gaps_ok (pre ++ m ++ post) → gaps_ok m.
Proof. intros _ _ G. apply gaps_ok_app in G as (_ & G & _). by apply gaps_ok_app in G as (G & _). Qed.

Lemma list_insert_before {T} `{ValLaws T} (x : T) l1 l2 : Forall (below x) l2 → list_insert x (l1 ++ l2) = list_insert x l1 ++ l2.
Proof.
  intros F. induction l1 as [|y l1 IH]; cbn.
  - destruct l2 as [|z l2]; [done|]. cbn. apply Forall_cons in F as [B _]. unfold below in B. by rewrite (proj2 (Z.ltb_lt _ _) B).
  - destruct (Comp x y <? 0); [done|]. destruct (0 <? Comp x y); [by rewrite IH|done].
Qed.

Lemma list_delete_before {T} `{ValLaws T} (x : T) l1 l2 : Forall (below x) l2 → list_delete x (l1 ++ l2) = list_delete x l1 ++ l2.
Proof.
  intros F. induction l1 as [|y l1 IH]; cbn [app].
  - by rewrite list_delete_all.
  - cbn. destruct (Comp x y =? 0); [done|]. by rewrite IH.
Qed.

Section framed.
Context {pre post : list ByteInterval} {lo hi : Z} (HA : around pre post lo hi).

Lemma pre_below x : lo <= Start x → Forall (λ a, below a x) pre.
Proof.
  intros Hx. apply Forall_forall. intros a Ha. pose proof (gaps_ok_proper _ _ (ar_pre _ _ _ _ HA) Ha) as Hp.
  pose proof (ar_below _ _ _ _ HA) as F. rewrite Forall_forall in F. specialize (F _ Ha). cbn in F. apply apart_below; [done|]. unfold apart. lia.
Qed.

Lemma post_above x : Start x < End x → End x <= hi → Forall (below x) post.
Proof.
  intros Hp Hx. apply Forall_forall. intros a Ha. pose proof (ar_above _ _ _ _ HA) as F. rewrite Forall_forall in F. specialize (F _ Ha). cbn in F.
  apply apart_below; [done|]. unfold apart. lia.
Qed.

Lemma Insert_framed x t m :
  stands t (pre ++ m ++ post) → Z.of_nat (length (pre ++ m ++ post)) <= 20010 → lo <= Start x → Start x < End x → End x <= hi →
  ∃ t', Insert x t = Some t' ∧ stands t' (pre ++ list_insert x m ++ post).
Proof.
  intros St Hs H1 H2 H3. destruct (Insert_stands x t _ St) as (t' & E & St' & _); [lia|]. exists t'. split; [done|].
  rewrite list_insert_skip, list_insert_before in St' by (by apply pre_below || by apply post_above). done.
Qed.

Lemma Delete_framed x t m :
  stands t (pre ++ m ++ post) → Z.of_nat (length (pre ++ m ++ post)) <= 20010 → lo <= Start x → Start x < End x → End x <= hi →
  ∃ t', Delete x t = Some t' ∧ stands t' (pre ++ list_delete x m ++ post).
Proof.
  intros St Hs H1 H2 H3. destruct (Delete_stands x t _ St) as (t' & E & St' & _); [lia|]. exists t'. split; [done|].
  rewrite list_delete_skip, list_delete_before in St' by (by apply pre_below || by apply post_above). done.
Qed.
End framed.

(** The gaps that touch an interval are consecutive. *)
Lemma touching_split n l :
  gaps_ok l → Start n <= End n →
  ∃ pre post, l = pre ++ touching n l ++ post ∧ Forall (λ g, End g < Start n) pre ∧ Forall (λ g, End n < Start g) post.
Proof.
  intros G Hn. induction l as [|g l IH]; [by exists [], []|]. apply gaps_ok_cons in G as (Hp & G & A). rewrite Forall_forall in A.
  destruct (IH G) as (pre & post & E & F1 & F2). unfold touching. rewrite filter_cons. fold (touching n l).
  destruct (decide (iv_Match g n = 0)) as [M|M]; rewrite iv_Match_0 in M.
  - exists [], post. destruct pre as [|h pre]; [split_and!; [|done|done]; by rewrite E at 1|]. exfalso.
    apply Forall_cons in F1 as [F1 _]. assert (Hh : h ∈ l) by (rewrite E; set_solver). pose proof (A _ Hh) as Ah. pose proof (gaps_ok_proper _ _ G Hh). unfold apart in Ah. lia.
  - destruct (Z.lt_ge_cases (End g) (Start n)) as [B|B].
    + exists (g :: pre), post. split_and!; [cbn; f_equal; exact E|by constructor|done].
    + assert (C : Forall (λ h, End n < Start h) l).
      { apply Forall_forall. intros h Hh. apply A in Hh. unfold apart in Hh. lia. }
      assert (D : touching n l = []).
      { unfold touching. clear E IH A. induction C as [|h l0 Hh _ IH]; [done|]. rewrite filter_cons_False; [|rewrite iv_Match_0; lia].
        apply IH. by apply gaps_ok_cons in G as (_ & G & _). }
      exists [], (g :: l). rewrite D. split_and!; [done|done|]. constructor; [lia|done].
Qed.

(** ** The state's invariant *)

Definition in_gap (gl : list ByteInterval) (p : Z) : Prop := ∃ g, g ∈ gl ∧ Start g <= p < End g.
Definition queued (q : gmap Z frameSorterEntry) (p : Z) : Prop := ∃ o e, q !! o = Some e ∧ o <= p < o + dlen e.

(** Between the position read and the end of the stream, every position is either in
    a gap or in exactly one entry. *)
Record coherent (q : gmap Z frameSorterEntry) (rp : Z) (gl : list ByteInterval) : Prop := mkCoherent {
  co_gaps : gaps_ok gl;
  co_range : ∀ g, g ∈ gl → rp <= Start g ∧ End g <= MaxByteCount;
  co_entry : ∀ o e, q !! o = Some e → 0 < dlen e ∧ rp <= o ∧ o + dlen e <= MaxByteCount;
  co_sep : ∀ o1 e1 o2 e2, q !! o1 = Some e1 → q !! o2 = Some e2 → o1 < o2 → o1 + dlen e1 <= o2;
  co_gapfree : ∀ o e g, q !! o = Some e → g ∈ gl → o + dlen e <= Start g ∨ End g <= o;
  co_cover : ∀ p, rp <= p < MaxByteCount → queued q p ∨ in_gap gl p;
}.

(** The entries at offsets from [a] up to [b] are gone. *)
Definition minus (q0 : gmap Z frameSorterEntry) (a b : Z) (q : gmap Z frameSorterEntry) : Prop :=
  ∀ o, q !! o = if decide (a <= o < b) then None else q0 !! o.

Section coherent.
Context {q0 : gmap Z frameSorterEntry} {rp : Z} {gl : list ByteInterval} (HC : coherent q0 rp gl).

Lemma co_proper g : g ∈ gl → Start g < End g.
Proof. apply gaps_ok_proper. apply HC. Qed.

(** Data received starts where a gap ends, ... *)
Lemma entry_at_gap_end g : g ∈ gl → End g < MaxByteCount → ∃ e, q0 !! End g = Some e.
Proof.
  intros Hg Hm. pose proof (co_proper g Hg) as Hp. pose proof (co_range _ _ _ HC g Hg) as Hr.
  destruct (co_cover _ _ _ HC (End g)) as [(o & e & E & Ho)|(g' & Hg' & Hi)]; [lia|..].
  - destruct (co_gapfree _ _ _ HC o e g E Hg) as [?|?]; [lia|]. replace (End g) with o by lia. by exists e.
  - exfalso. destruct (gaps_total gl g g' (co_gaps _ _ _ HC) Hg Hg') as [->|[A|A]]; unfold apart in *; lia.
Qed.

(** ... the next entry or a gap starts where an entry ends, ... *)
Lemma after_entry o e :
  q0 !! o = Some e → o + dlen e < MaxByteCount → (∃ e', q0 !! (o + dlen e) = Some e') ∨ (∃ g, g ∈ gl ∧ Start g = o + dlen e).
Proof.
  intros E Hm. destruct (co_entry _ _ _ HC o e E) as (Hl & Hr & _).
  destruct (co_cover _ _ _ HC (o + dlen e)) as [(o' & e' & E' & Ho)|(g & Hg & Hi)]; [lia|..].
  - left. destruct (Z.lt_trichotomy o' o) as [L|[->|L]].
    + pose proof (co_sep _ _ _ HC _ _ _ _ E' E L). lia.
    + simplify_eq. lia.
    + pose proof (co_sep _ _ _ HC _ _ _ _ E E' L). replace (o + dlen e) with o' by lia. by exists e'.
  - right. exists g. split; [done|]. destruct (co_gapfree _ _ _ HC o e g E Hg); lia.
Qed.

(** ... and no entry starts in a gap. *)
Lemma no_entry_in_gap g p : g ∈ gl → Start g <= p < End g → q0 !! p = None.
Proof.
  intros Hg Hp. destruct (q0 !! p) as [e|] eqn:E; [|done]. exfalso.
  destruct (co_entry _ _ _ HC p e E) as (Hl & _). destruct (co_gapfree _ _ _ HC p e g E Hg); lia.
Qed.

(** ** The loops over the entries *)

Lemma size_delete_lt (q : gmap Z frameSorterEntry) p e : q !! p = Some e → S (size (delete p q)) = size q.
Proof. intros E. rewrite <- (insert_delete_id q p e E) at 2. by rewrite map_size_insert_None by apply lookup_delete_eq. Qed.

Lemma minus_step a p e q :
  q0 !! p = Some e → a <= p → minus q0 a p q → minus q0 a (p + dlen e) (delete p q).
Proof.
  intros E Ha M o. destruct (co_entry _ _ _ HC p e E) as (Hl & _). destruct (decide (o = p)) as [->|n].
  - rewrite lookup_delete_eq. rewrite decide_True by lia. done.
  - rewrite lookup_delete_ne by done. rewrite M. destruct (decide (a <= o < p)) as [d|d].
    + by rewrite decide_True by lia.
    + destruct (decide (a <= o < p + dlen e)); [|done]. destruct (q0 !! o) as [e'|] eqn:E'; [|done].
      pose proof (co_sep _ _ _ HC p e o e' E E' ltac:(lia)). lia.
Qed.

Lemma minus_refl a : minus q0 a a q0.
Proof. intros o. by rewrite decide_False by lia. Qed.

(** The entries that the new frame [S, E) contains are dropped. *)
Lemma replace_loop_spec fuel S E q pos rep rn :
  (size q < fuel)%nat → minus q0 S pos q → S <= pos <= E → rep = (S <? pos) →
  (pos = S ∨ ∃ o e, q0 !! o = Some e ∧ S <= o ∧ o + dlen e = pos) →
  (∀ g, g ∈ gl → S < pos → Start g < pos → End g <= S) →
  (pos = S ∨ ∃ e, q0 !! S = Some e) →
  (∃ e, replace_loop fuel q pos E rep rn = Some None ∧ pos = S ∧ q0 !! S = Some e ∧ E - S <= dlen e) ∨
  (∃ w, replace_loop fuel q pos E rep rn = Some (Some w) ∧
    minus q0 S (w_pos w) (w_queue w) ∧ S <= w_pos w <= E ∧ w_replaced w = (S <? w_pos w) ∧
    (w_pos w = S ∨ ∃ o e, q0 !! o = Some e ∧ S <= o ∧ o + dlen e = w_pos w) ∧
    (∀ g, g ∈ gl → S < w_pos w → Start g < w_pos w → End g <= S) ∧
    (w_pos w = S ∨ ∃ e, q0 !! S = Some e) ∧
    if w_cut w then S < w_pos w ∧ ∃ e, q0 !! w_pos w = Some e ∧ E - w_pos w < dlen e else q0 !! w_pos w = None).
Proof.
  revert q pos rep rn. induction fuel as [|fuel IH]; intros q pos rep rn Hf M Hp -> Hb Hg Hs; [lia|].
  assert (Eq : q !! pos = q0 !! pos) by (rewrite M; by rewrite decide_False by lia).
  cbn [replace_loop]. rewrite Eq. destruct (q0 !! pos) as [e|] eqn:E0; cbn zeta.
  2:{ right. eexists. split; [reflexivity|]. cbn. split_and!; try done; lia. }
  destruct (co_entry _ _ _ HC pos e E0) as (Hl & _).
  destruct (Z.ltb_spec (dlen e) (E - pos)) as [C|C]; [|destruct (Z.ltb_spec S pos) as [D|D]; [destruct (Z.eqb_spec (E - pos) (dlen e)) as [F|F]|]]; cbn.
  1, 2: destruct (IH (delete pos q) (pos + dlen e) true (rn ++ run_cb (DoneCb e))) as [(e' & _ & ? & _)|R];
    [pose proof (size_delete_lt q pos e ltac:(congruence)); lia|apply minus_step; [done|lia|done]|lia|by rewrite (proj2 (Z.ltb_lt _ _)) by lia
    |right; exists pos, e; split_and!; [done|lia|done]|
    |right; destruct Hs as [<-|?]; [by exists e|done]|lia|by right];
    (intros g Hin _ Hb'; destruct (co_gapfree _ _ _ HC pos e g E0 Hin) as [?|?]; [lia|];
     destruct (decide (pos = S)) as [->|?]; [lia|apply Hg; [done|lia|]; pose proof (co_proper g Hin); lia]).
  - right. eexists. split; [reflexivity|]. cbn. split_and!; [done|lia|lia|by rewrite (proj2 (Z.ltb_lt _ _))|done|done|done|lia|]. exists e. split; [done|lia].
  - left. exists e. assert (pos = S) as -> by lia. split_and!; [done|done|done|lia].
Qed.

(** The entries from one gap's end to the next gap's start are dropped. *)
Lemma delete_between_loop_spec fuel a b gb q pos rn :
  (size q < fuel)%nat → gb ∈ gl → Start gb = b → a <= pos <= b → (∀ g, g ∈ gl → Start g < b → End g <= a) →
  (∀ o, pos <= o < b → q !! o = q0 !! o) → q !! b = None → (pos = b ∨ ∃ e, q0 !! pos = Some e) →
  ∃ q' rn', delete_loop fuel q pos rn = Some (q', rn') ∧ ∀ o, q' !! o = if decide (pos <= o < b) then None else q !! o.
Proof.
  revert q pos rn. induction fuel as [|fuel IH]; intros q pos rn Hf Hgb Eb Hp Hg Ha Hb Hs; [lia|]. cbn [delete_loop].
  destruct (decide (pos = b)) as [->|n].
  { rewrite Hb. exists q, rn. split; [done|]. intros o. by rewrite decide_False by lia. }
  destruct Hs as [?|[e E0]]; [done|]. rewrite Ha, E0 by lia. destruct (co_entry _ _ _ HC pos e E0) as (Hl & _ & Hm).
  pose proof (co_proper gb Hgb). pose proof (co_range _ _ _ HC gb Hgb).
  destruct (co_gapfree _ _ _ HC pos e gb E0 Hgb) as [Hx|Hx]; [|lia].
  destruct (IH (delete pos q) (pos + dlen e) (rn ++ run_cb (DoneCb e))) as (q' & rn' & R & L).
  - pose proof (size_delete_lt q pos e ltac:(rewrite Ha by lia; done)). lia.
  - done.
  - done.
  - lia.
  - done.
  - intros o Ho. rewrite lookup_delete_ne by lia. apply Ha. lia.
  - rewrite lookup_delete_ne by lia. done.
  - destruct (decide (pos + dlen e = b)) as [?|?]; [by left|]. right.
    destruct (after_entry pos e E0) as [?|(g & Hin & Hs)]; [lia|done|]. exfalso. pose proof (co_proper g Hin).
    pose proof (Hg g Hin ltac:(lia)). lia.
  - exists q', rn'. split; [done|]. intros o. rewrite L. destruct (decide (o = pos)) as [->|?].
    + rewrite lookup_delete_eq. rewrite (decide_True (P := pos <= pos < b)) by lia. by destruct (decide _).
    + rewrite lookup_delete_ne by done. destruct (decide (pos <= o < b)).
      * destruct (decide (pos + dlen e <= o < b)); [done|]. rewrite Ha by lia. destruct (q0 !! o) as [e'|] eqn:E'; [|done].
        pose proof (co_sep _ _ _ HC pos e o e' E0 E' ltac:(lia)). lia.
      * by rewrite decide_False by lia.
Qed.
(** The first gap after another. *)
Lemma next_gap A lg nxt B g : gl = A ++ lg :: nxt :: B → g ∈ gl → Start g < Start nxt → End g <= End lg.
Proof.
  intros E Hg Hs. pose proof (co_gaps _ _ _ HC) as G. rewrite E in G, Hg. apply gaps_ok_app in G as (_ & G & X).
  apply gaps_ok_cons in G as (P1 & G & X1). apply gaps_ok_cons in G as (P2 & G & X2). rewrite Forall_forall in X1, X2.
  apply elem_of_app in Hg as [Hg|[->|[->|Hg]%elem_of_cons]%elem_of_cons]; [|lia|lia|].
  - pose proof (X g lg Hg ltac:(by left)). unfold apart in *. lia.
  - pose proof (X2 g Hg). unfold apart in *. lia.
Qed.

Lemma deleteConsecutive_step A lg nxt B q rn :
  gl = A ++ lg :: nxt :: B →
  (∀ o, End lg <= o < Start nxt → q !! o = q0 !! o) ∨ (∀ o, End lg <= o < Start nxt → q !! o = None) →
  q !! Start nxt = None →
  ∃ q' rn', deleteConsecutive q (End lg) rn = Some (q', rn') ∧ ∀ o, q' !! o = if decide (End lg <= o < Start nxt) then None else q !! o.
Proof.
  intros E Hq Hn. assert (H1 : lg ∈ gl) by (rewrite E; set_solver). assert (H2 : nxt ∈ gl) by (rewrite E; set_solver).
  assert (Ha : apart lg nxt).
  { pose proof (co_gaps _ _ _ HC) as G. rewrite E in G. apply gaps_ok_app in G as (_ & G & _). apply gaps_ok_cons in G as (_ & _ & G). by apply Forall_cons in G as [G _]. }
  unfold apart in Ha. pose proof (co_range _ _ _ HC nxt H2). pose proof (co_proper nxt H2). unfold deleteConsecutive. destruct Hq as [Hq|Hq].
  - apply (delete_between_loop_spec _ (End lg) (Start nxt) nxt); [lia|done|done|lia|intros g; by apply (next_gap A lg nxt B g)|done|done|].
    right. apply entry_at_gap_end; [done|lia].
  - cbn [delete_loop]. rewrite Hq by lia. exists q, rn. split; [done|]. intros o. destruct (decide _); [|done]. by apply Hq.
Qed.

Lemma delete_between_spec pre post eg mids : ∀ A lg L lo hi q t rn,
  gl = A ++ lg :: mids ++ eg :: post → around pre post lo hi → inside lo hi (mids ++ [eg]) →
  stands t (pre ++ (L ++ mids ++ [eg]) ++ post) → Z.of_nat (length (pre ++ (L ++ mids ++ [eg]) ++ post)) <= 20010 →
  (∀ a m, a ∈ L → m ∈ mids → below a m) →
  (∀ o, End lg <= o < Start (hd eg mids) → q !! o = q0 !! o) ∨ (∀ o, End lg <= o < Start (hd eg mids) → q !! o = None) →
  (∀ o, Start (hd eg mids) <= o → q !! o = q0 !! o) →
  ∃ q' t' rn', ('(q, ran) ← deleteConsecutive q (End lg) rn; delete_between (mids ++ [eg]) (Start eg) q t ran) = Some (q', t', rn') ∧
    (∀ o, q' !! o = if decide (End lg <= o < Start eg) then None else q !! o) ∧ stands t' (pre ++ (L ++ [eg]) ++ post).
Proof.
  induction mids as [|m mids IH]; intros A lg L lo hi q t rn E HA HI St Hs HL Hq Hr.
  - cbn [app hd] in *. destruct (deleteConsecutive_step A lg eg post q rn) as (q' & rn' & R & M); [done|done| |].
    { rewrite Hr by lia. apply (no_entry_in_gap eg); [rewrite E; set_solver|]. pose proof (co_proper eg ltac:(rewrite E; set_solver)). lia. }
    rewrite R. cbn. pose proof (co_proper eg ltac:(rewrite E; set_solver)). rewrite (proj2 (Z.leb_le _ _)) by lia. by exists q', t, rn'.
  - cbn [app hd] in *. destruct (deleteConsecutive_step A lg m (mids ++ eg :: post) q rn) as (q1 & rn1 & R & M); [done|done| |].
    { rewrite Hr by lia. apply (no_entry_in_gap m); [rewrite E; set_solver|]. pose proof (co_proper m ltac:(rewrite E; set_solver)). lia. }
    rewrite R. cbn [mbind option_bind delete_between].
    pose proof (co_proper m ltac:(rewrite E; set_solver)) as Pm. pose proof (co_proper eg ltac:(rewrite E; set_solver)) as Pe.
    pose proof (co_gaps _ _ _ HC) as G. rewrite E in G. apply gaps_ok_app in G as (_ & G & _). apply gaps_ok_cons in G as (Pl & G & F).
    apply Forall_cons in F as [F1 F2]. pose proof G as G'. apply gaps_ok_cons in G as (_ & G & F3). rewrite Forall_forall in F2, F3.
    pose proof (F3 eg ltac:(set_solver)) as Ame. unfold apart in F1, Ame. rewrite (proj2 (Z.leb_gt _ _)) by lia.
    inversion HI as [|? ? Im HI' EQ]. destruct (Delete_framed HA m t (L ++ m :: mids ++ [eg])) as (t1 & D & St1); [done|done|lia|done|lia|].
    rewrite list_delete_mid in St1 by (apply Forall_forall; intros a Ha; apply HL; set_solver).
    destruct (IH (A ++ [lg]) m L lo hi q1 t1 rn1) as (q' & t' & rn' & R' & M' & St').
    + by rewrite <- app_assoc.
    + done.
    + done.
    + done.
    + revert Hs. rewrite !length_app. cbn. rewrite !length_app. cbn. lia.
    + intros a b Ha Hb. apply HL; set_solver.
    + left. intros o Ho. rewrite M, decide_False by lia. apply Hr. lia.
    + intros o Ho. assert (Start m < Start (hd eg mids)).
      { destruct mids as [|m2 mids]; cbn; [lia|]. pose proof (F3 m2 ltac:(set_solver)). unfold apart in *. lia. }
      rewrite M, decide_False by lia. apply Hr. lia.
    + exists q', t', rn'. split_and!; [|intros o|done].
      * destruct (deleteConsecutive q1 (End m) rn1) as [[q2 rn2]|]; [|done]. cbn in R' |- *. rewrite D. cbn. exact R'.
      * rewrite M', M. destruct (decide (End m <= o < Start eg)); [by rewrite decide_True by lia|].
        destruct (decide (End lg <= o < Start m)); [by rewrite decide_True by lia|]. destruct (decide (End lg <= o < Start eg)); [|done].
        rewrite Hr by lia. apply (no_entry_in_gap m); [rewrite E; set_solver|lia].
Qed.
End coherent.

(** ** The cuts of the data *)

Definition zdrop (n : Z) (d : list Z) : list Z := drop (Z.to_nat n) d.
Definition ztake (n : Z) (d : list Z) : list Z := take (Z.to_nat n) d.

Lemma slice_from_ok n d : 0 <= n <= Z.of_nat (length d) → slice_from n d = Some (zdrop n d).
Proof. intros Hn. unfold slice_from. rewrite (proj2 (Z.leb_le _ _)), (proj2 (Z.leb_le _ _)) by lia. done. Qed.
Lemma slice_to_ok n d : 0 <= n <= Z.of_nat (length d) → slice_to n d = Some (ztake n d).
Proof. intros Hn. unfold slice_to. rewrite (proj2 (Z.leb_le _ _)), (proj2 (Z.leb_le _ _)) by lia. done. Qed.
Lemma ztake_all n d : Z.of_nat (length d) <= n → ztake n d = d.
Proof. intros Hn. apply take_ge. lia. Qed.
Lemma length_zdrop n d : 0 <= n <= Z.of_nat (length d) → Z.of_nat (length (zdrop n d)) = Z.of_nat (length d) - n.
Proof. intros Hn. unfold zdrop. rewrite length_drop. lia. Qed.

Lemma cut_start_spec sig rep data S sg :
  (sig || rep = false → S <= Start sg <= S + Z.of_nat (length data)) →
  let s' := if sig || rep then S else Start sg in
  cut_start sig rep data S sg = Some (zdrop (s' - S) data, s', negb (sig || rep)).
Proof.
  intros H. unfold cut_start. destruct sig, rep; cbn in *; try (by rewrite Z.sub_diag).
  specialize (H eq_refl). rewrite slice_from_ok by lia. done.
Qed.

Lemma cut_end_spec endsInGap data s' E eg :
  Z.of_nat (length data) = E - s' → s' <= E →
  let c := negb endsInGap && negb (s' =? End eg) && (End eg <? E) in
  (c = true → s' <= End eg) →
  let e' := if c then End eg else E in
  cut_end endsInGap data s' E eg = Some (ztake (e' - s') data, e', c).
Proof.
  intros Hl Hs c Hc e'. unfold cut_end. fold c. unfold e'. destruct c eqn:Ec.
  - unfold c in Ec. bool_hyps. specialize (Hc eq_refl). rewrite slice_to_ok by lia. done.
  - by rewrite ztake_all by lia.
Qed.

(** ** The callbacks *)

(** The callbacks of the entries in the queue. *)
Definition held (q : gmap Z frameSorterEntry) : list nat := map_to_list q ≫= λ x, run_cb (DoneCb x.2).

Lemma held_delete q p e : q !! p = Some e → run_cb (DoneCb e) ++ held (delete p q) ≡ₚ held q.
Proof. intros E. unfold held. by rewrite <- (map_to_list_delete q p e E). Qed.

Lemma held_insert q p e : q !! p = None → held (<[p := e]> q) ≡ₚ run_cb (DoneCb e) ++ held q.
Proof. intros E. unfold held. by rewrite map_to_list_insert. Qed.

(** The loops run the callbacks of the entries they drop. *)
Lemma replace_loop_held fuel q pos E rep rn w :
  replace_loop fuel q pos E rep rn = Some (Some w) → w_ran w ++ held (w_queue w) ≡ₚ rn ++ held q.
Proof.
  revert q pos rep rn. induction fuel as [|fuel IH]; intros q pos rep rn; [done|]. cbn [replace_loop].
  destruct (q !! pos) as [e|] eqn:E0; cbn zeta; [|by intros [= <-]].
  destruct ((dlen e <? E - pos) || _).
  - intros H%IH. rewrite H, <- app_assoc. by rewrite held_delete.
  - destruct (negb rep); [done|]. by intros [= <-].
Qed.

Lemma delete_loop_held fuel q pos rn q' rn' : delete_loop fuel q pos rn = Some (q', rn') → rn' ++ held q' ≡ₚ rn ++ held q.
Proof.
  revert q pos rn. induction fuel as [|fuel IH]; intros q pos rn; [done|]. cbn [delete_loop].
  destruct (q !! pos) as [e|] eqn:E0; [|by intros [= <- <-]]. intros H%IH. rewrite H, <- app_assoc. by rewrite held_delete.
Qed.

Lemma delete_between_held gaps egs q t rn q' t' rn' :
  delete_between gaps egs q t rn = Some (q', t', rn') → rn' ++ held q' ≡ₚ rn ++ held q.
Proof.
  revert q t rn. induction gaps as [|g gaps IH]; intros q t rn; cbn [delete_between]; [by intros [= <- <- <-]|].
  destruct (egs <=? End g); [by intros [= <- <- <-]|]. unfold deleteConsecutive.
  destruct (delete_loop _ q (End g) rn) as [[q1 r1]|] eqn:E1; [|done]. cbn. destruct (Delete g t) as [t1|]; [|done]. cbn.
  intros H%IH. rewrite H. by eapply delete_loop_held.
Qed.

Lemma delete_covered_held single sg eg rest q t rn q' t' rn' :
  delete_covered single sg eg rest q t rn = Some (q', t', rn') → rn' ++ held q' ≡ₚ rn ++ held q.
Proof.
  unfold delete_covered. destruct single; [by intros [= <- <- <-]|]. unfold deleteConsecutive.
  destruct (delete_loop _ q (End sg) rn) as [[q1 r1]|] eqn:E1; [|done]. cbn. intros H%delete_between_held. rewrite H. by eapply delete_loop_held.
Qed.

(** ** What a push does *)

Lemma in_gap_nil p : in_gap [] p ↔ False.
Proof. unfold in_gap. set_solver. Qed.
Lemma in_gap_cons g l p : in_gap (g :: l) p ↔ (Start g <= p < End g) ∨ in_gap l p.
Proof. unfold in_gap. setoid_rewrite elem_of_cons. naive_solver. Qed.
Lemma in_gap_app l1 l2 p : in_gap (l1 ++ l2) p ↔ in_gap l1 p ∨ in_gap l2 p.
Proof. unfold in_gap. setoid_rewrite elem_of_app. naive_solver. Qed.

(** The gaps without [s', e'). *)
Definition placed (gl gl' : list ByteInterval) (s' e' : Z) : Prop :=
  gaps_ok gl' ∧ ∀ p, in_gap gl' p ↔ in_gap gl p ∧ ¬ (s' <= p < e').

Lemma placed_around pre post m m' S E s' e' lo hi :
  around pre post lo hi → Forall (λ g, End g < S) pre → Forall (λ g, E < Start g) post → S <= s' → e' <= E → lo < hi →
  gaps_ok m' → inside lo hi m' → (∀ p, in_gap m' p ↔ in_gap m p ∧ ¬ (s' <= p < e')) →
  placed (pre ++ m ++ post) (pre ++ m' ++ post) s' e'.
Proof.
  intros HA F1 F2 Hs He Hlh G I Hm. split; [by apply (around_ok _ _ _ lo hi)|]. rewrite Forall_forall in F1, F2.
  intros p. rewrite !in_gap_app, Hm. split; [|tauto]. intros [(g & Hg & Hp)|[?|(g & Hg & Hp)]]; [|tauto|].
  - pose proof (F1 g Hg). split; [left; by exists g|lia].
  - pose proof (F2 g Hg). split; [right; right; by exists g|lia].
Qed.

(** The new entry takes the place [s', e') of the frame's range [S, E). *)
Record pushed (s : frameSorter) (gl : list ByteInterval) (S E : Z) (q' : gmap Z frameSorterEntry) (gl' : list ByteInterval) (s' e' : Z) : Prop := mkPushed {
  pu_minus : minus (queue s) s' e' q';
  pu_placed : placed gl gl' s' e';
  pu_bounds : S <= s' ∧ s' < e' ∧ e' <= E;
  pu_from : readPos s <= s';
  pu_left : ∀ o e, queue s !! o = Some e → o < s' → o + dlen e <= s';
  pu_right : ∀ o e, queue s !! o = Some e → s' <= o < e' → o + dlen e <= e';
  pu_new : ∀ p, S <= p < E → in_gap gl p → s' <= p < e';
  pu_len : (length gl' <= Datatypes.S (length gl))%nat;
}.

(** What the loop over the entries leaves. *)
Record walked (q0 : gmap Z frameSorterEntry) (gl : list ByteInterval) (S E : Z) (w : walk) : Prop := mkWalked {
  wk_minus : minus q0 S (w_pos w) (w_queue w);
  wk_pos : S <= w_pos w <= E;
  wk_replaced : w_replaced w = (S <? w_pos w);
  wk_edge : w_pos w = S ∨ ∃ o e, q0 !! o = Some e ∧ S <= o ∧ o + dlen e = w_pos w;
  wk_nogap : ∀ g, g ∈ gl → S < w_pos w → Start g < w_pos w → End g <= S;
  wk_first : w_pos w = S ∨ ∃ e, q0 !! S = Some e;
  wk_end : if w_cut w then S < w_pos w ∧ ∃ e, q0 !! w_pos w = Some e ∧ E - w_pos w < dlen e else q0 !! w_pos w = None;
}.

Section pushes.
Context {s : frameSorter} {gl : list ByteInterval} (HC : coherent (queue s) (readPos s) gl) (HT : stands (gapTree s) gl)
        (HN : Z.of_nat (length gl) <= MaxStreamFrameSorterGaps).
Context {S E : Z} (HSE : S < E) (HE : E <= MaxByteCount) (HR : 0 <= S) {w : walk} (HW : walked (queue s) gl S E w)
        {data : list Z} (HD : Z.of_nat (length data) = E - S) {pre post : list ByteInterval}
        (Hpre : Forall (λ g, End g < S) pre) (Hpost : Forall (λ g, E < Start g) post).

(** The loop stops at the start of a gap, at the end of the frame, or at an entry. *)
Lemma walk_stops : w_cut w = false → S < w_pos w < E → ∃ g, g ∈ gl ∧ Start g = w_pos w.
Proof.
  intros Ec Hw. pose proof (wk_end _ _ _ _ _ HW) as He. rewrite Ec in He.
  destruct (wk_edge _ _ _ _ _ HW) as [?|(o & e & E0 & Ho & Eo)]; [lia|].
  destruct (after_entry HC o e E0) as [(e' & E')|(g & Hg & Hs)]; [lia|rewrite Eo in E'; congruence|].
  exists g. split; [done|lia].
Qed.

Lemma walk_cut_gap g : w_cut w = true → g ∈ gl → Start g < E → End g <= S ∨ E <= Start g.
Proof.
  intros Ec Hg Hs. pose proof (wk_end _ _ _ _ _ HW) as He. rewrite Ec in He. destruct He as (Hp & e & E0 & Hl).
  destruct (co_gapfree _ _ _ HC _ e g E0 Hg) as [?|?]; [right; lia|]. left. apply (wk_nogap _ _ _ _ _ HW); [done|done|]. pose proof (co_proper HC g Hg). lia.
Qed.

Lemma edge_left_gap g : g ∈ gl → ∀ o e s', Start g <= s' <= End g → queue s !! o = Some e → o < s' → o + dlen e <= s'.
Proof. intros Hg o e s' Hs E0 Ho. destruct (co_gapfree _ _ _ HC o e g E0 Hg); lia. Qed.

Lemma edge_left_entry : S < w_pos w → ∀ o e, queue s !! o = Some e → o < S → o + dlen e <= S.
Proof.
  intros Hw o e E0 Ho. destruct (wk_first _ _ _ _ _ HW) as [?|(e' & E')]; [lia|]. by apply (co_sep _ _ _ HC o e S e').
Qed.

Lemma from_ok s' : (∃ g, g ∈ gl ∧ Start g <= s') ∨ (S < w_pos w ∧ S <= s') → readPos s <= s'.
Proof.
  intros [(g & Hg & Hs)|[Hw Hs]].
  - pose proof (co_range _ _ _ HC g Hg). lia.
  - destruct (wk_first _ _ _ _ _ HW) as [?|(e & E0)]; [lia|]. pose proof (co_entry _ _ _ HC S e E0). lia.
Qed.

Lemma around_touching m : gl = pre ++ m ++ post → ∀ lo hi, (∀ g, g ∈ pre → End g < lo) → (∀ g, g ∈ post → hi < Start g) → around pre post lo hi.
Proof.
  intros Eg lo hi A B. pose proof (co_gaps _ _ _ HC) as G. rewrite Eg in G. apply gaps_ok_app in G as (G1 & G & _). apply gaps_ok_app in G as (_ & G2 & _).
  split; [done|done|by apply Forall_forall|by apply Forall_forall].
Qed.
Lemma cut_data (a b c : Z) : 0 <= a → a + b <= c → ztake b (zdrop a (ztake c data)) = ztake b (zdrop a data).
Proof. intros Ha Hb. unfold ztake, zdrop. rewrite skipn_firstn_comm, firstn_firstn. f_equal. lia. Qed.

(** The stages put together; [stop w] is the end of the frame after the loop. *)
Definition stop (w : walk) : Z := if w_cut w then w_pos w else E.

Lemma stop_range : S <= stop w <= E.
Proof. pose proof (wk_pos _ _ _ _ _ HW). unfold stop. destruct (w_cut w); lia. Qed.

Lemma push_rest_calc sg rest cb s' e' t1 adj q t2 rn t3 :
  let eg := List.last rest sg in
  let single := match rest with [] => true | _ => false end in
  s' = (if ((Start sg <=? S) && (S <=? End sg)) || w_replaced w then S else Start sg) → S <= s' <= stop w →
  e' = (if negb ((Start eg <=? E) && (E <? End eg)) && negb (s' =? End eg) && (End eg <? stop w) then End eg else stop w) → s' <= e' <= stop w →
  update_start (gapTree s) sg s' (stop w) (w_replaced w) = Some (t1, adj) →
  delete_covered single sg eg rest (w_queue w) t1 (w_ran w) = Some (q, t2, rn) →
  update_end t2 single adj sg eg e' = Some t3 →
  ∃ cut, push_rest s data S E sg rest w cb = Some (store s q t3 (ztake (e' - s') (zdrop (s' - S) data)) s' cut cb rn).
Proof.
  intros eg single Es Hs Ee He U1 U2 U3. unfold push_rest. fold eg single. pose proof stop_range as Hst.
  assert (Ed : (if w_cut w then slice_to (w_pos w - S) data else Some data) = Some (ztake (stop w - S) data)).
  { unfold stop in *. destruct (w_cut w); [by rewrite slice_to_ok by lia|by rewrite ztake_all by lia]. }
  rewrite Ed. cbn [mbind option_bind]. fold (stop w).
  assert (Ld : Z.of_nat (length (ztake (stop w - S) data)) = stop w - S) by (unfold ztake; rewrite length_take; lia).
  rewrite cut_start_spec, <- Es; [|rewrite Ld; intros X; rewrite X in Es; lia]. cbn [mbind option_bind]. rewrite U1. cbn [mbind option_bind]. rewrite U2.
  cbn [mbind option_bind]. rewrite cut_end_spec, <- Ee; [|rewrite length_zdrop by lia; lia|lia|].
  - cbn [mbind option_bind]. rewrite U3. cbn [mbind option_bind]. rewrite cut_data by lia. by eexists.
  - intros Hc. rewrite Hc in Ee. lia.
Qed.

Lemma edges_around sg mid : gl = pre ++ (sg :: mid) ++ post → ∀ eg, eg = List.last mid sg →
  (∀ g, g ∈ pre → End g < Start sg) ∧ (∀ g, g ∈ post → End eg < Start g).
Proof.
  intros Eg eg Ee. pose proof (co_gaps _ _ _ HC) as G. rewrite Eg in G. apply gaps_ok_app in G as (_ & G & X). apply gaps_ok_app in G as (_ & _ & Y).
  split; intros g Hg.
  - specialize (X g sg Hg ltac:(set_solver)). done.
  - assert (He : eg ∈ sg :: mid).
    { subst eg. destruct mid as [|m mid _] using rev_ind; [set_solver|]. rewrite List.last_last. set_solver. }
    specialize (Y eg g He Hg). done.
Qed.
(** A push that goes through. *)
Definition goes_through (sg : ByteInterval) (rest : list ByteInterval) (cb : option nat) : Prop :=
  ∃ q' gl' t' s' e' cut rn,
    push_rest s data S E sg rest w cb = Some (store s q' t' (ztake (e' - s') (zdrop (s' - S) data)) s' cut cb rn) ∧
    stands t' gl' ∧ pushed s gl S E q' gl' s' e' ∧ rn ++ held q' ≡ₚ w_ran w ++ held (w_queue w).

(** The entries dropped by the loop, and those that cannot be there, are those of the new entry's place. *)
Lemma minus_widen s' e' :
  s' <= e' → (S < w_pos w → s' <= S ∧ w_pos w <= e') →
  (∀ o, s' <= o < e' → ¬ (S <= o < w_pos w) → queue s !! o = None) →
  minus (queue s) s' e' (w_queue w).
Proof.
  intros Hse Hw Hn o. rewrite (wk_minus _ _ _ _ _ HW o). pose proof (wk_pos _ _ _ _ _ HW).
  destruct (decide (S <= o < w_pos w)).
  - by rewrite decide_True by lia.
  - destruct (decide (s' <= o < e')); [|done]. by apply Hn.
Qed.

Lemma touched_only sg g : gl = pre ++ [sg] ++ post → g ∈ gl → S <= Start g <= E → g = sg.
Proof.
  intros Eg Hg Hp. pose proof (co_proper HC g Hg). pose proof Hpre as F1. pose proof Hpost as F2. rewrite Forall_forall in F1, F2.
  rewrite Eg in Hg. apply elem_of_app in Hg as [Hg|[->|Hg]%elem_of_cons].
  - specialize (F1 g Hg). cbn in F1. lia.
  - done.
  - specialize (F2 g Hg). cbn in F2. lia.
Qed.

(** The positions of the frame not received so far are in the gaps it touches. *)
Lemma new_inside p m : gl = pre ++ m ++ post → S <= p < E → in_gap gl p → in_gap m p.
Proof.
  intros Eg Hp. rewrite Eg, !in_gap_app. pose proof Hpre as F1. pose proof Hpost as F2. rewrite Forall_forall in F1, F2.
  intros [(g & Hg & Hpg)|[?|(g & Hg & Hpg)]]; [specialize (F1 g Hg); cbn in F1; lia|done|specialize (F2 g Hg); cbn in F2; lia].
Qed.

(** One gap is touched, and the new entry starts at or before it. *)
Lemma single_low sg cb :
  gl = pre ++ [sg] ++ post → S <= End sg → Start sg < E → S <= Start sg → w_pos w <= Start sg → goes_through sg [] cb.
Proof.
  intros Eg Hz Hy Hlow HP. assert (Hsg : sg ∈ gl) by (rewrite Eg; set_solver). pose proof (co_proper HC sg Hsg) as Py.
  destruct (edges_around sg [] Eg sg eq_refl) as [A1 A2]. pose proof (around_touching [sg] Eg (Start sg) (End sg) A1 A2) as HA.
  pose proof (wk_pos _ _ _ _ _ HW) as Wp. pose proof (wk_replaced _ _ _ _ _ HW) as Wr.
  assert (Wc : w_cut w = false).
  { destruct (w_cut w) eqn:Ec; [|done]. destruct (walk_cut_gap sg Ec Hsg Hy); [|lia]. lia. }
  assert (Es : stop w = E) by (unfold stop; by rewrite Wc).
  assert (WP : S < w_pos w → w_pos w = Start sg).
  { intros Hw. destruct (walk_stops Wc ltac:(lia)) as (g & Hg & Eq). rewrite (touched_only sg g) in Eq; [done|done|done|lia]. }
  set (s' := if S <? w_pos w then S else Start sg). set (e' := if End sg <=? E then End sg else E).
  assert (Hs' : S <= s' <= Start sg) by (unfold s'; destruct (S <? w_pos w); lia).
  assert (He' : Start sg < e' ∧ e' <= End sg ∧ e' <= E) by (unfold e'; destruct (Z.leb_spec (End sg) E); lia).
  assert (HT1 : stands (gapTree s) (pre ++ [sg] ++ post)) by (by rewrite <- Eg).
  destruct (Delete_framed HA sg (gapTree s) [sg]) as (t1 & D & St1); [done|rewrite <- Eg; unfold MaxStreamFrameSorterGaps in HN; lia|lia..|].
  rewrite list_delete_head in St1.
  set (m' := if End sg <=? E then [] else [mkIv E (End sg)]).
  assert (U1 : ∃ t2, update_start (gapTree s) sg s' (stop w) (w_replaced w) = Some (t2, false) ∧ stands t2 (pre ++ m' ++ post)).
  { unfold update_start. rewrite Es, (proj2 (Z.leb_le s' _)) by lia. rewrite D. unfold m'. destruct (Z.leb_spec (End sg) E); cbn [mbind option_bind].
    - by exists t1.
    - destruct (Insert_framed HA (mkIv E (End sg)) t1 []) as (t2 & I & St2); [done| |cbn; lia..|].
      + unfold MaxStreamFrameSorterGaps in HN. rewrite Eg in HN. revert HN. rewrite !length_app. cbn. lia.
      + rewrite I. cbn. by exists t2. }
  destruct U1 as (t2 & U1 & St2).
  destruct (push_rest_calc sg [] cb s' e' t2 false (w_queue w) t2 (w_ran w) t2) as (cut & PR).
  - rewrite Wr. unfold s'. destruct (Z.ltb_spec S (w_pos w)) as [?|?]; [by rewrite orb_true_r|].
    destruct (Z.leb_spec (Start sg) S), (Z.leb_spec S (End sg)); cbn; lia.
  - rewrite Es. lia.
  - cbn [List.last]. rewrite Es. unfold e'. rewrite (proj2 (Z.eqb_neq s' (End sg))) by lia. rewrite (proj2 (Z.leb_le (Start sg) E)) by lia.
    destruct (Z.ltb_spec E (End sg)), (Z.ltb_spec (End sg) E), (Z.leb_spec (End sg) E); cbn; lia.
  - rewrite Es. lia.
  - done.
  - done.
  - unfold update_end. cbn. by destruct (e' =? End sg).
  - exists (w_queue w), (pre ++ m' ++ post), t2, s', e', cut, (w_ran w). split; [done|]. split; [done|]. split; [|done]. split.
    + apply minus_widen; [lia|unfold s'; destruct (Z.ltb_spec S (w_pos w)); [rewrite WP by done; lia|lia]|].
      intros o Ho Hn. apply (no_entry_in_gap HC sg); [done|]. unfold s' in Ho. destruct (Z.ltb_spec S (w_pos w)); [rewrite WP in Hn by done; lia|lia].
    + rewrite Eg. apply (placed_around _ _ _ _ S E _ _ (Start sg) (End sg)); [done|done|done|lia|lia|done| | |].
      * unfold m'. destruct (Z.leb_spec (End sg) E); [apply gaps_ok_nil|]. apply gaps_ok_one. cbn. lia.
      * unfold m'. destruct (Z.leb_spec (End sg) E); repeat constructor; cbn; lia.
      * intros p. unfold m', e'. rewrite in_gap_cons. destruct (Z.leb_spec (End sg) E); rewrite ?in_gap_cons, !in_gap_nil; cbn; lia.
    + lia.
    + apply from_ok. unfold s'. destruct (Z.ltb_spec S (w_pos w)); [right; lia|left; exists sg; split; [done|lia]].
    + intros o e E0 Ho. unfold s' in *. destruct (Z.ltb_spec S (w_pos w)); [by eapply edge_left_entry|]. apply (edge_left_gap sg Hsg o e); [lia|done|done].
    + intros o e E0 Ho. destruct (co_gapfree _ _ _ HC o e sg E0 Hsg); lia.
    + intros p Hp Hg. apply (new_inside p [sg] Eg Hp) in Hg. rewrite in_gap_cons, in_gap_nil in Hg.
      unfold e'. destruct (Z.leb_spec (End sg) E); lia.
    + rewrite Eg, !length_app. unfold m'. destruct (End sg <=? E); cbn; lia.
Qed.
(** One gap is touched, and the frame starts inside it. *)
Lemma single_mid sg cb :
  gl = pre ++ [sg] ++ post → Start sg < S → S < End sg → w_pos w = S → goes_through sg [] cb.
Proof.
  intros Eg Hy Hz HP. assert (Hsg : sg ∈ gl) by (rewrite Eg; set_solver).
  destruct (edges_around sg [] Eg sg eq_refl) as [A1 A2]. pose proof (around_touching [sg] Eg (Start sg) (End sg) A1 A2) as HA.
  pose proof (wk_replaced _ _ _ _ _ HW) as Wr. rewrite HP, Z.ltb_irrefl in Wr.
  assert (Wc : w_cut w = false).
  { destruct (w_cut w) eqn:Ec; [|done]. pose proof (wk_end _ _ _ _ _ HW) as He. rewrite Ec in He. lia. }
  assert (Es : stop w = E) by (unfold stop; by rewrite Wc).
  set (e' := if End sg <=? E then End sg else E).
  assert (He' : S < e' ∧ e' <= End sg ∧ e' <= E) by (unfold e'; destruct (Z.leb_spec (End sg) E); lia).
  assert (HT1 : stands (gapTree s) (pre ++ [sg] ++ post)) by (by rewrite <- Eg).
  assert (HN1 : Z.of_nat (length (pre ++ [sg] ++ post)) <= 20000) by (rewrite <- Eg; done). rewrite !length_app in HN1. cbn in HN1.
  destruct (Delete_framed HA sg (gapTree s) [sg]) as (t1 & D & St1); [done|rewrite !length_app; cbn; lia|lia..|].
  rewrite list_delete_head in St1.
  destruct (Insert_framed HA (mkIv (Start sg) S) t1 []) as (t2 & I & St2); [done|rewrite !length_app; cbn; lia|cbn; lia..|].
  cbn [list_insert] in St2.
  set (m' := mkIv (Start sg) S :: (if End sg <=? E then [] else [mkIv E (End sg)])).
  assert (U3 : ∃ t3, update_end t2 true true sg sg e' = Some t3 ∧ stands t3 (pre ++ m' ++ post)).
  { unfold update_end, m', e'. cbn [negb andb]. destruct (Z.leb_spec (End sg) E).
    - rewrite Z.eqb_refl. by exists t2.
    - rewrite (proj2 (Z.eqb_neq E (End sg))) by lia.
      destruct (Insert_framed HA (mkIv E (End sg)) t2 [mkIv (Start sg) S]) as (t3 & I3 & St3); [done|rewrite !length_app; cbn; lia|cbn; lia..|].
      exists t3. split; [done|]. rewrite (list_insert_skip (mkIv E (End sg)) [mkIv (Start sg) S] []) in St3; [done|].
      constructor; [|constructor]. apply apart_below; unfold apart; cbn; lia. }
  destruct U3 as (t3 & U3 & St3).
  destruct (push_rest_calc sg [] cb S e' t2 true (w_queue w) t2 (w_ran w) t3) as (cut & PR).
  - rewrite (proj2 (Z.leb_le (Start sg) S)), (proj2 (Z.leb_le S (End sg))) by lia. done.
  - rewrite Es. lia.
  - cbn [List.last]. rewrite Es. unfold e'. rewrite (proj2 (Z.eqb_neq S (End sg))) by lia. rewrite (proj2 (Z.leb_le (Start sg) E)) by lia.
    destruct (Z.ltb_spec E (End sg)), (Z.ltb_spec (End sg) E), (Z.leb_spec (End sg) E); cbn; lia.
  - rewrite Es. lia.
  - unfold update_start. rewrite (proj2 (Z.leb_gt S (Start sg))) by lia. rewrite Wr. cbn [negb]. rewrite D. cbn [mbind option_bind]. by rewrite I.
  - done.
  - done.
  - exists (w_queue w), (pre ++ m' ++ post), t3, S, e', cut, (w_ran w). split; [done|]. split; [done|]. split; [|done]. split.
    + apply minus_widen; [lia|lia|]. intros o Ho _. apply (no_entry_in_gap HC sg); [done|lia].
    + rewrite Eg. apply (placed_around _ _ _ _ S E _ _ (Start sg) (End sg)); [done|done|done|lia|lia|lia| | |].
      * unfold m'. destruct (Z.leb_spec (End sg) E); apply gaps_ok_cons; split_and!; cbn; [lia|by split; constructor|constructor|lia| |].
        -- apply gaps_ok_one. cbn. lia.
        -- constructor; [unfold apart; cbn; lia|constructor].
      * unfold m'. destruct (Z.leb_spec (End sg) E); repeat constructor; cbn; lia.
      * intros p. unfold m', e'. rewrite !in_gap_cons. destruct (Z.leb_spec (End sg) E); rewrite ?in_gap_cons, !in_gap_nil; cbn; lia.
    + lia.
    + apply from_ok. left. exists sg. split; [done|lia].
    + intros o e E0 Ho. apply (edge_left_gap sg Hsg o e); [lia|done|done].
    + intros o e E0 Ho. destruct (co_gapfree _ _ _ HC o e sg E0 Hsg); lia.
    + intros p Hp Hg. apply (new_inside p [sg] Eg Hp) in Hg. rewrite in_gap_cons, in_gap_nil in Hg.
      unfold e'. destruct (Z.leb_spec (End sg) E); lia.
    + rewrite Eg, !length_app. unfold m'. destruct (End sg <=? E); cbn; lia.
Qed.

(** One gap is touched, and the frame starts where it ends: the frame takes the place of the entries it contains. *)
Lemma single_end sg cb : gl = pre ++ [sg] ++ post → S = End sg → S < w_pos w → goes_through sg [] cb.
Proof.
  intros Eg Hz HP. assert (Hsg : sg ∈ gl) by (rewrite Eg; set_solver). pose proof (co_proper HC sg Hsg) as Py.
  pose proof (wk_pos _ _ _ _ _ HW) as Wp. pose proof (wk_replaced _ _ _ _ _ HW) as Wr. rewrite (proj2 (Z.ltb_lt _ _) HP) in Wr.
  assert (Es : stop w = w_pos w).
  { unfold stop. destruct (w_cut w) eqn:Ec; [done|]. destruct (Z.eq_dec (w_pos w) E); [done|].
    destruct (walk_stops Ec ltac:(lia)) as (g & Hg & Eq). rewrite (touched_only sg g) in Eq; [lia|done|done|lia]. }
  destruct (push_rest_calc sg [] cb S (w_pos w) (gapTree s) false (w_queue w) (gapTree s) (w_ran w) (gapTree s)) as (cut & PR).
  - by rewrite Wr, orb_true_r.
  - lia.
  - cbn [List.last]. rewrite Es, Hz, Z.eqb_refl. cbn. by rewrite andb_false_r.
  - lia.
  - unfold update_start. rewrite (proj2 (Z.leb_gt S (Start sg))) by lia. by rewrite Wr.
  - done.
  - unfold update_end. cbn [List.last]. rewrite (proj2 (Z.eqb_neq _ _)) by lia. done.
  - exists (w_queue w), gl, (gapTree s), S, (w_pos w), cut, (w_ran w). split; [done|]. split; [done|]. split; [|done]. split.
    + apply minus_widen; [lia|lia|]. intros o Ho Hn. lia.
    + split; [apply HC|]. intros p. split; [|tauto]. intros Hp. split; [done|]. intros Hpp. destruct Hp as (g & Hg & Hpg).
      pose proof (wk_nogap _ _ _ _ _ HW g Hg). lia.
    + lia.
    + apply from_ok. left. exists sg. split; [done|lia].
    + by apply edge_left_entry.
    + intros o e E0 Ho. destruct (wk_edge _ _ _ _ _ HW) as [?|(o2 & e2 & E2 & Ho2 & Eo)]; [lia|].
      destruct (Z.lt_trichotomy o o2) as [L|[->|L]].
      * pose proof (co_sep _ _ _ HC _ _ _ _ E0 E2 L). destruct (co_entry _ _ _ HC _ _ E2). lia.
      * simplify_eq. lia.
      * pose proof (co_sep _ _ _ HC _ _ _ _ E2 E0 L). lia.
    + intros p Hp Hg. apply (new_inside p [sg] Eg Hp) in Hg. rewrite in_gap_cons, in_gap_nil in Hg. lia.
    + lia.
Qed.
(** Several gaps are touched: where the new entry starts, and what is left of the first gap. *)
Record started (sg nxt : ByteInterval) (m : list ByteInterval) (s' : Z) (t1 : Btree) (adj : bool) (left : list ByteInterval) : Prop := mkStarted {
  st_form : s' = (if ((Start sg <=? S) && (S <=? End sg)) || w_replaced w then S else Start sg);
  st_update : update_start (gapTree s) sg s' E (w_replaced w) = Some (t1, adj);
  st_stop : stop w = E;
  st_tree : stands t1 (pre ++ (left ++ m) ++ post);
  st_range : S <= s' <= End sg ∧ w_pos w <= Start nxt;
  st_walk : S < w_pos w → s' = S;
  st_agree : w_pos w <= End sg ∨ (w_pos w = Start nxt ∧ S = End sg);
  st_gap : ∀ o, s' <= o < End sg → ¬ (S <= o < w_pos w) → Start sg <= o;
  st_left : gaps_ok left ∧ (∀ a, a ∈ left → Start sg <= Start a ∧ End a <= s') ∧ (length left <= 1)%nat;
  st_points : ∀ p, in_gap left p ↔ Start sg <= p < End sg ∧ p < s';
  st_from : readPos s <= s';
  st_edge : ∀ o e, queue s !! o = Some e → o < s' → o + dlen e <= s';
  st_new : ∀ p, S <= p → Start sg <= p < End sg → s' <= p;
}.

Lemma multi_start sg nxt B :
  gl = pre ++ sg :: nxt :: B ++ post → S <= End sg → Start nxt <= E → End nxt <= End (List.last B nxt) →
  ∃ s' t1 adj left, started sg nxt (nxt :: B) s' t1 adj left.
Proof.
  intros Eg Hz Hn Hlast. assert (Hsg : sg ∈ gl) by (rewrite Eg; set_solver). assert (Hnx : nxt ∈ gl) by (rewrite Eg; set_solver).
  pose proof (co_proper HC sg Hsg) as Py. pose proof (co_proper HC nxt Hnx) as Pn.
  pose proof (co_gaps _ _ _ HC) as G. rewrite Eg in G. apply gaps_ok_app in G as (_ & G & _). apply gaps_ok_cons in G as (_ & G & F).
  apply Forall_cons in F as [An _]. unfold apart in An.
  assert (Eg' : gl = pre ++ (sg :: nxt :: B) ++ post) by done.
  destruct (edges_around sg (nxt :: B) Eg' _ eq_refl) as [A1 A2]. pose proof (around_touching _ Eg' _ _ A1 A2) as HA.
  assert (Hl : End nxt <= End (List.last (nxt :: B) sg)).
  { clear -Hlast. destruct B as [|b B]; [cbn; lia|]. replace (List.last (nxt :: b :: B) sg) with (List.last (b :: B) nxt); [done|]. clear. revert b nxt sg. induction B as [|c B IH]; [done|]. intros. cbn in *. apply (IH c nxt sg). }
  revert HA Hl. generalize (End (List.last (nxt :: B) sg)). clear A1 A2. intros hi HA Hl.
  pose proof (wk_pos _ _ _ _ _ HW) as Wp. pose proof (wk_replaced _ _ _ _ _ HW) as Wr. pose proof (wk_end _ _ _ _ _ HW) as We.
  assert (HT1 : stands (gapTree s) (pre ++ (sg :: nxt :: B) ++ post)) by (by rewrite <- Eg').
  assert (HN1 : Z.of_nat (length (pre ++ (sg :: nxt :: B) ++ post)) <= 20000) by (rewrite <- Eg'; done).
  destruct (Delete_framed HA sg (gapTree s) (sg :: nxt :: B)) as (t1 & D & St1); [done|lia|lia|done|lia|]. rewrite list_delete_head in St1.
  assert (Hnext : ∀ g, g ∈ gl → Start g < Start nxt → End g <= End sg) by (intros g; by apply (next_gap HC pre sg nxt (B ++ post) g)).
  assert (Ec : w_cut w = false).
  { destruct (w_cut w) eqn:Ec; [|done]. destruct We as (Hp & e & E0 & He). destruct (co_gapfree _ _ _ HC _ e nxt E0 Hnx) as [?|?]; [lia|].
    pose proof (wk_nogap _ _ _ _ _ HW nxt Hnx). lia. }
  rewrite Ec in We. assert (Es : stop w = E) by (unfold stop; by rewrite Ec).
  destruct (Z.eq_dec (w_pos w) S) as [HP|HP].
  - assert (S < End sg).
    { destruct (Z.eq_dec S (End sg)); [|lia]. destruct (entry_at_gap_end HC sg Hsg) as [e0 E0]; [lia|]. congruence. }
    assert (Wf : w_replaced w = false) by (rewrite Wr, HP; apply Z.ltb_irrefl).
    destruct (Z.le_gt_cases S (Start sg)) as [C|C].
    + exists (Start sg), t1, false, []. split; try done; try lia.
      * rewrite Wf. destruct (Z.leb_spec (Start sg) S), (Z.leb_spec S (End sg)); cbn; lia.
      * unfold update_start. rewrite (proj2 (Z.leb_le _ _)), (proj2 (Z.leb_le _ _)) by lia. by rewrite D.
      * split_and!; [by split; constructor|set_solver|cbn; lia].
      * intros p. rewrite in_gap_nil. lia.
      * apply from_ok. left. exists sg. split; [done|lia].
      * intros o e E0 Ho. apply (edge_left_gap sg Hsg o e); [lia|done|done].
    + destruct (Insert_framed HA (mkIv (Start sg) S) t1 (nxt :: B)) as (t2 & I & St2); [done|rewrite !length_app in *; cbn in *; lia|cbn; lia..|].
      cbn [list_insert] in St2. rewrite (proj2 (Z.ltb_lt _ _)) in St2 by (apply (apart_below (mkIv (Start sg) S) nxt); unfold apart; cbn; lia).
      exists S, t2, true, [mkIv (Start sg) S]. split; try done; try lia.
      * rewrite (proj2 (Z.leb_le _ _)), (proj2 (Z.leb_le _ _)) by lia. done.
      * unfold update_start. rewrite (proj2 (Z.leb_gt _ _)) by lia. rewrite Wf. cbn [negb]. rewrite D. cbn [mbind option_bind]. by rewrite I.
      * split_and!; [apply gaps_ok_one; done|intros a ->%list_elem_of_singleton; cbn; lia|cbn; lia].
      * intros p. rewrite in_gap_cons, in_gap_nil. cbn. lia.
      * apply from_ok. left. exists sg. split; [done|lia].
      * intros o e E0 Ho. apply (edge_left_gap sg Hsg o e); [lia|done|done].
  - assert (Wt : w_replaced w = true) by (rewrite Wr; apply Z.ltb_lt; lia).
    assert (Hx : w_pos w <= Start nxt).
    { destruct (Z.le_gt_cases (w_pos w) (Start nxt)); [done|]. pose proof (wk_nogap _ _ _ _ _ HW nxt Hnx). lia. }
    destruct (Z.le_gt_cases (w_pos w) (Start sg)) as [C|C].
    + assert (EP : w_pos w = Start sg).
      { destruct (walk_stops Ec ltac:(lia)) as (g & Hg & Eq). pose proof (co_proper HC g Hg). destruct (Z.eq_dec (Start g) (Start sg)); [lia|].
        exfalso. pose proof Hpre as F1. rewrite Forall_forall in F1. rewrite Eg in Hg. apply elem_of_app in Hg as [Hg|[->|Hg]%elem_of_cons]; [specialize (F1 g Hg); cbn in F1; lia|lia|].
        pose proof (co_gaps _ _ _ HC) as G2. rewrite Eg in G2. apply gaps_ok_app in G2 as (_ & G2 & _). apply gaps_ok_cons in G2 as (_ & _ & F2).
        rewrite Forall_forall in F2. specialize (F2 g Hg). unfold apart in F2. lia. }
      exists S, t1, false, []. split; try done; try lia.
      * by rewrite Wt, orb_true_r.
      * unfold update_start. rewrite (proj2 (Z.leb_le _ _)), (proj2 (Z.leb_le _ _)) by lia. by rewrite D.
      * split_and!; [by split; constructor|set_solver|cbn; lia].
      * intros p. rewrite in_gap_nil. lia.
      * apply from_ok. right. lia.
      * apply edge_left_entry. lia.
    + assert (ES : S = End sg) by (pose proof (wk_nogap _ _ _ _ _ HW sg Hsg); lia).
      assert (EP : w_pos w = Start nxt).
      { destruct (Z.eq_dec (w_pos w) (Start nxt)); [done|]. destruct (walk_stops Ec ltac:(lia)) as (g & Hg & Eq).
        pose proof (co_proper HC g Hg). pose proof (Hnext g Hg). lia. }
      exists S, (gapTree s), false, [sg]. split; try done; try lia.
      * by rewrite Wt, orb_true_r.
      * unfold update_start. rewrite (proj2 (Z.leb_gt _ _)) by lia. by rewrite Wt.
      * split_and!; [apply gaps_ok_one; done|intros a ->%list_elem_of_singleton; lia|cbn; lia].
      * intros p. rewrite in_gap_cons, in_gap_nil. lia.
      * apply from_ok. right. lia.
      * apply edge_left_entry. lia.
Qed.
Lemma between_points lo hi l p : gaps_ok l → (∀ g, g ∈ l → lo < Start g ∧ End g < hi) → in_gap l p → lo < p < hi.
Proof. intros _ F (g & Hg & Hp). specialize (F g Hg). lia. Qed.

(** Several gaps are touched. *)
Lemma multi_through sg mids eg cb :
  gl = pre ++ (sg :: mids ++ [eg]) ++ post → S <= End sg → Start eg <= E → goes_through sg (mids ++ [eg]) cb.
Proof.
  intros Eg Hz He. assert (Hsg : sg ∈ gl) by (rewrite Eg; set_solver). assert (Heg : eg ∈ gl) by (rewrite Eg; set_solver).
  pose proof (co_proper HC sg Hsg) as Py. pose proof (co_proper HC eg Heg) as Pe.
  pose proof (co_gaps _ _ _ HC) as G. rewrite Eg in G. apply gaps_ok_app in G as (_ & G & _). apply gaps_ok_app in G as (G & _ & _).
  apply gaps_ok_cons in G as (_ & G & F1). rewrite Forall_forall in F1. pose proof G as G0. apply gaps_ok_app in G as (Gm & _ & F2).
  assert (Am : ∀ g, g ∈ mids → End sg < Start g ∧ End g < Start eg).
  { intros g Hg. specialize (F1 g ltac:(set_solver)). specialize (F2 g eg Hg ltac:(set_solver)). unfold apart in *. lia. }
  assert (Ae : End sg < Start eg) by (specialize (F1 eg ltac:(set_solver)); done).
  destruct (edges_around sg (mids ++ [eg]) Eg _ eq_refl) as [A1 A2]. rewrite List.last_last in A2.
  pose proof (around_touching _ Eg (Start sg) (End eg) A1 A2) as HA.
  set (nxt := hd eg mids). assert (Hnx : nxt ∈ mids ++ [eg]) by (unfold nxt; destruct mids; set_solver).
  assert (Hn : End sg < Start nxt ∧ Start nxt <= Start eg).
  { split; [by specialize (F1 nxt Hnx)|]. unfold nxt. destruct mids as [|m mids]; [done|]. cbn. destruct (Am m ltac:(set_solver)).
    pose proof (co_proper HC m ltac:(rewrite Eg; set_solver)). lia. }
  assert (ST : ∃ s' t1 adj left, started sg nxt (mids ++ [eg]) s' t1 adj left).
  { unfold nxt. destruct mids as [|m mids].
    - apply (multi_start sg eg []); [done|done|done|cbn; lia].
    - cbn [hd app]. apply (multi_start sg m (mids ++ [eg])); [done|done|cbn in Hn; lia|]. rewrite List.last_last. destruct (Am m ltac:(set_solver)). lia. }
  destruct ST as (s' & t1 & adj & left & [Sf Su Ss St Sr Sw Sa Sg (Sl1 & Sl2 & Sl3) Sp Sfr Sed Sn]).
  assert (HI : inside (Start sg) (End eg) (mids ++ [eg])).
  { unfold inside. apply Forall_app. split; [apply Forall_forall; intros g Hg; destruct (Am g Hg); cbn; lia|constructor; [lia|constructor]]. }
  assert (HN1 : Z.of_nat (length (pre ++ (sg :: mids ++ [eg]) ++ post)) <= 20000) by (rewrite <- Eg; done).
  rewrite !length_app in HN1. cbn in HN1. rewrite !length_app in HN1. cbn in HN1.
  destruct (delete_between_spec HC pre post eg mids pre sg left (Start sg) (End eg) (w_queue w) t1 (w_ran w)) as (q' & t2 & rn & DB & Mq & St2).
  - rewrite Eg. cbn. by rewrite <- app_assoc.
  - done.
  - done.
  - done.
  - rewrite !length_app. cbn. lia.
  - intros a m Ha Hm. destruct (Sl2 a Ha), (Am m Hm). apply apart_below; [by apply (gaps_ok_proper _ _ Sl1)|]. unfold apart. lia.
  - destruct Sa as [Sa|[Sa1 Sa2]]; [left|right]; intros o Ho; rewrite (wk_minus _ _ _ _ _ HW o); [by rewrite decide_False by lia|].
    rewrite decide_True; [done|]. fold nxt in Ho. lia.
  - intros o Ho. fold nxt in Ho. rewrite (wk_minus _ _ _ _ _ HW o), decide_False by lia. done.
  - set (e' := if End eg <=? E then End eg else E). assert (He' : Start eg <= e' ∧ e' <= End eg ∧ e' <= E) by (unfold e'; destruct (Z.leb_spec (End eg) E); lia).
    set (right := if End eg <=? E then [] else [mkIv E (End eg)]).
    destruct (Delete_framed HA eg t2 (left ++ [eg])) as (t3 & D3 & St3); [done|rewrite !length_app; cbn; lia|lia|done|lia|].
    assert (Fb : Forall (λ a, below a eg) left).
    { apply Forall_forall. intros a Ha. destruct (Sl2 a Ha). apply apart_below; [by apply (gaps_ok_proper _ _ Sl1)|]. unfold apart. lia. }
    rewrite (list_delete_mid eg left []), app_nil_r in St3 by done.
    assert (U3 : ∃ t4, update_end t2 false adj sg eg e' = Some t4 ∧ stands t4 (pre ++ (left ++ right) ++ post)).
    { unfold update_end, right, e'. cbn [negb andb]. destruct (Z.leb_spec (End eg) E).
      - rewrite Z.eqb_refl, app_nil_r. by exists t3.
      - rewrite (proj2 (Z.eqb_neq E (End eg))) by lia. rewrite D3. cbn [mbind option_bind].
        destruct (Insert_framed HA (mkIv E (End eg)) t3 left) as (t4 & I4 & St4); [done|rewrite !length_app; cbn; lia|cbn; lia..|].
        exists t4. split; [done|]. rewrite <- (app_nil_r left), list_insert_skip in St4; [done|].
        apply Forall_forall. intros a Ha. destruct (Sl2 a Ha). apply apart_below; [by apply (gaps_ok_proper _ _ Sl1)|]. unfold apart. cbn. lia. }
    destruct U3 as (t4 & U3 & St4).
    assert (Esing : match mids ++ [eg] with [] => true | _ => false end = false) by (by destruct mids).
    destruct (push_rest_calc sg (mids ++ [eg]) cb s' e' t1 adj q' t2 rn t4) as (cut & PR).
    + done.
    + rewrite Ss. lia.
    + rewrite List.last_last, Ss. unfold e'. rewrite (proj2 (Z.eqb_neq s' (End eg))) by lia. rewrite (proj2 (Z.leb_le (Start eg) E)) by lia.
      destruct (Z.ltb_spec E (End eg)), (Z.ltb_spec (End eg) E), (Z.leb_spec (End eg) E); cbn; lia.
    + rewrite Ss. lia.
    + by rewrite Ss.
    + rewrite Esing, List.last_last. unfold delete_covered. exact DB.
    + by rewrite Esing, List.last_last.
    + exists q', (pre ++ (left ++ right) ++ post), t4, s', e', cut, rn. split; [done|]. split; [done|]. split; [|exact (delete_covered_held false sg eg _ _ _ _ _ _ _ DB)].
      assert (Pm : ∀ p, in_gap mids p → End sg < p < Start eg) by (intros p; by apply between_points).
      split.
      * intros o. rewrite Mq, (wk_minus _ _ _ _ _ HW o). destruct (decide (End sg <= o < Start eg)); [by rewrite decide_True by lia|].
        destruct (decide (S <= o < w_pos w)) as [d|d]; [rewrite decide_True; [done|]; rewrite Sw by lia; lia|].
        destruct (decide (s' <= o < e')); [|done]. destruct (Z.lt_ge_cases o (End sg)).
        -- apply (no_entry_in_gap HC sg); [done|]. specialize (Sg o ltac:(lia) d). lia.
        -- apply (no_entry_in_gap HC eg); [done|lia].
      * rewrite Eg. apply (placed_around _ _ _ _ S E _ _ (Start sg) (End eg)); [done|done|done|lia|lia|lia| | |].
        -- apply gaps_ok_app. split_and!; [done| |].
           ++ unfold right. destruct (Z.leb_spec (End eg) E); [apply gaps_ok_nil|by apply gaps_ok_one].
           ++ intros a b Ha Hb. destruct (Sl2 a Ha). unfold right in Hb. destruct (Z.leb_spec (End eg) E); [set_solver|].
              apply list_elem_of_singleton in Hb as ->. unfold apart. cbn. lia.
        -- unfold inside. apply Forall_app. split; [apply Forall_forall; intros a Ha; destruct (Sl2 a Ha); cbn; lia|].
           unfold right. destruct (Z.leb_spec (End eg) E); repeat constructor; cbn; lia.
        -- intros p. rewrite in_gap_app, Sp, in_gap_cons, in_gap_app, in_gap_cons, in_gap_nil. specialize (Pm p).
           unfold right, e' in *. destruct (Z.leb_spec (End eg) E); rewrite ?in_gap_cons, ?in_gap_nil; cbn [Start End]; split.
           ++ intros [?|[]]. split; [left; lia|lia].
           ++ intros [[?|[M|[?|[]]]] ?]; [left; lia|specialize (Pm M); lia|lia].
           ++ intros [?|[?|[]]]; (split; [|lia]); [left; lia|right; right; left; lia].
           ++ intros [[?|[M|[?|[]]]] ?]; [left; lia|specialize (Pm M); lia|right; left; lia].
      * lia.
      * done.
      * done.
      * intros o e E0 Ho. destruct (co_gapfree _ _ _ HC o e eg E0 Heg); lia.
      * intros p Hp Hg. apply (new_inside p _ Eg Hp) in Hg. rewrite in_gap_cons, in_gap_app, in_gap_cons, in_gap_nil in Hg. specialize (Pm p). specialize (Sn p).
        unfold e' in *. destruct (Z.leb_spec (End eg) E); destruct Hg as [?|[?|[?|[]]]]; try lia; (specialize (Pm ltac:(done)); lia).
      * rewrite Eg, !length_app. cbn. rewrite length_app. unfold right. destruct (End eg <=? E); cbn; lia.
Qed.
End pushes.

Lemma last_snoc_inv {A} (l : list A) : l = [] ∨ ∃ l' x, l = l' ++ [x].
Proof. destruct l as [|x l _] using rev_ind; [by left|right; by exists l, x]. Qed.

(** A push is either a duplicate, all of it received before, or goes through. *)
Lemma push_spec s gl data offset cb :
  coherent (queue s) (readPos s) gl → stands (gapTree s) gl → Z.of_nat (length gl) <= MaxStreamFrameSorterGaps →
  0 <= offset → offset + Z.of_nat (length data) <= MaxByteCount →
  let E := offset + Z.of_nat (length data) in
  (push s data offset cb = Some (duplicate s) ∧ ∀ p, offset <= p < E → ¬ in_gap gl p) ∨
  ∃ q' gl' t' s' e' cut rn,
    push s data offset cb = Some (store s q' t' (ztake (e' - s') (zdrop (s' - offset) data)) s' cut cb rn) ∧
    stands t' gl' ∧ pushed s gl offset E q' gl' s' e' ∧ rn ++ held q' ≡ₚ held (queue s).
Proof.
  intros HC HT HN HR HE E. unfold push. destruct (Nat.eqb_spec (length data) 0) as [e|n]; [left; split; [done|lia]|].
  fold E. cbn zeta. rewrite (Match_touching (mkIv offset E) (gapTree s) gl HT (co_gaps _ _ _ HC)).
  destruct (touching_split (mkIv offset E) gl) as (pre & post & Eg & Hpre & Hpost); [apply HC|cbn; lia|]. cbn [Start End] in Hpre, Hpost.
  assert (Hnew : ∀ p, offset <= p < E → in_gap gl p → in_gap (touching (mkIv offset E) gl) p).
  { intros p Hp (g & Hg & Hpg). exists g. split; [|done]. apply list_elem_of_filter. split; [|done]. apply iv_Match_0. cbn. lia. }
  assert (Htou : ∀ g, g ∈ touching (mkIv offset E) gl → Start g <= E ∧ offset <= End g).
  { intros g [Hg _]%list_elem_of_filter. by apply iv_Match_0 in Hg. }
  destruct (touching (mkIv offset E) gl) as [|sg rest] eqn:Et.
  { left. split; [done|]. intros p Hp Hg. apply Hnew in Hg; [|done]. by rewrite in_gap_nil in Hg. }
  destruct (Htou sg) as [T1 T2]; [by left|].
  destruct (match rest with [] => true | _ => false end && (E <=? Start sg)) eqn:Ed.
  { left. split; [done|]. bool_hyps. destruct rest; [|done]. intros p Hp Hg. apply Hnew in Hg; [|done]. rewrite in_gap_cons, in_gap_nil in Hg. lia. }
  destruct (replace_loop_spec HC (S (size (queue s))) offset E (queue s) offset false []) as [(e & EL & _ & E0 & Hl)|(w & EW & W1 & W2 & W3 & W4 & W5 & W6 & W7)];
    [lia|apply minus_refl|lia|by rewrite Z.ltb_irrefl|by left|lia|by left| |].
  - left. rewrite EL. split; [done|]. intros p Hp (g & Hg & Hpg). destruct (co_gapfree _ _ _ HC _ e g E0 Hg); lia.
  - right. rewrite EW. cbn [mbind option_bind].
    assert (HW : walked (queue s) gl offset E w) by (split; done).
    assert (Hgt : goes_through (s := s) (gl := gl) (S := offset) (E := E) (w := w) (data := data) sg rest cb).
    { assert (HSE : offset < E) by (unfold E; lia). assert (HD : Z.of_nat (length data) = E - offset) by (unfold E; lia).
      assert (Hsg : sg ∈ gl) by (rewrite Eg; set_solver).
      destruct (last_snoc_inv rest) as [->|(mids & eg & ->)].
      - cbn [andb] in Ed. bool_hyps. destruct (Z.le_gt_cases offset (Start sg)) as [C|C].
        + destruct (Z.le_gt_cases (w_pos w) (Start sg)); [by apply (single_low HC HT HN HSE HE HR HW HD Hpre Hpost)|].
          pose proof (W5 sg Hsg). pose proof (co_proper HC sg Hsg). lia.
        + destruct (Z.eq_dec (w_pos w) offset) as [e0|n0].
          * destruct (Z.eq_dec offset (End sg)) as [e1|n1]; [|by apply (single_mid HC HT HN HSE HE HR HW HD Hpre Hpost); [..|lia|]].
            destruct (entry_at_gap_end HC sg Hsg) as [e2 E2]; [lia|]. rewrite <- e1 in E2. destruct (w_cut w); [lia|congruence].
          * pose proof (W5 sg Hsg). apply (single_end HC HT HN HSE HE HR HW HD Hpre Hpost); [done|lia|lia].
      - apply (multi_through HC HT HN HSE HE HR HW HD Hpre Hpost); [done|lia|]. apply Htou. set_solver. }
    destruct Hgt as (q' & gl' & t' & s' & e' & cut & rn & P1 & P2 & P3 & P4).
    exists q', gl', t', s', e', cut, rn. split_and!; [done|done|done|]. rewrite P4.
    apply (replace_loop_held _ _ _ _ _ _ _ EW).
Qed.

(** ** The invariant is kept *)

Lemma placed_gapfree gl gl' s' e' g a b :
  placed gl gl' s' e' → g ∈ gl' → a < b → (∀ g0, g0 ∈ gl → (b <= Start g0 ∨ End g0 <= a) ∨ (s' <= a ∧ b <= e')) → b <= Start g ∨ End g <= a.
Proof.
  intros [G P] Hg Hab H0. destruct (Z.le_gt_cases b (Start g)); [by left|]. destruct (Z.le_gt_cases (End g) a); [by right|]. exfalso.
  pose proof (gaps_ok_proper _ _ G Hg). destruct (proj1 (P (Z.max a (Start g)))) as [(g0 & Hg0 & Hp) Hn]; [exists g; split; [done|lia]|].
  destruct (H0 g0 Hg0) as [[?|?]|?]; lia.
Qed.

Lemma pushed_coherent s gl S E q' gl' s' e' d cb :
  coherent (queue s) (readPos s) gl → E <= MaxByteCount → pushed s gl S E q' gl' s' e' → Z.of_nat (length d) = e' - s' →
  coherent (<[s' := mkEntry d cb]> q') (readPos s) gl'.
Proof.
  intros HC HE [Pm Pp Pb Pf Pl Pr Pn _] Hd. pose proof Pp as [G P].
  assert (Hq : ∀ o e, <[s' := mkEntry d cb]> q' !! o = Some e → (o = s' ∧ dlen e = e' - s') ∨ (queue s !! o = Some e ∧ (o < s' ∨ e' <= o))).
  { intros o e [[<- <-]|[Ho E0]]%lookup_insert_Some; [by left|]. right. rewrite Pm in E0. destruct (decide _); [done|]. split; [done|lia]. }
  split.
  - done.
  - intros g Hg. pose proof (gaps_ok_proper _ _ G Hg). destruct (proj1 (P (Start g))) as [(g1 & Hg1 & H1) _]; [exists g; split; [done|lia]|].
    destruct (proj1 (P (End g - 1))) as [(g2 & Hg2 & H2) _]; [exists g; split; [done|lia]|].
    pose proof (co_range _ _ _ HC g1 Hg1). pose proof (co_range _ _ _ HC g2 Hg2). lia.
  - intros o e [[-> He]|[E0 _]]%Hq; [lia|]. by apply (co_entry _ _ _ HC).
  - intros o1 e1 o2 e2 [[-> H1]|[E1 H1]]%Hq [[-> H2]|[E2 H2]]%Hq Ho; [lia|lia|by apply (Pl o1)|]. by apply (co_sep _ _ _ HC o1 e1 o2 e2).
  - intros o e g [[-> He]|[E0 Ho]]%Hq Hg.
    + apply (placed_gapfree gl gl' s' e' g); [done|done|lia|]. intros g0 _. right. lia.
    + destruct (co_entry _ _ _ HC o e E0) as (? & _). apply (placed_gapfree gl gl' s' e' g); [done|done|lia|].
      intros g0 Hg0. left. by apply (co_gapfree _ _ _ HC o e).
  - intros p Hp. destruct (decide (s' <= p < e')) as [d0|d0].
    + left. exists s', (mkEntry d cb). rewrite lookup_insert_eq. split; [done|]. unfold dlen. cbn. lia.
    + destruct (co_cover _ _ _ HC p Hp) as [(o & e & E0 & Ho)|Hg]; [left|right; by apply P].
      exists o, e. split; [|done]. assert (o < s' ∨ e' <= o).
      { destruct (decide (s' <= o < e')); [|lia]. pose proof (Pr o e E0 ltac:(lia)). lia. }
      rewrite lookup_insert_ne by lia. rewrite Pm, decide_False by lia. done.
Qed.

Lemma pushed_gaps s gl S E q' gl' s' e' p : pushed s gl S E q' gl' s' e' → in_gap gl' p ↔ in_gap gl p ∧ ¬ (S <= p < E).
Proof.
  intros [_ [_ P] Pb _ _ _ Pn _]. rewrite P. split; intros [A B]; (split; [done|]); [|lia]. intros Hp. pose proof (Pn p Hp A). lia.
Qed.

(** The bytes of the stream that the peer sends. *)
Definition from_stream (src : Z → Z) (data : list Z) (offset : Z) : Prop := ∀ (i : nat) x, data !! i = Some x → src (offset + Z.of_nat i) = x.
Definition stream_bytes (src : Z → Z) (a b : Z) : list Z := src <$> seqZ a (b - a).

Definition contents (src : Z → Z) (q : gmap Z frameSorterEntry) : Prop := ∀ o e, q !! o = Some e → from_stream src (Data e) o.

Lemma from_stream_cut src data offset a n :
  from_stream src data offset → 0 <= a → from_stream src (ztake n (zdrop a data)) (offset + a).
Proof.
  intros H Ha i x Hi. unfold ztake, zdrop in Hi. apply lookup_take_Some in Hi as [Hi _]. rewrite lookup_drop in Hi. apply H in Hi. rewrite <- Hi. f_equal. lia.
Qed.

Lemma from_stream_bytes src data offset : from_stream src data offset → data = stream_bytes src offset (offset + Z.of_nat (length data)).
Proof.
  intros H. apply list_eq. intros i. unfold stream_bytes. rewrite list_lookup_fmap.
  destruct (data !! i) as [x|] eqn:E0.
  - pose proof (lookup_lt_Some _ _ _ E0). rewrite lookup_seqZ_lt by lia. cbn. f_equal. symmetry. by apply H.
  - apply lookup_ge_None in E0. rewrite lookup_seqZ_ge by lia. done.
Qed.

Lemma stream_bytes_nil src a : stream_bytes src a a = [].
Proof. unfold stream_bytes. by rewrite Z.sub_diag. Qed.

Lemma stream_bytes_app src a b c : a <= b → b <= c → stream_bytes src a b ++ stream_bytes src b c = stream_bytes src a c.
Proof.
  intros Hab Hbc. unfold stream_bytes. rewrite <- fmap_app. f_equal. replace (c - a) with ((b - a) + (c - b)) by lia.
  rewrite seqZ_app by lia. by replace (a + (b - a)) with b by lia.
Qed.

(** What a sorter knows: [gl] are the ranges of the stream not received. *)
Record sorting (src : Z → Z) (s : frameSorter) (gl : list ByteInterval) : Prop := mkSorting {
  so_coherent : coherent (queue s) (readPos s) gl;
  so_tree : stands (gapTree s) gl;
  so_few : Z.of_nat (length gl) <= MaxStreamFrameSorterGaps;
  so_contents : contents src (queue s);
  so_pos : 0 <= readPos s <= MaxByteCount;
}.

Lemma new_sorting src : ∃ s, newFrameSorter = Some s ∧ sorting src s [mkIv 0 MaxByteCount] ∧ readPos s = 0 ∧ queue s = ∅.
Proof.
  unfold newFrameSorter. destruct (Insert_stands (mkIv 0 MaxByteCount) New [] New_stands) as (t & E & St & _); [cbn; lia|].
  rewrite E. cbn [mbind option_bind]. eexists. split; [done|]. split; [|done]. cbn [list_insert] in St. split; cbn [queue readPos gapTree].
  - split; [| |by intros ? ? ?%lookup_empty_Some|by intros ? ? ? ? ?%lookup_empty_Some|by intros ? ? ? ?%lookup_empty_Some|].
    + apply gaps_ok_one. cbn. unfold MaxByteCount. lia.
    + intros g ->%list_elem_of_singleton. cbn. lia.
    + intros p Hp. right. exists (mkIv 0 MaxByteCount). split; [by left|]. cbn. lia.
  - done.
  - cbn. unfold MaxStreamFrameSorterGaps. lia.
  - by intros ? ? ?%lookup_empty_Some.
  - unfold MaxByteCount. lia.
Qed.

Lemma Push_spec src s gl data offset cb :
  sorting src s gl → from_stream src data offset → 0 <= offset → offset + Z.of_nat (length data) <= MaxByteCount →
  ∃ o gl', Push s data offset cb = Some o ∧ gaps_ok gl' ∧ readPos (after o) = readPos s ∧
    (∀ p, in_gap gl' p ↔ in_gap gl p ∧ ¬ (offset <= p < offset + Z.of_nat (length data))) ∧
    ((err o = None ∧ sorting src (after o) gl' ∧ ran o ++ held (queue (after o)) ≡ₚ run_cb cb ++ held (queue s)) ∨
     (err o = Some errTooManyGaps ∧ MaxStreamFrameSorterGaps < Z.of_nat (length gl'))).
Proof.
  intros [HC HT HN HS HP] Hd HR HE. unfold Push. pose proof (push_spec s gl data offset cb HC HT HN HR HE) as PS. cbn zeta in PS.
  destruct PS as [[-> Hdup]|(q' & gl' & t' & s' & e' & cut & rn & -> & St & Pu & Hh)]; cbn [mbind option_bind].
  - exists (mkOut s None (run_cb cb)), gl. split; [done|]. split_and!; [apply HC|done| |].
    + intros p. split; [|tauto]. intros Hp. split; [done|]. intros Hr. by apply (Hdup p).
    + left. split_and!; [done|by split|done].
  - pose proof (pu_bounds _ _ _ _ _ _ _ _ Pu) as Pb.
    assert (Hl : Z.of_nat (length (ztake (e' - s') (zdrop (s' - offset) data))) = e' - s').
    { unfold ztake. rewrite length_take. pose proof (length_zdrop (s' - offset) data ltac:(lia)). lia. }
    set (d := ztake (e' - s') (zdrop (s' - offset) data)) in *.
    assert (Hlen : Len t' = Z.of_nat (length gl')) by apply St.
    unfold store. set (copied := cut && _). rewrite Hlen. destruct (Z.ltb_spec MaxStreamFrameSorterGaps (Z.of_nat (length gl'))) as [C|C].
    + cbn [err]. eexists _, gl'. split; [done|]. split_and!; [apply Pu|done|intros p; by eapply pushed_gaps|]. by right.
    + cbn [err]. eexists _, gl'. split; [done|]. split_and!; [apply Pu|done|intros p; by eapply pushed_gaps|]. left. split; [done|]. cbn [after ran queue].
      assert (Hn : q' !! s' = None) by (rewrite (pu_minus _ _ _ _ _ _ _ _ Pu), decide_True by lia; done). split.
      * split; cbn [queue readPos gapTree]; [by eapply pushed_coherent|done|done| |done].
        intros o e [[<- <-]|[Ho E0]]%lookup_insert_Some.
        -- cbn [Data]. unfold d. replace s' with (offset + (s' - offset)) at 3 by lia. apply from_stream_cut; [done|lia].
        -- rewrite (pu_minus _ _ _ _ _ _ _ _ Pu) in E0. destruct (decide _); [done|]. by apply HS.
      * rewrite held_insert by done. cbn [DoneCb]. rewrite <- Hh. destruct copied; cbn [run_cb app].
        -- by rewrite (Permutation_app_comm rn (run_cb cb)), <- app_assoc.
        -- by rewrite (Permutation_app_swap_app rn (run_cb cb)).
Qed.

(** ** Reading *)

Lemma Pop_spec src s gl :
  sorting src s gl →
  let '(s', (offset, data, cb)) := Pop s in
  offset = readPos s ∧ sorting src s' gl ∧ data = stream_bytes src (readPos s) (readPos s') ∧
  run_cb cb ++ held (queue s') ≡ₚ held (queue s) ∧
  (if bool_decide (is_Some (queue s !! readPos s)) then readPos s < readPos s' ∧ S (size (queue s')) = size (queue s) else s' = s).
Proof.
  intros [HC HT HN HS HP]. unfold Pop. destruct (queue s !! readPos s) as [e|] eqn:E0.
  - destruct (co_entry _ _ _ HC _ _ E0) as (Hl & _ & Hm). rewrite bool_decide_true by done.
    change ((s <| queue := delete (readPos s) (queue s) |>) <| readPos := readPos s + dlen e |>)
      with (mkSorter (delete (readPos s) (queue s)) (readPos s + dlen e) (gapTree s)). cbn [queue readPos].
    split; [done|]. split; [|split; [by apply from_stream_bytes, HS|split; [by apply held_delete|]]].
    + split; cbn [queue readPos gapTree]; [|done|done|by intros o e' [_ E']%lookup_delete_Some; apply HS|lia]. split.
      * apply HC.
      * intros g Hg. pose proof (co_range _ _ _ HC g Hg). pose proof (co_proper HC g Hg). destruct (co_gapfree _ _ _ HC _ e g E0 Hg); lia.
      * intros o e' [Ho E']%lookup_delete_Some. pose proof (co_entry _ _ _ HC o e' E') as (? & ? & ?).
        pose proof (co_sep _ _ _ HC _ e o e' E0 E'). lia.
      * intros o1 e1 o2 e2 [_ E1]%lookup_delete_Some [_ E2]%lookup_delete_Some. by apply (co_sep _ _ _ HC o1 e1 o2 e2).
      * intros o e' g [_ E1]%lookup_delete_Some. by apply (co_gapfree _ _ _ HC o e').
      * intros p Hp. destruct (co_cover _ _ _ HC p) as [(o & e' & E' & Ho)|?]; [lia| |by right]. left. exists o, e'. split; [|done].
        rewrite lookup_delete_ne; [done|]. intros <-. simplify_eq. lia.
    + split; [lia|]. by eapply size_delete_lt.
  - rewrite bool_decide_false by (by intros [? ?]). split_and!; [done|by split|by rewrite stream_bytes_nil|done|done].
Qed.

(** ** A connection's use of the sorter *)

Inductive sop := OPush (data : list Z) (offset : Z) (cb : option nat) | OPop.

(** The sorter, the bytes popped, the callbacks run or handed out, and the error that ended it. *)
Fixpoint run_sorter (os : list sop) (s : frameSorter) : option (frameSorter * list Z * list nat * option push_error) :=
  match os with
  | [] => Some (s, [], [], None)
  | OPush data offset cb :: os =>
      o ← Push s data offset cb;
      match err o with
      | Some e => Some (after o, [], ran o, Some e)
      | None => '(s, out, cbs, e) ← run_sorter os (after o); Some (s, out, ran o ++ cbs, e)
      end
  | OPop :: os =>
      let '(s, (_, data, cb)) := Pop s in
      '(s, out, cbs, e) ← run_sorter os s; Some (s, data ++ out, run_cb cb ++ cbs, e)
  end.

(** [Pop] until there is nothing at the position read. *)
Fixpoint drain (n : nat) (s : frameSorter) : frameSorter * list Z :=
  match n with
  | O => (s, [])
  | S n => let '(s, (_, data, _)) := Pop s in let '(s, out) := drain n s in (s, data ++ out)
  end.

(** Every frame is a part of the peer's stream, which a 62-bit offset can address. *)
Definition frame_ok (src : Z → Z) (o : sop) : Prop :=
  match o with
  | OPush data offset _ => from_stream src data offset ∧ 0 <= offset ∧ offset + Z.of_nat (length data) <= MaxByteCount
  | OPop => True
  end.

Definition covers (p : Z) (o : sop) : Prop :=
  match o with OPush data offset _ => offset <= p < offset + Z.of_nat (length data) | OPop => False end.
#[export] Instance covers_dec p o : Decision (covers p o).
Proof. destruct o; cbn; apply _. Defined.
Definition received (os : list sop) (p : Z) : Prop := Exists (covers p) os.

Definition given (o : sop) : list nat := match o with OPush _ _ cb => run_cb cb | OPop => [] end.

Lemma Pop_read src s gl : sorting src s gl → let '(s', (_, data, cb)) := Pop s in
  readPos s <= readPos s' ∧ sorting src s' gl ∧ data = stream_bytes src (readPos s) (readPos s') ∧ run_cb cb ++ held (queue s') ≡ₚ held (queue s).
Proof.
  intros H. pose proof (Pop_spec src s gl H) as P. destruct (Pop s) as [s' [[o d] cb]]. destruct P as (_ & A & B & C & D).
  split_and!; [|done|done|done]. case_bool_decide; [lia|by subst].
Qed.

Lemma run_sorter_spec src os : ∀ s gl,
  sorting src s gl → Forall (frame_ok src) os →
  ∃ s' out cbs e, run_sorter os s = Some (s', out, cbs, e) ∧
    readPos s <= readPos s' ∧ out = stream_bytes src (readPos s) (readPos s') ∧
    match e with
    | None => ∃ gl', sorting src s' gl' ∧ (∀ p, in_gap gl' p ↔ in_gap gl p ∧ ¬ received os p) ∧
        cbs ++ held (queue s') ≡ₚ (os ≫= given) ++ held (queue s)
    | Some e => e = errTooManyGaps ∧ ∃ seen rest gl', os = seen ++ rest ∧ gaps_ok gl' ∧
        MaxStreamFrameSorterGaps < Z.of_nat (length gl') ∧ (∀ p, in_gap gl' p ↔ in_gap gl p ∧ ¬ received seen p)
    end.
Proof.
  unfold received. induction os as [|o os IH]; intros s gl H F; cbn [run_sorter].
  - exists s, [], [], None. split_and!; [done|lia|by rewrite stream_bytes_nil|]. exists gl. split_and!; [done| |done].
    intros p. rewrite Exists_nil. tauto.
  - apply Forall_cons in F as [Fo F]. destruct o as [data offset cb|]; cbn [frame_ok] in Fo.
    + destruct Fo as (F1 & F2 & F3). destruct (Push_spec src s gl data offset cb H F1 F2 F3) as (o & gl1 & -> & G1 & R1 & P1 & E1). cbn [mbind option_bind].
      destruct E1 as [(-> & H1 & C1)|(-> & L1)].
      * destruct (IH _ gl1 H1 F) as (s' & out & cbs & e & -> & R & O & E). cbn [mbind option_bind]. rewrite R1 in R, O.
        exists s', out, (ran o ++ cbs), e. split_and!; [done|done|done|]. destruct e as [e|].
        -- destruct E as (-> & seen & rest & gl' & -> & G & L & P). split; [done|]. exists (OPush data offset cb :: seen), rest, gl'.
           split_and!; [done|done|done|]. intros p. rewrite P, P1, Exists_cons. cbn [covers]. tauto.
        -- destruct E as (gl' & S' & P & C). exists gl'. split_and!; [done| |].
           ++ intros p. rewrite P, P1, Exists_cons. cbn [covers]. tauto.
           ++ cbn [given mbind list_bind]. rewrite <- !app_assoc, C, Permutation_app_swap_app, C1. by rewrite (Permutation_app_swap_app (run_cb cb)).
      * exists (after o), [], (ran o), (Some errTooManyGaps). rewrite R1. split_and!; [done|lia|by rewrite stream_bytes_nil|done|].
        exists [OPush data offset cb], os, gl1. split_and!; [done|done|done|]. intros p. rewrite P1, Exists_cons, Exists_nil. cbn [covers]. tauto.
    + pose proof (Pop_read src s gl H) as Pr. destruct (Pop s) as [s1 [[o d] cb]]. destruct Pr as (R1 & H1 & D1 & C1).
      destruct (IH _ gl H1 F) as (s' & out & cbs & e & -> & R & O & E). cbn [mbind option_bind].
      exists s', (d ++ out), (run_cb cb ++ cbs), e. split_and!; [done|lia|by rewrite D1, O, stream_bytes_app|]. destruct e as [e|].
      * destruct E as (-> & seen & rest & gl' & -> & G & L & P). split; [done|]. exists (OPop :: seen), rest, gl'.
        split_and!; [done|done|done|]. intros p. rewrite P, Exists_cons. cbn [covers]. tauto.
      * destruct E as (gl' & S' & P & C). exists gl'. split_and!; [done| |].
        -- intros p. rewrite P, Exists_cons. cbn [covers]. tauto.
        -- cbn [given mbind list_bind app]. rewrite <- app_assoc, C, Permutation_app_swap_app, C1. done.
Qed.

Lemma drain_spec src n : ∀ s gl, sorting src s gl → (size (queue s) <= n)%nat →
  let '(s', out) := drain n s in
  sorting src s' gl ∧ readPos s <= readPos s' ∧ out = stream_bytes src (readPos s) (readPos s') ∧ queue s' !! readPos s' = None.
Proof.
  induction n as [|n IH]; intros s gl H Hn; cbn [drain].
  - split_and!; [done|lia|by rewrite stream_bytes_nil|]. assert (queue s = ∅) as -> by (apply map_size_empty_iff; lia). done.
  - pose proof (Pop_spec src s gl H) as P. destruct (Pop s) as [s1 [[o d] cb]]. destruct P as (_ & H1 & D1 & _ & B).
    assert (Hle : readPos s <= readPos s1) by (case_bool_decide; [lia|by subst]).
    assert (Hs : (size (queue s1) <= n)%nat ∨ (s1 = s ∧ queue s !! readPos s = None)).
    { case_bool_decide as Hd; [left; lia|]. subst. right. split; [done|]. by apply eq_None_not_Some. }
    destruct Hs as [Hs|[-> Hs]].
    + specialize (IH s1 gl H1 Hs). destruct (drain n s1) as [s' out]. destruct IH as (A & B1 & C & D). split_and!; [done|lia|by rewrite D1, C, stream_bytes_app|done].
    + assert (Dn : ∀ m, drain m s = (s, [])).
      { induction m as [|m IHm]; [done|]. cbn. unfold Pop. by rewrite Hs, IHm. }
      rewrite Dn. split_and!; [done|lia|by rewrite D1, app_nil_r|done].
Qed.

Lemma stream_from src a b : from_stream src (stream_bytes src a b) a.
Proof. intros i x. unfold stream_bytes. rewrite list_lookup_fmap. intros (y & Hy & ->)%fmap_Some. apply lookup_seqZ in Hy as [-> _]. done. Qed.

(** What can be popped after a run without error: all up to the first byte that is missing. *)
Lemma run_drained src os s0 s out cbs :
  Forall (frame_ok src) os → newFrameSorter = Some s0 → run_sorter os s0 = Some (s, out, cbs, None) →
  let '(s1, out1) := drain (size (queue s)) s in
  0 <= readPos s1 ∧ out ++ out1 = stream_bytes src 0 (readPos s1) ∧ (∀ p, 0 <= p < readPos s1 → received os p) ∧ ¬ received os (readPos s1).
Proof.
  intros F N0 Rn0. destruct (new_sorting src) as (s0' & N & H0 & R0 & Q0). assert (s0' = s0) as -> by congruence.
  destruct (run_sorter_spec src os s0 _ H0 F) as (s' & out' & cbs' & e & Rn & R & O & E). rewrite Rn0 in Rn. injection Rn as <- <- <- <-.
  rewrite R0 in R, O. destruct E as (gl & Hs & P & _).
  pose proof (drain_spec src (size (queue s)) s gl Hs ltac:(lia)) as D. destruct (drain (size (queue s)) s) as [s1 out1]. destruct D as (H1 & R1 & O1 & Q1).
  assert (Pg : ∀ p, in_gap gl p ↔ 0 <= p < MaxByteCount ∧ ¬ received os p) by (intros p; rewrite P, in_gap_cons, in_gap_nil; cbn; tauto).
  split; [lia|]. split; [by rewrite O, O1, stream_bytes_app|]. destruct H1 as [HC _ _ _ HP].
  assert (Hm : ∀ p, received os p → p < MaxByteCount).
  { intros p (o & Ho & C)%Exists_exists. rewrite Forall_forall in F. specialize (F o Ho). destruct o; [|done]. destruct F as (_ & _ & ?). cbn in C. lia. }
  split.
  - intros p Hp. destruct (decide (Exists (covers p) os)) as [?|n]; [done|]. exfalso.
    destruct (proj2 (Pg p)) as (g & Hg & Hi); [split; [lia|done]|]. pose proof (co_range _ _ _ HC g Hg). lia.
  - intros Hr. pose proof (Hm _ Hr). destruct (co_cover _ _ _ HC (readPos s1)) as [(o & e & E0 & Ho)|Hg]; [lia| |by apply Pg in Hg as [_ ?]].
    pose proof (co_entry _ _ _ HC o e E0). replace o with (readPos s1) in E0 by lia. congruence.
Qed.

(** Whatever frames of a stream arrive - in any order, overlapping, repeated, split differently - and whenever they are read,
    no slice is out of range, no loop runs on, and the bytes handed out are the stream's, each once, from its first byte on.
    When no error ended it, popping on until there is nothing to pop hands out everything that can be: the bytes up to the first
    one that no frame contained. *)
Theorem sorter_delivers_prefix src os :
  Forall (frame_ok src) os →
  ∃ s0 s out cbs e, newFrameSorter = Some s0 ∧ run_sorter os s0 = Some (s, out, cbs, e) ∧
    out = stream_bytes src 0 (readPos s) ∧
    (e = None →
      let '(s1, out1) := drain (size (queue s)) s in
      out ++ out1 = stream_bytes src 0 (readPos s1) ∧ (∀ p, 0 <= p < readPos s1 → received os p) ∧ ¬ received os (readPos s1)).
Proof.
  intros F. destruct (new_sorting src) as (s0 & N & H0 & R0 & Q0). destruct (run_sorter_spec src os s0 _ H0 F) as (s & out & cbs & e & Rn & R & O & E).
  exists s0, s, out, cbs, e. rewrite R0 in R, O. split_and!; [done|done|done|]. intros ->.
  pose proof (run_drained src os s0 s out cbs F N Rn) as D. destruct (drain (size (queue s)) s) as [s1 out1]. by destruct D as (_ & D).
Qed.

(** The memory a peer can make the sorter spend on gaps is bounded, and the limit is exact: the connection is given up, with
    errTooManyGaps, exactly when the bytes missing after a frame form more than 20000 ranges; short of that no frame is refused. *)
Theorem gaps_bounded src os :
  Forall (frame_ok src) os →
  ∃ s0 s out cbs e, newFrameSorter = Some s0 ∧ run_sorter os s0 = Some (s, out, cbs, e) ∧
    ∃ seen rest gl, os = seen ++ rest ∧ gaps_ok gl ∧ (∀ p, in_gap gl p ↔ 0 <= p < MaxByteCount ∧ ¬ received seen p) ∧
      match e with
      | None => rest = [] ∧ Z.of_nat (length gl) <= MaxStreamFrameSorterGaps
      | Some e => e = errTooManyGaps ∧ MaxStreamFrameSorterGaps < Z.of_nat (length gl)
      end.
Proof.
  intros F. destruct (new_sorting src) as (s0 & N & H0 & R0 & Q0). destruct (run_sorter_spec src os s0 _ H0 F) as (s & out & cbs & e & Rn & R & O & E).
  exists s0, s, out, cbs, e. split_and!; [done|done|]. destruct e as [e|].
  - destruct E as (-> & seen & rest & gl & -> & G & L & P). exists seen, rest, gl. split_and!; [done|done| |done|done].
    intros p. rewrite P, in_gap_cons, in_gap_nil. cbn. tauto.
  - destruct E as (gl & [HC _ HN _ _] & P & _). exists os, [], gl. split_and!; [by rewrite app_nil_r|apply HC| |done|done].
    intros p. rewrite P, in_gap_cons, in_gap_nil. cbn. tauto.
Qed.

(** Every packet buffer is given back exactly once. While no error has ended the stream, the callbacks that were run or handed
    out with popped data, and those of the frames still queued, are together the callbacks of the frames pushed: none is lost, none
    is called twice - whether a frame was a duplicate, was copied, was replaced by a longer one, or was read. *)
Theorem buffers_given_back_once src os s0 s out cbs :
  Forall (frame_ok src) os → newFrameSorter = Some s0 → run_sorter os s0 = Some (s, out, cbs, None) →
  cbs ++ held (queue s) ≡ₚ os ≫= given.
Proof.
  intros F N0 Rn0. destruct (new_sorting src) as (s1 & N & H0 & R0 & Q0). assert (s1 = s0) as -> by congruence.
  destruct (run_sorter_spec src os s0 _ H0 F) as (s' & out' & cbs' & e & Rn & R & O & E). rewrite Rn0 in Rn. injection Rn as <- <- <- <-.
  destruct E as (gl & _ & _ & C). rewrite C, Q0. unfold held at 1. by rewrite map_to_list_empty, app_nil_r.
Qed.

(** ** Peeking *)

Lemma stream_bytes_length src a b : length (stream_bytes src a b) = Z.to_nat (b - a).
Proof. unfold stream_bytes. by rewrite length_fmap, length_seqZ. Qed.

Lemma stream_bytes_take src a b n : 0 <= n <= b - a → take (Z.to_nat n) (stream_bytes src a b) = stream_bytes src a (a + n).
Proof.
  intros Hn. rewrite <- (stream_bytes_app src a (a + n) b) by lia. rewrite take_app_length'; [done|]. rewrite stream_bytes_length. f_equal. lia.
Qed.

Lemma peek_check_spec src s gl fuel : ∀ pos r,
  sorting src s gl → (Z.to_nat r < fuel)%nat → readPos s <= pos → 0 <= r → pos + r <= MaxByteCount →
  (∃ e, queue s !! pos = Some e) ∨ (∃ g, g ∈ gl ∧ Start g = pos) ∨ pos = MaxByteCount →
  ∃ ok, peek_check fuel s pos r = Some ok ∧ (ok = true ↔ ∀ p, pos <= p < pos + r → ¬ in_gap gl p).
Proof.
  induction fuel as [|fuel IH]; intros pos r H Hf Hp Hr Hm Hb; [lia|]. cbn [peek_check].
  destruct (Z.leb_spec r 0); [exists true; split; [done|]; split; [lia|done]|]. pose proof (so_coherent _ _ _ H) as HC.
  destruct (queue s !! pos) as [e|] eqn:E0.
  - destruct (co_entry _ _ _ HC pos e E0) as (Hl & _ & Hx).
    assert (Hfree : ∀ p, pos <= p < pos + dlen e → ¬ in_gap gl p).
    { intros p Hpp (g & Hg & Hi). destruct (co_gapfree _ _ _ HC pos e g E0 Hg); lia. }
    destruct (Z.leb_spec r (dlen e)).
    + exists true. split; [done|]. split; [|done]. intros _ p Hpp. apply Hfree. lia.
    + destruct (IH (pos + dlen e) (r - dlen e)) as (ok & E & Eq); [done|lia|lia|lia|lia| |].
      * destruct (Z.eq_dec (pos + dlen e) MaxByteCount); [by right; right|].
        destruct (after_entry HC pos e E0) as [?|?]; [lia|by left|by right; left].
      * exists ok. split; [done|]. rewrite Eq. split; intros Hq p Hpp; [|apply Hq; lia].
        destruct (Z.lt_ge_cases p (pos + dlen e)); [apply Hfree; lia|apply Hq; lia].
  - destruct Hb as [[? ?]|[(g & Hg & <-)|?]]; [done| |lia]. exists false. split; [done|]. split; [done|]. intros Hq. exfalso.
    apply (Hq (Start g)); [lia|]. exists g. pose proof (co_proper HC g Hg). split; [done|lia].
Qed.

Lemma peek_copy_spec src s gl fuel : ∀ pos r,
  sorting src s gl → (Z.to_nat r < fuel)%nat → readPos s <= pos → 0 <= r → pos + r <= MaxByteCount →
  (∃ e, queue s !! pos = Some e) ∨ (∃ g, g ∈ gl ∧ Start g = pos) ∨ pos = MaxByteCount →
  (∀ p, pos <= p < pos + r → ¬ in_gap gl p) →
  peek_copy fuel s pos r = Some (stream_bytes src pos (pos + r)).
Proof.
  induction fuel as [|fuel IH]; intros pos r H Hf Hp Hr Hm Hb Hc; [lia|]. cbn [peek_copy].
  destruct (Z.leb_spec r 0). { replace r with 0 by lia. by rewrite Z.add_0_r, stream_bytes_nil. }
  pose proof (so_coherent _ _ _ H) as HC.
  destruct (queue s !! pos) as [e|] eqn:E0.
  2:{ exfalso. destruct Hb as [[? ?]|[(g & Hg & <-)|?]]; [done| |lia]. apply (Hc (Start g)); [lia|]. exists g. pose proof (co_proper HC g Hg). split; [done|lia]. }
  destruct (co_entry _ _ _ HC pos e E0) as (Hl & _ & Hx). cbn [fmap option_fmap option_map default]. unfold id. fold (dlen e).
  pose proof (from_stream_bytes src (Data e) pos (so_contents _ _ _ H pos e E0)) as De. fold (dlen e) in De.
  destruct (Z.le_gt_cases r (dlen e)).
  - replace (Z.min r (dlen e)) with r by lia. rewrite Z.sub_diag. destruct fuel as [|fuel]; [lia|]. cbn [peek_copy mbind option_bind Z.leb Z.compare].
    rewrite app_nil_r. rewrite De, stream_bytes_take by lia. done.
  - replace (Z.min r (dlen e)) with (dlen e) by lia. rewrite IH; [|done|lia|lia|lia|lia| |intros p Hpp; apply Hc; lia].
    + cbn [mbind option_bind]. rewrite take_ge by (unfold dlen in *; lia). rewrite De, stream_bytes_app by lia. do 2 f_equal. lia.
    + destruct (Z.eq_dec (pos + dlen e) MaxByteCount); [by right; right|]. destruct (after_entry HC pos e E0) as [?|?]; [lia|by left|by right; left].
Qed.

(** Peeking shows what reading would deliver: from an offset where a frame starts it returns the next n bytes of the stream when
    all of them have been received, and errTooLittleData otherwise. *)
Theorem peek_exact src s gl offset n :
  sorting src s gl → 0 < n → offset + n <= MaxByteCount → (∃ e, queue s !! offset = Some e) →
  Peek s offset n =
    Some (if decide (Forall (λ g, End g <= offset ∨ offset + n <= Start g) gl) then Some (stream_bytes src offset (offset + n)) else None).
Proof.
  intros H Hn Hm [e E0]. pose proof (so_coherent _ _ _ H) as HC. pose proof (co_entry _ _ _ HC offset e E0).
  unfold Peek. rewrite (proj2 (Z.eqb_neq _ _)) by lia.
  destruct (peek_check_spec src s gl (S (Z.to_nat n)) offset n) as (ok & -> & Eq); [done|lia|lia|lia|done|left; by exists e|].
  assert (Hd : (∀ p, offset <= p < offset + n → ¬ in_gap gl p) ↔ Forall (λ g, End g <= offset ∨ offset + n <= Start g) gl).
  { rewrite Forall_forall. split; intros Hq.
    - intros g Hg. destruct (Z.le_gt_cases (End g) offset); [by left|]. destruct (Z.le_gt_cases (offset + n) (Start g)); [by right|]. exfalso.
      pose proof (co_proper HC g Hg). apply (Hq (Z.max offset (Start g))); [lia|]. exists g. split; [done|lia].
    - intros p Hp (g & Hg & Hi). destruct (Hq g Hg); lia. }
  rewrite Hd in Eq. cbn [mbind option_bind]. case_decide as D; [rewrite (proj2 Eq D)|destruct ok; [by destruct D; apply Eq|done]].
  rewrite (peek_copy_spec src s gl); [done|done|lia|lia|lia|done|left; by exists e|by apply Hd].
Qed.

(** ** Witnesses *)

Definition count_up (p : Z) : Z := p mod 256.

Definition demo_ops : list sop :=
  [OPush [4; 5] 4 (Some 1%nat); OPush [0; 1; 2; 3; 4] 0 (Some 2%nat); OPop; OPush [5; 6; 7; 8] 5 (Some 3%nat); OPush [10; 11] 10 (Some 4%nat)].

Lemma demo_ok : Forall (frame_ok count_up) demo_ops.
Proof.
  repeat constructor; cbn [frame_ok]; unfold MaxByteCount; cbn [length]; try lia.
  - exact (stream_from count_up 4 6).
  - exact (stream_from count_up 0 5).
  - exact (stream_from count_up 5 9).
  - exact (stream_from count_up 10 12).
Qed.

Lemma sorter_delivers_prefix_witness :
  Forall (frame_ok count_up) demo_ops ∧
  ∃ s0 s out cbs e, newFrameSorter = Some s0 ∧ run_sorter demo_ops s0 = Some (s, out, cbs, e) ∧ out = stream_bytes count_up 0 (readPos s) ∧
    (e = None →
      let '(s1, out1) := drain (size (queue s)) s in
      out ++ out1 = stream_bytes count_up 0 (readPos s1) ∧ (∀ p, 0 <= p < readPos s1 → received demo_ops p) ∧ ¬ received demo_ops (readPos s1)).
Proof. split; [apply demo_ok|]. apply (sorter_delivers_prefix count_up demo_ops), demo_ok. Defined.

Lemma gaps_bounded_witness :
  Forall (frame_ok count_up) demo_ops ∧
  ∃ s0 s out cbs e, newFrameSorter = Some s0 ∧ run_sorter demo_ops s0 = Some (s, out, cbs, e) ∧
    ∃ seen rest gl, demo_ops = seen ++ rest ∧ gaps_ok gl ∧ (∀ p, in_gap gl p ↔ 0 <= p < MaxByteCount ∧ ¬ received seen p) ∧
      match e with
      | None => rest = [] ∧ Z.of_nat (length gl) <= MaxStreamFrameSorterGaps
      | Some e => e = errTooManyGaps ∧ MaxStreamFrameSorterGaps < Z.of_nat (length gl)
      end.
Proof. split; [apply demo_ok|]. apply (gaps_bounded count_up demo_ops), demo_ok. Defined.

Definition demo_start : frameSorter := mkSorter ∅ 0 (mkBtree (mkNode (mkIv 0 MaxByteCount) Nil Nil 1) 1).
Definition demo_end : option (frameSorter * list Z * list nat * option push_error) := Eval vm_compute in run_sorter demo_ops demo_start.
Definition demo_after : frameSorter := match demo_end with Some (s, _, _, _) => s | None => demo_start end.

Lemma buffers_given_back_once_witness :
  (Forall (frame_ok count_up) demo_ops ∧ newFrameSorter = Some demo_start ∧
   run_sorter demo_ops demo_start = Some (demo_after, [0; 1; 2; 3], [2; 3]%nat, None)) ∧
  [2; 3]%nat ++ held (queue demo_after) ≡ₚ demo_ops ≫= given.
Proof.
  split; [split_and!; [apply demo_ok|vm_compute; reflexivity|vm_compute; reflexivity]|].
  apply (buffers_given_back_once count_up demo_ops demo_start demo_after [0; 1; 2; 3] [2; 3]%nat);
    [apply demo_ok|vm_compute; reflexivity|vm_compute; reflexivity].
Defined.

Definition demo_gaps : list ByteInterval := [mkIv 9 10; mkIv 12 MaxByteCount].

Lemma demo_sorting : sorting count_up demo_after demo_gaps.
Proof.
  destruct (new_sorting count_up) as (s0 & N & H0 & _). assert (s0 = demo_start) as -> by (vm_compute in N; injection N as <-; reflexivity).
  destruct (run_sorter_spec count_up demo_ops _ _ H0 demo_ok) as (s' & out & cbs & e & Rn & _ & _ & E).
  assert (ED : run_sorter demo_ops demo_start = Some (demo_after, [0; 1; 2; 3], [2; 3]%nat, None)) by (vm_compute; reflexivity).
  rewrite ED in Rn. injection Rn as <- <- <- <-. destruct E as (gl & Hs & _). pose proof (so_tree _ _ _ Hs) as (_ & Eg & _).
  vm_compute in Eg. unfold demo_gaps, MaxByteCount. change (2 ^ 62 - 1) with 4611686018427387903. by rewrite Eg.
Qed.

Lemma peek_exact_witness :
  (sorting count_up demo_after demo_gaps ∧ 0 < 5 ∧ 4 + 5 <= MaxByteCount ∧ ∃ e, queue demo_after !! 4 = Some e) ∧
  Peek demo_after 4 5 =
    Some (if decide (Forall (λ g, End g <= 4 ∨ 4 + 5 <= Start g) demo_gaps) then Some (stream_bytes count_up 4 (4 + 5)) else None).
Proof.
  assert (Hm : 4 + 5 <= MaxByteCount) by (unfold MaxByteCount; lia).
  assert (He : ∃ e, queue demo_after !! 4 = Some e) by (eexists; vm_compute; reflexivity).
  split; [split_and!; [apply demo_sorting|lia|done|done]|]. apply (peek_exact count_up demo_after demo_gaps 4 5); [apply demo_sorting|lia|done|done].
Defined.
