(* ===== verification/SendStream.v ===== *)
(** * The sending side of a stream ([quic-go/send_stream.go])

    What the application writes waits in the buffer it passed or in one frame, is
    cut into frames as packets are packed, waits for acknowledgements, and is queued
    again when a packet is lost. Each function that runs under the stream's mutex is
    one function here; the connection's flow controller is passed along. A function
    that can panic (a slice out of range, a negative count, a number too large for
    the wire) returns an option. *)

From Stdlib Require Import ZArith Lia Bool.
From stdpp Require Import base list.
From S2P Require Import Prelude.
From S2P Require Import GoNet.
From S2P Require Import Wire.
From S2P Require Import WireFrames.
From S2P Require Import FlowControl.

Open Scope Z_scope.
Open Scope list_scope.

(** ** The state *)

(** A [StreamError]: the code, and whether the peer asked for the end. *)
Record stream_error := mkErr { err_code : Z; err_remote : bool }.

Record SendStream := mkSend {
  numOutstandingFrames : Z;
  retransmissionQueue : list StreamFrame;
  streamID : Z;
  reliableSize : Z;
  writeOffset : Z;
  shutdownErr : bool;
  resetErr : option stream_error;
  queuedResetStreamFrame : option ResetStreamFrame;
  dataForWriting : option (list Z);
  writeLimiter : option (Z → Z);
  writeLimited : bool;
  nextFrame : option StreamFrame;
  nextFrameReserved : bool;
  supportsResetStreamAt : bool;
  finishedWriting : bool;
  finSent : bool;
  cancellationFlagged : bool;
  completed : bool;
  flowController : streamFlowController;
}.
#[export] Instance SendStream_eta : Eta SendStream := λ s,
  mkSend (numOutstandingFrames s) (retransmissionQueue s) (streamID s) (reliableSize s) (writeOffset s) (shutdownErr s) (resetErr s)
    (queuedResetStreamFrame s) (dataForWriting s) (writeLimiter s) (writeLimited s) (nextFrame s) (nextFrameReserved s)
    (supportsResetStreamAt s) (finishedWriting s) (finSent s) (cancellationFlagged s) (completed s) (flowController s).

Definition newSendStream (id : Z) (fc : streamFlowController) (supports : bool) : SendStream :=
  mkSend 0 [] id 0 0 false None None None None false None false supports false false false false fc.

Definition reliableOffset (s : SendStream) : Z := if supportsResetStreamAt s then reliableSize s else 0.

(** The bytes of a slice that may be nil. *)
Definition dfw (s : SendStream) : list Z := default [] (dataForWriting s).
Definition next_len (s : SendStream) : Z := match nextFrame s with Some f => size (Data f) | None => 0 end.

Definition isNewlyCompleted (s : SendStream) : SendStream * bool :=
  if completed s then (s, false)
  else if 0 <? next_len s then (s, false)
  else if (0 <? numOutstandingFrames s) || (0 <? size (retransmissionQueue s)) || bool_decide (is_Some (queuedResetStreamFrame s)) then (s, false)
  else if finSent s then (s <| completed := true |>, true)
  else if bool_decide (is_Some (resetErr s)) && (cancellationFlagged s || finishedWriting s) then (s <| completed := true |>, true)
  else (s, false).

(** ** Writing *)

Inductive write_error := WReset (e : stream_error) | WShutdown | WClosed | WDeadline | WLimitReached | WWouldBlock.

Definition canBufferStreamFrame (s : SendStream) : bool :=
  if bool_decide (is_Some (writeLimiter s)) || nextFrameReserved s then false
  else next_len s + size (dfw s) <=? MaxPacketBufferSize.

(** A new frame at the write offset. *)
Definition frame_at (s : SendStream) (data : list Z) : StreamFrame := mkStreamFrame (streamID s) (writeOffset s) data false true.

Definition append_next (s : SendStream) (data : list Z) : StreamFrame :=
  match nextFrame s with Some f => f <| Data := Data f ++ data |> | None => frame_at s data end.

(** What a call of [Write] returns; the flag: the stream is completed with it. *)
Record write_result := mkWrite { wr_n : Z; wr_err : option write_error; wr_completed : bool }.

(** The deferred reset of the limiter. *)
Definition unlimit (s : SendStream) : SendStream := s <| writeLimiter := None |> <| writeLimited := false |>.

(** The end of [write]; [total] is the length of the slice it was called with. *)
Definition write_end (total n : Z) (s : SendStream) : SendStream * option write_result :=
  if n =? total then (unlimit s, Some (mkWrite n None false))
  else if shutdownErr s then (unlimit s, Some (mkWrite n (Some WShutdown) false))
  else match resetErr s with
       | Some e =>
           let '(s, done) := isNewlyCompleted (s <| cancellationFlagged := true |>) in
           (unlimit s, Some (mkWrite n (Some (WReset e)) done))
       | None => (unlimit s, Some (mkWrite n (if writeLimited s then Some WLimitReached else None) false))
       end.

(** One round of the loop of [write], after which it returns or waits ([None]).
    [expired]: a deadline is set and has passed. *)
Definition write_round (total : Z) (expired : bool) (s : SendStream) : SendStream * option write_result :=
  if writeLimited s then write_end total (total - size (dfw s)) (s <| dataForWriting := None |>)
  else if canBufferStreamFrame s && (0 <? size (dfw s)) then
    write_end total total (s <| nextFrame := Some (append_next s (dfw s)) |> <| dataForWriting := None |>)
  else
    let n := total - size (dfw s) in
    if expired then (unlimit (s <| dataForWriting := None |>), Some (mkWrite n (Some WDeadline) false))
    else if negb (bool_decide (is_Some (dataForWriting s))) || shutdownErr s || bool_decide (is_Some (resetErr s)) then write_end total n s
    else (s, None).

(** The beginning of [write]. *)
Definition write_begin (p : list Z) (limiter : option (Z → Z)) (expired : bool) (s : SendStream) : SendStream * option write_result :=
  let s := s <| writeLimiter := limiter |> <| writeLimited := false |> in
  match resetErr s with
  | Some e =>
      let '(s, done) := isNewlyCompleted (s <| cancellationFlagged := true |>) in
      (unlimit s, Some (mkWrite 0 (Some (WReset e)) done))
  | None =>
      if shutdownErr s then (unlimit s, Some (mkWrite 0 (Some WShutdown) false))
      else if finishedWriting s then (unlimit s, Some (mkWrite 0 (Some WClosed) false))
      else if expired then (unlimit s, Some (mkWrite 0 (Some WDeadline) false))
      else if size p =? 0 then (unlimit s, Some (mkWrite 0 None false))
      else write_round (size p) expired (s <| dataForWriting := Some p |>)
  end.

(** [tryWriteAll]. *)
Definition tryWriteAll (p : list Z) (s : SendStream) (c : connectionFlowController) : SendStream * connectionFlowController * write_result :=
  match resetErr s with
  | Some e =>
      let '(s, done) := isNewlyCompleted (s <| cancellationFlagged := true |>) in (s, c, mkWrite 0 (Some (WReset e)) done)
  | None =>
      if shutdownErr s then (s, c, mkWrite 0 (Some WShutdown) false)
      else if finishedWriting s then (s, c, mkWrite 0 (Some WClosed) false)
      else if size p =? 0 then (s, c, mkWrite 0 None false)
      else
        let bytesToReserve := size p + (if nextFrameReserved s then 0 else next_len s) in
        let '(fc, c, ok) := stream_TryAddBytesSent bytesToReserve (flowController s) c in
        if negb ok then (s <| flowController := fc |>, c, mkWrite 0 (Some WWouldBlock) false)
        else (s <| flowController := fc |> <| nextFrame := Some (append_next s p) |> <| nextFrameReserved := true |>, c, mkWrite (size p) None false)
  end.

(** ** Packing *)

(** The writer is woken by [signalWrite], which only matters to when it runs. *)
Definition getDataForWriting (n : Z) (s : SendStream) : option (SendStream * list Z) :=
  let d := dfw s in
  if size d <=? n then
    if size d <=? MaxPacketBufferSize then Some (s <| dataForWriting := None |>, d) else None
  else if n <=? MaxPacketBufferSize then Some (s <| dataForWriting := Some (drop (Z.to_nat n) d) |>, take (Z.to_nat n) d)
  else None.

(** [popNewStreamFrame]: the frame, and whether there is more. *)
Definition popNewStreamFrame (maxDataLen : Z) (s : SendStream) : option (SendStream * StreamFrame * bool) :=
  match nextFrame s with
  | Some f =>
      let s' := s <| nextFrame := None |> <| nextFrameReserved := false |> in
      if maxDataLen <? size (Data f) then
        let rest := mkStreamFrame (streamID s) (writeOffset s + maxDataLen) (drop (Z.to_nat maxDataLen) (Data f)) false true in
        Some (s' <| nextFrame := Some rest |> <| nextFrameReserved := nextFrameReserved s |>,
              f <| Data := take (Z.to_nat maxDataLen) (Data f) |>, true)
      else Some (s', f, bool_decide (is_Some (dataForWriting s)))
  | None =>
      '(s', data) ← getDataForWriting maxDataLen s;
      Some (s', frame_at s data, bool_decide (is_Some (dataForWriting s')) || finishedWriting s')
  end.

(** [maybeGetRetransmission], on a queue that is not empty. *)
Definition maybeGetRetransmission (maxBytes : Z) (f : StreamFrame) (q : list StreamFrame) (s : SendStream)
    : option (SendStream * option StreamFrame * bool) :=
  '(new, f', needsSplit) ← StreamSplit maxBytes f;
  if needsSplit : bool then Some (s <| retransmissionQueue := f' :: q |>, new, true)
  else Some (s <| retransmissionQueue := q |>, Some f, 0 <? size q).

(** [AddBytesSentWithLimiter] or [TryAddBytesSent], where the bytes are not reserved:
    how many may be sent, or what to answer. *)
Definition take_credit (maxDataLen : Z) (s : SendStream) (c : connectionFlowController)
    : SendStream * connectionFlowController * (Z + bool) :=
  match writeLimiter s, nextFrame s with
  | Some limiter, None =>
      let '(fc, c, (added, limited)) := stream_AddBytesSentWithLimiter maxDataLen limiter (flowController s) c in
      let s := s <| flowController := fc |> <| writeLimited ::= orb limited |> in
      (s, c, if added =? 0 then inr (negb limited) else inl added)
  | _, _ =>
      if nextFrameReserved s then (s, c, inl maxDataLen)
      else
        let '(fc, c, ok) := stream_TryAddBytesSent maxDataLen (flowController s) c in
        (s <| flowController := fc |>, c, if ok : bool then inl maxDataLen else inr true)
  end.

(** The length of the next frame of new data. *)
Definition max_data_len (maxBytes : Z) (s : SendStream) (c : connectionFlowController) : option Z :=
  let credit := if nextFrameReserved s then next_len s else stream_SendWindowSize (flowController s) c in
  let credit := if bool_decide (is_Some (resetErr s)) && (0 <? reliableOffset s) then Z.min credit (reliableOffset s - writeOffset s) else credit in
  match nextFrame s with
  | Some f => n ← StreamMaxDataLen maxBytes f; Some (Z.min (Z.min credit n) (size (Data f)))
  | None => n ← StreamMaxDataLen maxBytes (frame_at s []); Some (Z.min (Z.min credit n) (size (dfw s)))
  end.

(** What a call of [popStreamFrame] returns. *)
Record popped := mkPopped { po_frame : option StreamFrame; po_blocked : option Z; po_more : bool }.

(** After the frame is made: the offset, whether more may be sent, the blocking of the
    stream and the FIN. *)
Definition finish_pop (s : SendStream) (c : connectionFlowController) (f : StreamFrame) (more : bool) : SendStream * connectionFlowController * popped :=
  let s := s <| writeOffset := writeOffset s + size (Data f) |> in
  let more := if bool_decide (is_Some (resetErr s)) && (reliableOffset s <=? writeOffset s) then false else more in
  let more := if writeLimited s then false else more in
  let '(w, (isBlocked, offset)) := if 0 <? size (Data f) then IsNewlyBlocked (s_send (flowController s)) else (s_send (flowController s), (false, 0)) in
  let s := s <| flowController := (flowController s) <| s_send := w |> |> in
  let fin := finishedWriting s && negb (bool_decide (is_Some (dataForWriting s))) && negb (bool_decide (is_Some (nextFrame s))) && negb (finSent s) in
  (s <| finSent ::= orb fin |>, c, mkPopped (Some (f <| Fin := fin |>)) (if isBlocked : bool then Some offset else None) more).

(** New data. *)
Definition popNew (maxBytes : Z) (s : SendStream) (c : connectionFlowController) : option (SendStream * connectionFlowController * popped) :=
  if writeLimited s then Some (s, c, mkPopped None None false)
  else if (size (dfw s) =? 0) && negb (bool_decide (is_Some (nextFrame s))) then
    if finishedWriting s && negb (finSent s)
    then Some (s <| finSent := true |>, c, mkPopped (Some ((frame_at s []) <| Fin := true |>)) None false)
    else Some (s, c, mkPopped None None false)
  else
    n ← max_data_len maxBytes s c;
    if n =? 0 then Some (s, c, mkPopped None None true)
    else
      let '(s, c, r) := take_credit n s c in
      match r with
      | inr more => Some (s, c, mkPopped None None more)
      | inl n => '(s, f, more) ← popNewStreamFrame n s; Some (finish_pop s c f more)
      end.

Definition popNewOrRetransmittedStreamFrame (maxBytes : Z) (s : SendStream) (c : connectionFlowController)
    : option (SendStream * connectionFlowController * popped) :=
  let r := reliableOffset s in
  if shutdownErr s then Some (s, c, mkPopped None None false)
  else if bool_decide (is_Some (resetErr s)) && ((r =? 0) || ((r <=? writeOffset s) && (size (retransmissionQueue s) =? 0)))
  then Some (s, c, mkPopped None None false)
  else
    match retransmissionQueue s with
    | [] => popNew maxBytes s c
    | f :: q =>
        '(s', new, hasMore) ← maybeGetRetransmission maxBytes f q s;
        match new with
        | Some f => Some (s', c, mkPopped (Some f) None true)
        | None => if hasMore : bool then Some (s', c, mkPopped None None true) else popNew maxBytes s' c
        end
    end.

Definition popStreamFrame (maxBytes : Z) (s : SendStream) (c : connectionFlowController) : option (SendStream * connectionFlowController * popped) :=
  '(s, c, r) ← popNewOrRetransmittedStreamFrame maxBytes s c;
  Some (match po_frame r with Some _ => s <| numOutstandingFrames ::= Z.succ |> | None => s end, c, r).

(** ** Closing, cancelling *)

(** What happens outside the mutex: the sender is told of completion, of data, of a control frame. *)
Record notes := mkNotes { no_completed : bool; no_data : bool; no_control : bool }.
Definition quiet : notes := mkNotes false false false.

(** [Close]; the second result: whether it reports a stream that was cancelled. *)
Definition Close (s : SendStream) : SendStream * bool * notes :=
  if shutdownErr s || finishedWriting s then (s, false, quiet)
  else
    let cancelled := bool_decide (is_Some (resetErr s)) in
    let s := s <| finishedWriting := true |> in
    let s := if cancelled then s <| cancellationFlagged := true |> else s in
    let '(s, done) := isNewlyCompleted s in
    (s, cancelled, mkNotes done (negb cancelled) false).

Definition SetReliableBoundary (s : SendStream) : SendStream :=
  s <| reliableSize := Z.max (reliableSize s) (writeOffset s + next_len s) |>.

Definition returnFramesToPool (s : SendStream) : SendStream :=
  s <| retransmissionQueue := [] |> <| nextFrame := None |> <| nextFrameReserved := false |>.

(** A frame cut off at an offset inside it. *)
Definition cut_frame (bound : Z) (f : StreamFrame) : StreamFrame := f <| Data := take (Z.to_nat (bound - Offset f)) (Data f) |>.
Definition cut_queue (bound : Z) (q : list StreamFrame) : list StreamFrame :=
  omap (λ f, if bound <=? Offset f then None else Some (if Offset f + size (Data f) <=? bound then f else cut_frame bound f)) q.

(** The end of what was counted against the flow control. *)
Definition reserved_end (s : SendStream) (finalSize : Z) : Z :=
  match nextFrame s with
  | Some f => if nextFrameReserved s then Z.max finalSize (Offset f + size (Data f)) else finalSize
  | None => finalSize
  end.

(** What is left of the frame that waits, when only [r] bytes are needed. *)
Definition cut_next (r : Z) (s : SendStream) : SendStream :=
  match nextFrame s with
  | Some f =>
      if r <=? Offset f then s <| nextFrame := None |> <| nextFrameReserved := false |>
      else if r <? Offset f + size (Data f) then s <| nextFrame := Some (cut_frame r f) |> else s
  | None => s
  end.

Definition CancelWrite (errorCode : Z) (s : SendStream) : SendStream * notes :=
  if shutdownErr s then (s, quiet)
  else
    let s := s <| cancellationFlagged := true |> in
    match resetErr s with
    | Some _ => let '(s, done) := isNewlyCompleted s in (s, mkNotes done false false)
    | None =>
        let s := s <| resetErr := Some (mkErr errorCode false) |> in
        let r := reliableOffset s in
        let finalSize := reserved_end s (Z.max (writeOffset s) r) in
        let s := if r =? 0 then returnFramesToPool (s <| numOutstandingFrames := 0 |>) else s in
        let s := s <| queuedResetStreamFrame := Some (mkResetStreamFrame (streamID s) errorCode finalSize r) |> in
        let s := if 0 <? r then (cut_next r s) <| retransmissionQueue ::= cut_queue r |> else s in
        (s, mkNotes false false true)
    end.

Definition enableResetStreamAt (s : SendStream) : SendStream := s <| supportsResetStreamAt := true |>.

Definition updateSendWindow (limit : Z) (s : SendStream) : SendStream * notes :=
  let '(w, updated) := UpdateSendWindow limit (s_send (flowController s)) in
  if negb updated then (s, quiet)
  else (s <| flowController := (flowController s) <| s_send := w |> |>,
        mkNotes false (bool_decide (is_Some (dataForWriting s)) || bool_decide (is_Some (nextFrame s))) false).

Definition handleStopSendingFrame (errorCode : Z) (s : SendStream) : SendStream * notes :=
  if shutdownErr s then (s, quiet)
  else if bool_decide (is_Some (resetErr s)) && (reliableOffset s =? 0) then (s, quiet)
  else
    let finalSize := reserved_end s (writeOffset s) in
    let s := returnFramesToPool (s <| reliableSize := 0 |> <| numOutstandingFrames := 0 |>) in
    let e := default (mkErr errorCode true) (resetErr s) in
    (s <| resetErr := Some e |> <| queuedResetStreamFrame := Some (mkResetStreamFrame (streamID s) (err_code e) finalSize 0) |>,
     mkNotes false false true).

Definition getControlFrame (s : SendStream) : SendStream * option ResetStreamFrame :=
  match queuedResetStreamFrame s with
  | None => (s, None)
  | Some f => (s <| numOutstandingFrames ::= Z.succ |> <| queuedResetStreamFrame := None |>, Some f)
  end.

Definition closeForShutdown (s : SendStream) : SendStream :=
  if negb (shutdownErr s) && negb (finishedWriting s) then returnFramesToPool (s <| shutdownErr := true |>) else s.

(** ** Acknowledgements and losses *)

(** One outstanding frame less; [None]: the panic on a negative count. *)
Definition one_less (s : SendStream) : option SendStream :=
  if numOutstandingFrames s - 1 <? 0 then None else Some (s <| numOutstandingFrames ::= Z.pred |>).

Definition dropped_stream (s : SendStream) : bool := bool_decide (is_Some (resetErr s)) && (reliableOffset s =? 0).

(** [sendStreamAckHandler]. *)
Definition OnAcked (s : SendStream) : option (SendStream * notes) :=
  if dropped_stream s then Some (s, quiet)
  else s ← one_less s; let '(s, done) := isNewlyCompleted s in Some (s, mkNotes done false false).

Definition OnLost (sf : StreamFrame) (s : SendStream) : option (SendStream * notes) :=
  if dropped_stream s then Some (s, quiet)
  else
    s ← one_less s;
    let r := reliableOffset s in
    let reset := bool_decide (is_Some (resetErr s)) && (0 <? r) in
    if reset && (r <=? Offset sf) then let '(s, done) := isNewlyCompleted s in Some (s, mkNotes done false false)
    else
      let sf := if reset && (r <? Offset sf + size (Data sf)) then cut_frame r sf else sf in
      Some (s <| retransmissionQueue ::= λ q, q ++ [sf <| DataLenPresent := true |>] |>, mkNotes false true false).

(** [sendStreamResetStreamHandler]. *)
Definition reset_OnAcked (rsf : ResetStreamFrame) (s : SendStream) : option (SendStream * notes) :=
  if negb (ReliableSize rsf =? reliableOffset s) then Some (s, quiet)
  else s ← one_less s; let '(s, done) := isNewlyCompleted s in Some (s, mkNotes done false false).

Definition reset_OnLost (rsf : ResetStreamFrame) (s : SendStream) : SendStream * notes :=
  if negb (ReliableSize rsf =? reliableOffset s) then (s, quiet)
  else (s <| queuedResetStreamFrame := Some rsf |> <| numOutstandingFrames ::= Z.pred |>, mkNotes false false true).

(** ** Two defects *)

Definition demo_conn : connectionFlowController := mkConn (new_receive 1000 1000) (FlowControl.mkSend 0 1000 0).
Definition demo_stream (supports : bool) : SendStream := newSendStream 4 (newStreamFlowController 1000 1000 1000) supports.
Definition demo_peer : streamFlowController := newStreamFlowController 1000 1000 1000.
Definition ten_bytes : list Z := [0; 1; 2; 3; 4; 5; 6; 7; 8; 9].

(** The final size announced first, then the one announced after STOP_SENDING. *)
Definition stop_sending_run : option (Z * Z) :=
  let '(s, _) := write_begin ten_bytes None false (demo_stream true) in
  let '(s, _) := CancelWrite 7 (SetReliableBoundary s) in
  let '(s, f1) := getControlFrame s in
  let '(s, _) := handleStopSendingFrame 9 s in
  let '(s, f2) := getControlFrame s in
  f1 ← f1; f2 ← f2; Some (FinalSize f1, FinalSize f2).

(** STOP_SENDING that arrives before the reliable part has been sent makes the stream
    announce a second, smaller final size. The peer's flow control, which has seen the
    first, ends the connection. *)
Lemma stop_sending_changes_final_size now :
  stop_sending_run = Some (10, 0) ∧
  let '(s1, c1, e1) := UpdateHighestReceived 10 true now demo_peer demo_conn in
  e1 = None ∧ (UpdateHighestReceived 0 true now s1 c1).2 = Some FinalSizeError.
Proof. by vm_compute. Qed.

(** When the peer's support for reliable resets only becomes known after a cancelled
    stream has dropped its frames - the parameters remembered for 0-RTT did not have
    it - an acknowledgement of one of them panics. *)
Definition enable_after_cancel_run : option (Z * option (SendStream * notes)) :=
  let '(s, _) := write_begin ten_bytes None false (demo_stream false) in
  '(s, c, r) ← popStreamFrame 1200 (SetReliableBoundary s) demo_conn;
  let '(s, _) := CancelWrite 7 s in
  Some (size (default [] (Data <$> po_frame r)), OnAcked (enableResetStreamAt s)).

Lemma enable_after_cancel_panics : enable_after_cancel_run = Some (10, None).
Proof. vm_compute. reflexivity. Qed.
