(* ===== verification/SendInv.v ===== *)
(** * What the sending side of a stream keeps ([quic-go/send_stream.go])

    The invariant of a [SendStream] that is not cancelled, against the bytes the
    application has passed so far, and what each of its operations does to it. *)

From Stdlib Require Import ZArith Lia Bool.
From stdpp Require Import base list relations gmap.
From S2P Require Import Prelude.
From S2P Require Import GoNet.
From S2P Require Import Varint.
From S2P Require Import Wire.
From S2P Require Import WireFrames.
From S2P Require Import FlowControl.
From S2P Require Import SendStream.

Open Scope Z_scope.
Open Scope list_scope.

(** ** Frames of a stream *)

(** A frame that carries the content at its place. *)
Record chunk (id : Z) (content : list Z) (f : StreamFrame) : Prop := mkChunk {
  ch_id : StreamID f = id;
  ch_offset : 0 <= Offset f;
  ch_data : Data f = take (length (Data f)) (drop (Z.to_nat (Offset f)) content);
}.

(** Bytes [a] to [b] of the content, as a frame carries them. *)
Lemma take_prefix {A} (l m more : list A) : l = take (length l) m → l = take (length l) (m ++ more).
Proof.
  intros H. rewrite take_app_le; [done|]. apply (f_equal length) in H. rewrite length_take in H. lia.
Qed.

Lemma chunk_mono id content more f : chunk id content f → chunk id (content ++ more) f.
Proof.
  intros [H1 H2 H3]. split; [done|done|]. destruct (Nat.le_gt_cases (Z.to_nat (Offset f)) (length content)).
  - rewrite drop_app_le by done. by apply take_prefix.
  - rewrite drop_ge, take_nil in H3 by lia. by rewrite H3.
Qed.

Lemma chunk_end id content f : chunk id content f → Data f ≠ [] → Offset f + size (Data f) <= size content.
Proof.
  intros [_ H2 H3] Hne. apply (f_equal length) in H3. rewrite length_take, length_drop in H3. unfold size.
  assert (length (Data f) ≠ 0%nat) by (by intros ?%nil_length_inv). lia.
Qed.

Lemma take_chunk id content f n fin present :
  chunk id content f → chunk id content (mkStreamFrame (StreamID f) (Offset f) (take n (Data f)) fin present).
Proof.
  intros [H1 H2 H3]. split; cbn; [done|done|]. rewrite H3 at 1. rewrite take_take. f_equal. rewrite length_take. lia.
Qed.

Lemma drop_chunk id content f n fin present :
  0 <= n → chunk id content f → chunk id content (mkStreamFrame (StreamID f) (Offset f + n) (drop (Z.to_nat n) (Data f)) fin present).
Proof.
  intros Hn [H1 H2 H3]. split; cbn; [done|lia|]. rewrite H3 at 1. rewrite skipn_firstn_comm, length_drop, drop_drop. do 2 f_equal. lia.
Qed.

(** A frame that was or can be sent: up to [n] bytes have been packed; [fin]: and the FIN. *)
Record sendable (id : Z) (content : list Z) (n : Z) (fin : bool) (f : StreamFrame) : Prop := mkSendable {
  sd_chunk : chunk id content f;
  sd_end : Offset f + size (Data f) <= n;
  sd_size : size (Data f) <= MaxPacketBufferSize;
  sd_some : Data f ≠ [] ∨ Fin f = true;
  sd_fin : Fin f = true → fin = true ∧ Offset f + size (Data f) = n;
}.

Lemma sendable_mono id content more n n' fin fin' f :
  n <= n' → (fin = true → fin' = true ∧ n' = n) → sendable id content n fin f → sendable id (content ++ more) n' fin' f.
Proof.
  intros Hn Hf [H1 H2 H3 H4 H5]. split; [by apply chunk_mono|lia|done|done|]. intros [? ?]%H5. destruct Hf; [done|]. split; [done|lia].
Qed.

Lemma sendable_same id content n fin f present :
  sendable id content n fin f → sendable id content n fin (f <| DataLenPresent := present |>).
Proof. intros [[A B C] H2 H3 H4 H5]. by split. Qed.

(** What must reach the peer: a byte, or the FIN. *)
Inductive need := Byte (p : Z) | TheEnd.

Definition brings (n : need) (f : StreamFrame) : Prop :=
  match n with Byte p => Offset f <= p < Offset f + size (Data f) | TheEnd => Fin f = true end.

Definition needed (s : SendStream) (n : need) : Prop :=
  match n with Byte p => 0 <= p < writeOffset s | TheEnd => finSent s = true end.

(** ** The sending side *)

Record sending (id : Z) (content : list Z) (s : SendStream) : Prop := mkSending {
  se_id : streamID s = id ∧ fits id;
  se_alive : resetErr s = None ∧ shutdownErr s = false ∧ queuedResetStreamFrame s = None;
  se_offset : 0 <= writeOffset s;
  se_extent : writeOffset s + next_len s = size content;
  se_next : ∀ f, nextFrame s = Some f → chunk id content f ∧ Offset f = writeOffset s ∧ Data f ≠ [];
  se_reserved : nextFrameReserved s = true → is_Some (nextFrame s);
  se_credit : bytesSent (s_send (flowController s)) = writeOffset s + (if nextFrameReserved s then next_len s else 0);
  se_window : bytesSent (s_send (flowController s)) <= sendWindow (s_send (flowController s)) <= MaxByteCount;
  se_bytes : Forall byte_ok content ∧ Forall byte_ok (dfw s);
  se_dfw : dataForWriting s ≠ Some [];
  se_fin : finSent s = true → finishedWriting s = true ∧ nextFrame s = None;
  se_closed : finishedWriting s = true → dataForWriting s = None;
  se_queue : Forall (sendable id content (writeOffset s) (finSent s)) (retransmissionQueue s);
}.

Lemma size_pos {A} (l : list A) : 0 < size l → l ≠ [].
Proof. by intros ? ->. Qed.

Lemma next_len_nonneg s : 0 <= next_len s.
Proof. unfold next_len, size. destruct (nextFrame s); lia. Qed.

Lemma sending_offset_max id content s : sending id content s → writeOffset s <= bytesSent (s_send (flowController s)) ∧ writeOffset s <= MaxByteCount.
Proof.
  intros []. pose proof (next_len_nonneg s). destruct (nextFrameReserved s); lia.
Qed.

(** Two states that differ only in what [sending] does not mention. *)
Lemma sending_completed id content s b : sending id content s → sending id content (s <| completed := b |>).
Proof. by intros []; split. Qed.

Lemma sending_isNewlyCompleted id content s : sending id content s → sending id content (isNewlyCompleted s).1.
Proof. intros H. unfold isNewlyCompleted. repeat case_match; cbn; try done. all: by apply sending_completed. Qed.

Lemma sending_unlimit id content s : sending id content s → sending id content (unlimit s).
Proof. by intros []; split. Qed.

Lemma sendable_frame_ok id content n fin f :
  fits id → n <= MaxByteCount → Forall byte_ok content → sendable id content n fin f → frame_ok (StreamF f).
Proof.
  intros Hid Hn Hb [[C1 C2 C3] H2 H3 H4 _]. cbn. rewrite C1. split; [done|]. split; [done|]. split; [lia|]. split; [done|]. split; [done|]. split.
  - rewrite C3. by apply Forall_take, Forall_drop.
  - unfold fits, maxVarInt8, size, MaxPacketBufferSize in *. lia.
Qed.

(** Cutting a frame of the queue. *)
Lemma split_sendable id content n fin maxBytes f :
  fits id → n <= MaxByteCount → Forall byte_ok content → 0 <= maxBytes <= 16383 → sendable id content n fin f →
  match StreamSplit maxBytes f with
  | None => False
  | Some (None, f', _) => f' = f
  | Some (Some new, f', needed) =>
      needed = true ∧ sendable id content n fin new ∧ sendable id content n fin f' ∧ size (Data f') < size (Data f) ∧ ∀ x, brings x f → brings x new ∨ brings x f'
  end.
Proof.
  intros Hid Hn Hb Hm Hs. pose proof (sendable_frame_ok _ _ _ _ _ Hid Hn Hb Hs) as Hok. destruct Hs as [Hc H2 H3 H4 H5].
  pose proof (stream_split_exact maxBytes f Hok Hm) as Sp.
  destruct (StreamSplit maxBytes f) as [[[[new|] f'] needed]|] eqn:E; [|by destruct needed, Sp|done].
  destruct Sp as (-> & I1 & I2 & O1 & O2 & Hd & N1 & N2 & F1 & F2 & _ & _ & _).
  pose proof (f_equal length Hd) as Hl. rewrite length_app in Hl.
  assert (Dn : Data new = take (length (Data new)) (Data f)) by (by rewrite Hd, take_app_length).
  assert (Df : Data f' = drop (Z.to_nat (size (Data new))) (Data f)) by (unfold size; by rewrite Nat2Z.id, Hd, drop_app_length).
  split; [done|]. split; [|split].
  - pose proof (take_chunk _ _ _ (length (Data new)) (Fin new) (DataLenPresent new) Hc) as Hc'. rewrite <- Dn, <- I1, <- O1 in Hc'.
    split; [by destruct new|unfold size in *; lia|unfold size in *; lia|by left|congruence].
  - pose proof (drop_chunk _ _ _ (size (Data new)) (Fin f') (DataLenPresent f') ltac:(unfold size; lia) Hc) as Hc'.
    rewrite <- Df, <- I2, <- O2 in Hc'. split; [by destruct f'|unfold size in *; lia|unfold size in *; lia|by left|].
    rewrite F2. intros [? ?]%H5. split; [done|]. unfold size in *. lia.
  - split; [|intros [p|]; cbn; [unfold size in *; lia|]; rewrite F2; by right].
    assert (length (Data new) ≠ 0%nat) by by intros ?%nil_length_inv. unfold size. lia.
Qed.

(** ** Packing *)

(** Only a call with a limiter is limited. *)
Definition limits_kept (s s' : SendStream) : Prop :=
  writeLimiter s' = writeLimiter s ∧ (writeLimiter s = None → writeLimited s' = writeLimited s).

(** What is left to pack. *)
Definition queue_work (q : list StreamFrame) : Z := foldr (λ f n, size (Data f) + 1 + n) 0 q.
Definition work (s : SendStream) : Z := queue_work (retransmissionQueue s) + (if finSent s then 0 else 1) + next_len s + size (dfw s).

Lemma queue_work_nonneg q : 0 <= queue_work q.
Proof. induction q as [|f q IH]; cbn [queue_work foldr]; [lia|]. change (foldr _ 0 q) with (queue_work q). unfold size. lia. Qed.

(** What one call of [popStreamFrame] does: [k] are the bytes it takes from the writer. *)
Record packs (id : Z) (content k : list Z) (s s' : SendStream) (f : option StreamFrame) : Prop := mkPacks {
  pk_sending : sending id (content ++ k) s';
  pk_taken : dfw s = k ++ dfw s';
  pk_same : finishedWriting s' = finishedWriting s ∧ completed s' = completed s;
  pk_limits : limits_kept s s';
  pk_writer : dataForWriting s = None → dataForWriting s' = None;
  pk_count : numOutstandingFrames s' = numOutstandingFrames s;
  pk_offset : writeOffset s <= writeOffset s';
  pk_fin : finSent s = true → finSent s' = true ∧ writeOffset s' = writeOffset s;
  pk_frame : ∀ g, f = Some g → sendable id (content ++ k) (writeOffset s') (finSent s') g;
  pk_needed : ∀ n, needed s' n → needed s n ∨ ∃ g, f = Some g ∧ brings n g;
  pk_work : is_Some f → work s' < work s;
  pk_none : f = None → retransmissionQueue s' = retransmissionQueue s ∧ finSent s' = finSent s;
  pk_queue : ∀ n, Exists (brings n) (retransmissionQueue s) → Exists (brings n) (retransmissionQueue s') ∨ ∃ g, f = Some g ∧ brings n g;
}.

(** Nothing is packed, and only the flow control may have been asked. *)
Lemma packs_nothing id content s : sending id content s → packs id content [] s s None.
Proof. intros H. split; rewrite ?app_nil_r; try done; intros; try naive_solver. Qed.

(** A retransmission. *)
Lemma retransmission_packs id content maxBytes f q s :
  sending id content s → 0 <= maxBytes <= MaxPacketBufferSize → retransmissionQueue s = f :: q →
  ∃ s' new more, maybeGetRetransmission maxBytes f q s = Some (s', new, more) ∧ packs id content [] s s' new ∧ (new = None → more = true).
Proof.
  intros H Hm Hq. pose proof (se_queue _ _ _ H) as Hs. rewrite Hq in Hs. apply Forall_cons in Hs as [Hf Hs].
  pose proof (sending_offset_max _ _ _ H) as [_ Hn].
  unfold maybeGetRetransmission. unfold MaxPacketBufferSize in Hm.
  pose proof (split_sendable _ _ _ _ maxBytes f (proj2 (se_id _ _ _ H)) Hn (proj1 (se_bytes _ _ _ H)) ltac:(lia) Hf) as Sp.
  destruct (StreamSplit maxBytes f) as [[[[new|] f'] needs]|]; [| |done]; cbn [mbind option_bind].
  - destruct Sp as (-> & Hnew & Hf' & Hlt & Hb). eexists _, _, _. split; [reflexivity|]. split; [|done].
    assert (sending id content (s <| retransmissionQueue := f' :: q |>)) by (destruct H; split; try done; cbn; by constructor).
    split; rewrite ?app_nil_r; try done; cbn.
    + by intros ? [= <-].
    + auto.
    + intros _. unfold work, next_len, dfw. rewrite Hq. cbn. lia.
    + intros n. rewrite Hq, !Exists_cons. intros [[?|?]%Hb|?]; [right; by eexists|by left; left|by left; right].
  - subst f'. destruct needs; eexists _, _, _; (split; [reflexivity|]); (split; [|done]).
    + rewrite <- Hq. replace (s <| retransmissionQueue := retransmissionQueue s |>) with s by (by destruct s). by apply packs_nothing.
    + assert (sending id content (s <| retransmissionQueue := q |>)) by (by destruct H; split).
      split; rewrite ?app_nil_r; try done; cbn.
      * by intros ? [= <-].
      * auto.
      * intros _. unfold work, next_len, dfw. rewrite Hq. cbn. unfold size. lia.
      * intros n. rewrite Hq, Exists_cons. intros [?|?]; [right; by eexists|by left].
Qed.

(** What is there to pack. *)
Definition ready (s : SendStream) : Z := match nextFrame s with Some f => size (Data f) | None => size (dfw s) end.

Lemma StreamMaxDataLen_spec maxBytes f :
  fits (StreamID f) → 0 <= Offset f <= MaxByteCount → 0 <= maxBytes <= 16383 →
  ∃ n, StreamMaxDataLen maxBytes f = Some n ∧ 0 <= n <= maxBytes ∧ (20 <= maxBytes → 0 < n).
Proof.
  intros Hid Ho Hm.
  assert (Hok : frame_ok (StreamF (mkStreamFrame (StreamID f) (Offset f) [] true (DataLenPresent f)))).
  { cbn. unfold bytes_ok, fits, maxVarInt8, size, MaxPacketBufferSize in *. cbn. split_and!; [lia..|by right|constructor|lia|lia]. }
  destruct (stream_base _ Hok) as (base & Hb & Eh & _). change (stream_header _) with (stream_header f) in Eh. cbn [DataLenPresent] in Eh.
  destruct (fit_data_spec base maxBytes (DataLenPresent f) (proj1 Hb) ltac:(lia)) as (n & En & Hn & Hfit & Hmax).
  exists n. unfold StreamMaxDataLen. rewrite Eh. cbn [mbind option_bind]. split; [done|].
  specialize (Hmax ltac:(lia)). destruct (Z.eq_dec n 0) as [->|]; [unfold data_cost in Hmax; change (0 + 1 <=? 63) with true in Hmax; split; [lia|]; destruct (DataLenPresent f); intros; lia|].
  specialize (Hfit ltac:(done)). unfold data_cost in Hfit. repeat case_match; lia.
Qed.

Lemma max_data_len_spec id content s c maxBytes :
  sending id content s → send_ok (send c) → 0 <= maxBytes <= MaxPacketBufferSize →
  ∃ n, max_data_len maxBytes s c = Some n ∧ 0 <= n <= MaxPacketBufferSize ∧ n <= ready s ∧
    (nextFrameReserved s = false → n <= stream_SendWindowSize (flowController s) c) ∧
    (20 <= maxBytes → 0 < ready s → (nextFrameReserved s = false → 0 < stream_SendWindowSize (flowController s) c) → 0 < n).
Proof.
  intros H [Hc0 Hc] Hm. pose proof (sending_offset_max _ _ _ H) as [Ho1 Ho2]. destruct (se_id _ _ _ H) as [Hid Hf]. pose proof (se_offset _ _ _ H) as H0.
  pose proof (se_window _ _ _ H) as Hw. pose proof (next_len_nonneg s) as Hl. unfold MaxPacketBufferSize in *.
  set (credit := if nextFrameReserved s then next_len s else stream_SendWindowSize (flowController s) c).
  assert (Hcr : 0 <= credit). { subst credit. unfold stream_SendWindowSize, SendWindowSize. destruct (nextFrameReserved s); lia. }
  unfold max_data_len. fold credit. destruct (se_alive _ _ _ H) as (-> & _ & _). cbn [is_Some]. rewrite bool_decide_eq_false_2 by (by intros [? ?]). cbn [andb].
  unfold ready, next_len in *. pose proof (se_next _ _ _ H) as Hn. pose proof (se_reserved _ _ _ H) as Hr. destruct (nextFrame s) as [f|] eqn:En.
  - destruct (Hn f eq_refl) as ([C1 C2 _] & C3 & _).
    destruct (StreamMaxDataLen_spec maxBytes f) as (n & -> & Hn' & Hpos); [by rewrite C1|lia|lia|]. cbn [mbind option_bind]. eexists. split; [done|].
    unfold size in *. split; [lia|]. split; [lia|]. split; [intros R; subst credit; rewrite R; lia|].
    intros G1 G2 G3. specialize (Hpos G1). assert (0 < credit) by (subst credit; destruct (nextFrameReserved s); [done|by apply G3]). lia.
  - destruct (StreamMaxDataLen_spec maxBytes (frame_at s [])) as (n & -> & Hn' & Hpos); [cbn; by rewrite Hid|cbn; lia|lia|]. cbn [mbind option_bind]. eexists. split; [done|].
    unfold size in *. split; [lia|]. split; [lia|]. split; [intros R; subst credit; rewrite R; lia|].
    intros G1 G2 G3. specialize (Hpos G1). assert (0 < credit) by (subst credit; destruct (nextFrameReserved s); [by destruct Hr|by apply G3]). lia.
Qed.

(** The credit for [m] bytes is taken. *)
Record credited (m : Z) (s s' : SendStream) : Prop := mkCredited {
  cr_state : ∃ fc limited, s' = s <| flowController := fc |> <| writeLimited := limited |> ∧ (writeLimiter s = None → limited = writeLimited s);
  cr_sent : bytesSent (s_send (flowController s')) = bytesSent (s_send (flowController s)) + m;
  cr_window : sendWindow (s_send (flowController s')) = sendWindow (s_send (flowController s));
  cr_room : bytesSent (s_send (flowController s')) <= sendWindow (s_send (flowController s'));
}.

Lemma state_refl s : ∃ fc limited, s = s <| flowController := fc |> <| writeLimited := limited |> ∧ (writeLimiter s = None → limited = writeLimited s).
Proof. exists (flowController s), (writeLimited s). by destruct s. Qed.

Lemma credited_none s : bytesSent (s_send (flowController s)) <= sendWindow (s_send (flowController s)) → credited 0 s s.
Proof. intros H. split; [apply state_refl|lia|done|done]. Qed.

Lemma take_credit_spec n s c :
  send_ok (s_send (flowController s)) → send_ok (send c) → 0 < n → (nextFrameReserved s = true → is_Some (nextFrame s)) →
  let '(s', c', r) := take_credit n s c in
  send_ok (send c') ∧
  match r with
  | inl m => 0 < m <= n ∧ credited (if nextFrameReserved s then 0 else m) s s'
  | inr _ => credited 0 s s'
  end.
Proof.
  intros Hs Hc Hn Hr. pose proof Hs as [_ Hs']. unfold take_credit.
  assert (Try : let '(fc, c', ok) := stream_TryAddBytesSent n (flowController s) c in
    send_ok (send c') ∧ credited (if ok then n else 0) s (s <| flowController := fc |>)).
  { assert (R : credited 0 s (s <| flowController := flowController s |>)).
    { split; [exists (flowController s), (writeLimited s); by destruct s|cbn; lia|done|done]. }
    unfold stream_TryAddBytesSent. pose proof (TryAddBytesSent_spec n (send c) Hc ltac:(lia)) as Tc.
    destruct (Z.ltb_spec (sendWindow (s_send (flowController s))) (bytesSent (s_send (flowController s)))); [done|].
    destruct (Z.ltb_spec (sendWindow (s_send (flowController s)) - bytesSent (s_send (flowController s))) n); [done|].
    cbn [orb]. destruct (TryAddBytesSent n (send c)) as [cs ok]. destruct Tc as (Tc & _). destruct ok; cbn [negb]; [|done]. split; [done|].
    split; cbn; [eexists _, (writeLimited s); by destruct s|done|done|lia]. }
  assert (Plain : let '(s', c', r) := if nextFrameReserved s then (s, c, inl n) else
      let '(fc, c, ok) := stream_TryAddBytesSent n (flowController s) c in (s <| flowController := fc |>, c, if ok : bool then inl n else inr true) in
    send_ok (send c') ∧
    match r with inl m => 0 < m <= n ∧ credited (if nextFrameReserved s then 0 else m) s s' | inr _ => credited 0 s s' end).
  { destruct (nextFrameReserved s); [split; [done|]; split; [lia|by apply credited_none]|].
    destruct (stream_TryAddBytesSent n (flowController s) c) as [[fc c'] ok]. destruct Try as [T1 T2]. split; [done|]. destruct ok; [split; [lia|done]|done]. }
  destruct (writeLimiter s) as [limiter|] eqn:El; [|done]. destruct (nextFrame s) as [f|]; [done|].
  destruct (nextFrameReserved s); [by destruct (Hr eq_refl)|]. clear Try Plain. unfold stream_AddBytesSentWithLimiter.
  destruct (Z.leb_spec (sendWindow (s_send (flowController s))) (bytesSent (s_send (flowController s)))).
  { cbn. split; [done|]. split; cbn; [eexists _, _; split; [reflexivity|congruence]|lia|done|done]. }
  set (n' := Z.min n _). pose proof (limiter_spec n' limiter (send c) Hc ltac:(lia)) as Tc.
  destruct (AddBytesSentWithLimiter n' limiter (send c)) as [cs [added limited]]. destruct Tc as (Tc & _ & _ & Ha).
  destruct (Z.eqb_spec added 0) as [->|Ha0]; (split; [done|]); [|split; [lia|]]; (split; cbn; [eexists _, _; split; [reflexivity|congruence]|lia|done|lia]).
Qed.

Definition last_one (s : SendStream) : bool :=
  finishedWriting s && negb (bool_decide (is_Some (dataForWriting s))) && negb (bool_decide (is_Some (nextFrame s))) && negb (finSent s).

Lemma finish_pop_fields s c f more :
  let '(s', c', r) := finish_pop s c f more in
  c' = c ∧ ∃ fc fin, fin = last_one s ∧ po_frame r = Some (f <| Fin := fin |>) ∧
    s' = s <| writeOffset := writeOffset s + size (Data f) |> <| flowController := fc |> <| finSent := fin || finSent s |> ∧
    bytesSent (s_send fc) = bytesSent (s_send (flowController s)) ∧ sendWindow (s_send fc) = sendWindow (s_send (flowController s)).
Proof.
  unfold finish_pop. cbn. unfold IsNewlyBlocked.
  destruct (0 <? size (Data f)); [destruct (_ || _)|]; cbn; (split; [done|]); by eexists _, _.
Qed.

(** A new frame [f] at the write offset, after which the state is [s']. *)
Record moves_on (id : Z) (content k : list Z) (s s' : SendStream) (f : StreamFrame) : Prop := mkMovesOn {
  mo_same : streamID s' = streamID s ∧ resetErr s' = resetErr s ∧ shutdownErr s' = shutdownErr s ∧
    queuedResetStreamFrame s' = queuedResetStreamFrame s ∧ finishedWriting s' = finishedWriting s ∧ completed s' = completed s ∧
    numOutstandingFrames s' = numOutstandingFrames s ∧ retransmissionQueue s' = retransmissionQueue s;
  mo_frame : chunk id (content ++ k) f ∧ Offset f = writeOffset s ∧ 0 < size (Data f) <= MaxPacketBufferSize;
  mo_offset : writeOffset s' = writeOffset s + size (Data f);
  mo_next : ∀ g, nextFrame s' = Some g → chunk id (content ++ k) g ∧ Offset g = writeOffset s' ∧ Data g ≠ [];
  mo_reserved : nextFrameReserved s' = true → is_Some (nextFrame s');
  mo_extent : writeOffset s' + next_len s' = size (content ++ k);
  mo_credit : bytesSent (s_send (flowController s')) = writeOffset s' + (if nextFrameReserved s' then next_len s' else 0);
  mo_window : bytesSent (s_send (flowController s')) <= sendWindow (s_send (flowController s')) ∧
    sendWindow (s_send (flowController s')) = sendWindow (s_send (flowController s));
  mo_taken : dfw s = k ++ dfw s' ∧ dataForWriting s' ≠ Some [] ∧ (dataForWriting s = None → dataForWriting s' = None);
  mo_limits : limits_kept s s';
  mo_fin : finSent s = false ∧ finSent s' = Fin f ∧ (Fin f = true → finishedWriting s = true ∧ nextFrame s' = None);
}.

Lemma moves_on_packs id content k s s' f : sending id content s → moves_on id content k s s' f → packs id content k s s' (Some f).
Proof.
  intros H [(S1 & S2 & S3 & S4 & S5 & S6 & S7 & S8) (F1 & F2 & F3) O N R E C [W1 W2] (T1 & T2 & T3) Lm (N1 & N2 & N3)].
  destruct (se_alive _ _ _ H) as (A1 & A2 & A3). destruct (se_bytes _ _ _ H) as [B1 B2]. rewrite T1 in B2. apply Forall_app in B2 as [B2 B3].
  assert (Sending : sending id (content ++ k) s').
  { split; [rewrite S1; by apply H|by rewrite S2, S3, S4|pose proof (se_offset _ _ _ H); lia|done|done|done|done| | |done| | |].
    - split; [done|]. rewrite W2. apply H.
    - split; [|done]. by apply Forall_app.
    - rewrite N2, S5. done.
    - rewrite S5. intros ?%(se_closed _ _ _ H). by apply T3.
    - rewrite S8. eapply Forall_impl; [apply H|]. intros g. cbn. apply sendable_mono; [lia|]. congruence. }
  split; try done.
  - lia.
  - congruence.
  - intros g [= <-]. split; [done|lia|lia|left; apply size_pos; lia|]. intros E0. split; [congruence|lia].
  - intros [p|]; cbn; [|rewrite N2; intros ?; right; by exists f]. intros Hp. destruct (Z.lt_ge_cases p (writeOffset s)); [left; lia|right; exists f; split; [done|lia]].
  - intros _. unfold work. rewrite S8, N1, N2. pose proof (se_extent _ _ _ H) as He. pose proof (f_equal length T1) as Tl. rewrite length_app in Tl.
    unfold size in *. rewrite length_app in E. destruct (Fin f); lia.
  - rewrite S8. auto.
Qed.

(** Cutting the first [m] bytes off the frame that waits. *)
Lemma pop_next_packs id content s m s1 c g :
  sending id content s → nextFrame s = Some g → 0 < m <= MaxPacketBufferSize → m <= size (Data g) → credited (if nextFrameReserved s then 0 else m) s s1 →
  ∃ s2 f more, popNewStreamFrame m s1 = Some (s2, f, more) ∧
    let '(s3, c', r) := finish_pop s2 c f more in c' = c ∧ packs id content [] s s3 (po_frame r).
Proof.
  intros H Hg Hm Hl [(fc & limited & -> & Hlim) Cs Cw Cr]. cbn in Cs, Cw, Cr.
  pose proof (se_next _ _ _ H g Hg) as (Hc & Ho & Hne). pose proof (se_extent _ _ _ H) as He. unfold next_len in He. rewrite Hg in He.
  pose proof (se_credit _ _ _ H) as Hcr. unfold next_len in Hcr. rewrite Hg in Hcr.
  assert (Hf : finSent s = false). { destruct (finSent s) eqn:E; [|done]. apply (se_fin _ _ _ H) in E as [_ ?]. congruence. }
  unfold popNewStreamFrame. cbn [nextFrame]. change (nextFrame (_ <| writeLimited := _ |>)) with (nextFrame s). rewrite Hg.
  destruct (Z.ltb_spec m (size (Data g))) as [Hlt|Hge]; eexists _, _, _; (split; [reflexivity|]).
  - match goal with |- context [finish_pop ?s2 c ?f ?more] => pose proof (finish_pop_fields s2 c f more) as P; destruct (finish_pop s2 c f more) as [[s3 c'] r] end.
    destruct P as (-> & fc' & fin & Hfin & -> & -> & P1 & P2). split; [done|]. cbn in P1, P2, Hfin.
    unfold last_one in Hfin. cbn in Hfin. rewrite andb_false_r in Hfin. subst fin.
    assert (Sz : size (take (Z.to_nat m) (Data g)) = m) by (unfold size in *; rewrite length_take; lia).
    assert (Sd : size (drop (Z.to_nat m) (Data g)) = size (Data g) - m) by (unfold size in *; rewrite length_drop; lia).
    apply moves_on_packs; [done|].
    split; cbn; rewrite ?app_nil_r, ?Sz, ?Sd; try done.
    + split_and!; [|done|lia|lia]. by apply (take_chunk _ _ g _ false _).
    + intros ? [= <-]. cbn. split_and!; [|done|apply size_pos; lia].
      rewrite <- Ho, (proj1 (se_id _ _ _ H)), <- (ch_id _ _ _ Hc). apply drop_chunk; [lia|]. by rewrite (ch_id _ _ _ Hc).
    + lia.
    + rewrite P1, Cs, Hcr. destruct (nextFrameReserved s); lia.
    + rewrite P1, P2. done.
    + split; [done|]. split; [apply (se_dfw _ _ _ H)|done].
  - match goal with |- context [finish_pop ?s2 c ?f ?more] => pose proof (finish_pop_fields s2 c f more) as P; destruct (finish_pop s2 c f more) as [[s3 c'] r] end.
    destruct P as (-> & fc' & fin & Hfin & -> & -> & P1 & P2). split; [done|]. cbn in P1, P2, Hfin.
    apply moves_on_packs; [done|].
    split; cbn; rewrite ?app_nil_r; try done.
    + split_and!; [|done|lia|unfold MaxPacketBufferSize in *; lia]. by destruct Hc; split.
    + lia.
    + rewrite P1, Cs, Hcr. destruct (nextFrameReserved s); lia.
    + by rewrite P1, P2.
    + split; [done|]. split; [apply (se_dfw _ _ _ H)|done].
    + rewrite Hf, orb_false_r. split; [done|]. split; [done|]. intros ->. unfold last_one in Hfin. cbn in Hfin. by destruct (finishedWriting s).
Qed.

(** A new frame with what follows the content. *)
Lemma chunk_at_end id content k f : 
  StreamID f = id → Offset f = size content → Data f = k → chunk id (content ++ k) f.
Proof.
  intros H1 H2 H3. split; [done|unfold size in *; lia|]. rewrite H3, H2. unfold size. rewrite Nat2Z.id, drop_app_length. symmetry. by apply take_ge.
Qed.

(** What the writer waits with is cut. *)
Lemma getDataForWriting_spec m s :
  0 < m <= MaxPacketBufferSize → m <= size (dfw s) →
  ∃ d, getDataForWriting m s = Some (s <| dataForWriting := d |>, take (Z.to_nat m) (dfw s)) ∧
    dfw s = take (Z.to_nat m) (dfw s) ++ default [] d ∧ d ≠ Some [].
Proof.
  intros Hm Hl. unfold getDataForWriting. destruct (Z.leb_spec (size (dfw s)) m).
  - rewrite (proj2 (Z.leb_le _ _)) by lia. exists None. assert (E : take (Z.to_nat m) (dfw s) = dfw s) by (apply take_ge; unfold size in *; lia).
    rewrite E. cbn. by rewrite app_nil_r.
  - rewrite (proj2 (Z.leb_le _ _)) by lia. eexists. split; [done|]. cbn. split; [by rewrite take_drop|].
    intros [= E]. apply (f_equal length) in E. rewrite length_drop in E. cbn in E. unfold size in *. lia.
Qed.

Lemma pop_writer_packs id content s m s1 c :
  sending id content s → nextFrame s = None → 0 < m <= MaxPacketBufferSize → m <= size (dfw s) → credited m s s1 →
  ∃ s2 f more, popNewStreamFrame m s1 = Some (s2, f, more) ∧
    let '(s3, c', r) := finish_pop s2 c f more in c' = c ∧ packs id content (take (Z.to_nat m) (dfw s)) s s3 (po_frame r).
Proof.
  intros H Hg Hm Hl [(fc & limited & -> & Hlim) Cs Cw Cr]. cbn in Cs, Cw, Cr.
  pose proof (se_extent _ _ _ H) as He. unfold next_len in He. rewrite Hg in He.
  assert (Hrs : nextFrameReserved s = false). { destruct (nextFrameReserved s) eqn:E; [|done]. apply (se_reserved _ _ _ H) in E as [? ?]. congruence. }
  pose proof (se_credit _ _ _ H) as Hcr. rewrite Hrs in Hcr.
  assert (Hd : is_Some (dataForWriting s)) by (unfold dfw in Hl; destruct (dataForWriting s); [done|unfold size in Hl; cbn in Hl; lia]).
  assert (Hw : finishedWriting s = false). { destruct (finishedWriting s) eqn:E; [|done]. apply (se_closed _ _ _ H) in E. rewrite E in Hd. by destruct Hd. }
  assert (Hf : finSent s = false). { destruct (finSent s) eqn:E; [|done]. apply (se_fin _ _ _ H) in E as [? _]. congruence. }
  unfold popNewStreamFrame. change (nextFrame (_ <| writeLimited := _ |>)) with (nextFrame s). rewrite Hg.
  match goal with |- context [getDataForWriting m ?x] => destruct (getDataForWriting_spec m x Hm Hl) as (d & -> & Hd1 & Hd2) end.
  change (dfw (_ <| writeLimited := _ |>)) with (dfw s) in *. cbn [mbind option_bind]. eexists _, _, _. split; [reflexivity|].
  match goal with |- context [finish_pop ?s2 c ?f ?more] => pose proof (finish_pop_fields s2 c f more) as P; destruct (finish_pop s2 c f more) as [[s3 c'] r] end.
  destruct P as (-> & fc' & fin & Hfin & -> & -> & P1 & P2). split; [done|]. cbn in P1, P2, Hfin.
  unfold last_one in Hfin. cbn in Hfin. rewrite Hw in Hfin. cbn in Hfin. subst fin.
  assert (Sz : size (take (Z.to_nat m) (dfw s)) = m) by (unfold size in *; rewrite length_take; lia).
  apply moves_on_packs; [done|]. split; cbn; rewrite ?Sz, ?Hg, ?Hrs; try done.
  - split_and!; [|done|lia|lia]. apply chunk_at_end; [apply (se_id _ _ _ H)|cbn; lia|done].
  - unfold next_len. cbn. unfold size in *. rewrite length_app. lia.
  - lia.
  - by rewrite P1, P2.
  - split; [done|]. split; [done|]. intros E. rewrite E in Hd. by destruct Hd.
Qed.

(** The flow control was asked in vain. *)
Lemma credited_packs id content s s' : sending id content s → credited 0 s s' → packs id content [] s s' None.
Proof.
  intros H [(fc & limited & -> & Hlim) Cs Cw Cr]. cbn in Cs, Cw, Cr. rewrite Z.add_0_r in Cs.
  assert (sending id content (s <| flowController := fc |> <| writeLimited := limited |>)).
  { destruct H as [? ? ? ? ? ? Hcr Hw]. split; try done; cbn; [by rewrite Cs|]. by rewrite Cs, Cw. }
  split; rewrite ?app_nil_r; try done; cbn; auto; lia.
Qed.

(** A FIN on its own. *)
Lemma fin_packs id content s :
  sending id content s → dfw s = [] → nextFrame s = None → finishedWriting s = true → finSent s = false →
  packs id content [] s (s <| finSent := true |>) (Some ((frame_at s []) <| Fin := true |>)).
Proof.
  intros H Hd Hn Hw Hf. pose proof (se_extent _ _ _ H) as He. unfold next_len in He. rewrite Hn, Z.add_0_r in He.
  assert (sending id content (s <| finSent := true |>)).
  { destruct H. split; try done; cbn. eapply Forall_impl; [done|]. intros f Hs. rewrite <- (app_nil_r content). eapply sendable_mono; [..|done]; [lia|]. congruence. }
  split; rewrite ?app_nil_r; try done; cbn; auto.
  - intros g [= <-]. split; cbn; try done; [|unfold size; cbn; lia|by right|intros _; unfold size; cbn; split; [done|lia]].
    rewrite <- (app_nil_r content). apply chunk_at_end; cbn; [apply (se_id _ _ _ H)|done|done].
  - intros [p|]; cbn; [auto|]. intros _. right. by eexists.
  - intros _. unfold work, next_len, dfw. cbn. rewrite Hf. unfold queue_work. lia.
Qed.

Lemma popNew_packs id content maxBytes s c :
  sending id content s → send_ok (send c) → 0 <= maxBytes <= MaxPacketBufferSize →
  ∃ s' c' r k, popNew maxBytes s c = Some (s', c', r) ∧ send_ok (send c') ∧ packs id content k s s' (po_frame r).
Proof.
  intros H Hc Hm. unfold popNew. pose proof (packs_nothing _ _ _ H) as Nothing.
  destruct (writeLimited s). { by eexists _, _, _, []. }
  destruct (_ && _) eqn:E0.
  { apply andb_true_iff in E0 as [E1%Z.eqb_eq E2%negb_true_iff%bool_decide_eq_false]. apply eq_None_not_Some in E2.
    assert (Hd : dfw s = []) by (apply nil_length_inv; unfold size in E1; lia).
    destruct (finishedWriting s) eqn:Ef; [|by eexists _, _, _, []]. destruct (finSent s) eqn:Es; [by eexists _, _, _, []|].
    eexists _, _, _, []. split; [reflexivity|]. split; [done|]. by apply fin_packs. }
  destruct (max_data_len_spec id content s c maxBytes H Hc Hm) as (n & -> & Hn & Hr & Hw & _). cbn [mbind option_bind].
  destruct (Z.eqb_spec n 0) as [Hn0|Hn0]; [by eexists _, _, _, []|].
  assert (Hs : send_ok (s_send (flowController s))).
  { split; [|apply (se_window _ _ _ H)]. pose proof (sending_offset_max _ _ _ H). pose proof (se_offset _ _ _ H). lia. }
  pose proof (take_credit_spec n s c Hs Hc ltac:(lia) (se_reserved _ _ _ H)) as Tc.
  destruct (take_credit n s c) as [[s1 c1] r]. destruct Tc as [Hc1 Tc]. destruct r as [m|more].
  - destruct Tc as [Hm' Tc]. destruct (nextFrame s) as [g|] eqn:Hg.
    + unfold ready in Hr. rewrite Hg in Hr. destruct (pop_next_packs id content s m s1 c1 g H Hg ltac:(lia) ltac:(lia) Tc) as (s2 & f & more & -> & Pk).
      cbn [mbind option_bind]. destruct (finish_pop s2 c1 f more) as [[s3 c3] r]. destruct Pk as [-> Pk]. by eexists _, _, _, [].
    + unfold ready in Hr. rewrite Hg in Hr. assert (Hrs : nextFrameReserved s = false).
      { destruct (nextFrameReserved s) eqn:E; [|done]. apply (se_reserved _ _ _ H) in E as [? ?]. congruence. }
      rewrite Hrs in Tc. destruct (pop_writer_packs id content s m s1 c1 H Hg ltac:(lia) ltac:(lia) Tc) as (s2 & f & more & -> & Pk).
      cbn [mbind option_bind]. destruct (finish_pop s2 c1 f more) as [[s3 c3] r]. destruct Pk as [-> Pk]. by eexists _, _, _, _.
  - eexists _, _, _, []. split; [reflexivity|]. split; [done|]. by apply credited_packs.
Qed.

(** [popStreamFrame] never panics, and what it packs is the content's. *)
Lemma popStreamFrame_packs id content maxBytes s c :
  sending id content s → send_ok (send c) → 0 <= maxBytes <= MaxPacketBufferSize →
  ∃ s' s1 c' r k, popStreamFrame maxBytes s c = Some (s', c', r) ∧ send_ok (send c') ∧ packs id content k s s1 (po_frame r) ∧
    s' = match po_frame r with Some _ => s1 <| numOutstandingFrames ::= Z.succ |> | None => s1 end.
Proof.
  intros H Hc Hm. enough (∃ s1 c' r k, popNewOrRetransmittedStreamFrame maxBytes s c = Some (s1, c', r) ∧ send_ok (send c') ∧ packs id content k s s1 (po_frame r))
    as (s1 & c' & r & k & E & ? & ?) by (unfold popStreamFrame; rewrite E; by eexists _, s1, c', r, k).
  unfold popNewOrRetransmittedStreamFrame. destruct (se_alive _ _ _ H) as (-> & -> & _). rewrite bool_decide_eq_false_2 by (by intros [? ?]). cbn [andb].
  destruct (retransmissionQueue s) as [|f q] eqn:Eq; [by apply popNew_packs|].
  destruct (retransmission_packs id content maxBytes f q s H Hm Eq) as (s1 & new & more & -> & Pk & Hmore). cbn [mbind option_bind].
  destruct new as [g|]; [by eexists _, _, _, []|]. rewrite Hmore by done. by eexists _, _, _, [].
Qed.

(** ** Writing *)

(** What the network sees is the same. *)
Definition same_net (s s' : SendStream) : Prop :=
  writeOffset s' = writeOffset s ∧ numOutstandingFrames s' = numOutstandingFrames s ∧ retransmissionQueue s' = retransmissionQueue s ∧
  finSent s' = finSent s ∧ finishedWriting s' = finishedWriting s ∧ completed s' = completed s.

Lemma same_net_refl s : same_net s s.
Proof. by split_and!. Qed.

(** Data is put into the frame that waits. [fc]: the flow control after it, [b]: whether the frame is paid for. *)
Lemma append_sending id content s d d' fc b :
  sending id content s → finishedWriting s = false → d ≠ [] → Forall byte_ok d → Forall byte_ok (default [] d') → d' ≠ Some [] →
  bytesSent (s_send fc) = writeOffset s + (if b : bool then next_len s + size d else 0) →
  bytesSent (s_send fc) <= sendWindow (s_send fc) <= MaxByteCount →
  sending id (content ++ d) (s <| flowController := fc |> <| nextFrame := Some (append_next s d) |> <| nextFrameReserved := b |> <| dataForWriting := d' |>).
Proof.
  intros H Hw Hd Bd Bd' Hd' Hc Hwin. pose proof (se_extent _ _ _ H) as He. pose proof (size_pos d) as _.
  assert (Hf : finSent s = false). { destruct (finSent s) eqn:E; [|done]. apply (se_fin _ _ _ H) in E as [? _]. congruence. }
  assert (Hl : size (Data (append_next s d)) = next_len s + size d).
  { unfold append_next, next_len. destruct (nextFrame s); cbn; unfold size; rewrite ?length_app; lia. }
  split; try apply H; cbn; try done.
  - unfold next_len. cbn. rewrite Hl. unfold size in *. rewrite length_app. lia.
  - intros f [= <-]. unfold append_next. unfold next_len in He. destruct (nextFrame s) as [g|] eqn:Hg.
    + destruct (se_next _ _ _ H g Hg) as (Hc' & Ho & Hne). cbn. split_and!; [|done|by intros [? ?]%app_nil].
      destruct Hc' as [C1 C2 C3]. split; cbn; [done|done|]. rewrite length_app, drop_app_le by (unfold size in *; lia).
      rewrite C3 at 1. assert (E : drop (Z.to_nat (Offset g)) content = Data g).
      { rewrite C3, take_ge; [done|]. rewrite length_drop. unfold size in *. lia. }
      rewrite E. rewrite (take_ge (Data g)) by done. rewrite take_ge; [done|]. rewrite length_app. lia.
    + split_and!; [|done|done]. apply chunk_at_end; [apply (se_id _ _ _ H)|cbn; lia|done].
  - rewrite Hc. destruct b; [|done]. unfold next_len. cbn. rewrite Hl. unfold next_len. lia.
  - split; [|done]. apply Forall_app. split; [apply (se_bytes _ _ _ H)|done].
  - rewrite Hf. done.
  - rewrite Hw. done.
  - eapply Forall_impl; [apply H|]. intros f. cbn. apply sendable_mono; [lia|done].
Qed.

(** The writer gives up, or has nothing left. *)
Lemma stop_writing_sending id content s : sending id content s → sending id content (s <| dataForWriting := None |>).
Proof. intros []. split; try done. cbn. split; [naive_solver|constructor]. Qed.

(** No limiter outlives its call. *)
Definition unlimited (s : SendStream) : Prop := writeLimiter s = None ∧ writeLimited s = false.

(** A call of [Write] has returned [r], having passed [taken] before. *)
Definition wrote (id : Z) (content p taken : list Z) (s s' : SendStream) (r : write_result) : Prop :=
  0 <= wr_n r <= size p ∧ wr_completed r = false ∧ (wr_err r = None → wr_n r = size p) ∧ dataForWriting s' = None ∧ unlimited s' ∧ same_net s s' ∧
  ∃ more, take (Z.to_nat (wr_n r)) p = taken ++ more ∧ sending id (content ++ more) s'.

Lemma wrote_nothing id content p taken s e :
  sending id content s → p = taken ++ dfw s → (e = None → dfw s = []) →
  wrote id content p taken s (unlimit (s <| dataForWriting := None |>)) (mkWrite (size p - size (dfw s)) e false).
Proof.
  intros H -> He. unfold wrote, size. rewrite !length_app. cbn [wr_n wr_err wr_completed].
  split; [lia|]. split; [done|]. split; [intros ->%He; cbn [length]; lia|]. split; [done|]. split; [done|]. split; [by split_and!|].
  exists []. rewrite !app_nil_r. split; [|by apply sending_unlimit, stop_writing_sending].
  rewrite take_app_le by lia. apply take_ge. lia.
Qed.

Lemma write_end_alive total n s :
  resetErr s = None → shutdownErr s = false →
  write_end total n s = (unlimit s, Some (mkWrite n (if n =? total then None else if writeLimited s then Some WLimitReached else None) false)).
Proof. intros H1 H2. unfold write_end. rewrite H1, H2. by destruct (n =? total). Qed.

Lemma write_round_wrote id content s p taken expired :
  sending id content s → finishedWriting s = false → p = taken ++ dfw s →
  let '(s', r) := write_round (size p) expired s in
  match r with Some r => wrote id content p taken s s' r | None => s' = s end.
Proof.
  intros H Hw Hp. destruct (se_alive _ _ _ H) as (A1 & A2 & _). unfold write_round.
  assert (Hsz : size p = size taken + size (dfw s)) by (rewrite Hp; unfold size; rewrite length_app; lia).
  assert (Hnil : ∀ e, (if size p - size (dfw s) =? size p then None else Some e : option write_error) = None → dfw s = []).
  { intros e. destruct (Z.eqb_spec (size p - size (dfw s)) (size p)); [|done]. intros _. apply nil_length_inv. unfold size in *. lia. }
  destruct (writeLimited s) eqn:El.
  { rewrite write_end_alive by done. cbn [writeLimited]. change (writeLimited (s <| dataForWriting := None |>)) with (writeLimited s). rewrite El.
    apply wrote_nothing; [done|done|apply Hnil]. }
  destruct (canBufferStreamFrame s && (0 <? size (dfw s))) eqn:Eb.
  - apply andb_true_iff in Eb as [Eb Ed%Z.ltb_lt]. unfold canBufferStreamFrame in Eb.
    destruct (_ || _) eqn:Er in Eb; [done|]. apply orb_false_iff in Er as [_ Er].
    rewrite write_end_alive by done. rewrite Z.eqb_refl.
    split; [cbn; unfold size; lia|]. split; [done|]. split; [done|]. split; [done|]. split; [done|]. split; [by split_and!|].
    exists (dfw s). cbn [wr_n]. split; [rewrite <- Hp; apply take_ge; unfold size; lia|]. apply sending_unlimit.
    replace (s <| nextFrame := _ |> <| dataForWriting := None |>)
      with (s <| flowController := flowController s |> <| nextFrame := Some (append_next s (dfw s)) |> <| nextFrameReserved := false |> <| dataForWriting := None |>)
      by (clear - Er; destruct s; cbn in *; by subst).
    apply append_sending; [done|done|by apply size_pos|apply (se_bytes _ _ _ H)|constructor|done| |apply (se_window _ _ _ H)].
    pose proof (se_credit _ _ _ H) as Hcr. by rewrite Er in Hcr.
  - destruct expired; [by apply wrote_nothing|].
    rewrite A1, A2. rewrite (bool_decide_eq_false_2 (is_Some None)) by (by intros [? ?]). rewrite !orb_false_r.
    destruct (dataForWriting s) as [d|] eqn:Ed; cbn; [done|].
    rewrite write_end_alive by done. rewrite El. assert (Hd0 : dfw s = []) by (unfold dfw; by rewrite Ed).
    replace (unlimit s) with (unlimit (s <| dataForWriting := None |>)) by (destruct s; cbn in *; by subst).
    apply wrote_nothing; [done|done|done].
Qed.

Lemma limits_sending id content s l b : sending id content s → sending id content (s <| writeLimiter := l |> <| writeLimited := b |>).
Proof. by intros []; split. Qed.

Lemma start_writing_sending id content s p :
  sending id content s → finishedWriting s = false → p ≠ [] → Forall byte_ok p → sending id content (s <| dataForWriting := Some p |>).
Proof. intros [] Hw Hp Hb. split; try done; cbn; [naive_solver|congruence|congruence]. Qed.

(** A call that passes nothing. *)
Lemma wrote_zero id content p s s' e :
  sending id content s' → same_net s s' → unlimited s' → dataForWriting s' = None → (e = None → p = []) → wrote id content p [] s s' (mkWrite 0 e false).
Proof.
  intros H Hs Hu Hd He. unfold wrote. cbn [wr_n wr_err wr_completed]. split; [unfold size; lia|]. split; [done|]. split; [by intros ->%He|]. split; [done|]. split; [done|]. split; [done|].
  exists []. split; [done|]. by rewrite app_nil_r.
Qed.

Lemma write_begin_wrote id content s p limiter expired :
  sending id content s → dataForWriting s = None → Forall byte_ok p →
  let '(s', r) := write_begin p limiter expired s in
  match r with
  | Some r => wrote id content p [] s s' r
  | None => sending id content s' ∧ same_net s s' ∧ dfw s' = p ∧ p ≠ [] ∧ finishedWriting s' = false
  end.
Proof.
  intros H Hd Hb. unfold write_begin. set (s0 := s <| writeLimiter := limiter |> <| writeLimited := false |>).
  assert (H0 : sending id content s0) by by apply limits_sending. destruct (se_alive _ _ _ H0) as (-> & -> & _).
  assert (Hz : ∀ e, (e = None → p = []) → wrote id content p [] s (unlimit s0) (mkWrite 0 e false)).
  { intros e He. apply wrote_zero; [by apply sending_unlimit|by split_and!|done|done|done]. }
  destruct (finishedWriting s0) eqn:Hw; [by apply Hz|]. destruct expired; [by apply Hz|].
  destruct (Z.eqb_spec (size p) 0) as [Hp|Hp]; [apply Hz; intros _; apply nil_length_inv; unfold size in Hp; lia|].
  assert (Hne : p ≠ []) by by intros ->.
  pose proof (start_writing_sending id content s0 p H0 Hw Hne Hb) as H1.
  pose proof (write_round_wrote id content _ p [] false H1 Hw eq_refl) as R.
  destruct (write_round (size p) false (s0 <| dataForWriting := Some p |>)) as [s' [r|]]; [exact R|].
  rewrite R. split; [done|]. split; [by split_and!|]. by split_and!.
Qed.

Lemma tryWriteAll_wrote id content s c p :
  sending id content s → send_ok (send c) → dataForWriting s = None → unlimited s → Forall byte_ok p →
  let '(s', c', r) := tryWriteAll p s c in wrote id content p [] s s' r ∧ send_ok (send c').
Proof.
  intros H Hc Hd Hu Hb. unfold tryWriteAll. destruct (se_alive _ _ _ H) as (-> & -> & _).
  assert (Hz : ∀ e, (e = None → p = []) → wrote id content p [] s s (mkWrite 0 e false)).
  { intros e He. apply wrote_zero; [done|apply same_net_refl|done|done|done]. }
  destruct (finishedWriting s) eqn:Hw; [split; [by apply Hz|done]|].
  destruct (Z.eqb_spec (size p) 0) as [Hp|Hp]; [split; [apply Hz; intros _; apply nil_length_inv; unfold size in Hp; lia|done]|].
  set (n := size p + _). assert (Hn : 0 <= n) by (pose proof (next_len_nonneg s); subst n; unfold size; destruct (nextFrameReserved s); lia).
  pose proof (se_credit _ _ _ H) as Hcr. pose proof (se_window _ _ _ H) as Hwin. unfold stream_TryAddBytesSent.
  assert (Hs : wrote id content p [] s (s <| flowController := flowController s |>) (mkWrite 0 (Some WWouldBlock) false)).
  { replace (s <| flowController := _ |>) with s by (by destruct s). by apply Hz. }
  destruct (Z.ltb_spec (sendWindow (s_send (flowController s))) (bytesSent (s_send (flowController s)))); [done|].
  destruct (Z.ltb_spec (sendWindow (s_send (flowController s)) - bytesSent (s_send (flowController s))) n); [done|].
  cbn [orb]. pose proof (TryAddBytesSent_spec n (send c) Hc Hn) as Tc.
  destruct (TryAddBytesSent n (send c)) as [cs ok]. destruct Tc as (Tc & _). destruct ok; [|done]. split; [|done].
  assert (Hne : p ≠ []) by by intros ->.
  split; [cbn; unfold size; lia|]. split; [done|]. split; [done|]. split; [done|]. split; [done|]. split; [by split_and!|].
  exists p. split; [cbn; apply take_ge; unfold size; lia|]. cbn [negb].
  match goal with |- context [_ <| flowController := ?fc |>] => 
    pose proof (append_sending id content s p None fc true H Hw Hne Hb ltac:(constructor) ltac:(done)) as A end.
  replace (s <| flowController := _ |> <| nextFrame := _ |> <| nextFrameReserved := true |> <| dataForWriting := None |>)
    with (s <| flowController := (flowController s) <| s_send := (s_send (flowController s)) <| bytesSent := bytesSent (s_send (flowController s)) + n |> |> |>
            <| nextFrame := Some (append_next s p) |> <| nextFrameReserved := true |>) in A by (clear - Hd; destruct s; cbn in *; by subst).
  apply A; cbn; [|lia]. rewrite Hcr. subst n. destruct (nextFrameReserved s); lia.
Qed.

(** ** Closing, acknowledgements and losses *)

Lemma isNewlyCompleted_spec s :
  resetErr s = None →
  let '(s', b) := isNewlyCompleted s in
  s' = s <| completed := b || completed s |> ∧
  (b = true → completed s = false ∧ numOutstandingFrames s <= 0 ∧ retransmissionQueue s = [] ∧ finSent s = true) ∧
  (queuedResetStreamFrame s = None → next_len s <= 0 → numOutstandingFrames s <= 0 → retransmissionQueue s = [] → finSent s = true → b || completed s = true).
Proof.
  intros Hr. unfold isNewlyCompleted. rewrite Hr, (bool_decide_eq_false_2 (is_Some (None : option stream_error))) by (by intros [? ?]). cbn [andb].
  assert (E : s = s <| completed := false || completed s |>) by by destruct s.
  destruct (completed s) eqn:Ec; [by split_and!|].
  destruct (Z.ltb_spec 0 (next_len s)); [split_and!; [done|done|lia]|].
  destruct ((0 <? numOutstandingFrames s) || _ || _) eqn:Eq.
  { split_and!; [done|done|]. intros E1 _ E2 E3 _. rewrite E1, E3, (proj2 (Z.ltb_ge _ _)) in Eq by lia. done. }
  destruct (finSent s) eqn:Ef; [|by split_and!].
  apply orb_false_iff in Eq as [[E1%Z.ltb_ge E2%Z.ltb_ge]%orb_false_iff _]. split; [done|]. split; [|done]. intros _.
  split_and!; [done|done| |done]. apply nil_length_inv. unfold size in E2. lia.
Qed.

Lemma Close_spec id content s :
  sending id content s → dataForWriting s = None →
  let '(s', _, n) := Close s in
  sending id content s' ∧ s' = s <| finishedWriting := true |> <| completed := no_completed n || completed s |> ∧
  (no_completed n = true → completed s = false ∧ numOutstandingFrames s <= 0 ∧ retransmissionQueue s = [] ∧ finSent s = true).
Proof.
  intros H Hd. unfold Close. destruct (se_alive _ _ _ H) as (A1 & -> & _). destruct (finishedWriting s) eqn:Hw; cbn [orb].
  - split; [done|]. split; [|done]. destruct s. cbn in *. by subst.
  - rewrite A1, (bool_decide_eq_false_2 (is_Some (None : option stream_error))) by (by intros [? ?]).
    set (s1 := s <| finishedWriting := true |>). assert (H1 : sending id content s1).
    { destruct H. split; try done. cbn. naive_solver. }
    pose proof (isNewlyCompleted_spec s1 A1) as C. pose proof (sending_isNewlyCompleted _ _ _ H1) as H2.
    destruct (isNewlyCompleted s1) as [s' b]. destruct C as (-> & C & _). split; [exact H2|]. split; [done|exact C].
Qed.

Lemma updateSendWindow_sending id content limit s :
  sending id content s → limit <= MaxByteCount →
  ∃ fc, (updateSendWindow limit s).1 = s <| flowController := fc |> ∧ sending id content (s <| flowController := fc |>).
Proof.
  intros H Hl. unfold updateSendWindow, UpdateSendWindow. destruct (Z.ltb_spec (sendWindow (s_send (flowController s))) limit); cbn.
  - eexists. split; [done|]. pose proof (se_window _ _ _ H). destruct H. split; try done. cbn. lia.
  - exists (flowController s). split; [by destruct s|]. by destruct H; split.
Qed.

Lemma dropped_alive s : resetErr s = None → dropped_stream s = false.
Proof. intros H. unfold dropped_stream. rewrite H. by rewrite bool_decide_eq_false_2 by (by intros [? ?]). Qed.

Lemma counted_sending id content s n : sending id content s → sending id content (s <| numOutstandingFrames := n |>).
Proof. by intros []; split. Qed.

Lemma OnAcked_spec id content s :
  sending id content s → 0 < numOutstandingFrames s →
  ∃ s' n, OnAcked s = Some (s', n) ∧ sending id content s' ∧
    s' = s <| numOutstandingFrames := numOutstandingFrames s - 1 |> <| completed := no_completed n || completed s |> ∧
    (no_completed n = true → completed s = false ∧ numOutstandingFrames s <= 1 ∧ retransmissionQueue s = [] ∧ finSent s = true) ∧
    (numOutstandingFrames s <= 1 → retransmissionQueue s = [] → finSent s = true → no_completed n || completed s = true).
Proof.
  intros H Hn. destruct (se_alive _ _ _ H) as (A1 & _). unfold OnAcked, one_less. rewrite dropped_alive by done.
  rewrite (proj2 (Z.ltb_ge _ _)) by lia. cbn [mbind option_bind].
  change (s <| numOutstandingFrames ::= Z.pred |>) with (s <| numOutstandingFrames := numOutstandingFrames s - 1 |>).
  pose proof (counted_sending id content s (numOutstandingFrames s - 1) H) as H1.
  set (s1 := s <| numOutstandingFrames := _ |>) in *.
  pose proof (isNewlyCompleted_spec s1 A1) as C. pose proof (sending_isNewlyCompleted _ _ _ H1) as H2.
  destruct (isNewlyCompleted s1) as [s' b]. destruct C as (-> & C & C'). eexists _, _. split; [reflexivity|]. split; [done|]. split; [done|]. split.
  - intros (C1 & C2 & C3 & C4)%C. cbn in C2. split_and!; [done|lia|done|done].
  - intros D1 D2 D3. apply C'; [apply (se_alive _ _ _ H)| |cbn; lia|done|done].
    change (next_len s1) with (next_len s). unfold next_len. by rewrite (proj2 (se_fin _ _ _ H D3)).
Qed.

Lemma OnLost_spec id content f s :
  sending id content s → sendable id content (writeOffset s) (finSent s) f → 0 < numOutstandingFrames s →
  ∃ n, OnLost f s = Some (s <| numOutstandingFrames := numOutstandingFrames s - 1 |> <| retransmissionQueue := retransmissionQueue s ++ [f <| DataLenPresent := true |>] |>, n) ∧
    no_completed n = false ∧
    sending id content (s <| numOutstandingFrames := numOutstandingFrames s - 1 |> <| retransmissionQueue := retransmissionQueue s ++ [f <| DataLenPresent := true |>] |>).
Proof.
  intros H Hf Hn. destruct (se_alive _ _ _ H) as (A1 & _). unfold OnLost, one_less. rewrite dropped_alive by done.
  rewrite (proj2 (Z.ltb_ge _ _)) by lia. cbn [mbind option_bind]. change (resetErr (s <| numOutstandingFrames ::= Z.pred |>)) with (resetErr s).
  rewrite A1, (bool_decide_eq_false_2 (is_Some (None : option stream_error))) by (by intros [? ?]). cbn [andb].
  change (s <| numOutstandingFrames ::= Z.pred |>) with (s <| numOutstandingFrames := numOutstandingFrames s - 1 |>).
  eexists. split; [reflexivity|]. split; [done|]. destruct H. split; try done. cbn. apply Forall_app. split; [done|].
  constructor; [by apply sendable_same|constructor].
Qed.

(** A stream whose FIN is sent and that has nothing to repeat packs nothing. *)
Lemma finished_packs_nothing id content s c maxBytes :
  sending id content s → finSent s = true → retransmissionQueue s = [] → popStreamFrame maxBytes s c = Some (s, c, mkPopped None None false).
Proof.
  intros H Hf Hq. destruct (se_alive _ _ _ H) as (A1 & A2 & _). destruct (se_fin _ _ _ H Hf) as [Hw Hn]. pose proof (se_closed _ _ _ H Hw) as Hd.
  unfold popStreamFrame, popNewOrRetransmittedStreamFrame. rewrite A1, A2, Hq, (bool_decide_eq_false_2 (is_Some (None : option stream_error))) by (by intros [? ?]).
  cbn [andb]. unfold popNew, dfw. rewrite Hd, Hn, Hw, Hf. cbn. by destruct (writeLimited s).
Qed.

(** ** A closed stream gets on *)

(** A full packet always has room for a byte of a frame. *)
Lemma split_full id content n fin f f' :
  fits id → n <= MaxByteCount → Forall byte_ok content → sendable id content n fin f → StreamSplit MaxPacketBufferSize f ≠ Some (None, f', true).
Proof.
  intros Hid Hn Hb Hs E. pose proof (sendable_frame_ok _ _ _ _ _ Hid Hn Hb Hs) as Hok.
  pose proof (stream_split_exact MaxPacketBufferSize f Hok ltac:(done)) as Sp. rewrite E in Sp. destruct Sp as [_ Sp].
  destruct (Sp 0) as (l & El & Hl). destruct (stream_base f Hok) as (base & Hb0 & _ & Hbase). specialize (Hbase [0] (Fin f) ltac:(done)).
  change (with_data [0] f) with (mkStreamFrame (StreamID f) (Offset f) [0] (Fin f) (DataLenPresent f)) in El. rewrite Hbase in El. injection El as <-.
  unfold data_cost, MaxPacketBufferSize in Hl. change (size [0]) with 1 in Hl. destruct (DataLenPresent f); cbn in Hl; lia.
Qed.

Lemma credit_given n s c :
  writeLimiter s = None → n <= stream_SendWindowSize (flowController s) c → 0 <= n → (take_credit n s c).2 = inl n.
Proof.
  intros Hl Hn H0. unfold take_credit. rewrite Hl. destruct (nextFrameReserved s); [done|].
  unfold stream_SendWindowSize, SendWindowSize, stream_TryAddBytesSent, TryAddBytesSent in *. rewrite !(proj2 (Z.ltb_ge _ _)) by lia. done.
Qed.

Lemma pop_progress id content s c :
  sending id content s → send_ok (send c) → finishedWriting s = true → unlimited s → 0 < work s →
  size content <= sendWindow (s_send (flowController s)) → size content - writeOffset s <= SendWindowSize (send c) →
  ∀ s' c' r, popStreamFrame MaxPacketBufferSize s c = Some (s', c', r) → is_Some (po_frame r).
Proof.
  intros H Hc Hf [Hl1 Hl2] Hw Hs Hcs s' c' r. pose proof (se_closed _ _ _ H Hf) as Hd. pose proof (sending_offset_max _ _ _ H) as [Ho1 Ho2].
  unfold popStreamFrame, popNewOrRetransmittedStreamFrame. destruct (se_alive _ _ _ H) as (-> & -> & _). rewrite bool_decide_eq_false_2 by (by intros [? ?]). cbn [andb].
  destruct (retransmissionQueue s) as [|f q] eqn:Eq.
  - unfold popNew, dfw. rewrite Hl2, Hd, Hf. cbn [andb default negb]. change (size [] =? 0) with true. cbn [andb].
    destruct (nextFrame s) as [g|] eqn:En.
    + rewrite bool_decide_eq_true_2 by done. cbn [negb].
      destruct (max_data_len_spec id content s c MaxPacketBufferSize H Hc ltac:(done)) as (n & -> & Hn & Hr & Hw' & Hpos). cbn [mbind option_bind].
      pose proof (se_extent _ _ _ H) as He. pose proof (se_credit _ _ _ H) as Hcr. unfold next_len in He, Hcr. rewrite En in He, Hcr.
      destruct (se_next _ _ _ H g En) as (_ & _ & Hne). assert (0 < size (Data g)). { unfold size. destruct (Data g); [done|cbn; lia]. }
      assert (0 < n). { apply Hpos; [done|unfold ready; by rewrite En|]. intros R. rewrite R in Hcr. unfold stream_SendWindowSize, SendWindowSize in *. lia. }
      rewrite (proj2 (Z.eqb_neq _ _)) by lia.
      assert (Hin : (take_credit n s c).2 = inl n).
      { destruct (nextFrameReserved s) eqn:R; [unfold take_credit; by rewrite Hl1, R|]. apply credit_given; [done|by apply Hw'|lia]. }
      destruct (take_credit n s c) as [[s1 c1] r1]. cbn in Hin. subst r1. destruct (popNewStreamFrame n s1) as [[[s2 f] more]|]; [|done]. cbn [mbind option_bind].
      pose proof (finish_pop_fields s2 c1 f more) as P. destruct (finish_pop s2 c1 f more) as [[s3 c3] r3]. destruct P as (_ & fc & fin & _ & P & _).
      intros [= _ _ <-]. by rewrite P.
    + unfold work, next_len, dfw in Hw. rewrite Eq, En, Hd in Hw. destruct (finSent s); [by vm_compute in Hw|]. by intros [= _ _ <-].
  - pose proof (se_queue _ _ _ H) as Hq. rewrite Eq in Hq. apply Forall_cons in Hq as [Hq _].
    unfold maybeGetRetransmission.
    pose proof (split_sendable _ _ _ _ MaxPacketBufferSize f (proj2 (se_id _ _ _ H)) Ho2 (proj1 (se_bytes _ _ _ H)) ltac:(done) Hq) as Sp.
    pose proof (split_full _ _ _ _ f f (proj2 (se_id _ _ _ H)) Ho2 (proj1 (se_bytes _ _ _ H)) Hq) as Nf.
    destruct (StreamSplit MaxPacketBufferSize f) as [[[[new|] f'] needs]|]; [| |done]; cbn [mbind option_bind].
    + destruct Sp as (-> & _). by intros [= _ _ <-].
    + subst f'. destruct needs; [done|]. by intros [= _ _ <-].
Qed.
