(* ===== verification/StreamPipe.v ===== *)
(** * A stream from end to end
    ([quic-go/send_stream.go] at one end, [quic-go/frame_sorter.go] at the other)

    The application writes and closes, packets are packed, lost, reordered,
    repeated, acknowledged; the peer's sorter puts the bytes in order. The sending
    side is [SendStream], the receiving side [FrameSorter]; a stream that is not
    cancelled delivers what was written. *)

From Stdlib Require Import ZArith Lia Bool.
From stdpp Require Import base list relations gmap.
From S2P Require Import Prelude.
From S2P Require Import GoNet.
From S2P Require Import Wire.
From S2P Require Import WireFrames.
From S2P Require Import FlowControl.
From S2P Require Import GapTree.
From S2P Require FrameSorter.
From S2P Require Import SendStream.
From S2P Require Import SendInv.

Open Scope Z_scope.
Open Scope list_scope.

(** ** The two ends and the network between them *)

(** A frame is named by its place in [sent]; [flight] are those neither acknowledged
    nor declared lost. [heard] is the peer's history: a frame arrives, or it reads
    ([None]). [writer]: the argument of the call of [Write] that waits, [accepted]:
    what the calls that returned said they wrote. *)
Record world := mkWorld {
  snd : SendStream;
  conn : connectionFlowController;
  writer : option (list Z);
  accepted : list Z;
  sent : list StreamFrame;
  flight : list nat;
  heard : list (option nat);
  announced : nat;
}.
#[export] Instance world_eta : Eta world := λ w,
  mkWorld (snd w) (conn w) (writer w) (accepted w) (sent w) (flight w) (heard w) (announced w).

Inductive act :=
| AWrite (p : list Z) (limiter : option (Z → Z)) (expired : bool)
| ARound (expired : bool)
| ATryWriteAll (p : list Z)
| AClose
| APack (maxBytes : Z) (last : bool)
| AMaxStreamData (limit : Z)
| AMaxData (limit : Z)
| AOtherStreams (n : Z)
| AAcked (i : nat)
| ALost (i : nat)
| AArrives (i : nat)
| ARead.

Definition told (done : bool) (w : world) : world := if done then w <| announced ::= S |> else w.

(** A call of [Write] goes on, or returns. *)
Definition returned (p : list Z) (r : option write_result) (w : world) : world :=
  match r with
  | None => w <| writer := Some p |>
  | Some r => told (wr_completed r) (w <| writer := None |> <| accepted ::= λ a, a ++ take (Z.to_nat (wr_n r)) p |>)
  end.

(** [None]: a panic. [writeOnce] lets one call write at a time, and [Close] must not
    be called during one. The last frame of a packet goes without its length. The
    peer acknowledges what it got. *)
Definition step (a : act) (w : world) : option world :=
  match a with
  | AWrite p limiter expired =>
      match writer w with
      | Some _ => Some w
      | None => let '(s, r) := write_begin p limiter expired (snd w) in Some (returned p r (w <| snd := s |>))
      end
  | ARound expired =>
      match writer w with
      | None => Some w
      | Some p => let '(s, r) := write_round (size p) expired (snd w) in Some (returned p r (w <| snd := s |>))
      end
  | ATryWriteAll p =>
      match writer w with
      | Some _ => Some w
      | None => let '(s, c, r) := tryWriteAll p (snd w) (conn w) in Some (returned p (Some r) (w <| snd := s |> <| conn := c |>))
      end
  | AClose =>
      match writer w with
      | Some _ => Some w
      | None => let '(s, _, n) := Close (snd w) in Some (told (no_completed n) (w <| snd := s |>))
      end
  | APack maxBytes last =>
      '(s, c, r) ← popStreamFrame maxBytes (snd w) (conn w);
      let w := w <| snd := s |> <| conn := c |> in
      Some (match po_frame r with
            | None => w
            | Some f => w <| flight ::= λ l, l ++ [length (sent w)] |> <| sent ::= λ l, l ++ [f <| DataLenPresent := negb last |>] |>
            end)
  | AMaxStreamData limit => Some (w <| snd := (updateSendWindow limit (snd w)).1 |>)
  | AMaxData limit => Some (w <| conn := (conn w) <| send := (UpdateSendWindow limit (send (conn w))).1 |> |>)
  | AOtherStreams n => Some (w <| conn := (conn w) <| send := (TryAddBytesSent n (send (conn w))).1 |> |>)
  | AAcked i =>
      if decide (i ∈ flight w ∧ Some i ∈ heard w) then
        '(s, n) ← OnAcked (snd w); Some (told (no_completed n) (w <| snd := s |> <| flight ::= filter (λ j, j ≠ i) |>))
      else Some w
  | ALost i =>
      if decide (i ∈ flight w) then
        f ← sent w !! i; '(s, n) ← OnLost f (snd w);
        Some (told (no_completed n) (w <| snd := s |> <| flight ::= filter (λ j, j ≠ i) |>))
      else Some w
  | AArrives i => Some (if decide (i < length (sent w))%nat then w <| heard ::= λ h, h ++ [Some i] |> else w)
  | ARead => Some (w <| heard ::= λ h, h ++ [None] |>)
  end.

Fixpoint run (l : list act) (w : world) : option world :=
  match l with [] => Some w | a :: l => w ← step a w; run l w end.

Definition start (id window connWindow : Z) (supports : bool) : world :=
  mkWorld (newSendStream id (newStreamFlowController 0 0 window) supports) (mkConn (new_receive 0 0) (FlowControl.mkSend 0 connWindow 0))
    None [] [] [] [] 0.

(** What the connection and the application may pass: bytes, limits that the wire can carry. *)
Definition act_ok (a : act) : Prop :=
  match a with
  | AWrite p _ _ | ATryWriteAll p => Forall byte_ok p
  | APack maxBytes _ => 0 <= maxBytes <= MaxPacketBufferSize
  | AMaxStreamData limit => limit <= MaxByteCount
  | AOtherStreams n => 0 <= n
  | _ => True
  end.

(** The bytes the stream has taken from the application. *)
Definition written (w : world) : list Z :=
  accepted w ++ match writer w with Some p => take (length p - length (dfw (snd w))) p | None => [] end.

(** The peer's sorter, and what it has read. *)
Definition arrival (w : world) (h : option nat) : FrameSorter.sop :=
  match h with
  | Some i => match sent w !! i with Some f => FrameSorter.OPush (Data f) (Offset f) None | None => FrameSorter.OPop end
  | None => FrameSorter.OPop
  end.
Definition receiver (w : world) : option (FrameSorter.frameSorter * list Z * list nat * option FrameSorter.push_error) :=
  s ← FrameSorter.newFrameSorter; FrameSorter.run_sorter (arrival w <$> heard w) s.

(** ** The invariant *)

(** A frame that is on its way, or that the peer has. *)
Definition carried (w : world) (n : need) : Prop :=
  ∃ i f, sent w !! i = Some f ∧ brings n f ∧ (i ∈ flight w ∨ Some i ∈ heard w).

Record pipe_ok (id : Z) (w : world) : Prop := mkPipeOk {
  po_sending : sending id (written w) (snd w);
  po_conn : send_ok (send (conn w));
  po_writer : match writer w with
              | Some p => finishedWriting (snd w) = false ∧ ∃ taken, p = taken ++ dfw (snd w)
              | None => dataForWriting (snd w) = None ∧ unlimited (snd w)
              end;
  po_sent : Forall (sendable id (written w) (writeOffset (snd w)) (finSent (snd w))) (sent w);
  po_flight : NoDup (flight w) ∧ (∀ i, i ∈ flight w → (i < length (sent w))%nat) ∧ numOutstandingFrames (snd w) = size (flight w);
  po_heard : ∀ i, Some i ∈ heard w → (i < length (sent w))%nat;
  po_kept : ∀ n, needed (snd w) n → Exists (brings n) (retransmissionQueue (snd w)) ∨ carried w n;
  po_done : completed (snd w) = true → finSent (snd w) = true ∧ flight w = [] ∧ retransmissionQueue (snd w) = [];
  po_announced : announced w = if completed (snd w) then 1%nat else 0%nat;
}.

Lemma written_writer w p taken : writer w = Some p → p = taken ++ dfw (snd w) → written w = accepted w ++ taken.
Proof.
  intros Hw Hp. unfold written. rewrite Hw. f_equal. rewrite Hp, length_app.
  replace (length taken + length (dfw (snd w)) - length (dfw (snd w)))%nat with (length taken) by lia. apply take_app_length.
Qed.

Lemma written_idle w : writer w = None → written w = accepted w.
Proof. intros Hw. unfold written. by rewrite Hw, app_nil_r. Qed.

Lemma same_net_needed s s' n : same_net s s' → needed s' n → needed s n.
Proof. intros (H1 & _ & _ & H4 & _). destruct n; cbn; by rewrite ?H1, ?H4. Qed.

(** The application's side changes, and the network's does not. *)
Lemma app_side_ok id w s' c' writer' accepted' more :
  pipe_ok id w → let w' := mkWorld s' c' writer' accepted' (sent w) (flight w) (heard w) (announced w) in
  same_net (snd w) s' → send_ok (send c') → written w' = written w ++ more → sending id (written w ++ more) s' →
  match writer' with Some p => finishedWriting s' = false ∧ ∃ taken, p = taken ++ dfw s' | None => dataForWriting s' = None ∧ unlimited s' end →
  pipe_ok id w'.
Proof.
  intros [P1 P2 P3 P4 P5 P6 P7 P8 P9] w' Hn Hc Hw Hs Hwr. pose proof Hn as (N1 & N2 & N3 & N4 & N5 & N6).
  split; subst w'; cbn [snd conn writer sent flight heard announced]; try done.
  - by rewrite Hw.
  - rewrite Hw, N1, N4. eapply Forall_impl; [done|]. intros f. cbn. apply sendable_mono; [lia|done].
  - by rewrite N2.
  - intros n H. rewrite N3. apply P7. by apply (same_net_needed _ _ _ Hn).
  - by rewrite N3, N4, N6.
  - by rewrite N6.
Qed.

Lemma returned_ok id w p taken s' c' r :
  pipe_ok id w → written w = accepted w ++ taken → wrote id (written w) p taken (snd w) s' r → send_ok (send c') →
  pipe_ok id (returned p (Some r) (w <| snd := s' |> <| conn := c' |>)).
Proof.
  intros H Hw (_ & Hd & _ & Hn & Hu & Hs & more & Ht & Hse) Hc. unfold returned, told. rewrite Hd.
  apply (app_side_ok id w s' c' None (accepted w ++ take (Z.to_nat (wr_n r)) p) more H Hs Hc); [|done|done].
  rewrite written_idle by done. cbn. by rewrite Ht, Hw, app_assoc.
Qed.

Lemma pipe_write_ok id w p limiter expired :
  pipe_ok id w → writer w = None → Forall byte_ok p →
  let '(s, r) := write_begin p limiter expired (snd w) in pipe_ok id (returned p r (w <| snd := s |>)).
Proof.
  intros H Hw Hb. pose proof (po_writer _ _ H) as Pw. rewrite Hw in Pw. destruct Pw as [Pw _].
  pose proof (write_begin_wrote id _ _ p limiter expired (po_sending _ _ H) Pw Hb) as R.
  destruct (write_begin p limiter expired (snd w)) as [s [r|]].
  - apply (returned_ok id w p [] s (conn w) r H); [by rewrite written_idle, app_nil_r|done|apply (po_conn _ _ H)].
  - destruct R as (R1 & R2 & R3 & R4 & R5). cbn [returned].
    apply (app_side_ok id w s (conn w) (Some p) (accepted w) [] H R2 (po_conn _ _ H)).
    + rewrite (written_writer _ p []); [|done|by cbn; rewrite R3]. by rewrite written_idle.
    + by rewrite app_nil_r.
    + split; [done|]. exists []. by rewrite R3.
Qed.

Lemma pipe_round_ok id w p expired :
  pipe_ok id w → writer w = Some p →
  let '(s, r) := write_round (size p) expired (snd w) in pipe_ok id (returned p r (w <| snd := s |>)).
Proof.
  intros H Hw. pose proof (po_writer _ _ H) as Pw. rewrite Hw in Pw. destruct Pw as (Pf & taken & Pt).
  pose proof (write_round_wrote id _ _ p taken expired (po_sending _ _ H) Pf Pt) as R.
  destruct (write_round (size p) expired (snd w)) as [s [r|]].
  - apply (returned_ok id w p taken s (conn w) r H); [by eapply written_writer|done|apply (po_conn _ _ H)].
  - subst s. cbn [returned]. destruct w. cbn in *. by subst.
Qed.

Lemma tryWriteAll_ok id w p :
  pipe_ok id w → writer w = None → Forall byte_ok p →
  let '(s, c, r) := tryWriteAll p (snd w) (conn w) in pipe_ok id (returned p (Some r) (w <| snd := s |> <| conn := c |>)).
Proof.
  intros H Hw Hb. pose proof (po_writer _ _ H) as Pw. rewrite Hw in Pw. destruct Pw as [Pw Pu].
  pose proof (tryWriteAll_wrote id _ _ (conn w) p (po_sending _ _ H) (po_conn _ _ H) Pw Pu Hb) as R.
  destruct (tryWriteAll p (snd w) (conn w)) as [[s c] r]. destruct R as [R Hc].
  apply (returned_ok id w p [] s c r H); [by rewrite written_idle, app_nil_r|done|done].
Qed.

(** The stream is reported as completed when it becomes so. *)
Lemma completion_ok id w b :
  pipe_ok id w → (b = true → completed (snd w) = false ∧ finSent (snd w) = true ∧ flight w = [] ∧ retransmissionQueue (snd w) = []) →
  pipe_ok id (told b (w <| snd := (snd w) <| completed := b || completed (snd w) |> |>)).
Proof.
  intros [P1 P2 P3 P4 P5 P6 P7 P8 P9] Hb.
  assert (E : told b (w <| snd := (snd w) <| completed := b || completed (snd w) |> |>) =
    mkWorld ((snd w) <| completed := b || completed (snd w) |>) (conn w) (writer w) (accepted w) (sent w) (flight w) (heard w)
      (if b then S (announced w) else announced w)) by (by destruct w, b).
  rewrite E. split; cbn [snd conn writer sent flight heard announced]; try done.
  - by apply sending_completed.
  - cbn. destruct b; [by intros _; destruct (Hb eq_refl)|done].
  - cbn. rewrite P9. destruct b; [|done]. by destruct (Hb eq_refl) as (-> & _).
Qed.

Lemma pipe_close_ok id w :
  pipe_ok id w → writer w = None → let '(s, _, n) := Close (snd w) in pipe_ok id (told (no_completed n) (w <| snd := s |>)).
Proof.
  intros H Hw. pose proof (po_writer _ _ H) as Pw. rewrite Hw in Pw. destruct Pw as [Pw Pu].
  pose proof (Close_spec id _ _ (po_sending _ _ H) Pw) as C. destruct (Close (snd w)) as [[s cancelled] n]. destruct C as (C1 & -> & C3).
  assert (H1 : pipe_ok id (w <| snd := (snd w) <| finishedWriting := true |> |>)).
  { destruct H as [P1 P2 P3 P4 P5 P6 P7 P8 P9]. split; cbn; try done; [|by rewrite Hw]. 
    unfold written in *. cbn. rewrite Hw in *. by apply (sending_completed _ _ _ (completed (snd w))) in C1. }
  apply (completion_ok id _ (no_completed n) H1). intros (D1 & D2 & D3 & D4)%C3. split_and!; [done|done| |done].
  pose proof (po_flight _ _ H) as (_ & _ & Pf). apply nil_length_inv. cbn in D2. unfold size in Pf. cbn. lia.
Qed.

Lemma credit_ok id w s' c' :
  pipe_ok id w → same_net (snd w) s' → sending id (written w) s' → dataForWriting s' = dataForWriting (snd w) →
  writeLimiter s' = writeLimiter (snd w) ∧ writeLimited s' = writeLimited (snd w) → send_ok (send c') →
  pipe_ok id (w <| snd := s' |> <| conn := c' |>).
Proof.
  intros H Hn Hs Hd [L1 L2] Hc. assert (E : dfw s' = dfw (snd w)) by (unfold dfw; by rewrite Hd).
  apply (app_side_ok id w s' c' (writer w) (accepted w) [] H Hn Hc).
  - unfold written. cbn. by rewrite E, app_nil_r.
  - by rewrite app_nil_r.
  - pose proof (po_writer _ _ H) as Pw. unfold unlimited. destruct (writer w); rewrite ?Hd, ?E, ?L1, ?L2; [|done]. destruct Hn as (_ & _ & _ & _ & -> & _). done.
Qed.

Lemma windows_ok id w a :
  pipe_ok id w → act_ok a → match a with AMaxStreamData _ | AMaxData _ | AOtherStreams _ => True | _ => False end →
  ∃ w', step a w = Some w' ∧ pipe_ok id w'.
Proof.
  intros H Ha. pose proof (po_conn _ _ H) as Hc. pose proof (po_sending _ _ H) as Hs.
  assert (Same : ∀ c', send_ok (send c') → pipe_ok id (w <| conn := c' |>)).
  { intros c' Hc'. exact (credit_ok id w (snd w) c' H (same_net_refl _) Hs eq_refl (conj eq_refl eq_refl) Hc'). }
  destruct a as [| | | | |limit|limit|n| | | |]; intros []; cbn [step]; eexists; (split; [reflexivity|]).
  - destruct (updateSendWindow_sending id _ limit _ Hs Ha) as (fc & -> & Hs'). apply (credit_ok id w _ (conn w) H); [by split_and!|done|done|done|done].
  - apply Same. by apply UpdateSendWindow_ok.
  - apply Same. cbn. pose proof (TryAddBytesSent_spec n _ Hc Ha) as T. destruct (TryAddBytesSent n _). apply T.
Qed.

(** What was sent stays sent. *)
Lemma carried_more w w' n :
  sent w `prefix_of` sent w' → (∀ i, i ∈ flight w → i ∈ flight w' ∨ Some i ∈ heard w') → (∀ i, Some i ∈ heard w → Some i ∈ heard w') →
  carried w n → carried w' n.
Proof.
  intros Hs Hf Hh (i & f & Hi & Hb & [H|H]); exists i, f; (split; [by eapply prefix_lookup_Some|]); (split; [done|]); [by apply Hf|right; by apply Hh].
Qed.

Lemma pack_ok id w maxBytes last :
  pipe_ok id w → 0 <= maxBytes <= MaxPacketBufferSize → ∃ w', step (APack maxBytes last) w = Some w' ∧ pipe_ok id w'.
Proof.
  intros H Hm. destruct (decide (completed (snd w) = true)) as [Hd|Hd].
  { destruct (po_done _ _ H Hd) as (D1 & D2 & D3). cbn [step].
    rewrite (finished_packs_nothing id _ _ _ _ (po_sending _ _ H) D1 D3). cbn. eexists. split; [done|].
    by destruct w. }
  apply not_true_is_false in Hd.
  destruct (popStreamFrame_packs id _ maxBytes _ _ (po_sending _ _ H) (po_conn _ _ H) Hm) as (s' & s1 & c' & r & k & E & Hc & Pk & ->).
  cbn [step]. rewrite E. cbn [mbind option_bind]. eexists. split; [reflexivity|].
  destruct Pk as [K1 K2 [K3 K3'] [L1 L2] K4 K5 K6 K7 K8 K9 _ _ K10]. destruct H as [P1 P2 P3 P4 P5 P6 P7 P8 P9].
  assert (Hwr : ∀ w', accepted w' = accepted w → writer w' = writer w → dfw (snd w') = dfw s1 → written w' = written w ++ k).
  { intros w' H1 H2 H3. destruct (writer w) as [p|] eqn:Ew.
    - destruct P3 as [_ [taken Ht]]. rewrite (written_writer w p taken Ew Ht). rewrite (written_writer w' p (taken ++ k)); [|done|].
      + by rewrite H1, app_assoc.
      + by rewrite H3, <- app_assoc, <- K2.
    - rewrite !written_idle by done. rewrite H1. unfold dfw in K2. rewrite (proj1 P3) in K2. cbn in K2. symmetry in K2. apply app_nil in K2 as [-> _]. by rewrite app_nil_r. }
  assert (Hwriter : match writer w with Some p => finishedWriting s1 = false ∧ (∃ taken, p = taken ++ dfw s1) | None => dataForWriting s1 = None ∧ unlimited s1 end).
  { destruct (writer w) as [p|]; [|destruct P3 as (Q1 & Q2 & Q3); split; [by apply K4|]; split; [congruence|rewrite L2; congruence]]. destruct P3 as (F & taken & ->). split; [congruence|]. exists (taken ++ k). by rewrite K2, app_assoc. }
  assert (Hsent : Forall (sendable id (written w ++ k) (writeOffset s1) (finSent s1)) (sent w)).
  { eapply Forall_impl; [done|]. intros f. cbn. by apply sendable_mono. }
  destruct (po_frame r) as [f|].
  - split; cbn [snd conn writer sent flight heard announced set_field].
    + rewrite (Hwr _) by done. by apply counted_sending.
    + done.
    + done.
    + rewrite (Hwr _) by done. apply Forall_app. split; [done|]. constructor; [|constructor]. apply sendable_same. by apply K8.
    + destruct P5 as (F1 & F2 & F3). cbn. split_and!.
      * apply NoDup_app. split; [done|]. split; [|apply NoDup_singleton]. intros i Hi ->%list_elem_of_singleton. apply F2 in Hi. lia.
      * intros i [Hi%F2| ->%list_elem_of_singleton]%elem_of_app; rewrite length_app; cbn; lia.
      * rewrite K5, F3. unfold size. rewrite length_app. cbn. lia.
    + cbn. intros i Hi%P6. rewrite length_app. lia.
    + set (w' := _ : world). assert (New : ∀ n, brings n f → carried w' n).
      { intros n Hb. exists (length (sent w)), (f <| DataLenPresent := negb last |>). split; [cbn; by rewrite lookup_app_r, Nat.sub_diag|].
        split; [by destruct n|]. left. cbn. set_solver. }
      intros n [Hn|(g & [= <-] & Hb)]%K9; [|right; by apply New]. destruct (P7 n Hn) as [Hq|Hq].
      * destruct (K10 n Hq) as [?|(g & [= <-] & Hb)]; [by left|right; by apply New].
      * right. eapply carried_more; [..|exact Hq]; cbn; [by eexists|set_solver|done].
    + cbn. rewrite K3', Hd. done.
    + cbn. rewrite K3'. done.
  - split; cbn [snd conn writer sent flight heard announced set_field]; try done.
    + by rewrite (Hwr _) by done.
    + by rewrite (Hwr _) by done.
    + cbn. by rewrite K5.
    + intros n [Hn|(g & [= ] & _)]%K9. destruct (P7 n Hn) as [Hq|Hq]; [|by right]. destruct (K10 n Hq) as [?|(g & [= ] & _)]. by left.
    + cbn. by rewrite K3', Hd.
    + cbn. by rewrite K3'.
Qed.

Lemma filter_size i (l : list nat) : NoDup l → i ∈ l → size (filter (λ j, j ≠ i) l) = size l - 1.
Proof.
  intros Hn Hi. apply list_elem_of_split in Hi as (l1 & l2 & ->). apply NoDup_app in Hn as (N1 & N2 & N3). apply NoDup_cons in N3 as [N3 N4].
  assert (Hf : ∀ l : list nat, i ∉ l → filter (λ j, j ≠ i) l = l).
  { induction l as [|x l IH]; intros Hl; [done|]. rewrite filter_cons. rewrite decide_True by set_solver. rewrite IH by set_solver. done. }
  rewrite filter_app, filter_cons, decide_False by tauto. rewrite !Hf by set_solver. unfold size. rewrite !length_app. cbn. lia.
Qed.

(** A frame leaves the flight; [queue] is what is to be repeated then. *)
Lemma landed_ok id w i queue :
  pipe_ok id w → i ∈ flight w →
  sending id (written w) ((snd w) <| numOutstandingFrames := numOutstandingFrames (snd w) - 1 |> <| retransmissionQueue := queue |>) →
  (∀ n, Exists (brings n) (retransmissionQueue (snd w)) → Exists (brings n) queue) →
  (∀ n f, sent w !! i = Some f → brings n f → Exists (brings n) queue ∨ Some i ∈ heard w) →
  pipe_ok id (w <| snd := (snd w) <| numOutstandingFrames := numOutstandingFrames (snd w) - 1 |> <| retransmissionQueue := queue |> |>
                <| flight ::= filter (λ j, j ≠ i) |>).
Proof.
  intros [P1 P2 P3 P4 P5 P6 P7 P8 P9] Hi Hs Hq Hl. destruct P5 as (F1 & F2 & F3). split; cbn; try done.
  - split_and!; [by apply NoDup_filter| |by rewrite F3, filter_size].
    intros j [_ Hj]%list_elem_of_filter. by apply F2.
  - intros n Hn. destruct (P7 n Hn) as [?|(j & f & Hj & Hb & Hf)]; [left; by apply Hq|].
    destruct (decide (j = i)) as [->|Hne].
    + destruct (Hl n f Hj Hb) as [?|?]; [by left|]. right. exists i, f. split; [done|]. split; [done|by right].
    + right. exists j, f. split; [done|]. split; [done|]. destruct Hf as [Hf|Hf]; [left|by right]. cbn. by apply list_elem_of_filter.
  - intros Hc. destruct (P8 Hc) as (_ & E & _). rewrite E in Hi. set_solver.
Qed.

Lemma acked_ok id w i : pipe_ok id w → ∃ w', step (AAcked i) w = Some w' ∧ pipe_ok id w'.
Proof.
  intros H. cbn [step]. destruct (decide (i ∈ flight w ∧ Some i ∈ heard w)) as [[Hi Hh]|_]; [|by exists w].
  destruct (po_flight _ _ H) as (F1 & F2 & F3).
  assert (Hpos : 0 < numOutstandingFrames (snd w)). { rewrite F3. unfold size. destruct (flight w); [set_solver|cbn; lia]. }
  destruct (OnAcked_spec id _ _ (po_sending _ _ H) Hpos) as (s' & n & -> & Hs & -> & Hn & _). cbn [mbind option_bind]. eexists. split; [reflexivity|].
  pose proof (landed_ok id w i (retransmissionQueue (snd w)) H Hi) as L.
  assert (H1 : pipe_ok id (w <| snd := (snd w) <| numOutstandingFrames := numOutstandingFrames (snd w) - 1 |> |> <| flight ::= filter (λ j, j ≠ i) |>)).
  { apply L; [|done|intros m f _ _; by right]. apply (sending_completed _ _ _ (completed (snd w))) in Hs. by destruct (snd w). }
  apply (completion_ok id _ (no_completed n) H1). cbn. intros (D1 & D2 & D3 & D4)%Hn. split_and!; [done|done| |done].
  apply nil_length_inv. pose proof (filter_size i _ F1 Hi). unfold size in *. lia.
Qed.

Lemma lost_ok id w i : pipe_ok id w → ∃ w', step (ALost i) w = Some w' ∧ pipe_ok id w'.
Proof.
  intros H. cbn [step]. destruct (decide (i ∈ flight w)) as [Hi|_]; [|by exists w].
  destruct (po_flight _ _ H) as (F1 & F2 & F3). destruct (lookup_lt_is_Some_2 _ _ (F2 i Hi)) as [f Hf]. rewrite Hf. cbn [mbind option_bind].
  assert (Hpos : 0 < numOutstandingFrames (snd w)). { rewrite F3. unfold size. destruct (flight w); [set_solver|cbn; lia]. }
  pose proof (po_sent _ _ H) as Hsent. rewrite Forall_lookup in Hsent.
  destruct (OnLost_spec id _ f _ (po_sending _ _ H) (Hsent i f Hf) Hpos) as (n & -> & Hn & Hs). cbn [mbind option_bind]. eexists. split; [reflexivity|].
  rewrite Hn. cbn [told]. apply (landed_ok id w i _ H Hi Hs).
  - intros m Hm. apply Exists_app. by left.
  - intros m g Hg Hb. left. apply Exists_app. right. constructor. assert (g = f) as -> by congruence. by destruct m.
Qed.

Lemma heard_ok id w h : pipe_ok id w → (∀ i, h = Some i → (i < length (sent w))%nat) → pipe_ok id (w <| heard ::= λ l, l ++ [h] |>).
Proof.
  intros [P1 P2 P3 P4 P5 P6 P7 P8 P9] Hh. split; cbn; try done.
  - intros i [Hi|Hi%list_elem_of_singleton]%elem_of_app; [by apply P6|by apply Hh].
  - intros n Hn. destruct (P7 n Hn) as [?|Hc]; [by left|right]. eapply carried_more; [..|exact Hc]; cbn; [done|by left|].
    intros i Hi. apply elem_of_app. by left.
Qed.

(** No step panics, and each keeps the invariant. *)
Lemma pipe_step_ok id w a : pipe_ok id w → act_ok a → ∃ w', step a w = Some w' ∧ pipe_ok id w'.
Proof.
  intros H Ha. destruct a as [p limiter expired|expired|p| |maxBytes last|limit|limit|n|i|i|i|]; cbn [act_ok] in Ha.
  - cbn [step]. destruct (writer w) as [q|] eqn:Hw; [by exists w|]. pose proof (pipe_write_ok id w p limiter expired H Hw Ha) as R.
    destruct (write_begin p limiter expired (snd w)) as [s r]. by eexists.
  - cbn [step]. destruct (writer w) as [q|] eqn:Hw; [|by exists w]. pose proof (pipe_round_ok id w q expired H Hw) as R.
    destruct (write_round (size q) expired (snd w)) as [s r]. by eexists.
  - cbn [step]. destruct (writer w) as [q|] eqn:Hw; [by exists w|]. pose proof (tryWriteAll_ok id w p H Hw Ha) as R.
    destruct (tryWriteAll p (snd w) (conn w)) as [[s c] r]. by eexists.
  - cbn [step]. destruct (writer w) as [q|] eqn:Hw; [by exists w|]. pose proof (pipe_close_ok id w H Hw) as R.
    destruct (Close (snd w)) as [[s cancelled] n]. by eexists.
  - by apply pack_ok.
  - by apply windows_ok.
  - by apply windows_ok.
  - by apply windows_ok.
  - by apply acked_ok.
  - by apply lost_ok.
  - cbn [step]. eexists. split; [reflexivity|]. destruct (decide _); [|done]. apply heard_ok; [done|]. by intros j [= <-].
  - cbn [step]. eexists. split; [reflexivity|]. by apply heard_ok.
Qed.

(** A stream is completed as soon as nothing is outstanding any more. *)
Definition reported (w : world) : Prop :=
  finSent (snd w) = true → flight w = [] → retransmissionQueue (snd w) = [] → completed (snd w) = true.

Lemma reported_same w w' :
  finSent (snd w') = finSent (snd w) → flight w' = flight w → retransmissionQueue (snd w') = retransmissionQueue (snd w) →
  (completed (snd w) = true → completed (snd w') = true) → reported w → reported w'.
Proof. unfold reported. intros -> -> -> Hc H ???. by apply Hc, H. Qed.

Lemma told_snd b w : snd (told b w) = snd w ∧ flight (told b w) = flight w ∧ accepted (told b w) = accepted w ∧ heard (told b w) = heard w ∧ sent (told b w) = sent w.
Proof. by destruct b. Qed.

Lemma reported_told b w : reported w → reported (told b w).
Proof. by destruct b. Qed.

Lemma reported_returned w p r s' c' :
  same_net (snd w) s' → reported w → reported (returned p r (w <| snd := s' |> <| conn := c' |>)).
Proof.
  intros (_ & _ & N3 & N4 & _ & N6) H. destruct r as [r|]; cbn [returned]; [apply reported_told|]; apply (reported_same w); cbn; try done; congruence.
Qed.

Lemma reported_pack id w maxBytes last w' : pipe_ok id w → 0 <= maxBytes <= MaxPacketBufferSize → step (APack maxBytes last) w = Some w' → reported w → reported w'.
Proof.
  intros H Hm. cbn [step].
  destruct (popStreamFrame_packs id _ maxBytes _ _ (po_sending _ _ H) (po_conn _ _ H) Hm) as (s' & s1 & c' & r & k & -> & _ & Pk & ->).
  cbn [mbind option_bind]. intros [= <-] Hr. destruct (po_frame r) as [f|].
  - unfold reported. cbn. intros _ E. by apply app_nil in E as [_ ?].
  - destruct (pk_none _ _ _ _ _ _ Pk eq_refl) as [K1 K2]. apply (reported_same w); [done|done|done| |done]. cbn. by rewrite (proj2 (pk_same _ _ _ _ _ _ Pk)).
Qed.

Lemma reported_acked id w i w' : pipe_ok id w → step (AAcked i) w = Some w' → reported w → reported w'.
Proof.
  intros H. cbn [step]. destruct (decide (i ∈ flight w ∧ Some i ∈ heard w)) as [[Hi _]|_]; [|by intros [= <-]].
  destruct (po_flight _ _ H) as (F1 & F2 & F3). pose proof (filter_size i _ F1 Hi) as Fs.
  assert (Hpos : 0 < numOutstandingFrames (snd w)). { rewrite F3. unfold size. destruct (flight w); [set_solver|cbn; lia]. }
  destruct (OnAcked_spec id _ _ (po_sending _ _ H) Hpos) as (s' & n & -> & _ & -> & _ & Hn). cbn [mbind option_bind]. intros [= <-] _.
  apply reported_told. unfold reported. cbn. intros R1 R2 R3. apply Hn; [|done|done]. rewrite R2 in Fs. unfold size in *. cbn in Fs. lia.
Qed.

Lemma reported_lost id w i w' : pipe_ok id w → step (ALost i) w = Some w' → reported w → reported w'.
Proof.
  intros H. cbn [step]. destruct (decide (i ∈ flight w)) as [Hi|_]; [|by intros [= <-]].
  destruct (po_flight _ _ H) as (F1 & F2 & F3). destruct (lookup_lt_is_Some_2 _ _ (F2 i Hi)) as [f Hf]. rewrite Hf. cbn [mbind option_bind].
  assert (Hpos : 0 < numOutstandingFrames (snd w)). { rewrite F3. unfold size. destruct (flight w); [set_solver|cbn; lia]. }
  pose proof (po_sent _ _ H) as Hsent. rewrite Forall_lookup in Hsent.
  destruct (OnLost_spec id _ f _ (po_sending _ _ H) (Hsent i f Hf) Hpos) as (n & -> & _). cbn [mbind option_bind]. intros [= <-] _.
  apply reported_told. unfold reported. cbn. intros _ _ E. by apply app_nil in E as [_ ?].
Qed.

Lemma reported_step id w a w' : pipe_ok id w → act_ok a → step a w = Some w' → reported w → reported w'.
Proof.
  intros H Ha E Hr. destruct a as [p limiter expired|expired|p| |maxBytes last|limit|limit|n|i|i|i|]; cbn [act_ok] in Ha;
    [| | | |by eapply reported_pack| | | |by eapply reported_acked|by eapply reported_lost| |]; cbn [step] in E.
  - destruct (writer w) as [q|] eqn:Hw; [by simplify_eq|]. pose proof (po_writer _ _ H) as Pw. rewrite Hw in Pw.
    pose proof (write_begin_wrote id _ _ p limiter expired (po_sending _ _ H) (proj1 Pw) Ha) as R.
    destruct (write_begin p limiter expired (snd w)) as [s r]. injection E as <-. apply (reported_returned w p r s (conn w)); [|done]. destruct r; apply R.
  - destruct (writer w) as [q|] eqn:Hw; [|by simplify_eq]. pose proof (po_writer _ _ H) as Pw. rewrite Hw in Pw. destruct Pw as (Pf & taken & Pt).
    pose proof (write_round_wrote id _ _ q taken expired (po_sending _ _ H) Pf Pt) as R.
    destruct (write_round (size q) expired (snd w)) as [s r]. injection E as <-. apply (reported_returned w q r s (conn w)); [|done].
    destruct r; [apply R|subst s; apply same_net_refl].
  - destruct (writer w) as [q|] eqn:Hw; [by simplify_eq|]. pose proof (po_writer _ _ H) as Pw. rewrite Hw in Pw.
    pose proof (tryWriteAll_wrote id _ _ (conn w) p (po_sending _ _ H) (po_conn _ _ H) (proj1 Pw) (proj2 Pw) Ha) as R.
    destruct (tryWriteAll p (snd w) (conn w)) as [[s c] r]. injection E as <-. apply (reported_returned w p (Some r) s c); [apply R|done].
  - destruct (writer w) as [q|] eqn:Hw; [by simplify_eq|]. pose proof (po_writer _ _ H) as Pw. rewrite Hw in Pw.
    pose proof (Close_spec id _ _ (po_sending _ _ H) (proj1 Pw)) as R. destruct (Close (snd w)) as [[s cancelled] n]. destruct R as (_ & -> & _).
    injection E as <-. apply reported_told, (reported_same w); cbn; try done. intros ->. apply orb_true_r.
  - injection E as <-. destruct (updateSendWindow_sending id _ limit _ (po_sending _ _ H) Ha) as (fc & Es & _). rewrite Es. by apply (reported_same w).
  - injection E as <-. by apply (reported_same w).
  - injection E as <-. by apply (reported_same w).
  - injection E as <-. destruct (decide _); by apply (reported_same w).
  - injection E as <-. by apply (reported_same w).
Qed.

Lemma pipe_run_ok id l : ∀ w, pipe_ok id w → reported w → Forall act_ok l → ∃ w', run l w = Some w' ∧ pipe_ok id w' ∧ reported w'.
Proof.
  induction l as [|a l IH]; intros w H Hr F; cbn [run]; [by exists w|]. apply Forall_cons in F as [Fa F].
  destruct (pipe_step_ok id w a H Fa) as (w1 & E & H1). rewrite E. apply IH; [done|exact (reported_step id w a w1 H Fa E Hr)|done].
Qed.

Lemma run_from_start id window connWindow supports l :
  fits id → 0 <= window <= MaxByteCount → 0 <= connWindow → Forall act_ok l →
  ∃ w, run l (start id window connWindow supports) = Some w ∧ pipe_ok id w ∧ reported w.
Proof.
  intros Hid Hw Hc F. apply pipe_run_ok; [|done|done].
  split; cbn; try done.
  - split; [constructor|]. split; [set_solver|done].
  - set_solver.
  - intros [p|]; cbn; [lia|done].
Qed.

(** ** What the peer reads *)

(** The content as a stream; [d] fills the rest. *)
Definition source (content : list Z) (d : Z) (p : Z) : Z := default d (content !! Z.to_nat p).

Lemma chunk_from_stream id content d f : chunk id content f → FrameSorter.from_stream (source content d) (Data f) (Offset f).
Proof.
  intros [_ H2 H3] i x Hx. rewrite H3 in Hx. apply lookup_take_Some in Hx as [Hx _]. rewrite lookup_drop in Hx.
  unfold source. replace (Z.to_nat (Offset f + Z.of_nat i)) with (Z.to_nat (Offset f) + i)%nat by lia. by rewrite Hx.
Qed.

Lemma source_bytes content d a : 0 <= a <= size content → FrameSorter.stream_bytes (source content d) 0 a = take (Z.to_nat a) content.
Proof.
  intros Ha. apply list_eq. intros i. unfold FrameSorter.stream_bytes. rewrite list_lookup_fmap, Z.sub_0_r.
  destruct (decide (i < Z.to_nat a)%nat) as [Hi|Hi].
  - rewrite lookup_seqZ_lt by lia. rewrite lookup_take_lt by done. cbn. unfold source. rewrite Z.add_0_l, Nat2Z.id.
    unfold size in Ha. destruct (lookup_lt_is_Some_2 content i) as [x ->]; [lia|done].
  - rewrite lookup_seqZ_ge by lia. by rewrite lookup_take_ge by lia.
Qed.

Lemma arrivals_ok id w d : pipe_ok id w → Forall (FrameSorter.frame_ok (source (written w) d)) (arrival w <$> heard w).
Proof.
  intros H. apply Forall_fmap, Forall_forall. intros [i|] Hi; cbn; [|done]. pose proof (po_heard _ _ H i Hi) as Hl.
  destruct (lookup_lt_is_Some_2 _ _ Hl) as [f Hf]. rewrite Hf. cbn. pose proof (po_sent _ _ H) as F. rewrite Forall_lookup in F.
  destruct (F i f Hf) as [Hc He _ _ _]. pose proof (sending_offset_max _ _ _ (po_sending _ _ H)) as [_ Hm].
  split; [by eapply chunk_from_stream|]. split; [apply Hc|]. change FrameSorter.MaxByteCount with MaxByteCount. unfold size in He. lia.
Qed.

(** Nothing is read that was not written: the bytes read do not depend on what would
    fill the stream after its end. *)
Lemma read_prefix content os s0 s out cbs e :
  (∀ d, Forall (FrameSorter.frame_ok (source content d)) os) → FrameSorter.newFrameSorter = Some s0 →
  FrameSorter.run_sorter os s0 = Some (s, out, cbs, e) → out `prefix_of` content.
Proof.
  intros F N0 Rn0. assert (O : ∀ d, 0 <= FrameSorter.readPos s ∧ out = FrameSorter.stream_bytes (source content d) 0 (FrameSorter.readPos s)).
  { intros d. destruct (FrameSorter.new_sorting (source content d)) as (s0' & N & H0 & R0 & Q0). assert (s0' = s0) as -> by congruence.
    destruct (FrameSorter.run_sorter_spec _ os s0 _ H0 (F d)) as (s' & out' & cbs' & e' & Rn & R & O & _).
    rewrite Rn0 in Rn. injection Rn as <- <- <- <-. by rewrite R0 in R, O. }
  destruct (Z.le_gt_cases (FrameSorter.readPos s) (size content)) as [Hle|Hgt].
  - destruct (O 0) as [O0 ->]. rewrite source_bytes by done. apply prefix_take.
  - exfalso. destruct (O 0) as [_ E0], (O 1) as [_ E1]. rewrite E0 in E1. apply (f_equal (λ l, l !! length content)) in E1.
    unfold FrameSorter.stream_bytes in E1. rewrite !list_lookup_fmap, lookup_seqZ_lt in E1 by (unfold size in Hgt; lia). cbn in E1.
    unfold source in E1. rewrite lookup_ge_None_2 in E1 by lia. done.
Qed.

(** ** The theorems *)

(** A byte or the FIN that is needed has been packed into a frame, which is to be
    repeated, is on its way, or has arrived. *)
Definition not_forgotten (w : world) (n : need) : Prop :=
  Exists (brings n) (retransmissionQueue (snd w)) ∨ carried w n.

(** A frame of what was written. *)
Definition genuine (w : world) (f : StreamFrame) : Prop :=
  0 <= Offset f ∧ Data f = take (length (Data f)) (drop (Z.to_nat (Offset f)) (written w)) ∧ size (Data f) <= MaxPacketBufferSize ∧
  Offset f + size (Data f) <= sendWindow (s_send (flowController (snd w))) ∧
  (Fin f = true → finishedWriting (snd w) = true ∧ Offset f + size (Data f) = size (accepted w)).

Lemma finished_idle id w : pipe_ok id w → finishedWriting (snd w) = true → writer w = None.
Proof. intros H Hf. pose proof (po_writer _ _ H) as P. destruct (writer w); [|done]. destruct P. congruence. Qed.

Lemma finSent_extent id w : pipe_ok id w → finSent (snd w) = true → written w = accepted w ∧ writeOffset (snd w) = size (accepted w).
Proof.
  intros H Hf. destruct (se_fin _ _ _ (po_sending _ _ H) Hf) as [Hw Hn]. pose proof (finished_idle _ _ H Hw) as Hi.
  pose proof (se_extent _ _ _ (po_sending _ _ H)) as He. rewrite written_idle in * by done. unfold next_len in He. rewrite Hn in He. split; [done|lia].
Qed.

Lemma sent_genuine id w f : pipe_ok id w → f ∈ sent w → genuine w f.
Proof.
  intros H Hf. pose proof (po_sent _ _ H) as F. rewrite Forall_forall in F. destruct (F f Hf) as [[C1 C2 C3] He Hs _ Hfin].
  pose proof (sending_offset_max _ _ _ (po_sending _ _ H)) as [Ho _]. pose proof (se_window _ _ _ (po_sending _ _ H)).
  split; [done|]. split; [done|]. split; [done|]. split; [lia|]. intros [E1 E2]%Hfin. destruct (finSent_extent _ _ H E1) as [_ <-].
  split; [|done]. by apply (se_fin _ _ _ (po_sending _ _ H)).
Qed.

(** C13: nothing that was written is forgotten. Whatever the application writes and whenever, however packets are packed, lost -
    wrongly declared lost, too -, repeated and acknowledged: no operation of the stream panics; every byte packed so far, and the FIN,
    is in a frame that will be repeated, is on its way or has arrived; every frame sent carries what was written, at its place,
    within the peer's limit, and with the FIN only at the end; the frames counted as outstanding are those on their way; and the
    stream is reported as completed once, exactly when the FIN is sent and nothing is on its way or to be repeated. *)
Theorem nothing_forgotten id window connWindow supports l :
  fits id → 0 <= window <= MaxByteCount → 0 <= connWindow → Forall act_ok l →
  ∃ w, run l (start id window connWindow supports) = Some w ∧
    (∀ n, needed (snd w) n → not_forgotten w n) ∧
    size (written w) = writeOffset (snd w) + next_len (snd w) ∧
    (∀ f, f ∈ sent w → genuine w f) ∧
    numOutstandingFrames (snd w) = size (flight w) ∧
    announced w = (if completed (snd w) then 1 else 0)%nat ∧
    (completed (snd w) = true ↔ finSent (snd w) = true ∧ flight w = [] ∧ retransmissionQueue (snd w) = []).
Proof.
  intros Hid Hw Hc F. destruct (run_from_start id window connWindow supports l Hid Hw Hc F) as (w & E & H & Hrep).
  exists w. split; [done|]. split; [apply (po_kept _ _ H)|]. split; [by rewrite (se_extent _ _ _ (po_sending _ _ H))|].
  split; [intros f; by apply (sent_genuine id)|]. split; [apply (po_flight _ _ H)|]. split; [apply (po_announced _ _ H)|].
  split; [apply (po_done _ _ H)|]. intros (R1 & R2 & R3). by apply Hrep.
Qed.

(** All of a completed stream has arrived. *)
Lemma completed_arrived id w n : pipe_ok id w → completed (snd w) = true → needed (snd w) n → ∃ i f, sent w !! i = Some f ∧ brings n f ∧ Some i ∈ heard w.
Proof.
  intros H Hd Hn. destruct (po_done _ _ H Hd) as (D1 & D2 & D3). destruct (po_kept _ _ H n Hn) as [Hq|(i & f & Hi & Hb & [Hf|Hf])].
  - rewrite D3 in Hq. by apply Exists_nil in Hq.
  - rewrite D2 in Hf. set_solver.
  - by exists i, f.
Qed.

(** The bytes that arrived are bytes of the content. *)
Lemma received_within id w p : pipe_ok id w → FrameSorter.received (arrival w <$> heard w) p → p < size (written w).
Proof.
  intros H (o & Ho & C)%Exists_exists. apply list_elem_of_fmap in Ho as ([i|] & -> & Hi); cbn in C; [|done].
  destruct (sent w !! i) as [f|] eqn:Hf; cbn in C; [|done]. pose proof (po_sent _ _ H) as F. rewrite Forall_lookup in F. destruct (F i f Hf) as [Hc _ _ _ _].
  pose proof (chunk_end _ _ _ Hc) as He. unfold size in *. destruct (Data f) eqn:E; [cbn in C; lia|]. specialize (He ltac:(done)). lia.
Qed.

Lemma completed_read id w s out cbs :
  pipe_ok id w → completed (snd w) = true → receiver w = Some (s, out, cbs, None) →
  out ++ (FrameSorter.drain (base.size (FrameSorter.queue s)) s).2 = written w.
Proof.
  intros H Hd Hr. unfold receiver in Hr. destruct FrameSorter.newFrameSorter as [s0|] eqn:N; [|done]. cbn in Hr.
  pose proof (FrameSorter.run_drained _ _ s0 s out cbs (arrivals_ok id w 0 H) N Hr) as D.
  destruct (FrameSorter.drain (base.size (FrameSorter.queue s)) s) as [s1 out1]. destruct D as (D0 & D1 & D2 & D3). cbn.
  destruct (po_done _ _ H Hd) as (Hf & _). destruct (finSent_extent _ _ H Hf) as [_ Ho].
  destruct (finSent_extent _ _ H Hf) as [Hwr _]. rewrite <- Hwr in Ho.
  assert (Hle : FrameSorter.readPos s1 <= size (written w)).
  { destruct (Z.eq_dec (FrameSorter.readPos s1) 0) as [->|]; [unfold size; lia|].
    pose proof (received_within id w _ H (D2 (FrameSorter.readPos s1 - 1) ltac:(lia))). lia. }
  assert (Hge : size (written w) <= FrameSorter.readPos s1).
  { destruct (Z.le_gt_cases (size (written w)) (FrameSorter.readPos s1)); [done|]. exfalso. apply D3.
    destruct (completed_arrived id w (Byte (FrameSorter.readPos s1)) H Hd ltac:(cbn; lia)) as (i & f & Hi & Hb & Hh).
    apply Exists_exists. exists (arrival w (Some i)). split; [by apply list_elem_of_fmap_2|]. cbn. rewrite Hi. exact Hb. }
  rewrite D1, source_bytes by lia. apply take_ge. unfold size in *. lia.
Qed.

(** A stream delivers what was written. Whatever the application writes, however the network loses, delays, repeats and reorders
    the packets, and whenever the peer reads: what the peer has read is a beginning of what the calls of Write have taken, byte for
    byte. And when the sender reports the stream as completed, everything written has arrived: unless the peer gave up over too many
    gaps, reading on yields exactly what was written, and the peer has a FIN that ends there. *)
Theorem stream_delivers id window connWindow supports l :
  fits id → 0 <= window <= MaxByteCount → 0 <= connWindow → Forall act_ok l →
  ∃ w s out cbs e, run l (start id window connWindow supports) = Some w ∧ receiver w = Some (s, out, cbs, e) ∧
    out `prefix_of` written w ∧
    (completed (snd w) = true →
      (e = None → out ++ (FrameSorter.drain (base.size (FrameSorter.queue s)) s).2 = accepted w) ∧
      ∃ i f, sent w !! i = Some f ∧ Some i ∈ heard w ∧ Fin f = true ∧ Offset f + size (Data f) = size (accepted w)).
Proof.
  intros Hid Hw Hc F. destruct (run_from_start id window connWindow supports l Hid Hw Hc F) as (w & E & H & Hrep).
  destruct (FrameSorter.new_sorting (source (written w) 0)) as (s0 & N & H0 & _).
  destruct (FrameSorter.run_sorter_spec _ _ s0 _ H0 (arrivals_ok id w 0 H)) as (s & out & cbs & e & Rn & _).
  assert (Hr : receiver w = Some (s, out, cbs, e)) by (unfold receiver; by rewrite N).
  exists w, s, out, cbs, e. split; [done|]. split; [done|]. split.
  { eapply read_prefix; [|exact N|exact Rn]. intros d. by eapply arrivals_ok. }
  intros Hd. destruct (po_done _ _ H Hd) as (Hf & _). destruct (finSent_extent _ _ H Hf) as [Hwr _]. split.
  - intros ->. rewrite <- Hwr. by eapply completed_read.
  - destruct (completed_arrived id w TheEnd H Hd Hf) as (i & f & Hi & Hb & Hh). exists i, f. split; [done|]. split; [done|]. split; [done|].
    destruct (sent_genuine id w f H) as (_ & _ & _ & _ & Hg); [by eapply list_elem_of_lookup_2|]. by apply Hg.
Qed.

(** ** A closed stream can always be completed *)

(** What the network and the peer do. *)
Definition by_network (a : act) : bool :=
  match a with AWrite _ _ _ | ARound _ | ATryWriteAll _ | AClose => false | _ => true end.

Lemma run_app l1 l2 w : run (l1 ++ l2) w = (w' ← run l1 w; run l2 w').
Proof. revert w. induction l1 as [|a l1 IH]; intros w; [done|]. cbn. destruct (step a w); [apply IH|done]. Qed.

(** A closed stream at work: what the network's steps lead to. *)
Record at_work (id : Z) (data : list Z) (w : world) : Prop := mkAtWork {
  aw_ok : pipe_ok id w;
  aw_reported : reported w;
  aw_closed : finishedWriting (snd w) = true;
  aw_data : accepted w = data;
}.

Lemma network_keeps id w a w' :
  pipe_ok id w → act_ok a → by_network a = true → step a w = Some w' →
  finishedWriting (snd w') = finishedWriting (snd w) ∧ accepted w' = accepted w.
Proof.
  intros H Ha Hb E. destruct a as [| | | |maxBytes last|limit|limit|n|i|i|i|]; try done; cbn [step act_ok] in *.
  - destruct (popStreamFrame_packs id _ maxBytes _ _ (po_sending _ _ H) (po_conn _ _ H) Ha) as (s' & s1 & c' & r & k & E' & _ & Pk & ->).
    rewrite E' in E. injection E as <-. pose proof (proj1 (pk_same _ _ _ _ _ _ Pk)). by destruct (po_frame r).
  - injection E as <-. destruct (updateSendWindow_sending id _ limit _ (po_sending _ _ H) Ha) as (fc & Es & _). by rewrite Es.
  - by injection E as <-.
  - by injection E as <-.
  - destruct (decide _) as [[Hi _]|_]; [|by simplify_eq]. destruct (po_flight _ _ H) as (_ & _ & F3).
    assert (Hpos : 0 < numOutstandingFrames (snd w)). { rewrite F3. unfold size. destruct (flight w); [set_solver|cbn; lia]. }
    destruct (OnAcked_spec id _ _ (po_sending _ _ H) Hpos) as (s' & n & E' & _ & -> & _). rewrite E' in E. injection E as <-. by destruct (no_completed n).
  - destruct (decide _) as [Hi|_]; [|by simplify_eq]. destruct (po_flight _ _ H) as (_ & F2 & F3). destruct (lookup_lt_is_Some_2 _ _ (F2 i Hi)) as [f Hf].
    assert (Hpos : 0 < numOutstandingFrames (snd w)). { rewrite F3. unfold size. destruct (flight w); [set_solver|cbn; lia]. }
    pose proof (po_sent _ _ H) as Hsent. rewrite Forall_lookup in Hsent. rewrite Hf in E. cbn [mbind option_bind] in E.
    destruct (OnLost_spec id _ f _ (po_sending _ _ H) (Hsent i f Hf) Hpos) as (n & E' & _). rewrite E' in E. injection E as <-. by destruct (no_completed n).
  - injection E as <-. by destruct (decide _).
  - by injection E as <-.
Qed.

Lemma network_at_work id data w a :
  at_work id data w → act_ok a → by_network a = true → ∃ w', step a w = Some w' ∧ at_work id data w'.
Proof.
  intros [H1 H2 H3 H4] Ha Hb. destruct (pipe_step_ok id w a H1 Ha) as (w' & E & H5). exists w'. split; [done|].
  destruct (network_keeps id w a w' H1 Ha Hb E) as [K1 K2].
  split; [done|exact (reported_step id w a w' H1 Ha E H2)|congruence|congruence].
Qed.

Lemma closed_written id data w : at_work id data w → written w = data.
Proof. intros [H1 H2 H3 H4]. rewrite written_idle; [done|by eapply finished_idle]. Qed.

Lemma pack_works id data w w' :
  at_work id data w → 0 < work (snd w) →
  size data <= sendWindow (s_send (flowController (snd w))) → size data - writeOffset (snd w) <= SendWindowSize (send (conn w)) →
  step (APack MaxPacketBufferSize false) w = Some w' → work (snd w') < work (snd w).
Proof.
  intros A Hw H1 H2 E. pose proof (aw_ok _ _ _ A) as H. cbn [step] in E. rewrite <- (closed_written id data w A) in H1, H2.
  destruct (popStreamFrame_packs id _ MaxPacketBufferSize _ _ (po_sending _ _ H) (po_conn _ _ H) ltac:(done)) as (s' & s1 & c' & r & k & E' & _ & Pk & ->).
  pose proof (po_writer _ _ H) as Pw. rewrite (finished_idle id w H (aw_closed _ _ _ A)) in Pw. destruct Pw as [_ Pu].
  pose proof (pop_progress id _ _ _ (po_sending _ _ H) (po_conn _ _ H) (aw_closed _ _ _ A) Pu Hw H1 H2 _ _ _ E') as Hs.
  rewrite E' in E. injection E as <-. pose proof (pk_work _ _ _ _ _ _ Pk Hs) as Hwk. by destruct (po_frame r); [|destruct Hs].
Qed.

(** With the limits raised, a full packet takes some of the work. *)
Lemma pack_round id data w :
  at_work id data w → size data <= MaxByteCount → 0 < work (snd w) →
  ∃ l w', Forall act_ok l ∧ Forall by_network l ∧ run l w = Some w' ∧ at_work id data w' ∧ work (snd w') < work (snd w).
Proof.
  intros A Hd Hw. set (limit := bytesSent (send (conn w)) + MaxByteCount).
  destruct (network_at_work id data w (AMaxStreamData MaxByteCount) A ltac:(done) eq_refl) as (w1 & E1 & A1).
  destruct (network_at_work id data w1 (AMaxData limit) A1 ltac:(done) eq_refl) as (w2 & E2 & A2).
  destruct (network_at_work id data w2 (APack MaxPacketBufferSize false) A2 ltac:(done) eq_refl) as (w3 & E3 & A3).
  exists [AMaxStreamData MaxByteCount; AMaxData limit; APack MaxPacketBufferSize false], w3.
  split; [by repeat constructor|]. split; [by repeat constructor|]. split; [cbn [run]; rewrite E1; cbn [mbind option_bind]; rewrite E2; cbn [mbind option_bind]; by rewrite E3|].
  split; [done|]. pose proof (se_offset _ _ _ (po_sending _ _ (aw_ok _ _ _ A))) as H0.
  assert (Hs : work (snd w2) = work (snd w) ∧ writeOffset (snd w2) = writeOffset (snd w) ∧ MaxByteCount <= sendWindow (s_send (flowController (snd w2))) ∧
    MaxByteCount <= SendWindowSize (send (conn w2))).
  { cbn [step] in E1, E2. injection E1 as <-. injection E2 as <-. cbn. unfold updateSendWindow, UpdateSendWindow, SendWindowSize.
    destruct (Z.ltb_spec (sendWindow (s_send (flowController (snd w)))) MaxByteCount), (Z.ltb_spec (sendWindow (send (conn w))) limit); cbn; subst limit;
      (split; [done|]); (split; [done|]); lia. }
  destruct Hs as (S1 & S2 & S3 & S4). rewrite <- S1 in Hw |- *. apply (pack_works id data w2 w3 A2 Hw); [lia|lia|done].
Qed.

Lemma work_nonneg s : 0 <= work s.
Proof. unfold work. pose proof (queue_work_nonneg (retransmissionQueue s)). pose proof (next_len_nonneg s). unfold size. destruct (finSent s); lia. Qed.

(** All is packed. *)
Lemma all_packed id data : size data <= MaxByteCount → ∀ n w, at_work id data w → work (snd w) <= Z.of_nat n →
  ∃ l w', Forall act_ok l ∧ Forall by_network l ∧ run l w = Some w' ∧ at_work id data w' ∧ work (snd w') = 0.
Proof.
  intros Hd. induction n as [|n IH]; intros w A Hn; pose proof (work_nonneg (snd w)).
  - exists [], w. split_and!; [constructor|constructor|done|done|lia].
  - destruct (Z.eq_dec (work (snd w)) 0) as [E|E]; [exists [], w; split_and!; [constructor|constructor|done|done|lia]|].
    destruct (pack_round id data w A Hd ltac:(lia)) as (l & w1 & L1 & L2 & R & A1 & Hl).
    destruct (IH w1 A1 ltac:(lia)) as (l' & w2 & L1' & L2' & R' & A2 & Hz).
    exists (l ++ l'), w2. split; [by apply Forall_app|]. split; [by apply Forall_app|]. split; [by rewrite run_app, R|]. done.
Qed.

Lemma no_work s : work s = 0 → finSent s = true ∧ retransmissionQueue s = [].
Proof.
  unfold work. pose proof (next_len_nonneg s). destruct (retransmissionQueue s) as [|f q]; cbn [queue_work foldr].
  - unfold size. destruct (finSent s); [done|lia].
  - pose proof (queue_work_nonneg q). change (foldr _ 0 q) with (queue_work q). unfold size. destruct (finSent s); lia.
Qed.

(** What is on its way arrives and is acknowledged. *)
Lemma all_acked id data : ∀ n w, at_work id data w → work (snd w) = 0 → length (flight w) = n →
  ∃ l w', Forall act_ok l ∧ Forall by_network l ∧ run l w = Some w' ∧ at_work id data w' ∧ completed (snd w') = true.
Proof.
  induction n as [|n IH]; intros w A Hz Hn; destruct (no_work _ Hz) as [Hf Hq].
  - exists [], w. split_and!; [constructor|constructor|done|done|]. apply (aw_reported _ _ _ A); [done|by apply nil_length_inv|done].
  - destruct (flight w) as [|i fl] eqn:Ef; [done|]. pose proof (aw_ok _ _ _ A) as H. destruct (po_flight _ _ H) as (F1 & F2 & F3).
    assert (Hi : i ∈ flight w) by (rewrite Ef; by left).
    destruct (network_at_work id data w (AArrives i) A I eq_refl) as (w1 & E1 & A1).
    destruct (network_at_work id data w1 (AAcked i) A1 I eq_refl) as (w2 & E2 & A2).
    assert (Hw2 : work (snd w2) = 0 ∧ length (flight w2) = n).
    { cbn [step] in E1. rewrite decide_True in E1 by (by apply F2). injection E1 as <-. cbn [step] in E2. rewrite decide_True in E2 by (split; [done|cbn; set_solver]).
      assert (Hpos : 0 < numOutstandingFrames (snd w)). { rewrite F3, Ef. unfold size. cbn. lia. }
      destruct (OnAcked_spec id _ _ (po_sending _ _ H) Hpos) as (s' & m & E' & _ & -> & _). cbn [snd set_field] in E2. rewrite E' in E2. injection E2 as <-.
      pose proof (filter_size i (flight w) F1 Hi) as Hfs. rewrite Ef in Hfs at 2. unfold size in Hfs. cbn [length] in Hfs.
      match goal with |- context [told ?b ?x] => destruct (told_snd b x) as (T1 & T2 & _) end.
      split; [rewrite T1; exact Hz|]. rewrite T2. cbn. cbn in Hn. lia. }
    destruct (IH w2 A2 (proj1 Hw2) (proj2 Hw2)) as (l & w3 & L1 & L2 & R & A3 & Hc).
    exists (AArrives i :: AAcked i :: l), w3. split; [by repeat constructor|]. split; [by repeat constructor|]. split; [|done].
    cbn [run]. rewrite E1. cbn [mbind option_bind]. by rewrite E2.
Qed.

(** C23: a closed stream is never stuck. Whatever happened before - lost frames, a frame too large for a packet, flow control used up,
    data still in the buffer -, once Close has been called there is a way on, by steps of the network and the peer alone, to the
    stream's completion; nothing is added to what was written, or taken from it. *)
Theorem closed_stream_completes id window connWindow supports l :
  fits id → 0 <= window <= MaxByteCount → 0 <= connWindow → Forall act_ok l →
  ∃ w, run l (start id window connWindow supports) = Some w ∧
    (finishedWriting (snd w) = true → size (accepted w) <= MaxByteCount →
      ∃ more w', Forall act_ok more ∧ Forall by_network more ∧ run more w = Some w' ∧ completed (snd w') = true ∧ accepted w' = accepted w).
Proof.
  intros Hid Hw Hc F. destruct (run_from_start id window connWindow supports l Hid Hw Hc F) as (w & E & H & Hrep).
  exists w. split; [done|]. intros Hf Hd. assert (A : at_work id (accepted w) w) by done.
  destruct (all_packed id _ Hd (Z.to_nat (work (snd w))) w A) as (l1 & w1 & L1 & N1 & R1 & A1 & Z1); [pose proof (work_nonneg (snd w)); lia|].
  destruct (all_acked id _ _ w1 A1 Z1 eq_refl) as (l2 & w2 & L2 & N2 & R2 & A2 & C2).
  exists (l1 ++ l2), w2. split; [by apply Forall_app|]. split; [by apply Forall_app|]. split; [by rewrite run_app, R1|]. split; [done|apply (aw_data _ _ _ A2)].
Qed.

(** ** An example *)

(** Two packets, the first lost and repeated, the second arriving twice. *)
Definition demo_acts : list act :=
  [AWrite ten_bytes None false; AClose; APack 8 true; APack 1200 false; ALost 0; AArrives 1; AArrives 1; AAcked 1;
   APack 1200 false; ARead; AArrives 2; ARead; AAcked 2].

Lemma demo_acts_ok : Forall act_ok demo_acts.
Proof. repeat constructor; cbn; try done; lia. Qed.

Lemma nothing_forgotten_witness :
  match run demo_acts (start 4 1000 1000 true) with
  | Some w => map Offset (sent w) = [0; 5; 0] ∧ announced w = 1%nat ∧ completed (snd w) = true ∧ flight w = [] ∧ not_forgotten w (Byte 9)
  | None => False
  end.
Proof.
  destruct (nothing_forgotten 4 1000 1000 true demo_acts ltac:(by vm_compute) ltac:(by vm_compute) ltac:(done) demo_acts_ok) as (w & E & H1 & _ & _ & _ & Ha & Hc).
  destruct (run demo_acts (start 4 1000 1000 true)) as [w'|] eqn:E'; [|discriminate]. injection E as ->.
  assert (Hs : map Offset (sent w) = [0; 5; 0] ∧ completed (snd w) = true ∧ writeOffset (snd w) = 10).
  { vm_compute in E'. injection E' as <-. by vm_compute. }
  destruct Hs as (S1 & S2 & S3). split; [done|]. split; [by rewrite Ha, S2|]. split; [done|]. split; [by apply Hc|].
  apply H1. cbn. rewrite S3. lia.
Defined.

Lemma stream_delivers_witness :
  match run demo_acts (start 4 1000 1000 true) with
  | Some w =>
      match receiver w with
      | Some (s, out, _, e) => out = [0; 1; 2; 3; 4] ∧ e = None ∧ out ++ (FrameSorter.drain (base.size (FrameSorter.queue s)) s).2 = ten_bytes
      | None => False
      end
  | None => False
  end.
Proof.
  destruct (stream_delivers 4 1000 1000 true demo_acts ltac:(by vm_compute) ltac:(by vm_compute) ltac:(done) demo_acts_ok) as (w & s & out & cbs & e & E & R & _ & Hd).
  rewrite E, R. vm_compute in E. injection E as <-. vm_compute in R. injection R as <- <- <- <-.
  split; [done|]. split; [done|]. apply Hd; done.
Defined.

Lemma closed_stream_completes_witness :
  match run (take 5 demo_acts) (start 4 1000 1000 true) with
  | Some w => completed (snd w) = false ∧ ∃ more w', run more w = Some w' ∧ completed (snd w') = true ∧ accepted w' = ten_bytes
  | None => False
  end.
Proof.
  destruct (closed_stream_completes 4 1000 1000 true (take 5 demo_acts) ltac:(by vm_compute) ltac:(by vm_compute) ltac:(done)
    (Forall_take _ _ _ demo_acts_ok)) as (w & E & H).
  rewrite E. assert (Hs : finishedWriting (snd w) = true ∧ accepted w = ten_bytes ∧ completed (snd w) = false).
  { vm_compute in E. injection E as <-. by vm_compute. }
  destruct Hs as (S1 & S2 & S3). split; [done|]. rewrite S2 in H. destruct (H S1 ltac:(by vm_compute)) as (more & w' & _ & _ & R & C & A). exists more, w'. split; [exact R|]. split; [exact C|exact A].
Defined.
