(* ===== verification/ReceiveStream.v ===== *)
(** * The receiving side of a stream ([quic-go/receive_stream.go])

    Frames go through the flow control into the sorter; [Read] takes them out one at
    a time, [Peek] looks ahead without taking anything. A call that finds nothing
    waits; what it does between two waits, under the stream's mutex, is one function
    here. The stream ends with the FIN, with the peer's reset once the reliable part
    is read, or with [CancelRead]. *)

From Stdlib Require Import ZArith Lia Bool.
From stdpp Require Import base list gmap.
From S2P Require Import Prelude.
From S2P Require Import GoNet.
From S2P Require Import Wire.
From S2P Require Import WireFrames.
From S2P Require Import FlowControl.
From S2P Require Import GapTree.
From S2P Require FrameSorter.
From S2P Require SendStream.

Open Scope Z_scope.
Open Scope list_scope.

(** ** The state *)

(** [finalOffset] is [MaxByteCount] as long as it is not known. A buffer's callback is
    named by a number, as in the sorter. *)
Record ReceiveStream := mkReceiveStream {
  streamID : Z;
  frameQueue : FrameSorter.frameSorter;
  finalOffset : Z;
  receiveFinalSizeCallback : bool;
  currentFrame : option (list Z);
  currentFrameDone : option nat;
  readPosInFrame : Z;
  currentFrameIsLast : bool;
  queuedStopSending : bool;
  queuedMaxStreamData : bool;
  errorRead : bool;
  completed : bool;
  cancelledRemotely : bool;
  cancelledLocally : bool;
  cancelErr : option SendStream.stream_error;
  closeForShutdownErr : bool;
  readPos : Z;
  reliableSize : Z;
  flowController : streamFlowController;
}.
#[export] Instance ReceiveStream_eta : Eta ReceiveStream := λ s,
  mkReceiveStream (streamID s) (frameQueue s) (finalOffset s) (receiveFinalSizeCallback s) (currentFrame s) (currentFrameDone s) (readPosInFrame s)
    (currentFrameIsLast s) (queuedStopSending s) (queuedMaxStreamData s) (errorRead s) (completed s) (cancelledRemotely s) (cancelledLocally s)
    (cancelErr s) (closeForShutdownErr s) (readPos s) (reliableSize s) (flowController s).

Definition newReceiveStream (id : Z) (fc : streamFlowController) : option ReceiveStream :=
  q ← FrameSorter.newFrameSorter;
  Some (mkReceiveStream id q MaxByteCount false None None 0 false false false false false false false None false 0 0 fc).

(** [SetReceiveFinalSizeCallback]: the size the callback is called with at once. *)
Definition SetReceiveFinalSizeCallback (some : bool) (s : ReceiveStream) : ReceiveStream * option Z :=
  if negb (finalOffset s =? MaxByteCount) then (s, if some then Some (finalOffset s) else None)
  else if closeForShutdownErr s then (s, None)
  else (s <| receiveFinalSizeCallback := some |>, None).

Definition takeReceiveFinalSizeCallback (s : ReceiveStream) : ReceiveStream * option Z :=
  if finalOffset s =? MaxByteCount then (s, None)
  else (s <| receiveFinalSizeCallback := false |>, if receiveFinalSizeCallback s then Some (finalOffset s) else None).

Definition isNewlyCompleted (s : ReceiveStream) : ReceiveStream * bool :=
  if completed s then (s, false)
  else if finalOffset s =? MaxByteCount then (s, false)
  else if cancelledLocally s then (s <| completed := true |>, true)
  else if errorRead s then (s <| completed := true |>, true)
  else (s, false).

Definition isRemoteCancellationEffective (s : ReceiveStream) : bool := cancelledRemotely s && (reliableSize s <=? readPos s).

(** ** Reading *)

(** The frame at the read position, [nil] when it is not there yet. *)
Definition next_frame (q : FrameSorter.frameSorter) : option (list Z) := FrameSorter.Data <$> FrameSorter.queue q !! FrameSorter.readPos q.

(** The second result: the callbacks called. *)
Definition dequeueNextFrame (s : ReceiveStream) : ReceiveStream * list nat :=
  let '(q, (offset, data, cb)) := FrameSorter.Pop (frameQueue s) in
  (s <| frameQueue := q |> <| currentFrame := next_frame (frameQueue s) |> <| currentFrameDone := cb |>
     <| currentFrameIsLast := (finalOffset s <=? offset + size data) && negb (cancelledRemotely s) |> <| readPosInFrame := 0 |>,
   FrameSorter.run_cb (currentFrameDone s)).

Definition current (s : ReceiveStream) : list Z := default [] (currentFrame s).

(** Nothing is left of the current frame. *)
Definition exhausted (s : ReceiveStream) : bool :=
  negb (bool_decide (is_Some (currentFrame s))) || (size (current s) <=? readPosInFrame s).

Inductive read_error := EOF | RCancelled (e : option SendStream.stream_error) | RShutdown | RDeadline | RBug.

(** A call of [Read] under way: the length of its slice, what it has read, and whether
    window updates are due. *)
Record reading := mkReading { want : Z; got : list Z; hasStreamUpdate : bool; hasConnUpdate : bool }.
#[export] Instance reading_eta : Eta reading := λ r, mkReading (want r) (got r) (hasStreamUpdate r) (hasConnUpdate r).

(** What the stream is left as, the callbacks called, and the outcome: the call
    returns, or waits ([None]). *)
Record turn := mkTurn { t_stream : ReceiveStream; t_conn : connectionFlowController; t_ran : list nat; t_call : reading; t_end : option (option read_error) }.
#[export] Instance turn_eta : Eta turn := λ t, mkTurn (t_stream t) (t_conn t) (t_ran t) (t_call t) (t_end t).

Definition shutdown_error (s : ReceiveStream) : option read_error := if closeForShutdownErr s then Some RShutdown else None.

(** The reasons to stop waiting. [expired]: a deadline is set and has passed. *)
Definition stop_reading (expired : bool) (s : ReceiveStream) : option (ReceiveStream * read_error) :=
  if closeForShutdownErr s then Some (s, RShutdown)
  else if cancelledLocally s || isRemoteCancellationEffective s then Some (s <| errorRead := true |>, RCancelled (cancelErr s))
  else if expired then Some (s, RDeadline)
  else None.

(** Bytes are copied and accounted for. *)
Definition copy_bytes (r : reading) (s : ReceiveStream) (c : connectionFlowController) : reading * ReceiveStream * connectionFlowController :=
  let bs := take (Z.to_nat (want r - size (got r))) (drop (Z.to_nat (readPosInFrame s)) (current s)) in
  let '(s, c, r) :=
    if isRemoteCancellationEffective s then (s, c, r)
    else
      let '(fc, c, (hasStream, hasConn)) := AddBytesRead (size bs) (flowController s) c in
      (s <| flowController := fc |> <| queuedMaxStreamData ::= orb hasStream |>, c, r <| hasStreamUpdate ::= orb hasStream |> <| hasConnUpdate ::= orb hasConn |>) in
  let s := s <| readPosInFrame ::= Z.add (size bs) |> <| readPos ::= Z.add (size bs) |> in
  let '(s, c) := if isRemoteCancellationEffective s then let '(fc, c) := Abandon (flowController s) c in (s <| flowController := fc |>, c) else (s, c) in
  (r <| got ::= λ g, g ++ bs |>, s, c).

(** The head of the loop of [readImpl]; [k]: what follows in the loop. *)
Definition read_head (k : reading → ReceiveStream → connectionFlowController → list nat → option turn)
    (r : reading) (s : ReceiveStream) (c : connectionFlowController) (ran : list nat) : option turn :=
  if want r <=? size (got r) then
    if isRemoteCancellationEffective s then Some (mkTurn (s <| errorRead := true |>) c ran r (Some (Some (RCancelled (cancelErr s)))))
    else Some (mkTurn s c ran r (Some None))
  else
    let '(s, ran) := if exhausted s then let '(s, d) := dequeueNextFrame s in (s, ran ++ d) else (s, ran) in
    if negb (bool_decide (is_Some (currentFrame s))) && (0 <? size (got r)) then Some (mkTurn s c ran r (Some (shutdown_error s)))
    else k r s c ran.

(** From the checks before the wait on. *)
Fixpoint read_turn (fuel : nat) (expired : bool) (r : reading) (s : ReceiveStream) (c : connectionFlowController) (ran : list nat) : option turn :=
  match stop_reading expired s with
  | Some (s, e) => Some (mkTurn s c ran r (Some (Some e)))
  | None =>
      if negb (bool_decide (is_Some (currentFrame s))) && negb (currentFrameIsLast s) then Some (mkTurn s c ran r None)
      else if want r <? size (got r) then Some (mkTurn s c ran r (Some (Some RBug)))
      else if size (current s) <? readPosInFrame s then Some (mkTurn s c ran r (Some (Some RBug)))
      else
        let '(r, s, c) := copy_bytes r s c in
        if (size (current s) <=? readPosInFrame s) && currentFrameIsLast s then
          Some (mkTurn (s <| currentFrame := None |> <| errorRead := true |>) c (ran ++ FrameSorter.run_cb (currentFrameDone s)) r (Some (Some EOF)))
        else match fuel with O => None | S fuel => read_head (read_turn fuel expired) r s c ran end
  end.

(** [readImpl] up to its first wait; each turn of the loop reads a byte. *)
Definition read_begin (n : Z) (expired : bool) (s : ReceiveStream) (c : connectionFlowController) : option turn :=
  let r := mkReading n [] false false in
  if currentFrameIsLast s && negb (bool_decide (is_Some (currentFrame s))) then Some (mkTurn (s <| errorRead := true |>) c [] r (Some (Some EOF)))
  else if cancelledLocally s || isRemoteCancellationEffective s then Some (mkTurn (s <| errorRead := true |>) c [] r (Some (Some (RCancelled (cancelErr s)))))
  else if closeForShutdownErr s then Some (mkTurn s c [] r (Some (Some RShutdown)))
  else read_head (read_turn (S (Z.to_nat n)) expired) r s c [].

(** [readImpl] after a wait. *)
Definition read_wake (r : reading) (expired : bool) (s : ReceiveStream) (c : connectionFlowController) : option turn :=
  let '(s, d) := dequeueNextFrame s in read_turn (S (Z.to_nat (want r))) expired r s c d.

(** The end of [Read]: the second result is whether the stream is completed. *)
Definition read_end (t : turn) : turn * bool :=
  match t_end t with
  | None => (t, false)
  | Some _ => let '(s, done) := isNewlyCompleted (t_stream t) in (t <| t_stream := s |>, done)
  end.

(** ** Peeking *)

(** What [Peek] returns: how many bytes of the slice are set, which, and the error. *)
Record peeked := mkPeeked { pk_n : Z; pk_bytes : list Z; pk_err : option read_error }.

(** The rest of a slice, out of the sorter; [None]: too little data. *)
Definition peek_queue (offset n : Z) (s : ReceiveStream) : option (option (list Z)) := FrameSorter.Peek (frameQueue s) offset n.

(** The bytes up to [total], if they are all there. *)
Definition peek_total (total available offset : Z) (avail : list Z) (e : read_error) (s : ReceiveStream) : option (option peeked) :=
  if total - available <=? 0 then Some (Some (mkPeeked total (take (Z.to_nat total) avail) (Some e)))
  else p ← peek_queue offset (total - available) s; Some (match p with Some p => Some (mkPeeked total (avail ++ p) (Some e)) | None => None end).

(** With data in the current frame; [Some None]: the loop goes on. *)
Definition peek_data (n : Z) (s : ReceiveStream) : option (option peeked) :=
  let avail := drop (Z.to_nat (readPosInFrame s)) (current s) in
  let available := size avail in
  if n <=? available then Some (Some (mkPeeked n (take (Z.to_nat n) avail) None))
  else
    let offset := readPos s + available in
    p ← peek_queue offset (n - available) s;
    match p with
    | Some p => Some (Some (mkPeeked n (avail ++ p) None))
    | None =>
        if currentFrameIsLast s then Some (Some (mkPeeked available avail (Some EOF)))
        else
          r ← (if cancelledRemotely s && (reliableSize s <? readPos s + n)
               then peek_total (reliableSize s - readPos s) available offset avail (RCancelled (cancelErr s)) s else Some None);
          match r with
          | Some r => Some (Some r)
          | None => if finalOffset s <? readPos s + n then peek_total (finalOffset s - readPos s) available offset avail EOF s else Some None
          end
    end.

Definition dequeue_if_needed (s : ReceiveStream) : ReceiveStream * list nat :=
  if exhausted s then dequeueNextFrame s else (s, []).

(** A round of the loop of [peekImpl]: it returns, or waits. *)
Definition peek_round (n : Z) (expired : bool) (s : ReceiveStream) : option (ReceiveStream * list nat * option peeked) :=
  let stop e := Some (s, [], Some (mkPeeked 0 [] (Some e))) in
  if currentFrameIsLast s && negb (bool_decide (is_Some (currentFrame s))) then stop EOF
  else if cancelledLocally s || isRemoteCancellationEffective s then stop (RCancelled (cancelErr s))
  else if closeForShutdownErr s then stop RShutdown
  else if expired then stop RDeadline
  else
    let '(s, ran) := dequeue_if_needed s in
    r ← (if exhausted s then Some None else peek_data n s);
    match r with
    | Some r => Some (s, ran, Some r)
    | None =>
        if currentFrameIsLast s || (finalOffset s <=? readPos s) then Some (s, ran, Some (mkPeeked 0 [] (Some EOF)))
        else Some (s, ran, None)
    end.

(** [Peek], and what it does after a wait. *)
Definition peek_begin (n : Z) (expired : bool) (s : ReceiveStream) : option (ReceiveStream * list nat * option peeked) :=
  if n =? 0 then Some (s, [], Some (mkPeeked 0 [] None)) else peek_round n expired s.
Definition peek_wake (n : Z) (expired : bool) (s : ReceiveStream) : option (ReceiveStream * list nat * option peeked) :=
  let '(s, d) := dequeue_if_needed s in
  '(s, ran, r) ← peek_round n expired s; Some (s, d ++ ran, r).

(** ** Cancelling *)

(** What the sender, the connection and the application are told. *)
Record notes := mkNotes { no_completed : bool; no_control : bool; no_size : option Z }.

(** A completed stream gives its credit back. *)
Definition abandon_if (b : bool) (s : ReceiveStream) (c : connectionFlowController) : ReceiveStream * connectionFlowController :=
  if b then let '(fc, c) := Abandon (flowController s) c in (s <| flowController := fc |>, c) else (s, c).

Definition cancelReadImpl (errorCode : Z) (s : ReceiveStream) : ReceiveStream * bool :=
  if cancelledLocally s then (s, false)
  else if closeForShutdownErr s then (s, false)
  else
    let s := s <| cancelledLocally := true |> in
    if errorRead s || cancelledRemotely s then (s, false)
    else (s <| queuedStopSending := true |> <| cancelErr := Some (SendStream.mkErr errorCode false) |>, true).

Definition CancelRead (errorCode : Z) (s : ReceiveStream) (c : connectionFlowController) : ReceiveStream * connectionFlowController * notes :=
  let '(s, control) := cancelReadImpl errorCode s in
  let '(s, done) := isNewlyCompleted s in
  let '(s, c) := abandon_if done s c in (s, c, mkNotes done control None).

(** ** Frames *)

Inductive frame_error := FlowErr (e : flow_error) | TooManyGaps.

(** [None]: the sorter panics. The callbacks called come with the result. *)
Definition handleStreamFrameImpl (f : StreamFrame) (cb : nat) (now : time) (s : ReceiveStream) (c : connectionFlowController)
    : option (ReceiveStream * connectionFlowController * list nat * option frame_error) :=
  if closeForShutdownErr s then Some (s, c, [], None)
  else
    let maxOffset := Offset f + size (Data f) in
    let '(fc, c, e) := UpdateHighestReceived maxOffset (Fin f) now (flowController s) c in
    let s := s <| flowController := fc |> in
    match e with
    | Some e => Some (s, c, [], Some (FlowErr e))
    | None =>
        let s := if Fin f then s <| finalOffset := maxOffset |> else s in
        if cancelledLocally s then Some (s, c, [], None)
        else
          o ← FrameSorter.Push (frameQueue s) (Data f) (Offset f) (Some cb);
          Some (s <| frameQueue := FrameSorter.after o |>, c, FrameSorter.ran o,
                match FrameSorter.err o with Some _ => Some TooManyGaps | None => None end)
    end.

Definition handleStreamFrame (f : StreamFrame) (cb : nat) (now : time) (s : ReceiveStream) (c : connectionFlowController)
    : option (ReceiveStream * connectionFlowController * list nat * option frame_error * notes) :=
  '(s, c, ran, e) ← handleStreamFrameImpl f cb now s c;
  let '(s, done) := isNewlyCompleted s in
  let '(s, n) := takeReceiveFinalSizeCallback s in
  let '(s, c) := abandon_if done s c in
  Some (s, c, ran, e, mkNotes done false n).

Definition handleResetStreamFrameImpl (f : ResetStreamFrame) (now : time) (s : ReceiveStream) (c : connectionFlowController)
    : ReceiveStream * connectionFlowController * option frame_error :=
  if closeForShutdownErr s then (s, c, None)
  else
    let '(fc, c, e) := UpdateHighestReceived (FinalSize f) true now (flowController s) c in
    let s := s <| flowController := fc |> in
    match e with
    | Some e => (s, c, Some (FlowErr e))
    | None =>
        let s := s <| finalOffset := FinalSize f |> in
        let s := if (negb (cancelledRemotely s) && (reliableSize s =? 0)) || (ReliableSize f <? reliableSize s) then s <| reliableSize := ReliableSize f |> else s in
        let '(s, c) := abandon_if (reliableSize s <=? readPos s) s c in
        if cancelledRemotely s then (s, c, None)
        else if cancelledLocally s then (s, c, None)
        else (s <| cancelledRemotely := true |> <| cancelErr := Some (SendStream.mkErr (r_ErrorCode f) true) |>, c, None)
    end.

Definition handleResetStreamFrame (f : ResetStreamFrame) (now : time) (s : ReceiveStream) (c : connectionFlowController)
    : ReceiveStream * connectionFlowController * option frame_error * notes :=
  let '(s, c, e) := handleResetStreamFrameImpl f now s c in
  let '(s, done) := isNewlyCompleted s in
  let '(s, n) := takeReceiveFinalSizeCallback s in
  (s, c, e, mkNotes done false n).

(** [getControlFrame]: the frame, and whether there is another one; [None]: a nil pointer. *)
Definition getControlFrame (rtt : duration) (allow : Z → bool) (now : time) (s : ReceiveStream) (c : connectionFlowController)
    : option (ReceiveStream * connectionFlowController * option (Frame * bool)) :=
  if negb (queuedStopSending s) && negb (queuedMaxStreamData s) then Some (s, c, None)
  else if queuedStopSending s then
    e ← cancelErr s;
    Some (s <| queuedStopSending := false |>, c, Some (StopSendingFrame (streamID s) (SendStream.err_code e), queuedMaxStreamData s))
  else
    let '(fc, c, limit) := stream_GetWindowUpdate rtt allow now (flowController s) c in
    Some (s <| queuedMaxStreamData := false |> <| flowController := fc |>, c, Some (MaxStreamDataFrame (streamID s) limit, false)).

Definition closeForShutdown (s : ReceiveStream) : ReceiveStream :=
  s <| closeForShutdownErr := true |> <| receiveFinalSizeCallback := false |>.
