(* ===== verification/ReceiveInv.v ===== *)
(** * What the receiving side of a stream keeps ([quic-go/receive_stream.go])

    The invariant of a [ReceiveStream] against the bytes of the peer's stream, and what
    reading, peeking, cancelling and the frames of the peer do to it. *)

From Stdlib Require Import ZArith Lia Bool.
From stdpp Require Import base list gmap.
From S2P Require Import Prelude.
From S2P Require Import GoNet.
From S2P Require Import Wire.
From S2P Require Import WireFrames.
From S2P Require Import FlowControl.
From S2P Require Import GapTree.
From S2P Require FrameSorter.
From S2P Require SendStream.
From S2P Require Import ReceiveStream.

Open Scope Z_scope.
Open Scope list_scope.

(** Positions stay in the lower half of the 62 bits, so that no sum leaves them. *)
Definition far : Z := 2 ^ 61.

Lemma max_same : FrameSorter.MaxByteCount = MaxByteCount.
Proof. reflexivity. Qed.

Lemma far_max : far < MaxByteCount.
Proof. reflexivity. Qed.

Definition highest (s : ReceiveStream) : Z := highestReceived (s_recv (flowController s)).
Definition credited (s : ReceiveStream) : Z := bytesRead (s_recv (flowController s)).
Definition qpos (s : ReceiveStream) : Z := FrameSorter.readPos (frameQueue s).

(** The position the current frame starts at. *)
Definition frame_start (s : ReceiveStream) : Z := readPos s - readPosInFrame s.

(** All has been read, and the application knows it. *)
Definition at_end (s : ReceiveStream) : Prop := currentFrameIsLast s = true ∧ currentFrame s = None.

(** [gl]: the ranges of the stream not received. *)
Record receiving (src : Z → Z) (s : ReceiveStream) (gl : list ByteInterval) : Prop := mkReceiving {
  rv_sorting : FrameSorter.sorting src (frameQueue s) gl;
  rv_gap : ∀ p, highest s <= p < MaxByteCount → FrameSorter.in_gap gl p;
  rv_far : 0 <= highest s <= far;
  rv_current : match currentFrame s with
               | Some cur => cur = FrameSorter.stream_bytes src (frame_start s) (qpos s) ∧ size cur = qpos s - frame_start s ∧
                   0 <= frame_start s ∧ 0 <= readPosInFrame s <= size cur ∧ (currentFrameIsLast s = true → readPosInFrame s < size cur)
               | None => readPos s = qpos s
               end;
  rv_final : receivedFinalOffset (flowController s) = negb (finalOffset s =? MaxByteCount);
  rv_offset : finalOffset s ≠ MaxByteCount → finalOffset s = highest s;
  rv_last : currentFrameIsLast s = true → finalOffset s <= qpos s;
  rv_credit : credited s = readPos s ∨ (credited s = highest s ∧ finalOffset s ≠ MaxByteCount ∧ (isRemoteCancellationEffective s = true ∨ cancelledLocally s = true));
  rv_effective : isRemoteCancellationEffective s = true → credited s = highest s;
  rv_error : errorRead s = true → at_end s ∨ isRemoteCancellationEffective s = true ∨ cancelledLocally s = true;
  rv_stop : queuedStopSending s = true → is_Some (cancelErr s);
  rv_remote : cancelledRemotely s = true → finalOffset s ≠ MaxByteCount;
  rv_completed : completed s = true → finalOffset s ≠ MaxByteCount ∧ (cancelledLocally s = true ∨ errorRead s = true);
}.

(** The buffers that are still in use. *)
Definition in_use (s : ReceiveStream) : list nat :=
  FrameSorter.held (FrameSorter.queue (frameQueue s)) ++
  (if currentFrameIsLast s && negb (bool_decide (is_Some (currentFrame s))) then [] else FrameSorter.run_cb (currentFrameDone s)).

Lemma qpos_highest src s gl : receiving src s gl → 0 <= qpos s <= highest s.
Proof.
  intros H. pose proof (rv_far _ _ _ H) as Hf. pose proof (FrameSorter.so_pos _ _ _ (rv_sorting _ _ _ H)). split; [unfold qpos; lia|].
  destruct (rv_gap _ _ _ H (highest s)) as (g & Hg & Hi); [pose proof far_max; lia|].
  pose proof (FrameSorter.co_range _ _ _ (FrameSorter.so_coherent _ _ _ (rv_sorting _ _ _ H)) g Hg). unfold qpos. lia.
Qed.

Lemma readPos_range src s gl : receiving src s gl → 0 <= readPos s <= qpos s.
Proof.
  intros H. pose proof (qpos_highest _ _ _ H). pose proof (rv_current _ _ _ H) as Hc. unfold frame_start in Hc. destruct (currentFrame s); lia.
Qed.

Lemma credited_range src s gl : receiving src s gl → credited s <= highest s.
Proof. intros H. pose proof (readPos_range _ _ _ H). pose proof (qpos_highest _ _ _ H). destruct (rv_credit _ _ _ H) as [?|[? _]]; lia. Qed.

(** The end is where everything received has been read. *)
Lemma at_end_all src s gl : receiving src s gl → at_end s → finalOffset s ≠ MaxByteCount ∧ readPos s = finalOffset s ∧ finalOffset s = highest s.
Proof.
  intros H [Hl Hn]. pose proof (rv_last _ _ _ H Hl) as Hq. pose proof (qpos_highest _ _ _ H). pose proof (rv_far _ _ _ H). pose proof (rv_current _ _ _ H) as Hc. rewrite Hn in Hc.
  assert (Hf : finalOffset s ≠ MaxByteCount) by (pose proof far_max; lia).
  pose proof (rv_offset _ _ _ H Hf). split; [done|]. lia.
Qed.

(** ** Taking the next frame *)

(** A new current frame, or none. *)
Definition take_frame (q : FrameSorter.frameSorter) (cur : option (list Z)) (cb : option nat) (last : bool) (s : ReceiveStream) : ReceiveStream :=
  s <| frameQueue := q |> <| currentFrame := cur |> <| currentFrameDone := cb |> <| currentFrameIsLast := last |> <| readPosInFrame := 0 |>.

(** The sorter's part. *)
Lemma Pop_cases src q gl :
  FrameSorter.sorting src q gl →
  let '(q', (offset, data, cb)) := FrameSorter.Pop q in
  offset = FrameSorter.readPos q ∧ FrameSorter.sorting src q' gl ∧ FrameSorter.run_cb cb ++ FrameSorter.held (FrameSorter.queue q') ≡ₚ FrameSorter.held (FrameSorter.queue q) ∧
  match next_frame q with
  | Some cur => data = cur ∧ cur = FrameSorter.stream_bytes src (FrameSorter.readPos q) (FrameSorter.readPos q') ∧ 0 < size cur ∧
      FrameSorter.readPos q' = FrameSorter.readPos q + size cur
  | None => q' = q ∧ data = [] ∧ cb = None ∧ (FrameSorter.readPos q < MaxByteCount → FrameSorter.in_gap gl (FrameSorter.readPos q))
  end.
Proof.
  intros H. pose proof (FrameSorter.Pop_spec src q gl H) as P. unfold FrameSorter.Pop, next_frame in *.
  destruct (FrameSorter.queue q !! FrameSorter.readPos q) as [e|] eqn:E.
  - destruct P as (P1 & P2 & P3 & P4 & P5). rewrite bool_decide_eq_true_2 in P5 by done.
    destruct (FrameSorter.co_entry _ _ _ (FrameSorter.so_coherent _ _ _ H) _ _ E) as (He & _).
    cbn [fmap option_fmap option_map]. split; [done|]. split; [done|]. split; [done|]. split; [done|]. split; [done|]. by unfold size.
  - destruct P as (P1 & P2 & P3 & P4 & P5). cbn [fmap option_fmap option_map]. do 6 (split; [done|]). intros Hm. pose proof (FrameSorter.so_coherent _ _ _ H) as HC.
    destruct (FrameSorter.co_cover _ _ _ HC (FrameSorter.readPos q)) as [(o & e & Hq & Hr)|?]; [rewrite max_same; lia| |done].
    destruct (FrameSorter.co_entry _ _ _ HC o e Hq) as (_ & Ho & _). replace o with (FrameSorter.readPos q) in Hq by lia. congruence.
Qed.

Lemma exhausted_pos src s gl : receiving src s gl → exhausted s = true → ¬ at_end s → readPos s = qpos s ∧ currentFrameIsLast s = false.
Proof.
  intros H He Hn. pose proof (rv_current _ _ _ H) as Hc. unfold exhausted, current in He. unfold at_end in Hn. unfold frame_start in Hc.
  destruct (currentFrame s) as [cur|] eqn:E; cbn [default] in He.
  - rewrite bool_decide_eq_true_2 in He by done. cbn in He. apply Z.leb_le in He. destruct Hc as (_ & C1 & C2 & C3 & C4). unfold id in He.
    split; [lia|]. destruct (currentFrameIsLast s); [|done]. specialize (C4 eq_refl). lia.
  - split; [done|]. destruct (currentFrameIsLast s); [|done]. by destruct Hn.
Qed.

(** A frame, or the next byte is missing. *)
Definition new_frame (gl : list ByteInterval) (q : FrameSorter.frameSorter) (cur : option (list Z)) (cb : option nat) (last : bool) (s : ReceiveStream) : Prop :=
  match cur with
  | Some cur => 0 < size cur
  | None => q = frameQueue s ∧ cb = None ∧ FrameSorter.in_gap gl (readPos s) ∧ (last = false → readPos s < finalOffset s ∨ cancelledRemotely s = true)
  end.

Lemma dequeue_spec src s gl :
  receiving src s gl → exhausted s = true → ¬ at_end s →
  ∃ q cur cb last ran, dequeueNextFrame s = (take_frame q cur cb last s, ran) ∧ receiving src (take_frame q cur cb last s) gl ∧
    ran ++ in_use (take_frame q cur cb last s) ≡ₚ in_use s ∧ new_frame gl q cur cb last s.
Proof.
  intros H He Hn. destruct (exhausted_pos _ _ _ H He Hn) as [Hp Hl]. unfold dequeueNextFrame.
  pose proof (Pop_cases src (frameQueue s) gl (rv_sorting _ _ _ H)) as P. pose proof (qpos_highest _ _ _ H) as Hq.
  destruct (FrameSorter.Pop (frameQueue s)) as [q [[offset data] cb]]. destruct P as (-> & P1 & P2 & P3).
  set (last := (finalOffset s <=? FrameSorter.readPos (frameQueue s) + size data) && negb (cancelledRemotely s)).
  exists q, (next_frame (frameQueue s)), cb, last, (FrameSorter.run_cb (currentFrameDone s)). split; [done|].
  assert (Hlast : last = true → finalOffset s <= FrameSorter.readPos (frameQueue s) + size data).
  { unfold last. intros [E%Z.leb_le _]%andb_true_iff. done. }
  assert (Hfar : qpos s < MaxByteCount). { pose proof (rv_far _ _ _ H). pose proof far_max. lia. }
  split; [|split].
  - destruct H as [H1 H2 H3 H4 H5 H6 H7 H8 H8' H9 H10 H11 H12]. split; try done; cbn.
    + unfold frame_start, qpos in *. cbn. rewrite Z.sub_0_r, Hp. destruct (next_frame (frameQueue s)) as [cur|].
      * destruct P3 as (-> & Q2 & Q3 & Q4). split; [done|]. split; [lia|]. split; [lia|]. split; [lia|]. intros _. lia.
      * destruct P3 as (-> & _). done.
    + unfold qpos. cbn. intros Hx%Hlast. destruct (next_frame (frameQueue s)) as [cur|].
      * destruct P3 as (-> & _ & _ & Q4). unfold qpos in *. lia.
      * destruct P3 as (-> & -> & _ & _). unfold size in Hx. cbn in Hx. lia.
    + intros [[Hx _]|?]%H9; [congruence|by right].
  - unfold in_use. cbn. rewrite Hl. cbn. rewrite Permutation_app_comm, <- app_assoc.
    destruct (next_frame (frameQueue s)) as [cur|].
    + rewrite bool_decide_eq_true_2 by done. rewrite andb_false_r. rewrite app_assoc. f_equiv. by rewrite Permutation_app_comm.
    + destruct P3 as (_ & _ & -> & _). cbn in P2. rewrite P2. destruct (last && _); by rewrite app_assoc, app_nil_r.
  - unfold new_frame. destruct (next_frame (frameQueue s)); [apply P3|]. destruct P3 as (-> & -> & -> & Hg). unfold qpos in *. rewrite Hp.
    split; [done|]. split; [done|]. split; [by apply Hg|]. subst last. unfold size. cbn. rewrite Z.add_0_r.
    intros [Hx%Z.leb_gt|Hx%negb_false_iff]%andb_false_iff; [by left|by right].
Qed.

(** ** Copying *)

(** A state that has been read [m] bytes further. *)
Definition advance (m : Z) (fc : streamFlowController) (b : bool) (s : ReceiveStream) : ReceiveStream :=
  s <| flowController := fc |> <| queuedMaxStreamData := b |> <| readPosInFrame := m + readPosInFrame s |> <| readPos := m + readPos s |>.

Lemma copy_fields r s c :
  isRemoteCancellationEffective s = false →
  let bs := take (Z.to_nat (want r - size (got r))) (drop (Z.to_nat (readPosInFrame s)) (current s)) in
  let '(r', s', c') := copy_bytes r s c in
  want r' = want r ∧ got r' = got r ++ bs ∧
  ∃ fc b, s' = advance (size bs) fc b s ∧ highestReceived (s_recv fc) = highest s ∧ receivedFinalOffset fc = receivedFinalOffset (flowController s) ∧
    bytesRead (s_recv fc) = if isRemoteCancellationEffective s' then highest s else credited s + size bs.
Proof.
  intros He bs. unfold copy_bytes. rewrite He. fold bs. unfold AddBytesRead, conn_AddBytesRead, isRemoteCancellationEffective. cbn.
  destruct (cancelledRemotely s && (reliableSize s <=? size bs + readPos s)) eqn:E.
  - unfold Abandon. cbn. destruct (0 <? _); cbn; (split; [done|]); (split; [done|]); eexists _, _;
      (split; [reflexivity|]); (split; [done|]); (split; [done|]); cbn; by rewrite ?E.
  - split; [done|]. split; [done|]. eexists _, _. split; [reflexivity|]. split; [done|]. split; [done|]. cbn. by rewrite ?E.
Qed.

Lemma stream_bytes_drop src a b n : 0 <= n <= b - a → drop (Z.to_nat n) (FrameSorter.stream_bytes src a b) = FrameSorter.stream_bytes src (a + n) b.
Proof.
  intros Hn. rewrite <- (FrameSorter.stream_bytes_app src a (a + n) b) by lia.
  replace (Z.to_nat n) with (length (FrameSorter.stream_bytes src a (a + n))); [apply drop_app_length|]. rewrite FrameSorter.stream_bytes_length. lia.
Qed.

Lemma size_stream_bytes src a b : a <= b → size (FrameSorter.stream_bytes src a b) = b - a.
Proof. intros H. unfold size. rewrite FrameSorter.stream_bytes_length. lia. Qed.

(** The bytes copied out of the current frame. *)
Lemma copied_bytes src s gl cur n :
  receiving src s gl → currentFrame s = Some cur → 0 <= n →
  let bs := take (Z.to_nat n) (drop (Z.to_nat (readPosInFrame s)) (current s)) in
  size bs = Z.min n (size cur - readPosInFrame s) ∧ bs = FrameSorter.stream_bytes src (readPos s) (readPos s + size bs).
Proof.
  intros H Hc Hn bs. pose proof (rv_current _ _ _ H) as C. rewrite Hc in C. destruct C as (C1 & C2 & C3 & C4 & _). unfold frame_start in *.
  unfold bs, current. rewrite Hc. cbn [default]. unfold id. rewrite C1, stream_bytes_drop by lia.
  replace (readPos s - readPosInFrame s + readPosInFrame s) with (readPos s) by lia.
  set (m := Z.min n (size cur - readPosInFrame s)).
  assert (E : take (Z.to_nat n) (FrameSorter.stream_bytes src (readPos s) (qpos s)) = FrameSorter.stream_bytes src (readPos s) (readPos s + m)).
  { destruct (Z.le_gt_cases n (size cur - readPosInFrame s)).
    - replace m with n by lia. apply FrameSorter.stream_bytes_take. lia.
    - replace (readPos s + m) with (qpos s) by lia. apply take_ge. rewrite FrameSorter.stream_bytes_length. lia. }
  rewrite E, size_stream_bytes by lia. split; [rewrite <- C1; lia|]. f_equal. lia.
Qed.

(** What a call of [Read] leaves alone. *)
Definition same_rest (s s' : ReceiveStream) : Prop :=
  streamID s' = streamID s ∧ finalOffset s' = finalOffset s ∧ receiveFinalSizeCallback s' = receiveFinalSizeCallback s ∧
  queuedStopSending s' = queuedStopSending s ∧ completed s' = completed s ∧ cancelledRemotely s' = cancelledRemotely s ∧
  cancelledLocally s' = cancelledLocally s ∧ cancelErr s' = cancelErr s ∧ closeForShutdownErr s' = closeForShutdownErr s ∧
  reliableSize s' = reliableSize s ∧ highest s' = highest s.

Lemma same_rest_refl s : same_rest s s.
Proof. by split_and!. Qed.

Lemma same_rest_trans s1 s2 s3 : same_rest s1 s2 → same_rest s2 s3 → same_rest s1 s3.
Proof. unfold same_rest. intuition congruence. Qed.

(** The frame is read to its end, and it is the last: the stream is at its end. *)
Definition finish (s : ReceiveStream) : ReceiveStream := s <| currentFrame := None |> <| errorRead := true |>.

Lemma advance_ok src s gl m fc b :
  receiving src s gl → isRemoteCancellationEffective s = false → cancelledLocally s = false →
  highestReceived (s_recv fc) = highest s → receivedFinalOffset fc = receivedFinalOffset (flowController s) →
  bytesRead (s_recv fc) = (if isRemoteCancellationEffective (advance m fc b s) then highest s else credited s + m) →
  match currentFrame s with Some cur => 0 <= m <= size cur - readPosInFrame s | None => m = 0 ∧ readPosInFrame s = 0 end →
  let s' := advance m fc b s in
  if (size (current s) <=? readPosInFrame s') && currentFrameIsLast s then receiving src (finish s') gl ∧ at_end (finish s') else
  currentFrame s ≠ None → receiving src s' gl.
Proof.
  intros H He Hl F1 F2 F3 Hm s'. pose proof (rv_credit _ _ _ H) as Hcr. rewrite He, Hl in Hcr. destruct Hcr as [Hcr|(_ & _ & [?|?])]; [|done|done].
  assert (Hef : isRemoteCancellationEffective s' = true → credited s' = highest s').
  { intros Hx. change (credited s') with (bytesRead (s_recv fc)). rewrite F3. change (highest s') with (highestReceived (s_recv fc)). fold s'. by rewrite Hx. }
  assert (Hcr' : credited s' = readPos s' ∨ credited s' = highest s' ∧ finalOffset s' ≠ MaxByteCount ∧ (isRemoteCancellationEffective s' = true ∨ cancelledLocally s' = true)).
  { destruct (isRemoteCancellationEffective s') eqn:Hx.
    - right. split; [by apply Hef|]. split; [|by left]. apply (rv_remote _ _ _ H). unfold isRemoteCancellationEffective in Hx. by apply andb_true_iff in Hx as [Hx _].
    - left. change (credited s') with (bytesRead (s_recv fc)). rewrite F3. fold s'. rewrite Hx. cbn. lia. }
  assert (Hhi : highest s' = highest s) by done.
  assert (Hno : errorRead s = true → at_end s) by (intros Hx; destruct (rv_error _ _ _ H Hx) as [?|[?|?]]; [done|congruence|congruence]).
  pose proof (rv_current _ _ _ H) as C. unfold current, frame_start in *. destruct ((size (default [] (currentFrame s)) <=? readPosInFrame s') && currentFrameIsLast s) eqn:Ee.
  - apply andb_true_iff in Ee as [E1%Z.leb_le E2]. split; [|by split]. cbn in E1.
    assert (Hq : readPos s' = qpos s). { subst s'. cbn. destruct (currentFrame s) as [cur|]; cbn in E1; [unfold id in *; lia|lia]. }
    destruct H as [H1 H2 H3 H4 H5 H6 H7 H8 H8' H9 H10 H11 H12]. split; try done.
    + intros p Hp. apply H2. by rewrite <- Hhi.
    + by rewrite <- Hhi in H3.
    + cbn. by rewrite F2.
    + intros Hx%H6. by rewrite <- Hhi in Hx.
    + intros _. left. by split.
    + intros Hx%H12. cbn in *. tauto.
  - intros Hn. destruct (currentFrame s) as [cur|] eqn:Ec; [|done]. cbn in Ee. unfold id in Ee. destruct C as (C1 & C2 & C3 & C4 & C5).
    destruct H as [H1 H2 H3 H4 H5 H6 H7 H8 H8' H9 H10 H11 H12]. split; try done.
    + intros p Hp. apply H2. by rewrite <- Hhi.
    + by rewrite <- Hhi in H3.
    + subst s'. unfold frame_start, advance. cbn. rewrite Ec. replace (m + readPos s - (m + readPosInFrame s)) with (readPos s - readPosInFrame s) by lia.
      split; [done|]. split; [done|]. split; [done|]. split; [lia|]. intros Hx. rewrite Hx, andb_true_r in Ee. apply Z.leb_gt in Ee. cbn in Ee. lia.
    + cbn. by rewrite F2.
    + intros Hx%H6. by rewrite <- Hhi in Hx.
    + intros [_ Hx]%Hno. congruence.
Qed.

(** ** A turn of [Read] *)

(** The current frame was just taken, or is not read to its end. *)
Definition ready (gl : list ByteInterval) (s : ReceiveStream) : Prop :=
  match currentFrame s with
  | Some cur => readPosInFrame s < size cur
  | None => readPosInFrame s = 0 ∧ currentFrameDone s = None ∧ FrameSorter.in_gap gl (readPos s) ∧
      (currentFrameIsLast s = false → readPos s < finalOffset s ∨ cancelledRemotely s = true)
  end.

(** What [Read] waits for: a byte of the stream, one that is promised at least. *)
Definition waiting (gl : list ByteInterval) (s : ReceiveStream) : Prop :=
  currentFrame s = None ∧ currentFrameIsLast s = false ∧ FrameSorter.in_gap gl (readPos s) ∧
  (readPos s < finalOffset s ∨ (cancelledRemotely s = true ∧ readPos s < reliableSize s)) ∧
  closeForShutdownErr s = false ∧ cancelledLocally s = false.

Record turned (src : Z → Z) (gl : list ByteInterval) (s : ReceiveStream) (r : reading) (ran : list nat) (t : turn) : Prop := mkTurned {
  tu_ok : receiving src (t_stream t) gl;
  tu_want : want (t_call t) = want r;
  tu_got : got (t_call t) = got r ++ FrameSorter.stream_bytes src (readPos s) (readPos (t_stream t));
  tu_pos : readPos s <= readPos (t_stream t);
  tu_size : size (got (t_call t)) <= want r;
  tu_rest : same_rest s (t_stream t);
  tu_credit : credited s <= credited (t_stream t);
  tu_still : cancelledLocally s = true → readPos (t_stream t) = readPos s;
  tu_use : t_ran t ++ in_use (t_stream t) ≡ₚ ran ++ in_use s;
  tu_end : match t_end t with
           | None => waiting gl (t_stream t) ∧ size (got (t_call t)) < want r
           | Some (Some EOF) => at_end (t_stream t)
           | Some (Some RBug) => False
           | Some (Some (RCancelled e)) => e = cancelErr s ∧ (isRemoteCancellationEffective (t_stream t) = true ∨ cancelledLocally s = true)
           | Some (Some RShutdown) => closeForShutdownErr s = true
           | _ => True
           end;
}.

(** Nothing was read. *)
Lemma turned_here src gl s r ran e :
  receiving src s gl → size (got r) <= want r →
  match e with
  | None => waiting gl s ∧ size (got r) < want r
  | Some (Some EOF) => at_end s
  | Some (Some RBug) => False
  | Some (Some (RCancelled e)) => e = cancelErr s ∧ (isRemoteCancellationEffective s = true ∨ cancelledLocally s = true)
  | Some (Some RShutdown) => closeForShutdownErr s = true
  | _ => True
  end → ∀ c, turned src gl s r ran (mkTurn s c ran r e).
Proof.
  intros H Hr He c. split; cbn; try done. by rewrite FrameSorter.stream_bytes_nil, app_nil_r.
Qed.

Lemma error_read_receiving src s gl :
  receiving src s gl → at_end s ∨ isRemoteCancellationEffective s = true ∨ cancelledLocally s = true → receiving src (s <| errorRead := true |>) gl.
Proof. intros [H1 H2 H3 H4 H5 H6 H7 H8 H8' H9 H10 H11 H12] Hx. split; try done. cbn. intros Hc%H12. tauto. Qed.

Lemma turned_error src gl s r ran e :
  receiving src s gl → size (got r) <= want r → at_end s ∨ isRemoteCancellationEffective s = true ∨ cancelledLocally s = true →
  match e with EOF => at_end s | RCancelled e => e = cancelErr s ∧ (isRemoteCancellationEffective s = true ∨ cancelledLocally s = true) | _ => False end →
  ∀ c, turned src gl s r ran (mkTurn (s <| errorRead := true |>) c ran r (Some (Some e))).
Proof.
  intros H Hr Hx He c. split; cbn; try done.
  - by apply error_read_receiving.
  - by rewrite FrameSorter.stream_bytes_nil, app_nil_r.
  - destruct e; done.
Qed.

(** What was done before a turn, and the turn. *)
Lemma turned_after src gl s r ran s1 r1 ran1 t bs :
  turned src gl s1 r1 ran1 t → want r1 = want r → got r1 = got r ++ bs → bs = FrameSorter.stream_bytes src (readPos s) (readPos s1) → readPos s <= readPos s1 →
  same_rest s s1 → ran1 ++ in_use s1 ≡ₚ ran ++ in_use s → credited s <= credited s1 → (cancelledLocally s = true → readPos s1 = readPos s) → turned src gl s r ran t.
Proof.
  intros [T1 T2 T3 T4 T5 T6 T6' T6'' T7 T8] Hw Hg -> Hp Hs Hu Hcr Hst.
  split; [done|congruence| |lia|congruence|by eapply same_rest_trans|lia| |by rewrite T7|].
  - by rewrite T3, Hg, <- app_assoc, FrameSorter.stream_bytes_app.
  - intros Hx. rewrite T6''; [by apply Hst|]. by destruct Hs as (_ & _ & _ & _ & _ & _ & -> & _).
  - destruct Hs as (_ & _ & _ & _ & _ & _ & S1 & S2 & S3 & _). rewrite Hw in T8. destruct (t_end t) as [[[]|]|]; try done; [by rewrite <- S1, <- S2|by rewrite <- S3].
Qed.

(** What the rest of the loop keeps, for [read_head]. *)
Definition keeps_turn (src : Z → Z) (gl : list ByteInterval) (k : reading → ReceiveStream → connectionFlowController → list nat → option turn) (n : Z) : Prop :=
  ∀ r s c ran, receiving src s gl → ready gl s → 0 < want r - size (got r) <= n → ∃ t, k r s c ran = Some t ∧ turned src gl s r ran t.

Lemma dequeue_ready gl q cur cb last s : new_frame gl q cur cb last s → ready gl (take_frame q cur cb last s).
Proof. intros H. unfold ready, take_frame. cbn. destruct cur; [done|]. by destruct H as (_ & -> & H). Qed.

Lemma read_head_ok src gl k n r s c ran :
  keeps_turn src gl k n → receiving src s gl → want r - size (got r) <= n → size (got r) <= want r → (0 < want r - size (got r) → ¬ at_end s) →
  ∃ t, read_head k r s c ran = Some t ∧ turned src gl s r ran t.
Proof.
  intros Hk H Hn Hr Ha. unfold read_head. destruct (Z.leb_spec (want r) (size (got r))) as [Hle|Hgt].
  { destruct (isRemoteCancellationEffective s) eqn:E; eexists; (split; [reflexivity|]); [|by apply turned_here].
    apply turned_error; [done|done|by right; left|by split; [|left]]. }
  specialize (Ha ltac:(lia)). destruct (exhausted s) eqn:Ex.
  - destruct (dequeue_spec _ _ _ H Ex Ha) as (q & cur & cb & last & d & -> & H1 & Hu & Hc). set (s1 := take_frame q cur cb last s) in *.
    assert (Same : same_rest s s1) by (by split_and!). assert (Use : (ran ++ d) ++ in_use s1 ≡ₚ ran ++ in_use s) by (by rewrite <- app_assoc, Hu).
    assert (After : ∀ t, turned src gl s1 r (ran ++ d) t → turned src gl s r ran t).
    { intros t T. eapply turned_after; [exact T|done|by rewrite app_nil_r|by rewrite FrameSorter.stream_bytes_nil|done|done|done|done|done]. }
    destruct (negb _ && _) eqn:Es.
    + eexists. split; [reflexivity|]. apply After, turned_here; [done|done|]. unfold shutdown_error. by destruct (closeForShutdownErr s1) eqn:?.
    + destruct (Hk r s1 c (ran ++ d) H1 (dequeue_ready _ _ _ _ _ _ Hc) ltac:(lia)) as (t & -> & T). exists t. split; [done|]. by apply After.
  - assert (Hs : is_Some (currentFrame s) ∧ ready gl s).
    { unfold exhausted, current in Ex. unfold ready. destruct (currentFrame s) as [cur|]; cbn in Ex; [|done].
      apply Z.leb_gt in Ex. done. }
    destruct Hs as [Hs Hrd]. rewrite bool_decide_eq_true_2 by done. cbn [negb andb]. apply Hk; [done|done|lia].
Qed.

Lemma stop_reading_ok src gl expired s s' e r ran :
  receiving src s gl → size (got r) <= want r → stop_reading expired s = Some (s', e) → ∀ c, turned src gl s r ran (mkTurn s' c ran r (Some (Some e))).
Proof.
  intros H Hr. unfold stop_reading. destruct (closeForShutdownErr s) eqn:E1; [intros [= <- <-] c; by apply turned_here|].
  destruct (cancelledLocally s || isRemoteCancellationEffective s) eqn:E2.
  - intros [= <- <-] c. apply orb_true_iff in E2. apply turned_error; [done|done|tauto|]. split; [done|tauto].
  - destruct expired; [|done]. intros [= <- <-] c. by apply turned_here.
Qed.

(** The bytes copied, when there is a frame or a last empty one. *)
Lemma copied_ready src s gl n :
  receiving src s gl → ready gl s → 0 < n →
  let bs := take (Z.to_nat n) (drop (Z.to_nat (readPosInFrame s)) (current s)) in
  match currentFrame s with Some cur => 0 <= size bs <= size cur - readPosInFrame s | None => size bs = 0 ∧ readPosInFrame s = 0 end ∧
  bs = FrameSorter.stream_bytes src (readPos s) (readPos s + size bs) ∧ 0 <= size bs <= n ∧ (currentFrame s ≠ None → 0 < size bs).
Proof.
  intros H Hr Hn bs. unfold ready in Hr. destruct (currentFrame s) as [cur|] eqn:E.
  - destruct (copied_bytes src s gl cur n H E ltac:(lia)) as [B1 B2]. fold bs in B1, B2. split; [lia|]. split; [done|]. split; [lia|]. intros _. lia.
  - assert (bs = []) as ->. { unfold bs, current. rewrite E. cbn. by rewrite drop_nil, take_nil. }
    unfold size. cbn. rewrite Z.add_0_r, FrameSorter.stream_bytes_nil. destruct Hr as (Hr & _). repeat split; try done; lia.
Qed.

Lemma read_turn_ok src gl expired fuel : keeps_turn src gl (read_turn fuel expired) (Z.of_nat fuel).
Proof.
  induction fuel as [|fuel IH]; intros r s c ran H Hrd Hn; [lia|]. cbn [read_turn].
  destruct (stop_reading expired s) as [[s' e]|] eqn:Es.
  { eexists. split; [reflexivity|]. by eapply stop_reading_ok; [done|lia|]. }
  unfold stop_reading in Es. destruct (closeForShutdownErr s) eqn:Ec; [done|]. destruct (cancelledLocally s || _) eqn:El; [done|].
  apply orb_false_iff in El as [El Ee].
  destruct (negb (bool_decide (is_Some (currentFrame s))) && negb (currentFrameIsLast s)) eqn:Ew.
  { apply andb_true_iff in Ew as [Ew1%negb_true_iff%bool_decide_eq_false Ew2%negb_true_iff]. eexists. split; [reflexivity|].
    apply turned_here; [done|lia|]. split; [|lia]. apply eq_None_not_Some in Ew1. unfold ready in Hrd. rewrite Ew1 in Hrd. destruct Hrd as (_ & _ & G & L).
    split; [done|]. split; [done|]. split; [done|]. split; [|done]. destruct (L Ew2) as [?|Hx]; [by left|right]. split; [done|].
    unfold isRemoteCancellationEffective in Ee. rewrite Hx in Ee. cbn in Ee. by apply Z.leb_gt in Ee. }
  rewrite (proj2 (Z.ltb_ge _ _)) by lia.
  assert (Hpos : (size (current s) <? readPosInFrame s) = false).
  { apply Z.ltb_ge. unfold ready in Hrd. unfold current. destruct (currentFrame s) as [cur|]; cbn; [unfold id; lia|]. destruct Hrd as [-> _]. done. }
  rewrite Hpos. pose proof (copy_fields r s c Ee) as Cf. cbv zeta in Cf.
  set (bs := take (Z.to_nat (want r - size (got r))) (drop (Z.to_nat (readPosInFrame s)) (current s))) in *.
  destruct (copy_bytes r s c) as [[r' s'] c']. destruct Cf as (W & G & fc & b & -> & F1 & F2 & F3).
  destruct (copied_ready src s gl (want r - size (got r)) H Hrd ltac:(lia)) as (B1 & B2 & B3 & B4). fold bs in B1, B2, B3, B4.
  pose proof (advance_ok src s gl (size bs) fc b H Ee El F1 F2 F3 B1) as A. cbv zeta in A. set (s1 := advance (size bs) fc b s) in *.
  change (current s1) with (current s). change (currentFrameIsLast s1) with (currentFrameIsLast s).
  assert (Same : same_rest s s1) by (unfold same_rest; subst s1; by split_and!).
  assert (Pos : readPos s1 = readPos s + size bs) by (subst s1; cbn; lia).
  assert (Cred : credited s <= credited s1).
  { change (credited s1) with (bytesRead (s_recv fc)). rewrite F3. pose proof (credited_range _ _ _ H). destruct (isRemoteCancellationEffective s1); lia. }
  assert (Got : size (got r') = size (got r) + size bs) by (rewrite G; unfold size; rewrite length_app; lia).
  destruct ((size (current s) <=? readPosInFrame s1) && currentFrameIsLast s) eqn:El2.
  - destruct A as [A1 A2]. eexists. split; [reflexivity|]. change (currentFrameDone s1) with (currentFrameDone s).
    assert (Hw : size (got r') <= want r') by lia.
    eapply (turned_after src gl s r ran (finish s1) r' _ _ bs); [by apply (turned_here src gl (finish s1) r' (ran ++ FrameSorter.run_cb (currentFrameDone s)) (Some (Some EOF)))|..]; try done.
    + by rewrite B2 at 1; rewrite <- Pos.
    + change (readPos (finish s1)) with (readPos s1). lia.
    + apply andb_true_iff in El2 as [_ El2]. rewrite <- app_assoc. f_equiv. unfold in_use. cbn. rewrite El2. cbn. rewrite app_nil_r, Permutation_app_comm. f_equiv.
      unfold ready in Hrd. destruct (currentFrame s); [done|]. by destruct Hrd as (_ & -> & _).
    + by rewrite El.
  - assert (Hs : currentFrame s ≠ None).
    { intros Hx. apply not_true_iff_false in El2. apply El2. unfold current. rewrite Hx. rewrite Hx in Ew. cbn in Ew |- *.
      apply negb_false_iff in Ew. rewrite Ew, andb_true_r. apply Z.leb_le. unfold ready in Hrd. rewrite Hx in Hrd, B1. change (0 <= size bs + readPosInFrame s). lia. }
    specialize (A Hs). specialize (B4 Hs).
    destruct (read_head_ok src gl (read_turn fuel expired) (Z.of_nat fuel) r' s1 c' ran IH A ltac:(lia) ltac:(lia)) as (t & -> & T); [by intros _ [_ ?]|].
    exists t. split; [done|]. eapply turned_after; [exact T|done|done|by rewrite B2 at 1; rewrite <- Pos|lia|done|done|done|by rewrite El].
Qed.

(** ** The calls *)

Lemma read_begin_ok src s gl n expired c :
  receiving src s gl → 0 <= n → ∃ t, read_begin n expired s c = Some t ∧ turned src gl s (mkReading n [] false false) [] t.
Proof.
  intros H Hn. unfold read_begin. set (r := mkReading n [] false false). assert (Hr : size (got r) <= want r) by done.
  destruct (currentFrameIsLast s && _) eqn:Ea.
  { apply andb_true_iff in Ea as [A1 A2%negb_true_iff%bool_decide_eq_false%eq_None_not_Some].
    assert (A : at_end s) by done. eexists. split; [reflexivity|]. apply turned_error; [done|done|by left|done]. }
  destruct (cancelledLocally s || _) eqn:Ec.
  { apply orb_true_iff in Ec. eexists. split; [reflexivity|]. apply turned_error; [done|done|tauto|]. split; [done|tauto]. }
  destruct (closeForShutdownErr s) eqn:Es; [eexists; split; [reflexivity|]; by apply turned_here|].
  eapply read_head_ok; [apply read_turn_ok|done|change (n - 0 <= Z.of_nat (S (Z.to_nat n))); lia|done|].
  intros _ [A1 A2]. rewrite A1, A2 in Ea. done.
Qed.

Lemma read_wake_ok src s gl r expired c :
  receiving src s gl → currentFrame s = None → currentFrameIsLast s = false → size (got r) < want r →
  ∃ t, read_wake r expired s c = Some t ∧ turned src gl s r [] t.
Proof.
  intros H Hc Hl Hw. unfold read_wake.
  assert (Ha : ¬ at_end s) by (intros [A _]; congruence).
  assert (Ex : exhausted s = true) by (unfold exhausted; by rewrite Hc).
  destruct (dequeue_spec _ _ _ H Ex Ha) as (q & cur & cb & last & d & -> & H1 & Hu & Hcur). set (s1 := take_frame q cur cb last s) in *.
  pose proof (Zle_0_nat (length (got r))) as Hg. unfold size in Hw |- *.
  destruct (read_turn_ok src gl expired (S (Z.to_nat (want r))) r s1 c d H1 (dequeue_ready _ _ _ _ _ _ Hcur)) as (t & -> & T); [unfold size; lia|].
  exists t. split; [done|]. eapply turned_after; [exact T|done|by rewrite app_nil_r|by rewrite FrameSorter.stream_bytes_nil|done|by split_and!|by rewrite Hu|done|done].
Qed.

(** ** Completion *)

(** Between two operations: a stream cancelled with a known size is completed. A
    completed stream has given its credit back, unless the peer reset it, after the
    cancellation, with a part that was still to be delivered. *)
Record settled (s : ReceiveStream) : Prop := mkSettled {
  se_local : cancelledLocally s = true → finalOffset s ≠ MaxByteCount → completed s = true;
  se_credit : completed s = true → credited s = highest s ∨ (cancelledLocally s = true ∧ readPos s < reliableSize s);
}.

Lemma turned_settled src gl s r ran t : receiving src s gl → settled s → turned src gl s r ran t → settled (t_stream t).
Proof.
  intros H [S1 S2] T. destruct (tu_rest _ _ _ _ _ _ T) as (_ & R1 & _ & _ & R2 & _ & R3 & _ & _ & R4 & R5).
  split; rewrite ?R1, ?R2, ?R3, ?R4, ?R5; [done|]. intros [Hc|[Hl Hc]]%S2.
  - left. pose proof (tu_credit _ _ _ _ _ _ T). pose proof (credited_range _ _ _ (tu_ok _ _ _ _ _ _ T)). lia.
  - right. split; [done|]. by rewrite (tu_still _ _ _ _ _ _ T Hl).
Qed.

(** [Read] has told the application the end, and the stream is completed. *)
Lemma isNewlyCompleted_ok src s gl :
  receiving src s gl → settled s → let '(s', done) := isNewlyCompleted s in
  s' = s <| completed := done || completed s |> ∧ receiving src s' gl ∧ settled s' ∧ (done = true → completed s = false ∧ credited s = highest s).
Proof.
  intros H Se. unfold isNewlyCompleted.
  assert (Same : s = s <| completed := false || completed s |>) by (by destruct s).
  destruct (completed s) eqn:Ec; [by split_and!|]. destruct (finalOffset s =? MaxByteCount) eqn:Ef; [by split_and!|]. apply Z.eqb_neq in Ef.
  destruct (cancelledLocally s) eqn:El; [by rewrite (se_local _ Se El Ef) in Ec|]. destruct (errorRead s) eqn:Ee; [|by split_and!].
  assert (Hc : credited s = highest s).
  { destruct (rv_error _ _ _ H Ee) as [Ha|[He|?]]; [|by apply (rv_effective _ _ _ H)|congruence].
    destruct (at_end_all _ _ _ H Ha) as (_ & A1 & A2). destruct (rv_credit _ _ _ H) as [?|[? _]]; [congruence|done]. }
  split; [done|]. split; [|split; [|done]].
  - destruct H as [H1 H2 H3 H4 H5 H6 H7 H8 H8' H9 H10 H11 H12]. split; try done. cbn. tauto.
  - split; [done|]. intros _. by left.
Qed.

(** ** The frames of the peer *)

Lemma UpdateHighestReceived_ok offset final now fc c :
  let '(fc', _, e) := UpdateHighestReceived offset final now fc c in
  e = None →
  highestReceived (s_recv fc') = Z.max (highestReceived (s_recv fc)) offset ∧ bytesRead (s_recv fc') = bytesRead (s_recv fc) ∧
  receivedFinalOffset fc' = final || receivedFinalOffset fc ∧ (final = true → highestReceived (s_recv fc') = offset) ∧
  (receivedFinalOffset fc = true → highestReceived (s_recv fc') = highestReceived (s_recv fc)).
Proof.
  unfold UpdateHighestReceived. set (h := highestReceived (s_recv fc)).
  destruct (receivedFinalOffset fc && final && negb (offset =? h)) eqn:E1; [done|].
  destruct (receivedFinalOffset fc && (h <? offset)) eqn:E2; [done|].
  assert (Hk : receivedFinalOffset fc = true → offset <= h) by (intros Hr; rewrite Hr in E2; cbn in E2; by apply Z.ltb_ge in E2).
  assert (Hf : ∀ fc1, fc1 = (if final then fc <| receivedFinalOffset := true |> else fc) →
    s_recv fc1 = s_recv fc ∧ receivedFinalOffset fc1 = final || receivedFinalOffset fc) by (intros ? ->; by destruct final).
  set (fc1 := if final then _ else _) in *. destruct (Hf _ eq_refl) as [F1 F2]. clearbody fc1.
  destruct (Z.eqb_spec offset h) as [->|]; [rewrite F1, F2; fold h; intros _; split_and!; [lia|done|done|done|done]|].
  destruct (Z.ltb_spec offset h).
  { destruct final; [done|]. rewrite F1, F2. fold h. intros _. split_and!; [lia|done|done|done|done]. }
  set (r1 := if h =? 0 then _ else _). assert (R : highestReceived r1 = h ∧ bytesRead r1 = bytesRead (s_recv fc)) by (subst r1; rewrite F1; by destruct (h =? 0)).
  destruct R as [R1 R2]. clearbody r1. destruct (checkFlowControlViolation _); [done|].
  destruct (IncrementHighestReceived (offset - h) now c) as [c' e]. intros _. cbn. rewrite R2, F2. split_and!; [lia|done|done|done|]. intros Hr%Hk. lia.
Qed.

(** What a frame that is accepted does to the state before the stream is cancelled. *)
Definition hear (fc : streamFlowController) (fin : bool) (offset : Z) (q : FrameSorter.frameSorter) (s : ReceiveStream) : ReceiveStream :=
  s <| flowController := fc |> <| finalOffset := if fin then offset else finalOffset s |> <| frameQueue := q |>.

Lemma hear_ok src s gl gl' fc fin offset q :
  receiving src s gl → 0 <= offset <= far → highestReceived (s_recv fc) = Z.max (highest s) offset → bytesRead (s_recv fc) = credited s →
  receivedFinalOffset fc = fin || receivedFinalOffset (flowController s) → (fin = true → highestReceived (s_recv fc) = offset) →
  (receivedFinalOffset (flowController s) = true → highestReceived (s_recv fc) = highest s) →
  FrameSorter.sorting src q gl' → FrameSorter.readPos q = qpos s → (∀ p, FrameSorter.in_gap gl p → offset <= p → FrameSorter.in_gap gl' p) →
  receiving src (hear fc fin offset q s) gl' ∧ (finalOffset s ≠ MaxByteCount → finalOffset (hear fc fin offset q s) = finalOffset s) ∧
  (finalOffset s ≠ MaxByteCount → highest (hear fc fin offset q s) = highest s).
Proof.
  intros H Hr F1 F2 F3 F4 F5 Q1 Q2 Q3. set (s' := hear fc fin offset q s). pose proof far_max as Hm. pose proof (qpos_highest _ _ _ H) as Hq.
  assert (Hknown : finalOffset s ≠ MaxByteCount → highest s' = highest s).
  { intros Hf. apply F5. rewrite (rv_final _ _ _ H). by rewrite (proj2 (Z.eqb_neq _ _) Hf). }
  assert (Hfinal : finalOffset s ≠ MaxByteCount → finalOffset s' = finalOffset s).
  { intros Hf. subst s'. cbn. destruct fin; [|done]. pose proof (rv_offset _ _ _ H Hf). pose proof (Hknown Hf) as Hk. cbn in Hk. unfold highest in Hk at 1. cbn in Hk.
    rewrite (F4 eq_refl) in Hk. congruence. }
  split; [|done]. pose proof (rv_last _ _ _ H) as Hl.
  assert (Hgo : finalOffset s ≠ MaxByteCount → finalOffset s' ≠ MaxByteCount) by (intros Hf; by rewrite (Hfinal Hf)).
  destruct H as [H1 H2 H3 H4 H5 H6 H7 H8 H8' H9 H10 H11 H12]. split; try done.
  - intros p Hp. change (highest s') with (highestReceived (s_recv fc)) in Hp. apply Q3; [apply H2; lia|lia].
  - change (highest s') with (highestReceived (s_recv fc)). lia.
  - change (qpos s') with (FrameSorter.readPos q). rewrite Q2. done.
  - subst s'. cbn. rewrite F3, H5. destruct fin; [|done]. cbn. symmetry. apply negb_true_iff, Z.eqb_neq. lia.
  - intros Hf. subst s'. cbn in Hf |- *. unfold highest. cbn. destruct fin; [by rewrite (F4 eq_refl)|]. rewrite (H6 Hf). symmetry. apply Hknown, Hf.
  - change (qpos s') with (FrameSorter.readPos q). rewrite Q2. intros Hx%Hl. rewrite Hfinal; [done|]. lia.
  - change (credited s') with (bytesRead (s_recv fc)). rewrite F2. destruct H8 as [Hc|(Hc & Hf & Hx)]; [by left|right]. split; [by rewrite (Hknown Hf)|]. split; [by apply Hgo|done].
  - intros He. change (credited s') with (bytesRead (s_recv fc)). rewrite F2. rewrite Hknown; [by apply H8'|]. apply H11. unfold isRemoteCancellationEffective in He. by apply andb_true_iff in He as [He _].
  - intros Hx. apply Hgo. by apply H11.
  - intros [Hf Hx]%H12. split; [by apply Hgo|done].
Qed.

(** ** Giving the credit back *)

Definition abandoned (fc : streamFlowController) : streamFlowController := fc <| s_recv := (s_recv fc) <| bytesRead := highestReceived (s_recv fc) |> |>.

Lemma abandon_if_fields b s c :
  (abandon_if b s c).1 = s <| flowController := if b then abandoned (flowController s) else flowController s |>.
Proof. unfold abandon_if, Abandon. destruct b; [|by destruct s]. by destruct (0 <? _). Qed.

(** Completing a stream and giving its credit back, whatever becomes of the callback. *)
Lemma completed_abandoned src s gl b c :
  receiving src s gl → (completed s = true → credited s = highest s ∨ (cancelledLocally s = true ∧ readPos s < reliableSize s)) →
  let '(s1, done) := isNewlyCompleted s in
  let s2 := (abandon_if done (s1 <| receiveFinalSizeCallback := b |>) c).1 in
  receiving src s2 gl ∧ settled s2 ∧ in_use s2 = in_use s ∧ readPos s2 = readPos s ∧ waiting gl s2 = waiting gl s ∧ finalOffset s2 = finalOffset s ∧
  completed s2 = done || completed s ∧ (done = true → completed s = false).
Proof.
  intros H Hcr. destruct (isNewlyCompleted s) as [s1 done] eqn:E. rewrite abandon_if_fields. cbn zeta.
  assert (Hd : s1 = s <| completed := done || completed s |> ∧ (done = true → completed s = false ∧ finalOffset s ≠ MaxByteCount ∧ (cancelledLocally s = true ∨ errorRead s = true)) ∧
    (done = false → completed s = false → finalOffset s = MaxByteCount ∨ cancelledLocally s = false ∧ errorRead s = false)).
  { unfold isNewlyCompleted in E. destruct (completed s) eqn:Ec; [injection E as <- <-; split; [by destruct s; cbn in *; subst|done]|].
    destruct (Z.eqb_spec (finalOffset s) MaxByteCount); [injection E as <- <-; split; [by destruct s; cbn in *; subst|]; split; [done|by left]|].
    destruct (cancelledLocally s); [injection E as <- <-; split; [done|]; split; [intros _; split_and!; [done|done|by left]|done]|].
    destruct (errorRead s); injection E as <- <-; [split; [done|]; split; [intros _; split_and!; [done|done|by right]|done]|].
    split; [by destruct s; cbn in *; subst|]. split; [done|by right]. }
  destruct Hd as (-> & Hd1 & Hd2).
  assert (Hend : done = true → isRemoteCancellationEffective s = true ∨ cancelledLocally s = true ∨ credited s = highest s).
  { intros (_ & Hf & [Hl|He])%Hd1; [by right; left|]. destruct (rv_error _ _ _ H He) as [Ha|[?|?]]; [right; right|by left|by right; left].
    destruct (at_end_all _ _ _ H Ha) as (_ & A1 & A2). destruct (rv_credit _ _ _ H) as [?|[? _]]; [congruence|done]. }
  split; [|split; [|split_and!; try done; intros Hx; by apply Hd1]].
  - destruct H as [H1 H2 H3 H4 H5 H6 H7 H8 H8' H9 H10 H11 H12]. destruct done.
    + destruct (Hd1 eq_refl) as (D1 & D2 & D3). split; try done.
      destruct (Hend eq_refl) as [Hx|[Hx|Hx]]; [right; split_and!; [done|done|by left]|right; split_and!; [done|done|by right]|].
      unfold credited, highest in *. cbn. destruct H8 as [Hc|(_ & Hf & Hx')]; [left; congruence|by right].
    + split; done.
  - destruct done; [split; [done|]; intros _; by left|]. split.
    + intros Hl Hf. cbn in Hl, Hf |- *. destruct (completed s) eqn:Ec; [done|]. destruct (Hd2 eq_refl eq_refl) as [?|[? _]]; congruence.
    + cbn. intros Hx. destruct (Hcr Hx) as [?|?]; [by left|by right].
Qed.

(** ** Everything but reading *)

(** What cannot be undone. *)
Definition lasting (s s' : ReceiveStream) : Prop :=
  (cancelledRemotely s = true → cancelledRemotely s' = true ∧ reliableSize s' <= reliableSize s) ∧
  (cancelledLocally s = true → cancelledLocally s' = true) ∧ (closeForShutdownErr s = true → closeForShutdownErr s' = true).

Lemma lasting_refl s : lasting s s.
Proof. by split. Qed.

(** What is kept by an operation that may run while a call of [Read] waits. *)
Record kept (src : Z → Z) (gl' : list ByteInterval) (s s' : ReceiveStream) (done : bool) : Prop := mkKept {
  kp_ok : receiving src s' gl';
  kp_settled : settled s';
  kp_pos : readPos s' = readPos s;
  kp_frame : currentFrame s' = currentFrame s ∧ currentFrameIsLast s' = currentFrameIsLast s;
  kp_final : finalOffset s ≠ MaxByteCount → finalOffset s' = finalOffset s;
  kp_completed : completed s' = done || completed s ∧ (done = true → completed s = false);
  kp_lasting : lasting s s';
}.

Lemma kept_refl src gl s : receiving src s gl → settled s → kept src gl s s false.
Proof. intros H Se. by split. Qed.

(** The end of a handler, after which the stream may be completed. *)
Lemma kept_completed src gl s s1 b c :
  receiving src s1 gl → (completed s1 = true → credited s1 = highest s1 ∨ (cancelledLocally s1 = true ∧ readPos s1 < reliableSize s1)) →
  readPos s1 = readPos s → currentFrame s1 = currentFrame s → currentFrameIsLast s1 = currentFrameIsLast s → completed s1 = completed s →
  (finalOffset s ≠ MaxByteCount → finalOffset s1 = finalOffset s) → lasting s s1 →
  let '(s2, done) := isNewlyCompleted s1 in
  let s3 := (abandon_if done (s2 <| receiveFinalSizeCallback := b |>) c).1 in
  kept src gl s s3 done ∧ in_use s3 = in_use s1 ∧ finalOffset s3 = finalOffset s1.
Proof.
  intros H Hc E1 E2 E3 E4 E5 E6. pose proof (completed_abandoned src s1 gl b c H Hc) as K. unfold isNewlyCompleted in *.
  destruct (isNewlyCompleted s1) as [s2 done] eqn:E. unfold isNewlyCompleted in E. rewrite E in *. cbn zeta in K |- *. set (s3 := (abandon_if _ _ _).1) in *.
  destruct K as (K1 & K2 & K3 & K4 & _ & K5 & K6 & K7).
  assert (S : currentFrame s3 = currentFrame s1 ∧ currentFrameIsLast s3 = currentFrameIsLast s1 ∧ lasting s s3).
  { assert (Hs2 : s2 = s1 ∨ s2 = s1 <| completed := true |>) by (repeat case_match; injection E as <- <-; tauto).
    subst s3. rewrite abandon_if_fields. by destruct Hs2 as [-> | ->]. }
  destruct S as (S1 & S2 & S3). split; [|done]. split; [done|done|congruence|split; congruence| |split; [congruence|by rewrite <- E4]|done].
  intros Hf. by rewrite K5, E5.
Qed.

(** The final size is told in between. *)
Lemma take_callback s : ∃ b, (takeReceiveFinalSizeCallback s).1 = s <| receiveFinalSizeCallback := b |>.
Proof. unfold takeReceiveFinalSizeCallback. destruct (_ =? _); [exists (receiveFinalSizeCallback s); by destruct s|by exists false]. Qed.

(** What both handlers of frames end with; [give]: the credit is given back. *)
Lemma frame_tail src gl s s1 c :
  receiving src s1 gl → (completed s1 = true → credited s1 = highest s1 ∨ (cancelledLocally s1 = true ∧ readPos s1 < reliableSize s1)) →
  readPos s1 = readPos s → currentFrame s1 = currentFrame s → currentFrameIsLast s1 = currentFrameIsLast s → completed s1 = completed s →
  (finalOffset s ≠ MaxByteCount → finalOffset s1 = finalOffset s) → lasting s s1 →
  ∃ s2 n done s3 c3, isNewlyCompleted s1 = (s2, done) ∧ takeReceiveFinalSizeCallback s2 = (s2 <| receiveFinalSizeCallback := receiveFinalSizeCallback s3 |>, n) ∧
    abandon_if done (s2 <| receiveFinalSizeCallback := receiveFinalSizeCallback s3 |>) c = (s3, c3) ∧
    kept src gl s s3 done ∧ in_use s3 = in_use s1 ∧ finalOffset s3 = finalOffset s1.
Proof.
  intros H Hc E1 E2 E3 E4 E5 E6. destruct (isNewlyCompleted s1) as [s2 done] eqn:E. destruct (take_callback s2) as [b Eb].
  pose proof (kept_completed src gl s s1 b c H Hc E1 E2 E3 E4 E5 E6) as K. rewrite E in K. cbn zeta in K.
  destruct (takeReceiveFinalSizeCallback s2) as [s2' n] eqn:Et. cbn [fst] in Eb. subst s2'. pose proof (abandon_if_fields done (s2 <| receiveFinalSizeCallback := b |>) c) as Ea.
  destruct (abandon_if done _ c) as [s3 c3] eqn:Ed. cbn [fst] in K, Ea. exists s2, n, done, s3, c3.
  assert (Hb : receiveFinalSizeCallback s3 = b) by (by rewrite Ea). rewrite Hb. by rewrite Et.
Qed.

Lemma handleStreamFrame_ok src s gl f cb now c :
  receiving src s gl → settled s → FrameSorter.from_stream src (Data f) (Offset f) → 0 <= Offset f → Offset f + size (Data f) <= far →
  ∃ s' c' ran e n, handleStreamFrame f cb now s c = Some (s', c', ran, e, n) ∧
    (e = None → ∃ gl', kept src gl' s s' (no_completed n) ∧ ran ++ in_use s' ⊆+ cb :: in_use s ∧
      (finalOffset s' = finalOffset s ∨ Fin f = true ∧ finalOffset s' = Offset f + size (Data f)) ∧
      (∀ p, FrameSorter.in_gap gl p → ¬ Offset f <= p < Offset f + size (Data f) → FrameSorter.in_gap gl' p) ∧
      (closeForShutdownErr s = false → cancelledLocally s = false →
        (Fin f = true → finalOffset s' = Offset f + size (Data f)) ∧ (∀ p, FrameSorter.in_gap gl' p ↔ FrameSorter.in_gap gl p ∧ ¬ Offset f <= p < Offset f + size (Data f)))).
Proof.
  intros H Se Hd Ho He. pose proof far_max as Hm. unfold handleStreamFrame, handleStreamFrameImpl.
  destruct (closeForShutdownErr s) eqn:Ec.
  { cbn [mbind option_bind]. destruct (frame_tail src gl s s c H (se_credit _ Se) eq_refl eq_refl eq_refl eq_refl (λ _, eq_refl) (lasting_refl s)) as (s2 & n & done & s3 & c3 & -> & -> & -> & K & U & F).
    eexists _, _, _, _, _. split; [done|]. intros _. exists gl. split; [done|]. split; [rewrite U; by apply submseteq_cons|]. split; [by left|]. split; [done|done]. }
  pose proof (UpdateHighestReceived_ok (Offset f + size (Data f)) (Fin f) now (flowController s) c) as Up.
  destruct (UpdateHighestReceived _ _ _ _ _) as [[fc c1] [e|]].
  { cbn [mbind option_bind]. destruct (isNewlyCompleted _) as [s1 done]. destruct (takeReceiveFinalSizeCallback s1) as [s2 n]. destruct (abandon_if done s2 c1) as [s3 c3].
    by eexists _, _, _, _, _. }
  destruct (Up eq_refl) as (U1 & U2 & U3 & U4 & U5). clear Up.
  assert (Hh : ∀ q gl', FrameSorter.sorting src q gl' → FrameSorter.readPos q = qpos s → (∀ p, FrameSorter.in_gap gl p → Offset f + size (Data f) <= p → FrameSorter.in_gap gl' p) →
    let s1 := hear fc (Fin f) (Offset f + size (Data f)) q s in
    ∃ s2 n done s3 c3, isNewlyCompleted s1 = (s2, done) ∧ takeReceiveFinalSizeCallback s2 = (s2 <| receiveFinalSizeCallback := receiveFinalSizeCallback s3 |>, n) ∧
      abandon_if done (s2 <| receiveFinalSizeCallback := receiveFinalSizeCallback s3 |>) c1 = (s3, c3) ∧
      kept src gl' s s3 done ∧ in_use s3 = in_use s1 ∧ finalOffset s3 = finalOffset s1).
  { intros q gl' Q1 Q2 Q3 s1. assert (Hsz : 0 <= size (Data f)) by (unfold size; lia).
    destruct (hear_ok src s gl gl' fc (Fin f) (Offset f + size (Data f)) q H ltac:(lia) U1 U2 U3 U4 U5 Q1 Q2 Q3) as (H1 & Hf & Hk). fold s1 in H1, Hf, Hk.
    refine (frame_tail src gl' s s1 c1 H1 _ eq_refl eq_refl eq_refl eq_refl Hf (lasting_refl s)).
    intros Hx. change (credited s1) with (bytesRead (s_recv fc)). rewrite U2. rewrite Hk; [by apply (se_credit _ Se)|]. by apply (rv_completed _ _ _ H). }
  set (last := Offset f + size (Data f)) in *.
  assert (Es : (if Fin f then (s <| flowController := fc |>) <| finalOffset := last |> else s <| flowController := fc |>) = hear fc (Fin f) last (frameQueue s) s)
    by (unfold hear; by destruct (Fin f), s).
  rewrite Es. clear Es. cbv zeta. change (cancelledLocally (hear fc (Fin f) last (frameQueue s) s)) with (cancelledLocally s).
  change (frameQueue (hear fc (Fin f) last (frameQueue s) s)) with (frameQueue s).
  destruct (cancelledLocally s) eqn:El.
  - destruct (Hh (frameQueue s) gl (rv_sorting _ _ _ H) eq_refl ltac:(done)) as (s2 & n & done & s3 & c3 & E1 & E2 & E3 & K & U & F).
    cbn [mbind option_bind]. rewrite E1, E2, E3. eexists _, _, _, _, _. split; [done|]. intros _. exists gl. split; [done|]. split; [rewrite U; by apply submseteq_cons|].
    split; [|by split]. rewrite F. cbn. destruct (Fin f); [by right|by left].
  - destruct (FrameSorter.Push_spec src (frameQueue s) gl (Data f) (Offset f) (Some cb) (rv_sorting _ _ _ H) Hd Ho) as (o & gl' & -> & _ & Hp & Hg & Hcase).
    { rewrite max_same. unfold size in last. lia. }
    cbn [mbind option_bind]. destruct Hcase as [(-> & Q1 & Q2)|(-> & _)].
    + assert (Hg' : ∀ p, FrameSorter.in_gap gl p → last <= p → FrameSorter.in_gap gl' p). { intros p Hp1 Hp2. apply Hg. split; [done|]. fold (size (Data f)). lia. }
      destruct (Hh (FrameSorter.after o) gl' Q1 Hp Hg') as (s2 & n & done & s3 & c3 & E1 & E2 & E3 & K & U & F).
      match goal with |- context [isNewlyCompleted ?x] => change x with (hear fc (Fin f) last (FrameSorter.after o) s) end.
      rewrite E1, E2, E3. eexists _, _, _, _, _. split; [done|]. intros _. exists gl'. split; [done|]. split; [|split; [|split]].
      * rewrite U. unfold in_use. cbn. rewrite app_assoc, Q2. done.
      * rewrite F. cbn. destruct (Fin f); [by right|by left].
      * intros p P1 P2. by apply Hg.
      * intros _ _. split; [rewrite F; cbn; by intros ->|]. intros p. by rewrite Hg.
    + destruct (isNewlyCompleted _) as [s1 done]. destruct (takeReceiveFinalSizeCallback s1) as [s2 n]. destruct (abandon_if done s2 c1) as [s3 c3].
      by eexists _, _, _, _, _.
Qed.

Lemma CancelRead_ok src s gl code c :
  receiving src s gl → settled s →
  let '(s', _, n) := CancelRead code s c in kept src gl s s' (no_completed n) ∧ in_use s' = in_use s ∧ finalOffset s' = finalOffset s.
Proof.
  intros H Se. unfold CancelRead. destruct (cancelReadImpl code s) as [s1 control] eqn:E.
  assert (I : receiving src s1 gl ∧ (completed s1 = true → credited s1 = highest s1 ∨ (cancelledLocally s1 = true ∧ readPos s1 < reliableSize s1)) ∧
    readPos s1 = readPos s ∧ currentFrame s1 = currentFrame s ∧ currentFrameIsLast s1 = currentFrameIsLast s ∧ completed s1 = completed s ∧
    finalOffset s1 = finalOffset s ∧ in_use s1 = in_use s ∧ lasting s s1).
  { pose proof (se_credit _ Se) as Sc. unfold cancelReadImpl in E.
    destruct (cancelledLocally s) eqn:El; [injection E as <- <-; rewrite El; by split_and!|].
    assert (Sc' : completed s = true → credited s = highest s ∨ true = true ∧ readPos s < reliableSize s) by (intros [?|[? _]]%Sc; [by left|done]).
    destruct (closeForShutdownErr s); [injection E as <- <-; rewrite El; by split_and!|].
    destruct H as [H1 H2 H3 H4 H5 H6 H7 H8 H8' H9 H10 H11 H12].
    assert (H8'' : credited s = readPos s ∨ credited s = highest s ∧ finalOffset s ≠ MaxByteCount ∧ (isRemoteCancellationEffective s = true ∨ true = true)) by tauto.
    assert (H12' : completed s = true → finalOffset s ≠ MaxByteCount ∧ (true = true ∨ errorRead s = true)) by tauto.
    destruct (errorRead _ || _); injection E as <- <-; (split; [split; try done; intros _; right; by right|]); (split; [exact Sc'|by split_and!]). }
  destruct I as (I1 & I2 & I3 & I4 & I5 & I6 & I7 & I8 & I9).
  pose proof (kept_completed src gl s s1 (receiveFinalSizeCallback s1) c I1 I2 I3 I4 I5 I6 (λ _, I7) I9) as K.
  destruct (isNewlyCompleted s1) as [s2 done] eqn:E2. cbn zeta in K.
  assert (Es : s2 <| receiveFinalSizeCallback := receiveFinalSizeCallback s1 |> = s2).
  { unfold isNewlyCompleted in E2. repeat case_match; injection E2 as <- <-; by destruct s1. }
  rewrite Es in K. destruct (abandon_if done s2 c) as [s3 c3]. cbn [fst] in K. destruct K as (K1 & K2 & K3). by rewrite K2, K3, I7, I8.
Qed.

Lemma shutdown_kept src s gl : receiving src s gl → settled s → kept src gl s (closeForShutdown s) false ∧ in_use (closeForShutdown s) = in_use s.
Proof.
  intros [H1 H2 H3 H4 H5 H6 H7 H8 H8' H9 H10 H11 H12] [S1 S2]. split; [|done]. by split.
Qed.

Lemma SetReceiveFinalSizeCallback_kept src s gl some :
  receiving src s gl → settled s → let s' := (SetReceiveFinalSizeCallback some s).1 in kept src gl s s' false ∧ in_use s' = in_use s ∧ finalOffset s' = finalOffset s.
Proof.
  intros H Se. unfold SetReceiveFinalSizeCallback. cbn zeta. destruct (negb _); [split; [by apply kept_refl|done]|].
  destruct (closeForShutdownErr s) eqn:E; [split; [by apply kept_refl|done]|]. split; [|done].
  destruct H as [H1 H2 H3 H4 H5 H6 H7 H8 H8' H9 H10 H11 H12]. destruct Se. by split.
Qed.

Lemma getWindowUpdate_reads rtt allow now c :
  highestReceived (getWindowUpdate rtt allow now c).1 = highestReceived c ∧ bytesRead (getWindowUpdate rtt allow now c).1 = bytesRead c.
Proof. unfold getWindowUpdate, maybeAdjustWindowSize, startNewAutoTuningEpoch. repeat case_match; by cbn. Qed.

(** [getControlFrame] never finds a nil error. *)
Lemma getControlFrame_ok src s gl rtt allow now c :
  receiving src s gl → settled s →
  ∃ s' c' r, getControlFrame rtt allow now s c = Some (s', c', r) ∧ kept src gl s s' false ∧ in_use s' = in_use s ∧ finalOffset s' = finalOffset s.
Proof.
  intros H Se. unfold getControlFrame. destruct (_ && _) eqn:E0; [by eexists _, _, _|].
  destruct (queuedStopSending s) eqn:Eq.
  - destruct (rv_stop _ _ _ H Eq) as [e ->]. cbn [mbind option_bind]. eexists _, _, _. split; [done|]. split; [|done].
    destruct H as [H1 H2 H3 H4 H5 H6 H7 H8 H8' H9 H10 H11 H12]. split; try done. destruct Se. by split.
  - unfold stream_GetWindowUpdate. destruct (receivedFinalOffset (flowController s)) eqn:Er.
    + eexists _, _, _. split; [done|]. split; [|done]. destruct H as [H1 H2 H3 H4 H5 H6 H7 H8 H8' H9 H10 H11 H12]. split; try done. destruct Se. by split.
    + pose proof (getWindowUpdate_reads rtt (λ _, true) now (s_recv (flowController s))) as G. destruct (getWindowUpdate _ _ _ _) as [r offset]. destruct G as [G1 G2]. cbn in G1, G2.
      eexists _, _, _. split; [done|]. split; [|done]. assert (Hh : ∀ x, x = r → highestReceived x = highest s ∧ bytesRead x = credited s) by (by intros ? ->).
      destruct (Hh r eq_refl) as [W1 W2]. clear Hh G1 G2. destruct H as [H1 H2 H3 H4 H5 H6 H7 H8 H8' H9 H10 H11 H12]. destruct Se as [S1 S2].
      split; try done; [|by split; [|unfold credited, highest; cbn; rewrite W1, W2]].
      split; try done; unfold credited, highest; cbn; rewrite ?W1, ?W2, ?Er; done.
Qed.

(** The peer's reset, once its final size is accepted. *)
Definition reset_by (R : Z) (b : bool) (e : option SendStream.stream_error) (s : ReceiveStream) : ReceiveStream :=
  s <| reliableSize := R |> <| flowController := if R <=? readPos s then abandoned (flowController s) else flowController s |> <| cancelledRemotely := b |> <| cancelErr := e |>.

Lemma reset_by_ok src s gl R b e :
  receiving src s gl → finalOffset s ≠ MaxByteCount → (cancelledRemotely s = true → R <= reliableSize s ∧ b = true) →
  b = true ∨ cancelledLocally s = true → e = cancelErr s ∨ is_Some e → receiving src (reset_by R b e s) gl.
Proof.
  intros H Hf Hr Hb He. set (s' := reset_by R b e s).
  assert (Hcr : (R <=? readPos s) = true → credited s' = highest s) by (intros Hx; subst s'; unfold reset_by, credited; cbn; by rewrite Hx).
  assert (Hcr' : (R <=? readPos s) = false → credited s' = credited s) by (intros Hx; subst s'; unfold reset_by, credited; cbn; by rewrite Hx).
  assert (Hhi : highest s' = highest s) by (subst s'; unfold reset_by, highest; cbn; by destruct (_ <=? _)).
  assert (Hrf : receivedFinalOffset (flowController s') = receivedFinalOffset (flowController s)) by (subst s'; unfold reset_by; cbn; by destruct (_ <=? _)).
  assert (Hef : isRemoteCancellationEffective s = true → isRemoteCancellationEffective s' = true).
  { unfold isRemoteCancellationEffective. intros [Hc Hx%Z.leb_le]%andb_true_iff. destruct (Hr Hc) as [? ->]. apply andb_true_iff. split; [done|]. apply Z.leb_le. cbn. lia. }
  assert (Hle : isRemoteCancellationEffective s' = true → (R <=? readPos s) = true) by (by intros [_ Hx]%andb_true_iff).
  destruct H as [H1 H2 H3 H4 H5 H6 H7 H8 H8' H9 H10 H11 H12]. split; try done.
  - by rewrite Hhi.
  - by rewrite Hhi.
  - by rewrite Hrf.
  - rewrite Hhi. done.
  - rewrite Hhi. destruct (R <=? readPos s) eqn:E.
    + right. split; [by apply Hcr|]. split; [done|]. destruct Hb as [Hb|Hb]; [left|by right]. unfold isRemoteCancellationEffective. subst s'. cbn. by rewrite Hb.
    + rewrite Hcr' by done. destruct H8 as [?|(Hc & _ & [Hx|?])]; [by left| |right; by split_and!; [| |right]]. specialize (Hle (Hef Hx)). congruence.
  - intros Hx. rewrite Hhi. by apply Hcr, Hle.
  - intros [?|[?|?]]%H9; [by left|right; left; by apply Hef|by right; right].
  - intros Hx. destruct He as [-> | ?]; [by apply H10|done].
Qed.

Lemma reset_by_settled R b e s : settled s → completed s = true → settled (reset_by R b e s).
Proof.
  intros [S1 S2] Hc. split; [done|]. intros _. unfold reset_by, credited, highest. cbn. destruct (R <=? readPos s) eqn:E; [by left|].
  apply Z.leb_gt in E. destruct (S2 Hc) as [?|[? _]]; [by left|by right].
Qed.

Lemma isNewlyCompleted_reset src s gl R b e :
  receiving src s gl → finalOffset s ≠ MaxByteCount → (cancelledRemotely s = true → R <= reliableSize s ∧ b = true) →
  b = true ∨ cancelledLocally s = true → e = cancelErr s ∨ is_Some e → (completed s = true → settled s) →
  let s1 := reset_by R b e s in let '(s2, done) := isNewlyCompleted s1 in
  s2 = s1 <| completed := done || completed s1 |> ∧ receiving src s2 gl ∧ settled s2 ∧ (done = true → completed s = false).
Proof.
  intros H Hf Hr Hb He Hs. cbn zeta. pose proof (reset_by_ok _ _ _ _ _ _ H Hf Hr Hb He) as H1.
  destruct (completed s) eqn:Ec.
  { unfold isNewlyCompleted. change (completed (reset_by R b e s)) with (completed s). rewrite Ec. split_and!; [|done|by apply reset_by_settled; [apply Hs|]|done].
    unfold reset_by. destruct s. cbn in *. by subst. }
  assert (Hx : cancelledLocally s = true ∨ errorRead s = true → credited (reset_by R b e s) = highest (reset_by R b e s) ∨ cancelledLocally s = true ∧ readPos s < R).
  { unfold reset_by, credited, highest. cbn. destruct (R <=? readPos s) eqn:E; [by left|]. apply Z.leb_gt in E. intros [Hl|Hx]; [by right|]. cbn.
    destruct (rv_error _ _ _ H Hx) as [Ha|[Hx'|Hl]]; [left|left; by apply (rv_effective _ _ _ H)|by right].
    destruct (at_end_all _ _ _ H Ha) as (_ & A1 & A2). destruct (rv_credit _ _ _ H) as [A3|[A3 _]]; [unfold credited, highest in *; congruence|done]. }
  set (s1 := reset_by R b e s) in *. unfold isNewlyCompleted. change (completed s1) with (completed s). rewrite Ec.
  change (finalOffset s1) with (finalOffset s). rewrite (proj2 (Z.eqb_neq _ _) Hf). change (cancelledLocally s1) with (cancelledLocally s). change (errorRead s1) with (errorRead s).
  assert (Done : cancelledLocally s = true ∨ errorRead s = true → receiving src (s1 <| completed := true |>) gl ∧ settled (s1 <| completed := true |>)).
  { intros Hy. split; [|split; [done|intros _; by apply Hx]]. destruct H1 as [G1 G2 G3 G4 G5 G6 G7 G8 G8' G9 G10 G11 G12]. by split. }
  destruct (cancelledLocally s) eqn:El; [split; [done|]; destruct Done; [by left|done]|].
  destruct (errorRead s) eqn:Ee; [split; [done|]; destruct Done; [by right|done]|].
  split; [by subst s1; destruct s; cbn in *; subst|]. split; [done|]. split; [|done]. split; cbn; congruence.
Qed.

Lemma hear_same_queue fc offset s : (s <| flowController := fc |>) <| finalOffset := offset |> = hear fc true offset (frameQueue s) s.
Proof. by destruct s. Qed.

(** [ReliableSize] as it becomes. *)
Definition reliable_after (f : ResetStreamFrame) (s : ReceiveStream) : Z :=
  if (negb (cancelledRemotely s) && (reliableSize s =? 0)) || (ReliableSize f <? reliableSize s) then ReliableSize f else reliableSize s.

Lemma handleResetStreamFrame_ok src s gl f now c :
  receiving src s gl → settled s → 0 <= FinalSize f <= far →
  let '(s', c', e, n) := handleResetStreamFrame f now s c in
  e = None → kept src gl s s' (no_completed n) ∧ in_use s' = in_use s ∧ (finalOffset s' = finalOffset s ∨ finalOffset s' = FinalSize f).
Proof.
  intros H Se Hr. unfold handleResetStreamFrame, handleResetStreamFrameImpl. pose proof far_max as Hm.
  destruct (closeForShutdownErr s).
  { pose proof (isNewlyCompleted_ok src s gl H Se) as I. destruct (isNewlyCompleted s) as [s1 done]. destruct I as (-> & I1 & I2 & I3).
    destruct (take_callback (s <| completed := done || completed s |>)) as [b Eb]. destruct (takeReceiveFinalSizeCallback _) as [s2 n]. cbn [fst] in Eb. subst s2. intros _.
    split; [|split; [done|by left]]. split; [by destruct I1|by destruct I2|done|done|done| |done]. split; [done|]. intros Hd. by apply I3. }
  pose proof (UpdateHighestReceived_ok (FinalSize f) true now (flowController s) c) as Up.
  destruct (UpdateHighestReceived _ _ _ _ _) as [[fc c1] [e|]].
  { destruct (isNewlyCompleted _) as [s1 done]. by destruct (takeReceiveFinalSizeCallback s1) as [s2 n]. }
  destruct (Up eq_refl) as (U1 & U2 & U3 & U4 & U5). clear Up. rewrite hear_same_queue.
  destruct (hear_ok src s gl gl fc true (FinalSize f) (frameQueue s) H Hr U1 U2 U3 U4 U5 (rv_sorting _ _ _ H) eq_refl ltac:(done)) as (H1 & Hf & Hk).
  set (s1 := hear fc true (FinalSize f) (frameQueue s) s) in *. cbv zeta.
  set (R := reliable_after f s1).
  assert (ER : (if negb (cancelledRemotely s1) && (reliableSize s1 =? 0) || (ReliableSize f <? reliableSize s1) then s1 <| reliableSize := ReliableSize f |> else s1) =
    s1 <| reliableSize := R |>) by (subst R; unfold reliable_after; case_match; reflexivity).
  rewrite ER. clear ER. pose proof (abandon_if_fields (R <=? readPos s) (s1 <| reliableSize := R |>) c1) as Ea.
  change (reliableSize (s1 <| reliableSize := R |>) <=? readPos (s1 <| reliableSize := R |>)) with (R <=? readPos s).
  destruct (abandon_if _ _ c1) as [s2 c2]. cbn [fst] in Ea. subst s2. set (s2 := (_ : ReceiveStream) <| flowController := _ |>).
  change (cancelledRemotely s2) with (cancelledRemotely s1). change (cancelledLocally s2) with (cancelledLocally s1).
  assert (Hfin : finalOffset s1 ≠ MaxByteCount). { change (finalOffset s1) with (FinalSize f). lia. }
  assert (Main : ∀ b e, (cancelledRemotely s1 = true → R <= reliableSize s1 ∧ b = true) → b = true ∨ cancelledLocally s1 = true → e = cancelErr s1 ∨ is_Some e →
    let '(s3, _, e, n) := let '(s3, done) := isNewlyCompleted (reset_by R b e s1) in let '(s4, n) := takeReceiveFinalSizeCallback s3 in (s4, c2, @None frame_error, mkNotes done false n) in
    e = None → kept src gl s s3 (no_completed n) ∧ in_use s3 = in_use s ∧ (finalOffset s3 = finalOffset s ∨ finalOffset s3 = FinalSize f)).
  { intros b e Hb1 Hb2 He.
    assert (Hs1 : completed s1 = true → settled s1).
    { intros Hx. pose proof (se_credit _ Se Hx) as Sc. split; [done|]. intros _. change (credited s1) with (bytesRead (s_recv fc)). rewrite U2, Hk; [done|]. by apply (rv_completed _ _ _ H). }
    pose proof (isNewlyCompleted_reset src s1 gl R b e H1 Hfin Hb1 Hb2 He Hs1) as I. cbn zeta in I. destruct (isNewlyCompleted _) as [s3 done]. destruct I as (-> & I1 & I2 & I3).
    set (s3 := (_ : ReceiveStream) <| completed := _ |>) in *. destruct (take_callback s3) as [b' Eb]. destruct (takeReceiveFinalSizeCallback s3) as [s4 n]. cbn [fst] in Eb. subst s4. intros _.
    split; [|split; [done|by right]]. split; [by destruct I1|by destruct I2|done|done|done|done|]. split; [|done]. intros Hx. by destruct (Hb1 Hx). }
  assert (HR : cancelledRemotely s1 = true → R <= reliableSize s1).
  { intros Hx. subst R. unfold reliable_after. rewrite Hx. cbn [negb andb orb]. destruct (Z.ltb_spec (ReliableSize f) (reliableSize s1)); lia. }
  assert (ES : s2 = reset_by R (cancelledRemotely s1) (cancelErr s1) s1) by reflexivity. clearbody s2.
  destruct (cancelledRemotely s1) eqn:E1; [|destruct (cancelledLocally s1) eqn:E2]; rewrite ES.
  - apply (Main true (cancelErr s1)); [intros _; split; [by apply HR|done]|by left|by left].
  - apply (Main false (cancelErr s1)); [done|by right|by left].
  - apply (Main true (Some (SendStream.mkErr (r_ErrorCode f) true))); [done|by left|by right].
Qed.

(** ** Who sets the mark of a reset *)

Lemma isNewlyCompleted_remote s : cancelledRemotely (isNewlyCompleted s).1 = cancelledRemotely s.
Proof. unfold isNewlyCompleted. by repeat case_match. Qed.

Lemma abandon_if_remote b s c : cancelledRemotely (abandon_if b s c).1 = cancelledRemotely s.
Proof. by rewrite abandon_if_fields. Qed.

Lemma handleStreamFrame_remote f cb now s c s' c' d e n :
  handleStreamFrame f cb now s c = Some (s', c', d, e, n) → cancelledRemotely s' = cancelledRemotely s.
Proof.
  unfold handleStreamFrame. destruct (handleStreamFrameImpl f cb now s c) as [[[[s1 c1] d1] e1]|] eqn:E; [|done]. cbn [mbind option_bind].
  assert (R : cancelledRemotely s1 = cancelledRemotely s).
  { unfold handleStreamFrameImpl in E. destruct (closeForShutdownErr s); [by injection E as <-|].
    destruct (UpdateHighestReceived _ _ _ _ _) as [[fc c2] [e2|]]; [by injection E as <-|]. cbv zeta in E.
    destruct (cancelledLocally _); [injection E as <-; by destruct (Fin f)|]. destruct (FrameSorter.Push _ _ _ _); [|done]. injection E as <-. by destruct (Fin f). }
  pose proof (isNewlyCompleted_remote s1) as R1. destruct (isNewlyCompleted s1) as [s2 done]. destruct (take_callback s2) as [b Eb].
  destruct (takeReceiveFinalSizeCallback s2) as [s3 n3]. cbn [fst] in Eb. subst s3.
  pose proof (abandon_if_remote done (s2 <| receiveFinalSizeCallback := b |>) c1) as R2. destruct (abandon_if done _ c1) as [s4 c4]. intros [= <- _ _ _ _].
  cbn in R1, R2. congruence.
Qed.

Lemma CancelRead_remote code s c : cancelledRemotely (CancelRead code s c).1.1 = cancelledRemotely s.
Proof.
  unfold CancelRead. assert (R : cancelledRemotely (cancelReadImpl code s).1 = cancelledRemotely s) by (unfold cancelReadImpl; by repeat case_match).
  destruct (cancelReadImpl code s) as [s1 control]. pose proof (isNewlyCompleted_remote s1) as R1. destruct (isNewlyCompleted s1) as [s2 done].
  pose proof (abandon_if_remote done s2 c) as R2. destruct (abandon_if done s2 c) as [s3 c3]. cbn in *. congruence.
Qed.

Lemma getControlFrame_remote rtt allow now s c s' c' r : getControlFrame rtt allow now s c = Some (s', c', r) → cancelledRemotely s' = cancelledRemotely s.
Proof.
  unfold getControlFrame. destruct (_ && _); [by intros [= <-]|]. destruct (queuedStopSending s); [destruct (cancelErr s); [by intros [= <-]|done]|].
  destruct (stream_GetWindowUpdate _ _ _ _ _) as [[fc c1] limit]. by intros [= <-].
Qed.
