(* ===== verification/ReceivePeek.v ===== *)
(** * Looking ahead in a stream ([peekImpl] in [quic-go/receive_stream.go])

    [Peek] shows the bytes the next calls of [Read] will return, and leaves the read
    position where it is; it waits only for bytes that are missing. *)

From Stdlib Require Import ZArith Lia Bool.
From stdpp Require Import base list gmap.
From S2P Require Import Prelude.
From S2P Require Import GoNet.
From S2P Require Import Wire.
From S2P Require Import WireFrames.
From S2P Require Import FlowControl.
From S2P Require Import GapTree.
From S2P Require FrameSorter.
From S2P Require SendStream.
From S2P Require Import ReceiveStream.
From S2P Require Import ReceiveInv.

Open Scope Z_scope.
Open Scope list_scope.

(** ** The sorter, from its read position on *)

Definition missing (gl : list ByteInterval) (a b : Z) : Prop := ∃ p, a <= p < b ∧ FrameSorter.in_gap gl p.

Lemma missing_dec gl a b : gaps_ok gl → (∀ p, a <= p < b → ¬ FrameSorter.in_gap gl p) ∨ missing gl a b.
Proof.
  intros Hg. destruct (decide (Exists (λ g, Z.max a (Start g) < Z.min b (End g)) gl)) as [He|Hn].
  - right. apply Exists_exists in He as (g & Hi & Hl). exists (Z.max a (Start g)). split; [lia|]. exists g. split; [done|lia].
  - left. intros p Hp (g & Hi & Hr). apply Hn, Exists_exists. exists g. split; [done|]. lia.
Qed.

Lemma Peek_front src q gl n :
  FrameSorter.sorting src q gl → 0 <= n → FrameSorter.readPos q + n <= MaxByteCount →
  ∃ r, FrameSorter.Peek q (FrameSorter.readPos q) n = Some r ∧
    match r with
    | Some p => p = FrameSorter.stream_bytes src (FrameSorter.readPos q) (FrameSorter.readPos q + n) ∧
        (∀ p, FrameSorter.readPos q <= p < FrameSorter.readPos q + n → ¬ FrameSorter.in_gap gl p)
    | None => missing gl (FrameSorter.readPos q) (FrameSorter.readPos q + n)
    end.
Proof.
  intros H Hn Hm. pose proof (FrameSorter.so_coherent _ _ _ H) as HC. unfold FrameSorter.Peek. destruct (Z.eqb_spec n 0) as [->|Hz].
  { exists (Some []). split; [done|]. rewrite Z.add_0_r, FrameSorter.stream_bytes_nil. split; [done|lia]. }
  assert (Hb : (∃ e, FrameSorter.queue q !! FrameSorter.readPos q = Some e) ∨ (∃ g, g ∈ gl ∧ Start g = FrameSorter.readPos q) ∨ FrameSorter.readPos q = FrameSorter.MaxByteCount).
  { destruct (FrameSorter.co_cover _ _ _ HC (FrameSorter.readPos q)) as [(o & e & Ho & Hr)|(g & Hg & Hr)]; [rewrite max_same; lia| |].
    - left. destruct (FrameSorter.co_entry _ _ _ HC o e Ho). exists e. by replace (FrameSorter.readPos q) with o by lia.
    - right; left. exists g. split; [done|]. pose proof (FrameSorter.co_range _ _ _ HC g Hg). lia. }
  destruct (FrameSorter.peek_check_spec src q gl (S (Z.to_nat n)) (FrameSorter.readPos q) n) as (ok & -> & Eq); [done|lia|lia|lia|rewrite max_same; lia|done|].
  cbn [mbind option_bind]. destruct ok.
  - rewrite (FrameSorter.peek_copy_spec src q gl); [|done|lia|lia|lia|rewrite max_same; lia|done|by apply Eq]. eexists. split; [done|]. split; [done|by apply Eq].
  - exists None. split; [done|]. destruct (missing_dec gl (FrameSorter.readPos q) (FrameSorter.readPos q + n) (FrameSorter.co_gaps _ _ _ HC)) as [Hx|?]; [|done].
    by apply Eq in Hx.
Qed.

(** ** What [Peek] returns *)

Definition peek_right (src : Z → Z) (gl : list ByteInterval) (s : ReceiveStream) (n : Z) (p : peeked) : Prop :=
  0 <= pk_n p <= n ∧ pk_bytes p = FrameSorter.stream_bytes src (readPos s) (readPos s + pk_n p) ∧
  (∀ x, readPos s <= x < readPos s + pk_n p → ¬ FrameSorter.in_gap gl x) ∧
  match pk_err p with
  | None => pk_n p = n
  | Some EOF => finalOffset s ≠ MaxByteCount ∧ readPos s + pk_n p = finalOffset s
  | Some (RCancelled e) => e = cancelErr s ∧ (pk_n p = 0 ∨ (cancelledRemotely s = true ∧ readPos s + pk_n p = reliableSize s))
  | Some RShutdown => closeForShutdownErr s = true ∧ pk_n p = 0
  | Some RDeadline => pk_n p = 0
  | Some RBug => False
  end.

(** A call that waits does so for a byte it was asked for, before the end of the stream. *)
Definition peek_waits (gl : list ByteInterval) (s : ReceiveStream) (n : Z) : Prop :=
  missing gl (readPos s) (Z.min (readPos s + n) (finalOffset s)) ∧ closeForShutdownErr s = false ∧ cancelledLocally s = false.

(** Nothing to show. *)
Lemma peek_none src gl s n e :
  0 <= n → match e with
           | EOF => finalOffset s ≠ MaxByteCount ∧ readPos s = finalOffset s
           | RCancelled e => e = cancelErr s
           | RShutdown => closeForShutdownErr s = true
           | RDeadline => True
           | RBug => False
           end → peek_right src gl s n (mkPeeked 0 [] (Some e)).
Proof.
  intros Hn He. unfold peek_right. cbn. rewrite Z.add_0_r, FrameSorter.stream_bytes_nil. split; [lia|]. split; [done|]. split; [lia|].
  destruct e; try done. split; [done|by left].
Qed.

Section data.
Context (src : Z → Z) (gl : list ByteInterval) (s : ReceiveStream) (cur : list Z).
Context (H : receiving src s gl) (Hc : currentFrame s = Some cur) (Hp : readPosInFrame s < size cur).
Context (Hopen : closeForShutdownErr s = false ∧ cancelledLocally s = false).

Let avail := drop (Z.to_nat (readPosInFrame s)) (current s).

Lemma avail_spec : avail = FrameSorter.stream_bytes src (readPos s) (qpos s) ∧ size avail = qpos s - readPos s ∧ readPos s < qpos s.
Proof.
  pose proof (rv_current _ _ _ H) as C. rewrite Hc in C. destruct C as (C1 & C2 & C3 & C4 & _). unfold frame_start in *.
  assert (E : avail = FrameSorter.stream_bytes src (readPos s) (qpos s)).
  { unfold avail, current. rewrite Hc. cbn [default]. unfold id. rewrite C1, stream_bytes_drop by lia. f_equal. lia. }
  split; [done|]. rewrite E, size_stream_bytes by lia. lia.
Qed.

Lemma avail_take n : 0 <= n <= size avail → take (Z.to_nat n) avail = FrameSorter.stream_bytes src (readPos s) (readPos s + n).
Proof. destruct avail_spec as (-> & E & ?). intros Hn. apply FrameSorter.stream_bytes_take. rewrite size_stream_bytes in Hn by lia. lia. Qed.

Lemma avail_received x : readPos s <= x < qpos s → ¬ FrameSorter.in_gap gl x.
Proof. intros Hx (g & Hg & Hr). pose proof (FrameSorter.co_range _ _ _ (FrameSorter.so_coherent _ _ _ (rv_sorting _ _ _ H)) g Hg). unfold qpos in *. lia. Qed.

(** The rest, out of the sorter. *)
Lemma peek_rest n :
  size avail <= n → readPos s + n <= MaxByteCount →
  ∃ r, peek_queue (readPos s + size avail) (n - size avail) s = Some r ∧
    match r with
    | Some p => avail ++ p = FrameSorter.stream_bytes src (readPos s) (readPos s + n) ∧ (∀ x, readPos s <= x < readPos s + n → ¬ FrameSorter.in_gap gl x)
    | None => missing gl (readPos s) (readPos s + n)
    end.
Proof.
  destruct avail_spec as (E1 & E2 & E3). intros Hn Hm. unfold peek_queue. unfold qpos in *.
  replace (readPos s + size avail) with (FrameSorter.readPos (frameQueue s)) by lia.
  destruct (Peek_front src (frameQueue s) gl (n - size avail) (rv_sorting _ _ _ H)) as (r & -> & Hr); [lia|lia|]. exists r. split; [done|].
  replace (FrameSorter.readPos (frameQueue s) + (n - size avail)) with (readPos s + n) in Hr by lia. destruct r as [p|].
  - destruct Hr as [-> Hg]. split; [rewrite E1 at 1; apply FrameSorter.stream_bytes_app; lia|]. intros x Hx.
    destruct (Z.lt_ge_cases x (qpos s)); [apply avail_received; unfold qpos in *; lia|apply Hg; unfold qpos in *; lia].
  - destruct Hr as (p & Hp' & Hg). exists p. split; [lia|done].
Qed.

(** The bytes up to a bound of the stream, with the error that goes with it. *)
Lemma peek_total_spec total e :
  0 <= total → readPos s + total <= MaxByteCount →
  ∃ r, peek_total total (size avail) (readPos s + size avail) avail e s = Some r ∧
    match r with
    | Some p => pk_n p = total ∧ pk_err p = Some e ∧ pk_bytes p = FrameSorter.stream_bytes src (readPos s) (readPos s + total) ∧
        (∀ x, readPos s <= x < readPos s + total → ¬ FrameSorter.in_gap gl x)
    | None => missing gl (readPos s) (readPos s + total)
    end.
Proof.
  intros Ht Hm. unfold peek_total. destruct avail_spec as (E1 & E2 & E3). destruct (Z.leb_spec (total - size avail) 0) as [Hle|Hgt].
  - eexists. split; [done|]. cbn. split; [done|]. split; [done|]. split; [apply avail_take; lia|]. intros x Hx. apply avail_received. lia.
  - destruct (peek_rest total) as (r & -> & Hr); [lia|lia|]. cbn [mbind option_bind]. eexists. split; [done|]. destruct r; [|done]. cbn. by destruct Hr.
Qed.

Lemma peek_data_spec n :
  0 < n → readPos s + n <= MaxByteCount → isRemoteCancellationEffective s = false →
  ∃ r, peek_data n s = Some r ∧
    match r with
    | Some p => peek_right src gl s n p
    | None => currentFrameIsLast s = false ∧ readPos s < finalOffset s ∧ peek_waits gl s n
    end.
Proof.
  intros Hn Hm He. unfold peek_data. fold avail. destruct avail_spec as (E1 & E2 & E3). pose proof (qpos_highest _ _ _ H) as Hq. pose proof (readPos_range _ _ _ H) as Hr.
  destruct (Z.leb_spec n (size avail)) as [Hle|Hgt].
  { eexists. split; [done|]. split; [cbn; lia|]. cbn. split; [apply avail_take; lia|]. split; [|done]. intros x Hx. apply avail_received. lia. }
  destruct (peek_rest n) as (r & -> & Hrest); [lia|done|]. cbn [mbind option_bind]. destruct r as [p|].
  { eexists. split; [done|]. split; [cbn; lia|]. cbn. by destruct Hrest. }
  destruct (currentFrameIsLast s) eqn:El.
  { eexists. split; [done|]. pose proof (rv_last _ _ _ H El) as Hl. assert (Hf : finalOffset s ≠ MaxByteCount) by (pose proof far_max; pose proof (rv_far _ _ _ H); lia).
    pose proof (rv_offset _ _ _ H Hf). split; [cbn; lia|]. cbn. rewrite E2. replace (readPos s + (qpos s - readPos s)) with (qpos s) by lia.
    split; [done|]. split; [apply avail_received|]. split; [done|lia]. }
  assert (Hfin : qpos s <= finalOffset s <= MaxByteCount).
  { destruct (Z.eq_dec (finalOffset s) MaxByteCount) as [->|Hf]; [lia|]. pose proof (rv_offset _ _ _ H Hf). pose proof far_max. pose proof (rv_far _ _ _ H). lia. }
  assert (Last : ∃ r, (if finalOffset s <? readPos s + n then peek_total (finalOffset s - readPos s) (size avail) (readPos s + size avail) avail EOF s else Some None) = Some r ∧
    match r with Some p => peek_right src gl s n p | None => false = false ∧ readPos s < finalOffset s ∧ peek_waits gl s n end).
  { unfold peek_waits. destruct (Z.ltb_spec (finalOffset s) (readPos s + n)) as [Hlt|Hge].
    - destruct (peek_total_spec (finalOffset s - readPos s) EOF) as (r & -> & Hrr); [lia|lia|]. exists r. split; [done|].
      replace (readPos s + (finalOffset s - readPos s)) with (finalOffset s) in Hrr by lia. rewrite Z.min_r by lia. destruct r as [p|]; [|split; [done|]; split; [lia|done]].
      destruct Hrr as (R1 & R2 & R3 & R4). unfold peek_right. rewrite R1, R2. replace (readPos s + (finalOffset s - readPos s)) with (finalOffset s) by lia.
      split; [lia|]. split; [done|]. split; [done|]. split; [lia|done].
    - exists None. rewrite Z.min_l by lia. split; [done|]. split; [done|]. split; [lia|done]. }
  destruct (cancelledRemotely s && (reliableSize s <? readPos s + n)) eqn:Ec; [|exact Last].
  apply andb_true_iff in Ec as [Ec1 Ec2%Z.ltb_lt]. unfold isRemoteCancellationEffective in He. rewrite Ec1 in He. cbn in He. apply Z.leb_gt in He.
  destruct (peek_total_spec (reliableSize s - readPos s) (RCancelled (cancelErr s))) as (r & -> & Hrr); [lia|lia|]. cbn [mbind option_bind].
  destruct r as [p|]; [|exact Last]. eexists. split; [done|]. destruct Hrr as (R1 & R2 & R3 & R4). unfold peek_right. rewrite R1, R2.
  split; [lia|]. split; [done|]. split; [done|]. split; [done|]. right. split; [done|lia].
Qed.
End data.

(** ** The calls *)

Record peeking (src : Z → Z) (gl : list ByteInterval) (s : ReceiveStream) (n : Z) (s' : ReceiveStream) (ran : list nat) (r : option peeked) : Prop := mkPeeking {
  pe_ok : receiving src s' gl;
  pe_rest : same_rest s s';
  pe_pos : readPos s' = readPos s;
  pe_credit : credited s' = credited s;
  pe_use : ran ++ in_use s' ≡ₚ in_use s;
  pe_result : match r with Some p => peek_right src gl s n p | None => currentFrameIsLast s' = false ∧ peek_waits gl s n end;
}.

Lemma peek_right_same src gl s s' n p : same_rest s s' → readPos s' = readPos s → peek_right src gl s' n p → peek_right src gl s n p.
Proof. intros (_ & E1 & _ & _ & _ & E2 & _ & E3 & E4 & E5 & _) E6. unfold peek_right. by rewrite E1, E2, E3, E4, E5, E6. Qed.

Lemma peeking_after src gl s n s1 ran1 s2 ran2 r :
  same_rest s s1 → readPos s1 = readPos s → credited s1 = credited s → ran1 ++ in_use s1 ≡ₚ in_use s → peeking src gl s1 n s2 ran2 r → peeking src gl s n s2 (ran1 ++ ran2) r.
Proof.
  intros E1 E2 E3 E4 [P1 P2 P3 P4 P5 P6]. split; [done|by eapply same_rest_trans|congruence|congruence|by rewrite <- app_assoc, P5|].
  destruct r as [p|]; [by eapply peek_right_same|]. unfold peek_waits in *. destruct E1 as (_ & E1 & _ & _ & _ & _ & E1' & _ & E1'' & _). by rewrite E2, E1, E1', E1'' in P6.
Qed.

(** The state after the frame that is needed was taken. *)
Lemma dequeue_if_needed_ok src s gl :
  receiving src s gl → ¬ at_end s →
  let '(s1, ran) := dequeue_if_needed s in
  receiving src s1 gl ∧ same_rest s s1 ∧ readPos s1 = readPos s ∧ credited s1 = credited s ∧ ran ++ in_use s1 ≡ₚ in_use s ∧
  isRemoteCancellationEffective s1 = isRemoteCancellationEffective s ∧
  (if exhausted s1 then currentFrame s1 = None ∧ FrameSorter.in_gap gl (readPos s) else ∃ cur, currentFrame s1 = Some cur ∧ readPosInFrame s1 < size cur).
Proof.
  intros H Ha. unfold dequeue_if_needed. destruct (exhausted s) eqn:Ex.
  - destruct (dequeue_spec _ _ _ H Ex Ha) as (q & cur & cb & last & d & -> & H1 & Hu & Hcur).
    split; [done|]. split; [by split_and!|]. split; [done|]. split; [done|]. split; [done|]. split; [done|]. unfold exhausted, current. cbn.
    destruct cur as [cur|]; cbn in *.
    + unfold id. rewrite (proj2 (Z.leb_gt _ _)) by done. by exists cur.
    + by destruct Hcur as (_ & _ & ? & _).
  - split; [done|]. split; [apply same_rest_refl|]. do 4 (split; [done|]). rewrite Ex. unfold exhausted, current in Ex. destruct (currentFrame s) as [cur|]; [|done].
    exists cur. split; [done|]. by apply Z.leb_gt in Ex.
Qed.

Lemma peek_round_ok src s gl n expired :
  receiving src s gl → 0 < n → readPos s + n <= MaxByteCount →
  ∃ s' ran r, peek_round n expired s = Some (s', ran, r) ∧ peeking src gl s n s' ran r.
Proof.
  intros H Hn Hm. unfold peek_round.
  assert (Stop : ∀ e, peek_right src gl s n (mkPeeked 0 [] (Some e)) → peeking src gl s n s [] (Some (mkPeeked 0 [] (Some e)))) by (by split).
  destruct (currentFrameIsLast s && negb _) eqn:Ea.
  { apply andb_true_iff in Ea as [A1 A2%negb_true_iff%bool_decide_eq_false%eq_None_not_Some]. destruct (at_end_all _ _ _ H (conj A1 A2)) as (A3 & A4 & _).
    eexists _, _, _. split; [done|]. apply Stop, peek_none; [lia|done]. }
  destruct (cancelledLocally s || _) eqn:Ec; [eexists _, _, _; split; [done|]; apply Stop, peek_none; [lia|done]|]. apply orb_false_iff in Ec as [Ec1 Ec2].
  destruct (closeForShutdownErr s) eqn:Es; [eexists _, _, _; split; [done|]; apply Stop, peek_none; [lia|done]|].
  destruct expired; [eexists _, _, _; split; [done|]; apply Stop, peek_none; [lia|done]|].
  assert (Ha : ¬ at_end s) by (intros [A1 A2]; rewrite A1, A2 in Ea; done).
  pose proof (dequeue_if_needed_ok _ _ _ H Ha) as D. destruct (dequeue_if_needed s) as [s1 ran]. destruct D as (D1 & D2 & D3 & D4 & D5 & D6 & D7).
  assert (After : ∀ r, match r with Some p => peek_right src gl s1 n p | None => currentFrameIsLast s1 = false ∧ peek_waits gl s1 n end → peeking src gl s n s1 ran r).
  { intros r Hr. rewrite <- (app_nil_r ran). eapply peeking_after; [done|done|done|done|]. by split. }
  assert (Hopen : closeForShutdownErr s1 = false ∧ cancelledLocally s1 = false).
  { destruct D2 as (_ & _ & _ & _ & _ & _ & -> & _ & -> & _). done. }
  assert (End : currentFrameIsLast s1 || (finalOffset s1 <=? readPos s1) = true → currentFrame s1 = None ∨ finalOffset s1 <= readPos s1 → finalOffset s1 ≠ MaxByteCount ∧ readPos s1 = finalOffset s1).
  { intros He Hx. pose proof (readPos_range _ _ _ D1). pose proof (qpos_highest _ _ _ D1). pose proof (rv_far _ _ _ D1). pose proof far_max.
    assert (Hle : finalOffset s1 <= readPos s1).
    { destruct Hx as [Hx|?]; [|done]. apply orb_true_iff in He as [He|He%Z.leb_le]; [|done]. pose proof (rv_last _ _ _ D1 He). pose proof (rv_current _ _ _ D1) as C. rewrite Hx in C. lia. }
    assert (Hf : finalOffset s1 ≠ MaxByteCount) by lia. pose proof (rv_offset _ _ _ D1 Hf). split; [done|lia]. }
  destruct (exhausted s1) eqn:Ex; cbn [mbind option_bind].
  - destruct D7 as [D7 D8]. destruct (currentFrameIsLast s1 || _) eqn:El.
    + eexists _, _, _. split; [done|]. apply After, peek_none; [lia|]. apply End; [done|by left].
    + apply orb_false_iff in El as [El1 El2%Z.leb_gt]. eexists _, _, _. split; [done|]. apply After. split; [done|]. split; [|done]. exists (readPos s). rewrite D3 in *. split; [lia|done].
  - destruct D7 as (cur & D7 & D8). destruct (peek_data_spec src gl s1 cur D1 D7 D8 Hopen n) as (r & -> & Hr); [done|by rewrite D3|by rewrite D6|]. cbn [mbind option_bind].
    destruct r as [p|]; [eexists _, _, _; split; [done|]; by apply After|]. destruct Hr as (R1 & R2 & R3). rewrite R1, (proj2 (Z.leb_gt _ _)) by done. cbn [orb].
    eexists _, _, _. split; [done|]. by apply After.
Qed.

Lemma peek_begin_ok src s gl n expired :
  receiving src s gl → 0 <= n → readPos s + n <= MaxByteCount →
  ∃ s' ran r, peek_begin n expired s = Some (s', ran, r) ∧ peeking src gl s n s' ran r ∧ (r = None → 0 < n).
Proof.
  intros H Hn Hm. unfold peek_begin. destruct (Z.eqb_spec n 0) as [->|Hz].
  - eexists _, _, _. split; [done|]. split; [|done]. split; try done. unfold peek_right. cbn. rewrite Z.add_0_r, FrameSorter.stream_bytes_nil. split; [lia|]. split; [done|]. split; [lia|done].
  - destruct (peek_round_ok src s gl n expired H) as (s' & ran & r & E & P); [lia|done|]. exists s', ran, r. split; [done|]. split; [done|]. lia.
Qed.

Lemma peek_wake_ok src s gl n expired :
  receiving src s gl → 0 < n → readPos s + n <= MaxByteCount → currentFrameIsLast s = false →
  ∃ s' ran r, peek_wake n expired s = Some (s', ran, r) ∧ peeking src gl s n s' ran r.
Proof.
  intros H Hn Hm Hl. unfold peek_wake. assert (Ha : ¬ at_end s) by (intros [? _]; congruence).
  pose proof (dequeue_if_needed_ok _ _ _ H Ha) as D. destruct (dequeue_if_needed s) as [s1 ran1]. destruct D as (D1 & D2 & D3 & D4 & D5 & _).
  destruct (peek_round_ok src s1 gl n expired D1 Hn) as (s' & ran & r & -> & P); [by rewrite D3|]. cbn [mbind option_bind].
  eexists _, _, _. split; [done|]. by eapply peeking_after.
Qed.
