(* ===== verification/StreamRead.v ===== *)
(** * Reading a stream ([quic-go/receive_stream.go])

    The frames of the peer, the calls of [Read] and [Peek], [CancelRead], the control
    frames and the shutdown of the connection in any order, and a call that waits
    between any of them. What the application reads is the peer's stream; with
    [StreamPipe] at the other end it is what was written. *)

From Stdlib Require Import ZArith Lia Bool.
From stdpp Require Import base list gmap.
From S2P Require Import Prelude.
From S2P Require Import GoNet.
From S2P Require Import Wire.
From S2P Require Import WireFrames.
From S2P Require Import FlowControl.
From S2P Require Import GapTree.
From S2P Require FrameSorter.
From S2P Require SendStream.
From S2P Require Import ReceiveStream.
From S2P Require Import ReceiveInv.
From S2P Require Import ReceivePeek.
From S2P Require SendInv.
From S2P Require StreamPipe.

Open Scope Z_scope.
Open Scope list_scope.

(** ** The operations *)

Inductive call := CRead (r : reading) | CPeek (n : Z).

(** [bytes]: what the calls of [Read] returned; [errors]: what had been read when an
    error was returned, and the error; [peeks]: where [Peek] looked, and what it showed.
    [frames], [resets]: what was accepted. [ran]: the buffers given back. [reported]:
    how often the stream was reported as completed. [broken]: a frame was refused, and
    the connection is closed. *)
Record world := mkWorld {
  rcv : ReceiveStream;
  rconn : connectionFlowController;
  waits : option call;
  bytes : list Z;
  errors : list (list Z * read_error);
  peeks : list (Z * peeked);
  frames : list StreamFrame;
  resets : list ResetStreamFrame;
  given : list nat;
  ran : list nat;
  reported : nat;
  broken : bool;
}.
#[export] Instance world_eta : Eta world := λ w,
  mkWorld (rcv w) (rconn w) (waits w) (bytes w) (errors w) (peeks w) (frames w) (resets w) (given w) (ran w) (reported w) (broken w).

Inductive act :=
| RFrame (f : StreamFrame) (cb : nat) (now : time)
| RReset (f : ResetStreamFrame) (now : time)
| RRead (n : Z) (expired : bool)
| RPeek (n : Z) (expired : bool)
| RWake (expired : bool)
| RCancel (errorCode : Z)
| RControl (rtt : duration) (allow : Z → bool) (now : time)
| RSizeCallback (some : bool)
| RCloseForShutdown.

Definition told (done : bool) (w : world) : world := if done then w <| reported ::= S |> else w.

(** [Read] goes on waiting, or returns. *)
Definition read_returned (t : turn) (w : world) : world :=
  let '(t, done) := read_end t in
  let w := w <| rcv := t_stream t |> <| rconn := t_conn t |> <| ran ::= λ l, l ++ t_ran t |> in
  match t_end t with
  | None => w <| waits := Some (CRead (t_call t)) |>
  | Some e =>
      let bs := bytes w ++ got (t_call t) in
      told done (w <| waits := None |> <| bytes := bs |> <| errors ::= λ l, match e with Some e => l ++ [(bs, e)] | None => l end |>)
  end.

Definition peek_returned (n : Z) (p : ReceiveStream * list nat * option peeked) (w : world) : world :=
  let '(s, d, r) := p in
  let w := w <| rcv := s |> <| ran ::= λ l, l ++ d |> in
  match r with
  | None => w <| waits := Some (CPeek n) |>
  | Some p => w <| waits := None |> <| peeks ::= λ l, l ++ [(readPos s, p)] |>
  end.

(** [None]: a panic. [readOnce] lets one call of [Read] or [Peek] in at a time. *)
Definition step (a : act) (w : world) : option world :=
  if broken w then Some w else
  match a with
  | RFrame f cb now =>
      '(s, c, d, e, n) ← handleStreamFrame f cb now (rcv w) (rconn w);
      Some (match e with
            | Some _ => w <| broken := true |>
            | None => told (no_completed n) (w <| rcv := s |> <| rconn := c |> <| ran ::= λ l, l ++ d |> <| given ::= λ l, l ++ [cb] |> <| frames ::= λ l, l ++ [f] |>)
            end)
  | RReset f now =>
      let '(s, c, e, n) := handleResetStreamFrame f now (rcv w) (rconn w) in
      Some (match e with
            | Some _ => w <| broken := true |>
            | None => told (no_completed n) (w <| rcv := s |> <| rconn := c |> <| resets ::= λ l, l ++ [f] |>)
            end)
  | RRead n expired =>
      match waits w with
      | Some _ => Some w
      | None => t ← read_begin n expired (rcv w) (rconn w); Some (read_returned t w)
      end
  | RPeek n expired =>
      match waits w with
      | Some _ => Some w
      | None => p ← peek_begin n expired (rcv w); Some (peek_returned n p w)
      end
  | RWake expired =>
      match waits w with
      | None => Some w
      | Some (CRead r) => t ← read_wake r expired (rcv w) (rconn w); Some (read_returned t w)
      | Some (CPeek n) => p ← peek_wake n expired (rcv w); Some (peek_returned n p w)
      end
  | RCancel code =>
      let '(s, c, n) := CancelRead code (rcv w) (rconn w) in Some (told (no_completed n) (w <| rcv := s |> <| rconn := c |>))
  | RControl rtt allow now => '(s, c, _) ← getControlFrame rtt allow now (rcv w) (rconn w); Some (w <| rcv := s |> <| rconn := c |>)
  | RSizeCallback some => Some (w <| rcv := (SetReceiveFinalSizeCallback some (rcv w)).1 |>)
  | RCloseForShutdown => Some (w <| rcv := closeForShutdown (rcv w) |>)
  end.

Fixpoint run (l : list act) (w : world) : option world :=
  match l with [] => Some w | a :: l => w ← step a w; run l w end.

Definition start (id window maxWindow : Z) (c : connectionFlowController) : option world :=
  s ← newReceiveStream id (newStreamFlowController window maxWindow 0);
  Some (mkWorld s c None [] [] [] [] [] [] [] 0 false).

(** The peer's frames are parts of one stream; a slice fits into memory. *)
Definition act_ok (src : Z → Z) (a : act) : Prop :=
  match a with
  | RFrame f _ _ => FrameSorter.from_stream src (Data f) (Offset f) ∧ 0 <= Offset f ∧ Offset f + size (Data f) <= far
  | RReset f _ => 0 <= FinalSize f <= far
  | RRead n _ | RPeek n _ => 0 <= n < far
  | _ => True
  end.

(** ** The invariant *)

(** The bytes a call that waits has read. *)
Definition pending (w : world) : list Z := match waits w with Some (CRead r) => got r | _ => [] end.

Definition covered (fs : list StreamFrame) (p : Z) : Prop := Exists (λ f, Offset f <= p < Offset f + size (Data f)) fs.

(** The end of the stream, as the peer announced it. *)
Definition announced (w : world) (p : Z) : Prop :=
  Exists (λ f, Fin f = true ∧ p = Offset f + size (Data f)) (frames w) ∨ Exists (λ f, p = FinalSize f) (resets w).

Record reads_ok (src : Z → Z) (w : world) (gl : list ByteInterval) : Prop := mkReadsOk {
  ro_receiving : receiving src (rcv w) gl;
  ro_settled : settled (rcv w);
  ro_waits : match waits w with
             | None => True
             | Some (CRead r) => currentFrame (rcv w) = None ∧ currentFrameIsLast (rcv w) = false ∧ size (got r) < want r
             | Some (CPeek n) => currentFrameIsLast (rcv w) = false ∧ 0 < n < far
             end;
  ro_bytes : bytes w ++ pending w = FrameSorter.stream_bytes src 0 (readPos (rcv w));
  ro_covered : ∀ p, 0 <= p < MaxByteCount → ¬ FrameSorter.in_gap gl p → covered (frames w) p;
  ro_gaps : closeForShutdownErr (rcv w) = false → cancelledLocally (rcv w) = false → ∀ p, FrameSorter.in_gap gl p → ¬ covered (frames w) p;
  ro_final : finalOffset (rcv w) ≠ MaxByteCount → announced w (finalOffset (rcv w));
  ro_fin : closeForShutdownErr (rcv w) = false → cancelledLocally (rcv w) = false → Exists (λ f, Fin f = true) (frames w) → finalOffset (rcv w) ≠ MaxByteCount;
  ro_remote : cancelledRemotely (rcv w) = true → resets w ≠ [];
  ro_errors : ∀ bs e, (bs, e) ∈ errors w → bs `prefix_of` bytes w ∧
    match e with
    | EOF => announced w (size bs)
    | RCancelled _ => cancelledLocally (rcv w) = true ∨ (cancelledRemotely (rcv w) = true ∧ reliableSize (rcv w) <= size bs)
    | RShutdown => closeForShutdownErr (rcv w) = true
    | RDeadline => True
    | RBug => False
    end;
  ro_peeks : ∀ a p, (a, p) ∈ peeks w → 0 <= a ∧ 0 <= pk_n p ∧ pk_bytes p = FrameSorter.stream_bytes src a (a + pk_n p) ∧
    (pk_err p = Some EOF → announced w (a + pk_n p)) ∧ pk_err p ≠ Some RBug;
  ro_buffers : ran w ++ in_use (rcv w) ⊆+ given w;
  ro_reported : reported w = if completed (rcv w) then 1%nat else 0%nat;
}.

(** ** The frames, the cancellation, the control frames *)

(** The world after an operation other than a call of [Read] or [Peek]. *)
Definition changed (w : world) (s : ReceiveStream) (c : connectionFlowController) (done : bool) (d g : list nat) (fs : list StreamFrame) (rs : list ResetStreamFrame) : world :=
  mkWorld s c (waits w) (bytes w) (errors w) (peeks w) (frames w ++ fs) (resets w ++ rs) (given w ++ g) (ran w ++ d) (if done then S (reported w) else reported w) (broken w).

Lemma announced_more w w' p : frames w `prefix_of` frames w' → resets w `prefix_of` resets w' → announced w p → announced w' p.
Proof. intros [fs F] [rs R] [H|H]; [left; rewrite F|right; rewrite R]; apply Exists_app; by left. Qed.

Lemma covered_app fs fs' p : covered (fs ++ fs') p ↔ covered fs p ∨ covered fs' p.
Proof. apply Exists_app. Qed.

Lemma changed_ok src w gl gl' s c done d g fs rs :
  reads_ok src w gl → kept src gl' (rcv w) s done → d ++ in_use s ⊆+ g ++ in_use (rcv w) →
  (finalOffset s = finalOffset (rcv w) ∨ announced (changed w s c done d g fs rs) (finalOffset s)) →
  (∀ p, 0 <= p < MaxByteCount → ¬ FrameSorter.in_gap gl' p → ¬ FrameSorter.in_gap gl p ∨ covered fs p) →
  (closeForShutdownErr s = false → cancelledLocally s = false → ∀ p, FrameSorter.in_gap gl' p → FrameSorter.in_gap gl p ∧ ¬ covered fs p) →
  (closeForShutdownErr s = false → cancelledLocally s = false → Exists (λ f, Fin f = true) fs → finalOffset s ≠ MaxByteCount) →
  cancelledRemotely s = cancelledRemotely (rcv w) ∨ rs ≠ [] →
  reads_ok src (changed w s c done d g fs rs) gl'.
Proof.
  intros [R1 R2 R3 R4 R5 R6 R7 R7' R7'' R8 R9 R10 R11] [K1 K2 K3 [K4 K4'] K5 [K6 K6'] (K7 & K8 & K9)] Hd Hf Hc Hg Hn Hm.
  assert (An : ∀ p, announced w p → announced (changed w s c done d g fs rs) p) by (intros p; apply announced_more; by eexists).
  split; try done.
  - cbn. by rewrite K4, K4'.
  - cbn. by rewrite K3.
  - intros p Hp Hx. apply covered_app. destruct (Hc p Hp Hx) as [Hx'|?]; [left; by apply R5|by right].
  - cbn. intros S L p [Hx Hx']%(Hg S L). intros [Hx''|?]%covered_app; [|done]. revert Hx''. apply R6; [| |done].
    + destruct (closeForShutdownErr (rcv w)); [|done]. by rewrite K9 in S.
    + destruct (cancelledLocally (rcv w)); [|done]. by rewrite K8 in L.
  - cbn. intros Hx. destruct Hf as [Hf|Hf]; [|done]. rewrite Hf in *. by apply An, R7.
  - cbn. intros S L [Hx|Hx]%Exists_app; [|by apply Hn]. assert (Hk : finalOffset (rcv w) ≠ MaxByteCount); [|by rewrite K5].
    apply R7'; [| |done].
    + destruct (closeForShutdownErr (rcv w)); [|done]. by rewrite K9 in S.
    + destruct (cancelledLocally (rcv w)); [|done]. by rewrite K8 in L.
  - cbn. intros Hx. destruct Hm as [Hm|Hm]; [rewrite Hm in Hx; specialize (R7'' Hx)|]; by intros [? ?]%app_nil.
  - cbn. intros bs e He. destruct (R8 bs e He) as [E1 E2]. split; [done|]. destruct e; try done; [by apply An| |by apply K9].
    destruct E2 as [E2|[E2 E3]]; [left; by apply K8|right]. destruct (K7 E2). split; [done|lia].
  - cbn. intros a p Hp. destruct (R9 a p Hp) as (P1 & P2 & P3 & P4 & P5). split_and!; try done. intros Hx. by apply An, P4.
  - cbn. rewrite <- app_assoc. etrans; [by apply submseteq_app; [|exact Hd]|]. rewrite (Permutation_app_comm g), app_assoc. by apply submseteq_app.
  - cbn. rewrite K6, R11. destruct done; cbn; [by rewrite K6'|done].
Qed.

Lemma broken_ok src w gl : reads_ok src w gl → reads_ok src (w <| broken := true |>) gl.
Proof. by intros [R1 R2 R3 R4 R5 R6 R7 R7' R7'' R8 R9 R10 R11]. Qed.

Lemma told_changed w s c done : told done (w <| rcv := s |> <| rconn := c |>) = changed w s c done [] [] [] [].
Proof. destruct w, done; unfold changed; cbn; by rewrite !app_nil_r. Qed.

(** No frame, and no buffer. *)
Lemma quiet_step_ok src w gl s c done :
  reads_ok src w gl → kept src gl (rcv w) s done → in_use s = in_use (rcv w) → finalOffset s = finalOffset (rcv w) →
  cancelledRemotely s = cancelledRemotely (rcv w) →
  reads_ok src (told done (w <| rcv := s |> <| rconn := c |>)) gl.
Proof.
  intros H K Hu Hf Hr. rewrite told_changed. eapply changed_ok; [done|done|by rewrite Hu|by left|by left| |by intros _ _ ?%Exists_nil|by left].
  intros _ _ p Hp. split; [done|]. by intros ?%Exists_nil.
Qed.

Lemma frame_ok src w gl f cb now :
  reads_ok src w gl → broken w = false → act_ok src (RFrame f cb now) → ∃ w' gl', step (RFrame f cb now) w = Some w' ∧ reads_ok src w' gl'.
Proof.
  intros H Hb (A1 & A2 & A3). unfold step. rewrite Hb.
  destruct (handleStreamFrame_ok src (rcv w) gl f cb now (rconn w) (ro_receiving _ _ _ H) (ro_settled _ _ _ H) A1 A2 A3) as (s & c & d & e & n & Ef & Hs).
  pose proof (handleStreamFrame_remote _ _ _ _ _ _ _ _ _ _ Ef) as Hrem. rewrite Ef.
  cbn [mbind option_bind]. destruct e as [e|]; [eexists _, gl; split; [done|]; by apply broken_ok|].
  destruct (Hs eq_refl) as (gl' & K & U & F & G1 & G2). eexists _, gl'. split; [done|].
  assert (E : told (no_completed n) (w <| rcv := s |> <| rconn := c |> <| ran ::= λ l, l ++ d |> <| given ::= λ l, l ++ [cb] |> <| frames ::= λ l, l ++ [f] |>) =
    changed w s c (no_completed n) d [cb] [f] []) by (destruct w, (no_completed n); unfold changed; cbn; by rewrite !app_nil_r).
  rewrite E. assert (Cov : ∀ p, covered [f] p ↔ Offset f <= p < Offset f + size (Data f)) by (intros p; unfold covered; rewrite Exists_cons, Exists_nil; tauto).
  destruct (kp_lasting _ _ _ _ _ K) as (_ & L1 & L2).
  assert (Op : closeForShutdownErr s = false → cancelledLocally s = false → closeForShutdownErr (rcv w) = false ∧ cancelledLocally (rcv w) = false).
  { intros S L. split; [destruct (closeForShutdownErr (rcv w)); [by rewrite L2 in S|done]|destruct (cancelledLocally (rcv w)); [by rewrite L1 in L|done]]. }
  eapply changed_ok; [done|done|done| | | | |by left].
  - destruct F as [F|[F1 F2]]; [by left|right]. left. cbn. rewrite F2. apply Exists_app. right. by constructor.
  - intros p Hp Hg. destruct (decide (Offset f <= p < Offset f + size (Data f))); [right; by apply Cov|left]. intros Hx. by apply Hg, G1.
  - intros S L p Hp. rewrite Cov. destruct (Op S L). by apply G2.
  - intros S L Hx. apply Exists_cons in Hx as [Hx|Hx%Exists_nil]; [|done]. destruct (Op S L). destruct G2 as [G2 _]; [done|done|]. rewrite (G2 Hx). pose proof far_max. lia.
Qed.

Lemma reset_ok src w gl f now :
  reads_ok src w gl → broken w = false → act_ok src (RReset f now) → ∃ w', step (RReset f now) w = Some w' ∧ reads_ok src w' gl.
Proof.
  intros H Hb A. unfold step. rewrite Hb.
  pose proof (handleResetStreamFrame_ok src (rcv w) gl f now (rconn w) (ro_receiving _ _ _ H) (ro_settled _ _ _ H) A) as K.
  destruct (handleResetStreamFrame f now (rcv w) (rconn w)) as [[[s c] [e|]] n]; eexists; (split; [done|]); [by apply broken_ok|].
  destruct (K eq_refl) as (K1 & K2 & K3). 
  assert (E : told (no_completed n) (w <| rcv := s |> <| rconn := c |> <| resets ::= λ l, l ++ [f] |>) = changed w s c (no_completed n) [] [] [] [f])
    by (destruct w, (no_completed n); unfold changed; cbn; by rewrite !app_nil_r).
  rewrite E. eapply changed_ok; [done|done|by rewrite K2| |by left| |by intros _ _ ?%Exists_nil|by right].
  - destruct K3 as [K3|K3]; [by left|right]. right. cbn. rewrite K3. apply Exists_app. right. by constructor.
  - intros _ _ p Hp. split; [done|]. by intros ?%Exists_nil.
Qed.

(** ** Reading *)

(** The fields a call of [Read] or [Peek] does not touch. *)
Definition unmoved (s s' : ReceiveStream) : Prop :=
  finalOffset s' = finalOffset s ∧ closeForShutdownErr s' = closeForShutdownErr s ∧ cancelledLocally s' = cancelledLocally s ∧
  cancelledRemotely s' = cancelledRemotely s ∧ reliableSize s' = reliableSize s.

Lemma same_rest_unmoved s s' : same_rest s s' → unmoved s s'.
Proof. by intros (_ & ? & _ & _ & _ & ? & ? & _ & ? & ? & _). Qed.

Definition error_right (w : world) (s : ReceiveStream) (bs : list Z) (e : read_error) : Prop :=
  match e with
  | EOF => announced w (size bs)
  | RCancelled _ => cancelledLocally s = true ∨ (cancelledRemotely s = true ∧ reliableSize s <= size bs)
  | RShutdown => closeForShutdownErr s = true
  | RDeadline => True
  | RBug => False
  end.

Lemma moved_ok src w gl s c waits' bytes' errors' peeks' d rep :
  reads_ok src w gl → receiving src s gl → settled s → unmoved (rcv w) s →
  let w' := mkWorld s c waits' bytes' errors' peeks' (frames w) (resets w) (given w) (ran w ++ d) rep (broken w) in
  match waits' with
  | None => True
  | Some (CRead r) => currentFrame s = None ∧ currentFrameIsLast s = false ∧ size (got r) < want r
  | Some (CPeek n) => currentFrameIsLast s = false ∧ 0 < n < far
  end →
  bytes w `prefix_of` bytes' → bytes' ++ pending w' = FrameSorter.stream_bytes src 0 (readPos s) →
  (∀ bs e, (bs, e) ∈ errors' → (bs, e) ∈ errors w ∨ bs = bytes' ∧ error_right w s bs e) →
  (∀ a p, (a, p) ∈ peeks' → (a, p) ∈ peeks w ∨
    0 <= a ∧ 0 <= pk_n p ∧ pk_bytes p = FrameSorter.stream_bytes src a (a + pk_n p) ∧ (pk_err p = Some EOF → announced w (a + pk_n p)) ∧ pk_err p ≠ Some RBug) →
  d ++ in_use s ≡ₚ in_use (rcv w) → rep = (if completed s then 1 else 0)%nat → reads_ok src w' gl.
Proof.
  intros [R1 R2 R3 R4 R5 R6 R7 R7' R7'' R8 R9 R10 R11] H Se (U1 & U2 & U3 & U4 & U5) w' Hw Hp Hb He Hk Hd Hr. split; try done; cbn.
  - by rewrite U2, U3.
  - by rewrite U1.
  - by rewrite U1, U2, U3.
  - by rewrite U4.
  - intros bs e [Ho|[-> Hn]]%He; [|by split].
    destruct (R8 bs e Ho) as [E1 E2]. split; [by etrans|]. destruct e; by rewrite ?U2, ?U3, ?U4, ?U5.
  - intros a p [Ho|Hn]%Hk; [|done]. by apply R9.
  - rewrite <- app_assoc, Hd. done.
Qed.

Lemma read_returned_world t w :
  read_returned t w =
  match t_end t with
  | None => mkWorld (t_stream t) (t_conn t) (Some (CRead (t_call t))) (bytes w) (errors w) (peeks w) (frames w) (resets w) (given w) (ran w ++ t_ran t) (reported w) (broken w)
  | Some e =>
      let bs := bytes w ++ got (t_call t) in let '(s, done) := isNewlyCompleted (t_stream t) in
      mkWorld s (t_conn t) None bs (match e with Some e => errors w ++ [(bs, e)] | None => errors w end) (peeks w)
        (frames w) (resets w) (given w) (ran w ++ t_ran t) (if done then S (reported w) else reported w) (broken w)
  end.
Proof.
  destruct t as [s c d r [e|]], w; unfold read_returned, read_end; cbn [t_end t_stream]; [|done].
  destruct (isNewlyCompleted s) as [s' done]. by destruct done, e.
Qed.

(** An error of [Read] is what the stream has come to. *)
Lemma turn_error_right src w gl r t bs e :
  reads_ok src w gl → turned src gl (rcv w) r [] t → bs = FrameSorter.stream_bytes src 0 (readPos (t_stream t)) → t_end t = Some (Some e) →
  error_right w (t_stream t) bs e.
Proof.
  intros H T -> Ee. pose proof (tu_end _ _ _ _ _ _ T) as Te. rewrite Ee in Te. pose proof (readPos_range _ _ _ (tu_ok _ _ _ _ _ _ T)) as Hr.
  destruct (tu_rest _ _ _ _ _ _ T) as (_ & S1 & _ & _ & _ & _ & S2 & _ & S3 & _ & _). unfold error_right. rewrite size_stream_bytes, Z.sub_0_r by lia.
  destruct e; try done.
  - destruct (at_end_all _ _ _ (tu_ok _ _ _ _ _ _ T) Te) as (Hf & -> & _). rewrite S1 in *. by apply (ro_final _ _ _ H).
  - destruct Te as [_ [He|Hl]]; [right|left; by rewrite S2]. apply andb_true_iff in He as [He1 He2%Z.leb_le]. done.
  - by rewrite S3.
Qed.

Lemma read_returned_ok src w gl r t :
  reads_ok src w gl → turned src gl (rcv w) r [] t → got r = pending w →
  reads_ok src (read_returned t w) gl ∧ (is_Some (waits (read_returned t w)) → waiting gl (rcv (read_returned t w))).
Proof.
  intros H T Hp. pose proof (turned_settled _ _ _ _ _ _ (ro_receiving _ _ _ H) (ro_settled _ _ _ H) T) as Se.
  pose proof (same_rest_unmoved _ _ (tu_rest _ _ _ _ _ _ T)) as Un.
  assert (Hb : bytes w ++ got (t_call t) = FrameSorter.stream_bytes src 0 (readPos (t_stream t))).
  { rewrite (tu_got _ _ _ _ _ _ T), Hp, app_assoc, (ro_bytes _ _ _ H). apply FrameSorter.stream_bytes_app; [|apply (tu_pos _ _ _ _ _ _ T)].
    apply (readPos_range _ _ _ (ro_receiving _ _ _ H)). }
  assert (Hc : completed (t_stream t) = completed (rcv w)) by (by destruct (tu_rest _ _ _ _ _ _ T) as (_ & _ & _ & _ & -> & _)).
  pose proof (tu_end _ _ _ _ _ _ T) as Te. pose proof (tu_use _ _ _ _ _ _ T) as Tu. cbn in Tu. rewrite read_returned_world.
  destruct (t_end t) as [e|] eqn:Ee.
  - pose proof (isNewlyCompleted_ok src (t_stream t) gl (tu_ok _ _ _ _ _ _ T) Se) as I. destruct (isNewlyCompleted (t_stream t)) as [s done].
    destruct I as (Es & I1 & I2 & I3). cbv zeta. split; [|by intros [? ?]]. set (bs := bytes w ++ got (t_call t)) in *.
    pose proof (moved_ok src w gl s (t_conn t) None bs (match e with Some e => errors w ++ [(bs, e)] | None => errors w end) (peeks w) (t_ran t)
      (if done then S (reported w) else reported w) H I1 I2) as M. cbv zeta in M.
    assert (Hrp : readPos s = readPos (t_stream t)) by (by rewrite Es).
    apply M; clear M.
    + rewrite Es. exact Un.
    + done.
    + by eexists.
    + unfold pending. cbn. rewrite app_nil_r, Hrp. exact Hb.
    + intros bs' e' He. destruct e as [e|]; [|by left]. apply elem_of_app in He as [?|He%list_elem_of_singleton]; [by left|right]. injection He as -> ->.
      split; [done|]. rewrite Es. eapply turn_error_right; [done|done| |done]. exact Hb.
    + by left.
    + rewrite Es. exact Tu.
    + rewrite Es. cbn. rewrite Hc, (ro_reported _ _ _ H). rewrite Hc in I3. destruct done; [|done]. by destruct (I3 eq_refl) as [-> _].
  - destruct Te as [Tw Ts]. split; [|done].
    pose proof (moved_ok src w gl (t_stream t) (t_conn t) (Some (CRead (t_call t))) (bytes w) (errors w) (peeks w) (t_ran t) (reported w) H (tu_ok _ _ _ _ _ _ T) Se Un) as M.
    cbv zeta in M. apply M; try done; [|by intros; left|by intros; left|by rewrite Hc; apply (ro_reported _ _ _ H)].
    destruct Tw as (W1 & W2 & _). split; [done|]. split; [done|]. by rewrite (tu_want _ _ _ _ _ _ T).
Qed.

Lemma peek_returned_ok src w gl n s d r :
  reads_ok src w gl → peeking src gl (rcv w) n s d r → pending w = [] → (r = None → 0 < n < far) →
  reads_ok src (peek_returned n (s, d, r) w) gl ∧ (is_Some (waits (peek_returned n (s, d, r) w)) → peek_waits gl (rcv w) n).
Proof.
  intros H [P1 P2 P3 P4 P5 P6] Hp Hn. pose proof (same_rest_unmoved _ _ P2) as Un. pose proof (readPos_range _ _ _ P1) as Hr.
  destruct P2 as (_ & _ & _ & _ & S1 & _ & S2 & _ & _ & S3 & S4).
  assert (Se : settled s).
  { destruct (ro_settled _ _ _ H) as [E1 E2]. destruct Un as (U1 & _). split; [by rewrite S1, S2, U1|]. by rewrite S1, S2, S3, S4, P3, P4. }
  assert (Hb : bytes w ++ [] = FrameSorter.stream_bytes src 0 (readPos s)) by (rewrite P3, <- (ro_bytes _ _ _ H); by rewrite Hp).
  assert (Hrep : reported w = (if completed s then 1 else 0)%nat) by (by rewrite S1, <- (ro_reported _ _ _ H)).
  cbn [peek_returned]. destruct r as [p|].
  - split; [|by intros [? ?]]. destruct P6 as (Q1 & Q2 & _ & Q3).
    pose proof (moved_ok src w gl s (rconn w) None (bytes w) (errors w) (peeks w ++ [(readPos s, p)]) d (reported w) H P1 Se Un) as M. cbv zeta in M.
    destruct w; apply M; try done; [by left|]. intros a q [?|Hq%list_elem_of_singleton]%elem_of_app; [by left|right]. injection Hq as -> ->. rewrite P3 in *.
    split; [lia|]. split; [lia|]. split; [done|]. destruct (pk_err p) as [[]|]; split; try done. intros _. destruct Q3 as [Q3 ->]. by apply (ro_final _ _ _ H).
  - destruct P6 as [Q1 Q2]. split; [|done].
    pose proof (moved_ok src w gl s (rconn w) (Some (CPeek n)) (bytes w) (errors w) (peeks w) d (reported w) H P1 Se Un) as M. cbv zeta in M.
    destruct w; apply M; try done; [split; [done|by apply Hn]|by left|by left].
Qed.

(** ** Every step *)

Lemma far_sum src w gl n : reads_ok src w gl → n < far → readPos (rcv w) + n <= MaxByteCount.
Proof.
  intros H Hn. pose proof (readPos_range _ _ _ (ro_receiving _ _ _ H)). pose proof (qpos_highest _ _ _ (ro_receiving _ _ _ H)). pose proof (rv_far _ _ _ (ro_receiving _ _ _ H)).
  assert (far + far <= MaxByteCount + 1) by done. lia.
Qed.

(** What a call waits for, after it began or was woken. *)
Definition wait_right (gl : list ByteInterval) (w : world) : Prop :=
  match waits w with
  | None => True
  | Some (CRead _) => waiting gl (rcv w)
  | Some (CPeek n) => peek_waits gl (rcv w) n
  end.

Lemma call_ok src w gl a :
  reads_ok src w gl → broken w = false → act_ok src a → match a with RRead _ _ | RPeek _ _ => waits w = None | RWake _ => True | _ => False end →
  ∃ w', step a w = Some w' ∧ reads_ok src w' gl ∧ wait_right gl w'.
Proof.
  intros H Hb Ha Hw. unfold step. rewrite Hb. pose proof (ro_receiving _ _ _ H) as HR.
  assert (PR : ∀ n s d r, peeking src gl (rcv w) n s d r → pending w = [] → (r = None → 0 < n < far) →
    ∃ w', Some (peek_returned n (s, d, r) w) = Some w' ∧ reads_ok src w' gl ∧ wait_right gl w').
  { intros n s d r P Hp Hn. destruct (peek_returned_ok src w gl n s d r H P Hp Hn) as [W1 W2]. eexists. split; [done|]. split; [done|].
    destruct P as [_ (_ & S1 & _ & _ & _ & _ & S2 & _ & S3 & _) P3 _ _ _]. cbn [peek_returned] in *. unfold wait_right, peek_waits in *. destruct r; [by destruct w|].
    destruct w; cbn in *. rewrite S1, S2, S3, P3. by apply W2. }
  assert (RR : ∀ r t, turned src gl (rcv w) r [] t → got r = pending w → ∃ w', Some (read_returned t w) = Some w' ∧ reads_ok src w' gl ∧ wait_right gl w').
  { intros r t T Hp. destruct (read_returned_ok src w gl r t H T Hp) as [W1 W2]. eexists. split; [done|]. split; [done|].
    unfold wait_right. rewrite read_returned_world in W2 |- *. destruct (t_end t); [by destruct (isNewlyCompleted _)|]. cbn in *. by apply W2. }
  destruct a as [| |n expired|n expired|expired| | | |]; try done; cbn [act_ok] in Ha.
  - assert (Hp : pending w = []) by (unfold pending; by rewrite Hw). rewrite Hw.
    destruct (read_begin_ok src (rcv w) gl n expired (rconn w) HR (proj1 Ha)) as (t & -> & T). cbn [mbind option_bind]. by eapply RR.
  - assert (Hp : pending w = []) by (unfold pending; by rewrite Hw). rewrite Hw.
    destruct (peek_begin_ok src (rcv w) gl n expired HR (proj1 Ha)) as (s & d & r & -> & P & Hn); [eapply far_sum; [done|apply Ha]|]. cbn [mbind option_bind].
    apply PR; [done|done|]. intros Hr. split; [by apply Hn|apply Ha].
  - pose proof (ro_waits _ _ _ H) as Rw. destruct (waits w) as [[r|n]|] eqn:Ew.
    + destruct Rw as (Q1 & Q2 & Q3). destruct (read_wake_ok src (rcv w) gl r expired (rconn w) HR Q1 Q2 Q3) as (t & -> & T). cbn [mbind option_bind].
      eapply RR; [done|]. unfold pending. by rewrite Ew.
    + destruct Rw as (Q1 & Q2). destruct (peek_wake_ok src (rcv w) gl n expired HR (proj1 Q2)) as (s & d & r & -> & P); [eapply far_sum; [done|apply Q2]|done|].
      cbn [mbind option_bind]. apply PR; [done| |done]. unfold pending. by rewrite Ew.
    + exists w. split; [done|]. split; [done|]. unfold wait_right. by rewrite Ew.
Qed.

Lemma read_step_ok src w gl a : reads_ok src w gl → act_ok src a → ∃ w' gl', step a w = Some w' ∧ reads_ok src w' gl'.
Proof.
  intros H Ha. destruct (broken w) eqn:Hb; [exists w, gl; unfold step; by rewrite Hb|].
  pose proof (ro_receiving _ _ _ H) as HR. pose proof (ro_settled _ _ _ H) as Se.
  destruct a as [f cb now|f now|n expired|n expired|expired|code|rtt allow now|some|].
  - by apply (frame_ok src w gl).
  - destruct (reset_ok src w gl f now H Hb Ha) as (w' & ? & ?). by exists w', gl.
  - destruct (waits w) eqn:Ew; [exists w, gl; unfold step; by rewrite Hb, Ew|]. destruct (call_ok src w gl (RRead n expired) H Hb Ha Ew) as (w' & ? & ? & _). by exists w', gl.
  - destruct (waits w) eqn:Ew; [exists w, gl; unfold step; by rewrite Hb, Ew|]. destruct (call_ok src w gl (RPeek n expired) H Hb Ha Ew) as (w' & ? & ? & _). by exists w', gl.
  - destruct (call_ok src w gl (RWake expired) H Hb Ha I) as (w' & ? & ? & _). by exists w', gl.
  - unfold step. rewrite Hb. pose proof (CancelRead_ok src (rcv w) gl code (rconn w) HR Se) as K. pose proof (CancelRead_remote code (rcv w) (rconn w)) as Hr.
    destruct (CancelRead _ _ _) as [[s c] n]. destruct K as (K1 & K2 & K3). eexists _, gl. split; [done|]. by apply quiet_step_ok.
  - unfold step. rewrite Hb. destruct (getControlFrame_ok src (rcv w) gl rtt allow now (rconn w) HR Se) as (s & c & r & Ec & K1 & K2 & K3).
    pose proof (getControlFrame_remote _ _ _ _ _ _ _ _ Ec) as Hr. rewrite Ec. eexists _, gl. split; [done|]. by apply (quiet_step_ok src w gl s c false).
  - unfold step. rewrite Hb. destruct (SetReceiveFinalSizeCallback_kept src (rcv w) gl some HR Se) as (K1 & K2 & K3). eexists _, gl. split; [done|].
    pose proof (quiet_step_ok src w gl _ (rconn w) false H K1 K2 K3) as Q. destruct w. apply Q. unfold SetReceiveFinalSizeCallback. by repeat case_match.
  - unfold step. rewrite Hb. destruct (shutdown_kept src (rcv w) gl HR Se) as (K1 & K2). eexists _, gl. split; [done|].
    pose proof (quiet_step_ok src w gl _ (rconn w) false H K1 K2 eq_refl eq_refl) as Q. by destruct w.
Qed.

Lemma read_run_ok src l : ∀ w gl, reads_ok src w gl → Forall (act_ok src) l → ∃ w' gl', run l w = Some w' ∧ reads_ok src w' gl'.
Proof.
  induction l as [|a l IH]; intros w gl H F; cbn [run]; [by exists w, gl|]. apply Forall_cons in F as [Fa F].
  destruct (read_step_ok src w gl a H Fa) as (w1 & gl1 & -> & H1). by eapply IH.
Qed.

Lemma read_start src id window maxWindow c :
  ∃ w, start id window maxWindow c = Some w ∧ reads_ok src w [mkIv 0 FrameSorter.MaxByteCount].
Proof.
  destruct (FrameSorter.new_sorting src) as (q & N & H0 & R0 & Q0). unfold start, newReceiveStream. rewrite N. cbn [mbind option_bind]. eexists. split; [done|].
  split; try done.
  - split; try done.
    + intros p Hp. exists (mkIv 0 FrameSorter.MaxByteCount). split; [by left|]. rewrite max_same. cbn in *. lia.
    + by left.
  - intros p Hp Hg. destruct Hg. exists (mkIv 0 FrameSorter.MaxByteCount). split; [by left|]. by rewrite max_same.
  - intros _ _ p _. by intros ?%Exists_nil.
  - by intros _ _ ?%Exists_nil.
  - cbn. by intros ???%elem_of_nil.
  - cbn. by intros ???%elem_of_nil.
  - cbn. unfold in_use. cbn. by rewrite Q0.
Qed.

(** ** The theorems *)

Lemma read_from_start src id window maxWindow c l :
  Forall (act_ok src) l → ∃ w0 w gl, start id window maxWindow c = Some w0 ∧ run l w0 = Some w ∧ reads_ok src w gl.
Proof.
  intros F. destruct (read_start src id window maxWindow c) as (w0 & E0 & H0). destruct (read_run_ok src l w0 _ H0 F) as (w & gl & E & H).
  by exists w0, w, gl.
Qed.

Lemma read_covered src w gl p : reads_ok src w gl → 0 <= p < readPos (rcv w) → covered (frames w) p.
Proof.
  intros H Hp. pose proof (readPos_range _ _ _ (ro_receiving _ _ _ H)). pose proof (qpos_highest _ _ _ (ro_receiving _ _ _ H)) as Hq. pose proof (rv_far _ _ _ (ro_receiving _ _ _ H)). pose proof far_max.
  apply (ro_covered _ _ _ H); [lia|]. intros (g & Hg & Hi).
  pose proof (FrameSorter.co_range _ _ _ (FrameSorter.so_coherent _ _ _ (rv_sorting _ _ _ (ro_receiving _ _ _ H))) g Hg). unfold qpos in *. lia.
Qed.

(** C9: what is read is the peer's stream. In whatever order frames, resets, calls of Read and Peek, waits, CancelRead, control frames
    and the shutdown come, nothing panics and no internal error is reported; what the calls of Read returned is the beginning of the
    stream, byte for byte, and only bytes of frames that arrived; EOF is returned only when everything up to an end announced by a FIN
    or a reset was read, a reset only when all that it promised to deliver was; and Peek shows the bytes of the stream at its position. *)
Theorem reads_in_order src id window maxWindow c l :
  Forall (act_ok src) l →
  ∃ w0 w, start id window maxWindow c = Some w0 ∧ run l w0 = Some w ∧
    bytes w ++ pending w = FrameSorter.stream_bytes src 0 (readPos (rcv w)) ∧
    (∀ p, 0 <= p < readPos (rcv w) → covered (frames w) p) ∧
    (∀ bs e, (bs, e) ∈ errors w → bs `prefix_of` bytes w ∧ error_right w (rcv w) bs e) ∧
    (∀ a p, (a, p) ∈ peeks w → pk_bytes p = FrameSorter.stream_bytes src a (a + pk_n p) ∧ (pk_err p = Some EOF → announced w (a + pk_n p)) ∧ pk_err p ≠ Some RBug).
Proof.
  intros F. destruct (read_from_start src id window maxWindow c l F) as (w0 & w & gl & E0 & E & H). exists w0, w. split; [done|]. split; [done|].
  split; [apply (ro_bytes _ _ _ H)|]. split; [intros p; by apply (read_covered src w gl)|]. split; [apply (ro_errors _ _ _ H)|].
  intros a p Hp. by destruct (ro_peeks _ _ _ H a p Hp) as (_ & _ & ? & ? & ?).
Qed.

(** No call waits without need. A call of Read that waits, at its start or woken for whatever reason, waits for a byte that has
    not arrived, and that is before the end or promised by the reset; a call of Peek waits for a byte it was asked for that has not
    arrived and is before the end. So when the bytes are there, or the end, or an error, the call returns. *)
Theorem waits_for_missing_bytes src id window maxWindow c l a :
  Forall (act_ok src) l → act_ok src a →
  ∃ w0 w w', start id window maxWindow c = Some w0 ∧ run l w0 = Some w ∧ step a w = Some w' ∧
    (broken w = false → match a with RRead _ _ | RPeek _ _ => waits w = None | RWake _ => True | _ => False end →
     let s := rcv w' in
     match waits w' with
     | None => True
     | Some (CRead _) => ¬ covered (frames w') (readPos s) ∧ (readPos s < finalOffset s ∨ (cancelledRemotely s = true ∧ readPos s < reliableSize s))
     | Some (CPeek n) => ∃ p, readPos s <= p < Z.min (readPos s + n) (finalOffset s) ∧ ¬ covered (frames w') p
     end).
Proof.
  intros F Fa. destruct (read_from_start src id window maxWindow c l F) as (w0 & w & gl & E0 & E & H). 
  destruct (read_step_ok src w gl a H Fa) as (w' & gl' & Ea & _). exists w0, w, w'. split; [done|]. split; [done|]. split; [done|].
  intros Hb Hw. destruct (call_ok src w gl a H Hb Fa Hw) as (w1 & Ea' & H1 & W). assert (w1 = w') as -> by congruence.
  unfold wait_right in W. destruct (waits w') as [[r|n]|]; [| |done].
  - destruct W as (_ & _ & W1 & W2 & W3 & W4). split; [|done]. by apply (ro_gaps _ _ _ H1).
  - destruct W as ((p & W1 & W2) & W3 & W4). exists p. split; [done|]. by apply (ro_gaps _ _ _ H1).
Qed.

(** C25: nothing is given back twice. Each buffer a frame came in is returned to the pool at most once, and only then is no longer in use;
    the stream is reported as completed at most once, and never gives back more flow-control credit than the peer used; when it is
    completed, all of that credit has been given back - unless the stream was cancelled here and the peer then reset it with a part to
    be delivered that had not been read. *)
Theorem given_back_once src id window maxWindow c l :
  Forall (act_ok src) l →
  ∃ w0 w, start id window maxWindow c = Some w0 ∧ run l w0 = Some w ∧
    ran w ++ in_use (rcv w) ⊆+ given w ∧ (NoDup (given w) → NoDup (ran w)) ∧
    reported w = (if completed (rcv w) then 1 else 0)%nat ∧ credited (rcv w) <= highest (rcv w) ∧
    (reported w = 1%nat → credited (rcv w) = highest (rcv w) ∨ (cancelledLocally (rcv w) = true ∧ readPos (rcv w) < reliableSize (rcv w))).
Proof.
  intros F. destruct (read_from_start src id window maxWindow c l F) as (w0 & w & gl & E0 & E & H). exists w0, w. split; [done|]. split; [done|].
  pose proof (ro_buffers _ _ _ H) as Hu. split; [done|]. split.
  { intros Hn. assert (Hs : ran w ⊆+ given w) by (etrans; [by apply submseteq_inserts_r|exact Hu]).
    apply submseteq_Permutation in Hs as [k Hk]. rewrite Hk in Hn. apply NoDup_app in Hn. apply Hn. }
  split; [apply (ro_reported _ _ _ H)|]. split; [eapply credited_range, (ro_receiving _ _ _ H)|].
  rewrite (ro_reported _ _ _ H). destruct (completed (rcv w)) eqn:Ec; [intros _|done]. by apply (se_credit _ (ro_settled _ _ _ H)).
Qed.

(** ** With the sender at the other end *)

Lemma told_frames done w : frames (told done w) = frames w ∧ resets (told done w) = resets w.
Proof. by destruct done. Qed.

Lemma step_frames a w w' : step a w = Some w' →
  (∀ f, f ∈ frames w' → f ∈ frames w ∨ ∃ cb now, a = RFrame f cb now) ∧ (∀ f, f ∈ resets w' → f ∈ resets w ∨ ∃ now, a = RReset f now).
Proof.
  unfold step. destruct (broken w); [intros [= <-]; split; by left|].
  assert (Same : ∀ v, frames v = frames w ∧ resets v = resets w → Some v = Some w' →
    (∀ f, f ∈ frames w' → f ∈ frames w ∨ ∃ cb now, a = RFrame f cb now) ∧ (∀ f, f ∈ resets w' → f ∈ resets w ∨ ∃ now, a = RReset f now)).
  { intros v [E1 E2] [= <-]. rewrite E1, E2. split; by left. }
  assert (Ret : ∀ t, frames (read_returned t w) = frames w ∧ resets (read_returned t w) = resets w).
  { intros t. rewrite read_returned_world. destruct (t_end t); [by destruct (isNewlyCompleted _)|done]. }
  assert (Pk : ∀ n p, frames (peek_returned n p w) = frames w ∧ resets (peek_returned n p w) = resets w) by (intros n [[s d] []]; done).
  destruct a as [f cb now|f now|n expired|n expired|expired|code|rtt allow now|some|].
  - destruct (handleStreamFrame _ _ _ _ _) as [[[[[s c] d] e] n]|]; [|done]. cbn [mbind option_bind]. destruct e as [e|]; [by apply Same|].
    intros [= <-]. match goal with |- context [told ?d ?x] => destruct (told_frames d x) as [-> ->] end. cbn.
    split; [|by left]. intros g [?| ->%list_elem_of_singleton]%elem_of_app; [by left|right; by eexists _, _].
  - destruct (handleResetStreamFrame _ _ _ _) as [[[s c] e] n]. destruct e as [e|]; [by apply Same|].
    intros [= <-]. match goal with |- context [told ?d ?x] => destruct (told_frames d x) as [-> ->] end. cbn.
    split; [by left|]. intros g [?| ->%list_elem_of_singleton]%elem_of_app; [by left|right; by eexists].
  - destruct (waits w); [by apply Same|]. destruct (read_begin _ _ _ _) as [t|]; [|done]. apply Same, Ret.
  - destruct (waits w); [by apply Same|]. destruct (peek_begin _ _ _) as [p|]; [|done]. apply Same, Pk.
  - destruct (waits w) as [[r|n]|]; [| |by apply Same].
    + destruct (read_wake _ _ _ _) as [t|]; [|done]. apply Same, Ret.
    + destruct (peek_wake _ _ _) as [p|]; [|done]. apply Same, Pk.
  - destruct (CancelRead _ _ _) as [[s c] n]. apply Same. by destruct (no_completed n).
  - destruct (getControlFrame _ _ _ _ _) as [[[s c] r]|]; [|done]. by apply Same.
  - by apply Same.
  - by apply Same.
Qed.

Lemma run_frames l : ∀ w w', run l w = Some w' →
  (∀ f, f ∈ frames w' → f ∈ frames w ∨ ∃ cb now, RFrame f cb now ∈ l) ∧ (∀ f, f ∈ resets w' → f ∈ resets w ∨ ∃ now, RReset f now ∈ l).
Proof.
  induction l as [|a l IH]; intros w w'; cbn [run]; [intros [= <-]; split; by left|].
  destruct (step a w) as [w1|] eqn:E; [|done]. intros R. destruct (step_frames a w w1 E) as [S1 S2], (IH w1 w' R) as [I1 I2]. split; intros f.
  - intros [[?|(cb & now & ->)]%S1|(cb & now & ?)]%I1; [by left| |]; right; exists cb, now; set_solver.
  - intros [[?|(now & ->)]%S2|(now & ?)]%I2; [by left| |]; right; exists now; set_solver.
Qed.

(** The peer's operations, when only the frames that were sent arrive. *)
Definition from_sender (w : StreamPipe.world) (a : act) : Prop :=
  match a with
  | RFrame f _ _ => f ∈ StreamPipe.sent w
  | RReset _ _ => False
  | RRead n _ | RPeek n _ => 0 <= n < far
  | _ => True
  end.

Lemma from_sender_ok id w ops :
  StreamPipe.pipe_ok id w → size (StreamPipe.written w) <= far → Forall (from_sender w) ops → Forall (act_ok (StreamPipe.source (StreamPipe.written w) 0)) ops.
Proof.
  intros H Hf Hops. eapply Forall_impl; [exact Hops|]. intros [f cb now|f now|n expired|n expired|expired|code|rtt allow now|some|]; cbn; try done. intros Hs.
  pose proof (StreamPipe.po_sent _ _ H) as F. rewrite Forall_forall in F. destruct (F f Hs) as [Hc He _ _ _].
  split; [by apply (StreamPipe.chunk_from_stream id)|]. split; [apply Hc|].
  pose proof (SendInv.se_extent _ _ _ (StreamPipe.po_sending _ _ H)). pose proof (SendInv.next_len_nonneg (StreamPipe.snd w)). lia.
Qed.

Lemma covered_written id w fs p :
  StreamPipe.pipe_ok id w → (∀ f, f ∈ fs → f ∈ StreamPipe.sent w) → covered fs p → p < size (StreamPipe.written w).
Proof.
  intros H Hs (f & Hf & Hp)%Exists_exists. pose proof (StreamPipe.po_sent _ _ H) as F. rewrite Forall_forall in F. destruct (F f (Hs f Hf)) as [Hc He _ _ _].
  pose proof (SendInv.se_extent _ _ _ (StreamPipe.po_sending _ _ H)). pose proof (SendInv.next_len_nonneg (StreamPipe.snd w)). lia.
Qed.

Lemma read_frames n expired w w' : step (RRead n expired) w = Some w' → frames w' = frames w ∧ resets w' = resets w.
Proof.
  unfold step. destruct (broken w); [by intros [= <-]|]. destruct (waits w); [by intros [= <-]|]. destruct (read_begin _ _ _ _) as [t|]; [|done].
  intros [= <-]. rewrite read_returned_world. destruct (t_end t); [by destruct (isNewlyCompleted _)|done].
Qed.

(** Once all of a completed stream is there, no call of [Read] waits. *)
Lemma all_there_returns id w src v gl n expired :
  StreamPipe.pipe_ok id w → SendStream.completed (StreamPipe.snd w) = true →
  reads_ok src v gl → (∀ f, f ∈ frames v → f ∈ StreamPipe.sent w) → resets v = [] →
  (∀ i f, StreamPipe.sent w !! i = Some f → Some i ∈ StreamPipe.heard w → f ∈ frames v) → broken v = false → waits v = None → 0 <= n < far →
  ∃ v', step (RRead n expired) v = Some v' ∧ waits v' = None.
Proof.
  intros H Hd Hv Sent Hres Heard Hb Hw Hn. destruct (call_ok src v gl (RRead n expired) Hv Hb Hn Hw) as (v' & E & Hv' & W). exists v'. split; [done|].
  destruct (read_frames n expired v v' E) as [Ef Er]. destruct (StreamPipe.po_done _ _ H Hd) as (D1 & _ & _). destruct (StreamPipe.finSent_extent _ _ H D1) as [_ Hext].
  set (e := size (StreamPipe.accepted w)) in *.
  assert (Cov : ∀ p, 0 <= p < e → covered (frames v') p).
  { intros p Hp. rewrite Ef. destruct (StreamPipe.completed_arrived id w (SendInv.Byte p) H Hd) as (i & f & Hi & Hbr & Hh); [cbn; lia|].
    apply Exists_exists. exists f. split; [by eapply Heard|exact Hbr]. }
  assert (Fin : closeForShutdownErr (rcv v') = false → cancelledLocally (rcv v') = false → finalOffset (rcv v') = e).
  { intros S L. destruct (StreamPipe.completed_arrived id w SendInv.TheEnd H Hd D1) as (i & f & Hi & Hbr & Hh).
    assert (Hk : finalOffset (rcv v') ≠ MaxByteCount). { apply (ro_fin _ _ _ Hv'); [done|done|]. rewrite Ef. apply Exists_exists. exists f. split; [by eapply Heard|exact Hbr]. }
    destruct (ro_final _ _ _ Hv' Hk) as [(g & Hg & G1 & ->)%Exists_exists|(g & Hg & _)%Exists_exists]; [|rewrite Er, Hres in Hg; set_solver].
    rewrite Ef in Hg. destruct (StreamPipe.sent_genuine id w g H (Sent g Hg)) as (_ & _ & _ & _ & Hx). by apply Hx. }
  pose proof (readPos_range _ _ _ (ro_receiving _ _ _ Hv')) as Hr.
  unfold wait_right in W. destruct (waits v') as [[r|m]|]; [| |done].
  - destruct W as (_ & _ & W1 & W2 & W3 & W4). exfalso. rewrite Fin in W2 by done. destruct W2 as [W2|[W2 _]].
    + apply (ro_gaps _ _ _ Hv' W3 W4 _ W1), Cov. lia.
    + apply (ro_remote _ _ _ Hv') in W2. by rewrite Er in W2.
  - destruct W as ((p & W1 & W2) & W3 & W4). exfalso. rewrite Fin in W1 by done. apply (ro_gaps _ _ _ Hv' W3 W4 _ W2), Cov. lia.
Qed.

(** C1: What is written is what is read. A stream between two applications, one that its sender neither cancels
    nor resets, the peer does not ask to stop and no end of the connection shuts down at the sender: Write in any pieces, TryWriteAll,
    waits, Close, packing, credit, losses, acknowledgements and arrivals in any order. As long as at most 2^61 bytes are written,
    whatever the receiver's application does while any of the sent frames arrive, in any order and as often as they like - Read,
    Peek, CancelRead, a shutdown -, the bytes that Read returns are a beginning of the bytes that Write took; and when Read returns
    EOF, the sender has closed the stream, and exactly what its calls of Write accepted has been read. When the sender reports the
    stream as completed, and the frames it has been acknowledged are among those the receiver got and took (none refused by its
    flow control), no further call of Read waits. *)
Theorem written_is_read id window connWindow supports l :
  fits id → 0 <= window <= MaxByteCount → 0 <= connWindow → Forall StreamPipe.act_ok l →
  ∃ w, StreamPipe.run l (StreamPipe.start id window connWindow supports) = Some w ∧
    (size (StreamPipe.written w) <= far → ∀ window' maxWindow c ops, Forall (from_sender w) ops →
      ∃ v0 v, start id window' maxWindow c = Some v0 ∧ run ops v0 = Some v ∧
        bytes v `prefix_of` StreamPipe.written w ∧
        (∀ bs, (bs, EOF) ∈ errors v → SendStream.finishedWriting (StreamPipe.snd w) = true ∧ bs = StreamPipe.accepted w ∧ bytes v = StreamPipe.accepted w) ∧
        (SendStream.completed (StreamPipe.snd w) = true → (∀ i f, StreamPipe.sent w !! i = Some f → Some i ∈ StreamPipe.heard w → f ∈ frames v) →
          broken v = false → waits v = None → ∀ n expired, 0 <= n < far → ∃ v', step (RRead n expired) v = Some v' ∧ waits v' = None)).
Proof.
  intros Hid Hw Hc F. destruct (StreamPipe.run_from_start id window connWindow supports l Hid Hw Hc F) as (w & E & H & _).
  exists w. split; [done|]. intros Hfar window' maxWindow c ops Hops.
  destruct (read_from_start _ id window' maxWindow c ops (from_sender_ok id w ops H Hfar Hops)) as (v0 & v & gl & E0 & Ev & Hv).
  exists v0, v. split; [done|]. split; [done|].
  destruct (run_frames ops v0 v Ev) as [Fr Rs]. assert (E0' : frames v0 = [] ∧ resets v0 = []).
  { unfold start in E0. destruct (newReceiveStream _ _); [|done]. by injection E0 as <-. }
  destruct E0' as [E1 E2]. rewrite E1 in Fr. rewrite E2 in Rs. rewrite Forall_forall in Hops.
  assert (Sent : ∀ f, f ∈ frames v → f ∈ StreamPipe.sent w) by (intros f [Hx|(cb & now & Hx)]%Fr; [set_solver|exact (Hops _ Hx)]).
  assert (Hle : readPos (rcv v) <= size (StreamPipe.written w)).
  { destruct (Z.le_gt_cases (readPos (rcv v)) 0) as [?|Hgt]; [unfold size; lia|].
    pose proof (covered_written id w (frames v) (readPos (rcv v) - 1) H Sent (read_covered _ v gl (readPos (rcv v) - 1) Hv ltac:(lia))). lia. }
  pose proof (readPos_range _ _ _ (ro_receiving _ _ _ Hv)) as Hr.
  assert (Hb : bytes v ++ pending v `prefix_of` StreamPipe.written w) by (rewrite (ro_bytes _ _ _ Hv), StreamPipe.source_bytes by lia; apply prefix_take).
  split; [etrans; [|exact Hb]; by eexists|].
  split; [|intros Hd Hh Hbr Hwt n expired Hn; apply (all_there_returns id w _ v gl n expired H Hd Hv Sent); try done].
  2: { destruct (resets v) as [|f rs]; [done|]. destruct (Rs f ltac:(by left)) as [Hx|(now & Hx)]; [set_solver|]. by apply Hops in Hx. }
  intros bs He. destruct (ro_errors _ _ _ Hv bs EOF He) as [Hp An].
  assert (Ha : SendStream.finishedWriting (StreamPipe.snd w) = true ∧ size bs = size (StreamPipe.accepted w)).
  { destruct An as [(f & Hf & Hfin & Hx)%Exists_exists|(f & Hf & _)%Exists_exists].
    - destruct (StreamPipe.sent_genuine id w f H (Sent f Hf)) as (_ & _ & _ & _ & Hg). destruct (Hg Hfin). split; [done|lia].
    - destruct (Rs f Hf) as [Hx|(now & Hx)]; [set_solver|]. by apply Hops in Hx. }
  destruct Ha as [Hfw Hsz]. split; [done|].
  assert (Hwr : StreamPipe.written w = StreamPipe.accepted w) by (apply StreamPipe.written_idle; by eapply StreamPipe.finished_idle).
  assert (Hall : ∀ x, x `prefix_of` StreamPipe.written w → size (StreamPipe.accepted w) <= size x → x = StreamPipe.accepted w).
  { intros x Hx Hs. rewrite <- Hwr in *. destruct Hx as [k Hk]. rewrite Hk in Hs |- *. unfold size in Hs. rewrite length_app in Hs. destruct k; [by rewrite app_nil_r|cbn in Hs; lia]. }
  assert (Hbv : bytes v `prefix_of` StreamPipe.written w) by (etrans; [|exact Hb]; by eexists).
  split; apply Hall; [by etrans|lia|done|]. destruct Hp as [k ->]. unfold size in *. rewrite length_app. lia.
Qed.

(** ** Examples *)

Definition demo_conn : connectionFlowController := mkConn (new_receive 1000 1000) (FlowControl.mkSend 0 0 0).

(** A call of [Read] waits, is woken in vain, then woken by the first frame; [Peek] waits for the last one. *)
Definition demo_read : list act :=
  [RRead 4 false; RFrame (mkStreamFrame 4 3 [3; 4; 5] false true) 1 0; RWake false; RFrame (mkStreamFrame 4 0 [0; 1; 2] false true) 2 0; RWake false;
   RPeek 4 false; RFrame (mkStreamFrame 4 6 [6; 7] true true) 3 0; RWake false; RRead 10 false].

Lemma count_up_frame o n : 0 <= o → o + Z.of_nat n <= 256 → FrameSorter.from_stream FrameSorter.count_up (seqZ o (Z.of_nat n)) o.
Proof.
  intros Ho Hn i x Hx. apply lookup_seqZ in Hx as [-> Hi]. unfold FrameSorter.count_up. apply Z.mod_small. lia.
Qed.

Lemma demo_read_ok : Forall (act_ok FrameSorter.count_up) demo_read.
Proof.
  repeat (apply Forall_cons; split); try apply Forall_nil; try done.
  - split; [exact (count_up_frame 3 3 ltac:(done) ltac:(done))|done].
  - split; [exact (count_up_frame 0 3 ltac:(done) ltac:(done))|done].
  - split; [exact (count_up_frame 6 2 ltac:(done) ltac:(done))|done].
Qed.

Definition demo_run (l : list act) : option world := w ← start 4 1000 1000 demo_conn; run l w.

Lemma reads_in_order_witness :
  match demo_run demo_read with
  | Some w => bytes w = [0; 1; 2; 3; 4; 5; 6; 7] ∧ errors w = [(bytes w, EOF)] ∧ bytes w ++ pending w = FrameSorter.stream_bytes FrameSorter.count_up 0 (readPos (rcv w))
  | None => False
  end.
Proof.
  destruct (reads_in_order FrameSorter.count_up 4 1000 1000 demo_conn demo_read demo_read_ok) as (w0 & w & E0 & E & H & _).
  unfold demo_run. rewrite E0. cbn [mbind option_bind]. rewrite E. split; [|split; [|exact H]].
  - vm_compute in E0. injection E0 as <-. vm_compute in E. by injection E as <-.
  - vm_compute in E0. injection E0 as <-. vm_compute in E. by injection E as <-.
Defined.

Lemma waits_for_missing_bytes_witness :
  match demo_run (take 6 demo_read) with
  | Some w => waits w = Some (CPeek 4) ∧ ¬ covered (frames w) (readPos (rcv w) + 2)
  | None => False
  end.
Proof.
  destruct (waits_for_missing_bytes FrameSorter.count_up 4 1000 1000 demo_conn (take 5 demo_read) (RPeek 4 false) (Forall_take _ _ _ demo_read_ok) ltac:(done))
    as (w0 & w & w' & E0 & E & E' & H).
  assert (R : demo_run (take 6 demo_read) = Some w').
  { clear -E0 E E'. unfold demo_run. rewrite E0. cbn [mbind option_bind]. vm_compute in E0. injection E0 as <-. vm_compute in E. injection E as <-. rewrite <- E'. by vm_compute. }
  assert (B : broken w = false ∧ waits w = None) by (clear -E0 E; vm_compute in E0; injection E0 as <-; vm_compute in E; by injection E as <-).
  rewrite R. specialize (H (proj1 B) (proj2 B)). assert (P : waits w' = Some (CPeek 4) ∧ readPos (rcv w') = 4 ∧ finalOffset (rcv w') = MaxByteCount ∧ frames w' = frames w).
  { clear -E0 E E'. vm_compute in E0. injection E0 as <-. vm_compute in E. injection E as <-. vm_compute in E'. by injection E' as <-. }
  destruct P as (P1 & P2 & P3 & P4). split; [done|]. cbv zeta in H. rewrite P1 in H. destruct H as (p & Hp & Hc). rewrite P2, P3 in *.
  rewrite P4 in *. assert (F : map (λ f, (Offset f, size (Data f))) (frames w) = [(3, 3); (0, 3)]) by (clear -E0 E; vm_compute in E0; injection E0 as <-; vm_compute in E; by injection E as <-).
  assert (C : ∀ x, covered (frames w) x ↔ 0 <= x < 6).
  { clear -F. intros x. unfold covered. destruct (frames w) as [|f1 [|f2 [|]]]; try done. injection F as F1 F2 F3 F4. rewrite !Exists_cons, Exists_nil. rewrite F1, F2, F3, F4. lia. }
  rewrite C. lia.
Defined.

Lemma given_back_once_witness :
  match demo_run demo_read with
  | Some w => given w = [1; 2; 3]%nat ∧ NoDup (ran w) ∧ reported w = 1%nat ∧ (credited (rcv w) = highest (rcv w) ∨ cancelledLocally (rcv w) = true ∧ readPos (rcv w) < reliableSize (rcv w))
  | None => False
  end.
Proof.
  destruct (given_back_once FrameSorter.count_up 4 1000 1000 demo_conn demo_read demo_read_ok) as (w0 & w & E0 & E & _ & H1 & _ & _ & H2).
  unfold demo_run. rewrite E0. cbn [mbind option_bind]. rewrite E.
  assert (G : given w = [1; 2; 3]%nat ∧ reported w = 1%nat) by (vm_compute in E0; injection E0 as <-; vm_compute in E; by injection E as <-).
  destruct G as [G1 G2]. split; [done|]. split; [apply H1; rewrite G1; by apply (bool_decide_unpack _)|]. split; [done|by apply H2].
Defined.

(** What [StreamPipe.demo_acts] sends, the repeated frame first. *)
Definition demo_sent : list act :=
  [RFrame (mkStreamFrame 4 5 [5; 6; 7; 8; 9] true true) 1 0; RRead 7 false; RFrame (mkStreamFrame 4 0 [0; 1; 2; 3; 4] false true) 2 0;
   RFrame (mkStreamFrame 4 0 [0; 1; 2; 3; 4] false false) 3 0; RWake false; RRead 7 false].

Lemma written_is_read_witness :
  match StreamPipe.run StreamPipe.demo_acts (StreamPipe.start 4 1000 1000 true) with
  | Some w => match demo_run demo_sent with Some v => bytes v = StreamPipe.accepted w ∧ (bytes v, EOF) ∈ errors v | None => False end
  | None => False
  end.
Proof.
  destruct (written_is_read 4 1000 1000 true StreamPipe.demo_acts ltac:(by vm_compute) ltac:(by vm_compute) ltac:(done) StreamPipe.demo_acts_ok) as (w & E & H).
  rewrite E. assert (Hs : size (StreamPipe.written w) = 10 ∧ StreamPipe.sent w = [mkStreamFrame 4 0 [0; 1; 2; 3; 4] false false; mkStreamFrame 4 5 [5; 6; 7; 8; 9] true true; mkStreamFrame 4 0 [0; 1; 2; 3; 4] false true]).
  { clear -E. vm_compute in E. injection E as <-. by vm_compute. }
  destruct Hs as [S1 S2]. destruct (H ltac:(by rewrite S1) 1000 1000 demo_conn demo_sent) as (v0 & v & E0 & Ev & _ & He & _).
  { clear -S2. unfold demo_sent. repeat (apply Forall_cons; split); try apply Forall_nil; unfold from_sender; rewrite ?S2; try done;
      rewrite !elem_of_cons; tauto. }
  unfold demo_run. rewrite E0. cbn [mbind option_bind]. rewrite Ev.
  assert (P : (bytes v, EOF) ∈ errors v).
  { clear -E0 Ev. vm_compute in E0. injection E0 as <-. vm_compute in Ev. injection Ev as <-. cbn. by left. }
  split; [by apply (He _ P)|exact P].
Defined.

(** ** What is lost *)

(** A stream cancelled here, then reset by the peer with a part that was to be
    delivered: it is completed, and the credit of the bytes that were not read is not
    given back, to the stream or to the connection; no further operation does so. *)
Definition demo_reset : list act :=
  [RFrame (mkStreamFrame 4 0 [0; 1; 2; 3] false true) 1 0; RCancel 7; RReset (mkResetStreamFrame 4 9 4 2) 0].

Lemma credit_lost_after_cancel :
  match demo_run demo_reset with
  | Some w => broken w = false ∧ reported w = 1%nat ∧ completed (rcv w) = true ∧ highest (rcv w) = 4 ∧ credited (rcv w) = 0 ∧
      highestReceived (recv (rconn w)) = 4 ∧ bytesRead (recv (rconn w)) = 0
  | None => False
  end.
Proof. by vm_compute. Qed.
