(* ===== verification/RttStats.v ===== *)
(** * Round-trip statistics ([quic-go/internal/utils/rtt_stats.go])

    The smoothed round-trip time is computed in single precision on microseconds. *)

From Stdlib Require Import ZArith Lia Bool.
From stdpp Require Import base.
From S2P Require Import Prelude.
From S2P Require Import GoFloat.

Open Scope Z_scope.

(** ** Single precision *)

(** Round [m * 2^e] to 24 bits, to nearest, ties to even. *)
Definition round24 (m e : Z) : float64 :=
  if m <? 2 ^ 24 then F64 m e
  else
    let s := Z.log2 m - 23 in
    let q := m / 2 ^ s in
    let r := m mod 2 ^ s in
    let up := (2 ^ s <? 2 * r) || ((2 ^ s =? 2 * r) && Z.odd q) in
    F64 (if up then q + 1 else q) (e + s).

Definition float32_of_int (n : Z) : float64 := round24 n 0.
Definition fmul32 (a b : float64) : float64 := round24 (significand a * significand b) (exponent a + exponent b).
Definition fadd32 (a b : float64) : float64 :=
  let e := Z.min (exponent a) (exponent b) in
  round24 (significand a * 2 ^ (exponent a - e) + significand b * 2 ^ (exponent b - e)) e.

Definition rttAlpha : float64 := F64 1 (-3).
Definition oneMinusAlpha : float64 := F64 7 (-3).
Definition rttBeta : float64 := F64 1 (-2).
Definition oneMinusBeta : float64 := F64 3 (-2).

(** ** The statistics *)

Definition microsecond : duration := 1000.
Definition DefaultInitialRTT : duration := 100 * millisecond.
Definition TimerGranularity : duration := millisecond.

Record RTTStats := mkRTT {
  hasMeasurement : bool;
  minRTT : duration;
  latestRTT : duration;
  smoothedRTT : duration;
  meanDeviation : duration;
  maxAckDelay : duration;
}.
#[export] Instance RTTStats_eta : Eta RTTStats := λ r,
  mkRTT (hasMeasurement r) (minRTT r) (latestRTT r) (smoothedRTT r) (meanDeviation r) (maxAckDelay r).

Definition NewRTTStats : RTTStats := mkRTT false DefaultInitialRTT DefaultInitialRTT DefaultInitialRTT 0 0.

Definition PTO (includeMaxAckDelay : bool) (r : RTTStats) : duration :=
  if negb (hasMeasurement r) then 2 * DefaultInitialRTT
  else smoothedRTT r + Z.max (4 * meanDeviation r) TimerGranularity + (if includeMaxAckDelay then maxAckDelay r else 0).

(** [b * x/µs + a * y/µs] in single precision, back in nanoseconds. *)
Definition mix (b : float64) (x : duration) (a : float64) (y : duration) : duration :=
  int_of_float (fadd32 (fmul32 b (float32_of_int (Z.quot x microsecond))) (fmul32 a (float32_of_int (Z.quot y microsecond)))) * microsecond.

Definition UpdateRTT (sendDelta ackDelay : duration) (r : RTTStats) : RTTStats :=
  if sendDelta <=? 0 then r
  else
    let r := if negb (hasMeasurement r) || (sendDelta <? minRTT r) then r <| minRTT := sendDelta |> else r in
    let sample := if ackDelay <=? sendDelta - minRTT r then sendDelta - ackDelay else sendDelta in
    let r := r <| latestRTT := sample |> in
    if negb (hasMeasurement r) then r <| hasMeasurement := true |> <| smoothedRTT := sample |> <| meanDeviation := Z.quot sample 2 |>
    else
      r <| meanDeviation := mix oneMinusBeta (meanDeviation r) rttBeta (Z.abs (smoothedRTT r - sample)) |>
        <| smoothedRTT := mix oneMinusAlpha (smoothedRTT r) rttAlpha sample |>.

Definition SetMaxAckDelay (mad : duration) (r : RTTStats) : RTTStats := r <| maxAckDelay := mad |>.

Definition SetInitialRTT (t : duration) (r : RTTStats) : RTTStats :=
  if hasMeasurement r then r else r <| smoothedRTT := t |> <| latestRTT := t |>.

Definition ResetForPathMigration (r : RTTStats) : RTTStats := mkRTT false DefaultInitialRTT DefaultInitialRTT DefaultInitialRTT 0 (maxAckDelay r).

(** ** What is kept *)

Record rtt_ok (r : RTTStats) : Prop := mkRttOk {
  rk_min : 0 < minRTT r;
  rk_latest : 0 < latestRTT r;
  rk_smoothed : 0 <= smoothedRTT r;
  rk_deviation : 0 <= meanDeviation r;
  rk_delay : 0 <= maxAckDelay r;
  rk_above : hasMeasurement r = true → minRTT r <= latestRTT r;
}.

Lemma round24_nonneg m e : 0 <= m → 0 <= significand (round24 m e).
Proof.
  intros H. unfold round24. destruct (m <? 2 ^ 24); [done|]. cbn. assert (0 <= m / 2 ^ (Z.log2 m - 23)).
  { destruct (Z.lt_ge_cases (Z.log2 m - 23) 0); [rewrite Z.pow_neg_r by done; by rewrite Z.div_0_r|apply Z.div_pos; [done|apply Z.pow_pos_nonneg; lia]]. }
  destruct (_ || _); lia.
Qed.

Lemma int_of_float_nonneg a : 0 <= significand a → 0 <= int_of_float a.
Proof.
  intros H. unfold int_of_float. destruct (Z.leb_spec 0 (exponent a)); [apply Z.mul_nonneg_nonneg; [done|apply Z.pow_nonneg; lia]|].
  apply Z.div_pos; [done|apply Z.pow_pos_nonneg; lia].
Qed.

Lemma mix_nonneg b x a y : 0 <= significand b → 0 <= significand a → 0 <= x → 0 <= y → 0 <= mix b x a y.
Proof.
  intros Hb Ha Hx Hy. unfold mix. apply Z.mul_nonneg_nonneg; [|done]. apply int_of_float_nonneg. unfold fadd32. apply round24_nonneg.
  assert (Hq : ∀ z, 0 <= z → 0 <= significand (float32_of_int (Z.quot z microsecond))) by (intros z Hz; apply round24_nonneg, Z.quot_pos; done).
  assert (Hm : ∀ c z, 0 <= significand c → 0 <= significand z → 0 <= significand (fmul32 c z)) by (intros c z H1 H2; apply round24_nonneg; by apply Z.mul_nonneg_nonneg).
  apply Z.add_nonneg_nonneg; apply Z.mul_nonneg_nonneg; auto; apply Z.pow_nonneg; lia.
Qed.

Lemma UpdateRTT_ok sendDelta ackDelay r : rtt_ok r → 0 <= ackDelay → rtt_ok (UpdateRTT sendDelta ackDelay r).
Proof.
  intros [H1 H2 H3 H4 H5 H6] Ha. unfold UpdateRTT. destruct (Z.leb_spec sendDelta 0); [done|].
  set (r1 := if _ || _ then _ else _). assert (R : hasMeasurement r1 = hasMeasurement r ∧ smoothedRTT r1 = smoothedRTT r ∧ meanDeviation r1 = meanDeviation r ∧
    maxAckDelay r1 = maxAckDelay r ∧ 0 < minRTT r1 <= sendDelta).
  { subst r1. destruct (negb (hasMeasurement r)); cbn [orb]; [by split_and!|]. destruct (Z.ltb_spec sendDelta (minRTT r)); by split_and!. }
  destruct R as (R1 & R2 & R3 & R4 & R5). clearbody r1. set (sample := if _ <=? _ then _ else _).
  assert (S : minRTT r1 <= sample) by (subst sample; destruct (Z.leb_spec ackDelay (sendDelta - minRTT r1)); lia). clearbody sample.
  destruct (negb _).
  - split; cbn; try lia. apply Z.quot_pos; lia.
  - split; cbn; rewrite ?R2, ?R3, ?R4; try lia; apply mix_nonneg; try done; lia.
Qed.

(** A probe timeout is never zero. *)
Lemma PTO_pos b r : rtt_ok r → TimerGranularity <= PTO b r.
Proof. intros [H1 H2 H3 H4 H5 H6]. unfold PTO, DefaultInitialRTT, TimerGranularity, millisecond. destruct (negb _); [lia|]. destruct b; lia. Qed.
