(* ===== verification/EcnTracker.v ===== *)
(** * Validation of explicit congestion notification
    ([quic-go/internal/ackhandler/ecn.go])

    The first packets are marked; the counts the peer reports decide whether the path
    carries the marks. *)

From Stdlib Require Import ZArith Lia Bool.
From stdpp Require Import base list.
From S2P Require Import Prelude.
From S2P Require Import GoNet.
From S2P Require Import AckHistory.

Open Scope Z_scope.
Open Scope list_scope.

Inductive ecnState := ecnStateInitial | ecnStateTesting | ecnStateUnknown | ecnStateCapable | ecnStateFailed.
#[export] Instance ecnState_eq_dec : EqDecision ecnState.
Proof. solve_decision. Defined.

(** The marking of a packet. *)
Inductive ECN := ECNUnsupported | ECNNon | MarkECT1 | MarkECT0 | MarkCE.
#[export] Instance ECN_eq_dec : EqDecision ECN.
Proof. solve_decision. Defined.

Definition numECNTestingPackets : Z := 10.

Record ecnTracker := mkEcn {
  state : ecnState;
  numSentTesting : Z;
  numLostTesting : Z;
  firstTestingPacket : Z;
  lastTestingPacket : Z;
  firstCapablePacket : Z;
  numSentECT0 : Z;
  numSentECT1 : Z;
  numAckedECT0 : Z;
  numAckedECT1 : Z;
  numAckedECNCE : Z;
}.
#[export] Instance ecnTracker_eta : Eta ecnTracker := λ e,
  mkEcn (state e) (numSentTesting e) (numLostTesting e) (firstTestingPacket e) (lastTestingPacket e) (firstCapablePacket e)
    (numSentECT0 e) (numSentECT1 e) (numAckedECT0 e) (numAckedECT1 e) (numAckedECNCE e).

Definition newECNTracker : ecnTracker := mkEcn ecnStateInitial 0 0 InvalidPacketNumber InvalidPacketNumber InvalidPacketNumber 0 0 0 0 0.

(** A test packet is counted in a byte. *)
Definition ecn_testing (pn : Z) (e : ecnTracker) : ecnTracker :=
  let e := e <| numSentTesting := wrap_u 8 (numSentTesting e + 1) |> in
  let e := if firstTestingPacket e =? InvalidPacketNumber then e <| firstTestingPacket := pn |> else e in
  if numECNTestingPackets <=? numSentECT0 e + numSentECT1 e then e <| state := ecnStateUnknown |> <| lastTestingPacket := pn |> else e.

(** After a packet was counted. *)
Definition ecn_counted (pn : Z) (e : ecnTracker) : ecnTracker :=
  let e := if bool_decide (state e = ecnStateCapable) && (firstCapablePacket e =? InvalidPacketNumber) then e <| firstCapablePacket := pn |> else e in
  if bool_decide (state e = ecnStateTesting) then ecn_testing pn e else e.

(** [None]: a panic. *)
Definition ecn_SentPacket (pn : Z) (ecn : ECN) (e : ecnTracker) : option ecnTracker :=
  match ecn with
  | ECNNon => Some e
  | MarkECT0 => Some (ecn_counted pn (e <| numSentECT0 ::= Z.add 1 |>))
  | MarkECT1 => Some (ecn_counted pn (e <| numSentECT1 ::= Z.add 1 |>))
  | ECNUnsupported => if bool_decide (state e = ecnStateFailed) then Some (ecn_counted pn e) else None
  | MarkCE => None
  end.

Definition ecn_Mode (e : ecnTracker) : ecnTracker * ECN :=
  match state e with
  | ecnStateInitial => (e <| state := ecnStateTesting |>, MarkECT0)
  | ecnStateTesting | ecnStateCapable => (e, MarkECT0)
  | ecnStateUnknown | ecnStateFailed => (e, ECNNon)
  end.

Definition isTestingPacket (pn : Z) (e : ecnTracker) : bool :=
  if firstTestingPacket e =? InvalidPacketNumber then false
  else (firstTestingPacket e <=? pn) && ((pn <=? lastTestingPacket e) || (lastTestingPacket e =? InvalidPacketNumber)).

Definition failIfMangled (e : ecnTracker) : ecnTracker :=
  if numAckedECNCE e + numLostTesting e <? numSentECT0 e + numSentECT1 e then e else e <| state := ecnStateFailed |>.

Definition ecn_LostPacket (pn : Z) (e : ecnTracker) : ecnTracker :=
  if negb (bool_decide (state e = ecnStateTesting)) && negb (bool_decide (state e = ecnStateUnknown)) then e
  else if negb (isTestingPacket pn e) then e
  else
    let e := e <| numLostTesting := wrap_u 8 (numLostTesting e + 1) |> in
    if negb (bool_decide (state e = ecnStateUnknown)) then e
    else if numSentTesting e <=? numLostTesting e then e <| state := ecnStateFailed |>
    else failIfMangled e.

Definition ecnMarking (pn : Z) (e : ecnTracker) : ECN :=
  if (pn <? firstTestingPacket e) || (firstTestingPacket e =? InvalidPacketNumber) then ECNNon
  else if (pn <? lastTestingPacket e) || (lastTestingPacket e =? InvalidPacketNumber) then MarkECT0
  else if (pn <? firstCapablePacket e) || (firstCapablePacket e =? InvalidPacketNumber) then ECNNon
  else MarkECT0.

Definition marked_as (m : ECN) (pns : list Z) (e : ecnTracker) : Z := Z.of_nat (length (filter (λ pn, ecnMarking pn e = m) pns)).

(** [HandleNewlyAcked]; [pns]: the packets newly acknowledged. Whether the path is congested. *)
Definition HandleNewlyAcked (pns : list Z) (ect0 ect1 ecnce : Z) (e : ecnTracker) : ecnTracker * bool :=
  let failed := (e <| state := ecnStateFailed |>, false) in
  if bool_decide (state e = ecnStateFailed) then (e, false)
  else if (numSentECT0 e <? ect0) || (numSentECT1 e <? ect1) then failed
  else
    let ackedECT0 := marked_as MarkECT0 pns e in
    let ackedECT1 := marked_as MarkECT1 pns e in
    if ((0 <? ackedECT0) || (0 <? ackedECT1)) && (ect0 =? 0) && (ect1 =? 0) && (ecnce =? 0) then failed
    else
      let newECT0 := ect0 - numAckedECT0 e in
      let newECT1 := ect1 - numAckedECT1 e in
      let newECNCE := ecnce - numAckedECNCE e in
      if (newECT0 <? 0) || (newECT1 <? 0) || (newECNCE <? 0) then failed
      else if newECT0 + newECNCE <? ackedECT0 then failed
      else if newECT1 + newECNCE <? ackedECT1 then failed
      else
        let e := e <| numAckedECT0 := ect0 |> <| numAckedECT1 := ect1 |> <| numAckedECNCE := ecnce |> in
        let e := if bool_decide (state e = ecnStateUnknown) then failIfMangled e else e in
        if bool_decide (state e = ecnStateFailed) then (e, false)
        else
          let testing := bool_decide (state e = ecnStateTesting) || bool_decide (state e = ecnStateUnknown) in
          let e := if testing && existsb (λ pn, isTestingPacket pn e) pns && ((0 <? newECT0) || (0 <? newECT1)) then e <| state := ecnStateCapable |> else e in
          (e, bool_decide (state e = ecnStateCapable) && (0 <? newECNCE)).

(** ** The last packet of the test *)

(** It was sent with a mark and counts as a test packet, but its acknowledgement counts
    as that of an unmarked one: nothing is missed when the peer does not report the mark. *)
Lemma last_test_packet_unmarked pn e : 0 <= firstTestingPacket e <= pn → lastTestingPacket e = pn → pn < firstCapablePacket e ∨ firstCapablePacket e = InvalidPacketNumber →
  isTestingPacket pn e = true ∧ ecnMarking pn e = ECNNon.
Proof.
  intros Hf Hl Hc. unfold isTestingPacket, ecnMarking. rewrite Hl. unfold InvalidPacketNumber in *. destruct (Z.eqb_spec (firstTestingPacket e) (-1)); [lia|]. split.
  - rewrite (proj2 (Z.leb_le _ _)), Z.leb_refl by lia. done.
  - rewrite (proj2 (Z.ltb_ge _ _)), Z.ltb_irrefl by lia. cbn [orb]. destruct (Z.eqb_spec pn (-1)); [lia|]. cbn.
    destruct Hc as [Hc| ->]; [by rewrite (proj2 (Z.ltb_lt _ _) Hc)|]. by rewrite orb_true_r.
Qed.

(** The tenth packet of a test. *)
Example test_of_ten : (λ e, (state e, lastTestingPacket e, numSentECT0 e, map (λ pn, ecnMarking pn e) [0; 8; 9])) <$>
  foldl (λ e pn, e ← e; ecn_SentPacket pn MarkECT0 (ecn_Mode e).1) (Some newECNTracker) [0; 1; 2; 3; 4; 5; 6; 7; 8; 9] =
  Some (ecnStateUnknown, 9, 10, [MarkECT0; MarkECT0; ECNNon]).
Proof. vm_compute. reflexivity. Qed.
