(* ===== verification/SentHistory.v ===== *)
(** * The packets sent and not yet settled
    ([quic-go/internal/ackhandler/sent_packet_history.go], [packet.go],
    [packet_number_generator.go], [lost_packet_tracker.go])

    The history of one packet number space: the packets by number, with holes for
    numbers that were skipped and packets that are settled; the probes of other
    paths, kept apart; the generator of packet numbers, which leaves numbers out to
    catch a peer that acknowledges what it did not get; and the memory of packets
    declared lost. *)

From Stdlib Require Import ZArith Lia Bool.
From stdpp Require Import base list.
From S2P Require Import Prelude.
From S2P Require Import GoNet.
From S2P Require Import Wire.
From S2P Require Import WireFrames.
From S2P Require Import AckHistory.
From S2P Require Import AckTracker.

Open Scope Z_scope.
Open Scope list_scope.

(** ** Packets *)

(** A frame in a packet, and whether it has a handler that hears of its fate. *)
Inductive sent_frame := SentStream (f : StreamFrame) (handled : bool) | SentControl (f : Frame) (handled : bool).

Definition handled (f : sent_frame) : bool := match f with SentStream _ h | SentControl _ h => h end.

(** [Frames] of the source first, then [StreamFrames]: the order in which both are
    always gone through. *)
Record packet := mkPacket {
  SendTime : time;
  sent_frames : list sent_frame;
  p_LargestAcked : Z;
  p_Length : Z;
  p_level : EncryptionLevel;
  IsPathMTUProbePacket : bool;
  includedInBytesInFlight : bool;
  isPathProbePacket : bool;
}.
#[export] Instance packet_eta : Eta packet := λ p,
  mkPacket (SendTime p) (sent_frames p) (p_LargestAcked p) (p_Length p) (p_level p) (IsPathMTUProbePacket p) (includedInBytesInFlight p) (isPathProbePacket p).

Definition IsAckEliciting (p : packet) : bool := negb (bool_decide (sent_frames p = [])).
Definition Outstanding (p : packet) : bool := negb (IsPathMTUProbePacket p) && negb (isPathProbePacket p) && IsAckEliciting p.

(** [&packet{isPathProbePacket: true}]. *)
Definition probe_place : packet := mkPacket 0 [] 0 0 EncryptionInitial false false true.

(** ** Packet numbers *)

(** [rnd]: the result of [Int31n]. *)
Inductive packetNumberGenerator :=
| Sequential (next : Z)
| Skipping (period maxPeriod next nextToSkip : Z).

Definition SkipPacketInitialPeriod : Z := 256.
Definition SkipPacketMaxPeriod : Z := 128 * 1024.

Definition generateNewSkip (rnd period maxPeriod next : Z) : packetNumberGenerator :=
  Skipping (Z.min (2 * period) maxPeriod) maxPeriod next (next + 3 + rnd).

Definition newSkippingPacketNumberGenerator (rnd initial initialPeriod maxPeriod : Z) : packetNumberGenerator :=
  generateNewSkip rnd initialPeriod maxPeriod initial.

Definition gen_Peek (g : packetNumberGenerator) : Z :=
  match g with
  | Sequential next => next
  | Skipping _ _ next nextToSkip => if next =? nextToSkip then next + 1 else next
  end.

(** Whether the number before was left out, and the number. *)
Definition gen_Pop (rnd : Z) (g : packetNumberGenerator) : packetNumberGenerator * bool * Z :=
  match g with
  | Sequential next => (Sequential (next + 1), false, next)
  | Skipping period maxPeriod next nextToSkip =>
      if next =? nextToSkip then (generateNewSkip rnd period maxPeriod (next + 2), true, next + 1)
      else (Skipping period maxPeriod (next + 1) nextToSkip, false, next)
  end.

(** ** The history *)

Definition maxSkippedPackets : nat := 4.

Record sentPacketHistory := mkSentHistory {
  packets : list (option packet);
  pathProbePackets : list (Z * packet);
  skippedPackets : list Z;
  numOutstanding : Z;
  firstPacketNumber : Z;
  highestPacketNumber : Z;
}.
#[export] Instance sentPacketHistory_eta : Eta sentPacketHistory := λ h,
  mkSentHistory (packets h) (pathProbePackets h) (skippedPackets h) (numOutstanding h) (firstPacketNumber h) (highestPacketNumber h).

Definition newSentPacketHistory : sentPacketHistory := mkSentHistory [] [] [] 0 InvalidPacketNumber InvalidPacketNumber.

(** [None]: a panic, here and below. *)
Definition checkSequentialPacketNumberUse (pn : Z) (h : sentPacketHistory) : option sentPacketHistory :=
  if negb (highestPacketNumber h =? InvalidPacketNumber) && negb (pn =? highestPacketNumber h + 1) then None
  else
    let h := h <| highestPacketNumber := pn |> in
    Some (match packets h with [] => h <| firstPacketNumber := pn |> | _ => h end).

Definition SkippedPacket (pn : Z) (h : sentPacketHistory) : option sentPacketHistory :=
  h ← checkSequentialPacketNumberUse pn h;
  let h := match packets h with [] => h | l => h <| packets := l ++ [None] |> end in
  let skipped := if (length (skippedPackets h) =? maxSkippedPackets)%nat then drop 1 (skippedPackets h) else skippedPackets h in
  Some (h <| skippedPackets := skipped ++ [pn] |>).

Definition hist_SentPacket (pn : Z) (p : packet) (h : sentPacketHistory) : option sentPacketHistory :=
  h ← checkSequentialPacketNumberUse pn h;
  let h := h <| packets ::= λ l, l ++ [Some p] |> in
  Some (if Outstanding p then h <| numOutstanding ::= Z.add 1 |> else h).

Definition SentPathProbePacket (pn : Z) (p : packet) (h : sentPacketHistory) : option sentPacketHistory :=
  h ← checkSequentialPacketNumberUse pn h;
  Some (h <| packets ::= λ l, l ++ [Some probe_place] |> <| pathProbePackets ::= λ l, l ++ [(pn, p)] |>).

(** The packets with their numbers. The loops over them remove only the packet they
    are at, so they see the history as it was when they began. *)
Fixpoint numbered (pn : Z) (l : list (option packet)) : list (Z * packet) :=
  match l with
  | [] => []
  | Some p :: l => (pn, p) :: numbered (pn + 1) l
  | None :: l => numbered (pn + 1) l
  end.
Definition Packets (h : sentPacketHistory) : list (Z * packet) := numbered (firstPacketNumber h) (packets h).

Definition HasOutstandingPackets (h : sentPacketHistory) : bool := 0 <? numOutstanding h.
Definition HasOutstandingPathProbes (h : sentPacketHistory) : bool := negb (bool_decide (pathProbePackets h = [])).

Definition FirstOutstanding (h : sentPacketHistory) : option (Z * packet) :=
  if negb (HasOutstandingPackets h) then None else List.find (λ x, Outstanding x.2) (Packets h).

Definition FirstOutstandingPathProbe (h : sentPacketHistory) : option (Z * packet) := head (pathProbePackets h).

Definition Len (h : sentPacketHistory) : Z := size (packets h).

Definition getIndex (p : Z) (h : sentPacketHistory) : option nat :=
  match packets h with
  | [] => None
  | _ =>
      if p <? firstPacketNumber h then None
      else if size (packets h) - 1 <? p - firstPacketNumber h then None
      else Some (Z.to_nat (p - firstPacketNumber h))
  end.

(** The holes at the beginning of a slice. *)
Fixpoint holes (l : list (option packet)) : nat := match l with None :: l => S (holes l) | _ => O end.

Definition cleanupStart (h : sentPacketHistory) : sentPacketHistory :=
  match drop (holes (packets h)) (packets h) with
  | [] => h <| packets := [] |> <| firstPacketNumber := InvalidPacketNumber |>
  | l => h <| packets := l |> <| firstPacketNumber ::= Z.add (Z.of_nat (holes (packets h))) |>
  end.

(** A packet leaves the count. *)
Definition uncount (p : packet) (h : sentPacketHistory) : option sentPacketHistory :=
  if Outstanding p then
    let h := h <| numOutstanding ::= Z.add (-1) |> in if numOutstanding h <? 0 then None else Some h
  else Some h.

(** The second [None]: the packet is not in the history. *)
Definition Remove (pn : Z) (h : sentPacketHistory) : option (option sentPacketHistory) :=
  match getIndex pn h with
  | None => Some None
  | Some idx =>
      p ← packets h !! idx ≫= id;
      h ← uncount p h;
      let h := h <| packets ::= <[idx := None]> |> in
      let hasPacketBefore := bool_decide (holes (packets h) < idx)%nat in
      let h := if hasPacketBefore then h else cleanupStart h in
      match packets h with None :: _ => None | _ => Some (Some h) end
  end.

Definition DeclareLost (pn : Z) (h : sentPacketHistory) : option sentPacketHistory :=
  match getIndex pn h with
  | None => Some h
  | Some idx =>
      p ← packets h !! idx ≫= id;
      h ← uncount p h;
      let h := h <| packets ::= <[idx := None]> |> in
      Some (if (idx =? 0)%nat then cleanupStart h else h)
  end.

(** The probe with a number, and the others. *)
Fixpoint take_probe (pn : Z) (l : list (Z * packet)) : option packet * list (Z * packet) :=
  match l with
  | [] => (None, [])
  | (n, p) :: l => if n =? pn then (Some p, l) else let '(r, l) := take_probe pn l in (r, (n, p) :: l)
  end.

Definition RemovePathProbe (pn : Z) (h : sentPacketHistory) : sentPacketHistory * option packet :=
  let '(r, l) := take_probe pn (pathProbePackets h) in (h <| pathProbePackets := l |>, r).

(** How many packets were sent after [b], up to [a]. *)
Definition Difference (a b : Z) (h : sentPacketHistory) : Z :=
  let diff := a - b in
  match skippedPackets h with
  | [] => diff
  | first :: _ =>
      if (a <? first) || (default first (last (skippedPackets h)) <? b) then diff
      else diff - size (filter (λ p, (b <? p) && (p <? a) = true) (skippedPackets h))
  end.

(** ** Packets declared lost *)

Definition lostPacketTracker : Type := list (Z * time).
Definition lost_maxLength : nat := 64.

Definition lost_Add (pn : Z) (sendTime : time) (t : lostPacketTracker) : lostPacketTracker :=
  (if (length t =? lost_maxLength)%nat then drop 1 t else t) ++ [(pn, sendTime)].

Definition lost_Delete (pn : Z) (t : lostPacketTracker) : lostPacketTracker := filter (λ x, x.1 ≠ pn) t.

Fixpoint lost_DeleteBefore (ti : time) (t : lostPacketTracker) : lostPacketTracker :=
  match t with
  | [] => []
  | x :: rest => if x.2 <? ti then lost_DeleteBefore ti rest else t
  end.
