(* ===== verification/SentHistInv.v ===== *)
(** * The history of sent packets keeps its shape
    ([quic-go/internal/ackhandler/sent_packet_history.go])

    No hole at the front, numbers without gaps up to the highest one used, a count
    that is right; what a packet's removal does to the packets that remain. *)

From Stdlib Require Import ZArith Lia Bool.
From stdpp Require Import base list.
From S2P Require Import Prelude.
From S2P Require Import GoNet.
From S2P Require Import Wire.
From S2P Require Import WireFrames.
From S2P Require Import AckHistory.
From S2P Require Import AckTracker.
From S2P Require Import SentHistory.

Open Scope Z_scope.
Open Scope list_scope.

(** Arithmetic over lengths. *)
Ltac size_lia := unfold size in *; repeat (rewrite ?length_app, ?length_insert in *; progress cbn [length] in * ); rewrite ?length_app, ?length_insert in *; lia.

(** ** Numbered packets *)

Lemma elem_numbered n p : ∀ l b, (n, p) ∈ numbered b l ↔ b <= n ∧ l !! Z.to_nat (n - b) = Some (Some p).
Proof.
  induction l as [|x l IH]; intros b; cbn [numbered].
  - rewrite lookup_nil. split; [intros []%elem_of_nil|by intros [_ ?]].
  - assert (R : (n, p) ∈ numbered (b + 1) l ↔ b < n ∧ (x :: l) !! Z.to_nat (n - b) = Some (Some p)).
    { rewrite IH. split; intros [H1 H2]; (split; [lia|]); replace (Z.to_nat (n - b)) with (S (Z.to_nat (n - (b + 1)))) in * by lia; done. }
    destruct x as [q|]; [rewrite elem_of_cons|]; rewrite R.
    + split.
      * intros [[= -> ->]|[? ?]]; [|by split; [lia|]]. split; [lia|]. by replace (Z.to_nat (b - b)) with 0%nat by lia.
      * intros [H1 H2]. destruct (decide (n = b)) as [->|]; [|right; split; [lia|done]].
        replace (Z.to_nat (b - b)) with 0%nat in H2 by lia. left. cbn in H2. by simplify_eq.
    + split; [intros [? ?]; by split; [lia|]|]. intros [H1 H2]. split; [|done].
      destruct (decide (n = b)) as [->|]; [|lia]. by replace (Z.to_nat (b - b)) with 0%nat in H2 by lia.
Qed.

Lemma numbered_above l : ∀ b x, x ∈ numbered b l → b <= x.1 < b + size l.
Proof.
  intros b [n p] H%elem_numbered. destruct H as [H1 H2]. apply lookup_lt_Some in H2. cbn [fst]. size_lia.
Qed.

(** The numbers rise. *)
Definition rising (ps : list (Z * packet)) : Prop := ∀ i j x y, (i < j)%nat → ps !! i = Some x → ps !! j = Some y → x.1 < y.1.

Lemma rising_cons x ps : rising (x :: ps) ↔ (∀ y, y ∈ ps → x.1 < y.1) ∧ rising ps.
Proof.
  split.
  - intros H. split.
    + intros y [i Hi]%list_elem_of_lookup. by apply (H 0%nat (S i)); [lia|..].
    + intros i j a b Hij Ha Hb. by apply (H (S i) (S j)); [lia|..].
  - intros [H1 H2] [|i] [|j] a b Hij Ha Hb; try lia; cbn in *.
    + simplify_eq. apply H1. by eapply list_elem_of_lookup_2.
    + by apply (H2 i j); [lia|..].
Qed.

Lemma rising_nil : rising [].
Proof. by intros i j x y _ H. Qed.

Lemma numbered_rising l : ∀ b, rising (numbered b l).
Proof.
  induction l as [|[p|] l IH]; intros b; cbn [numbered]; [apply rising_nil| |apply IH].
  apply rising_cons. split; [|apply IH]. intros y Hy%numbered_above. cbn. lia.
Qed.

Lemma rising_filter (P : Z * packet → Prop) `{∀ x, Decision (P x)} ps : rising ps → rising (filter P ps).
Proof.
  induction ps as [|x ps IH]; intros H1; [done|]. apply rising_cons in H1 as [H1 H2].
  rewrite filter_cons. destruct (decide (P x)); [|by apply IH].
  apply rising_cons. split; [|by apply IH]. intros y [_ Hy]%list_elem_of_filter. by apply H1.
Qed.

Lemma rising_NoDup ps : rising ps → NoDup ps.*1.
Proof.
  induction ps as [|x ps IH]; intros H; [constructor|]. apply rising_cons in H as [H1 H2]. cbn. constructor; [|by apply IH].
  intros [y [Hy Hin]]%list_elem_of_fmap. specialize (H1 y Hin). lia.
Qed.

(** Numbers are had once. *)
Lemma rising_inj ps x y : rising ps → x ∈ ps → y ∈ ps → x.1 = y.1 → x = y.
Proof.
  intros H [i Hi]%list_elem_of_lookup [j Hj]%list_elem_of_lookup E. destruct (Nat.lt_total i j) as [L|[->|L]]; [|congruence|].
  - specialize (H _ _ _ _ L Hi Hj). lia.
  - specialize (H _ _ _ _ L Hj Hi). lia.
Qed.

Lemma filter_same {A} (P Q : A → Prop) `{∀ x, Decision (P x), ∀ x, Decision (Q x)} (l : list A) : (∀ x, x ∈ l → P x ↔ Q x) → filter P l = filter Q l.
Proof.
  induction l as [|x l IH]; intros H1; [done|]. rewrite !filter_cons, IH by (intros y Hy; apply H1; by right).
  specialize (H1 x ltac:(left)). destruct (decide (P x)), (decide (Q x)); tauto.
Qed.

Lemma filter_none {A} (P : A → Prop) `{∀ x, Decision (P x)} (l : list A) : (∀ x, x ∈ l → ¬ P x) → filter P l = [].
Proof.
  induction l as [|x l IH]; intros H1; [done|]. rewrite filter_cons, decide_False by (apply H1; left). apply IH. intros y Hy. apply H1. by right.
Qed.

Lemma numbered_app l1 : ∀ b l2, numbered b (l1 ++ l2) = numbered b l1 ++ numbered (b + size l1) l2.
Proof.
  induction l1 as [|[p|] l1 IH]; intros b l2; cbn [numbered Datatypes.app].
  - by rewrite Z.add_0_r.
  - rewrite IH. cbn. do 3 f_equal. size_lia.
  - rewrite IH. do 2 f_equal. size_lia.
Qed.

(** Making a hole takes the packet away. *)
Lemma numbered_hole l : ∀ b i p, l !! i = Some (Some p) → numbered b (<[i := None]> l) = filter (λ x, x.1 ≠ b + Z.of_nat i) (numbered b l).
Proof.
  intros b i p H. rewrite insert_take_drop by (by eapply lookup_lt_Some).
  rewrite <- (take_drop_middle _ _ _ H) at 3. rewrite !numbered_app, filter_app. cbn [numbered].
  assert (L : size (take i l) = Z.of_nat i) by (unfold size; rewrite length_take; apply lookup_lt_Some in H; lia). rewrite !L.
  rewrite filter_cons, decide_False by (cbn; congruence). f_equal.
  - symmetry. apply filter_all. intros x Hx%numbered_above. lia.
  - symmetry. apply filter_all. intros x Hx%numbered_above. lia.
Qed.

Lemma holes_numbered l b : numbered (b + Z.of_nat (holes l)) (drop (holes l) l) = numbered b l.
Proof.
  revert b. induction l as [|[p|] l IH]; intros b; [done|cbn; by rewrite Z.add_0_r|].
  cbn [holes drop numbered]. rewrite <- IH. f_equal. lia.
Qed.

Lemma drop_holes_head l : head (drop (holes l) l) ≠ Some None.
Proof. by induction l as [|[p|] l IH]. Qed.

Lemma holes_le l : (holes l <= length l)%nat.
Proof. induction l as [|[p|] l IH]; cbn; lia. Qed.

Lemma holes_0 l : head l ≠ Some None → holes l = 0%nat.
Proof. by destruct l as [|[p|] l]. Qed.

(** ** The shape *)

Definition outstanding_in_list (ps : list (Z * packet)) : Z := size (filter (λ x, Outstanding x.2 = true) ps).

Lemma outstanding_cons x ps : outstanding_in_list (x :: ps) = (if Outstanding x.2 then 1 else 0) + outstanding_in_list ps.
Proof.
  unfold outstanding_in_list, size. rewrite filter_cons. destruct (decide _) as [->|H]; cbn [length]; [lia|]. by destruct (Outstanding x.2).
Qed.

Lemma outstanding_app ps qs : outstanding_in_list (ps ++ qs) = outstanding_in_list ps + outstanding_in_list qs.
Proof. induction ps as [|x ps IH]; [done|]. cbn [Datatypes.app]. rewrite !outstanding_cons, IH. lia. Qed.

#[export] Instance outstanding_perm : Proper ((≡ₚ) ==> (=)) outstanding_in_list.
Proof. intros ps qs H. unfold outstanding_in_list, size. by rewrite H. Qed.

Record hist_ok (h : sentPacketHistory) : Prop := mkHistOk {
  ho_head : head (packets h) ≠ Some None;
  ho_first : packets h ≠ [] → 0 <= firstPacketNumber h;
  ho_span : packets h ≠ [] → firstPacketNumber h + size (packets h) = highestPacketNumber h + 1;
  ho_count : numOutstanding h = outstanding_in_list (Packets h);
}.

Lemma new_hist_ok : hist_ok newSentPacketHistory.
Proof. by split. Qed.

Lemma Packets_rising h : rising (Packets h).
Proof. apply numbered_rising. Qed.

Lemma Packets_NoDup h : NoDup (Packets h).*1.
Proof. apply rising_NoDup, Packets_rising. Qed.

(** The next number that may be used. *)
Definition next_number (pn : Z) (h : sentPacketHistory) : Prop :=
  0 <= pn ∧ (highestPacketNumber h = InvalidPacketNumber ∨ pn = highestPacketNumber h + 1).

Lemma check_next pn h : hist_ok h → next_number pn h → ∃ h', checkSequentialPacketNumberUse pn h = Some h' ∧
  packets h' = packets h ∧ pathProbePackets h' = pathProbePackets h ∧ skippedPackets h' = skippedPackets h ∧ numOutstanding h' = numOutstanding h ∧
  highestPacketNumber h' = pn ∧ firstPacketNumber h' = (match packets h with [] => pn | _ => firstPacketNumber h end) ∧ Packets h' = Packets h ∧
  (packets h ≠ [] → firstPacketNumber h + size (packets h) = pn).
Proof.
  intros [H1 H2 H3 H4] [Hp Hn]. unfold checkSequentialPacketNumberUse.
  assert (G : negb (highestPacketNumber h =? InvalidPacketNumber) && negb (pn =? highestPacketNumber h + 1) = false).
  { destruct Hn as [-> | ->]; [done|]. rewrite Z.eqb_refl. apply andb_false_r. }
  rewrite G. eexists. split; [done|].
  assert (B : packets h ≠ [] → firstPacketNumber h + size (packets h) = pn).
  { intros Hne. specialize (H2 Hne). specialize (H3 Hne). destruct (packets h); [done|]. cbn in H3.
    destruct Hn as [Hn|Hn]; unfold InvalidPacketNumber in *; size_lia. }
  unfold Packets. destruct (packets h) eqn:E; cbn; rewrite E; split_and!; done.
Qed.

Lemma sent_ok pn p h : hist_ok h → next_number pn h → ∃ h', hist_SentPacket pn p h = Some h' ∧ hist_ok h' ∧
  Packets h' = Packets h ++ [(pn, p)] ∧ pathProbePackets h' = pathProbePackets h ∧ skippedPackets h' = skippedPackets h ∧ highestPacketNumber h' = pn.
Proof.
  intros Hok Hn. destruct (check_next _ _ Hok Hn) as (h1 & E & E1 & E2 & E3 & E4 & E5 & E6 & E7 & E8).
  unfold hist_SentPacket. rewrite E. cbn [mbind option_bind].
  set (h2 := h1 <| packets ::= λ l, l ++ [Some p] |>).
  assert (P : Packets h2 = Packets h ++ [(pn, p)]).
  { unfold Packets, h2. cbn. rewrite E1, E6, numbered_app. destruct (packets h) as [|x l] eqn:El; [cbn; by rewrite Z.add_0_r|].
    f_equal. cbn [numbered]. by rewrite E8. }
  destruct Hok as [H1 H2 H3 H4]. destruct Hn as [Hp Hn].
  assert (S : head (packets h2) ≠ Some None ∧ 0 <= firstPacketNumber h2 ∧ firstPacketNumber h2 + size (packets h2) = pn + 1).
  { unfold h2. cbn. rewrite E1, E6. destruct (packets h) as [|x l] eqn:El; [cbn; split_and!; [done|lia|size_lia]|].
    split_and!; [done|by apply H2|]. rewrite <- (E8 ltac:(done)). size_lia. }
  destruct S as (S1 & S2 & S3).
  assert (C : outstanding_in_list (Packets h2) = numOutstanding h + (if Outstanding p then 1 else 0)).
  { rewrite P, H4. rewrite outstanding_app, outstanding_cons. cbn [snd]. change (outstanding_in_list []) with 0. lia. }
  eexists. split; [done|].
  assert (Hh : highestPacketNumber h2 = pn) by done. assert (N : numOutstanding h2 = numOutstanding h) by done.
  assert (Q : pathProbePackets h2 = pathProbePackets h ∧ skippedPackets h2 = skippedPackets h) by done. clearbody h2. destruct Q as [Q1 Q2].
  destruct (Outstanding p).
  - split_and!; try done. split; [done|done|intros _; by cbn; rewrite Hh|]. change (1 + numOutstanding h2 = outstanding_in_list (Packets h2)). lia.
  - split_and!; try done. split; [done|done|by rewrite Hh|]. lia.
Qed.

Lemma probe_sent_ok pn p h : hist_ok h → next_number pn h → ∃ h', SentPathProbePacket pn p h = Some h' ∧ hist_ok h' ∧
  Packets h' = Packets h ++ [(pn, probe_place)] ∧ pathProbePackets h' = pathProbePackets h ++ [(pn, p)] ∧ skippedPackets h' = skippedPackets h ∧ highestPacketNumber h' = pn.
Proof.
  intros Hok Hn. destruct (sent_ok pn probe_place h Hok Hn) as (h1 & E1 & O1 & P1 & Q1 & S1 & T1).
  unfold hist_SentPacket in E1. unfold SentPathProbePacket. destruct (checkSequentialPacketNumberUse pn h) as [h2|]; [|done]. cbn [mbind option_bind] in *.
  injection E1 as <-. eexists. split; [done|]. cbn in Q1, S1, T1 |- *. split_and!; [|done|by rewrite Q1|done|done].
  destruct O1 as [A B C D]. split; done.
Qed.

Lemma skipped_ok pn h : hist_ok h → next_number pn h → ∃ h', SkippedPacket pn h = Some h' ∧ hist_ok h' ∧
  Packets h' = Packets h ∧ pathProbePackets h' = pathProbePackets h ∧ highestPacketNumber h' = pn.
Proof.
  intros Hok Hn. destruct (check_next _ _ Hok Hn) as (h1 & E & E1 & E2 & E3 & E4 & E5 & E6 & E7 & E8).
  unfold SkippedPacket. rewrite E. cbn [mbind option_bind]. eexists. split; [done|]. set (h2 := match packets h1 with [] => h1 | _ => _ end).
  destruct Hok as [H1 H2 H3 H4]. destruct Hn as [Hp Hn].
  assert (P : Packets h2 = Packets h).
  { rewrite <- E7. unfold h2. destruct (packets h1) as [|x l] eqn:El; [done|].
    change (numbered (firstPacketNumber h1) ((x :: l) ++ [None]) = numbered (firstPacketNumber h1) (packets h1)).
    rewrite El, numbered_app. cbn [numbered]. by rewrite app_nil_r. }
  assert (Q : pathProbePackets h2 = pathProbePackets h ∧ highestPacketNumber h2 = pn ∧ numOutstanding h2 = numOutstanding h).
  { unfold h2. destruct (packets h1); cbn; done. }
  destruct Q as (Q1 & Q2 & Q3).
  assert (S : head (packets h2) ≠ Some None ∧ (packets h2 ≠ [] → 0 <= firstPacketNumber h2 ∧ firstPacketNumber h2 + size (packets h2) = pn + 1)).
  { unfold h2. rewrite E1. destruct (packets h) as [|x l] eqn:El; [by rewrite E1|]. cbn. rewrite E6. split; [done|]. intros _. split; [by apply H2|].
    rewrite <- (E8 ltac:(done)). size_lia. }
  clearbody h2. destruct S as [S1 S2]. split; [|done]. split; [done|intros Hx; by apply S2|intros Hx; change (firstPacketNumber h2 + size (packets h2) = highestPacketNumber h2 + 1); rewrite Q2; by apply S2|].
  change (numOutstanding h2 = outstanding_in_list (Packets h2)). by rewrite P, Q3.
Qed.

(** ** A packet leaves *)

Definition without (pn : Z) (ps : list (Z * packet)) : list (Z * packet) := filter (λ x, x.1 ≠ pn) ps.

Lemma without_perm ps pn p : NoDup ps.*1 → (pn, p) ∈ ps → ps ≡ₚ (pn, p) :: without pn ps.
Proof.
  induction ps as [|[n q] ps IH]; [by intros _ ?%elem_of_nil|]. rewrite fmap_cons. intros [H1 H2]%NoDup_cons [[= <- <-]|H]%elem_of_cons; unfold without; rewrite filter_cons; cbn [fst] in *.
  - rewrite decide_False by tauto. f_equiv. symmetry. apply reflexive_eq, filter_all. intros [m r] Hm. cbn. intros ->. apply H1. by apply list_elem_of_fmap_2' with (pn, r).
  - rewrite decide_True; [rewrite IH at 1 by done; apply Permutation_swap|]. intros ->. apply H1. by apply list_elem_of_fmap_2' with (pn, p).
Qed.

Lemma getIndex_in pn p h : (pn, p) ∈ Packets h → ∃ idx, getIndex pn h = Some idx ∧ packets h !! idx = Some (Some p) ∧ pn = firstPacketNumber h + Z.of_nat idx.
Proof.
  intros [H1 H2]%elem_numbered. exists (Z.to_nat (pn - firstPacketNumber h)). pose proof (lookup_lt_Some _ _ _ H2). unfold getIndex.
  destruct (packets h) eqn:E; [done|]. rewrite <- E in *. clear E. split_and!; [|done|lia].
  destruct (Z.ltb_spec pn (firstPacketNumber h)); [lia|]. destruct (Z.ltb_spec (size (packets h) - 1) (pn - firstPacketNumber h)); [size_lia|]. done.
Qed.

Lemma getIndex_None pn h : getIndex pn h = None → ∀ p, (pn, p) ∉ Packets h.
Proof. intros H p [idx [E _]]%getIndex_in. congruence. Qed.

Lemma count_without ps pn p : NoDup ps.*1 → (pn, p) ∈ ps → outstanding_in_list ps = outstanding_in_list (without pn ps) + (if Outstanding p then 1 else 0).
Proof.
  intros H1 H2. rewrite (without_perm _ _ _ H1 H2) at 1. rewrite outstanding_cons. cbn [snd]. lia.
Qed.

Lemma uncount_ok ps pn p h : NoDup ps.*1 → (pn, p) ∈ ps → numOutstanding h = outstanding_in_list ps →
  uncount p h = Some (h <| numOutstanding := outstanding_in_list (without pn ps) |>).
Proof.
  intros H1 H2 H3. pose proof (count_without _ _ _ H1 H2) as C. rewrite <- H3 in C. unfold uncount. assert (0 <= outstanding_in_list (without pn ps)) by (unfold outstanding_in_list, size; lia).
  destruct (Outstanding p).
  - cbn. destruct (Z.ltb_spec (-1 + numOutstanding h) 0); [lia|]. destruct h; cbn in *. do 2 f_equal. lia.
  - destruct h; cbn in *. do 2 f_equal. lia.
Qed.

Lemma cleanupStart_ok h : (packets h ≠ [] → 0 <= firstPacketNumber h) → (packets h ≠ [] → firstPacketNumber h + size (packets h) = highestPacketNumber h + 1) →
  numOutstanding h = outstanding_in_list (Packets h) →
  hist_ok (cleanupStart h) ∧ Packets (cleanupStart h) = Packets h.
Proof.
  intros H2 H3 H4. unfold cleanupStart. pose proof (holes_numbered (packets h) (firstPacketNumber h)) as N. pose proof (drop_holes_head (packets h)) as D. pose proof (holes_le (packets h)) as L.
  assert (Ln : length (drop (holes (packets h)) (packets h)) = (length (packets h) - holes (packets h))%nat) by apply length_drop.
  destruct (drop _ _) as [|x l] eqn:E.
  - assert (P : Packets h = []) by by unfold Packets; rewrite <- N. split; [|by rewrite P]. split; cbn; try done. by rewrite H4, P.
  - assert (packets h ≠ []) as Hne by (intros He; rewrite He in E; done). specialize (H2 Hne). specialize (H3 Hne).
    assert (P : Packets (h <| packets := x :: l |> <| firstPacketNumber ::= Z.add (Z.of_nat (holes (packets h))) |>) = Packets h).
    { change (numbered (Z.of_nat (holes (packets h)) + firstPacketNumber h) (x :: l) = numbered (firstPacketNumber h) (packets h)). by rewrite Z.add_comm. }
    split; [|done]. split; [done|cbn; lia| |by rewrite P]. intros _.
    change (Z.of_nat (holes (packets h)) + firstPacketNumber h + size (x :: l) = highestPacketNumber h + 1). size_lia.
Qed.

(** What is left of a history whose packet [pn] left. *)
Record left_by (pn : Z) (h h' : sentPacketHistory) : Prop := mkLeft {
  lb_ok : hist_ok h';
  lb_packets : Packets h' = without pn (Packets h);
  lb_probes : pathProbePackets h' = pathProbePackets h;
  lb_skipped : skippedPackets h' = skippedPackets h;
  lb_highest : highestPacketNumber h' = highestPacketNumber h;
}.

Lemma cleanup_same h : pathProbePackets (cleanupStart h) = pathProbePackets h ∧ skippedPackets (cleanupStart h) = skippedPackets h ∧
  highestPacketNumber (cleanupStart h) = highestPacketNumber h.
Proof. unfold cleanupStart. destruct (drop _ _); done. Qed.

(** The packet is taken out, the front not yet cleaned. *)
Lemma hole_ok pn p h : hist_ok h → (pn, p) ∈ Packets h → ∃ idx h1 h2, getIndex pn h = Some idx ∧ packets h !! idx ≫= id = Some p ∧
  uncount p h = Some h1 ∧ h2 = h1 <| packets ::= <[idx := None]> |> ∧ (left_by pn h (cleanupStart h2)) ∧
  (idx ≠ 0%nat → left_by pn h h2).
Proof.
  intros [H1 H2 H3 H4] Hin. destruct (getIndex_in _ _ _ Hin) as (idx & E1 & E2 & E3).
  set (h1 := h <| numOutstanding := outstanding_in_list (without pn (Packets h)) |>). set (h2 := h1 <| packets ::= <[idx := None]> |>).
  exists idx, h1, h2. assert (Hne : packets h ≠ []) by (intros He; by rewrite He in E2).
  assert (P : Packets h2 = without pn (Packets h)).
  { change (numbered (firstPacketNumber h) (<[idx := None]> (packets h)) = without pn (Packets h)). by rewrite (numbered_hole _ _ _ _ E2), <- E3. }
  assert (N : numOutstanding h2 = outstanding_in_list (Packets h2)) by by rewrite P.
  assert (F : packets h2 ≠ [] → 0 <= firstPacketNumber h2) by (intros _; by apply H2).
  assert (S : packets h2 ≠ [] → firstPacketNumber h2 + size (packets h2) = highestPacketNumber h2 + 1).
  { intros _. cbn. specialize (H3 Hne). size_lia. }
  assert (D : idx ≠ 0%nat → head (packets h2) ≠ Some None).
  { intros Hi. cbn. destruct (packets h) as [|x l]; [done|]. by destruct idx. }
  destruct (cleanupStart_ok h2 F S N) as [C1 C2]. destruct (cleanup_same h2) as (S1 & S2 & S3). split_and!; try done.
  - by rewrite E2.
  - apply uncount_ok; [apply Packets_NoDup|done|done].
  - split; [done|by rewrite C2|by rewrite S1|by rewrite S2|by rewrite S3].
  - intros Hi. split; [|done..]. split; [by apply D|done|done|done].
Qed.

Lemma DeclareLost_ok pn p h : hist_ok h → (pn, p) ∈ Packets h → ∃ h', DeclareLost pn h = Some h' ∧ left_by pn h h'.
Proof.
  intros Hok Hin. destruct (hole_ok _ _ _ Hok Hin) as (idx & h1 & h2 & E1 & E2 & E3 & E4 & R1 & R2).
  unfold DeclareLost. rewrite E1, E2. cbn [mbind option_bind]. rewrite E3. cbn [mbind option_bind]. eexists. split; [done|].
  subst h2. destruct (Nat.eqb_spec idx 0); [done|by apply R2].
Qed.

Lemma Remove_ok pn p h : hist_ok h → (pn, p) ∈ Packets h → ∃ h', Remove pn h = Some (Some h') ∧ left_by pn h h'.
Proof.
  intros Hok Hin. destruct (hole_ok _ _ _ Hok Hin) as (idx & h1 & h2 & E1 & E2 & E3 & E4 & R1 & R2).
  unfold Remove. rewrite E1, E2. cbn [mbind option_bind]. rewrite E3. cbn [mbind option_bind]. subst h2. set (h2 := h1 <| packets ::= <[idx := None]> |>) in *.
  set (h3 := if bool_decide _ then h2 else cleanupStart h2). assert (R : left_by pn h h3).
  { unfold h3. case_bool_decide; [apply R2; lia|done]. }
  exists h3. split; [|done]. pose proof (ho_head _ (lb_ok _ _ _ R)). destruct (packets h3) as [|[x|] l]; done.
Qed.

(** A packet that is not there cannot leave. *)
Lemma Remove_absent pn h : getIndex pn h = None → Remove pn h = Some None.
Proof. intros H. unfold Remove. by rewrite H. Qed.

(** ** Outstanding packets *)

Lemma HasOutstanding_iff h : hist_ok h → HasOutstandingPackets h = true ↔ ∃ x, x ∈ Packets h ∧ Outstanding x.2 = true.
Proof.
  intros Hok. unfold HasOutstandingPackets. rewrite (ho_count _ Hok), Z.ltb_lt. unfold outstanding_in_list, size. split.
  - intros H. destruct (filter _ _) as [|x l] eqn:E; [done|]. exists x. assert (x ∈ filter (λ x, Outstanding x.2 = true) (Packets h)) as Hx by (rewrite E; left).
    apply list_elem_of_filter in Hx. tauto.
  - intros [x [H1 H2]]. assert (x ∈ filter (λ x, Outstanding x.2 = true) (Packets h)) as Hx by by apply list_elem_of_filter.
    destruct (filter _ _); [by apply elem_of_nil in Hx|cbn; lia].
Qed.

Lemma FirstOutstanding_in h x : FirstOutstanding h = Some x → x ∈ Packets h ∧ Outstanding x.2 = true.
Proof. unfold FirstOutstanding. destruct (negb _); [done|]. intros [H1 H2]%find_some. split; [by apply list_elem_of_In|done]. Qed.
