(* ===== verification/LossDetection.v ===== *)
(** * The packets in flight: acknowledgement, loss, timers
    ([quic-go/internal/ackhandler/sent_packet_handler.go])

    Three packet number spaces, the bytes in flight, the loss detection timer. The
    congestion controller is an interface, as in the source; the handlers of the
    frames are heard through [calls], the log of what they are told. *)

From Stdlib Require Import ZArith Lia Bool.
From stdpp Require Import base list.
From S2P Require Import Prelude.
From S2P Require Import GoNet.
From S2P Require Import GoFloat.
From S2P Require Import Wire.
From S2P Require Import WireFrames.
From S2P Require Import AckHistory.
From S2P Require Import AckFrame.
From S2P Require Import AckTracker.
From S2P Require Import RttStats.
From S2P Require Import EcnTracker.
From S2P Require Import SentHistory.

Open Scope Z_scope.
Open Scope list_scope.

(** ** The congestion controller *)

(** [congestion.SendAlgorithm]; an operation may look at the round-trip statistics.
    [cc_EventEx] is [OnCongestionEventEx] of those that have it, the identity for the
    others. [cc_New] is what a new path begins with. *)
Class SendAlgorithm (CC : Type) := {
  cc_New : RTTStats → Z → CC;
  cc_OnPacketSent : RTTStats → time → Z → Z → Z → bool → CC → CC;
  cc_CanSend : Z → CC → bool;
  cc_HasPacingBudget : time → CC → bool;
  cc_TimeUntilSend : Z → CC → time;
  cc_MaybeExitSlowStart : RTTStats → CC → CC;
  cc_OnPacketAcked : RTTStats → Z → Z → Z → time → CC → CC;
  cc_OnCongestionEvent : RTTStats → Z → Z → Z → CC → CC;
  cc_EventEx : RTTStats → Z → time → list (Z * Z) → list (Z * Z) → CC → CC;
  cc_GetCongestionWindow : CC → Z;
  cc_SetMaxDatagramSize : Z → CC → CC;
}.

(** ** The state *)

Definition packetThreshold : Z := 3.
Definition timeThreshold : float64 := F64 9 (-3).
Definition amplificationFactor : Z := 3.
Definition minRTTAfterRetry : duration := 5 * millisecond.
Definition maxPTODuration : duration := 60 * second.
Definition pathProbePacketLossTimeout : duration := second.
Definition minDatagramRoomForSizing : Z := 40.
Definition MaxCongestionWindowPackets : Z := 20000.
Definition MaxOutstandingSentPackets : Z := 2 * MaxCongestionWindowPackets.
Definition MaxTrackedSentPackets : Z := Z.quot (MaxOutstandingSentPackets * 5) 4.

Record packetNumberSpace := mkSpace {
  history : sentPacketHistory;
  pns : packetNumberGenerator;
  lossTime : time;
  lastAckElicitingPacketTime : time;
  largestAcked : Z;
  largestSent : Z;
}.
#[export] Instance packetNumberSpace_eta : Eta packetNumberSpace := λ s,
  mkSpace (history s) (pns s) (lossTime s) (lastAckElicitingPacketTime s) (largestAcked s) (largestSent s).

(** [rnd]: the first packet number to skip, for application data. *)
Definition newPacketNumberSpace (rnd initialPN : Z) (isAppData : bool) : packetNumberSpace :=
  mkSpace newSentPacketHistory
    (if isAppData then newSkippingPacketNumberGenerator rnd initialPN SkipPacketInitialPeriod SkipPacketMaxPeriod else Sequential initialPN)
    0 0 InvalidPacketNumber InvalidPacketNumber.

Inductive TimerType := TimerTypeACK | TimerTypePTO | TimerTypePathProbe.

(** The zero alarm is [None]. *)
Record alarmTimer := mkAlarm { a_Time : time; a_Type : TimerType; a_level : EncryptionLevel }.

Inductive SendMode := SendNone | SendAck | SendPTOInitial | SendPTOHandshake | SendPTOAppData | SendPacingLimited | SendAny.
#[export] Instance SendMode_eq_dec : EqDecision SendMode.
Proof. solve_decision. Defined.

(** What is called: the handlers of frames, and [ignorePacketsBelow]. *)
Inductive callback := OnAcked (f : sent_frame) | OnLost (f : sent_frame) | IgnoreBelow (pn : Z).

Inductive ack_error := AckUnsent | AckSkipped (pn : Z) | AckBug | NotInHistory (pn : Z).

Record sentPacketHandler {CC : Type} := mkSentHandler {
  initialSpace : option packetNumberSpace;
  handshakeSpace : option packetNumberSpace;
  appData : packetNumberSpace;
  lostPackets : lostPacketTracker;
  largestAckedTime : time;
  peerCompletedAddressValidation : bool;
  bytesReceived : Z;
  h_bytesSent : Z;
  peerAddressValidated : bool;
  handshakeConfirmed : bool;
  ignores : bool;
  bytesInFlight : Z;
  congestion : CC;
  rttStats : RTTStats;
  ptoCount : Z;
  ptoMode : SendMode;
  numProbesToSend : Z;
  alarm : option alarmTimer;
  ecn : option ecnTracker;
  isClient : bool;
  shortPacketNumbers : bool;
  h_maxDatagramSize : Z;
  lastDatagramPadding : Z;
  lostInfo : list (Z * Z);
  calls : list callback;
}.
Arguments sentPacketHandler CC : clear implicits.
Arguments mkSentHandler {CC} _ _ _ _ _ _ _ _ _ _ _ _ _ _ _ _ _ _ _ _ _ _ _ _ _.
#[export] Instance sentPacketHandler_eta CC : Eta (sentPacketHandler CC) := λ h,
  mkSentHandler (initialSpace h) (handshakeSpace h) (appData h) (lostPackets h) (largestAckedTime h) (peerCompletedAddressValidation h)
    (bytesReceived h) (h_bytesSent h) (peerAddressValidated h) (handshakeConfirmed h) (ignores h) (bytesInFlight h) (congestion h) (rttStats h)
    (ptoCount h) (ptoMode h) (numProbesToSend h) (alarm h) (ecn h) (isClient h) (shortPacketNumbers h) (h_maxDatagramSize h)
    (lastDatagramPadding h) (lostInfo h) (calls h).

Section handler.
Context {CC : Type} `{!SendAlgorithm CC}.
Abbreviation handler := (sentPacketHandler CC).

Definition NewSentPacketHandler (rnd initialPN initialMaxDatagramSize : Z) (rtt : RTTStats) (clientAddressValidated enableECN ignoring client short : bool) : handler :=
  mkSentHandler (Some (newPacketNumberSpace 0 initialPN false)) (Some (newPacketNumberSpace 0 0 false)) (newPacketNumberSpace rnd 0 true)
    [] 0 (negb client) 0 0 (client || clientAddressValidated) false ignoring 0 (cc_New rtt initialMaxDatagramSize) rtt
    0 SendNone 0 None (if enableECN then Some newECNTracker else None) client short initialMaxDatagramSize 0 [] [].

(** [None]: the space was dropped. *)
Definition getPacketNumberSpace (l : EncryptionLevel) (h : handler) : option packetNumberSpace :=
  match l with
  | EncryptionInitial => initialSpace h
  | EncryptionHandshake => handshakeSpace h
  | Encryption0RTT | Encryption1RTT => Some (appData h)
  end.

Definition setSpace (l : EncryptionLevel) (s : packetNumberSpace) (h : handler) : handler :=
  match l with
  | EncryptionInitial => h <| initialSpace := Some s |>
  | EncryptionHandshake => h <| handshakeSpace := Some s |>
  | Encryption0RTT | Encryption1RTT => h <| appData := s |>
  end.

Definition is_1RTT (l : EncryptionLevel) : bool := match l with Encryption1RTT => true | _ => false end.
Definition is_appdata (l : EncryptionLevel) : bool := match l with Encryption1RTT | Encryption0RTT => true | _ => false end.

(** [None]: a panic, here and below. *)
Definition removeFromBytesInFlight (p : packet) (h : handler) : option handler :=
  if includedInBytesInFlight p then
    if bytesInFlight h <? p_Length p then None else Some (h <| bytesInFlight ::= λ b, b - p_Length p |>)
  else Some h.

(** Handlers are told; frames without one are forgotten. *)
Definition tell (c : sent_frame → callback) (fs : list sent_frame) (h : handler) : handler :=
  h <| calls ::= λ l, l ++ (c <$> filter (λ f, handled f = true) fs) |>.

Definition queueFramesForRetransmission (p : packet) (h : handler) : option handler :=
  match sent_frames p with [] => None | fs => Some (tell OnLost fs h) end.

(** ** The timer *)

Definition earlier (t u : time) : bool := (u =? 0) || (negb (t =? 0) && (t <? u)).

(** The conditions of the three spaces differ: the first is taken unseen, and a space
    of application data replaces a time of zero even by zero. *)
Definition getLossTimeAndSpace (h : handler) : time * EncryptionLevel :=
  let r := match initialSpace h with Some s => (lossTime s, EncryptionInitial) | None => (0, EncryptionInitial) end in
  let r := match handshakeSpace h with Some s => if earlier (lossTime s) r.1 then (lossTime s, EncryptionHandshake) else r | None => r end in
  if earlier (lossTime (appData h)) r.1 then (lossTime (appData h), Encryption1RTT) else r.

Definition getScaledPTO (includeMaxAckDelay : bool) (h : handler) : duration :=
  let pto := wrap_s 64 (Z.shiftl (PTO includeMaxAckDelay (rttStats h)) (ptoCount h)) in
  if (maxPTODuration <? pto) || (pto <=? 0) then maxPTODuration else pto.

Definition outstanding_in (s : option packetNumberSpace) : bool := match s with Some s => HasOutstandingPackets (history s) | None => false end.

Definition hasOutstandingCryptoPackets (h : handler) : bool := outstanding_in (initialSpace h) || outstanding_in (handshakeSpace h).

(** The time a space asks for, if it is armed and earlier. *)
Definition pto_of (s : option packetNumberSpace) (l : EncryptionLevel) (delay : duration) (r : time * EncryptionLevel) : time * EncryptionLevel :=
  match s with
  | Some s =>
      if HasOutstandingPackets (history s) && negb (lastAckElicitingPacketTime s =? 0) then
        let t := lastAckElicitingPacketTime s + delay in if earlier t r.1 then (t, l) else r
      else r
  | None => r
  end.

Definition getPTOTimeAndSpace (now : time) (h : handler) : time * EncryptionLevel :=
  if negb (handshakeConfirmed h) && negb (hasOutstandingCryptoPackets h) then
    if peerCompletedAddressValidation h then (0, EncryptionInitial)
    else (now + getScaledPTO false h, match initialSpace h with Some _ => EncryptionInitial | None => EncryptionHandshake end)
  else
    let r := pto_of (initialSpace h) EncryptionInitial (getScaledPTO false h) (0, EncryptionInitial) in
    let r := pto_of (handshakeSpace h) EncryptionHandshake (getScaledPTO false h) r in
    if handshakeConfirmed h then pto_of (Some (appData h)) Encryption1RTT (getScaledPTO true h) r else r.

Definition isAmplificationLimited (h : handler) : bool :=
  if peerAddressValidated h then false else amplificationFactor * bytesReceived h <=? h_bytesSent h.

Definition lossDetectionTime (now : time) (h : handler) : option alarmTimer :=
  let app := history (appData h) in
  if peerCompletedAddressValidation h && negb (hasOutstandingCryptoPackets h) && negb (HasOutstandingPackets app) && negb (HasOutstandingPathProbes app) then None
  else if isAmplificationLimited h then None
  else
    let probe := match FirstOutstandingPathProbe app with Some (_, p) => SendTime p + pathProbePacketLossTimeout | None => 0 end in
    let '(loss, l) := getLossTimeAndSpace h in
    if negb (loss =? 0) && ((probe =? 0) || (loss <? probe)) then Some (mkAlarm loss TimerTypeACK l)
    else
      let '(pto, l) := getPTOTimeAndSpace now h in
      if negb (pto =? 0) && ((probe =? 0) || (pto <? probe)) then Some (mkAlarm pto TimerTypePTO l)
      else if negb (probe =? 0) then Some (mkAlarm probe TimerTypePathProbe Encryption1RTT)
      else None.

Definition setLossDetectionTimer (now : time) (h : handler) : handler := h <| alarm := lossDetectionTime now h |>.

(** ** Sending *)

(** A space as an operation leaves it; [None] as well where it was dropped. *)
Definition in_space (l : EncryptionLevel) (f : sentPacketHistory → option sentPacketHistory) (h : handler) : option handler :=
  s ← getPacketNumberSpace l h; hist ← f (history s); Some (setSpace l (s <| history := hist |>) h).

Definition SentPacket (t : time) (pn largest : Z) (frames : list sent_frame) (l : EncryptionLevel) (mark : ECN) (size : Z)
    (isPathMTUProbePacket isPathProbe : bool) (h : handler) : option handler :=
  let h := h <| h_bytesSent ::= Z.add size |> in
  s ← getPacketNumberSpace l h;
  let h := setSpace l (s <| largestSent := pn |>) h in
  let p := mkPacket t frames largest size l isPathMTUProbePacket false isPathProbe in
  if isPathProbe then h ← in_space l (SentPathProbePacket pn p) h; Some (setLossDetectionTimer t h)
  else
    let eliciting := IsAckEliciting p in
    let h := if eliciting then
        setSpace l (s <| largestSent := pn |> <| lastAckElicitingPacketTime := t |>) h
          <| bytesInFlight ::= Z.add size |> <| numProbesToSend ::= λ n, if 0 <? n then n - 1 else n |>
      else h in
    let p := p <| includedInBytesInFlight := eliciting |> in
    let h := h <| congestion ::= cc_OnPacketSent (rttStats h) t (bytesInFlight h) pn size eliciting |> in
    e ← (if is_1RTT l then match ecn h with Some e => e ← ecn_SentPacket pn mark e; Some (Some e) | None => Some None end else Some (ecn h));
    let h := h <| ecn := e |> in
    h ← in_space l (hist_SentPacket pn p) h;
    Some (if negb eliciting && peerCompletedAddressValidation h then h else setLossDetectionTimer t h).

Definition PeekPacketNumber (l : EncryptionLevel) (h : handler) : option (Z * Z) :=
  s ← getPacketNumberSpace l h;
  let pn := gen_Peek (pns s) in
  Some (pn,
    if shortPacketNumbers h then
      let unit := if minDatagramRoomForSizing <=? lastDatagramPadding h then lastDatagramPadding h else h_maxDatagramSize h in
      PacketNumberLengthForHeaderChrome pn (largestAcked s) (if 0 <? unit then Z.quot (cc_GetCongestionWindow (congestion h)) unit else 0)
    else PacketNumberLengthForHeader pn (largestAcked s)).

Definition PopPacketNumber (rnd : Z) (l : EncryptionLevel) (h : handler) : option (handler * Z) :=
  s ← getPacketNumberSpace l h;
  let '(g, skipped, pn) := gen_Pop rnd (pns s) in
  hist ← (if skipped : bool then SkippedPacket (pn - 1) (history s) else Some (history s));
  Some (setSpace l (s <| pns := g |> <| history := hist |>) h, pn).

(** ** Loss *)

(** What the packets that are not lost ask for, and the ones that are. *)
Definition lossDelay (h : handler) : duration :=
  Z.max (int_of_float (fmul timeThreshold (float_of_int (Z.max (latestRTT (rttStats h)) (smoothedRTT (rttStats h)))))) TimerGranularity.

Definition packet_lost (lostSendTime : time) (largest pn : Z) (p : packet) (hist : sentPacketHistory) : bool :=
  (SendTime p <=? lostSendTime) || (packetThreshold <=? Difference largest pn hist).

(** A packet is declared lost. *)
Definition lose_packet (l : EncryptionLevel) (prior pn : Z) (p : packet) (h : handler) : option handler :=
  let h := if is_appdata l then h <| lostPackets ::= lost_Add pn (SendTime p) |> else h in
  h ← in_space l (DeclareLost pn) h;
  if negb (isPathProbePacket p) && IsAckEliciting p then
    h ← removeFromBytesInFlight p h;
    h ← queueFramesForRetransmission p h;
    let h := if IsPathMTUProbePacket p then h else h <| congestion ::= cc_OnCongestionEvent (rttStats h) pn (p_Length p) prior |> in
    let h := h <| lostInfo ::= λ i, i ++ [(pn, p_Length p)] |> in
    Some (if is_1RTT l then h <| ecn ::= fmap (ecn_LostPacket pn) |> else h)
  else Some h.

(** The loop; the packets come in ascending order. *)
Fixpoint lose_loop (l : EncryptionLevel) (prior : Z) (lostSendTime : time) (delay : duration) (ps : list (Z * packet)) (h : handler) : option handler :=
  match ps with
  | [] => Some h
  | (pn, p) :: ps =>
      s ← getPacketNumberSpace l h;
      if largestAcked s <? pn then Some h
      else if packet_lost lostSendTime (largestAcked s) pn p (history s) then
        h ← lose_packet l prior pn p h; lose_loop l prior lostSendTime delay ps h
      else
        let h := if lossTime s =? 0 then setSpace l (s <| lossTime := SendTime p + delay |>) h else h in
        lose_loop l prior lostSendTime delay ps h
  end.

Definition detectLostPackets (now : time) (l : EncryptionLevel) (h : handler) : option handler :=
  s ← getPacketNumberSpace l h;
  let h := setSpace l (s <| lossTime := 0 |>) (h <| lostInfo := [] |>) in
  lose_loop l (bytesInFlight h) (now - lossDelay h) (lossDelay h) (Packets (history s)) h.

Definition is_control (f : sent_frame) : bool := match f with SentControl _ _ => true | SentStream _ _ => false end.

Definition control_frames (p : packet) : list sent_frame := filter (λ f, is_control f = true) (sent_frames p).

(** The loop over the probes that are too old. A probe's frame has a handler, or the
    call through the nil interface panics. *)
Fixpoint lose_probes (ps : list (Z * packet)) (h : handler) : option handler :=
  match ps with
  | [] => Some h
  | (pn, p) :: ps =>
      if forallb handled (control_frames p) then
        let h := tell OnLost (control_frames p) h in
        lose_probes ps (h <| appData ::= λ s, s <| history ::= λ x, (RemovePathProbe pn x).1 |> |>)
      else None
  end.

Definition detectLostPathProbes (now : time) (h : handler) : option handler :=
  lose_probes (filter (λ x, SendTime x.2 <= now - pathProbePacketLossTimeout) (pathProbePackets (history (appData h)))) h.

(** ** Acknowledgement *)

(** The range that may contain a number: the ranges before it are passed, but for the last. *)
Fixpoint seek (pn : Z) (rs : list AckRange) : list AckRange :=
  match rs with
  | r :: (_ :: _) as rest => if Largest r <? pn then seek pn rest else rs
  | _ => rs
  end.

Record collected := mkCollected { newly : list (Z * packet); probes_left : list (Z * packet); eliciting : bool }.

(** The packets an ACK acknowledges. [rs]: its ranges, the lowest first; [miss]:
    whether there is more than one. *)
Fixpoint collect_acked (miss : bool) (lowest largest : Z) (rs : list AckRange) (ps probes : list (Z * packet)) : collected + ack_error :=
  match ps with
  | [] => inl (mkCollected [] probes false)
  | (pn, p) :: ps =>
      if pn <? lowest then collect_acked miss lowest largest rs ps probes
      else if largest <? pn then inl (mkCollected [] probes false)
      else
        let rs := if miss then seek pn rs else rs in
        match rs with
        | r :: _ =>
            if miss && (pn <? Smallest r) then collect_acked miss lowest largest rs ps probes
            else if miss && (Largest r <? pn) then inr AckBug
            else if isPathProbePacket p then
              let '(probe, probes) := take_probe pn probes in
              match collect_acked miss lowest largest rs ps probes, probe with
              | inl c, Some q => inl (mkCollected ((pn, q) :: newly c) (probes_left c) (eliciting c))
              | r, _ => r
              end
            else
              match collect_acked miss lowest largest rs ps probes with
              | inl c => inl (mkCollected ((pn, p) :: newly c) (probes_left c) (IsAckEliciting p || eliciting c))
              | r => r
              end
        | [] => inr AckBug
        end
  end.

(** The handlers of the frames are told, and the packets leave the history. *)
Fixpoint settle_acked (l : EncryptionLevel) (ps : list (Z * packet)) (h : handler) : option (handler + ack_error) :=
  match ps with
  | [] => Some (inl h)
  | (pn, p) :: ps =>
      let h := if negb (p_LargestAcked p =? InvalidPacketNumber) && is_1RTT l && ignores h then h <| calls ::= λ c, c ++ [IgnoreBelow (p_LargestAcked p + 1)] |> else h in
      let h := tell OnAcked (sent_frames p) h in
      s ← getPacketNumberSpace l h;
      r ← Remove pn (history s);
      match r with
      | None => Some (inr (NotInHistory pn))
      | Some hist => settle_acked l ps (setSpace l (s <| history := hist |>) h)
      end
  end.

(** A number that was left out and is acknowledged nevertheless. *)
Fixpoint acked_skip (ack : AckFrame) (ps : list Z) : option (option Z) :=
  match ps with [] => Some None | p :: ps => b ← AcksPacket p ack; if b : bool then Some (Some p) else acked_skip ack ps end.

Definition detectAndRemoveAckedPackets (ack : AckFrame) (l : EncryptionLevel) (h : handler) : option ((handler * list (Z * packet) * bool) + ack_error) :=
  s ← getPacketNumberSpace l h;
  lowest ← LowestAcked ack; largest ← LargestAcked ack;
  skipped ← (if is_1RTT l then acked_skip ack (skippedPackets (history s)) else Some None);
  match skipped with
  | Some p => Some (inr (AckSkipped p))
  | None =>
      match collect_acked (HasMissingRanges ack) lowest largest (rev (AckRanges ack)) (Packets (history s)) (pathProbePackets (history s)) with
      | inr e => Some (inr e)
      | inl c =>
          let h := setSpace l (s <| history ::= λ x, x <| pathProbePackets := probes_left c |> |>) h in
          r ← settle_acked l (newly c) h;
          Some (match r with inl h => inl (h, newly c, eliciting c) | inr e => inr e end)
      end
  end.

(** The losses that were none: the numbers declared lost that an ACK acknowledges. *)
Fixpoint spurious (rs : list AckRange) (lost : lostPacketTracker) : list Z :=
  match lost with
  | [] => []
  | (pn, _) :: lost =>
      let rs := seek pn rs in
      match rs with
      | r :: _ => if pn <? Smallest r then spurious rs lost else if pn <=? Largest r then pn :: spurious rs lost else spurious rs lost
      | [] => []
      end
  end.

Definition detectSpuriousLosses (ack : AckFrame) (h : handler) : handler :=
  h <| lostPackets ::= λ t, foldl (λ t pn, lost_Delete pn t) t (spurious (rev (AckRanges ack)) t) |>.

(** The round-trip time, when the largest packet is newly acknowledged. *)
Definition update_rtt (ack : AckFrame) (l : EncryptionLevel) (rcvTime : time) (largest : Z) (acked : list (Z * packet)) (hasAckEliciting : bool) (h : handler) : handler :=
  match last acked with
  | Some (pn, p) =>
      if (pn =? largest) && negb (isPathProbePacket p) && hasAckEliciting then
        let ackDelay := if is_1RTT l then Z.min (DelayTime ack) (maxAckDelay (rttStats h)) else 0 in
        let h := if (largestAckedTime h =? 0) || negb (SendTime p <? largestAckedTime h) then
            h <| rttStats ::= UpdateRTT (rcvTime - SendTime p) ackDelay |> <| largestAckedTime := SendTime p |>
          else h in
        h <| congestion ::= cc_MaybeExitSlowStart (rttStats h) |>
      else h
  | None => h
  end.

(** The acknowledged packets leave the bytes in flight. *)
Fixpoint credit_acked (prior : Z) (rcvTime : time) (ps : list (Z * packet)) (h : handler) : option handler :=
  match ps with
  | [] => Some h
  | (pn, p) :: ps =>
      let h := if includedInBytesInFlight p then h <| congestion ::= cc_OnPacketAcked (rttStats h) pn (p_Length p) prior rcvTime |> else h in
      h ← removeFromBytesInFlight p h; credit_acked prior rcvTime ps h
  end.

Definition peer_completes (l : EncryptionLevel) (rcvTime : time) (h : handler) : handler :=
  if isClient h && negb (peerCompletedAddressValidation h) && match l with EncryptionHandshake | Encryption1RTT => true | _ => false end then
    setLossDetectionTimer rcvTime (h <| peerCompletedAddressValidation := true |>)
  else h.

(** Only an ACK that increases the largest number acknowledged counts. *)
Definition ecn_acked (ack : AckFrame) (l : EncryptionLevel) (prior largest known : Z) (acked : list (Z * packet)) (h : handler) : handler :=
  match ecn h with
  | Some e =>
      if is_1RTT l && (known <? largest) then
        let '(e, congested) := HandleNewlyAcked (map fst acked) (AckFrame.ECT0 ack) (AckFrame.ECT1 ack) (AckFrame.ECNCE ack) e in
        let h := h <| ecn := Some e |> in
        if congested then h <| congestion ::= cc_OnCongestionEvent (rttStats h) largest 0 prior |> else h
      else h
  | None => h
  end.

Definition info (ps : list (Z * packet)) : list (Z * Z) := (λ x, (x.1, p_Length x.2)) <$> filter (λ x, includedInBytesInFlight x.2 = true) ps.

(** After the acknowledged packets were found. *)
Definition process_acked (ack : AckFrame) (l : EncryptionLevel) (rcvTime : time) (prior largest : Z) (acked : list (Z * packet)) (hasAckEliciting : bool)
    (h : handler) : option handler :=
  let h := update_rtt ack l rcvTime largest acked hasAckEliciting h in
  s ← getPacketNumberSpace l h;
  let h := ecn_acked ack l prior largest (largestAcked s) acked h in
  let h := setSpace l (s <| largestAcked ::= Z.max largest |>) h in
  h ← detectLostPackets rcvTime l h;
  h ← (if is_1RTT l then detectLostPathProbes rcvTime h else Some h);
  h ← credit_acked prior rcvTime acked h;
  let h := match info acked, lostInfo h with [], [] => h | a, lo => h <| congestion ::= cc_EventEx (rttStats h) prior rcvTime a lo |> end in
  s ← getPacketNumberSpace l h;
  let h := if is_1RTT l && (largest =? largestAcked s) then
      detectSpuriousLosses ack h <| lostPackets ::= lost_DeleteBefore (rcvTime - 3 * PTO false (rttStats h)) |>
    else h in
  let h := if peerCompletedAddressValidation h then h <| ptoCount := 0 |> else h in
  Some (setLossDetectionTimer rcvTime (h <| lostInfo := [] |> <| numProbesToSend := 0 |>)).

(** [ReceivedAck]: whether a packet of 1-RTT was acknowledged. *)
Definition ReceivedAck (ack : AckFrame) (l : EncryptionLevel) (rcvTime : time) (h : handler) : option (handler * (bool + ack_error)) :=
  s ← getPacketNumberSpace l h;
  largest ← LargestAcked ack;
  if largestSent s <? largest then Some (h, inr AckUnsent)
  else
    let h := peer_completes l rcvTime h in
    let prior := bytesInFlight h in
    r ← detectAndRemoveAckedPackets ack l h;
    match r with
    | inr e => Some (h, inr e)
    | inl (h, [], _) => Some (h, inl false)
    | inl (h, acked, hasAckEliciting) =>
        h ← process_acked ack l rcvTime prior largest acked hasAckEliciting h;
        Some (h, inl (existsb (λ x, is_1RTT (p_level x.2)) acked))
    end.

(** ** The other operations *)

Definition ReceivedBytes (n : Z) (t : time) (h : handler) : handler :=
  let was := isAmplificationLimited h in
  let h := h <| bytesReceived ::= Z.add n |> in
  if was && negb (isAmplificationLimited h) then setLossDetectionTimer t h else h.

Definition ReceivedPacket (l : EncryptionLevel) (t : time) (h : handler) : handler :=
  if negb (isClient h) && match l with EncryptionHandshake => true | _ => false end && negb (peerAddressValidated h) then
    setLossDetectionTimer t (h <| peerAddressValidated := true |>)
  else h.

(** Packets leave the bytes in flight, whatever becomes of them. *)
Fixpoint remove_all (ps : list (Z * packet)) (h : handler) : option handler :=
  match ps with [] => Some h | (_, p) :: ps => h ← removeFromBytesInFlight p h; remove_all ps h end.

(** The loop over the packets of 0-RTT; the error of [Remove] is ignored. *)
Fixpoint drop_0RTT (ps : list (Z * packet)) (h : handler) : option handler :=
  match ps with
  | [] => Some h
  | (pn, p) :: ps =>
      match p_level p with
      | Encryption0RTT =>
          h ← removeFromBytesInFlight p h;
          r ← Remove pn (history (appData h));
          drop_0RTT ps (match r with Some hist => h <| appData ::= λ s, s <| history := hist |> |> | None => h end)
      | _ => Some h
      end
  end.

Definition DropPackets (l : EncryptionLevel) (now : time) (h : handler) : option handler :=
  let h := if isClient h && match l with EncryptionHandshake => true | _ => false end then h <| peerCompletedAddressValidation := true |> else h in
  let finish h := Some (setLossDetectionTimer now (h <| ptoCount := 0 |> <| numProbesToSend := 0 |> <| ptoMode := SendNone |>)) in
  match l with
  | EncryptionInitial =>
      match initialSpace h with
      | None => Some h
      | Some s => h ← remove_all (Packets (history s)) h; finish (h <| initialSpace := None |>)
      end
  | EncryptionHandshake =>
      match handshakeSpace h with
      | None => Some h
      | Some s => h ← remove_all (Packets (history s)) h; finish (h <| handshakeConfirmed := true |> <| handshakeSpace := None |>)
      end
  | Encryption0RTT => h ← drop_0RTT (Packets (history (appData h))) h; finish h
  | Encryption1RTT => None
  end.

(** [inr tt]: the error of a timer that cannot fire. *)
Definition on_timeout (rnd : Z) (now : time) (h : handler) : option (handler * (unit + unit)) :=
  h ← (if handshakeConfirmed h then detectLostPathProbes now h else Some h);
  let prior := bytesInFlight h in
  let '(loss, l) := getLossTimeAndSpace h in
  if negb (loss =? 0) then
    h ← detectLostPackets now l h;
    Some (match lostInfo h with [] => h | lo => h <| congestion ::= cc_EventEx (rttStats h) prior now [] lo |> end, inl tt)
  else if (bytesInFlight h =? 0) && negb (peerCompletedAddressValidation h) then
    let h := h <| ptoCount ::= λ n, wrap_u 32 (n + 1) |> <| numProbesToSend ::= Z.add 1 |> in
    Some (match initialSpace h, handshakeSpace h with
          | Some _, _ => (h <| ptoMode := SendPTOInitial |>, inl tt)
          | None, Some _ => (h <| ptoMode := SendPTOHandshake |>, inl tt)
          | None, None => (h, inr tt)
          end)
  else
    let '(pto, l) := getPTOTimeAndSpace now h in
    if pto =? 0 then Some (h, inl tt)
    else
      s ← getPacketNumberSpace l h;
      if negb (HasOutstandingPackets (history s)) && negb (HasOutstandingPathProbes (history s)) && negb (peerCompletedAddressValidation h) then Some (h, inl tt)
      else
        let h := h <| ptoCount ::= λ n, wrap_u 32 (n + 1) |> <| numProbesToSend ::= Z.add 2 |> in
        match l with
        | EncryptionInitial => Some (h <| ptoMode := SendPTOInitial |>, inl tt)
        | EncryptionHandshake => Some (h <| ptoMode := SendPTOHandshake |>, inl tt)
        | Encryption1RTT =>
            '(h, pn) ← PopPacketNumber rnd Encryption1RTT h;
            h ← in_space Encryption1RTT (SkippedPacket pn) h;
            Some (h <| ptoMode := SendPTOAppData |>, inl tt)
        | Encryption0RTT => Some (h, inr tt)
        end.

Definition OnLossDetectionTimeout (rnd : Z) (now : time) (h : handler) : option (handler * (unit + unit)) :=
  '(h, e) ← on_timeout rnd now h; Some (setLossDetectionTimer now h, e).

Definition tracked (h : handler) : Z :=
  Len (history (appData h)) + match initialSpace h with Some s => Len (history s) | None => 0 end + match handshakeSpace h with Some s => Len (history s) | None => 0 end.

Definition GetSendMode (now : time) (h : handler) : SendMode :=
  if isAmplificationLimited h then SendNone
  else if MaxTrackedSentPackets <=? tracked h then SendNone
  else if 0 <? numProbesToSend h then ptoMode h
  else if negb (cc_CanSend (bytesInFlight h) (congestion h)) then SendAck
  else if MaxOutstandingSentPackets <=? tracked h then SendAck
  else if negb (cc_HasPacingBudget now (congestion h)) then SendPacingLimited
  else SendAny.

Definition TimeUntilSend (h : handler) : time := cc_TimeUntilSend (bytesInFlight h) (congestion h).

Definition handler_SetMaxDatagramSize (n : Z) (h : handler) : handler := h <| h_maxDatagramSize := n |> <| congestion ::= cc_SetMaxDatagramSize n |>.

Definition SetLastDatagramPadding (n : Z) (h : handler) : handler := h <| lastDatagramPadding := n |>.

Definition ECNMode (isShortHeaderPacket : bool) (h : handler) : handler * ECN :=
  match ecn h with
  | None => (h, ECNUnsupported)
  | Some e => if negb isShortHeaderPacket then (h, ECNNon) else let '(e, m) := ecn_Mode e in (h <| ecn := Some e |>, m)
  end.

(** Whether a packet was queued. *)
Definition QueueProbePacket (l : EncryptionLevel) (h : handler) : option (handler * bool) :=
  s ← getPacketNumberSpace l h;
  match FirstOutstanding (history s) with
  | None => Some (h, false)
  | Some (pn, p) =>
      h ← in_space l (DeclareLost pn) h;
      h ← removeFromBytesInFlight p h;
      h ← queueFramesForRetransmission p h;
      Some (h, true)
  end.

(** The frames of all ack-eliciting packets are to be sent again. *)
Fixpoint requeue (ps : list (Z * packet)) (h : handler) : option handler :=
  match ps with
  | [] => Some h
  | (_, p) :: ps => h ← (if IsAckEliciting p then queueFramesForRetransmission p h else Some h); requeue ps h
  end.

Fixpoint first_send_time (ps : list (Z * packet)) : time :=
  match ps with [] => 0 | (_, p) :: ps => if SendTime p =? 0 then first_send_time ps else SendTime p end.

Definition ResetForRetry (rnd : Z) (now : time) (h : handler) : option handler :=
  let h := h <| bytesInFlight := 0 |> in
  s ← initialSpace h;
  h ← requeue (Packets (history s)) h;
  h ← requeue (Packets (history (appData h))) h;
  let h := if ptoCount h =? 0 then h <| rttStats ::= UpdateRTT (Z.max minRTTAfterRetry (now - first_send_time (Packets (history s)))) 0 |> else h in
  Some (h <| initialSpace := Some (newPacketNumberSpace 0 (gen_Peek (pns s)) false) |>
          <| appData := newPacketNumberSpace rnd (gen_Peek (pns (appData h))) true |> <| alarm := None |> <| ptoCount := 0 |>).

(** The loop over the packets of the old path. *)
Fixpoint abandon_path (ps : list (Z * packet)) (h : handler) : option handler :=
  match ps with
  | [] => Some h
  | (pn, p) :: ps =>
      h ← in_space Encryption1RTT (DeclareLost pn) h;
      h ← (if isPathProbePacket p then Some h
           else h ← removeFromBytesInFlight p h; if IsAckEliciting p then queueFramesForRetransmission p h else Some h);
      abandon_path ps h
  end.

(** The loop over the probes of paths, which removes the probe it is at: the slice it
    goes over is moved up under it. [left]: how much of [array] is still the slice. *)
Fixpoint drop_probes (n i left : nat) (array : list (Z * packet)) : list (Z * packet) :=
  match n with
  | O => take left array
  | S n =>
      match array !! i with
      | None => take left array
      | Some (pn, _) =>
          let live := take left array in
          let rest := (take_probe pn live).2 in
          if (length rest <? left)%nat then drop_probes n (S i) (left - 1) (rest ++ drop (left - 1) array)
          else drop_probes n (S i) left array
      end
  end.

Definition MigratedPath (now : time) (initialMaxDatagramSize : Z) (h : handler) : option handler :=
  let h := h <| rttStats ::= ResetForPathMigration |> in
  h ← abandon_path (Packets (history (appData h))) h;
  let probes l := drop_probes (length l) 0 (length l) l in
  let h := h <| appData ::= λ s, s <| history ::= λ x, x <| pathProbePackets ::= probes |> |> |> in
  Some (setLossDetectionTimer now (h <| congestion := cc_New (rttStats h) initialMaxDatagramSize |>)).

Definition SetCongestionControl (cc : CC) (h : handler) : handler := h <| congestion := cc |>.
End handler.
