(* ===== verification/LossInv.v ===== *)
(** * What is kept about the packets in flight
    ([quic-go/internal/ackhandler/sent_packet_handler.go])

    The bytes in flight are those of the packets that are tracked, and every frame
    that was handed in is told to its handler or still held by a packet. Both are
    stated with what is owed in the middle of an operation: the packets [pend] have
    left their history and not yet the count, the frames [owed] have left and were not
    yet told. *)

From Stdlib Require Import ZArith Lia Bool.
From stdpp Require Import base list.
From S2P Require Import Prelude.
From S2P Require Import GoNet.
From S2P Require Import GoFloat.
From S2P Require Import Wire.
From S2P Require Import WireFrames.
From S2P Require Import AckHistory.
From S2P Require Import AckFrame.
From S2P Require Import AckTracker.
From S2P Require Import RttStats.
From S2P Require Import EcnTracker.
From S2P Require Import SentHistory.
From S2P Require Import SentHistInv.
From S2P Require Import LossDetection.

Open Scope Z_scope.
Open Scope list_scope.

(** ** Sums over packets *)

Definition flight_of (x : Z * packet) : Z := if includedInBytesInFlight x.2 then p_Length x.2 else 0.
Definition flight (ps : list (Z * packet)) : Z := foldr (λ x n, flight_of x + n) 0 ps.

Lemma flight_app ps qs : flight (ps ++ qs) = flight ps + flight qs.
Proof. induction ps as [|x ps IH]; [done|]. cbn [Datatypes.app flight foldr] in *. unfold flight in *. lia. Qed.

Lemma flight_cons x ps : flight (x :: ps) = flight_of x + flight ps.
Proof. done. Qed.

#[export] Instance flight_perm : Proper ((≡ₚ) ==> (=)) flight.
Proof. induction 1; rewrite ?flight_cons; lia. Qed.

(** The frames of packets whose handlers are to hear of them. *)
Definition frames_of (x : Z * packet) : list sent_frame := filter (λ f, handled f = true) (sent_frames x.2).
Definition frames_in (ps : list (Z * packet)) : list sent_frame := ps ≫= frames_of.

Lemma frames_app ps qs : frames_in (ps ++ qs) = frames_in ps ++ frames_in qs.
Proof. apply bind_app. Qed.

#[export] Instance frames_perm : Proper ((≡ₚ) ==> (≡ₚ)) frames_in.
Proof. intros ps qs H. unfold frames_in. by rewrite H. Qed.

(** What the handlers were told. *)
Definition told_frame (c : callback) : list sent_frame := match c with OnAcked f | OnLost f => [f] | IgnoreBelow _ => [] end.
Definition told (cs : list callback) : list sent_frame := cs ≫= told_frame.

Lemma told_app cs ds : told (cs ++ ds) = told cs ++ told ds.
Proof. apply bind_app. Qed.

Lemma told_map (c : sent_frame → callback) fs : (∀ f, told_frame (c f) = [f]) → told (c <$> fs) = fs.
Proof. intros H. induction fs as [|f fs IH]; [done|]. rewrite fmap_cons. unfold told in *. rewrite bind_cons, H, IH. done. Qed.

(** ** Well-formed packets *)

Record packet_ok (x : Z * packet) : Prop := mkPacketOk {
  po_length : 0 <= p_Length x.2;
  po_time : 0 <= SendTime x.2;
  po_included : includedInBytesInFlight x.2 = IsAckEliciting x.2;
  po_place : isPathProbePacket x.2 = true → sent_frames x.2 = [];
}.

(** The probe of a path: not in flight, only control frames, all of them with a handler. *)
Record probe_ok (x : Z * packet) : Prop := mkProbeOk {
  pr_flight : includedInBytesInFlight x.2 = false;
  pr_probe : isPathProbePacket x.2 = true;
  pr_frames : Forall (λ f, is_control f = true ∧ handled f = true) (sent_frames x.2);
  pr_time : 0 <= SendTime x.2;
}.

Lemma flight_of_nonneg x : packet_ok x → 0 <= flight_of x.
Proof. intros [H _ _ _]. unfold flight_of. destruct (includedInBytesInFlight _); lia. Qed.

Lemma flight_of_probe x : probe_ok x → flight_of x = 0.
Proof. intros [H _ _ _]. unfold flight_of. by rewrite H. Qed.

Lemma flight_probes ps : Forall probe_ok ps → flight ps = 0.
Proof. induction 1 as [|x ps Hx _ IH]; [done|]. by rewrite flight_cons, (flight_of_probe _ Hx), IH. Qed.

Definition countable (x : Z * packet) : Prop := packet_ok x ∨ probe_ok x.

Lemma flight_nonneg ps : Forall countable ps → 0 <= flight ps.
Proof.
  induction 1 as [|x ps [H|H] _ IH]; [done|..]; rewrite flight_cons; [pose proof (flight_of_nonneg _ H)|rewrite (flight_of_probe _ H)]; lia.
Qed.

(** ** Well-formed spaces *)

Definition gen_next (g : packetNumberGenerator) : Z := match g with Sequential next | Skipping _ _ next _ => next end.

Definition probes_ok (h : sentPacketHistory) : Prop :=
  rising (pathProbePackets h) ∧ Forall (λ x, probe_ok x ∧ 0 <= x.1 <= highestPacketNumber h) (pathProbePackets h).

(** The generator of numbers is one ahead. *)
Definition gen_ok (g : packetNumberGenerator) (h : sentPacketHistory) : Prop := next_number (gen_next g) h.

Record space_ok (s : packetNumberSpace) : Prop := mkSpaceOk {
  sk_hist : hist_ok (history s);
  sk_packets : Forall packet_ok (Packets (history s));
  sk_probes : probes_ok (history s);
  sk_timed : HasOutstandingPackets (history s) = true → 0 < lastAckElicitingPacketTime s;
  sk_gen : gen_ok (pns s) (history s);
}.

Definition contents (s : packetNumberSpace) : list (Z * packet) := Packets (history s) ++ pathProbePackets (history s).
Definition contents' (s : option packetNumberSpace) : list (Z * packet) := match s with Some s => contents s | None => [] end.

Lemma contents_countable s : space_ok s → Forall countable (contents s).
Proof.
  intros [_ H1 [_ H2] _ _]. apply Forall_app. split; [eapply Forall_impl; [apply H1|by left]|eapply Forall_impl; [apply H2|intros x [? _]; by right]].
Qed.

(** ** The handler *)

Section handler.
Context {CC : Type} `{!SendAlgorithm CC}.
Abbreviation handler := (sentPacketHandler CC).

Definition everything (h : handler) : list (Z * packet) := contents' (initialSpace h) ++ contents' (handshakeSpace h) ++ contents (appData h).

(** The same without the space of a level. *)
Definition others (l : EncryptionLevel) (h : handler) : list (Z * packet) :=
  match l with
  | EncryptionInitial => contents' (handshakeSpace h) ++ contents (appData h)
  | EncryptionHandshake => contents' (initialSpace h) ++ contents (appData h)
  | Encryption0RTT | Encryption1RTT => contents' (initialSpace h) ++ contents' (handshakeSpace h)
  end.

Lemma everything_at l h s : getPacketNumberSpace l h = Some s → everything h ≡ₚ contents s ++ others l h.
Proof. unfold everything. destruct l; cbn; intros H; simplify_eq; rewrite ?H; cbn; solve_Permutation. Qed.

Lemma everything_set l h s s' : getPacketNumberSpace l h = Some s → everything (setSpace l s' h) ≡ₚ contents s' ++ others l h.
Proof. unfold everything. destruct l; cbn; intros H; simplify_eq; rewrite ?H; cbn; solve_Permutation. Qed.

Lemma get_set l s s' (h : handler) : getPacketNumberSpace l h = Some s → getPacketNumberSpace l (setSpace l s' h) = Some s'.
Proof. by destruct l. Qed.

(** Two levels that share a space, or not. *)
Lemma get_set_other l l' s s' (h : handler) : getPacketNumberSpace l h = Some s →
  getPacketNumberSpace l' (setSpace l s' h) = Some s' ∨ getPacketNumberSpace l' (setSpace l s' h) = getPacketNumberSpace l' h.
Proof. destruct l, l'; cbn; tauto. Qed.

(** What no operation on packets changes: the state of the handshake, and with it
    the round-trip statistics. *)
Definition standing (h : handler) : bool * bool * bool * bool * bool :=
  (isClient h, handshakeConfirmed h, peerCompletedAddressValidation h, bool_decide (is_Some (initialSpace h)), bool_decide (is_Some (handshakeSpace h))).

(** The frames whose handlers heard that they arrived. *)
Definition acked_frame (c : callback) : list sent_frame := match c with OnAcked f => [f] | _ => [] end.
Definition acked_frames (cs : list callback) : list sent_frame := cs ≫= acked_frame.

Definition shape (h : handler) := (standing h, rttStats h, acked_frames (calls h)).

Lemma shape_lost fs (h : handler) : shape (tell OnLost fs h) = shape h.
Proof.
  unfold shape. f_equal. unfold tell, acked_frames. cbn. rewrite bind_app. generalize (filter (λ f, handled f = true) fs). intros l.
  replace ((OnLost <$> l) ≫= acked_frame) with (@nil sent_frame) by (induction l as [|x l IH]; [done|exact IH]). by rewrite app_nil_r.
Qed.

Lemma shape_set l s s' (h : handler) : getPacketNumberSpace l h = Some s → shape (setSpace l s' h) = shape h.
Proof. unfold shape, standing. destruct l; cbn; intros H; rewrite ?H; done. Qed.

Lemma shape_standing (h h' : handler) : shape h' = shape h → standing h' = standing h.
Proof. intros H. by apply (f_equal (fst ∘ fst)) in H. Qed.

Lemma shape_rtt (h h' : handler) : shape h' = shape h → rttStats h' = rttStats h.
Proof. intros H. by apply (f_equal (snd ∘ fst)) in H. Qed.

Lemma shape_acked (h h' : handler) : shape h' = shape h → acked_frames (calls h') = acked_frames (calls h).
Proof. intros H. by apply (f_equal snd) in H. Qed.

Record known (h : handler) : Prop := mkKnown {
  kn_confirmed : handshakeSpace h = None → handshakeConfirmed h = true;
  kn_peer : handshakeConfirmed h = true ∨ isClient h = false → peerCompletedAddressValidation h = true;
}.

Lemma known_standing h h' : standing h' = standing h → known h → known h'.
Proof.
  unfold standing. intros [= E1 E2 E3 E4 E5] [H1 H2]. split; rewrite ?E1, ?E2, ?E3; [|done]. intros H. apply H1.
  rewrite H in E5. cbn in E5. destruct (handshakeSpace h); [|done]. symmetry in E5. by apply bool_decide_eq_false in E5 as []; eexists.
Qed.

(** [F]: all frames handed in whose handlers are to be told. *)
Record sound (F : list sent_frame) (pend : list (Z * packet)) (owed : list sent_frame) (h : handler) : Prop := mkSound {
  sd_spaces : ∀ l s, getPacketNumberSpace l h = Some s → space_ok s;
  sd_pend : Forall countable pend;
  sd_flight : bytesInFlight h = flight (pend ++ everything h);
  sd_ledger : told (calls h) ++ frames_in (everything h) ++ owed ≡ₚ F;
  sd_known : known h;
}.

(** A change of other fields. *)
Lemma sound_same F pend owed h h' : sound F pend owed h →
  (∀ l, getPacketNumberSpace l h' = getPacketNumberSpace l h) → everything h' = everything h → bytesInFlight h' = bytesInFlight h →
  told (calls h') = told (calls h) → standing h' = standing h → sound F pend owed h'.
Proof.
  intros [H1 H2 H3 H4 H5] E1 E2 E3 E4 E5. split; [|done|by rewrite E2, E3|by rewrite E2, E4|by apply (known_standing h)]. intros l s. rewrite E1. apply H1.
Qed.

(** A space gives packets away. *)
Lemma sound_set F pend owed h l s s' taken : sound F pend owed h → getPacketNumberSpace l h = Some s → space_ok s' → contents s ≡ₚ taken ++ contents s' →
  sound F (taken ++ pend) (frames_in taken ++ owed) (setSpace l s' h).
Proof.
  intros [H1 H2 H3 H4 H5] Hs Hok Hc. pose proof (everything_at _ _ _ Hs) as E. pose proof (everything_set _ _ _ s' Hs) as E'. split.
  - intros l' s2 H. destruct (get_set_other l l' s s' h Hs) as [G|G]; rewrite G in H; [by simplify_eq|by eapply H1].
  - apply Forall_app. split; [|done]. pose proof (contents_countable _ (H1 _ _ Hs)) as C. rewrite Hc, Forall_app in C. tauto.
  - replace (bytesInFlight (setSpace l s' h)) with (bytesInFlight h) by by destruct l. rewrite H3, !flight_app, E, E', Hc, !flight_app. lia.
  - replace (calls (setSpace l s' h)) with (calls h) by by destruct l. rewrite <- H4, E, E', Hc, !frames_app. solve_Permutation.
  - apply (known_standing h); [|done]. by eapply shape_standing, shape_set.
Qed.

Lemma sound_set_same F pend owed h l s s' : sound F pend owed h → getPacketNumberSpace l h = Some s → space_ok s' → contents s ≡ₚ contents s' →
  sound F pend owed (setSpace l s' h).
Proof. intros. by apply (sound_set F pend owed h l s s' []). Qed.

(** A handler is told. *)
Lemma sound_tell F pend owed (c : sent_frame → callback) fs h : (∀ f, told_frame (c f) = [f]) →
  sound F pend (filter (λ f, handled f = true) fs ++ owed) h → sound F pend owed (tell c fs h).
Proof.
  intros Hc [H1 H2 H3 H4 H5]. split; [apply H1|done|done| |by apply (known_standing h)]. rewrite <- H4. unfold tell. cbn. rewrite told_app, told_map by done.
  change (everything _) with (everything h). solve_Permutation.
Qed.

Lemma sound_pend F pend pend' owed h : pend ≡ₚ pend' → sound F pend owed h → sound F pend' owed h.
Proof. intros E [H1 H2 H3 H4 H5]. split; [done|by rewrite <- E|by rewrite <- E|done|done]. Qed.

Lemma everything_nonneg (h : handler) : (∀ l s, getPacketNumberSpace l h = Some s → space_ok s) → 0 <= flight (everything h).
Proof.
  intros H1. apply flight_nonneg. unfold everything. rewrite !Forall_app. split_and!.
  - destruct (initialSpace h) as [s|] eqn:E; [|constructor]. apply contents_countable. by apply (H1 EncryptionInitial).
  - destruct (handshakeSpace h) as [s|] eqn:E; [|constructor]. apply contents_countable. by apply (H1 EncryptionHandshake).
  - apply contents_countable. by apply (H1 Encryption1RTT).
Qed.

(** A packet leaves the count. *)
Lemma sound_remove F pend owed pn p h : sound F ((pn, p) :: pend) owed h → packet_ok (pn, p) ∨ probe_ok (pn, p) →
  ∃ h', removeFromBytesInFlight p h = Some h' ∧ sound F pend owed h' ∧ shape h' = shape h ∧ (∀ l, getPacketNumberSpace l h' = getPacketNumberSpace l h) ∧
    lostInfo h' = lostInfo h ∧ alarm h' = alarm h ∧ everything h' = everything h.
Proof.
  intros [H1 H2 H3 H4 H5] Hp. apply Forall_cons in H2 as [_ H2]. cbn [Datatypes.app] in H3. rewrite flight_cons in H3. unfold flight_of in H3. cbn [snd] in H3.
  unfold removeFromBytesInFlight. destruct (includedInBytesInFlight p).
  - pose proof (flight_nonneg _ H2). pose proof (everything_nonneg h H1). rewrite flight_app in H3.
    destruct (Z.ltb_spec (bytesInFlight h) (p_Length p)); [lia|]. eexists. split; [done|]. split_and!; try done. split; [apply H1|done| |done|by apply (known_standing h)].
    cbn. change (everything _) with (everything h). rewrite flight_app. lia.
  - exists h. by split_and!.
Qed.
End handler.
