(* ===== verification/LossOps.v ===== *)
(** * Losing packets
    ([quic-go/internal/ackhandler/sent_packet_handler.go])

    Which packets are declared lost, and that nothing is lost of them: their bytes
    leave the count and their frames are told. *)

From Stdlib Require Import ZArith Lia Bool.
From stdpp Require Import base list.
From S2P Require Import Prelude.
From S2P Require Import GoNet.
From S2P Require Import GoFloat.
From S2P Require Import Wire.
From S2P Require Import WireFrames.
From S2P Require Import AckHistory.
From S2P Require Import AckFrame.
From S2P Require Import AckTracker.
From S2P Require Import RttStats.
From S2P Require Import EcnTracker.
From S2P Require Import SentHistory.
From S2P Require Import SentHistInv.
From S2P Require Import LossDetection.
From S2P Require Import LossInv.

Open Scope Z_scope.
Open Scope list_scope.

(** ** One packet leaves a space *)

Lemma without_middle a pn p b : NoDup (a ++ (pn, p) :: b).*1 → without pn (a ++ (pn, p) :: b) = a ++ b.
Proof.
  rewrite fmap_app, fmap_cons. cbn [fst]. intros (H1 & H2 & H3)%NoDup_app. apply NoDup_cons in H3 as [H3 H4].
  unfold without. rewrite filter_app, filter_cons, decide_False by (cbn; tauto).
  rewrite (filter_all _ a), (filter_all _ b); [done|..]; intros x Hx Hn.
  - apply H3. rewrite <- Hn. by apply list_elem_of_fmap_2.
  - apply (H2 pn); [|by left]. rewrite <- Hn. by apply list_elem_of_fmap_2.
Qed.

Lemma without_perm_keys ps pn p : rising ps → (pn, p) ∈ ps → ps ≡ₚ (pn, p) :: without pn ps.
Proof. intros. apply without_perm; [by apply rising_NoDup|done]. Qed.

Lemma left_subset pn h h' x : left_by pn h h' → x ∈ Packets h' → x ∈ Packets h.
Proof. intros H. rewrite (lb_packets _ _ _ H). by intros [_ ?]%list_elem_of_filter. Qed.

Lemma left_space pn p s h' : space_ok s → (pn, p) ∈ Packets (history s) → left_by pn (history s) h' →
  space_ok (s <| history := h' |>) ∧ contents s ≡ₚ [(pn, p)] ++ contents (s <| history := h' |>).
Proof.
  intros [H1 H2 H3 H4 H5] Hin L. split; [split; cbn|].
  - apply (lb_ok _ _ _ L).
  - rewrite (lb_packets _ _ _ L). rewrite Forall_forall in *. intros x [_ Hx]%list_elem_of_filter. by apply H2.
  - unfold probes_ok. by rewrite (lb_probes _ _ _ L), (lb_highest _ _ _ L).
  - intros Ho. apply H4. apply (HasOutstanding_iff _ (lb_ok _ _ _ L)) in Ho as (x & Hx & Ho). apply (HasOutstanding_iff _ H1).
    exists x. split; [by eapply left_subset|done].
  - unfold gen_ok, next_number. by rewrite (lb_highest _ _ _ L).
  - unfold contents. cbn. rewrite (lb_packets _ _ _ L), (lb_probes _ _ _ L). by rewrite (without_perm _ _ _ (Packets_NoDup _) Hin) at 1.
Qed.

Lemma Difference_same a b h h' : skippedPackets h' = skippedPackets h → Difference a b h' = Difference a b h.
Proof. intros E. unfold Difference. by rewrite E. Qed.

Lemma packet_lost_same t a pn p h h' : skippedPackets h' = skippedPackets h → packet_lost t a pn p h' = packet_lost t a pn p h.
Proof. intros E. unfold packet_lost. by rewrite (Difference_same _ _ _ _ E). Qed.

Section handler.
Context {CC : Type} `{!SendAlgorithm CC}.
Abbreviation handler := (sentPacketHandler CC).

(** [sound_same] for a change that the computation sees. *)
Ltac same := eapply sound_same; [eassumption|done..].

Lemma declare_lost F pend owed l s pn p (h : handler) : sound F pend owed h → getPacketNumberSpace l h = Some s → (pn, p) ∈ Packets (history s) →
  ∃ h', in_space l (DeclareLost pn) h = Some (setSpace l (s <| history := h' |>) h) ∧ left_by pn (history s) h' ∧
    sound F ((pn, p) :: pend) (frames_of (pn, p) ++ owed) (setSpace l (s <| history := h' |>) h).
Proof.
  intros S Hs Hin. pose proof (sd_spaces _ _ _ _ S _ _ Hs) as Hok. destruct (DeclareLost_ok _ _ _ (sk_hist _ Hok) Hin) as (h' & E & L).
  exists h'. unfold in_space. rewrite Hs. cbn [mbind option_bind]. rewrite E. cbn [mbind option_bind]. split_and!; [done|done|].
  destruct (left_space _ _ _ _ Hok Hin L) as [K P]. pose proof (sound_set _ _ _ _ _ _ _ [(pn, p)] S Hs K P) as R.
  cbn [frames_in mbind list_bind] in R. by rewrite app_nil_r in R.
Qed.

Lemma tell_get c fs l (h : handler) : getPacketNumberSpace l (tell c fs h) = getPacketNumberSpace l h.
Proof. by destruct l. Qed.

(** A lost packet's frames are told and its bytes leave the count. *)
Lemma sound_requeue F pend owed p (h : handler) : sound F pend (frames_of (0, p) ++ owed) h → IsAckEliciting p = true →
  ∃ h', queueFramesForRetransmission p h = Some h' ∧ sound F pend owed h' ∧ h' = tell OnLost (sent_frames p) h.
Proof.
  intros S He. unfold queueFramesForRetransmission. unfold IsAckEliciting in He. destruct (sent_frames p) as [|f fs] eqn:E; [done|].
  eexists. split_and!; [done| |done]. rewrite <- E. by apply sound_tell.
Qed.

(** What is not ack-eliciting owes nothing. *)
Lemma quiet_free F pend owed pn p (h : handler) : packet_ok (pn, p) → negb (isPathProbePacket p) && IsAckEliciting p = false →
  sound F ((pn, p) :: pend) (frames_of (pn, p) ++ owed) h → sound F pend owed h.
Proof.
  intros [_ _ H3 H4] Hq [S1 S2 S3 S4 S5]. cbn in H3, H4. assert (Hf : sent_frames p = []).
  { destruct (isPathProbePacket p); [by apply H4|]. cbn in Hq. unfold IsAckEliciting in Hq. by case_bool_decide. }
  apply Forall_cons in S2 as [_ S2]. split; try done.
  - cbn [Datatypes.app] in S3. rewrite flight_cons in S3. unfold flight_of in S3. cbn [snd] in S3. rewrite H3 in S3. unfold IsAckEliciting in S3. by rewrite Hf in S3.
  - unfold frames_of in S4. cbn [snd] in S4. by rewrite Hf in S4.
Qed.

(** What an operation on the space of a level leaves: the space, and the shape. *)
Record leaves (l : EncryptionLevel) (s' : packetNumberSpace) (h h' : handler) : Prop := mkLeaves {
  lv_get : getPacketNumberSpace l h' = Some s';
  lv_shape : shape h' = shape h;
}.

Lemma lose_packet_ok F pend l s prior pn p (h : handler) : sound F pend [] h → getPacketNumberSpace l h = Some s → (pn, p) ∈ Packets (history s) →
  ∃ h' hist', lose_packet l prior pn p h = Some h' ∧ sound F pend [] h' ∧ left_by pn (history s) hist' ∧ leaves l (s <| history := hist' |>) h h'.
Proof.
  intros S Hs Hin. unfold lose_packet. set (h1 := if is_appdata l then _ else h).
  assert (S1 : sound F pend [] h1) by (unfold h1; destruct (is_appdata l); [same|done]).
  assert (G1 : getPacketNumberSpace l h1 = Some s) by (rewrite <- Hs; unfold h1; by destruct l).
  assert (Sh1 : shape h1 = shape h) by (unfold h1; by destruct (is_appdata l)). clearbody h1.
  destruct (declare_lost _ _ _ _ _ _ _ _ S1 G1 Hin) as (hist' & E & L & S2). rewrite E. cbn [mbind option_bind].
  pose proof (get_set l s (s <| history := hist' |>) h1 G1) as G2. pose proof (shape_set l s (s <| history := hist' |>) h1 G1) as Sh2. rewrite Sh1 in Sh2.
  set (h2 := setSpace _ _ h1) in *. clearbody h2. clear E.
  assert (Hp : packet_ok (pn, p)) by (pose proof (sk_packets _ (sd_spaces _ _ _ _ S _ _ Hs)) as Hp; rewrite Forall_forall in Hp; by apply Hp).
  destruct (negb _ && _) eqn:Q.
  - destruct (sound_remove _ _ _ _ _ _ S2 (or_introl Hp)) as (h3 & E3 & S3 & Sh3 & G3 & _). rewrite E3. cbn [mbind option_bind].
    apply andb_true_iff in Q as [_ Q]. destruct (sound_requeue _ _ _ p _ S3 Q) as (h4 & E4 & S4 & T4). rewrite E4. cbn [mbind option_bind].
    assert (G4 : getPacketNumberSpace l h4 = Some (s <| history := hist' |>)) by by rewrite T4, tell_get, G3.
    assert (Sh4 : shape h4 = shape h) by by rewrite T4, shape_lost, Sh3. clear T4 E4.
    eexists _, hist'. split; [done|]. set (h5 := if IsPathMTUProbePacket p then h4 else _).
    assert (S5 : sound F pend [] h5) by (unfold h5; destruct (IsPathMTUProbePacket p); [done|same]).
    assert (G5 : getPacketNumberSpace l h5 = getPacketNumberSpace l h4) by (unfold h5; destruct (IsPathMTUProbePacket p); by destruct l).
    assert (Sh5 : shape h5 = shape h4) by (unfold h5; by destruct (IsPathMTUProbePacket p)). clearbody h5. split_and!; [|done|].
    + destruct (is_1RTT l); same.
    + split; [rewrite <- G4, <- G5; by destruct l|rewrite <- Sh4, <- Sh5; by destruct (is_1RTT l)].
  - eexists h2, hist'. split_and!; [done|by eapply quiet_free|done|by split].
Qed.

(** ** The loop *)

(** A packet of the space is overdue. *)
Definition overdue (t : time) (s : packetNumberSpace) (x : Z * packet) : bool :=
  (x.1 <=? largestAcked s) && packet_lost t (largestAcked s) x.1 x.2 (history s).

(** The time of the first packet that is not, and was overtaken. *)
Definition first_late (t : time) (delay : duration) (s : packetNumberSpace) (ps : list (Z * packet)) : time :=
  match filter (λ x, (x.1 <=? largestAcked s) && negb (overdue t s x) = true) ps with [] => 0 | x :: _ => SendTime x.2 + delay end.

Definition staying (t : time) (s : packetNumberSpace) (ps : list (Z * packet)) : list (Z * packet) := filter (λ x, overdue t s x = false) ps.

(** The same space but for its packets and its time. *)
Record lost_space (s s' : packetNumberSpace) : Prop := mkLostSpace {
  ls_largest : largestAcked s' = largestAcked s;
  ls_sent : largestSent s' = largestSent s;
  ls_pns : pns s' = pns s;
  ls_skipped : skippedPackets (history s') = skippedPackets (history s);
  ls_probes : pathProbePackets (history s') = pathProbePackets (history s);
  ls_highest : highestPacketNumber (history s') = highestPacketNumber (history s);
}.

Lemma overdue_same t s s' x : lost_space s s' → overdue t s' x = overdue t s x.
Proof. intros H. unfold overdue. by rewrite (ls_largest _ _ H), (packet_lost_same _ _ _ _ _ _ (ls_skipped _ _ H)). Qed.

Lemma staying_same t s s' ps : lost_space s s' → staying t s' ps = staying t s ps.
Proof. intros H. apply list_filter_iff. intros x. by rewrite (overdue_same _ _ _ _ H). Qed.

Lemma first_late_same t d s s' ps : lost_space s s' → first_late t d s' ps = first_late t d s ps.
Proof.
  intros H. unfold first_late. rewrite (list_filter_iff _ (λ x, (x.1 <=? largestAcked s) && negb (overdue t s x) = true)); [done|].
  intros x. by rewrite (overdue_same _ _ _ _ H), (ls_largest _ _ H).
Qed.

Lemma lose_loop_ok F pend l prior t delay : 0 < delay → ∀ ps kept s (h : handler), sound F pend [] h → getPacketNumberSpace l h = Some s →
  Packets (history s) = kept ++ ps →
  ∃ h' s', lose_loop l prior t delay ps h = Some h' ∧ sound F pend [] h' ∧ leaves l s' h h' ∧ lost_space s s' ∧
    Packets (history s') = kept ++ staying t s ps ∧ lossTime s' = (if lossTime s =? 0 then first_late t delay s ps else lossTime s).
Proof.
  intros Hd. induction ps as [|[pn p] ps IH]; intros kept s h HS Hs HP.
  - exists h, s. split_and!; try done. by destruct (Z.eqb_spec (lossTime s) 0).
  - cbn [lose_loop]. rewrite Hs. cbn [mbind option_bind].
    pose proof (Packets_rising (history s)) as HR. rewrite HP in HR.
    pose proof (Packets_NoDup (history s)) as HN. rewrite HP in HN.
    destruct (Z.ltb_spec (largestAcked s) pn) as [Hlt|Hle].
    + assert (Hall : ∀ x, x ∈ (pn, p) :: ps → largestAcked s < x.1).
      { intros x [i Hi]%list_elem_of_lookup. destruct i as [|i]; [by cbn in Hi; simplify_eq|].
        assert (pn < x.1); [|lia]. apply (HR (length kept) (length kept + S i)%nat (pn, p) x); [lia|by apply list_lookup_middle|].
        rewrite lookup_app_r by lia. by replace (length kept + S i - length kept)%nat with (S i) by lia. }
      exists h, s. split_and!; try done.
      * rewrite HP. f_equal. symmetry. apply filter_all. intros x Hx%Hall. unfold overdue. destruct (Z.leb_spec x.1 (largestAcked s)); [lia|done].
      * unfold first_late. destruct (filter _ _) as [|x l'] eqn:E; [by destruct (Z.eqb_spec (lossTime s) 0)|].
        assert (x ∈ filter (λ x, (x.1 <=? largestAcked s) && negb (overdue t s x) = true) ((pn, p) :: ps)) as Hx by (rewrite E; left).
        apply list_elem_of_filter in Hx as [Hx Hin%Hall]. destruct (Z.leb_spec x.1 (largestAcked s)); [lia|done].
    + destruct (packet_lost t (largestAcked s) pn p (history s)) eqn:Hl.
      * assert (Hin : (pn, p) ∈ Packets (history s)) by (rewrite HP; apply elem_of_app; right; left).
        destruct (lose_packet_ok _ _ _ _ prior _ _ _ HS Hs Hin) as (h1 & hist' & E & S1 & L & V). rewrite E. cbn [mbind option_bind].
        set (s1 := s <| history := hist' |>) in *.
        assert (LS : lost_space s s1) by (split; try done; [apply (lb_skipped _ _ _ L)|apply (lb_probes _ _ _ L)|apply (lb_highest _ _ _ L)]).
        assert (HP1 : Packets (history s1) = kept ++ ps) by (cbn; rewrite (lb_packets _ _ _ L), HP; by apply without_middle).
        destruct (IH kept s1 h1 S1 (lv_get _ _ _ _ V) HP1) as (h2 & s2 & E2 & S2 & [V1 V2] & LS2 & P2 & T2).
        exists h2, s2. assert (O : overdue t s (pn, p) = true) by (unfold overdue; cbn; rewrite Hl; destruct (Z.leb_spec pn (largestAcked s)); [done|lia]).
        split_and!; [done|done|split; [done|by rewrite V2, (lv_shape _ _ _ _ V)]| | |].
        -- destruct LS as [A1 A2 A3 A4 A5 A6], LS2 as [B1 B2 B3 B4 B5 B6]. split; etrans; eassumption.
        -- rewrite P2, (staying_same _ _ _ _ LS). f_equal. unfold staying. by rewrite filter_cons, decide_False by (rewrite O; done).
        -- rewrite T2, (first_late_same _ _ _ _ _ LS). unfold first_late. rewrite (filter_cons _ (pn, p)), decide_False by (rewrite O, andb_false_r; done). done.
      * assert (O : overdue t s (pn, p) = false) by (unfold overdue; cbn; rewrite Hl; apply andb_false_r).
        set (s1 := if lossTime s =? 0 then s <| lossTime := SendTime p + delay |> else s).
        set (h1 := if lossTime s =? 0 then setSpace l (s <| lossTime := SendTime p + delay |>) h else h).
        assert (Hok : space_ok s) by (by eapply sd_spaces). assert (Hok1 : space_ok s1) by (unfold s1; destruct (lossTime s =? 0); [|done]; by destruct Hok).
        assert (S1 : sound F pend [] h1) by (unfold h1; destruct (lossTime s =? 0) eqn:E0; [|done]; eapply sound_set_same; try done; revert Hok1; unfold s1; by rewrite E0).
        assert (G1 : getPacketNumberSpace l h1 = Some s1) by (unfold h1, s1; destruct (lossTime s =? 0); [by eapply get_set|done]).
        assert (Sh1 : shape h1 = shape h) by (unfold h1; destruct (lossTime s =? 0); [by eapply shape_set|done]).
        assert (LS : lost_space s s1) by (unfold s1; by destruct (lossTime s =? 0)).
        assert (HP1 : Packets (history s1) = (kept ++ [(pn, p)]) ++ ps) by (unfold s1; destruct (lossTime s =? 0); rewrite <- app_assoc; exact HP).
        destruct (IH _ s1 h1 S1 G1 HP1) as (h2 & s2 & E2 & S2 & [V1 V2] & LS2 & P2 & T2). exists h2, s2.
        split_and!; [done|done|split; [done|by rewrite V2]| | |].
        -- destruct LS as [A1 A2 A3 A4 A5 A6], LS2 as [B1 B2 B3 B4 B5 B6]. split; etrans; eassumption.
        -- rewrite P2, (staying_same _ _ _ _ LS), <- app_assoc. f_equal. unfold staying. by rewrite filter_cons, decide_True by (rewrite O; done).
        -- rewrite T2, (first_late_same _ _ _ _ _ LS). unfold s1. destruct (Z.eqb_spec (lossTime s) 0) as [Ez|Ez]; [|by rewrite (proj2 (Z.eqb_neq _ _) Ez)].
           cbn [lossTime]. unfold first_late at 2. rewrite (filter_cons _ (pn, p)), decide_True.
           2: { cbn [fst]. rewrite O. destruct (Z.leb_spec pn (largestAcked s)); [done|lia]. }
           cbn [snd]. assert (0 <= SendTime p).
           { pose proof (sk_packets _ Hok) as Hp. rewrite HP, Forall_app, Forall_cons in Hp. apply Hp. }
           change (lossTime (s <| lossTime := SendTime p + delay |>)) with (SendTime p + delay). destruct (Z.eqb_spec (SendTime p + delay) 0); [lia|done].
Qed.

Lemma lossDelay_pos (h : handler) : 0 < lossDelay h.
Proof. unfold lossDelay, TimerGranularity, millisecond. lia. Qed.

Lemma detectLostPackets_ok F pend l s now (h : handler) : sound F pend [] h → getPacketNumberSpace l h = Some s →
  ∃ h' s', detectLostPackets now l h = Some h' ∧ sound F pend [] h' ∧ leaves l s' h h' ∧ lost_space s s' ∧
    Packets (history s') = staying (now - lossDelay h) s (Packets (history s)) ∧
    lossTime s' = first_late (now - lossDelay h) (lossDelay h) s (Packets (history s)).
Proof.
  intros HS Hs. unfold detectLostPackets. rewrite Hs. cbn [mbind option_bind].
  set (s1 := s <| lossTime := 0 |>). set (h0 := h <| lostInfo := [] |>). set (h1 := setSpace l s1 h0).
  assert (S0 : sound F pend [] h0) by same. assert (G0 : getPacketNumberSpace l h0 = Some s) by (rewrite <- Hs; by destruct l).
  assert (Hok : space_ok s1) by (pose proof (sd_spaces _ _ _ _ HS _ _ Hs) as Hok; by destruct Hok).
  assert (S1 : sound F pend [] h1) by by eapply sound_set_same.
  assert (G1 : getPacketNumberSpace l h1 = Some s1) by by eapply get_set. assert (Sh1 : shape h1 = shape h) by (unfold h1; by rewrite (shape_set _ _ _ _ G0)).
  assert (D : lossDelay h1 = lossDelay h) by by destruct l. assert (LS : lost_space s s1) by by split.
  rewrite D. destruct (lose_loop_ok F pend l (bytesInFlight h1) (now - lossDelay h) (lossDelay h) (lossDelay_pos h) (Packets (history s)) [] s1 h1 S1 G1 eq_refl)
    as (h2 & s2 & E & S2 & [V1 V2] & LS2 & P2 & T2).
  exists h2, s2. split_and!; [done|done|split; [done|by rewrite V2]| |by rewrite P2, (staying_same _ _ _ _ LS)|by rewrite T2, (first_late_same _ _ _ _ _ LS)].
  destruct LS as [A1 A2 A3 A4 A5 A6], LS2 as [B1 B2 B3 B4 B5 B6]. split; etrans; eassumption.
Qed.

(** ** Probes of paths *)

Lemma take_probe_in pn p : ∀ l, NoDup l.*1 → (pn, p) ∈ l → take_probe pn l = (Some p, without pn l).
Proof.
  induction l as [|[n q] l IH]; [by intros _ ?%elem_of_nil|]. rewrite fmap_cons. intros [H1 H2]%NoDup_cons Hin. cbn [take_probe]. unfold without. rewrite filter_cons. cbn [fst] in *.
  apply elem_of_cons in Hin as [[= <- <-]|Hin].
  - rewrite Z.eqb_refl, decide_False by tauto. f_equal. symmetry. apply filter_all. intros [m r] Hm. cbn. intros ->. apply H1. by apply list_elem_of_fmap_2' with (pn, r).
  - assert (n ≠ pn) as Hn by (intros ->; apply H1; by apply list_elem_of_fmap_2' with (pn, p)). rewrite decide_True by done.
    destruct (Z.eqb_spec n pn); [done|]. rewrite IH by done. done.
Qed.

Lemma take_probe_out pn l : pn ∉ l.*1 → take_probe pn l = (None, l).
Proof.
  induction l as [|[n q] l IH]; [done|]. rewrite fmap_cons. intros [H1 H2]%not_elem_of_cons. cbn [take_probe]. cbn in H1.
  destruct (Z.eqb_spec n pn); [congruence|]. by rewrite IH.
Qed.

(** A space with some probes less. *)
Definition with_probes (ps : list (Z * packet)) (s : packetNumberSpace) : packetNumberSpace := s <| history := (history s) <| pathProbePackets := ps |> |>.

Lemma with_probes_ok s P `{∀ x, Decision (P x)} : space_ok s → space_ok (with_probes (filter P (pathProbePackets (history s))) s).
Proof.
  intros [H1 H2 [H3 H4] H5 H6]. split; [by destruct H1|done| |done|done]. split; cbn; [by apply rising_filter|].
  rewrite Forall_forall in *. intros x [_ Hx]%list_elem_of_filter. by apply H4.
Qed.

Lemma lose_probes_ok F pend : ∀ ps (h : handler), sound F pend [] h → NoDup ps.*1 → Forall (λ x, x ∈ pathProbePackets (history (appData h))) ps →
  ∃ h', lose_probes ps h = Some h' ∧ sound F pend [] h' ∧ shape h' = shape h ∧ initialSpace h' = initialSpace h ∧ handshakeSpace h' = handshakeSpace h ∧
    appData h' = with_probes (filter (λ x, x.1 ∉ ps.*1) (pathProbePackets (history (appData h)))) (appData h) ∧ lostInfo h' = lostInfo h.
Proof.
  induction ps as [|[pn p] ps IH]; intros h HS Hn Hall.
  - exists h. split_and!; try done. rewrite filter_all by (intros x _; apply not_elem_of_nil). unfold with_probes. destruct (appData h) as [[] ? ? ? ? ?]. done.
  - cbn [lose_probes]. rewrite fmap_cons in Hn. apply NoDup_cons in Hn as [Hn1 Hn2]. apply Forall_cons in Hall as [Hin Hall].
    assert (Hok : space_ok (appData h)) by by apply (sd_spaces _ _ _ _ HS Encryption1RTT). destruct (sk_probes _ Hok) as [Hr Hp].
    assert (Pk : probe_ok (pn, p)) by (rewrite Forall_forall in Hp; by apply (Hp _ Hin)).
    assert (Fr : control_frames p = sent_frames p).
    { apply filter_all. intros f Hf. pose proof (pr_frames _ Pk) as H. rewrite Forall_forall in H. by apply (H _ Hf). }
    assert (Ff : filter (λ f, handled f = true) (sent_frames p) = sent_frames p).
    { apply filter_all. intros f Hf. pose proof (pr_frames _ Pk) as H. rewrite Forall_forall in H. by apply (H _ Hf). }
    rewrite Fr. assert (forallb handled (sent_frames p) = true) as ->.
    { apply forallb_forall. intros f Hf%list_elem_of_In. pose proof (pr_frames _ Pk) as H. rewrite Forall_forall in H. by apply (H _ Hf). }
    set (s1 := with_probes (without pn (pathProbePackets (history (appData h)))) (appData h)).
    assert (R : (RemovePathProbe pn (history (appData h))).1 = history s1).
    { unfold RemovePathProbe. by rewrite (take_probe_in _ _ _ (rising_NoDup _ Hr) Hin). }
    set (h1 := _ <| appData ::= _ |>). assert (E1 : h1 = setSpace Encryption1RTT s1 (tell OnLost (sent_frames p) h)).
    { unfold h1. cbn [setSpace]. change (appData (tell OnLost (sent_frames p) h)) with (appData h).
      assert ((appData h) <| history ::= λ x, (RemovePathProbe pn x).1 |> = s1) as <-; [|done]. unfold set_field; cbn. rewrite R. by destruct (appData h). }
    assert (K : contents (appData h) ≡ₚ [(pn, p)] ++ contents s1).
    { unfold contents. cbn. rewrite (without_perm _ _ _ (rising_NoDup _ Hr) Hin) at 1. by rewrite Permutation_middle. }
    assert (S1 : sound F pend [] h1).
    { rewrite E1. apply (sound_tell _ _ _ OnLost (sent_frames p) (setSpace Encryption1RTT s1 h)); [done|]. rewrite Ff.
      pose proof (sound_set F pend [] h Encryption1RTT (appData h) s1 [(pn, p)] HS eq_refl (with_probes_ok _ _ Hok) K) as T.
      destruct T as [T1 T2 T3 T4 T5]. apply Forall_cons in T2 as [_ T2]. split; [done|done| | |done].
      - cbn [Datatypes.app] in T3. rewrite flight_cons, (flight_of_probe _ Pk) in T3. lia.
      - cbn [frames_in mbind list_bind] in T4. unfold frames_of in T4. cbn [snd] in T4. by rewrite Ff, app_nil_r in T4. }
    rewrite E1 in S1 |- *. destruct (IH _ S1 Hn2) as (h2 & E2 & S2 & Sh2 & I2 & J2 & A2 & L2).
    { rewrite Forall_forall in *. intros x Hx. cbn. apply list_elem_of_filter. split; [|by apply Hall]. intros Hx1. apply Hn1. by apply list_elem_of_fmap_2' with x. }
    exists h2. split_and!; [done|done| |done|done| |done].
    { rewrite Sh2. transitivity (shape (tell OnLost (sent_frames p) h)); [by apply (shape_set Encryption1RTT (appData h))|apply shape_lost]. }
    rewrite A2. cbn. unfold with_probes, without. cbn. f_equal. f_equal.
    rewrite list_filter_filter. apply list_filter_iff. intros x. rewrite not_elem_of_cons. tauto.
Qed.

(** The probes that are a second old are gone, with their frames told. *)
Lemma detectLostPathProbes_ok F pend now (h : handler) : sound F pend [] h →
  ∃ h', detectLostPathProbes now h = Some h' ∧ sound F pend [] h' ∧ shape h' = shape h ∧ initialSpace h' = initialSpace h ∧ handshakeSpace h' = handshakeSpace h ∧
    appData h' = with_probes (filter (λ x, now - pathProbePacketLossTimeout < SendTime x.2) (pathProbePackets (history (appData h)))) (appData h) ∧
    lostInfo h' = lostInfo h.
Proof.
  intros HS. unfold detectLostPathProbes. set (ps := pathProbePackets (history (appData h))).
  assert (Hok : space_ok (appData h)) by by apply (sd_spaces _ _ _ _ HS Encryption1RTT). destruct (sk_probes _ Hok) as [Hr _].
  destruct (lose_probes_ok F pend (filter (λ x, SendTime x.2 <= now - pathProbePacketLossTimeout) ps) h HS) as (h' & E & S1 & Sh & I & J & A & L).
  - by apply rising_NoDup, rising_filter.
  - apply Forall_forall. by intros x [_ Hx]%list_elem_of_filter.
  - exists h'. split_and!; try done. rewrite A. f_equal. apply filter_same. intros x Hx. split.
    + intros Hnin. destruct (Z.lt_ge_cases (now - pathProbePacketLossTimeout) (SendTime x.2)); [done|]. destruct Hnin. apply list_elem_of_fmap_2. by apply list_elem_of_filter.
    + intros Ht [y [Hy [Hyt Hin]%list_elem_of_filter]]%list_elem_of_fmap. assert (x = y) as ->; [|lia]. by eapply rising_inj.
Qed.
End handler.
