(* ===== verification/LossAck.v ===== *)
(** * Acknowledging packets
    ([quic-go/internal/ackhandler/sent_packet_handler.go], [detectAndRemoveAckedPackets]
    and [ReceivedAck])

    The walk over the packets and the ranges of an ACK finds the packets the ranges
    contain; they are told, leave the history and leave the count. *)

From Stdlib Require Import ZArith Lia Bool.
From stdpp Require Import base list.
From S2P Require Import Prelude.
From S2P Require Import GoNet.
From S2P Require Import GoFloat.
From S2P Require Import Wire.
From S2P Require Import WireFrames.
From S2P Require Import AckHistory.
From S2P Require Import AckFrame.
From S2P Require Import AckTracker.
From S2P Require Import RttStats.
From S2P Require Import EcnTracker.
From S2P Require Import SentHistory.
From S2P Require Import SentHistInv.
From S2P Require Import LossDetection.
From S2P Require Import LossInv.
From S2P Require Import LossOps.

Open Scope Z_scope.
Open Scope list_scope.

(** ** Ranges *)

(** A number is in one of the ranges. *)
Definition covers (rs : list AckRange) (pn : Z) : bool := existsb (λ r, (Smallest r <=? pn) && (pn <=? Largest r)) rs.

Lemma covers_iff rs pn : covers rs pn = true ↔ acknowledged pn rs.
Proof.
  unfold covers, acknowledged. rewrite existsb_exists. split; intros (r & Hr & H); exists r; (split; [by apply list_elem_of_In|]).
  - apply andb_true_iff in H. rewrite !Z.leb_le in H. lia.
  - apply andb_true_iff. rewrite !Z.leb_le. lia.
Qed.

Lemma covers_rev rs pn : covers (rev rs) pn = covers rs pn.
Proof. apply eq_true_iff_eq. rewrite !covers_iff. unfold acknowledged. by setoid_rewrite list_elem_of_In; setoid_rewrite <- in_rev. Qed.

(** Ascending ranges, from [lo]. *)
Fixpoint asc (lo : Z) (rs : list AckRange) : Prop :=
  match rs with [] => True | r :: rest => lo <= Smallest r <= Largest r ∧ asc (Largest r + 1) rest end.

Lemma asc_mono lo lo' rs : lo <= lo' → asc lo' rs → asc lo rs.
Proof. destruct rs as [|r rs]; [done|]. cbn. intros ? [? ?]. by split; [lia|]. Qed.

Lemma asc_snoc x : Smallest x <= Largest x → ∀ rs lo, asc lo rs → lo <= Smallest x → (∀ r, r ∈ rs → Largest r < Smallest x) → asc lo (rs ++ [x]).
Proof.
  intros Hx. induction rs as [|r rs IH]; intros lo Ha Hlo Hall; [by cbn; split|]. cbn in *. destruct Ha as [Ha1 Ha2]. split; [done|].
  apply IH; [done| |intros q Hq; apply Hall; by right]. specialize (Hall r ltac:(left)). lia.
Qed.

Lemma desc_asc : ∀ rs hi, ranges_desc hi rs → asc 0 (rev rs).
Proof.
  induction rs as [|r rs IH]; intros hi; [done|]. cbn [ranges_desc rev]. intros (H1 & H2 & H3). apply asc_snoc; [lia|by eapply IH|lia|].
  intros q Hq%list_elem_of_In. apply in_rev in Hq. apply list_elem_of_In in Hq. apply list_elem_of_lookup in Hq as [i Hi].
  pose proof (ranges_desc_lookup _ _ _ _ H3 Hi). lia.
Qed.

Lemma asc_covers lo rs pn : asc lo rs → covers rs pn = true → lo <= pn.
Proof.
  revert lo. induction rs as [|r rs IH]; intros lo; [done|]. cbn. intros [H1 H2] [H|H]%orb_true_iff.
  - apply andb_true_iff in H. rewrite !Z.leb_le in H. lia.
  - specialize (IH _ H2 H). lia.
Qed.

Lemma covers_cons r rs pn : covers (r :: rs) pn = ((Smallest r <=? pn) && (pn <=? Largest r)) || covers rs pn.
Proof. done. Qed.

Lemma asc_in x : ∀ rs lo, asc lo rs → x ∈ rs → lo <= Smallest x <= Largest x.
Proof.
  induction rs as [|r rs IH]; intros lo; [by intros _ ?%elem_of_nil|]. cbn. intros [H1 H2] [->|H]%elem_of_cons; [done|]. specialize (IH _ H2 H). lia.
Qed.

Lemma covers_last rs x lo pn : asc lo rs → last rs = Some x → covers rs pn = true → pn <= Largest x.
Proof.
  revert lo. induction rs as [|r rs IH]; intros lo; [done|]. cbn [asc]. intros [H1 H2] Hl. rewrite covers_cons. intros H.
  assert (D : x = r ∧ rs = [] ∨ x ∈ rs ∧ last rs = Some x).
  { destruct rs as [|q rs]; [left; cbn in Hl; by simplify_eq|right]. split; [|done]. apply last_Some in Hl as [l' E]. destruct l' as [|y l']; [done|].
    cbn in E. injection E as -> E. rewrite E. apply elem_of_app. right. left. }
  apply orb_true_iff in H as [H|H].
  - apply andb_true_iff in H. rewrite !Z.leb_le in H. destruct D as [[-> _]|[D _]]; [lia|]. pose proof (asc_in _ _ _ H2 D). lia.
  - destruct D as [[_ ->]|[_ D]]; [done|by eapply IH].
Qed.

(** The walk over the ranges: what it passes lies below, what it stops at is not below
    unless it is the last. *)
Lemma seek_spec pn : ∀ rs lo, asc lo rs → rs ≠ [] → ∃ r rest lo', seek pn rs = r :: rest ∧ lo <= lo' ∧ asc lo' (r :: rest) ∧ last (r :: rest) = last rs ∧
  (∀ n, pn <= n → covers (r :: rest) n = covers rs n) ∧ (Largest r < pn → rest = []).
Proof.
  induction rs as [|r rs IH]; intros lo Ha Hne; [done|]. destruct rs as [|q rs].
  - exists r, [], lo. split_and!; try done.
  - cbn [seek]. destruct (Z.ltb_spec (Largest r) pn).
    + destruct Ha as [H1 H2]. destruct (IH _ H2 ltac:(done)) as (r' & rest & lo' & E1 & E2 & E3 & E4 & E5 & E6). exists r', rest, lo'.
      split_and!; [exact E1|lia|done|by rewrite E4| |done]. intros n Hn. rewrite E5, (covers_cons r) by done. by rewrite (proj2 (Z.leb_gt n (Largest r))), andb_false_r by lia.
    + exists r, (q :: rs), lo. split_and!; try done. all: lia.
Qed.

(** ** What an ACK acknowledges *)

Definition probe_at (pn : Z) (probes : list (Z * packet)) : option packet := (take_probe pn probes).1.

(** A packet of the history that is covered, or the probe whose place it holds. *)
Definition acked_entry (f : Z → bool) (probes : list (Z * packet)) (x : Z * packet) : option (Z * packet) :=
  if f x.1 then (if isPathProbePacket x.2 then (λ q, (x.1, q)) <$> probe_at x.1 probes else Some x) else None.

Definition acked_now (f : Z → bool) (ps probes : list (Z * packet)) : list (Z * packet) := omap (acked_entry f probes) ps.

(** The numbers of the probes that are taken. *)
Definition probed (f : Z → bool) (ps : list (Z * packet)) : list Z := (filter (λ x, f x.1 && isPathProbePacket x.2 = true) ps).*1.

Definition acks_eliciting (f : Z → bool) (ps : list (Z * packet)) : bool := existsb (λ x, f x.1 && negb (isPathProbePacket x.2) && IsAckEliciting x.2) ps.

Lemma take_probe_cases pn l : NoDup l.*1 → ∃ r, take_probe pn l = (r, without pn l) ∧ match r with Some p => (pn, p) ∈ l | None => pn ∉ l.*1 end.
Proof.
  intros Hn. destruct (decide (pn ∈ l.*1)) as [Hin|Hin].
  - apply list_elem_of_fmap in Hin as [[n p] [-> Hin]]. exists (Some p). split; [by apply take_probe_in|done].
  - exists None. split; [|done]. rewrite take_probe_out by done. f_equal. symmetry. apply filter_all. intros x Hx Hxn. apply Hin. rewrite <- Hxn. by apply list_elem_of_fmap_2.
Qed.

Lemma probe_at_iff pn q l : NoDup l.*1 → probe_at pn l = Some q ↔ (pn, q) ∈ l.
Proof.
  intros Hn. unfold probe_at. destruct (take_probe_cases pn l Hn) as (r & E & H). rewrite E. cbn. split.
  - intros ->. done.
  - intros Hin. rewrite (take_probe_in _ _ _ Hn Hin) in E. by simplify_eq.
Qed.

Lemma without_NoDup pn (l : list (Z * packet)) : NoDup l.*1 → NoDup (without pn l).*1.
Proof.
  unfold without. induction l as [|x l IH]; [done|]. rewrite fmap_cons. intros [H1 H2]%NoDup_cons. rewrite filter_cons. destruct (decide _); [|by apply IH].
  rewrite fmap_cons. apply NoDup_cons. split; [|by apply IH]. intros (y & Hy & [_ Hin]%list_elem_of_filter)%list_elem_of_fmap. apply H1. rewrite Hy. by apply list_elem_of_fmap_2.
Qed.

Lemma probe_at_without n pn l : NoDup l.*1 → n ≠ pn → probe_at n (without pn l) = probe_at n l.
Proof.
  intros Hn Hne. apply option_eq. intros q. rewrite !probe_at_iff by (try apply without_NoDup; done). unfold without. rewrite list_elem_of_filter. cbn. tauto.
Qed.

Lemma acked_now_without f pn ps probes : NoDup probes.*1 → (∀ x, x ∈ ps → x.1 ≠ pn) → acked_now f ps (without pn probes) = acked_now f ps probes.
Proof.
  intros Hn. induction ps as [|x ps IH]; intros Hall; [done|]. unfold acked_now in *. cbn [omap list_omap]. rewrite IH by (intros y Hy; apply Hall; by right).
  unfold acked_entry. by rewrite probe_at_without by (try apply Hall; try left; done).
Qed.

(** The three results, one packet at a time. *)
Lemma acked_now_cons f x ps probes : acked_now f (x :: ps) probes = (match acked_entry f probes x with Some e => [e] | None => [] end) ++ acked_now f ps probes.
Proof. unfold acked_now. cbn [omap list_omap]. by destruct (acked_entry f probes x). Qed.

Lemma probed_cons f x ps : probed f (x :: ps) = (if f x.1 && isPathProbePacket x.2 then [x.1] else []) ++ probed f ps.
Proof. unfold probed. rewrite filter_cons. destruct (f x.1 && isPathProbePacket x.2); [by rewrite decide_True|by rewrite decide_False]. Qed.

Lemma eliciting_cons f x ps : acks_eliciting f (x :: ps) = (f x.1 && negb (isPathProbePacket x.2) && IsAckEliciting x.2) || acks_eliciting f ps.
Proof. done. Qed.

(** They look at the numbers of the packets only. *)
Lemma acked_ext f g ps probes : (∀ x, x ∈ ps → f x.1 = g x.1) →
  acked_now f ps probes = acked_now g ps probes ∧ probed f ps = probed g ps ∧ acks_eliciting f ps = acks_eliciting g ps.
Proof.
  induction ps as [|x ps IH]; intros H; [done|]. destruct IH as (E1 & E2 & E3); [intros y Hy; apply H; by right|]. specialize (H x ltac:(left)).
  rewrite !acked_now_cons, !probed_cons, !eliciting_cons. unfold acked_entry. by rewrite E1, E2, E3, H.
Qed.

Lemma acked_none f ps probes : (∀ x, x ∈ ps → f x.1 = false) → acked_now f ps probes = [] ∧ probed f ps = [] ∧ acks_eliciting f ps = false.
Proof.
  induction ps as [|x ps IH]; intros H; [done|]. destruct IH as (E1 & E2 & E3); [intros y Hy; apply H; by right|]. specialize (H x ltac:(left)).
  rewrite acked_now_cons, probed_cons, eliciting_cons. unfold acked_entry. by rewrite E1, E2, E3, H.
Qed.

(** What the walk is to return. *)
Definition found (f : Z → bool) (ps probes : list (Z * packet)) : collected :=
  mkCollected (acked_now f ps probes) (filter (λ x, x.1 ∉ probed f ps) probes) (acks_eliciting f ps).

Lemma found_ext f g ps probes : (∀ x, x ∈ ps → f x.1 = g x.1) → found f ps probes = found g ps probes.
Proof. intros H. destruct (acked_ext f g ps probes H) as (E1 & E2 & E3). unfold found. by rewrite E1, E2, E3. Qed.

Lemma found_none f ps probes : (∀ x, x ∈ ps → f x.1 = false) → found f ps probes = mkCollected [] probes false.
Proof.
  intros H. destruct (acked_none f ps probes H) as (E1 & E2 & E3). unfold found. rewrite E1, E2, E3. f_equal. apply filter_all. intros x _. apply not_elem_of_nil.
Qed.

Lemma found_skip f x ps probes : f x.1 = false → found f (x :: ps) probes = found f ps probes.
Proof. intros H. unfold found. rewrite acked_now_cons, probed_cons, eliciting_cons. unfold acked_entry. by rewrite H. Qed.

Lemma found_packet f x ps probes : f x.1 = true → isPathProbePacket x.2 = false →
  found f (x :: ps) probes = let c := found f ps probes in mkCollected (x :: newly c) (probes_left c) (IsAckEliciting x.2 || eliciting c).
Proof. intros H1 H2. unfold found. rewrite acked_now_cons, probed_cons, eliciting_cons. unfold acked_entry. by rewrite H1, H2. Qed.

Lemma found_probe f pn p ps probes : f pn = true → isPathProbePacket p = true → NoDup probes.*1 → (∀ x, x ∈ ps → pn < x.1) →
  found f ((pn, p) :: ps) probes =
    let c := found f ps (without pn probes) in
    mkCollected (match probe_at pn probes with Some q => [(pn, q)] | None => [] end ++ newly c) (probes_left c) (eliciting c).
Proof.
  intros H1 H2 Hn Hab. unfold found. rewrite acked_now_cons, probed_cons, eliciting_cons. unfold acked_entry. cbn [fst snd]. rewrite H1, H2. cbn [andb orb negb newly probes_left eliciting].
  rewrite acked_now_without by (try done; intros x Hx%Hab; lia). f_equal.
  - by destruct (probe_at pn probes).
  - unfold without. rewrite list_filter_filter. apply list_filter_iff. intros x. rewrite elem_of_app, list_elem_of_singleton. tauto.
Qed.

(** The packets an ACK is found to acknowledge are those its ranges cover. *)
Lemma collect_spec miss low high : ∀ ps rs probes lo, asc lo rs → low <= lo → rs ≠ [] → Largest <$> last rs = Some high →
  (miss = false → ∃ r, rs = [r] ∧ Smallest r = low) → rising ps → NoDup probes.*1 →
  collect_acked miss low high rs ps probes = inl (found (covers rs) ps probes).
Proof.
  induction ps as [|[pn p] ps IH]; intros rs probes lo Ha Hlo Hne Hh Hm Hr Hp; [by rewrite found_none by (intros x ?%elem_of_nil; done)|].
  apply rising_cons in Hr as [Hr1 Hr2]. cbn [fst] in Hr1. cbn [collect_acked]. destruct (Z.ltb_spec pn low).
  { rewrite (IH rs probes lo), found_skip; try done. apply not_true_iff_false. intros Hc. apply (asc_covers _ _ _ Ha) in Hc. cbn in Hc. lia. }
  destruct (Z.ltb_spec high pn).
  { rewrite found_none; [done|]. intros x Hx. apply not_true_iff_false. intros Hc. destruct (last rs) as [y|] eqn:El; [|done]. cbn in Hh. simplify_eq.
    pose proof (covers_last _ _ _ _ Ha El Hc). apply elem_of_cons in Hx as [->|Hx%Hr1]; cbn in *; lia. }
  assert (W : ∃ r rest lo', (if miss then seek pn rs else rs) = r :: rest ∧ low <= lo' ∧ asc lo' (r :: rest) ∧ Largest <$> last (r :: rest) = Some high ∧
    (∀ n, pn <= n → covers (r :: rest) n = covers rs n) ∧ (Largest r < pn → rest = []) ∧ (miss = false → rest = [] ∧ Smallest r = low)).
  { destruct miss.
    - destruct (seek_spec pn rs lo Ha Hne) as (r & rest & lo' & E1 & E2 & E3 & E4 & E5 & E6). exists r, rest, lo'. split_and!; try done; [lia|by rewrite E4].
    - destruct (Hm eq_refl) as (r & -> & E). exists r, [], lo. by split_and!. }
  destruct W as (r & rest & lo' & -> & W1 & W2 & W3 & W4 & W5 & W6). rewrite (found_ext (covers rs) (covers (r :: rest))).
  2: { intros x Hx. symmetry. apply W4. apply elem_of_cons in Hx as [->|Hx%Hr1]; cbn; lia. }
  clear W4 Hm Hh Hne Ha Hlo rs. pose proof W2 as [W2a W2b].
  assert (Hrec : ∀ pr, NoDup pr.*1 → collect_acked miss low high (r :: rest) ps pr = inl (found (covers (r :: rest)) ps pr)).
  { intros pr Hpr. apply (IH _ _ lo'); try done. intros Hm. destruct (W6 Hm) as [-> Hs]. by exists r. }
  destruct (miss && (pn <? Smallest r)) eqn:M1.
  { apply andb_true_iff in M1 as [-> M1%Z.ltb_lt]. rewrite Hrec, found_skip; [done| |done]. cbn [fst]. apply not_true_iff_false. rewrite covers_cons. intros [Hc|Hc]%orb_true_iff.
    - apply andb_true_iff in Hc. rewrite !Z.leb_le in Hc. lia.
    - apply (asc_covers _ _ _ W2b) in Hc. lia. }
  assert (Hle : pn <= Largest r).
  { destruct (Z.lt_ge_cases (Largest r) pn) as [Hl|]; [|lia]. rewrite (W5 Hl) in W3. cbn in W3. injection W3 as W3. lia. }
  rewrite (proj2 (Z.ltb_ge _ _) Hle), andb_false_r.
  assert (C : covers (r :: rest) pn = true).
  { rewrite covers_cons. apply orb_true_iff. left. apply andb_true_iff. rewrite !Z.leb_le. split; [|done].
    destruct miss; [cbn in M1; by apply Z.ltb_ge in M1|]. destruct (W6 eq_refl) as [_ ->]. lia. }
  destruct (isPathProbePacket p) eqn:Pb.
  - rewrite found_probe by done. unfold probe_at. destruct (take_probe_cases pn probes Hp) as (q & E & _). rewrite E. cbn [fst].
    rewrite Hrec by by apply without_NoDup. by destruct q.
  - by rewrite Hrec, found_packet.
Qed.

(** ** The packets found *)

Lemma acked_in f ps probes x : x ∈ acked_now f ps probes ↔ f x.1 = true ∧ ∃ p, (x.1, p) ∈ ps ∧
  (if isPathProbePacket p then probe_at x.1 probes = Some x.2 else x.2 = p).
Proof.
  unfold acked_now. rewrite list_elem_of_omap. unfold acked_entry. split.
  - intros ([n p] & Hin & H). cbn in H. destruct (f n) eqn:Hf; [|done]. destruct (isPathProbePacket p) eqn:Pb.
    + destruct (probe_at n probes) as [q|] eqn:E; [|done]. cbn in H. simplify_eq. cbn. split; [done|]. exists p. by rewrite Pb.
    + simplify_eq. cbn. split; [done|]. exists p. by rewrite Pb.
  - intros (Hf & p & Hin & H). exists (x.1, p). split; [done|]. cbn. rewrite Hf. destruct (isPathProbePacket p); [rewrite H; by destruct x|]. destruct x. cbn in *. by subst.
Qed.

Lemma acked_rising f ps probes : rising ps → rising (acked_now f ps probes).
Proof.
  induction ps as [|x ps IH]; intros Hr; [done|]. apply rising_cons in Hr as [H1 H2]. rewrite acked_now_cons. specialize (IH H2).
  destruct (acked_entry f probes x) as [e|] eqn:E; [|done]. assert (He : e.1 = x.1).
  { unfold acked_entry in E. destruct (f x.1); [|done]. destruct (isPathProbePacket x.2); [|by simplify_eq]. destruct (probe_at x.1 probes); [|done]. cbn in E. by simplify_eq. }
  cbn [Datatypes.app]. apply rising_cons. split; [|done]. intros y (_ & p & Hy & _)%acked_in. rewrite He. by apply (H1 _ Hy).
Qed.

(** ** Settling *)

Definition is_probe (x : Z * packet) : bool := isPathProbePacket x.2.
Definition probes_of (ns : list (Z * packet)) : list (Z * packet) := filter (λ x, is_probe x = true) ns.
Definition plain_of (ns : list (Z * packet)) : list (Z * packet) := filter (λ x, is_probe x = false) ns.

(** A packet found is in the history, or its place is. *)
Definition entry_of (ps : list (Z * packet)) (x : Z * packet) : Prop :=
  ∃ p0, (x.1, p0) ∈ ps ∧ if is_probe x then isPathProbePacket p0 = true else p0 = x.2.

(** The entries found are of the history, and the probes among them are those taken. *)
Section entries.
Context (f : Z → bool) (s : packetNumberSpace) (Hok : space_ok s).

Abbreviation hps := (Packets (history s)).
Abbreviation hprobes := (pathProbePackets (history s)).

Lemma probes_NoDup : NoDup hprobes.*1.
Proof. apply rising_NoDup. apply (sk_probes _ Hok). Qed.

Lemma probes_in x : x ∈ hprobes → probe_ok x.
Proof. destruct (sk_probes _ Hok) as [_ H]. rewrite Forall_forall in H. intros Hx. by apply H in Hx as [? _]. Qed.

Lemma found_kind x p : (if isPathProbePacket p then probe_at x.1 hprobes = Some x.2 else x.2 = p) → is_probe x = isPathProbePacket p.
Proof.
  unfold is_probe. destruct (isPathProbePacket p) eqn:Pb; [|by intros ->]. intros H%probe_at_iff; [|apply probes_NoDup].
  replace (x.1, x.2) with x in H by by destruct x. by apply probes_in, pr_probe in H.
Qed.

Lemma found_entries : Forall (entry_of hps) (acked_now f hps hprobes).
Proof.
  apply Forall_forall. intros x (Hf & p & Hin & H)%acked_in. exists p. split; [done|]. rewrite (found_kind _ _ H). by destruct (isPathProbePacket p).
Qed.

Lemma found_countable : Forall countable (acked_now f hps hprobes).
Proof.
  apply Forall_forall. intros x (Hf & p & Hin & H)%acked_in. destruct (isPathProbePacket p).
  - apply probe_at_iff in H; [|apply probes_NoDup]. right. replace x with (x.1, x.2) by by destruct x. by apply probes_in.
  - left. pose proof (sk_packets _ Hok) as Hp. rewrite Forall_forall in Hp. replace x with (x.1, p) by (destruct x; cbn in *; by subst). by apply Hp.
Qed.

Lemma taken_probes : hprobes ≡ₚ probes_of (acked_now f hps hprobes) ++ filter (λ x, x.1 ∉ probed f hps) hprobes.
Proof.
  rewrite <- (filter_app_complement (λ x, x.1 ∈ probed f hps) hprobes) at 1. f_equiv.
  assert (Nd : ∀ l : list (Z * packet), NoDup l.*1 → NoDup l) by (intros l; apply NoDup_fmap_1).
  apply NoDup_Permutation.
  - apply NoDup_filter, Nd, probes_NoDup.
  - apply NoDup_filter, Nd, rising_NoDup, acked_rising, Packets_rising.
  - intros x. unfold probes_of. rewrite !list_elem_of_filter, acked_in. unfold probed. rewrite list_elem_of_fmap. setoid_rewrite list_elem_of_filter. split.
    + intros [(y & Hy & [Hf Pb]%andb_true_iff & Hin) Hx]. pose proof (pr_probe _ (probes_in _ Hx)) as Px. split; [done|]. rewrite Hy. split; [done|].
      exists y.2. replace (y.1, y.2) with y by by destruct y. rewrite Pb. split; [done|]. apply probe_at_iff; [apply probes_NoDup|]. rewrite <- Hy. by destruct x.
    + intros (Hpx & Hf & p & Hin & H). rewrite (found_kind _ _ H) in Hpx. rewrite Hpx in H. apply probe_at_iff in H; [|apply probes_NoDup]. split; [|by destruct x].
      exists (x.1, p). cbn. by rewrite Hf, Hpx.
Qed.
End entries.

(** A history without some numbers. *)
Record gone_from (keys : list Z) (h h' : sentPacketHistory) : Prop := mkGone {
  gf_packets : Packets h' = filter (λ x, x.1 ∉ keys) (Packets h);
  gf_probes : pathProbePackets h' = pathProbePackets h;
  gf_skipped : skippedPackets h' = skippedPackets h;
  gf_highest : highestPacketNumber h' = highestPacketNumber h;
}.

Lemma gone_nil h : gone_from [] h h.
Proof. split; try done. symmetry. apply filter_all. intros x _. apply not_elem_of_nil. Qed.

Lemma gone_cons pn keys h h1 h2 : left_by pn h h1 → gone_from keys h1 h2 → gone_from (pn :: keys) h h2.
Proof.
  intros L [G1 G2 G3 G4]. split; [|by rewrite G2, (lb_probes _ _ _ L)|by rewrite G3, (lb_skipped _ _ _ L)|by rewrite G4, (lb_highest _ _ _ L)].
  rewrite G1, (lb_packets _ _ _ L). unfold without. rewrite list_filter_filter. apply list_filter_iff. intros x. rewrite not_elem_of_cons. tauto.
Qed.

Section handler.
Context {CC : Type} `{!SendAlgorithm CC}.
Abbreviation handler := (sentPacketHandler CC).

Ltac same := eapply sound_same; [eassumption|done..].

Lemma tell_set c fs l s (h : handler) : setSpace l s (tell c fs h) = tell c fs (setSpace l s h).
Proof. by destruct l. Qed.

Lemma acked_tell fs (h : handler) : acked_frames (calls (tell OnAcked fs h)) = acked_frames (calls h) ++ filter (λ f, handled f = true) fs.
Proof.
  unfold tell, acked_frames. cbn. rewrite bind_app. f_equal. generalize (filter (λ f, handled f = true) fs). intros l.
  induction l as [|x l IH]; [done|]. rewrite fmap_cons, bind_cons, IH. done.
Qed.

(** [OnAcked] is told, and the packet leaves. *)
Lemma settle_one F pend owed l s pn q (h : handler) : sound F pend owed h → getPacketNumberSpace l h = Some s → entry_of (Packets (history s)) (pn, q) →
  (is_probe (pn, q) = true → ∃ owed', owed = frames_of (pn, q) ++ owed') →
  ∃ hist', Remove pn (history s) = Some (Some hist') ∧ left_by pn (history s) hist' ∧
    sound F (plain_of [(pn, q)] ++ pend) (if is_probe (pn, q) then drop (length (frames_of (pn, q))) owed else owed)
      (setSpace l (s <| history := hist' |>) (tell OnAcked (sent_frames q) h)).
Proof.
  intros HS Hs (p0 & Hin & Hp0) Ho. cbn [fst snd] in *. pose proof (sd_spaces _ _ _ _ HS _ _ Hs) as Hok.
  destruct (Remove_ok _ _ _ (sk_hist _ Hok) Hin) as (hist' & E & L). exists hist'. split_and!; [done|done|].
  destruct (left_space _ _ _ _ Hok Hin L) as [K P]. pose proof (sound_set _ _ _ _ _ _ _ [(pn, p0)] HS Hs K P) as R.
  assert (Pk : packet_ok (pn, p0)) by (pose proof (sk_packets _ Hok) as Hp; rewrite Forall_forall in Hp; by apply Hp).
  rewrite tell_set. apply sound_tell; [done|]. unfold plain_of. rewrite filter_cons. destruct (is_probe (pn, q)) eqn:Eq.
  - rewrite decide_False by done. destruct (Ho eq_refl) as [owed' ->]. rewrite drop_app_length. cbn [frames_in mbind list_bind Datatypes.app filter list_filter] in R |- *.
    rewrite app_nil_r in R. eapply (quiet_free F pend _ pn p0); [done|by rewrite Hp0|]. exact R.
  - rewrite decide_True by done. subst p0. cbn [frames_in mbind list_bind Datatypes.app filter list_filter] in R |- *. by rewrite app_nil_r in R.
Qed.

Lemma entry_left pn h h' x : left_by pn h h' → x.1 ≠ pn → entry_of (Packets h) x → entry_of (Packets h') x.
Proof.
  intros L Hne (p0 & Hin & H). exists p0. split; [|done]. rewrite (lb_packets _ _ _ L). by apply list_elem_of_filter.
Qed.

Lemma settle_ok F l : ∀ ns pend s (h : handler), sound F pend (frames_in (probes_of ns)) h → getPacketNumberSpace l h = Some s → NoDup ns.*1 →
  Forall (entry_of (Packets (history s))) ns →
  ∃ h' hist', settle_acked l ns h = Some (inl h') ∧ sound F (plain_of ns ++ pend) [] h' ∧ getPacketNumberSpace l h' = Some (s <| history := hist' |>) ∧
    gone_from ns.*1 (history s) hist' ∧ standing h' = standing h ∧ rttStats h' = rttStats h ∧ acked_frames (calls h') = acked_frames (calls h) ++ frames_in ns.
Proof.
  induction ns as [|[pn q] ns IH]; intros pend s h HS Hs Hn Hall.
  - exists h, (history s). split_and!; try done; [by destruct s|apply gone_nil|by rewrite app_nil_r].
  - rewrite fmap_cons in Hn. apply NoDup_cons in Hn as [Hn1 Hn2]. apply Forall_cons in Hall as [He Hall]. cbn [settle_acked].
    set (h0 := if negb _ && _ && _ then _ else h). assert (S0 : sound F pend (frames_in (probes_of ((pn, q) :: ns))) h0).
    { unfold h0. destruct (negb _ && _ && _); [|done]. eapply sound_same; try done. cbn. rewrite told_app. cbn. by rewrite app_nil_r. }
    assert (H0 : getPacketNumberSpace l h0 = Some s ∧ standing h0 = standing h ∧ rttStats h0 = rttStats h ∧ acked_frames (calls h0) = acked_frames (calls h)).
    { unfold h0. destruct (negb _ && _ && _); [|done]. split_and!; [rewrite <- Hs; by destruct l|done|done|]. unfold acked_frames. cbn. rewrite bind_app. cbn. by rewrite app_nil_r. }
    destruct H0 as (G0 & T0 & R0 & A0). clearbody h0.
    assert (Ho : is_probe (pn, q) = true → ∃ owed', frames_in (probes_of ((pn, q) :: ns)) = frames_of (pn, q) ++ owed').
    { intros Hp. exists (frames_in (probes_of ns)). unfold probes_of. by rewrite filter_cons, decide_True. }
    destruct (settle_one _ _ _ _ _ _ _ _ S0 G0 He Ho) as (hist' & E & L & S1).
    rewrite tell_get, G0. cbn [mbind option_bind]. rewrite E. cbn [mbind option_bind].
    set (s1 := s <| history := hist' |>) in *. set (h1 := setSpace l s1 (tell OnAcked (sent_frames q) h0)) in *.
    assert (S1' : sound F (plain_of [(pn, q)] ++ pend) (frames_in (probes_of ns)) h1).
    { clear -S1. unfold probes_of in S1. rewrite filter_cons in S1. destruct (is_probe (pn, q)) eqn:Eq.
      - rewrite decide_True in S1 by done. change (frames_in (?x :: ?l)) with (frames_of x ++ frames_in l) in S1. by rewrite drop_app_length in S1.
      - by rewrite decide_False in S1. }
    assert (G1 : getPacketNumberSpace l h1 = Some s1) by (eapply get_set; by rewrite tell_get).
    assert (Hall1 : Forall (entry_of (Packets (history s1))) ns).
    { rewrite Forall_forall in *. intros x Hx. apply (entry_left pn (history s)); [done| |by apply Hall]. intros Hx1. apply Hn1. by apply list_elem_of_fmap_2' with x. }
    destruct (IH _ s1 h1 S1' G1 Hn2 Hall1) as (h2 & hist2 & E2 & S2 & G2 & D2 & T2 & R2 & A2).
    exists h2, hist2. split_and!; [done| |done|by eapply gone_cons| | |].
    + eapply sound_pend; [|exact S2]. unfold plain_of. rewrite (filter_cons _ (pn, q)). rewrite (filter_cons _ (pn, q) ns).
      destruct (decide _); [|done]. cbn [Datatypes.app filter list_filter]. by rewrite Permutation_middle.
    + rewrite T2. transitivity (standing (tell OnAcked (sent_frames q) h0)); [|done]. by apply shape_standing, (shape_set l s); rewrite tell_get.
    + rewrite R2, <- R0. by destruct l.
    + rewrite A2. replace (calls h1) with (calls (tell OnAcked (sent_frames q) h0)) by by destruct l. rewrite acked_tell, A0, <- app_assoc. done.
Qed.

(** *** Skipped numbers *)

Lemma acked_skip_spec hi (ack : AckFrame) : AckRanges ack ≠ [] → ranges_desc hi (AckRanges ack) →
  ∀ ps, acked_skip ack ps = Some (List.find (covers (AckRanges ack)) ps).
Proof.
  intros Hne Hd. induction ps as [|p ps IH]; [done|]. cbn [acked_skip List.find]. destruct (acks_packet_spec hi p ack Hne Hd) as (b & E & Hb).
  rewrite E. cbn [mbind option_bind]. assert (b = covers (AckRanges ack) p) as -> by (apply eq_true_iff_eq; by rewrite Hb, covers_iff). by destruct (covers _ _).
Qed.

(** What an ACK finds in a space. *)
Definition found_by (ack : AckFrame) (s : packetNumberSpace) : list (Z * packet) :=
  acked_now (covers (AckRanges ack)) (Packets (history s)) (pathProbePackets (history s)).

Lemma collect_ack hi (ack : AckFrame) low high s : AckRanges ack ≠ [] → ranges_desc hi (AckRanges ack) → LowestAcked ack = Some low → LargestAcked ack = Some high → space_ok s →
  collect_acked (HasMissingRanges ack) low high (rev (AckRanges ack)) (Packets (history s)) (pathProbePackets (history s)) =
    inl (found (covers (AckRanges ack)) (Packets (history s)) (pathProbePackets (history s))).
Proof.
  intros Hne Hd Hl Hh Hok. unfold LowestAcked in Hl. unfold LargestAcked in Hh. unfold HasMissingRanges. set (rs := AckRanges ack) in *.
  pose proof (desc_asc _ _ Hd) as Ha. destruct (last rs) as [bot|] eqn:Eb; [|done]. cbn in Hl. injection Hl as <-.
  pose proof Eb as Eb'. apply last_Some in Eb' as [l' El]. assert (Er : rev rs = bot :: rev l') by by rewrite El, rev_app_distr.
  rewrite (collect_spec _ _ _ _ _ _ (Smallest bot)).
  - do 1 f_equal. apply found_ext. intros x _. apply covers_rev.
  - rewrite Er in Ha |- *. cbn in *. split; [lia|tauto].
  - lia.
  - by rewrite Er.
  - destruct rs as [|top rs'] eqn:E; [done|]. cbn in Hh. injection Hh as <-. cbn [rev]. by rewrite last_snoc.
  - intros Hm. destruct rs as [|r [|r' rs']] eqn:E; [done| |done]. exists r. cbn in *. by simplify_eq.
  - apply Packets_rising.
  - by apply probes_NoDup.
Qed.

(** What is left of the history of a space when the packets [ns] were found. *)
Record emptied (ack : AckFrame) (s : packetNumberSpace) (hist : sentPacketHistory) : Prop := mkEmptied {
  em_packets : Packets hist = filter (λ x, x.1 ∉ (found_by ack s).*1) (Packets (history s));
  em_skipped : skippedPackets hist = skippedPackets (history s);
  em_highest : highestPacketNumber hist = highestPacketNumber (history s);
}.

(** A space's probes, some taken. *)
Lemma sound_probes F l s ack (h : handler) : sound F [] [] h → getPacketNumberSpace l h = Some s →
  let left := filter (λ x, x.1 ∉ probed (covers (AckRanges ack)) (Packets (history s))) (pathProbePackets (history s)) in
  sound F [] (frames_in (probes_of (found_by ack s))) (setSpace l (with_probes left s) h).
Proof.
  intros HS Hs left. pose proof (sd_spaces _ _ _ _ HS _ _ Hs) as Hok. set (f := covers (AckRanges ack)) in *.
  assert (P : contents s ≡ₚ probes_of (found_by ack s) ++ contents (with_probes left s)).
  { unfold contents. change (pathProbePackets (history (with_probes left s))) with left. change (Packets (history (with_probes left s))) with (Packets (history s)).
    rewrite (taken_probes f s Hok) at 1. fold left. change (acked_now f _ _) with (found_by ack s). solve_Permutation. }
  pose proof (sound_set F [] [] h l s _ _ HS Hs (with_probes_ok _ _ Hok) P) as [T1 T2 T3 T4 T5]. split; [done|done| | |done].
  - etrans; [exact T3|]. rewrite !flight_app. change (flight []) with 0. enough (flight (probes_of (found_by ack s)) = 0) as -> by done.
    apply flight_probes. apply Forall_forall. intros x [Hp (Hf & p & Hin & H)%acked_in]%list_elem_of_filter. rewrite (found_kind s Hok _ _ H) in Hp. rewrite Hp in H.
      apply probe_at_iff in H; [|by apply probes_NoDup]. apply (probes_in s Hok). by destruct x.
  - rewrite app_nil_r in T4. exact T4.
Qed.

Lemma detectAndRemove_ok F hi l s ack (h : handler) : sound F [] [] h → getPacketNumberSpace l h = Some s → AckRanges ack ≠ [] → ranges_desc hi (AckRanges ack) →
  let skip := if is_1RTT l then List.find (covers (AckRanges ack)) (skippedPackets (history s)) else None in
  match skip with
  | Some p => detectAndRemoveAckedPackets ack l h = Some (inr (AckSkipped p))
  | None => ∃ h' hist' e, detectAndRemoveAckedPackets ack l h = Some (inl (h', found_by ack s, e)) ∧ sound F (plain_of (found_by ack s)) [] h' ∧
      getPacketNumberSpace l h' = Some (s <| history := hist' |>) ∧ emptied ack s hist' ∧ standing h' = standing h ∧ rttStats h' = rttStats h ∧
      acked_frames (calls h') = acked_frames (calls h) ++ frames_in (found_by ack s)
  end.
Proof.
  intros HS Hs Hne Hd. cbn zeta. pose proof (sd_spaces _ _ _ _ HS _ _ Hs) as Hok. unfold detectAndRemoveAckedPackets. rewrite Hs. cbn [mbind option_bind].
  assert (∃ low high, LowestAcked ack = Some low ∧ LargestAcked ack = Some high) as (low & high & El & Eh).
  { unfold LowestAcked, LargestAcked. destruct (AckRanges ack) as [|r rs] eqn:E; [done|]. destruct (last (r :: rs)) as [b|] eqn:Eb; [by eexists _, _|by apply last_None in Eb]. }
  rewrite El, Eh. cbn [mbind option_bind].
  replace (if is_1RTT l then acked_skip ack (skippedPackets (history s)) else Some None)
    with (Some (if is_1RTT l then List.find (covers (AckRanges ack)) (skippedPackets (history s)) else None)) by (destruct (is_1RTT l); [symmetry; by eapply acked_skip_spec|done]).
  cbn [mbind option_bind]. destruct (if is_1RTT l then _ else _) as [p|]; [done|].
  rewrite (collect_ack hi ack low high s) by done. unfold found. cbn [probes_left newly eliciting].
  pose proof (sound_probes F l s ack h HS Hs) as S1. cbn zeta in S1. set (left := filter _ (pathProbePackets (history s))) in *. change (acked_now _ _ _) with (found_by ack s).
  match goal with |- context [settle_acked l _ ?g] => change g with (setSpace l (with_probes left s) h) end. set (h1 := setSpace l (with_probes left s) h) in *.
  assert (G1 : getPacketNumberSpace l h1 = Some (with_probes left s)) by by eapply get_set.
  destruct (settle_ok F l (found_by ack s) [] (with_probes left s) h1 S1 G1) as (h2 & hist2 & E2 & S2 & G2 & [D1 D2 D3 D4] & T2 & R2 & A2).
  { apply rising_NoDup, acked_rising, Packets_rising. }
  { exact (found_entries (covers (AckRanges ack)) s Hok). }
  rewrite E2. cbn [mbind option_bind]. rewrite app_nil_r in S2. eexists h2, hist2, _. split_and!; [done|done|done|by split| | |].
  - rewrite T2. by apply shape_standing, (shape_set l s).
  - rewrite R2. by destruct l.
  - rewrite A2. by destruct l.
Qed.
End handler.
