(* ===== verification/LossHandler.v ===== *)
(** * The operations keep the account
    ([quic-go/internal/ackhandler/sent_packet_handler.go])

    Each operation succeeds on a sound handler and leaves a sound one: the bytes in
    flight are those of the tracked packets, and no frame is lost sight of. *)

From Stdlib Require Import ZArith Lia Bool.
From stdpp Require Import base list.
From S2P Require Import Prelude.
From S2P Require Import GoNet.
From S2P Require Import GoFloat.
From S2P Require Import Wire.
From S2P Require Import WireFrames.
From S2P Require Import AckHistory.
From S2P Require Import AckFrame.
From S2P Require Import AckTracker.
From S2P Require Import RttStats.
From S2P Require Import EcnTracker.
From S2P Require Import SentHistory.
From S2P Require Import SentHistInv.
From S2P Require Import LossDetection.
From S2P Require Import LossInv.
From S2P Require Import LossOps.
From S2P Require Import LossAck.

Open Scope Z_scope.
Open Scope list_scope.

Section handler.
Context {CC : Type} `{!SendAlgorithm CC}.
Abbreviation handler := (sentPacketHandler CC).

Ltac same := eapply sound_same; [eassumption|done..].

(** ** Acknowledgement *)

(** What does not count may be owed. *)
Lemma sound_free F pend owed x (h : handler) : sound F pend owed h → countable x → flight_of x = 0 → sound F (x :: pend) owed h.
Proof. intros [H1 H2 H3 H4 H5] Hx Hf. split; [done|by constructor| |done|done]. cbn [Datatypes.app]. by rewrite flight_cons, Hf, H3. Qed.

Lemma probe_free x : countable x → is_probe x = true → flight_of x = 0.
Proof.
  unfold is_probe, flight_of. intros [[_ _ H1 H2]|[H _ _ _]] Hp; [|by rewrite H]. rewrite H1. unfold IsAckEliciting. by rewrite (H2 Hp).
Qed.

Lemma credit_acked_ok F prior t : ∀ ps pend (h : handler), sound F (plain_of ps ++ pend) [] h → Forall countable ps →
  ∃ h', credit_acked prior t ps h = Some h' ∧ sound F pend [] h' ∧ shape h' = shape h ∧ (∀ l, getPacketNumberSpace l h' = getPacketNumberSpace l h).
Proof.
  induction ps as [|[pn p] ps IH]; intros pend h HS Hc; [by exists h|]. apply Forall_cons in Hc as [Hx Hc]. cbn [credit_acked].
  set (h0 := if includedInBytesInFlight p then _ else h).
  assert (S0 : sound F ((pn, p) :: plain_of ps ++ pend) [] h0).
  { assert (S0 : sound F (plain_of ((pn, p) :: ps) ++ pend) [] h0) by (unfold h0; destruct (includedInBytesInFlight p); [same|done]).
    unfold plain_of in S0. rewrite filter_cons in S0. destruct (is_probe (pn, p)) eqn:Pb; [|by rewrite decide_True in S0].
    rewrite decide_False in S0 by done. apply sound_free; [done|done|by apply probe_free]. }
  assert (E0 : shape h0 = shape h ∧ ∀ l, getPacketNumberSpace l h0 = getPacketNumberSpace l h) by (unfold h0; by destruct (includedInBytesInFlight p)).
  destruct E0 as [Sh0 G0]. clearbody h0. destruct (sound_remove _ _ _ _ _ _ S0 Hx) as (h1 & E1 & S1 & Sh1 & G1 & _). rewrite E1. cbn [mbind option_bind].
  destruct (IH _ h1 S1 Hc) as (h2 & E2 & S2 & Sh2 & G2). exists h2. split_and!; [done|done|by rewrite Sh2, Sh1|]. intros l. by rewrite G2, G1.
Qed.

Lemma sound_peer F pend owed l t (h : handler) : sound F pend owed h → sound F pend owed (peer_completes l t h).
Proof. intros [H1 H2 H3 H4 [H5 H6]]. unfold peer_completes. destruct (_ && _ && _); [|done]. by split. Qed.

Lemma peer_get l l' t (h : handler) : getPacketNumberSpace l' (peer_completes l t h) = getPacketNumberSpace l' h.
Proof. unfold peer_completes. destruct (_ && _ && _); by destruct l'. Qed.

Lemma update_rtt_same ack l t largest acked e (h : handler) :
  (∀ l', getPacketNumberSpace l' (update_rtt ack l t largest acked e h) = getPacketNumberSpace l' h) ∧
  everything (update_rtt ack l t largest acked e h) = everything h ∧ bytesInFlight (update_rtt ack l t largest acked e h) = bytesInFlight h ∧
  calls (update_rtt ack l t largest acked e h) = calls h ∧ standing (update_rtt ack l t largest acked e h) = standing h.
Proof. unfold update_rtt. destruct (last acked) as [[pn p]|]; [|done]. destruct (_ && _ && _); [|done]. destruct (_ || _); done. Qed.

Lemma ecn_acked_same ack l prior largest known acked (h : handler) :
  (∀ l', getPacketNumberSpace l' (ecn_acked ack l prior largest known acked h) = getPacketNumberSpace l' h) ∧
  everything (ecn_acked ack l prior largest known acked h) = everything h ∧ bytesInFlight (ecn_acked ack l prior largest known acked h) = bytesInFlight h ∧
  calls (ecn_acked ack l prior largest known acked h) = calls h ∧ standing (ecn_acked ack l prior largest known acked h) = standing h.
Proof. unfold ecn_acked. destruct (ecn h) as [e|]; [|done]. destruct (_ && _); [|done]. destruct (HandleNewlyAcked _ _ _ _ _) as [e' []]; done. Qed.

(** [sound] of a handler that differs in nothing it speaks of. *)
Lemma sound_alike F pend owed (h h' : handler) : sound F pend owed h → (∀ l, getPacketNumberSpace l h' = getPacketNumberSpace l h) ∧
  everything h' = everything h ∧ bytesInFlight h' = bytesInFlight h ∧ calls h' = calls h ∧ standing h' = standing h → sound F pend owed h'.
Proof. intros HS (E1 & E2 & E3 & E4 & E5). eapply sound_same; [eassumption|done..|by rewrite E4|done]. Qed.

(** The space of a level after an ACK up to [largest]. *)
Definition raised (largest : Z) (s : packetNumberSpace) : packetNumberSpace := s <| largestAcked ::= Z.max largest |>.

Lemma process_ok F l s ack t prior largest acked e (h : handler) : sound F (plain_of acked) [] h → getPacketNumberSpace l h = Some s → Forall countable acked →
  ∃ h' s', process_acked ack l t prior largest acked e h = Some h' ∧ sound F [] [] h' ∧ getPacketNumberSpace l h' = Some s' ∧
    Packets (history s') = staying (t - lossDelay h') (raised largest s) (Packets (history s)) ∧ standing h' = standing h ∧
    acked_frames (calls h') = acked_frames (calls h).
Proof.
  intros HS Hs Hc. unfold process_acked. pose proof (update_rtt_same ack l t largest acked e h) as U. pose proof (sound_alike _ _ _ _ _ HS U) as S1.
  destruct U as (U1 & _ & _ & U2 & U3). set (h1 := update_rtt _ _ _ _ _ _ h) in *. rewrite U1, Hs. cbn [mbind option_bind].
  pose proof (ecn_acked_same ack l prior largest (largestAcked s) acked h1) as N. pose proof (sound_alike _ _ _ _ _ S1 N) as S2.
  destruct N as (N1 & _ & _ & N2 & N3). set (h2 := ecn_acked _ _ _ _ _ _ h1) in *. change (set_field largestAcked _ s) with (raised largest s).
  assert (G2 : getPacketNumberSpace l h2 = Some s) by by rewrite N1, U1.
  assert (Hok : space_ok (raised largest s)) by (pose proof (sd_spaces _ _ _ _ HS _ _ Hs) as Hok; by destruct Hok).
  pose proof (sound_set_same _ _ _ _ _ _ _ S2 G2 Hok ltac:(done)) as S3. pose proof (get_set l s (raised largest s) h2 G2) as G3.
  pose proof (shape_set l s (raised largest s) h2 G2) as Sh3. set (h3 := setSpace l (raised largest s) h2) in *.
  destruct (detectLostPackets_ok F _ l _ t h3 S3 G3) as (h4 & s4 & E4 & S4 & [G4 Sh4] & LS4 & P4 & _). rewrite E4. cbn [mbind option_bind].
  assert (∃ h5 s5, (if is_1RTT l then detectLostPathProbes t h4 else Some h4) = Some h5 ∧ sound F (plain_of acked) [] h5 ∧ shape h5 = shape h4 ∧
    getPacketNumberSpace l h5 = Some s5 ∧ Packets (history s5) = Packets (history s4)) as (h5 & s5 & E5 & S5 & Sh5 & G5 & P5).
  { destruct l; cbn [is_1RTT]; try by exists h4, s4. destruct (detectLostPathProbes_ok F _ t h4 S4) as (h5 & E5 & S5 & Sh5 & _ & _ & A5 & _). cbn in G4. injection G4 as G4.
    exists h5, (appData h5). split_and!; try done. by rewrite A5, G4. }
  rewrite E5. cbn [mbind option_bind]. destruct (credit_acked_ok F prior t acked [] h5) as (h6 & E6 & S6 & Sh6 & G6); [by rewrite app_nil_r|done|].
  rewrite E6. cbn [mbind option_bind]. set (h7 := match info acked with [] => _ | _ => _ end).
  assert (A7 : (∀ l', getPacketNumberSpace l' h7 = getPacketNumberSpace l' h6) ∧ everything h7 = everything h6 ∧ bytesInFlight h7 = bytesInFlight h6 ∧ calls h7 = calls h6 ∧
    standing h7 = standing h6 ∧ rttStats h7 = rttStats h6) by (unfold h7; destruct (info acked), (lostInfo h6); by split_and!).
  destruct A7 as (A1 & A2 & A3 & A4 & A5 & A6). assert (S7 : sound F [] [] h7) by by eapply sound_alike. clearbody h7.
  rewrite A1, G6, G5. cbn [mbind option_bind]. eexists _, s5. split; [done|]. set (h8 := if is_1RTT l && _ then _ else h7).
  assert (S8 : sound F [] [] h8 ∧ (∀ l', getPacketNumberSpace l' h8 = getPacketNumberSpace l' h7) ∧ standing h8 = standing h7 ∧ rttStats h8 = rttStats h7 ∧ calls h8 = calls h7)
    by (unfold h8; destruct (is_1RTT l && _); [split_and!; try done; same|by split_and!]).
  destruct S8 as (S8 & G8 & T8 & R8 & C8). clearbody h8. set (h9 := if peerCompletedAddressValidation h8 then _ else h8).
  assert (S9 : sound F [] [] h9 ∧ (∀ l', getPacketNumberSpace l' h9 = getPacketNumberSpace l' h8) ∧ standing h9 = standing h8 ∧ rttStats h9 = rttStats h8 ∧ calls h9 = calls h8)
    by (unfold h9; destruct (peerCompletedAddressValidation h8); [split_and!; try done; same|by split_and!]).
  destruct S9 as (S9 & G9 & T9 & R9 & C9). clearbody h9. assert (Rt : rttStats h9 = rttStats h3).
  { by rewrite R9, R8, A6, (shape_rtt _ _ Sh6), (shape_rtt _ _ Sh5), (shape_rtt _ _ Sh4). }
  split_and!.
  - same.
  - transitivity (getPacketNumberSpace l h9); [by destruct l|]. by rewrite G9, G8, A1, G6, G5.
  - rewrite P5, P4. do 2 f_equal. unfold lossDelay. cbn. by rewrite Rt.
  - transitivity (standing h9); [done|]. by rewrite T9, T8, A5, (shape_standing _ _ Sh6), (shape_standing _ _ Sh5), (shape_standing _ _ Sh4), (shape_standing _ _ Sh3), N3, U3.
  - transitivity (acked_frames (calls h9)); [done|]. by rewrite C9, C8, A4, (shape_acked _ _ Sh6), (shape_acked _ _ Sh5), (shape_acked _ _ Sh4), (shape_acked _ _ Sh3), N2, U2.
Qed.

(** What an ACK makes of a handler. *)
Definition ack_result (ack : AckFrame) (l : EncryptionLevel) (t : time) (s : packetNumberSpace) (h h' : handler) (r : bool + ack_error) : Prop :=
  match r with
  | inr AckUnsent => h' = h ∧ ∃ largest, LargestAcked ack = Some largest ∧ largestSent s < largest
  | inr (AckSkipped p) => is_1RTT l = true ∧ p ∈ skippedPackets (history s) ∧ acknowledged p (AckRanges ack)
  | inr _ => False
  | inl _ => ∃ largest s', LargestAcked ack = Some largest ∧ largest <= largestSent s ∧
      (is_1RTT l = true → ∀ p, p ∈ skippedPackets (history s) → ¬ acknowledged p (AckRanges ack)) ∧
      acked_frames (calls h') = acked_frames (calls h) ++ frames_in (found_by ack s) ∧ getPacketNumberSpace l h' = Some s' ∧
      Packets (history s') = match found_by ack s with
        | [] => Packets (history s)
        | ns => filter (λ x, overdue (t - lossDelay h') (raised largest s) x = false) (filter (λ x, x.1 ∉ ns.*1) (Packets (history s)))
        end
  end.

Lemma ReceivedAck_ok F hi l s ack t (h : handler) : sound F [] [] h → getPacketNumberSpace l h = Some s → AckRanges ack ≠ [] → ranges_desc hi (AckRanges ack) →
  ∃ h' r, ReceivedAck ack l t h = Some (h', r) ∧ sound F [] [] h' ∧ ack_result ack l t s h h' r.
Proof.
  intros HS Hs Hne Hd. unfold ReceivedAck. rewrite Hs. cbn [mbind option_bind].
  assert (∃ largest, LargestAcked ack = Some largest) as [largest El] by (unfold LargestAcked; destruct (AckRanges ack) as [|r rs]; [done|by eexists]).
  rewrite El. cbn [mbind option_bind]. destruct (Z.ltb_spec (largestSent s) largest) as [Hlt|Hle].
  { eexists h, _. split_and!; [done|done|]. split; [done|]. by exists largest. }
  pose proof (sound_peer F [] [] l t h HS) as S1. pose proof (peer_get l l t h) as G1. rewrite Hs in G1.
  assert (C1 : calls (peer_completes l t h) = calls h) by (unfold peer_completes; by destruct (_ && _ && _)).
  set (h1 := peer_completes l t h) in *. clearbody h1.
  pose proof (detectAndRemove_ok F hi l s ack h1 S1 G1 Hne Hd) as D. cbn zeta in D. set (skip := if is_1RTT l then _ else _) in D. destruct skip as [p|] eqn:Ek.
  { rewrite D. cbn [mbind option_bind]. eexists h1, _. split_and!; [done|done|]. unfold skip in Ek. destruct (is_1RTT l) eqn:E1; [|done].
    apply find_some in Ek as [Hin%list_elem_of_In Hc%covers_iff]. done. }
  destruct D as (h2 & hist2 & e & E2 & S2 & G2 & M2 & T2 & R2 & A2). rewrite E2. cbn [mbind option_bind].
  assert (Hsk : is_1RTT l = true → ∀ p, p ∈ skippedPackets (history s) → ¬ acknowledged p (AckRanges ack)).
  { intros E1 p Hp Hc%covers_iff. unfold skip in Ek. rewrite E1 in Ek. apply list_elem_of_In in Hp. by rewrite (find_none _ _ Ek _ Hp) in Hc. }
  assert (Cn : Forall countable (found_by ack s)) by (apply found_countable; exact (sd_spaces _ _ _ _ HS _ _ Hs)).
  destruct (found_by ack s) as [|x ns] eqn:Ef.
  - eexists h2, _. split_and!; [done|done|]. exists largest, (s <| history := hist2 |>). split_and!; try done; [by rewrite Ef, A2, C1|].
   
    rewrite Ef. cbn. rewrite (em_packets _ _ _ M2), Ef. apply filter_all. intros y _. apply not_elem_of_nil.
  - destruct (process_ok F l _ ack t (bytesInFlight h1) largest (x :: ns) e h2 S2 G2 Cn) as (h3 & s3 & E3 & S3 & G3 & P3 & T3 & A3).
    cbn [mbind option_bind]. rewrite E3. cbn [mbind option_bind]. eexists h3, _. split_and!; [done|done|]. exists largest, s3. split_and!; try done; [by rewrite Ef, A3, A2, C1|].
    rewrite Ef, P3. change (Packets (history (s <| history := hist2 |>))) with (Packets hist2). rewrite (em_packets _ _ _ M2), Ef. unfold staying. apply list_filter_iff. intros y.
    enough (overdue (t - lossDelay h3) (raised largest (s <| history := hist2 |>)) y = overdue (t - lossDelay h3) (raised largest s) y) as -> by done.
    unfold overdue. cbn. by rewrite (packet_lost_same _ _ _ _ _ _ (em_skipped _ _ _ M2)).
Qed.
End handler.
