(* ===== verification/LossSend.v ===== *)
(** * Sending, probing, dropping and migrating
    ([quic-go/internal/ackhandler/sent_packet_handler.go])

    The operations that add packets, take numbers, or give packets up. *)

From Stdlib Require Import ZArith Lia Bool.
From stdpp Require Import base list.
From S2P Require Import Prelude.
From S2P Require Import GoNet.
From S2P Require Import GoFloat.
From S2P Require Import Wire.
From S2P Require Import WireFrames.
From S2P Require Import AckHistory.
From S2P Require Import AckFrame.
From S2P Require Import AckTracker.
From S2P Require Import RttStats.
From S2P Require Import EcnTracker.
From S2P Require Import SentHistory.
From S2P Require Import SentHistInv.
From S2P Require Import LossDetection.
From S2P Require Import LossInv.
From S2P Require Import LossOps.

Open Scope Z_scope.
Open Scope list_scope.

(** ** Numbers *)

(** A space whose generator gave a number that is not yet used. *)
Record popped (pn : Z) (s s1 : packetNumberSpace) : Prop := mkPopped {
  pp_hist : hist_ok (history s1);
  pp_packets : Packets (history s1) = Packets (history s);
  pp_probes : pathProbePackets (history s1) = pathProbePackets (history s);
  pp_above : highestPacketNumber (history s) <= highestPacketNumber (history s1);
  pp_next : next_number pn (history s1);
  pp_gen : gen_next (pns s1) = pn + 1;
  pp_timed : lastAckElicitingPacketTime s1 = lastAckElicitingPacketTime s;
}.

Lemma probes_bounded s h' : space_ok s → pathProbePackets h' = pathProbePackets (history s) → highestPacketNumber (history s) <= highestPacketNumber h' → probes_ok h'.
Proof.
  intros Hok E Hh. destruct (sk_probes _ Hok) as [H1 H2]. split; rewrite E; [done|]. eapply Forall_impl; [exact H2|]. intros x [? ?]. split; [done|lia].
Qed.

Lemma timed_same s h' : space_ok s → hist_ok h' → Packets h' = Packets (history s) → HasOutstandingPackets h' = true → 0 < lastAckElicitingPacketTime s.
Proof.
  intros Hok Hh E H. apply (sk_timed _ Hok), (HasOutstanding_iff _ (sk_hist _ Hok)). apply (HasOutstanding_iff _ Hh) in H. by rewrite <- E.
Qed.

Section handler.
Context {CC : Type} `{!SendAlgorithm CC}.
Abbreviation handler := (sentPacketHandler CC).

Ltac same := eapply sound_same; [eassumption|done..].

Lemma Pop_ok rnd l s (h : handler) : getPacketNumberSpace l h = Some s → space_ok s →
  ∃ s1, PopPacketNumber rnd l h = Some (setSpace l s1 h, gen_Peek (pns s)) ∧ popped (gen_Peek (pns s)) s s1.
Proof.
  intros Hs Hok. unfold PopPacketNumber. rewrite Hs. cbn [mbind option_bind]. pose proof (sk_hist _ Hok) as Hh. pose proof (sk_gen _ Hok) as Hg. unfold gen_ok in Hg.
  assert (Plain : ∀ g, gen_next g = gen_next (pns s) + 1 → popped (gen_next (pns s)) s (s <| pns := g |> <| history := history s |>)) by (intros g Eg; by split).
  destruct (pns s) as [next|period mp next skip] eqn:Ep; cbn in Plain, Hg |- *.
  - eexists. split; [done|]. by apply Plain.
  - destruct (Z.eqb_spec next skip); cbn [fst snd]; [|eexists; split; [done|]; by apply Plain].
    replace (next + 1 - 1) with next by lia. destruct (skipped_ok _ _ Hh Hg) as (h1 & E & H1 & P1 & Q1 & T1). rewrite E. cbn [mbind option_bind].
    eexists. split; [done|]. destruct Hg as [Hg0 Hg]. split; try done; cbn.
    + rewrite T1. destruct Hg as [-> | ->]; unfold InvalidPacketNumber; lia.
    + unfold next_number. rewrite T1. split; [lia|by right].
    + lia.
Qed.

(** ** Sending *)

Lemma everything_get (h h' : handler) : (∀ l, getPacketNumberSpace l h' = getPacketNumberSpace l h) → everything h' = everything h.
Proof.
  intros E. pose proof (E EncryptionInitial) as E1. pose proof (E EncryptionHandshake) as E2. pose proof (E Encryption1RTT) as E3. cbn in *. injection E3 as E3.
  unfold everything. by rewrite E1, E2, E3.
Qed.

(** A space takes packets in. *)
Lemma sound_grow F l s s' (h h' : handler) added : sound F [] [] h → getPacketNumberSpace l h = Some s → space_ok s' → contents s' ≡ₚ added ++ contents s →
  (∀ l', getPacketNumberSpace l' h' = getPacketNumberSpace l' (setSpace l s' h)) → bytesInFlight h' = bytesInFlight h + flight added →
  calls h' = calls h → standing h' = standing h → sound (frames_in added ++ F) [] [] h'.
Proof.
  intros [H1 H2 H3 H4 H5] Hs Hok Hc G Hb Hl Hst. pose proof (everything_get _ _ G) as E. pose proof (everything_at _ _ _ Hs) as Ea. pose proof (everything_set _ _ _ s' Hs) as Ev.
  split; [|done| | |by apply (known_standing h)].
  - intros l' s2 Hl'. rewrite G in Hl'. destruct (get_set_other l l' s s' h Hs) as [G'|G']; rewrite G' in Hl'; [by simplify_eq|by eapply H1].
  - cbn [Datatypes.app] in *. rewrite Hb, H3, E, Ev, Ea, Hc, !flight_app. lia.
  - rewrite Hl, E, Ev, Hc, <- H4, Ea, !frames_app. solve_Permutation.
Qed.

(** What may be handed in. *)
Record sendable_packet (l : EncryptionLevel) (t size : Z) (frames : list sent_frame) (mark : ECN) (isPathProbe : bool) (h : handler) : Prop := mkSendable {
  sp_time : 0 < t;
  sp_size : 0 <= size;
  sp_probe : isPathProbe = true → Forall (λ f, is_control f = true ∧ handled f = true) frames;
  sp_mark : is_1RTT l = true → ecn h = None ∨ mark ∈ [ECNNon; MarkECT0; MarkECT1];
}.

Lemma ecn_SentPacket_ok pn mark e : mark ∈ [ECNNon; MarkECT0; MarkECT1] → ∃ e', ecn_SentPacket pn mark e = Some e'.
Proof. intros H. repeat (apply elem_of_cons in H as [->|H]; [by eexists|]). by apply elem_of_nil in H. Qed.

Lemma in_space_eq l f s hist (h : handler) : getPacketNumberSpace l h = Some s → f (history s) = Some hist →
  in_space l f h = Some (setSpace l (s <| history := hist |>) h).
Proof. intros E1 E2. unfold in_space. rewrite E1. cbn [mbind option_bind]. by rewrite E2. Qed.

(** The probe of a path takes a place in the history. *)
Lemma probe_space pn p s s1 : space_ok s → popped pn s s1 → probe_ok (pn, p) →
  ∃ hist, SentPathProbePacket pn p (history s1) = Some hist ∧ space_ok (s1 <| largestSent := pn |> <| history := hist |>) ∧
    contents (s1 <| largestSent := pn |> <| history := hist |>) ≡ₚ [(pn, probe_place); (pn, p)] ++ contents s.
Proof.
  intros Hok Hp Pk. destruct (probe_sent_ok pn p _ (pp_hist _ _ _ Hp) (pp_next _ _ _ Hp)) as (hist & E & H1 & P1 & Q1 & _ & T1). exists hist. split; [done|].
  rewrite (pp_packets _ _ _ Hp) in P1. rewrite (pp_probes _ _ _ Hp) in Q1. pose proof (pp_next _ _ _ Hp) as [Hn Hn'].
  assert (Hab : highestPacketNumber (history s) < pn).
  { pose proof (pp_above _ _ _ Hp). destruct Hn' as [Hn'|Hn']; unfold InvalidPacketNumber in *; lia. }
  split.
  - split; cbn [history lastAckElicitingPacketTime pns].
    + done.
    + change (Forall packet_ok (Packets hist)). rewrite P1. apply Forall_app. split; [apply (sk_packets _ Hok)|]. apply Forall_singleton. split; cbn; try done; lia.
    + destruct (sk_probes _ Hok) as [R1 R2]. change (probes_ok hist). split; rewrite Q1.
      * intros i j x y Hij Hi Hj. destruct (Nat.lt_ge_cases j (length (pathProbePackets (history s)))) as [Hlt|Hge].
        { rewrite lookup_app_l in Hj by done. rewrite lookup_app_l in Hi by lia. exact (R1 i j x y Hij Hi Hj). }
        rewrite lookup_app_r in Hj by done. apply list_lookup_singleton_Some in Hj as [Hj <-]. rewrite lookup_app_l in Hi by lia.
        rewrite Forall_forall in R2. destruct (R2 x) as [_ R3]; [by eapply list_elem_of_lookup_2|]. cbn. lia.
      * rewrite T1. apply Forall_app. split; [eapply Forall_impl; [exact R2|]; intros x [? ?]; split; [done|lia]|]. repeat constructor; cbn; [apply Pk..|lia|lia].
    + intros Ho. change (0 < lastAckElicitingPacketTime s1). rewrite (pp_timed _ _ _ Hp). apply (sk_timed _ Hok), (HasOutstanding_iff _ (sk_hist _ Hok)).
      apply (HasOutstanding_iff _ H1) in Ho as (x & Hx & Ho). change (history (_ <| history := hist |>)) with hist in Hx. rewrite P1 in Hx. apply elem_of_app in Hx as [Hx|Hx]; [by exists x|].
      apply list_elem_of_singleton in Hx. by subst x.
    + change (next_number (gen_next (pns s1)) hist). rewrite (pp_gen _ _ _ Hp). split; [lia|right; by rewrite T1].
  - unfold contents. change (history (_ <| history := hist |>)) with hist. rewrite P1, Q1. solve_Permutation.
Qed.

(** Any other packet. *)
Lemma plain_space pn p s s1 s2 : space_ok s → popped pn s s1 → packet_ok (pn, p) → history s2 = history s1 → pns s2 = pns s1 →
  lastAckElicitingPacketTime s2 = (if IsAckEliciting p then SendTime p else lastAckElicitingPacketTime s1) → (IsAckEliciting p = true → 0 < SendTime p) →
  ∃ hist, hist_SentPacket pn p (history s2) = Some hist ∧ space_ok (s2 <| history := hist |>) ∧ contents (s2 <| history := hist |>) ≡ₚ [(pn, p)] ++ contents s.
Proof.
  intros Hok Hp Pk Eh Ep El Ht. destruct (sent_ok pn p _ (pp_hist _ _ _ Hp) (pp_next _ _ _ Hp)) as (hist & E & H1 & P1 & Q1 & _ & T1). exists hist. rewrite Eh. split; [done|].
  rewrite (pp_packets _ _ _ Hp) in P1. rewrite (pp_probes _ _ _ Hp) in Q1. pose proof (pp_next _ _ _ Hp) as [Hn Hn'].
  assert (Hab : highestPacketNumber (history s) <= highestPacketNumber hist).
  { rewrite T1. pose proof (pp_above _ _ _ Hp). destruct Hn' as [Hn'|Hn']; unfold InvalidPacketNumber in *; lia. }
  split.
  - split; change (history (s2 <| history := hist |>)) with hist.
    + done.
    + rewrite P1. apply Forall_app. split; [apply (sk_packets _ Hok)|by constructor].
    + by eapply probes_bounded.
    + intros Ho. change (0 < lastAckElicitingPacketTime s2). rewrite El. destruct (IsAckEliciting p) eqn:Ee; [by apply Ht|]. rewrite (pp_timed _ _ _ Hp).
      apply (sk_timed _ Hok), (HasOutstanding_iff _ (sk_hist _ Hok)). apply (HasOutstanding_iff _ H1) in Ho as (x & Hx & Ho). rewrite P1 in Hx.
      apply elem_of_app in Hx as [Hx|Hx]; [by exists x|]. apply list_elem_of_singleton in Hx. subst x. cbn in Ho. unfold Outstanding in Ho. by rewrite Ee, andb_false_r in Ho.
    + change (next_number (gen_next (pns s2)) hist). rewrite Ep, (pp_gen _ _ _ Hp). split; [lia|right; by rewrite T1].
  - unfold contents. change (history (s2 <| history := hist |>)) with hist. rewrite P1, Q1. solve_Permutation.
Qed.

Lemma SentPacket_ok F pn t largest frames l mark size mtu isProbe s s1 (h : handler) : sound F [] [] h → getPacketNumberSpace l h = Some s → popped pn s s1 →
  sendable_packet l t size frames mark isProbe h →
  ∃ h', SentPacket t pn largest frames l mark size mtu isProbe (setSpace l s1 h) = Some h' ∧ sound (filter (λ f, handled f = true) frames ++ F) [] [] h'.
Proof.
  intros HS Hs Hp [V1 V2 V3 V4]. pose proof (sd_spaces _ _ _ _ HS _ _ Hs) as Hok. unfold SentPacket. set (h0 := set_field h_bytesSent _ _).
  assert (G0 : getPacketNumberSpace l h0 = Some s1) by by destruct l. rewrite G0. cbn [mbind option_bind]. set (s2 := s1 <| largestSent := pn |>).
  set (p := mkPacket _ _ _ _ _ _ _ _). destruct isProbe.
  - assert (Pk : probe_ok (pn, p)) by (split; [done|done|by apply V3|cbn; lia]). destruct (probe_space pn p s s1 Hok Hp Pk) as (hist & E & K & C).
    rewrite (in_space_eq l _ s2 hist) by (try (by destruct l); exact E). cbn [mbind option_bind]. eexists. split; [done|].
    change (filter _ frames ++ F) with (frames_of (pn, p) ++ F). assert (Ef : frames_of (pn, p) ++ F = frames_in [(pn, probe_place); (pn, p)] ++ F) by (cbn; by rewrite app_nil_r). rewrite Ef.
    eapply (sound_grow F l s _ h _ [(pn, probe_place); (pn, p)] HS Hs K C).
    + intros l'. by destruct l, l'.
    + transitivity (bytesInFlight h); [by destruct l|]. cbn. lia.
    + by destruct l.
    + transitivity (standing (setSpace l s2 h)); [by destruct l|]. by eapply shape_standing, shape_set.
  - set (e := IsAckEliciting p). set (h1 := if e then _ else _). set (q := p <| includedInBytesInFlight := e |>).
    set (s3 := if e then s2 <| lastAckElicitingPacketTime := t |> else s2).
    assert (A1 : (∀ l', getPacketNumberSpace l' h1 = getPacketNumberSpace l' (setSpace l s3 h)) ∧ bytesInFlight h1 = bytesInFlight h + (if e then size else 0) ∧ calls h1 = calls h ∧ ecn h1 = ecn h ∧ standing h1 = standing h).
    { assert (St : standing (setSpace l s2 h) = standing h) by by eapply shape_standing, shape_set. unfold h1, s3. destruct e.
      - split_and!; [intros l'; by destruct l, l'|destruct l; cbn; lia|by destruct l|by destruct l|]. rewrite <- St. by destruct l.
      - split_and!; [intros l'; by destruct l, l'|destruct l; cbn; lia|by destruct l|by destruct l|]. rewrite <- St. by destruct l. }
    destruct A1 as (G1 & B1 & C1 & E1 & T1). clearbody h1. set (h2 := set_field congestion _ h1).
    assert (∃ e', (if is_1RTT l then match ecn h2 with Some e => e ← ecn_SentPacket pn mark e; Some (Some e) | None => Some None end else Some (ecn h2)) = Some e') as [e' ->].
    { destruct (is_1RTT l) eqn:El; [|by eexists]. change (ecn h2) with (ecn h1). rewrite E1. destruct (ecn h) as [ec|] eqn:Ee; [|by eexists].
      destruct (V4 eq_refl) as [?|Hm]; [done|]. destruct (ecn_SentPacket_ok pn mark ec Hm) as [e2 ->]. by eexists. }
    cbn [mbind option_bind]. set (h3 := set_field ecn _ h2).
    assert (Pk : packet_ok (pn, q)) by (split; try done; cbn; lia).
    destruct (plain_space pn q s s1 s3 Hok Hp Pk) as (hist & E & K & C); [by unfold s3; destruct e|by unfold s3; destruct e| |done|].
    { unfold s3. change (IsAckEliciting q) with e. by destruct e. }
    assert (G3 : getPacketNumberSpace l h3 = Some s3) by (transitivity (getPacketNumberSpace l h1); [by destruct l|]; rewrite G1; by destruct l).
    rewrite (in_space_eq l _ s3 hist h3 G3 E). cbn [mbind option_bind]. eexists. split; [done|].
    change (filter _ frames ++ F) with (frames_of (pn, q) ++ F). assert (Ef : frames_of (pn, q) ++ F = frames_in [(pn, q)] ++ F) by (cbn; by rewrite app_nil_r). rewrite Ef.
    set (h4 := setSpace l (s3 <| history := hist |>) h3).
    assert (R : sound (frames_in [(pn, q)] ++ F) [] [] h4).
    { eapply (sound_grow F l s _ h _ [(pn, q)] HS Hs K C).
      - intros l'. specialize (G1 l'). unfold h4. destruct l, l'; cbn in *; done.
      - transitivity (bytesInFlight h1); [by destruct l|]. rewrite B1. cbn. unfold flight_of. cbn. destruct e; lia.
      - transitivity (calls h1); [by destruct l|done].
      - transitivity (standing h1); [|done]. transitivity (standing h3); [|done]. by apply shape_standing, (shape_set l s3). }
    destruct (_ && _); [done|]. same.
Qed.

(** ** Giving up a number for a quick answer *)

Lemma skip_space pn s s1 : space_ok s → popped pn s s1 →
  ∃ hist, SkippedPacket pn (history s1) = Some hist ∧ space_ok (s1 <| history := hist |>) ∧ contents (s1 <| history := hist |>) ≡ₚ contents s.
Proof.
  intros Hok Hp. destruct (skipped_ok pn _ (pp_hist _ _ _ Hp) (pp_next _ _ _ Hp)) as (hist & E & H1 & P1 & Q1 & T1). exists hist. split; [done|].
  rewrite (pp_packets _ _ _ Hp) in P1. rewrite (pp_probes _ _ _ Hp) in Q1. pose proof (pp_next _ _ _ Hp) as [Hn Hn'].
  assert (Hab : highestPacketNumber (history s) <= highestPacketNumber hist).
  { rewrite T1. pose proof (pp_above _ _ _ Hp). destruct Hn' as [Hn'|Hn']; unfold InvalidPacketNumber in *; lia. }
  split; [split; change (history (s1 <| history := hist |>)) with hist|].
  - done.
  - rewrite P1. apply (sk_packets _ Hok).
  - by eapply probes_bounded.
  - intros Ho. change (0 < lastAckElicitingPacketTime s1). rewrite (pp_timed _ _ _ Hp). by eapply timed_same.
  - change (next_number (gen_next (pns s1)) hist). rewrite (pp_gen _ _ _ Hp). split; [lia|right; by rewrite T1].
  - unfold contents. change (history (s1 <| history := hist |>)) with hist. by rewrite P1, Q1.
Qed.
End handler.
