(* ===== verification/LossGive.v ===== *)
(** * Timeouts, dropped keys, a Retry, a new path
    ([quic-go/internal/ackhandler/sent_packet_handler.go])

    The operations that give packets up: some tell the handlers that their frames are
    lost, some forget them. *)

From Stdlib Require Import ZArith Lia Bool.
From stdpp Require Import base list.
From S2P Require Import Prelude.
From S2P Require Import GoNet.
From S2P Require Import GoFloat.
From S2P Require Import Wire.
From S2P Require Import WireFrames.
From S2P Require Import AckHistory.
From S2P Require Import AckFrame.
From S2P Require Import AckTracker.
From S2P Require Import RttStats.
From S2P Require Import EcnTracker.
From S2P Require Import SentHistory.
From S2P Require Import SentHistInv.
From S2P Require Import LossDetection.
From S2P Require Import LossInv.
From S2P Require Import LossOps.
From S2P Require Import LossSend.

Open Scope Z_scope.
Open Scope list_scope.

(** ** The probes of a path that is left *)

Lemma take_probe_sub pn l : (take_probe pn l).2 `sublist_of` l.
Proof.
  induction l as [|[n p] l IH]; [done|]. cbn [take_probe]. destruct (n =? pn); [by constructor|]. destruct (take_probe pn l) as [r l'] eqn:E. cbn in *. by constructor.
Qed.

Lemma take_probe_length pn l : (length l <= S (length (take_probe pn l).2))%nat.
Proof.
  induction l as [|[n p] l IH]; [cbn; lia|]. cbn [take_probe]. destruct (n =? pn); [done|]. destruct (take_probe pn l) as [r l'] eqn:E. cbn in *. lia.
Qed.

(** Whatever the loop over the slice does, what it leaves are some of the probes. *)
Lemma drop_probes_sub : ∀ n i left array, (left <= length array)%nat → drop_probes n i left array `sublist_of` take left array.
Proof.
  induction n as [|n IH]; intros i left array Hl; [done|]. cbn [drop_probes]. destruct (array !! i) as [[pn p]|]; [|done].
  set (live := take left array). pose proof (take_probe_sub pn live) as Hs. assert (Ll : length live = left) by (unfold live; rewrite length_take; lia).
  pose proof (take_probe_length pn live) as Hlen. set (rest := (take_probe pn live).2) in *.
  destruct (Nat.ltb_spec (length rest) left) as [Hlt|Hge]; [|by apply IH]. assert (length rest = left - 1)%nat as Hr by lia.
  etrans; [apply IH; rewrite length_app, length_drop; lia|]. etrans; [|exact Hs]. by rewrite <- Hr, take_app_length.
Qed.

Lemma sublist_rising ps qs : ps `sublist_of` qs → rising qs → rising ps.
Proof.
  induction 1 as [|x ps qs Hs IH|x ps qs Hs IH]; [done|..]; intros [H1 H2]%rising_cons; [|by apply IH].
  apply rising_cons. split; [|by apply IH]. intros y Hy. apply H1. by eapply sublist_subseteq.
Qed.

Lemma frames_sub ps qs : ps `sublist_of` qs → frames_in ps ⊆+ frames_in qs.
Proof.
  induction 1 as [|x ps qs _ IH|x ps qs _ IH]; [done|..]; change (frames_in (x :: ?l)) with (frames_of x ++ frames_in l).
  - by apply submseteq_app.
  - etrans; [exact IH|]. by apply submseteq_inserts_l.
Qed.

Section handler.
Context {CC : Type} `{!SendAlgorithm CC}.
Abbreviation handler := (sentPacketHandler CC).

Ltac same := eapply sound_same; [eassumption|done..].

(** What is owed and will not be told is forgotten. *)
Lemma sound_forget F pend owed (h : handler) : sound F pend owed h → ∃ F', F' ++ owed ≡ₚ F ∧ sound F' pend [] h.
Proof.
  intros [H1 H2 H3 H4 H5]. exists (told (calls h) ++ frames_in (everything h)). split; [by rewrite <- app_assoc|]. split; try done. by rewrite app_nil_r.
Qed.

(** ** A probe packet *)

Lemma QueueProbePacket_ok F l s (h : handler) : sound F [] [] h → getPacketNumberSpace l h = Some s →
  ∃ h' b, QueueProbePacket l h = Some (h', b) ∧ sound F [] [] h' ∧ b = HasOutstandingPackets (history s).
Proof.
  intros HS Hs. unfold QueueProbePacket. rewrite Hs. cbn [mbind option_bind]. pose proof (sd_spaces _ _ _ _ HS _ _ Hs) as Hok.
  destruct (FirstOutstanding (history s)) as [[pn p]|] eqn:E.
  - apply FirstOutstanding_in in E as E'. destruct E' as [Hin Ho]. cbn in Ho.
    destruct (declare_lost _ _ _ _ _ _ _ _ HS Hs Hin) as (hist & E1 & L & S1). rewrite E1. cbn [mbind option_bind].
    assert (Pk : packet_ok (pn, p)) by (pose proof (sk_packets _ Hok) as Hp; rewrite Forall_forall in Hp; by apply Hp).
    destruct (sound_remove _ _ _ _ _ _ S1 (or_introl Pk)) as (h2 & E2 & S2 & _). rewrite E2. cbn [mbind option_bind].
    apply andb_true_iff in Ho as [_ He]. destruct (sound_requeue _ _ _ p _ S2 He) as (h3 & E3 & S3 & _). rewrite E3. cbn [mbind option_bind].
    eexists h3, _. split_and!; [done|done|]. symmetry. apply (HasOutstanding_iff _ (sk_hist _ Hok)). exists (pn, p). apply FirstOutstanding_in in E as [_ Ho]. done.
  - eexists h, _. split_and!; [done|done|]. unfold FirstOutstanding in E. destruct (HasOutstandingPackets (history s)) eqn:Eh; [|done]. cbn in E.
    apply (HasOutstanding_iff _ (sk_hist _ Hok)) in Eh as (x & Hx & Ho). apply list_elem_of_In in Hx. pose proof (find_none _ _ E _ Hx) as Hn. cbn in Hn. congruence.
Qed.

(** ** The timer fires *)

Lemma loss_space (h : handler) t l : getLossTimeAndSpace h = (t, l) → t ≠ 0 → ∃ s, getPacketNumberSpace l h = Some s.
Proof.
  unfold getLossTimeAndSpace. intros E Ht. destruct (initialSpace h) as [si|] eqn:Ei, (handshakeSpace h) as [sh|] eqn:Eh; cbn [fst] in E;
    repeat match type of E with context [earlier ?a ?b] => destruct (earlier a b); cbn [fst] in E end; injection E as <- <-; cbn; rewrite ?Ei, ?Eh; first [done|by eexists].
Qed.

(** A space that a timeout concerns. *)
Lemma pto_of_space s l d r (h : handler) : getPacketNumberSpace l h = s → (r.1 ≠ 0 → ∃ s', getPacketNumberSpace r.2 h = Some s') →
  (pto_of s l d r).1 ≠ 0 → ∃ s', getPacketNumberSpace (pto_of s l d r).2 h = Some s'.
Proof.
  intros Hs Hr. unfold pto_of. destruct s as [s|]; [|done]. destruct (_ && _); [|done]. cbn zeta. destruct (earlier _ _); [|done]. intros _. by exists s.
Qed.

Lemma pto_of_level s l d r : (pto_of s l d r).2 = l ∨ (pto_of s l d r).2 = r.2.
Proof. unfold pto_of. destruct s as [s|]; [|by right]. destruct (_ && _); [|by right]. cbn zeta. destruct (earlier _ _); [by left|by right]. Qed.

Lemma pto_space now (h : handler) : known h → (getPTOTimeAndSpace now h).1 ≠ 0 →
  (getPTOTimeAndSpace now h).2 ≠ Encryption0RTT ∧ ∃ s, getPacketNumberSpace (getPTOTimeAndSpace now h).2 h = Some s.
Proof.
  intros K. unfold getPTOTimeAndSpace. destruct (negb _ && _) eqn:Q.
  - apply andb_true_iff in Q as [Q _]. destruct (peerCompletedAddressValidation h); [done|]. cbn [fst snd]. intros _.
    destruct (initialSpace h) as [s|] eqn:Ei; [split; [done|by exists s]|]. split; [done|]. cbn. destruct (handshakeSpace h) as [s|] eqn:Eh; [by exists s|].
    by rewrite (kn_confirmed _ K Eh) in Q.
  - set (r1 := pto_of (initialSpace h) _ _ _). set (r2 := pto_of (handshakeSpace h) _ _ r1).
    assert (S1 : r1.1 ≠ 0 → ∃ s, getPacketNumberSpace r1.2 h = Some s) by by apply pto_of_space.
    assert (S2 : r2.1 ≠ 0 → ∃ s, getPacketNumberSpace r2.2 h = Some s) by by apply pto_of_space.
    assert (L1 : r1.2 ≠ Encryption0RTT) by (by destruct (pto_of_level (initialSpace h) EncryptionInitial (getScaledPTO false h) (0, EncryptionInitial)) as [E|E]; fold r1 in E; rewrite E).
    assert (L2 : r2.2 ≠ Encryption0RTT) by (destruct (pto_of_level (handshakeSpace h) EncryptionHandshake (getScaledPTO false h) r1) as [E|E]; fold r2 in E; by rewrite E).
    destruct (handshakeConfirmed h); [|intros Ht; split; [done|by apply S2]]. intros Ht. split; [|by apply pto_of_space].
    by destruct (pto_of_level (Some (appData h)) Encryption1RTT (getScaledPTO true h) r2) as [E|E]; rewrite E.
Qed.

(** The timer does what it is for, and never ends in the errors of the source. *)
Lemma on_timeout_ok F rnd now (h : handler) : sound F [] [] h → ∃ h', on_timeout rnd now h = Some (h', inl tt) ∧ sound F [] [] h'.
Proof.
  intros HS. unfold on_timeout.
  assert (∃ h1, (if handshakeConfirmed h then detectLostPathProbes now h else Some h) = Some h1 ∧ sound F [] [] h1) as (h1 & -> & S1).
  { destruct (handshakeConfirmed h); [|by exists h]. destruct (detectLostPathProbes_ok F [] now h HS) as (h1 & E & S1 & _). by exists h1. }
  cbn [mbind option_bind]. clear HS h. destruct (getLossTimeAndSpace h1) as [loss l] eqn:El. destruct (Z.eqb_spec loss 0) as [E0|E0]; cbn [negb].
  2: { destruct (loss_space h1 loss l El E0) as [s Hs]. destruct (detectLostPackets_ok F [] l s now h1 S1 Hs) as (h2 & s2 & E2 & S2 & _). rewrite E2. cbn [mbind option_bind].
       eexists. split; [done|]. destruct (lostInfo h2); [done|]. same. }
  pose proof (sd_known _ _ _ _ S1) as K. destruct ((bytesInFlight h1 =? 0) && negb (peerCompletedAddressValidation h1)) eqn:Q.
  { apply andb_true_iff in Q as [_ Q]. set (h2 := set_field numProbesToSend _ _). assert (S2 : sound F [] [] h2) by same.
    change (initialSpace h2) with (initialSpace h1). change (handshakeSpace h2) with (handshakeSpace h1). clearbody h2.
    destruct (initialSpace h1) as [s|] eqn:Ei; [eexists; split; [done|]; same|].
    destruct (handshakeSpace h1) as [s|] eqn:Eh; [eexists; split; [done|]; same|]. pose proof (kn_confirmed _ K Eh) as Hc. by rewrite (kn_peer _ K (or_introl Hc)) in Q. }
  pose proof (pto_space now h1 K) as P. destruct (getPTOTimeAndSpace now h1) as [pto lv]. cbn [fst snd] in P.
  destruct (Z.eqb_spec pto 0); [by exists h1|]. destruct (P ltac:(done)) as (Hl & s & Hs). rewrite Hs. cbn [mbind option_bind].
  destruct (_ && _ && _); [by exists h1|]. destruct lv; try done; [eexists; split; [done|]; same..|].
  set (h2 := set_field numProbesToSend _ _). assert (S2 : sound F [] [] h2) by same. assert (G2 : getPacketNumberSpace Encryption1RTT h2 = Some s) by done.
  pose proof (sd_spaces _ _ _ _ S2 _ _ G2) as Hok. destruct (Pop_ok rnd Encryption1RTT s h2 G2 Hok) as (s1 & E & Pp). rewrite E. cbn [mbind option_bind].
  destruct (skip_space _ _ _ Hok Pp) as (hist & Eh & Kh & C). rewrite (in_space_eq Encryption1RTT _ s1 hist) by done. cbn [mbind option_bind].
  eexists. split; [done|]. assert (R : sound ([] ++ F) [] [] (setSpace Encryption1RTT (s1 <| history := hist |>) h2)) by (apply (sound_grow F Encryption1RTT s _ h2 _ [] S2 G2 Kh C); try done; cbn; lia).
  cbn [Datatypes.app] in R. change (sound F [] [] (setSpace Encryption1RTT (s1 <| history := hist |>) (setSpace Encryption1RTT s1 h2) <| ptoMode := SendPTOAppData |>)).
  eapply sound_same; [exact R|done..].
Qed.

(** ** Dropped keys *)

Lemma remove_exact p (h : handler) : flight_of (0, p) <= bytesInFlight h → removeFromBytesInFlight p h = Some (h <| bytesInFlight := bytesInFlight h - flight_of (0, p) |>).
Proof.
  unfold flight_of, removeFromBytesInFlight. cbn [snd]. intros H. destruct (includedInBytesInFlight p).
  - by rewrite (proj2 (Z.ltb_ge _ _) H).
  - rewrite Z.sub_0_r. by destruct h.
Qed.

Lemma remove_all_exact : ∀ ps (h : handler), Forall countable ps → flight ps <= bytesInFlight h → remove_all ps h = Some (h <| bytesInFlight := bytesInFlight h - flight ps |>).
Proof.
  induction ps as [|[pn p] ps IH]; intros h Hc Hf; [cbn; rewrite Z.sub_0_r; by destruct h|]. apply Forall_cons in Hc as [_ Hc]. pose proof (flight_nonneg _ Hc) as H0.
  rewrite flight_cons in *. change (flight_of (pn, p)) with (flight_of (0, p)) in *. cbn [remove_all]. rewrite remove_exact by lia. cbn [mbind option_bind].
  rewrite IH; [|done|cbn; lia]. f_equal. unfold set_field. cbn. f_equal. lia.
Qed.

(** The handler without a space, and what was in it. *)
Lemma forget_space F (h h' : handler) gone : sound F [] [] h → (∀ l s, getPacketNumberSpace l h' = Some s → space_ok s) →
  everything h ≡ₚ gone ++ everything h' → bytesInFlight h' = bytesInFlight h - flight gone → calls h' = calls h → known h' →
  ∃ F', F' ++ frames_in gone ≡ₚ F ∧ sound F' [] [] h'.
Proof.
  intros [H1 H2 H3 H4 H5] G E B C K. exists (told (calls h') ++ frames_in (everything h')). split.
  - rewrite C, <- H4, E, frames_app. solve_Permutation.
  - split; [done|done| |by rewrite app_nil_r|done]. cbn [Datatypes.app] in *. rewrite B, H3, E, flight_app. lia.
Qed.

Lemma packets_flight s : space_ok s → flight (Packets (history s)) = flight (contents s).
Proof.
  intros Hok. unfold contents. rewrite flight_app, (flight_probes (pathProbePackets (history s))); [lia|].
  destruct (sk_probes _ Hok) as [_ H]. eapply Forall_impl; [exact H|]. by intros x [? _].
Qed.

Lemma others_flight F l s (h : handler) : sound F [] [] h → getPacketNumberSpace l h = Some s → flight (contents s) <= bytesInFlight h.
Proof.
  intros [H1 _ H3 _ _] Hs. cbn [Datatypes.app] in H3. rewrite H3, (everything_at _ _ _ Hs), flight_app. enough (0 <= flight (others l h)) by lia. apply flight_nonneg.
  assert (C : ∀ l s', getPacketNumberSpace l h = Some s' → Forall countable (contents s')) by (intros; by eapply contents_countable, H1).
  assert (C1 : Forall countable (contents' (initialSpace h))) by (destruct (initialSpace h) as [s'|] eqn:E; [by apply (C EncryptionInitial)|constructor]).
  assert (C2 : Forall countable (contents' (handshakeSpace h))) by (destruct (handshakeSpace h) as [s'|] eqn:E; [by apply (C EncryptionHandshake)|constructor]).
  pose proof (C Encryption1RTT _ eq_refl). destruct l; cbn; apply Forall_app; done.
Qed.

(** Packets of 0-RTT, one after the other. *)
Lemma drop_0RTT_ok : ∀ ps F (h : handler), sound F [] [] h → NoDup ps.*1 → Forall (λ x, x ∈ Packets (history (appData h))) ps →
  ∃ h' F' gone, drop_0RTT ps h = Some h' ∧ F' ++ gone ≡ₚ F ∧ sound F' [] [] h' ∧ known h'.
Proof.
  induction ps as [|[pn p] ps IH]; intros F h HS Hn Hall.
  - exists h, F, []. split_and!; [done|by rewrite app_nil_r|done|by eapply sd_known].
  - cbn [drop_0RTT]. rewrite fmap_cons in Hn. apply NoDup_cons in Hn as [Hn1 Hn2]. apply Forall_cons in Hall as [Hin Hall].
    assert (Stop : ∃ h' F' gone, Some h = Some h' ∧ F' ++ gone ≡ₚ F ∧ sound F' [] [] h' ∧ known h') by (exists h, F, []; split_and!; [done|by rewrite app_nil_r|done|by eapply sd_known]).
    destruct (p_level p); try exact Stop. clear Stop.
    assert (Hok : space_ok (appData h)) by by apply (sd_spaces _ _ _ _ HS Encryption1RTT).
    assert (Hf : flight_of (0, p) <= bytesInFlight h).
    { pose proof (others_flight _ Encryption1RTT _ _ HS eq_refl) as Hle. rewrite <- (packets_flight _ Hok) in Hle.
      rewrite (without_perm _ _ _ (Packets_NoDup _) Hin), flight_cons in Hle. enough (0 <= flight (without pn (Packets (history (appData h))))) by (change (flight_of (pn, p)) with (flight_of (0, p)) in *; lia).
      apply flight_nonneg. apply Forall_forall. intros x [_ Hx]%list_elem_of_filter. left. pose proof (sk_packets _ Hok) as Hp. rewrite Forall_forall in Hp. by apply Hp. }
    rewrite (remove_exact p h Hf). cbn [mbind option_bind]. set (h1 := h <| bytesInFlight := _ |>). change (appData h1) with (appData h).
    destruct (Remove_ok _ _ _ (sk_hist _ Hok) Hin) as (hist & E & L). rewrite E. cbn [mbind option_bind].
    destruct (left_space _ _ _ _ Hok Hin L) as [K C]. set (s1 := (appData h) <| history := hist |>) in *.
    set (h2 := h1 <| appData ::= _ |>).
    assert (Eh2 : h2 = setSpace Encryption1RTT s1 h1) by done. clearbody h2. subst h2.
    destruct (forget_space F h (setSpace Encryption1RTT s1 h1) [(pn, p)] HS) as (F1 & P1 & S1).
    + intros l s Hs. destruct (get_set_other Encryption1RTT l (appData h) s1 h1 eq_refl) as [G|G]; rewrite G in Hs; [by simplify_eq|]. by apply (sd_spaces _ _ _ _ HS l).
    + rewrite (everything_at Encryption1RTT h _ eq_refl), C, (everything_set Encryption1RTT h1 (appData h) s1 eq_refl). by rewrite <- app_assoc.
    + cbn. change (flight_of (pn, p)) with (flight_of (0, p)). lia.
    + done.
    + by apply (known_standing h); [|by eapply sd_known].
    + destruct (IH F1 _ S1 Hn2) as (h3 & F3 & gone & E3 & P3 & S3 & K3).
      { rewrite Forall_forall in *. intros x Hx. change (x ∈ Packets hist). rewrite (lb_packets _ _ _ L). apply list_elem_of_filter. split; [|by apply Hall].
        intros Hx1. apply Hn1. by apply list_elem_of_fmap_2' with x. }
      exists h3, F3, (gone ++ frames_in [(pn, p)]). split_and!; [done| |done|done]. by rewrite app_assoc, P3.
Qed.

Lemma sound_finish F now (h : handler) : sound F [] [] h → sound F [] [] (setLossDetectionTimer now (h <| ptoCount := 0 |> <| numProbesToSend := 0 |> <| ptoMode := SendNone |>)).
Proof. intros HS. same. Qed.

(** Initial and Handshake keys: the packets of the space leave the count and are forgotten. *)
Lemma DropPackets_ok F l now (h : handler) : sound F [] [] h → l ≠ Encryption1RTT →
  ∃ h' F' gone, DropPackets l now h = Some h' ∧ F' ++ gone ≡ₚ F ∧ sound F' [] [] h'.
Proof.
  intros HS Hl. unfold DropPackets. set (h0 := if isClient h && _ then _ else h).
  assert (A0 : sound F [] [] h0 ∧ (l = EncryptionHandshake → peerCompletedAddressValidation h0 = true)).
  { unfold h0. destruct (isClient h && _) eqn:Q.
    - split; [|done]. destruct HS as [H1 H2 H3 H4 [H5 H6]]. split; [done..|]. by split.
    - split; [done|]. intros ->. rewrite andb_true_r in Q. apply (kn_peer _ (sd_known _ _ _ _ HS)). by right. }
  destruct A0 as [S0 P0]. clearbody h0. pose proof (sd_known _ _ _ _ S0) as [K1 K2].
  assert (Stop : ∃ h' F' gone, Some h0 = Some h' ∧ F' ++ gone ≡ₚ F ∧ sound F' [] [] h') by (exists h0, F, []; split_and!; [done|by rewrite app_nil_r|done]).
  destruct l; [| | |done].
  - destruct (initialSpace h0) as [s|] eqn:Ei; [|exact Stop]. pose proof (sd_spaces _ _ _ _ S0 EncryptionInitial s Ei) as Hok.
    pose proof (others_flight _ EncryptionInitial _ _ S0 Ei) as Hf. rewrite <- (packets_flight _ Hok) in Hf.
    rewrite remove_all_exact; [|eapply Forall_impl; [apply (sk_packets _ Hok)|by left]|done]. cbn [mbind option_bind].
    set (h1 := set_field initialSpace _ _). destruct (forget_space F h0 h1 (contents s) S0) as (F' & P1 & S1).
    + intros l s' Hs. destruct l; [done|exact (sd_spaces _ _ _ _ S0 EncryptionHandshake s' Hs)|exact (sd_spaces _ _ _ _ S0 Encryption1RTT s' Hs)..].
    + by rewrite (everything_at EncryptionInitial h0 s Ei).
    + cbn. by rewrite packets_flight.
    + done.
    + by split.
    + eexists _, F', _. split_and!; [done|done|by apply sound_finish].
  - destruct (handshakeSpace h0) as [s|] eqn:Ei; [|exact Stop]. pose proof (sd_spaces _ _ _ _ S0 EncryptionHandshake s Ei) as Hok.
    pose proof (others_flight _ EncryptionHandshake _ _ S0 Ei) as Hf. rewrite <- (packets_flight _ Hok) in Hf.
    rewrite remove_all_exact; [|eapply Forall_impl; [apply (sk_packets _ Hok)|by left]|done]. cbn [mbind option_bind].
    set (h1 := set_field handshakeSpace _ _). destruct (forget_space F h0 h1 (contents s) S0) as (F' & P1 & S1).
    + intros l s' Hs. destruct l; [exact (sd_spaces _ _ _ _ S0 EncryptionInitial s' Hs)|done|exact (sd_spaces _ _ _ _ S0 Encryption1RTT s' Hs)..].
    + by rewrite (everything_at EncryptionHandshake h0 s Ei).
    + cbn. by rewrite packets_flight.
    + done.
    + split; [done|]. intros _. by apply P0.
    + eexists _, F', _. split_and!; [done|done|by apply sound_finish].
  - destruct (drop_0RTT_ok (Packets (history (appData h0))) F h0 S0 (Packets_NoDup _)) as (h1 & F' & gone & E & P1 & S1 & _); [by apply Forall_forall|].
    rewrite E. cbn [mbind option_bind]. eexists _, F', gone. split_and!; [done|done|by apply sound_finish].
Qed.

(** ** A Retry *)

(** All frames are told lost; those of packets that are not ack-eliciting are none. *)
Lemma requeue_exact : ∀ ps (h : handler), requeue ps h = Some (h <| calls := calls h ++ (OnLost <$> frames_in ps) |>).
Proof.
  induction ps as [|[pn p] ps IH]; intros h; [cbn; rewrite app_nil_r; by destruct h|]. cbn [requeue]. change (frames_in ((pn, p) :: ps)) with (frames_of (pn, p) ++ frames_in ps).
  unfold IsAckEliciting, queueFramesForRetransmission, frames_of. cbn [snd]. destruct (sent_frames p) as [|f fs] eqn:Ef.
  - rewrite bool_decide_true by done. cbn [negb mbind option_bind]. by rewrite IH.
  - rewrite bool_decide_false by done. cbn [negb mbind option_bind]. rewrite IH. rewrite fmap_app. unfold tell, set_field. cbn. by rewrite <- app_assoc.
Qed.

Lemma new_space_ok rnd pn b : 0 <= pn → space_ok (newPacketNumberSpace rnd pn b).
Proof. intros H. split; [apply new_hist_ok|constructor|split; [apply rising_nil|constructor]|done|]. unfold gen_ok, next_number. by destruct b; cbn; (split; [lia|left]). Qed.

Lemma peek_nonneg s : space_ok s → 0 <= gen_Peek (pns s).
Proof. intros Hok. pose proof (sk_gen _ Hok) as [H _]. unfold gen_Peek. destruct (pns s); cbn in H; [done|]. destruct (_ =? _); lia. Qed.

(** At a Retry only Initial and 0-RTT packets were sent. *)
Lemma ResetForRetry_ok F rnd now s (h : handler) : sound F [] [] h → initialSpace h = Some s → contents' (handshakeSpace h) = [] →
  pathProbePackets (history s) = [] → pathProbePackets (history (appData h)) = [] →
  ∃ h', ResetForRetry rnd now h = Some h' ∧ sound F [] [] h' ∧ bytesInFlight h' = 0 ∧ everything h' = [].
Proof.
  intros HS Hs Hh P1 P2. unfold ResetForRetry. change (initialSpace (h <| bytesInFlight := 0 |>)) with (initialSpace h). rewrite Hs. cbn [mbind option_bind].
  rewrite requeue_exact. cbn [mbind option_bind]. rewrite requeue_exact. cbn [mbind option_bind]. set (h2 := set_field calls _ _).
  set (h3 := if ptoCount h2 =? 0 then _ else h2). eexists. split; [done|].
  assert (A3 : calls h3 = calls h2 ∧ bytesInFlight h3 = bytesInFlight h2 ∧ appData h3 = appData h2 ∧ handshakeSpace h3 = handshakeSpace h2 ∧ initialSpace h3 = initialSpace h2 ∧
    handshakeConfirmed h3 = handshakeConfirmed h2 ∧ isClient h3 = isClient h2 ∧ peerCompletedAddressValidation h3 = peerCompletedAddressValidation h2) by (unfold h3; destruct (ptoCount h2 =? 0); by split_and!).
  destruct A3 as (C3 & B3 & A3 & H3 & I3 & HC3 & IC3 & PC3). clearbody h3.
  assert (C2 : calls h2 = (calls h ++ (OnLost <$> frames_in (Packets (history s)))) ++ (OnLost <$> frames_in (Packets (history (appData h))))) by done.
  assert (B2 : bytesInFlight h2 = 0) by done. assert (H2 : handshakeSpace h2 = handshakeSpace h) by done. assert (A2 : appData h2 = appData h) by done.
  assert (K2 : handshakeConfirmed h2 = handshakeConfirmed h ∧ isClient h2 = isClient h ∧ peerCompletedAddressValidation h2 = peerCompletedAddressValidation h) by done.
  clearbody h2. destruct HS as [S1 S2 S3 S4 [S5 S6]]. destruct K2 as (K2 & K3 & K4).
  assert (Ev : everything h ≡ₚ Packets (history s) ++ Packets (history (appData h))).
  { unfold everything. rewrite Hs, Hh. unfold contents', contents. rewrite P1, P2. by rewrite !app_nil_r. }
  assert (En : contents' (handshakeSpace h3) = []) by by rewrite H3, H2.
  match goal with |- sound _ _ _ ?g ∧ _ => set (h' := g) end. assert (E' : everything h' = []) by (unfold everything; cbn; by rewrite En).
  split_and!; [|by cbn; rewrite B3, B2|done]. split.
  - intros l s' Hl. destruct l; cbn in Hl; simplify_eq; try (apply new_space_ok; apply peek_nonneg).
    + by apply (S1 EncryptionInitial).
    + apply (S1 EncryptionHandshake). cbn. by rewrite <- H2, <- H3.
    + rewrite A3, A2. by apply (S1 Encryption1RTT).
    + rewrite A3, A2. by apply (S1 Encryption1RTT).
  - done.
  - rewrite E'. cbn. by rewrite B3, B2.
  - rewrite E', app_nil_r. cbn [frames_in mbind list_bind Datatypes.app]. change (calls h') with (calls h3). rewrite C3, C2, !told_app, !told_map by done.
    rewrite <- S4, Ev, frames_app. cbn. rewrite !app_nil_r. by rewrite <- app_assoc.
  - split; cbn; rewrite ?H3, ?H2, ?HC3, ?IC3, ?PC3, ?K2, ?K3, ?K4; done.
Qed.

(** ** A new path *)

Lemma abandon_ok : ∀ ps F (h : handler), sound F [] [] h → NoDup ps.*1 → Forall (λ x, x ∈ Packets (history (appData h))) ps →
  ∃ h', abandon_path ps h = Some h' ∧ sound F [] [] h' ∧ Packets (history (appData h')) = filter (λ x, x.1 ∉ ps.*1) (Packets (history (appData h))) ∧ shape h' = shape h ∧
    pathProbePackets (history (appData h')) = pathProbePackets (history (appData h)).
Proof.
  induction ps as [|[pn p] ps IH]; intros F h HS Hn Hall.
  - exists h. split_and!; try done. symmetry. apply filter_all. intros x _. apply not_elem_of_nil.
  - cbn [abandon_path]. rewrite fmap_cons in Hn. apply NoDup_cons in Hn as [Hn1 Hn2]. apply Forall_cons in Hall as [Hin Hall].
    pose proof (sd_spaces _ _ _ _ HS Encryption1RTT _ eq_refl) as Hok.
    assert (Pk : packet_ok (pn, p)) by (pose proof (sk_packets _ Hok) as Hp; rewrite Forall_forall in Hp; by apply Hp).
    destruct (declare_lost _ _ _ Encryption1RTT _ _ _ _ HS eq_refl Hin) as (hist & E1 & L & S1). rewrite E1. cbn [mbind option_bind].
    set (s1 := (appData h) <| history := hist |>) in *. pose proof (shape_set Encryption1RTT _ s1 h eq_refl) as Sh1. set (h1 := setSpace Encryption1RTT s1 h) in *.
    assert (A1 : appData h1 = s1) by done. clearbody h1.
    assert (∃ h2, (if isPathProbePacket p then Some h1 else h ← removeFromBytesInFlight p h1; if IsAckEliciting p then queueFramesForRetransmission p h else Some h) = Some h2 ∧
      sound F [] [] h2 ∧ shape h2 = shape h1 ∧ appData h2 = s1) as (h2 & E2 & S2 & Sh2 & A2).
    { destruct (isPathProbePacket p) eqn:Pb; [exists h1; split_and!; try done; eapply quiet_free; [done|by rewrite Pb|done]|].
      destruct (sound_remove _ _ _ _ _ _ S1 (or_introl Pk)) as (h2 & E2 & S2 & Sh2 & G2 & _). rewrite E2. cbn [mbind option_bind].
      assert (A2 : appData h2 = s1) by (specialize (G2 Encryption1RTT); cbn in G2; injection G2 as G2; by rewrite G2).
      destruct (IsAckEliciting p) eqn:Ee.
      - destruct (sound_requeue _ _ _ p _ S2 Ee) as (h3 & E3 & S3 & T3). exists h3. split_and!; [done|done|by rewrite T3, shape_lost|by rewrite T3].
      - exists h2. split_and!; [done| |done|done]. unfold IsAckEliciting in Ee. unfold frames_of in S2. cbn [snd] in S2. case_bool_decide as Hs; [|done]. by rewrite Hs in S2. }
    rewrite E2. cbn [mbind option_bind]. destruct (IH F h2 S2 Hn2) as (h3 & E3 & S3 & P3 & Sh3 & Q3).
    { rewrite A2. rewrite Forall_forall in *. intros x Hx. change (x ∈ Packets hist). rewrite (lb_packets _ _ _ L). apply list_elem_of_filter. split; [|by apply Hall].
      intros Hx1. apply Hn1. by apply list_elem_of_fmap_2' with x. }
    exists h3. split_and!; [done|done| |by rewrite Sh3, Sh2|by rewrite Q3, A2, <- (lb_probes _ _ _ L)].
    rewrite P3, A2. change (history s1) with hist. rewrite (lb_packets _ _ _ L). unfold without. rewrite list_filter_filter. apply list_filter_iff. intros x. rewrite fmap_cons, not_elem_of_cons. tauto.
Qed.

(** The old path's packets are told lost; probes may be left over. *)
Lemma MigratedPath_ok F now size (h : handler) : sound F [] [] h →
  ∃ h' F' gone, MigratedPath now size h = Some h' ∧ F' ++ gone ≡ₚ F ∧ sound F' [] [] h' ∧ Packets (history (appData h')) = [].
Proof.
  intros HS. unfold MigratedPath. set (h0 := set_field rttStats _ h). assert (S0 : sound F [] [] h0) by same. change (history (appData h)) with (history (appData h0)). clearbody h0. clear HS h.
  destruct (abandon_ok (Packets (history (appData h0))) F h0 S0 (Packets_NoDup _)) as (h1 & E & S1 & P1 & _ & _); [by apply Forall_forall|]. rewrite E. cbn [mbind option_bind].
  pose proof (sd_spaces _ _ _ _ S1 Encryption1RTT _ eq_refl) as Hok. set (ps := pathProbePackets (history (appData h1))).
  set (qs := drop_probes (length ps) 0 (length ps) ps). assert (Hsub : qs `sublist_of` ps) by (unfold qs; etrans; [by apply drop_probes_sub|]; by rewrite take_ge).
  set (s2 := with_probes qs (appData h1)). set (h2 := set_field appData _ h1). assert (E2 : h2 = setSpace Encryption1RTT s2 h1) by done. clearbody h2. subst h2.
  assert (P0 : Packets (history (appData h1)) = []).
  { rewrite P1. apply filter_none. intros x Hx. intros Hn. apply Hn. by apply list_elem_of_fmap_2. }
  destruct (sk_probes _ Hok) as [R1 R2]. fold ps in R1, R2.
  assert (Hqs : ∀ x, x ∈ qs → x ∈ ps) by (intros x; by apply sublist_subseteq).
  assert (Hok2 : space_ok s2).
  { destruct Hok as [O1 O2 O3 O4 O5]. split; [by destruct O1|done| |done|done]. split; [by eapply sublist_rising|].
    change (pathProbePackets (history s2)) with qs. rewrite Forall_forall in *. intros x Hx. by apply R2, Hqs. }
  assert (∃ rs, ps ≡ₚ rs ++ qs ∧ Forall probe_ok rs) as (rs & Hp & Hrs).
  { destruct (submseteq_Permutation qs ps (sublist_submseteq _ _ Hsub)) as [rs Hp]. exists rs. split; [by rewrite Permutation_app_comm|].
    rewrite Forall_forall in *. intros x Hx. apply R2. rewrite Hp. apply elem_of_app. by right. }
  destruct (forget_space F h1 (setSpace Encryption1RTT s2 h1) rs S1) as (F' & P2 & S2).
  - intros l s Hs. destruct (get_set_other Encryption1RTT l (appData h1) s2 h1 eq_refl) as [G|G]; rewrite G in Hs; [by simplify_eq|]. by apply (sd_spaces _ _ _ _ S1 l).
  - rewrite (everything_at Encryption1RTT h1 _ eq_refl), (everything_set Encryption1RTT h1 (appData h1) s2 eq_refl). unfold contents. fold ps.
    change (pathProbePackets (history s2)) with qs. change (Packets (history s2)) with (Packets (history (appData h1))). rewrite Hp. solve_Permutation.
  - rewrite (flight_probes rs Hrs). cbn. lia.
  - done.
  - apply (known_standing h1); [done|by eapply sd_known].
  - eexists _, F', _. split_and!; [done|done| |done]. eapply sound_same; [exact S2|done..].
Qed.
End handler.
