(* ===== verification/LossRun.v ===== *)
(** * The life of a handler of sent packets
    ([quic-go/internal/ackhandler/sent_packet_handler.go])

    The operations as events, runs of them, and what holds in every run: nothing
    panics, the bytes in flight are right, every frame is settled at most once, and
    none is lost sight of but where the code gives it up. *)

From Stdlib Require Import ZArith Lia Bool.
From stdpp Require Import base list.
From S2P Require Import Prelude.
From S2P Require Import GoNet.
From S2P Require Import GoFloat.
From S2P Require Import Wire.
From S2P Require Import WireFrames.
From S2P Require Import AckHistory.
From S2P Require Import AckFrame.
From S2P Require Import AckTracker.
From S2P Require Import RttStats.
From S2P Require Import EcnTracker.
From S2P Require Import SentHistory.
From S2P Require Import SentHistInv.
From S2P Require Import LossDetection.
From S2P Require Import LossInv.
From S2P Require Import LossOps.
From S2P Require Import LossAck.
From S2P Require Import LossHandler.
From S2P Require Import LossSend.
From S2P Require Import LossGive.

Open Scope Z_scope.
Open Scope list_scope.

(** ** Events *)

(** A packet is sent with the number that is popped for it; the random numbers are
    those the generator draws. *)
Inductive event :=
| Send (rnd : Z) (t largest : Z) (frames : list sent_frame) (l : EncryptionLevel) (mark : ECN) (size : Z) (isPathMTUProbe isPathProbe : bool)
| Ack (ack : AckFrame) (l : EncryptionLevel) (t : time)
| Timeout (rnd : Z) (now : time)
| Probe (l : EncryptionLevel)
| GotBytes (n : Z) (t : time)
| GotPacket (l : EncryptionLevel) (t : time)
| DropKeys (l : EncryptionLevel) (now : time)
| Retry (rnd : Z) (now : time)
| Migrate (now : time) (size : Z)
| MaxSize (n : Z)
| Padding (n : Z)
| Mark (isShortHeaderPacket : bool).

(** The frames an event hands in whose handlers are to hear of them. *)
Definition handed_in (e : event) : list sent_frame :=
  match e with Send _ _ _ frames _ _ _ _ _ => filter (λ f, handled f = true) frames | _ => [] end.

(** The events that give frames up without a word. *)
Definition gives_up (e : event) : bool := match e with DropKeys _ _ | Migrate _ _ => true | _ => false end.

Section run.
Context {CC : Type} `{!SendAlgorithm CC}.
Abbreviation handler := (sentPacketHandler CC).

Definition perform (e : event) (h : handler) : option handler :=
  match e with
  | Send rnd t largest frames l mark size mtu probe => '(h, pn) ← PopPacketNumber rnd l h; SentPacket t pn largest frames l mark size mtu probe h
  | Ack ack l t => fst <$> ReceivedAck ack l t h
  | Timeout rnd now => fst <$> OnLossDetectionTimeout rnd now h
  | Probe l => fst <$> QueueProbePacket l h
  | GotBytes n t => Some (ReceivedBytes n t h)
  | GotPacket l t => Some (ReceivedPacket l t h)
  | DropKeys l now => DropPackets l now h
  | Retry rnd now => ResetForRetry rnd now h
  | Migrate now size => MigratedPath now size h
  | MaxSize n => Some (handler_SetMaxDatagramSize n h)
  | Padding n => Some (SetLastDatagramPadding n h)
  | Mark b => Some (ECNMode b h).1
  end.

(** What the callers see to. An ACK is one the parser lets pass; a Retry comes before
    any key but Initial's and 0-RTT's; keys of 1-RTT are not dropped. *)
Definition acceptable (e : event) (h : handler) : Prop :=
  match e with
  | Send rnd t largest frames l mark size mtu probe => is_Some (getPacketNumberSpace l h) ∧ sendable_packet l t size frames mark probe h
  | Ack ack l t => is_Some (getPacketNumberSpace l h) ∧ AckRanges ack ≠ [] ∧ ∃ hi, ranges_desc hi (AckRanges ack)
  | Probe l => is_Some (getPacketNumberSpace l h)
  | DropKeys l now => l ≠ Encryption1RTT
  | Retry rnd now => ∃ s, initialSpace h = Some s ∧ contents' (handshakeSpace h) = [] ∧ pathProbePackets (history s) = [] ∧ pathProbePackets (history (appData h)) = []
  | _ => True
  end.

Fixpoint run (es : list event) (h : handler) : option handler :=
  match es with [] => Some h | e :: es => h ← perform e h; run es h end.

Fixpoint accepted (es : list event) (h : handler) : Prop :=
  match es with [] => True | e :: es => acceptable e h ∧ ∀ h', perform e h = Some h' → accepted es h' end.

Ltac same := eapply sound_same; [eassumption|done..].

(** Every acceptable event succeeds and keeps the handler sound. *)
Lemma perform_ok F e (h : handler) : sound F [] [] h → acceptable e h →
  ∃ h' F' gone, perform e h = Some h' ∧ F' ++ gone ≡ₚ handed_in e ++ F ∧ sound F' [] [] h' ∧ (gives_up e = false → gone = []).
Proof.
  intros HS Ha.
  assert (Keep : ∀ h', perform e h = Some h' → sound (handed_in e ++ F) [] [] h' →
    ∃ h' F' gone, perform e h = Some h' ∧ F' ++ gone ≡ₚ handed_in e ++ F ∧ sound F' [] [] h' ∧ (gives_up e = false → gone = [])).
  { intros h' E S1. exists h', (handed_in e ++ F), []. split_and!; [done|by rewrite app_nil_r|done|done]. }
  destruct e; cbn [perform handed_in gives_up Datatypes.app acceptable] in *.
  - destruct Ha as [[s Hs] Hp]. destruct (Pop_ok rnd l s h Hs (sd_spaces _ _ _ _ HS _ _ Hs)) as (s1 & E & P). rewrite E in Keep |- *. cbn [mbind option_bind] in *.
    destruct (SentPacket_ok F _ t largest frames l mark size isPathMTUProbe isPathProbe s s1 h HS Hs P Hp) as (h' & E' & S'). by eapply Keep.
  - destruct Ha as ([s Hs] & Hne & hi & Hd). destruct (ReceivedAck_ok F hi l s ack t h HS Hs Hne Hd) as (h' & r & E & S' & _). rewrite E in Keep |- *. by eapply Keep.
  - destruct (on_timeout_ok F rnd now h HS) as (h' & E & S'). unfold OnLossDetectionTimeout in *. rewrite E in Keep |- *. eapply Keep; [done|same].
  - destruct Ha as [s Hs]. destruct (QueueProbePacket_ok F l s h HS Hs) as (h' & b & E & S' & _). rewrite E in Keep |- *. by eapply Keep.
  - eapply Keep; [done|]. unfold ReceivedBytes. cbn zeta. destruct (_ && _); same.
  - eapply Keep; [done|]. unfold ReceivedPacket. destruct (_ && _ && _); [same|done].
  - destruct (DropPackets_ok F l now h HS Ha) as (h' & F' & gone & E & P & S'). by exists h', F', gone.
  - destruct Ha as (s & Hs & H1 & H2 & H3). destruct (ResetForRetry_ok F rnd now s h HS Hs H1 H2 H3) as (h' & E & S' & _). by eapply Keep.
  - destruct (MigratedPath_ok F now size h HS) as (h' & F' & gone & E & P & S' & _). by exists h', F', gone.
  - eapply Keep; [done|]. same.
  - eapply Keep; [done|]. same.
  - eapply Keep; [done|]. unfold ECNMode. destruct (ecn h) as [e|]; [|done]. destruct (negb _); [done|]. destruct (ecn_Mode e) as [e' m]. cbn. same.
Qed.

Lemma run_sound : ∀ es F (h : handler), sound F [] [] h → accepted es h →
  ∃ h' F' gone, run es h = Some h' ∧ F' ++ gone ≡ₚ (es ≫= handed_in) ++ F ∧ sound F' [] [] h' ∧ (Forall (λ e, gives_up e = false) es → gone = []).
Proof.
  induction es as [|e es IH]; intros F h HS Ha; [exists h, F, []; by rewrite app_nil_r|]. destruct Ha as [Ha Hes].
  destruct (perform_ok F e h HS Ha) as (h1 & F1 & g1 & E1 & P1 & S1 & G1). destruct (IH F1 h1 S1 (Hes _ E1)) as (h2 & F2 & g2 & E2 & P2 & S2 & G2).
  exists h2, F2, (g2 ++ g1). cbn [run]. rewrite E1. split_and!; [done| |done|].
  - rewrite app_assoc, P2, bind_cons, <- !app_assoc. rewrite P1. solve_Permutation.
  - intros [He Hf]%Forall_cons. by rewrite G1, G2.
Qed.

(** A handler as the connection makes it. *)
Lemma fresh_sound rnd initialPN size rtt validated enableECN ignoring client short : 0 <= initialPN →
  sound [] [] [] (NewSentPacketHandler rnd initialPN size rtt validated enableECN ignoring client short : handler).
Proof.
  intros H. split; try done; [|split; [done|intros [Hc|Hc]; cbn in *; [done|by rewrite Hc]]]. intros l s Hs. destruct l; cbn in Hs; simplify_eq; by apply new_space_ok.
Qed.

(** The lengths of the ack-eliciting packets that are tracked. *)
Definition eliciting_bytes (ps : list (Z * packet)) : Z := foldr (λ x n, (if IsAckEliciting x.2 then p_Length x.2 else 0) + n) 0 ps.
Definition tracked_bytes (h : handler) : Z :=
  eliciting_bytes (match initialSpace h with Some s => Packets (history s) | None => [] end) +
  eliciting_bytes (match handshakeSpace h with Some s => Packets (history s) | None => [] end) + eliciting_bytes (Packets (history (appData h))).

Lemma eliciting_flight s : space_ok s → eliciting_bytes (Packets (history s)) = flight (contents s).
Proof.
  intros Hok. rewrite <- (packets_flight _ Hok). pose proof (sk_packets _ Hok) as Hp. induction Hp as [|x ps Hx _ IH]; [done|].
  rewrite flight_cons, <- IH. cbn [eliciting_bytes foldr]. unfold flight_of. by rewrite (po_included _ Hx).
Qed.

Lemma tracked_flight F (h : handler) : sound F [] [] h → bytesInFlight h = tracked_bytes h.
Proof.
  intros HS. rewrite (sd_flight _ _ _ _ HS). cbn [Datatypes.app]. unfold everything, tracked_bytes. rewrite !flight_app, <- (eliciting_flight (appData h)) by by apply (sd_spaces _ _ _ _ HS Encryption1RTT).
  assert (E : ∀ l s, getPacketNumberSpace l h = Some s → eliciting_bytes (Packets (history s)) = flight (contents s)) by (intros; by eapply eliciting_flight, (sd_spaces _ _ _ _ HS)).
  destruct (initialSpace h) as [s1|] eqn:E1, (handshakeSpace h) as [s2|] eqn:E2; cbn [contents'];
    rewrite <- ?(E EncryptionInitial s1 E1), <- ?(E EncryptionHandshake s2 E2); change (flight []) with 0; change (eliciting_bytes []) with 0; lia.
Qed.

(** C2: However sending, acknowledgements, timeouts, dropped keys, a Retry and changes of
    path follow one another, no operation panics; the bytes in flight are exactly the lengths
    of the ack-eliciting packets that are tracked; and the frames whose handlers were told, with those that packets still
    hold, are among the frames handed in, each as often as it was handed in - all of them,
    unless keys were dropped or the path was left. *)
Theorem every_frame_settled_once rnd initialPN size rtt validated enableECN ignoring client short es :
  0 <= initialPN →
  let h := NewSentPacketHandler rnd initialPN size rtt validated enableECN ignoring client short : handler in
  accepted es h →
  ∃ h', run es h = Some h' ∧ bytesInFlight h' = tracked_bytes h' ∧ 0 <= bytesInFlight h' ∧
    told (calls h') ++ frames_in (everything h') ⊆+ es ≫= handed_in ∧
    (Forall (λ e, gives_up e = false) es → told (calls h') ++ frames_in (everything h') ≡ₚ es ≫= handed_in).
Proof.
  intros Hpn h Ha. destruct (run_sound es [] h (fresh_sound _ _ _ _ _ _ _ _ _ Hpn) Ha) as (h' & F' & gone & E & P & HS & G).
  rewrite app_nil_r in P. exists h'. pose proof (sd_flight _ _ _ _ HS) as B. pose proof (sd_ledger _ _ _ _ HS) as L. rewrite app_nil_r in L.
  split_and!; [done|by eapply tracked_flight| | |].
  - rewrite B. by apply everything_nonneg, (sd_spaces _ _ _ _ HS).
  - rewrite L, <- P. by apply submseteq_inserts_r.
  - intros Hf. by rewrite L, <- P, (G Hf), app_nil_r.
Qed.

(** ** Loss *)

Lemma overdue_false t s x : overdue t s x = false ↔
  largestAcked s < x.1 ∨ t < SendTime x.2 ∧ Difference (largestAcked s) x.1 (history s) < packetThreshold.
Proof.
  unfold overdue, packet_lost. destruct (Z.leb_spec x.1 (largestAcked s)), (Z.leb_spec (SendTime x.2) t), (Z.leb_spec packetThreshold (Difference (largestAcked s) x.1 (history s)));
    cbn; split; intros; try done; try lia.
Qed.

(** C24: Loss detection declares lost exactly the packets below the largest acknowledged one
    that were sent too long ago or have three sent packets, skipped numbers not counted, up to
    that one; it never panics; and the loss timer is set for the first of the packets
    that were overtaken and not given up. *)
Theorem losses_exact F l s now (h : handler) : sound F [] [] h → getPacketNumberSpace l h = Some s →
  ∃ h' s', detectLostPackets now l h = Some h' ∧ sound F [] [] h' ∧ getPacketNumberSpace l h' = Some s' ∧
    (∀ x, x ∈ Packets (history s') ↔ x ∈ Packets (history s) ∧
      (largestAcked s < x.1 ∨ now - lossDelay h < SendTime x.2 ∧ Difference (largestAcked s) x.1 (history s) < 3)) ∧
    lossTime s' = (match filter (λ x, x.1 <= largestAcked s) (Packets (history s')) with [] => 0 | x :: _ => SendTime x.2 + lossDelay h end).
Proof.
  intros HS Hs. destruct (detectLostPackets_ok F [] l s now h HS Hs) as (h' & s' & E & S' & [G _] & LS & P & T). exists h', s'. split_and!; [done|done|done| |].
  - intros x. rewrite P. unfold staying. rewrite list_elem_of_filter, overdue_false. tauto.
  - rewrite T, P. unfold first_late, staying. rewrite list_filter_filter. erewrite list_filter_iff; [done|]. intros x. rewrite andb_true_iff, Z.leb_le, negb_true_iff. tauto.
Qed.

(** C3: An ACK that passed the parser is answered as the source means it. It is the peer's error exactly when it
    acknowledges a number beyond the largest sent or, for application data, one of the skipped numbers still remembered (the last
    four, none from before a Retry). Otherwise exactly the packets that the history still tracks and that lie in its
    ranges are told acknowledged, in the order of their numbers, and leave the history,
    and, if there were any, of the others those that are now overdue. (A path probe is one of them only
    as long as the place it holds in the history is there: [probe_ack_unnoticed].) The two errors the source calls a bug
    never occur, and nothing panics. *)
Theorem ack_settles F hi l s ack t (h : handler) : sound F [] [] h → getPacketNumberSpace l h = Some s → AckRanges ack ≠ [] → ranges_desc hi (AckRanges ack) →
  ∃ h' r, ReceivedAck ack l t h = Some (h', r) ∧ sound F [] [] h' ∧ ack_result ack l t s h h' r.
Proof. apply ReceivedAck_ok. Qed.

End run.

(** ** A run *)

(** A controller that lets everything pass. *)
#[export] Instance open_window : SendAlgorithm unit := {|
  cc_New := λ _ _, tt; cc_OnPacketSent := λ _ _ _ _ _ _ c, c; cc_CanSend := λ _ _, true; cc_HasPacingBudget := λ _ _, true; cc_TimeUntilSend := λ _ _, 0;
  cc_MaybeExitSlowStart := λ _ c, c; cc_OnPacketAcked := λ _ _ _ _ _ c, c; cc_OnCongestionEvent := λ _ _ _ _ c, c; cc_EventEx := λ _ _ _ _ _ c, c;
  cc_GetCongestionWindow := λ _, 100000; cc_SetMaxDatagramSize := λ _ c, c |}.

Definition demo_new : sentPacketHandler unit := NewSentPacketHandler 1000 0 1200 NewRTTStats false false true true false.

Definition demo_frame (n : Z) : sent_frame := SentControl (MaxDataFrame n) true.
Definition demo_send (n : Z) : event := Send 0 (second + n * millisecond) InvalidPacketNumber [demo_frame n] Encryption1RTT ECNUnsupported 1200 false false.
Definition demo_ack : AckFrame := mkAckFrame [mkAckRange 4 4; mkAckRange 1 1] 0 0 0 0.

(** Five packets, of which the peer got the second and the last. *)
Definition demo_sends : list event := demo_send <$> [0; 1; 2; 3; 4].
Definition demo_events : list event := demo_sends ++ [Ack demo_ack Encryption1RTT (second + 100 * millisecond)].
Definition demo_sent : sentPacketHandler unit := default demo_new (run demo_sends demo_new).
Definition demo_acked : sentPacketHandler unit := default demo_new (run demo_events demo_new).

Example demo_told : (calls demo_acked, (Packets (history (appData demo_acked))).*1, bytesInFlight demo_acked) =
  ([OnAcked (demo_frame 1); OnAcked (demo_frame 4); OnLost (demo_frame 0)], [2; 3], 2400).
Proof. vm_compute. reflexivity. Qed.

Lemma demo_send_fine n (h : sentPacketHandler unit) : 0 <= n → ecn h = None → acceptable (demo_send n) h.
Proof. intros Hn He. split; [by eexists|]. split; [unfold second, millisecond; lia|done|done|by intros _; left]. Qed.

Lemma demo_ranges : ranges_desc 1000 (AckRanges demo_ack).
Proof. vm_compute. intuition congruence. Qed.

Ltac next_event := split; [apply demo_send_fine; done|]; let E := fresh in intros ? E; vm_compute in E; injection E as <-.

Lemma demo_accepted : accepted demo_events demo_new.
Proof. do 5 next_event. split; [|done]. split; [by eexists|]. split; [done|]. exists 1000. apply demo_ranges. Qed.

Lemma demo_sends_accepted : accepted demo_sends demo_new.
Proof. do 5 next_event. done. Qed.

Lemma reached es h' : accepted es demo_new → run es demo_new = Some h' → ∃ F, sound F [] [] h'.
Proof.
  intros Ha E. destruct (run_sound es [] demo_new (fresh_sound _ _ _ _ _ _ _ _ _ ltac:(done)) Ha) as (h & F & _ & E' & _ & HS & _). rewrite E in E'. injection E' as ->. by exists F.
Qed.

Lemma demo_sent_sound : ∃ F, sound F [] [] demo_sent.
Proof. apply (reached demo_sends); [apply demo_sends_accepted|vm_compute; reflexivity]. Qed.

Lemma demo_acked_sound : ∃ F, sound F [] [] demo_acked.
Proof. apply (reached demo_events); [apply demo_accepted|vm_compute; reflexivity]. Qed.

Lemma every_frame_settled_once_witness : ∃ h', run demo_events demo_new = Some h' ∧ told (calls h') ++ frames_in (everything h') ≡ₚ demo_frame <$> [0; 1; 2; 3; 4].
Proof.
  destruct (every_frame_settled_once 1000 0 1200 NewRTTStats false false true true false demo_events ltac:(lia) demo_accepted) as (h' & E & _ & _ & _ & P).
  exists h'. split; [exact E|]. apply P. by repeat constructor.
Defined.

Lemma losses_exact_witness : ∃ h', detectLostPackets (2 * second) Encryption1RTT demo_acked = Some h'.
Proof. destruct demo_acked_sound as [F HS]. destruct (losses_exact F Encryption1RTT (appData demo_acked) (2 * second) demo_acked HS eq_refl) as (h' & s' & E & _). by exists h'. Defined.

Lemma ack_settles_witness : ∃ h' r, ReceivedAck demo_ack Encryption1RTT (second + 100 * millisecond) demo_sent = Some (h', r) ∧
  ack_result demo_ack Encryption1RTT (second + 100 * millisecond) (appData demo_sent) demo_sent h' r.
Proof.
  destruct demo_sent_sound as [F HS]. destruct (ack_settles F 1000 Encryption1RTT (appData demo_sent) demo_ack (second + 100 * millisecond) demo_sent HS eq_refl ltac:(done) demo_ranges) as (h' & r & E & _ & R).
  exists h', r. split; [exact E|exact R].
Defined.

(** ** Where the code does not do what it means to *)

Definition demo_probe (n : Z) : event := Send 0 (second + n * millisecond) InvalidPacketNumber [SentControl (PathChallengeFrame [n]) true] Encryption1RTT ECNUnsupported 1200 false true.

(** The place a path's probe holds has no send time: the first ACK of a later packet declares it lost, and the probe's
    own acknowledgement, when it comes, goes unnoticed. *)
Example probe_ack_unnoticed :
  (λ h : sentPacketHandler unit, (calls h, (pathProbePackets (history (appData h))).*1)) <$>
    run [demo_probe 0; demo_send 1; Ack (mkAckFrame [mkAckRange 1 1] 0 0 0 0) Encryption1RTT (second + 100 * millisecond);
         Ack (mkAckFrame [mkAckRange 0 1] 0 0 0 0) Encryption1RTT (second + 200 * millisecond)] demo_new =
  Some ([OnAcked (demo_frame 1)], [0]).
Proof. vm_compute. reflexivity. Qed.

(** [MigratedPath] takes the probes out of the slice it goes over: of three, the second stays. *)
Example migration_leaves_a_probe :
  (λ h : sentPacketHandler unit, (calls h, (pathProbePackets (history (appData h))).*1)) <$>
    run [demo_probe 0; demo_probe 1; demo_probe 2; Migrate (second + 100 * millisecond) 1200] demo_new = Some ([], [1]).
Proof. vm_compute. reflexivity. Qed.
