(* ===== verification/LossTimer.v ===== *)
(** * When the loss detection timer is armed
    ([quic-go/internal/ackhandler/sent_packet_handler.go], [setLossDetectionTimer] and its callers)

    Which operations set the timer, to what, and that over any run of them the
    handler is never left waiting without an alarm. *)

From Stdlib Require Import ZArith Lia Bool.
From stdpp Require Import base list.
From S2P Require Import Prelude.
From S2P Require Import GoNet.
From S2P Require Import GoFloat.
From S2P Require Import Wire.
From S2P Require Import WireFrames.
From S2P Require Import AckHistory.
From S2P Require Import AckFrame.
From S2P Require Import AckTracker.
From S2P Require Import RttStats.
From S2P Require Import EcnTracker.
From S2P Require Import SentHistory.
From S2P Require Import SentHistInv.
From S2P Require Import LossDetection.
From S2P Require Import LossInv.
From S2P Require Import LossOps.
From S2P Require Import LossAck.
From S2P Require Import LossHandler.
From S2P Require Import LossSend.
From S2P Require Import LossGive.
From S2P Require Import LossRun.

Open Scope Z_scope.
Open Scope list_scope.

Section timer.
Context {CC : Type} `{!SendAlgorithm CC}.
Abbreviation handler := (sentPacketHandler CC).

(** ** The timer *)

(** There is something to wait for. *)
Definition awaits (h : handler) : bool :=
  negb (peerCompletedAddressValidation h) || hasOutstandingCryptoPackets h || HasOutstandingPathProbes (history (appData h)) ||
  (handshakeConfirmed h && HasOutstandingPackets (history (appData h))).

Lemma getScaledPTO_range b (h : handler) : 0 < getScaledPTO b h <= maxPTODuration.
Proof. unfold getScaledPTO. cbn zeta. assert (0 < maxPTODuration) by done. destruct (Z.ltb_spec maxPTODuration (wrap_s 64 (Z.shiftl (PTO b (rttStats h)) (ptoCount h)))), (Z.leb_spec (wrap_s 64 (Z.shiftl (PTO b (rttStats h)) (ptoCount h))) 0); cbn; lia. Qed.

Lemma pto_of_nonneg s l d r : (∀ s', s = Some s' → space_ok s') → 0 < d → 0 <= r.1 → 0 <= (pto_of s l d r).1 ∧ (0 < r.1 ∨ outstanding_in s = true → 0 < (pto_of s l d r).1).
Proof.
  intros Hok Hd Hr. unfold pto_of. destruct s as [s|]; cbn [outstanding_in]; [|split; [done|by intros [?|?]]].
  destruct (HasOutstandingPackets (history s)) eqn:Ho; cbn [andb]; [|split; [done|by intros [?|?]]]. pose proof (sk_timed _ (Hok s eq_refl) Ho) as Ht.
  destruct (Z.eqb_spec (lastAckElicitingPacketTime s) 0); [lia|]. cbn [negb]. cbn zeta. unfold earlier. destruct (Z.eqb_spec r.1 0); cbn [orb]; [cbn; lia|].
  destruct (_ && _); cbn; lia.
Qed.

Lemma pto_time F now (h : handler) : sound F [] [] h → 0 < now →
  0 <= (getPTOTimeAndSpace now h).1 ∧
  (negb (peerCompletedAddressValidation h) || hasOutstandingCryptoPackets h || (handshakeConfirmed h && HasOutstandingPackets (history (appData h))) = true → 0 < (getPTOTimeAndSpace now h).1).
Proof.
  intros HS Hn. pose proof (sd_known _ _ _ _ HS) as K. unfold getPTOTimeAndSpace. pose proof (getScaledPTO_range false h) as R1. pose proof (getScaledPTO_range true h) as R2.
  assert (O1 : ∀ s', initialSpace h = Some s' → space_ok s') by (intros; by apply (sd_spaces _ _ _ _ HS EncryptionInitial)).
  assert (O2 : ∀ s', handshakeSpace h = Some s' → space_ok s') by (intros; by apply (sd_spaces _ _ _ _ HS EncryptionHandshake)).
  assert (O3 : ∀ s', Some (appData h) = Some s' → space_ok s') by (intros s' [= <-]; by apply (sd_spaces _ _ _ _ HS Encryption1RTT)).
  destruct (handshakeConfirmed h) eqn:Ec; cbn [negb andb].
  - rewrite (kn_peer _ K (or_introl Ec)). cbn [negb orb]. set (r1 := pto_of (initialSpace h) _ _ _). set (r2 := pto_of (handshakeSpace h) _ _ r1).
    destruct (pto_of_nonneg (initialSpace h) EncryptionInitial (getScaledPTO false h) (0, EncryptionInitial) O1 ltac:(lia) ltac:(done)) as [A1 B1]. fold r1 in A1, B1.
    destruct (pto_of_nonneg (handshakeSpace h) EncryptionHandshake (getScaledPTO false h) r1 O2 ltac:(lia) A1) as [A2 B2]. fold r2 in A2, B2.
    destruct (pto_of_nonneg (Some (appData h)) Encryption1RTT (getScaledPTO true h) r2 O3 ltac:(lia) A2) as [A3 B3].
    split; [done|]. intros [[Hi|Hh]%orb_true_iff|Ha]%orb_true_iff; apply B3; [left; apply B2; left; apply B1; by right|left; apply B2; by right|by right].
  - rewrite orb_false_r. destruct (hasOutstandingCryptoPackets h) eqn:Eo; cbn [negb].
    + set (r1 := pto_of (initialSpace h) _ _ _).
      destruct (pto_of_nonneg (initialSpace h) EncryptionInitial (getScaledPTO false h) (0, EncryptionInitial) O1 ltac:(lia) ltac:(done)) as [A1 B1]. fold r1 in A1, B1.
      destruct (pto_of_nonneg (handshakeSpace h) EncryptionHandshake (getScaledPTO false h) r1 O2 ltac:(lia) A1) as [A2 B2].
      split; [done|]. intros _. apply B2. apply orb_true_iff in Eo as [Eo|Eo]; [left; apply B1; by right|by right].
    + rewrite orb_false_r. destruct (peerCompletedAddressValidation h); cbn; [done|lia].
Qed.

(** Nothing is outstanding, and nothing awaited. *)
Definition idle (h : handler) : bool := negb (awaits h || HasOutstandingPackets (history (appData h))).

(** What the timer is set to: an alarm, with a time, when there is something to wait for and sending is not
    forbidden; none when sending is forbidden, or nothing at all is outstanding. *)
Lemma timer_computed F now (h : handler) : sound F [] [] h → 0 < now →
  (awaits h = true → isAmplificationLimited h = false → ∃ a, lossDetectionTime now h = Some a ∧ a_Time a ≠ 0) ∧
  (isAmplificationLimited h = true ∨ idle h = true → lossDetectionTime now h = None).
Proof.
  intros HS Hn. unfold lossDetectionTime, awaits, idle. cbn zeta.
  destruct (pto_time F now h HS Hn) as [A B]. pose proof (sk_probes _ (sd_spaces _ _ _ _ HS Encryption1RTT _ eq_refl)) as [_ Hp].
  set (probes := HasOutstandingPathProbes (history (appData h))). set (app := HasOutstandingPackets (history (appData h))) in *. split.
  - intros Ha ->. assert (G : peerCompletedAddressValidation h && negb (hasOutstandingCryptoPackets h) && negb app && negb probes = false).
    { destruct (peerCompletedAddressValidation h), (hasOutstandingCryptoPackets h), app, probes; cbn in *; try done. by rewrite andb_false_r in Ha. }
    rewrite G. set (probe := match FirstOutstandingPathProbe _ with Some _ => _ | None => _ end).
    assert (Pr : probes = true → 0 < probe).
    { unfold probes, probe, HasOutstandingPathProbes, FirstOutstandingPathProbe. destruct (pathProbePackets (history (appData h))) as [|[n p] l]; [done|]. intros _. cbn [head]. assert (0 < pathProbePacketLossTimeout) by done.
      apply Forall_cons in Hp as [[Pk _] _]. pose proof (pr_time _ Pk) as Ht. cbn [snd] in Ht. lia. }
    destruct (getLossTimeAndSpace h) as [loss ll]. destruct (negb (loss =? 0) && _) eqn:E1; [eexists; split; [done|]; apply andb_true_iff in E1 as [E1 _]; cbn; by apply negb_true_iff, Z.eqb_neq in E1|].
    destruct (getPTOTimeAndSpace now h) as [pto pl]. cbn [fst] in A, B. destruct (negb (pto =? 0) && _) eqn:E2; [eexists; split; [done|]; apply andb_true_iff in E2 as [E2 _]; cbn; by apply negb_true_iff, Z.eqb_neq in E2|].
    destruct (Z.eqb_spec probe 0) as [E0|E0]; cbn [negb]; [|by eexists]. exfalso. destruct probes eqn:Epr; [specialize (Pr eq_refl); lia|].
    rewrite orb_false_r in Ha. specialize (B Ha). destruct (Z.eqb_spec pto 0); [lia|]. rewrite E0 in E2. done.
  - intros [-> | Ha]; [by destruct (_ && _ && _ && _)|]. apply negb_true_iff, orb_false_iff in Ha as [Ha ->]. apply orb_false_iff in Ha as [Ha _]. apply orb_false_iff in Ha as [Ha Hpr].
    fold probes in Hpr. rewrite Hpr. apply orb_false_iff in Ha as [Ha ->]. apply negb_false_iff in Ha. by rewrite Ha.
Qed.

(** ** Which operations set it *)

Definition at_time (e : event) : time :=
  match e with
  | Send _ t _ _ _ _ _ _ _ | Ack _ _ t | GotBytes _ t | GotPacket _ t => t
  | Timeout _ now | DropKeys _ now | Retry _ now | Migrate now _ => now
  | _ => 1
  end.

Definition is_retry (e : event) : bool := match e with Retry _ _ => true | _ => false end.

(** The ACK takes packets out of the history. *)
Definition acks_something (ack : AckFrame) (l : EncryptionLevel) (h : handler) : bool :=
  match detectAndRemoveAckedPackets ack l h with Some (inl (_, _ :: _, _)) => true | _ => false end.

Definition completes_peer (l : EncryptionLevel) (h : handler) : bool :=
  isClient h && negb (peerCompletedAddressValidation h) && match l with EncryptionHandshake | Encryption1RTT => true | _ => false end.

Definition sets_timer (e : event) (h : handler) : bool :=
  match e with
  | Send _ _ _ frames _ _ _ _ probe => probe || negb (bool_decide (frames = [])) || negb (peerCompletedAddressValidation h)
  | Ack ack l t =>
      match getPacketNumberSpace l h, LargestAcked ack with
      | Some s, Some largest => (largest <=? largestSent s) && (completes_peer l h || acks_something ack l (peer_completes l t h))
      | _, _ => false
      end
  | Timeout _ _ | Migrate _ _ => true
  | GotBytes n _ => isAmplificationLimited h && negb (isAmplificationLimited (h <| bytesReceived ::= Z.add n |>))
  | GotPacket l _ => negb (isClient h) && match l with EncryptionHandshake => true | _ => false end && negb (peerAddressValidated h)
  | DropKeys EncryptionInitial _ => bool_decide (is_Some (initialSpace h))
  | DropKeys EncryptionHandshake _ => bool_decide (is_Some (handshakeSpace h))
  | DropKeys _ _ => true
  | Probe _ | Retry _ _ | MaxSize _ | Padding _ | Mark _ => false
  end.

(** An alarm, if any, where one is needed. *)
Definition armed (h : handler) : Prop :=
  awaits h = true → isAmplificationLimited h = false → ∃ a, alarm h = Some a ∧ a_Time a ≠ 0.

(** Where the timer is not set the need for it does not arise. *)
Record quieter (h h' : handler) : Prop := mkQuieter {
  qu_alarm : alarm h' = alarm h;
  qu_peer : peerCompletedAddressValidation h = true → peerCompletedAddressValidation h' = true;
  qu_confirmed : handshakeConfirmed h' = handshakeConfirmed h;
  qu_spaces : ∀ l s', getPacketNumberSpace l h' = Some s' → ∃ s, getPacketNumberSpace l h = Some s ∧
    (HasOutstandingPackets (history s') = true → HasOutstandingPackets (history s) = true) ∧
    (HasOutstandingPathProbes (history s') = true → HasOutstandingPathProbes (history s) = true);
  qu_limited : isAmplificationLimited h' = false → isAmplificationLimited h = false;
}.

Lemma quieter_refl h : quieter h h.
Proof. split; try done. intros l s' E. by exists s'. Qed.

Lemma quieter_trans h1 h2 h3 : quieter h1 h2 → quieter h2 h3 → quieter h1 h3.
Proof.
  intros [A1 A2 A3 A4 A5] [B1 B2 B3 B4 B5]. split; [congruence|by auto|congruence| |by auto].
  intros l s3 E3. destruct (B4 l s3 E3) as (s2 & E2 & P2 & Q2). destruct (A4 l s2 E2) as (s & E & P & Q). exists s. split; [done|]. split; auto.
Qed.

Lemma quieter_outstanding h h' s s' : quieter h h' →
  (s = initialSpace h ∧ s' = initialSpace h') ∨ (s = handshakeSpace h ∧ s' = handshakeSpace h') → outstanding_in s' = true → outstanding_in s = true.
Proof.
  intros [_ _ _ Q _] H Ho. destruct s' as [s'|]; [|done].
  destruct H as [[-> H]|[-> H]]; [destruct (Q EncryptionInitial s' (eq_sym H)) as (x & E & P & _)|destruct (Q EncryptionHandshake s' (eq_sym H)) as (x & E & P & _)];
    cbn in E; rewrite E; by apply P.
Qed.

Lemma quieter_armed h h' : quieter h h' → armed h → armed h'.
Proof.
  intros Q Ha Hw Hl. rewrite (qu_alarm _ _ Q). apply Ha; [|by apply (qu_limited _ _ Q)].
  destruct (qu_spaces _ _ Q Encryption1RTT _ eq_refl) as (s & [= <-] & P1 & P2). unfold awaits in *. rewrite (qu_confirmed _ _ Q) in Hw.
  assert (C : hasOutstandingCryptoPackets h' = true → hasOutstandingCryptoPackets h = true).
  { unfold hasOutstandingCryptoPackets. rewrite !orb_true_iff. intros [H|H]; [left|right]; eapply quieter_outstanding; eauto. }
  pose proof (qu_peer _ _ Q) as P. rewrite !orb_true_iff, andb_true_iff in *.
  destruct Hw as [[[Hw|Hw]|Hw]|[Hw1 Hw2]]; [|tauto|tauto|tauto]. left; left; left. destruct (peerCompletedAddressValidation h); [|done]. by rewrite P in Hw.
Qed.

(** What changes none of the fields the need depends on. *)
Lemma quieter_same h h' : alarm h' = alarm h → (∀ l, getPacketNumberSpace l h' = getPacketNumberSpace l h) →
  peerAddressValidated h' = peerAddressValidated h → bytesReceived h' = bytesReceived h → h_bytesSent h' = h_bytesSent h →
  peerCompletedAddressValidation h' = peerCompletedAddressValidation h → handshakeConfirmed h' = handshakeConfirmed h → quieter h h'.
Proof.
  intros A G V R B P C. split; [done|by rewrite P|done| |].
  - intros l s' E. rewrite G in E. by exists s'.
  - unfold isAmplificationLimited. by rewrite V, R, B.
Qed.

(** A space whose history needs no more than before. *)
Lemma quieter_space l s hist h : getPacketNumberSpace l h = Some s →
  (HasOutstandingPackets hist = true → HasOutstandingPackets (history s) = true) →
  (HasOutstandingPathProbes hist = true → HasOutstandingPathProbes (history s) = true) →
  ∀ s', history s' = hist → quieter h (setSpace l s' h).
Proof.
  intros E P Q s' <-. split; try by destruct l.
  intros k s2 E2. destruct l, k; cbn in *; simplify_eq; eauto.
Qed.

Lemma checked_needs pn hist hist' : checkSequentialPacketNumberUse pn hist = Some hist' →
  numOutstanding hist' = numOutstanding hist ∧ pathProbePackets hist' = pathProbePackets hist.
Proof. unfold checkSequentialPacketNumberUse. destruct (_ && _); [done|]. intros [= <-]. by destruct (packets _). Qed.

Lemma skipped_needs pn hist hist' : SkippedPacket pn hist = Some hist' →
  numOutstanding hist' = numOutstanding hist ∧ pathProbePackets hist' = pathProbePackets hist.
Proof.
  unfold SkippedPacket. destruct (checkSequentialPacketNumberUse pn hist) as [h1|] eqn:E; [|done]. intros [= <-]. apply checked_needs in E as [<- <-]. cbn. by destruct (packets h1).
Qed.

Lemma declared_needs pn hist hist' : DeclareLost pn hist = Some hist' →
  numOutstanding hist' <= numOutstanding hist ∧ pathProbePackets hist' = pathProbePackets hist.
Proof.
  unfold DeclareLost. destruct (getIndex pn hist) as [i|]; [|intros [= <-]; split; [lia|done]]. destruct (packets hist !! i ≫= id) as [p|]; [|done]. cbn [mbind option_bind].
  unfold uncount. destruct (Outstanding p); cbn [mbind option_bind].
  - cbn zeta. destruct (_ <? 0); [done|]. cbn [mbind option_bind]. intros [= <-]. destruct (i =? 0)%nat; [|cbn; split; [lia|done]].
    unfold cleanupStart. destruct (drop _ _); cbn; split; (lia || done).
  - intros [= <-]. destruct (i =? 0)%nat; [|cbn; split; [lia|done]]. unfold cleanupStart. destruct (drop _ _); cbn; split; (lia || done).
Qed.

Lemma pop_quieter rnd l h h' pn : PopPacketNumber rnd l h = Some (h', pn) → quieter h h' ∧ peerCompletedAddressValidation h' = peerCompletedAddressValidation h.
Proof.
  unfold PopPacketNumber. destruct (getPacketNumberSpace l h) as [s|] eqn:E; [|done]. cbn [mbind option_bind]. destruct (gen_Pop rnd (pns s)) as [[g skipped] n].
  destruct (if skipped : bool then _ else _) as [hist|] eqn:Eh; [|done]. cbn [mbind option_bind]. intros [= <- <-].
  assert (N : numOutstanding hist = numOutstanding (history s) ∧ pathProbePackets hist = pathProbePackets (history s)).
  { destruct skipped; [by eapply skipped_needs|by injection Eh as <-]. }
  split; [|by destruct l]. destruct N as [N1 N2]. eapply (quieter_space l s hist h E); [unfold HasOutstandingPackets; by rewrite N1|unfold HasOutstandingPathProbes; by rewrite N2|done].
Qed.

(** ** Events, one by one *)

Lemma set_again now (h : handler) : alarm (setLossDetectionTimer now h) = lossDetectionTime now (setLossDetectionTimer now h).
Proof. done. Qed.

Lemma taken_none pn l : (take_probe pn l).1 = None → (take_probe pn l).2 = l.
Proof.
  induction l as [|[n p] l IH]; cbn; [done|]. destruct (n =? pn); [done|]. destruct (take_probe pn l) as [r k]. cbn in *. intros H. by rewrite IH.
Qed.

Lemma collect_none miss low high : ∀ ps rs probes c, collect_acked miss low high rs ps probes = inl c → newly c = [] → probes_left c = probes.
Proof.
  induction ps as [|[pn p] ps IH]; intros rs probes c; cbn [collect_acked]; [by intros [= <-]|].
  destruct (pn <? low); [by apply IH|]. destruct (high <? pn); [by intros [= <-]|]. cbv zeta.
  destruct (if miss then seek pn rs else rs) as [|r rs']; [done|]. destruct (miss && (pn <? Smallest r)); [by apply IH|]. destruct (miss && (Largest r <? pn)); [done|].
  destruct (isPathProbePacket p).
  - pose proof (taken_none pn probes) as T. destruct (take_probe pn probes) as [o left]. cbn in T.
    destruct (collect_acked miss low high (r :: rs') ps left) as [c'|] eqn:E; [|done]. destruct o; [by intros [= <-]|]. intros [= <-] Hn. rewrite (IH _ _ _ E Hn). by apply T.
  - destruct (collect_acked miss low high (r :: rs') ps probes) as [c'|]; [|done]. by intros [= <-].
Qed.

Lemma set_same l s (h : handler) : getPacketNumberSpace l h = Some s → setSpace l s h = h.
Proof. destruct l, h; cbn; by intros [= ->]. Qed.

Lemma detect_nothing ack l (h : handler) h' b : detectAndRemoveAckedPackets ack l h = Some (inl (h', [], b)) → h' = h.
Proof.
  unfold detectAndRemoveAckedPackets. destruct (getPacketNumberSpace l h) as [s|] eqn:Es; [|done]. cbn [mbind option_bind].
  destruct (LowestAcked ack) as [lo|]; [|done]. destruct (LargestAcked ack) as [hi|]; [|done]. cbn [mbind option_bind].
  destruct (if is_1RTT l then _ else _) as [[p|]|]; [done| |done]. cbn [mbind option_bind].
  destruct (collect_acked _ _ _ _ _ _) as [c|e] eqn:Ec; [|done].
  destruct (settle_acked l (newly c) _) as [[h1|]|] eqn:E; cbn [mbind option_bind]; [|done|done]. intros [= <- Hn _].
  rewrite Hn in E. cbn in E. injection E as <-. rewrite (collect_none _ _ _ _ _ _ _ Ec Hn).
  etrans; [|by apply (set_same l s)]. f_equal. by destruct s as [[] ? ? ? ? ?].
Qed.

Lemma ack_timer ack l t (h : handler) h' r : ReceivedAck ack l t h = Some (h', r) →
  if sets_timer (Ack ack l t) h then alarm h' = lossDetectionTime t h' else h' = h.
Proof.
  unfold ReceivedAck. cbn [sets_timer]. destruct (getPacketNumberSpace l h) as [s|]; [|done]. cbn [mbind option_bind].
  destruct (LargestAcked ack) as [largest|]; [|done]. cbn [mbind option_bind]. rewrite Z.leb_antisym.
  destruct (largestSent s <? largest); cbn [negb andb]; [by intros [= <- _]|]. cbv zeta. unfold acks_something.
  assert (Pc : if completes_peer l h then alarm (peer_completes l t h) = lossDetectionTime t (peer_completes l t h) else peer_completes l t h = h).
  { unfold peer_completes, completes_peer. by destruct (_ && _ && _). }
  set (h1 := peer_completes l t h) in *. destruct (detectAndRemoveAckedPackets ack l h1) as [[[[h2 acked] e]|e]|] eqn:Ed; cbn [mbind option_bind]; [|intros [= <- _]|done].
  - destruct acked as [|x acked].
    + intros [= <- _]. rewrite (detect_nothing _ _ _ _ _ Ed), orb_false_r. done.
    + rewrite orb_true_r. destruct (process_acked _ _ _ _ _ _ _ _) as [h3|] eqn:Ep; [|done]. cbn [mbind option_bind]. intros [= <- _].
      unfold process_acked in Ep. repeat (match type of Ep with (?x ≫= _) = _ => destruct x; [|done] end; cbn [mbind option_bind] in Ep).
      injection Ep as <-. apply set_again.
  - by rewrite orb_false_r.
Qed.

Lemma send_timer t pn largest frames l mark size mtu probe (h h' : handler) : 0 <= size →
  SentPacket t pn largest frames l mark size mtu probe h = Some h' →
  if probe || negb (bool_decide (frames = [])) || negb (peerCompletedAddressValidation h) then alarm h' = lossDetectionTime t h' else quieter h h'.
Proof.
  intros Hn. unfold SentPacket. set (h0 := h <| h_bytesSent ::= Z.add size |>). cbv zeta.
  assert (Q0 : quieter h h0).
  { split; try done; [intros k s' E; by exists s'|]. unfold isAmplificationLimited. cbn. destruct (peerAddressValidated h); [done|].
    intros H%Z.leb_gt. apply Z.leb_gt. lia. }
  destruct (getPacketNumberSpace l h0) as [s|] eqn:Es; [|done]. cbn [mbind option_bind]. set (h1 := setSpace l (s <| largestSent := pn |>) h0).
  assert (E1 : getPacketNumberSpace l h1 = Some (s <| largestSent := pn |>)) by by destruct l.
  assert (Q1 : quieter h0 h1) by (by eapply (quieter_space l s (history s))).
  assert (P1 : peerCompletedAddressValidation h1 = peerCompletedAddressValidation h) by by destruct l.
  destruct probe; cbn [orb].
  { destruct (in_space _ _ _); [|done]. cbn [mbind option_bind]. by intros [= <-]. }
  set (p := mkPacket _ _ _ _ _ _ _ _). assert (He : IsAckEliciting p = negb (bool_decide (frames = []))) by done. rewrite He.
  destruct (bool_decide (frames = [])) eqn:Ef; cbn [negb orb].
  - set (h2 := h1 <| congestion ::= _ |>). destruct (if is_1RTT l then _ else _) as [e|]; [|done]. cbn [mbind option_bind]. unfold in_space.
    set (h3 := h2 <| ecn := e |>). assert (E3 : getPacketNumberSpace l h3 = Some (s <| largestSent := pn |>)) by by destruct l. rewrite E3. cbn [mbind option_bind].
    destruct (hist_SentPacket _ _ _) as [hist|] eqn:Eh; [|done]. cbn [mbind option_bind].
    assert (P3 : peerCompletedAddressValidation (setSpace l ((s <| largestSent := pn |>) <| history := hist |>) h3) = peerCompletedAddressValidation h) by by destruct l.
    rewrite P3. destruct (peerCompletedAddressValidation h); cbn [negb andb]; intros [= <-]; [|done].
    eapply quieter_trans; [exact Q0|]. eapply quieter_trans; [exact Q1|]. eapply (quieter_trans _ h3); [by apply quieter_same|].
    unfold hist_SentPacket in Eh. destruct (checkSequentialPacketNumberUse pn _) as [hc|] eqn:Ec; [|done]. cbn [mbind option_bind] in Eh. injection Eh as <-.
    apply checked_needs in Ec as [C1 C2]. cbn in C1, C2.
    assert (Ho : ∀ p', sent_frames p' = frames → Outstanding p' = false) by (intros p' <-; unfold Outstanding, IsAckEliciting; by rewrite Ef, andb_false_r).
    rewrite Ho by done. eapply (quieter_space l _ _ h3 E3); [..|done]; unfold HasOutstandingPackets, HasOutstandingPathProbes; cbn; by rewrite ?C1, ?C2.
  - set (h2 := _ <| congestion ::= _ |>). destruct (if is_1RTT l then _ else _) as [e|]; [|done]. cbn [mbind option_bind].
    destruct (in_space _ _ _); [|done]. cbn [mbind option_bind]. by intros [= <-].
Qed.

Lemma probe_quieter l (h h' : handler) b : QueueProbePacket l h = Some (h', b) → quieter h h'.
Proof.
  unfold QueueProbePacket. destruct (getPacketNumberSpace l h) as [s|] eqn:Es; [|done]. cbn [mbind option_bind].
  destruct (FirstOutstanding (history s)) as [[pn p]|]; [|intros [= <- _]; apply quieter_refl].
  unfold in_space. rewrite Es. cbn [mbind option_bind]. destruct (DeclareLost pn (history s)) as [hist|] eqn:Ed; [|done]. cbn [mbind option_bind].
  apply declared_needs in Ed as [D1 D2]. set (h1 := setSpace _ _ h).
  assert (Q1 : quieter h h1).
  { eapply (quieter_space l s hist h Es); [|by unfold HasOutstandingPathProbes; rewrite D2|done]. unfold HasOutstandingPackets. rewrite !Z.ltb_lt. lia. }
  unfold removeFromBytesInFlight. intros H. eapply quieter_trans; [exact Q1|].
  assert (K : ∀ h2 : handler, (∃ n, h2 = h1 <| bytesInFlight := n |>) → ∀ h3, queueFramesForRetransmission p h2 = Some h3 → quieter h1 h3).
  { intros h2 [n ->] h3. unfold queueFramesForRetransmission. destruct (sent_frames p); [done|]. intros [= <-]. by apply quieter_same. }
  assert (E : ∃ h2 : handler, (∃ n, h2 = h1 <| bytesInFlight := n |>) ∧ (h3 ← queueFramesForRetransmission p h2; Some (h3, true)) = Some (h', b)).
  { destruct (includedInBytesInFlight p); cbn [mbind option_bind] in H.
    - destruct (_ <? _); [done|]. cbn [mbind option_bind] in H. eexists. split; [|exact H]. by eexists.
    - eexists. split; [|exact H]. exists (bytesInFlight h1). by destruct h1. }
  destruct E as (h2 & Hn & E). destruct (queueFramesForRetransmission p h2) as [h3|] eqn:E3; [|done]. injection E as <- _. by eapply K.
Qed.

(** Every event that sets the timer leaves it as it has to be for the state reached; a
    Retry clears it; the others leave it alone and do not make it necessary. *)
Lemma perform_timer e (h h' : handler) : acceptable e h → perform e h = Some h' →
  if sets_timer e h then alarm h' = lossDetectionTime (at_time e) h' else if is_retry e then alarm h' = None else quieter h h'.
Proof.
  intros Ha. destruct e as [rnd t largest frames l mark size mtu probe|ack l t|rnd now|l|n t|l t|l now|rnd now|now size|n|n|b]; cbn [perform sets_timer is_retry at_time].
  - destruct (PopPacketNumber rnd l h) as [[h1 pn]|] eqn:E1; [|done]. cbn [mbind option_bind]. intros E2. destruct (pop_quieter _ _ _ _ _ E1) as [Q P].
    destruct Ha as [_ [_ Hn _ _]]. pose proof (send_timer _ _ _ _ _ _ _ _ _ _ _ Hn E2) as S. rewrite P in S. destruct (_ || _ || _); [done|]. by eapply quieter_trans.
  - destruct (ReceivedAck ack l t h) as [[h1 r]|] eqn:E; [|done]. intros [= <-]. pose proof (ack_timer _ _ _ _ _ _ E) as T. cbn [sets_timer] in T.
    destruct (match getPacketNumberSpace l h with Some _ => _ | None => _ end); [done|]. rewrite T. apply quieter_refl.
  - unfold OnLossDetectionTimeout. destruct (on_timeout rnd now h) as [[h1 e]|]; [|done]. intros [= <-]. apply set_again.
  - destruct (QueueProbePacket l h) as [[h1 b]|] eqn:E; [|done]. intros [= <-]. by eapply probe_quieter.
  - intros [= <-]. unfold ReceivedBytes. cbv zeta. destruct (isAmplificationLimited h) eqn:E; cbn [andb]; [|split; try done; intros k s' Es; by exists s'].
    destruct (isAmplificationLimited (h <| bytesReceived ::= Z.add n |>)) eqn:E'; cbn [negb]; [|by apply set_again].
    split; try done; [intros k s' Es; by exists s'|]. by rewrite E'.
  - intros [= <-]. unfold ReceivedPacket. destruct (_ && _ && _); [by apply set_again|apply quieter_refl].
  - unfold DropPackets. destruct l.
    + rewrite andb_false_r. destruct (initialSpace h); [rewrite bool_decide_true by done|rewrite bool_decide_false by (by intros []); intros [= <-]; apply quieter_refl].
      destruct (remove_all _ _); [|done]. cbn [mbind option_bind]. by intros [= <-].
    + rewrite andb_true_r. set (h1 := if isClient h then _ else h).
      assert (Eh : handshakeSpace h1 = handshakeSpace h) by (unfold h1; by destruct (isClient h)). rewrite Eh.
      destruct (handshakeSpace h); [rewrite bool_decide_true by done|rewrite bool_decide_false by (by intros [])].
      * destruct (remove_all _ _); [|done]. cbn [mbind option_bind]. by intros [= <-].
      * intros [= <-]. unfold h1. destruct (isClient h); [|apply quieter_refl]. split; try done. intros k s' Es. by exists s'.
    + rewrite andb_false_r. destruct (drop_0RTT _ _); [|done]. cbn [mbind option_bind]. by intros [= <-].
    + done.
  - unfold ResetForRetry. cbv zeta. destruct (initialSpace _); [|done]. cbn [mbind option_bind]. do 2 (destruct (requeue _ _); [|done]; cbn [mbind option_bind]). by intros [= <-].
  - unfold MigratedPath. cbv zeta. destruct (abandon_path _ _); [|done]. cbn [mbind option_bind]. by intros [= <-].
  - intros [= <-]. by apply quieter_same.
  - intros [= <-]. by apply quieter_same.
  - intros [= <-]. unfold ECNMode. destruct (ecn h) as [e|]; [|apply quieter_refl]. destruct (negb b); [apply quieter_refl|]. destruct (ecn_Mode e) as [e' m]. by apply quieter_same.
Qed.

(** ** Runs *)

(** Whether the timer has been set since the beginning and since the last Retry; [b]: before. *)
Fixpoint set_since (b : bool) (es : list event) (h : handler) : bool :=
  match es with
  | [] => b
  | e :: es => match perform e h with Some h' => set_since (sets_timer e h || (b && negb (is_retry e))) es h' | None => b end
  end.

Lemma step_armed F e (h h' : handler) : sound F [] [] h' → 0 < at_time e → acceptable e h → perform e h = Some h' →
  sets_timer e h = true ∨ (is_retry e = false ∧ armed h) → armed h'.
Proof.
  intros HS Ht Ha E H. pose proof (perform_timer e h h' Ha E) as T. destruct (sets_timer e h).
  - intros Hw Hl. rewrite T. by apply (timer_computed F (at_time e) h' HS Ht).
  - destruct H as [?|[R A]]; [done|]. rewrite R in T. by eapply quieter_armed.
Qed.

Lemma run_armed : ∀ es b F (h : handler), sound F [] [] h → accepted es h → Forall (λ e, 0 < at_time e) es → (b = true → armed h) →
  ∃ h' F', run es h = Some h' ∧ sound F' [] [] h' ∧ (set_since b es h = true → armed h').
Proof.
  induction es as [|e es IH]; intros b F h HS Ha Ht Hb; [by exists h, F|]. destruct Ha as [Ha Hes]. apply Forall_cons in Ht as [Ht Hts].
  destruct (perform_ok F e h HS Ha) as (h1 & F1 & g1 & E1 & _ & S1 & _). cbn [run set_since]. rewrite E1. cbn [mbind option_bind].
  apply (IH _ F1 h1 S1 (Hes _ E1) Hts). intros H. eapply (step_armed F1 e h h1); [done..|].
  apply orb_true_iff in H as [H|[H R%negb_true_iff]%andb_true_iff]; [by left|right; auto].
Qed.

(** A server has nothing to wait for before it has sent; a client has the server's answer. *)
Lemma fresh_armed rnd initialPN size rtt validated enableECN ignoring short :
  armed (NewSentPacketHandler rnd initialPN size rtt validated enableECN ignoring false short : handler).
Proof. by intros H. Qed.

(** C34: The handler is never left waiting without an alarm. In every run from a new handler, once the timer
    has been set (a server's needs not be) and until a Retry clears it, an alarm with a time is set
    whenever there is something to await - packets of the handshake, probes of a path, packets of
    application data once the handshake is confirmed, or, for a client, the server's proof that it has its address -
    and the amplification limit does not forbid sending. And which events set the timer is exact: each of those
    leaves the alarm that is right for the state it reaches at its time - none where
    sending is forbidden or nothing at all is outstanding -, the Retry clears it, all others leave it as it is. *)
Theorem timer_armed rnd initialPN size rtt validated enableECN ignoring client short es :
  0 <= initialPN →
  let h := NewSentPacketHandler rnd initialPN size rtt validated enableECN ignoring client short : handler in
  accepted es h → Forall (λ e, 0 < at_time e) es →
  ∃ h', run es h = Some h' ∧ (set_since (negb client) es h = true → armed h') ∧
    ∀ e h'', acceptable e h' → 0 < at_time e → perform e h' = Some h'' →
      alarm h'' = (if sets_timer e h' then lossDetectionTime (at_time e) h'' else if is_retry e then None else alarm h') ∧
      (sets_timer e h' = true → armed h'' ∧ (isAmplificationLimited h'' = true ∨ idle h'' = true → alarm h'' = None)).
Proof.
  intros Hpn h Ha Ht. destruct (run_armed es (negb client) [] h (fresh_sound _ _ _ _ _ _ _ _ _ Hpn) Ha Ht) as (h' & F & E & HS & A).
  { destruct client; [done|]. intros _. apply fresh_armed. }
  exists h'. split; [done|]. split; [done|]. intros e h'' Hacc He Ep. pose proof (perform_timer e h' h'' Hacc Ep) as T.
  destruct (perform_ok F e h' HS Hacc) as (h2 & F2 & g & E2 & _ & S2 & _). rewrite Ep in E2. injection E2 as <-. split.
  - destruct (sets_timer e h'); [done|]. destruct (is_retry e); [done|]. apply T.
  - intros Hs. split; [eapply (step_armed F2 e h' h''); try done; by left|]. rewrite Hs in T. rewrite T. by apply (timer_computed F2 (at_time e) h'' S2).
Qed.
End timer.

(** A client that has sent five packets waits for the server, and the alarm is set. *)
Lemma timer_armed_witness : ∃ h', run demo_sends demo_new = Some h' ∧ set_since false demo_sends demo_new = true ∧ armed h' ∧ (alarm h' ≠ None).
Proof.
  destruct (timer_armed 1000 0 1200 NewRTTStats false false true true false demo_sends ltac:(lia) demo_sends_accepted) as (h' & E & A & _).
  { repeat constructor. }
  exists h'. split; [exact E|]. assert (S : set_since false demo_sends demo_new = true) by (vm_compute; reflexivity). split; [exact S|]. split; [exact (A S)|].
  change (run demo_sends demo_new = Some h') in E. assert (D : h' = demo_sent) by (unfold demo_sent; by rewrite E). rewrite D in A |- *.
  assert (W : awaits demo_sent = true) by (vm_compute; reflexivity). assert (L : isAmplificationLimited demo_sent = false) by (vm_compute; reflexivity).
  destruct (A S W L) as (a & Ea & _). by rewrite Ea.
Defined.
