(* ===== verification/ClientTraffic.v ===== *)
(** * The client's traffic
    ([vpn-tool/backend/quic/client.go], [client_path.go])

    What the client does with the packets of its TUN device: the plane each one is
    put on, direct or by way of the server; what it does with the frames that come
    back; and what it concludes about the connection's health and latency. *)

From Stdlib Require Import ZArith Lia Bool String.
From stdpp Require Import base list gmap sets strings.
From S2P Require Import Prelude.
From S2P Require Import GoNet.
From S2P Require Import GoStrings.
From S2P Require Import Reasons.
From S2P Require Import PathData.
From S2P Require Import PathCore.
From S2P Require Import PathInv.
From S2P Require Import PathSteps.
From S2P Require Import PathFrames.
From S2P Require Import Dhcp.
From S2P Require Relay.

Open Scope Z_scope.
Open Scope list_scope.

(** ** Health *)

Definition offlineThreshold : duration := 30 * second.
Definition reconnectThreshold : duration := 15 * second.

Inductive health_state := StateHealthy | StateDegraded | StateReconnecting | StateOffline.
#[export] Instance health_state_eq_dec : EqDecision health_state.
Proof. solve_decision. Defined.

Record HealthTracker := mkHealth {
  lastRecvTime : time;
  lastPongTime : time;
  consecutiveFail : Z;
  h_state : health_state;
  lastStateChange : time;
}.
#[export] Instance HealthTracker_eta : Eta HealthTracker :=
  λ h, mkHealth (lastRecvTime h) (lastPongTime h) (consecutiveFail h) (h_state h) (lastStateChange h).

Definition NewHealthTracker (now : time) : HealthTracker := mkHealth now now 0 StateHealthy now.
Definition Reset (now : time) (h : HealthTracker) : HealthTracker := mkHealth now now 0 StateHealthy now.

(** The switch of [recomputeState]. *)
Definition classify_silence (d : duration) : health_state :=
  if offlineThreshold <? d then StateOffline
  else if reconnectThreshold <? d then StateReconnecting
  else if 30 * second <? d then StateDegraded
  else StateHealthy.

Definition recomputeState (now : time) (h : HealthTracker) : HealthTracker :=
  let newState := classify_silence (time_sub now (lastRecvTime h)) in
  if bool_decide (newState = h_state h) then h
  else (h <| h_state := newState |>) <| lastStateChange := now |>.

Definition OnAnyDataReceived (now : time) (h : HealthTracker) : HealthTracker :=
  recomputeState now ((h <| lastRecvTime := now |>) <| consecutiveFail := 0 |>).
Definition OnPongReceived (now : time) (h : HealthTracker) : HealthTracker :=
  recomputeState now (((h <| lastRecvTime := now |>) <| lastPongTime := now |>) <| consecutiveFail := 0 |>).
Definition OnHeartbeatFailure (now : time) (h : HealthTracker) : HealthTracker :=
  recomputeState now (h <| consecutiveFail := consecutiveFail h + 1 |>).
Definition State (now : time) (h : HealthTracker) : HealthTracker * health_state :=
  let h := recomputeState now h in (h, h_state h).

(** ** Latency *)

Record pings := mkPings { lastPingSentAt : time; lastRTT : duration; lastRTTAt : time }.
#[export] Instance pings_eta : Eta pings := λ p, mkPings (lastPingSentAt p) (lastRTT p) (lastRTTAt p).

Definition no_pings : pings := mkPings time_zero 0 time_zero.

(** The clock's part of [sendHeartbeatFrame] and of [heartbeatReceiveLoop]. *)
Definition ping_sent (now : time) (p : pings) : pings := p <| lastPingSentAt := now |>.
Definition pong_received (now : time) (p : pings) : pings :=
  if lastPingSentAt p =? time_zero then p
  else
    let rtt := time_sub now (lastPingSentAt p) in
    if (0 <? rtt) && (rtt <? 30 * second) then (p <| lastRTT := rtt |>) <| lastRTTAt := now |> else p.

Definition GetLatency (now : time) (p : pings) : Z :=
  if lastRTTAt p =? time_zero then -1
  else if 30 * second <? time_sub now (lastRTTAt p) then -1
  else let ms := duration_ms (lastRTT p) in if ms <? 1 then 1 else ms.

Definition relayRTT (now : time) (p : pings) : duration :=
  if (lastRTTAt p =? time_zero) || (30 * second <? time_sub now (lastRTTAt p)) then 0 else lastRTT p.

(** The payload of a ping: the latency, 0 where there is none. *)
Definition ping_payload (now : time) (p : pings) : list Z :=
  let lat := GetLatency now p in put_uint32 (if lat <? 0 then 0 else lat).

Definition hbTypePing : Z := 1.
Definition hbTypePong : Z := 2.

(** [sendHeartbeatFrame]. *)
Definition heartbeat_frame (frameType : Z) (payload : list Z) : list Z := put_uint32 (1 + len payload) ++ frameType :: payload.

(** What the two heartbeat loops do, the events in the order in which they take the lock. *)
Inductive hb_event := SendPing (ok : bool) | GotPong | GotData.

Definition hb_step (now : time) (e : hb_event) (s : HealthTracker * pings) : HealthTracker * pings :=
  let '(h, p) := s in
  match e with
  | SendPing ok => (if ok then h else OnHeartbeatFailure now h, ping_sent now p)
  | GotPong => (OnPongReceived now h, pong_received now p)
  | GotData => (OnAnyDataReceived now h, p)
  end.

Fixpoint hb_run (l : list (time * hb_event)) (s : HealthTracker * pings) : HealthTracker * pings :=
  match l with [] => s | (t, e) :: l => hb_run l (hb_step t e s) end.

(** ** Outgoing packets *)

(** What the connection was set up with. *)
Record tunnel := mkTunnel {
  splitEnabled : bool;
  splitPorts : gset Z;
  matchRanges : list portRange;
  unreliableRanges : list portRange;
  has_matchStream : bool;
  has_gameTCPStream : bool;
  has_gameConn : bool;
  gameDatagramReady : bool;
}.

Definition isUDPMatchPort (c : tunnel) (port : Z) : bool := existsb (λ r, contains r port) (matchRanges c).
Definition isUDPUnreliablePort (c : tunnel) (port : Z) : bool := existsb (λ r, contains r port) (unreliableRanges c).

(** The channels from the TUN loop to the loops that write. *)
Inductive sendChan := tcpSendChan | matchSendChan | gameTCPSendChan | gameUDPSendChan | udpSendChan | icmpSendChan.
#[export] Instance sendChan_eq_dec : EqDecision sendChan.
Proof. solve_decision. Defined.

Definition chan_cap (ch : sendChan) : nat := match ch with icmpSendChan => 256 | _ => 512 end.

Definition ipProtoICMP : Z := 1.
Definition ipProtoTCP : Z := 6.
Definition ipProtoUDP : Z := 17.

(** The channel for a packet of the TUN device; [None]: the packet is skipped. *)
Definition choose_chan (c : tunnel) (data : list Z) : option sendChan :=
  if len data <? 20 then None
  else if negb (Relay.ip_version data =? 4) then None
  else
    let proto := Relay.at_ data 9 in
    if proto =? ipProtoICMP then Some icmpSendChan
    else if proto =? ipProtoTCP then
      let isGame :=
        splitEnabled c && has_gameTCPStream c &&
        match Relay.extractTCPDstPort data with Some p => bool_decide (p ∈ splitPorts c) | None => false end in
      Some (if isGame then gameTCPSendChan else tcpSendChan)
    else if proto =? ipProtoUDP then
      let port := Relay.extractUDPDstPort data in
      if gameDatagramReady c && match port with Some p => isUDPUnreliablePort c p | None => false end then Some gameUDPSendChan
      else if has_matchStream c && match port with Some p => isUDPMatchPort c p | None => false end then Some matchSendChan
      else Some udpSendChan
    else Some tcpSendChan.

(** A send that does not wait: a full channel drops the packet. *)
Definition chans : Type := sendChan → list (list Z).
Definition offer (ch : sendChan) (pkt : list Z) (cs : chans) : chans :=
  if (length (cs ch) <? chan_cap ch)%nat then λ ch', if decide (ch' = ch) then cs ch ++ [pkt] else cs ch' else cs.

(** One round of [forwardData]. *)
Definition forward_step (c : tunnel) (data : list Z) (cs : chans) : chans :=
  match choose_chan c data with Some ch => offer ch data cs | None => cs end.

(** ** Direct or by the server *)

Definition dst_of (pkt : list Z) : ip4 := (Relay.at_ pkt 16, Relay.at_ pkt 17, Relay.at_ pkt 18, Relay.at_ pkt 19).

Definition directSink (pm : option pathManager) (pkt : list Z) (plane : pathPlaneIndex) : option txQueue :=
  if len pkt <? 20 then None
  else if isBroadcastOrMulticast4 (dst_of pkt) then None
  else match pm with None => None | Some m => sinkFor m (dst_of pkt) plane end.

Definition directDatagramPath (pm : option pathManager) (pkt : list Z) : option positive :=
  if len pkt <? 20 then None
  else if isBroadcastOrMulticast4 (dst_of pkt) then None
  else
    m ← pm; i ← m_routes m !! dst_of pkt; p ← path_at m i;
    if bool_decide (p_state p = pathStateUp) then Some i else None.

(** What becomes of a packet taken from its channel. *)
Inductive sent :=
  | Direct (q : txQueue) (plane : pathPlaneIndex) (pkt : list Z)
  | DirectDatagram (i : positive) (pkt : list Z)
  | Relayed (plane : pathPlaneIndex) (frame : list Z)
  | RelayedDatagram (pkt : list Z)
  | Dropped
  | NoStream
  | TooLarge.

(** [sendTCPFrame], [sendMatchFrame], [sendGameTCPFrame], [sendUDPFrame], [sendICMPFrame]. *)
Definition send_frame (pm : option pathManager) (plane : pathPlaneIndex) (stream : bool) (pkt : list Z) : sent :=
  match directSink pm pkt plane with
  | Some q => Direct q plane pkt
  | None =>
      if negb stream then NoStream
      else match writeFrameToStream pkt with Some f => Relayed plane f | None => TooLarge end
  end.

(** A packet of [GameDatagramWriteLoop]. *)
Definition send_datagram (pm : option pathManager) (gameConn : bool) (pkt : list Z) : sent :=
  match directDatagramPath pm pkt with
  | Some i => match writeDatagram pkt with Some d => DirectDatagram i d | None => Dropped end
  | None =>
      if negb gameConn then Dropped
      else if maxGameDatagramSize <? len pkt then Dropped
      else RelayedDatagram pkt
  end.

(** The loop that serves a channel. The data and control connections and their
    streams are there once the client is connected. *)
Definition write_packet (c : tunnel) (pm : option pathManager) (ch : sendChan) (pkt : list Z) : sent :=
  match ch with
  | tcpSendChan => send_frame pm planeTCP true pkt
  | matchSendChan => send_frame pm planeMatch (has_matchStream c) pkt
  | gameTCPSendChan => send_frame pm planeGameTCP (has_gameTCPStream c) pkt
  | udpSendChan => send_frame pm planeUDP true pkt
  | icmpSendChan => send_frame pm planeICMP true pkt
  | gameUDPSendChan => send_datagram pm (has_gameConn c) pkt
  end.

(** ** Incoming frames *)

Inductive kick := KickedByAdmin | ReplacedByNew.

Definition isKickedError (text : string) : option kick :=
  if Contains text "kicked by admin" then Some KickedByAdmin
  else if Contains text "replaced by new connection" then Some ReplacedByNew
  else None.

(** A receive loop on all that arrives on its stream: the packets delivered to the
    TUN device, and the verdict on the error that ends it; [text] is the text of the
    error that follows the last byte. *)
Fixpoint receive_loop (fuel : nat) (s : list Z) (e : errLeaf) (text : string) : list (list Z) * option kick :=
  match fuel with
  | O => ([], None)
  | S fuel =>
      match readFrame maxFrameSize s e with
      | inr (ReadErr _) => ([], isKickedError text)
      | inr _ => ([], None)
      | inl (pkt, s) =>
          let '(out, k) := receive_loop fuel s e text in
          (match pkt with [] => out | _ => pkt :: out end, k)
      end
  end.

(** [markKicked]: the first reason counts; the client is closed once. *)
Record kicked_state := mkKicked { kicked : bool; kickedReason : option kick; closes : nat }.
Definition markKicked (k : kick) (s : kicked_state) : kicked_state :=
  if kicked s then s else mkKicked true (Some k) (S (closes s)).

(** [deliverToTun]: the queue to the device holds 512 packets. *)
Definition deliverToTun (pkt : list Z) (q : list (list Z)) : list (list Z) := if (length q <? 512)%nat then q ++ [pkt] else q.

(** ** Health and latency *)

Lemma time_sub_gt a b d : int64_min <= d < int64_max → (d <? time_sub a b) = (d <? a - b).
Proof.
  intros Hd. pose proof (time_sub_le a b d Hd). destruct (Z.ltb_spec d (time_sub a b)), (Z.ltb_spec d (a - b)); lia || done.
Qed.

Lemma seconds_fit n : 0 <= n <= 60 → int64_min <= n * second < int64_max.
Proof. unfold int64_min, int64_max, second, millisecond. lia. Qed.

(** When the client last heard from the server: any packet counts, sending does not. *)
Definition last_heard (t0 : time) (l : list (time * hb_event)) : time :=
  fold_left (λ t te, match te.2 with SendPing _ => t | GotPong | GotData => te.1 end) l t0.

Lemma recompute_recv now h : lastRecvTime (recomputeState now h) = lastRecvTime h.
Proof. unfold recomputeState. by destruct (bool_decide _). Qed.

Lemma hb_run_heard l : ∀ h p, lastRecvTime (hb_run l (h, p)).1 = last_heard (lastRecvTime h) l.
Proof.
  induction l as [|[t e] l IH]; intros h p; [done|]. cbn [hb_run last_heard fold_left fst snd]. fold (last_heard (match e with SendPing _ => lastRecvTime h | _ => t end) l).
  destruct e as [ok| |]; cbn [hb_step]; rewrite IH; f_equal.
  - destruct ok; [done|]. unfold OnHeartbeatFailure. by rewrite recompute_recv.
  - unfold OnPongReceived. by rewrite recompute_recv.
  - unfold OnAnyDataReceived. by rewrite recompute_recv.
Qed.

Lemma State_classify now h : (State now h).2 = classify_silence (time_sub now (lastRecvTime h)).
Proof. unfold State, recomputeState. cbn [snd]. by case_bool_decide. Qed.

(** The health shown and acted upon is a function of one thing, how long ago anything was last received: healthy up to 15
    seconds, reconnecting up to 30, offline beyond. Heartbeats that cannot be sent do not change it, and the state degraded, which
    the switch has between reconnecting and offline, is never reached. *)
Theorem health_exact t0 p l now :
  let h := (hb_run l (NewHealthTracker t0, p)).1 in
  let silence := now - last_heard t0 l in
  (State now h).2 = (if 30 * second <? silence then StateOffline else if 15 * second <? silence then StateReconnecting else StateHealthy) ∧
  (State now h).2 ≠ StateDegraded.
Proof.
  cbn zeta. rewrite State_classify, hb_run_heard. cbn [lastRecvTime NewHealthTracker]. unfold classify_silence, offlineThreshold, reconnectThreshold.
  rewrite !time_sub_gt by (by apply seconds_fit). set (d := now - last_heard t0 l).
  destruct (Z.ltb_spec (30 * second) d), (Z.ltb_spec (15 * second) d); unfold second, millisecond in *; try done; lia.
Qed.

Definition pings_ok (p : pings) : Prop := lastRTTAt p = time_zero ∨ 0 < lastRTT p < 30 * second.

Lemma pong_ok now p : pings_ok p → pings_ok (pong_received now p).
Proof.
  intros H. unfold pong_received. destruct (_ =? time_zero); [done|].
  destruct (0 <? time_sub now (lastPingSentAt p)) eqn:E1; [|done]. destruct (time_sub now (lastPingSentAt p) <? 30 * second) eqn:E2; [|done]. bool_hyps.
  right. cbn. lia.
Qed.

Lemma hb_run_pings_ok l : ∀ h p, pings_ok p → pings_ok (hb_run l (h, p)).2.
Proof.
  induction l as [|[t e] l IH]; intros h p H; [done|]. cbn [hb_run]. destruct e; cbn [hb_step]; apply IH; [done|by apply pong_ok|done].
Qed.

(** The latency is -1, for unknown, or between 1 and 29999 milliseconds - so that the number a ping carries to the server is
    the latency or 0, and never wraps. *)
Theorem latency_range t0 l now :
  let p := (hb_run l (NewHealthTracker t0, no_pings)).2 in
  (GetLatency now p = -1 ∨ 1 <= GetLatency now p < 30000) ∧
  get_uint32 (ping_payload now p) = Z.max 0 (GetLatency now p).
Proof.
  cbn zeta. set (p := (hb_run l _).2). assert (H : pings_ok p) by (apply hb_run_pings_ok; by left).
  assert (R : GetLatency now p = -1 ∨ 1 <= GetLatency now p < 30000).
  { unfold GetLatency. destruct (Z.eqb_spec (lastRTTAt p) time_zero) as [E|E]; [by left|]. destruct H as [H|H]; [done|].
    destruct (30 * second <? time_sub now (lastRTTAt p)); [by left|]. right.
    assert (Q : duration_ms (lastRTT p) = lastRTT p / millisecond) by (unfold duration_ms; apply Z.quot_div_nonneg; unfold millisecond; lia).
    rewrite Q. assert (lastRTT p / millisecond < 30000) by (apply Z.div_lt_upper_bound; unfold second, millisecond in *; lia).
    destruct (Z.ltb_spec (lastRTT p / millisecond) 1); lia. }
  split; [done|]. unfold ping_payload. destruct (Z.ltb_spec (GetLatency now p) 0); rewrite get_put_uint32; lia.
Qed.

(** The latency is counted from the last ping sent, whichever ping the pong answers: where the answers take longer than the
    interval between pings, what is shown is the remainder. *)
Lemma late_pong_understates t0 t1 t2 t3 p :
  t1 < t2 → t2 < t3 → t3 - t2 < 30 * second → t2 ≠ time_zero →
  lastRTT (hb_run [(t1, SendPing true); (t2, SendPing true); (t3, GotPong)] (NewHealthTracker t0, p)).2 = t3 - t2.
Proof.
  intros H1 H2 H3 H4. cbn. unfold pong_received. cbn. rewrite (proj2 (Z.eqb_neq t2 time_zero)) by done.
  assert (E : time_sub t3 t2 = t3 - t2) by (unfold time_sub, int64_min, int64_max, second, millisecond in *; lia).
  rewrite E. destruct (Z.ltb_spec 0 (t3 - t2)), (Z.ltb_spec (t3 - t2) (30 * second)); cbn; lia || done.
Qed.

(** ** The way of a packet *)

Definition plane_of (ch : sendChan) : pathPlaneIndex :=
  match ch with
  | tcpSendChan => planeTCP | matchSendChan => planeMatch | gameTCPSendChan => planeGameTCP
  | gameUDPSendChan => planeUDP | udpSendChan => planeUDP | icmpSendChan => planeICMP
  end.

(** The path that packets to [dst] take directly: it is up, it ends at [dst], it has passed its trial and is not released; it is the
    only one. *)
Definition direct_path (m : pathManager) (dst : ip4) (i : positive) : Prop :=
  ∃ p, path_at m i = Some p ∧ p_peer p = dst ∧ p_state p = pathStateUp ∧ p_closed p = false ∧ p_trialDone p = true ∧
    ∀ j p', path_at m j = Some p' → p_peer p' = dst → routed (p_state p') = true → j = i.

Lemma routed_up m dst i :
  wf m → m_routes m !! dst = Some i → (∃ p, path_at m i = Some p ∧ p_state p = pathStateUp) → direct_path m dst i.
Proof.
  intros W Hr (p & Hp & Hs). exists p. destruct (proj1 (wf_routes _ W _ _) Hr) as (p0 & Hp0 & Hpeer & _).
  unfold path_at in Hp. rewrite Hp in Hp0. injection Hp0 as <-. destruct (routed_all_flags p (wf_paths _ W _ _ Hp)) as (? & _ & ? & _); [by rewrite Hs|].
  split_and!; [done..|]. intros j p' Hj Hpj Hrj. assert (m_routes m !! dst = Some j) as Hj' by (apply (wf_routes _ W); eauto). congruence.
Qed.

Lemma no_direct m dst plane : wf m → sinkFor m dst plane = None → ∀ i, ¬ direct_path m dst i.
Proof.
  intros W E i (p & Hp & Hd & Hs & _). assert (Hr : m_routes m !! dst = Some i) by (apply (wf_routes _ W); exists p; by rewrite Hs).
  unfold sinkFor in E. rewrite Hr, Hp, bool_decide_true in E by done. done.
Qed.

Lemma no_direct_datagram m dst pkt : wf m → 20 <= len pkt → isBroadcastOrMulticast4 dst = false → dst_of pkt = dst →
  directDatagramPath (Some m) pkt = None → ∀ i, ¬ direct_path m dst i.
Proof.
  intros W Hl Hb <- E i (p & Hp & Hd & Hs & _). assert (Hr : m_routes m !! dst_of pkt = Some i) by (apply (wf_routes _ W); exists p; by rewrite Hs).
  unfold directDatagramPath in E. rewrite (proj2 (Z.ltb_ge _ _) Hl), Hb in E. cbn in E. rewrite Hr in E. cbn in E. rewrite Hp in E. cbn in E.
  by rewrite bool_decide_true in E.
Qed.

(** What the result of a write may be. *)
Definition sent_right (c : tunnel) (m : pathManager) (ch : sendChan) (pkt : list Z) (r : sent) : Prop :=
  let unicast := isBroadcastOrMulticast4 (dst_of pkt) = false in
  let relay := unicast → ∀ i, ¬ direct_path m (dst_of pkt) i in
  match r with
  | Direct q plane d => d = pkt ∧ plane = plane_of ch ∧ unicast ∧ ∃ i, q = streamTx i (planeStream plane) ∧ direct_path m (dst_of pkt) i
  | DirectDatagram i d => d = pkt ∧ ch = gameUDPSendChan ∧ len pkt <= maxGameDatagramSize ∧ unicast ∧ direct_path m (dst_of pkt) i
  | Relayed plane f => plane = plane_of ch ∧ relay ∧ ∀ rest e, readFrame maxFrameSize (f ++ rest) e = inl (pkt, rest)
  | RelayedDatagram d => d = pkt ∧ ch = gameUDPSendChan ∧ len pkt <= maxGameDatagramSize ∧ relay
  | Dropped => ch = gameUDPSendChan ∧ maxGameDatagramSize < len pkt
  | NoStream | TooLarge => False
  end.

Lemma choose_chan_ip c data ch : choose_chan c data = Some ch → 20 <= len data ∧ Relay.ip_version data = 4.
Proof.
  unfold choose_chan. destruct (Z.ltb_spec (len data) 20); [done|]. destruct (Z.eqb_spec (Relay.ip_version data) 4); [|done]. intros _. by split.
Qed.

Lemma choose_chan_there c data ch :
  choose_chan c data = Some ch →
  (ch = matchSendChan → has_matchStream c = true) ∧ (ch = gameTCPSendChan → has_gameTCPStream c = true) ∧ (ch = gameUDPSendChan → gameDatagramReady c = true).
Proof.
  unfold choose_chan. destruct (len data <? 20); [done|]. destruct (negb _); [done|].
  destruct (_ =? ipProtoICMP); [by intros [= <-]|]. destruct (_ =? ipProtoTCP).
  { destruct (splitEnabled c && has_gameTCPStream c && _) eqn:E; intros [= <-]; split_and!; try done. intros _. by bool_hyps. }
  destruct (_ =? ipProtoUDP); [|by intros [= <-]].
  destruct (gameDatagramReady c && _) eqn:E1; [intros [= <-]; split_and!; try done; intros _; by bool_hyps|].
  destruct (has_matchStream c && _) eqn:E2; [intros [= <-]; split_and!; try done; intros _; by bool_hyps|]. by intros [= <-].
Qed.

Lemma send_frame_right c cfg m ch pkt stream :
  reachable cfg m → 20 <= len pkt <= maxFrameSize → stream = true → sent_right c m ch pkt (send_frame (Some m) (plane_of ch) stream pkt).
Proof.
  intros W%reachable_wf [Hl Hm] ->. unfold send_frame, directSink. rewrite (proj2 (Z.ltb_ge _ _) Hl).
  assert (Hf : ∀ r, (isBroadcastOrMulticast4 (dst_of pkt) = false → ∀ i, ¬ direct_path m (dst_of pkt) i) →
    r = match writeFrameToStream pkt with Some f => Relayed (plane_of ch) f | None => TooLarge end → sent_right c m ch pkt r).
  { intros r Hr ->. unfold writeFrameToStream. rewrite (proj2 (Z.ltb_ge _ _) Hm). split_and!; [done|done|]. intros rest e.
    rewrite <- app_assoc. by apply readFrame_app. }
  destruct (isBroadcastOrMulticast4 (dst_of pkt)) eqn:Eb; [by apply Hf|].
  destruct (sinkFor m (dst_of pkt) (plane_of ch)) as [q|] eqn:Es.
  - split_and!; [done|done|done|]. unfold sinkFor in Es. destruct (m_routes m !! dst_of pkt) as [i|] eqn:Er; [|done].
    destruct (path_at m i) as [p|] eqn:Ep; [|done]. case_bool_decide; [|done]. injection Es as <-. exists i. split; [done|]. apply routed_up; [done|done|by exists p].
  - apply Hf; [|done]. intros _. by eapply no_direct.
Qed.

(** C12: every packet of the TUN device that is sent, is sent once and in one piece: to the direct path to its destination if - and
    only if - one is up, and then to a path that ends there; otherwise to the server, in a frame that reads back as the packet, on
    the plane chosen for it, which is a plane the connection has. Broadcasts go to the server. Nothing is dropped but what is too
    large for a datagram of the game plane. *)
Theorem packets_sent_right c cfg m data ch :
  reachable cfg m → (gameDatagramReady c = true → has_gameConn c = true) → len data <= maxFrameSize →
  choose_chan c data = Some ch →
  sent_right c m ch data (write_packet c (Some m) ch data).
Proof.
  intros HR HG Hm Hc. destruct (choose_chan_ip c data ch Hc) as [Hl _]. destruct (choose_chan_there c data ch Hc) as (Hx & Hy & Hz).
  destruct ch; cbn [write_packet].
  1: by apply (send_frame_right c cfg m tcpSendChan data). 1: by apply (send_frame_right c cfg m matchSendChan data); auto.
  1: by apply (send_frame_right c cfg m gameTCPSendChan data); auto. 2: by apply (send_frame_right c cfg m udpSendChan data).
  2: by apply (send_frame_right c cfg m icmpSendChan data).
  unfold send_datagram. rewrite HG by auto. cbn [negb]. pose proof (reachable_wf _ _ HR) as W.
  destruct (directDatagramPath (Some m) data) as [i|] eqn:Ed.
  - unfold writeDatagram, directMaxDatagram. destruct (Z.ltb_spec maxGameDatagramSize (len data)); [done|].
    unfold directDatagramPath in Ed. rewrite (proj2 (Z.ltb_ge _ _) Hl) in Ed. destruct (isBroadcastOrMulticast4 (dst_of data)) eqn:Eb; [done|].
    cbn in Ed. destruct (m_routes m !! dst_of data) as [j|] eqn:Er; [|done]. cbn in Ed. destruct (path_at m j) as [p|] eqn:Ep; [|done]. cbn in Ed.
    case_bool_decide; [|done]. injection Ed as <-. split_and!; [done|done|done|done|]. apply routed_up; [done|done|by exists p].
  - destruct (Z.ltb_spec maxGameDatagramSize (len data)); [done|]. split_and!; [done|done|done|]. intros Hb. by eapply (no_direct_datagram m _ data).
Qed.

(** The ports are read where the transport header of a first fragment is: the fragments of one datagram can go different ways. *)
Definition fragment_1 : list Z := [0x45; 0; 0; 24; 7; 7; 0x20; 0; 64; 17; 0; 0; 10; 0; 0; 2; 10; 0; 0; 3; 0x30; 0x39; 0xc3; 0x50].
Definition fragment_2 : list Z := [0x45; 0; 0; 24; 7; 7; 0x00; 1; 64; 17; 0; 0; 10; 0; 0; 2; 10; 0; 0; 3; 1; 2; 3; 4].
Definition game_tunnel : tunnel := mkTunnel true {[443]} [(42300, 42800)] [(50000, 50550)] true true true true.

Lemma fragments_part_ways :
  choose_chan game_tunnel fragment_1 = Some gameUDPSendChan ∧ choose_chan game_tunnel fragment_2 = Some udpSendChan.
Proof. by vm_compute. Qed.

(** ** The way back *)

Lemma receive_loop_frames pkts : ∀ fuel e text,
  Forall (λ p, len p <= maxFrameSize) pkts → (length pkts < fuel)%nat →
  receive_loop fuel (concat (map (λ p, put_uint32 (len p) ++ p) pkts)) e text = (filter (λ p, p ≠ []) pkts, isKickedError text).
Proof.
  induction pkts as [|p pkts IH]; intros fuel e text F Hf; (destruct fuel as [|fuel]; [cbn in Hf; lia|]); cbn [receive_loop].
  - done.
  - apply Forall_cons in F as [F1 F]. cbn [map concat]. rewrite <- app_assoc, readFrame_app by done.
    rewrite IH by (done || (cbn in Hf; lia)). destruct p; [done|]. by rewrite filter_cons_True.
Qed.

(** What the server puts on a stream of frames is what the TUN device gets - all of it, in order, empty frames (the stream's
    opening and keep-alives) aside - and then the stream's end decides: the client takes itself for kicked exactly when the error's
    text says so, by an administrator first, by its replacement otherwise. *)
Theorem frames_delivered_then_verdict pkts e text :
  Forall (λ p, len p <= maxFrameSize) pkts →
  receive_loop (S (length pkts)) (concat (omap writeFrameToStream pkts)) e text =
    (filter (λ p, p ≠ []) pkts,
     if Contains text "kicked by admin" then Some KickedByAdmin
     else if Contains text "replaced by new connection" then Some ReplacedByNew else None).
Proof.
  intros F. assert (E : omap writeFrameToStream pkts = map (λ p, put_uint32 (len p) ++ p) pkts).
  { induction F as [|p pkts Hp F IH]; [done|]. cbn [omap list_omap]. unfold writeFrameToStream at 1. rewrite (proj2 (Z.ltb_ge _ _) Hp). cbn. f_equal. exact IH. }
  rewrite E, receive_loop_frames by (done || lia). done.
Qed.

Lemma marks_once ks s : kicked s = true → fold_left (λ s k, markKicked k s) ks s = s.
Proof. intros H. induction ks as [|k ks IH]; [done|]. cbn. unfold markKicked at 2. by rewrite H. Qed.

(** However many loops learn that the client was kicked, it is closed once, and the reason given is the first. *)
Lemma kicked_once k ks :
  fold_left (λ s k, markKicked k s) (k :: ks) (mkKicked false None 0) = mkKicked true (Some k) 1.
Proof. cbn. by apply marks_once. Qed.

(** ** Witnesses *)

Definition tcp_to_peer : list Z := [0x45; 0; 0; 24; 7; 7; 0x40; 0; 64; 6; 0; 0; 10; 0; 0; 9; 10; 0; 0; 1; 0x30; 0x39; 0x01; 0xbb].

Lemma packets_sent_right_witness :
  (reachable defaultParams demo_up ∧ (gameDatagramReady game_tunnel = true → has_gameConn game_tunnel = true) ∧ len tcp_to_peer <= maxFrameSize ∧
   choose_chan game_tunnel tcp_to_peer = Some gameTCPSendChan) ∧
  sent_right game_tunnel demo_up gameTCPSendChan tcp_to_peer (write_packet game_tunnel (Some demo_up) gameTCPSendChan tcp_to_peer).
Proof.
  assert (Hl : len tcp_to_peer <= maxFrameSize) by (cbv; discriminate).
  split; [split_and!; [apply demo_up_reachable|done|done|by vm_compute]|].
  apply (packets_sent_right game_tunnel defaultParams demo_up tcp_to_peer gameTCPSendChan); [apply demo_up_reachable|done|done|by vm_compute].
Defined.

Lemma frames_delivered_then_verdict_witness :
  Forall (λ p : list Z, len p <= maxFrameSize) [[1; 2; 3]; []; [4]] ∧
  receive_loop 4 (concat (omap writeFrameToStream [[1; 2; 3]; []; [4]])) EOF "kicked by admin" =
    (filter (λ p : list Z, p ≠ []) [[1; 2; 3]; []; [4]],
     if Contains "kicked by admin" "kicked by admin" then Some KickedByAdmin
     else if Contains "kicked by admin" "replaced by new connection" then Some ReplacedByNew else None).
Proof.
  assert (H : Forall (λ p : list Z, len p <= maxFrameSize) [[1; 2; 3]; []; [4]]) by (repeat constructor; cbv; discriminate).
  split; [done|]. by apply (frames_delivered_then_verdict [[1; 2; 3]; []; [4]] EOF "kicked by admin").
Defined.
