(* ===== verification/ClientConnect.v ===== *)
(** * Connecting and disconnecting
    ([Connect], [cleanupPartial] and [Close] of [vpn-tool/backend/quic/client.go])

    A connection is eleven resources opened one after another - the Hysteria client,
    the DHCP request, the TUN device, an optional shared socket and transport, five
    QUIC connections - any of which can fail. The model runs [Connect] against an
    arbitrary sequence of outcomes and keeps a ledger of what is open. *)

From Stdlib Require Import ZArith Lia Bool Ascii String.
From stdpp Require Import base list gmap sets strings.
From S2P Require Import Prelude.
From S2P Require Import GoStrings.
From S2P Require Import GoText.
From S2P Require Import Dhcp.

Open Scope list_scope.

(** ** The client *)

(** The part of the configuration that [Connect] reads. *)
Record connectCfg := mkConnectCfg {
  k_serverIPv4 : string;
  k_username : string;
  k_obfsEnabled : bool;
  k_obfsPassword : string;
  k_useDHCP : bool;
  k_staticIP : string;
  k_staticMask : string;
  k_p2pLocalEnabled : bool;
}.

(** The six contexts: true where it has been cancelled. *)
Record contexts := mkCtxs { ctx : bool; dataCtx : bool; matchCtx : bool; gameTCPCtx : bool; gameCtx : bool; ctrlCtx : bool }.
Definition all_cancelled : contexts := mkCtxs true true true true true true.
Definition none_cancelled : contexts := mkCtxs false false false false false false.

(** A resource is named by a number. *)
Record client := mkClient {
  hysteriaClient : option nat;
  connected : bool;
  tunDevice : option nat;
  sharedUDPConn : option nat;
  sharedTransport : option nat;
  dataConn : option nat;
  matchConn : option nat;
  gameTCPConn : option nat;
  gameConn : option nat;
  ctrlConn : option nat;
  cancelled : contexts;
  settings : option Settings;
  assignedIP : string;
  subnetMask : string;
  c_matchStream : bool;
  c_gameTCPStream : bool;
  c_gameDatagramReady : bool;
  punchMgr : bool;
  closed : bool;
}.
#[export] Instance client_eta : Eta client := λ c,
  mkClient (hysteriaClient c) (connected c) (tunDevice c) (sharedUDPConn c) (sharedTransport c) (dataConn c) (matchConn c) (gameTCPConn c)
    (gameConn c) (ctrlConn c) (cancelled c) (settings c) (assignedIP c) (subnetMask c) (c_matchStream c) (c_gameTCPStream c)
    (c_gameDatagramReady c) (punchMgr c) (closed c).

Definition NewHysteria2Client : client :=
  mkClient None false None None None None None None None None none_cancelled None EmptyString EmptyString false false false false false.

(** The goroutines a connected client runs. *)
Inductive loop :=
  | TunWriteLoop | tcpReceiveLoop | udpReceiveLoop | icmpReceiveLoop | heartbeatReceiveLoop | forwardData | TCPWriteLoop | UDPWriteLoop
  | ICMPWriteLoop | matchReceiveLoop | MatchWriteLoop | gameTCPReceiveLoop | GameTCPWriteLoop | gameDatagramReceiveLoop
  | GameDatagramWriteLoop | gameConnStatsLoop | heartbeatLoop.

(** ** Running against the environment *)

(** The ledger [open_], the outcomes still to come, and what was written to open a plane. *)
Record world := mkWorld { cl : client; open_ : gset nat; next : nat; outcomes : list bool; registrations : list string; loops : list loop }.
#[export] Instance world_eta : Eta world := λ w, mkWorld (cl w) (open_ w) (next w) (outcomes w) (registrations w) (loops w).

Inductive connect_error :=
  | EResolve | EObfsPassword | ENoUsername | EHysteria | EDhcpConn | EDhcpWrite | EDhcpRead | EDhcpAnswer | EStaticIP | ETun
  | EUdpSocket | EObfuscator | EDial | EOpenStream | ERegister | EHandshake.

Definition M (A : Type) : Type := world → world * (A + connect_error).
Definition ret {A} (a : A) : M A := λ w, (w, inl a).
Definition throw {A} (e : connect_error) : M A := λ w, (w, inr e).
Definition bind {A B} (m : M A) (k : A → M B) : M B := λ w, match m w with (w, inl a) => k a w | (w, inr e) => (w, inr e) end.
Definition catch {A} (m : M A) (k : A + connect_error → M unit) : M unit := λ w, let '(w, r) := m w in k r w.

Declare Scope connect_scope.
Delimit Scope connect_scope with connect.
Notation "'let!' x ':=' m 'in' k" := (bind m (λ x, k)) (at level 10, x name, m at level 100, k at level 200) : connect_scope.
Notation "m ';;;' k" := (bind m (λ _, k)) (at level 100, right associativity) : connect_scope.
Open Scope connect_scope.

(** The next outcome; what happens after the last one fails. *)
Definition ask : M bool := λ w, match outcomes w with [] => (w, inl false) | b :: l => (w <| outcomes := l |>, inl b) end.
Definition get {A} (f : client → A) : M A := λ w, (w, inl (f (cl w))).
Definition set_ (f : client → client) : M unit := λ w, (w <| cl := f (cl w) |>, inl tt).

Definition acquire : M nat := λ w, ((w <| open_ := {[next w]} ∪ open_ w |>) <| next := S (next w) |>, inl (next w)).
Definition release (i : nat) : M unit := λ w, (w <| open_ := open_ w ∖ {[i]} |>, inl tt).
Definition release_opt (o : option nat) : M unit := match o with Some i => release i | None => ret tt end.
Definition note (s : string) : M unit := λ w, (w <| registrations := registrations w ++ [s] |>, inl tt).
Definition go (l : list loop) : M unit := λ w, (w <| loops := loops w ++ l |>, inl tt).

Definition try_open (e : connect_error) : M nat := let! b := ask in if b : bool then acquire else throw e.
(** A step that can fail, after which [conn] is closed. *)
Definition or_close (conn : nat) (e : connect_error) : M unit := let! b := ask in if b : bool then ret tt else (release conn ;;; throw e).

(** ** The planes *)

(** [dialQUIC]: a cancelled context makes every dial fail. *)
Definition dialQUIC (ctx : client → bool) : M nat :=
  let! c := get ctx in let! b := ask in if (b : bool) && negb c then acquire else throw EDial.

Definition nl : string := String "010" EmptyString.
Definition reg_str (plane : string) (username vip : string) : string :=
  plane +:+ nl +:+ (if bool_decide (username = EmptyString) then "single" else "multi") +:+ nl +:+ username +:+ nl +:+ vip.

(** The control stream of a plane: opened, the registration written, closed. *)
Definition register (conn : nat) (plane username vip : string) : M unit :=
  or_close conn EOpenStream ;;; note (reg_str plane username vip) ;;; or_close conn ERegister.

(** A stream of a plane, opened with an empty frame. *)
Definition open_stream (conn : nat) : M unit := or_close conn EOpenStream ;;; or_close conn EHandshake.

Definition connectDataConn (username vip : string) : M nat :=
  let! conn := dialQUIC (λ c, dataCtx (cancelled c)) in
  register conn "data" username vip ;;; open_stream conn ;;; open_stream conn ;;; ret conn.

Definition connectMatchConn (username vip : string) : M nat :=
  let! conn := dialQUIC (λ c, matchCtx (cancelled c)) in
  register conn "data-match" username vip ;;; open_stream conn ;;; ret conn.

Definition connectGameTCPConn (username vip : string) : M nat :=
  let! conn := dialQUIC (λ c, gameTCPCtx (cancelled c)) in
  register conn "data-game-tcp" username vip ;;; open_stream conn ;;; ret conn.

Definition set_ready (b : bool) (c : client) : client := c <| c_gameDatagramReady := b |>.

(** The datagrams are negotiated on a stream: it has to open, the request to be
    written, and "datagram-ok" to come back; a failure leaves the plane without. *)
Definition connectGameDatagramConn (username vip : string) : M nat :=
  let! conn := dialQUIC (λ c, gameCtx (cancelled c)) in
  register conn "data-game" username vip ;;;
  let! opened := ask in
  let! ready := (if opened : bool then let! written := ask in if written : bool then ask else ret false else ret false) in
  set_ (set_ready ready) ;;; ret conn.

Definition connectCtrlConn (username vip : string) : M nat :=
  let! conn := dialQUIC (λ c, ctrlCtx (cancelled c)) in
  register conn "ctrl" username vip ;;; open_stream conn ;;; open_stream conn ;;; ret conn.

(** ** [Connect] *)

Definition obfs_ok (k : connectCfg) : bool := negb (k_obfsEnabled k) || (4 <=? String.length (k_obfsPassword k))%nat.

Definition connect_hysteria (k : connectCfg) : M unit :=
  let! resolved := ask in
  if negb resolved then throw EResolve
  else if negb (obfs_ok k) then throw EObfsPassword
  else if bool_decide (TrimSpace (k_username k) = EmptyString) then throw ENoUsername
  else
    let! h := try_open EHysteria in
    set_ (λ c, (c <| hysteriaClient := Some h |>) <| connected := true |>).

(** The settings of a static address; those of P2P are left as they were. *)
Definition static_settings (k : connectCfg) (old : option Settings) : Settings :=
  mkSettings (k_staticIP k) (k_staticMask k) false ∅ [] [] "selfsigned" (k_serverIPv4 k)
    (match old with Some s => p2pServerEnabled s | None => false end) (match old with Some s => builtinSTUNPorts s | None => [] end).

Definition put_settings (f : option Settings → Settings) (c : client) : client := c <| settings := Some (f (settings c)) |>.

(** The settings, and the DHCP connection that is still open. *)
Definition negotiate (k : connectCfg) (answer : string) : M (option nat) :=
  if k_useDHCP k then
    let! conn := try_open EDhcpConn in
    catch
      (let! written := ask in if negb written then throw EDhcpWrite
       else let! read := ask in if negb read then throw EDhcpRead
       else match read_answer (k_serverIPv4 k) answer with
            | None => throw EDhcpAnswer
            | Some s => set_ (put_settings (λ _, s))
            end)
      (λ r, match r with inl _ => ret tt | inr e => release conn ;;; throw e end) ;;;
    ret (Some conn)
  else if negb (validateTunnelIPv4 (k_staticIP k) (k_staticMask k)) then throw EStaticIP
  else set_ (put_settings (static_settings k)) ;;; ret None.

(** The TUN device, and with obfuscation the socket and the transport that the planes share. *)
Definition open_tun : M unit := let! t := try_open ETun in set_ (λ c, c <| tunDevice := Some t |>).

Definition open_transport (k : connectCfg) : M unit :=
  if k_obfsEnabled k then
    let! sock := try_open EUdpSocket in
    or_close sock EObfuscator ;;;
    let! tr := acquire in
    set_ (λ c, (c <| sharedUDPConn := Some sock |>) <| sharedTransport := Some tr |>)
  else ret tt.

(** The address and the mask, [noteAssignedIP] included. *)
Definition note_address : M unit :=
  set_ (λ c, match settings c with
             | Some s => (c <| assignedIP := if bool_decide (s_ip s = EmptyString) then assignedIP c else s_ip s |>) <| subnetMask := s_mask s |>
             | None => c
             end).

Definition on_settings (f : Settings → Settings) (c : client) : client := c <| settings := f <$> settings c |>.
Definition no_match (s : Settings) : Settings :=
  mkSettings (s_ip s) (s_mask s) (serverSplitEnabled s) (serverSplitPorts s) [] (udpUnreliableRanges s) (serverCertMode s) (s_serverHostname s)
    (p2pServerEnabled s) (builtinSTUNPorts s).
Definition no_split (s : Settings) : Settings :=
  mkSettings (s_ip s) (s_mask s) false (serverSplitPorts s) (udpMatchRanges s) (udpUnreliableRanges s) (serverCertMode s) (s_serverHostname s)
    (p2pServerEnabled s) (builtinSTUNPorts s).
Definition no_unreliable (s : Settings) : Settings :=
  mkSettings (s_ip s) (s_mask s) (serverSplitEnabled s) (serverSplitPorts s) (udpMatchRanges s) [] (serverCertMode s) (s_serverHostname s)
    (p2pServerEnabled s) (builtinSTUNPorts s).

Definition wants_match (c : client) : bool := match settings c with Some s => negb (bool_decide (udpMatchRanges s = [])) | None => false end.
Definition wants_split (c : client) : bool := match settings c with Some s => serverSplitEnabled s | None => false end.
Definition wants_unreliable (c : client) : bool := match settings c with Some s => negb (bool_decide (udpUnreliableRanges s = [])) | None => false end.

(** The optional planes: where one cannot be had its setting is turned off. *)
Definition open_match (username vip : string) : M unit :=
  let! wanted := get wants_match in
  if wanted : bool then
    catch (connectMatchConn username vip) (λ r, match r with
      | inl conn => set_ (λ c, (c <| matchConn := Some conn |>) <| c_matchStream := true |>)
      | inr _ => set_ (on_settings no_match) end)
  else ret tt.

Definition open_gameTCP (username vip : string) : M unit :=
  let! wanted := get wants_split in
  if wanted : bool then
    catch (connectGameTCPConn username vip) (λ r, match r with
      | inl conn => set_ (λ c, (c <| gameTCPConn := Some conn |>) <| c_gameTCPStream := true |>)
      | inr _ => set_ (on_settings no_split) end)
  else ret tt.

Definition open_game (username vip : string) : M unit :=
  let! wanted := get wants_unreliable in
  if wanted : bool then
    catch (connectGameDatagramConn username vip) (λ r, match r with
      | inl conn => set_ (λ c, c <| gameConn := Some conn |>)
      | inr _ => set_ (on_settings no_unreliable) end)
  else ret tt.

Definition open_data (username vip : string) : M unit :=
  let! conn := connectDataConn username vip in set_ (λ c, c <| dataConn := Some conn |>).
Definition open_ctrl (username vip : string) : M unit :=
  let! conn := connectCtrlConn username vip in set_ (λ c, c <| ctrlConn := Some conn |>).

Definition P2PEffective (k : connectCfg) (c : client) : bool :=
  match settings c with Some s => p2pServerEnabled s | None => false end && k_p2pLocalEnabled k.

(** [startPunchManager], which is idempotent, where P2P is on. *)
Definition start_punch (k : connectCfg) (c : client) : client := c <| punchMgr := punchMgr c || P2PEffective k c |>.

(** The goroutines are started, the ones of an optional plane where it is there. *)
Definition start_loops (k : connectCfg) : M unit :=
  set_ (start_punch k) ;;;
  go [TunWriteLoop; tcpReceiveLoop; udpReceiveLoop; icmpReceiveLoop; heartbeatReceiveLoop; forwardData; TCPWriteLoop; UDPWriteLoop; ICMPWriteLoop] ;;;
  (let! m := get c_matchStream in go (if m : bool then [matchReceiveLoop; MatchWriteLoop] else [])) ;;;
  (let! g := get c_gameTCPStream in go (if g : bool then [gameTCPReceiveLoop; GameTCPWriteLoop] else [])) ;;;
  (let! d := get c_gameDatagramReady in go (if d : bool then [gameDatagramReceiveLoop; GameDatagramWriteLoop; gameConnStatsLoop] else [])) ;;;
  go [heartbeatLoop].

Definition connect_planes (k : connectCfg) : M unit :=
  note_address ;;; open_tun ;;; open_transport k ;;;
  let! vip := get (λ c, match settings c with Some s => s_ip s | None => EmptyString end) in
  open_data (k_username k) vip ;;; open_match (k_username k) vip ;;; open_gameTCP (k_username k) vip ;;; open_game (k_username k) vip ;;;
  open_ctrl (k_username k) vip ;;; start_loops k.

Definition cleanupPartial : M unit :=
  set_ (λ c, c <| punchMgr := false |>) ;;;
  (let! c := get (λ c, c) in
   release_opt (dataConn c) ;;; release_opt (matchConn c) ;;; release_opt (gameTCPConn c) ;;; release_opt (gameConn c) ;;; release_opt (ctrlConn c) ;;;
   release_opt (sharedTransport c) ;;; release_opt (sharedUDPConn c) ;;; release_opt (tunDevice c) ;;; release_opt (hysteriaClient c)) ;;;
  set_ (λ c, mkClient None false None None None None None None None None all_cancelled (settings c) (assignedIP c) (subnetMask c)
               (c_matchStream c) (c_gameTCPStream c) (c_gameDatagramReady c) (punchMgr c) (closed c)).

(** What [Connect] does before its deferred clean-up; the DHCP connection is closed first. *)
Definition connect_body (k : connectCfg) (answer : string) : M string :=
  connect_hysteria k ;;;
  let! dhcp := negotiate k answer in
  catch (connect_planes k) (λ r, release_opt dhcp ;;; match r with inl _ => ret tt | inr e => throw e end) ;;;
  get (λ c, match settings c with Some s => s_ip s | None => EmptyString end).

Definition Connect (k : connectCfg) (answer : string) : M string := λ w,
  match connect_body k answer w with
  | (w, inl ip) => (w, inl ip)
  | (w, inr e) => ((cleanupPartial w).1, inr e)
  end.

(** [Close]: once; what is closed stays in the fields. *)
Definition Close : M unit :=
  let! c := get (λ c, c) in
  if closed c then ret tt
  else
    set_ (λ c, ((c <| connected := false |>) <| cancelled := all_cancelled |>) <| punchMgr := false |> <| closed := true |>) ;;;
    release_opt (dataConn c) ;;; release_opt (matchConn c) ;;; release_opt (gameTCPConn c) ;;; release_opt (gameConn c) ;;; release_opt (ctrlConn c) ;;;
    release_opt (sharedTransport c) ;;; release_opt (sharedUDPConn c) ;;; release_opt (tunDevice c) ;;; release_opt (hysteriaClient c).

Definition fresh_world (l : list bool) : world := mkWorld NewHysteria2Client ∅ 0 l [] [].

Definition demo_cfg : connectCfg := mkConnectCfg "203.0.113.9" "ann" true "secret" true EmptyString EmptyString true.
Definition demo_answer : string := "10.0.0.2,255.255.255.0,on,443,on,42300-42800,on,50000-50550,selfsigned,,on,3478".

Lemma demo_connects :
  let '(w, r) := Connect demo_cfg demo_answer (fresh_world (repeat true 60)) in
  r = inl "10.0.0.2"%string ∧ size (open_ w) = 9%nat ∧ length (loops w) = 17%nat.
Proof. vm_compute. auto. Qed.

(** ** Triples

    [{P} m {Q | E}]: from a world in [P], [m] ends in [Q] with its result, or in [E] with an error. *)

Definition triple {A} (P : world → Prop) (m : M A) (Q : A → world → Prop) (E : world → Prop) : Prop :=
  ∀ w, P w → match m w with (w', inl a) => Q a w' | (w', inr _) => E w' end.

Lemma triple_bind {A B} P (m : M A) Q (k : A → M B) R E :
  triple P m Q E → (∀ a, triple (Q a) (k a) R E) → triple P (bind m k) R E.
Proof. intros H1 H2 w Hw. specialize (H1 w Hw). unfold bind. destruct (m w) as [w' [a|e]]; [by apply H2|done]. Qed.

Lemma triple_catch {A} P (m : M A) Q E k R E' :
  triple P m Q E → (∀ a, triple (Q a) (k (inl a)) R E') → (∀ e, triple E (k (inr e)) R E') → triple P (catch m k) R E'.
Proof. intros H1 H2 H3 w Hw. specialize (H1 w Hw). unfold catch. destruct (m w) as [w' [a|e]]; [by apply H2|by apply H3]. Qed.

Lemma triple_conseq {A} (P P' : world → Prop) (m : M A) Q Q' (E E' : world → Prop) :
  (∀ w, P' w → P w) → (∀ a w, Q a w → Q' a w) → (∀ w, E w → E' w) → triple P m Q E → triple P' m Q' E'.
Proof. intros HP HQ HE H w Hw. specialize (H w (HP w Hw)). destruct (m w) as [w' [a|e]]; [by apply HQ|by apply HE]. Qed.

Lemma triple_ret {A} (P : world → Prop) (a : A) E : triple P (ret a) (λ x w, x = a ∧ P w) E.
Proof. by intros w Hw. Qed.

Lemma triple_throw {A} (P E : world → Prop) e (Q : A → world → Prop) : (∀ w, P w → E w) → triple P (throw e) Q E.
Proof. intros H w Hw. by apply H. Qed.

Lemma triple_ex {A T} (P : T → world → Prop) (m : M A) Q E : (∀ t, triple (P t) m Q E) → triple (λ w, ∃ t, P t w) m Q E.
Proof. intros H w [t Hw]. by apply (H t). Qed.

Lemma triple_pure {A} (H : Prop) (P : world → Prop) (m : M A) Q E : (H → triple P m Q E) → triple (λ w, H ∧ P w) m Q E.
Proof. intros HT w [HH Hw]. by apply HT. Qed.

(** ** The ledger *)

Definition owns (c : client) (i : nat) : Prop :=
  hysteriaClient c = Some i ∨ tunDevice c = Some i ∨ sharedUDPConn c = Some i ∨ sharedTransport c = Some i ∨ dataConn c = Some i ∨
  matchConn c = Some i ∨ gameTCPConn c = Some i ∨ gameConn c = Some i ∨ ctrlConn c = Some i.

(** What is open is what the client's fields hold, and [X]. *)
Definition st (c : client) (X : gset nat) (w : world) : Prop :=
  cl w = c ∧ (∀ i, i ∈ open_ w ↔ owns c i ∨ i ∈ X) ∧ (∀ i, i ∈ open_ w → (i < next w)%nat) ∧ (∀ i, owns c i → i ∉ X).

(** The same with a connection in hand that no field holds. *)
Definition hold (c : client) (i : nat) (X : gset nat) (w : world) : Prop := st c ({[i]} ∪ X) w ∧ i ∉ X.

Lemma ask_st c X E : triple (st c X) ask (λ _, st c X) E.
Proof. intros w H. unfold ask. destruct (outcomes w); [done|]. exact H. Qed.

Lemma ask_hold c i X E : triple (hold c i X) ask (λ _, hold c i X) E.
Proof. intros w H. unfold ask. destruct (outcomes w); [done|]. exact H. Qed.

Lemma get_st {A} c X (f : client → A) E : triple (st c X) (get f) (λ a w, a = f c ∧ st c X w) E.
Proof. intros w H. cbn. split; [by destruct H as [-> _]|done]. Qed.

Lemma acquire_st c X E : triple (st c X) acquire (λ i, hold c i X) E.
Proof.
  intros w (Hc & Ho & Hn & Hd). cbn. assert (Hx : next w ∉ open_ w) by (intros Hi; specialize (Hn _ Hi); lia).
  split; [|intros Hi; apply Hx, Ho; by right]. split_and!; cbn; [done| | |].
  - intros i. rewrite elem_of_union, elem_of_singleton, Ho. set_solver.
  - intros i [->%elem_of_singleton|Hi]%elem_of_union; [lia|]. specialize (Hn _ Hi). lia.
  - intros i Hi [->%elem_of_singleton|HX]%elem_of_union; [apply Hx, Ho; by left|by apply (Hd i)].
Qed.

Lemma release_hold c i X E : triple (hold c i X) (release i) (λ _, st c X) E.
Proof.
  intros w [(Hc & Ho & Hn & Hd) Hi]. cbn. split_and!; cbn; [done| | |].
  - intros j. rewrite elem_of_difference, elem_of_singleton, Ho, elem_of_union, elem_of_singleton. split; [tauto|].
    intros [Hj|Hj]; (split; [tauto|]); [|by intros ->]. intros ->. apply (Hd i Hj). set_solver.
  - intros j Hj. apply Hn. set_solver.
  - intros j Hj HX. apply (Hd j Hj). set_solver.
Qed.

Lemma set_st c X f E : (∀ i, owns (f c) i ↔ owns c i) → triple (st c X) (set_ f) (λ _, st (f c) X) E.
Proof.
  intros Hf w (Hc & Ho & Hn & Hd). cbn. split_and!; cbn; [by rewrite Hc| |done|].
  - intros i. by rewrite Ho, Hf.
  - intros i Hi. apply Hd. by apply Hf.
Qed.

(** A field takes over the connection in hand. *)
Lemma adopt c i X f E : (∀ j, owns (f c) j ↔ j = i ∨ owns c j) → triple (hold c i X) (set_ f) (λ _, st (f c) X) E.
Proof.
  intros Hf w [(Hc & Ho & Hn & Hd) Hi]. cbn. split_and!; cbn; [by rewrite Hc| |done|].
  - intros j. rewrite Ho, Hf, elem_of_union, elem_of_singleton. tauto.
  - intros j [->|Hj]%Hf; [done|]. intros HX. apply (Hd j Hj). set_solver.
Qed.

Lemma note_hold c i X s E : triple (hold c i X) (note s) (λ _, hold c i X) E.
Proof. by intros w H. Qed.
Lemma go_st c X l E : triple (st c X) (go l) (λ _, st c X) E.
Proof. by intros w H. Qed.

Lemma try_open_st c X e : triple (st c X) (try_open e) (λ i, hold c i X) (st c X).
Proof. eapply triple_bind; [apply ask_st|]. intros [|]; [apply acquire_st|by apply triple_throw]. Qed.

Lemma dialQUIC_st c X f : triple (st c X) (dialQUIC f) (λ i w, f c = false ∧ hold c i X w) (st c X).
Proof.
  eapply triple_bind; [apply get_st|]. intros b. apply triple_pure. intros ->. eapply triple_bind; [apply ask_st|].
  intros [|]; [|by apply triple_throw]. cbn [andb]. destruct (f c) eqn:Ef; cbn [negb]; [by apply triple_throw|].
  eapply triple_conseq; [..|apply acquire_st]; [done| |done]. intros i w H. by split.
Qed.

Lemma or_close_hold c i X e : triple (hold c i X) (or_close i e) (λ _, hold c i X) (st c X).
Proof.
  eapply triple_bind; [apply ask_hold|]. intros [|].
  - eapply triple_conseq; [..|apply (triple_ret (hold c i X))]; [done|by intros ? ? [_ ?]|done].
  - eapply triple_bind; [apply release_hold|]. intros ?. by apply triple_throw.
Qed.

Lemma register_hold c i X p u v : triple (hold c i X) (register i p u v) (λ _, hold c i X) (st c X).
Proof.
  eapply triple_bind; [apply or_close_hold|]. intros ?. eapply triple_bind; [apply note_hold|]. intros ?. apply or_close_hold.
Qed.

Lemma open_stream_hold c i X : triple (hold c i X) (open_stream i) (λ _, hold c i X) (st c X).
Proof. eapply triple_bind; [apply or_close_hold|]. intros ?. apply or_close_hold. Qed.

Lemma ret_hold c i X E : triple (hold c i X) (ret i) (λ j, hold c j X) E.
Proof. by intros w H. Qed.

#[local] Ltac tstep := first [apply dialQUIC_st | apply register_hold | apply open_stream_hold | apply ret_hold | apply or_close_hold].

(** ** The planes leave nothing open when they fail *)

Lemma connectDataConn_st c X u v : triple (st c X) (connectDataConn u v) (λ i w, dataCtx (cancelled c) = false ∧ hold c i X w) (st c X).
Proof.
  eapply triple_bind; [tstep|]. intros i. apply triple_pure. intros Hc.
  eapply triple_bind; [tstep|]. intros ?. eapply triple_bind; [tstep|]. intros ?. eapply triple_bind; [tstep|]. intros ?.
  intros w Hw. cbn. by split.
Qed.

Lemma connectMatchConn_st c X u v : triple (st c X) (connectMatchConn u v) (λ i, hold c i X) (st c X).
Proof.
  eapply triple_bind; [tstep|]. intros i. apply triple_pure. intros ?.
  eapply triple_bind; [tstep|]. intros ?. eapply triple_bind; [tstep|]. intros ?. tstep.
Qed.

Lemma connectGameTCPConn_st c X u v : triple (st c X) (connectGameTCPConn u v) (λ i, hold c i X) (st c X).
Proof.
  eapply triple_bind; [tstep|]. intros i. apply triple_pure. intros ?.
  eapply triple_bind; [tstep|]. intros ?. eapply triple_bind; [tstep|]. intros ?. tstep.
Qed.

Lemma connectCtrlConn_st c X u v : triple (st c X) (connectCtrlConn u v) (λ i, hold c i X) (st c X).
Proof.
  eapply triple_bind; [tstep|]. intros i. apply triple_pure. intros ?.
  eapply triple_bind; [tstep|]. intros ?. eapply triple_bind; [tstep|]. intros ?. eapply triple_bind; [tstep|]. intros ?. tstep.
Qed.

Lemma connectGameDatagramConn_st c X u v :
  triple (st c X) (connectGameDatagramConn u v) (λ i w, ∃ b, hold (set_ready b c) i X w) (st c X).
Proof.
  eapply triple_bind; [tstep|]. intros i. apply triple_pure. intros ?. eapply triple_bind; [tstep|]. intros ?.
  eapply triple_bind; [apply ask_hold|]. intros opened. eapply triple_bind with (Q := λ _, hold c i X).
  - destruct opened; [|by intros w Hw]. eapply triple_bind; [apply ask_hold|]. intros [|]; [apply ask_hold|by intros w Hw].
  - intros b. eapply triple_bind with (Q := λ _, hold (set_ready b c) i X).
    + intros w [Hst Hi]. exact (conj (set_st c ({[i]} ∪ X) (set_ready b) (λ _, True) (λ j, iff_refl (owns c j)) w Hst) Hi).
    + intros ? w Hw. by exists b.
Qed.

(** ** The stages of [Connect] *)

(** The optional planes are there exactly where their setting - what is left of it - asks for them. *)
Definition match_ok (c : client) : Prop := c_matchStream c = wants_match c ∧ (is_Some (matchConn c) ↔ wants_match c = true).
Definition split_ok (c : client) : Prop := c_gameTCPStream c = wants_split c ∧ (is_Some (gameTCPConn c) ↔ wants_split c = true).
Definition game_ok (c : client) : Prop := (is_Some (gameConn c) ↔ wants_unreliable c = true) ∧ (c_gameDatagramReady c = true → is_Some (gameConn c)).

(** The fields set after [n] stages. *)
Definition shape (n : nat) (c : client) : Prop :=
  (if (1 <=? n)%nat then is_Some (hysteriaClient c) else hysteriaClient c = None) ∧
  (if (2 <=? n)%nat then is_Some (tunDevice c) else tunDevice c = None) ∧
  (if (3 <=? n)%nat then True else sharedUDPConn c = None ∧ sharedTransport c = None) ∧
  (if (4 <=? n)%nat then is_Some (dataConn c) else dataConn c = None) ∧
  (if (5 <=? n)%nat then match_ok c else matchConn c = None ∧ c_matchStream c = false) ∧
  (if (6 <=? n)%nat then split_ok c else gameTCPConn c = None ∧ c_gameTCPStream c = false) ∧
  (if (7 <=? n)%nat then game_ok c else gameConn c = None ∧ c_gameDatagramReady c = false) ∧
  (if (8 <=? n)%nat then is_Some (ctrlConn c) else ctrlConn c = None).

Definition at_ (n : nat) (X : gset nat) (w : world) : Prop := ∃ c, shape n c ∧ st c X w.
Definition some_st (X : gset nat) (w : world) : Prop := ∃ c, st c X w.

Lemma stage {A} n X (m : M A) Q E : (∀ c, shape n c → triple (st c X) m Q E) → triple (at_ n X) m Q E.
Proof. intros H w (c & Hs & Hw). by apply (H c). Qed.

Lemma in_some {A} c X (m : M A) P Q : triple P m Q (st c X) → triple P m Q (some_st X).
Proof. intros H. eapply triple_conseq; [..|exact H]; [done|done|]. intros w Hw. by exists c. Qed.

Ltac owns_tac :=
  intros ?; unfold owns; cbn;
  repeat match goal with H : ?f ?c = None |- _ => rewrite H end;
  split; intuition congruence.

Ltac shaped := unfold shape, match_ok, split_ok, game_ok in *; cbn in *; intuition (first [done | congruence | eauto]).

(** An adopted connection takes the client to the next stage. *)
Lemma adopt_stage n c i X f :
  (∀ j, owns (f c) j ↔ j = i ∨ owns c j) → shape n (f c) → triple (hold c i X) (set_ f) (λ _, at_ n X) (some_st X).
Proof. intros Ho Hs. eapply triple_conseq; [..|by apply (adopt c i X f)]; [done| |done]. intros ? w Hw. by exists (f c). Qed.

Lemma set_stage n c X f :
  (∀ j, owns (f c) j ↔ owns c j) → shape n (f c) → triple (st c X) (set_ f) (λ _, at_ n X) (some_st X).
Proof. intros Ho Hs. eapply triple_conseq; [..|by apply (set_st c X f)]; [done| |done]. intros ? w Hw. by exists (f c). Qed.

Lemma connect_hysteria_stage k : triple (at_ 0 ∅) (connect_hysteria k) (λ _, at_ 1 ∅) (some_st ∅).
Proof.
  apply stage. intros c Hs. eapply triple_bind; [apply ask_st|]. intros resolved.
  destruct (negb resolved); [apply triple_throw; intros w Hw; by exists c|]. destruct (negb (obfs_ok k)); [apply triple_throw; intros w Hw; by exists c|].
  case_bool_decide; [apply triple_throw; intros w Hw; by exists c|].
  eapply triple_bind; [eapply in_some, try_open_st|]. intros h. apply adopt_stage; [unfold shape in Hs; cbn in Hs; destruct_and! Hs; owns_tac|shaped].
Qed.

Lemma on_settings_owns f c j : owns (on_settings f c) j ↔ owns c j.
Proof. done. Qed.

Lemma note_address_stage X : triple (at_ 1 X) note_address (λ _, at_ 1 X) (some_st X).
Proof. apply stage. intros c Hs. apply set_stage; destruct (settings c); done. Qed.

Lemma open_tun_stage X : triple (at_ 1 X) open_tun (λ _, at_ 2 X) (some_st X).
Proof.
  apply stage. intros c Hs. eapply triple_bind; [eapply in_some, try_open_st|]. intros t.
  apply adopt_stage; [unfold shape in Hs; cbn in Hs; destruct_and! Hs; owns_tac|shaped].
Qed.

Lemma open_transport_stage k X : triple (at_ 2 X) (open_transport k) (λ _, at_ 3 X) (some_st X).
Proof.
  apply stage. intros c Hs. unfold open_transport. destruct (k_obfsEnabled k).
  - eapply triple_bind; [eapply in_some, try_open_st|]. intros sock. eapply triple_bind; [eapply in_some, or_close_hold|]. intros ?.
    intros w [H Hi]. pose proof H as (Hcw & _). pose proof (acquire_st c ({[sock]} ∪ X) (λ _, True) w H) as Ha. cbn in Ha |- *. destruct Ha as [(Hc & Ho & Hn & Hd) Hi'].
    eexists. split; [|split_and!; cbn; [reflexivity| |exact Hn|]].
    + rewrite Hcw. shaped.
    + intros j. rewrite Ho, Hcw. unfold shape in Hs. cbn in Hs. destruct_and! Hs. unfold owns. cbn. rewrite H3, H5. set_solver.
    + intros j Hj HX. rewrite Hcw in Hj. unfold shape in Hs. cbn in Hs. destruct_and! Hs. unfold owns in Hj. cbn in Hj. 
      destruct Hj as [?|[?|[E|[E|?]]]]; [..|injection E as <-; done|injection E as <-; set_solver|];
        (apply (Hd j); [unfold owns; tauto|set_solver]).
  - intros w Hw. exists c. split; [|done]. shaped.
Qed.

Definition dhcp_extra (o : option nat) : gset nat := match o with Some i => {[i]} | None => ∅ end.

Lemma settings_shape n c s : (n < 5)%nat → shape n c → shape n (c <| settings := s |>).
Proof. intros Hn Hs. do 5 (destruct n as [|n]; [shaped|]). lia. Qed.

Lemma negotiate_stage k answer :
  triple (at_ 1 ∅) (negotiate k answer) (λ o w, (∀ i, o = Some i → ∃ c, hold c i ∅ w ∧ shape 1 c) ∧ (o = None → at_ 1 ∅ w)) (some_st ∅).
Proof.
  apply stage. intros c Hs. unfold negotiate. destruct (k_useDHCP k).
  - eapply triple_bind; [eapply in_some, try_open_st|]. intros conn.
    eapply triple_bind with (Q := λ _ w, ∃ c, hold c conn ∅ w ∧ shape 1 c).
    + eapply (triple_catch _ _ (λ _ w, ∃ c, hold c conn ∅ w ∧ shape 1 c) (hold c conn ∅)).
      * eapply triple_bind; [apply ask_hold|]. intros [|]; cbn [negb]; [|by apply triple_throw].
        eapply triple_bind; [apply ask_hold|]. intros [|]; cbn [negb]; [|by apply triple_throw].
        destruct (read_answer _ _) as [s|]; [|by apply triple_throw].
        intros w [H Hi]. exists (put_settings (λ _, s) c). split; [|by apply settings_shape; [lia|]].
        split; [|done]. exact (set_st c ({[conn]} ∪ ∅) (put_settings (λ _, s)) (λ _, True) (λ j, iff_refl (owns c j)) w H).
      * intros []. by intros w Hw.
      * intros e. eapply triple_bind; [apply release_hold|]. intros ?. apply triple_throw. intros w Hw. by exists c.
    + intros ? w Hw. split; [|done]. by intros i [= <-].
  - destruct (negb _); [apply triple_throw; intros w Hw; by exists c|].
    eapply triple_bind; [apply (set_stage 1 c ∅ (put_settings (static_settings k))); [done|by apply settings_shape; [lia|]]|].
    intros ? w Hw. split; [done|]. by intros _.
Qed.

Lemma open_data_stage X u v : triple (at_ 3 X) (open_data u v) (λ _, at_ 4 X) (some_st X).
Proof.
  apply stage. intros c Hs. eapply triple_bind; [eapply in_some, connectDataConn_st|]. intros conn. apply triple_pure. intros _.
  apply adopt_stage; [unfold shape in Hs; cbn in Hs; destruct_and! Hs; owns_tac|shaped].
Qed.

Lemma open_ctrl_stage X u v : triple (at_ 7 X) (open_ctrl u v) (λ _, at_ 8 X) (some_st X).
Proof.
  apply stage. intros c Hs. eapply triple_bind; [eapply in_some, connectCtrlConn_st|]. intros conn.
  apply adopt_stage; [unfold shape in Hs; cbn in Hs; destruct_and! Hs; owns_tac|].
  unfold shape, match_ok, split_ok, game_ok, wants_match, wants_split, wants_unreliable in *. cbn in *. destruct_and! Hs. split_and!; try done.
Qed.

Ltac planes_open := unfold shape, match_ok, split_ok, game_ok, wants_match, wants_split, wants_unreliable in *; cbn in *.
Ltac planes_done :=
  split_and!; try done; try (match goal with |- _ ↔ _ => split end); first [done | intros [? ?]; congruence | intros; by eexists | intros; congruence].

Lemma open_match_stage X u v : triple (at_ 4 X) (open_match u v) (λ _, at_ 5 X) (some_st X).
Proof.
  apply stage. intros c Hs. eapply triple_bind; [apply get_st|]. intros b. apply triple_pure. intros ->. destruct (wants_match c) eqn:Ew.
  - eapply triple_catch; [apply connectMatchConn_st| |].
    + intros conn. apply adopt_stage; planes_open; destruct_and! Hs; [owns_tac|]. rewrite Ew. planes_done.
    + intros e. apply set_stage; [done|]. planes_open. destruct_and! Hs. destruct (settings c); cbn in *; planes_done.
  - intros w Hw. exists c. split; [|done]. planes_open. destruct_and! Hs. rewrite Ew. planes_done.
Qed.

Lemma open_gameTCP_stage X u v : triple (at_ 5 X) (open_gameTCP u v) (λ _, at_ 6 X) (some_st X).
Proof.
  apply stage. intros c Hs. eapply triple_bind; [apply get_st|]. intros b. apply triple_pure. intros ->. destruct (wants_split c) eqn:Ew.
  - eapply triple_catch; [apply connectGameTCPConn_st| |].
    + intros conn. apply adopt_stage; planes_open; destruct_and! Hs; [owns_tac|]. rewrite Ew. planes_done.
    + intros e. apply set_stage; [done|]. planes_open. destruct_and! Hs. destruct (settings c); cbn in *; planes_done.
  - intros w Hw. exists c. split; [|done]. planes_open. destruct_and! Hs. rewrite Ew. planes_done.
Qed.

Lemma open_game_stage X u v : triple (at_ 6 X) (open_game u v) (λ _, at_ 7 X) (some_st X).
Proof.
  apply stage. intros c Hs. eapply triple_bind; [apply get_st|]. intros b. apply triple_pure. intros ->. destruct (wants_unreliable c) eqn:Ew.
  - eapply triple_catch; [apply connectGameDatagramConn_st| |].
    + intros conn. apply triple_ex. intros b. apply adopt_stage; planes_open; destruct_and! Hs; [owns_tac|]. rewrite Ew. planes_done.
    + intros e. apply set_stage; [done|]. planes_open. destruct_and! Hs. destruct (settings c); cbn in *; planes_done.
  - intros w Hw. exists c. split; [|done]. planes_open. destruct_and! Hs. rewrite Ew. planes_done.
Qed.

Lemma start_loops_stage k X : triple (at_ 8 X) (start_loops k) (λ _, at_ 8 X) (some_st X).
Proof.
  apply stage. intros c Hs. set (c' := start_punch k c).
  eapply triple_bind; [apply (set_st c X (start_punch k) (some_st X)); done|]. intros ?.
  eapply triple_bind; [eapply (go_st c')|]. intros ?.
  do 3 (eapply triple_bind; [eapply triple_bind; [eapply (get_st c')|]; intros ?; apply triple_pure; intros ?; eapply (go_st c')|]; intros ?).
  eapply triple_conseq; [..|apply (go_st c')]; [done| |done]. intros ? w Hw. exists c'. by split.
Qed.

Lemma get_at {A} n X (f : client → A) : triple (at_ n X) (get f) (λ _, at_ n X) (some_st X).
Proof. by intros w Hw. Qed.

Lemma connect_planes_stage k X : triple (at_ 1 X) (connect_planes k) (λ _, at_ 8 X) (some_st X).
Proof.
  eapply triple_bind; [apply note_address_stage|]. intros ?. eapply triple_bind; [apply open_tun_stage|]. intros ?.
  eapply triple_bind; [apply open_transport_stage|]. intros ?. eapply triple_bind; [apply get_at|]. intros vip.
  eapply triple_bind; [apply open_data_stage|]. intros ?. eapply triple_bind; [apply open_match_stage|]. intros ?.
  eapply triple_bind; [apply open_gameTCP_stage|]. intros ?. eapply triple_bind; [apply open_game_stage|]. intros ?.
  eapply triple_bind; [apply open_ctrl_stage|]. intros ?. apply start_loops_stage.
Qed.

(** ** Releasing everything *)

Lemma release_opt_eq o w : release_opt o w = (w <| open_ := open_ w ∖ dhcp_extra o |>, inl tt).
Proof. destruct o as [i|]; [done|]. cbn. f_equal. destruct w. cbn. unfold open_, ret. cbn. f_equal. by rewrite difference_empty_L. Qed.

Definition release_fields (c : client) : M unit :=
  release_opt (dataConn c) ;;; release_opt (matchConn c) ;;; release_opt (gameTCPConn c) ;;; release_opt (gameConn c) ;;; release_opt (ctrlConn c) ;;;
  release_opt (sharedTransport c) ;;; release_opt (sharedUDPConn c) ;;; release_opt (tunDevice c) ;;; release_opt (hysteriaClient c).

Lemma extra_owns o i : i ∈ dhcp_extra o ↔ o = Some i.
Proof. destruct o as [j|]; cbn; [rewrite elem_of_singleton; split; [by intros ->|by intros [= ->]]|set_solver]. Qed.

Lemma release_fields_all c w :
  ∃ o, release_fields c w = (w <| open_ := o |>, inl tt) ∧ ∀ i, i ∈ o ↔ i ∈ open_ w ∧ ¬ owns c i.
Proof.
  unfold release_fields, bind. rewrite !release_opt_eq. cbn. eexists. split; [reflexivity|].
  intros i. rewrite !elem_of_difference, !extra_owns. unfold owns. tauto.
Qed.

(** No field holds anything any more. *)
Definition nothing_held (c : client) : Prop :=
  hysteriaClient c = None ∧ tunDevice c = None ∧ sharedUDPConn c = None ∧ sharedTransport c = None ∧ dataConn c = None ∧ matchConn c = None ∧
  gameTCPConn c = None ∧ gameConn c = None ∧ ctrlConn c = None.

Lemma cleanup_all w :
  some_st ∅ w →
  let w' := fst (cleanupPartial w) in
  open_ w' = ∅ ∧ nothing_held (cl w') ∧ cancelled (cl w') = all_cancelled ∧ connected (cl w') = false ∧ punchMgr (cl w') = false.
Proof.
  intros (c & Hc & Ho & _). set (w1 := w <| cl := (cl w) <| punchMgr := false |> |>).
  destruct (release_fields_all (cl w1) w1) as (o & Hr & Hio).
  assert (He : cleanupPartial w = ((w1 <| open_ := o |>) <| cl := mkClient None false None None None None None None None None all_cancelled
      (settings (cl w1)) (assignedIP (cl w1)) (subnetMask (cl w1)) (c_matchStream (cl w1)) (c_gameTCPStream (cl w1)) (c_gameDatagramReady (cl w1))
      (punchMgr (cl w1)) (closed (cl w1)) |>, inl tt)).
  { change (cleanupPartial w) with (match release_fields (cl w1) w1 with
      | (w, inl _) => set_ (λ c, mkClient None false None None None None None None None None all_cancelled (settings c) (assignedIP c) (subnetMask c)
               (c_matchStream c) (c_gameTCPStream c) (c_gameDatagramReady c) (punchMgr c) (closed c)) w
      | (w, inr e) => (w, inr e) end). by rewrite Hr. }
  rewrite He. cbn. split_and!; try done. apply leibniz_equiv. intros i. rewrite Hio. cbn.
  split; [|set_solver]. intros [[?|?]%Ho Hn]; [destruct Hn; by rewrite Hc|set_solver].
Qed.

Lemma released c o w : st c (dhcp_extra o) w → st c ∅ (w <| open_ := open_ w ∖ dhcp_extra o |>).
Proof.
  intros (Hc & Ho & Hn & Hd). split_and!; cbn; [done| | |set_solver].
  - intros i. rewrite elem_of_difference, Ho. split; [set_solver|]. intros [Hi|Hi]; [|set_solver]. split; [by left|by apply Hd].
  - intros i [Hi _]%elem_of_difference. by apply Hn.
Qed.

Lemma shape_owns_none c i : shape 0 c → ¬ owns c i.
Proof. unfold shape, owns. cbn. intros Hs. destruct_and! Hs. intuition congruence. Qed.

Lemma fresh_at w : shape 0 (cl w) → open_ w = ∅ → at_ 0 ∅ w.
Proof.
  intros Hs Ho. exists (cl w). split; [done|]. split; [done|]. rewrite Ho. split; [|split].
  - intros i. pose proof (shape_owns_none (cl w) i Hs). set_solver.
  - set_solver.
  - intros i Hi. by destruct (shape_owns_none (cl w) i Hs).
Qed.

Lemma connect_body_stage k answer : triple (at_ 0 ∅) (connect_body k answer) (λ _, at_ 8 ∅) (some_st ∅).
Proof.
  eapply triple_bind; [apply connect_hysteria_stage|]. intros ?. eapply triple_bind; [apply negotiate_stage|]. intros dhcp.
  eapply triple_bind; [|intros ?; apply get_at].
  eapply (triple_catch _ _ (λ _, at_ 8 (dhcp_extra dhcp)) (some_st (dhcp_extra dhcp))).
  - eapply triple_conseq; [..|apply (connect_planes_stage k (dhcp_extra dhcp))]; [|done|done]. intros w [Hs Hn]. destruct dhcp as [i|]; [|by apply Hn].
    destruct (Hs i eq_refl) as (c & [Hc _] & Hsh). rewrite union_empty_r_L in Hc. by exists c.
  - intros ip w (c & Hs & Hc). unfold bind. rewrite release_opt_eq. exists c. split; [done|]. by apply released.
  - intros e w (c & Hc). unfold bind. rewrite release_opt_eq. exists c. by apply released.
Qed.

(** C8: [Connect] never leaks: whichever of its steps fails - name resolution, the
    log-in, the DHCP exchange or its answer, the TUN device, the shared socket, the
    opening of any of the planes, the registration or a stream of one - every
    connection, socket and device opened so far has been closed when the error is
    returned, no field of the client holds one, and all six contexts are cancelled.
    Where it returns an address, what is open is exactly what the client's fields
    hold (the DHCP connection is closed), the login, TUN, data and control
    connections are among it, and each optional plane is there exactly where the
    settings it was left with ask for it. *)
Theorem failed_connect_leaves_nothing k answer w :
  shape 0 (cl w) → open_ w = ∅ →
  match Connect k answer w with
  | (w', inr _) =>
      open_ w' = ∅ ∧ nothing_held (cl w') ∧ cancelled (cl w') = all_cancelled ∧ connected (cl w') = false ∧ punchMgr (cl w') = false
  | (w', inl _) =>
      let c := cl w' in
      (∀ i, i ∈ open_ w' ↔ owns c i) ∧ is_Some (hysteriaClient c) ∧ is_Some (tunDevice c) ∧ is_Some (dataConn c) ∧ is_Some (ctrlConn c) ∧
      match_ok c ∧ split_ok c ∧ game_ok c
  end.
Proof.
  intros Hs Ho. unfold Connect. pose proof (connect_body_stage k answer w) as H. destruct (connect_body k answer w) as [w' [ip|e]].
  - destruct H as (c & Hs' & <- & Hop & _); [by apply fresh_at|]. unfold shape in Hs'. cbn in Hs'. destruct_and! Hs'.
    cbn. split_and!; try done. intros i. rewrite Hop. set_solver.
  - by apply cleanup_all, H, fresh_at.
Qed.

Lemma failed_connect_leaves_nothing_witness :
  let l := repeat true 20 ++ [false] in
  match Connect demo_cfg demo_answer (fresh_world l) with
  | (w', inr _) =>
      open_ w' = ∅ ∧ nothing_held (cl w') ∧ cancelled (cl w') = all_cancelled ∧ connected (cl w') = false ∧ punchMgr (cl w') = false
  | (w', inl _) =>
      let c := cl w' in
      (∀ i, i ∈ open_ w' ↔ owns c i) ∧ is_Some (hysteriaClient c) ∧ is_Some (tunDevice c) ∧ is_Some (dataConn c) ∧ is_Some (ctrlConn c) ∧
      match_ok c ∧ split_ok c ∧ game_ok c
  end.
Proof. apply (failed_connect_leaves_nothing demo_cfg demo_answer (fresh_world (repeat true 20 ++ [false]))); [vm_compute; auto 20|reflexivity]. Defined.

(** ** Closing *)

(** What [Close] does to the client's flags. *)
Definition closing (c : client) : client :=
  ((c <| connected := false |>) <| cancelled := all_cancelled |>) <| punchMgr := false |> <| closed := true |>.

Lemma close_all w :
  closed (cl w) = false → ∃ o, Close w = ((w <| cl := closing (cl w) |>) <| open_ := o |>, inl tt) ∧ ∀ i, i ∈ o ↔ i ∈ open_ w ∧ ¬ owns (cl w) i.
Proof.
  intros Hc. destruct (release_fields_all (cl w) (w <| cl := closing (cl w) |>)) as (o & Hr & Ho). exists o. split; [|done].
  rewrite <- Hr. unfold Close, bind at 1, get. by rewrite Hc.
Qed.

Lemma close_again w : closed (cl w) = true → Close w = (w, inl tt).
Proof. intros Hc. unfold Close, bind, get. by rewrite Hc. Qed.

(** Up to its end [Connect] neither cancels a context nor closes the client. *)
Definition flags (b : bool) (d : contexts) (w : world) : Prop := closed (cl w) = b ∧ cancelled (cl w) = d.
Definition keeps {A} (m : M A) : Prop := ∀ b d, triple (flags b d) m (λ _, flags b d) (flags b d).
Definition inert (f : client → client) : Prop := ∀ c, closed (f c) = closed c ∧ cancelled (f c) = cancelled c.

Lemma keeps_bind {A B} (m : M A) (k : A → M B) : keeps m → (∀ a, keeps (k a)) → keeps (bind m k).
Proof. intros Hm Hk b d. eapply triple_bind; [apply Hm|]. intros a. apply Hk. Qed.
Lemma keeps_catch {A} (m : M A) k : keeps m → (∀ r, keeps (k r)) → keeps (catch m k).
Proof. intros Hm Hk b d. eapply triple_catch; [apply Hm|..]; intros; apply Hk. Qed.
Lemma keeps_set f : inert f → keeps (set_ f).
Proof. intros Hf b d w [H1 H2]. unfold flags. cbn. destruct (Hf (cl w)) as [-> ->]. done. Qed.
Lemma keeps_ask : keeps ask.
Proof. intros b d w Hw. unfold ask. by destruct (outcomes w). Qed.
Lemma keeps_same {A} (m : M A) : (∀ w, cl (m w).1 = cl w) → keeps m.
Proof. intros Hm b d w [H1 H2]. specialize (Hm w). destruct (m w) as [w' [a|e]]; cbn in Hm; unfold flags; by rewrite Hm. Qed.
Lemma keeps_release_opt o : keeps (release_opt o).
Proof. apply keeps_same. intros w. by rewrite release_opt_eq. Qed.

#[local] Ltac keep1 :=
  first
    [ apply keeps_ask | apply keeps_release_opt
    | apply keeps_set; intros ?; unfold start_punch, put_settings, on_settings, set_ready; cbn; first [done | case_match; done]
    | apply keeps_bind; [|intros ?] | apply keeps_catch; [|intros ?]
    | apply keeps_same; intros ?; done
    | match goal with |- keeps (if ?b then _ else _) => destruct b | |- keeps (match ?o with _ => _ end) => destruct o end ].
#[local] Ltac keep := repeat keep1.

Lemma connect_hysteria_keeps k : keeps (connect_hysteria k).
Proof. unfold connect_hysteria, try_open. keep. Qed.
Lemma negotiate_keeps k answer : keeps (negotiate k answer).
Proof. unfold negotiate, try_open. keep. Qed.
Lemma before_planes_keeps k : keeps note_address ∧ keeps open_tun ∧ keeps (open_transport k).
Proof. unfold note_address, open_tun, open_transport, or_close, try_open. split_and!; keep. Qed.
Lemma planes_keep u v : keeps (open_data u v) ∧ keeps (open_match u v) ∧ keeps (open_gameTCP u v) ∧ keeps (open_game u v) ∧ keeps (open_ctrl u v).
Proof.
  unfold open_data, open_match, open_gameTCP, open_game, open_ctrl, connectDataConn, connectMatchConn, connectGameTCPConn, connectGameDatagramConn,
    connectCtrlConn, register, open_stream, or_close, dialQUIC. split_and!; keep.
Qed.
Lemma start_loops_keeps k : keeps (start_loops k).
Proof. unfold start_loops. keep. Qed.

Lemma connect_planes_keeps k : keeps (connect_planes k).
Proof.
  unfold connect_planes. do 9 (apply keeps_bind; [first [apply (before_planes_keeps k) | apply planes_keep | by apply keeps_same]|intros ?]).
  apply start_loops_keeps.
Qed.

Lemma connect_body_keeps k answer : keeps (connect_body k answer).
Proof.
  apply keeps_bind; [apply connect_hysteria_keeps|intros ?]. apply keeps_bind; [apply negotiate_keeps|intros dhcp].
  apply keeps_bind; [|intros ?; by apply keeps_same]. apply keeps_catch; [apply connect_planes_keeps|]. intros r. keep.
Qed.

(** Closing a connected client closes everything the connection opened - nothing
    [Connect] acquired is left open - and cancels all six contexts; closing it again
    does nothing. *)
Theorem close_releases_all k answer w w1 ip w2 r :
  shape 0 (cl w) → open_ w = ∅ → closed (cl w) = false →
  Connect k answer w = (w1, inl ip) → Close w1 = (w2, r) →
  open_ w2 = ∅ ∧ cancelled (cl w2) = all_cancelled ∧ connected (cl w2) = false ∧ punchMgr (cl w2) = false ∧ Close w2 = (w2, inl tt).
Proof.
  intros Hs Ho Hcl H1 H2. pose proof (connect_body_stage k answer w (fresh_at w Hs Ho)) as H. unfold Connect in H1.
  pose proof (connect_body_keeps k answer (closed (cl w)) (cancelled (cl w)) w (conj eq_refl eq_refl)) as Hf.
  destruct (connect_body k answer w) as [w' [ip'|e]]; [|discriminate]. injection H1 as -> ->. destruct H as (c & _ & <- & Hop & _), Hf as [Hf _].
  destruct (close_all w1) as (o & Hc & Hio); [congruence|]. rewrite Hc in H2. injection H2 as <- <-. cbn. split_and!; try done.
  apply leibniz_equiv. intros i. rewrite Hio. set_solver.
Qed.

Lemma close_releases_all_witness :
  let w := fresh_world (repeat true 60) in
  let w1 := (Connect demo_cfg demo_answer w).1 in
  let w2 := (Close w1).1 in
  open_ w2 = ∅ ∧ cancelled (cl w2) = all_cancelled ∧ connected (cl w2) = false ∧ punchMgr (cl w2) = false ∧ Close w2 = (w2, inl tt).
Proof.
  intros w w1 w2.
  refine (close_releases_all demo_cfg demo_answer w w1 "10.0.0.2" w2 (inl tt) _ _ _ _ _); [vm_compute; auto 20|reflexivity|reflexivity|vm_compute; reflexivity|vm_compute; reflexivity].
Defined.

(** Once the data plane's context is cancelled - and clean-up cancels all six for
    good - no dial of that plane succeeds, and [Connect] on that client never
    returns an address again. *)
Lemma open_data_dead u v b d : dataCtx d = true → triple (flags b d) (open_data u v) (λ _ _, False) (λ _, True).
Proof.
  intros Hd w [_ Hw]. unfold open_data, connectDataConn, dialQUIC, bind, get. rewrite Hw, Hd.
  unfold ask. destruct (outcomes w) as [|[|] l]; done.
Qed.

Lemma triple_dead {A B} P (m : M A) (k : A → M B) Q E : triple P m (λ _ _, False) E → triple P (bind m k) Q E.
Proof. intros H. eapply triple_bind; [exact H|]. by intros a w Hw. Qed.

Lemma keeps_then {A B} (m : M A) (k : A → M B) b d Q :
  keeps m → (∀ a, triple (flags b d) (k a) Q (λ _, True)) → triple (flags b d) (bind m k) Q (λ _, True).
Proof. intros Hm Hk. eapply triple_bind; [|exact Hk]. eapply triple_conseq; [..|apply Hm]; done. Qed.

Lemma connect_body_dead k answer b d : dataCtx d = true → triple (flags b d) (connect_body k answer) (λ _ _, False) (λ _, True).
Proof.
  intros Hd. apply keeps_then; [apply connect_hysteria_keeps|intros ?]. apply keeps_then; [apply negotiate_keeps|intros dhcp].
  apply triple_dead. eapply triple_catch with (Q := λ _ _, False) (E := λ _, True).
  - unfold connect_planes. do 4 (apply keeps_then; [first [apply (before_planes_keeps k) | by apply keeps_same]|intros ?]).
    by apply triple_dead, open_data_dead.
  - by intros ? w Hw.
  - intros e w _. unfold bind. by rewrite release_opt_eq.
Qed.

(** A client whose [Connect] has failed once can never be connected again: the
    clean-up cancels the contexts the client was made with, every later attempt on
    the same client ends with an error, whatever the network does. *)
Theorem retry_never_connects k answer w w1 e k' answer' l :
  shape 0 (cl w) → open_ w = ∅ → Connect k answer w = (w1, inr e) →
  ∃ e', (Connect k' answer' (w1 <| outcomes := l |>)).2 = inr e'.
Proof.
  intros Hs Ho H1. pose proof (connect_body_stage k answer w (fresh_at w Hs Ho)) as H. unfold Connect in H1 |- *.
  destruct (connect_body k answer w) as [w' [ip'|e']]; [discriminate|]. injection H1 as <- <-.
  destruct (cleanup_all w' H) as (_ & _ & Hc & _). destruct (cleanupPartial w') as [w2 u]. cbn [fst] in *.
  match goal with |- context [connect_body k' answer' ?x] => set (w3 := x) end.
  pose proof (connect_body_dead k' answer' _ all_cancelled eq_refl w3 (conj eq_refl Hc)) as Hx.
  destruct (connect_body k' answer' w3) as [w4 [ip|e]]; [by cbn in Hx|]. by exists e.
Qed.

Lemma retry_never_connects_witness :
  let w1 := (Connect demo_cfg demo_answer (fresh_world [true; false])).1 in
  ∃ e', (Connect demo_cfg demo_answer (w1 <| outcomes := repeat true 60 |>)).2 = inr e'.
Proof.
  intros w1. apply (retry_never_connects demo_cfg demo_answer (fresh_world [true; false]) w1 EHysteria); [vm_compute; auto 20|reflexivity|vm_compute; reflexivity].
Defined.
