(* ===== verification/AppLifecycle.v ===== *)
(** * The life of a connection in the desktop application
    ([vpn-tool/app.go]: [ConnectClient], the health pusher, [tryReconnect],
    [autoDisconnect], [Stop], and the import of configuration files)

    Four kinds of goroutine share the application's fields: the calls of the user
    interface, the health pusher, the rounds of reconnection, the watchdog of a
    connection. The model takes one step per critical section or blocking call of
    each, and lets any number of them run interleaved in any way. A call of [Connect]
    ([vpn-tool/backend/quic/client.go]) is cut where a [Close] that runs beside it
    tells the difference: up to the last step that fails on a cancelled context, and
    up to the assignment of the control connection to its field. *)

From Stdlib Require Import ZArith Lia Bool Ascii String.
From stdpp Require Import base list gmap sets strings relations.
From S2P Require Import Prelude.
From S2P Require Import GoText.
From S2P Require Import GoStrings.

Open Scope list_scope.

(** ** The shared state *)

(** A configuration: which one, and whether it obfuscates the data planes, which then share a transport. *)
Record ClientConfig := mkConfig { cfg_no : nat; ObfsEnabled : bool }.

(** How far the [Connect] of a client has come: it is opening one thing after another,
    every step failing once the contexts are cancelled; the control connection, the
    last one, is there, in a variable; it is in its field, with everything else; or
    [Connect] has failed and has closed what it had opened. *)
Inductive stage := Dialling | ControlUp | Assigned | Undone.
#[export] Instance stage_eq_dec : EqDecision stage.
Proof. solve_decision. Defined.

(** A client: what it was made for, its [Connect], whether [Close] has run, which it
    does once, and whether its control connection was out of reach of that. *)
Record conn := mkConn { k_cfg : ClientConfig; k_stage : stage; shut : bool; stray : bool }.
#[export] Instance conn_eta : Eta conn := λ c, mkConn (k_cfg c) (k_stage c) (shut c) (stray c).

(** [Connect] has succeeded, and [Close] has not run. *)
Definition live (c : conn) : bool := bool_decide (k_stage c = Assigned) && negb (shut c).
Definition unfinished (c : conn) : bool := match k_stage c with Dialling | ControlUp => true | Assigned | Undone => false end.
(** Something of it is open, or may be. *)
Definition up (c : conn) : bool := unfinished c || live c || stray c.

(** The fields of [App]; channels and clients are named by numbers. [chans_closed]
    and [panicked] are the runtime's: a channel closed twice is a panic. [lost] is
    for the theorems: clients that were overwritten without having been closed. *)
Record app := mkApp {
  quicClient : option nat;
  pendingClient : option nat;
  healthStop : option nat;
  lastConfig : ClientConfig;
  reconnecting : bool;
  reconnectExhausted : bool;
  reconnectStop : option nat;
  reconnectEpoch : nat;
  tray : bool;
  conns : gmap nat conn;
  next_chan : nat;
  chans_closed : gset nat;
  panicked : bool;
  lost : list nat;
}.
#[export] Instance app_eta : Eta app := λ a,
  mkApp (quicClient a) (pendingClient a) (healthStop a) (lastConfig a) (reconnecting a) (reconnectExhausted a) (reconnectStop a)
    (reconnectEpoch a) (tray a) (conns a) (next_chan a) (chans_closed a) (panicked a) (lost a).

Definition NewApp : app := mkApp None None None (mkConfig 0 false) false false None 0 false ∅ 0 ∅ false [].

(** [close] of a channel, [make] of one. *)
Definition close_chan (s : nat) (a : app) : app :=
  if bool_decide (s ∈ chans_closed a) then a <| panicked := true |> else a <| chans_closed := {[s]} ∪ chans_closed a |>.
Definition close_opt (o : option nat) (a : app) : app := match o with Some s => close_chan s a | None => a end.
Definition make_chan (a : app) : nat * app := (next_chan a, a <| next_chan := S (next_chan a) |>).

(** [Close] of a client, which runs once. What [Connect] has not put into a field by
    then it does not close; but the contexts are cancelled. *)
Definition set_shut (c : conn) : conn := c <| shut := true |>.
Definition close_conn (i : nat) (a : app) : app := a <| conns := alter set_shut i (conns a) |>.
Definition close_conn_opt (o : option nat) (a : app) : app := match o with Some i => close_conn i a | None => a end.

(** [NewHysteria2Client] for a configuration. *)
Definition new_conn (cfg : ClientConfig) (a : app) : nat * app :=
  let i := fresh (dom (conns a)) in (i, a <| conns := <[i := mkConn cfg Dialling false false]> (conns a) |>).

Definition is_shut (i : nat) (a : app) : bool := match conns a !! i with Some c => shut c | None => false end.

(** The control connection is there: its last stream was opened, so the context was
    not yet cancelled. *)
Definition set_control (c : conn) : conn := c <| k_stage := ControlUp |>.
Definition control_up (i : nat) (a : app) : app := a <| conns := alter set_control i (conns a) |>.

(** It is put into its field, and [Connect] succeeds. Where [Close] has run meanwhile, the control
    connection is still up, unless it was on the shared transport, which was closed. *)
Definition set_assigned (c : conn) : conn :=
  c <| k_stage := Assigned |> <| stray := shut c && negb (ObfsEnabled (k_cfg c)) |>.
Definition assign (i : nat) (a : app) : app := a <| conns := alter set_assigned i (conns a) |>.

(** [Connect] fails, and [cleanupPartial] closes what is there. *)
Definition set_undone (c : conn) : conn := c <| k_stage := Undone |>.
Definition undo (i : nat) (a : app) : app := a <| conns := alter set_undone i (conns a) |>.

(** [a.quicClient = cli]. *)
Definition publish (i : nat) (a : app) : app :=
  match quicClient a with
  | Some j => (a <| lost := j :: lost a |>) <| quicClient := Some i |>
  | None => a <| quicClient := Some i |>
  end.
Definition take_client (a : app) : option nat * app := (quicClient a, a <| quicClient := None |>).

(** ** The critical sections *)

(** [stopHealthPusher]. *)
Definition stopHealthPusher (a : app) : app := (close_opt (healthStop a) a) <| healthStop := None |>.

(** [abortReconnectLocked]. *)
Definition abortReconnectLocked (a : app) : app :=
  (close_opt (reconnectStop a) (a <| reconnectExhausted := true |>)) <| reconnectStop := None |>.

(** [ConnectClient] resets the reconnection. *)
Definition reset_reconnect (a : app) : app :=
  ((((close_opt (reconnectStop a) a) <| reconnectStop := None |>) <| reconnectEpoch := S (reconnectEpoch a) |>) <| reconnecting := false |>)
    <| reconnectExhausted := false |>.

(** The start of [tryReconnect]: nothing where a round is under way or the rounds are over. *)
Definition begin_round (a : app) : option (nat * nat * app) :=
  if reconnecting a || reconnectExhausted a then None
  else let '(s, a) := make_chan a in Some (s, reconnectEpoch a, (a <| reconnecting := true |>) <| reconnectStop := Some s |>).

(** The deferred end of a round. *)
Definition end_round (s : nat) (a : app) : app :=
  let a := a <| reconnecting := false |> in
  if bool_decide (reconnectStop a = Some s) then a <| reconnectStop := None |> else a.

Definition stale (ep : nat) (a : app) : bool := negb (reconnectEpoch a =? ep)%nat || reconnectExhausted a.

Definition reconnectAttempts : nat := 3.

(** ** The goroutines *)

(** A round of reconnection: its channel, epoch, configuration, and the attempt it is at. *)
Record round := mkRound { r_stop : nat; r_epoch : nat; r_cfg : ClientConfig; r_attempt : nat }.
#[export] Instance round_eta : Eta round := λ r, mkRound (r_stop r) (r_epoch r) (r_cfg r) (r_attempt r).

(** Where a goroutine stands: before which section or call, with its locals. *)
Inductive pc :=
  (* ConnectClient *)
  | ConnConfig (cfg : ClientConfig) | ConnReset (cfg : ClientConfig) | ConnDropOld (cfg : ClientConfig) | ConnStopHealth (cfg : ClientConfig)
  | ConnPending (cfg : ClientConfig)
  | Connecting (cli : nat) (armed : bool) | Assigning (cli : nat) (armed : bool) | ConnUnpend (cli : nat) (ok : bool) | ConnFailed (cli : nat) | ConnPublish (cli : nat) | ConnTray
  | StopOldPusher | StartPusher
  (* the watchdog of a connection, or a client that was kicked: it closes the client *)
  | Watchdog (cli : nat)
  (* the health pusher *)
  | Pushing (s : nat) | Looking (s cli : nat) | Kicked | TryReconnect (s : nat) | TryConfig (s ch ep : nat)
  (* autoDisconnect, and the round that ends after it *)
  | AutoHealth (k : option nat) | AutoAbort (k : option nat) | AutoTake (k : option nat) | AutoClose (cli : option nat) (k : option nat) | AutoTray (k : option nat)
  (* a round of reconnection *)
  | RoundStale (r : round) | RoundTake (r : round) | RoundClose (r : round) (old : option nat) | RoundWait (r : round) | RoundStale2 (r : round)
  | RoundNew (r : round) | RoundConnect (r : round) (cli : nat) | RoundAssign (r : round) (cli : nat) | RoundFailed (r : round) (cli : nat) | RoundCheck (r : round) (cli : nat)
  | RoundValid (r : round) (cli : nat) | RoundDrop (r : round) (cli : nat) | RoundPublish (r : round) (cli : nat) | RoundTray (r : round)
  | RoundExhausted (r : round) | RoundDone (s : nat)
  (* Stop *)
  | StopHealth | StopAbort | StopTake | StopClose (cli pending : option nat) | StopTray.

(** What the environment decides: whether the last of the connections comes up, how a [Connect] ends and whether the watchdog's
    timer goes off before, what a snapshot of the health says, whether a [select]
    with more than one case ready takes the first. *)
Inductive health := HKicked | HReconnecting | HOffline | HOther.
Inductive choice := Go | ControlDials | ConnectEnds (ok : bool) | TimerFires | Snapshot (h : health) | Ticks | Exits.

(** What [autoDisconnect] returns to. *)
Definition after_auto (k : option nat) : list pc := match k with Some s => [RoundDone s] | None => [] end.

Definition next_attempt (r : round) : pc :=
  if (r_attempt r <? reconnectAttempts)%nat then RoundStale (r <| r_attempt := S (r_attempt r) |>) else RoundExhausted r.

(** One step of a goroutine: the state after it, where the goroutine stands then
    (nowhere when it has ended) and the goroutines it has started. *)
Definition exec_connect (ch : choice) (p : pc) (a : app) : option (app * list pc) :=
  match p with
  | ConnConfig cfg => Some (a <| lastConfig := cfg |>, [ConnReset cfg])
  | ConnReset cfg => Some (reset_reconnect a, [ConnDropOld cfg])
  | ConnDropOld cfg => let '(old, a) := take_client a in Some (close_conn_opt old a, [ConnStopHealth cfg])
  | ConnStopHealth cfg => Some (stopHealthPusher a, [ConnPending cfg])
  | ConnPending cfg => let '(cli, a) := new_conn cfg a in Some (a <| pendingClient := Some cli |>, [Connecting cli true])
  | Connecting cli armed =>
      match ch with
      | TimerFires => if armed then Some (a, [Connecting cli false; Watchdog cli]) else None
      | ControlDials => if is_shut cli a then None else Some (control_up cli a, [Assigning cli armed])
      | ConnectEnds false => Some (undo cli a, [ConnUnpend cli false])
      | _ => None
      end
  | Assigning cli armed =>
      match ch with
      | TimerFires => if armed then Some (a, [Assigning cli false; Watchdog cli]) else None
      | ConnectEnds ok => Some (if ok then assign cli a else undo cli a, [ConnUnpend cli ok])
      | _ => None
      end
  | ConnUnpend cli ok =>
      let a := if bool_decide (pendingClient a = Some cli) then a <| pendingClient := None |> else a in
      Some (a, [if ok then ConnPublish cli else ConnFailed cli])
  | ConnFailed cli => Some ((close_conn cli a) <| tray := false |>, [])
  | ConnPublish cli => Some (publish cli a, [ConnTray])
  | ConnTray => Some (a <| tray := true |>, [StopOldPusher])
  | StopOldPusher => Some (stopHealthPusher a, [StartPusher])
  | StartPusher => let '(s, a) := make_chan a in Some (a <| healthStop := Some s |>, [Pushing s])
  | Watchdog cli => Some (close_conn cli a, [])
  | _ => None
  end.

Definition exec_health (ch : choice) (p : pc) (a : app) : option (app * list pc) :=
  match p with
  | Pushing s =>
      match ch with
      | Exits => if bool_decide (s ∈ chans_closed a) then Some (a, []) else None
      | Ticks => Some (a, [match quicClient a with Some cli => Looking s cli | None => Pushing s end])
      | _ => None
      end
  | Looking s cli =>
      match ch with
      | Snapshot HKicked => Some (a, [Kicked])
      | Snapshot HReconnecting => Some (a, [TryReconnect s])
      | Snapshot HOffline => Some (a, [AutoHealth None])
      | Snapshot HOther => Some (a, [Pushing s])
      | _ => None
      end
  | Kicked => Some (a <| reconnectExhausted := true |>, [AutoHealth None])
  | TryReconnect s =>
      match begin_round a with
      | None => Some (a, [Pushing s])
      | Some (c, ep, a) => Some (a, [TryConfig s c ep])
      end
  | TryConfig s c ep => Some (a, [Pushing s; RoundStale (mkRound c ep (lastConfig a) 1)])
  | _ => None
  end.

Definition exec_auto (p : pc) (a : app) : option (app * list pc) :=
  match p with
  | AutoHealth k => Some (stopHealthPusher a, [AutoAbort k])
  | AutoAbort k => Some (abortReconnectLocked a, [AutoTake k])
  | AutoTake k => let '(cli, a) := take_client a in Some (a, [AutoClose cli k])
  | AutoClose cli k => Some (close_conn_opt cli a, [AutoTray k])
  | AutoTray k => Some (a <| tray := false |>, after_auto k)
  | _ => None
  end.

Definition exec_round (ch : choice) (p : pc) (a : app) : option (app * list pc) :=
  match p with
  | RoundStale r => Some (a, [if stale (r_epoch r) a then RoundDone (r_stop r) else RoundTake r])
  | RoundTake r => let '(old, a) := take_client a in Some (a, [RoundClose r old])
  | RoundClose r old => Some (close_conn_opt old a, [RoundWait r])
  | RoundWait r =>
      match ch with
      | Exits => if bool_decide (r_stop r ∈ chans_closed a) then Some (a, [RoundDone (r_stop r)]) else None
      | Ticks => Some (a, [RoundStale2 r])
      | _ => None
      end
  | RoundStale2 r => Some (a, [if stale (r_epoch r) a then RoundDone (r_stop r) else RoundNew r])
  | RoundNew r => let '(cli, a) := new_conn (r_cfg r) a in Some (a, [RoundConnect r cli])
  | RoundConnect r cli =>
      match ch with
      | ControlDials => if is_shut cli a then None else Some (control_up cli a, [RoundAssign r cli])
      | ConnectEnds false => Some (undo cli a, [RoundFailed r cli])
      | _ => None
      end
  | RoundAssign r cli =>
      match ch with
      | ConnectEnds ok => Some (if ok then assign cli a else undo cli a, [if ok then RoundCheck r cli else RoundFailed r cli])
      | _ => None
      end
  | RoundFailed r cli => Some (close_conn cli a, [next_attempt r])
  | RoundCheck r cli => Some (a, [if stale (r_epoch r) a then RoundDrop r cli else RoundValid r cli])
  | RoundValid r cli => Some (a, [if stale (r_epoch r) a then RoundDrop r cli else RoundPublish r cli])
  | RoundDrop r cli => Some (close_conn cli a, [RoundDone (r_stop r)])
  | RoundPublish r cli => Some (publish cli a, [RoundTray r])
  | RoundTray r => Some (a <| tray := true |>, [RoundDone (r_stop r)])
  | RoundExhausted r => Some (a <| reconnectExhausted := true |>, [AutoHealth (Some (r_stop r))])
  | RoundDone s => Some (end_round s a, [])
  | _ => None
  end.

Definition exec_stop (p : pc) (a : app) : option (app * list pc) :=
  match p with
  | StopHealth => Some (stopHealthPusher a, [StopAbort])
  | StopAbort => Some (abortReconnectLocked a, [StopTake])
  | StopTake =>
      let '(cli, a') := take_client a in
      Some (a' <| pendingClient := None |>, [StopClose cli (pendingClient a)])
  | StopClose cli pending => Some (close_conn_opt pending (close_conn_opt cli a), [StopTray])
  | StopTray => Some (a <| tray := false |>, [])
  | _ => None
  end.

Definition exec (ch : choice) (p : pc) (a : app) : option (app * list pc) :=
  match exec_connect ch p a with
  | Some r => Some r
  | None => match exec_health ch p a with
            | Some r => Some r
            | None =>
                match exec_auto p a with
                | Some r => Some r
                | None => match exec_round ch p a with Some r => Some r | None => exec_stop p a end
                end
            end
  end.

(** ** Runs *)

Definition world : Type := app * list pc.

(** Any goroutine takes a step; or the user presses connect, or disconnect (the
    panel, the tray, quitting); or the server kicks a client that is connected, which
    then closes itself ([markKicked]). *)
Inductive step : world → world → Prop :=
  | step_run ch l1 p l2 a a' ps : exec ch p a = Some (a', ps) → step (a, l1 ++ p :: l2) (a', l1 ++ ps ++ l2)
  | step_connect cfg a l : step (a, l) (a, ConnConfig cfg :: l)
  | step_stop a l : step (a, l) (a, StopHealth :: l)
  | step_kick i c a l : conns a !! i = Some c → k_stage c = Assigned → step (a, l) (a, Watchdog i :: l).

Definition world0 : world := (NewApp, []).

(** Scripts: which goroutine steps next, by its place in the list, and what happens. *)
Inductive move := Turn (n : nat) (ch : choice) | PressConnect (cfg : ClientConfig) | PressStop | Kick (i : nat).

Definition do_move (m : move) (w : world) : option world :=
  match m with
  | PressConnect cfg => Some (w.1, ConnConfig cfg :: w.2)
  | PressStop => Some (w.1, StopHealth :: w.2)
  | Kick i =>
      match conns w.1 !! i with
      | Some c => if bool_decide (k_stage c = Assigned) then Some (w.1, Watchdog i :: w.2) else None
      | None => None
      end
  | Turn n ch =>
      match w.2 !! n with
      | None => None
      | Some p => match exec ch p w.1 with None => None | Some (a, ps) => Some (a, take n w.2 ++ ps ++ drop (S n) w.2) end
      end
  end.
Fixpoint play (ms : list move) (w : world) : option world :=
  match ms with [] => Some w | m :: ms => match do_move m w with Some w => play ms w | None => None end end.

Lemma do_move_step m w w' : do_move m w = Some w' → step w w'.
Proof.
  destruct m as [n ch|cfg| |i], w as [a l]; cbn; [|by intros [= <-]; constructor|by intros [= <-]; constructor|].
  2: { destruct (conns a !! i) as [c|] eqn:Ec; [|done]. destruct (bool_decide_reflect (k_stage c = Assigned)); [|done]. intros [= <-]. by eapply step_kick. }
  destruct (l !! n) as [p|] eqn:El; [|done]. destruct (exec ch p a) as [[a' ps]|] eqn:Ee; [|done]. intros [= <-].
  rewrite <- (take_drop_middle l n p El) at 1. by eapply step_run.
Qed.

Lemma play_rtc ms w w' : play ms w = Some w' → rtc step w w'.
Proof.
  revert w. induction ms as [|m ms IH]; intros w; cbn; [by intros [= <-]|]. destruct (do_move m w) as [w1|] eqn:E; [|done].
  intros H. eapply rtc_l; [by eapply do_move_step|by apply IH].
Qed.

Lemma reach_ind (R : relation world) (P : world → Prop) :
  P world0 → (∀ w w', rtc R world0 w → R w w' → P w → P w') → ∀ w, rtc R world0 w → P w.
Proof. intros H0 HS w. apply (rtc_ind_r P); eauto. Qed.

(** ** No channel is closed twice *)

Definition chan_ok (o : option nat) (a : app) : Prop := ∀ s, o = Some s → (s < next_chan a)%nat ∧ s ∉ chans_closed a.
Record chans_ok (a : app) : Prop := {
  ck_panic : panicked a = false;
  ck_closed : ∀ s, s ∈ chans_closed a → (s < next_chan a)%nat;
  ck_health : chan_ok (healthStop a) a;
  ck_round : chan_ok (reconnectStop a) a;
  ck_apart : ∀ s, healthStop a = Some s → reconnectStop a ≠ Some s;
}.

(** Steps that leave the channels alone. *)
Definition same_chans (a a' : app) : Prop :=
  panicked a' = panicked a ∧ chans_closed a' = chans_closed a ∧ next_chan a' = next_chan a ∧ healthStop a' = healthStop a ∧
  reconnectStop a' = reconnectStop a.

Lemma same_chans_ok a a' : same_chans a a' → chans_ok a → chans_ok a'.
Proof.
  intros (H1 & H2 & H3 & H4 & H5) []. split; unfold chan_ok in *; rewrite ?H1, ?H2, ?H3, ?H4, ?H5; done.
Qed.

Lemma stopHealthPusher_chans a : chans_ok a → chans_ok (stopHealthPusher a).
Proof.
  intros [Hp Hc Hh Hr Ha]. unfold stopHealthPusher, close_opt. destruct (healthStop a) as [s|] eqn:Es.
  - destruct (Hh s eq_refl) as [Hs1 Hs2]. unfold close_chan. rewrite bool_decide_eq_false_2 by done. split; cbn; try done.
    + intros t [->%elem_of_singleton|Ht]%elem_of_union; [done|by apply Hc].
    + intros t Ht. destruct (Hr t Ht) as [Ht1 Ht2]. split; [done|]. cbn. intros [->%elem_of_singleton|?]%elem_of_union; [|done]. by apply (Ha s).
  - by split.
Qed.

Lemma close_round_chans a : chans_ok a → chans_ok ((close_opt (reconnectStop a) a) <| reconnectStop := None |>).
Proof.
  intros [Hp Hc Hh Hr Ha]. unfold close_opt. destruct (reconnectStop a) as [s|] eqn:Es.
  - destruct (Hr s eq_refl) as [Hs1 Hs2]. unfold close_chan. rewrite bool_decide_eq_false_2 by done. split; cbn; try done.
    + intros t [->%elem_of_singleton|Ht]%elem_of_union; [done|by apply Hc].
    + intros t Ht. destruct (Hh t Ht) as [Ht1 Ht2]. split; [done|]. cbn. intros [->%elem_of_singleton|?]%elem_of_union; [|done]. by apply (Ha s).
  - by split.
Qed.

Lemma make_health_chans a : chans_ok a → chans_ok (a <| next_chan := S (next_chan a) |> <| healthStop := Some (next_chan a) |>).
Proof.
  intros [Hp Hc Hh Hr Ha]. split; cbn; try done.
  - intros s Hs. specialize (Hc s Hs). lia.
  - intros s [= <-]. cbn. split; [lia|]. intros Hs. specialize (Hc _ Hs). lia.
  - intros s Hs. destruct (Hr s Hs). cbn. split; [lia|done].
  - intros s [= <-] Hs. destruct (Hr _ Hs). lia.
Qed.

Lemma make_round_chans a b : chans_ok a → chans_ok (a <| next_chan := S (next_chan a) |> <| reconnecting := b |> <| reconnectStop := Some (next_chan a) |>).
Proof.
  intros [Hp Hc Hh Hr Ha]. split; cbn; try done.
  - intros s Hs. specialize (Hc s Hs). lia.
  - intros s Hs. destruct (Hh s Hs). cbn. split; [lia|done].
  - intros s [= <-]. cbn. split; [lia|]. intros Hs. specialize (Hc _ Hs). lia.
  - intros s Hs [= <-]. destruct (Hh _ Hs). lia.
Qed.

Lemma end_round_chans s a : chans_ok a → chans_ok (end_round s a).
Proof.
  intros H. unfold end_round. cbn. case_bool_decide; [|by apply (same_chans_ok a)].
  destruct H as [Hp Hc Hh Hr Ha]. split; done.
Qed.

Lemma abort_chans a : chans_ok a → chans_ok (abortReconnectLocked a).
Proof.
  intros H. assert (H' : chans_ok (a <| reconnectExhausted := true |>)) by (eapply same_chans_ok; [|exact H]; repeat split).
  exact (close_round_chans _ H').
Qed.

Lemma exec_chans ch p a a' ps : exec ch p a = Some (a', ps) → chans_ok a → chans_ok a'.
Proof.
  intros He H. assert (Hst := stopHealthPusher_chans a H). assert (Hcr := close_round_chans a H). assert (Hab := abort_chans a H).
  unfold exec in He.
  destruct p; cbn in He; unfold new_conn, take_client, make_chan, begin_round, close_conn, close_conn_opt, control_up, assign, undo, publish in He; cbn in He;
    repeat case_match; simplify_eq; try done; try (by eapply same_chans_ok; [|exact H]; repeat split);
    first [by apply make_health_chans | by apply make_round_chans | by apply end_round_chans | by eapply same_chans_ok; [|exact Hcr]; repeat split].
Qed.

(** No channel is closed twice, and the application never panics over one:
    whatever the user presses, whatever the connections do and however the user's
    calls, the health pusher, the rounds of reconnection and the watchdogs interleave,
    every [close] finds its channel open. *)
Theorem no_channel_closed_twice w : rtc step world0 w → panicked w.1 = false.
Proof.
  intros H. cut (chans_ok w.1); [by intros []|]. revert w H. apply (reach_ind step (λ w, chans_ok w.1)).
  - split; done.
  - intros w1 w2 _ Hs IH. destruct Hs; cbn in *; [by eapply exec_chans|done..].
Qed.

Lemma no_channel_closed_twice_witness :
  let ms := [PressConnect (mkConfig 1 false); Turn 0 Go; Turn 0 Go; Turn 0 Go; Turn 0 Go; Turn 0 Go; Turn 0 ControlDials; Turn 0 (ConnectEnds true); Turn 0 Go; Turn 0 Go; Turn 0 Go;
             Turn 0 Go; Turn 0 Go; PressStop; Turn 0 Go; PressConnect (mkConfig 2 false); Turn 0 Go; Turn 0 Go; Turn 1 Go] in
  match play ms world0 with Some w => panicked w.1 = false | None => False end.
Proof.
  intros ms. destruct (play ms world0) as [w|] eqn:E; [|vm_compute in E; discriminate].
  apply no_channel_closed_twice. by apply (play_rtc ms).
Defined.

(** ** Every live connection is accounted for *)

(** The client a goroutine has in its hands: it will close it, or publish it. *)
Definition held (p : pc) : list nat :=
  match p with
  | Connecting cli _ | Assigning cli _ | ConnUnpend cli _ | ConnFailed cli | ConnPublish cli => [cli]
  | AutoClose cli _ => match cli with Some c => [c] | None => [] end
  | RoundClose _ old => match old with Some c => [c] | None => [] end
  | RoundConnect _ cli | RoundAssign _ cli | RoundFailed _ cli | RoundCheck _ cli | RoundValid _ cli | RoundDrop _ cli | RoundPublish _ cli => [cli]
  | StopClose cli _ => match cli with Some c => [c] | None => [] end
  | _ => []
  end.

Definition is_live (a : app) (i : nat) : Prop := ∃ c, conns a !! i = Some c ∧ live c = true.

(** Where a live connection can be: shown, in some goroutine's hands, or lost. *)
Definition accounted (a : app) (l : list pc) : Prop :=
  ∀ i, is_live a i → quicClient a = Some i ∨ (∃ p, p ∈ l ∧ i ∈ held p) ∨ i ∈ lost a.

Lemma live_close i j a : is_live (close_conn j a) i → is_live a i ∧ i ≠ j.
Proof.
  intros (c & Hc & Hl). cbn in Hc. destruct (decide (i = j)) as [->|Hn].
  - rewrite lookup_alter_eq in Hc. destruct (conns a !! j) as [c'|]; [|done]. cbn in Hc. injection Hc as <-. unfold live in Hl. cbn in Hl. by rewrite andb_false_r in Hl.
  - rewrite lookup_alter_ne in Hc by done. split; [by exists c|done].
Qed.

Lemma live_close_opt i o a : is_live (close_conn_opt o a) i → is_live a i ∧ o ≠ Some i.
Proof. destruct o as [j|]; cbn; [|by intros]. intros [H Hn]%live_close. split; [done|congruence]. Qed.

Lemma live_control i j a : is_live (control_up j a) i → is_live a i ∧ i ≠ j.
Proof.
  intros (c & Hc & Hl). cbn in Hc. destruct (decide (i = j)) as [->|Hn].
  - rewrite lookup_alter_eq in Hc. destruct (conns a !! j) as [c'|]; [|done]. cbn in Hc. by injection Hc as <-.
  - rewrite lookup_alter_ne in Hc by done. split; [by exists c|done].
Qed.

Lemma live_undo i j a : is_live (undo j a) i → is_live a i ∧ i ≠ j.
Proof.
  intros (c & Hc & Hl). cbn in Hc. destruct (decide (i = j)) as [->|Hn].
  - rewrite lookup_alter_eq in Hc. destruct (conns a !! j) as [c'|]; [|done]. cbn in Hc. by injection Hc as <-.
  - rewrite lookup_alter_ne in Hc by done. split; [by exists c|done].
Qed.

Lemma live_assign i j a : is_live (assign j a) i → is_live a i ∨ i = j.
Proof.
  intros (c & Hc & Hl). cbn in Hc. destruct (decide (i = j)) as [->|Hn]; [by right|]. rewrite lookup_alter_ne in Hc by done. left. by exists c.
Qed.

Lemma live_new i cfg a : is_live (new_conn cfg a).2 i → is_live a i.
Proof.
  intros (c & Hc & Hl). cbn in Hc. apply lookup_insert_Some in Hc as [[_ <-]|[_ Hc]]; [done|by exists c].
Qed.

Lemma live_same i a a' : conns a' = conns a → is_live a' i → is_live a i.
Proof. intros H (c & Hc & Hl). rewrite H in Hc. by exists c. Qed.

(** What a step does to the account: a connection that is live afterwards was live
    and shown, in this goroutine's hands or elsewhere before, and is now as well. *)
Definition keeps_account (p : pc) (a a' : app) (ps : list pc) : Prop :=
  (∀ i, is_live a' i → is_live a i ∨ i ∈ held p) ∧
  (∀ i, is_live a' i → quicClient a = Some i → quicClient a' = Some i ∨ (∃ q, q ∈ ps ∧ i ∈ held q) ∨ i ∈ lost a') ∧
  (∀ i, is_live a' i → i ∈ held p → quicClient a' = Some i ∨ (∃ q, q ∈ ps ∧ i ∈ held q) ∨ i ∈ lost a') ∧
  (∀ i, i ∈ lost a → i ∈ lost a').

Lemma close_opt_conns o a : conns (close_opt o a) = conns a ∧ quicClient (close_opt o a) = quicClient a ∧ lost (close_opt o a) = lost a.
Proof. destruct o as [s|]; [|done]. cbn. unfold close_chan. by case_bool_decide. Qed.

#[local] Ltac live_steps Hl :=
  repeat first [ apply live_close_opt in Hl as [Hl ?] | apply live_close in Hl as [Hl ?] | apply live_control in Hl as [Hl ?] | apply live_undo in Hl as [Hl ?] | apply live_assign in Hl as [Hl|Hl] ].
#[local] Ltac account :=
  repeat match goal with
         | H : _ ∈ [] |- _ => by apply elem_of_nil in H
         | H : _ ∈ [_] |- _ => apply list_elem_of_singleton in H; subst
         end;
  simplify_eq/=;
  first [done | tauto | by (eexists; split; [by left|by left]) | by left | right; by left | by right | by (right; left; eexists; split; [by left|by left])
        | by (right; right; left) | right; right; by right].

(** What a step leaves of the account. *)
Definition account_of (a : app) : gmap nat conn * option nat * list nat := (conns a, quicClient a, lost a).

Lemma keeps_account_same p a a' ps : account_of a' = account_of a → (∀ i, i ∈ held p → ∃ q, q ∈ ps ∧ i ∈ held q) → keeps_account p a a' ps.
Proof.
  intros [= Hc Hq Hl] Hh. unfold keeps_account. split_and!; intros i Hi.
  - left. by eapply live_same.
  - rewrite Hq. by left.
  - intros Hin. right. left. by apply Hh.
  - by rewrite Hl.
Qed.

Lemma close_conn_opt_quic o a : quicClient (close_conn_opt o a) = quicClient a.
Proof. by destruct o. Qed.
Lemma close_conn_opt_lost o a : lost (close_conn_opt o a) = lost a.
Proof. by destruct o. Qed.

Lemma exec_account ch p a a' ps : exec ch p a = Some (a', ps) → keeps_account p a a' ps.
Proof.
  intros He. unfold exec in He.
  destruct p; cbn in He; unfold make_chan, begin_round, publish, stopHealthPusher, abortReconnectLocked, reset_reconnect, end_round in He; cbn in He;
    repeat case_match; simplify_eq;
    try (apply keeps_account_same; [unfold account_of, close_opt, close_chan; cbn; repeat case_match; reflexivity|intros i Hi; cbn in Hi |- *; account]).
  all: unfold keeps_account; split_and!; intros i Hl; try intros Hq; try cbn in Hq; try live_steps Hl; rewrite ?close_conn_opt_quic, ?close_conn_opt_lost; try account.
  all: first [ left; by apply (live_new _ cfg) | left; by apply (live_new _ (r_cfg r))
             | right; left; eexists; split; [by left|cbn; rewrite Hq; by left]
             | cbn in Hq; case_match; [account|by apply elem_of_nil in Hq] ].
Qed.

Lemma step_accounted w w' : step w w' → accounted w.1 w.2 → accounted w'.1 w'.2.
Proof.
  intros Hs Ha. destruct Hs as [ch l1 p l2 a a' ps He|cfg a l|a l|j c a l Hc Hst]; cbn in *.
  2-4: intros i Hi; destruct (Ha i Hi) as [?|[(q & Hq & Hin)|?]]; [by left| |by right; right]; right; left; exists q; split; [by right|done].
  - destruct (exec_account ch p a a' ps He) as (H1 & H2 & H3 & H4).
    assert (Hps : ∀ i, (∃ q, q ∈ ps ∧ i ∈ held q) → ∃ q, q ∈ l1 ++ ps ++ l2 ∧ i ∈ held q) by (intros i (q & Hq & Hi); exists q; set_solver).
    assert (Hh : ∀ i, is_live a' i → i ∈ held p → quicClient a' = Some i ∨ (∃ q, q ∈ l1 ++ ps ++ l2 ∧ i ∈ held q) ∨ i ∈ lost a') by naive_solver.
    intros i Hi. destruct (H1 i Hi) as [Hl|Hl]; [|by apply Hh].
    destruct (Ha i Hl) as [Hq|[(q & Hq & Hin)|Hlost]]; [naive_solver| |right; right; by apply H4].
    apply elem_of_app in Hq as [Hq|[->|Hq]%elem_of_cons]; [|by apply Hh|]; right; left; exists q; set_solver.
Qed.

(** ** One set-up at a time *)

(** The goroutines that will put a client into [quicClient]. *)
Definition setting_up (p : pc) : bool :=
  match p with
  | ConnConfig _ | ConnReset _ | ConnDropOld _ | ConnStopHealth _ | ConnPending _ | Connecting _ _ | Assigning _ _ | ConnUnpend _ true | ConnPublish _
  | RoundStale _ | RoundTake _ | RoundClose _ _ | RoundWait _ | RoundStale2 _ | RoundNew _ | RoundConnect _ _ | RoundAssign _ _ | RoundFailed _ _ | RoundCheck _ _
  | RoundValid _ _ | RoundPublish _ _ => true
  | _ => false
  end.
(** Those that have already taken the old one out. *)
Definition emptied (p : pc) : bool :=
  match p with
  | ConnStopHealth _ | ConnPending _ | Connecting _ _ | Assigning _ _ | ConnUnpend _ true | ConnPublish _
  | RoundClose _ _ | RoundWait _ | RoundStale2 _ | RoundNew _ | RoundConnect _ _ | RoundAssign _ _ | RoundFailed _ _ | RoundCheck _ _
  | RoundValid _ _ | RoundPublish _ _ => true
  | _ => false
  end.

Definition setups (l : list pc) : nat := length (filter (λ p, setting_up p = true) l).

(** Steps at which no second set-up begins. *)
Definition orderly (w w' : world) : Prop := step w w' ∧ (setups w'.2 <= 1)%nat.

Definition one_setup (a : app) (l : list pc) : Prop :=
  (setups l <= 1)%nat ∧ lost a = [] ∧ ∀ p, p ∈ l → emptied p = true → quicClient a = None.

Lemma setups_app l1 l2 : setups (l1 ++ l2) = (setups l1 + setups l2)%nat.
Proof. unfold setups. by rewrite filter_app, length_app. Qed.
Lemma setups_cons p l : setups (p :: l) = ((if setting_up p then 1 else 0) + setups l)%nat.
Proof. unfold setups. rewrite filter_cons. by destruct (setting_up p); case_decide. Qed.
Lemma setups_elem p l : p ∈ l → setting_up p = true → (1 <= setups l)%nat.
Proof. intros (l1 & l2 & ->)%list_elem_of_split Hp. rewrite setups_app, setups_cons, Hp. lia. Qed.
Lemma emptied_setting p : emptied p = true → setting_up p = true.
Proof. by destruct p. Qed.

(** A step of one goroutine keeps the field empty while it needs it so, loses nothing
    unless it publishes into a field in use, and fills the field only by publishing. *)
Lemma exec_one ch p a a' ps :
  exec ch p a = Some (a', ps) → (emptied p = true → quicClient a = None) →
  (lost a' = lost a) ∧ (∀ q, q ∈ ps → emptied q = true → quicClient a' = None) ∧
  (quicClient a = None → setting_up p = false → quicClient a' = None).
Proof.
  intros He Hp. unfold exec in He.
  destruct p; cbn in He, Hp; unfold make_chan, begin_round, publish, stopHealthPusher, abortReconnectLocked, reset_reconnect, end_round, take_client,
      new_conn, next_attempt in He; cbn in He;
    repeat case_match; simplify_eq/=;
    rewrite ?close_conn_opt_quic, ?close_conn_opt_lost;
    repeat match goal with |- context [close_opt ?o ?x] => pose proof (close_opt_conns o x) as (? & -> & ->) end;
    cbn; split_and!; try done; try (by auto);
    first [ specialize (Hp eq_refl); congruence
          | intros q Hq Hem; unfold after_auto in Hq; repeat case_match; repeat (apply elem_of_cons in Hq as [->|Hq]); first [done | by apply elem_of_nil in Hq] ].
Qed.

Lemma orderly_one w w' : orderly w w' → one_setup w.1 w.2 → one_setup w'.1 w'.2.
Proof.
  intros [Hs Hc] (H1 & H2 & H3). destruct Hs as [ch l1 p l2 a a' ps He|cfg a l|a l|j c a l Hj Hst]; cbn [fst snd] in *.
  2-4: split; [done|]; split; [done|]; intros q [->|Hq]%elem_of_cons Hem; [done|by apply (H3 q)].
  - destruct (exec_one ch p a a' ps He) as (E1 & E2 & E3); [intros Hem; apply (H3 p); [set_solver|done]|].
    split; [done|]. split; [congruence|]. intros q Hq Hem.
    assert (q ∈ ps ∨ q ∈ l1 ∨ q ∈ l2) as [Hps|Hl] by set_solver; [by apply (E2 q)|].
    assert (Hq1 : setting_up q = true) by by apply emptied_setting.
    apply E3; [apply (H3 q); [set_solver|done]|].
    destruct (setting_up p) eqn:Ep; [|done]. exfalso. rewrite setups_app, setups_cons, Ep in H1.
    destruct Hl as [Hl|Hl]; apply setups_elem in Hl; try done; lia.
Qed.

(** ** What is open *)

(** Something of the client is open, or may be. *)
Definition is_up (a : app) (i : nat) : Prop := ∃ c, conns a !! i = Some c ∧ up c = true.

(** A control connection, of a client without obfuscation, that was assigned when the client's [Close] had run. *)
Definition stray_conn (c : conn) : Prop := stray c = true ∧ shut c = true ∧ ObfsEnabled (k_cfg c) = false.
Definition is_stray (a : app) (i : nat) : Prop := ∃ c, conns a !! i = Some c ∧ stray_conn c.

Definition strays_ok (a : app) : Prop := map_Forall (λ _ c, stray c = true → stray_conn c) (conns a).

Lemma strays_alter (g : conn → conn) j a : (∀ c, (stray c = true → stray_conn c) → stray (g c) = true → stray_conn (g c)) →
  strays_ok a → strays_ok (a <| conns := alter g j (conns a) |>).
Proof. intros Hg Ha i c Hi. cbn in Hi. apply lookup_alter_Some in Hi as [[-> (c0 & Hc & ->)]|[_ Hc]]; [apply Hg; by eapply Ha|by eapply Ha]. Qed.

Lemma strays_close j a : strays_ok a → strays_ok (close_conn j a).
Proof. apply strays_alter. intros c H Hs. destruct (H Hs) as (_ & H1 & H2). by split_and!. Qed.
Lemma strays_close_opt o a : strays_ok a → strays_ok (close_conn_opt o a).
Proof. destruct o; [apply strays_close|done]. Qed.
Lemma strays_control j a : strays_ok a → strays_ok (control_up j a).
Proof. by apply strays_alter. Qed.
Lemma strays_undo j a : strays_ok a → strays_ok (undo j a).
Proof. by apply strays_alter. Qed.
Lemma strays_assign j a : strays_ok a → strays_ok (assign j a).
Proof. apply strays_alter. intros c _ Hs. pose proof Hs as [H1 H2%negb_true_iff]%andb_true_iff. by split_and!. Qed.
Lemma strays_new cfg a : strays_ok a → strays_ok (new_conn cfg a).2.
Proof. intros Ha. apply map_Forall_insert_2; [done|exact Ha]. Qed.
Lemma strays_same a a' : conns a' = conns a → strays_ok a → strays_ok a'.
Proof. unfold strays_ok. by intros ->. Qed.

Lemma exec_strays ch p a a' ps : exec ch p a = Some (a', ps) → strays_ok a → strays_ok a'.
Proof.
  intros He Ha. unfold exec in He.
  destruct p; cbn in He; unfold make_chan, begin_round, publish, stopHealthPusher, abortReconnectLocked, reset_reconnect, end_round, take_client in He; cbn in He;
    repeat case_match; simplify_eq;
    try (by apply (strays_same a); [cbn; repeat match goal with |- context [close_opt ?o ?x] => pose proof (close_opt_conns o x) as (-> & _ & _) end|]).
  all: first [ exact Ha | by apply strays_close | by apply strays_close_opt | by apply strays_control | by apply strays_undo | by apply strays_assign
    | apply (strays_same (new_conn cfg a).2); [done|by apply strays_new] | by apply (strays_new (r_cfg r))
    | by apply (strays_close_opt _ (a <| quicClient := None |>))
    | apply (strays_same (close_conn cli a)); [done|by apply strays_close]
    | by apply strays_close_opt, strays_close_opt ].
Qed.

(** The clients whose [Connect] a goroutine is in. *)
Definition connects_for (p : pc) : list nat :=
  match p with Connecting cli _ | Assigning cli _ | RoundConnect _ cli | RoundAssign _ cli => [cli] | _ => [] end.

Definition opening (a : app) (i : nat) : Prop := ∃ c, conns a !! i = Some c ∧ unfinished c = true.

Lemma opening_alter (g : conn → conn) i j a : opening (a <| conns := alter g j (conns a) |>) i →
  (i ≠ j ∧ opening a i) ∨ (i = j ∧ ∃ c, conns a !! i = Some c ∧ unfinished (g c) = true).
Proof.
  intros (c & Hc & Hu). cbn in Hc. apply lookup_alter_Some in Hc as [[-> (c0 & Hc & ->)]|[Hn Hc]]; [right|left]; (split; [done|]); eexists; by split.
Qed.

Lemma opening_close i j a : opening (close_conn j a) i → opening a i.
Proof. intros [[_ H]|(_ & c & Hc & Hu)]%opening_alter; [done|by exists c]. Qed.
Lemma opening_close_opt i o a : opening (close_conn_opt o a) i → opening a i.
Proof. destruct o; [apply opening_close|done]. Qed.
Lemma opening_control i j a : opening (control_up j a) i → opening a i ∨ i = j.
Proof. intros [[_ H]|[H _]]%opening_alter; [by left|by right]. Qed.
Lemma opening_undo i j a : opening (undo j a) i → opening a i ∧ i ≠ j.
Proof. by intros [[H1 H2]|(_ & c & _ & ?)]%opening_alter. Qed.
Lemma opening_assign i j a : opening (assign j a) i → opening a i ∧ i ≠ j.
Proof. by intros [[H1 H2]|(_ & c & _ & ?)]%opening_alter. Qed.
Lemma opening_new i cfg a : opening (new_conn cfg a).2 i → opening a i ∨ i = (new_conn cfg a).1.
Proof. intros (c & Hc & Hu). cbn in Hc. apply lookup_insert_Some in Hc as [[<- _]|[_ Hc]]; [by right|left; by exists c]. Qed.
Lemma opening_same i a a' : conns a' = conns a → opening a' i → opening a i.
Proof. intros E (c & Hc & Hu). rewrite E in Hc. by exists c. Qed.

Lemma exec_opening ch p a a' ps i : exec ch p a = Some (a', ps) → opening a' i →
  (opening a i ∧ i ∉ connects_for p) ∨ ∃ q, q ∈ ps ∧ i ∈ connects_for q.
Proof.
  intros He Ho. unfold exec in He.
  destruct p; cbn in He; unfold make_chan, begin_round, publish, stopHealthPusher, abortReconnectLocked, reset_reconnect, end_round, take_client in He; cbn in He;
    repeat case_match; simplify_eq;
    try (left; split; [|by apply not_elem_of_nil];
      first [ by apply (opening_same _ a) in Ho; [|cbn; repeat match goal with |- context [close_opt ?o ?x] => pose proof (close_opt_conns o x) as (-> & _ & _) end]
            | by apply opening_close in Ho | by apply opening_close_opt in Ho | by apply opening_close_opt, opening_close_opt in Ho
            | by apply (opening_close_opt _ _ (a <| quicClient := None |>)) in Ho | by apply (opening_close i cli a) ]).
  all: try (apply opening_undo in Ho as [Ho Hn]; left; split; [done|cbn; set_solver]).
  all: try (apply opening_assign in Ho as [Ho Hn]; left; split; [done|cbn; set_solver]).
  all: first [ apply (opening_new i cfg a) in Ho as [Ho| ->] | apply (opening_new i (r_cfg r) a) in Ho as [Ho| ->] | apply opening_control in Ho as [Ho| ->] | idtac ].
  all: try (right; eexists; split; [by left|cbn; by left]).
  all: try (left; split; [done|by apply not_elem_of_nil]).
  all: destruct (decide (i = cli)) as [->|Hn]; [right; eexists; split; [by left|cbn; by left]|left; split; [done|cbn; set_solver]].
Qed.

(** What is opening is in the hands of the goroutine that runs its [Connect]. *)
Definition in_hand (a : app) (l : list pc) : Prop := ∀ i, opening a i → ∃ p, p ∈ l ∧ i ∈ connects_for p.

Lemma step_opens w w' : step w w' → strays_ok w.1 ∧ in_hand w.1 w.2 → strays_ok w'.1 ∧ in_hand w'.1 w'.2.
Proof.
  intros Hs [H1 H2]. destruct Hs as [ch l1 p l2 a a' ps He|cfg a l|a l|j c a l Hc Hst]; cbn [fst snd] in *.
  2-4: split; [done|]; intros i (q & Hq & Hi)%H2; exists q; split; [by right|done].
  split; [by eapply exec_strays|]. intros i [[Ho Hn]|(q & Hq & Hi)]%(exec_opening _ _ _ _ _ _ He).
  - destruct (H2 i Ho) as (q & Hq & Hi). exists q. split; [|done]. set_solver.
  - exists q. split; [set_solver|done].
Qed.

Lemma connects_held p i : i ∈ connects_for p → i ∈ held p.
Proof. destruct p; cbn; try done; by intros ?%elem_of_nil. Qed.

(** C40: As long as one set-up at a time is under way - a call of [ConnectClient] or a
    round of reconnection, next to any number of disconnects, health pushers,
    watchdogs and clients that were kicked, a Close coming before, between or after the last steps of a [Connect] - every client of which
    anything is open is the one the application shows, or in the hands of a goroutine that will close or publish
    it; but for one case: the control connection of a client without obfuscation whose [Close] came
    between that connection's set-up and its assignment. Once the goroutines have come to rest, nothing
    but the client shown, and such a connection, is open. *)
Theorem one_setup_leaks_nothing w :
  rtc orderly world0 w →
  (∀ i, is_up w.1 i → is_stray w.1 i ∨ quicClient w.1 = Some i ∨ ∃ p, p ∈ w.2 ∧ i ∈ held p) ∧
  ((∀ p, p ∈ w.2 → held p = []) → ∀ i, is_up w.1 i → is_stray w.1 i ∨ quicClient w.1 = Some i).
Proof.
  intros H.
  assert ((accounted w.1 w.2 ∧ one_setup w.1 w.2) ∧ strays_ok w.1 ∧ in_hand w.1 w.2) as [[Ha (_ & Hl & _)] [Hs Ho]].
  { revert w H. apply (reach_ind orderly (λ w, (accounted w.1 w.2 ∧ one_setup w.1 w.2) ∧ strays_ok w.1 ∧ in_hand w.1 w.2)).
    - split; [split; [|split; [cbn; lia|]; split; [done|]; intros p Hp; by apply elem_of_nil in Hp]|split; [by apply map_Forall_empty|]];
        intros i (c & Hc & _); cbn in Hc; by rewrite lookup_empty in Hc.
    - intros w w' _ Hst [[Ha Hone] Hop]. split; [split; [by eapply step_accounted; [apply Hst|]|by eapply orderly_one]|by eapply step_opens; [apply Hst|]]. }
  assert (Hacc : ∀ i, is_up w.1 i → is_stray w.1 i ∨ quicClient w.1 = Some i ∨ ∃ p, p ∈ w.2 ∧ i ∈ held p).
  { intros i (c & Hc & [[Hu|Hv]%orb_true_iff|Hy]%orb_true_iff).
    - right; right. destruct (Ho i) as (p & Hp & Hi); [by exists c|]. exists p. split; [done|by apply connects_held].
    - right. destruct (Ha i) as [?|[?|Hlost]]; [by exists c|by left|by right|]. rewrite Hl in Hlost. by apply elem_of_nil in Hlost.
    - left. exists c. split; [done|by apply (Hs i c)]. }
  split; [done|]. intros Hrest i Hi. destruct (Hacc i Hi) as [?|[?|(p & Hp & Hin)]]; [by left|by right|]. rewrite (Hrest p Hp) in Hin. by apply elem_of_nil in Hin.
Qed.

Fixpoint play_orderly (ms : list move) (w : world) : option world :=
  match ms with
  | [] => Some w
  | m :: ms =>
      match do_move m w with
      | Some w => if (setups w.2 <=? 1)%nat then play_orderly ms w else None
      | None => None
      end
  end.

Lemma play_orderly_rtc ms w w' : play_orderly ms w = Some w' → rtc orderly w w'.
Proof.
  revert w. induction ms as [|m ms IH]; intros w; cbn; [by intros [= <-]|]. destruct (do_move m w) as [w1|] eqn:E; [|done].
  destruct (Nat.leb_spec (setups w1.2) 1); [|done].
  intros Hp. eapply rtc_l; [|by apply IH]. split; [by eapply do_move_step|done].
Qed.

(** Connecting from the first section to the new health pusher; disconnecting. *)
Definition plain_cfg (n : nat) : ClientConfig := mkConfig n false.
Definition connects (n : nat) : list move :=
  PressConnect (plain_cfg n) :: replicate 5 (Turn 0 Go) ++ [Turn 0 ControlDials; Turn 0 (ConnectEnds true)] ++ replicate 5 (Turn 0 Go).
Definition disconnects : list move := PressStop :: replicate 5 (Turn 0 Go).

Lemma one_setup_leaks_nothing_witness :
  let ms := connects 1 ++ [Turn 0 Ticks; Turn 0 (Snapshot HReconnecting); Turn 0 Go; Turn 0 Go; Turn 1 Go; Turn 1 Go; Turn 1 Go; Turn 1 Ticks;
                           Turn 1 Go; Turn 1 Go; Turn 1 ControlDials; Turn 1 (ConnectEnds true); Turn 1 Go; Turn 1 Go; Turn 1 Go; Turn 1 Go; Turn 1 Go] in
  match play_orderly ms world0 with
  | Some w => quicClient w.1 = Some 1%nat ∧ ∀ i, is_up w.1 i → is_stray w.1 i ∨ quicClient w.1 = Some i
  | None => False
  end.
Proof.
  intros ms. destruct (play_orderly ms world0) as [w|] eqn:E; [|vm_compute in E; discriminate].
  destruct (one_setup_leaks_nothing w) as [_ H]; [by apply (play_orderly_rtc ms)|].
  assert (F : quicClient w.1 = Some 1%nat ∧ Forall (λ p, held p = []) w.2) by (vm_compute in E; injection E as <-; split; [done|by repeat constructor]).
  destruct F as [F1 F2]. split; [done|]. apply H. by apply Forall_forall.
Defined.

(** ** Where set-ups overlap *)

(** A script leads to a reachable world. *)
Lemma script_reaches ms (P : world → Prop) : match play ms world0 with Some w => P w | None => False end → ∃ w, rtc step world0 w ∧ P w.
Proof. intros H. destruct (play ms world0) as [w|] eqn:E; [|done]. exists w. split; [by eapply play_rtc|done]. Qed.

(** A connected client whose pusher (at place [n]) starts a round of reconnection; the
    round then stands at [n + 1], before its first check. *)
Definition pusher_starts_round (n : nat) : list move :=
  [Turn n Ticks; Turn n (Snapshot HReconnecting); Turn n Go; Turn n Go].
(** The round runs up to its publication. *)
Definition round_connects (n : nat) : list move :=
  [Turn n Go; Turn n Go; Turn n Go; Turn n Ticks; Turn n Go; Turn n Go; Turn n ControlDials; Turn n (ConnectEnds true); Turn n Go; Turn n Go].

(** The epoch check does not cover the publication: a round that has passed its last
    check overwrites the connection the user has made meanwhile. That connection is
    up, nobody can reach it, and nothing will ever close it. *)
Lemma round_overwrites_new_connection :
  ∃ w, rtc step world0 w ∧ ∃ i j, lost w.1 = [i] ∧ quicClient w.1 = Some j ∧ i ≠ j ∧ is_live w.1 i ∧ is_live w.1 j ∧
    Forall (λ p, held p = []) w.2 ∧ (k_cfg <$> conns w.1 !! j) = Some (plain_cfg 1) ∧ lastConfig w.1 = plain_cfg 2.
Proof.
  apply (script_reaches (connects 1 ++ pusher_starts_round 0 ++ round_connects 1 ++ connects 2 ++ [Turn 2 Go])).
  vm_compute. eexists _, _. split_and!; try done; try (eexists; split; reflexivity). repeat constructor.
Qed.

(** Nor the taking: a round that has passed its first check closes the new connection. *)
Lemma round_closes_new_connection :
  ∃ w, rtc step world0 w ∧ (k_cfg <$> conns w.1 !! 1%nat) = Some (plain_cfg 2) ∧ (k_stage <$> conns w.1 !! 1%nat) = Some Assigned ∧
    (live <$> conns w.1 !! 1%nat) = Some false ∧ quicClient w.1 = None ∧ Forall (λ p, p ≠ StopHealth) w.2 ∧ lastConfig w.1 = plain_cfg 2.
Proof.
  apply (script_reaches (connects 1 ++ pusher_starts_round 0 ++ [Turn 1 Go] ++ connects 2 ++ [Turn 2 Go; Turn 2 Go])).
  vm_compute. split_and!; try done. repeat constructor; done.
Qed.

(** The end of an old round clears the mark of a newer one: two rounds run at once,
    neither of them outdated. *)
Lemma two_rounds_at_once :
  ∃ w, rtc step world0 w ∧ ∃ r1 r2, RoundStale r1 ∈ w.2 ∧ RoundStale r2 ∈ w.2 ∧ r_stop r1 ≠ r_stop r2 ∧
    stale (r_epoch r1) w.1 = false ∧ stale (r_epoch r2) w.1 = false.
Proof.
  apply (script_reaches (connects 1 ++ pusher_starts_round 0 ++ [Turn 1 Go; Turn 1 Go; Turn 1 Go; Turn 1 Ticks; Turn 1 Go; Turn 1 Go] ++ connects 2 ++
     pusher_starts_round 0 ++ [Turn 0 Ticks; Turn 0 (Snapshot HReconnecting)] ++
     [Turn 3 (ConnectEnds false); Turn 3 Go; Turn 3 Go; Turn 3 Go] ++ [Turn 0 Go; Turn 0 Go])).
  vm_compute. eexists _, _. split_and!; [by right; left|by right; right; left|done..].
Qed.

(** A verdict on the old connection disconnects the new one: the pusher of the old
    one has read it as off line, the user connects anew, the pusher goes on. *)
Lemma old_verdict_disconnects_new :
  ∃ w, rtc step world0 w ∧ quicClient w.1 = None ∧ (k_stage <$> conns w.1 !! 1%nat) = Some Assigned ∧ (live <$> conns w.1 !! 1%nat) = Some false ∧
    tray w.1 = false ∧ lastConfig w.1 = plain_cfg 2.
Proof.
  apply (script_reaches (connects 1 ++ [Turn 0 Ticks; Turn 0 (Snapshot HOffline)] ++ connects 2 ++ replicate 5 (Turn 1 Go))).
  by vm_compute.
Qed.

(** Disconnecting does not reach a connection between the end of [Connect] and its
    publication: after [Stop] has run to its end the connection goes up and is shown. *)
Lemma stop_misses_connection :
  ∃ w, rtc step world0 w ∧ ∃ i, quicClient w.1 = Some i ∧ is_live w.1 i ∧ tray w.1 = true ∧ w.2 = [Pushing 0].
Proof.
  apply (script_reaches (PressConnect (plain_cfg 1) :: replicate 5 (Turn 0 Go) ++ [Turn 0 ControlDials; Turn 0 (ConnectEnds true); Turn 0 Go] ++ disconnects ++ replicate 4 (Turn 0 Go))).
  vm_compute. eexists. split_and!; try done. eexists; split; reflexivity.
Qed.

(** One step earlier it closes the connection, which is published and shown all the same. *)
Lemma stopped_connection_shown :
  ∃ w, rtc step world0 w ∧ ∃ i, quicClient w.1 = Some i ∧ ¬ is_live w.1 i ∧ tray w.1 = true ∧ w.2 = [Pushing 0].
Proof.
  apply (script_reaches (PressConnect (plain_cfg 1) :: replicate 5 (Turn 0 Go) ++ [Turn 0 ControlDials; Turn 0 (ConnectEnds true)] ++ disconnects ++ replicate 5 (Turn 0 Go))).
  vm_compute. eexists. split_and!; try done. intros (c & Hc & Hl). by injection Hc as <-.
Qed.

(** ** A Close that comes too early *)

(** No [Close] reaches such a control connection any more: the one there is has run. *)
Lemma stray_not_closed a i j : is_stray a i → is_stray (close_conn j a) i ∧ is_up (close_conn j a) i.
Proof.
  intros (c & Hc & H1 & H2 & H3). assert (E : ∃ c', conns (close_conn j a) !! i = Some c' ∧ stray_conn c').
  { cbn. destruct (decide (i = j)) as [->|Hn]; [rewrite lookup_alter_eq, Hc|rewrite lookup_alter_ne by done]; eexists; by split. }
  destruct E as (c' & E & S). split; exists c'; [done|]. split; [done|]. unfold up. by rewrite (proj1 S), orb_true_r.
Qed.

(** Pressing disconnect while [Connect] has set up the control connection but not put it into its field:
    [Connect] succeeds, the closed client is shown, disconnecting once more takes it away,
    and its control connection stays up, with nobody to close it. *)
Lemma close_misses_control_connection :
  ∃ w, rtc orderly world0 w ∧ ∃ i, is_up w.1 i ∧ is_stray w.1 i ∧ quicClient w.1 = None ∧ Forall (λ p, held p = []) w.2 ∧ tray w.1 = false.
Proof.
  set (ms := PressConnect (plain_cfg 1) :: replicate 5 (Turn 0 Go) ++ [Turn 0 ControlDials] ++ disconnects ++ [Turn 0 (ConnectEnds true)] ++
    replicate 5 (Turn 0 Go) ++ disconnects).
  destruct (play_orderly ms world0) as [w|] eqn:E; [|vm_compute in E; discriminate]. exists w. split; [by eapply play_orderly_rtc|].
  vm_compute in E. injection E as <-. exists 0%nat. split_and!; [by eexists; split|by eexists; split|done|by repeat constructor|done].
Qed.

(** With obfuscation the same run leaves nothing open: the transport all share is closed. *)
Lemma obfuscated_client_closed :
  ∃ w, rtc orderly world0 w ∧ (up <$> conns w.1 !! 0%nat) = Some false ∧ quicClient w.1 = Some 0%nat.
Proof.
  set (ms := PressConnect (mkConfig 1 true) :: replicate 5 (Turn 0 Go) ++ [Turn 0 ControlDials] ++ disconnects ++ [Turn 0 (ConnectEnds true)] ++
    replicate 5 (Turn 0 Go)).
  destruct (play_orderly ms world0) as [w|] eqn:E; [|vm_compute in E; discriminate]. exists w. split; [by eapply play_orderly_rtc|].
  vm_compute in E. by injection E as <-.
Qed.
